(* ===== verification/_CoqProject ===== *)
-Q . S2P
Prelude.v
ErrCode.v
Addr.v
IList.v
Capability.v
CHolder.v
Buddy.v
Gfp.v
Memory.v
MemFrames.v
Sv39.v
Vma.v
VmaInv.v
VmaOps.v
VmaFault.v
RingBuf.v
Pipe.v
Sched.v
Wait.v
Future.v
Endpoint.v
Reply.v
Slub.v
Malloc.v
HashMap.v
TmpFs.v
PageCache.v
PageCacheInv.v
PageCacheSpec.v
PageCacheOps.v
PageCacheFile.v
PageCacheRefines.v
BlockQueue.v
BlockService.v
BlockCache.v
BlockCacheInv.v
BlockCacheRun.v
BlockCacheStore.v
Notif.v
Path.v
PathBelow.v
TarFs.v
Vfs.v
VfsResolve.v
VfsMounts.v
Rpc.v
