(* ===== verification/Prelude.v ===== *)
(** * A verification library for the Sustcore kernel

    Sustcore (src/kernel) is a capability microkernel in C++ for riscv64 and
    loongarch64.  User programs hold capabilities to kernel objects: memory,
    pipes, endpoints, notifications, mutexes.  Below them are address spaces with
    page tables, the page-frame allocator, the kernel heap, the scheduler, the wait
    queues, and file systems behind a page cache;
    beside them libraries for lists, hash tables, ring buffers, paths and RPC packets.  This
    library translates these parts into executable definitions and proves what makes
    them correct.

    ** How code is modelled

    A machine integer is a [Z] with its wrap-around written out ([add64], [sub64]
    and the like below).  A pointer is a [Z], 0 the null pointer; objects that are
    allocated and freed live in a finite map from pointers, and reading or freeing
    an object that is not there is a [Panic].  So a theorem that says an operation
    returns also says that it uses no freed memory and fails no assertion.  A
    routine of the kernel is a computation of the monad [M S A] of [ErrCode]: it
    finishes with a [Result] and a state, panics, or runs out of the model's fuel.
    The theorems claim that the routines return; they never assume it.

    ** Atomicity

    A routine of the model, or a stretch of it up to its next wait, is one step, and an
    execution is a sequence of steps.  For code that runs inside a [GuardedLock] or an
    [InterruptGuard] (endpoints, replies, notifications, mutexes, pipes, [schedule], the
    slabs and the heap, each section under the lock of a request queue) that is what the
    kernel does on its one hart.  Elsewhere it is not: system calls run with interrupts on
    (syscall.cpp 1389), and [handle_trap] calls [schedule] after every trap, also after
    one taken in the kernel (riscv64/int/exception.cpp 1007).  So futures outside such
    code, the buffer cache, capability holders, memory objects, address spaces, the page
    allocator, the file systems and the page cache (which takes its lock for parts of a
    routine) are modelled as running undisturbed, and their theorems are about the
    executions in which no routine is preempted by another one that works on the same
    data.

    ** The files

    - [Prelude]: machine integers, lemmas on lists, maps and bits that the components
      share.
    - [ErrCode] (include/sustcore/errcode.h): error codes, [Result], [propagate], the
      monad and its rewriting lemmas.
    - [Addr] (include/sustcore/addr.h, include/sus/range.h): address spaces,
      conversions, page rounding, ranges.
    - [IList] (include/sus/list.h): the intrusive doubly linked lists, as links in one
      heap.  The main theorem says that on live nodes they are sequences, which is how
      the other components use them.
    - [Capability], [CHolder] (kernel/cap): capability indices and permissions, the
      two-level table of a holder, reference-counted payloads, and every operation of
      a holder.  Payload classes are the interface [PayloadOps], the memory manager of
      a task [TmmOps].
    - [Buddy] (kernel/mem/buddy.h, buddy.cpp): the page-frame allocator with its node
      pools, splitting and merging.
    - [Gfp] (kernel/mem/gfp.h, gfp.cpp): reference counts of page frames over the
      interface [RawGFP], with [buddy_raw] and [linear_raw] as its instances.
    - [Memory] (kernel/object/memory.h, memory.cpp): memory objects with lazily
      allocated, file-backed and copy-on-write pages, over the interfaces [PageFrames]
      and [VFileOps]; [MemFrames] makes [Gfp] an instance of [PageFrames].
    - [Sv39] (kernel/arch/riscv64/mem/sv39.h): page tables of three levels with huge
      pages.
    - [Vma] (kernel/mem/vma.h, vma.cpp and [MemoryObject] of memory.cpp): address
      spaces and page faults, over [Memory] and [Sv39]; [VmaInv], [VmaOps] and [VmaFault]
      have their theorems.
    - [RingBuf] (include/sus/ringbuf.h) and [Pipe] (kernel/object/pipe.cpp).
    - [Sched] (kernel/schd, kernel/task/scheduler.cpp): the five scheduling classes and
      the scheduler; [Wait] (kernel/task/wait.cpp): wait queues and blocking.
    - [Future] (kernel/task/wait.h): promises and futures over the interface [Waker],
      which the wait queues implement ([FutureSched.sched_waker]).
    - [Endpoint] (kernel/object/endpoint.cpp): message passing; [Reply]: one-shot
      replies of the same file; [Notif]
      (kernel/object/notif.cpp, mutex.cpp): signals and mutexes.  All use [Future].
    - [Slub] (kernel/mem/slub.h): the slab allocator of one object type; [Malloc]
      (kernel/mem/slub.h, alloc.h): the kernel heap over it and over page runs, the
      interface [PageRuns] with the boot allocator as its instance [linear_runs].
    - [HashMap] (include/std/c++/unordered_map): the hash tables; they are the instance
      [hash_umap] of the interface [UMap], which the file systems use.
    - [TmpFs] (kernel/vfs/tmpfs.cpp): the memory file system.
    - [Vfs] (kernel/vfs/vfs.h, vfs.cpp): drivers, mounts and their capabilities, the cache
      of inodes, path resolution, handles and the operations on them, over the interface
      [FileSystems].  [VfsResolve] has the interface [FsLaws] of what file systems show,
      the reference walk and the theorems on resolution, with a small file system,
      [VfsToy], as an instance; [VfsMounts] runs the calls of users in any order.
    - [TarFs] (kernel/vfs/tarfs.h, tarfs.cpp): archives as read-only file systems.
    - [PageCache] (kernel/vfs/vfs.h, vfs.cpp): cached file pages, over the interfaces
      [IFile] and [PageFrames].  [PageCacheInv] has the interface [FileLaws] of file
      systems, with [TmpFs] as its instance [tmpfs_laws], and the invariant;
      [PageCacheSpec], [PageCacheOps] and [PageCacheFile] show that the operations keep
      it, and [PageCacheRefines] has the specification and the theorem.
    - [BlockQueue] (kernel/bio/request.h, request.cpp, block.h, block.cpp): the request
      queue of a block device, the memory disk and its worker; [BlockService] runs it with
      threads in any order and has its specification, a server that answers in order.
    - [BlockCache] (kernel/bio/buffer.h, buffer.cpp): the buffer cache over the queue, with
      what waiting threads do next as jobs.  [BlockCacheInv] has the invariant and the
      blocks the cache shows, [BlockCacheRun] the triples of the routines, and
      [BlockCacheStore] the specification, a block store, and the theorem.
    - [Path] (libs/basecpp/path.cpp), with [PathBelow] for paths below a directory and
      from the root, and [Rpc] (libs/rpc/packet.cpp).

    ** What is proved

    - Capabilities: the operations keep the reference counts exact and authority never
      grows; what [derive] and [transfer_to] install and when they fail ([derive] stops the
      kernel when the slab is empty); that a clone keeps [MIGRATE_ONCE] against its
      documentation.
    - Page frames: an allocation moves exactly a run of free pages to its caller, a
      release moves exactly the given pages back, and no page with references is free.
    - Memory objects, in continuity mode too: operations on one object change no other, a
      clone is a copy, [write] stores what it reports.
    - Address spaces: areas stay valid and disjoint, unmapping leaves no translation
      behind, a resolved page fault shows the byte the area assigns to the address and
      gives write access only to a frame no one shares; two defects of resizing.
    - Page tables: [map_page] adds exactly one translation; [modify_range_flags] can
      overrun its range.
    - Scheduling: [schedule] loses no runnable thread and picks the highest class,
      round-robin order and slices, blocking and waking.
    - Communication: a pipe is a byte stream, a ring buffer a bounded queue, a future
      settles and is read once, an endpoint is a first-come first-served rendezvous, a
      reply object a mailbox of one message, a notification loses no wake-up;
      destroying an endpoint strands its waiters.
    - The kernel heap: live objects and blocks are aligned, disjoint and inside memory
      the heap owns, and no operation of the heap touches their contents; when [malloc]
      gives null, and when it stops the kernel.
    - Files: the memory file system is a tree of named nodes, its files are sequences of
      bytes, each node has one path ([unlink] frees nodes that are open); the page cache
      does not show, and what was written reaches the file system.  A hole of a cached
      file reads as its end.
    - Archives: every member of a tar archive is read back, directories list and find
      exactly their members, and checking an image returns; accepted images with a member
      that ends outside, members that are not listed or not found.
    - The virtual file system: resolution follows a reference walk over mounts and links,
      and returns when no link is absolute (an absolute loop is followed for ever); mounts
      count their open files exactly and no mount record goes before its handles, under one
      condition on detaching; programs that use superblocks, records or directory objects
      that are gone.
    - Block devices: the request queue answers every request once and in order, its worker
      sleeps only when the ring is empty, is woken for every request and gets to all of
      them; the buffer cache is a block store as long as threads keep to what its
      routines can cope with ([BlockCacheStore.allowed]), and programs
      that do not show what is lost: writes during a write back, dirty buffers that are
      evicted or tidied, waiters for a buffer that was freed or that nobody wakes.
    - Lists, tables, paths and packets: intrusive lists are sequences, hash tables are
      finite maps, [normalize] keeps where a path leads, [relative_to] inverts joining,
      packets survive encoding.

    ** Bounds and fuel

    Recursion that is not structural has fuel, and the theorems show that the fuel
    given is enough: a scan of a list has its length; [Path] has two rounds more than
    the path has characters; the pools of [Buddy] expand at most [EXPAND_FUEL] = 16
    deep, more than the orders there are; the loops of [Memory] have one round for each
    page of the request, those of [PageCache] two more (the first and the last page are
    partial); the greatest common divisor of [HashMap] has 130 rounds, more than two
    64-bit numbers need; a walk of [Sv39] has the three levels.  Path resolution of
    [Vfs] has the depth of its recursion as fuel, and [VfsResolve] says which is enough.
    The class [RawCredit] and the index [c] of [Waker.wk_inv] count how many more requests
    fit: page frames, wait descriptors (a 64-bit counter that is never reused).  Whether a heap
    allocation succeeds is an argument of the operation, so both cases are covered.
    The ring of a block device holds [DEPTH] = 128 requests, its default, and a thread
    submits only while it has room.  A request to the page-frame interface is of at most
    [2^15] pages; a memory file system sees fewer than [2^64 - 3] operations, so its inode
    numbers do not wrap.

    ** What is not modelled

    Registers, the TLB and the context switch ([Sched] changes the current thread
    only); coroutines ([co_await] on a future); the boot code, the drivers and the
    device tree; the LoongArch page tables; the Linux subsystem and the user modules.
    [clone_to_cow] and the constructor of address spaces are modelled without theorems.
    A node of the virtual file system that no one keeps is deleted at the end of a call, not
    within it, and the theorem on mounts does not cover what closing a handle does to its
    node.  [FsLaws] takes the lookup of a file system to fail only with [ENTRY_NOT_FOUND]
    and directories to have no entry [..]; its instance is [VfsToy], not one of the file
    systems of src/kernel/vfs.  Ext4, procfs and the device files, the registry of block
    devices and the destructor of the buffer cache, tasks, signals, the ELF loader and the
    system calls are not modelled.

    Where the code tests the result of [new] against null, a failed allocation takes that
    branch ([new_cap], [new_send], [ensure_buffer], the nodes of [TmpFs]), although a
    compiler may take an [operator new] that is not [noexcept] to give no null pointer;
    where it does not test it, the model panics ([add_record] of [Malloc]) or takes the
    allocation to succeed ([HashMap]).  The sections under the lock of the request queue
    that make up [submit] and [drain_and_stop] are one step each.  [types.reserve] in the
    decoding of packets is left out. *)

From Stdlib Require Export ZArith Lia.
From stdpp Require Export base gmap strings sets numbers.
From stdpp Require Export list.

#[global] Open Scope Z_scope.

(** ** Machine integers

    A [w]-bit unsigned integer of the source is a [Z]; every operation that can
    leave the range [0 .. 2^w) is written with its wrap-around. *)

Definition W64 : Z := 2 ^ 64.
Definition W32 : Z := 2 ^ 32.

Definition wrap64 (z : Z) : Z := z mod W64.
Definition wrap32 (z : Z) : Z := z mod W32.

Declare Scope u64_scope.
Delimit Scope u64_scope with u64.

Definition add64 (a b : Z) : Z := wrap64 (a + b).
Definition sub64 (a b : Z) : Z := wrap64 (a - b).
Definition mul64 (a b : Z) : Z := wrap64 (a * b).
Definition shl64 (a n : Z) : Z := wrap64 (Z.shiftl a n).
Definition not64 (a : Z) : Z := W64 - 1 - a.

Infix "+" := add64 : u64_scope.
Infix "-" := sub64 : u64_scope.
Infix "*" := mul64 : u64_scope.

Definition is_u64 (z : Z) : Prop := 0 <= z < W64.
Definition is_u32 (z : Z) : Prop := 0 <= z < W32.

(** [BITS_IMPLIES(owned, required)]: every bit of [required] is in [owned]. *)
Definition bits_implies (owned required : Z) : bool :=
  Z.land owned required =? required.

(** ** Tactics *)

(** Turn the boolean comparisons of the executable definitions into
    propositions, in the hypotheses and in the goal. *)
Ltac zify_bools :=
  repeat match goal with
  | H : context [Z.eqb ?a ?b = true] |- _ => rewrite Z.eqb_eq in H
  | H : context [Z.eqb ?a ?b = false] |- _ => rewrite Z.eqb_neq in H
  | H : context [Z.leb ?a ?b = true] |- _ => rewrite Z.leb_le in H
  | H : context [Z.leb ?a ?b = false] |- _ => rewrite Z.leb_gt in H
  | H : context [Z.ltb ?a ?b = true] |- _ => rewrite Z.ltb_lt in H
  | H : context [Z.ltb ?a ?b = false] |- _ => rewrite Z.ltb_ge in H
  | H : context [andb ?a ?b = true] |- _ => rewrite andb_true_iff in H
  | H : context [orb ?a ?b = true] |- _ => rewrite orb_true_iff in H
  | H : context [orb ?a ?b = false] |- _ => rewrite orb_false_iff in H
  | H : context [negb ?a = true] |- _ => rewrite negb_true_iff in H
  | H : context [negb ?a = false] |- _ => rewrite negb_false_iff in H
  | |- context [Z.eqb ?a ?b = true] => rewrite Z.eqb_eq
  | |- context [Z.eqb ?a ?b = false] => rewrite Z.eqb_neq
  | |- context [Z.leb ?a ?b = true] => rewrite Z.leb_le
  | |- context [Z.leb ?a ?b = false] => rewrite Z.leb_gt
  | |- context [Z.ltb ?a ?b = true] => rewrite Z.ltb_lt
  | |- context [Z.ltb ?a ?b = false] => rewrite Z.ltb_ge
  | |- context [andb ?a ?b = true] => rewrite andb_true_iff
  | |- context [orb ?a ?b = true] => rewrite orb_true_iff
  | |- context [orb ?a ?b = false] => rewrite orb_false_iff
  | |- context [negb ?a = true] => rewrite negb_true_iff
  | |- context [negb ?a = false] => rewrite negb_false_iff
  end.

(** Case on the innermost condition of a [match] or [if] of the goal. *)
Ltac case_goal :=
  match goal with
  | |- context [match ?x with _ => _ end] =>
      lazymatch x with
      | context [match _ with _ => _ end] => fail
      | _ => let E := fresh "Ecase" in destruct x eqn:E
      end
  end.

(** The same for one hypothesis. *)
Ltac case_hyp H :=
  match type of H with
  | context [match ?x with _ => _ end] =>
      lazymatch x with
      | context [match _ with _ => _ end] => fail
      | _ => let E := fresh "Ecase" in destruct x eqn:E
      end
  end.

Create HintDb sust discriminated.
Create HintDb u64 discriminated.

(** ** Arithmetic shared by the components *)

Lemma W64_pos : 0 < W64.
Proof. reflexivity. Qed.

Lemma wrap64_small z : is_u64 z → wrap64 z = z.
Proof. intros H. by apply Z.mod_small. Qed.

Lemma wrap64_range z : is_u64 (wrap64 z).
Proof. apply Z.mod_pos_bound, W64_pos. Qed.

#[export] Hint Resolve W64_pos wrap64_range : u64.

Lemma bits_implies_spec owned required :
  bits_implies owned required = true ↔
  ∀ n, 0 <= n → Z.testbit required n = true → Z.testbit owned n = true.
Proof.
  unfold bits_implies. rewrite Z.eqb_eq. split.
  - intros H n _ Hn. rewrite <- H, Z.land_spec in Hn.
    by apply andb_true_iff in Hn as [??].
  - intros H. apply Z.bits_inj'. intros n Hn. rewrite Z.land_spec.
    destruct (Z.testbit required n) eqn:E; [by rewrite (H n Hn E)|apply andb_false_r].
Qed.

Lemma bits_implies_refl a : bits_implies a a = true.
Proof. unfold bits_implies. rewrite Z.land_diag. apply Z.eqb_refl. Qed.

Lemma bits_implies_trans a b c :
  bits_implies a b = true → bits_implies b c = true → bits_implies a c = true.
Proof. rewrite !bits_implies_spec. eauto. Qed.

Lemma bits_implies_ldiff a b : bits_implies a (Z.ldiff a b) = true.
Proof.
  apply bits_implies_spec. intros n _. rewrite Z.ldiff_spec, andb_true_iff.
  by intros [??].
Qed.

#[export] Hint Resolve bits_implies_refl bits_implies_ldiff : sust.
#[export] Hint Resolve bits_implies_trans : sust.

(** [x & ~m] of two 64-bit values is the set difference of their bits. *)
Lemma land_not64 x m : 0 <= x → is_u64 x → is_u64 m → Z.land x (not64 m) = Z.ldiff x m.
Proof.
  intros _ Hx Hm. unfold not64, is_u64, W64 in *.
  replace (2 ^ 64 - 1 - m) with (Z.ldiff (Z.ones 64) m).
  - apply Z.bits_inj'. intros n Hn.
    rewrite Z.land_spec, !Z.ldiff_spec, Z.testbit_ones_nonneg by lia.
    destruct (Z.ltb_spec n 64) as [|Hge]; [done|].
    rewrite <- (Z.mod_small x (2 ^ 64)) by lia.
    by rewrite Z.mod_pow2_bits_high by lia.
  - rewrite <- Z.sub_nocarry_ldiff.
    + rewrite Z.ones_equiv. lia.
    + apply Z.bits_inj'. intros n Hn.
      rewrite Z.ldiff_spec, Z.testbit_0_l, Z.testbit_ones_nonneg by lia.
      destruct (Z.ltb_spec n 64) as [|Hge]; [by rewrite andb_false_r|].
      rewrite <- (Z.mod_small m (2 ^ 64)) by lia.
      by rewrite Z.mod_pow2_bits_high by lia.
Qed.

(** Masking with the high part of a word rounds down to a multiple. *)
Lemma ldiff_ones_round x n : 0 <= n → Z.ldiff x (Z.ones n) = x / 2 ^ n * 2 ^ n.
Proof.
  intros Hn. rewrite Z.ldiff_ones_r by done.
  rewrite Z.shiftl_mul_pow2, Z.shiftr_div_pow2 by done. done.
Qed.
