(* ===== verification/ErrCode.v ===== *)
(** * Error codes, results and effects

    [include/sustcore/errcode.h]: the error codes, [Result<T>] and the
    [propagate] macros.  A kernel routine that reads and writes state is a
    computation [M S A]: it either finishes with a result and a state, or it
    stops the kernel ([assert], [panic]), or the model's loop fuel ran out (the
    theorems that claim a result exclude the last two).

    [x ← m; k] is the code's [auto x = m; propagate(x); k], and [attempt m]
    gives the result itself, for code that inspects [has_value()]. *)

From S2P Require Import Prelude.

#[local] Open Scope Z_scope.

Inductive ErrCode :=
  | SUCCESS | FAILURE | INVALID_PARAM | OUT_OF_BOUNDARY | NOT_SUPPORTED
  | BUSY | OUT_OF_MEMORY | NULLPTR | ALLOCATION_FAILED | KEY_DUPLICATED
  | FUTURE_ERROR | FUTURE_PENDING | FUTURE_CANCLED | FUTURE_CONSUMED
  | TIMEOUT | INTERRUPTED
  | CAP_ERROR | INVALID_CAPABILITY | INSUFFICIENT_PERMISSIONS
  | TYPE_NOT_MATCHED | PAYLOAD_ERROR | CREATION_FAILED | INVALID_TOKEN
  | NO_FREE_SLOT
  | FS_ERROR | ENTRY_NOT_FOUND
  | IO_ERROR | WOULD_BLOCK | BROKEN_PIPE
  | TASK_ERROR | NO_RUNNABLE_THREAD | NO_MESSAGE
  | MEM_ERROR | PAGE_NOT_PRESENT | INVALID_PTE
  | DEVICE_ERROR | FDT_ERROR | INVALID_PROPERTY_TYPE
  | UNKNOWN_ERROR.

(** [SLOT_BUSY] is an alias of [BUSY]. *)
Definition SLOT_BUSY : ErrCode := BUSY.

#[export] Instance ErrCode_eq_dec : EqDecision ErrCode.
Proof. solve_decision. Defined.

(** The numeric value of each code ([enum class ErrCode : int]). *)
Definition errcode_val (e : ErrCode) : Z :=
  match e with
  | SUCCESS => 0x000000 | FAILURE => 0x00FFFF
  | INVALID_PARAM => 0x1 | OUT_OF_BOUNDARY => 0x2 | NOT_SUPPORTED => 0x3
  | BUSY => 0x4 | OUT_OF_MEMORY => 0x5 | NULLPTR => 0x6
  | ALLOCATION_FAILED => 0x7 | KEY_DUPLICATED => 0x8 | FUTURE_ERROR => 0x9
  | FUTURE_PENDING => 0xA | FUTURE_CANCLED => 0xB | FUTURE_CONSUMED => 0xC
  | TIMEOUT => 0xD | INTERRUPTED => 0xE
  | CAP_ERROR => 0x010000 | INVALID_CAPABILITY => 0x010001
  | INSUFFICIENT_PERMISSIONS => 0x010003 | TYPE_NOT_MATCHED => 0x010004
  | PAYLOAD_ERROR => 0x010005 | CREATION_FAILED => 0x010006
  | INVALID_TOKEN => 0x010007 | NO_FREE_SLOT => 0x010008
  | FS_ERROR => 0x020000 | ENTRY_NOT_FOUND => 0x020001
  | IO_ERROR => 0x030000 | WOULD_BLOCK => 0x030001 | BROKEN_PIPE => 0x030002
  | TASK_ERROR => 0x040000 | NO_RUNNABLE_THREAD => 0x040001
  | NO_MESSAGE => 0x040002
  | MEM_ERROR => 0x050000 | PAGE_NOT_PRESENT => 0x050001
  | INVALID_PTE => 0x050002
  | DEVICE_ERROR => 0x060000 | FDT_ERROR => 0x060001
  | INVALID_PROPERTY_TYPE => 0x060002
  | UNKNOWN_ERROR => 0xFFFFFF
  end.

Inductive Result (A : Type) : Type :=
  | Ok (a : A)
  | Err (e : ErrCode).
Arguments Ok {A} _.
Arguments Err {A} _.

Definition has_value {A} (r : Result A) : bool :=
  match r with Ok _ => true | Err _ => false end.

#[export] Instance Result_ret : MRet Result := λ A a, Ok a.
#[export] Instance Result_bind : MBind Result := λ A B f r,
  match r with Ok a => f a | Err e => Err e end.
#[export] Instance Result_fmap : FMap Result := λ A B f r,
  match r with Ok a => Ok (f a) | Err e => Err e end.

(** ** Stateful computations *)

Inductive outcome (S A : Type) : Type :=
  | Fin (r : Result A) (s : S)
  | Panic
  | OutOfFuel.
Arguments Fin {S A} _ _.
Arguments Panic {S A}.
Arguments OutOfFuel {S A}.

Definition M (S A : Type) : Type := S → outcome S A.

Section monad.
Context {S : Type}.

#[global] Instance M_ret : MRet (M S) := λ A a s, Fin (Ok a) s.
#[global] Instance M_bind : MBind (M S) := λ A B k m s,
  match m s with
  | Fin (Ok a) s' => k a s'
  | Fin (Err e) s' => Fin (Err e) s'
  | Panic => Panic
  | OutOfFuel => OutOfFuel
  end.

(** [unexpect_return(e)] *)
Definition fail {A} (e : ErrCode) : M S A := λ s, Fin (Err e) s.
(** [panic(...)] and a failed [assert]. *)
Definition panic {A} : M S A := λ _, Panic.
Definition massert (b : bool) : M S unit := λ s,
  if b then Fin (Ok tt) s else Panic.
Definition attempt {A} (m : M S A) : M S (Result A) := λ s,
  match m s with
  | Fin r s' => Fin (Ok r) s'
  | Panic => Panic
  | OutOfFuel => OutOfFuel
  end.
Definition of_result {A} (r : Result A) : M S A := λ s, Fin r s.
Definition get_st : M S S := λ s, Fin (Ok s) s.
Definition gets {A} (f : S → A) : M S A := λ s, Fin (Ok (f s)) s.
Definition modify (f : S → S) : M S unit := λ s, Fin (Ok tt) (f s).
Definition no_fuel {A} : M S A := λ _, OutOfFuel.

(** Total correctness: the computation finishes, and its result and final
    state satisfy [Q]. *)
Definition wp {A} (m : M S A) (s : S) (Q : Result A → S → Prop) : Prop :=
  match m s with
  | Fin r s' => Q r s'
  | Panic | OutOfFuel => False
  end.

Lemma wp_mono {A} (m : M S A) s (P Q : Result A → S → Prop) :
  wp m s P → (∀ r s', P r s' → Q r s') → wp m s Q.
Proof. unfold wp. destruct (m s); naive_solver. Qed.

Lemma wp_bind {A B} (m : M S A) (k : A → M S B) s Q :
  wp m s (λ r s', match r with Ok a => wp (k a) s' Q | Err e => Q (Err e) s' end) →
  wp (m ≫= k) s Q.
Proof. unfold wp, mbind, M_bind. destruct (m s) as [[]| |]; done. Qed.

Lemma wp_ret {A} (a : A) s (Q : Result A → S → Prop) : Q (Ok a) s → wp (mret a) s Q.
Proof. done. Qed.

Lemma wp_fail {A} e s (Q : Result A → S → Prop) : Q (Err e) s → wp (fail e) s Q.
Proof. done. Qed.

Lemma wp_attempt {A} (m : M S A) s (Q : Result (Result A) → S → Prop) :
  wp m s (λ r s', Q (Ok r) s') → wp (attempt m) s Q.
Proof. unfold wp, attempt. destruct (m s); done. Qed.

Lemma wp_assert (b : bool) s (Q : Result unit → S → Prop) :
  b = true → Q (Ok tt) s → wp (massert b) s Q.
Proof. by intros ->. Qed.

Lemma wp_fin {A} (m : M S A) s r s' (Q : Result A → S → Prop) :
  wp m s Q → m s = Fin r s' → Q r s'.
Proof. unfold wp. intros H E. by rewrite E in H. Qed.

Lemma wp_fin_iff {A} (m : M S A) s (Q : Result A → S → Prop) :
  wp m s Q ↔ ∃ r s', m s = Fin r s' ∧ Q r s'.
Proof.
  unfold wp. split.
  - destruct (m s) as [r s'| |]; [eauto|done|done].
  - intros (r & s' & E & HQ). by rewrite E.
Qed.

(** Running a sequence whose first part is known. *)
Lemma bind_run {A B} (m : M S A) (k : A → M S B) s a s1 :
  m s = Fin (Ok a) s1 → (m ≫= k) s = k a s1.
Proof. unfold mbind, M_bind. by intros ->. Qed.
Lemma bind_run_err {A B} (m : M S A) (k : A → M S B) s e s1 :
  m s = Fin (Err e) s1 → (m ≫= k) s = Fin (Err e) s1.
Proof. unfold mbind, M_bind. by intros ->. Qed.
End monad.

(** One step of symbolic execution of a [wp] goal. *)
Ltac wp_step :=
  first
    [ apply wp_bind
    | apply wp_ret
    | apply wp_fail
    | apply wp_attempt
    | progress (unfold gets, modify, get_st, of_result; cbn beta iota) ].

Arguments fail : simpl never.
Arguments panic : simpl never.

(** The codes are pairwise distinct numbers, so that a caller that receives
    one over the system-call boundary can tell them apart. *)
Lemma errcode_val_inj e1 e2 : errcode_val e1 = errcode_val e2 → e1 = e2.
Proof. destruct e1; destruct e2; vm_compute; congruence. Qed.
