(* ===== verification/Addr.v ===== *)
(** * Addresses and ranges

    [include/sustcore/addr.h] and [include/sus/range.h]: page rounding, the
    address scopes of the kernel, conversions between the physical address
    space and the two kernel windows, and half-open ranges.  An [Addr<T>]
    object is the 64-bit number it wraps. *)

From S2P Require Import Prelude ErrCode.

#[local] Open Scope Z_scope.

Definition PAGESIZE : Z := 0x1000.

Definition is_pow2 (n : Z) : bool := (0 <? n) && (Z.land n (n - 1) =? 0).

(** [~0xFFF] is an [int] that converts to the 64-bit mask 0xFFFF'FFFF'FFFF'F000. *)
Definition PAGE_MASK : Z := not64 0xFFF.

Definition page_align_up (a : Z) : Z := Z.land (add64 a 0xFFF) PAGE_MASK.
Definition page_align_down (a : Z) : Z := Z.land a PAGE_MASK.

Inductive AddrType := KVA | KPA | PA | VADDR.

Record AddrScope := { scope_start : Z; scope_end : Z }.

Definition NULL_ADDR : Z := 0.
Definition MAX_ADDR : Z := 0xFFFFFFFFFFFFFFFF.
Definition KVA_OFFSET : Z := 0xFFFFFFFF00000000.
Definition KPA_OFFSET : Z := 0xFFFFFFC000000000.

Definition KVA_SCOPE := {| scope_start := KVA_OFFSET; scope_end := MAX_ADDR |}.
Definition KPA_SCOPE := {| scope_start := KPA_OFFSET; scope_end := KVA_OFFSET - 1 |}.
Definition PA_SCOPE := {| scope_start := NULL_ADDR; scope_end := KPA_OFFSET - 1 |}.
Definition VADDR_SCOPE := {| scope_start := NULL_ADDR; scope_end := MAX_ADDR |}.

Definition KVA2PA (ka : Z) : Z := sub64 ka KVA_OFFSET.
Definition PA2KVA (pa : Z) : Z := add64 pa KVA_OFFSET.
Definition KPA2PA (ka : Z) : Z := sub64 ka KPA_OFFSET.
Definition PA2KPA (pa : Z) : Z := add64 pa KPA_OFFSET.

Definition get_scope (t : AddrType) : AddrScope :=
  match t with
  | KVA => KVA_SCOPE
  | KPA => KPA_SCOPE
  | PA => PA_SCOPE
  | VADDR => VADDR_SCOPE
  end.

Definition within_scope (a : Z) (t : AddrType) : bool :=
  if a =? 0 then true
  else (scope_start (get_scope t) <=? a) && (a <=? scope_end (get_scope t)).

(** The [Addr<T>] constructor asserts the scope: [None] is the failed assertion. *)
Definition mk_addr (t : AddrType) (a : Z) : option Z :=
  if within_scope a t then Some a else None.

Definition nonnull (a : Z) : bool := negb (a =? 0).
Definition aligned (a alignment : Z) : bool := a mod alignment =? 0.

Definition align_up (a alignment : Z) : Z :=
  Z.land (sub64 (add64 a alignment) 1) (not64 (alignment - 1)).
Definition align_down (a alignment : Z) : Z := Z.land a (not64 (alignment - 1)).

(** [convert<To>(From)]; [None] where the target's constructor asserts. *)
Definition convert (to from : AddrType) (a : Z) : option Z :=
  if negb (nonnull a) then Some 0
  else match from, to with
  | PA, PA => Some a
  | PA, KPA => mk_addr KPA (PA2KPA a)
  | PA, KVA => mk_addr KVA (PA2KVA a)
  | KPA, PA => mk_addr PA (KPA2PA a)
  | KPA, KPA => Some a
  | KPA, KVA => mk_addr KVA (PA2KVA (KPA2PA a))
  | KVA, PA => mk_addr PA (KVA2PA a)
  | KVA, KPA => mk_addr KPA (PA2KPA (KVA2PA a))
  | KVA, KVA => Some a
  | _, _ => None
  end.

(** [convert_pointer]: the first scope of PA, KPA, KVA that holds the pointer. *)
Definition detect_type (a : Z) : AddrType :=
  if within_scope a PA then PA
  else if within_scope a KPA then KPA
  else if within_scope a KVA then KVA
  else PA.

Definition convert_pointer (a : Z) : option Z :=
  match detect_type a with
  | PA => a' ← mk_addr PA a; convert PA PA a'
  | KPA => a' ← mk_addr KPA a; convert PA KPA a'
  | KVA => a' ← mk_addr KVA a; convert PA KVA a'
  | VADDR => None
  end.

Definition is_user_vaddr (a : Z) : bool :=
  within_scope a VADDR && negb (within_scope a KVA) && negb (within_scope a KPA).

(** ** Ranges *)

Record Range := { rbegin : Z; rend : Z }.

#[export] Instance Range_eq_dec : EqDecision Range.
Proof. solve_decision. Defined.

Definition nullable (r : Range) : bool := rend r <=? rbegin r.
Definition rsize (r : Range) : Z := sub64 (rend r) (rbegin r).
Definition range_eqb (a b : Range) : bool :=
  (rbegin a =? rbegin b) && (rend a =? rend b).
Definition intersection (a b : Range) : Range :=
  let cbegin := Z.max (rbegin a) (rbegin b) in
  let cend := Z.min (rend a) (rend b) in
  if cend <=? cbegin then {| rbegin := 0; rend := 0 |}
  else {| rbegin := cbegin; rend := cend |}.
Definition is_intersecting (a b : Range) : bool :=
  Z.max (rbegin a) (rbegin b) <? Z.min (rend a) (rend b).
Definition within (r : Range) (v : Z) : bool := (rbegin r <=? v) && (v <? rend r).
Definition within_range (r other : Range) : bool :=
  (rbegin r <=? rbegin other) && (rend other <=? rend r).

Definition page_align_inward (r : Range) : Range :=
  {| rbegin := page_align_up (rbegin r); rend := page_align_down (rend r) |}.
Definition page_align_outward (r : Range) : Range :=
  {| rbegin := page_align_down (rbegin r); rend := page_align_up (rend r) |}.

(** ** Page rounding *)

Lemma page_align_down_div a : is_u64 a → page_align_down a = a / 4096 * 4096.
Proof.
  intros Ha. unfold page_align_down, PAGE_MASK.
  rewrite land_not64 by (unfold is_u64, W64 in *; lia).
  change 0xFFF with (Z.ones 12). by rewrite ldiff_ones_round.
Qed.

Lemma page_align_up_div a :
  is_u64 a → page_align_up a = wrap64 (a + 4095) / 4096 * 4096.
Proof.
  intros Ha. unfold page_align_up, add64.
  change (Z.land (wrap64 (a + 0xFFF)) PAGE_MASK) with (page_align_down (wrap64 (a + 4095))).
  rewrite page_align_down_div; auto with u64.
Qed.

(** A rounded address is a page boundary no further than a page away; the
    rounding up wraps to 0 exactly in the last page of the address space. *)
Lemma page_align_down_spec a :
  is_u64 a →
  page_align_down a <= a < page_align_down a + PAGESIZE ∧
  page_align_down a mod PAGESIZE = 0.
Proof.
  intros Ha. rewrite page_align_down_div by done. unfold PAGESIZE.
  split; [|by rewrite Z.mod_mul]. pose proof (Z.div_mod a 4096).
  pose proof (Z.mod_pos_bound a 4096). lia.
Qed.

Lemma page_align_up_spec a :
  is_u64 a → a <= W64 - PAGESIZE →
  a <= page_align_up a < a + PAGESIZE ∧ page_align_up a mod PAGESIZE = 0.
Proof.
  intros Ha Hle. rewrite page_align_up_div by done. unfold PAGESIZE, is_u64 in *.
  rewrite wrap64_small by (unfold is_u64; lia).
  split; [|by rewrite Z.mod_mul]. pose proof (Z.div_mod (a + 4095) 4096).
  pose proof (Z.mod_pos_bound (a + 4095) 4096). lia.
Qed.

Lemma page_align_up_wraps a :
  is_u64 a → W64 - PAGESIZE < a → page_align_up a = 0.
Proof.
  intros Ha Hgt. rewrite page_align_up_div by done. unfold PAGESIZE, is_u64, W64 in *.
  unfold wrap64, W64. replace (a + 4095) with (a + 4095 - 2 ^ 64 + 1 * 2 ^ 64) by lia.
  rewrite Z.mod_add by lia. rewrite Z.mod_small by lia. rewrite Z.div_small; lia.
Qed.

Lemma page_align_down_u64 a : is_u64 a → is_u64 (page_align_down a).
Proof.
  intros Ha. pose proof (page_align_down_spec a Ha) as [? _].
  rewrite page_align_down_div by done. unfold is_u64 in *.
  pose proof (Z.div_pos a 4096). rewrite page_align_down_div in * by done. lia.
Qed.

Lemma page_align_down_idem a :
  is_u64 a → a mod PAGESIZE = 0 → page_align_down a = a.
Proof.
  intros Ha Hm. rewrite page_align_down_div by done. unfold PAGESIZE in *.
  pose proof (Z.div_mod a 4096). lia.
Qed.

Lemma page_align_up_idem a :
  is_u64 a → a mod PAGESIZE = 0 → page_align_up a = a.
Proof.
  intros Ha Hm.
  assert (a <= W64 - PAGESIZE).
  { unfold PAGESIZE, is_u64, W64 in *. pose proof (Z.div_mod a 4096). lia. }
  rewrite page_align_up_div by done. unfold PAGESIZE, is_u64 in *.
  rewrite wrap64_small by (unfold is_u64; lia).
  pose proof (Z.div_mod a 4096). replace (a + 4095) with (4095 + a / 4096 * 4096) by lia.
  rewrite Z.div_add by lia. rewrite (Z.div_small 4095) by lia. lia.
Qed.

(** The exact user half of the address space: the null address is in every
    scope, so it is not a user address. *)
Lemma is_user_vaddr_spec a :
  is_u64 a → is_user_vaddr a = true ↔ 0 < a < KPA_OFFSET.
Proof.
  unfold is_u64, W64, is_user_vaddr, within_scope. intros Ha.
  cbn. unfold NULL_ADDR, MAX_ADDR, KVA_OFFSET, KPA_OFFSET.
  destruct (Z.eqb_spec a 0) as [->|]; cbn; [split; [done|lia]|].
  zify_bools. rewrite !andb_false_iff. zify_bools. lia.
Qed.

(** ** Ranges *)

Lemma within_spec r v : within r v = true ↔ rbegin r <= v < rend r.
Proof. unfold within. zify_bools. lia. Qed.

Lemma is_intersecting_spec a b :
  is_intersecting a b = true ↔ ∃ v, within a v = true ∧ within b v = true.
Proof.
  unfold is_intersecting. zify_bools. setoid_rewrite within_spec. split.
  - intros H. exists (Z.max (rbegin a) (rbegin b)). lia.
  - intros (v & ? & ?). lia.
Qed.

Lemma is_intersecting_sym a b : is_intersecting a b = is_intersecting b a.
Proof. unfold is_intersecting. by rewrite Z.max_comm, Z.min_comm. Qed.

Lemma range_eqb_eq a b : range_eqb a b = true ↔ a = b.
Proof.
  unfold range_eqb. zify_bools. destruct a, b; cbn. split; [intros [??]|intros [=]]; by subst.
Qed.

(** ** Conversions *)

Lemma PA2KPA_small pa :
  0 <= pa < KVA_OFFSET - KPA_OFFSET → PA2KPA pa = pa + KPA_OFFSET.
Proof. intros H. apply wrap64_small. unfold is_u64, W64, KVA_OFFSET, KPA_OFFSET in *. lia. Qed.

Lemma within_kpa a :
  0 < a → within_scope a KPA = true ↔ KPA_OFFSET <= a < KVA_OFFSET.
Proof.
  intros Ha. unfold within_scope. destruct (Z.eqb_spec a 0); [lia|]. cbn. zify_bools. lia.
Qed.

Lemma within_pa a : 0 < a → within_scope a PA = true ↔ a < KPA_OFFSET.
Proof.
  intros Ha. unfold within_scope. destruct (Z.eqb_spec a 0); [lia|]. cbn.
  unfold NULL_ADDR. zify_bools. lia.
Qed.

Lemma convert_pa_of_kpa pa :
  0 < pa < KVA_OFFSET - KPA_OFFSET → convert PA KPA (pa + KPA_OFFSET) = Some pa.
Proof.
  intros Hpa. unfold convert, nonnull, mk_addr, KPA2PA, sub64.
  destruct (Z.eqb_spec (pa + KPA_OFFSET) 0); [unfold KPA_OFFSET in *; lia|]. cbn.
  replace (pa + KPA_OFFSET - KPA_OFFSET) with pa by lia.
  rewrite wrap64_small by (unfold is_u64, W64, KPA_OFFSET, KVA_OFFSET in *; lia).
  rewrite (proj2 (within_pa pa ltac:(lia))); [done|].
  unfold KPA_OFFSET, KVA_OFFSET in *; lia.
Qed.

Lemma PA2KPA_high pa :
  KVA_OFFSET - KPA_OFFSET <= pa < KPA_OFFSET →
  within_scope (PA2KPA pa) KPA = true → pa = W64 - KPA_OFFSET ∧ PA2KPA pa = 0.
Proof.
  intros Hpa. unfold PA2KPA, add64, wrap64.
  destruct (Z.lt_ge_cases (pa + KPA_OFFSET) W64) as [Hs|Hs].
  - rewrite Z.mod_small by (unfold KPA_OFFSET, KVA_OFFSET in *; lia). intros E.
    apply within_kpa in E; unfold KPA_OFFSET, KVA_OFFSET, W64 in *; lia.
  - replace (pa + KPA_OFFSET) with (pa + KPA_OFFSET - W64 + 1 * W64) by lia.
    rewrite Z.mod_add by done.
    rewrite Z.mod_small by (unfold KPA_OFFSET, W64 in *; lia). intros E.
    destruct (Z.eq_dec (pa + KPA_OFFSET - W64) 0) as [H0|H0]; [lia|].
    apply within_kpa in E; unfold KPA_OFFSET, KVA_OFFSET, W64 in *; lia.
Qed.

(** The direct map is invertible on the whole kernel window.  For a nonzero
    physical address the typed conversion to the kernel window either yields
    the address shifted by the window's offset, which lies in the window and
    which both the typed conversion and [convert_pointer] bring back to the
    same physical address; or the address is beyond the window and the target's
    constructor assertion stops the kernel; with one exception, the address
    2^64 - KPA_OFFSET, whose image wraps to the null address and passes the
    assertion. *)
Theorem convert_kpa_roundtrip pa :
  0 < pa < KPA_OFFSET →
  match convert KPA PA pa with
  | Some ka =>
      (pa < KVA_OFFSET - KPA_OFFSET ∧ ka = pa + KPA_OFFSET ∧
       within_scope ka KPA = true ∧
       convert PA KPA ka = Some pa ∧ convert_pointer ka = Some pa) ∨
      (pa = W64 - KPA_OFFSET ∧ ka = 0)
  | None => KVA_OFFSET - KPA_OFFSET <= pa
  end.
Proof.
  intros Hpa. unfold convert at 1, nonnull.
  destruct (Z.eqb_spec pa 0) as [|_]; [lia|]. cbn.
  unfold mk_addr at 1. destruct (within_scope (PA2KPA pa) KPA) eqn:E.
  - destruct (Z.lt_ge_cases pa (KVA_OFFSET - KPA_OFFSET)) as [Hlt|Hge];
      [left|right; apply PA2KPA_high; [lia|exact E]].
    rewrite PA2KPA_small in * by lia.
    split_and!; [done|done|done|apply convert_pa_of_kpa; lia|].
    unfold convert_pointer, detect_type.
    destruct (within_scope (pa + KPA_OFFSET) PA) eqn:E2.
    { apply within_pa in E2; unfold KPA_OFFSET in *; lia. }
    rewrite E. unfold mk_addr. rewrite E. apply convert_pa_of_kpa; lia.
  - apply Z.le_ngt. intros Hlt. rewrite PA2KPA_small in E by lia.
    enough (within_scope (pa + KPA_OFFSET) KPA = true) by congruence.
    apply within_kpa; unfold KPA_OFFSET, KVA_OFFSET in *; lia.
Qed.

Lemma convert_kpa_roundtrip_witness :
  0 < 0x80200000 < KPA_OFFSET ∧
  convert KPA PA 0x80200000 = Some 0xFFFFFFC080200000 ∧
  match convert KPA PA 0x80200000 with
  | Some ka =>
      (0x80200000 < KVA_OFFSET - KPA_OFFSET ∧ ka = 0x80200000 + KPA_OFFSET ∧
       within_scope ka KPA = true ∧
       convert PA KPA ka = Some 0x80200000 ∧ convert_pointer ka = Some 0x80200000) ∨
      (0x80200000 = W64 - KPA_OFFSET ∧ ka = 0)
  | None => KVA_OFFSET - KPA_OFFSET <= 0x80200000
  end.
Proof.
  split; [vm_compute; done|split; [reflexivity|]].
  apply (convert_kpa_roundtrip 0x80200000). vm_compute; done.
Defined.
