(* ===== verification/IList.v ===== *)
(** * Intrusive lists

    [util::IntrusiveList] and [util::OrderedIntrusiveList] of include/sus/list.h.  The links of all nodes live in one heap, as the nodes do
    in memory: a node is in at most one list at a time, and an operation on one
    list could disturb the others.  A list is named by the address of its sentinel
    [D_sentinel]; its size is kept beside it.

    The main theorem lets the other components use plain sequences: on nodes and
    lists that are alive every operation does to the lists what it does to
    sequences, whatever lists share the heap. *)
From S2P Require Import Prelude ErrCode.

Module IList.

(** ** Data *)

Record ListHead := mkHead { prev : Z; next : Z }.
Record heap := mkLists { nodes : gmap Z ListHead; sizes : gmap Z Z }.
Definition set_nodes f h := mkLists (f (nodes h)) (sizes h).
Definition set_sizes f h := mkLists (nodes h) (f (sizes h)).

Definition head_of (n : Z) : M heap ListHead := λ h,
  match nodes h !! n with Some x => Fin (Ok x) h | None => Panic end.
Definition U_next (n : Z) : M heap Z := x ← head_of n; mret (next x).
Definition U_prev (n : Z) : M heap Z := x ← head_of n; mret (prev x).
Definition set_next (n v : Z) : M heap unit :=
  x ← head_of n; modify (set_nodes <[n := mkHead (prev x) v]>).
Definition set_prev (n v : Z) : M heap unit :=
  x ← head_of n; modify (set_nodes <[n := mkHead v (next x)]>).
Definition D_size (l : Z) : M heap Z := λ h,
  match sizes h !! l with Some n => Fin (Ok n) h | None => Panic end.
Definition set_size (l n : Z) : M heap unit := modify (set_sizes <[l := n]>).

(** ** [IntrusiveList] *)

Definition U_link (p n : Z) : M heap unit :=
  _ ← (if p =? 0 then mret tt else set_next p n);
  if n =? 0 then mret tt else set_prev n p.
Definition U_init_sentinel (l : Z) : M heap unit := _ ← set_next l l; set_prev l l.
Definition P_link (n : Z) : M heap bool :=
  x ← head_of n; mret (negb (next x =? 0) || negb (prev x =? 0)).

(** The constructor: the sentinel is part of the list object. *)
Definition new_list (l : Z) : M heap unit :=
  _ ← set_size l 0; _ ← modify (set_nodes <[l := mkHead 0 0]>); U_init_sentinel l.

Definition empty (l : Z) : M heap bool := n ← D_size l; mret (n =? 0).
Definition front (l : Z) : M heap Z := U_next l.
Definition back (l : Z) : M heap Z := U_prev l.

(** The result is the new iterator; [end()] is the sentinel. *)
Definition insert (l pos node : Z) : M heap Z :=
  linked ← P_link node;
  if (linked : bool) then mret l
  else
    p ← U_prev pos;
    _ ← U_link p node;
    _ ← U_link node pos;
    n ← D_size l;
    _ ← set_size l (add64 n 1);
    mret node.

Definition erase (l pos : Z) : M heap Z :=
  nx ← U_next pos;
  pr ← U_prev pos;
  _ ← U_link pr nx;
  _ ← set_prev pos 0;
  _ ← set_next pos 0;
  n ← D_size l;
  _ ← set_size l (sub64 n 1);
  mret nx.

(** The scan of [remove] and [contains] from the iterator [it]. *)
Fixpoint find_loop (k : nat) (l it node : Z) : M heap bool :=
  if it =? l then mret false
  else match k with
       | O => no_fuel
       | S k => if it =? node then mret true else it ← U_next it; find_loop k l it node
       end.
Definition contains (l node : Z) : M heap bool :=
  n ← D_size l; it ← U_next l; find_loop (Z.to_nat n) l it node.
Definition remove (l node : Z) : M heap unit :=
  found ← contains l node;
  if (found : bool) then _ ← erase l node; mret tt else mret tt.

Definition push_front (l node : Z) : M heap unit := b ← U_next l; _ ← insert l b node; mret tt.
Definition push_back (l node : Z) : M heap unit := _ ← insert l l node; mret tt.
Definition pop_front (l : Z) : M heap unit :=
  e ← empty l;
  if (e : bool) then mret tt else b ← U_next l; _ ← erase l b; mret tt.
Definition pop_back (l : Z) : M heap unit :=
  e ← empty l;
  if (e : bool) then mret tt else b ← U_prev l; _ ← erase l b; mret tt.
Fixpoint clear_loop (k : nat) (l : Z) : M heap unit :=
  e ← empty l;
  if (e : bool) then mret tt
  else match k with O => no_fuel | S k => _ ← pop_front l; clear_loop k l end.
Definition clear (l : Z) : M heap unit := n ← D_size l; clear_loop (Z.to_nat n) l.

(** The move constructor and the move assignment. *)
Definition move_new (dst src : Z) : M heap unit :=
  _ ← modify (set_nodes <[dst := mkHead 0 0]>);
  n ← D_size src;
  _ ← set_size dst n;
  if n =? 0 then U_init_sentinel dst
  else
    b ← U_next src;
    _ ← set_next dst b;
    e ← U_prev src;
    _ ← set_prev dst e;
    _ ← set_prev b dst;
    _ ← set_next e dst;
    _ ← U_init_sentinel src;
    set_size src 0.
Definition move_assign (dst src : Z) : M heap unit :=
  if dst =? src then mret tt
  else
    _ ← clear dst;
    n ← D_size src;
    _ ← set_size dst n;
    if n =? 0 then U_init_sentinel dst
    else
      b ← U_next dst;
      _ ← set_next dst b;
      e ← U_prev dst;
      _ ← set_prev dst e;
      _ ← set_prev b dst;
      _ ← set_next e dst;
      _ ← U_init_sentinel src;
      set_size src 0.

(** [OrderedIntrusiveList::insert]: before the first node that [cmp] puts behind. *)
Section ordered.
Context (cmp : Z → Z → bool).
Fixpoint ordered_loop (k : nat) (l it node : Z) : M heap Z :=
  if it =? l then insert l l node
  else match k with
       | O => no_fuel
       | S k => if cmp node it then insert l it node else it ← U_next it; ordered_loop k l it node
       end.
Definition ordered_insert (l node : Z) : M heap Z :=
  linked ← P_link node;
  if (linked : bool) then mret l
  else n ← D_size l; it ← U_next l; ordered_loop (Z.to_nat n) l it node.
End ordered.

(** ** Lists as sequences of nodes *)

Definition nxt (h : heap) (n : Z) : option Z := next <$> nodes h !! n.
Definition prv (h : heap) (n : Z) : option Z := prev <$> nodes h !! n.
Definition link (h : heap) (a b : Z) : Prop := nxt h a = Some b ∧ prv h b = Some a.

(** Neighbours in a sequence. *)
Definition adj (L : list Z) (a b : Z) : Prop := ∃ i, L !! i = Some a ∧ L !! S i = Some b.

Lemma adj_one x a b : ~ adj [x] a b.
Proof. intros ([|i] & H1 & H2); done. Qed.
Lemma adj_cons x y l a b : adj (x :: y :: l) a b ↔ (a = x ∧ b = y) ∨ adj (y :: l) a b.
Proof.
  split.
  - intros ([|i] & H1 & H2); [left|right; by exists i]. simpl in *. by simplify_eq.
  - intros [[-> ->]|(i & H1 & H2)]; [by exists 0%nat|by exists (S i)].
Qed.
Lemma adj_app l1 x l2 a b : adj (l1 ++ x :: l2) a b ↔ adj (l1 ++ [x]) a b ∨ adj (x :: l2) a b.
Proof.
  induction l1 as [|y l1 IH]; simpl.
  - split; [by right|]. intros [H|H]; [by apply adj_one in H|done].
  - destruct l1 as [|z l1]; simpl in *.
    + rewrite !adj_cons. split; [|naive_solver eauto using adj_one]. naive_solver.
    + rewrite !(adj_cons y z), IH. naive_solver.
Qed.
Lemma adj_mid l1 p q l2 a b :
  adj (l1 ++ p :: q :: l2) a b ↔ adj (l1 ++ [p]) a b ∨ (a = p ∧ b = q) ∨ adj (q :: l2) a b.
Proof. by rewrite adj_app, adj_cons. Qed.
Lemma adj_left l x a b : adj (l ++ [x]) a b → a ∈ l.
Proof.
  intros (i & H1 & H2). pose proof (lookup_lt_Some _ _ _ H2) as Hi. rewrite length_app in Hi. simpl in Hi.
  rewrite lookup_app_l in H1 by lia. by eapply list_elem_of_lookup_2.
Qed.
Lemma adj_right x l a b : adj (x :: l) a b → b ∈ l.
Proof. intros (i & _ & H2). simpl in H2. by eapply list_elem_of_lookup_2. Qed.
Lemma adj_ring l xs a b : adj (l :: xs ++ [l]) a b → a ∈ l :: xs ∧ b ∈ l :: xs.
Proof.
  intros H. split; [by apply (adj_left (l :: xs) l a b)|]. apply adj_right in H. set_solver.
Qed.

(** The neighbours apart from one pair [p], [q] of a ring avoid [p] on the left and
    [q] on the right. *)
Lemma ring_away l xs l1 p q l2 a b :
  NoDup (l :: xs) → l :: xs ++ [l] = l1 ++ p :: q :: l2 →
  adj (l1 ++ [p]) a b ∨ adj (q :: l2) a b → a ≠ p ∧ b ≠ q.
Proof.
  intros Hn E Hadj.
  assert (Hn' : NoDup (xs ++ [l])) by (rewrite Permutation_app_comm; done).
  assert (Hl1 : NoDup (l1 ++ [p])).
  { destruct l2 as [|y l2 _] using rev_ind.
    - replace (l1 ++ [p; q]) with ((l1 ++ [p]) ++ [q]) in E by (by rewrite <- app_assoc).
      change (l :: xs ++ [l]) with ((l :: xs) ++ [l]) in E. apply app_inj_tail in E as [<- _]. done.
    - replace (l1 ++ p :: q :: l2 ++ [y]) with ((l1 ++ [p]) ++ (q :: l2) ++ [y]) in E by (by rewrite <- !app_assoc).
      rewrite app_assoc in E. change (l :: xs ++ [l]) with ((l :: xs) ++ [l]) in E. apply app_inj_tail in E as [E _].
      rewrite E in Hn. by apply NoDup_app in Hn as [Hn _]. }
  destruct Hadj as [Hadj|Hadj].
  - split.
    + apply adj_left in Hadj. intros ->. apply NoDup_app in Hl1 as (_ & Hd & _). apply (Hd p Hadj). set_solver.
    + destruct l1 as [|y l1]; simpl in *; [by apply adj_one in Hadj|]. apply adj_right in Hadj.
      injection E as -> E. rewrite E in Hn'. intros ->.
      replace (l1 ++ p :: q :: l2) with ((l1 ++ [p]) ++ q :: l2) in Hn' by (by rewrite <- app_assoc).
      apply NoDup_app in Hn' as (_ & Hd & _). apply (Hd q Hadj). set_solver.
  - split.
    + destruct l2 as [|y l2 _] using rev_ind; [by apply adj_one in Hadj|].
      apply (adj_left (q :: l2) y) in Hadj. intros ->.
      replace (l1 ++ p :: q :: l2 ++ [y]) with ((l1 ++ [p]) ++ (q :: l2) ++ [y]) in E by (by rewrite <- !app_assoc).
      rewrite app_assoc in E. change (l :: xs ++ [l]) with ((l :: xs) ++ [l]) in E. apply app_inj_tail in E as [E _].
      rewrite E in Hn. apply NoDup_app in Hn as (_ & Hd & _). apply (Hd p); [set_solver|done].
    + apply adj_right in Hadj. intros ->. destruct l1 as [|y l1]; simpl in E.
      * injection E as -> E. rewrite E in Hn'. apply NoDup_cons in Hn' as [Hq _]. done.
      * injection E as -> E. rewrite E in Hn'. apply NoDup_app in Hn' as (_ & _ & Hn').
        apply NoDup_cons in Hn' as [_ Hn']. apply NoDup_cons in Hn' as [Hq _]. done.
Qed.

(** A position of a ring: [ys] before it, [zs] from it on. *)
Lemma ring_split (l : Z) (ys zs : list Z) :
  ∃ l1 p l2, l :: ys = l1 ++ [p] ∧ zs ++ [l] = hd l zs :: l2 ∧ p ∈ l :: ys ∧ hd l zs ∈ l :: zs.
Proof.
  destruct (exists_last (l := l :: ys)) as (l1 & p & E); [done|].
  exists l1, p, (tl (zs ++ [l])). split; [done|]. split; [by destruct zs|]. split; [rewrite E; set_solver|].
  destruct zs; set_solver.
Qed.

(** ** The invariant *)

Abbreviation lists := (gmap Z (list Z)).

(** [L] gives the nodes of every list, in order. *)
Record reps (h : heap) (L : lists) : Prop := {
  rp_size : ∀ l, sizes h !! l = (λ xs, Z.of_nat (length xs)) <$> L !! l;
  rp_link : ∀ l xs a b, L !! l = Some xs → adj (l :: xs ++ [l]) a b → link h a b;
  rp_nodup : ∀ l xs, L !! l = Some xs → NoDup (l :: xs);
  rp_apart : ∀ l xs l' xs' x, L !! l = Some xs → L !! l' = Some xs' → x ∈ l :: xs → x ∈ l' :: xs' → l = l';
  rp_free : ∀ x, is_Some (nodes h !! x) →
    (∃ l xs, L !! l = Some xs ∧ x ∈ l :: xs) ∨ (nxt h x = Some 0 ∧ prv h x = Some 0);
  rp_null : nodes h !! 0 = None;
}.

Definition in_list (L : lists) (x : Z) : Prop := ∃ l xs, L !! l = Some xs ∧ x ∈ l :: xs.

Lemma nxt_nodes h x y : nxt h x = Some y → is_Some (nodes h !! x).
Proof. unfold nxt. destruct (nodes h !! x); [eauto|done]. Qed.
Lemma prv_nodes h x y : prv h x = Some y → is_Some (nodes h !! x).
Proof. unfold prv. destruct (nodes h !! x); [eauto|done]. Qed.

(** A node of a list has a node before and a node behind it. *)
Lemma ring_next l xs x : x ∈ l :: xs → ∃ y, adj (l :: xs ++ [l]) x y.
Proof.
  intros (i & Hi)%list_elem_of_lookup. pose proof (lookup_lt_Some _ _ _ Hi) as Hlt. simpl in Hlt.
  change (l :: xs ++ [l]) with ((l :: xs) ++ [l]).
  destruct (lookup_lt_is_Some_2 ((l :: xs) ++ [l]) (S i)) as [y Hy]; [rewrite length_app; simpl; lia|].
  exists y, i. split; [by rewrite lookup_app_l by (simpl; lia)|done].
Qed.
Lemma member_linked h L x :
  reps h L → in_list L x → ∃ y, y ≠ 0 ∧ nxt h x = Some y.
Proof.
  intros H (l & xs & Hl & Hx). destruct (ring_next l xs x Hx) as (y & Hy). destruct (rp_link _ _ H _ _ _ _ Hl Hy) as [H1 H2].
  exists y. split; [|done]. intros ->. apply prv_nodes in H2. rewrite (rp_null _ _ H) in H2. by destruct H2.
Qed.
Lemma member_node h L x : reps h L → in_list L x → is_Some (nodes h !! x) ∧ x ≠ 0.
Proof.
  intros H Hx. destruct (member_linked h L x H Hx) as (y & _ & Hy%nxt_nodes). split; [done|]. intros ->.
  rewrite (rp_null _ _ H) in Hy. by destruct Hy.
Qed.

(** ** Writing links *)

Lemma head_run h n x : nodes h !! n = Some x → head_of n h = Fin (Ok x) h.
Proof. unfold head_of. by intros ->. Qed.
Lemma U_next_run h n y : nxt h n = Some y → U_next n h = Fin (Ok y) h.
Proof.
  unfold nxt, U_next. destruct (nodes h !! n) as [x|] eqn:E; [|done]. intros [= <-].
  by rewrite (bind_run _ _ _ _ _ (head_run h n x E)).
Qed.
Lemma U_prev_run h n y : prv h n = Some y → U_prev n h = Fin (Ok y) h.
Proof.
  unfold prv, U_prev. destruct (nodes h !! n) as [x|] eqn:E; [|done]. intros [= <-].
  by rewrite (bind_run _ _ _ _ _ (head_run h n x E)).
Qed.

(** [h'] is [h] with other links. *)
Record written (h h' : heap) (fn fp : Z → option Z) : Prop := {
  wr_nxt : ∀ x, nxt h' x = fn x;
  wr_prv : ∀ x, prv h' x = fp x;
  wr_sizes : sizes h' = sizes h;
}.
Definition upd (f : Z → option Z) (n v x : Z) : option Z := if bool_decide (x = n) then Some v else f x.

Lemma set_next_run h n v :
  is_Some (nodes h !! n) → ∃ h', set_next n v h = Fin (Ok tt) h' ∧ written h h' (upd (nxt h) n v) (prv h).
Proof.
  intros [x Hx]. unfold set_next. rewrite (bind_run _ _ _ _ _ (head_run h n x Hx)).
  eexists. split; [reflexivity|]. split; [| |done]; intros y; unfold nxt, prv, upd; simpl;
    destruct (decide (y = n)) as [->|Hy].
  - by rewrite lookup_insert_eq, bool_decide_eq_true_2.
  - by rewrite lookup_insert_ne, bool_decide_eq_false_2.
  - by rewrite lookup_insert_eq, Hx.
  - by rewrite lookup_insert_ne.
Qed.
Lemma set_prev_run h n v :
  is_Some (nodes h !! n) → ∃ h', set_prev n v h = Fin (Ok tt) h' ∧ written h h' (nxt h) (upd (prv h) n v).
Proof.
  intros [x Hx]. unfold set_prev. rewrite (bind_run _ _ _ _ _ (head_run h n x Hx)).
  eexists. split; [reflexivity|]. split; [| |done]; intros y; unfold nxt, prv, upd; simpl;
    destruct (decide (y = n)) as [->|Hy].
  - by rewrite lookup_insert_eq, Hx.
  - by rewrite lookup_insert_ne.
  - by rewrite lookup_insert_eq, bool_decide_eq_true_2.
  - by rewrite lookup_insert_ne, bool_decide_eq_false_2.
Qed.

Lemma written_nodes h h' fn fp x : written h h' fn fp → is_Some (fn x) → is_Some (nodes h' !! x).
Proof. intros [H1 _ _] Hx. rewrite <- H1 in Hx. destruct Hx as [y Hy]. by apply nxt_nodes in Hy. Qed.
Lemma nodes_nxt h x : is_Some (nodes h !! x) ↔ is_Some (nxt h x).
Proof. unfold nxt. by rewrite fmap_is_Some. Qed.
Lemma upd_some f n v x : is_Some (f x) → is_Some (upd f n v x).
Proof. unfold upd. by case_bool_decide. Qed.

Lemma U_link_run h p n :
  p ≠ 0 → n ≠ 0 → is_Some (nodes h !! p) → is_Some (nodes h !! n) →
  ∃ h', U_link p n h = Fin (Ok tt) h' ∧ written h h' (upd (nxt h) p n) (upd (prv h) n p).
Proof.
  intros Hp Hn Hp' Hn'. unfold U_link. rewrite (proj2 (Z.eqb_neq p 0)), (proj2 (Z.eqb_neq n 0)) by done.
  destruct (set_next_run h p n Hp') as (h1 & E1 & W1). rewrite (bind_run _ _ _ _ _ E1).
  destruct (set_prev_run h1 n p) as (h2 & E2 & W2).
  { apply (written_nodes _ _ _ _ _ W1), upd_some, nodes_nxt. done. }
  exists h2. split; [done|]. destruct W1 as [A1 A2 A3], W2 as [B1 B2 B3]. split.
  - intros x. by rewrite B1, A1.
  - intros x. rewrite B2. unfold upd. by rewrite A2.
  - by rewrite B3, A3.
Qed.

(** Replacing one list; [n] is a node that joins or leaves it. *)
Lemma reps_update h L l xs xs' n h' :
  reps h L → L !! l = Some xs → NoDup (l :: xs') →
  (∀ x, x ∈ xs' → x ∈ xs ∨ x = n) → (∀ x, x ∈ xs → x ∈ xs' ∨ x = n) →
  (in_list L n → n ∈ xs) → n ≠ l →
  sizes h' = <[l := Z.of_nat (length xs')]> (sizes h) →
  (∀ x, is_Some (nodes h' !! x) ↔ is_Some (nodes h !! x)) →
  (∀ x, x ∉ l :: xs → x ≠ n → nxt h' x = nxt h x ∧ prv h' x = prv h x) →
  (∀ a b, adj (l :: xs' ++ [l]) a b → link h' a b) →
  (n ∉ xs' → is_Some (nodes h' !! n) → nxt h' n = Some 0 ∧ prv h' n = Some 0) →
  reps h' (<[l := xs']> L).
Proof.
  intros H Hl Hnd Hsub Hsup Hn Hnl Hsz Hdom Hout Hring Hfree.
  assert (Hmem : ∀ l' ys x, <[l := xs']> L !! l' = Some ys → x ∈ l' :: ys →
    (l' = l ∧ x ∈ l :: xs') ∨ (l' ≠ l ∧ L !! l' = Some ys)).
  { intros l' ys x [[<- <-]|[Hne Hl']]%lookup_insert_Some Hx; [by left|right]. split; [congruence|done]. }
  assert (Hcase : ∀ x, x ∈ l :: xs' → x ∈ l :: xs ∨ (x = n ∧ n ∉ xs)).
  { intros x [->|Hx]%elem_of_cons; [left; left|]. destruct (decide (x ∈ xs)) as [Hin|Hnin]; [left; by right|].
    destruct (Hsub x Hx) as [Hq|Hq]; [done|]. subst x. by right. }
  assert (Happart : ∀ l' ys x, L !! l' = Some ys → l' ≠ l → x ∈ l' :: ys → (x ∉ l :: xs) ∧ x ≠ n).
  { intros l' ys x Hl' Hne Hx. split.
    - intros Hx'. apply Hne. by apply (rp_apart _ _ H l' ys l xs x).
    - intros ->. apply Hne. apply (rp_apart _ _ H l' ys l xs n); try done. right. apply Hn. by exists l', ys. }
  split.
  - intros l'. rewrite Hsz. destruct (decide (l' = l)) as [->|Hne]; [by rewrite !lookup_insert_eq|].
    rewrite !lookup_insert_ne by done. apply H.
  - intros l' ys a b Hl' Hadj. destruct (adj_ring l' ys a b Hadj) as [Ha Hb].
    destruct (Hmem l' ys a Hl' Ha) as [[-> _]|[Hne Hl0]].
    + rewrite lookup_insert_eq in Hl'. simplify_eq. by apply Hring.
    + destruct (Happart _ _ _ Hl0 Hne Ha) as [Ha1 Ha2], (Happart _ _ _ Hl0 Hne Hb) as [Hb1 Hb2].
      destruct (rp_link _ _ H _ _ _ _ Hl0 Hadj). unfold link.
      by rewrite (proj1 (Hout a Ha1 Ha2)), (proj2 (Hout b Hb1 Hb2)).
  - intros l' ys Hl'. destruct (Hmem l' ys l' Hl' ltac:(left)) as [[-> _]|[_ Hl0]].
    + rewrite lookup_insert_eq in Hl'. by simplify_eq.
    + by apply H.
  - intros l1 ys1 l2 ys2 x H1 H2 Hx1 Hx2.
    destruct (Hmem _ _ _ H1 Hx1) as [[-> Hxa]|[Hne1 Hl1]], (Hmem _ _ _ H2 Hx2) as [[-> Hxb]|[Hne2 Hl2]]; try done.
    + exfalso. destruct (Happart _ _ _ Hl2 Hne2 Hx2). destruct (Hcase x Hxa) as [Hq|[Hq _]]; done.
    + exfalso. destruct (Happart _ _ _ Hl1 Hne1 Hx1). destruct (Hcase x Hxb) as [Hq|[Hq _]]; done.
    + by apply (rp_apart _ _ H l1 ys1 l2 ys2 x).
  - intros x Hx. pose proof Hx as Hx0. apply Hdom in Hx0. destruct (decide (x ∈ l :: xs')) as [Hin|Hnin].
    { left. exists l, xs'. by rewrite lookup_insert_eq. }
    destruct (decide (x = n)) as [->|Hxn]; [right; apply Hfree; [set_solver|done]|].
    destruct (decide (x ∈ l :: xs)) as [Hin|Hnin2].
    { exfalso. apply Hnin. apply elem_of_cons in Hin as [->|Hin]; [left|right]. by destruct (Hsup x Hin). }
    destruct (Hout x Hnin2 Hxn) as [E1 E2]. rewrite E1, E2.
    destruct (rp_free _ _ H x Hx0) as [(l' & ys & Hl' & Hx')|]; [|by right]. left. exists l', ys.
    split; [|done]. rewrite lookup_insert_ne; [done|]. intros ->. simplify_eq.
  - destruct (nodes h' !! 0) eqn:E0; [|done]. assert (is_Some (nodes h' !! 0)) as H0 by by rewrite E0.
    apply Hdom in H0. rewrite (rp_null _ _ H) in H0. by destruct H0.
Qed.

(** ** Inserting and erasing *)

Lemma size_run h L l xs : reps h L → L !! l = Some xs → D_size l h = Fin (Ok (Z.of_nat (length xs))) h.
Proof. intros H Hl. unfold D_size. by rewrite (rp_size _ _ H l), Hl. Qed.

Lemma upd_eq f n v : upd f n v n = Some v.
Proof. unfold upd. by rewrite bool_decide_eq_true_2. Qed.
Lemma upd_ne f n v x : x ≠ n → upd f n v x = f x.
Proof. intros. unfold upd. by rewrite bool_decide_eq_false_2. Qed.

Lemma P_link_run h L n :
  reps h L → is_Some (nodes h !! n) →
  P_link n h = Fin (Ok (bool_decide (nxt h n ≠ Some 0 ∨ prv h n ≠ Some 0))) h.
Proof.
  intros _ [x Hx]. unfold P_link. rewrite (bind_run _ _ _ _ _ (head_run h n x Hx)). unfold nxt, prv. rewrite Hx. simpl.
  unfold mret, M_ret. do 2 f_equal. destruct (Z.eqb_spec (next x) 0) as [E1|E1]; simpl; symmetry.
  - destruct (Z.eqb_spec (prev x) 0) as [E2|E2]; simpl.
    + apply bool_decide_eq_false_2. intros [Hc|Hc]; apply Hc; congruence.
    + apply bool_decide_eq_true_2. right. congruence.
  - apply bool_decide_eq_true_2. left. congruence.
Qed.
Lemma linked_iff h L n :
  reps h L → is_Some (nodes h !! n) → (nxt h n ≠ Some 0 ∨ prv h n ≠ Some 0) ↔ in_list L n.
Proof.
  intros H Hn. split.
  - intros Hl. destruct (rp_free _ _ H n Hn) as [?|[? ?]]; naive_solver.
  - intros (y & Hy & E)%(member_linked h L n H). left. congruence.
Qed.

Lemma sizes_written h h' fn fp : written h h' fn fp → sizes h' = sizes h.
Proof. by intros []. Qed.

Lemma set_size_run h l n : set_size l n h = Fin (Ok tt) (set_sizes <[l := n]> h).
Proof. done. Qed.

Lemma insert_run h L l ys zs n :
  reps h L → L !! l = Some (ys ++ zs) → is_Some (nodes h !! n) → ~ in_list L n →
  Z.of_nat (length (ys ++ zs)) + 1 < W64 →
  ∃ h', insert l (hd l zs) n h = Fin (Ok n) h' ∧ reps h' (<[l := ys ++ n :: zs]> L) ∧
    ∀ x, is_Some (nodes h' !! x) ↔ is_Some (nodes h !! x).
Proof.
  intros H Hl Hn Hnin Hsz. destruct (ring_split l ys zs) as (l1 & p & l2 & E1 & E2 & Hp & Hq).
  set (q := hd l zs) in *.
  assert (HR : l :: (ys ++ zs) ++ [l] = l1 ++ p :: q :: l2).
  { rewrite <- app_assoc, app_comm_cons, E1, E2. by rewrite <- app_assoc. }
  assert (HR' : l :: (ys ++ n :: zs) ++ [l] = l1 ++ p :: n :: q :: l2).
  { rewrite <- app_assoc, app_comm_cons, E1, <- app_comm_cons, E2. by rewrite <- app_assoc. }
  pose proof (rp_nodup _ _ H _ _ Hl) as Hnd.
  assert (Hring : ∀ x, x ∈ l :: ys ++ zs → in_list L x) by (intros x Hx; by exists l, (ys ++ zs)).
  assert (Hp' : in_list L p) by (apply Hring; set_solver). assert (Hq' : in_list L q) by (apply Hring; set_solver).
  destruct (member_node h L p H Hp') as [Hpn Hp0], (member_node h L q H Hq') as [Hqn Hq0].
  assert (Hn0 : n ≠ 0) by (intros ->; rewrite (rp_null _ _ H) in Hn; by destruct Hn).
  assert (Hpq : link h p q).
  { apply (rp_link _ _ H _ _ _ _ Hl). rewrite HR. apply adj_mid. by right; left. }
  unfold insert. rewrite (bind_run _ _ _ _ _ (P_link_run h L n H Hn)).
  rewrite bool_decide_eq_false_2 by (by rewrite (linked_iff h L n H Hn)).
  rewrite (bind_run _ _ _ _ _ (U_prev_run h q p (proj2 Hpq))).
  destruct (U_link_run h p n Hp0 Hn0 Hpn Hn) as (h1 & F1 & W1). rewrite (bind_run _ _ _ _ _ F1).
  assert (D1 : ∀ x, is_Some (nodes h !! x) → is_Some (nodes h1 !! x)).
  { intros x Hx. apply (written_nodes _ _ _ _ _ W1), upd_some, nodes_nxt. done. }
  destruct (U_link_run h1 n q Hn0 Hq0 (D1 n Hn) (D1 q Hqn)) as (h2 & F2 & W2). rewrite (bind_run _ _ _ _ _ F2).
  assert (Hs2 : sizes h2 = sizes h) by (by rewrite (sizes_written _ _ _ _ W2), (sizes_written _ _ _ _ W1)).
  assert (Ed : D_size l h2 = Fin (Ok (Z.of_nat (length (ys ++ zs)))) h2).
  { unfold D_size. by rewrite Hs2, (rp_size _ _ H l), Hl. }
  rewrite (bind_run _ _ _ _ _ Ed), (bind_run _ _ _ _ _ (set_size_run h2 l _)).
  set (h3 := set_sizes _ h2). exists h3. split; [done|].
  assert (N : ∀ x, nxt h3 x = upd (upd (nxt h) p n) n q x).
  { intros x. change (nxt h3 x) with (nxt h2 x). rewrite (wr_nxt _ _ _ _ W2). unfold upd. by rewrite (wr_nxt _ _ _ _ W1). }
  assert (V : ∀ x, prv h3 x = upd (upd (prv h) n p) q n x).
  { intros x. change (prv h3 x) with (prv h2 x). rewrite (wr_prv _ _ _ _ W2). unfold upd. by rewrite (wr_prv _ _ _ _ W1). }
  assert (Hdom : ∀ x, is_Some (nodes h3 !! x) ↔ is_Some (nodes h !! x)).
  { intros x. rewrite !nodes_nxt, N. unfold upd. case_bool_decide as C1; [subst x; rewrite <- nodes_nxt; split; eauto|].
    case_bool_decide as C2; [subst x; rewrite <- nodes_nxt; split; eauto|done]. }
  assert (Hnl : n ≠ l) by (intros ->; apply Hnin, Hring; left).
  split; [|exact Hdom].
  apply (reps_update h L l (ys ++ zs) (ys ++ n :: zs) n h3 H Hl); [| | | |done| |exact Hdom| | |].
  - change (l :: ys ++ n :: zs) with ((l :: ys) ++ n :: zs). rewrite (Permutation_app_comm (l :: ys)). simpl.
    apply NoDup_cons. split; [|rewrite Permutation_app_comm; done]. intros Hx. apply Hnin, Hring. set_solver.
  - set_solver.
  - set_solver.
  - done.
  - simpl. rewrite Hs2. f_equal. unfold add64. rewrite wrap64_small by (unfold is_u64; lia).
    rewrite !length_app. simpl. lia.
  - intros x Hx Hxn. rewrite N, V. rewrite !upd_ne; [done|..]; intros ->; try done; apply Hx; set_solver.
  - intros a b. rewrite HR', adj_mid, adj_cons. intros [Ha|[[-> ->]|[[-> ->]|Ha]]]; unfold link; rewrite N, V.
    + destruct (ring_away l (ys ++ zs) l1 p q l2 a b Hnd HR (or_introl Ha)) as [A1 A2].
      assert (Hadj : adj (l :: (ys ++ zs) ++ [l]) a b) by (rewrite HR; apply adj_mid; by left).
      destruct (adj_ring _ _ _ _ Hadj) as [B1 B2]. rewrite !upd_ne; try done; try (intros ->; by apply Hnin, Hring).
      by apply (rp_link _ _ H _ _ _ _ Hl).
    + rewrite (upd_ne _ n q p) by (intros ->; by apply Hnin). rewrite upd_eq. split; [done|].
      rewrite upd_ne by (intros ->; by apply Hnin). by rewrite upd_eq.
    + by rewrite !upd_eq.
    + destruct (ring_away l (ys ++ zs) l1 p q l2 a b Hnd HR (or_intror Ha)) as [A1 A2].
      assert (Hadj : adj (l :: (ys ++ zs) ++ [l]) a b) by (rewrite HR; apply adj_mid; by right; right).
      destruct (adj_ring _ _ _ _ Hadj) as [B1 B2]. rewrite !upd_ne; try done; try (intros ->; by apply Hnin, Hring).
      by apply (rp_link _ _ H _ _ _ _ Hl).
  - intros Hc. exfalso. apply Hc. set_solver.
Qed.

(** A node that is in a list already is left where it is. *)
Lemma insert_linked h L l pos n :
  reps h L → is_Some (nodes h !! n) → in_list L n → insert l pos n h = Fin (Ok l) h.
Proof.
  intros H Hn Hin. unfold insert. rewrite (bind_run _ _ _ _ _ (P_link_run h L n H Hn)).
  by rewrite bool_decide_eq_true_2 by (by rewrite (linked_iff h L n H Hn)).
Qed.

Lemma erase_run h L l ys n zs :
  reps h L → L !! l = Some (ys ++ n :: zs) → Z.of_nat (length (ys ++ n :: zs)) < W64 →
  ∃ h', erase l n h = Fin (Ok (hd l zs)) h' ∧ reps h' (<[l := ys ++ zs]> L) ∧
    ∀ x, is_Some (nodes h' !! x) ↔ is_Some (nodes h !! x).
Proof.
  intros H Hl Hsz. destruct (ring_split l ys zs) as (l1 & p & l2 & E1 & E2 & Hp & Hq).
  set (q := hd l zs) in *.
  assert (HR : l :: (ys ++ n :: zs) ++ [l] = l1 ++ p :: n :: q :: l2).
  { rewrite <- app_assoc, app_comm_cons, E1, <- app_comm_cons, E2. by rewrite <- app_assoc. }
  assert (HR2 : l :: (ys ++ n :: zs) ++ [l] = (l1 ++ [p]) ++ n :: q :: l2) by (rewrite HR; by rewrite <- app_assoc).
  assert (HR' : l :: (ys ++ zs) ++ [l] = l1 ++ p :: q :: l2).
  { rewrite <- app_assoc, app_comm_cons, E1, E2. by rewrite <- app_assoc. }
  pose proof (rp_nodup _ _ H _ _ Hl) as Hnd.
  assert (Hring : ∀ x, x ∈ l :: ys ++ n :: zs → in_list L x) by (intros x Hx; by exists l, (ys ++ n :: zs)).
  assert (Hnd' : NoDup (n :: (l :: ys) ++ zs)).
  { rewrite Permutation_middle. done. }
  apply NoDup_cons in Hnd' as [Hnout Hnd'].
  assert (Hpn' : p ≠ n) by (intros ->; apply Hnout; set_solver).
  assert (Hqn' : q ≠ n) by (intros E; apply Hnout; rewrite <- E; set_solver).
  assert (Hp' : in_list L p) by (apply Hring; set_solver). assert (Hq' : in_list L q) by (apply Hring; set_solver).
  assert (Hn' : in_list L n) by (apply Hring; set_solver).
  destruct (member_node h L p H Hp') as [Hpn Hp0], (member_node h L q H Hq') as [Hqn Hq0].
  destruct (member_node h L n H Hn') as [Hnn Hn0].
  assert (Hpn2 : link h p n) by (apply (rp_link _ _ H _ _ _ _ Hl); rewrite HR; apply adj_mid; by right; left).
  assert (Hnq : link h n q).
  { apply (rp_link _ _ H _ _ _ _ Hl). rewrite HR2. apply adj_mid. by right; left. }
  unfold erase. rewrite (bind_run _ _ _ _ _ (U_next_run h n q (proj1 Hnq))).
  rewrite (bind_run _ _ _ _ _ (U_prev_run h n p (proj2 Hpn2))).
  destruct (U_link_run h p q Hp0 Hq0 Hpn Hqn) as (h1 & F1 & W1). rewrite (bind_run _ _ _ _ _ F1).
  assert (D1 : ∀ x, is_Some (nodes h !! x) → is_Some (nodes h1 !! x)).
  { intros x Hx. apply (written_nodes _ _ _ _ _ W1), upd_some, nodes_nxt. done. }
  destruct (set_prev_run h1 n 0 (D1 n Hnn)) as (h2 & F2 & W2). rewrite (bind_run _ _ _ _ _ F2).
  destruct (set_next_run h2 n 0) as (h3 & F3 & W3).
  { apply (written_nodes _ _ _ _ _ W2), nodes_nxt. by apply D1. }
  rewrite (bind_run _ _ _ _ _ F3).
  assert (Hs3 : sizes h3 = sizes h).
  { by rewrite (sizes_written _ _ _ _ W3), (sizes_written _ _ _ _ W2), (sizes_written _ _ _ _ W1). }
  assert (Ed : D_size l h3 = Fin (Ok (Z.of_nat (length (ys ++ n :: zs)))) h3).
  { unfold D_size. by rewrite Hs3, (rp_size _ _ H l), Hl. }
  rewrite (bind_run _ _ _ _ _ Ed), (bind_run _ _ _ _ _ (set_size_run h3 l _)).
  set (h4 := set_sizes _ h3). exists h4. split; [done|].
  assert (N : ∀ x, nxt h4 x = upd (upd (nxt h) p q) n 0 x).
  { intros x. change (nxt h4 x) with (nxt h3 x). rewrite (wr_nxt _ _ _ _ W3). unfold upd.
    by rewrite (wr_nxt _ _ _ _ W2), (wr_nxt _ _ _ _ W1). }
  assert (V : ∀ x, prv h4 x = upd (upd (prv h) q p) n 0 x).
  { intros x. change (prv h4 x) with (prv h3 x). rewrite (wr_prv _ _ _ _ W3), (wr_prv _ _ _ _ W2). unfold upd.
    by rewrite (wr_prv _ _ _ _ W1). }
  assert (Hdom : ∀ x, is_Some (nodes h4 !! x) ↔ is_Some (nodes h !! x)).
  { intros x. rewrite !nodes_nxt, N. unfold upd. case_bool_decide as C1; [subst x; rewrite <- nodes_nxt; split; eauto|].
    case_bool_decide as C2; [subst x; rewrite <- nodes_nxt; split; eauto|done]. }
  split; [|exact Hdom].
  apply (reps_update h L l (ys ++ n :: zs) (ys ++ zs) n h4 H Hl); [exact Hnd'| | | | | |exact Hdom| | |].
  - set_solver.
  - set_solver.
  - set_solver.
  - intros ->. apply Hnout. left.
  - simpl. rewrite Hs3. f_equal. unfold sub64. rewrite wrap64_small; rewrite !length_app in *; simpl in *;
      unfold is_u64; lia.
  - intros x Hx Hxn. rewrite N, V. rewrite !upd_ne; [done|..]; intros ->; try done; apply Hx; set_solver.
  - intros a b. rewrite HR', adj_mid. intros Hab.
    assert (Hold : adj (l1 ++ [p]) a b ∨ adj (q :: l2) a b → link h4 a b).
    { intros Ha. assert (Hadj : adj (l :: (ys ++ n :: zs) ++ [l]) a b).
      { rewrite HR. apply adj_mid. rewrite adj_cons. naive_solver. }
      destruct (ring_away _ _ l1 p n (q :: l2) a b Hnd HR) as [A1 A2]; [rewrite adj_cons; naive_solver|].
      destruct (ring_away _ _ (l1 ++ [p]) n q l2 a b Hnd HR2) as [A3 A4].
      { rewrite <- app_assoc. simpl. rewrite adj_app. naive_solver. }
      unfold link. rewrite N, V, !upd_ne by done. by apply (rp_link _ _ H _ _ _ _ Hl). }
    destruct Hab as [Ha|[[-> ->]|Ha]]; [by apply Hold; left| |by apply Hold; right].
    unfold link. rewrite N, V. rewrite !(upd_ne _ n 0) by done. by rewrite !upd_eq.
  - intros _ _. by rewrite N, V, !upd_eq.
Qed.

(** ** Scanning *)

Lemma adj_at l ys z zs : adj (l :: (ys ++ z :: zs) ++ [l]) z (hd l zs).
Proof.
  destruct (ring_split l (ys ++ [z]) zs) as (_ & _ & l2 & _ & E & _).
  replace (l :: (ys ++ z :: zs) ++ [l]) with ((l :: ys) ++ z :: hd l zs :: l2).
  - apply adj_mid. by right; left.
  - rewrite <- E. simpl. by rewrite <- app_assoc.
Qed.
Lemma next_at h L l ys z zs : reps h L → L !! l = Some (ys ++ z :: zs) → nxt h z = Some (hd l zs).
Proof. intros H Hl. by apply (rp_link _ _ H _ _ _ _ Hl), adj_at. Qed.
Lemma next_begin h L l xs : reps h L → L !! l = Some xs → nxt h l = Some (hd l xs).
Proof.
  intros H Hl. apply (rp_link _ _ H _ _ l (hd l xs) Hl). destruct xs as [|x xs]; simpl; rewrite adj_cons; by left.
Qed.
Lemma prev_end h L l xs x : reps h L → L !! l = Some (xs ++ [x]) → prv h l = Some x.
Proof.
  intros H Hl. apply (rp_link _ _ H _ _ x l Hl). exact (adj_at l xs x []).
Qed.
Lemma prev_empty h L l : reps h L → L !! l = Some [] → prv h l = Some l.
Proof. intros H Hl. apply (rp_link _ _ H _ _ l l Hl). apply adj_cons. by left. Qed.

Lemma find_loop_run h L l n zs ys :
  reps h L → L !! l = Some (ys ++ zs) →
  find_loop (length zs) l (hd l zs) n h = Fin (Ok (bool_decide (n ∈ zs))) h.
Proof.
  intros H. revert ys. induction zs as [|z zs IH]; intros ys Hl; simpl.
  - by rewrite Z.eqb_refl.
  - pose proof (rp_nodup _ _ H _ _ Hl) as [Hnl _]%NoDup_cons.
    rewrite (proj2 (Z.eqb_neq z l)) by (intros ->; apply Hnl; set_solver).
    destruct (Z.eqb_spec z n) as [->|Hne]; [by rewrite bool_decide_eq_true_2 by set_solver|].
    rewrite (bind_run _ _ _ _ _ (U_next_run h z _ (next_at h L l ys z zs H Hl))).
    rewrite (IH (ys ++ [z])) by (by rewrite <- app_assoc). do 2 f_equal. apply bool_decide_ext.
    rewrite elem_of_cons. naive_solver.
Qed.
Lemma contains_run h L l xs n :
  reps h L → L !! l = Some xs → contains l n h = Fin (Ok (bool_decide (n ∈ xs))) h.
Proof.
  intros H Hl. unfold contains. rewrite (bind_run _ _ _ _ _ (size_run h L l xs H Hl)).
  rewrite (bind_run _ _ _ _ _ (U_next_run h l _ (next_begin h L l xs H Hl))), Nat2Z.id.
  by apply (find_loop_run h L l n xs []).
Qed.

(** ** The operations on sequences *)

Definition without (n : Z) (xs : list Z) : list Z := filter (λ x, x ≠ n) xs.
Fixpoint before (pos n : Z) (xs : list Z) : list Z :=
  match xs with
  | [] => [n]
  | x :: xs => if x =? pos then n :: x :: xs else x :: before pos n xs
  end.
Fixpoint sorted_in (cmp : Z → Z → bool) (n : Z) (xs : list Z) : list Z :=
  match xs with
  | [] => [n]
  | x :: xs => if cmp n x then n :: x :: xs else x :: sorted_in cmp n xs
  end.

Inductive list_op :=
  | LPushFront (l n : Z) | LPushBack (l n : Z) | LInsert (l pos n : Z)
  | LOrdered (cmp : Z → Z → bool) (l n : Z)
  | LErase (l n : Z) | LRemove (l n : Z) | LPopFront (l : Z) | LPopBack (l : Z) | LClear (l : Z)
  | LContains (l n : Z) | LSize (l : Z) | LFront (l : Z) | LBack (l : Z).

Definition run_list_op (op : list_op) : M heap Z :=
  match op with
  | LPushFront l n => _ ← push_front l n; mret 0
  | LPushBack l n => _ ← push_back l n; mret 0
  | LInsert l pos n => insert l pos n
  | LOrdered cmp l n => ordered_insert cmp l n
  | LErase l n => erase l n
  | LRemove l n => _ ← remove l n; mret 0
  | LPopFront l => _ ← pop_front l; mret 0
  | LPopBack l => _ ← pop_back l; mret 0
  | LClear l => _ ← clear l; mret 0
  | LContains l n => b ← contains l n; mret (Z.b2z b)
  | LSize l => D_size l
  | LFront l => front l
  | LBack l => back l
  end.

#[export] Instance in_list_dec L x : Decision (in_list L x).
Proof. refine (map_Exists_dec (λ l xs, x ∈ l :: xs) L). Unshelve. intros l xs. apply (list_elem_of_dec x (l :: xs)). Defined.

(** What follows [n] in [xs]; [l] stands for the end. *)
Fixpoint after (l n : Z) (xs : list Z) : Z :=
  match xs with [] => l | x :: xs => if x =? n then hd l xs else after l n xs end.

Definition insert_unless (L : lists) (l n : Z) (r : Z) (f : list Z → list Z) : Z * lists :=
  if decide (in_list L n) then (r, L) else (if r =? 0 then 0 else n, alter f l L).

Definition spec_list_op (op : list_op) (L : lists) : Z * lists :=
  match op with
  | LPushFront l n => insert_unless L l n 0 (cons n)
  | LPushBack l n => insert_unless L l n 0 (λ xs, xs ++ [n])
  | LInsert l pos n => insert_unless L l n l (before pos n)
  | LOrdered cmp l n => insert_unless L l n l (sorted_in cmp n)
  | LErase l n => (after l n (default [] (L !! l)), alter (without n) l L)
  | LRemove l n => (0, alter (without n) l L)
  | LPopFront l => (0, alter tail l L)
  | LPopBack l => (0, alter (λ xs, List.removelast xs) l L)
  | LClear l => (0, alter (λ _, []) l L)
  | LContains l n => (Z.b2z (bool_decide (n ∈ default [] (L !! l))), L)
  | LSize l => (Z.of_nat (length (default [] (L !! l))), L)
  | LFront l => (hd l (default [] (L !! l)), L)
  | LBack l => (List.last (default [] (L !! l)) l, L)
  end.

(** The list and the nodes named are alive; positions are positions of the list. *)
Definition list_op_ok (alive : gset Z) (L : lists) (op : list_op) : Prop :=
  match op with
  | LPushFront l n | LPushBack l n | LOrdered _ l n => is_Some (L !! l) ∧ n ∈ alive
  | LInsert l pos n => ∃ xs, L !! l = Some xs ∧ (pos = l ∨ pos ∈ xs) ∧ n ∈ alive
  | LErase l n => ∃ xs, L !! l = Some xs ∧ n ∈ xs
  | LRemove l _ | LPopFront l | LPopBack l | LClear l | LContains l _ | LSize l | LFront l | LBack l => is_Some (L !! l)
  end.

Lemma without_out n xs : n ∉ xs → without n xs = xs.
Proof.
  intros Hn. unfold without. induction xs as [|x xs IH]; [done|].
  rewrite filter_cons_True by set_solver. f_equal. apply IH. set_solver.
Qed.
Lemma without_mid n ys zs : NoDup (ys ++ n :: zs) → without n (ys ++ n :: zs) = ys ++ zs.
Proof.
  intros (_ & Hy & [Hz _]%NoDup_cons)%NoDup_app. unfold without. rewrite filter_app, filter_cons_False by naive_solver.
  f_equal; apply without_out; [|done]. intros Hx. apply (Hy n Hx). left.
Qed.
Lemma before_split pos n l xs :
  l ∉ xs → pos = l ∨ pos ∈ xs → ∃ ys zs, xs = ys ++ zs ∧ hd l zs = pos ∧ before pos n xs = ys ++ n :: zs.
Proof.
  intros Hl Hpos. induction xs as [|x xs IH]; simpl.
  - exists [], []. destruct Hpos as [->|Hc]; [done|by apply not_elem_of_nil in Hc].
  - destruct (Z.eqb_spec x pos) as [->|Hne]; [by exists [], (pos :: xs)|].
    destruct IH as (ys & zs & -> & Hhd & E); [set_solver|set_solver|].
    exists (x :: ys), zs. by rewrite E.
Qed.
Lemma after_mid l n ys zs : n ∉ ys → after l n (ys ++ n :: zs) = hd l zs.
Proof.
  induction ys as [|y ys IH]; simpl; intros Hn; [by rewrite Z.eqb_refl|].
  rewrite (proj2 (Z.eqb_neq y n)) by set_solver. apply IH. set_solver.
Qed.
Lemma alter_lookup (L : lists) l xs f : L !! l = Some xs → alter f l L = <[l := f xs]> L.
Proof.
  intros Hl. apply map_eq. intros l'. destruct (decide (l = l')) as [<-|Hne].
  - by rewrite lookup_alter_eq, lookup_insert_eq, Hl.
  - by rewrite lookup_alter_ne, lookup_insert_ne.
Qed.

(** ** Every operation does to the lists what it does to sequences *)

Abbreviation alive h := (dom (nodes h)).

Lemma ring_short h L l xs n :
  reps h L → L !! l = Some xs → (size (alive h) < Z.to_nat W64)%nat →
  Z.of_nat (length xs) < W64 ∧ (n ∈ alive h → ~ in_list L n → Z.of_nat (length xs) + 1 < W64).
Proof.
  intros H Hl Hsz. assert (Hlen : ∀ ys : list Z, NoDup ys → (∀ x, x ∈ ys → x ∈ alive h) → (length ys <= size (alive h))%nat).
  { intros ys Hnd Hin. rewrite <- (size_list_to_set (C := gset Z) ys) by done. apply subseteq_size. set_solver. }
  assert (Hmem : ∀ x, x ∈ l :: xs → x ∈ alive h).
  { intros x Hx. apply elem_of_dom. apply (member_node h L x H). by exists l, xs. }
  pose proof (rp_nodup _ _ H _ _ Hl) as Hnd. pose proof (Hlen _ Hnd Hmem) as H1. simpl in H1.
  pose proof W64_pos. split; [lia|]. intros Hn Hnl.
  assert (H2 : (length (n :: l :: xs) <= size (alive h))%nat).
  { apply Hlen; [apply NoDup_cons; split; [|done]; intros Hc; apply Hnl; by exists l, xs|]. set_solver. }
  simpl in H2. lia.
Qed.

Definition does (op : list_op) (h : heap) (L : lists) : Prop :=
  ∃ h', run_list_op op h = Fin (Ok (spec_list_op op L).1) h' ∧ reps h' (spec_list_op op L).2 ∧
    ∀ x, is_Some (nodes h' !! x) ↔ is_Some (nodes h !! x).

(** The two ways an insertion can go. *)
Lemma insert_cases h L l ys zs n :
  reps h L → L !! l = Some (ys ++ zs) → n ∈ alive h → (size (alive h) < Z.to_nat W64)%nat →
  (in_list L n ∧ insert l (hd l zs) n h = Fin (Ok l) h) ∨
  (~ in_list L n ∧ ∃ h', insert l (hd l zs) n h = Fin (Ok n) h' ∧ reps h' (<[l := ys ++ n :: zs]> L) ∧
     ∀ x, is_Some (nodes h' !! x) ↔ is_Some (nodes h !! x)).
Proof.
  intros H Hl Hn Hsz. pose proof Hn as Hn'. apply elem_of_dom in Hn'. destruct (decide (in_list L n)) as [Hi|Hi].
  - left. split; [done|]. by apply (insert_linked h L).
  - right. split; [done|]. apply insert_run; try done. by apply (ring_short h L l (ys ++ zs) n).
Qed.

Lemma push_front_does h L l n :
  reps h L → (size (alive h) < Z.to_nat W64)%nat → is_Some (L !! l) → n ∈ alive h → does (LPushFront l n) h L.
Proof.
  intros H Hsz [xs Hl] Hn. unfold does. cbn [run_list_op spec_list_op]. unfold push_front, insert_unless.
  destruct (insert_cases h L l [] xs n H Hl Hn Hsz) as [[Hi E]|(Hi & h' & E & Hr & Hd)].
  - exists h. rewrite decide_True by done. split; [|done]. unfold mbind, M_bind.
    by rewrite (U_next_run h l _ (next_begin h L l xs H Hl)), E.
  - exists h'. rewrite decide_False by done. rewrite (alter_lookup L l xs) by done. split; [|done].
    unfold mbind, M_bind. by rewrite (U_next_run h l _ (next_begin h L l xs H Hl)), E.
Qed.
Lemma push_back_does h L l n :
  reps h L → (size (alive h) < Z.to_nat W64)%nat → is_Some (L !! l) → n ∈ alive h → does (LPushBack l n) h L.
Proof.
  intros H Hsz [xs Hl] Hn. unfold does. cbn [run_list_op spec_list_op]. unfold push_back, insert_unless.
  assert (Hl' : L !! l = Some (xs ++ [])) by by rewrite app_nil_r.
  destruct (insert_cases h L l xs [] n H Hl' Hn Hsz) as [[Hi E]|(Hi & h' & E & Hr & Hd)]; simpl in E.
  - exists h. rewrite decide_True by done. split; [|done]. unfold mbind, M_bind. by rewrite E.
  - exists h'. rewrite decide_False by done. rewrite (alter_lookup L l xs) by done. split; [|done].
    unfold mbind, M_bind. by rewrite E.
Qed.
Lemma insert_does h L l pos n xs :
  reps h L → (size (alive h) < Z.to_nat W64)%nat → L !! l = Some xs → pos = l ∨ pos ∈ xs → n ∈ alive h →
  does (LInsert l pos n) h L.
Proof.
  intros H Hsz Hl Hpos Hn. unfold does. cbn [run_list_op spec_list_op]. unfold insert_unless.
  pose proof (rp_nodup _ _ H _ _ Hl) as [Hnl _]%NoDup_cons.
  assert (Hl0 : l ≠ 0) by (apply (member_node h L l H); exists l, xs; by split; [|left]).
  destruct (before_split pos n l xs Hnl Hpos) as (ys & zs & -> & <- & Eb).
  destruct (insert_cases h L l ys zs n H Hl Hn Hsz) as [[Hi E]|(Hi & h' & E & Hr & Hd)].
  - exists h. by rewrite decide_True.
  - exists h'. rewrite decide_False by done. simpl. rewrite (proj2 (Z.eqb_neq l 0)) by done.
    rewrite (alter_lookup L l _ _ Hl), Eb. done.
Qed.

Lemma ordered_loop_run cmp h L l n zs ys :
  reps h L → L !! l = Some (ys ++ zs) → is_Some (nodes h !! n) → ~ in_list L n →
  Z.of_nat (length (ys ++ zs)) + 1 < W64 →
  ∃ h', ordered_loop cmp (length zs) l (hd l zs) n h = Fin (Ok n) h' ∧
    reps h' (<[l := ys ++ sorted_in cmp n zs]> L) ∧ ∀ x, is_Some (nodes h' !! x) ↔ is_Some (nodes h !! x).
Proof.
  intros H. revert ys. induction zs as [|z zs IH]; intros ys Hl Hn Hi Hsz; simpl.
  - rewrite Z.eqb_refl. by apply (insert_run h L l ys []).
  - pose proof (rp_nodup _ _ H _ _ Hl) as [Hnl _]%NoDup_cons.
    rewrite (proj2 (Z.eqb_neq z l)) by (intros ->; apply Hnl; set_solver).
    destruct (cmp n z); [by apply (insert_run h L l ys (z :: zs))|].
    rewrite (bind_run _ _ _ _ _ (U_next_run h z _ (next_at h L l ys z zs H Hl))).
    destruct (IH (ys ++ [z])) as (h' & E & Hr & Hd); [by rewrite <- app_assoc|done|done|by rewrite <- app_assoc|].
    exists h'. split; [done|]. by rewrite <- app_assoc in Hr.
Qed.
Lemma ordered_does cmp h L l n :
  reps h L → (size (alive h) < Z.to_nat W64)%nat → is_Some (L !! l) → n ∈ alive h → does (LOrdered cmp l n) h L.
Proof.
  intros H Hsz [xs Hl] Hn. pose proof Hn as Hn'. apply elem_of_dom in Hn'.
  assert (Hl0 : l ≠ 0) by (apply (member_node h L l H); exists l, xs; by split; [|left]).
  unfold does. cbn [run_list_op spec_list_op]. unfold ordered_insert, insert_unless.
  rewrite (bind_run _ _ _ _ _ (P_link_run h L n H Hn')). destruct (decide (in_list L n)) as [Hi|Hi].
  - rewrite bool_decide_eq_true_2 by (by rewrite (linked_iff h L n H Hn')). by exists h.
  - rewrite bool_decide_eq_false_2 by (by rewrite (linked_iff h L n H Hn')).
    rewrite (bind_run _ _ _ _ _ (size_run h L l xs H Hl)).
    rewrite (bind_run _ _ _ _ _ (U_next_run h l _ (next_begin h L l xs H Hl))), Nat2Z.id.
    destruct (ordered_loop_run cmp h L l n xs [] H Hl Hn' Hi) as (h' & E & Hr & Hd).
    { by apply (ring_short h L l xs n). }
    exists h'. simpl. rewrite (proj2 (Z.eqb_neq l 0)), (alter_lookup L l _ _ Hl) by done. done.
Qed.

Lemma erase_does h L l n xs :
  reps h L → (size (alive h) < Z.to_nat W64)%nat → L !! l = Some xs → n ∈ xs → does (LErase l n) h L.
Proof.
  intros H Hsz Hl Hn. destruct (list_elem_of_split _ _ Hn) as (ys & zs & ->).
  pose proof (rp_nodup _ _ H _ _ Hl) as [_ Hnd]%NoDup_cons.
  destruct (ring_short h L l _ n H Hl Hsz) as [Hb _].
  destruct (erase_run h L l ys n zs H Hl Hb) as (h' & E & Hr & Hd). exists h'. cbn [run_list_op spec_list_op fst snd].
  rewrite (alter_lookup L l _ _ Hl), Hl, without_mid by done. simpl. rewrite after_mid; [done|].
  apply NoDup_app in Hnd as (_ & Hy & _). intros Hx. apply (Hy n Hx). left.
Qed.
Lemma remove_does h L l n :
  reps h L → (size (alive h) < Z.to_nat W64)%nat → is_Some (L !! l) → does (LRemove l n) h L.
Proof.
  intros H Hsz [xs Hl]. unfold does. cbn [run_list_op spec_list_op fst snd]. rewrite (alter_lookup L l _ _ Hl). unfold remove.
  destruct (decide (n ∈ xs)) as [Hn|Hn].
  - destruct (erase_does h L l n xs H Hsz Hl Hn) as (h' & E & Hr & Hd). cbn [run_list_op spec_list_op fst snd] in E, Hr.
    rewrite (alter_lookup L l _ _ Hl) in Hr. exists h'. split; [|done]. unfold mbind, M_bind.
    by rewrite (contains_run h L l xs n H Hl), bool_decide_eq_true_2, E.
  - exists h. split; [|split; [|done]].
    + unfold mbind, M_bind. by rewrite (contains_run h L l xs n H Hl), bool_decide_eq_false_2.
    + rewrite without_out by done. by rewrite insert_id.
Qed.

Lemma empty_run h L l xs : reps h L → L !! l = Some xs → empty l h = Fin (Ok (bool_decide (xs = []))) h.
Proof.
  intros H Hl. unfold empty. rewrite (bind_run _ _ _ _ _ (size_run h L l xs H Hl)). unfold mret, M_ret. do 2 f_equal.
  by destruct xs.
Qed.
Lemma pop_front_run h L l xs :
  reps h L → (size (alive h) < Z.to_nat W64)%nat → L !! l = Some xs →
  ∃ h', pop_front l h = Fin (Ok tt) h' ∧ reps h' (<[l := tail xs]> L) ∧
    ∀ x, is_Some (nodes h' !! x) ↔ is_Some (nodes h !! x).
Proof.
  intros H Hsz Hl. unfold pop_front. rewrite (bind_run _ _ _ _ _ (empty_run h L l xs H Hl)).
  destruct xs as [|x xs]; simpl; [exists h; split_and!; try done; by rewrite insert_id|].
  rewrite (bind_run _ _ _ _ _ (U_next_run h l _ (next_begin h L l _ H Hl))). simpl.
  destruct (ring_short h L l _ x H Hl Hsz) as [Hb _].
  destruct (erase_run h L l [] x xs H Hl Hb) as (h' & E & Hr & Hd). exists h'. by rewrite (bind_run _ _ _ _ _ E).
Qed.
Lemma pop_back_run h L l xs :
  reps h L → (size (alive h) < Z.to_nat W64)%nat → L !! l = Some xs →
  ∃ h', pop_back l h = Fin (Ok tt) h' ∧ reps h' (<[l := List.removelast xs]> L) ∧
    ∀ x, is_Some (nodes h' !! x) ↔ is_Some (nodes h !! x).
Proof.
  intros H Hsz Hl. unfold pop_back. rewrite (bind_run _ _ _ _ _ (empty_run h L l xs H Hl)).
  destruct xs as [|x xs _] using rev_ind; [exists h; split_and!; try done; by rewrite insert_id|].
  rewrite bool_decide_eq_false_2 by (by destruct xs).
  rewrite (bind_run _ _ _ _ _ (U_prev_run h l _ (prev_end h L l xs x H Hl))).
  destruct (ring_short h L l _ x H Hl Hsz) as [Hb _].
  destruct (erase_run h L l xs x [] H Hl Hb) as (h' & E & Hr & Hd). exists h'. rewrite (bind_run _ _ _ _ _ E).
  rewrite app_nil_r in Hr. by rewrite List.removelast_last.
Qed.

Lemma dom_same h h' : (∀ x, is_Some (nodes h' !! x) ↔ is_Some (nodes h !! x)) → alive h' = alive h.
Proof. intros Hd. apply leibniz_equiv. intros x. by rewrite !elem_of_dom. Qed.

Lemma clear_loop_run l xs h L :
  reps h L → (size (alive h) < Z.to_nat W64)%nat → L !! l = Some xs →
  ∃ h', clear_loop (length xs) l h = Fin (Ok tt) h' ∧ reps h' (<[l := []]> L) ∧
    ∀ x, is_Some (nodes h' !! x) ↔ is_Some (nodes h !! x).
Proof.
  revert h L. induction xs as [|x xs IH]; intros h L H Hsz Hl; cbn [clear_loop length];
    rewrite (bind_run _ _ _ _ _ (empty_run h L l _ H Hl)).
  - exists h. split_and!; try done. by rewrite insert_id.
  - rewrite bool_decide_eq_false_2 by done.
    destruct (pop_front_run h L l (x :: xs) H Hsz Hl) as (h1 & E1 & Hr1 & Hd1). rewrite (bind_run _ _ _ _ _ E1).
    destruct (IH h1 _ Hr1) as (h2 & E2 & Hr2 & Hd2); [by rewrite (dom_same _ _ Hd1)|by rewrite lookup_insert_eq|].
    exists h2. split; [done|]. rewrite insert_insert_eq in Hr2. split; [done|]. intros y. by rewrite Hd2, Hd1.
Qed.

Lemma list_op_does op h L :
  reps h L → (size (alive h) < Z.to_nat W64)%nat → list_op_ok (alive h) L op → does op h L.
Proof.
  intros H Hsz Hok. destruct op as [l n|l n|l pos n|cmp l n|l n|l n|l|l|l|l n|l|l|l]; simpl in Hok.
  - destruct Hok. by apply push_front_does.
  - destruct Hok. by apply push_back_does.
  - destruct Hok as (xs & Hl & Hpos & Hn). by apply (insert_does h L l pos n xs).
  - destruct Hok. by apply ordered_does.
  - destruct Hok as (xs & Hl & Hn). by apply (erase_does h L l n xs).
  - by apply remove_does.
  - destruct Hok as [xs Hl]. destruct (pop_front_run h L l xs H Hsz Hl) as (h' & E & Hr & Hd). exists h'.
    cbn [run_list_op spec_list_op fst snd]. by rewrite (bind_run _ _ _ _ _ E), (alter_lookup L l _ _ Hl).
  - destruct Hok as [xs Hl]. destruct (pop_back_run h L l xs H Hsz Hl) as (h' & E & Hr & Hd). exists h'.
    cbn [run_list_op spec_list_op fst snd]. by rewrite (bind_run _ _ _ _ _ E), (alter_lookup L l _ _ Hl).
  - destruct Hok as [xs Hl]. destruct (clear_loop_run l xs h L H Hsz Hl) as (h' & E & Hr & Hd). exists h'.
    cbn [run_list_op spec_list_op fst snd]. unfold clear, mbind, M_bind. rewrite (size_run h L l xs H Hl), Nat2Z.id, E.
    by rewrite (alter_lookup L l _ _ Hl).
  - destruct Hok as [xs Hl]. exists h. cbn [run_list_op spec_list_op fst snd].
    by rewrite (bind_run _ _ _ _ _ (contains_run h L l xs n H Hl)), Hl.
  - destruct Hok as [xs Hl]. exists h. cbn [run_list_op spec_list_op fst snd]. by rewrite (size_run h L l xs H Hl), Hl.
  - destruct Hok as [xs Hl]. exists h. cbn [run_list_op spec_list_op fst snd]. unfold front.
    by rewrite (U_next_run h l _ (next_begin h L l xs H Hl)), Hl.
  - destruct Hok as [xs Hl]. exists h. cbn [run_list_op spec_list_op fst snd]. unfold back. rewrite Hl. simpl.
    destruct xs as [|x xs _] using rev_ind.
    + by rewrite (U_prev_run h l _ (prev_empty h L l H Hl)).
    + by rewrite (U_prev_run h l _ (prev_end h L l xs x H Hl)), List.last_last.
Qed.

Fixpoint run_list_ops (ops : list list_op) : M heap (list Z) :=
  match ops with
  | [] => mret []
  | op :: ops => r ← run_list_op op; rs ← run_list_ops ops; mret (r :: rs)
  end.
Fixpoint spec_list_ops (ops : list list_op) (L : lists) : list Z * lists :=
  match ops with
  | [] => ([], L)
  | op :: ops =>
      let '(r, L1) := spec_list_op op L in
      let '(rs, L2) := spec_list_ops ops L1 in (r :: rs, L2)
  end.
Fixpoint list_ops_ok (a : gset Z) (L : lists) (ops : list list_op) : Prop :=
  match ops with
  | [] => True
  | op :: ops => list_op_ok a L op ∧ list_ops_ok a (spec_list_op op L).2 ops
  end.

(** C28: intrusive lists refine sequences.  Any number of lists share the nodes of one
    heap.  On lists and nodes that are alive, every sequence of operations (both
    ends, insertion at an iterator or by order, erasing, removing, clearing,
    searching and reading) terminates, gives the results the same operations give
    on plain sequences, and leaves links that represent the resulting sequences;
    a node that is in some list is never inserted a second time. *)
Theorem intrusive_lists_refine_sequences ops h L :
  reps h L → (size (alive h) < Z.to_nat W64)%nat → list_ops_ok (alive h) L ops →
  ∃ h', run_list_ops ops h = Fin (Ok (spec_list_ops ops L).1) h' ∧ reps h' (spec_list_ops ops L).2.
Proof.
  revert h L. induction ops as [|op ops IH]; intros h L H Hsz Hok; [by exists h|].
  destruct Hok as [Hop Hok]. destruct (list_op_does op h L H Hsz Hop) as (h1 & E1 & Hr1 & Hd1).
  cbn [run_list_ops spec_list_ops]. rewrite (bind_run _ _ _ _ _ E1).
  destruct (spec_list_op op L) as [r L1]. cbn [fst snd] in *.
  destruct (IH h1 L1 Hr1) as (h2 & E2 & Hr2); [by rewrite (dom_same _ _ Hd1)|by rewrite (dom_same _ _ Hd1)|].
  rewrite (bind_run _ _ _ _ _ E2). exists h2. by destruct (spec_list_ops ops L1).
Qed.

(** ** Moving a list *)

(** Linking a sentinel to itself. *)
Lemma init_sentinel_run h l :
  is_Some (nodes h !! l) →
  ∃ h', U_init_sentinel l h = Fin (Ok tt) h' ∧ written h h' (upd (nxt h) l l) (upd (prv h) l l).
Proof.
  intros Hl. unfold U_init_sentinel. destruct (set_next_run h l l Hl) as (h1 & E1 & W1).
  rewrite (bind_run _ _ _ _ _ E1). destruct (set_prev_run h1 l l) as (h2 & E2 & W2).
  { apply (written_nodes _ _ _ _ _ W1), upd_some, nodes_nxt. done. }
  exists h2. split; [done|]. destruct W1 as [A1 A2 A3], W2 as [B1 B2 B3]. split.
  - intros x. by rewrite B1, A1.
  - intros x. rewrite B2. unfold upd. by rewrite A2.
  - by rewrite B3, A3.
Qed.

(** The part of [move_assign] that is meant to take over the nodes of the source, on
    an empty destination: it links the destination to itself again. *)
Lemma self_link_run h dst :
  nxt h dst = Some dst → prv h dst = Some dst →
  ∃ h', written h h' (nxt h) (prv h) ∧ ∀ K : M heap unit,
    (b ← U_next dst; _ ← set_next dst b; e ← U_prev dst; _ ← set_prev dst e; _ ← set_prev b dst; _ ← set_next e dst; K) h
    = K h'.
Proof.
  intros Hn Hp.
  assert (Hdst : is_Some (nodes h !! dst)) by by eapply nxt_nodes.
  assert (Hself : ∀ f x, f dst = Some dst → upd f dst dst x = f x).
  { intros f x Hf. unfold upd. case_bool_decide; [by subst|done]. }
  assert (Hid : ∀ g, written h g (nxt h) (prv h) → is_Some (nodes g !! dst) ∧
    (∃ g', set_next dst dst g = Fin (Ok tt) g' ∧ written h g' (nxt h) (prv h)) ∧
    (∃ g', set_prev dst dst g = Fin (Ok tt) g' ∧ written h g' (nxt h) (prv h))).
  { intros g [A1 A2 A3]. assert (Hg : is_Some (nodes g !! dst)) by (rewrite nodes_nxt, A1; by rewrite Hn).
    split; [done|]. destruct (set_next_run g dst dst Hg) as (g1 & F1 & [B1 B2 B3]).
    destruct (set_prev_run g dst dst Hg) as (g2 & F2 & [C1 C2 C3]). split.
    - exists g1. split; [done|]. split; [|intros x; by rewrite B2|by rewrite B3].
      intros x. rewrite B1, Hself by (by rewrite A1). done.
    - exists g2. split; [done|]. split; [intros x; by rewrite C1| |by rewrite C3].
      intros x. rewrite C2, Hself by (by rewrite A2). done. }
  assert (H0 : written h h (nxt h) (prv h)) by by split.
  destruct (Hid h H0) as (_ & (h1 & E1 & W1) & _).
  assert (Hp1 : prv h1 dst = Some dst) by (by rewrite (wr_prv _ _ _ _ W1)).
  destruct (Hid h1 W1) as (_ & _ & (h2 & E2 & W2)).
  destruct (Hid h2 W2) as (_ & _ & (h3 & E3 & W3)).
  destruct (Hid h3 W3) as (_ & (h4 & E4 & W4) & _).
  exists h4. split; [done|]. intros K. rewrite (bind_run _ _ _ _ _ (U_next_run h dst dst Hn)), (bind_run _ _ _ _ _ E1).
  rewrite (bind_run _ _ _ _ _ (U_prev_run h1 dst dst Hp1)), (bind_run _ _ _ _ _ E2), (bind_run _ _ _ _ _ E3).
  by rewrite (bind_run _ _ _ _ _ E4).
Qed.

(** The move assignment of an intrusive list loses its elements.  Assigning a
    non-empty list to another one gives a list whose size is that of the source but
    whose links hold no node, and leaves the source empty, while the source's nodes
    stay linked to each other and can be inserted into no list any more. *)
Theorem move_assign_loses_nodes h L dst src ys x xs :
  reps h L → (size (alive h) < Z.to_nat W64)%nat → dst ≠ src → L !! dst = Some ys → L !! src = Some (x :: xs) →
  ∃ h', move_assign dst src h = Fin (Ok tt) h' ∧
    sizes h' !! dst = Some (Z.of_nat (length (x :: xs))) ∧ link h' dst dst ∧
    sizes h' !! src = Some 0 ∧ link h' src src ∧ ∀ n, n ∈ x :: xs → P_link n h' = Fin (Ok true) h'.
Proof.
  intros H Hsz Hne Hd Hs. unfold move_assign. rewrite (proj2 (Z.eqb_neq dst src)) by done.
  destruct (clear_loop_run dst ys h L H Hsz Hd) as (h1 & E1 & Hr1 & Hd1).
  assert (Ec : clear dst h = Fin (Ok tt) h1).
  { unfold clear. by rewrite (bind_run _ _ _ _ _ (size_run h L dst ys H Hd)), Nat2Z.id. }
  rewrite (bind_run _ _ _ _ _ Ec). set (L1 := <[dst := []]> L) in *.
  assert (Hs1 : L1 !! src = Some (x :: xs)) by (unfold L1; by rewrite lookup_insert_ne).
  assert (Hdst1 : L1 !! dst = Some []) by apply lookup_insert_eq.
  rewrite (bind_run _ _ _ _ _ (size_run h1 L1 src _ Hr1 Hs1)).
  rewrite (bind_run _ _ _ _ _ (set_size_run h1 dst _)).
  rewrite (proj2 (Z.eqb_neq (Z.of_nat (length (x :: xs))) 0)) by (simpl; lia).
  set (h2 := set_sizes _ h1).
  destruct (self_link_run h2 dst) as (h3 & W3 & E3).
  { apply (next_begin h1 L1 dst [] Hr1 Hdst1). }
  { apply (prev_empty h1 L1 dst Hr1 Hdst1). }
  rewrite E3. assert (Hsrc3 : is_Some (nodes h3 !! src)).
  { rewrite nodes_nxt, (wr_nxt _ _ _ _ W3). change (is_Some (nxt h1 src)). rewrite (next_begin h1 L1 src _ Hr1 Hs1). eauto. }
  destruct (init_sentinel_run h3 src Hsrc3) as (h4 & E4 & W4). rewrite (bind_run _ _ _ _ _ E4).
  exists (set_sizes <[src := 0]> h4). split.
  - done.
  - assert (N4 : ∀ y, nxt h4 y = upd (nxt h1) src src y).
    { intros y. rewrite (wr_nxt _ _ _ _ W4). unfold upd. case_bool_decide; [done|].
      by rewrite (wr_nxt _ _ _ _ W3). }
    assert (V4 : ∀ y, prv h4 y = upd (prv h1) src src y).
    { intros y. rewrite (wr_prv _ _ _ _ W4). unfold upd. case_bool_decide; [done|].
      by rewrite (wr_prv _ _ _ _ W3). }
    change (sizes (set_sizes <[src := 0]> h4)) with (<[src := 0]> (sizes h4)).
    rewrite (sizes_written _ _ _ _ W4), (sizes_written _ _ _ _ W3). split_and!.
    + rewrite lookup_insert_ne by done. simpl. by rewrite lookup_insert_eq.
    + change (nxt h4 dst = Some dst ∧ prv h4 dst = Some dst). rewrite N4, V4, !upd_ne by done.
      split; [apply (next_begin h1 L1 dst [] Hr1 Hdst1)|apply (prev_empty h1 L1 dst Hr1 Hdst1)].
    + by rewrite lookup_insert_eq.
    + change (nxt h4 src = Some src ∧ prv h4 src = Some src). by rewrite N4, V4, !upd_eq.
    + intros n Hn. pose proof (rp_nodup _ _ Hr1 _ _ Hs1) as [Hsn _]%NoDup_cons.
      assert (Hin : in_list L1 n) by (exists src, (x :: xs); split; [done|by right]).
      destruct (member_linked h1 L1 n Hr1 Hin) as (y & Hy0 & Hy).
      assert (Hn4 : nxt h4 n = Some y) by (rewrite N4, upd_ne; [done|intros ->; done]).
      unfold P_link. unfold nxt in Hn4. destruct (nodes h4 !! n) as [z|] eqn:Ez; [|done]. simpl in Hn4. injection Hn4 as <-.
      rewrite (bind_run _ _ _ z (set_sizes <[src := 0]> h4)); [|by unfold head_of; simpl; rewrite Ez].
      by rewrite (proj2 (Z.eqb_neq _ 0)).
Qed.

(** ** Witnesses: two lists (sentinels 1 and 2) and three nodes *)
Module IListWitness.
Definition ex_heap : heap := mkLists
  (list_to_map [(1, mkHead 12 11); (11, mkHead 1 12); (12, mkHead 11 1); (2, mkHead 2 2); (13, mkHead 0 0)])
  {[1 := 2; 2 := 0]}.
Definition ex_lists : lists := {[1 := [11; 12]; 2 := []]}.

Lemma ex_lists_cases l xs : ex_lists !! l = Some xs → (l = 1 ∧ xs = [11; 12]) ∨ (l = 2 ∧ xs = []).
Proof. unfold ex_lists. intros [[<- <-]|[_ [<- <-]%lookup_singleton_Some]]%lookup_insert_Some; auto. Qed.

Lemma ex_alive : alive ex_heap = list_to_set [1; 2; 11; 12; 13].
Proof. apply (bool_decide_unpack _). vm_compute. reflexivity. Qed.

Lemma ex_reps : reps ex_heap ex_lists.
Proof.
  split.
  - intros l. unfold ex_lists. simpl. destruct (decide (l = 1)) as [->|H1]; [by rewrite !lookup_insert_eq|].
    rewrite !lookup_insert_ne by done. destruct (decide (l = 2)) as [->|H2]; [by rewrite !lookup_singleton_eq|].
    by rewrite !lookup_singleton_ne.
  - intros l xs a b [[-> ->]|[-> ->]]%ex_lists_cases; simpl; rewrite !adj_cons;
      intros Hab; decompose [or and] Hab; subst; try (by eapply adj_one in H; destruct H); try done.
    all: try (by exfalso; eapply adj_one).
  - intros l xs [[-> ->]|[-> ->]]%ex_lists_cases; repeat constructor; set_solver.
  - intros l xs l' xs' x [[-> ->]|[-> ->]]%ex_lists_cases [[-> ->]|[-> ->]]%ex_lists_cases; set_solver.
  - intros x Hx. apply elem_of_dom in Hx. rewrite ex_alive in Hx.
    assert (x = 13 ∨ x ∈ [1; 11; 12] ∨ x ∈ [2]) as [->|[Hl|Hl]] by set_solver; [by right|left|left].
    + by exists 1, [11; 12].
    + by exists 2, [].
  - done.
Qed.

Lemma ex_size : (size (alive ex_heap) < Z.to_nat W64)%nat.
Proof.
  replace (size (alive ex_heap)) with 5%nat by (vm_compute; reflexivity).
  pose proof (Z2Nat.inj_lt 5 W64 ltac:(lia) ltac:(by unfold W64)) as [H _]. by apply H.
Qed.

(** Node 12 moves from the first list to the second; 11 is refused by the second. *)
Lemma intrusive_lists_refine_sequences_witness :
  ∃ h', run_list_ops [LPushBack 2 11; LRemove 1 12; LPushFront 2 12; LPushBack 2 13; LContains 2 12; LBack 2] ex_heap
        = Fin (Ok [0; 0; 0; 0; 1; 13]) h' ∧ reps h' {[1 := [11]; 2 := [12; 13]]}.
Proof.
  apply (intrusive_lists_refine_sequences
    [LPushBack 2 11; LRemove 1 12; LPushFront 2 12; LPushBack 2 13; LContains 2 12; LBack 2] ex_heap ex_lists ex_reps ex_size).
  rewrite ex_alive. cbn [list_ops_ok list_op_ok]. split_and!; try done; try (by eexists); set_solver.
Defined.

Lemma move_assign_loses_nodes_witness :
  ∃ h', move_assign 2 1 ex_heap = Fin (Ok tt) h' ∧ sizes h' !! 2 = Some 2 ∧ link h' 2 2.
Proof.
  destruct (move_assign_loses_nodes ex_heap ex_lists 2 1 [] 11 [12] ex_reps ex_size) as (h' & E & H1 & H2 & _);
    [discriminate|reflexivity|reflexivity|]. exists h'. split; [exact E|]. split; [exact H1|exact H2].
Defined.
End IListWitness.
End IList.
