(* ===== verification/Capability.v ===== *)
(** * Capability indices, permissions and capability spaces

    [include/sustcore/capability.h] (payload types and the index format),
    [kernel/cap/permission.h], [kernel/object/perm.h] and the two-level table
    [CGroup]/[CSpace] of [kernel/cap/capability.h].  A [Capability *] is a
    [Z], 0 for [nullptr]; what it points to is in the store of [CHolder.v]. *)

From S2P Require Import Prelude ErrCode.

#[local] Open Scope Z_scope.

Inductive PayloadType :=
  | NONE | INTOBJ | SINTOBJ | VFILE | VDIR | NOTIF | MUTEX | PCB | TCB
  | ENDPOINT | MEMORY | REPLY | VMOUNT | PIPE_READ_END | PIPE_WRITE_END.

#[export] Instance PayloadType_eq_dec : EqDecision PayloadType.
Proof. solve_decision. Defined.

(** ** The index format *)

(** [CALC_MASK_SHIFT] and [CALC_MASK_WIDTH]: a 64-bit mask needs at most 64
    rounds of either loop. *)
Fixpoint calc_mask_shift_loop (fuel : nat) (m shift : Z) : Z :=
  match fuel with
  | O => shift
  | S fuel => if Z.land m 1 =? 0 then calc_mask_shift_loop fuel (Z.shiftr m 1) (shift + 1)
              else shift
  end.
Definition CALC_MASK_SHIFT (mask : Z) : Z := calc_mask_shift_loop 64 mask 0.

Fixpoint calc_mask_width_loop (fuel : nat) (m width : Z) : Z :=
  match fuel with
  | O => width
  | S fuel => if m =? 0 then width
              else calc_mask_width_loop fuel (Z.shiftr m 1) (width + 1)
  end.
Definition CALC_MASK_WIDTH (mask : Z) : Z :=
  calc_mask_width_loop 64 (Z.shiftr mask (CALC_MASK_SHIFT mask)) 0.

Definition cap_null : Z := 0.
Definition cap_error : Z := 0xFFFFFFFFFFFFFFFF.

Definition MASK_VALID : Z := 0x1000000000000000.
Definition MASK_SLOT : Z := 0x00000000000000FF.
Definition SLOT_SHIFT : Z := CALC_MASK_SHIFT MASK_SLOT.
Definition MASK_GROUP : Z := 0x00000000000FFF00.
Definition GROUP_SHIFT : Z := CALC_MASK_SHIFT MASK_GROUP.
Definition MASK_RSVD : Z :=
  Z.land 0xFFFFFFFFFFFFFFFF (not64 (Z.lor (Z.lor MASK_VALID MASK_SLOT) MASK_GROUP)).

Definition CSPACE_SIZE : Z := shl64 1 (CALC_MASK_WIDTH MASK_GROUP).
Definition CGROUP_SLOTS : Z := shl64 1 (CALC_MASK_WIDTH MASK_SLOT).
Definition CSPACE_CAPACITY : Z := CSPACE_SIZE * CGROUP_SLOTS.

Definition cap_valid (idx : Z) : bool :=
  negb (Z.land idx MASK_VALID =? 0) && (Z.land idx MASK_RSVD =? 0).
Definition cap_make (group slot : Z) : Z :=
  Z.lor (Z.lor MASK_VALID (Z.land (shl64 group GROUP_SHIFT) MASK_GROUP))
        (Z.land slot MASK_SLOT).
Definition cap_group (idx : Z) : Z := Z.shiftr (Z.land idx MASK_GROUP) GROUP_SHIFT.
Definition cap_slot (idx : Z) : Z := Z.shiftr (Z.land idx MASK_SLOT) SLOT_SHIFT.

(** ** Permissions *)

Definition perm_imply (owned required : Z) : bool := bits_implies owned required.
Definition allperm : Z := 0xFFFFFFFFFFFFFFFF.

Module perm.
Definition CLONE : Z := 0x0002.
Definition MIGRATE : Z := 0x0004.
Definition MIGRATE_ONCE : Z := 0x0008.
End perm.

(** ** The two-level capability table *)

(** A [CGroup] is the set of its non-null slots; a [CSpace] the set of its
    allocated groups.  [cap::group] and [cap::slot] are masked, so no index can
    leave the arrays. *)
Abbreviation CGroup := (gmap Z Z).
Abbreviation CSpace := (gmap Z CGroup).

Definition cgroup_get (g : CGroup) (idx : Z) : Z := default 0 (g !! cap_slot idx).

Definition cspace_get (sp : CSpace) (idx : Z) : Z :=
  match sp !! cap_group idx with
  | None => 0
  | Some g => cgroup_get g idx
  end.

(** The slot write of [CGroup::set] and [CGroup::take] (the deletion of the
    old capability is an effect on the store, in [CHolder.v]). *)
Definition cgroup_put (g : CGroup) (idx ptr : Z) : CGroup :=
  if ptr =? 0 then delete (cap_slot idx) g else <[cap_slot idx := ptr]> g.

(** [CSpace::set] allocates the group on demand. *)
Definition cspace_put (sp : CSpace) (idx ptr : Z) : CSpace :=
  let g := default ∅ (sp !! cap_group idx) in
  <[cap_group idx := cgroup_put g idx ptr]> sp.

(** [CSpace::take]: the slot is emptied without deleting the capability, and
    nothing happens when the group is not allocated. *)
Definition cspace_take (sp : CSpace) (idx : Z) : Z * CSpace :=
  match sp !! cap_group idx with
  | None => (0, sp)
  | Some g => (cgroup_get g idx, <[cap_group idx := cgroup_put g idx 0]> sp)
  end.

(** The first element of a list that satisfies a test. *)
Fixpoint first_such {A} (f : A → bool) (l : list A) : option A :=
  match l with
  | [] => None
  | x :: l => if f x then Some x else first_such f l
  end.

(** The loops of [lookup_freeslot]: groups from 0, slots from 0 in a group. *)
Fixpoint freeslot_loop (sp : CSpace) (groups : list Z) : Result Z :=
  match groups with
  | [] => Err NO_FREE_SLOT
  | i :: groups =>
      match sp !! i with
      | None => Ok (cap_make i 0)
      | Some g =>
          match first_such (λ j, cgroup_get g (cap_make i j) =? 0) (seqZ 0 CGROUP_SLOTS) with
          | Some j => Ok (cap_make i j)
          | None => freeslot_loop sp groups
          end
      end
  end.
Definition lookup_freeslot (sp : CSpace) : Result Z :=
  freeslot_loop sp (seqZ 0 CSPACE_SIZE).

(** The order in which [CSpace::foreach] and the destructors visit the slots. *)
Definition cspace_entries (sp : CSpace) : list (Z * Z) :=
  i ← seqZ 0 CSPACE_SIZE;
  match sp !! i with
  | None => []
  | Some g =>
      j ← seqZ 0 CGROUP_SLOTS;
      let idx := cap_make i j in
      let ptr := cgroup_get g idx in
      if ptr =? 0 then [] else [(idx, ptr)]
  end.

(** ** Index lemmas *)

Lemma CSPACE_SIZE_val : CSPACE_SIZE = 4096.
Proof. reflexivity. Qed.
Lemma CGROUP_SLOTS_val : CGROUP_SLOTS = 256.
Proof. reflexivity. Qed.

Lemma cap_slot_mod idx : cap_slot idx = idx mod 256.
Proof.
  unfold cap_slot. change SLOT_SHIFT with 0. change MASK_SLOT with (Z.ones 8).
  rewrite Z.shiftr_0_r, Z.land_ones by lia. done.
Qed.

Lemma cap_group_mod idx : cap_group idx = (idx / 256) mod 4096.
Proof.
  unfold cap_group. change GROUP_SHIFT with 8.
  rewrite Z.shiftr_land. change (Z.shiftr MASK_GROUP 8) with (Z.ones 12).
  rewrite Z.land_ones, Z.shiftr_div_pow2 by lia. done.
Qed.

Lemma cap_make_sum g s :
  0 <= g < 4096 → 0 <= s < 256 → cap_make g s = MASK_VALID + g * 256 + s.
Proof.
  intros Hg Hs. unfold cap_make, shl64. change GROUP_SHIFT with 8.
  rewrite Z.shiftl_mul_pow2 by lia. change (2 ^ 8) with 256.
  rewrite wrap64_small by (unfold is_u64, W64; lia).
  change MASK_SLOT with (Z.ones 8). rewrite Z.land_ones by lia.
  rewrite (Z.mod_small s) by (change (2 ^ 8) with 256; lia).
  assert (E : Z.land (g * 256) MASK_GROUP = g * 256).
  { change MASK_GROUP with (Z.shiftl (Z.ones 12) 8). change 256 with (2 ^ 8).
    rewrite <- Z.shiftl_mul_pow2, <- Z.shiftl_land by lia.
    rewrite Z.land_ones by lia. rewrite Z.mod_small; [done|]. change (2 ^ 12) with 4096. lia. }
  rewrite E.
  assert (E1 : Z.land MASK_VALID (g * 256) = 0).
  { change MASK_VALID with (1 * 2 ^ 60). rewrite <- Z.shiftl_mul_pow2 by lia.
    apply Z.bits_inj'. intros n Hn. rewrite Z.land_spec, Z.testbit_0_l.
    destruct (Z.lt_ge_cases n 60).
    - rewrite Z.shiftl_spec_low by lia. done.
    - rewrite <- (Z.mod_small (g * 256) (2 ^ 60)) by lia.
      rewrite Z.mod_pow2_bits_high by lia. apply andb_false_r. }
  assert (E2 : Z.land (Z.lor MASK_VALID (g * 256)) s = 0).
  { rewrite <- Z.lxor_lor, <- Z.add_nocarry_lxor by done.
    change MASK_VALID with (2 ^ 52 * 256). replace (2 ^ 52 * 256 + g * 256) with ((2 ^ 52 + g) * 2 ^ 8) by lia.
    rewrite <- Z.shiftl_mul_pow2 by lia.
    apply Z.bits_inj'. intros n Hn. rewrite Z.land_spec, Z.testbit_0_l.
    destruct (Z.lt_ge_cases n 8).
    - rewrite Z.shiftl_spec_low by lia. done.
    - rewrite <- (Z.mod_small s (2 ^ 8)) by lia.
      rewrite Z.mod_pow2_bits_high by lia. apply andb_false_r. }
  rewrite <- Z.lxor_lor, <- Z.add_nocarry_lxor by done.
  rewrite <- Z.lxor_lor, <- Z.add_nocarry_lxor by done. done.
Qed.

Lemma cap_group_make g s :
  0 <= g < CSPACE_SIZE → 0 <= s < CGROUP_SLOTS → cap_group (cap_make g s) = g.
Proof.
  rewrite CSPACE_SIZE_val, CGROUP_SLOTS_val. intros Hg Hs.
  rewrite cap_make_sum, cap_group_mod by done. change MASK_VALID with (2 ^ 52 * 256).
  replace (2 ^ 52 * 256 + g * 256 + s) with (s + (2 ^ 52 + g) * 256) by lia.
  rewrite Z.div_add, (Z.div_small s) by lia.
  change (2 ^ 52) with (2 ^ 40 * 4096). rewrite Z.add_0_l, Z.add_comm, Z.mod_add by lia.
  by apply Z.mod_small.
Qed.

Lemma cap_slot_make g s :
  0 <= g < CSPACE_SIZE → 0 <= s < CGROUP_SLOTS → cap_slot (cap_make g s) = s.
Proof.
  rewrite CSPACE_SIZE_val, CGROUP_SLOTS_val. intros Hg Hs.
  rewrite cap_make_sum, cap_slot_mod by done. change MASK_VALID with (2 ^ 52 * 256).
  replace (2 ^ 52 * 256 + g * 256 + s) with (s + (2 ^ 52 + g) * 256) by lia.
  rewrite Z.mod_add by lia. by apply Z.mod_small.
Qed.

(** The bits of the two masks [valid] tests, one by one. *)
Lemma mask_bits n : 0 <= n < 64 →
  Z.testbit MASK_VALID n = (n =? 60) ∧
  Z.testbit MASK_RSVD n = negb ((n <? 20) || (n =? 60)).
Proof.
  intros Hn.
  assert (H : forallb (λ n, eqb (Z.testbit MASK_VALID n) (n =? 60) &&
             eqb (Z.testbit MASK_RSVD n) (negb ((n <? 20) || (n =? 60)))) (seqZ 0 64) = true)
    by reflexivity.
  rewrite forallb_forall in H. specialize (H n).
  rewrite andb_true_iff, !eqb_true_iff in H. apply H.
  apply list_elem_of_In, elem_of_seqZ. lia.
Qed.

Lemma testbit_u64_high x n : is_u64 x → 64 <= n → Z.testbit x n = false.
Proof.
  intros Hx Hn. rewrite <- (Z.mod_small x (2 ^ 64)) by (unfold is_u64, W64 in Hx; lia).
  by rewrite Z.mod_pow2_bits_high by lia.
Qed.

Lemma cap_valid_canonical idx :
  is_u64 idx → cap_valid idx = true → idx = MASK_VALID + idx mod 2 ^ 20.
Proof.
  intros Hu. unfold cap_valid. rewrite andb_true_iff, negb_true_iff, Z.eqb_eq, Z.eqb_neq.
  intros [Hv Hr].
  assert (E1 : Z.land MASK_VALID (idx mod 2 ^ 20) = 0).
  { apply Z.bits_inj'. intros n Hn. rewrite Z.land_spec, Z.testbit_0_l.
    destruct (Z.lt_ge_cases n 20).
    - destruct (mask_bits n) as [-> _]; [lia|]. destruct (Z.eqb_spec n 60); [lia|done].
    - rewrite Z.mod_pow2_bits_high by lia. apply andb_false_r. }
  rewrite (Z.add_nocarry_lxor _ _ E1), Z.lxor_lor by done.
  assert (H60 : Z.testbit idx 60 = true).
  { destruct (Z.testbit idx 60) eqn:E; [done|]. exfalso. apply Hv.
    apply Z.bits_inj'. intros n Hn. rewrite Z.land_spec, Z.testbit_0_l.
    destruct (Z.lt_ge_cases n 64).
    - destruct (mask_bits n) as [-> _]; [lia|]. destruct (Z.eqb_spec n 60) as [->|]; [by rewrite E|].
      apply andb_false_r.
    - by rewrite testbit_u64_high. }
  apply Z.bits_inj'. intros n Hn. rewrite Z.lor_spec.
  destruct (Z.lt_ge_cases n 64).
  2:{ rewrite !testbit_u64_high; try done. unfold is_u64, W64.
      pose proof (Z.mod_pos_bound idx (2 ^ 20)). lia. }
  destruct (mask_bits n) as [-> Hrn]; [lia|].
  assert (Hb : Z.testbit (Z.land idx MASK_RSVD) n = false) by by rewrite Hr, Z.testbit_0_l.
  rewrite Z.land_spec, Hrn in Hb.
  destruct (Z.eqb_spec n 60) as [->|Hne]; [done|]. simpl.
  destruct (Z.ltb_spec n 20).
  - by rewrite Z.mod_pow2_bits_low.
  - rewrite Z.mod_pow2_bits_high by lia. simpl in Hb. by rewrite andb_true_r in Hb.
Qed.

Lemma cap_valid_make g s :
  0 <= g < CSPACE_SIZE → 0 <= s < CGROUP_SLOTS → cap_valid (cap_make g s) = true.
Proof.
  intros Hg Hs. unfold cap_valid, cap_make.
  assert (E1 : Z.land MASK_VALID MASK_VALID = MASK_VALID) by reflexivity.
  rewrite andb_true_iff, negb_true_iff, Z.eqb_eq, Z.eqb_neq. split.
  - intros H0. apply (f_equal (λ z, Z.testbit z 60)) in H0.
    rewrite Z.land_spec, !Z.lor_spec in H0. by rewrite orb_true_l in H0.
  - rewrite !Z.land_lor_distr_l, <- !Z.land_assoc.
    change (Z.land MASK_VALID MASK_RSVD) with 0. change (Z.land MASK_GROUP MASK_RSVD) with 0.
    change (Z.land MASK_SLOT MASK_RSVD) with 0. by rewrite !Z.land_0_r.
Qed.

Lemma cap_make_eta idx :
  is_u64 idx → cap_valid idx = true → cap_make (cap_group idx) (cap_slot idx) = idx.
Proof.
  intros Hu Hv. rewrite (cap_valid_canonical _ Hu Hv) at 3.
  rewrite cap_group_mod, cap_slot_mod, cap_make_sum.
  - change (2 ^ 20) with (256 * 4096). rewrite Z.rem_mul_r by lia. lia.
  - apply Z.mod_pos_bound. lia.
  - apply Z.mod_pos_bound. lia.
Qed.

(** Capability indices name table cells one to one.  The 64-bit values
    [valid] accepts are exactly the values [make] builds from an in-range
    (group, slot) pair; [group] and [slot] recover the pair, so two valid
    indices address the same cell only when they are equal. *)
Theorem cap_index_bijection :
  (∀ g s, 0 <= g < CSPACE_SIZE → 0 <= s < CGROUP_SLOTS →
     is_u64 (cap_make g s) ∧ cap_valid (cap_make g s) = true ∧
     cap_group (cap_make g s) = g ∧ cap_slot (cap_make g s) = s) ∧
  (∀ idx, is_u64 idx → cap_valid idx = true →
     0 <= cap_group idx < CSPACE_SIZE ∧ 0 <= cap_slot idx < CGROUP_SLOTS ∧
     cap_make (cap_group idx) (cap_slot idx) = idx).
Proof.
  split.
  - intros g s Hg Hs. split_and!; auto using cap_valid_make, cap_group_make, cap_slot_make;
      rewrite CSPACE_SIZE_val in Hg; rewrite CGROUP_SLOTS_val in Hs;
      rewrite cap_make_sum by done; change MASK_VALID with (2 ^ 60); unfold is_u64, W64; lia.
  - intros idx Hu Hv. rewrite CSPACE_SIZE_val, CGROUP_SLOTS_val.
    split_and!; try (rewrite cap_group_mod; apply Z.mod_pos_bound; lia);
      try (rewrite cap_slot_mod; apply Z.mod_pos_bound; lia).
    by apply cap_make_eta.
Qed.

(** The witness: index (3, 7) is valid and reads back. *)
Lemma cap_index_bijection_witness :
  cap_make (cap_group (cap_make 3 7)) (cap_slot (cap_make 3 7)) = cap_make 3 7.
Proof.
  destruct cap_index_bijection as [Hm Hv]. apply Hv.
  - apply Hm; vm_compute; split; congruence.
  - reflexivity.
Defined.

(** ** Free slots *)

Lemma first_such_Some {A} (f : A → bool) l x :
  first_such f l = Some x ↔
  ∃ l1 l2, l = l1 ++ x :: l2 ∧ f x = true ∧ Forall (λ y, f y = false) l1.
Proof.
  induction l as [|y l IH]; simpl.
  - split; [done|]. intros (l1 & l2 & E & _). by destruct l1.
  - destruct (f y) eqn:Ey.
    + split.
      * intros [= ->]. exists [], l. by split_and!.
      * intros (l1 & l2 & E & Hx & Hl). destruct l1 as [|z l1]; simplify_eq/=; [done|].
        inversion Hl. congruence.
    + rewrite IH. split.
      * intros (l1 & l2 & -> & Hx & Hl). exists (y :: l1), l2. split_and!; [done|done|by constructor].
      * intros (l1 & l2 & E & Hx & Hl). destruct l1 as [|z l1]; simplify_eq/=; [congruence|].
        inversion Hl; subst. eauto.
Qed.

Lemma first_such_None {A} (f : A → bool) l :
  first_such f l = None ↔ Forall (λ y, f y = false) l.
Proof.
  induction l as [|y l IH]; simpl; [done|]. rewrite Forall_cons.
  destruct (f y); [|rewrite IH]; intuition congruence.
Qed.

(** A prefix of [0, 1, 2, ...] before the value [x] holds the smaller ones. *)
Lemma seqZ_split m n l1 x l2 :
  seqZ m n = l1 ++ x :: l2 → m <= x < m + n ∧ ∀ y, m <= y < x → y ∈ l1.
Proof.
  intros E.
  assert (Hx : x ∈ seqZ m n) by (rewrite E; set_solver).
  apply elem_of_seqZ in Hx. split; [done|]. intros y Hy.
  assert (Hl : seqZ m n !! length l1 = Some x) by (rewrite E; by apply list_lookup_middle).
  apply lookup_seqZ in Hl as [Hl _].
  assert (Hyl : seqZ m n !! Z.to_nat (y - m) = Some y).
  { apply lookup_seqZ. lia. }
  rewrite E, lookup_app_l in Hyl by lia. by eapply list_elem_of_lookup_2.
Qed.

(** Cell [(i, j)] of the table, as [lookup_freeslot] reads it. *)
Definition cell_free (sp : CSpace) (i j : Z) : Prop := cspace_get sp (cap_make i j) = 0.

Lemma freeslot_loop_spec sp l :
  Forall (λ i, 0 <= i < CSPACE_SIZE) l →
  match freeslot_loop sp l with
  | Ok idx => ∃ l1 i l2 j, l = l1 ++ i :: l2 ∧ idx = cap_make i j ∧ 0 <= j < CGROUP_SLOTS ∧
      cell_free sp i j ∧ (∀ j', 0 <= j' < j → ¬ cell_free sp i j') ∧
      (∀ i' j', i' ∈ l1 → 0 <= j' < CGROUP_SLOTS → ¬ cell_free sp i' j')
  | Err e => e = NO_FREE_SLOT ∧ ∀ i j, i ∈ l → 0 <= j < CGROUP_SLOTS → ¬ cell_free sp i j
  end.
Proof.
  induction l as [|i l IH]; intros Hl; cbn [freeslot_loop]; [split; [done|set_solver]|].
  inversion Hl as [|?? Hi Hl']; subst. specialize (IH Hl').
  assert (Hcell : ∀ j, 0 <= j < CGROUP_SLOTS → cell_free sp i j ↔
            match sp !! i with None => True | Some g => cgroup_get g (cap_make i j) = 0 end).
  { intros j Hj. unfold cell_free, cspace_get. rewrite cap_group_make by done.
    by destruct (sp !! i). }
  destruct (sp !! i) as [g|] eqn:Eg.
  2:{ exists [], i, l, 0. rewrite CGROUP_SLOTS_val in *. split_and!; try done; try lia.
      - apply Hcell; [lia|done].
      - set_solver. }
  destruct (first_such (A:=Z) _ _) as [j|] eqn:Ef.
  - apply first_such_Some in Ef as (l1 & l2 & E & Hz & Hall).
    apply seqZ_split in E as [Hj Hlt]. exists [], i, l, j. split_and!; try done; try lia.
    + apply Hcell; [lia|]. by apply Z.eqb_eq.
    + intros j' Hj'. rewrite Hcell by lia. rewrite Forall_forall in Hall.
      apply Z.eqb_neq, Hall, Hlt. lia.
    + set_solver.
  - rewrite first_such_None, Forall_forall in Ef.
    assert (Hfull : ∀ j, 0 <= j < CGROUP_SLOTS → ¬ cell_free sp i j).
    { intros j Hj. rewrite Hcell by done. apply Z.eqb_neq, Ef, elem_of_seqZ. lia. }
    destruct (freeslot_loop sp l) as [idx|e].
    + destruct IH as (l1 & i' & l2 & j & -> & -> & Hj & Hfree & Hlt & Hpre).
      exists (i :: l1), i', l2, j. split_and!; try done; try lia.
      intros i2 j2 [->|Hin]%elem_of_cons Hj2; eauto.
    + destruct IH as [-> IH]. split; [done|]. intros i2 j2 [->|Hin]%elem_of_cons Hj2; eauto.
Qed.

(** What the clients of [lookup_freeslot] need of the index it returns. *)
Lemma lookup_freeslot_ok sp idx :
  lookup_freeslot sp = Ok idx → is_u64 idx ∧ cap_valid idx = true ∧ cspace_get sp idx = 0.
Proof.
  unfold lookup_freeslot. pose proof (freeslot_loop_spec sp (seqZ 0 CSPACE_SIZE)) as H.
  intros E. rewrite E in H. destruct H as (l1 & i & l2 & j & El & -> & Hj & Hf & _).
  { apply Forall_forall. intros i. rewrite elem_of_seqZ. lia. }
  apply seqZ_split in El as [Hi _]. rewrite Z.add_0_l in Hi.
  split_and!; [|by apply cap_valid_make|done].
  rewrite CSPACE_SIZE_val in Hi. rewrite CGROUP_SLOTS_val in Hj.
  rewrite cap_make_sum by done. change MASK_VALID with (2 ^ 60). unfold is_u64, W64; lia.
Qed.

(** The entries [foreach] visits are exactly the occupied cells. *)
Lemma elem_of_entries sp idx ptr :
  (idx, ptr) ∈ cspace_entries sp ↔
  ∃ i j, 0 <= i < CSPACE_SIZE ∧ 0 <= j < CGROUP_SLOTS ∧ idx = cap_make i j ∧
         cspace_get sp idx = ptr ∧ ptr ≠ 0.
Proof.
  unfold cspace_entries. rewrite list_elem_of_bind. split.
  - intros (i & Hin & Hi). apply elem_of_seqZ in Hi. destruct (sp !! i) as [g|] eqn:Eg.
    2:{ by apply not_elem_of_nil in Hin. }
    apply list_elem_of_bind in Hin as (j & Hin & Hj). apply elem_of_seqZ in Hj. cbv zeta in Hin.
    destruct (Z.eqb_spec (cgroup_get g (cap_make i j)) 0); [by apply not_elem_of_nil in Hin|].
    apply list_elem_of_singleton in Hin as [= -> ->]. exists i, j.
    split_and!; try lia; try done. unfold cspace_get. by rewrite cap_group_make, Eg by lia.
  - intros (i & j & Hi & Hj & -> & Hg & Hne). exists i. rewrite elem_of_seqZ. split; [|lia].
    unfold cspace_get in Hg. rewrite cap_group_make in Hg by lia.
    destruct (sp !! i) as [g|]; [|done]. apply list_elem_of_bind. exists j.
    rewrite elem_of_seqZ. split; [|lia]. cbv zeta. rewrite Hg.
    rewrite (proj2 (Z.eqb_neq _ _)) by done. by apply list_elem_of_singleton.
Qed.

(** [lookup_freeslot] returns the first free cell in (group, slot) order,
    as a valid index; it fails, with [NO_FREE_SLOT], only when all
    [CSPACE_CAPACITY] cells are occupied. *)
Theorem lookup_freeslot_spec sp :
  match lookup_freeslot sp with
  | Ok idx => ∃ i j, 0 <= i < CSPACE_SIZE ∧ 0 <= j < CGROUP_SLOTS ∧ idx = cap_make i j ∧
      cap_valid idx = true ∧ cspace_get sp idx = 0 ∧
      ∀ i' j', 0 <= i' < CSPACE_SIZE → 0 <= j' < CGROUP_SLOTS →
        i' < i ∨ (i' = i ∧ j' < j) → cspace_get sp (cap_make i' j') ≠ 0
  | Err e => e = NO_FREE_SLOT ∧
      ∀ i j, 0 <= i < CSPACE_SIZE → 0 <= j < CGROUP_SLOTS → cspace_get sp (cap_make i j) ≠ 0
  end.
Proof.
  unfold lookup_freeslot. pose proof (freeslot_loop_spec sp (seqZ 0 CSPACE_SIZE)) as H.
  destruct (freeslot_loop sp _) as [idx|e].
  - destruct H as (l1 & i & l2 & j & E & -> & Hj & Hf & Hlt & Hpre).
    { apply Forall_forall. intros i. rewrite elem_of_seqZ. lia. }
    apply seqZ_split in E as [Hi Hin]. exists i, j. rewrite Z.add_0_l in Hi.
    split_and!; try done; try lia; [by apply cap_valid_make|].
    intros i' j' Hi' Hj' [Hlti| [-> Hltj]]; [apply Hpre; [apply Hin; lia|done]|apply Hlt; lia].
  - destruct H as [-> H].
    { apply Forall_forall. intros i. rewrite elem_of_seqZ. lia. }
    split; [done|]. intros i j Hi Hj. apply H; [|done]. apply elem_of_seqZ. lia.
Qed.
