(* ===== verification/CHolder.v ===== *)
(** * Capability holders

    [kernel/cap/capability.h] ([Payload], [Capability], the destructive slot
    operations of [CGroup]/[CSpace]), [kernel/cap/cholder.h], [cholder.cpp] and
    [remove_guard] of [kernel/guard.h].

    The heap of the component is a [store]: payload objects with their
    reference count, capability objects, and the capability spaces of the live
    holders.  A pointer is a [Z] and 0 is [nullptr]; dereferencing or deleting
    an object that is not in the store is a [Panic], so "no panic" is also "no
    use after free and no double free".  [budget] is the number of capability
    objects the slab can still provide; [new Capability] is [nullptr] at 0.

    The virtual methods of the payload classes and the task memory manager are
    interfaces ([PayloadOps], [TmmOps]): the theorems hold for every instance.
    Payload classes whose own body owns capabilities (file-backed memory) are
    outside the interface. *)

From S2P Require Import Prelude ErrCode Capability.

#[local] Open Scope Z_scope.

(** What [clone_payload()] returns: the object itself (the default), a new
    object, or [nullptr]. *)
Inductive CloneRes (B : Type) : Type :=
  | CloneThis
  | CloneNew (b : B)
  | CloneNull.
Arguments CloneThis {B}.
Arguments CloneNew {B} _.
Arguments CloneNull {B}.

(** The virtual interface of [Payload] over a payload body [B] and the rest of
    the kernel [W]. *)
Class PayloadOps (B W : Type) := {
  type_id : B → PayloadType;
  clone_payload : B → W → CloneRes B * B * W;
  destruct_payload : B → W → W;
  mem_shared : B → bool
}.

(** [env::inst().tmm()] and [TaskMemoryManager::protect_memory_cow]. *)
Class TmmOps (W : Type) := {
  tmm_active : W → bool;
  protect_memory_cow : Z → W → Result unit * W
}.

Section cholder.
Context {B W : Type} `{PO : !PayloadOps B W} `{TO : !TmmOps W}.

Record Payload := mkPayload { refcount : Z; p_body : B }.
Record Cap := mkCap { c_payload : Z; c_perm : Z }.

Record store := mkStore {
  payloads : gmap Z Payload;
  caps : gmap Z Cap;
  holders : gmap Z CSpace;
  next_ptr : Z;
  budget : Z;
  cur_id : Z;
  world : W
}.

Definition set_payloads f s := mkStore (f (payloads s)) (caps s) (holders s)
  (next_ptr s) (budget s) (cur_id s) (world s).
Definition set_caps f s := mkStore (payloads s) (f (caps s)) (holders s)
  (next_ptr s) (budget s) (cur_id s) (world s).
Definition set_holders f s := mkStore (payloads s) (caps s) (f (holders s))
  (next_ptr s) (budget s) (cur_id s) (world s).
Definition set_budget f s := mkStore (payloads s) (caps s) (holders s)
  (next_ptr s) (f (budget s)) (cur_id s) (world s).
Definition set_next f s := mkStore (payloads s) (caps s) (holders s)
  (f (next_ptr s)) (budget s) (cur_id s) (world s).
Definition set_cur_id f s := mkStore (payloads s) (caps s) (holders s)
  (next_ptr s) (budget s) (f (cur_id s)) (world s).
Definition set_world w s := mkStore (payloads s) (caps s) (holders s)
  (next_ptr s) (budget s) (cur_id s) w.

#[local] Abbreviation M := (M store).

(** A dereference: the object must be alive. *)
Definition deref {A} (f : store → option A) : M A := λ s,
  match f s with Some a => Fin (Ok a) s | None => Panic end.
Definition get_payload (p : Z) : M Payload := deref (λ s, payloads s !! p).
Definition get_cap (c : Z) : M Cap := deref (λ s, caps s !! c).
Definition get_space (h : Z) : M CSpace := deref (λ s, holders s !! h).

Definition fresh_ptr : M Z := λ s, Fin (Ok (next_ptr s)) (set_next (λ n, n + 1) s).

(** ** [Payload] *)

Definition keep (p : Z) : M unit :=
  pl ← get_payload p;
  modify (set_payloads <[p := mkPayload (add64 (refcount pl) 1) (p_body pl)]>).

(** [destruct()]: the body's destructor runs and the object is deleted. *)
Definition destruct_obj (p : Z) : M unit :=
  pl ← get_payload p;
  modify (λ s, set_payloads (delete p)
                 (set_world (destruct_payload (p_body pl) (world s)) s)).

Definition release (p : Z) : M unit :=
  pl ← get_payload p;
  _ ← massert (0 <? refcount pl);
  let rc := sub64 (refcount pl) 1 in
  _ ← modify (set_payloads <[p := mkPayload rc (p_body pl)]>);
  if rc =? 0 then destruct_obj p else mret tt.

(** ** [Capability] *)

(** [operator new] of the capability slab. *)
Definition cap_alloc : M (option Z) :=
  b ← gets budget;
  if b =? 0 then mret None
  else
    ptr ← fresh_ptr;
    _ ← modify (set_budget (λ b, b - 1));
    mret (Some ptr).

(** [new Capability(payload, perm)]; [nullptr] when the slab is empty, as the callers that
    test the pointer expect ([operator new] is not declared [noexcept], so C++ does not
    promise it). *)
Definition new_cap (payload perm : Z) : M Z :=
  a ← cap_alloc;
  match a with
  | None => mret 0
  | Some ptr =>
      _ ← massert (negb (payload =? 0));
      _ ← keep payload;
      _ ← modify (set_caps <[ptr := mkCap payload perm]>);
      mret ptr
  end.

(** [_payload(other._payload->clone_payload())] *)
Definition clone_payload_obj (p : Z) : M Z :=
  pl ← get_payload p;
  w ← gets world;
  let '(r, b, w) := clone_payload (p_body pl) w in
  _ ← modify (λ s, set_world w
                     (set_payloads <[p := mkPayload (refcount pl) b]> s));
  match r with
  | CloneThis => mret p
  | CloneNull => mret 0
  | CloneNew b =>
      q ← fresh_ptr;
      _ ← modify (set_payloads <[q := mkPayload 0 b]>);
      mret q
  end.

(** [Capability::clone]: [new Capability( *this)]. *)
Definition clone_cap (c : Z) : M Z :=
  src ← get_cap c;
  a ← cap_alloc;
  match a with
  | None => mret 0
  | Some ptr =>
      q ← clone_payload_obj (c_payload src);
      _ ← massert (negb (q =? 0));
      _ ← keep q;
      _ ← modify (set_caps <[ptr := mkCap q (c_perm src)]>);
      mret ptr
  end.

(** [delete cap]: the destructor releases the payload, and the object goes
    back to the slab. *)
Definition delete_cap (c : Z) : M unit :=
  cap ← get_cap c;
  _ ← (if c_payload cap =? 0 then mret tt else release (c_payload cap));
  _ ← modify (set_caps (delete c));
  modify (set_budget (λ b, b + 1)).

Definition cap_downgrade (c new_perm : Z) : M unit :=
  cap ← get_cap c;
  if negb (perm_imply (c_perm cap) new_perm) then fail INSUFFICIENT_PERMISSIONS
  else modify (set_caps <[c := mkCap (c_payload cap) new_perm]>).

Definition clear_perm (c permissions : Z) : M unit :=
  cap ← get_cap c;
  modify (set_caps <[c := mkCap (c_payload cap)
                                (Z.land (c_perm cap) (not64 permissions))]>).

(** ** [CSpace] of a holder *)

Definition put_space (h : Z) (sp : CSpace) : M unit := modify (set_holders <[h := sp]>).

(** [CSpace::set]: the old capability of the slot is deleted. *)
Definition space_set (h idx c : Z) : M unit :=
  sp ← get_space h;
  let old := cspace_get sp idx in
  _ ← (if old =? 0 then mret tt else delete_cap old);
  sp ← get_space h;
  put_space h (cspace_put sp idx c).

Definition space_remove (h idx : Z) : M unit := space_set h idx 0.

Definition space_take (h idx : Z) : M Z :=
  sp ← get_space h;
  let '(c, sp') := cspace_take sp idx in
  _ ← put_space h sp';
  mret c.

Definition space_move (h target_idx src_idx : Z) : M unit :=
  if target_idx =? src_idx then mret tt
  else
    sp ← get_space h;
    let c := cspace_get sp src_idx in
    if c =? 0 then fail OUT_OF_BOUNDARY
    else
      _ ← space_set h target_idx c;
      removed ← space_take h src_idx;
      massert (removed =? c).

(** [CSpace::clear] and the destructors [~CSpace], [~CGroup]: every non-null
    slot is deleted and nulled in order, then the groups are freed. *)
Fixpoint space_clear_loop (h : Z) (l : list (Z * Z)) : M unit :=
  match l with
  | [] => mret tt
  | (idx, c) :: l =>
      _ ← delete_cap c;
      sp ← get_space h;
      _ ← put_space h (cspace_put sp idx 0);
      space_clear_loop h l
  end.

Definition space_clear (h : Z) : M unit :=
  sp ← get_space h;
  _ ← space_clear_loop h (cspace_entries sp);
  put_space h ∅.

(** ** [CHolder] *)

Definition lookup (h idx : Z) : M Z :=
  if negb (cap_valid idx) then fail TYPE_NOT_MATCHED
  else
    sp ← get_space h;
    let c := cspace_get sp idx in
    if c =? 0 then fail OUT_OF_BOUNDARY else mret c.

Definition set_slot (h idx c : Z) : M unit :=
  if negb (cap_valid idx) then fail TYPE_NOT_MATCHED else space_set h idx c.

Definition take_slot (h idx : Z) : M Z :=
  if negb (cap_valid idx) then fail TYPE_NOT_MATCHED
  else
    c ← space_take h idx;
    if c =? 0 then fail OUT_OF_BOUNDARY else mret c.

Definition holder_freeslot (h : Z) : M Z :=
  sp ← get_space h;
  of_result (lookup_freeslot sp).

Definition insert (h idx payload permissions : Z) : M unit :=
  if negb (cap_valid idx) then fail TYPE_NOT_MATCHED
  else if payload =? 0 then fail NULLPTR
  else
    sp ← get_space h;
    if negb (cspace_get sp idx =? 0) then fail SLOT_BUSY
    else
      c ← new_cap payload permissions;
      if c =? 0 then fail OUT_OF_MEMORY
      else
        r ← attempt (set_slot h idx c);
        _ ← massert (has_value r);
        of_result r.

Definition insert_to_free (h payload permissions : Z) : M Z :=
  idx ← holder_freeslot h;
  _ ← insert h idx payload permissions;
  mret idx.

(** [create<PayloadType>(args...)]; [obj] is the constructed payload, [None]
    when its allocation fails. *)
Definition create (h : Z) (obj : option B) : M Z :=
  match obj with
  | None => fail OUT_OF_MEMORY
  | Some b =>
      p ← fresh_ptr;
      _ ← modify (set_payloads <[p := mkPayload 0 b]>);
      r ← attempt (insert_to_free h p allperm);
      match r with
      | Ok idx => mret idx
      | Err e => _ ← modify (set_payloads (delete p)); fail e
      end
  end.

Definition remove (h idx : Z) : M unit :=
  c ← lookup h idx;
  if c =? 0 then mret tt else set_slot h idx 0.

Definition clear (h : Z) : M unit := space_clear h.

(** The copy-on-write step of [CHolder::clone] for unshared memory. *)
Definition clone_protect (h target_idx payload : Z) : M Z :=
  pl ← get_payload payload;
  w ← gets world;
  if bool_decide (type_id (p_body pl) = MEMORY) && negb (mem_shared (p_body pl))
     && tmm_active w
  then
    let '(cow, w) := protect_memory_cow payload w in
    _ ← modify (set_world w);
    match cow with
    | Ok _ => mret target_idx
    | Err e =>
        r ← attempt (set_slot h target_idx 0);
        _ ← massert (has_value r);
        fail e
    end
  else mret target_idx.

Definition clone (h src_idx : Z) : M Z :=
  c ← lookup h src_idx;
  src ← get_cap c;
  if negb (perm_imply (c_perm src) perm.CLONE) then fail INSUFFICIENT_PERMISSIONS
  else
    target_idx ← holder_freeslot h;
    cloned ← clone_cap c;
    r ← attempt (set_slot h target_idx cloned);
    match r with
    | Err e => _ ← delete_cap cloned; fail e
    | Ok _ => clone_protect h target_idx (c_payload src)
    end.

(** [remove_guard]: what its destructor runs when it was not released. *)
Definition remove_guard_fire (h idx : Z) : M unit :=
  r ← attempt (remove h idx);
  massert (has_value r).

Definition derive (h src_idx new_perm : Z) : M Z :=
  target_idx ← clone h src_idx;
  r ← attempt (lookup h target_idx);
  match r with
  | Err _ => panic
  | Ok c =>
      d ← attempt (cap_downgrade c new_perm);
      match d with
      | Ok _ => mret target_idx
      | Err e => _ ← remove_guard_fire h target_idx; fail e
      end
  end.

Definition downgrade (h idx new_perm : Z) : M unit :=
  c ← lookup h idx;
  cap_downgrade c new_perm.

(** The two halves of [transfer_to]: copy when the source may be cloned, move
    otherwise. *)
Definition transfer_clone (dst c : Z) : M Z :=
  cloned ← clone_cap c;
  if cloned =? 0 then fail OUT_OF_MEMORY
  else
    t ← attempt (holder_freeslot dst);
    match t with
    | Err e => _ ← delete_cap cloned; fail e
    | Ok target =>
        r ← attempt (set_slot dst target cloned);
        match r with
        | Err e => _ ← delete_cap cloned; fail e
        | Ok _ => mret target
        end
    end.

Definition transfer_move (h dst src_idx payload permissions : Z) : M Z :=
  let delivered_perm := Z.land permissions (not64 perm.MIGRATE_ONCE) in
  target ← insert_to_free dst payload delivered_perm;
  r ← attempt (remove h src_idx);
  match r with
  | Ok _ => mret target
  | Err e => _ ← remove_guard_fire dst target; fail e
  end.

Definition transfer_to (h dst src_idx : Z) : M Z :=
  c ← lookup h src_idx;
  src ← get_cap c;
  if perm_imply (c_perm src) perm.CLONE then transfer_clone dst c
  else if negb (perm_imply (c_perm src) perm.MIGRATE)
          && negb (perm_imply (c_perm src) perm.MIGRATE_ONCE)
  then fail INSUFFICIENT_PERMISSIONS
  else transfer_move h dst src_idx (c_payload src) (c_perm src).

(** [copy_all_to]: the first error stops the copying. *)
Fixpoint copy_loop (dst : Z) (l : list (Z * Z)) : M unit :=
  match l with
  | [] => mret tt
  | (idx, c) :: l =>
      cap ← get_cap c;
      _ ← insert dst idx (c_payload cap) (c_perm cap);
      copy_loop dst l
  end.
Definition copy_all_to (h dst : Z) : M unit :=
  sp ← get_space h;
  copy_loop dst (cspace_entries sp).

(** ** [CHolderManager] *)

Definition get_holder (id : Z) : M Z :=
  hs ← gets holders;
  match hs !! id with
  | None => fail OUT_OF_BOUNDARY
  | Some _ => mret id
  end.

Definition create_holder : M Z :=
  id ← gets cur_id;
  _ ← modify (set_cur_id (λ n, add64 n 1));
  _ ← modify (set_holders <[id := ∅]>);
  mret id.

Definition remove_holder (id : Z) : M unit :=
  h ← get_holder id;
  _ ← space_clear h;
  modify (set_holders (delete h)).

(** ** Invariant *)

(** The capabilities that refer to payload [p]. *)
Definition refs (cs : gmap Z Cap) (p : Z) : gmap Z Cap :=
  filter (λ x, c_payload x.2 = p) cs.

(** The heap: reference counts count exactly the live capabilities, live
    capabilities have live payloads, no pointer from the future. *)
Record heap_ok (s : store) : Prop := {
  ho_rc : ∀ p pl, payloads s !! p = Some pl →
            refcount pl = Z.of_nat (size (refs (caps s) p)) ∧ 0 < p < next_ptr s;
  ho_live : ∀ c cap, caps s !! c = Some cap →
            is_Some (payloads s !! c_payload cap) ∧ 0 < c < next_ptr s;
  ho_next : 0 < next_ptr s;
  ho_budget : 0 <= budget s ∧ Z.of_nat (size (caps s)) + budget s < W64
}.

Definition slot_at (hs : gmap Z CSpace) (x : Z * Z * Z) : option Z :=
  sp ← hs !! x.1.1; grp ← sp !! x.1.2; grp !! x.2.

(** The slots own the capabilities: every slot holds a live one, no two slots
    the same one, and every one is in a slot. *)
Record slots_ok (cs : gmap Z Cap) (hs : gmap Z CSpace) : Prop := {
  so_live : ∀ x c, slot_at hs x = Some c →
              is_Some (cs !! c) ∧ 0 <= x.1.2 < CSPACE_SIZE ∧ 0 <= x.2 < CGROUP_SLOTS;
  so_inj : ∀ x y c, slot_at hs x = Some c → slot_at hs y = Some c → x = y;
  so_own : ∀ c, is_Some (cs !! c) → ∃ x, slot_at hs x = Some c
}.

Record inv (s : store) : Prop := {
  inv_heap : heap_ok s;
  inv_slots : slots_ok (caps s) (holders s);
  inv_ids : ∀ h, is_Some (holders s !! h) → 0 <= h < cur_id s
}.

(** Every capability of [s'] is covered by one of [s] on the same payload, or
    its payload is an object that did not exist in [s] (a clone). *)
Definition no_amplify (s s' : store) : Prop :=
  next_ptr s <= next_ptr s' ∧
  ∀ c' cap', caps s' !! c' = Some cap' →
    ∃ c cap, caps s !! c = Some cap ∧ bits_implies (c_perm cap) (c_perm cap') = true ∧
             (c_payload cap' = c_payload cap ∨ next_ptr s <= c_payload cap').

Definition frame (s s' : store) : Prop :=
  holders s' = holders s ∧ cur_id s' = cur_id s ∧ next_ptr s <= next_ptr s'.

(** ** Slots and puts *)

Lemma slot_at_put hs h sp idx c x :
  hs !! h = Some sp →
  slot_at (<[h := cspace_put sp idx c]> hs) x =
  if decide (x = (h, cap_group idx, cap_slot idx))
  then (if c =? 0 then None else Some c) else slot_at hs x.
Proof.
  intros Hh. destruct x as [[h' g'] j']. unfold slot_at, cspace_put, cgroup_put; simpl.
  destruct (decide (h' = h)) as [->|Hne].
  2:{ rewrite lookup_insert_ne by done. rewrite decide_False by congruence. done. }
  rewrite lookup_insert_eq, Hh; simpl.
  destruct (decide (g' = cap_group idx)) as [->|Hne].
  2:{ rewrite lookup_insert_ne by done. rewrite decide_False by congruence. done. }
  rewrite lookup_insert_eq; simpl.
  destruct (decide (j' = cap_slot idx)) as [->|Hne].
  - rewrite decide_True by done. destruct (c =? 0).
    + apply lookup_delete_eq.
    + apply lookup_insert_eq.
  - rewrite decide_False by congruence.
    assert (E : default ∅ (sp !! cap_group idx) !! j' =
                (sp !! cap_group idx ≫= λ grp, grp !! j')).
    { destruct (sp !! cap_group idx); [done|]. simpl. by rewrite lookup_empty. }
    destruct (c =? 0); [rewrite lookup_delete_ne by done|rewrite lookup_insert_ne by done];
      exact E.
Qed.

(** No slot holds a null pointer, since the invariant keeps it out of [caps]. *)
Lemma cspace_get_slot hs h sp idx :
  hs !! h = Some sp → slot_at hs (h, cap_group idx, cap_slot idx) ≠ Some 0 →
  (cspace_get sp idx =? 0) = true ↔ slot_at hs (h, cap_group idx, cap_slot idx) = None.
Proof.
  intros Hh Hz. unfold cspace_get, cgroup_get, slot_at in *; simpl in *.
  rewrite Hh in *; simpl in *. destruct (sp !! cap_group idx) as [g|]; simpl in *; [|done].
  destruct (g !! cap_slot idx) as [v|]; simpl in *; [|done].
  rewrite Z.eqb_eq. split; [congruence|done].
Qed.

Lemma cspace_get_some hs h sp idx c :
  hs !! h = Some sp → cspace_get sp idx = c → c ≠ 0 →
  slot_at hs (h, cap_group idx, cap_slot idx) = Some c.
Proof.
  intros Hh Hg Hz. unfold cspace_get, cgroup_get, slot_at in *; simpl.
  rewrite Hh; simpl. destruct (sp !! cap_group idx) as [g|]; simpl in *; [|done].
  destruct (g !! cap_slot idx) as [v|]; simpl in *; congruence.
Qed.

Lemma index_range idx :
  0 <= cap_group idx < CSPACE_SIZE ∧ 0 <= cap_slot idx < CGROUP_SLOTS.
Proof.
  rewrite cap_group_mod, cap_slot_mod, CSPACE_SIZE_val, CGROUP_SLOTS_val.
  split; apply Z.mod_pos_bound; lia.
Qed.

(** Overwriting a slot whose capability is gone from the heap. *)
Lemma slots_ok_clear cs hs h sp idx c :
  hs !! h = Some sp → slot_at hs (h, cap_group idx, cap_slot idx) = Some c →
  slots_ok cs hs → slots_ok (delete c cs) (<[h := cspace_put sp idx 0]> hs).
Proof.
  intros Hh Hs [L I O].
  split.
  - intros x c'. rewrite (slot_at_put _ _ _ _ _ _ Hh). simpl.
    destruct (decide _) as [|Hne]; [done|]. intros Hx. destruct (L _ _ Hx) as [Hc ?].
    split; [|done]. rewrite lookup_delete_ne; [done|]. intros ->.
    apply Hne. by apply (I _ _ c').
  - intros x y c'. rewrite !(slot_at_put _ _ _ _ _ _ Hh). simpl.
    repeat destruct (decide _); try done. apply I.
  - intros c' Hc. apply lookup_delete_is_Some in Hc as [Hne Hc].
    destruct (O _ Hc) as [x Hx]. exists x. rewrite (slot_at_put _ _ _ _ _ _ Hh).
    rewrite decide_False; [done|]. intros ->. congruence.
Qed.

(** Storing a capability that is not in any slot into a free slot. *)
Lemma slots_ok_store cs hs h sp idx c cap :
  hs !! h = Some sp → slot_at hs (h, cap_group idx, cap_slot idx) = None →
  cs !! c = None → c ≠ 0 →
  slots_ok cs hs → slots_ok (<[c := cap]> cs) (<[h := cspace_put sp idx c]> hs).
Proof.
  intros Hh Hs Hc Hz [L I O]. assert (Ez : (c =? 0) = false) by by apply Z.eqb_neq.
  assert (Hno : ∀ x, slot_at hs x ≠ Some c).
  { intros x Hx. destruct (L _ _ Hx) as [[? ?] _]. congruence. }
  split.
  - intros x c'. rewrite (slot_at_put _ _ _ _ _ _ Hh), Ez.
    destruct (decide _) as [->|Hne].
    + intros [= <-]. rewrite lookup_insert_eq. split; [done|]. apply index_range.
    + intros Hx. destruct (L _ _ Hx) as [Hl ?]. split; [|done].
      rewrite lookup_insert_is_Some'. by right.
  - intros x y c'. rewrite !(slot_at_put _ _ _ _ _ _ Hh), Ez.
    repeat destruct (decide _); subst; try done; try (intros; simplify_eq; exfalso; by eapply Hno).
    apply I.
  - intros c' Hl. destruct (decide (c' = c)) as [->|Hne].
    + exists (h, cap_group idx, cap_slot idx).
      rewrite (slot_at_put _ _ _ _ _ _ Hh), Ez. by rewrite decide_True.
    + rewrite lookup_insert_ne in Hl by done. destruct (O _ Hl) as [x Hx]. exists x.
      rewrite (slot_at_put _ _ _ _ _ _ Hh). rewrite decide_False; [done|].
      intros ->. congruence.
Qed.

Lemma slots_ok_ext cs hs hs' :
  (∀ x, slot_at hs' x = slot_at hs x) → slots_ok cs hs → slots_ok cs hs'.
Proof.
  intros Hs [L I O].
  split; [intros x c; rewrite Hs; apply L|intros x y c; rewrite !Hs; apply I|].
  intros c Hc. destruct (O c Hc) as [x Hx]. exists x. by rewrite Hs.
Qed.

(** A change of permissions leaves the ownership of slots alone. *)
Lemma slots_ok_upd cs hs c cap :
  is_Some (cs !! c) → slots_ok cs hs → slots_ok (<[c := cap]> cs) hs.
Proof.
  intros Hc [L I O]. split.
  - intros x c' Hx. destruct (L _ _ Hx). split; [|done].
    rewrite lookup_insert_is_Some'. by right.
  - apply I.
  - intros c' Hl. apply O. destruct (decide (c' = c)) as [->|Hne]; [done|].
    by rewrite lookup_insert_ne in Hl.
Qed.

(** ** Counting references *)

Lemma refs_size_insert cs c cap p :
  cs !! c = None →
  size (refs (<[c := cap]> cs) p) =
  ((if decide (c_payload cap = p) then 1 else 0) + size (refs cs p))%nat.
Proof.
  intros Hc. unfold refs. destruct (decide (c_payload cap = p)).
  - rewrite map_filter_insert_True by done. apply map_size_insert_None.
    apply map_lookup_filter_None. by left.
  - rewrite map_filter_insert_False by done. by rewrite delete_id.
Qed.

Lemma refs_size_delete cs c cap p :
  cs !! c = Some cap →
  size (refs cs p) =
  ((if decide (c_payload cap = p) then 1 else 0) + size (refs (delete c cs) p))%nat.
Proof.
  intros Hc. rewrite <- (refs_size_insert _ c) by apply lookup_delete_eq.
  by rewrite insert_delete_id.
Qed.

Lemma refs_size_upd cs c cap cap' p :
  cs !! c = Some cap → c_payload cap' = c_payload cap →
  size (refs (<[c := cap']> cs) p) = size (refs cs p).
Proof.
  intros Hc E. rewrite (refs_size_delete _ _ _ p Hc).
  rewrite (refs_size_delete _ c cap') by apply lookup_insert_eq.
  rewrite delete_insert_eq. by rewrite E.
Qed.

Lemma refs_size_le cs p : (size (refs cs p) <= size cs)%nat.
Proof. apply map_subseteq_size, map_filter_subseteq. Qed.

Lemma refs_size_pos cs c cap :
  cs !! c = Some cap → (0 < size (refs cs (c_payload cap)))%nat.
Proof. intros Hc. rewrite (refs_size_delete _ _ _ _ Hc), decide_True by done. lia. Qed.

Lemma refs_size_zero cs p : size (refs cs p) = 0%nat →
  ∀ c cap, cs !! c = Some cap → c_payload cap ≠ p.
Proof. intros H0 c cap Hc <-. pose proof (refs_size_pos _ _ _ Hc). lia. Qed.

Lemma heap_ok_rc_range s p pl :
  heap_ok s → payloads s !! p = Some pl → 0 <= refcount pl < W64 - budget s.
Proof.
  intros H Hp. destruct (ho_rc _ H _ _ Hp) as [-> _]. destruct (ho_budget _ H).
  pose proof (refs_size_le (caps s) p). lia.
Qed.

(** ** The heap operations *)

Lemma wp_deref {A} (f : store → option A) s a (Q : Result A → store → Prop) :
  f s = Some a → Q (Ok a) s → wp (deref f) s Q.
Proof. unfold wp, deref. by intros ->. Qed.

(** An allocated but not yet constructed capability object. *)
Definition reserved (s : store) (ptr : Z) : Prop :=
  caps s !! ptr = None ∧ 0 < ptr < next_ptr s ∧
  Z.of_nat (size (caps s)) + budget s + 1 < W64.

Lemma heap_ok_alloc s :
  heap_ok s → 0 < budget s →
  let s' := set_budget (λ b, b - 1) (set_next (λ n, n + 1) s) in
  heap_ok s' ∧ reserved s' (next_ptr s).
Proof.
  intros [R L N D] Hb. unfold reserved. split; [split|split_and!]; simpl; try lia.
  - intros p pl Hp. destruct (R _ _ Hp). lia.
  - intros c cap Hc. destruct (L _ _ Hc). split; [done|lia].
  - destruct (caps s !! next_ptr s) eqn:E; [|done]. destruct (L _ _ E). lia.
Qed.

Lemma heap_ok_link s ptr q pl perm :
  heap_ok s → reserved s ptr → payloads s !! q = Some pl →
  heap_ok (set_caps <[ptr := mkCap q perm]>
            (set_payloads <[q := mkPayload (add64 (refcount pl) 1) (p_body pl)]> s)).
Proof.
  intros H (Hf & Hptr & Hb) Hq. destruct H as [R L N D].
  pose proof (refs_size_le (caps s) q) as Hle. split; simpl.
  - intros p pl'. rewrite refs_size_insert by done; simpl.
    destruct (decide (q = p)) as [->|Hne].
    + rewrite lookup_insert_eq. intros [= <-]; simpl. destruct (R _ _ Hq) as [E ?].
      split; [|lia]. unfold add64. rewrite wrap64_small by (unfold is_u64; lia). lia.
    + rewrite lookup_insert_ne by done. intros Hp. destruct (R _ _ Hp).
      split; [simpl; lia|lia].
  - intros c cap. destruct (decide (c = ptr)) as [->|Hne].
    + rewrite lookup_insert_eq. intros [= <-]; simpl. rewrite lookup_insert_eq. split; [done|lia].
    + rewrite lookup_insert_ne by done. intros Hc. destruct (L _ _ Hc). split; [|lia].
      apply lookup_insert_is_Some'. by right.
  - lia.
  - rewrite map_size_insert_None by done. lia.
Qed.

(** [clone_payload] may change the source's body and the rest of the kernel. *)
Lemma heap_ok_body s p pl b w :
  heap_ok s → payloads s !! p = Some pl →
  heap_ok (set_world w (set_payloads <[p := mkPayload (refcount pl) b]> s)).
Proof.
  intros [R L N D] Hp. split; simpl; try done.
  - intros q pl'. destruct (decide (q = p)) as [->|Hne].
    + rewrite lookup_insert_eq. intros [= <-]. apply (R _ _ Hp).
    + rewrite lookup_insert_ne by done. apply R.
  - intros c cap Hc. destruct (L _ _ Hc). split; [|done].
    apply lookup_insert_is_Some'. by right.
Qed.

(** A new payload object, referenced by nothing. *)
Lemma heap_ok_new_payload s b :
  heap_ok s →
  heap_ok (set_payloads <[next_ptr s := mkPayload 0 b]> (set_next (λ n, n + 1) s)).
Proof.
  intros [R L N D]. split; simpl; try lia.
  - intros q pl'. destruct (decide (q = next_ptr s)) as [->|Hne].
    + rewrite lookup_insert_eq. intros [= <-]; simpl. split; [|lia].
      assert (E : refs (caps s) (next_ptr s) = ∅); [|by rewrite E].
      apply map_empty; intros c. apply map_lookup_filter_None. right. intros cap Hc; simpl.
      destruct (L _ _ Hc) as [[pl Hpl] _]. intros E. rewrite E in Hpl.
      destruct (R _ _ Hpl). lia.
    + rewrite lookup_insert_ne by done. intros Hq. destruct (R _ _ Hq). lia.
  - intros c cap Hc. destruct (L _ _ Hc). split; [|lia].
    apply lookup_insert_is_Some'. by right.
Qed.

(** What [new Capability] does when the slab has room. *)
Lemma new_cap_spec s p perm :
  heap_ok s → is_Some (payloads s !! p) → 0 < budget s →
  wp (new_cap p perm) s (λ r s',
    r = Ok (next_ptr s) ∧ heap_ok s' ∧ frame s s' ∧
    caps s' = <[next_ptr s := mkCap p perm]> (caps s)).
Proof.
  intros H [pl Hp] Hb. destruct (ho_rc _ H _ _ Hp) as [_ Hp0].
  destruct (heap_ok_alloc _ H Hb) as [H1 Hres].
  unfold wp, new_cap, cap_alloc, keep, get_payload, fresh_ptr, deref, massert, mbind, M_bind,
    gets, modify; simpl.
  rewrite (proj2 (Z.eqb_neq (budget s) _)) by lia. simpl.
  rewrite (proj2 (Z.eqb_neq p 0)) by lia. simpl. rewrite Hp; simpl.
  split_and!; [done|by apply (heap_ok_link _ _ _ _ _ H1)| |done].
  unfold frame; simpl; split_and!; [done|done|lia].
Qed.

Lemma new_cap_empty s p perm : budget s = 0 → new_cap p perm s = Fin (Ok 0) s.
Proof.
  intros E. unfold new_cap, cap_alloc, mbind, M_bind, gets; simpl. by rewrite E.
Qed.

(** Hypothesis on the payload classes: a clone is never [nullptr] (the
    copy constructor asserts it). *)
Definition clone_total : Prop :=
  ∀ (b : B) (w : W), (clone_payload b w).1.1 ≠ CloneNull.

Lemma clone_payload_spec s p :
  clone_total → heap_ok s → is_Some (payloads s !! p) →
  wp (clone_payload_obj p) s (λ r s', ∃ q,
    r = Ok q ∧ heap_ok s' ∧ frame s s' ∧ caps s' = caps s ∧ budget s' = budget s ∧
    is_Some (payloads s' !! q) ∧ is_Some (payloads s' !! p) ∧ (q = p ∨ next_ptr s <= q)).
Proof.
  intros Hc H [pl Hp].
  unfold wp, clone_payload_obj, get_payload, deref, mbind, M_bind, gets, modify, fresh_ptr.
  rewrite Hp; simpl. specialize (Hc (p_body pl) (world s)).
  destruct (clone_payload (p_body pl) (world s)) as [[res b'] w'] eqn:E; simpl in Hc.
  pose proof (heap_ok_body _ _ _ b' w' H Hp) as Hbody.
  destruct res as [|b2|]; simpl; [| |done].
  - exists p. rewrite lookup_insert_eq. unfold frame; simpl.
    split_and!; eauto; lia.
  - exists (next_ptr s). rewrite lookup_insert_eq.
    pose proof (heap_ok_new_payload _ b2 Hbody) as Hn. unfold frame; simpl in *.
    split_and!; eauto; try lia. rewrite !lookup_insert_is_Some'. naive_solver.
Qed.

Lemma clone_cap_spec s c cap :
  clone_total → heap_ok s → caps s !! c = Some cap → 0 < budget s →
  wp (clone_cap c) s (λ r s', ∃ q,
    r = Ok (next_ptr s) ∧ heap_ok s' ∧ frame s s' ∧
    caps s' = <[next_ptr s := mkCap q (c_perm cap)]> (caps s) ∧
    is_Some (payloads s' !! c_payload cap) ∧
    (q = c_payload cap ∨ next_ptr s <= q)).
Proof.
  intros Hct H Hc Hb. destruct (ho_live _ H _ _ Hc) as [Hp _].
  destruct (heap_ok_alloc _ H Hb) as [H1 Hres].
  unfold clone_cap. apply wp_bind. eapply wp_deref; [done|]. apply wp_bind.
  unfold wp at 1, cap_alloc, fresh_ptr, mbind, M_bind, gets, modify; simpl.
  rewrite (proj2 (Z.eqb_neq (budget s) _)) by lia. simpl. apply wp_bind.
  eapply wp_mono; [by apply clone_payload_spec|].
  intros r s1 (q & -> & Hs1 & (Hf1 & Hf2 & Hf3) & Hc1 & Hb1 & [plq Hq] & Hp1 & Hor).
  simpl in *. destruct (ho_rc _ Hs1 _ _ Hq) as [_ Hq0].
  unfold wp, massert, keep, get_payload, deref, mbind, M_bind, modify.
  rewrite (proj2 (Z.eqb_neq q _)) by lia. simpl. rewrite Hq; simpl.
  exists q. split_and!; [done| | | | |lia].
  - apply heap_ok_link; [done| |done]. destruct Hres as (?&?&?); simpl in *.
    unfold reserved. rewrite Hc1, Hb1. split_and!; [done|lia|lia|lia].
  - unfold frame; simpl. split_and!; [congruence|congruence|lia].
  - by rewrite Hc1.
  - apply lookup_insert_is_Some'. by right.
Qed.

(** [delete cap] on a live capability: no assertion fires, and exactly that
    capability leaves the heap. *)
Lemma delete_cap_spec s c cap :
  heap_ok s → caps s !! c = Some cap →
  wp (delete_cap c) s (λ r s',
    r = Ok tt ∧ heap_ok s' ∧ frame s s' ∧ caps s' = delete c (caps s) ∧
    next_ptr s' = next_ptr s ∧ budget s' = budget s + 1).
Proof.
  intros H Hc. destruct (ho_live _ H _ _ Hc) as [[pl Hp] Hc0].
  destruct (ho_rc _ H _ _ Hp) as [Erc Hp0].
  pose proof (heap_ok_rc_range _ _ _ H Hp) as Hrg.
  pose proof (refs_size_delete _ _ _ (c_payload cap) Hc) as Ed. rewrite decide_True in Ed by done.
  unfold wp, delete_cap, release, destruct_obj, get_cap, get_payload, deref, mbind, M_bind,
    modify, massert. rewrite Hc.
  rewrite (proj2 (Z.eqb_neq (c_payload cap) _)) by lia. rewrite Hp.
  rewrite (proj2 (Z.ltb_lt 0 _)) by lia.
  unfold sub64. rewrite wrap64_small by (unfold is_u64; destruct (ho_budget _ H); lia).
  assert (Hsz : (size (caps s) = 1 + size (delete c (caps s)))%nat).
  { rewrite <- (insert_delete_id (caps s) c cap) at 1 by done.
    rewrite map_size_insert_None by apply lookup_delete_eq. done. }
  destruct H as [R L N D].
  destruct (Z.eqb_spec (refcount pl - 1) 0) as [E0|E0]; simpl.
  - rewrite lookup_insert_eq; simpl.
    split_and!; [done| |unfold frame; simpl; split_and!; lia || done|done|done|done].
    assert (Hz : size (refs (delete c (caps s)) (c_payload cap)) = 0%nat) by lia.
    split; simpl; [| |done|lia].
    + intros p pl'. rewrite delete_insert_eq. intros Hd.
      apply lookup_delete_Some in Hd as [Hne Hd]. destruct (R _ _ Hd) as [-> ?].
      split; [|done]. rewrite (refs_size_delete _ _ _ p Hc), decide_False by done. lia.
    + intros c' cap' Hd. pose proof (refs_size_zero _ _ Hz _ _ Hd) as Hne.
      apply lookup_delete_Some in Hd as [? Hd]. destruct (L _ _ Hd). split; [|done].
      rewrite delete_insert_eq. rewrite lookup_delete_ne; done.
  - split_and!; [done| |unfold frame; simpl; split_and!; lia || done|done|done|done].
    split; simpl; [| |done|lia].
    + intros p pl'. rewrite (refs_size_delete _ _ _ _ Hc) in Erc.
      destruct (decide (p = c_payload cap)) as [->|Hne].
      * rewrite lookup_insert_eq. intros [= <-]; simpl. rewrite decide_True in Erc by done. lia.
      * rewrite lookup_insert_ne by done. intros Hd. destruct (R _ _ Hd) as [-> ?].
        split; [|done]. rewrite (refs_size_delete _ _ _ p Hc), decide_False by done. lia.
    + intros c' cap' Hd. apply lookup_delete_Some in Hd as [? Hd]. destruct (L _ _ Hd).
      split; [|done]. apply lookup_insert_is_Some'. by right.
Qed.

(** ** Slot operations *)

Lemma inv_no_null s x : inv s → slot_at (holders s) x ≠ Some 0.
Proof.
  intros H E. destruct (so_live _ _ (inv_slots _ H) _ _ E) as [[cap Hc] _].
  destruct (ho_live _ (inv_heap _ H) _ _ Hc). lia.
Qed.

Lemma inv_ids_put s h sp :
  (∀ h, is_Some (holders s !! h) → 0 <= h < cur_id s) → is_Some (holders s !! h) →
  ∀ h', is_Some (<[h := sp]> (holders s) !! h') → 0 <= h' < cur_id s.
Proof.
  intros Hi Hh h'. destruct (decide (h' = h)) as [->|]; [eauto|].
  rewrite lookup_insert_ne by done. eauto.
Qed.

(** The slot write alone, on a slot that is free. *)
Lemma space_set_free s h sp idx c :
  holders s !! h = Some sp → cspace_get sp idx = 0 →
  space_set h idx c s = Fin (Ok tt) (set_holders <[h := cspace_put sp idx c]> s).
Proof.
  intros Hh Hg. unfold space_set, get_space, deref, put_space, mbind, M_bind, modify.
  rewrite Hh, Hg. simpl. by rewrite Hh.
Qed.

(** Clearing an occupied slot deletes its capability. *)
Lemma space_set_null s h sp idx c :
  inv s → holders s !! h = Some sp → cspace_get sp idx = c → c ≠ 0 →
  wp (space_set h idx 0) s (λ r s',
    r = Ok tt ∧ inv s' ∧ caps s' = delete c (caps s) ∧ next_ptr s <= next_ptr s' ∧
    cur_id s' = cur_id s ∧ holders s' = <[h := cspace_put sp idx 0]> (holders s)).
Proof.
  intros H Hh Hg Hz. pose proof (cspace_get_some _ _ _ _ _ Hh Hg Hz) as Hs.
  destruct (so_live _ _ (inv_slots _ H) _ _ Hs) as [[cap Hc] _].
  unfold space_set. apply wp_bind. eapply wp_deref; [done|]. rewrite Hg.
  rewrite (proj2 (Z.eqb_neq c 0)) by done. apply wp_bind.
  eapply wp_mono; [by eapply delete_cap_spec, Hc; apply inv_heap|].
  intros r s1 (-> & H1 & (F1 & F2 & F3) & Ec & _). apply wp_bind.
  eapply wp_deref; [by rewrite F1|]. unfold wp, put_space, modify.
  split_and!; simpl; try done; try congruence.
  split; simpl.
  - by destruct H1; split.
  - rewrite Ec, F1. by eapply slots_ok_clear; [..|apply inv_slots].
  - rewrite F1, F2. apply inv_ids_put; [apply H|by eexists].
Qed.

(** Storing a new capability into a free slot. *)
Lemma space_set_new s s1 h sp idx cap :
  inv s → holders s !! h = Some sp → cspace_get sp idx = 0 →
  heap_ok s1 → frame s s1 → caps s1 = <[next_ptr s := cap]> (caps s) →
  wp (space_set h idx (next_ptr s)) s1 (λ r s',
    r = Ok tt ∧ inv s' ∧ caps s' = caps s1 ∧ payloads s' = payloads s1 ∧ world s' = world s1 ∧
    next_ptr s' = next_ptr s1 ∧ cur_id s' = cur_id s1 ∧
    holders s' = <[h := cspace_put sp idx (next_ptr s)]> (holders s)).
Proof.
  intros H Hh Hg H1 (F1 & F2 & F3) Ec. pose proof (ho_next _ (inv_heap _ H)) as Hn.
  unfold wp. rewrite (space_set_free _ _ sp) by (done || congruence). simpl.
  split_and!; try done; [|by rewrite F1]. split; simpl.
  - by destruct H1; split.
  - rewrite Ec, F1. apply slots_ok_store; try done; try lia; [|..|apply inv_slots, H].
    + apply (proj1 (cspace_get_slot _ _ _ _ Hh (inv_no_null _ _ H))). by rewrite Hg.
    + destruct (caps s !! next_ptr s) eqn:E; [|done].
      destruct (ho_live _ (inv_heap _ H) _ _ E). lia.
  - rewrite F1, F2. apply inv_ids_put; [apply H|by eexists].
Qed.

(** [lookup] reads the slot and nothing else. *)
Lemma lookup_spec s h sp idx :
  holders s !! h = Some sp →
  lookup h idx s =
  Fin (if negb (cap_valid idx) then Err TYPE_NOT_MATCHED
       else if cspace_get sp idx =? 0 then Err OUT_OF_BOUNDARY
       else Ok (cspace_get sp idx)) s.
Proof.
  intros Hh. unfold lookup, get_space, deref, mbind, M_bind.
  destruct (cap_valid idx); simpl; [|done]. rewrite Hh.
  by destruct (_ =? 0).
Qed.

(** [insert]: on success a new capability with exactly the given payload and
    permissions sits in the slot, which was free; on failure nothing
    changed. *)
Lemma insert_spec s h sp idx p perm :
  inv s → holders s !! h = Some sp → is_Some (payloads s !! p) →
  wp (insert h idx p perm) s (λ r s', inv s' ∧ next_ptr s <= next_ptr s' ∧
    match r with
    | Ok _ => cap_valid idx = true ∧ cspace_get sp idx = 0 ∧ 0 < budget s ∧
              caps s' = <[next_ptr s := mkCap p perm]> (caps s) ∧ cur_id s' = cur_id s ∧
              holders s' = <[h := cspace_put sp idx (next_ptr s)]> (holders s)
    | Err e => s' = s ∧ (e = TYPE_NOT_MATCHED ∧ cap_valid idx = false
               ∨ e = SLOT_BUSY ∧ cspace_get sp idx ≠ 0 ∨ e = OUT_OF_MEMORY ∧ budget s = 0)
    end).
Proof.
  intros H Hh Hp. unfold insert. destruct Hp as [pl Hp].
  destruct (ho_rc _ (inv_heap _ H) _ _ Hp) as [_ Hp0].
  destruct (cap_valid idx) eqn:Ev; [|apply wp_fail; split_and!; auto; lia]. simpl.
  rewrite (proj2 (Z.eqb_neq p 0)) by lia. apply wp_bind. eapply wp_deref; [done|].
  destruct (Z.eqb_spec (cspace_get sp idx) 0) as [Eg|Eg]; simpl;
    [|apply wp_fail; split_and!; auto; lia].
  apply wp_bind. destruct (Z.eq_dec (budget s) 0) as [Eb|Eb].
  { unfold wp at 1. rewrite new_cap_empty by done. apply wp_fail. split_and!; auto; lia. }
  destruct (ho_budget _ (inv_heap _ H)) as [Hb _]. pose proof (ho_next _ (inv_heap _ H)).
  eapply wp_mono; [apply new_cap_spec; [apply H|by eexists|lia]|].
  intros r s1 (-> & H1 & Hf & Ec). rewrite (proj2 (Z.eqb_neq (next_ptr s) 0)) by lia.
  apply wp_bind, wp_attempt. unfold set_slot. rewrite Ev. simpl.
  eapply wp_mono; [by eapply space_set_new|].
  intros r s2 (-> & H2 & Ec2 & Ep2 & Ew2 & En2 & Ei2 & Eh2).
  apply wp_bind, wp_assert; [done|]. unfold of_result, wp.
  destruct Hf as (F1 & F2 & F3). split_and!; try done; try lia; congruence.
Qed.

(** ** Authority *)

Lemma no_amplify_refl s : no_amplify s s.
Proof. split; [lia|]. intros c cap Hc. exists c, cap. split_and!; auto with sust. Qed.

Lemma no_amplify_trans s1 s2 s3 : no_amplify s1 s2 → no_amplify s2 s3 → no_amplify s1 s3.
Proof.
  intros [N1 H1] [N2 H2]. split; [lia|]. intros c3 cap3 Hc3.
  destruct (H2 _ _ Hc3) as (c2 & cap2 & Hc2 & B2 & P2).
  destruct (H1 _ _ Hc2) as (c1 & cap1 & Hc1 & B1 & P1).
  exists c1, cap1. split_and!; [done|eauto with sust|]. destruct P2 as [->|?]; [done|lia].
Qed.

Lemma no_amplify_sub s s' :
  next_ptr s <= next_ptr s' → caps s' ⊆ caps s → no_amplify s s'.
Proof.
  intros Hn Hs. split; [done|]. intros c cap Hc. exists c, cap.
  split_and!; [by eapply lookup_weaken|auto with sust|by left].
Qed.

Lemma no_amplify_add s s' c0 cap0 c' cap' :
  next_ptr s <= next_ptr s' → caps s' ⊆ <[c' := cap']> (caps s) →
  caps s !! c0 = Some cap0 → bits_implies (c_perm cap0) (c_perm cap') = true →
  c_payload cap' = c_payload cap0 ∨ next_ptr s <= c_payload cap' →
  no_amplify s s'.
Proof.
  intros Hn Hs H0 Hb Hp. split; [done|]. intros c cap Hc.
  eapply lookup_weaken in Hc; [|exact Hs]. apply lookup_insert_Some in Hc as [[<- <-]|[_ Hc]].
  - by exists c0, cap0.
  - exists c, cap. split_and!; auto with sust.
Qed.

Hint Resolve no_amplify_refl no_amplify_trans : sust.

(** ** Operations of a holder *)

(** Nulling a slot, free or not. *)
Lemma space_set_null_any s h sp idx :
  inv s → holders s !! h = Some sp →
  wp (space_set h idx 0) s (λ r s',
    r = Ok tt ∧ inv s' ∧ no_amplify s s' ∧ cur_id s' = cur_id s ∧
    caps s' = delete (cspace_get sp idx) (caps s) ∧
    holders s' = <[h := cspace_put sp idx 0]> (holders s)).
Proof.
  intros H Hh. destruct (Z.eq_dec (cspace_get sp idx) 0) as [E|E].
  - unfold wp. rewrite (space_set_free _ _ sp) by done.
    assert (Hd : delete 0 (caps s) = caps s).
    { apply delete_id. destruct (caps s !! 0) eqn:E0; [|done].
      destruct (ho_live _ (inv_heap _ H) _ _ E0). lia. }
    split_and!; simpl; try done; [|by apply no_amplify_sub; simpl; [lia|]|by rewrite E, Hd].
    split; simpl; [by destruct (inv_heap _ H); split| |].
    + apply (slots_ok_ext _ (holders s)); [|apply H]. intros x.
      rewrite (slot_at_put _ _ _ _ _ _ Hh). destruct (decide _) as [->|]; [|done].
      symmetry. apply (cspace_get_slot _ _ _ _ Hh (inv_no_null _ _ H)). by rewrite E.
    + apply inv_ids_put; [apply H|by eexists].
  - eapply wp_mono; [by eapply space_set_null|].
    intros r s' (-> & H1 & Ec & En & Ei & Eh). split_and!; try done.
    apply no_amplify_sub; [done|]. rewrite Ec. apply delete_subseteq.
Qed.

Lemma remove_spec s h sp idx :
  inv s → holders s !! h = Some sp →
  wp (remove h idx) s (λ r s', inv s' ∧ no_amplify s s' ∧ cur_id s' = cur_id s ∧
    match r with
    | Ok _ => cap_valid idx = true ∧ cspace_get sp idx ≠ 0 ∧
              caps s' = delete (cspace_get sp idx) (caps s) ∧
              holders s' = <[h := cspace_put sp idx 0]> (holders s)
    | Err e => s' = s ∧ (cap_valid idx = false ∨ cspace_get sp idx = 0)
    end).
Proof.
  intros H Hh. unfold remove. apply wp_bind. unfold wp at 1. rewrite (lookup_spec _ _ _ _ Hh).
  destruct (cap_valid idx) eqn:Ev; simpl; [|split_and!; auto using no_amplify_refl].
  destruct (Z.eqb_spec (cspace_get sp idx) 0) as [E|E]; [split_and!; auto using no_amplify_refl|].
  rewrite (proj2 (Z.eqb_neq _ _)) by done. unfold set_slot. rewrite Ev. simpl.
  eapply wp_mono; [by apply space_set_null_any|]. intros r s' (-> & ? & ? & ? & ? & ?).
  by split_and!.
Qed.

Lemma inv_world s w : inv s → inv (set_world w s).
Proof. intros [H1 ? ?]. split; [by destruct H1; split|done|done]. Qed.

Lemma holder_freeslot_spec s h sp :
  holders s !! h = Some sp → holder_freeslot h s = Fin (lookup_freeslot sp) s.
Proof. intros Hh. unfold holder_freeslot, get_space, deref, mbind, M_bind. by rewrite Hh. Qed.

(** The copy-on-write step: either the slot stays as it is, or it is nulled
    and the error returned. *)
Lemma clone_protect_spec s h sp idx p :
  inv s → holders s !! h = Some sp → cap_valid idx = true → is_Some (payloads s !! p) →
  wp (clone_protect h idx p) s (λ r s', inv s' ∧ no_amplify s s' ∧
    match r with
    | Ok t => t = idx ∧ caps s' = caps s ∧ holders s' = holders s
    | Err _ => caps s' = delete (cspace_get sp idx) (caps s) ∧
               holders s' = <[h := cspace_put sp idx 0]> (holders s)
    end).
Proof.
  intros H Hh Hv [pl Hp]. unfold clone_protect. apply wp_bind. eapply wp_deref; [done|].
  apply wp_bind. unfold wp at 1, gets. destruct (_ && _ && _).
  2:{ unfold wp; simpl. split_and!; auto using no_amplify_refl. }
  destruct (protect_memory_cow p (world s)) as [cow w]. apply wp_bind. unfold wp at 1, modify.
  assert (Hna : no_amplify s (set_world w s)) by (apply no_amplify_sub; simpl; [lia|done]).
  destruct cow as [u|e]; [unfold wp; simpl; split_and!; auto using inv_world|].
  apply wp_bind, wp_attempt. unfold set_slot. rewrite Hv; simpl.
  eapply wp_mono; [by apply (space_set_null_any _ _ sp); [apply inv_world|]|].
  intros r s' (-> & H1 & Ha & Ei & Ec & Eh). apply wp_bind, wp_assert; [done|].
  apply wp_fail. split_and!; eauto with sust.
Qed.

(** A clone that the slab cannot serve: the slot stays empty. *)
Lemma clone_cap_empty s c cap :
  caps s !! c = Some cap → budget s = 0 → clone_cap c s = Fin (Ok 0) s.
Proof.
  intros Hc Hb. unfold clone_cap, get_cap, deref, cap_alloc, gets, mbind, M_bind.
  by rewrite Hc, Hb.
Qed.

Lemma cspace_get_put sp idx c : cspace_get (cspace_put sp idx c) idx = c.
Proof.
  unfold cspace_get, cspace_put, cgroup_get, cgroup_put. rewrite lookup_insert_eq.
  destruct (Z.eqb_spec c 0) as [->|]; [by rewrite lookup_delete_eq|by rewrite lookup_insert_eq].
Qed.

Lemma cspace_put_put sp idx c d :
  cspace_put (cspace_put sp idx c) idx d = cspace_put sp idx d.
Proof.
  unfold cspace_put, cgroup_put. rewrite lookup_insert_eq, insert_insert_eq. simpl. f_equal.
  destruct (d =? 0), (c =? 0).
  - by rewrite delete_delete_eq.
  - by rewrite delete_insert_eq.
  - by rewrite insert_delete_eq.
  - by rewrite insert_insert_eq.
Qed.

(** The outcome of [CHolder::clone] as a relation between the states. *)
Definition clone_post (s : store) (h : Z) (sp : CSpace) (cap : Cap) (r : Result Z) (s' : store)
  : Prop :=
  match r with
  | Ok t => cap_valid t = true ∧ cspace_get sp t = 0 ∧ bits_implies (c_perm cap) perm.CLONE = true ∧
      (0 < budget s → ∃ q, caps s' = <[next_ptr s := mkCap q (c_perm cap)]> (caps s) ∧
           (q = c_payload cap ∨ next_ptr s <= q) ∧
           holders s' = <[h := cspace_put sp t (next_ptr s)]> (holders s)) ∧
      (budget s = 0 → holders s' = <[h := cspace_put sp t 0]> (holders s))
  | Err _ => caps s' = caps s ∧
      ∀ x, slot_at (holders s') x = slot_at (holders s) x
  end.

(** The end of [clone], from the state where slot [t] holds [c] (0 when the
    slab was empty). *)
Lemma clone_finish s s2 h sp t c p :
  inv s2 → no_amplify s s2 → holders s !! h = Some sp → cap_valid t = true →
  slot_at (holders s) (h, cap_group t, cap_slot t) = None →
  holders s2 = <[h := cspace_put sp t c]> (holders s) → delete c (caps s2) = caps s →
  is_Some (payloads s2 !! p) →
  wp (clone_protect h t p) s2 (λ r s', inv s' ∧ no_amplify s s' ∧
    match r with
    | Ok t' => t' = t ∧ caps s' = caps s2 ∧ holders s' = holders s2
    | Err _ => caps s' = caps s ∧ ∀ x, slot_at (holders s') x = slot_at (holders s) x
    end).
Proof.
  intros H2 Ha Hh Hv Hs Eh Ec Hp.
  eapply wp_mono; [eapply (clone_protect_spec _ h (cspace_put sp t c)); try done|].
  { by rewrite Eh, lookup_insert_eq. }
  intros r s3 (H3 & Ha3 & Hr). split_and!; eauto with sust. destruct r as [t'|e]; [done|].
  destruct Hr as (E1 & E2). rewrite cspace_get_put in E1. split; [congruence|].
  intros x. rewrite E2, Eh, insert_insert_eq, cspace_put_put.
  rewrite (slot_at_put _ _ _ _ _ _ Hh). by destruct (decide _) as [->|].
Qed.

Lemma inv_delete_null s : inv s → delete 0 (caps s) = caps s.
Proof.
  intros H. apply delete_id. destruct (caps s !! 0) eqn:E0; [|done].
  destruct (ho_live _ (inv_heap _ H) _ _ E0). lia.
Qed.

Lemma inv_next_fresh s : inv s → caps s !! next_ptr s = None.
Proof.
  intros H. destruct (caps s !! next_ptr s) eqn:E0; [|done].
  destruct (ho_live _ (inv_heap _ H) _ _ E0). lia.
Qed.

(** The middle of [clone]: the clone is made and stored in the free slot
    [t]. *)
Definition clone_stored (s : store) (h : Z) (sp : CSpace) (t : Z) (cap : Cap) (c' : Z) (s2 : store)
  : Prop :=
  inv s2 ∧ no_amplify s s2 ∧
  holders s2 = <[h := cspace_put sp t c']> (holders s) ∧ delete c' (caps s2) = caps s ∧
  is_Some (payloads s2 !! c_payload cap) ∧
  (0 < budget s → ∃ q, c' = next_ptr s ∧
     caps s2 = <[next_ptr s := mkCap q (c_perm cap)]> (caps s) ∧
     (q = c_payload cap ∨ next_ptr s <= q)) ∧
  (budget s = 0 → c' = 0).

Lemma clone_store_spec {A} s h sp t c cap (k : Z → Result unit → M A) Q :
  clone_total → inv s → holders s !! h = Some sp → cap_valid t = true →
  cspace_get sp t = 0 → caps s !! c = Some cap →
  (∀ c' s2, clone_stored s h sp t cap c' s2 → wp (k c' (Ok tt)) s2 Q) →
  wp (cloned ← clone_cap c; r ← attempt (set_slot h t cloned); k cloned r) s Q.
Proof.
  intros Hct H Hh Hv Hg Hc Hk. destruct (ho_budget _ (inv_heap _ H)) as [Hb _]. apply wp_bind.
  destruct (Z.eq_dec (budget s) 0) as [Eb|Eb].
  - unfold wp at 1. rewrite (clone_cap_empty _ _ _ Hc Eb). apply wp_bind, wp_attempt.
    unfold set_slot. rewrite Hv; simpl. eapply wp_mono; [by apply space_set_null_any|].
    intros r s1 (-> & H1 & Ha & Ei & Ec & Eh). rewrite Hg, inv_delete_null in Ec by done.
    apply Hk. split_and!; try done; [by rewrite Ec, inv_delete_null| |lia].
    rewrite <- Ec in Hc. apply (ho_live _ (inv_heap _ H1) _ _ Hc).
  - eapply wp_mono; [apply (clone_cap_spec _ _ cap Hct); [apply H|done|lia]|].
    intros r s1 (q & -> & H1 & Hf & Ec & Hpl & Hq). apply wp_bind, wp_attempt.
    unfold set_slot. rewrite Hv; simpl. eapply wp_mono; [by eapply space_set_new|].
    intros r s2 (-> & H2 & Ec2 & Ep2 & Ew2 & En2 & Ei2 & Eh2).
    destruct Hf as (_ & _ & Hn). apply Hk.
    split_and!; try done; [| |by rewrite Ep2|intros _; exists q; by rewrite Ec2].
    + eapply (no_amplify_add _ _ _ _ (next_ptr s)); [lia|by rewrite Ec2, Ec|done| |done].
      simpl. auto with sust.
    + rewrite Ec2, Ec. by rewrite delete_insert_id by by apply inv_next_fresh.
Qed.

Lemma clone_spec s h sp idx cap :
  clone_total → inv s → holders s !! h = Some sp → cap_valid idx = true →
  caps s !! cspace_get sp idx = Some cap →
  wp (clone h idx) s (λ r s', inv s' ∧ no_amplify s s' ∧ clone_post s h sp cap r s').
Proof.
  intros Hct H Hh Hv Hc. destruct (ho_live _ (inv_heap _ H) _ _ Hc) as [Hp Hc0].
  unfold clone. apply wp_bind. unfold wp at 1. rewrite (lookup_spec _ _ _ _ Hh), Hv; simpl.
  rewrite (proj2 (Z.eqb_neq _ 0)) by lia. apply wp_bind. eapply wp_deref; [done|].
  destruct (perm_imply (c_perm cap) perm.CLONE) eqn:Ep; simpl.
  2:{ apply wp_fail. split_and!; auto using no_amplify_refl. done. }
  apply wp_bind. unfold wp at 1. rewrite (holder_freeslot_spec _ _ _ Hh).
  destruct (lookup_freeslot sp) as [t|e] eqn:Ef; [|split_and!; auto using no_amplify_refl; done].
  apply lookup_freeslot_ok in Ef as (_ & Hvt & Hgt).
  apply (clone_store_spec _ _ sp _ _ cap); try done. intros c' s2 (H2 & Ha & Eh & Ec & Hpl & Hbud & Hno).
  eapply wp_mono; [eapply (clone_finish s); try done|].
  { apply (cspace_get_slot _ _ _ _ Hh (inv_no_null _ _ H)). by rewrite Hgt. }
  intros r s3 (H3 & Ha3 & Hr). split_and!; try done. destruct r as [t'|e]; [|done].
  destruct Hr as (-> & Ec3 & Eh3). split_and!; try done; intros Hb.
  - destruct (Hbud Hb) as (q & -> & E & Hq). exists q. by rewrite Ec3, Eh3.
  - by rewrite Eh3, Eh, Hno.
Qed.

(** Changing the permissions of a live capability. *)
Lemma inv_set_perm s c cap p :
  inv s → caps s !! c = Some cap → inv (set_caps <[c := mkCap (c_payload cap) p]> s).
Proof.
  intros [[R L N D] Hs Hi] Hc. split; [split| |]; simpl; try done.
  - intros q pl Hq. rewrite (refs_size_upd _ _ _ _ _ Hc) by done. eauto.
  - intros c' cap'. destruct (decide (c' = c)) as [->|].
    + rewrite lookup_insert_eq. intros [= <-]. eapply (L _ _ Hc).
    + rewrite lookup_insert_ne by done. apply L.
  - rewrite map_size_insert_Some by done. done.
  - by apply slots_ok_upd; [eexists|].
Qed.

Lemma cap_downgrade_spec s c cap p :
  caps s !! c = Some cap →
  cap_downgrade c p s =
  if bits_implies (c_perm cap) p then Fin (Ok tt) (set_caps <[c := mkCap (c_payload cap) p]> s)
  else Fin (Err INSUFFICIENT_PERMISSIONS) s.
Proof.
  intros Hc. unfold cap_downgrade, get_cap, deref, mbind, M_bind, perm_imply. rewrite Hc.
  by destruct (bits_implies _ _).
Qed.

Definition derive_post (s : store) (h : Z) (sp : CSpace) (cap : Cap) (np : Z)
    (r : Result Z) (s' : store) : Prop :=
  match r with
  | Ok t => cap_valid t = true ∧ cspace_get sp t = 0 ∧
      bits_implies (c_perm cap) perm.CLONE = true ∧ bits_implies (c_perm cap) np = true ∧
      ∃ q, caps s' = <[next_ptr s := mkCap q np]> (caps s) ∧
           (q = c_payload cap ∨ next_ptr s <= q) ∧
           holders s' = <[h := cspace_put sp t (next_ptr s)]> (holders s)
  | Err _ => caps s' = caps s ∧ ∀ x, slot_at (holders s') x = slot_at (holders s) x
  end.

(** The rollback of [derive]: the guard removes the clone again. *)
Lemma derive_rollback s s1 h sp t q pm :
  inv s → inv s1 → no_amplify s s1 → holders s !! h = Some sp → cap_valid t = true →
  cspace_get sp t = 0 → caps s1 = <[next_ptr s := mkCap q pm]> (caps s) →
  holders s1 = <[h := cspace_put sp t (next_ptr s)]> (holders s) →
  wp (remove_guard_fire h t) s1 (λ r s', r = Ok tt ∧ inv s' ∧ no_amplify s s' ∧
    caps s' = caps s ∧ ∀ x, slot_at (holders s') x = slot_at (holders s) x).
Proof.
  intros H H1 Ha Hh Hv Hg Ec Eh. unfold remove_guard_fire. apply wp_bind, wp_attempt.
  pose proof (ho_next _ (inv_heap _ H)) as Hn.
  eapply wp_mono; [eapply (remove_spec s1 h (cspace_put sp t (next_ptr s)) t H1)|].
  { by rewrite Eh, lookup_insert_eq. }
  rewrite cspace_get_put. intros r s2 (H2 & Ha2 & Hi & Hr). destruct r as [[]|e].
  2:{ destruct Hr as [_ [Hr|Hr]]; [congruence|lia]. }
  destruct Hr as (_ & _ & E2 & Eh2). apply wp_assert; [done|].
  split_and!; eauto with sust.
  - rewrite E2, Ec. apply delete_insert_id. by apply inv_next_fresh.
  - intros x. rewrite Eh2, Eh, insert_insert_eq, cspace_put_put, (slot_at_put _ _ _ _ _ _ Hh).
    destruct (decide _) as [->|]; [|done]. simpl.
    symmetry. apply (cspace_get_slot _ _ _ _ Hh (inv_no_null _ _ H)). by rewrite Hg.
Qed.

Lemma derive_spec s h sp idx cap np :
  clone_total → inv s → holders s !! h = Some sp → cap_valid idx = true →
  caps s !! cspace_get sp idx = Some cap → 0 < budget s →
  wp (derive h idx np) s (λ r s', inv s' ∧ no_amplify s s' ∧ derive_post s h sp cap np r s').
Proof.
  intros Hct H Hh Hv Hc Hb. unfold derive. apply wp_bind.
  eapply wp_mono; [by eapply clone_spec|]. intros r s1 (H1 & Ha & Hr).
  destruct r as [t|e]; [|done]. destruct Hr as (Hvt & Hg & Hcl & Hr & _).
  destruct (Hr Hb) as (q & Ec & Hq & Eh). pose proof (ho_next _ (inv_heap _ H)) as Hn.
  apply wp_bind, wp_attempt. unfold wp at 1.
  rewrite (lookup_spec _ _ (cspace_put sp t (next_ptr s))) by (by rewrite Eh, lookup_insert_eq).
  rewrite Hvt, cspace_get_put; simpl. rewrite (proj2 (Z.eqb_neq _ 0)) by lia.
  apply wp_bind, wp_attempt. unfold wp at 1.
  assert (Hc1 : caps s1 !! next_ptr s = Some (mkCap q (c_perm cap)))
    by by rewrite Ec, lookup_insert_eq.
  rewrite (cap_downgrade_spec _ _ _ _ Hc1). simpl.
  destruct (bits_implies (c_perm cap) np) eqn:Ebi.
  - apply wp_ret. split_and!; [by apply (inv_set_perm _ _ _ _ H1 Hc1)| |].
    + eapply (no_amplify_add _ _ _ cap (next_ptr s) (mkCap q np)); [apply Ha| |done|done|done].
      simpl. by rewrite Ec, insert_insert_eq.
    + split_and!; try done. exists q. simpl. by rewrite Ec, insert_insert_eq.
  - apply wp_bind. eapply wp_mono; [by eapply (derive_rollback s s1)|].
    intros r s2 (-> & H2 & Ha2 & E2 & Eh2). apply wp_fail. by split_and!.
Qed.

Lemma downgrade_spec s h sp idx cap np :
  inv s → holders s !! h = Some sp → cap_valid idx = true →
  caps s !! cspace_get sp idx = Some cap →
  wp (downgrade h idx np) s (λ r s', inv s' ∧ no_amplify s s' ∧ holders s' = holders s ∧
    match r with
    | Ok _ => bits_implies (c_perm cap) np = true ∧
              caps s' = <[cspace_get sp idx := mkCap (c_payload cap) np]> (caps s)
    | Err e => e = INSUFFICIENT_PERMISSIONS ∧ s' = s ∧ bits_implies (c_perm cap) np = false
    end).
Proof.
  intros H Hh Hv Hc. destruct (ho_live _ (inv_heap _ H) _ _ Hc) as [_ Hc0].
  unfold downgrade. apply wp_bind. unfold wp at 1. rewrite (lookup_spec _ _ _ _ Hh), Hv; simpl.
  rewrite (proj2 (Z.eqb_neq _ 0)) by lia. unfold wp. rewrite (cap_downgrade_spec _ _ _ _ Hc).
  destruct (bits_implies (c_perm cap) np) eqn:E; [|by split_and!; auto using no_amplify_refl].
  split_and!; try done; [by apply (inv_set_perm _ _ _ _ H Hc)|].
  eapply (no_amplify_add _ _ _ cap _ (mkCap (c_payload cap) np)); simpl; [lia|done|done|done|by left].
Qed.

Definition same_slots (s s' : store) : Prop :=
  caps s' = caps s ∧ ∀ x, slot_at (holders s') x = slot_at (holders s) x.

(** The result of the copying half of [transfer_to] and of its moving half:
    they fail in exactly two ways, an empty slab and a target without a free
    slot, which they test in opposite order. *)
Definition copy_result (s : store) (spd : CSpace) : Result Z :=
  if budget s =? 0 then Err OUT_OF_MEMORY else lookup_freeslot spd.

Definition move_result (s : store) (spd : CSpace) : Result Z :=
  match lookup_freeslot spd with
  | Ok t => if budget s =? 0 then Err OUT_OF_MEMORY else Ok t
  | Err e => Err e
  end.

(** Outcome of the copying half of [transfer_to]. *)
Definition copy_post (s : store) (dst : Z) (spd : CSpace) (cap : Cap) (r : Result Z) (s' : store)
  : Prop :=
  r = copy_result s spd ∧
  match r with
  | Ok t => cap_valid t = true ∧ cspace_get spd t = 0 ∧
      ∃ q, caps s' = <[next_ptr s := mkCap q (c_perm cap)]> (caps s) ∧
           (q = c_payload cap ∨ next_ptr s <= q) ∧
           holders s' = <[dst := cspace_put spd t (next_ptr s)]> (holders s)
  | Err _ => same_slots s s'
  end.

Lemma transfer_clone_spec s dst spd c cap :
  clone_total → inv s → holders s !! dst = Some spd → caps s !! c = Some cap →
  wp (transfer_clone dst c) s (λ r s',
    inv s' ∧ no_amplify s s' ∧ copy_post s dst spd cap r s').
Proof.
  intros Hct H Hd Hc. unfold transfer_clone. apply wp_bind.
  destruct (ho_budget _ (inv_heap _ H)) as [Hb _]. pose proof (ho_next _ (inv_heap _ H)) as Hn.
  destruct (Z.eq_dec (budget s) 0) as [Eb|Eb].
  { unfold wp at 1. rewrite (clone_cap_empty _ _ _ Hc Eb). simpl. apply wp_fail.
    unfold copy_post, copy_result. rewrite Eb. by split_and!; auto using no_amplify_refl. }
  assert (Er : copy_result s spd = lookup_freeslot spd)
    by (unfold copy_result; by rewrite (proj2 (Z.eqb_neq _ 0))).
  unfold copy_post. rewrite Er. clear Er.
  eapply wp_mono; [apply (clone_cap_spec _ _ cap Hct); [apply H|done|lia]|].
  intros r s1 (q & -> & H1 & Hf & Ec & Hpl & Hq). pose proof Hf as (Fh & Fi & Fn).
  rewrite (proj2 (Z.eqb_neq (next_ptr s) 0)) by lia.
  apply wp_bind, wp_attempt. unfold wp at 1.
  rewrite (holder_freeslot_spec s1 _ spd) by congruence.
  destruct (lookup_freeslot spd) as [t|e] eqn:Ef.
  - apply lookup_freeslot_ok in Ef as (_ & Hvt & Hgt). apply wp_bind, wp_attempt.
    unfold set_slot. rewrite Hvt; simpl. eapply wp_mono; [by eapply space_set_new|].
    intros r s2 (-> & H2 & Ec2 & _ & _ & En2 & _ & Eh2). apply wp_ret.
    split_and!; [done| |done|done|done|exists q; by rewrite Ec2].
    eapply (no_amplify_add _ _ _ _ (next_ptr s)); [lia|by rewrite Ec2, Ec|done| |done].
    simpl; auto with sust.
  - apply wp_bind. eapply wp_mono.
    { eapply (delete_cap_spec s1 _ _ H1). by rewrite Ec, lookup_insert_eq. }
    intros r s2 (-> & H2 & (Gh & Gi & Gn) & Ec2 & _). apply wp_fail.
    assert (E2 : caps s2 = caps s).
    { rewrite Ec2, Ec. apply delete_insert_id. by apply inv_next_fresh. }
    assert (Eh : holders s2 = holders s) by congruence.
    split_and!; [|apply no_amplify_sub; [lia|by rewrite E2]|done|split; [done|by rewrite Eh]].
    split; [done| |]; rewrite Eh; [rewrite E2; apply H|]. rewrite Gi, Fi. apply H.
Qed.

Lemma cspace_get_put_ne sp idx idx' c :
  (cap_group idx', cap_slot idx') ≠ (cap_group idx, cap_slot idx) →
  cspace_get (cspace_put sp idx c) idx' = cspace_get sp idx'.
Proof.
  intros Hne. unfold cspace_get, cspace_put, cgroup_get, cgroup_put.
  destruct (decide (cap_group idx' = cap_group idx)) as [E|E].
  2:{ by rewrite lookup_insert_ne. }
  rewrite E, lookup_insert_eq. assert (cap_slot idx' ≠ cap_slot idx) by congruence.
  destruct (sp !! cap_group idx) as [g|]; simpl; destruct (c =? 0);
    rewrite ?lookup_delete_ne, ?lookup_insert_ne, ?lookup_empty by done; done.
Qed.

Lemma insert_to_free_spec s h sp p perm :
  inv s → holders s !! h = Some sp → is_Some (payloads s !! p) →
  wp (insert_to_free h p perm) s (λ r s', inv s' ∧ next_ptr s <= next_ptr s' ∧
    r = move_result s sp ∧
    match r with
    | Ok t => cap_valid t = true ∧ cspace_get sp t = 0 ∧ 0 < budget s ∧
              caps s' = <[next_ptr s := mkCap p perm]> (caps s) ∧ cur_id s' = cur_id s ∧
              holders s' = <[h := cspace_put sp t (next_ptr s)]> (holders s)
    | Err e => s' = s
    end).
Proof.
  intros H Hh Hp. unfold insert_to_free, move_result. apply wp_bind. unfold wp at 1.
  rewrite (holder_freeslot_spec _ _ _ Hh).
  destruct (lookup_freeslot sp) as [t|e] eqn:Ef; [|split_and!; try done; lia].
  apply lookup_freeslot_ok in Ef as (_ & Hv & Hg). apply wp_bind.
  eapply wp_mono; [by apply (insert_spec s h sp t)|]. intros r s1 (H1 & Hn & Hr).
  destruct r as [u|e].
  - apply wp_ret. destruct Hr as (_ & _ & Hb & Hr).
    rewrite (proj2 (Z.eqb_neq (budget s) 0)) by lia. by split_and!; try done; apply Hr.
  - destruct Hr as [-> Hr]. destruct Hr as [[_ Hr]|[[_ Hr]|[-> ->]]]; [congruence|done|].
    split_and!; done || lia.
Qed.

(** Outcome of the moving half: the target gets the source's payload and its
    permissions without [MIGRATE_ONCE]; the source slot is emptied. *)
Definition move_post (s : store) (h dst idx : Z) (sp spd : CSpace) (cap : Cap)
    (r : Result Z) (s' : store) : Prop :=
  r = move_result s spd ∧
  match r with
  | Ok t => cap_valid t = true ∧ cspace_get spd t = 0 ∧
      caps s' = delete (cspace_get sp idx) (<[next_ptr s :=
        mkCap (c_payload cap) (Z.land (c_perm cap) (not64 perm.MIGRATE_ONCE))]> (caps s)) ∧
      ∀ x, slot_at (holders s') x =
           if decide (x = (h, cap_group idx, cap_slot idx)) then None
           else if decide (x = (dst, cap_group t, cap_slot t)) then Some (next_ptr s)
           else slot_at (holders s) x
  | Err _ => s' = s
  end.

Lemma land_not64_implies a m : bits_implies a (Z.land a (not64 m)) = true.
Proof.
  apply bits_implies_spec. intros n _. rewrite Z.land_spec, andb_true_iff. by intros [??].
Qed.

Lemma transfer_move_spec s h dst idx sp spd cap :
  inv s → holders s !! h = Some sp → holders s !! dst = Some spd → cap_valid idx = true →
  caps s !! cspace_get sp idx = Some cap →
  wp (transfer_move h dst idx (c_payload cap) (c_perm cap)) s (λ r s',
    inv s' ∧ no_amplify s s' ∧ move_post s h dst idx sp spd cap r s').
Proof.
  intros H Hh Hd Hv Hc. destruct (ho_live _ (inv_heap _ H) _ _ Hc) as [Hp Hc0].
  unfold transfer_move. apply wp_bind. eapply wp_mono; [by apply (insert_to_free_spec s dst spd)|].
  intros r s1 (H1 & Hn & Er & Hr). destruct r as [t|e].
  2:{ subst s1. by split_and!; auto using no_amplify_refl. }
  destruct Hr as (Hvt & Hg & Hb & Ec & Ei & Eh).
  pose proof (ho_next _ (inv_heap _ H)) as Hnp.
  assert (Ez : (next_ptr s =? 0) = false) by (apply Z.eqb_neq; lia).
  assert (Hs : slot_at (holders s) (h, cap_group idx, cap_slot idx) = Some (cspace_get sp idx)).
  { apply (cspace_get_some _ _ _ _ _ Hh); [done|lia]. }
  assert (Hsd : slot_at (holders s) (dst, cap_group t, cap_slot t) = None).
  { apply (cspace_get_slot _ _ _ _ Hd (inv_no_null _ _ H)). by rewrite Hg. }
  assert (∃ sp1, holders s1 !! h = Some sp1 ∧ cspace_get sp1 idx = cspace_get sp idx)
    as (sp1 & Hh1 & Hg1).
  { rewrite Eh. destruct (decide (h = dst)) as [->|Hne].
    - rewrite lookup_insert_eq. eexists; split; [done|]. rewrite Hh in Hd. simplify_eq.
      apply cspace_get_put_ne. intros E. simplify_eq. congruence.
    - rewrite lookup_insert_ne by done. by eexists. }
  apply wp_bind, wp_attempt. eapply wp_mono; [by apply (remove_spec s1 h sp1 idx)|].
  intros r s2 (H2 & Ha2 & Ei2 & Hr). destruct r as [u|e].
  2:{ destruct Hr as [_ [Hr|Hr]]; [congruence|rewrite Hg1 in Hr; lia]. }
  destruct Hr as (_ & _ & E2 & Eh2). apply wp_ret. split_and!; [done| |].
  - apply no_amplify_trans with s1; [|done].
    eapply (no_amplify_add _ _ _ cap (next_ptr s)); [lia|by rewrite Ec|done| |by left].
    apply land_not64_implies.
  - split; [done|]. split_and!; [done|done|by rewrite E2, Hg1, Ec|]. intros x.
    rewrite Eh2, (slot_at_put _ _ _ _ _ _ Hh1). destruct (decide _); [done|].
    by rewrite Eh, (slot_at_put _ _ _ _ _ _ Hd), Ez.
Qed.

Definition transfer_post (s : store) (h dst idx : Z) (sp spd : CSpace) (cap : Cap)
    (r : Result Z) (s' : store) : Prop :=
  if bits_implies (c_perm cap) perm.CLONE then copy_post s dst spd cap r s'
  else if bits_implies (c_perm cap) perm.MIGRATE || bits_implies (c_perm cap) perm.MIGRATE_ONCE
  then move_post s h dst idx sp spd cap r s'
  else r = Err INSUFFICIENT_PERMISSIONS ∧ s' = s.

Lemma transfer_to_spec s h dst idx sp spd cap :
  clone_total → inv s → holders s !! h = Some sp → holders s !! dst = Some spd →
  cap_valid idx = true → caps s !! cspace_get sp idx = Some cap →
  wp (transfer_to h dst idx) s (λ r s',
    inv s' ∧ no_amplify s s' ∧ transfer_post s h dst idx sp spd cap r s').
Proof.
  intros Hct H Hh Hd Hv Hc. destruct (ho_live _ (inv_heap _ H) _ _ Hc) as [_ Hc0].
  unfold transfer_to, transfer_post, perm_imply. apply wp_bind. unfold wp at 1.
  rewrite (lookup_spec _ _ _ _ Hh), Hv; simpl.
  rewrite (proj2 (Z.eqb_neq _ 0)) by lia. apply wp_bind. eapply wp_deref; [done|].
  destruct (bits_implies (c_perm cap) perm.CLONE); [by apply transfer_clone_spec|].
  rewrite <- negb_orb. destruct (_ || _); simpl; [by apply transfer_move_spec|].
  apply wp_fail. split_and!; auto using no_amplify_refl.
Qed.

(** Why a transfer fails: the capability may not be transferred at all, no
    object is left in the slab, or the target has no free slot. *)
Definition cspace_full (sp : CSpace) : Prop :=
  ∀ i j, 0 <= i < CSPACE_SIZE → 0 <= j < CGROUP_SLOTS → cspace_get sp (cap_make i j) ≠ 0.

Definition transfer_error (s : store) (spd : CSpace) (cap : Cap) (e : ErrCode) : Prop :=
  let may p := bits_implies (c_perm cap) p = true in
  let movable := may perm.CLONE ∨ may perm.MIGRATE ∨ may perm.MIGRATE_ONCE in
  e = INSUFFICIENT_PERMISSIONS ∧ ¬ movable ∨
  movable ∧ (e = OUT_OF_MEMORY ∧ budget s = 0 ∨ e = NO_FREE_SLOT ∧ cspace_full spd).

Lemma freeslot_error sp e : lookup_freeslot sp = Err e → e = NO_FREE_SLOT ∧ cspace_full sp.
Proof. intros E. pose proof (lookup_freeslot_spec sp) as H. by rewrite E in H. Qed.

Lemma copy_result_error s spd e :
  copy_result s spd = Err e →
  e = OUT_OF_MEMORY ∧ budget s = 0 ∨ e = NO_FREE_SLOT ∧ cspace_full spd.
Proof.
  unfold copy_result. destruct (Z.eqb_spec (budget s) 0); [intros [= <-]; by left|].
  right. by apply freeslot_error.
Qed.

Lemma move_result_error s spd e :
  move_result s spd = Err e →
  e = OUT_OF_MEMORY ∧ budget s = 0 ∨ e = NO_FREE_SLOT ∧ cspace_full spd.
Proof.
  unfold move_result. destruct (lookup_freeslot spd) as [t|e'] eqn:E.
  - destruct (Z.eqb_spec (budget s) 0); [intros [= <-]; by left|done].
  - intros [= <-]. right. by apply freeslot_error.
Qed.

Lemma transfer_post_error s h dst idx sp spd cap e s' :
  transfer_post s h dst idx sp spd cap (Err e) s' → transfer_error s spd cap e.
Proof.
  unfold transfer_post, transfer_error. cbv zeta.
  destruct (bits_implies (c_perm cap) perm.CLONE); [|destruct (_ || _) eqn:E].
  - intros [Hr _]. right. split; [by left|]. by apply copy_result_error.
  - intros [Hr _]. right. split; [|by apply move_result_error].
    apply orb_true_iff in E. tauto.
  - intros [[= ->] _]. left. split; [done|]. apply orb_false_iff in E as [-> ->].
    by intros [?|[?|?]].
Qed.

(** ** Whole-space operations *)

(** What [cspace_entries] gives: distinct cells with their pointers. *)
Definition entries_of (sp : CSpace) (l : list (Z * Z)) : Prop :=
  NoDup l ∧ ∀ idx c, (idx, c) ∈ l → ∃ i j, 0 <= i < CSPACE_SIZE ∧ 0 <= j < CGROUP_SLOTS ∧
    idx = cap_make i j ∧ cspace_get sp idx = c ∧ c ≠ 0.

Lemma cap_make_inj i j i' j' :
  0 <= i < CSPACE_SIZE → 0 <= j < CGROUP_SLOTS →
  0 <= i' < CSPACE_SIZE → 0 <= j' < CGROUP_SLOTS →
  cap_make i j = cap_make i' j' → i = i' ∧ j = j'.
Proof.
  intros ???? E. split.
  - apply (f_equal cap_group) in E. by rewrite !cap_group_make in E.
  - apply (f_equal cap_slot) in E. by rewrite !cap_slot_make in E.
Qed.

Lemma entries_of_entries sp : entries_of sp (cspace_entries sp).
Proof.
  split; [|intros idx c; apply elem_of_entries].
  unfold cspace_entries. apply NoDup_bind; [| |apply NoDup_seqZ].
  - intros i1 i2 [idx c] Hi1 Hi2 H1 H2. apply elem_of_seqZ in Hi1, Hi2.
    destruct (sp !! i1) as [g1|]; [|by apply not_elem_of_nil in H1].
    destruct (sp !! i2) as [g2|]; [|by apply not_elem_of_nil in H2].
    apply list_elem_of_bind in H1 as (j1 & H1 & Hj1), H2 as (j2 & H2 & Hj2).
    apply elem_of_seqZ in Hj1, Hj2. cbv zeta in *.
    destruct (_ =? 0); [by apply not_elem_of_nil in H1|].
    destruct (_ =? 0); [by apply not_elem_of_nil in H2|].
    apply list_elem_of_singleton in H1, H2. simplify_eq.
    by apply (cap_make_inj i1 j1 i2 j2); lia || congruence.
  - intros i Hi. apply elem_of_seqZ in Hi. destruct (sp !! i) as [g|]; [|constructor].
    apply NoDup_bind; [| |apply NoDup_seqZ].
    + intros j1 j2 [idx c] Hj1 Hj2 H1 H2. apply elem_of_seqZ in Hj1, Hj2. cbv zeta in *.
      destruct (_ =? 0); [by apply not_elem_of_nil in H1|].
      destruct (_ =? 0); [by apply not_elem_of_nil in H2|].
      apply list_elem_of_singleton in H1, H2. simplify_eq.
      by apply (cap_make_inj i j1 i j2); lia || congruence.
    + intros j _. cbv zeta. destruct (_ =? 0); [constructor|apply NoDup_singleton].
Qed.

Lemma entries_of_cons sp idx c l :
  entries_of sp ((idx, c) :: l) →
  cspace_get sp idx = c ∧ c ≠ 0 ∧ cap_valid idx = true ∧ entries_of sp l ∧
  ∀ idx' c', (idx', c') ∈ l → (cap_group idx', cap_slot idx') ≠ (cap_group idx, cap_slot idx).
Proof.
  intros [Hn H]. apply NoDup_cons in Hn as [Hni Hn].
  destruct (H idx c) as (i & j & Hi & Hj & -> & E & Hz); [left|].
  split_and!; try done; [by apply cap_valid_make|split; [done|]; intros; apply H; by right|].
  intros idx' c' Hin Heq. destruct (H idx' c') as (i' & j' & Hi' & Hj' & -> & E' & _); [by right|].
  rewrite !cap_group_make, !cap_slot_make in Heq by done. by simplify_eq.
Qed.

Lemma entries_of_put sp idx c l :
  (∀ idx' c', (idx', c') ∈ l → (cap_group idx', cap_slot idx') ≠ (cap_group idx, cap_slot idx)) →
  entries_of sp l → entries_of (cspace_put sp idx c) l.
Proof.
  intros Hd [Hn H]. split; [done|]. intros idx' c' Hin.
  destruct (H _ _ Hin) as (i & j & Hi & Hj & -> & E & Hz). exists i, j. split_and!; try lia; try done.
  rewrite cspace_get_put_ne; [done|]. by eapply Hd.
Qed.

Definition cleared (s : store) (h : Z) (sp : CSpace) (l : list (Z * Z)) (s' : store) : Prop :=
  inv s' ∧ no_amplify s s' ∧ caps s' ⊆ caps s ∧ cur_id s' = cur_id s ∧
  ∃ sp', holders s' = <[h := sp']> (holders s) ∧
    ∀ i j, 0 <= i < CSPACE_SIZE → 0 <= j < CGROUP_SLOTS →
      cspace_get sp' (cap_make i j) =
      if decide (cap_make i j ∈ l.*1) then 0 else cspace_get sp (cap_make i j).

(** One round of the loop is [set(idx, nullptr)]. *)
Lemma space_clear_loop_cons s h sp idx c l :
  holders s !! h = Some sp → cspace_get sp idx = c → c ≠ 0 →
  space_clear_loop h ((idx, c) :: l) s = (space_set h idx 0 ≫= λ _, space_clear_loop h l) s.
Proof.
  intros Hh Hg Hz. simpl. unfold space_set, get_space, deref, mbind, M_bind. rewrite Hh, Hg.
  rewrite (proj2 (Z.eqb_neq c 0)) by done.
  destruct (delete_cap c s) as [[] s'| |]; [|done|done|done].
  destruct (holders s' !! h) as [sp'|]; [|done]. by destruct (put_space _ _ _) as [[]| |].
Qed.

(** The loop of [clear] empties the cells of its list and keeps the rest. *)
Lemma space_clear_loop_spec l s h sp :
  inv s → holders s !! h = Some sp → entries_of sp l →
  wp (space_clear_loop h l) s (λ r s', r = Ok tt ∧ cleared s h sp l s').
Proof.
  revert s sp. induction l as [|[idx c] l IH]; intros s sp H Hh Hl.
  { apply wp_ret. split; [done|]. split_and!; auto using no_amplify_refl. exists sp.
    rewrite insert_id by done. split; [done|]. intros. by rewrite decide_False by set_solver. }
  destruct (entries_of_cons _ _ _ _ Hl) as (Hg & Hz & Hv & Hl' & Hd).
  unfold wp. rewrite (space_clear_loop_cons _ _ _ _ _ _ Hh Hg Hz). apply wp_bind.
  eapply wp_mono; [by apply (space_set_null_any s h sp)|].
  intros r s1 (-> & H1 & Ha & Ei & Ec & Eh).
  eapply wp_mono; [apply (IH _ (cspace_put sp idx 0))|].
  - done.
  - by rewrite Eh, lookup_insert_eq.
  - by apply entries_of_put.
  - intros r s2 (-> & H2 & Ha2 & Hsub & Ei2 & sp' & Eh2 & Hsp). split; [done|].
    split_and!; [done|eauto with sust| |congruence|].
    { rewrite Hsub, Ec. apply delete_subseteq. }
    exists sp'. split; [by rewrite Eh2, Eh, insert_insert_eq|]. intros i j Hi Hj. rewrite Hsp by done.
    simpl. destruct (decide (cap_make i j ∈ l.*1)) as [Hin|Hin].
    + by rewrite decide_True by set_solver.
    + destruct (decide (cap_make i j = idx)) as [<-|Hne].
      * rewrite decide_True by set_solver. apply cspace_get_put.
      * rewrite decide_False by set_solver. apply cspace_get_put_ne. intros Heq.
        destruct Hl as [_ Hl]. destruct (Hl idx c) as (i' & j' & Hi' & Hj' & -> & _); [left|].
        rewrite !cap_group_make, !cap_slot_make in Heq by done. simplify_eq.
Qed.

(** A capability table all of whose cells are null owns nothing. *)
Lemma slot_at_all_null s h sp x :
  inv s → holders s !! h = Some sp →
  (∀ i j, 0 <= i < CSPACE_SIZE → 0 <= j < CGROUP_SLOTS → cspace_get sp (cap_make i j) = 0) →
  x.1.1 = h → slot_at (holders s) x = None.
Proof.
  intros H Hh Hz Hx. destruct x as [[h' i] j]; simpl in Hx; subst h'.
  destruct (slot_at (holders s) (h, i, j)) as [c|] eqn:E; [|done].
  destruct (so_live _ _ (inv_slots _ H) _ _ E) as (_ & Hi & Hj); simpl in *.
  specialize (Hz i j Hi Hj). exfalso. apply (inv_no_null s (h, i, j) H). rewrite E. f_equal.
  unfold slot_at, cspace_get, cgroup_get in *; simpl in *.
  rewrite Hh in E; simpl in E. rewrite cap_group_make, cap_slot_make in Hz by done.
  destruct (sp !! i) as [g|]; [|done]; simpl in *. rewrite E in Hz. done.
Qed.

Lemma space_clear_spec s h sp :
  inv s → holders s !! h = Some sp →
  wp (space_clear h) s (λ r s', r = Ok tt ∧ inv s' ∧ no_amplify s s' ∧ caps s' ⊆ caps s ∧
    cur_id s' = cur_id s ∧ holders s' = <[h := ∅]> (holders s)).
Proof.
  intros H Hh. unfold space_clear. apply wp_bind. eapply wp_deref; [done|]. apply wp_bind.
  eapply wp_mono; [by eapply space_clear_loop_spec, entries_of_entries|].
  intros r s1 (-> & H1 & Ha & Hsub & Ei & sp' & Eh & Hsp). unfold wp, put_space, modify.
  assert (Hh1 : holders s1 !! h = Some sp') by by rewrite Eh, lookup_insert_eq.
  assert (Hnull : ∀ i j, 0 <= i < CSPACE_SIZE → 0 <= j < CGROUP_SLOTS →
            cspace_get sp' (cap_make i j) = 0).
  { intros i j Hi Hj. rewrite Hsp by done. destruct (decide _) as [|Hn]; [done|].
    destruct (Z.eq_dec (cspace_get sp (cap_make i j)) 0) as [|Hne]; [done|]. exfalso. apply Hn.
    apply list_elem_of_fmap. exists (cap_make i j, cspace_get sp (cap_make i j)). split; [done|].
    apply elem_of_entries. eauto 10. }
  split_and!; simpl; try done; [|by rewrite Eh, insert_insert_eq].
  split; simpl; [by destruct (inv_heap _ H1); split| |].
  - apply (slots_ok_ext _ (holders s1)); [|apply H1]. intros x.
    destruct (decide (x.1.1 = h)) as [E|E].
    + rewrite (slot_at_all_null _ _ _ _ H1 Hh1 Hnull E). unfold slot_at.
      by rewrite E, lookup_insert_eq.
    + unfold slot_at. by rewrite lookup_insert_ne by done.
  - apply inv_ids_put; [apply H1|by eexists].
Qed.

(** [copy_all_to] inserts the listed capabilities at their own indices. *)
Lemma copy_loop_spec l s dst spd :
  inv s → holders s !! dst = Some spd →
  (∀ idx c, (idx, c) ∈ l → is_Some (caps s !! c)) →
  wp (copy_loop dst l) s (λ r s', inv s' ∧ no_amplify s s' ∧ caps s ⊆ caps s' ∧
    ∃ spd', holders s' = <[dst := spd']> (holders s) ∧
    (∀ idx, cspace_get spd idx ≠ 0 → cspace_get spd' idx = cspace_get spd idx) ∧
    (r = Ok tt → ∀ idx c cap, (idx, c) ∈ l → caps s !! c = Some cap →
      caps s' !! cspace_get spd' idx = Some cap)).
Proof.
  revert s spd. induction l as [|[idx c] l IH]; intros s spd H Hd Hl.
  { apply wp_ret. split_and!; auto using no_amplify_refl. exists spd.
    rewrite insert_id by done. split_and!; try done. intros _ idx c cap Hin. by apply not_elem_of_nil in Hin. }
  destruct (Hl idx c) as [cap Hc]; [left|]. pose proof (ho_next _ (inv_heap _ H)) as Hn.
  simpl. apply wp_bind. eapply wp_deref; [done|]. apply wp_bind.
  eapply wp_mono; [apply (insert_spec s dst spd idx); [done|done|eapply (ho_live _ (inv_heap _ H) _ _ Hc)]|].
  intros r s1 (H1 & Hn1 & Hr). destruct r as [u|e].
  2:{ destruct Hr as [-> _]. split_and!; auto using no_amplify_refl. exists spd.
      rewrite insert_id by done. split_and!; done. }
  destruct Hr as (Hv & Hg & Hb & Ec & Ei & Eh).
  assert (Hsub : caps s ⊆ caps s1).
  { rewrite Ec. apply insert_subseteq. by apply inv_next_fresh. }
  assert (Ha : no_amplify s s1).
  { destruct cap. eapply (no_amplify_add _ _ c _ (next_ptr s)); [done|by rewrite Ec|done| |by left].
    auto with sust. }
  eapply wp_mono; [apply (IH s1 (cspace_put spd idx (next_ptr s)) H1)|].
  - by rewrite Eh, lookup_insert_eq.
  - intros idx' c' Hin. destruct (Hl idx' c') as [cap' Hc']; [by right|].
    exists cap'. by eapply lookup_weaken.
  - intros r s2 (H2 & Ha2 & Hsub2 & spd' & Eh2 & Hkeep & Hr).
    split_and!; [done|eauto with sust|by etrans|]. exists spd'.
    split_and!; [by rewrite Eh2, Eh, insert_insert_eq| |].
    + intros i Hi. assert (Hne : (cap_group i, cap_slot i) ≠ (cap_group idx, cap_slot idx)).
      { intros [= E1 E2]. apply Hi. rewrite <- Hg. unfold cspace_get, cgroup_get.
        by rewrite E1, E2. }
      rewrite Hkeep; by rewrite cspace_get_put_ne.
    + intros Hok idx' c' cap' [E|Hin]%elem_of_cons Hc'; simplify_eq.
      * rewrite Hkeep, cspace_get_put by (rewrite cspace_get_put; lia).
        eapply lookup_weaken; [|done]. rewrite Ec, lookup_insert_eq. by destruct cap.
      * eapply Hr; [done|done|by eapply lookup_weaken].
Qed.

Lemma entry_live s h sp idx c :
  inv s → holders s !! h = Some sp → (idx, c) ∈ cspace_entries sp → is_Some (caps s !! c).
Proof.
  intros H Hh Hin. apply elem_of_entries in Hin as (i & j & Hi & Hj & -> & Hg & Hz).
  eapply (so_live _ _ (inv_slots _ H)). by eapply cspace_get_some.
Qed.

Lemma copy_all_to_spec s h sp dst spd :
  inv s → holders s !! h = Some sp → holders s !! dst = Some spd →
  wp (copy_all_to h dst) s (λ r s', inv s' ∧ no_amplify s s' ∧ caps s ⊆ caps s' ∧
    ∃ spd', holders s' = <[dst := spd']> (holders s) ∧
    (∀ idx, cspace_get spd idx ≠ 0 → cspace_get spd' idx = cspace_get spd idx) ∧
    (r = Ok tt → ∀ idx c cap, (idx, c) ∈ cspace_entries sp → caps s !! c = Some cap →
      caps s' !! cspace_get spd' idx = Some cap)).
Proof.
  intros H Hh Hd. unfold copy_all_to. apply wp_bind. eapply wp_deref; [done|].
  apply copy_loop_spec; [done|done|]. intros idx c. by eapply entry_live.
Qed.

(** [create]: on failure the payload object is gone again. *)
Lemma create_spec s h sp obj :
  inv s → holders s !! h = Some sp →
  wp (create h obj) s (λ r s', inv s' ∧ next_ptr s <= next_ptr s' ∧
    match r with
    | Ok t => cap_valid t = true ∧ cspace_get sp t = 0 ∧
              caps s' = <[next_ptr s + 1 := mkCap (next_ptr s) allperm]> (caps s) ∧
              holders s' = <[h := cspace_put sp t (next_ptr s + 1)]> (holders s)
    | Err e => caps s' = caps s ∧ holders s' = holders s ∧ payloads s' = payloads s
    end).
Proof.
  intros H Hh. unfold create. destruct obj as [b|].
  2:{ apply wp_fail. split_and!; try done; lia. }
  apply wp_bind. unfold wp at 1, fresh_ptr. apply wp_bind. unfold wp at 1, modify.
  apply wp_bind, wp_attempt. pose proof (heap_ok_new_payload _ b (inv_heap _ H)) as Hnew.
  eapply wp_mono; [eapply (insert_to_free_spec _ h sp (next_ptr s) allperm)|].
  - split; [done|apply H|apply H].
  - done.
  - simpl. by rewrite lookup_insert_eq.
  - intros r s1 (H1 & Hn & _ & Hr). simpl in *. destruct r as [t|e].
    + apply wp_ret. destruct Hr as (Hv & Hg & Hb & Ec & Ei & Eh). split_and!; try done. lia.
    + subst s1. apply wp_bind. unfold wp at 1, modify. apply wp_fail. simpl.
      assert (Ed : delete (next_ptr s) (<[next_ptr s := mkPayload 0 b]> (payloads s)) = payloads s).
      { apply delete_insert_id. destruct (payloads s !! next_ptr s) eqn:E; [|done].
        destruct (ho_rc _ (inv_heap _ H) _ _ E). lia. }
      split_and!; try done; try lia. split; [|apply H|apply H].
      destruct (inv_heap _ H) as [R L N D]. split; simpl; rewrite ?Ed; [| |lia|done].
      * intros p pl Hp. destruct (R _ _ Hp). lia.
      * intros c cap Hc. destruct (L _ _ Hc). split; [done|lia].
Qed.

Lemma create_holder_spec s :
  inv s → 0 <= cur_id s → cur_id s + 1 < W64 →
  wp create_holder s (λ r s', r = Ok (cur_id s) ∧ inv s' ∧ no_amplify s s' ∧
    holders s !! cur_id s = None ∧ holders s' = <[cur_id s := ∅]> (holders s) ∧ caps s' = caps s).
Proof.
  intros H H0 Hw. unfold wp, create_holder, mbind, M_bind, gets, modify; simpl.
  assert (Hnone : holders s !! cur_id s = None).
  { destruct (holders s !! cur_id s) eqn:E; [|done].
    pose proof (inv_ids _ H (cur_id s) (mk_is_Some _ _ E)). lia. }
  split_and!; try done; [|by apply no_amplify_sub; simpl; [lia|]].
  split; simpl; [by destruct (inv_heap _ H); split| |].
  - apply (slots_ok_ext _ (holders s)); [|apply H]. intros [[h i] j]. unfold slot_at; simpl.
    destruct (decide (h = cur_id s)) as [->|]; [by rewrite lookup_insert_eq, Hnone|].
    by rewrite lookup_insert_ne.
  - intros h Hh. unfold add64. rewrite wrap64_small by (unfold is_u64; lia).
    destruct (decide (h = cur_id s)) as [->|]; [lia|]. rewrite lookup_insert_ne in Hh by done.
    pose proof (inv_ids _ H _ Hh). lia.
Qed.

Lemma remove_holder_spec s id :
  inv s →
  wp (remove_holder id) s (λ r s', inv s' ∧ no_amplify s s' ∧ caps s' ⊆ caps s ∧
    holders s' = delete id (holders s) ∧
    (r = Ok tt ↔ is_Some (holders s !! id)) ∧ (r ≠ Ok tt → r = Err OUT_OF_BOUNDARY)).
Proof.
  intros H. unfold remove_holder. apply wp_bind. unfold wp at 1, get_holder, gets, mbind, M_bind.
  destruct (holders s !! id) as [sp|] eqn:E; simpl.
  2:{ split_and!; auto using no_amplify_refl; [by rewrite delete_id|].
      split; [done|]. by intros [??]. }
  apply wp_bind. eapply wp_mono; [by apply (space_clear_spec s id sp)|].
  intros r s1 (-> & H1 & Ha & Hsub & Ei & Eh). unfold wp, modify.
  split_and!; simpl; try done; [|by rewrite Eh, delete_insert_eq].
  split; simpl; [by destruct (inv_heap _ H1); split| |].
  - apply (slots_ok_ext _ (holders s1)); [|apply H1]. intros [[h i] j]. unfold slot_at; simpl.
    destruct (decide (h = id)) as [->|]; [by rewrite lookup_delete_eq, Eh, lookup_insert_eq|].
    by rewrite lookup_delete_ne.
  - intros h Hh. apply lookup_delete_is_Some in Hh as [_ Hh]. apply (inv_ids _ H1 _ Hh).
Qed.

(** ** The operations as a transition system *)

(** The requests a holder can make of the component.  [create] and [insert]
    bring in new objects and are kept apart. *)
Inductive cap_op :=
  | OpRemove (h idx : Z)
  | OpClone (h idx : Z)
  | OpDerive (h idx new_perm : Z)
  | OpDowngrade (h idx new_perm : Z)
  | OpTransfer (h dst idx : Z)
  | OpCopyAll (h dst : Z)
  | OpClear (h : Z)
  | OpCreateHolder
  | OpRemoveHolder (h : Z).

Definition discard {A} (m : M A) : M unit := _ ← m; mret tt.

Definition run_op (op : cap_op) : M unit :=
  match op with
  | OpRemove h idx => remove h idx
  | OpClone h idx => discard (clone h idx)
  | OpDerive h idx p => discard (derive h idx p)
  | OpDowngrade h idx p => downgrade h idx p
  | OpTransfer h dst idx => discard (transfer_to h dst idx)
  | OpCopyAll h dst => copy_all_to h dst
  | OpClear h => clear h
  | OpCreateHolder => discard create_holder
  | OpRemoveHolder h => remove_holder h
  end.

(** The holder objects the caller passes are alive, and holder numbers have
    not run out. *)
Definition op_pre (s : store) (op : cap_op) : Prop :=
  match op with
  | OpRemove h _ | OpClone h _ | OpDerive h _ _ | OpDowngrade h _ _ | OpClear h =>
      is_Some (holders s !! h)
  | OpTransfer h dst _ | OpCopyAll h dst => is_Some (holders s !! h) ∧ is_Some (holders s !! dst)
  | OpCreateHolder => 0 <= cur_id s ∧ cur_id s + 1 < W64
  | OpRemoveHolder _ => True
  end.

(** The one way an operation can stop the kernel: [derive] while the slab of
    capabilities is empty (see [derive_without_slab_panics]). *)
Definition derive_no_slab (s : store) (op : cap_op) : Prop :=
  budget s = 0 ∧ match op with OpDerive _ _ _ => True | _ => False end.

Definition cap_step (s s' : store) : Prop :=
  ∃ op r, op_pre s op ∧ run_op op s = Fin r s'.

(** Every operation starts with [lookup]: when that fails nothing happens,
    and when it succeeds the slot holds a live capability. *)
Lemma wp_lookup_cases {A} s h sp idx (k : Z → M A) (Q : Result A → store → Prop) :
  inv s → holders s !! h = Some sp → (∀ e, Q (Err e) s) →
  (∀ cap, cap_valid idx = true → caps s !! cspace_get sp idx = Some cap →
     wp (lookup h idx ≫= k) s Q) →
  wp (lookup h idx ≫= k) s Q.
Proof.
  intros H Hh He Hk. destruct (cap_valid idx) eqn:Ev.
  2:{ apply wp_bind. unfold wp. rewrite (lookup_spec _ _ _ _ Hh), Ev. apply He. }
  destruct (Z.eq_dec (cspace_get sp idx) 0) as [E|E].
  { apply wp_bind. unfold wp. rewrite (lookup_spec _ _ _ _ Hh), Ev, E. apply He. }
  destruct (so_live _ _ (inv_slots _ H) _ _ (cspace_get_some _ _ _ _ _ Hh eq_refl E)) as [[cap Hc] _].
  by eapply Hk.
Qed.

Lemma wp_discard {A} (m : M A) s (P : store → Prop) :
  wp m s (λ _ s', P s') → wp (discard m) s (λ _ s', P s').
Proof. unfold wp, discard, mbind, M_bind. by destruct (m s) as [[]| |]. Qed.

Lemma wp_weaken {A} (m : M A) s (P : Result A → store → Prop) (Q : store → Prop) :
  wp m s P → (∀ r s', P r s' → Q s') → wp m s (λ _ s', Q s').
Proof. intros H HQ. eapply wp_mono; [done|]. eauto. Qed.

(** Close the step from a specification to a weaker postcondition. *)
Ltac spec_done := cbv beta; intros; destruct_and?; by split_and?.

Lemma derive_total s h sp idx np :
  clone_total → inv s → holders s !! h = Some sp → 0 < budget s →
  wp (derive h idx np) s (λ _ s', inv s' ∧ no_amplify s s').
Proof.
  intros Hct H Hh Hb.
  destruct (cap_valid idx && negb (cspace_get sp idx =? 0)) eqn:E.
  - rewrite andb_true_iff, negb_true_iff, Z.eqb_neq in E. destruct E as [Hv Hz].
    destruct (so_live _ _ (inv_slots _ H) _ _ (cspace_get_some _ _ _ _ _ Hh eq_refl Hz))
      as [[cap Hc] _].
    eapply wp_weaken; [by eapply derive_spec|]. spec_done.
  - unfold derive. apply wp_bind. unfold clone. apply wp_bind. unfold wp at 1.
    rewrite (lookup_spec _ _ _ _ Hh). destruct (cap_valid idx); simpl in *.
    + apply negb_false_iff in E. rewrite E. split; auto using no_amplify_refl.
    + split; auto using no_amplify_refl.
Qed.

(** [derive] with an empty slab: [clone] fails as it would have, or leaves
    the slot empty and the assertion that follows fails. *)
Lemma derive_empty_slab s h sp idx np :
  clone_total → inv s → holders s !! h = Some sp → budget s = 0 →
  (∃ e s', derive h idx np s = Fin (Err e) s' ∧ inv s' ∧ no_amplify s s') ∨
  derive h idx np s = Panic.
Proof.
  intros Hct H Hh Hb.
  assert (wp (clone h idx) s (λ r s1, inv s1 ∧ no_amplify s s1 ∧ ∀ t, r = Ok t →
    cap_valid t = true ∧ holders s1 = <[h := cspace_put sp t 0]> (holders s))) as Hcl.
  { apply (wp_lookup_cases _ _ sp); [done|done|by intros e; split_and!; auto using no_amplify_refl|].
    intros cap Hv Hc. eapply wp_mono; [by eapply clone_spec|]. intros r s1 (H1 & Ha & Hr).
    split_and!; [done|done|]. intros t ->. destruct Hr as (Hvt & _ & _ & _ & Hno). eauto. }
  unfold derive, mbind, M_bind. unfold wp in Hcl.
  destruct (clone h idx s) as [[t|e] s1| |]; [| |done|done].
  - destruct Hcl as (_ & _ & Ht). destruct (Ht t eq_refl) as [Hvt Eh]. right. unfold attempt.
    rewrite (lookup_spec _ _ (cspace_put sp t 0)) by by rewrite Eh, lookup_insert_eq.
    by rewrite Hvt, cspace_get_put.
  - destruct Hcl as (H1 & Ha & _). left. by eexists _, _.
Qed.

Lemma run_op_total s op :
  clone_total → inv s → op_pre s op → ¬ derive_no_slab s op →
  wp (run_op op) s (λ _ s', inv s' ∧ no_amplify s s').
Proof.
  intros Hct H Hpre Hslab. pose proof (no_amplify_refl s) as Hrefl.
  destruct (ho_budget _ (inv_heap _ H)) as [Hb _].
  destruct op as [h i|h i|h i p|h i p|h d i|h d|h| |h]; simpl in *; try apply wp_discard.
  - destruct Hpre as [sp Hh]. eapply wp_weaken; [by eapply remove_spec|]. spec_done.
  - destruct Hpre as [sp Hh]. apply (wp_lookup_cases _ _ sp); [done|done|done|]. intros cap Hv Hc.
    eapply wp_weaken; [by eapply clone_spec|]. spec_done.
  - destruct Hpre as [sp Hh]. unfold derive_no_slab in Hslab. eapply derive_total; eauto. lia.
  - destruct Hpre as [sp Hh]. apply (wp_lookup_cases _ _ sp); [done|done|done|]. intros cap Hv Hc.
    eapply wp_weaken; [by eapply downgrade_spec|]. spec_done.
  - destruct Hpre as [[sp Hh] [spd Hd]]. apply (wp_lookup_cases _ _ sp); [done|done|done|].
    intros cap Hv Hc. eapply wp_weaken; [by eapply transfer_to_spec|]. spec_done.
  - destruct Hpre as [[sp Hh] [spd Hd]]. eapply wp_weaken; [by eapply copy_all_to_spec|]. spec_done.
  - destruct Hpre as [sp Hh]. eapply wp_weaken; [by eapply space_clear_spec|]. spec_done.
  - destruct Hpre. eapply wp_weaken; [by eapply create_holder_spec|]. spec_done.
  - eapply wp_weaken; [by eapply remove_holder_spec|]. spec_done.
Qed.

Lemma run_op_outcome s op :
  clone_total → inv s → op_pre s op →
  (∃ r s', run_op op s = Fin r s' ∧ inv s' ∧ no_amplify s s') ∨
  derive_no_slab s op ∧ run_op op s = Panic.
Proof.
  intros Hct H Hp. destruct (decide (budget s = 0)) as [Eb|Eb].
  2:{ left. apply wp_fin_iff, run_op_total; try done. by intros []. }
  destruct op as [| |h i p| | | | | |]; try (left; apply wp_fin_iff, run_op_total; by try intros []).
  destruct Hp as [sp Hh]. unfold run_op, discard, mbind, M_bind.
  destruct (derive_empty_slab s h sp i p Hct H Hh Eb) as [(e & s' & -> & Hs)| ->].
  - left. by eexists _, _.
  - by right.
Qed.

(** C1: reference counts and slot ownership.  On holders that are alive, and
    while holder numbers have not run out, each of [remove], [clone],
    [derive], [downgrade], [transfer_to], [copy_all_to], [clear],
    [create_holder] and [remove_holder], run as one uninterrupted call with
    any other arguments (bad indices, empty slots, insufficient permissions, a
    full table, an empty slab), terminates without a use after free or a
    double free and keeps the invariant: each payload's reference count is the
    number of live capabilities to it, and the live capabilities are in
    one-to-one correspondence with the occupied slots.  No assertion fails
    either, with one exception: [derive] with an empty slab may stop the
    kernel.  An empty slab is taken to give the null pointer that the code
    tests for, and cloning a payload is assumed not to fail. *)
Theorem cap_ops_preserve_inv s op :
  clone_total → inv s → op_pre s op →
  (∃ r s', run_op op s = Fin r s' ∧ inv s') ∨ derive_no_slab s op ∧ run_op op s = Panic.
Proof.
  intros Hct H Hp. destruct (run_op_outcome s op Hct H Hp) as [(r & s' & E & H' & _)|?]; [|by right].
  left. by eexists _, _.
Qed.

(** C2: authority is never amplified.  Along any sequence of capability
    operations between any holders, every capability that exists afterwards is
    covered by one that existed before: its permission bits are a subset, on
    the same payload or on a clone made meanwhile. *)
Theorem cap_authority_monotone s s' :
  clone_total → inv s → rtc cap_step s s' → inv s' ∧ no_amplify s s'.
Proof.
  intros Hct H Hsteps. revert H. induction Hsteps as [s|s s1 s2 (op & r & Hp & E) _ IH];
    intros H; [auto using no_amplify_refl|].
  destruct (run_op_outcome s op Hct H Hp) as [(r' & s' & E' & H1 & Ha)|[_ E']]; [|congruence].
  rewrite E in E'. injection E' as <- <-. destruct (IH H1). split; eauto with sust.
Qed.

(** C25: [derive] hands out exactly the requested permissions.  It succeeds
    only from a capability with [CLONE] whose permissions include the
    requested ones, into a slot that was free; when it fails, for whatever
    reason, the half-made clone has been removed again. *)
Theorem derive_exact s h sp idx cap np :
  clone_total → inv s → holders s !! h = Some sp → cap_valid idx = true →
  caps s !! cspace_get sp idx = Some cap → 0 < budget s →
  wp (derive h idx np) s (λ r s', inv s' ∧ derive_post s h sp cap np r s').
Proof.
  intros. eapply wp_mono; [by eapply derive_spec|]. spec_done.
Qed.


Lemma bits_implies_single a n : 0 <= n → bits_implies a (2 ^ n) = Z.testbit a n.
Proof.
  intros Hn. apply eq_bool_prop_intro. rewrite !Is_true_true, bits_implies_spec. split.
  - intros H. apply H; [done|]. by rewrite Z.pow2_bits_true.
  - intros H m Hm. rewrite Z.pow2_bits_eqb by done. destruct (Z.eqb_spec n m); [by subst|done].
Qed.

Lemma not64_once_bits n : 0 <= n → n ≠ 3 → n < 64 →
  Z.testbit (not64 perm.MIGRATE_ONCE) n = true.
Proof.
  intros Hn Hne H64. change (not64 perm.MIGRATE_ONCE) with (Z.ldiff (Z.ones 64) (2 ^ 3)).
  rewrite Z.ldiff_spec, Z.testbit_ones_nonneg, Z.pow2_bits_false by lia.
  by rewrite (proj2 (Z.ltb_lt n 64)).
Qed.

(** What the delivered permissions of a move keep and lose. *)
Lemma delivered_bits p :
  let d := Z.land p (not64 perm.MIGRATE_ONCE) in
  bits_implies d perm.MIGRATE_ONCE = false ∧
  bits_implies d perm.MIGRATE = bits_implies p perm.MIGRATE ∧
  bits_implies d perm.CLONE = bits_implies p perm.CLONE.
Proof.
  cbv zeta. change perm.MIGRATE_ONCE with (2 ^ 3) at 2. change perm.MIGRATE with (2 ^ 2).
  change perm.CLONE with (2 ^ 1). rewrite !bits_implies_single, !Z.land_spec by lia.
  rewrite (not64_once_bits 2), (not64_once_bits 1) by lia. rewrite !andb_true_r.
  split_and!; [|done|done]. apply andb_false_r.
Qed.

(** A capability that carries only [MIGRATE_ONCE] crosses one holder
    boundary at most: after a successful transfer, a second transfer of the
    delivered capability, to any holder, is refused and changes nothing. *)
Theorem migrate_once_only_once s h dst dst2 idx sp spd cap t s1 :
  clone_total → inv s → holders s !! h = Some sp → holders s !! dst = Some spd →
  cap_valid idx = true → caps s !! cspace_get sp idx = Some cap →
  bits_implies (c_perm cap) perm.CLONE = false →
  bits_implies (c_perm cap) perm.MIGRATE = false →
  transfer_to h dst idx s = Fin (Ok t) s1 →
  transfer_to dst dst2 t s1 = Fin (Err INSUFFICIENT_PERMISSIONS) s1.
Proof.
  intros Hct H Hh Hd Hv Hc Ecl Emi E.
  destruct (wp_fin _ _ _ _ _ (transfer_to_spec _ _ _ _ _ _ _ Hct H Hh Hd Hv Hc) E)
    as (H1 & _ & Hpost).
  unfold transfer_post in Hpost. rewrite Ecl, Emi in Hpost; simpl in Hpost.
  destruct (bits_implies (c_perm cap) perm.MIGRATE_ONCE); [|by destruct Hpost].
  destruct Hpost as (_ & Hvt & Hg & Ec & Hslots).
  destruct (delivered_bits (c_perm cap)) as (D1 & D2 & D3).
  pose proof (ho_next _ (inv_heap _ H)) as Hn.
  destruct (ho_live _ (inv_heap _ H) _ _ Hc) as [_ Hc0].
  assert (Hs : slot_at (holders s1) (dst, cap_group t, cap_slot t) = Some (next_ptr s)).
  { rewrite Hslots. rewrite decide_False; [by rewrite decide_True|]. intros E'.
    pose proof (cspace_get_some _ _ _ _ _ Hh eq_refl (not_eq_sym (Z.lt_neq _ _ (proj1 Hc0)))) as Hx.
    pose proof (proj1 (cspace_get_slot _ _ _ t Hd (inv_no_null _ _ H))) as Hy.
    rewrite Hg in Hy. specialize (Hy eq_refl). rewrite E' in Hy. congruence. }
  unfold slot_at in Hs; simpl in Hs. destruct (holders s1 !! dst) as [sp1|] eqn:Hd1; [|done].
  assert (Hg1 : cspace_get sp1 t = next_ptr s).
  { unfold cspace_get, cgroup_get. simpl in Hs. destruct (sp1 !! cap_group t) as [g|]; [|done].
    simpl in Hs. by rewrite Hs. }
  unfold transfer_to, mbind, M_bind. rewrite (lookup_spec _ _ _ _ Hd1), Hvt, Hg1; simpl.
  rewrite (proj2 (Z.eqb_neq _ 0)) by lia. unfold get_cap, deref.
  rewrite Ec, lookup_delete_ne, lookup_insert_eq by lia.
  unfold perm_imply; simpl. by rewrite D1, D2, D3, Ecl, Emi.
Qed.

(** On the copying path the delivered capability keeps every permission
    bit of the source, [MIGRATE_ONCE] included, although the documentation of
    [transfer_to] says the target never carries that bit. *)
Theorem transfer_clone_keeps_migrate_once s h dst idx sp spd cap t s1 :
  clone_total → inv s → holders s !! h = Some sp → holders s !! dst = Some spd →
  cap_valid idx = true → caps s !! cspace_get sp idx = Some cap →
  bits_implies (c_perm cap) perm.CLONE = true →
  bits_implies (c_perm cap) perm.MIGRATE_ONCE = true →
  transfer_to h dst idx s = Fin (Ok t) s1 →
  ∃ cap1, caps s1 !! next_ptr s = Some cap1 ∧
    slot_at (holders s1) (dst, cap_group t, cap_slot t) = Some (next_ptr s) ∧
    bits_implies (c_perm cap1) perm.MIGRATE_ONCE = true.
Proof.
  intros Hct H Hh Hd Hv Hc Ecl Emo E. pose proof (ho_next _ (inv_heap _ H)) as Hn.
  destruct (wp_fin _ _ _ _ _ (transfer_to_spec _ _ _ _ _ _ _ Hct H Hh Hd Hv Hc) E)
    as (H1 & _ & Hpost).
  unfold transfer_post in Hpost. rewrite Ecl in Hpost.
  destruct Hpost as (_ & Hvt & Hg & q & Ec & _ & Eh). exists (mkCap q (c_perm cap)).
  rewrite Ec, lookup_insert_eq, Eh, (slot_at_put _ _ _ _ _ _ Hd), decide_True by done.
  by rewrite (proj2 (Z.eqb_neq _ 0)) by lia.
Qed.

(** [CHolder::clone] does not test the pointer [Capability::clone]
    returns.  With an empty slab it therefore reports success for a slot that
    is still empty (here for an object that needs no copy-on-write), and
    [derive], which asserts that the slot is occupied, stops the kernel. *)
Theorem derive_without_slab_panics s h sp idx cap pl t np :
  inv s → holders s !! h = Some sp → cap_valid idx = true →
  caps s !! cspace_get sp idx = Some cap → payloads s !! c_payload cap = Some pl →
  type_id (p_body pl) ≠ MEMORY → bits_implies (c_perm cap) perm.CLONE = true →
  lookup_freeslot sp = Ok t → budget s = 0 →
  (∃ s1, clone h idx s = Fin (Ok t) s1 ∧ caps s1 = caps s) ∧ derive h idx np s = Panic.
Proof.
  intros H Hh Hv Hc Hp Hty Hcl Hf Hb. destruct (ho_live _ (inv_heap _ H) _ _ Hc) as [_ Hc0].
  destruct (lookup_freeslot_ok _ _ Hf) as (_ & Hvt & Hg).
  assert (E : clone h idx s = Fin (Ok t) (set_holders <[h := cspace_put sp t 0]> s)).
  { unfold clone, mbind, M_bind. rewrite (lookup_spec _ _ _ _ Hh), Hv; simpl.
    rewrite (proj2 (Z.eqb_neq _ 0)) by lia. unfold get_cap, deref. rewrite Hc.
    unfold perm_imply. rewrite Hcl; simpl.
    rewrite (holder_freeslot_spec _ _ _ Hh), Hf, (clone_cap_empty _ _ _ Hc Hb).
    unfold attempt, set_slot. rewrite Hvt; simpl. rewrite (space_set_free _ _ sp) by done.
    unfold clone_protect, get_payload, deref, gets, mbind, M_bind; simpl.
    by rewrite Hp, bool_decide_eq_false_2. }
  split; [by eexists|]. unfold derive, mbind, M_bind. rewrite E. unfold attempt.
  rewrite (lookup_spec _ _ (cspace_put sp t 0)) by (simpl; by rewrite lookup_insert_eq).
  by rewrite Hvt, cspace_get_put.
Qed.
End cholder.

(** ** Witnesses

    A payload class with the default methods, no task memory manager, and a
    store with one object, one capability in cell (0, 0) of holder 0, and an
    empty holder 1. *)
Module CapWitness.
#[local] Instance ex_payload : PayloadOps PayloadType unit := {|
  type_id b := b; clone_payload b w := (CloneThis, b, w);
  destruct_payload _ w := w; mem_shared _ := true |}.
#[local] Instance ex_tmm : TmmOps unit := {|
  tmm_active _ := false; protect_memory_cow _ w := (Ok tt, w) |}.

Definition ex_space : CSpace := {[0 := {[0 := 2]}]}.
Definition ex_cap (p : Z) : Cap := mkCap 1 p.
Definition ex_store (p b : Z) : store (B:=PayloadType) (W:=unit) :=
  mkStore {[1 := mkPayload 1 NOTIF]} {[2 := ex_cap p]}
    (<[0 := ex_space]> {[1 := ∅]}) 3 b 2 tt.

Lemma ex_clone_total : clone_total (B:=PayloadType) (W:=unit).
Proof. done. Qed.

Lemma ex_slot p b x c :
  slot_at (holders (ex_store p b)) x = Some c → x = (0, 0, 0) ∧ c = 2.
Proof.
  destruct x as [[h i] j]. unfold slot_at, ex_space; simpl. intros H.
  apply bind_Some in H as (sp & H & H'). apply bind_Some in H' as (g & H' & H'').
  apply lookup_insert_Some in H as [[<- <-]|[? H]].
  - unfold ex_space in H'. apply lookup_singleton_Some in H' as [<- <-].
    by apply lookup_singleton_Some in H'' as [<- <-].
  - apply lookup_singleton_Some in H as [<- <-]. done.
Qed.

Lemma ex_inv p b : 0 <= b < 100 → inv (ex_store p b).
Proof.
  intros Hb. split; [split|split|]; simpl.
  - intros q pl [<- <-]%lookup_singleton_Some; simpl. split; [|lia].
    unfold refs. by rewrite map_filter_singleton_True by done.
  - intros c cap [<- <-]%lookup_singleton_Some; simpl. split; [by eexists|lia].
  - lia.
  - rewrite map_size_singleton. unfold W64. lia.
  - intros x c [-> ->]%(ex_slot p b); simpl. split; [by eexists|]. vm_compute. intuition congruence.
  - intros x y c [-> _]%(ex_slot p b) [-> _]%(ex_slot p b). done.
  - intros c [cap Hc]. apply lookup_singleton_Some in Hc as [<- _]. by exists (0, 0, 0).
  - intros h Hh. rewrite lookup_insert_is_Some in Hh. destruct Hh as [<-|[_ Hh]]; [lia|].
    apply lookup_singleton_is_Some in Hh as <-. lia.
Qed.

Definition ex_idx : Z := cap_make 0 0.

Lemma cap_ops_preserve_inv_witness :
  (∃ r s', run_op (OpTransfer 0 1 ex_idx) (ex_store perm.MIGRATE 5) = Fin r s' ∧ inv s') ∨
  derive_no_slab (ex_store perm.MIGRATE 5) (OpTransfer 0 1 ex_idx) ∧
  run_op (OpTransfer 0 1 ex_idx) (ex_store perm.MIGRATE 5) = Panic.
Proof.
  apply (cap_ops_preserve_inv _ (OpTransfer 0 1 ex_idx)).
  - exact ex_clone_total.
  - apply ex_inv; lia.
  - split; eexists; reflexivity.
Defined.

(** The store after holder 0 derived a clone-only capability. *)
Definition ex_derived : store :=
  match run_op (OpDerive 0 ex_idx perm.CLONE) (ex_store allperm 5) with
  | Fin _ s => s
  | _ => ex_store 0 0
  end.

Lemma ex_derived_step : cap_step (ex_store allperm 5) ex_derived.
Proof.
  exists (OpDerive 0 ex_idx perm.CLONE), (Ok tt).
  split; [eexists; reflexivity|vm_compute; reflexivity].
Qed.

Lemma cap_authority_monotone_witness :
  inv ex_derived ∧ no_amplify (ex_store allperm 5) ex_derived.
Proof.
  apply (cap_authority_monotone (ex_store allperm 5)).
  - exact ex_clone_total.
  - apply ex_inv; lia.
  - apply rtc_once, ex_derived_step.
Defined.

Lemma derive_exact_witness :
  wp (derive 0 ex_idx perm.CLONE) (ex_store allperm 5) (λ r s', inv s' ∧
    derive_post (ex_store allperm 5) 0 ex_space (ex_cap allperm) perm.CLONE r s').
Proof.
  apply (derive_exact (ex_store allperm 5) 0 ex_space ex_idx (ex_cap allperm)).
  - exact ex_clone_total.
  - apply ex_inv; lia.
  - reflexivity.
  - reflexivity.
  - reflexivity.
  - reflexivity.
Defined.


Lemma migrate_once_only_once_witness :
  ∃ s1, transfer_to 0 1 ex_idx (ex_store perm.MIGRATE_ONCE 5) = Fin (Ok (cap_make 0 0)) s1 ∧
    transfer_to 1 0 (cap_make 0 0) s1 = Fin (Err INSUFFICIENT_PERMISSIONS) s1.
Proof.
  eexists. split; [vm_compute; reflexivity|].
  apply (migrate_once_only_once (ex_store perm.MIGRATE_ONCE 5) 0 1 0 ex_idx ex_space ∅
           (ex_cap perm.MIGRATE_ONCE)).
  - exact ex_clone_total.
  - apply ex_inv; lia.
  - reflexivity.
  - reflexivity.
  - reflexivity.
  - reflexivity.
  - reflexivity.
  - reflexivity.
  - vm_compute; reflexivity.
Defined.

Lemma transfer_clone_keeps_migrate_once_witness :
  ∃ s1 cap1, transfer_to 0 1 ex_idx (ex_store allperm 5) = Fin (Ok (cap_make 0 0)) s1 ∧
    caps s1 !! 3 = Some cap1 ∧ bits_implies (c_perm cap1) perm.MIGRATE_ONCE = true.
Proof.
  eexists.
  edestruct (transfer_clone_keeps_migrate_once (ex_store allperm 5) 0 1 ex_idx ex_space ∅
               (ex_cap allperm) (cap_make 0 0)) as (cap1 & H1 & _ & H2).
  - exact ex_clone_total.
  - apply ex_inv; lia.
  - reflexivity.
  - reflexivity.
  - reflexivity.
  - reflexivity.
  - reflexivity.
  - reflexivity.
  - vm_compute; reflexivity.
  - exists cap1. split; [vm_compute; reflexivity|]. split; [exact H1|exact H2].
Defined.

Lemma derive_without_slab_panics_witness :
  derive 0 ex_idx perm.CLONE (ex_store allperm 0) = Panic.
Proof.
  apply (derive_without_slab_panics (ex_store allperm 0) 0 ex_space ex_idx (ex_cap allperm)
           (mkPayload 1 NOTIF) (cap_make 0 1)).
  - apply ex_inv; lia.
  - reflexivity.
  - reflexivity.
  - reflexivity.
  - reflexivity.
  - discriminate.
  - reflexivity.
  - vm_compute; reflexivity.
  - reflexivity.
Defined.
End CapWitness.
