(* ===== verification/Buddy.v ===== *)
(** * The buddy page-frame allocator

    [BuddyAllocator] of kernel/mem/buddy.h and kernel/mem/buddy.cpp.  The free
    blocks of each order are linked in a list sorted by address.  The list
    nodes ([FreeBlock]) do not lie in the free pages; they come from pools of
    512 nodes whose occupancy is a bitmap in the pool's header.  When the pools
    run low the allocator takes four pages from itself for a new pool, so
    allocation of a node and allocation of a block are mutually recursive.

    A pointer to a node or a pool is its physical address; the doubly linked
    list of one order is the list of its nodes, and the chain of pools is the
    list of pools with the tail last.  Addresses are PA-scoped and the
    constructor's scope assertion is kept where the code builds one. *)
From stdpp Require Import sorting.
From S2P Require Import Prelude ErrCode Addr.

Module Buddy.

Definition MAX_BUDDY_ORDER : Z := 15.
Definition FREEBLOCK_POOL_SIZE : Z := 512.
Definition FREEBLOCK_EXPAND_PAGES : Z := 4.
Definition FREEBLOCK_HEADER_BLOCKS : Z := 4.
Definition FREEBLOCK_BITS_PER_WORD : Z := 64.
(** [sizeof(FreeBlock)]: an address, a size and two pointers. *)
Definition SIZEOF_FREEBLOCK : Z := 32.

Record FreeBlock := mkBlock { b_node : Z; b_paddr : Z; b_order : Z }.
Record FreeBlockPool := mkPool { p_pa : Z; p_bitmap : list Z; p_used : Z }.
Record buddy := mkBuddy {
  pools : list FreeBlockPool;
  free_area : list (list FreeBlock);
  free_pages : Z;
  (** the copy in [env::system_memory_info] *)
  mem_free_pages : Z
}.

#[export] Instance FreeBlock_eq_dec : EqDecision FreeBlock.
Proof. solve_decision. Defined.

Definition set_pools ps s := mkBuddy ps (free_area s) (free_pages s) (mem_free_pages s).
Definition set_free_area fa s := mkBuddy (pools s) fa (free_pages s) (mem_free_pages s).
Definition set_free_pages n s := mkBuddy (pools s) (free_area s) n n.

Definition area (s : buddy) (o : Z) : list FreeBlock := default [] (free_area s !! Z.to_nat o).
Definition set_area (o : Z) (f : list FreeBlock → list FreeBlock) (s : buddy) : buddy :=
  set_free_area (alter f (Z.to_nat o) (free_area s)) s.

(** [PhyAddr(x)] and [addr + n] assert the scope of the result. *)
Definition phy_addr (a : Z) : M buddy Z :=
  match mk_addr PA a with Some a => mret a | None => panic end.
Definition addr_add (a n : Z) : M buddy Z := phy_addr (add64 a n).

(** ** Orders *)

Fixpoint pages2order_loop (k : nat) (order count : Z) : Z :=
  match k with
  | O => order
  | S k =>
      if order <=? MAX_BUDDY_ORDER then
        if count <=? shl64 1 order then order else pages2order_loop k (order + 1) count
      else order
  end.
Definition pages2order (count : Z) : Z :=
  if count =? 1 then 0
  else if count =? 2 then 1
  else if (count =? 3) || (count =? 4) then 2
  else pages2order_loop 13 3 count.

Definition block_size_for_order (order : Z) : Z := shl64 1 (order + 12).

(** ** Node pools *)

Definition bitmap_word (bitmap : list Z) (idx : Z) : Z :=
  default 0 (bitmap !! Z.to_nat (idx / FREEBLOCK_BITS_PER_WORD)).
Definition test_bitmap_bit (bitmap : list Z) (idx : Z) : bool :=
  negb (Z.land (bitmap_word bitmap idx) (shl64 1 (idx mod FREEBLOCK_BITS_PER_WORD)) =? 0).
Definition set_bitmap_bit (bitmap : list Z) (idx : Z) : list Z :=
  alter (λ w, Z.lor w (shl64 1 (idx mod FREEBLOCK_BITS_PER_WORD)))
    (Z.to_nat (idx / FREEBLOCK_BITS_PER_WORD)) bitmap.
Definition clear_bitmap_bit (bitmap : list Z) (idx : Z) : list Z :=
  alter (λ w, Z.land w (not64 (shl64 1 (idx mod FREEBLOCK_BITS_PER_WORD))))
    (Z.to_nat (idx / FREEBLOCK_BITS_PER_WORD)) bitmap.

(** [init_pool]: the header's four node slots are taken. *)
Definition init_pool (pool_paddr : Z) : FreeBlockPool :=
  mkPool pool_paddr (foldl set_bitmap_bit (replicate 8 0) (seqZ 0 FREEBLOCK_HEADER_BLOCKS))
    FREEBLOCK_HEADER_BLOCKS.

Definition attach_pool (p : FreeBlockPool) : M buddy unit :=
  modify (λ s, set_pools (pools s ++ [p]) s).

Definition pool_needs_expand (p : FreeBlockPool) : bool := FREEBLOCK_POOL_SIZE * 3 <? p_used p * 4.

(** The bitmap scan: the first clear bit of [idx .. 511]. *)
Fixpoint scan_bitmap (k : nat) (idx : Z) (bitmap : list Z) : option Z :=
  match k with
  | O => None
  | S k => if test_bitmap_bit bitmap idx then scan_bitmap k (idx + 1) bitmap else Some idx
  end.
Definition find_slot (p : FreeBlockPool) : option Z :=
  scan_bitmap (Z.to_nat (FREEBLOCK_POOL_SIZE - FREEBLOCK_HEADER_BLOCKS))
    FREEBLOCK_HEADER_BLOCKS (p_bitmap p).
Definition node_addr (p : FreeBlockPool) (idx : Z) : Z := p_pa p + idx * SIZEOF_FREEBLOCK.
Definition mark_slot (p : FreeBlockPool) (idx : Z) : FreeBlockPool :=
  mkPool (p_pa p) (set_bitmap_bit (p_bitmap p) idx) (p_used p + 1).

(** The loop of [alloc_freeblock] over the chain of pools. *)
Fixpoint alloc_pools (ps : list FreeBlockPool) : option (Z * list FreeBlockPool) :=
  match ps with
  | [] => None
  | p :: ps =>
      let next := '(n, ps') ← alloc_pools ps; Some (n, p :: ps') in
      if FREEBLOCK_POOL_SIZE <=? p_used p then next
      else match find_slot p with
           | Some idx => Some (node_addr p idx, mark_slot p idx :: ps)
           | None => next
           end
  end.

(** After an expansion: the same scan on the tail pool. *)
Definition alloc_tail (ps : list FreeBlockPool) : option (Z * list FreeBlockPool) :=
  p ← last ps;
  idx ← find_slot p;
  Some (node_addr p idx, <[pred (length ps) := mark_slot p idx]> ps).

(** The loop of [free_freeblock]: the pool whose range holds the node. *)
Fixpoint free_pools (node : Z) (ps : list FreeBlockPool) : M buddy (list FreeBlockPool) :=
  match ps with
  | [] => panic
  | p :: ps =>
      if (node <? p_pa p) || (p_pa p + FREEBLOCK_POOL_SIZE * SIZEOF_FREEBLOCK <=? node) then
        ps' ← free_pools node ps; mret (p :: ps')
      else
        let idx := (node - p_pa p) / SIZEOF_FREEBLOCK in
        _ ← massert (FREEBLOCK_HEADER_BLOCKS <=? idx);
        _ ← massert (test_bitmap_bit (p_bitmap p) idx);
        mret (mkPool (p_pa p) (clear_bitmap_bit (p_bitmap p) idx) (p_used p - 1) :: ps)
  end.
Definition free_freeblock (node : Z) : M buddy unit :=
  ps ← gets pools;
  ps' ← free_pools node ps;
  modify (set_pools ps').

(** ** The lists of free blocks *)

(** The loop of [link_block] behind the head. *)
Fixpoint link_after (b : FreeBlock) (l : list FreeBlock) : list FreeBlock :=
  match l with
  | [] => [b]
  | x :: l' => if b_paddr x <? b_paddr b then x :: link_after b l' else b :: l
  end.
Definition link (b : FreeBlock) (l : list FreeBlock) : list FreeBlock :=
  match l with
  | [] => [b]
  | h :: t => if b_paddr b <? b_paddr h then b :: l else h :: link_after b t
  end.
Definition link_block (b : FreeBlock) : M buddy unit := modify (set_area (b_order b) (link b)).

Fixpoint unlink (node : Z) (l : list FreeBlock) : list FreeBlock :=
  match l with
  | [] => []
  | x :: l => if b_node x =? node then l else x :: unlink node l
  end.
Definition unlink_block (b : FreeBlock) : M buddy unit :=
  modify (set_area (b_order b) (unlink (b_node b))).

(** [node->prev] and [node->next] *)
Fixpoint neighbours (prev : option FreeBlock) (node : Z) (l : list FreeBlock)
    : option FreeBlock * option FreeBlock :=
  match l with
  | [] => (None, None)
  | x :: l => if b_node x =? node then (prev, head l) else neighbours (Some x) node l
  end.
Definition is_block (paddr order : Z) (b : option FreeBlock) : bool :=
  match b with
  | Some b => (b_paddr b =? paddr) && (b_order b =? order)
  | None => false
  end.
Definition find_buddy_node (b : FreeBlock) : M buddy (option FreeBlock) :=
  let order := b_order b in
  if MAX_BUDDY_ORDER <? order then mret None
  else
    let size := block_size_for_order order in
    buddy_paddr ← phy_addr (Z.lxor (b_paddr b) size);
    l ← gets (λ s, area s order);
    let '(prev, next) := neighbours None (b_node b) l in
    mret (if is_block buddy_paddr order prev then prev
          else if is_block buddy_paddr order next then next
          else None).

(** ** Blocks in and out

    [add_new_pool] is the recursive call that a node allocation makes when
    every pool is full. *)
Section expand.
Variable add_new_pool : M buddy unit.

Definition alloc_freeblock : M buddy Z :=
  ps ← gets pools;
  match alloc_pools ps with
  | Some (n, ps') => _ ← modify (set_pools ps'); mret n
  | None =>
      _ ← add_new_pool;
      ps ← gets pools;
      match alloc_tail ps with
      | Some (n, ps') => _ ← modify (set_pools ps'); mret n
      | None => fail OUT_OF_MEMORY
      end
  end.

(** The merge loop of [put_page_in_order]; one round per order. *)
Fixpoint put_loop (k : nat) (current_paddr current_order : Z) : M buddy unit :=
  match k with
  | O => no_fuel
  | S k =>
      if negb (current_order <=? MAX_BUDDY_ORDER) then mret tt
      else
        node_res ← attempt alloc_freeblock;
        match node_res with
        | Err _ => panic
        | Ok n =>
            let node := mkBlock n current_paddr current_order in
            _ ← link_block node;
            if current_order =? MAX_BUDDY_ORDER then mret tt
            else
              buddy ← find_buddy_node node;
              match buddy with
              | None => mret tt
              | Some b =>
                  let merged_paddr :=
                    if b_paddr b <? current_paddr then b_paddr b else current_paddr in
                  _ ← unlink_block node;
                  _ ← unlink_block b;
                  _ ← free_freeblock (b_node node);
                  _ ← free_freeblock (b_node b);
                  put_loop k merged_paddr (current_order + 1)
              end
        end
  end.

Definition put_page_in_order (paddr order : Z) : M buddy unit :=
  if negb (nonnull paddr) then mret tt
  else
    _ ← massert (0 <=? order);
    _ ← massert (order <=? MAX_BUDDY_ORDER);
    _ ← massert (aligned paddr (block_size_for_order order));
    put_loop (Z.to_nat (MAX_BUDDY_ORDER + 2 - order)) paddr order.

(** The first order from [cur] on with a free block. *)
Fixpoint find_order (k : nat) (cur : Z) (s : buddy) : Z :=
  match k with
  | O => cur
  | S k =>
      if cur <=? MAX_BUDDY_ORDER then
        match area s cur with [] => find_order k (cur + 1) s | _ => cur end
      else cur
  end.

(** The split loop of [fetch_frame_order]. *)
Fixpoint split_loop (k : nat) (current_order order paddr : Z) : M buddy unit :=
  match k with
  | O => mret tt
  | S k =>
      let current_order := current_order - 1 in
      let size := block_size_for_order current_order in
      buddy_paddr ← addr_add paddr size;
      _ ← put_page_in_order buddy_paddr current_order;
      split_loop k current_order order paddr
  end.

Definition fetch_frame_order (order : Z) : M buddy Z :=
  current_order ← gets (find_order (Z.to_nat (MAX_BUDDY_ORDER + 1)) order);
  if MAX_BUDDY_ORDER <? current_order then fail OUT_OF_MEMORY
  else
    l ← gets (λ s, area s current_order);
    match l with
    | [] => panic
    | node :: _ =>
        _ ← unlink_block node;
        _ ← free_freeblock (b_node node);
        _ ← split_loop (Z.to_nat (current_order - order)) current_order order (b_paddr node);
        mret (b_paddr node)
    end.
End expand.

(** [add_new_pool].  A nested expansion happens only while every pool is full,
    and each level takes a smaller block, so the nesting is bounded by the
    number of orders. *)
Fixpoint add_new_pool (fuel : nat) : M buddy unit :=
  match fuel with
  | O => no_fuel
  | S fuel =>
      pool_paddr ← fetch_frame_order (add_new_pool fuel) (pages2order FREEBLOCK_EXPAND_PAGES);
      match convert KPA PA pool_paddr with
      | None => panic
      | Some _ => attach_pool (init_pool pool_paddr)
      end
  end.
Definition EXPAND_FUEL : nat := 16.
Definition expand : M buddy unit := add_new_pool EXPAND_FUEL.

Definition maybe_expand_pool : M buddy unit :=
  ps ← gets pools;
  match last ps with
  | None => mret tt
  | Some p => if pool_needs_expand p then expand else mret tt
  end.

(** The order loop of [add_memory_range]: the largest aligned block that fits. *)
Fixpoint range_order (k : nat) (order addr remain : Z) : Z :=
  match k with
  | O => order
  | S k =>
      let try_pages := shl64 1 (order + 1) in
      if (try_pages <=? remain) && aligned addr (shl64 try_pages 12)
      then range_order k (order + 1) addr remain else order
  end.
Fixpoint add_range_loop (k : nat) (addr remain : Z) : M buddy unit :=
  match k with
  | O => no_fuel
  | S k =>
      if negb (0 <? remain) then mret tt
      else
        let order := range_order (Z.to_nat MAX_BUDDY_ORDER) 0 addr remain in
        _ ← put_page_in_order expand addr order;
        let block_pages := shl64 1 order in
        add_range_loop k (add64 addr (shl64 block_pages 12)) (sub64 remain block_pages)
  end.
(** Each round takes at least one page. *)
Definition add_memory_range (paddr pages : Z) : M buddy unit :=
  add_range_loop (S (Z.to_nat pages)) paddr pages.

(** ** The allocator's interface *)

Definition pre_init (pool0 : Z) : buddy :=
  mkBuddy [init_pool pool0] (replicate 16 []) 0 0.

Definition get_free_page (frame_count : Z) : M buddy Z :=
  if frame_count =? 0 then fail INVALID_PARAM
  else if shl64 1 MAX_BUDDY_ORDER <? frame_count then fail INVALID_PARAM
  else
    let order := pages2order frame_count in
    paddr ← fetch_frame_order expand order;
    let pages := shl64 1 order in
    _ ← (if frame_count <? pages
         then start ← addr_add paddr (mul64 frame_count PAGESIZE);
              add_memory_range start (pages - frame_count)
         else mret tt);
    n ← gets free_pages;
    _ ← massert (frame_count <=? n);
    _ ← modify (set_free_pages (n - frame_count));
    _ ← maybe_expand_pool;
    mret paddr.

Definition get_free_pages_in_order (order : Z) : M buddy Z :=
  if MAX_BUDDY_ORDER <? order then fail INVALID_PARAM
  else fetch_frame_order expand order.

Definition put_page (paddr frame_count : Z) : M buddy unit :=
  if negb (nonnull paddr) || (frame_count =? 0) then mret tt
  else
    _ ← massert (aligned paddr PAGESIZE);
    _ ← modify (λ s, set_free_pages (add64 (free_pages s) frame_count) s);
    add_memory_range paddr frame_count.

(** ** Bitmaps and pools *)

Lemma shl64_1 n : 0 <= n < 64 → shl64 1 n = 2 ^ n.
Proof.
  intros H. unfold shl64. rewrite Z.shiftl_1_l. apply wrap64_small.
  unfold is_u64, W64. split; [apply Z.pow_nonneg; lia|apply Z.pow_lt_mono_r; lia].
Qed.

Lemma test_bit_spec bm i :
  0 <= i → test_bitmap_bit bm i = Z.testbit (bitmap_word bm i) (i mod 64).
Proof.
  intros Hi. unfold test_bitmap_bit, FREEBLOCK_BITS_PER_WORD.
  pose proof (Z.mod_pos_bound i 64 ltac:(lia)). rewrite shl64_1 by lia.
  set (w := bitmap_word bm i). set (n := i mod 64) in *.
  destruct (Z.testbit w n) eqn:E.
  - apply negb_true_iff, Z.eqb_neq. intros H0.
    assert (H1 : Z.testbit (Z.land w (2 ^ n)) n = true)
      by (rewrite Z.land_spec, E, Z.pow2_bits_true by lia; done).
    rewrite H0, Z.testbit_0_l in H1. done.
  - apply negb_false_iff, Z.eqb_eq, Z.bits_inj'. intros m Hm.
    rewrite Z.land_spec, Z.testbit_0_l, Z.pow2_bits_eqb by lia.
    destruct (Z.eqb_spec n m) as [<-|]; [by rewrite E|apply andb_false_r].
Qed.

Definition bitmap_ok (bm : list Z) : Prop := length bm = 8%nat ∧ Forall is_u64 bm.

Lemma bitmap_alter_word bm (f : Z → Z) i j :
  bitmap_ok bm → 0 <= i < 512 → 0 <= j < 512 →
  bitmap_word (alter f (Z.to_nat (i / 64)) bm) j =
  if i / 64 =? j / 64 then f (bitmap_word bm j) else bitmap_word bm j.
Proof.
  intros [Hl _] Hi Hj. unfold bitmap_word, FREEBLOCK_BITS_PER_WORD.
  destruct (Z.eqb_spec (i / 64) (j / 64)) as [->|Hne].
  - rewrite list_lookup_alter_eq. destruct (lookup_lt_is_Some_2 bm (Z.to_nat (j / 64))) as [w ->]; [|done].
    rewrite Hl. pose proof (Z.div_lt_upper_bound j 64 8). pose proof (Z.div_pos j 64). lia.
  - rewrite list_lookup_alter_ne; [done|]. intros H. apply Hne.
    pose proof (Z.div_pos i 64). pose proof (Z.div_pos j 64). lia.
Qed.

Lemma idx_split i j : i / 64 = j / 64 → i mod 64 = j mod 64 → i = j.
Proof. intros. pose proof (Z.div_mod i 64). pose proof (Z.div_mod j 64). lia. Qed.

Lemma test_set_bit bm i j :
  bitmap_ok bm → 0 <= i < 512 → 0 <= j < 512 →
  test_bitmap_bit (set_bitmap_bit bm i) j = (i =? j) || test_bitmap_bit bm j.
Proof.
  intros Hb Hi Hj. rewrite !test_bit_spec by lia. unfold set_bitmap_bit, FREEBLOCK_BITS_PER_WORD.
  rewrite bitmap_alter_word by done.
  pose proof (Z.mod_pos_bound i 64 ltac:(lia)). pose proof (Z.mod_pos_bound j 64 ltac:(lia)).
  rewrite shl64_1 by lia. destruct (Z.eqb_spec i j) as [->|Hne].
  - rewrite Z.eqb_refl, Z.lor_spec, Z.pow2_bits_true by lia. by rewrite orb_true_r.
  - destruct (Z.eqb_spec (i / 64) (j / 64)) as [E|]; [|done].
    rewrite Z.lor_spec, Z.pow2_bits_false; [by rewrite orb_false_r|].
    intros E2. by apply Hne, idx_split.
Qed.

Lemma bitmap_word_u64 bm i : bitmap_ok bm → is_u64 (bitmap_word bm i).
Proof.
  intros [_ H]. unfold bitmap_word. destruct (bm !! _) eqn:E; simpl; [|done].
  by eapply Forall_lookup_1.
Qed.

Lemma is_u64_pow2 n : 0 <= n < 64 → is_u64 (2 ^ n).
Proof. intros. unfold is_u64, W64. split; [apply Z.pow_nonneg; lia|apply Z.pow_lt_mono_r; lia]. Qed.

Lemma test_clear_bit bm i j :
  bitmap_ok bm → 0 <= i < 512 → 0 <= j < 512 →
  test_bitmap_bit (clear_bitmap_bit bm i) j = negb (i =? j) && test_bitmap_bit bm j.
Proof.
  intros Hb Hi Hj. rewrite !test_bit_spec by lia. unfold clear_bitmap_bit, FREEBLOCK_BITS_PER_WORD.
  rewrite bitmap_alter_word by done.
  pose proof (Z.mod_pos_bound i 64 ltac:(lia)). pose proof (Z.mod_pos_bound j 64 ltac:(lia)).
  rewrite shl64_1 by lia. destruct (bitmap_word_u64 bm j Hb) as [Hw0 Hw1].
  destruct (Z.eqb_spec i j) as [->|Hne].
  - rewrite Z.eqb_refl, land_not64; [|done|done|by apply is_u64_pow2].
    by rewrite Z.ldiff_spec, Z.pow2_bits_true, andb_false_r by lia.
  - destruct (Z.eqb_spec (i / 64) (j / 64)) as [E|]; [|done].
    rewrite land_not64; [|done|done|by apply is_u64_pow2].
    rewrite Z.ldiff_spec, Z.pow2_bits_false; [by rewrite andb_true_r|].
    intros E2. by apply Hne, idx_split.
Qed.

Lemma is_u64_lor a b : is_u64 a → is_u64 b → is_u64 (Z.lor a b).
Proof.
  unfold is_u64. intros [Ha0 Ha] [Hb0 Hb]. split; [by apply Z.lor_nonneg|].
  destruct (Z.eq_dec a 0) as [->|]; [by rewrite Z.lor_0_l|].
  destruct (Z.eq_dec b 0) as [->|]; [by rewrite Z.lor_0_r|].
  assert (0 < Z.lor a b).
  { assert (0 <= Z.lor a b) by by apply Z.lor_nonneg.
    assert (Z.lor a b ≠ 0) by (intros [? _]%Z.lor_eq_0_iff; done). lia. }
  unfold W64 in *. apply Z.log2_lt_pow2; [done|]. rewrite Z.log2_lor by done.
  apply Z.max_lub_lt; apply Z.log2_lt_pow2; lia.
Qed.

Lemma is_u64_land a b : is_u64 a → 0 <= b → is_u64 (Z.land a b).
Proof.
  unfold is_u64. intros [Ha0 Ha] Hb. split; [by apply Z.land_nonneg; left|].
  destruct (Z.eq_dec (Z.land a b) 0) as [->|]; [done|].
  assert (0 <= Z.land a b) by (apply Z.land_nonneg; by left).
  assert (0 < a) by (destruct (Z.eq_dec a 0) as [->|]; [by rewrite Z.land_0_l in *|lia]).
  unfold W64 in *. apply Z.log2_lt_pow2; [lia|].
  eapply Z.le_lt_trans; [by apply Z.log2_land|]. eapply Z.le_lt_trans; [apply Z.le_min_l|].
  by apply Z.log2_lt_pow2.
Qed.

Lemma bitmap_ok_alter bm f k :
  bitmap_ok bm → (∀ w, is_u64 w → is_u64 (f w)) → bitmap_ok (alter f k bm).
Proof.
  intros [Hl Hf] H. split; [by rewrite length_alter|]. apply Forall_lookup_2. intros j w.
  destruct (decide (k = j)) as [->|].
  - rewrite list_lookup_alter_eq. intros (w0 & E & ->)%fmap_Some. apply H. by eapply Forall_lookup_1.
  - rewrite list_lookup_alter_ne by done. by apply Forall_lookup_1.
Qed.

Lemma bitmap_ok_set bm i : bitmap_ok bm → bitmap_ok (set_bitmap_bit bm i).
Proof.
  intros H. apply bitmap_ok_alter; [done|]. intros w Hw. apply is_u64_lor; [done|].
  unfold shl64. apply wrap64_range.
Qed.

Lemma bitmap_ok_clear bm i : bitmap_ok bm → bitmap_ok (clear_bitmap_bit bm i).
Proof.
  intros H. apply bitmap_ok_alter; [done|]. intros w Hw. apply is_u64_land; [done|].
  unfold not64, shl64. pose proof (wrap64_range (Z.shiftl 1 (i mod FREEBLOCK_BITS_PER_WORD))) as Hr.
  unfold is_u64 in Hr. lia.
Qed.

(** The node slots in use, and the nodes they hold. *)
Definition used_idx (bm : list Z) : list Z :=
  filter (λ i, test_bitmap_bit bm i = true) (seqZ FREEBLOCK_HEADER_BLOCKS 508).
Definition pool_nodes (p : FreeBlockPool) : list Z := node_addr p <$> used_idx (p_bitmap p).
Definition all_nodes (ps : list FreeBlockPool) : list Z := ps ≫= pool_nodes.

Record pool_wf (p : FreeBlockPool) : Prop := {
  pw_bitmap : bitmap_ok (p_bitmap p);
  pw_used : p_used p = FREEBLOCK_HEADER_BLOCKS + Z.of_nat (length (used_idx (p_bitmap p)));
}.

(** Free node slots. *)
Definition pool_room (p : FreeBlockPool) : Z := FREEBLOCK_POOL_SIZE - p_used p.
Definition room (ps : list FreeBlockPool) : Z := foldr (λ p n, pool_room p + n) 0 ps.

Lemma elem_used_idx bm i : i ∈ used_idx bm ↔ test_bitmap_bit bm i = true ∧ 4 <= i < 512.
Proof. unfold used_idx, FREEBLOCK_HEADER_BLOCKS. rewrite list_elem_of_filter, elem_of_seqZ.
  split; intros [? ?]; (split; [done|lia]).
Qed.

Lemma NoDup_used_idx bm : NoDup (used_idx bm).
Proof. apply NoDup_filter, NoDup_seqZ. Qed.

Lemma used_idx_set bm i :
  bitmap_ok bm → 4 <= i < 512 → test_bitmap_bit bm i = false →
  used_idx (set_bitmap_bit bm i) ≡ₚ i :: used_idx bm.
Proof.
  intros Hb Hi Ht. apply NoDup_Permutation.
  - apply NoDup_used_idx.
  - apply NoDup_cons. split; [|apply NoDup_used_idx]. rewrite elem_used_idx. intros [? _]. congruence.
  - intros j. rewrite elem_of_cons, !elem_used_idx. split.
    + intros [H Hj]. rewrite test_set_bit in H by (done || lia).
      apply orb_true_iff in H as [->%Z.eqb_eq|]; [by left|by right].
    + intros [->|[H Hj]]; (split; [|lia]); rewrite test_set_bit by (done || lia).
      * by rewrite Z.eqb_refl.
      * by rewrite H, orb_true_r.
Qed.

Lemma used_idx_clear bm i :
  bitmap_ok bm → 4 <= i < 512 → test_bitmap_bit bm i = true →
  used_idx bm ≡ₚ i :: used_idx (clear_bitmap_bit bm i).
Proof.
  intros Hb Hi Ht. apply NoDup_Permutation.
  - apply NoDup_used_idx.
  - apply NoDup_cons. split; [|apply NoDup_used_idx]. rewrite elem_used_idx. intros [H _].
    rewrite test_clear_bit, Z.eqb_refl in H by (done || lia). done.
  - intros j. rewrite elem_of_cons, !elem_used_idx. split.
    + intros [H Hj]. destruct (Z.eq_dec i j) as [->|Hne]; [by left|right]. split; [|done].
      rewrite test_clear_bit by (done || lia). by rewrite (proj2 (Z.eqb_neq i j)), H.
    + intros [->|[H Hj]]; [done|]. split; [|lia]. rewrite test_clear_bit in H by (done || lia).
      by apply andb_true_iff in H as [_ ?].
Qed.

Lemma mark_slot_wf p i :
  pool_wf p → 4 <= i < 512 → test_bitmap_bit (p_bitmap p) i = false →
  pool_wf (mark_slot p i) ∧ pool_nodes (mark_slot p i) ≡ₚ node_addr p i :: pool_nodes p.
Proof.
  intros [Hb Hu] Hi Ht. pose proof (used_idx_set _ _ Hb Hi Ht) as Hp. split.
  - split; simpl; [by apply bitmap_ok_set|]. rewrite (Permutation_length Hp). simpl. lia.
  - unfold pool_nodes. simpl. by rewrite Hp.
Qed.

Lemma scan_bitmap_spec k idx bm :
  match scan_bitmap k idx bm with
  | Some i => idx <= i < idx + Z.of_nat k ∧ test_bitmap_bit bm i = false
  | None => ∀ i, idx <= i < idx + Z.of_nat k → test_bitmap_bit bm i = true
  end.
Proof.
  revert idx. induction k as [|k IH]; intros idx; cbn [scan_bitmap]; [lia|].
  destruct (test_bitmap_bit bm idx) eqn:E; [|by split; [lia|]].
  specialize (IH (idx + 1)). destruct (scan_bitmap k (idx + 1) bm) as [i|].
  - destruct IH. split; [lia|done].
  - intros i Hi. destruct (Z.eq_dec i idx) as [->|]; [done|]. apply IH. lia.
Qed.

Lemma filter_all {A} (P : A → Prop) `{!∀ x, Decision (P x)} (l : list A) :
  Forall P l → filter P l = l.
Proof. induction 1 as [|x l Hx _ IH]; [done|]. by rewrite filter_cons_True, IH. Qed.

Lemma find_slot_spec p :
  pool_wf p → 0 < pool_room p →
  ∃ i, find_slot p = Some i ∧ 4 <= i < 512 ∧ test_bitmap_bit (p_bitmap p) i = false.
Proof.
  intros [Hb Hu] Hr. unfold find_slot.
  pose proof (scan_bitmap_spec (Z.to_nat (FREEBLOCK_POOL_SIZE - FREEBLOCK_HEADER_BLOCKS))
                FREEBLOCK_HEADER_BLOCKS (p_bitmap p)) as H.
  unfold pool_room, FREEBLOCK_POOL_SIZE, FREEBLOCK_HEADER_BLOCKS in *.
  destruct (scan_bitmap _ _ _) as [i|].
  - exists i. destruct H. split_and!; [done|lia|lia|done].
  - exfalso. assert (E : used_idx (p_bitmap p) = seqZ 4 508).
    { unfold used_idx. apply filter_all, Forall_forall. intros i Hi%elem_of_seqZ. apply H. lia. }
    rewrite E, length_seqZ in Hu. lia.
Qed.

Lemma pool_room_nonneg p : pool_wf p → 0 <= pool_room p.
Proof.
  intros [_ Hu]. unfold pool_room. rewrite Hu. unfold used_idx.
  pose proof (length_filter (λ i, test_bitmap_bit (p_bitmap p) i = true) (seqZ FREEBLOCK_HEADER_BLOCKS 508)) as Hl.
  rewrite length_seqZ in Hl. unfold FREEBLOCK_POOL_SIZE, FREEBLOCK_HEADER_BLOCKS in *. lia.
Qed.

Lemma room_nonneg ps : Forall pool_wf ps → 0 <= room ps.
Proof. induction 1 as [|p ps Hp _ IH]; simpl; [done|]. pose proof (pool_room_nonneg p Hp). lia. Qed.

(** Node allocation from pools with a free slot. *)
Lemma alloc_pools_spec ps :
  Forall pool_wf ps → 0 < room ps →
  ∃ n ps', alloc_pools ps = Some (n, ps') ∧ Forall pool_wf ps' ∧
    all_nodes ps' ≡ₚ n :: all_nodes ps ∧ p_pa <$> ps' = p_pa <$> ps ∧ room ps' = room ps - 1.
Proof.
  induction 1 as [|p ps Hp Hps IH]; simpl; [lia|]. intros Hr.
  pose proof (pool_room_nonneg p Hp) as Hnn.
  destruct (Z.leb_spec FREEBLOCK_POOL_SIZE (p_used p)) as [Hfull|Hfree].
  - destruct IH as (n & ps' & -> & Hwf & Hperm & Hpa & Hroom).
    { unfold pool_room in *. lia. }
    simpl. exists n, (p :: ps'). split_and!; [done|by constructor| |by rewrite fmap_cons, Hpa|simpl; lia].
    unfold all_nodes in *. rewrite !bind_cons, Hperm. by rewrite Permutation_middle.
  - destruct (find_slot_spec p Hp) as (i & -> & Hi & Ht); [unfold pool_room; lia|].
    destruct (mark_slot_wf p i Hp Hi Ht) as [Hwf Hperm].
    eexists _, _. split_and!; [done|by constructor| |done|simpl; unfold pool_room; simpl; lia].
    unfold all_nodes. rewrite !bind_cons, Hperm. done.
Qed.

(** ** Who owns an address

    [ind a (p, n)] is 1 when [a] lies in [p .. p+n); [cov a l] counts the ranges
    of [l] that hold [a].  Disjointness is [cov a l <= 1] for every [a], and
    splitting, merging and moving ranges are equations between counts. *)
Definition ind (a : Z) (r : Z * Z) : Z := if (r.1 <=? a) && (a <? r.1 + r.2) then 1 else 0.
Definition cov (a : Z) (l : list (Z * Z)) : Z := foldr (λ r n, ind a r + n) 0 l.

Lemma ind_spec a p n :
  (p <= a < p + n ∧ ind a (p, n) = 1) ∨ ((a < p ∨ p + n <= a) ∧ ind a (p, n) = 0).
Proof. unfold ind; simpl. destruct (Z.leb_spec p a), (Z.ltb_spec a (p + n)); simpl; lia. Qed.

(** Decide every [ind] of the goal. *)
Ltac ind_cases :=
  repeat match goal with
  | |- context [ind ?a (?p, ?n)] =>
      lazymatch goal with
      | _ : context [ind a (p, n) = 1] |- _ => fail
      | _ => pose proof (ind_spec a p n)
      end
  end.

Lemma ind_nonneg a r : 0 <= ind a r.
Proof. unfold ind. by destruct (_ && _). Qed.
Lemma cov_nonneg a l : 0 <= cov a l.
Proof. induction l as [|r l IH]; simpl; [done|]. pose proof (ind_nonneg a r). lia. Qed.
Lemma cov_app a l1 l2 : cov a (l1 ++ l2) = cov a l1 + cov a l2.
Proof. induction l1 as [|r l IH]; simpl; lia. Qed.

#[global] Instance cov_perm a : Proper ((≡ₚ) ==> (=)) (cov a).
Proof. induction 1; simpl; lia. Qed.

Lemma cov_elem a r l : r ∈ l → ind a r <= cov a l.
Proof.
  induction 1 as [|r r' l _ IH]; simpl; [pose proof (cov_nonneg a l)|pose proof (ind_nonneg a r')]; lia.
Qed.

Lemma ind_split a p n m : 0 <= n → 0 <= m → ind a (p, n + m) = ind a (p, n) + ind a (p + n, m).
Proof. intros. ind_cases. lia. Qed.

Definition prange (p : FreeBlockPool) : Z * Z := (p_pa p, FREEBLOCK_POOL_SIZE * SIZEOF_FREEBLOCK).

Lemma prange_fmap (ps ps' : list FreeBlockPool) : p_pa <$> ps' = p_pa <$> ps → prange <$> ps' = prange <$> ps.
Proof.
  revert ps'. induction ps as [|p ps IH]; intros [|p' ps'] H; simplify_eq/=; [done|].
  unfold prange at 1 3. by rewrite H, IH.
Qed.

Lemma elem_pool_nodes p n :
  n ∈ pool_nodes p ↔ ∃ i, n = node_addr p i ∧ test_bitmap_bit (p_bitmap p) i = true ∧ 4 <= i < 512.
Proof.
  unfold pool_nodes. rewrite list_elem_of_fmap.
  split; intros (i & -> & H); exists i; [by rewrite elem_used_idx in H|by rewrite elem_used_idx].
Qed.

Lemma node_in_range p n : n ∈ pool_nodes p → ind n (prange p) = 1.
Proof.
  intros (i & -> & _ & Hi)%elem_pool_nodes. unfold prange, node_addr.
  unfold FREEBLOCK_POOL_SIZE, SIZEOF_FREEBLOCK. ind_cases. lia.
Qed.

(** [free_freeblock] finds the node's pool and none of its assertions fails. *)
Lemma free_pools_spec n ps s :
  Forall pool_wf ps → cov n (prange <$> ps) <= 1 → n ∈ all_nodes ps →
  ∃ ps', free_pools n ps s = Fin (Ok ps') s ∧ Forall pool_wf ps' ∧
    all_nodes ps ≡ₚ n :: all_nodes ps' ∧ p_pa <$> ps' = p_pa <$> ps ∧ room ps' = room ps + 1.
Proof.
  induction 1 as [|p ps Hp Hps IH]; [by intros _ ?%not_elem_of_nil|].
  intros Hc Hn. unfold all_nodes in Hn. rewrite bind_cons in Hn.
  change (ind n (prange p) + cov n (prange <$> ps) <= 1) in Hc. pose proof (cov_nonneg n (prange <$> ps)) as H0. pose proof (ind_nonneg n (prange p)) as H1.
  unfold FREEBLOCK_POOL_SIZE, SIZEOF_FREEBLOCK in *. apply elem_of_app in Hn as [Hn|Hn].
  - clear IH. apply elem_pool_nodes in Hn as (i & -> & Ht & Hi).
    cbn [free_pools]. unfold node_addr, FREEBLOCK_POOL_SIZE, SIZEOF_FREEBLOCK.
    rewrite (proj2 (Z.ltb_ge _ _)), (proj2 (Z.leb_gt _ _)) by lia. cbn [orb].
    replace (p_pa p + i * 32 - p_pa p) with (i * 32) by lia. rewrite Z.div_mul by lia.
    unfold FREEBLOCK_HEADER_BLOCKS. rewrite (proj2 (Z.leb_le 4 i)), Ht by lia.
    unfold mbind, M_bind, massert, mret, M_ret. destruct Hp as [Hb Hu].
    pose proof (used_idx_clear _ _ Hb Hi Ht) as Hperm.
    pose proof (Permutation_length Hperm) as Hlen. simpl in Hlen.
    eexists. split_and!; [done| | |done|unfold room, pool_room; simpl; lia].
    + constructor; [|done]. split; simpl; [by apply bitmap_ok_clear|]. lia.
    + unfold all_nodes. rewrite !bind_cons. unfold pool_nodes at 1 2. simpl.
      rewrite Hperm, fmap_cons. simpl. by unfold node_addr, SIZEOF_FREEBLOCK; simpl.
  - assert (Hin : 1 <= cov n (prange <$> ps)).
    { apply list_elem_of_bind in Hn as (q & Hn & Hq). rewrite <- (node_in_range q n Hn).
      apply cov_elem, list_elem_of_fmap. by exists q. }
    destruct IH as (ps' & E & Hwf & Hperm & Hpa & Hroom); [lia|done|].
    exists (p :: ps'). cbn [free_pools].
    unfold FREEBLOCK_POOL_SIZE, SIZEOF_FREEBLOCK.
    replace ((n <? p_pa p) || (p_pa p + 512 * 32 <=? n)) with true.
    2: { symmetry. apply orb_true_iff. rewrite Z.ltb_lt, Z.leb_le.
         destruct (ind_spec n (p_pa p) (512 * 32)) as [[_ Hi]|[? _]]; [|lia].
         change (ind n (prange p) = 1) in Hi. lia. }
    unfold mbind, M_bind. rewrite E.
    split_and!; [done|by constructor| |by rewrite !fmap_cons, Hpa|simpl; lia].
    unfold all_nodes in *. rewrite !bind_cons, Hperm. by rewrite Permutation_middle.
Qed.

(** ** Buddies *)

Definition bsize (o : Z) : Z := 2 ^ (o + 12).

Lemma bsize_pos o : 0 <= o → 0 < bsize o.
Proof. intros. apply Z.pow_pos_nonneg; lia. Qed.
Lemma bsize_succ o : 0 <= o → bsize (o + 1) = 2 * bsize o.
Proof. intros. unfold bsize. rewrite <- Z.pow_succ_r by lia. f_equal. lia. Qed.
Lemma block_size_bsize o : 0 <= o <= 15 → block_size_for_order o = bsize o.
Proof. intros. apply shl64_1. lia. Qed.
Lemma bsize_le o : 0 <= o <= 15 → bsize o <= 2 ^ 27.
Proof. intros. unfold bsize. apply Z.pow_le_mono_r; lia. Qed.

Lemma lxor_1_even k : 0 <= k → Z.lxor (2 * k) 1 = 2 * k + 1.
Proof.
  intros Hk. symmetry. apply Z.add_nocarry_lxor. apply Z.bits_inj'. intros n Hn.
  rewrite Z.land_spec, Z.testbit_0_l. destruct (Z.eq_dec n 0) as [->|].
  - by rewrite Z.testbit_even_0.
  - change 1 with (2 ^ 0). rewrite Z.pow2_bits_false by lia. apply andb_false_r.
Qed.

(** The buddy is the other half of the enclosing block of twice the size. *)
Lemma lxor_buddy p o :
  0 <= o → 0 <= p → (bsize o | p) →
  (Z.lxor p (bsize o) = p + bsize o ∧ (bsize (o + 1) | p)) ∨
  (Z.lxor p (bsize o) = p - bsize o ∧ (bsize (o + 1) | p - bsize o)).
Proof.
  intros Ho Hp [q ->]. pose proof (bsize_pos o Ho) as Hpos.
  assert (Hq : 0 <= q) by nia.
  assert (E : Z.lxor (q * bsize o) (bsize o) = Z.lxor q 1 * bsize o).
  { unfold bsize. rewrite <- !Z.shiftl_mul_pow2 by lia. rewrite Z.shiftl_lxor.
    f_equal. by rewrite Z.shiftl_1_l. }
  rewrite E, bsize_succ by done. destruct (Z.Even_or_Odd q) as [[k ->]|[k ->]].
  - left. rewrite lxor_1_even by lia. split; [lia|]. exists k. lia.
  - right. rewrite <- lxor_1_even, Z.lxor_assoc, Z.lxor_nilpotent, Z.lxor_0_r by lia.
    rewrite lxor_1_even by lia. split; [lia|]. exists k. lia.
Qed.

(** Physical addresses reachable through the direct map. *)
Definition LIMIT : Z := KVA_OFFSET - KPA_OFFSET.

Record blk_ok (o : Z) (b : FreeBlock) : Prop := {
  bo_order : b_order b = o;
  bo_pos : 0 < b_paddr b;
  bo_align : (bsize o | b_paddr b);
  bo_limit : b_paddr b + bsize o <= LIMIT;
}.

Definition paddr_lt (x y : FreeBlock) : Prop := b_paddr x < b_paddr y.

(** One order's list: sorted by address, and no two of its blocks are buddies. *)
Record area_ok (o : Z) (l : list FreeBlock) : Prop := {
  ao_blocks : Forall (blk_ok o) l;
  ao_sorted : StronglySorted paddr_lt l;
  ao_merged : o < MAX_BUDDY_ORDER → ∀ x y, x ∈ l → y ∈ l → b_paddr y ≠ Z.lxor (b_paddr x) (bsize o);
}.

Lemma link_split b l :
  StronglySorted paddr_lt l → (∀ x, x ∈ l → b_paddr x ≠ b_paddr b) →
  ∃ l1 l2, l = l1 ++ l2 ∧ link b l = l1 ++ b :: l2 ∧
    Forall (λ x, b_paddr x < b_paddr b) l1 ∧ Forall (λ x, b_paddr b < b_paddr x) l2.
Proof.
  intros Hs Hne.
  assert (E : link b l = link_after b l).
  { destruct l as [|h t]; [done|]. simpl. specialize (Hne h ltac:(left)).
    destruct (Z.ltb_spec (b_paddr b) (b_paddr h)), (Z.ltb_spec (b_paddr h) (b_paddr b)); try done; lia. }
  rewrite E. clear E. induction Hs as [|x l Hs IH Hall]; simpl.
  - by exists [], [].
  - pose proof (Hne x ltac:(left)). destruct (Z.ltb_spec (b_paddr x) (b_paddr b)) as [Hlt|Hge].
    + destruct IH as (l1 & l2 & -> & -> & H1 & H2). { intros y Hy. apply Hne. by right. }
      exists (x :: l1), l2. split_and!; [done|done|by constructor|done].
    + exists [], (x :: l). split_and!; [done|done|done|]. constructor; [lia|].
      eapply Forall_impl; [exact Hall|]. unfold paddr_lt. intros y Hy; simpl in Hy. lia.
Qed.

Lemma neighbours_split prev b l1 l2 :
  b_node b ∉ b_node <$> l1 →
  neighbours prev (b_node b) (l1 ++ b :: l2) =
  (match last l1 with Some x => Some x | None => prev end, head l2).
Proof.
  revert prev. induction l1 as [|x l1 IH]; intros prev Hn; simpl.
  - by rewrite Z.eqb_refl.
  - rewrite fmap_cons, not_elem_of_cons in Hn. destruct Hn as [Hx Hn].
    rewrite (proj2 (Z.eqb_neq _ _)) by congruence. rewrite IH by done.
    rewrite last_cons. by destruct (last l1).
Qed.

Lemma unlink_split b l1 l2 :
  b_node b ∉ b_node <$> l1 → unlink (b_node b) (l1 ++ b :: l2) = l1 ++ l2.
Proof.
  induction l1 as [|x l1 IH]; intros Hn; simpl; [by rewrite Z.eqb_refl|].
  rewrite fmap_cons, not_elem_of_cons in Hn. destruct Hn as [Hx Hn].
  rewrite (proj2 (Z.eqb_neq _ _)) by congruence. by rewrite IH.
Qed.

Lemma unlink_elem b l :
  b ∈ l → NoDup (b_node <$> l) → l ≡ₚ b :: unlink (b_node b) l ∧ sublist (unlink (b_node b) l) l.
Proof.
  intros (l1 & l2 & ->)%list_elem_of_split Hnd.
  rewrite fmap_app, fmap_cons in Hnd.
  assert (b_node b ∉ b_node <$> l1).
  { intros Hin. apply NoDup_app in Hnd as (_ & Hd & _). apply (Hd _ Hin). left. }
  rewrite unlink_split by done. split; [by rewrite Permutation_middle|].
  apply sublist_app; [done|by constructor].
Qed.

Lemma sorted_sublist l1 l2 :
  sublist l1 l2 → StronglySorted paddr_lt l2 → StronglySorted paddr_lt l1.
Proof.
  induction 1 as [|x l1 l2 Hs IH|x l1 l2 Hs IH]; intros H; [done| |];
    apply StronglySorted_inv in H as [H Hall]; [|by apply IH].
  constructor; [by apply IH|]. rewrite Forall_forall in *. intros y Hy.
  apply Hall. by eapply elem_of_sublist.
Qed.

Lemma area_ok_sublist o l1 l2 : sublist l1 l2 → area_ok o l2 → area_ok o l1.
Proof.
  intros Hs [Hb Hso Hm].
  assert (Hin : ∀ x, x ∈ l1 → x ∈ l2) by (intros; by eapply elem_of_sublist).
  split; [|by eapply sorted_sublist|eauto].
  rewrite Forall_forall in *. eauto.
Qed.

(** A list element next to the place of [p], at distance at most one block. *)
Lemma between_multiples d p o : 0 <= o → (bsize o | d) → (bsize o | p) → d < p → d <= p - bsize o.
Proof. intros Ho [q ->] [r ->] H. pose proof (bsize_pos o Ho) as Hp.
  assert (q < r) by nia. assert (q * bsize o + bsize o <= r * bsize o); [|lia].
  replace (q * bsize o + bsize o) with ((q + 1) * bsize o) by lia. apply Z.mul_le_mono_nonneg_r; lia.
Qed.

Lemma is_block_spec x o l b :
  Forall (blk_ok o) l → b ∈ l → is_block x o (Some b) = true ↔ b_paddr b = x.
Proof.
  intros Hf Hb. rewrite Forall_forall in Hf. destruct (Hf _ Hb) as [Ho _ _ _].
  simpl. rewrite andb_true_iff, !Z.eqb_eq. naive_solver.
Qed.

(** The two neighbours of a block in the sorted list are the only candidates
    for its buddy. *)
Lemma buddy_in_neighbours o b l1 l2 :
  0 <= o → blk_ok o b → Forall (blk_ok o) (l1 ++ l2) → StronglySorted paddr_lt (l1 ++ l2) →
  Forall (λ x, b_paddr x < b_paddr b) l1 → Forall (λ x, b_paddr b < b_paddr x) l2 →
  let x := Z.lxor (b_paddr b) (bsize o) in
  match (if is_block x o (last l1) then last l1
         else if is_block x o (head l2) then head l2 else None) with
  | Some c => c ∈ l1 ++ l2 ∧ b_paddr c = x
  | None => ∀ c, c ∈ l1 ++ l2 → b_paddr c ≠ x
  end.
Proof.
  intros Ho Hb Hf Hs H1 H2 x. pose proof (bsize_pos o Ho) as Hpos.
  assert (Hx : x = b_paddr b + bsize o ∨ x = b_paddr b - bsize o).
  { pose proof (bo_pos _ _ Hb).
    destruct (lxor_buddy (b_paddr b) o) as [[? _]|[? _]];
      [done|lia|apply Hb|by left|by right]. }
  assert (Hal : ∀ c, c ∈ l1 ++ l2 → (bsize o | b_paddr c)).
  { rewrite Forall_forall in Hf. intros c Hc. apply (Hf c Hc). }
  destruct (is_block x o (last l1)) eqn:E1.
  { destruct (last l1) as [c|] eqn:El; [|done].
    assert (Hc : c ∈ l1 ++ l2) by (apply elem_of_app; left; by apply last_Some_elem_of).
    split; [done|]. by eapply is_block_spec. }
  destruct (is_block x o (head l2)) eqn:E2.
  { destruct l2 as [|c l2]; [done|]. simpl in E2.
    assert (Hc : c ∈ l1 ++ c :: l2) by (apply elem_of_app; right; left).
    split; [done|]. by eapply is_block_spec. }
  intros c [Hc|Hc]%elem_of_app Heq.
  - rewrite Forall_forall in H1. pose proof (H1 c Hc).
    destruct (last l1) as [d|] eqn:El; [|by apply last_None in El as ->; apply not_elem_of_nil in Hc].
    assert (Hd : d ∈ l1) by by apply last_Some_elem_of.
    assert (Hcd : b_paddr c <= b_paddr d).
    { apply last_Some in El as [l0 ->]. rewrite <- app_assoc in Hs.
      apply elem_of_app in Hc as [Hc|Hc%list_elem_of_singleton]; [|by subst].
      pose proof (StronglySorted_app_1_elem_of _ _ _ c d Hs Hc ltac:(by left)) as Hlt.
      unfold paddr_lt in Hlt. lia. }
    pose proof (between_multiples (b_paddr d) (b_paddr b) o Ho
                  (Hal d ltac:(apply elem_of_app; by left)) (bo_align _ _ Hb) (H1 d Hd)).
    assert (is_block x o (Some d) = true); [|congruence].
    apply (is_block_spec x o (l1 ++ l2)); [done|apply elem_of_app; by left|]. lia.
  - rewrite Forall_forall in H2. pose proof (H2 c Hc).
    destruct l2 as [|d l2]; [by apply not_elem_of_nil in Hc|]. simpl in E2.
    pose proof (H2 d ltac:(left)) as Hbd.
    assert (Hcd : b_paddr d <= b_paddr c).
    { apply elem_of_cons in Hc as [->|Hc]; [done|].
      apply StronglySorted_app_1_r in Hs.
      apply StronglySorted_inv in Hs as [_ Hall]. rewrite Forall_forall in Hall.
      specialize (Hall c Hc). unfold paddr_lt in Hall. lia. }
    pose proof (between_multiples (b_paddr b) (b_paddr d) o Ho (bo_align _ _ Hb)
                  (Hal d ltac:(apply elem_of_app; right; left)) Hbd).
    assert (is_block x o (Some d) = true); [|unfold is_block in *; congruence].
    apply (is_block_spec x o (l1 ++ d :: l2)); [done|apply elem_of_app; right; left|]. lia.
Qed.

(** Inserting a block whose buddy is not in the list. *)
Lemma area_ok_link o b l1 l2 :
  0 <= o → area_ok o (l1 ++ l2) → blk_ok o b →
  Forall (λ x, b_paddr x < b_paddr b) l1 → Forall (λ x, b_paddr b < b_paddr x) l2 →
  (o < MAX_BUDDY_ORDER → ∀ c, c ∈ l1 ++ l2 → b_paddr c ≠ Z.lxor (b_paddr b) (bsize o)) →
  area_ok o (l1 ++ b :: l2).
Proof.
  intros Ho [Hf Hs Hm] Hb H1 H2 Hno. pose proof (bsize_pos o Ho) as Hpos.
  assert (Hxx : ∀ p, Z.lxor (Z.lxor p (bsize o)) (bsize o) = p)
    by (intros; by rewrite Z.lxor_assoc, Z.lxor_nilpotent, Z.lxor_0_r).
  split.
  - rewrite <- Permutation_middle. by constructor.
  - clear -Hs H1 H2. induction l1 as [|x l1 IH]; simpl in *.
    + constructor; [done|]. eapply Forall_impl; [exact H2|done].
    + apply StronglySorted_inv in Hs as [Hs Hall]. apply Forall_cons in H1 as [Hx H1].
      constructor; [by apply IH|]. apply Forall_app in Hall as [Ha1 Ha2].
      apply Forall_app; split; [done|by constructor].
  - intros Hlt x y Hx Hy E. rewrite <- Permutation_middle, elem_of_cons in Hx, Hy.
    destruct Hx as [->|Hx], Hy as [->|Hy].
    + assert (Hxor : Z.lxor (b_paddr b) (Z.lxor (b_paddr b) (bsize o)) = 0)
        by (rewrite <- E; apply Z.lxor_nilpotent).
      rewrite <- Z.lxor_assoc, Z.lxor_nilpotent, Z.lxor_0_l in Hxor. lia.
    + exact (Hno Hlt y Hy E).
    + apply (Hno Hlt x Hx). by rewrite E, Hxx.
    + exact (Hm Hlt x y Hx Hy E).
Qed.

(** ** The allocator's invariant *)

Definition blocks (s : buddy) : list FreeBlock := concat (free_area s).
Definition brange (b : FreeBlock) : Z * Z := (b_paddr b, bsize (b_order b)).
Definition franges (s : buddy) : list (Z * Z) := brange <$> blocks s.
Definition pranges (s : buddy) : list (Z * Z) := prange <$> pools s.
(** How many times the allocator holds the address [a], free or as a pool. *)
Definition owned (a : Z) (s : buddy) : Z := cov a (franges s) + cov a (pranges s).
(** The number of free pages. *)
Definition fcount (l : list FreeBlock) : Z := foldr (λ b n, 2 ^ b_order b + n) 0 l.

#[global] Instance fcount_perm : Proper ((≡ₚ) ==> (=)) fcount.
Proof. induction 1; simpl; lia. Qed.
Lemma fcount_app l1 l2 : fcount (l1 ++ l2) = fcount l1 + fcount l2.
Proof. induction l1 as [|b l IH]; simpl; lia. Qed.

Record inv (s : buddy) : Prop := {
  iv_len : length (free_area s) = 16%nat;
  iv_area : ∀ i l, free_area s !! i = Some l → area_ok (Z.of_nat i) l;
  iv_pools : Forall pool_wf (pools s);
  iv_nodes : all_nodes (pools s) ≡ₚ b_node <$> blocks s;
  iv_disj : ∀ a, owned a s <= 1;
}.

Lemma NoDup_all_nodes ps :
  (∀ a, cov a (prange <$> ps) <= 1) → NoDup (all_nodes ps).
Proof.
  induction ps as [|p ps IH]; intros Hc; [constructor|]. unfold all_nodes. rewrite bind_cons.
  assert (Hsplit : ∀ a, cov a (prange <$> p :: ps) = ind a (prange p) + cov a (prange <$> ps)) by done.
  apply NoDup_app. split_and!.
  - unfold pool_nodes. apply NoDup_fmap_2; [|apply NoDup_used_idx].
    intros i j. unfold node_addr, SIZEOF_FREEBLOCK. lia.
  - intros n Hn Hn2. apply list_elem_of_bind in Hn2 as (q & Hnq & Hq).
    apply node_in_range in Hn, Hnq. specialize (Hc n). rewrite Hsplit in Hc.
    pose proof (cov_elem n (prange q) (prange <$> ps) ltac:(apply list_elem_of_fmap; by exists q)). lia.
  - apply IH. intros a. specialize (Hc a). rewrite Hsplit in Hc. pose proof (ind_nonneg a (prange p)). lia.
Qed.

Lemma pools_disj s a : inv s → cov a (pranges s) <= 1.
Proof.
  intros H. pose proof (iv_disj _ H a) as Ha. unfold owned in Ha.
  pose proof (cov_nonneg a (franges s)). lia.
Qed.

Lemma nodes_NoDup s : inv s → NoDup (b_node <$> blocks s).
Proof.
  intros H. rewrite <- (iv_nodes _ H). apply NoDup_all_nodes. intros a. by apply pools_disj.
Qed.

Lemma concat_insert (fa : list (list FreeBlock)) i l :
  fa !! i = Some l →
  ∃ R, concat fa ≡ₚ l ++ R ∧ ∀ l', concat (<[i := l']> fa) ≡ₚ l' ++ R.
Proof.
  revert i. induction fa as [|k fa IH]; intros [|i] H; simplify_eq/=.
  - exists (concat fa). by split.
  - destruct (IH i H) as (R & E1 & E2). exists (k ++ R). split.
    + rewrite E1. by rewrite !app_assoc, (Permutation_app_comm k l).
    + intros l'. rewrite E2. by rewrite !app_assoc, (Permutation_app_comm k l').
Qed.

Definition put_area (o : Z) (l : list FreeBlock) (s : buddy) : buddy :=
  set_free_area (<[Z.to_nat o := l]> (free_area s)) s.

Lemma set_area_put o f s l :
  free_area s !! Z.to_nat o = Some l → set_area o f s = put_area o (f l) s.
Proof.
  intros H. unfold set_area, put_area. f_equal. apply list_eq. intros j.
  destruct (decide (Z.to_nat o = j)) as [<-|].
  - rewrite list_lookup_alter_eq, H. symmetry. apply list_lookup_insert_eq. by eapply lookup_lt_Some.
  - by rewrite list_lookup_alter_ne, list_lookup_insert_ne.
Qed.

Lemma area_lookup s o : inv s → 0 <= o <= 15 → free_area s !! Z.to_nat o = Some (area s o).
Proof.
  intros H Ho. unfold area. destruct (lookup_lt_is_Some_2 (free_area s) (Z.to_nat o)) as [l ->]; [|done].
  rewrite (iv_len _ H). lia.
Qed.

Lemma area_inv s o : inv s → 0 <= o <= 15 → area_ok o (area s o).
Proof.
  intros H Ho. replace o with (Z.of_nat (Z.to_nat o)) at 1 by lia.
  eapply (iv_area _ H). by apply area_lookup.
Qed.

Lemma elem_area s o b : inv s → 0 <= o <= 15 → b ∈ area s o → b ∈ blocks s.
Proof.
  intros H Ho Hb. destruct (concat_insert _ _ _ (area_lookup s o H Ho)) as (R & E & _).
  unfold blocks. rewrite E. apply elem_of_app. by left.
Qed.

(** Replacing one order's list and the pools. *)
Lemma inv_update s o l' ps' R :
  inv s → 0 <= o <= 15 → area_ok o l' → blocks (put_area o l' s) ≡ₚ l' ++ R →
  Forall pool_wf ps' → p_pa <$> ps' = p_pa <$> pools s →
  all_nodes ps' ≡ₚ b_node <$> l' ++ R →
  (∀ a, cov a (brange <$> l' ++ R) + cov a (pranges s) <= 1) →
  inv (set_pools ps' (put_area o l' s)).
Proof.
  intros H Ho Hok Hbl Hwf Hpa Hn Hd. split; simpl.
  - rewrite length_insert. apply H.
  - intros i l Hl. destruct (decide (Z.to_nat o = i)) as [<-|].
    + rewrite list_lookup_insert_eq in Hl by (rewrite (iv_len _ H); lia). simplify_eq.
      by replace (Z.of_nat (Z.to_nat o)) with o by lia.
    + rewrite list_lookup_insert_ne in Hl by done. by apply (iv_area _ H).
  - done.
  - rewrite Hn. apply Permutation_map. symmetry. exact Hbl.
  - intros a. specialize (Hd a). unfold owned, franges, pranges; simpl.
    rewrite (prange_fmap _ _ Hpa). fold (pranges s).
    change (blocks (set_pools ps' (put_area o l' s))) with (blocks (put_area o l' s)).
    by rewrite Hbl.
Qed.

Section runs.
Variable rec : M buddy unit.

Lemma alloc_freeblock_run s :
  Forall pool_wf (pools s) → 0 < room (pools s) →
  ∃ n ps', alloc_freeblock rec s = Fin (Ok n) (set_pools ps' s) ∧ Forall pool_wf ps' ∧
    all_nodes ps' ≡ₚ n :: all_nodes (pools s) ∧ p_pa <$> ps' = p_pa <$> pools s ∧
    room ps' = room (pools s) - 1.
Proof.
  intros Hwf Hr. destruct (alloc_pools_spec _ Hwf Hr) as (n & ps' & E & H).
  exists n, ps'. split; [|exact H].
  unfold alloc_freeblock, mbind, M_bind, gets. by rewrite E.
Qed.

Lemma free_freeblock_run s n :
  Forall pool_wf (pools s) → cov n (pranges s) <= 1 → n ∈ all_nodes (pools s) →
  ∃ ps', free_freeblock n s = Fin (Ok tt) (set_pools ps' s) ∧ Forall pool_wf ps' ∧
    all_nodes (pools s) ≡ₚ n :: all_nodes ps' ∧ p_pa <$> ps' = p_pa <$> pools s ∧
    room ps' = room (pools s) + 1.
Proof.
  intros Hwf Hc Hn. destruct (free_pools_spec n _ s Hwf Hc Hn) as (ps' & E & H).
  exists ps'. split; [|exact H]. unfold free_freeblock, mbind, M_bind, gets. by rewrite E.
Qed.
End runs.

(** A block the allocator can take in: aligned, in the direct map, not held yet. *)
Record fits (s : buddy) (p o : Z) : Prop := {
  ft_order : 0 <= o <= 15;
  ft_pos : 0 < p;
  ft_align : (bsize o | p);
  ft_limit : p + bsize o <= LIMIT;
  ft_fresh : ∀ a, owned a s + ind a (p, bsize o) <= 1;
}.

Lemma fits_blk s p o n : fits s p o → blk_ok o (mkBlock n p o).
Proof. by intros []. Qed.

Lemma ind_start p n : 0 < n → ind p (p, n) = 1.
Proof. intros. ind_cases. lia. Qed.

Lemma brange_elem a b l : b ∈ l → ind a (brange b) <= cov a (brange <$> l).
Proof. intros H. apply cov_elem, list_elem_of_fmap. by exists b. Qed.

Lemma fits_distinct s p o x : inv s → fits s p o → x ∈ area s o → b_paddr x ≠ p.
Proof.
  intros H [Ho Hp _ _ Hf] Hx E. pose proof (area_inv s o H Ho) as [Hall _ _].
  rewrite Forall_forall in Hall. destruct (Hall x Hx) as [Hox _ _ _].
  pose proof (brange_elem p x (blocks s) (elem_area s o x H Ho Hx)) as Hc.
  unfold brange in Hc at 1. rewrite E, Hox in Hc. pose proof (bsize_pos o ltac:(lia)).
  rewrite ind_start in Hc by done. specialize (Hf p). rewrite ind_start in Hf by done.
  unfold owned, franges in Hf. pose proof (cov_nonneg p (pranges s)). lia.
Qed.

(** Linking a block whose buddy is not free. *)
Lemma link_state s p o n ps' :
  inv s → fits s p o →
  Forall pool_wf ps' → all_nodes ps' ≡ₚ n :: all_nodes (pools s) → p_pa <$> ps' = p_pa <$> pools s →
  (o < MAX_BUDDY_ORDER → ∀ c, c ∈ area s o → b_paddr c ≠ Z.lxor p (bsize o)) →
  let s' := set_pools ps' (put_area o (link (mkBlock n p o) (area s o)) s) in
  inv s' ∧ blocks s' ≡ₚ mkBlock n p o :: blocks s.
Proof.
  intros H Hf Hwf Hn Hpa Hno s'. pose proof (ft_order _ _ _ Hf) as Ho.
  pose proof (area_inv s o H Ho) as Hok.
  destruct (link_split (mkBlock n p o) (area s o)) as (l1 & l2 & E & El & H1 & H2).
  { apply Hok. } { intros x Hx. by apply (fits_distinct s p o). }
  destruct (concat_insert _ _ _ (area_lookup s o H Ho)) as (R & E1 & E2).
  assert (Hl : link (mkBlock n p o) (area s o) ≡ₚ mkBlock n p o :: area s o)
    by (rewrite El, E; by rewrite Permutation_middle).
  assert (Hbl : blocks s' ≡ₚ mkBlock n p o :: blocks s).
  { unfold s', blocks. simpl. by rewrite E2, Hl, E1. }
  split; [|done]. apply (inv_update s o _ ps' R); try done.
  - rewrite El. apply area_ok_link; [lia|by rewrite <- E|by eapply fits_blk|done|done|].
    rewrite <- E. exact Hno.
  - unfold blocks. simpl. apply E2.
  - rewrite Hn, (iv_nodes _ H). unfold blocks. rewrite Hl, E1. done.
  - intros a. rewrite Hl. pose proof (ft_fresh _ _ _ Hf a) as Ha.
    unfold owned, franges, blocks in Ha. rewrite E1 in Ha.
    change (ind a (p, bsize o) + cov a (brange <$> area s o ++ R) + cov a (pranges s) <= 1). lia.
Qed.

(** Taking a block out. *)
Lemma unlink_state s o c ps' :
  inv s → 0 <= o <= 15 → c ∈ area s o →
  Forall pool_wf ps' → all_nodes (pools s) ≡ₚ b_node c :: all_nodes ps' →
  p_pa <$> ps' = p_pa <$> pools s →
  let s' := set_pools ps' (put_area o (unlink (b_node c) (area s o)) s) in
  inv s' ∧ blocks s ≡ₚ c :: blocks s'.
Proof.
  intros H Ho Hc Hwf Hn Hpa s'.
  destruct (concat_insert _ _ _ (area_lookup s o H Ho)) as (R & E1 & E2).
  destruct (unlink_elem c (area s o) Hc) as [Hl Hsub].
  { pose proof (nodes_NoDup s H) as Hnd. unfold blocks in Hnd. rewrite E1, fmap_app in Hnd.
    by apply NoDup_app in Hnd as [? _]. }
  assert (Hbl : blocks s ≡ₚ c :: blocks s').
  { unfold s', blocks. simpl. rewrite E2, E1. by rewrite Hl at 1. }
  split; [|done]. apply (inv_update s o _ ps' R); try done.
  - by eapply area_ok_sublist, area_inv.
  - unfold blocks. simpl. apply E2.
  - apply (Permutation_cons_inv (a := b_node c)). rewrite <- Hn, (iv_nodes _ H), Hbl.
    unfold s', blocks. simpl. by rewrite E2.
  - intros a. pose proof (iv_disj _ H a) as Ha. unfold owned, franges in Ha. rewrite Hbl in Ha.
    pose proof (ind_nonneg a (brange c)). rewrite fmap_cons in Ha.
    change (ind a (brange c) + cov a (brange <$> blocks s') + cov a (pranges s) <= 1) in Ha.
    unfold s', blocks in Ha. cbn [free_area set_pools put_area set_free_area] in Ha.
    rewrite E2 in Ha. lia.
Qed.

(** What [put_page_in_order] does: the block joins the free memory; the pools
    stay where they are and lose at most one node slot. *)
Record put_post (s : buddy) (p n pages nodes : Z) (s' : buddy) : Prop := {
  pp_inv : inv s';
  pp_free : ∀ a, cov a (franges s') = cov a (franges s) + ind a (p, n);
  pp_pools : p_pa <$> pools s' = p_pa <$> pools s;
  pp_room : room (pools s) - nodes <= room (pools s');
  pp_count : fcount (blocks s') = fcount (blocks s) + pages;
  pp_counter : free_pages s' = free_pages s;
  pp_info : mem_free_pages s' = mem_free_pages s;
}.

Lemma put_post_owned s p n pages nodes s' a :
  put_post s p n pages nodes s' → owned a s' = owned a s + ind a (p, n).
Proof. intros [_ Hf Hp _ _ _ _]. unfold owned, pranges. rewrite Hf, (prange_fmap _ _ Hp). lia. Qed.

Lemma phy_addr_run x s : 0 <= x <= LIMIT → phy_addr x s = Fin (Ok x) s.
Proof.
  intros Hx. unfold phy_addr, mk_addr, within_scope.
  destruct (Z.eqb_spec x 0) as [->|]; [done|]. simpl.
  rewrite (proj2 (Z.leb_le _ _)), (proj2 (Z.leb_le _ _)); [done| |];
    unfold LIMIT, KVA_OFFSET, KPA_OFFSET, NULL_ADDR in *; lia.
Qed.

Lemma buddy_in_limit s p o : fits s p o → 0 <= Z.lxor p (bsize o) <= LIMIT.
Proof.
  intros [Ho Hp Ha Hl _]. pose proof (bsize_pos o ltac:(lia)).
  destruct (lxor_buddy p o) as [[-> _]|[-> Hd]]; try lia; [done|].
  pose proof (between_multiples 0 p o ltac:(lia) (Z.divide_0_r _) Ha Hp). lia.
Qed.

(** [find_buddy_node] on a freshly linked node. *)
Lemma find_buddy_run s p o n ps' :
  inv s → fits s p o → n ∉ b_node <$> blocks s →
  let node := mkBlock n p o in
  let s' := set_pools ps' (put_area o (link node (area s o)) s) in
  ∃ r, find_buddy_node node s' = Fin (Ok r) s' ∧
  match r with
  | Some c => c ∈ area s o ∧ b_paddr c = Z.lxor p (bsize o)
  | None => ∀ c, c ∈ area s o → b_paddr c ≠ Z.lxor p (bsize o)
  end.
Proof.
  intros H Hf Hn node s'. pose proof (ft_order _ _ _ Hf) as Ho.
  pose proof (area_inv s o H Ho) as Hok.
  destruct (link_split node (area s o)) as (l1 & l2 & E & El & H1 & H2).
  { apply Hok. } { intros x Hx. by apply (fits_distinct s p o). }
  assert (Ea : area s' o = l1 ++ node :: l2).
  { unfold area, s'. simpl. rewrite list_lookup_insert_eq; [done|]. rewrite (iv_len _ H). lia. }
  assert (Hn1 : b_node node ∉ b_node <$> l1).
  { intros Hin. apply Hn. apply list_elem_of_fmap in Hin as (x & Hx & Hin).
    apply list_elem_of_fmap. exists x. split; [done|]. apply (elem_area s o x H Ho).
    rewrite E. apply elem_of_app. by left. }
  pose proof (buddy_in_neighbours o node l1 l2) as Hb.
  rewrite E in Hok. destruct Hok as [Hok1 Hok2 _].
  specialize (Hb ltac:(lia) (fits_blk _ _ _ _ Hf) Hok1 Hok2 H1 H2). rewrite <- E in Hb.
  eexists. split; [|exact Hb].
  unfold find_buddy_node. cbn [b_order node]. unfold MAX_BUDDY_ORDER.
  rewrite (proj2 (Z.ltb_ge _ _)) by lia. unfold mbind, M_bind.
  rewrite block_size_bsize by done. rewrite phy_addr_run by by eapply buddy_in_limit.
  unfold gets. rewrite Ea, neighbours_split by done. by destruct (last l1).
Qed.

(** Merging [p] with its buddy [x] gives the enclosing block. *)
Lemma merge_fits s s1 p o c :
  inv s → inv s1 → fits s p o → o < MAX_BUDDY_ORDER → c ∈ area s o → b_paddr c = Z.lxor p (bsize o) →
  (∀ a, owned a s = owned a s1 + ind a (brange c)) →
  let m := if b_paddr c <? p then b_paddr c else p in
  fits s1 m (o + 1) ∧ ∀ a, ind a (m, bsize (o + 1)) = ind a (p, bsize o) + ind a (brange c).
Proof.
  intros H H1 Hf Ho Hc Hx How m. pose proof (ft_order _ _ _ Hf) as Ho'. destruct Hf as [_ Hp Ha Hl Hfr].
  pose proof (area_inv s o H Ho') as [Hall _ _]. rewrite Forall_forall in Hall.
  destruct (Hall c Hc) as [Hco Hcp Hca Hcl]. pose proof (bsize_pos o ltac:(lia)) as Hpos.
  assert (Hind : ∀ a, ind a (m, bsize (o + 1)) = ind a (p, bsize o) + ind a (brange c)).
  { intros a. unfold brange, m. rewrite bsize_succ, Hco, Hx by lia.
    replace (2 * bsize o) with (bsize o + bsize o) by lia. rewrite ind_split by lia.
    destruct (lxor_buddy p o) as [[E _]|[E _]]; try done; try lia; rewrite E.
    - rewrite (proj2 (Z.ltb_ge _ _)) by lia. done.
    - rewrite (proj2 (Z.ltb_lt _ _)) by lia.
      replace (p - bsize o + bsize o) with p by lia. lia. }
  split; [|done]. split.
  - unfold MAX_BUDDY_ORDER in Ho. lia.
  - unfold m. destruct (b_paddr c <? p); done.
  - unfold m. destruct (lxor_buddy p o) as [[E Hd]|[E Hd]]; try done; try lia; rewrite Hx, E.
    + by rewrite (proj2 (Z.ltb_ge _ _)) by lia.
    + by rewrite (proj2 (Z.ltb_lt _ _)) by lia.
  - unfold m. rewrite bsize_succ by lia.
    destruct (lxor_buddy p o) as [[E Hd]|[E Hd]]; try done; try lia; rewrite Hx, E in *.
    + rewrite (proj2 (Z.ltb_ge _ _)) by lia. lia.
    + rewrite (proj2 (Z.ltb_lt _ _)) by lia. lia.
  - intros a. rewrite Hind. specialize (Hfr a). rewrite How in Hfr. lia.
Qed.

Lemma put_area_id s o : inv s → 0 <= o <= 15 → put_area o (area s o) s = s.
Proof.
  intros H Ho. unfold put_area. rewrite list_insert_id by by apply area_lookup. by destruct s.
Qed.

Lemma put_area_put_area s o l1 l2 : put_area o l2 (put_area o l1 s) = put_area o l2 s.
Proof. unfold put_area, set_free_area; simpl. by rewrite list_insert_insert_eq. Qed.

Lemma link_unlink s p o n :
  inv s → fits s p o → n ∉ b_node <$> blocks s →
  unlink n (link (mkBlock n p o) (area s o)) = area s o.
Proof.
  intros H Hf Hn. pose proof (ft_order _ _ _ Hf) as Ho.
  destruct (link_split (mkBlock n p o) (area s o)) as (l1 & l2 & E & El & _).
  { by apply area_inv. } { intros x Hx. by apply (fits_distinct s p o). }
  rewrite El, E. apply (unlink_split (mkBlock n p o)). simpl. intros Hin. apply Hn.
  apply list_elem_of_fmap in Hin as (x & Hx & Hin). apply list_elem_of_fmap. exists x.
  split; [done|]. apply (elem_area s o x H Ho). rewrite E. apply elem_of_app. by left.
Qed.

(** The node that was just allocated is not in use. *)
Lemma fresh_node s n ps' :
  inv s → all_nodes ps' ≡ₚ n :: all_nodes (pools s) → p_pa <$> ps' = p_pa <$> pools s →
  n ∉ b_node <$> blocks s.
Proof.
  intros H Hn Hpa. rewrite <- (iv_nodes _ H).
  assert (Hnd : NoDup (all_nodes ps')).
  { apply NoDup_all_nodes. intros a. rewrite (prange_fmap _ _ Hpa). by apply pools_disj. }
  rewrite Hn in Hnd. by apply NoDup_cons in Hnd as [? _].
Qed.

Section put.
Variable rec : M buddy unit.

(** The body of one merge: both nodes leave the list and the pools. *)
Lemma merge_run s p o n ps1 c (k : M buddy unit) :
  inv s → fits s p o → c ∈ area s o →
  Forall pool_wf ps1 → all_nodes ps1 ≡ₚ n :: all_nodes (pools s) →
  p_pa <$> ps1 = p_pa <$> pools s → room ps1 = room (pools s) - 1 →
  ∃ s', (_ ← unlink_block (mkBlock n p o); _ ← unlink_block c; _ ← free_freeblock n;
         _ ← free_freeblock (b_node c); k)
          (set_pools ps1 (put_area o (link (mkBlock n p o) (area s o)) s)) = k s' ∧
    inv s' ∧ blocks s ≡ₚ c :: blocks s' ∧ p_pa <$> pools s' = p_pa <$> pools s ∧
    room (pools s') = room (pools s) + 1 ∧ free_pages s' = free_pages s ∧
    mem_free_pages s' = mem_free_pages s.
Proof.
  intros H Hf Hc Hwf1 Hn1 Hpa1 Hr1. pose proof (ft_order _ _ _ Hf) as Ho.
  pose proof (fresh_node s n ps1 H Hn1 Hpa1) as Hfr.
  pose proof (area_inv s o H Ho) as [Hall _ _]. rewrite Forall_forall in Hall.
  destruct (Hall c Hc) as [Hco _ _ _].
  set (s2 := set_pools ps1 (put_area o (unlink (b_node c) (area s o)) s)).
  destruct (free_freeblock_run s2 n) as (ps2 & E2 & Hwf2 & Hn2 & Hpa2 & Hr2).
  { done. } { change (pranges s2) with (prange <$> ps1). rewrite (prange_fmap _ _ Hpa1). by apply pools_disj. }
  { change (pools s2) with ps1. rewrite Hn1. left. }
  change (pools s2) with ps1 in *. rewrite Hn1 in Hn2. apply Permutation_cons_inv in Hn2.
  set (s3 := set_pools ps2 s2) in *.
  destruct (free_freeblock_run s3 (b_node c)) as (ps3 & E3 & Hwf3 & Hn3 & Hpa3 & Hr3).
  { done. }
  { change (pranges s3) with (prange <$> ps2). rewrite (prange_fmap ps1 ps2 Hpa2), (prange_fmap _ _ Hpa1).
    by apply pools_disj. }
  { change (pools s3) with ps2. rewrite <- Hn2, (iv_nodes _ H). apply list_elem_of_fmap. exists c.
    split; [done|]. by apply (elem_area s o). }
  change (pools s3) with ps2 in *. rewrite <- Hn2 in Hn3.
  assert (Hpa : p_pa <$> ps3 = p_pa <$> pools s) by by rewrite Hpa3, Hpa2.
  destruct (unlink_state s o c ps3 H Ho Hc Hwf3 Hn3 Hpa) as [Hinv Hbl].
  eexists. split_and!; [|exact Hinv|exact Hbl|done|simpl; lia|done|done].
  unfold unlink_block, mbind, M_bind, modify. cbn [b_order b_node].
  rewrite (set_area_put o (unlink n) _ (link (mkBlock n p o) (area s o))).
  2: { simpl. apply list_lookup_insert_eq. rewrite (iv_len _ H). lia. }
  rewrite link_unlink by done.
  change (put_area o ?a (set_pools ps1 ?b)) with (set_pools ps1 (put_area o a b)).
  rewrite put_area_put_area, put_area_id by done. rewrite Hco.
  rewrite (set_area_put _ _ _ (area s o)) by (simpl; by apply area_lookup).
  change (put_area o ?a (set_pools ps1 ?b)) with (set_pools ps1 (put_area o a b)). fold s2.
  rewrite E2. fold s3. rewrite E3. done.
Qed.

Lemma put_loop_spec k p o s :
  inv s → fits s p o → 0 < room (pools s) → (Z.to_nat (16 - o) <= k)%nat →
  ∃ s', put_loop rec k p o s = Fin (Ok tt) s' ∧ put_post s p (bsize o) (2 ^ o) 1 s'.
Proof.
  revert p o s. induction k as [|k IH]; intros p o s H Hf Hr Hk.
  { pose proof (ft_order _ _ _ Hf). lia. }
  pose proof (ft_order _ _ _ Hf) as Ho. cbn [put_loop]. unfold MAX_BUDDY_ORDER at 1.
  rewrite (proj2 (Z.leb_le _ _)) by lia. cbn [negb]. unfold mbind at 1, M_bind at 1, attempt.
  destruct (alloc_freeblock_run rec s (iv_pools _ H) Hr) as (n & ps1 & -> & Hwf1 & Hn1 & Hpa1 & Hr1).
  pose proof (fresh_node s n ps1 H Hn1 Hpa1) as Hfr.
  unfold mbind at 1, M_bind at 1, link_block, modify. cbn [b_order].
  rewrite (set_area_put _ _ _ (area s o)) by (simpl; by apply area_lookup).
  change (put_area o ?a (set_pools ps1 s)) with (set_pools ps1 (put_area o a s)).
  set (s1 := set_pools ps1 _).
  assert (Hdone : (o < MAX_BUDDY_ORDER → ∀ c, c ∈ area s o → b_paddr c ≠ Z.lxor p (bsize o)) →
            put_post s p (bsize o) (2 ^ o) 1 s1).
  { intros Hno. destruct (link_state s p o n ps1 H Hf Hwf1 Hn1 Hpa1 Hno) as [Hinv Hbl].
    fold s1 in Hinv, Hbl. split; try done; simpl; try lia.
    - intros a. unfold franges. rewrite Hbl. rewrite fmap_cons. simpl. unfold brange at 1. simpl. lia.
    - rewrite Hbl. simpl. lia. }
  destruct (Z.eqb_spec o MAX_BUDDY_ORDER) as [E|E].
  { exists s1. split; [done|]. apply Hdone. lia. }
  unfold mbind at 1, M_bind at 1.
  destruct (find_buddy_run s p o n ps1 H Hf Hfr) as (r & Er & Hbr). fold s1 in Er. rewrite Er.
  destruct r as [c|]; [|by exists s1; split; [|apply Hdone]].
  destruct Hbr as [Hc Hcp].
  destruct (merge_run s p o n ps1 c
              (put_loop rec k (if b_paddr c <? p then b_paddr c else p) (o + 1)) H Hf Hc Hwf1 Hn1 Hpa1 Hr1)
    as (s2 & Em & Hinv2 & Hbl2 & Hpa2 & Hr2 & Hfp2 & Hmi2).
  fold s1 in Em. cbn [b_node]. rewrite Em.
  assert (Hfr2 : ∀ a, cov a (franges s) = cov a (franges s2) + ind a (brange c)).
  { intros a. unfold franges. rewrite Hbl2, fmap_cons. simpl. lia. }
  assert (How : ∀ a, owned a s = owned a s2 + ind a (brange c)).
  { intros a. unfold owned, pranges. rewrite Hfr2, (prange_fmap _ _ Hpa2). lia. }
  unfold MAX_BUDDY_ORDER in E.
  destruct (merge_fits s s2 p o c H Hinv2 Hf ltac:(unfold MAX_BUDDY_ORDER; lia) Hc Hcp How) as [Hf2 Hind].
  destruct (IH _ (o + 1) s2 Hinv2 Hf2) as (s' & E' & [P1 P2 P3 P4 P5 P6 P7]); [lia|lia|].
  exists s'. split; [exact E'|]. split; try done; try congruence; try lia.
  - intros a. rewrite P2, Hind, Hfr2. lia.
  - rewrite P5, Hbl2. simpl. pose proof (area_inv s o H Ho) as [Hall _ _].
    rewrite Forall_forall in Hall. rewrite (bo_order _ _ (Hall c Hc)), Z.pow_add_r by lia. lia.
Qed.

Lemma put_page_in_order_spec p o s :
  inv s → fits s p o → 0 < room (pools s) →
  ∃ s', put_page_in_order rec p o s = Fin (Ok tt) s' ∧ put_post s p (bsize o) (2 ^ o) 1 s'.
Proof.
  intros H Hf Hr. destruct (put_loop_spec (Z.to_nat (MAX_BUDDY_ORDER + 2 - o)) p o s H Hf Hr)
    as (s' & E & Hp). { unfold MAX_BUDDY_ORDER. lia. }
  exists s'. split; [|done]. unfold put_page_in_order, nonnull. destruct Hf as [Ho Hpos Ha _ _].
  rewrite (proj2 (Z.eqb_neq p 0)) by lia. cbn [negb].
  unfold mbind, M_bind, massert, MAX_BUDDY_ORDER, aligned.
  rewrite (proj2 (Z.leb_le 0 o)), (proj2 (Z.leb_le o 15)) by lia. rewrite block_size_bsize by done.
  pose proof (bsize_pos o ltac:(lia)).
  by rewrite (proj2 (Z.eqb_eq _ 0)) by (apply Z.mod_divide; [lia|done]).
Qed.
End put.

(** Two puts in a row make one put of the joined range. *)
Lemma put_post_join s p n pg nd s1 q m pg' nd' s2 r l :
  put_post s p n pg nd s1 → put_post s1 q m pg' nd' s2 →
  (∀ a, ind a (r, l) = ind a (p, n) + ind a (q, m)) →
  put_post s r l (pg + pg') (nd + nd') s2.
Proof.
  intros [A1 A2 A3 A4 A5 A6 A7] [B1 B2 B3 B4 B5 B6 B7] Hi.
  split; try done; try congruence; try lia. intros a. rewrite B2, A2, Hi. lia.
Qed.

Lemma put_post_refl s p pg : inv s → pg = 0 → put_post s p 0 pg 0 s.
Proof. intros H ->. split; try done; try lia. intros a. ind_cases. lia. Qed.

Lemma addr_add_run p n s : 0 <= p → 0 <= n → p + n <= LIMIT → addr_add p n s = Fin (Ok (p + n)) s.
Proof.
  intros. unfold addr_add, add64. rewrite wrap64_small.
  - apply phy_addr_run. lia.
  - unfold is_u64, W64, LIMIT, KVA_OFFSET, KPA_OFFSET in *. lia.
Qed.

Lemma pow2_succ o : 0 <= o → 2 ^ (o + 1) = 2 * 2 ^ o.
Proof. intros. rewrite Z.pow_add_r by lia. lia. Qed.

(** The two halves of a block that is not held. *)
Lemma fits_halves s p o :
  fits s p (o + 1) → 0 <= o →
  fits s (p + bsize o) o ∧
  ∀ s', (∀ a, owned a s' = owned a s + ind a (p + bsize o, bsize o)) → fits s' p o.
Proof.
  intros [Ho Hp Ha Hl Hf] Ho0. pose proof (bsize_pos o Ho0) as Hpos.
  rewrite bsize_succ in * by done.
  assert (Hi : ∀ a, ind a (p, 2 * bsize o) = ind a (p, bsize o) + ind a (p + bsize o, bsize o)).
  { intros a. rewrite <- ind_split by lia. f_equal. f_equal. lia. }
  assert (Ha' : (bsize o | p)) by (destruct Ha as [q ->]; exists (2 * q); lia).
  split.
  - split; try lia.
    + apply Z.divide_add_r; [done|apply Z.divide_refl].
    + intros a. specialize (Hf a). rewrite Hi in Hf. pose proof (ind_nonneg a (p, bsize o)). lia.
  - intros s' Hs'. split; try lia; [done|]. intros a. specialize (Hf a). rewrite Hs'. rewrite Hi in Hf. lia.
Qed.

Section fetch.
Variable rec : M buddy unit.

Lemma split_loop_spec k c o p s :
  inv s → fits s p c → c = o + Z.of_nat k → 0 <= o → Z.of_nat k <= room (pools s) →
  ∃ s', split_loop rec k c o p s = Fin (Ok tt) s' ∧
    put_post s (p + bsize o) (bsize c - bsize o) (2 ^ c - 2 ^ o) (Z.of_nat k) s'.
Proof.
  revert c s. induction k as [|k IH]; intros c s H Hf -> Ho Hr.
  { exists s. split; [done|]. rewrite Z.add_0_r, !Z.sub_diag. by apply put_post_refl. }
  replace (o + Z.of_nat (S k)) with ((o + Z.of_nat k) + 1) in * by lia.
  set (c := o + Z.of_nat k) in *. cbn [split_loop]. replace (c + 1 - 1) with c by lia.
  destruct (fits_halves s p c Hf ltac:(lia)) as [Hup Hlow].
  pose proof (bsize_pos c ltac:(lia)) as Hpos.
  rewrite block_size_bsize by apply Hup. unfold mbind, M_bind.
  pose proof (ft_limit _ _ _ Hup). pose proof (ft_pos _ _ _ Hf).
  rewrite addr_add_run by lia.
  destruct (put_page_in_order_spec rec _ _ s H Hup ltac:(lia)) as (s1 & -> & Hp1).
  destruct (IH c s1) as (s2 & E2 & Hp2).
  { apply Hp1. } { apply Hlow. intros a. by eapply put_post_owned. } { done. } { done. }
  { pose proof (pp_room _ _ _ _ _ _ Hp1). lia. }
  exists s2. split; [exact E2|].
  replace (2 ^ (c + 1) - 2 ^ o) with (2 ^ c + (2 ^ c - 2 ^ o)) by (rewrite pow2_succ by lia; lia).
  replace (Z.of_nat (S k)) with (1 + Z.of_nat k) by lia.
  eapply put_post_join; [exact Hp1|exact Hp2|]. intros a.
  assert (Hle : bsize o <= bsize c) by (unfold bsize; apply Z.pow_le_mono_r; lia).
  rewrite bsize_succ by lia.
  replace (2 * bsize c - bsize o) with ((bsize c - bsize o) + bsize c) by lia.
  rewrite ind_split by lia. replace (p + bsize o + (bsize c - bsize o)) with (p + bsize c) by lia. lia.
Qed.

Lemma find_order_spec k o s :
  let c := find_order k o s in
  o <= c <= o + Z.of_nat k ∧ (∀ j, o <= j < c → area s j = []) ∧
  (c < o + Z.of_nat k → c <= MAX_BUDDY_ORDER → area s c ≠ []).
Proof.
  revert o. induction k as [|k IH]; intros o; cbn [find_order]; [split_and!; lia|].
  destruct (Z.leb_spec o MAX_BUDDY_ORDER) as [Ho|Ho]; [|split_and!; lia].
  destruct (area s o) as [|b l] eqn:E.
  - destruct (IH (o + 1)) as (H1 & H2 & H3). split_and!; [lia|lia| |].
    + intros j Hj. destruct (Z.eq_dec j o) as [->|]; [done|]. apply H2. lia.
    + intros ? ?. apply H3; lia.
  - split_and!; [lia|lia|lia|]. intros _ _. by rewrite E.
Qed.

(** A block of order [o] at [p] leaves the free memory. *)
Record fetched (s : buddy) (p n pages nodes : Z) (s' : buddy) : Prop := {
  fd_inv : inv s';
  fd_range : 0 < p ∧ p + n <= LIMIT;
  fd_free : ∀ a, cov a (franges s') + ind a (p, n) = cov a (franges s);
  fd_pools : p_pa <$> pools s' = p_pa <$> pools s;
  fd_room : room (pools s) - nodes <= room (pools s');
  fd_count : fcount (blocks s') = fcount (blocks s) - pages;
  fd_counter : free_pages s' = free_pages s;
  fd_info : mem_free_pages s' = mem_free_pages s;
}.

(** Taking the first block of a list. *)
Lemma take_head_run s c b l :
  inv s → 0 <= c <= 15 → area s c = b :: l →
  ∃ s', (∀ (k : M buddy Z), (_ ← unlink_block b; _ ← free_freeblock (b_node b); k) s = k s') ∧
    fetched s (b_paddr b) (bsize c) (2 ^ c) (-1) s' ∧ fits s' (b_paddr b) c.
Proof.
  intros H Hc Ea. assert (Hb : b ∈ area s c) by (rewrite Ea; left).
  pose proof (area_inv s c H Hc) as [Hall _ _]. rewrite Forall_forall in Hall.
  destruct (Hall b Hb) as [Hbo Hbp Hba Hbl].
  set (s1 := put_area c (unlink (b_node b) (area s c)) s).
  destruct (free_freeblock_run s1 (b_node b)) as (ps & E & Hwf & Hn & Hpa & Hr).
  { apply H. } { by apply (pools_disj s). }
  { change (pools s1) with (pools s). rewrite (iv_nodes _ H). apply list_elem_of_fmap. exists b.
    split; [done|]. by apply (elem_area s c). }
  change (pools s1) with (pools s) in *.
  destruct (unlink_state s c b ps H Hc Hb Hwf Hn Hpa) as [Hinv Hperm].
  set (s' := set_pools ps s1) in *. change (inv s') in Hinv. change (blocks s ≡ₚ b :: blocks s') in Hperm.
  assert (Hfree : ∀ a, cov a (franges s') + ind a (b_paddr b, bsize c) = cov a (franges s)).
  { intros a. unfold franges. rewrite Hperm, fmap_cons. simpl. unfold brange at 2. rewrite Hbo. lia. }
  exists s'. split_and!.
  - intros k. unfold unlink_block, mbind, M_bind, modify. rewrite Hbo.
    rewrite (set_area_put _ _ _ (area s c)) by by apply area_lookup. fold s1. by rewrite E.
  - split; try done; simpl; [lia|]. rewrite Hperm. simpl. rewrite Hbo. lia.
  - split; try done. intros a. pose proof (iv_disj _ H a) as Ha. unfold owned in *.
    rewrite <- Hfree in Ha. unfold pranges in *. change (pools s') with ps.
    rewrite (prange_fmap _ _ Hpa). lia.
Qed.

Lemma fetch_frame_order_spec o s :
  inv s → 0 <= o <= 15 → 14 <= room (pools s) →
  (fetch_frame_order rec o s = Fin (Err OUT_OF_MEMORY) s ∧ ∀ j, o <= j <= 15 → area s j = []) ∨
  ∃ p s', fetch_frame_order rec o s = Fin (Ok p) s' ∧ (bsize o | p) ∧
    fetched s p (bsize o) (2 ^ o) 14 s'.
Proof.
  intros H Ho Hr.
  destruct (find_order_spec (Z.to_nat (MAX_BUDDY_ORDER + 1)) o s) as (H1 & H2 & H3).
  set (c := find_order _ o s) in *. unfold MAX_BUDDY_ORDER in H1, H3.
  destruct (Z.ltb_spec MAX_BUDDY_ORDER c) as [Hc|Hc]; unfold MAX_BUDDY_ORDER in Hc.
  { left. split; [|intros j Hj; apply H2; lia].
    unfold fetch_frame_order, mbind, M_bind, gets. fold c. by rewrite (proj2 (Z.ltb_lt _ _)). }
  right. destruct (area s c) as [|b l] eqn:Ea; [by exfalso; apply H3; try lia|].
  destruct (take_head_run s c b l H ltac:(lia) Ea) as (s1 & E1 & [F1 F2 F3 F4 F5 F6 F7 F8] & Hf).
  unfold fetch_frame_order, mbind at 1, M_bind at 1, gets at 1. fold c.
  rewrite (proj2 (Z.ltb_ge _ _)) by done. unfold mbind at 1, M_bind at 1, gets. rewrite Ea.
  rewrite E1. unfold mbind, M_bind.
  destruct (split_loop_spec (Z.to_nat (c - o)) c o (b_paddr b) s1 F1 Hf) as (s2 & -> & [P1 P2 P3 P4 P5 P6 P7]);
    [lia|lia|lia|].
  exists (b_paddr b), s2. assert (Hle : bsize o <= bsize c) by (unfold bsize; apply Z.pow_le_mono_r; lia).
  pose proof (bsize_pos o ltac:(lia)). split_and!; [done| |].
  - destruct (ft_align _ _ _ Hf) as [q ->]. apply Z.divide_mul_r. unfold bsize.
    exists (2 ^ (c - o)). rewrite <- Z.pow_add_r by lia. f_equal. lia.
  - split; try done; try congruence; try lia. intros a. rewrite <- (F3 a), P2.
    replace (bsize c) with (bsize o + (bsize c - bsize o)) at 2 by lia.
    rewrite (ind_split a (b_paddr b)) by lia. lia.
Qed.
End fetch.

(** ** Ranges of pages *)

Lemma try_size o : 0 <= o <= 15 → shl64 1 o = 2 ^ o ∧ shl64 (shl64 1 o) 12 = bsize o.
Proof.
  intros Ho. rewrite shl64_1 by lia. split; [done|]. unfold shl64.
  rewrite Z.shiftl_mul_pow2 by lia. unfold bsize. rewrite Z.pow_add_r by lia.
  apply wrap64_small. rewrite <- Z.pow_add_r by lia. apply is_u64_pow2. lia.
Qed.

Lemma aligned_divide a o : 0 <= o → aligned a (bsize o) = true ↔ (bsize o | a).
Proof.
  intros Ho. pose proof (bsize_pos o Ho). unfold aligned. rewrite Z.eqb_eq. apply Z.mod_divide. lia.
Qed.

(** The order [add_memory_range] takes: a block that fits and is aligned, and
    the next order would not. *)
Lemma range_order_spec k o addr remain :
  0 <= o → o + Z.of_nat k = 15 → 2 ^ o <= remain → (bsize o | addr) →
  let r := range_order k o addr remain in
  o <= r <= 15 ∧ 2 ^ r <= remain ∧ (bsize r | addr) ∧
  (r = 15 ∨ remain < 2 ^ (r + 1) ∨ ~ (bsize (r + 1) | addr)).
Proof.
  revert o. induction k as [|k IH]; intros o Ho Hk Hle Hal; cbn [range_order].
  { split_and!; [lia|lia|done|done|left; lia]. }
  destruct (try_size (o + 1)) as [E1 E2]; [lia|]. rewrite E1. rewrite E1 in E2. rewrite E2.
  destruct (Z.leb_spec (2 ^ (o + 1)) remain) as [H1|H1]; cbn [andb].
  2: { split_and!; [lia|lia|done|done|]. right. by left. }
  destruct (aligned addr (bsize (o + 1))) eqn:Ha.
  - apply aligned_divide in Ha; [|lia]. destruct (IH (o + 1)) as (? & ? & ? & ?); try lia; [done|].
    split_and!; try done; lia.
  - split_and!; [lia|lia|done|done|]. right. right. intros Hd.
    apply aligned_divide in Hd; [|lia]. congruence.
Qed.

(** The number of blocks the range is cut into. *)
Fixpoint range_rounds (k : nat) (addr remain : Z) : Z :=
  match k with
  | O => 0
  | S k =>
      if 0 <? remain then
        let r := range_order 15 0 addr remain in
        1 + range_rounds k (addr + bsize r) (remain - 2 ^ r)
      else 0
  end.

Lemma bsize_pages r : 0 <= r → bsize r = 2 ^ r * 4096.
Proof. intros. unfold bsize. by rewrite Z.pow_add_r by lia. Qed.

Lemma add_range_spec k addr remain s :
  inv s → 0 <= remain → remain < Z.of_nat k → 0 < addr → (4096 | addr) →
  addr + remain * 4096 <= LIMIT → (∀ a, owned a s + ind a (addr, remain * 4096) <= 1) →
  range_rounds k addr remain <= room (pools s) →
  ∃ s', add_range_loop k addr remain s = Fin (Ok tt) s' ∧
    put_post s addr (remain * 4096) remain (range_rounds k addr remain) s'.
Proof.
  revert addr remain s. induction k as [|k IH]; intros addr remain s H H0 Hk Hpos Hal Hlim Hfr Hroom; [lia|].
  cbn [add_range_loop range_rounds] in *. destruct (Z.ltb_spec 0 remain) as [Hr|Hr]; cbn [negb].
  2: { exists s. split; [done|]. assert (remain = 0) as -> by lia. by apply put_post_refl. }
  change (Z.to_nat MAX_BUDDY_ORDER) with 15%nat.
  destruct (range_order_spec 15 0 addr remain) as (Ho & Hfit & Hro & _); [lia|lia|lia|done|].
  set (r := range_order 15 0 addr remain) in *.
  pose proof (bsize_pages r ltac:(lia)) as Hbp. pose proof (Z.pow_pos_nonneg 2 r ltac:(lia) ltac:(lia)) as Hpp.
  assert (Hi : ∀ a, ind a (addr, remain * 4096) =
                    ind a (addr, bsize r) + ind a (addr + bsize r, (remain - 2 ^ r) * 4096)).
  { intros a. rewrite <- ind_split by lia. f_equal. f_equal. lia. }
  assert (Hrec : ∀ a b, Forall pool_wf (pools s) → 0 <= range_rounds k a b).
  { intros a b _. clear. revert a b. induction k as [|k IH]; intros a b; cbn [range_rounds]; [done|].
    destruct (0 <? b); [|done]. specialize (IH (a + bsize (range_order 15 0 a b)) (b - 2 ^ range_order 15 0 a b)). lia. }
  specialize (Hrec (addr + bsize r) (remain - 2 ^ r) (iv_pools _ H)).
  assert (Hf : fits s addr r).
  { split; try lia; [done|]. intros a. specialize (Hfr a). rewrite Hi in Hfr.
    pose proof (ind_nonneg a (addr + bsize r, (remain - 2 ^ r) * 4096)). lia. }
  unfold mbind, M_bind.
  destruct (put_page_in_order_spec expand addr r s H Hf ltac:(lia)) as (s1 & -> & Hp1).
  destruct (try_size r ltac:(lia)) as [E1 E2]. rewrite E1. rewrite E1 in E2. rewrite E2.
  assert (Ea : add64 addr (bsize r) = addr + bsize r).
  { apply wrap64_small. unfold is_u64, W64. unfold LIMIT, KVA_OFFSET, KPA_OFFSET in *. lia. }
  assert (Er : sub64 remain (2 ^ r) = remain - 2 ^ r).
  { apply wrap64_small. unfold is_u64, W64. unfold LIMIT, KVA_OFFSET, KPA_OFFSET in *. lia. }
  rewrite Ea, Er.
  destruct (IH (addr + bsize r) (remain - 2 ^ r) s1) as (s2 & E & Hp2).
  - apply Hp1.
  - lia.
  - lia.
  - lia.
  - apply Z.divide_add_r; [done|]. rewrite Hbp. by apply Z.divide_factor_r.
  - lia.
  - intros a. rewrite (put_post_owned _ _ _ _ _ _ a Hp1). specialize (Hfr a). rewrite Hi in Hfr. lia.
  - pose proof (pp_room _ _ _ _ _ _ Hp1). lia.
  - exists s2. split; [exact E|].
    replace remain with (2 ^ r + (remain - 2 ^ r)) at 2 by lia.
    eapply put_post_join; [exact Hp1|exact Hp2|exact Hi].
Qed.

(** The tail of a power-of-two block is cut into at most one block per order. *)
Lemma range_rounds_bound k addr remain i j :
  0 <= i <= j → j <= 15 → 0 <= remain < 2 ^ j → (2 ^ i | remain) → (4096 | addr) →
  (bsize j | addr + remain * 4096) → range_rounds k addr remain <= j - i.
Proof.
  revert addr remain i. induction k as [|k IH]; intros addr remain i Hi Hj Hr Hd H4 Hend;
    cbn [range_rounds]; [lia|]. destruct (Z.ltb_spec 0 remain) as [Hpos|]; [|lia].
  destruct (range_order_spec 15 0 addr remain) as (Ho & Hfit & Hro & Hmax); [lia|lia|lia|done|].
  set (r := range_order 15 0 addr remain) in *.
  pose proof (bsize_pages r ltac:(lia)) as Hbp.
  assert (Hdiv : ∀ e, 0 <= e <= j → (bsize e | addr) ↔ (2 ^ e | remain)).
  { intros e He.
    assert (Hej : (bsize e | addr + remain * 4096)).
    { destruct Hend as [q ->]. apply Z.divide_mul_r. exists (2 ^ (j - e)). unfold bsize.
      rewrite <- Z.pow_add_r by lia. f_equal. lia. }
    assert (Hmul : (2 ^ e | remain) ↔ (bsize e | remain * 4096)).
    { rewrite bsize_pages by lia. rewrite (Z.mul_divide_cancel_r (2 ^ e) remain 4096) by lia. done. }
    rewrite Hmul. split; intros Hx.
    - replace (remain * 4096) with (addr + remain * 4096 - addr) by lia. by apply Z.divide_sub_r.
    - replace addr with (addr + remain * 4096 - remain * 4096) by lia. by apply Z.divide_sub_r. }
  assert (Hrj : r < j).
  { destruct (Z.lt_ge_cases r j) as [|Hge]; [done|].
    assert (2 ^ j <= 2 ^ r) by (apply Z.pow_le_mono_r; lia). lia. }
  assert (Hrr : (2 ^ r | remain)) by (apply Hdiv; [lia|done]).
  assert (Hir : i <= r).
  { destruct (Z.le_gt_cases i r) as [|Hlt]; [done|]. exfalso.
    assert (Hd1 : (2 ^ (r + 1) | remain)).
    { destruct Hd as [q ->]. apply Z.divide_mul_r. exists (2 ^ (i - (r + 1))).
      rewrite <- Z.pow_add_r by lia. f_equal. lia. }
    destruct Hmax as [|[Hlt'|Hn]]; [lia| |apply Hn, Hdiv; [lia|done]].
    apply Z.divide_pos_le in Hd1; lia. }
  assert (Hnext : (2 ^ (r + 1) | remain - 2 ^ r)).
  { destruct Hrr as [q Hq]. pose proof (Z.pow_pos_nonneg 2 r ltac:(lia) ltac:(lia)).
    rewrite pow2_succ in * by lia. destruct (Z.Even_or_Odd q) as [[m Hm]|[m Hm]].
    - exfalso. destruct Hmax as [|[Hlt'|Hn]]; [lia| |].
      + assert (m < 1) by nia. assert (0 < m) by nia. lia.
      + apply Hn. rewrite (Hdiv (r + 1)) by lia. rewrite pow2_succ by lia. exists m. rewrite Hq, Hm. lia.
    - exists m. rewrite Hq, Hm. lia. }
  assert (range_rounds k (addr + bsize r) (remain - 2 ^ r) <= j - (r + 1)); [|lia].
  apply IH; [lia|lia|split; [lia|lia]|done| |].
  - apply Z.divide_add_r; [done|]. rewrite Hbp. by apply Z.divide_factor_r.
  - replace (addr + bsize r + (remain - 2 ^ r) * 4096) with (addr + remain * 4096) by lia. done.
Qed.

(** ** The interface *)

Lemma pages2order_loop_spec k o n :
  0 <= o → o + Z.of_nat k = 16 → 2 ^ (o - 1) < n <= 2 ^ 15 → (0 < k)%nat →
  let r := pages2order_loop k o n in o <= r <= 15 ∧ 2 ^ (r - 1) < n <= 2 ^ r.
Proof.
  revert o. induction k as [|k IH]; intros o Ho Hk Hn Hk0; cbn [pages2order_loop]; [lia|].
  unfold MAX_BUDDY_ORDER. rewrite (proj2 (Z.leb_le o 15)), shl64_1 by lia.
  destruct (Z.leb_spec n (2 ^ o)) as [Hle|Hgt]; [split_and!; lia|].
  assert (o < 15).
  { destruct (Z.lt_ge_cases o 15); [done|]. assert (o = 15) as -> by lia. lia. }
  destruct (IH (o + 1)) as (? & ?); [lia|lia| |lia|split; lia].
  replace (o + 1 - 1) with o by lia. lia.
Qed.

(** The order of a request: the smallest block that holds it. *)
Lemma pages2order_spec n :
  1 <= n <= 2 ^ 15 →
  let o := pages2order n in 0 <= o <= 15 ∧ n <= 2 ^ o ∧ (o = 0 ∨ 2 ^ (o - 1) < n).
Proof.
  intros Hn. unfold pages2order.
  destruct (Z.eqb_spec n 1) as [->|]; [split_and!; try done; by left|].
  destruct (Z.eqb_spec n 2) as [->|]; [split_and!; try done; by right|].
  destruct (Z.eqb_spec n 3) as [->|]; [split_and!; try done; by right|].
  destruct (Z.eqb_spec n 4) as [->|]; [split_and!; try done; by right|]. cbn [orb].
  destruct (pages2order_loop_spec 13 3 n) as (? & ?); [lia|lia|change (2 ^ (3 - 1)) with 4; lia|lia|].
  split_and!; try lia.
Qed.

Lemma init_pool_wf p : pool_wf (init_pool p) ∧ pool_nodes (init_pool p) = [].
Proof.
  assert (E : used_idx (p_bitmap (init_pool p)) = []) by (vm_compute; done).
  split; [split|].
  - split; [done|]. simpl. repeat constructor; vm_compute; done.
  - by rewrite E.
  - unfold pool_nodes. by rewrite E.
Qed.

Lemma all_nodes_attach ps p : all_nodes (ps ++ [init_pool p]) = all_nodes ps.
Proof.
  unfold all_nodes. rewrite bind_app.
  change ([init_pool p] ≫= pool_nodes) with (pool_nodes (init_pool p) ++ []).
  by rewrite (proj2 (init_pool_wf p)), !app_nil_r.
Qed.

Lemma room_app ps qs : room (ps ++ qs) = room ps + room qs.
Proof. induction ps as [|p ps IH]; simpl; lia. Qed.

Lemma convert_direct p : 0 < p → p < LIMIT → convert KPA PA p = Some (p + KPA_OFFSET).
Proof.
  intros H1 H2. unfold convert, nonnull. rewrite (proj2 (Z.eqb_neq p 0)) by lia. cbn [negb].
  unfold mk_addr, PA2KPA, add64. rewrite wrap64_small.
  - unfold within_scope. simpl. unfold LIMIT, KVA_OFFSET, KPA_OFFSET in *.
    rewrite (proj2 (Z.eqb_neq _ 0)), (proj2 (Z.leb_le _ _)), (proj2 (Z.leb_le _ _)) by lia. done.
  - unfold is_u64, W64, LIMIT, KVA_OFFSET, KPA_OFFSET in *. lia.
Qed.

(** Expansion moves four free pages to a new pool; nothing else changes. *)
Record expanded (s s' : buddy) : Prop := {
  ex_inv : inv s';
  ex_owned : ∀ a, owned a s' = owned a s;
  ex_free : ∀ a, cov a (franges s') <= cov a (franges s);
  ex_count : fcount (blocks s') = fcount (blocks s) - FREEBLOCK_EXPAND_PAGES;
  ex_counter : free_pages s' = free_pages s;
  ex_info : mem_free_pages s' = mem_free_pages s;
}.

Lemma add_new_pool_spec fuel s :
  inv s → 14 <= room (pools s) →
  (add_new_pool (S fuel) s = Fin (Err OUT_OF_MEMORY) s) ∨
  ∃ s', add_new_pool (S fuel) s = Fin (Ok tt) s' ∧ expanded s s'.
Proof.
  intros H Hr. cbn [add_new_pool]. change (pages2order FREEBLOCK_EXPAND_PAGES) with 2.
  unfold mbind, M_bind.
  destruct (fetch_frame_order_spec (add_new_pool fuel) 2 s H ltac:(lia) Hr)
    as [[-> _]|(p & s1 & -> & Hal & [F1 F2 F3 F4 F5 F6 F7 F8])]; [by left|right].
  rewrite convert_direct by (pose proof (bsize_pos 2); lia).
  set (s2 := set_pools (pools s1 ++ [init_pool p]) s1). exists s2. split; [done|].
  assert (How : ∀ a, owned a s2 = owned a s).
  { intros a. unfold owned, pranges, s2. change (franges (set_pools _ s1)) with (franges s1).
    simpl. rewrite fmap_app, cov_app, (prange_fmap _ _ F4), <- F3. simpl.
    change (prange (init_pool p)) with (p, bsize 2). lia. }
  split; try done; [split; try apply F1| ].
  - simpl. apply Forall_app. split; [apply F1|]. constructor; [apply init_pool_wf|done].
  - change (blocks s2) with (blocks s1). simpl. rewrite all_nodes_attach. apply F1.
  - intros a. rewrite How. apply H.
  - intros a. change (franges s2) with (franges s1). rewrite <- F3. pose proof (ind_nonneg a (p, bsize 2)). lia.
Qed.

(** The counter never under-reports the free pages. *)
Definition buddy_inv (s : buddy) : Prop :=
  inv s ∧ fcount (blocks s) <= free_pages s ∧ mem_free_pages s = free_pages s.

Lemma maybe_expand_spec s :
  buddy_inv s → 14 <= room (pools s) →
  ∃ r s', maybe_expand_pool s = Fin r s' ∧ buddy_inv s' ∧ (∀ a, owned a s' = owned a s) ∧
    (∀ a, cov a (franges s') <= cov a (franges s)) ∧
    free_pages s' = free_pages s ∧ (r = Ok tt ∨ r = Err OUT_OF_MEMORY).
Proof.
  intros (H & Hc & Hi) Hr. unfold maybe_expand_pool, mbind, M_bind, gets.
  destruct (last (pools s)) as [p|]; [destruct (pool_needs_expand p)|];
    try (eexists _, s; split; [done|split; [done|split_and!; [done|done|done|by left]]]).
  destruct (add_new_pool_spec 15 s H Hr) as [E|(s' & E & [E1 E2 E6 E3 E4 E5])].
  - eexists _, s. split; [exact E|split; [done|split_and!; [done|done|done|by right]]].
  - eexists _, s'. split; [exact E|]. split; [split_and!; [done| |congruence]|split_and!; [done|done|done|by left]].
    unfold FREEBLOCK_EXPAND_PAGES in E3. lia.
Qed.

Lemma fcount_nonneg l : 0 <= fcount l.
Proof. induction l as [|b l IH]; simpl; [done|]. pose proof (Z.pow_nonneg 2 (b_order b)). lia. Qed.

Lemma put_post_more s p n pg nd nd' s' : nd <= nd' → put_post s p n pg nd s' → put_post s p n pg nd' s'.
Proof. intros Hle [A1 A2 A3 A4 A5 A6 A7]. split; try done. lia. Qed.

(** The unused tail of the block that was fetched goes back. *)
Lemma give_back_run s s1 p o n :
  inv s → 0 <= o <= 15 → 1 <= n <= 2 ^ o → (bsize o | p) → fetched s p (bsize o) (2 ^ o) 14 s1 →
  15 <= room (pools s1) →
  ∃ s2, (if n <? shl64 1 o
         then start ← addr_add p (mul64 n PAGESIZE); add_memory_range start (shl64 1 o - n)
         else mret tt) s1 = Fin (Ok tt) s2 ∧
    put_post s1 (p + n * 4096) ((2 ^ o - n) * 4096) (2 ^ o - n) 15 s2.
Proof.
  intros H Ho Hn Hal [F1 F2 F3 F4 F5 F6 F7 F8] Hr. rewrite shl64_1 by lia.
  destruct (Z.ltb_spec n (2 ^ o)) as [Hlt|Hge].
  2: { exists s1. split; [done|]. replace (2 ^ o - n) with 0 by lia.
       apply (put_post_more _ _ _ _ 0); [lia|]. by apply put_post_refl. }
  pose proof (bsize_pages o ltac:(lia)) as Hbp. unfold mbind, M_bind.
  replace (mul64 n PAGESIZE) with (n * 4096).
  2: { symmetry. apply wrap64_small. unfold PAGESIZE, is_u64, W64.
       assert (2 ^ o <= 2 ^ 15) by (apply Z.pow_le_mono_r; lia). lia. }
  rewrite addr_add_run by lia.
  assert (Hbound : range_rounds (S (Z.to_nat (2 ^ o - n))) (p + n * 4096) (2 ^ o - n) <= o - 0).
  { apply range_rounds_bound; [lia|lia|lia|apply Z.divide_1_l| |].
    - apply Z.divide_add_r; [|by apply Z.divide_factor_r].
      eapply Z.divide_trans; [|exact Hal]. rewrite Hbp. by apply Z.divide_factor_r.
    - replace (p + n * 4096 + (2 ^ o - n) * 4096) with (p + bsize o) by lia.
      apply Z.divide_add_r; [done|apply Z.divide_refl]. }
  destruct (add_range_spec (S (Z.to_nat (2 ^ o - n))) (p + n * 4096) (2 ^ o - n) s1) as (s2 & E & Hp);
    [done|lia|lia|lia| |lia| |lia|].
  - apply Z.divide_add_r; [|by apply Z.divide_factor_r].
    eapply Z.divide_trans; [|exact Hal]. rewrite Hbp. by apply Z.divide_factor_r.
  - intros a. pose proof (iv_disj _ H a) as Ha. unfold owned, pranges in *.
    rewrite (prange_fmap _ _ F4). rewrite <- F3 in Ha.
    replace (bsize o) with (n * 4096 + (2 ^ o - n) * 4096) in Ha by lia.
    rewrite ind_split in Ha by lia. pose proof (ind_nonneg a (p, n * 4096)). lia.
  - exists s2. split; [exact E|]. eapply put_post_more; [|exact Hp]. lia.
Qed.

(** The result of a request for [n] pages. *)
Definition alloc_post (s : buddy) (n : Z) (r : Result Z) (s' : buddy) : Prop :=
  buddy_inv s' ∧
  (∀ a, cov a (franges s') <= cov a (franges s)) ∧
  match r with
  | Ok p =>
      (PAGESIZE | p) ∧ 0 < p ∧ p + n * PAGESIZE <= LIMIT ∧
      (∀ a, p <= a < p + n * PAGESIZE → cov a (franges s) = 1 ∧ cov a (franges s') = 0) ∧
      (∀ a, owned a s' + ind a (p, n * PAGESIZE) = owned a s) ∧
      free_pages s' = free_pages s - n
  | Err e =>
      e = OUT_OF_MEMORY ∧
      ((s' = s ∧ ∀ j, pages2order n <= j <= MAX_BUDDY_ORDER → area s j = []) ∨
       ∃ p, ∀ a, owned a s' + ind a (p, n * PAGESIZE) = owned a s)
  end.

Lemma get_free_page_run s n :
  buddy_inv s → 1 <= n <= 2 ^ 15 → 64 <= room (pools s) →
  ∃ r s', get_free_page n s = Fin r s' ∧ alloc_post s n r s'.
Proof.
  intros (H & Hc & Hi) Hn Hr. destruct (pages2order_spec n Hn) as (Ho & Hle & _).
  unfold get_free_page, PAGESIZE, MAX_BUDDY_ORDER.
  rewrite (proj2 (Z.eqb_neq n 0)), shl64_1, (proj2 (Z.ltb_ge _ _)) by lia.
  set (o := pages2order n) in *. unfold mbind at 1, M_bind at 1.
  destruct (fetch_frame_order_spec expand o s H Ho ltac:(lia)) as [[-> Hemp]|(p & s1 & -> & Hal & Hf)].
  { eexists _, s. split; [done|split; [done|split; [done|split; [done|by left]]]]. }
  destruct (give_back_run s s1 p o n H Ho ltac:(lia) Hal Hf) as (s2 & E2 & Hp2).
  { pose proof (fd_room _ _ _ _ _ _ Hf). lia. }
  unfold PAGESIZE in E2. destruct Hf as [F1 F2 F3 F4 F5 F6 F7 F8].
  unfold mbind at 1, M_bind at 1. rewrite E2.
  destruct Hp2 as [P1 P2 P3 P4 P5 P6 P7]. pose proof (bsize_pages o ltac:(lia)) as Hbp.
  pose proof (fcount_nonneg (blocks s2)) as Hnn.
  assert (Hfree : ∀ a, cov a (franges s2) + ind a (p, n * 4096) = cov a (franges s)).
  { intros a. rewrite P2, <- F3. replace (bsize o) with (n * 4096 + (2 ^ o - n) * 4096) by lia.
    rewrite (ind_split a p) by lia. lia. }
  assert (How : ∀ a, owned a s2 + ind a (p, n * 4096) = owned a s).
  { intros a. unfold owned, pranges. rewrite (prange_fmap _ _ P3), (prange_fmap _ _ F4), <- Hfree. lia. }
  unfold mbind at 1, M_bind at 1, gets. unfold mbind at 1, M_bind at 1, massert.
  rewrite (proj2 (Z.leb_le _ _)) by lia. unfold mbind at 1, M_bind at 1, modify.
  set (s3 := set_free_pages (free_pages s2 - n) s2).
  assert (H3 : buddy_inv s3).
  { split; [by destruct P1; split|]. split; [|done]. change (blocks s3) with (blocks s2). simpl. lia. }
  destruct (maybe_expand_spec s3 H3) as (r & s' & E & Hinv & Hown & Hsub & Hfp & Hcase).
  { change (pools s3) with (pools s2). lia. }
  unfold mbind at 1, M_bind at 1. rewrite E.
  assert (How' : ∀ a, owned a s' + ind a (p, n * 4096) = owned a s).
  { intros a. rewrite Hown. change (owned a s3) with (owned a s2). apply How. }
  assert (Hshrink : ∀ a, cov a (franges s') <= cov a (franges s)).
  { intros a. rewrite <- Hfree. pose proof (ind_nonneg a (p, n * 4096)).
    specialize (Hsub a). change (franges s3) with (franges s2) in Hsub. lia. }
  destruct Hcase as [->| ->]; eexists _, s'; (split; [done|split; [done|split; [done|]]]).
  - unfold PAGESIZE. split_and!; [|lia|lia| |done|rewrite Hfp; simpl; congruence].
    + eapply Z.divide_trans; [|exact Hal]. rewrite Hbp. by apply Z.divide_factor_r.
    + intros a Ha. pose proof (Hfree a) as Hfa. pose proof (iv_disj _ H a) as Hd. unfold owned in Hd.
      pose proof (cov_nonneg a (franges s2)). pose proof (cov_nonneg a (pranges s)).
      pose proof (cov_nonneg a (franges s')). specialize (Hsub a).
      change (franges s3) with (franges s2) in Hsub.
      destruct (ind_spec a p (n * 4096)); lia.
  - split; [done|right]. by exists p.
Qed.

(** The result of giving back [n] pages at [p]. *)
Definition free_post (s : buddy) (p n : Z) (s' : buddy) : Prop :=
  buddy_inv s' ∧
  (∀ a, cov a (franges s') = cov a (franges s) + ind a (p, n * PAGESIZE)) ∧
  p_pa <$> pools s' = p_pa <$> pools s ∧ free_pages s' = free_pages s + n.

(** What a caller must guarantee to give pages back. *)
Record put_pre (s : buddy) (p n : Z) : Prop := {
  pr_pages : 0 < n;
  pr_start : 0 < p;
  pr_align : (PAGESIZE | p);
  pr_limit : p + n * PAGESIZE <= LIMIT;
  pr_counter : free_pages s + n < W64;
  pr_fresh : ∀ a, p <= a < p + n * PAGESIZE → owned a s = 0;
  pr_room : range_rounds (S (Z.to_nat n)) p n <= room (pools s);
}.

Lemma put_page_run s p n :
  buddy_inv s → put_pre s p n → ∃ s', put_page p n s = Fin (Ok tt) s' ∧ free_post s p n s'.
Proof.
  intros (H & Hc & Hi) [Hn Hp Hal Hl Hw Hfr Hr]. unfold PAGESIZE in *.
  set (s1 := set_free_pages (free_pages s + n) s).
  assert (H1 : inv s1) by (by destruct H; split).
  destruct (add_range_spec (S (Z.to_nat n)) p n s1 H1) as (s' & E & [P1 P2 P3 P4 P5 P6 P7]);
    [lia|lia|done|done|done| |done|].
  { intros a. change (owned a s1) with (owned a s). pose proof (iv_disj _ H a).
    destruct (ind_spec a p (n * 4096)) as [[Ha ->]|[_ ->]]; [rewrite Hfr by done|]; lia. }
  exists s'. split; [|split; [split; [done|split]|by split_and!]].
  - unfold put_page, nonnull. rewrite (proj2 (Z.eqb_neq p 0)), (proj2 (Z.eqb_neq n 0)) by lia. cbn [negb orb].
    unfold mbind, M_bind, massert, modify, aligned, PAGESIZE.
    rewrite (proj2 (Z.eqb_eq _ 0)) by (apply Z.mod_divide; [lia|done]).
    unfold add64. rewrite wrap64_small; [exact E|].
    pose proof (fcount_nonneg (blocks s)). unfold is_u64. lia.
  - rewrite P5, P6. change (blocks s1) with (blocks s). simpl. lia.
  - rewrite P6, P7. done.
Qed.


(** C23: release.  Giving back a page-aligned run that the allocator does not
    hold makes exactly these addresses free: every other address keeps its
    owner, the counter grows by the number of pages, the invariant holds (in
    particular the blocks are merged again), and no assertion fails, provided
    there is a node slot for each block the run is cut into. *)
Theorem put_page_spec s p n :
  buddy_inv s → put_pre s p n → ∃ s', put_page p n s = Fin (Ok tt) s' ∧ free_post s p n s'.
Proof. apply put_page_run. Qed.

(** ** The free lists are determined by the free memory *)

Lemma blocks_area s b : inv s → b ∈ blocks s → 0 <= b_order b <= 15 ∧ b ∈ area s (b_order b) ∧ blk_ok (b_order b) b.
Proof.
  intros H Hb. unfold blocks in Hb. apply list_elem_of_In, in_concat in Hb as (l & Hl & Hb).
  apply list_elem_of_In in Hl, Hb. apply list_elem_of_lookup in Hl as [i Hi].
  pose proof (lookup_lt_Some _ _ _ Hi) as Hlt. rewrite (iv_len _ H) in Hlt.
  pose proof (iv_area _ H _ _ Hi) as [Hall _ _]. rewrite Forall_forall in Hall.
  pose proof (Hall b Hb) as Hok. pose proof (bo_order _ _ Hok) as E. rewrite E.
  split_and!; [lia|lia| |done]. unfold area. replace (Z.to_nat (Z.of_nat i)) with i by lia. by rewrite Hi.
Qed.

Lemma cov_blocks a l :
  1 <= cov a (brange <$> l) → ∃ b, b ∈ l ∧ b_paddr b <= a < b_paddr b + bsize (b_order b).
Proof.
  induction l as [|b l IH]; [by cbn; lia|]. rewrite fmap_cons.
  change (1 <= ind a (brange b) + cov a (brange <$> l) → ∃ b0, b0 ∈ b :: l ∧ b_paddr b0 <= a < b_paddr b0 + bsize (b_order b0)).
  unfold brange at 1. destruct (ind_spec a (b_paddr b) (bsize (b_order b))) as [[Ha ->]|[_ ->]]; intros Hc.
  - exists b. split; [by left|done].
  - destruct (IH Hc) as (c & Hc' & Hr). exists c. split; [by right|done].
Qed.

Lemma bsize_divide k o : 0 <= k <= o → (bsize k | bsize o).
Proof. intros. unfold bsize. exists (2 ^ (o - k)). rewrite <- Z.pow_add_r by lia. f_equal. lia. Qed.

(** A block that holds one address of a smaller aligned region holds it all. *)
Lemma dyadic_contains p o q k :
  0 <= k <= o → (bsize o | p) → (bsize k | q) → p <= q < p + bsize o → q + bsize k <= p + bsize o.
Proof.
  intros Hk Hp Hq Hr.
  assert (Hd : (bsize k | p + bsize o)).
  { apply Z.divide_add_r; [eapply Z.divide_trans; [|exact Hp]|]; by apply bsize_divide. }
  pose proof (between_multiples q (p + bsize o) k ltac:(lia) Hq Hd). lia.
Qed.

(** In a fully merged state an aligned region that is free throughout lies in
    one block. *)
Lemma covered_region s k q :
  inv s → (Z.of_nat k <= 15) → (bsize (Z.of_nat k) | q) → 0 <= q →
  (∀ a, q <= a < q + bsize (Z.of_nat k) → 1 <= cov a (franges s)) →
  ∃ b, b ∈ blocks s ∧ Z.of_nat k <= b_order b ∧ b_paddr b <= q ∧
    q + bsize (Z.of_nat k) <= b_paddr b + bsize (b_order b).
Proof.
  intros H. revert q. induction k as [|k IH]; intros q Hk Hq Hq0 Hcov.
  { destruct (cov_blocks q (blocks s)) as (b & Hb & Hr).
    { apply Hcov. pose proof (bsize_pos (Z.of_nat 0) ltac:(lia)). lia. }
    destruct (blocks_area s b H Hb) as (Ho & _ & [_ _ Hal _]). exists b. split_and!; [done|lia|lia|].
    apply (dyadic_contains _ _ q); [lia|done|done|done]. }
  replace (Z.of_nat (S k)) with (Z.of_nat k + 1) in * by lia. set (j := Z.of_nat k) in *.
  pose proof (bsize_pos j ltac:(lia)) as Hpos. pose proof (bsize_succ j ltac:(lia)) as Hs.
  assert (Hqj : (bsize j | q)) by (eapply Z.divide_trans; [|exact Hq]; apply bsize_divide; lia).
  destruct (IH q) as (b1 & Hb1 & Hk1 & Hp1 & He1); [lia|done|done|intros a Ha; apply Hcov; lia|].
  destruct (IH (q + bsize j)) as (b2 & Hb2 & Hk2 & Hp2 & He2);
    [lia|apply Z.divide_add_r; [done|apply Z.divide_refl]|lia|intros a Ha; apply Hcov; lia|].
  destruct (blocks_area s b1 H Hb1) as (Ho1 & Ha1 & [_ _ Hal1 _]).
  destruct (blocks_area s b2 H Hb2) as (Ho2 & Ha2 & [_ _ Hal2 _]).
  destruct (Z.eq_dec (b_order b1) j) as [E1|E1].
  2: { exists b1. split_and!; [done|lia|lia|]. apply (dyadic_contains _ _ q); [lia|done|done|lia]. }
  destruct (Z.eq_dec (b_order b2) j) as [E2|E2].
  2: { assert (b_paddr b2 <= q).
       { destruct (Z.le_gt_cases (b_paddr b2) q); [done|].
         pose proof (between_multiples q (b_paddr b2) (j + 1) ltac:(lia) Hq) as Hx.
         specialize (Hx ltac:(eapply Z.divide_trans; [|exact Hal2]; apply bsize_divide; lia)). lia. }
       exists b2. split_and!; [done|lia|lia|]. apply (dyadic_contains _ _ q); [lia|done|done|lia]. }
  exfalso. rewrite E1 in *. rewrite E2 in *.
  assert (b_paddr b1 = q) as Eq1 by lia. assert (b_paddr b2 = q + bsize j) as Eq2 by lia.
  destruct (lxor_buddy q j) as [[E _]|[_ Hd]]; [lia|lia|done| |].
  - apply (ao_merged _ _ (area_inv s j H ltac:(lia)) ltac:(unfold MAX_BUDDY_ORDER; lia) b1 b2); [done|done|].
    by rewrite Eq1, Eq2, E.
  - assert (Hbad : (bsize (j + 1) | bsize j)).
    { replace (bsize j) with (q - (q - bsize j)) by lia. by apply Z.divide_sub_r. }
    apply Z.divide_pos_le in Hbad; lia.
Qed.

Lemma overlap_eq s b c a :
  inv s → b ∈ blocks s → c ∈ blocks s →
  b_paddr b <= a < b_paddr b + bsize (b_order b) → b_paddr c <= a < b_paddr c + bsize (b_order c) → b = c.
Proof.
  intros H Hb Hc Hab Hac. destruct (decide (b = c)) as [|Hne]; [done|exfalso].
  apply list_elem_of_split in Hb as (l1 & l2 & E).
  assert (Hp : blocks s ≡ₚ b :: (l1 ++ l2)) by (rewrite E; by rewrite Permutation_middle).
  rewrite Hp, elem_of_cons in Hc. destruct Hc as [->|Hc]; [done|].
  pose proof (iv_disj _ H a) as Hd. unfold owned, franges in Hd. rewrite Hp, fmap_cons in Hd.
  pose proof (cov_nonneg a (pranges s)). pose proof (brange_elem a c _ Hc) as Hcc.
  change (ind a (brange b) + cov a (brange <$> l1 ++ l2) + cov a (pranges s) <= 1) in Hd.
  unfold brange at 1 in Hcc. unfold brange at 1 in Hd.
  destruct (ind_spec a (b_paddr b) (bsize (b_order b))), (ind_spec a (b_paddr c) (bsize (b_order c))); lia.
Qed.

Lemma free_covered s b a :
  b ∈ blocks s → b_paddr b <= a < b_paddr b + bsize (b_order b) → 1 <= cov a (franges s).
Proof.
  intros Hb Ha. pose proof (brange_elem a b _ Hb) as Hc. unfold brange at 1 in Hc.
  destruct (ind_spec a (b_paddr b) (bsize (b_order b))) as [[_ E]|[? _]]; [|lia].
  rewrite E in Hc. exact Hc.
Qed.

Lemma same_free_block s1 s2 b :
  inv s1 → inv s2 → (∀ a, cov a (franges s1) = cov a (franges s2)) → b ∈ blocks s1 →
  ∃ c, c ∈ blocks s2 ∧ b_paddr c = b_paddr b ∧ b_order c = b_order b.
Proof.
  intros H1 H2 Hcov Hb. destruct (blocks_area s1 b H1 Hb) as (Ho & _ & [_ Hp Hal _]).
  pose proof (bsize_pos (b_order b) ltac:(lia)) as Hpos.
  destruct (covered_region s2 (Z.to_nat (b_order b)) (b_paddr b) H2) as (c & Hc & Hk & Hle & Hend);
    rewrite ?Z2Nat.id in * by lia; [lia|done|lia|intros a Ha; rewrite <- Hcov; by eapply free_covered|].
  destruct (blocks_area s2 c H2 Hc) as (Hoc & _ & [_ Hpc Halc _]).
  pose proof (bsize_pos (b_order c) ltac:(lia)).
  destruct (covered_region s1 (Z.to_nat (b_order c)) (b_paddr c) H1) as (d & Hd & Hk' & Hle' & Hend');
    rewrite ?Z2Nat.id in * by lia; [lia|done|lia|intros a Ha; rewrite Hcov; by eapply free_covered|].
  assert (b = d) as <- by (apply (overlap_eq s1 b d (b_paddr b)); [done|done|done|lia|lia]).
  assert (E : b_order c = b_order b) by lia. exists c. split_and!; [done| |done]. rewrite E in *. lia.
Qed.

#[local] Instance Zlt_antisymm : AntiSymm (=) Z.lt.
Proof. intros x y ??. lia. Qed.

Lemma sorted_lt_NoDup (l : list Z) : StronglySorted Z.lt l → NoDup l.
Proof.
  induction 1 as [|x l _ IH Hall]; constructor; [|done]. rewrite Forall_forall in Hall.
  intros Hx. specialize (Hall x Hx). lia.
Qed.

(** Two consistent states with the same free addresses have the same free
    lists. *)
Lemma buddy_canonical s1 s2 o :
  inv s1 → inv s2 → (∀ a, cov a (franges s1) = cov a (franges s2)) → 0 <= o <= 15 →
  b_paddr <$> area s1 o = b_paddr <$> area s2 o.
Proof.
  intros H1 H2 Hcov Ho.
  assert (Hin : ∀ s s' p, inv s → inv s' → (∀ a, cov a (franges s) = cov a (franges s')) →
            p ∈ b_paddr <$> area s o → p ∈ b_paddr <$> area s' o).
  { intros s s' p H H' Hc. rewrite !list_elem_of_fmap. intros (b & -> & Hb).
    pose proof (area_inv s o H Ho) as [Hall _ _]. rewrite Forall_forall in Hall.
    destruct (same_free_block s s' b H H' Hc (elem_area s o b H Ho Hb)) as (c & Hc' & Ep & Eo).
    destruct (blocks_area s' c H' Hc') as (_ & Hca & _).
    exists c. split; [done|]. by rewrite <- (bo_order _ _ (Hall b Hb)), <- Eo. }
  assert (Hss : ∀ s, inv s → StronglySorted Z.lt (b_paddr <$> area s o)).
  { intros s H. pose proof (area_inv s o H Ho) as [_ Hs _]. clear -Hs.
    induction Hs as [|b l Hs IH Hall]; [constructor|]. rewrite fmap_cons. constructor; [done|].
    rewrite Forall_fmap. eapply Forall_impl; [exact Hall|done]. }
  apply (StronglySorted_unique Z.lt); [by apply Hss|by apply Hss|]. apply NoDup_Permutation.
  - by apply sorted_lt_NoDup, Hss.
  - by apply sorted_lt_NoDup, Hss.
  - intros p. by split; apply Hin.
Qed.

(** Allocation and release cancel.  When a request succeeds without
    expanding the node pools, giving the pages back restores every free list
    block by block, and the counter. *)
Theorem alloc_free_roundtrip s n p s1 :
  buddy_inv s → 1 <= n <= 2 ^ 15 → 64 <= room (pools s) → free_pages s < W64 →
  get_free_page n s = Fin (Ok p) s1 → p_pa <$> pools s1 = p_pa <$> pools s →
  range_rounds (S (Z.to_nat n)) p n <= room (pools s1) →
  ∃ s2, put_page p n s1 = Fin (Ok tt) s2 ∧ free_pages s2 = free_pages s ∧
    ∀ o, 0 <= o <= MAX_BUDDY_ORDER → b_paddr <$> area s2 o = b_paddr <$> area s o.
Proof.
  intros H Hn Hr Hw E Hpa Hrounds.
  destruct (get_free_page_run s n H Hn Hr) as (r & s' & E' & Hinv & _ & Hpost).
  rewrite E in E'. simplify_eq. destruct Hpost as (Hal & Hp & Hl & Hfree & How & Hcnt).
  assert (Hpre : put_pre s' p n).
  { split; try done; try lia. intros a Ha. specialize (How a). pose proof (iv_disj _ (proj1 H) a).
    pose proof (cov_nonneg a (franges s')). pose proof (cov_nonneg a (pranges s')).
    destruct (ind_spec a p (n * PAGESIZE)) as [[_ E1]|[? _]]; [|lia]. unfold owned in *. lia. }
  destruct (put_page_run s' p n Hinv Hpre) as (s2 & E2 & Hinv2 & Hcov & _ & Hcnt2).
  exists s2. split_and!; [done|lia|]. intros o Ho.
  apply buddy_canonical; [apply Hinv2|apply H| |done].
  intros a. rewrite Hcov. specialize (How a). unfold owned, pranges in How.
  rewrite (prange_fmap _ _ Hpa) in How. lia.
Qed.

(** The state after [pre_init] is consistent. *)
Lemma pre_init_inv pool0 : buddy_inv (pre_init pool0).
Proof.
  assert (Hb : blocks (pre_init pool0) = []) by done.
  split; [split|by split].
  - done.
  - intros i l Hl. apply lookup_replicate in Hl as [-> _].
    split; [done|constructor|]. intros _ x y Hx. by apply not_elem_of_nil in Hx.
  - simpl. constructor; [apply init_pool_wf|done].
  - rewrite Hb. change (pools (pre_init pool0)) with ([] ++ [init_pool pool0]).
    by rewrite all_nodes_attach.
  - intros a. unfold owned, franges. rewrite Hb. simpl.
    destruct (ind_spec a pool0 (FREEBLOCK_POOL_SIZE * SIZEOF_FREEBLOCK)) as [[_ E]|[_ E]];
      unfold prange; simpl; rewrite E; done.
Qed.

(** ** Witnesses: a pool at 2 MiB above the load address, 100 pages at 4 MiB. *)
Module BuddyWitness.
Definition ex_init : buddy := pre_init 0x80200000.
Definition state_of {A} (o : outcome buddy A) : buddy :=
  match o with Fin _ s => s | _ => ex_init end.
Definition ex_buddy : buddy := state_of (put_page 0x80400000 100 ex_init).
Definition ex_taken : buddy := state_of (get_free_page 3 ex_buddy).

Lemma ex_pre : put_pre ex_init 0x80400000 100.
Proof.
  split; [lia|lia|by exists 0x80400|vm_compute; congruence|vm_compute; congruence| |
          apply Z.leb_le; vm_compute; reflexivity].
  intros a Ha. unfold owned. simpl. unfold prange. simpl.
  destruct (ind_spec a 0x80200000 (FREEBLOCK_POOL_SIZE * SIZEOF_FREEBLOCK)) as [[Hr _]|[_ E]].
  - unfold FREEBLOCK_POOL_SIZE, SIZEOF_FREEBLOCK, PAGESIZE in *. lia.
  - rewrite E. done.
Qed.

Lemma ex_buddy_inv : buddy_inv ex_buddy.
Proof.
  destruct (put_page_run ex_init _ _ (pre_init_inv _) ex_pre) as (s' & E & H & _).
  unfold ex_buddy. by rewrite E.
Qed.


Lemma put_page_spec_witness :
  ∃ s', put_page 0x80400000 100 ex_init = Fin (Ok tt) s' ∧ free_post ex_init 0x80400000 100 s'.
Proof. apply (put_page_spec ex_init 0x80400000 100 (pre_init_inv _) ex_pre). Defined.

Lemma alloc_free_roundtrip_witness :
  ∃ s2, put_page 0x80460000 3 ex_taken = Fin (Ok tt) s2 ∧ free_pages s2 = free_pages ex_buddy ∧
    ∀ o, 0 <= o <= MAX_BUDDY_ORDER → b_paddr <$> area s2 o = b_paddr <$> area ex_buddy o.
Proof.
  apply (alloc_free_roundtrip ex_buddy 3 0x80460000 ex_taken ex_buddy_inv).
  - lia.
  - apply Z.leb_le. vm_compute. reflexivity.
  - vm_compute. reflexivity.
  - vm_compute. reflexivity.
  - vm_compute. reflexivity.
  - apply Z.leb_le. vm_compute. reflexivity.
Defined.
End BuddyWitness.

End Buddy.
