(* ===== verification/Gfp.v ===== *)
(** * Reference-counted page frames

    [GFP] of kernel/mem/gfp.h and kernel/mem/gfp.cpp: the kernel's page-frame
    interface, a table of reference counts (for the copy-on-write pages that
    address spaces share) on top of a raw allocator.  The raw allocator is the
    concept [RawGFP] of kernel/mem/gfp_def.h, here a type class with the
    contract [GFP] relies on; [BuddyAllocator] and [LinearGrowGFP] are its
    instances. *)
From S2P Require Import Prelude ErrCode Addr Buddy.

Module Gfp.

(** ** The concept [RawGFP] *)

(** Page number [pfn] lies in the [n] pages from address [p]. *)
Definition in_pages (pfn p n : Z) : Prop := p / PAGESIZE <= pfn < p / PAGESIZE + n.
#[export] Instance in_pages_dec pfn p n : Decision (in_pages pfn p n).
Proof. unfold in_pages. apply _. Defined.

Class RawGFP (S : Type) := {
  raw_get_free_page : Z → M S Z;
  raw_put_page : Z → Z → M S unit;
  (** consistency, the free pages, and when a call is allowed *)
  raw_inv : S → Prop;
  raw_free : S → Z → Prop;
  raw_get_pre : S → Z → Prop;
  raw_put_pre : S → Z → Z → Prop;
  (** an allocation hands out free pages, and makes none free *)
  raw_get_law s n :
    raw_inv s → raw_get_pre s n →
    ∃ r s', raw_get_free_page n s = Fin r s' ∧ raw_inv s' ∧
      (∀ q, raw_free s' q → raw_free s q) ∧
      match r with
      | Ok p => (PAGESIZE | p) ∧ is_u64 p ∧ ∀ q, in_pages q p n → raw_free s q ∧ ~ raw_free s' q
      | Err _ => True
      end;
  (** a release makes at most the given pages free *)
  raw_put_law s p n :
    raw_inv s → raw_put_pre s p n →
    ∃ s', raw_put_page p n s = Fin (Ok tt) s' ∧ raw_inv s' ∧
      ∀ q, raw_free s' q → raw_free s q ∨ in_pages q p n;
}.

(** ** [LinearGrowGFP] *)

Record linear := mkLinear { curaddr : Z; boundary : Z }.

Record MemRegion := { rg_begin : Z; rg_size : Z; rg_free : bool }.
(** The scan of [pre_init]: the largest free region. *)
Definition largest_region (rs : list MemRegion) : Z * Z :=
  foldl (λ '(base, max_size) r,
           if rg_free r && (max_size <? rg_size r) then (rg_begin r, rg_size r) else (base, max_size))
    (0, 0) rs.
Definition linear_pre_init (rs : list MemRegion) : option linear :=
  let '(base, max_size) := largest_region rs in
  baseaddr ← mk_addr PA (page_align_up base);
  bound ← mk_addr PA (add64 baseaddr max_size);
  bound ← mk_addr PA (page_align_down bound);
  Some (mkLinear baseaddr bound).

Definition linear_get_free_page (page_count : Z) : M linear Z := λ s,
  let bound := add64 (curaddr s) (mul64 page_count PAGESIZE) in
  if negb (within_scope bound PA) then Panic
  else if boundary s <? bound then Fin (Err OUT_OF_MEMORY) s
  else Fin (Ok (curaddr s)) (mkLinear bound (boundary s)).
Definition linear_put_page (addr page_count : Z) : M linear unit := mret tt.

(** ** [GFP] *)

Definition MAX_TRACKED_MEMORY : Z := 4 * 1024 * 1024 * 1024.
Definition MAX_TRACKED_PAGES : Z := MAX_TRACKED_MEMORY / PAGESIZE.

Definition topfn (addr : Z) : Z := page_align_down addr / PAGESIZE.
Definition tracked (addr page_count : Z) : bool :=
  let pfn := topfn addr in
  (pfn <? MAX_TRACKED_PAGES) && (page_count <=? MAX_TRACKED_PAGES - pfn).

Section gfp.
Context {S : Type} `{RawGFP S}.

(** The table of counts holds 0 where it has no entry. *)
Record gfp := mkGfp { g_raw : S; refcounts : gmap Z Z; page_table_pages : Z }.

Definition ref (g : gfp) (pfn : Z) : Z := default 0 (refcounts g !! pfn).
Definition set_raw s g := mkGfp s (refcounts g) (page_table_pages g).
Definition set_refs f g := mkGfp (g_raw g) (f (refcounts g)) (page_table_pages g).
Definition set_ptp n g := mkGfp (g_raw g) (refcounts g) n.

Definition lift {A} (m : M S A) : M gfp A := λ g,
  match m (g_raw g) with
  | Fin r s => Fin r (set_raw s g)
  | Panic => Panic
  | OutOfFuel => OutOfFuel
  end.

Definition get_free_page (page_count : Z) : M gfp Z :=
  paddr ← lift (raw_get_free_page page_count);
  _ ← (if tracked paddr page_count
       then modify (set_refs (λ m, foldl (λ m i, <[topfn paddr + i := 1]> m) m (seqZ 0 page_count)))
       else mret tt);
  mret paddr.

(** [RawGFPImpl::put_page(addr + run_start * PAGESIZE, run_len)] *)
Definition raw_release (addr run_start run_len : Z) : M gfp unit :=
  match mk_addr PA (add64 addr (mul64 run_start PAGESIZE)) with
  | None => panic
  | Some a => lift (raw_put_page a run_len)
  end.

(** The loop of [put_page] from page [i] on, with the run collected so far. *)
Fixpoint put_loop (k : nat) (addr pfn i run_start run_len : Z) : M gfp unit :=
  match k with
  | O => if negb (run_len =? 0) then raw_release addr run_start run_len else mret tt
  | Datatypes.S k =>
      r ← gets (λ g, ref g (pfn + i));
      _ ← (if 0 <? r then modify (set_refs <[pfn + i := r - 1]>) else mret tt);
      r ← gets (λ g, ref g (pfn + i));
      if r =? 0 then
        put_loop k addr pfn (i + 1) (if run_len =? 0 then i else run_start) (run_len + 1)
      else if negb (run_len =? 0) then
        _ ← raw_release addr run_start run_len;
        put_loop k addr pfn (i + 1) run_start 0
      else put_loop k addr pfn (i + 1) run_start 0
  end.

Definition put_page (addr page_count : Z) : M gfp unit :=
  if negb (nonnull addr) then mret tt
  else if negb (tracked addr page_count) then lift (raw_put_page addr page_count)
  else put_loop (Z.to_nat page_count) addr (topfn addr) 0 0 0.

Definition keep_page (addr page_count : Z) : M gfp unit :=
  if negb (tracked addr page_count) then mret tt
  else modify (λ g, set_refs (λ m,
         foldl (λ m i, <[topfn addr + i := add64 (default 0 (m !! (topfn addr + i))) 1]> m)
           m (seqZ 0 page_count)) g).

Definition ref_count (addr : Z) (g : gfp) : Z :=
  if negb (tracked addr 1) then 1 else ref g (topfn addr).

Definition page_gfp : M gfp Z :=
  p ← get_free_page 1;
  _ ← modify (λ g, set_ptp (add64 (page_table_pages g) 1) g);
  mret p.

Definition page_putpage (addr : Z) : M gfp unit :=
  if negb (nonnull addr) then mret tt
  else
    _ ← put_page addr 1;
    modify (λ g, if 0 <? page_table_pages g then set_ptp (page_table_pages g - 1) g else g).
End gfp.
Arguments gfp : clear implicits.

(** ** What [put_page] releases *)

(** The maximal runs of [true], as (start, length), counting from [i]. *)
Fixpoint runs (i : Z) (l : list bool) : list (Z * Z) :=
  match l with
  | [] => []
  | false :: l => runs (i + 1) l
  | true :: l =>
      match runs (i + 1) l with
      | (st, len) :: rest =>
          if st =? i + 1 then (i, len + 1) :: rest else (i, 1) :: (st, len) :: rest
      | [] => [(i, 1)]
      end
  end.

Definition in_run (j : Z) (r : Z * Z) : Prop := r.1 <= j < r.1 + r.2.

Lemma runs_start i l st len rest : runs i l = (st, len) :: rest → i <= st ∧ 0 < len.
Proof.
  revert i st len rest. induction l as [|[] l IH]; intros i st len rest; simpl; [done| |].
  - destruct (runs (i + 1) l) as [|[st' len'] rest'] eqn:E; [intros; simplify_eq; lia|].
    destruct (IH _ _ _ _ E). destruct (Z.eqb_spec st' (i + 1)); intros; simplify_eq; lia.
  - intros E. destruct (IH _ _ _ _ E). lia.
Qed.

(** The runs hold exactly the positions that are [true]. *)
Lemma runs_spec i l j :
  (∃ r, r ∈ runs i l ∧ in_run j r) ↔ l !! Z.to_nat (j - i) = Some true ∧ i <= j.
Proof.
  revert i. induction l as [|b l IH]; intros i.
  - split; [by intros (r & ?%not_elem_of_nil & _)|by intros [? _]].
  - assert (Hhd : (b :: l) !! Z.to_nat (j - i) = Some true ∧ i <= j ↔
              (j = i ∧ b = true) ∨ (l !! Z.to_nat (j - (i + 1)) = Some true ∧ i + 1 <= j)).
    { destruct (Z.eq_dec j i) as [->|Hne].
      - rewrite Z.sub_diag. simpl. split; [intros [[= ->] _]; by left|].
        intros [[_ ->]|[_ ?]]; [done|lia].
      - split.
        + intros [Hl Hle]. right. replace (Z.to_nat (j - i)) with (S (Z.to_nat (j - (i + 1)))) in Hl by lia.
          split; [done|lia].
        + intros [[? _]|[Hl Hle]]; [done|]. split; [|lia].
          by replace (Z.to_nat (j - i)) with (S (Z.to_nat (j - (i + 1)))) by lia. }
    rewrite Hhd, <- IH. clear Hhd IH. destruct b; simpl.
    + destruct (runs (i + 1) l) as [|[st len] rest] eqn:E.
      * split.
        -- intros (r & ->%list_elem_of_singleton & Hr). unfold in_run in Hr; simpl in Hr. left. split; [lia|done].
        -- intros [[-> _]|(r & ?%not_elem_of_nil & _)]; [|done]. exists (i, 1). split; [left|unfold in_run; simpl; lia].
      * destruct (runs_start _ _ _ _ _ E) as [Hst Hlen].
        destruct (Z.eqb_spec st (i + 1)) as [->|Hne]; split.
        -- intros (r & [->|Hr]%elem_of_cons & Hj).
           ++ unfold in_run in Hj; simpl in Hj. destruct (Z.eq_dec j i); [by left|right].
              exists (i + 1, len). split; [left|unfold in_run; simpl; lia].
           ++ right. exists r. split; [by right|done].
        -- intros [[-> _]|(r & [->|Hr]%elem_of_cons & Hj)].
           ++ exists (i, len + 1). split; [left|unfold in_run; simpl; lia].
           ++ exists (i, len + 1). split; [left|unfold in_run in *; simpl in *; lia].
           ++ exists r. split; [by right|done].
        -- intros (r & [->|Hr]%elem_of_cons & Hj).
           ++ unfold in_run in Hj; simpl in Hj. left. split; [lia|done].
           ++ right. exists r. by split.
        -- intros [[-> _]|(r & Hr & Hj)].
           ++ exists (i, 1). split; [left|unfold in_run; simpl; lia].
           ++ exists r. split; [by right|done].
    + split; [by right|]. intros [[_ ?]|?]; done.
Qed.

Section put.
Context {S : Type} `{RawGFP S}.
Implicit Types (g : gfp S) (s : S).

(** The releases of the runs, in order. *)
Fixpoint raw_puts (addr : Z) (rs : list (Z * Z)) : M S unit :=
  match rs with
  | [] => mret tt
  | (st, len) :: rs => _ ← raw_put_page (addr + st * PAGESIZE) len; raw_puts addr rs
  end.

(** A run still open in front of the runs from [i] on. *)
Definition pend (rs rl i : Z) (l : list (Z * Z)) : list (Z * Z) :=
  if rl =? 0 then l
  else match l with
       | (st, len) :: rest => if st =? i then (rs, rl + len) :: rest else (rs, rl) :: l
       | [] => [(rs, rl)]
       end.

Definition last_ref (m : gmap Z Z) (q : Z) : bool := default 0 (m !! q) <=? 1.
Definition flags (m : gmap Z Z) (pfn i : Z) (k : nat) : list bool :=
  (λ j, last_ref m (pfn + j)) <$> seqZ i (Z.of_nat k).
Definition dec_ref (m : gmap Z Z) (q : Z) : gmap Z Z :=
  let r := default 0 (m !! q) in if 0 <? r then <[q := r - 1]> m else m.
Definition dec_refs (m : gmap Z Z) (pfn i : Z) (k : nat) : gmap Z Z :=
  foldl (λ m j, dec_ref m (pfn + j)) m (seqZ i (Z.of_nat k)).

Lemma raw_release_run addr st len g s' :
  0 <= addr → 0 <= st → addr + st * PAGESIZE <= Buddy.LIMIT →
  raw_put_page (addr + st * PAGESIZE) len (g_raw g) = Fin (Ok tt) s' →
  raw_release addr st len g = Fin (Ok tt) (set_raw s' g).
Proof.
  intros Ha Hs Hl E. unfold raw_release, PAGESIZE in *.
  unfold Buddy.LIMIT, KVA_OFFSET, KPA_OFFSET in Hl.
  assert (Em : mul64 st 4096 = st * 4096) by (apply wrap64_small; unfold is_u64, W64; lia).
  assert (Ea : add64 addr (st * 4096) = addr + st * 4096) by (apply wrap64_small; unfold is_u64, W64; lia).
  rewrite Em, Ea. unfold mk_addr. replace (within_scope _ PA) with true.
  - unfold lift. by rewrite E.
  - symmetry. unfold within_scope. destruct (Z.eqb_spec (addr + st * 4096) 0); [done|]. simpl.
    unfold NULL_ADDR, KPA_OFFSET. apply andb_true_iff. split; apply Z.leb_le; lia.
Qed.

Lemma seqZ_cons_nat i (k : nat) :
  seqZ i (Z.of_nat (Datatypes.S k)) = i :: seqZ (i + 1) (Z.of_nat k).
Proof. rewrite seqZ_cons by lia. f_equal. f_equal; lia. Qed.

Lemma flags_dec m pfn i k :
  flags (dec_ref m (pfn + i)) pfn (i + 1) k = flags m pfn (i + 1) k.
Proof.
  unfold flags. apply list_fmap_ext. intros j q Hq. unfold last_ref, dec_ref.
  assert (i < q). { apply list_elem_of_lookup_2, elem_of_seqZ in Hq. lia. }
  destruct (0 <? _); [|done]. by rewrite lookup_insert_ne by lia.
Qed.

Lemma raw_puts_cons addr st len rs s s' :
  raw_puts addr ((st, len) :: rs) s = Fin (Ok tt) s' →
  ∃ s1, raw_put_page (addr + st * PAGESIZE) len s = Fin (Ok tt) s1 ∧ raw_puts addr rs s1 = Fin (Ok tt) s'.
Proof.
  simpl. unfold mbind, M_bind. destruct (raw_put_page _ _ s) as [[[]|] s1| |] eqn:E; try done. eauto.
Qed.


Definition refs_ok (m : gmap Z Z) : Prop := ∀ q, 0 <= default 0 (m !! q).

Lemma dec_ref_lookup m q q' :
  default 0 (dec_ref m q !! q') =
  if q =? q' then (if 0 <? default 0 (m !! q') then default 0 (m !! q') - 1 else default 0 (m !! q'))
  else default 0 (m !! q').
Proof.
  unfold dec_ref. destruct (Z.eqb_spec q q') as [->|Hne].
  - destruct (Z.ltb_spec 0 (default 0 (m !! q'))); [by rewrite lookup_insert_eq|done].
  - destruct (0 <? _); [by rewrite lookup_insert_ne|done].
Qed.

Lemma dec_ref_ok m q : refs_ok m → refs_ok (dec_ref m q).
Proof.
  intros Hm q'. rewrite dec_ref_lookup. pose proof (Hm q'). repeat case_match; zify_bools; lia.
Qed.

(** One round of the loop: the count goes down, and whether it is now zero. *)
Lemma put_loop_round k addr pfn i rs rl g :
  refs_ok (refcounts g) →
  put_loop (Datatypes.S k) addr pfn i rs rl g =
  (if last_ref (refcounts g) (pfn + i)
   then put_loop k addr pfn (i + 1) (if rl =? 0 then i else rs) (rl + 1)
   else if negb (rl =? 0) then _ ← raw_release addr rs rl; put_loop k addr pfn (i + 1) rs 0
   else put_loop k addr pfn (i + 1) rs 0) (set_refs (λ m, dec_ref m (pfn + i)) g).
Proof.
  intros Hm. cbn [put_loop]. unfold mbind at 1 2 3, M_bind at 1 2 3, gets.
  specialize (Hm (pfn + i)). unfold last_ref.
  set (r := default 0 (refcounts g !! (pfn + i))) in *.
  assert (Hg : set_refs (λ m, dec_ref m (pfn + i)) g =
               if 0 <? r then set_refs <[pfn + i := r - 1]> g else g).
  { unfold set_refs, dec_ref. fold r. destruct (0 <? r); [done|by destruct g]. }
  rewrite Hg. change (ref g (pfn + i)) with r.
  destruct (Z.ltb_spec 0 r) as [Hr|Hr]; cbv beta iota delta [modify mret M_ret].
  - unfold ref at 1. cbn [refcounts set_refs]. rewrite lookup_insert_eq. cbn [default from_option id].
    destruct (Z.eqb_spec (r - 1) 0), (Z.leb_spec r 1); try lia; done.
  - change (ref g (pfn + i)) with r.
    by rewrite (proj2 (Z.eqb_eq r 0)), (proj2 (Z.leb_le r 1)) by lia.
Qed.

Lemma gfp_put_loop_spec k addr pfn i rs rl g s' :
  refs_ok (refcounts g) → 0 <= addr → 0 <= i → 0 <= rs → 0 <= rl → (rl ≠ 0 → rs + rl = i) →
  addr + (i + Z.of_nat k) * PAGESIZE <= Buddy.LIMIT →
  raw_puts addr (pend rs rl i (runs i (flags (refcounts g) pfn i k))) (g_raw g) = Fin (Ok tt) s' →
  put_loop k addr pfn i rs rl g =
  Fin (Ok tt) (mkGfp s' (dec_refs (refcounts g) pfn i k) (page_table_pages g)).
Proof.
  revert i rs rl g. induction k as [|k IH]; intros i rs rl g Hm Ha Hi Hs Hl Hadj Hlim Hraw.
  - change (flags (refcounts g) pfn i 0) with (@nil bool) in Hraw. cbn [runs] in Hraw.
    unfold pend in Hraw. cbn [put_loop]. destruct (Z.eqb_spec rl 0) as [->|Hrl]; cbn [negb].
    + cbn [raw_puts] in Hraw. unfold mret, M_ret in *. simplify_eq. by destruct g.
    + apply raw_puts_cons in Hraw as (s1 & E & Hs1). cbn [raw_puts] in Hs1.
      unfold mret, M_ret in Hs1. simplify_eq. rewrite (raw_release_run _ _ _ _ _ Ha Hs ltac:(unfold PAGESIZE in *; lia) E). by destruct g.
  - assert (Hlim' : addr + (i + 1 + Z.of_nat k) * PAGESIZE <= Buddy.LIMIT)
      by (unfold PAGESIZE in *; lia).
    rewrite put_loop_round by done. set (g1 := set_refs _ g).
    assert (Hm1 : refs_ok (refcounts g1)) by by apply dec_ref_ok.
    assert (Hfl : flags (refcounts g) pfn i (Datatypes.S k) =
                  last_ref (refcounts g) (pfn + i) :: flags (refcounts g1) pfn (i + 1) k).
    { unfold flags at 1. rewrite seqZ_cons_nat, fmap_cons. f_equal. symmetry. apply flags_dec. }
    assert (Hdec : dec_refs (refcounts g) pfn i (Datatypes.S k) = dec_refs (refcounts g1) pfn (i + 1) k)
      by (unfold dec_refs; by rewrite seqZ_cons_nat).
    rewrite Hdec. change (page_table_pages g) with (page_table_pages g1).
    change (g_raw g) with (g_raw g1) in Hraw. rewrite Hfl in Hraw.
    destruct (last_ref (refcounts g) (pfn + i)) eqn:Elast; cbn [runs] in Hraw.
    + apply IH; try done; try lia; [destruct (rl =? 0); lia|destruct (Z.eqb_spec rl 0); lia|].
      rewrite <- Hraw. f_equal. unfold pend. rewrite (proj2 (Z.eqb_neq (rl + 1) 0)) by lia.
      destruct (runs (i + 1) _) as [|[st len] rest]; destruct (Z.eqb_spec rl 0) as [->|Hrl]; try done.
      * by rewrite Z.eqb_refl.
      * destruct (Z.eqb_spec st (i + 1)); [|done]. f_equal. f_equal. lia.
      * destruct (Z.eqb_spec st (i + 1)); rewrite Z.eqb_refl; [|done]. f_equal. f_equal. lia.
    + destruct (Z.eqb_spec rl 0) as [->|Hrl]; cbn [negb].
      * apply IH; try done; lia.
      * assert (Hp : pend rs rl i (runs (i + 1) (flags (refcounts g1) pfn (i + 1) k)) =
                     (rs, rl) :: runs (i + 1) (flags (refcounts g1) pfn (i + 1) k)).
        { unfold pend. rewrite (proj2 (Z.eqb_neq rl 0)) by done.
          destruct (runs (i + 1) _) as [|[st len] rest] eqn:E; [done|].
          apply runs_start in E as [? _]. by rewrite (proj2 (Z.eqb_neq st i)) by lia. }
        rewrite Hp in Hraw. apply raw_puts_cons in Hraw as (s1 & E & Hrest).
        unfold mbind, M_bind.
        rewrite (raw_release_run _ _ _ g1 _ Ha Hs ltac:(unfold PAGESIZE in *; lia) E).
        rewrite (IH _ _ _ (set_raw s1 g1)); try done; lia.
Qed.

(** ** The table of counts *)

Lemma foldl_update (F : Z → Z) pfn (m : gmap Z Z) q (k : nat) i :
  default 0 (foldl (λ m j, <[pfn + j := F (default 0 (m !! (pfn + j)))]> m) m (seqZ i (Z.of_nat k)) !! q) =
  if (pfn + i <=? q) && (q <? pfn + i + Z.of_nat k) then F (default 0 (m !! q)) else default 0 (m !! q).
Proof.
  revert m i. induction k as [|k IH]; intros m i.
  - change (seqZ i (Z.of_nat 0)) with (@nil Z). cbn [foldl].
    change (Z.of_nat 0) with 0.
    destruct (Z.leb_spec (pfn + i) q), (Z.ltb_spec q (pfn + i + 0)); try done; lia.
  - rewrite seqZ_cons_nat. cbn [foldl]. rewrite IH.
    destruct (Z.eq_dec q (pfn + i)) as [->|Hne].
    + rewrite lookup_insert_eq, (proj2 (Z.leb_gt _ _)), (proj2 (Z.leb_le _ _)), !(proj2 (Z.ltb_lt _ _)) by lia.
      done.
    + rewrite lookup_insert_ne by lia.
      destruct (Z.leb_spec (pfn + (i + 1)) q), (Z.leb_spec (pfn + i) q),
        (Z.ltb_spec q (pfn + (i + 1) + Z.of_nat k)), (Z.ltb_spec q (pfn + i + Z.of_nat (Datatypes.S k)));
        try done; lia.
Qed.

Lemma dec_refs_lookup pfn m q (k : nat) i :
  refs_ok m →
  default 0 (dec_refs m pfn i k !! q) =
  if (pfn + i <=? q) && (q <? pfn + i + Z.of_nat k) then Z.max (default 0 (m !! q) - 1) 0
  else default 0 (m !! q).
Proof.
  revert m i. unfold dec_refs. induction k as [|k IH]; intros m i Hm.
  - change (seqZ i (Z.of_nat 0)) with (@nil Z). cbn [foldl].
    change (Z.of_nat 0) with 0.
    destruct (Z.leb_spec (pfn + i) q), (Z.ltb_spec q (pfn + i + 0)); try done; lia.
  - rewrite seqZ_cons_nat. cbn [foldl]. rewrite IH by by apply dec_ref_ok.
    rewrite dec_ref_lookup. specialize (Hm q).
    destruct (Z.eqb_spec (pfn + i) q) as [<-|Hne].
    + rewrite (proj2 (Z.leb_gt _ _)), (proj2 (Z.leb_le _ _)) by lia. cbn [andb].
      rewrite (proj2 (Z.ltb_lt _ (pfn + i + _))) by lia.
      destruct (Z.ltb_spec 0 (default 0 (m !! (pfn + i)))); lia.
    + destruct (Z.leb_spec (pfn + (i + 1)) q), (Z.leb_spec (pfn + i) q),
        (Z.ltb_spec q (pfn + (i + 1) + Z.of_nat k)), (Z.ltb_spec q (pfn + i + Z.of_nat (Datatypes.S k)));
        try done; lia.
Qed.

(** A page range as the callers pass it. *)
Record range_ok (addr n : Z) : Prop := {
  ro_pos : 0 < addr;
  ro_align : (PAGESIZE | addr);
  ro_count : 0 <= n;
  ro_limit : addr + n * PAGESIZE <= Buddy.LIMIT;
}.

Lemma topfn_div addr : is_u64 addr → (PAGESIZE | addr) → topfn addr = addr / PAGESIZE.
Proof.
  intros Ha Hd. unfold topfn. rewrite page_align_down_idem; [done|done|by apply Z.mod_divide].
Qed.

Lemma range_ok_topfn addr n : range_ok addr n → topfn addr = addr / PAGESIZE.
Proof. intros [? ? ? ?]. apply topfn_div; [|done].
  unfold PAGESIZE, is_u64, W64, Buddy.LIMIT, KVA_OFFSET, KPA_OFFSET in *. lia.
Qed.

(** Page [q] is in the range iff its position is. *)
Lemma in_pages_bool q addr n :
  (addr / PAGESIZE + 0 <=? q) && (q <? addr / PAGESIZE + 0 + n) = true ↔ in_pages q addr n.
Proof. unfold in_pages. rewrite andb_true_iff, Z.leb_le, Z.ltb_lt. lia. Qed.

(** The runs of pages [put_page] gives back. *)
Definition released (addr n : Z) (m : gmap Z Z) : list (Z * Z) :=
  runs 0 (flags m (topfn addr) 0 (Z.to_nat n)).

Lemma released_spec addr n m i :
  0 <= n → (∃ r, r ∈ released addr n m ∧ in_run i r) ↔
  0 <= i < n ∧ default 0 (m !! (topfn addr + i)) <= 1.
Proof.
  intros Hn. unfold released. rewrite runs_spec. unfold flags.
  rewrite list_lookup_fmap, fmap_Some, Z.sub_0_r. split.
  - intros [(j & Hj & E) Hi]. apply lookup_seqZ in Hj as [-> Hlt]. unfold last_ref in E.
    symmetry in E. apply Z.leb_le in E. rewrite Z.add_0_l in E.
    replace (Z.of_nat (Z.to_nat i)) with i in * by lia. split; [lia|done].
  - intros [Hi Hr]. split; [|lia]. exists i. split; [apply lookup_seqZ; lia|].
    symmetry. unfold last_ref. by apply Z.leb_le.
Qed.

Lemma gfp_put_page_run addr n g s' :
  refs_ok (refcounts g) → range_ok addr n → tracked addr n = true →
  raw_puts addr (released addr n (refcounts g)) (g_raw g) = Fin (Ok tt) s' →
  put_page addr n g = Fin (Ok tt) (mkGfp s' (dec_refs (refcounts g) (topfn addr) 0 (Z.to_nat n)) (page_table_pages g)).
Proof.
  intros Hm [Hp Ha Hn Hl] Ht Hraw. unfold put_page, nonnull.
  rewrite (proj2 (Z.eqb_neq addr 0)), Ht by lia. cbn [negb].
  apply gfp_put_loop_spec; try done; try lia. rewrite Z.add_0_l, Z2Nat.id by lia. done.
Qed.

(** C37: [put_page] drops one reference of every page of the range and gives back
    to the raw allocator exactly the pages whose last reference this was (or
    that had none), each maximal run with one call, in address order; pages
    that are still shared stay. *)
Theorem gfp_put_page_spec addr n g s' :
  refs_ok (refcounts g) → range_ok addr n → tracked addr n = true →
  raw_puts addr (released addr n (refcounts g)) (g_raw g) = Fin (Ok tt) s' →
  ∃ g', put_page addr n g = Fin (Ok tt) g' ∧ g_raw g' = s' ∧
    (∀ q, ref g' q = if bool_decide (in_pages q addr n) then Z.max (ref g q - 1) 0 else ref g q) ∧
    (∀ i, (∃ r, r ∈ released addr n (refcounts g) ∧ in_run i r) ↔
          0 <= i < n ∧ ref g (topfn addr + i) <= 1).
Proof.
  intros Hm Hr Ht Hraw. eexists. split; [by apply gfp_put_page_run|]. split_and!; [done| |].
  - intros q. unfold ref; simpl. rewrite dec_refs_lookup by done.
    pose proof (in_pages_bool q addr n) as Hb. rewrite (range_ok_topfn addr n Hr).
    rewrite Z2Nat.id by apply Hr. destruct (_ && _).
    + by rewrite bool_decide_true by by apply Hb.
    + rewrite bool_decide_false; [done|]. intros Hin. apply Hb in Hin. done.
  - intros i. apply released_spec. apply Hr.
Qed.

(** ** No page in use is free *)

(** Every release is allowed when it is made. *)
Fixpoint puts_ok (addr : Z) (rs : list (Z * Z)) (s : S) : Prop :=
  match rs with
  | [] => True
  | (st, len) :: rs =>
      raw_put_pre s (addr + st * PAGESIZE) len ∧
      ∀ s', raw_put_page (addr + st * PAGESIZE) len s = Fin (Ok tt) s' → puts_ok addr rs s'
  end.

Lemma raw_puts_law addr rs s :
  raw_inv s → puts_ok addr rs s →
  ∃ s', raw_puts addr rs s = Fin (Ok tt) s' ∧ raw_inv s' ∧
    ∀ q, raw_free s' q → raw_free s q ∨ ∃ r, r ∈ rs ∧ in_pages q (addr + r.1 * PAGESIZE) r.2.
Proof.
  revert s. induction rs as [|[st len] rs IH]; intros s Hi Hok.
  - exists s. split_and!; [done|done|by left].
  - destruct Hok as [Hpre Hrest]. destruct (raw_put_law _ _ _ Hi Hpre) as (s1 & E1 & Hi1 & Hf1).
    destruct (IH s1 Hi1 (Hrest s1 E1)) as (s2 & E2 & Hi2 & Hf2).
    exists s2. simpl. unfold mbind, M_bind. rewrite E1. split_and!; [done|done|].
    intros q [Hq|(r & Hr & Hin)]%Hf2.
    + apply Hf1 in Hq as [Hq|Hq]; [by left|right]. exists (st, len). split; [left|done].
    + right. exists r. split; [by right|done].
Qed.

Definition gfp_inv (g : gfp S) : Prop :=
  raw_inv (g_raw g) ∧ refs_ok (refcounts g) ∧ ∀ q, 0 < ref g q → ~ raw_free (g_raw g) q.

Inductive gfp_op := OpGet (n : Z) | OpPut (addr n : Z) | OpKeep (addr n : Z).

Definition run_op (op : gfp_op) : M (gfp S) Z :=
  match op with
  | OpGet n => get_free_page n
  | OpPut addr n => _ ← put_page addr n; mret 0
  | OpKeep addr n => _ ← keep_page addr n; mret 0
  end.

(** What the caller of each operation guarantees: [put_page] and [keep_page] are
    for pages of a tracked range, and only a page in use is kept. *)
Definition op_pre (g : gfp S) (op : gfp_op) : Prop :=
  match op with
  | OpGet n => 0 <= n ∧ raw_get_pre (g_raw g) n
  | OpPut addr n =>
      range_ok addr n ∧ tracked addr n = true ∧
      puts_ok addr (released addr n (refcounts g)) (g_raw g)
  | OpKeep addr n =>
      range_ok addr n ∧ tracked addr n = true ∧
      ∀ q, in_pages q addr n → 0 < ref g q < W64 - 1
  end.

Lemma gfp_get_inv g n :
  gfp_inv g → op_pre g (OpGet n) →
  ∃ r g', get_free_page n g = Fin r g' ∧ gfp_inv g' ∧
    match r with Ok p => ∀ q, in_pages q p n → ref g q = 0 | Err _ => True end.
Proof.
  intros (Hi & Hm & Hf) [Hn Hpre].
  destruct (raw_get_law _ _ Hi Hpre) as (r & s' & E & Hi' & Hsub & Hr).
  unfold get_free_page, mbind, M_bind, lift. rewrite E.
  destruct r as [p|e].
  2: { exists (Err e), (set_raw s' g). split; [done|]. split; [|done]. split_and!; [done|done|].
       intros q Hq Hfr. apply (Hf q Hq). by apply Hsub. }
  destruct Hr as (Ha & Hp & Hnew).
  assert (Hzero : ∀ q, in_pages q p n → ref g q = 0).
  { intros q Hq. destruct (Hnew q Hq) as [Hfq _]. specialize (Hm q). unfold ref in *.
    destruct (Z.eq_dec (default 0 (refcounts g !! q)) 0); [done|]. exfalso. apply (Hf q); [unfold ref; lia|done]. }
  destruct (tracked p n) eqn:Et.
  2: { eexists (Ok p), (set_raw s' g). split; [done|]. split; [|done]. split_and!; [done|done|].
       intros q Hq Hfr. apply (Hf q Hq). by apply Hsub. }
  eexists (Ok p), _. split; [done|]. split; [|done].
  assert (Hlk : ∀ q, default 0 (foldl (λ m i, <[topfn p + i := 1]> m) (refcounts g) (seqZ 0 n) !! q) =
            if (topfn p + 0 <=? q) && (q <? topfn p + 0 + n) then 1 else default 0 (refcounts g !! q)).
  { intros q. pose proof (foldl_update (λ _, 1) (topfn p) (refcounts g) q (Z.to_nat n) 0) as Hfl.
    rewrite Z2Nat.id in Hfl by done. exact Hfl. }
  split_and!; [done| |].
  - intros q. simpl. rewrite Hlk. destruct (_ && _); [lia|apply Hm].
  - intros q. unfold ref; simpl. rewrite Hlk. destruct (_ && _) eqn:Eb.
    + intros _. apply Hnew. rewrite topfn_div in Eb by done. by apply in_pages_bool.
    + intros Hq Hfr. apply (Hf q Hq). by apply Hsub.
Qed.

Lemma gfp_put_inv g addr n :
  gfp_inv g → op_pre g (OpPut addr n) → ∃ g', put_page addr n g = Fin (Ok tt) g' ∧ gfp_inv g'.
Proof.
  intros (Hi & Hm & Hf) (Hr & Ht & Hok).
  destruct (raw_puts_law _ _ _ Hi Hok) as (s' & E & Hi' & Hfree).
  eexists. split; [by apply gfp_put_page_run|].
  assert (Hlk := λ q, dec_refs_lookup (topfn addr) (refcounts g) q (Z.to_nat n) 0 Hm).
  split_and!; [done| |].
  - intros q. simpl. rewrite Hlk. pose proof (Hm q). destruct (_ && _); [lia|done].
  - intros q Hq Hfr. unfold ref in Hq; simpl in *. rewrite Hlk in Hq.
    apply Hfree in Hfr as [Hfr|(r & Hr' & Hin)].
    + apply (Hf q); [|done]. unfold ref. pose proof (Hm q). destruct (_ && _); lia.
    + pose proof (range_ok_topfn addr n Hr) as Etop. destruct Hr as [Hp Ha Hn Hl].
      assert (Hrun : in_run (q - topfn addr) r).
      { unfold in_pages in Hin. rewrite Z.div_add in Hin by done. rewrite Etop. unfold in_run. lia. }
      destruct (proj1 (released_spec addr n (refcounts g) (q - topfn addr) Hn)) as [Hrange Hle].
      { by exists r. }
      replace (topfn addr + (q - topfn addr)) with q in Hle by lia.
      rewrite Z2Nat.id in Hq by done.
      rewrite (proj2 (Z.leb_le _ _)), (proj2 (Z.ltb_lt _ _)) in Hq by lia. simpl in Hq. lia.
Qed.

Lemma gfp_keep_inv g addr n :
  gfp_inv g → op_pre g (OpKeep addr n) →
  ∃ g', keep_page addr n g = Fin (Ok tt) g' ∧ gfp_inv g' ∧
    ∀ q, ref g' q = if bool_decide (in_pages q addr n) then ref g q + 1 else ref g q.
Proof.
  intros (Hi & Hm & Hf) (Hr & Ht & Hin). unfold keep_page. rewrite Ht. cbn [negb].
  eexists. split; [done|].
  assert (Hlk : ∀ q, default 0 (foldl (λ m i, <[topfn addr + i := add64 (default 0 (m !! (topfn addr + i))) 1]> m)
              (refcounts g) (seqZ 0 n) !! q) =
            if bool_decide (in_pages q addr n) then default 0 (refcounts g !! q) + 1
            else default 0 (refcounts g !! q)).
  { intros q. pose proof (foldl_update (λ r, add64 r 1) (topfn addr) (refcounts g) q (Z.to_nat n) 0) as Hfl.
    rewrite Z2Nat.id in Hfl by apply Hr. rewrite Hfl. pose proof (in_pages_bool q addr n) as Hb.
    destruct (_ && _) eqn:Eb; rewrite (range_ok_topfn addr n Hr) in Eb.
    - assert (Hq : in_pages q addr n) by (exact (proj1 Hb Eb)). rewrite bool_decide_true by done.
      specialize (Hin q Hq). unfold ref in Hin. apply wrap64_small. unfold is_u64. lia.
    - rewrite bool_decide_false; [done|]. intros Hq. apply Hb in Hq. congruence. }
  split; [split; [exact Hi|split]|intros q; exact (Hlk q)].
  - intros q. simpl. rewrite Hlk. pose proof (Hm q). case_bool_decide; lia.
  - intros q. unfold ref; simpl. rewrite Hlk. case_bool_decide as Hq; intros H0; [|by apply Hf].
    apply Hf. by apply Hin.
Qed.

(** C25: isolation.  Over any raw allocator that meets its contract, whatever
    operation is applied to a consistent state, no page with a positive
    reference count is ever free: allocation never hands out a page that is in
    use, releasing one reference of a shared page does not free it, and keeping
    a page keeps it out of the allocator.  Every operation returns. *)
Theorem gfp_no_live_page_free g op :
  gfp_inv g → op_pre g op →
  ∃ r g', run_op op g = Fin r g' ∧ gfp_inv g' ∧
    match op, r with
    | OpGet n, Ok p => ∀ q, in_pages q p n → ref g q = 0
    | _, _ => True
    end.
Proof.
  intros Hg Hpre. destruct op as [n|addr n|addr n]; simpl.
  - by apply gfp_get_inv.
  - destruct (gfp_put_inv g addr n Hg Hpre) as (g' & E & Hg').
    exists (Ok 0), g'. unfold mbind, M_bind. by rewrite E.
  - destruct (gfp_keep_inv g addr n Hg Hpre) as (g' & E & Hg' & _).
    exists (Ok 0), g'. unfold mbind, M_bind. by rewrite E.
Qed.
End put.

(** ** The instances *)

Lemma page_in_range q p n :
  (PAGESIZE | p) → in_pages q p n → p <= q * PAGESIZE < p + n * PAGESIZE.
Proof. intros [m ->]. unfold in_pages. rewrite Z.div_mul by done. unfold PAGESIZE. lia. Qed.

(** [static_assert(RawGFP<BuddyAllocator>)] *)
#[export, program] Instance buddy_raw : RawGFP Buddy.buddy := {|
  raw_get_free_page := Buddy.get_free_page;
  raw_put_page := Buddy.put_page;
  raw_inv := Buddy.buddy_inv;
  raw_free s q := 1 <= Buddy.cov (q * PAGESIZE) (Buddy.franges s);
  raw_get_pre s n := 1 <= n <= 2 ^ 15 ∧ 64 <= Buddy.room (Buddy.pools s);
  raw_put_pre := Buddy.put_pre;
|}.
Next Obligation.
  intros s n Hi [Hn Hr].
  destruct (Buddy.get_free_page_run s n Hi Hn Hr) as (r & s' & E & Hi' & Hsub & Hpost).
  exists r, s'. split_and!; [done|done| |].
  - intros q Hq. specialize (Hsub (q * PAGESIZE)). lia.
  - destruct r as [p|e]; [|done]. destruct Hpost as (Ha & Hp & Hl & Hfree & _).
    split_and!; [done| |].
    + unfold is_u64, Buddy.LIMIT, W64, KVA_OFFSET, KPA_OFFSET, PAGESIZE in *. lia.
    + intros q Hq. destruct (Hfree _ (page_in_range q p n Ha Hq)). lia.
Qed.
Next Obligation.
  intros s p n Hi Hpre. destruct (Buddy.put_page_run s p n Hi Hpre) as (s' & E & Hi' & Hcov & _).
  exists s'. split_and!; [done|done|]. intros q. rewrite Hcov. intros Hq.
  destruct (Buddy.ind_spec (q * PAGESIZE) p (n * PAGESIZE)) as [[Hr _]|[_ E0]]; [right|left; lia].
  destruct (Buddy.pr_align _ _ _ Hpre) as [m ->]. unfold in_pages. rewrite Z.div_mul by done.
  unfold PAGESIZE in *. lia.
Qed.

(** [static_assert(RawGFP<LinearGrowGFP>)] *)
#[export, program] Instance linear_raw : RawGFP linear := {|
  raw_get_free_page := linear_get_free_page;
  raw_put_page := linear_put_page;
  raw_inv s := (PAGESIZE | curaddr s) ∧ 0 <= curaddr s ∧ boundary s < KPA_OFFSET;
  raw_free s q := curaddr s / PAGESIZE <= q ∧ q * PAGESIZE < boundary s;
  raw_get_pre s n := 0 <= n ∧ curaddr s + n * PAGESIZE < KPA_OFFSET;
  raw_put_pre _ _ _ := True;
|}.
Next Obligation.
  intros s n (Ha & Hc & Hb) [Hn Hlim]. unfold linear_get_free_page.
  assert (Em : mul64 n PAGESIZE = n * PAGESIZE).
  { apply wrap64_small. unfold is_u64, W64, KPA_OFFSET, PAGESIZE in *. lia. }
  assert (Ea : add64 (curaddr s) (n * PAGESIZE) = curaddr s + n * PAGESIZE).
  { apply wrap64_small. unfold is_u64, W64, KPA_OFFSET, PAGESIZE in *. lia. }
  rewrite Em, Ea. replace (within_scope _ PA) with true.
  2: { symmetry. unfold within_scope. destruct (_ =? 0); [done|]. simpl. unfold NULL_ADDR.
       apply andb_true_iff. split; apply Z.leb_le; unfold PAGESIZE, KPA_OFFSET in *; lia. }
  cbn [negb]. destruct (Z.ltb_spec (boundary s) (curaddr s + n * PAGESIZE)) as [Hlt|Hge].
  - eexists _, _. split; [done|]. by split_and!.
  - assert (Hq : (curaddr s + n * PAGESIZE) / PAGESIZE = curaddr s / PAGESIZE + n) by (by rewrite Z.div_add).
    eexists _, _. split; [done|]. simpl. split_and!.
    + apply Z.divide_add_r; [done|apply Z.divide_factor_r].
    + unfold PAGESIZE; lia.
    + done.
    + intros q. rewrite Hq. lia.
    + done.
    + unfold is_u64, W64, KPA_OFFSET, PAGESIZE in *. lia.
    + intros q Hin. pose proof (page_in_range q _ n Ha Hin). unfold in_pages in Hin. rewrite Hq. lia.
Qed.
Next Obligation.
  intros s p n Hi _. exists s. split_and!; [done|apply Hi|apply Hi|apply Hi|by left].
Qed.

(** ** Witnesses: the buddy allocator with 100 pages; of three pages taken, the
    middle one is shared. *)
Module GfpWitness.
Import Buddy.BuddyWitness.

Definition pfn0 : Z := 0x80460.
Definition ex_shared : gfp Buddy.buddy :=
  mkGfp ex_taken (<[pfn0 := 1]> (<[pfn0 + 1 := 2]> {[pfn0 + 2 := 1]})) 0.
Definition ex_released : Buddy.buddy :=
  state_of (raw_puts 0x80460000 [(0, 1); (2, 1)] ex_taken).
Definition ex_fresh : gfp Buddy.buddy := mkGfp ex_buddy ∅ 0.

Lemma ex_shared_refs : refs_ok (refcounts ex_shared).
Proof.
  intros q. simpl. destruct (decide (q = pfn0)) as [->|]; [by rewrite lookup_insert_eq|].
  rewrite lookup_insert_ne by done. destruct (decide (q = pfn0 + 1)) as [->|]; [by rewrite lookup_insert_eq|].
  rewrite lookup_insert_ne by done. destruct (decide (q = pfn0 + 2)) as [->|];
    [by rewrite lookup_singleton_eq|by rewrite lookup_singleton_ne].
Qed.

Lemma ex_range : range_ok 0x80460000 3.
Proof. split; [lia|by exists 0x80460|lia|vm_compute; congruence]. Qed.

Lemma gfp_put_page_spec_witness :
  ∃ g', put_page 0x80460000 3 ex_shared = Fin (Ok tt) g' ∧ g_raw g' = ex_released ∧
    (∀ q, ref g' q = if bool_decide (in_pages q 0x80460000 3) then Z.max (ref ex_shared q - 1) 0
                     else ref ex_shared q) ∧
    (∀ i, (∃ r, r ∈ released 0x80460000 3 (refcounts ex_shared) ∧ in_run i r) ↔
          0 <= i < 3 ∧ ref ex_shared (topfn 0x80460000 + i) <= 1).
Proof.
  apply (gfp_put_page_spec 0x80460000 3 ex_shared ex_released ex_shared_refs ex_range);
    [vm_compute; reflexivity|].
  replace (released 0x80460000 3 (refcounts ex_shared)) with [(0, 1); (2, 1)]
    by (vm_compute; reflexivity).
  vm_compute. reflexivity.
Defined.

Lemma ex_fresh_inv : gfp_inv ex_fresh.
Proof.
  split; [exact ex_buddy_inv|]. split.
  - intros q. change (0 <= default 0 ((∅ : gmap Z Z) !! q)). by rewrite lookup_empty.
  - intros q. change (ref ex_fresh q) with (default 0 ((∅ : gmap Z Z) !! q)).
    rewrite lookup_empty. by intros ?%Z.lt_irrefl.
Qed.

Lemma gfp_no_live_page_free_witness :
  ∃ r g', run_op (OpGet 5) ex_fresh = Fin r g' ∧ gfp_inv g' ∧
    match r with Ok p => ∀ q, in_pages q p 5 → ref ex_fresh q = 0 | Err _ => True end.
Proof.
  apply (gfp_no_live_page_free ex_fresh (OpGet 5) ex_fresh_inv).
  change (0 <= 5 ∧ 1 <= 5 <= 2 ^ 15 ∧ 64 <= Buddy.room (Buddy.pools ex_buddy)).
  split; [lia|]. split; [lia|]. apply Z.leb_le. vm_compute. reflexivity.
Defined.
End GfpWitness.
End Gfp.
