(* ===== verification/Memory.v ===== *)
(** * Memory objects

    [MemoryPayload] of kernel/object/memory.h and memory.cpp: a promised amount
    of memory whose page frames are taken on first use, optionally filled from a
    file, shared copy-on-write between the payloads [clone_payload] makes.

    The state holds every payload, the frames' contents and the counters of
    [SystemMemoryInfo].  Page frames come through the type class [PageFrames],
    what [GFP] promises to its callers; files through [VFileOps], the calls of
    [VFileObject].  A frame's contents are a map from the offset in the page to
    the byte, 0 where it has no entry.  A loop over [phy_pages] visits the
    entries in the order of [map_to_list]. *)
From S2P Require Import Prelude ErrCode Addr Buddy Gfp.

Module Memory.

(** ** What the memory objects use of other components *)

(** A frame as [GFP] hands it out. *)
Record frame_ok (p : Z) : Prop := {
  fo_pos : 0 < p;
  fo_align : (PAGESIZE | p);
  fo_limit : p + PAGESIZE <= Buddy.LIMIT;
}.

(** One more, one less reference on each of the [n] pages from address [p]. *)
Definition bump (d p n : Z) (own : Z → Z) (q : Z) : Z :=
  if bool_decide (Gfp.in_pages q p n) then own q + d else own q.

(** [pf_inv own c g]: the allocator is consistent, [own q] references are held
    on page [q] and its tables have room for [c] more calls. *)
Class PageFrames (G : Type) := {
  pf_get : Z → M G Z;
  pf_put : Z → Z → M G unit;
  pf_keep : Z → Z → M G unit;
  pf_inv : (Z → Z) → nat → G → Prop;
  pf_ext own own' c g : (∀ q, own q = own' q) → pf_inv own c g → pf_inv own' c g;
  pf_less own c g : pf_inv own (S c) g → pf_inv own c g;
  pf_get_law own c g n :
    pf_inv own (S c) g → 1 <= n <= 2 ^ 15 →
    ∃ r g', pf_get n g = Fin r g' ∧
      match r with
      | Ok p => 0 < p ∧ (PAGESIZE | p) ∧ p + n * PAGESIZE <= Buddy.LIMIT ∧
                (∀ q, Gfp.in_pages q p n → own q = 0) ∧ pf_inv (bump 1 p n own) c g'
      | Err _ => pf_inv own c g'
      end;
  pf_put_law own c g p :
    pf_inv own (S c) g → frame_ok p → 0 < own (p / PAGESIZE) →
    ∃ g', pf_put p 1 g = Fin (Ok tt) g' ∧ pf_inv (bump (-1) p 1 own) c g';
  pf_keep_law own c g p :
    pf_inv own c g → frame_ok p → 0 < own (p / PAGESIZE) < W64 - 1 →
    ∃ g', pf_keep p 1 g = Fin (Ok tt) g' ∧ pf_inv (bump 1 p 1 own) c g';
}.

(** [VFileObject::read], [write], [sync], [Capability::clone] and the deletion of a
    file capability on the file system's state; [vf_read] also gives the bytes it
    stored in the buffer, and a clone may be null (0). *)
Class VFileOps (F : Type) := {
  vf_read : Z → Z → Z → F → Result Z * list Z * F;
  vf_write : Z → Z → list Z → F → Result Z * F;
  vf_sync : Z → F → Result unit * F;
  vf_clone : Z → F → Z * F;
  vf_delete : Z → F → F;
}.

(** ** Data *)

Record PhyPage := mkPage { addr : Z; refcount : Z }.

Module MemoryGrowth.
Definition FIXED : Z := 0.
Definition GROW_UP : Z := 1.
Definition GROW_DOWN : Z := 2.
Definition SHRINK_UP : Z := 4.
Definition SHRINK_DOWN : Z := 8.
Definition FLEXUP : Z := 5.
Definition FLEXDOWN : Z := 10.
End MemoryGrowth.

Definition growth_and (a b : Z) : bool := negb (Z.land a b =? 0).

Record MemoryPayload := mkMemory {
  memsz : Z;
  shared : bool;
  continuity : bool;
  growth : Z;
  file : option Z;
  file_offset : Z;
  file_backed_len : Z;
  phy_pages : gmap Z PhyPage
}.
Definition file_backed (m : MemoryPayload) : bool := bool_decide (is_Some (file m)).
Definition set_pages f (m : MemoryPayload) : MemoryPayload :=
  mkMemory (memsz m) (shared m) (continuity m) (growth m) (file m) (file_offset m)
    (file_backed_len m) (f (phy_pages m)).
Definition set_memsz n (m : MemoryPayload) : MemoryPayload :=
  mkMemory n (shared m) (continuity m) (growth m) (file m) (file_offset m)
    (file_backed_len m) (phy_pages m).

Definition offset_to_offvpn (offset : Z) : Z := page_align_down offset / PAGESIZE.
Definition offvpn_to_offset (offvpn : Z) : Z := mul64 offvpn PAGESIZE.
Definition offset_in_page (offset : Z) : Z := offset mod PAGESIZE.
Definition page_chunk_size (offset remain : Z) : Z :=
  let capacity := PAGESIZE - offset_in_page offset in
  if capacity <? remain then capacity else remain.
Definition growth_allows (owned requested : Z) : bool :=
  if requested =? MemoryGrowth.FIXED then owned =? MemoryGrowth.FIXED
  else Z.land requested (not64 owned) =? 0.
Definition bounded_length (memsz offset buflen : Z) : Result Z :=
  if memsz <=? offset then Err OUT_OF_BOUNDARY
  else let available := memsz - offset in
       Ok (if available <? buflen then available else buflen).
Definition allocated_size (m : MemoryPayload) : Z := mul64 (Z.of_nat (size (phy_pages m))) PAGESIZE.

Definition lookup_page_entry (m : MemoryPayload) (offvpn : Z) : Result PhyPage :=
  match phy_pages m !! offvpn with
  | None => Err PAGE_NOT_PRESENT
  | Some e => Ok e
  end.
Definition lookup_page (m : MemoryPayload) (offset : Z) : Result Z :=
  if memsz m <=? page_align_down offset then Err OUT_OF_BOUNDARY
  else addr <$> lookup_page_entry m (offset_to_offvpn offset).
Definition page_refcount (m : MemoryPayload) (offset : Z) : Result Z :=
  if memsz m <=? page_align_down offset then Err OUT_OF_BOUNDARY
  else refcount <$> lookup_page_entry m (offset_to_offvpn offset).

Abbreviation page := (gmap Z Z).

(** [memcpy] of [bytes] into a page at offset [o]. *)
Fixpoint store_bytes (o : Z) (bytes : list Z) (pg : page) : page :=
  match bytes with
  | [] => pg
  | b :: bytes => store_bytes (o + 1) bytes (<[o := b]> pg)
  end.
Definition load_bytes (o n : Z) (pg : page) : list Z := (λ i, default 0 (pg !! i)) <$> seqZ o n.

Section memory.
Context {G F : Type} `{PageFrames G} `{VFileOps F}.

Record mstate := mkState {
  frames : G;
  files : F;
  ram : gmap Z page;
  mems : gmap Z MemoryPayload;
  next_mem : Z;
  committed_pages : Z;
  mapped_pages : Z;
  anon_pages : Z
}.

Definition set_frames x s := mkState x (files s) (ram s) (mems s) (next_mem s) (committed_pages s) (mapped_pages s) (anon_pages s).
Definition set_files x s := mkState (frames s) x (ram s) (mems s) (next_mem s) (committed_pages s) (mapped_pages s) (anon_pages s).
Definition set_ram f s := mkState (frames s) (files s) (f (ram s)) (mems s) (next_mem s) (committed_pages s) (mapped_pages s) (anon_pages s).
Definition set_mems f s := mkState (frames s) (files s) (ram s) (f (mems s)) (next_mem s) (committed_pages s) (mapped_pages s) (anon_pages s).
Definition set_next x s := mkState (frames s) (files s) (ram s) (mems s) x (committed_pages s) (mapped_pages s) (anon_pages s).
Definition set_committed x s := mkState (frames s) (files s) (ram s) (mems s) (next_mem s) x (mapped_pages s) (anon_pages s).
Definition set_mapped x s := mkState (frames s) (files s) (ram s) (mems s) (next_mem s) (committed_pages s) x (anon_pages s).
Definition set_anon x s := mkState (frames s) (files s) (ram s) (mems s) (next_mem s) (committed_pages s) (mapped_pages s) x.

Definition with_frames {A} (m : M G A) : M mstate A := λ s,
  match m (frames s) with
  | Fin r g => Fin r (set_frames g s)
  | Panic => Panic
  | OutOfFuel => OutOfFuel
  end.

(** Dereferencing a payload pointer; a dead one panics. *)
Definition get_mem (m : Z) : M mstate MemoryPayload := λ s,
  match mems s !! m with Some p => Fin (Ok p) s | None => Panic end.
Definition upd_mem (m : Z) (f : MemoryPayload → MemoryPayload) : M mstate unit :=
  modify (set_mems (alter f m)).

(** ** Counters *)

Definition adjust (old delta_pages : Z) : Z :=
  if 0 <=? delta_pages then add64 old delta_pages
  else if - delta_pages <=? old then old + delta_pages else 0.
Definition adjust_committed_pages (delta_pages : Z) : M mstate unit :=
  modify (λ s, set_committed (adjust (committed_pages s) delta_pages) s).
Definition adjust_backed_pages (fb : bool) (delta_pages : Z) : M mstate unit :=
  modify (λ s, if fb then set_mapped (adjust (mapped_pages s) delta_pages) s
               else set_anon (adjust (anon_pages s) delta_pages) s).
Definition pages_of (sz : Z) : Z := page_align_up sz / PAGESIZE.

(** The page number behind [convert<KpaAddr>(paddr)]. *)
Definition kpa_page (paddr : Z) : M mstate Z :=
  match convert KPA PA paddr with
  | None => panic
  | Some a => mret (KPA2PA a / PAGESIZE)
  end.
Definition zero_page (paddr : Z) : M mstate unit :=
  q ← kpa_page paddr; modify (set_ram <[q := ∅]>).
Definition copy_page (dst src : Z) : M mstate unit :=
  d ← kpa_page dst; q ← kpa_page src;
  modify (λ s, set_ram <[d := default ∅ (ram s !! q)]> s).
Definition store_page (paddr o : Z) (bytes : list Z) : M mstate unit :=
  q ← kpa_page paddr; modify (set_ram (λ r, <[q := store_bytes o bytes (default ∅ (r !! q))]> r)).
Definition load_page (paddr o n : Z) : M mstate (list Z) :=
  q ← kpa_page paddr; gets (λ s, load_bytes o n (default ∅ (ram s !! q))).
(** [base + i * PAGESIZE] *)
Definition nth_page (base i : Z) : M mstate Z :=
  match mk_addr PA (add64 base (mul64 i PAGESIZE)) with None => panic | Some a => mret a end.

(** ** Operations *)

Definition new_memory (memsz : Z) (shared continuity : bool) (growth : Z) (file : option Z)
    (file_offset file_backed_len : Z) : M mstate Z :=
  _ ← adjust_committed_pages (pages_of memsz);
  m ← gets next_mem;
  _ ← modify (λ s, set_next (m + 1)
         (set_mems <[m := mkMemory memsz shared continuity growth file file_offset file_backed_len ∅]> s));
  mret m.

Fixpoint put_pages (l : list (Z * PhyPage)) : M mstate unit :=
  match l with
  | [] => mret tt
  | (_, e) :: l => _ ← with_frames (pf_put (addr e) 1); put_pages l
  end.
Definition delete_file (file : option Z) : M mstate unit :=
  match file with
  | None => mret tt
  | Some f => modify (λ s, set_files (vf_delete f (files s)) s)
  end.
(** [destruct] and the destructor it ends with. *)
Definition destruct_memory (m : Z) : M mstate unit :=
  p ← get_mem m;
  _ ← adjust_backed_pages (file_backed p) (- Z.of_nat (size (phy_pages p)));
  _ ← adjust_committed_pages (- pages_of (memsz p));
  _ ← put_pages (map_to_list (phy_pages p));
  _ ← delete_file (file p);
  modify (set_mems (delete m)).

(** The loop of [clone_payload]: both payloads record the raised count. *)
Fixpoint share_pages (m m' : Z) (l : list (Z * PhyPage)) : M mstate unit :=
  match l with
  | [] => mret tt
  | (v, e) :: l =>
      _ ← with_frames (pf_keep (addr e) 1);
      let e' := mkPage (addr e) (add64 (refcount e) 1) in
      _ ← upd_mem m (set_pages <[v := e']>);
      _ ← upd_mem m' (set_pages <[v := e']>);
      share_pages m m' l
  end.
Definition clone_file (file : option Z) : M mstate (option Z) := λ s,
  match file with
  | None => Fin (Ok None) s
  | Some f => let '(f', fs) := vf_clone f (files s) in
      Fin (Ok (if f' =? 0 then None else Some f')) (set_files fs s)
  end.
Definition clone_payload (m : Z) : M mstate Z :=
  p ← get_mem m;
  if shared p then mret m
  else
    cloned_file ← clone_file (file p);
    m' ← new_memory (memsz p) (shared p) (continuity p) (growth p) cloned_file (file_offset p)
           (file_backed_len p);
    _ ← share_pages m m' (map_to_list (phy_pages p));
    mret m'.

(** How much of a page the file provides. *)
Definition file_read_len (p : MemoryPayload) (page_file_offset : Z) : Z :=
  if negb (file_backed_len p =? W64 - 1) then
    if file_backed_len p <=? page_file_offset then 0
    else if file_backed_len p - page_file_offset <? PAGESIZE then file_backed_len p - page_file_offset
    else PAGESIZE
  else PAGESIZE.

Definition fill_from_file (p : MemoryPayload) (f offvpn paddr : Z) : M mstate unit :=
  let page_file_offset := offvpn_to_offset offvpn in
  if W64 - 1 - file_offset p <? page_file_offset
  then _ ← with_frames (pf_put paddr 1); fail OUT_OF_BOUNDARY
  else
    let read_len := file_read_len p page_file_offset in
    if read_len =? 0 then mret tt
    else
      q ← kpa_page paddr;
      fs ← gets files;
      let '(r, bytes, fs') := vf_read f (add64 (file_offset p) page_file_offset) read_len fs in
      _ ← modify (set_files fs');
      _ ← store_page paddr 0 bytes;
      match r with
      | Err e => _ ← with_frames (pf_put paddr 1); fail e
      | Ok _ => mret tt
      end.

Definition ensure_page (m offset : Z) : M mstate Z :=
  p ← get_mem m;
  match lookup_page p offset with
  | Ok paddr => mret paddr
  | Err e =>
      if negb (bool_decide (e = PAGE_NOT_PRESENT)) then fail e
      else
        let offvpn := offset_to_offvpn offset in
        paddr ← with_frames (pf_get 1);
        _ ← zero_page paddr;
        _ ← match file p with None => mret tt | Some f => fill_from_file p f offvpn paddr end;
        _ ← upd_mem m (set_pages <[offvpn := mkPage paddr 1]>);
        _ ← adjust_backed_pages (file_backed p) 1;
        mret paddr
  end.

Definition replace_page (m offset new_addr : Z) : M mstate unit :=
  p ← get_mem m;
  e ← of_result (lookup_page_entry p (offset_to_offvpn offset));
  _ ← upd_mem m (set_pages <[offset_to_offvpn offset := mkPage new_addr 1]>);
  with_frames (pf_put (addr e) 1).

Definition fork (m offset : Z) : M mstate unit :=
  p ← get_mem m;
  if memsz p <=? page_align_down offset then fail OUT_OF_BOUNDARY
  else
    let offvpn := offset_to_offvpn offset in
    e ← of_result (lookup_page_entry p offvpn);
    if refcount e <=? 1 then upd_mem m (set_pages <[offvpn := mkPage (addr e) 1]>)
    else
      new_paddr ← with_frames (pf_get 1);
      _ ← copy_page new_paddr (addr e);
      _ ← upd_mem m (set_pages <[offvpn := mkPage new_paddr 1]>);
      with_frames (pf_put (addr e) 1).

(** The loops of [read] and [write]; [k] bounds the number of pages touched. *)
Fixpoint read_loop (k : nat) (m offset consumed total : Z) : M mstate (list Z) :=
  if negb (consumed <? total) then mret []
  else match k with
  | O => no_fuel
  | S k =>
      let cur_offset := add64 offset consumed in
      let chunk := page_chunk_size cur_offset (total - consumed) in
      paddr ← ensure_page m cur_offset;
      bytes ← load_page paddr (offset_in_page cur_offset) chunk;
      rest ← read_loop k m offset (consumed + chunk) total;
      mret (bytes ++ rest)
  end.

Definition page_iters (total : Z) : nat := Z.to_nat (total / PAGESIZE + 2).

Definition read (m offset : Z) (data_null : bool) (buflen : Z) : M mstate (Z * list Z) :=
  if data_null && negb (buflen =? 0) then fail NULLPTR
  else if buflen =? 0 then mret (0, [])
  else
    p ← get_mem m;
    total ← of_result (bounded_length (memsz p) offset buflen);
    bytes ← read_loop (page_iters total) m offset 0 total;
    mret (total, bytes).

(** One round of [write]: the page is there, is not shared any more, and is written. *)
Definition write_chunk (m cur_offset : Z) (bytes : list Z) : M mstate unit :=
  _ ← ensure_page m cur_offset;
  p ← get_mem m;
  rc ← of_result (page_refcount p cur_offset);
  _ ← (if 1 <? rc then fork m cur_offset else mret tt);
  p ← get_mem m;
  paddr ← of_result (lookup_page p cur_offset);
  store_page paddr (offset_in_page cur_offset) bytes.
Fixpoint write_loop (k : nat) (m offset consumed total : Z) (src : list Z) : M mstate unit :=
  if negb (consumed <? total) then mret tt
  else match k with
  | O => no_fuel
  | S k =>
      let cur_offset := add64 offset consumed in
      let chunk := page_chunk_size cur_offset (total - consumed) in
      _ ← write_chunk m cur_offset (take (Z.to_nat chunk) (drop (Z.to_nat consumed) src));
      write_loop k m offset (consumed + chunk) total src
  end.

Definition write (m offset : Z) (data : option (list Z)) (buflen : Z) : M mstate Z :=
  if bool_decide (data = None) && negb (buflen =? 0) then fail NULLPTR
  else if buflen =? 0 then mret 0
  else
    p ← get_mem m;
    total ← of_result (bounded_length (memsz p) offset buflen);
    _ ← write_loop (page_iters total) m offset 0 total (default [] data);
    mret total.

(** The bytes of the chunk that the file stores; 0: the page is skipped. *)
Definition sync_len (p : MemoryPayload) (page_file_offset cur_offset chunk : Z) : Z :=
  if negb (file_backed_len p =? W64 - 1) then
    if file_backed_len p <=? page_file_offset then 0
    else
      let remain := file_backed_len p - page_file_offset in
      if remain <=? offset_in_page cur_offset then 0
      else Z.min (remain - offset_in_page cur_offset) chunk
  else chunk.

Fixpoint sync_loop (k : nat) (p : MemoryPayload) (f offset consumed total : Z) : M mstate unit :=
  if negb (consumed <? total) then mret tt
  else match k with
  | O => no_fuel
  | S k =>
      let cur_offset := add64 offset consumed in
      let chunk := page_chunk_size cur_offset (total - consumed) in
      let next := sync_loop k p f offset (consumed + chunk) total in
      let offvpn := offset_to_offvpn cur_offset in
      match phy_pages p !! offvpn with
      | None => next
      | Some e =>
          let page_file_offset := offvpn_to_offset offvpn in
          if W64 - 1 - file_offset p <? page_file_offset then fail OUT_OF_BOUNDARY
          else
            let write_len := sync_len p page_file_offset cur_offset chunk in
            if write_len =? 0 then next
            else
              bytes ← load_page (addr e) (offset_in_page cur_offset) write_len;
              fs ← gets files;
              let '(r, fs') := vf_write f (add64 (file_offset p) cur_offset) bytes fs in
              _ ← modify (set_files fs');
              n ← of_result r;
              if negb (n =? write_len) then fail IO_ERROR else next
      end
  end.
Definition sync_file (f : Z) : M mstate unit := λ s,
  let '(r, fs) := vf_sync f (files s) in Fin r (set_files fs s).
Definition sync (m offset buflen : Z) : M mstate unit :=
  p ← get_mem m;
  match file p with
  | None => mret tt
  | Some f =>
      if buflen =? 0 then mret tt
      else if memsz p <=? offset then fail OUT_OF_BOUNDARY
      else
        total ← of_result (bounded_length (memsz p) offset buflen);
        _ ← sync_loop (page_iters total) p f offset 0 total;
        sync_file f
  end.

Fixpoint release_loop (m first_offvpn : Z) (fb : bool) (l : list (Z * PhyPage)) : M mstate unit :=
  match l with
  | [] => mret tt
  | (v, e) :: l =>
      _ ← (if first_offvpn <=? v then
             _ ← with_frames (pf_put (addr e) 1);
             _ ← adjust_backed_pages fb (-1);
             upd_mem m (set_pages (delete v))
           else mret tt);
      release_loop m first_offvpn fb l
  end.
Definition release_pages_from (m offset : Z) : M mstate unit :=
  p ← get_mem m;
  release_loop m (pages_of offset) (file_backed p) (map_to_list (phy_pages p)).

(** Entries [i ..] of a contiguous run. *)
Fixpoint insert_run (m base i : Z) (k : nat) : M mstate unit :=
  match k with
  | O => mret tt
  | S k =>
      a ← nth_page base i;
      _ ← upd_mem m (set_pages <[i := mkPage a 1]>);
      insert_run m base (i + 1) k
  end.
Fixpoint zero_run (base i : Z) (k : nat) : M mstate unit :=
  match k with
  | O => mret tt
  | S k => a ← nth_page base i; _ ← zero_page a; zero_run base (i + 1) k
  end.
Fixpoint copy_run (p : MemoryPayload) (base i : Z) (k : nat) : M mstate unit :=
  match k with
  | O => mret tt
  | S k =>
      _ ← match lookup_page p (offvpn_to_offset i) with
          | Ok old => a ← nth_page base i; copy_page a old
          | Err _ => mret tt
          end;
      copy_run p base (i + 1) k
  end.

Definition ensure_contiguous (m : Z) : M mstate unit :=
  if m =? 0 then fail NULLPTR
  else
    p ← get_mem m;
    if negb (continuity p) || negb (allocated_size p =? 0) then mret tt
    else
      let pages := pages_of (memsz p) in
      if pages =? 0 then mret tt
      else base ← with_frames (pf_get pages); insert_run m base 0 (Z.to_nat pages).

Definition resize (m newsz : Z) : M mstate unit :=
  p ← get_mem m;
  if newsz =? memsz p then mret tt
  else if shared p then fail NOT_SUPPORTED
  else
    let grow := (memsz p <? newsz) &&
                (growth_and (growth p) MemoryGrowth.GROW_UP || growth_and (growth p) MemoryGrowth.GROW_DOWN) in
    let shrink := (newsz <? memsz p) &&
                  (growth_and (growth p) MemoryGrowth.SHRINK_UP || growth_and (growth p) MemoryGrowth.SHRINK_DOWN) in
    if negb grow && negb shrink then fail NOT_SUPPORTED
    else
      let old_pages := pages_of (memsz p) in
      let new_pages := pages_of newsz in
      let finish :=
        _ ← adjust_committed_pages (new_pages - old_pages); upd_mem m (set_memsz newsz) in
      if continuity p then
        if new_pages =? 0 then
          _ ← release_pages_from m 0;
          _ ← adjust_committed_pages (- old_pages);
          upd_mem m (set_memsz newsz)
        else
          new_base ← with_frames (pf_get new_pages);
          _ ← zero_run new_base 0 (Z.to_nat new_pages);
          _ ← copy_run p new_base 0 (Z.to_nat (Z.min old_pages new_pages));
          _ ← put_pages (map_to_list (phy_pages p));
          _ ← adjust_backed_pages (file_backed p) (- Z.of_nat (size (phy_pages p)));
          _ ← upd_mem m (set_pages (λ _, ∅));
          _ ← insert_run m new_base 0 (Z.to_nat new_pages);
          _ ← adjust_backed_pages (file_backed p) new_pages;
          finish
      else
        _ ← (if newsz <? memsz p then release_pages_from m newsz else mret tt);
        finish.
End memory.
Arguments mstate : clear implicits.

(** ** References to frames *)

(** Every entry of every payload. *)
Definition flatten (ms : gmap Z MemoryPayload) : gmap (Z * Z) PhyPage := map_uncurry (phy_pages <$> ms).

Lemma lookup_flatten ms m v : flatten ms !! (m, v) = ms !! m ≫= λ p, phy_pages p !! v.
Proof. unfold flatten. rewrite lookup_map_uncurry, lookup_fmap. by destruct (ms !! m). Qed.

(** The entries that refer to page [q]. *)
Definition cnt (fl : gmap (Z * Z) PhyPage) (q : Z) : Z :=
  Z.of_nat (size (filter (λ kv, addr kv.2 / PAGESIZE = q) fl)).

Definition one (p q : Z) : Z := if bool_decide (q = p / PAGESIZE) then 1 else 0.

Lemma bump_one d p own q : bump d p 1 own q = own q + d * one p q.
Proof. unfold bump, one, Gfp.in_pages. do 2 case_bool_decide; lia. Qed.

Lemma cnt_nonneg fl q : 0 <= cnt fl q.
Proof. unfold cnt. lia. Qed.

Lemma cnt_insert fl k e q : fl !! k = None → cnt (<[k := e]> fl) q = cnt fl q + one (addr e) q.
Proof.
  intros Hk. unfold cnt, one. case_bool_decide as Hq.
  - rewrite map_filter_insert_True by (simpl; by symmetry). rewrite map_size_insert_None; [lia|].
    apply map_lookup_filter_None. by left.
  - rewrite map_filter_insert_not'; [lia|simpl; congruence|by rewrite Hk].
Qed.

Lemma cnt_delete fl k e q : fl !! k = Some e → cnt (delete k fl) q = cnt fl q - one (addr e) q.
Proof.
  intros Hk. rewrite <- (insert_delete_id _ _ _ Hk) at 2.
  rewrite cnt_insert by apply lookup_delete_eq. lia.
Qed.

Lemma cnt_entry fl k e : fl !! k = Some e → 0 < cnt fl (addr e / PAGESIZE).
Proof.
  intros Hk. pose proof (cnt_delete fl k e (addr e / PAGESIZE) Hk) as E.
  pose proof (cnt_nonneg (delete k fl) (addr e / PAGESIZE)).
  unfold one in E. rewrite bool_decide_eq_true_2 in E by done. lia.
Qed.

Lemma cnt_zero fl k e q : cnt fl q = 0 → fl !! k = Some e → addr e / PAGESIZE ≠ q.
Proof. intros Hz Hk <-. pose proof (cnt_entry _ _ _ Hk). lia. Qed.

Lemma flatten_insert ms m p v e :
  ms !! m = Some p → flatten (alter (set_pages <[v := e]>) m ms) = <[(m, v) := e]> (flatten ms).
Proof.
  intros Hm. apply map_eq. intros [m' v']. rewrite lookup_flatten.
  destruct (decide (m' = m)) as [->|Hne].
  - rewrite lookup_alter_eq, Hm. simpl. destruct (decide (v' = v)) as [->|Hv].
    + by rewrite !lookup_insert_eq.
    + rewrite !lookup_insert_ne by congruence. rewrite lookup_flatten, Hm. done.
  - rewrite lookup_alter_ne by done. rewrite lookup_insert_ne by congruence. by rewrite lookup_flatten.
Qed.

Lemma flatten_delete ms m p v :
  ms !! m = Some p → flatten (alter (set_pages (delete v)) m ms) = delete (m, v) (flatten ms).
Proof.
  intros Hm. apply map_eq. intros [m' v']. rewrite lookup_flatten.
  destruct (decide (m' = m)) as [->|Hne].
  - rewrite lookup_alter_eq, Hm. simpl. destruct (decide (v' = v)) as [->|Hv].
    + by rewrite !lookup_delete_eq.
    + rewrite !lookup_delete_ne by congruence. rewrite lookup_flatten, Hm. done.
  - rewrite lookup_alter_ne by done. rewrite lookup_delete_ne by congruence. by rewrite lookup_flatten.
Qed.

(** Changing the other fields of a payload, or adding one without pages. *)
Lemma flatten_same ms m p p' :
  ms !! m = Some p → phy_pages p' = phy_pages p → flatten (<[m := p']> ms) = flatten ms.
Proof.
  intros Hm Hp. apply map_eq. intros [m' v']. rewrite !lookup_flatten.
  destruct (decide (m' = m)) as [->|Hne]; [|by rewrite lookup_insert_ne].
  by rewrite lookup_insert_eq, Hm; simpl; rewrite Hp.
Qed.
Lemma flatten_new ms m p' :
  ms !! m = None → phy_pages p' = ∅ → flatten (<[m := p']> ms) = flatten ms.
Proof.
  intros Hm Hp. apply map_eq. intros [m' v']. rewrite !lookup_flatten.
  destruct (decide (m' = m)) as [->|Hne]; [|by rewrite lookup_insert_ne].
  by rewrite lookup_insert_eq, Hm; simpl; rewrite Hp.
Qed.

Lemma flatten_size ms m p :
  ms !! m = Some p → size (flatten ms) = (size (phy_pages p) + size (flatten (delete m ms)))%nat.
Proof.
  intros Hm. rewrite <- (insert_delete_id ms m p Hm) at 1.
  assert (Hd : delete m ms !! m = None) by apply lookup_delete_eq.
  revert Hd. generalize (delete m ms). clear. intros ms Hd.
  assert (Hp : p = set_pages (λ _, phy_pages p) p) by by destruct p. rewrite Hp at 1. clear Hp.
  generalize (phy_pages p) as pg. intros pg. induction pg as [|v e pg Hv IH] using map_ind.
  - rewrite map_size_empty. rewrite flatten_new by done. done.
  - replace (<[m := set_pages (λ _, <[v := e]> pg) p]> ms)
      with (alter (set_pages <[v := e]>) m (<[m := set_pages (λ _, pg) p]> ms)) by (by rewrite alter_insert_eq).
    rewrite (flatten_insert _ _ (set_pages (λ _, pg) p)) by apply lookup_insert_eq.
    rewrite !map_size_insert_None, IH; [done|done|]. by rewrite lookup_flatten, lookup_insert_eq.
Qed.

(** ** The invariant *)

Section inv.
Context {G F : Type} `{PageFrames G} `{VFileOps F}.
Implicit Types (s : mstate G F) (p : MemoryPayload) (ext : Z → Z) (c : nat).

Abbreviation flat s := (flatten (mems s)).

(** [ext q] references on page [q] are held outside the payloads.  Every entry
    holds a reference, and a page with an entry whose own count is 1 has no
    other entry: such an entry may be written in place. *)
Record mem_inv ext c s : Prop := {
  mi_frames : pf_inv (λ q, cnt (flat s) q + ext q) c (frames s);
  mi_ext : ∀ q, 0 <= ext q;
  mi_ok : ∀ k e, flat s !! k = Some e → frame_ok (addr e) ∧ 1 <= refcount e;
  mi_excl : ∀ k1 k2 e1 e2, flat s !! k1 = Some e1 → flat s !! k2 = Some e2 → k1 ≠ k2 →
    addr e1 / PAGESIZE = addr e2 / PAGESIZE → 1 < refcount e1;
  mi_next : ∀ m, is_Some (mems s !! m) → m < next_mem s;
}.

Lemma mem_inv_ext ext ext' c s : (∀ q, ext q = ext' q) → mem_inv ext c s → mem_inv ext' c s.
Proof.
  intros He [H1 H2 H3 H4 H5]. split; try done.
  - eapply pf_ext; [|done]. intros q. simpl. by rewrite He.
  - intros q. rewrite <- He. done.
Qed.

Lemma mem_inv_less ext c d s : mem_inv ext (d + c) s → mem_inv ext c s.
Proof.
  induction d as [|d IH]; [done|]. intros [H1 H2 H3 H4 H5]. apply IH. split; try done. by apply pf_less.
Qed.

(** The invariant does not look at the contents of the frames, the files and the
    counters. *)
Lemma mem_inv_same ext c s s' :
  frames s' = frames s → mems s' = mems s → next_mem s' = next_mem s → mem_inv ext c s → mem_inv ext c s'.
Proof. intros E1 E2 E3 [H1 H2 H3 H4 H5]. split; rewrite ?E1, ?E2, ?E3; done. Qed.

(** Taking, returning and keeping frames moves references from and to [ext]. *)
Lemma get_frames ext c s n :
  mem_inv ext (S c) s → 1 <= n <= 2 ^ 15 →
  ∃ r g, with_frames (F := F) (pf_get n) s = Fin r (set_frames g s) ∧
    match r with
    | Ok a => 0 < a ∧ (PAGESIZE | a) ∧ a + n * PAGESIZE <= Buddy.LIMIT ∧
              (∀ q, Gfp.in_pages q a n → cnt (flat s) q = 0 ∧ ext q = 0) ∧
              mem_inv (bump 1 a n ext) c (set_frames g s)
    | Err _ => mem_inv ext c (set_frames g s)
    end.
Proof.
  intros [H1 H2 H3 H4 H5] Hn. destruct (pf_get_law _ _ _ n H1 Hn) as (r & g & E & Hr).
  exists r, g. unfold with_frames. rewrite E. split; [done|]. destruct r as [a|e]; [|by split].
  destruct Hr as (Ha & Hal & Hl & Hz & Hi). split_and!; try done.
  - intros q Hq. specialize (Hz q Hq). pose proof (cnt_nonneg (flat s) q). specialize (H2 q). simpl in Hz. lia.
  - split; try done; simpl.
    + eapply pf_ext; [|exact Hi]. intros q. unfold bump. case_bool_decide; lia.
    + intros q. unfold bump. specialize (H2 q). case_bool_decide; lia.
Qed.

Lemma put_frame ext c s a :
  mem_inv ext (S c) s → frame_ok a → 0 < ext (a / PAGESIZE) →
  ∃ g, with_frames (F := F) (pf_put a 1) s = Fin (Ok tt) (set_frames g s) ∧
    mem_inv (bump (-1) a 1 ext) c (set_frames g s).
Proof.
  intros [H1 H2 H3 H4 H5] Ha He.
  destruct (pf_put_law _ _ _ a H1 Ha) as (g & E & Hi).
  { pose proof (cnt_nonneg (flat s) (a / PAGESIZE)). lia. }
  exists g. unfold with_frames. rewrite E. split; [done|]. split; try done; simpl.
  - eapply pf_ext; [|exact Hi]. intros q. rewrite !bump_one. lia.
  - intros q. rewrite bump_one. unfold one. specialize (H2 q). case_bool_decide; subst; lia.
Qed.

Lemma keep_frame ext c s a :
  mem_inv ext c s → frame_ok a → 0 < cnt (flat s) (a / PAGESIZE) + ext (a / PAGESIZE) < W64 - 1 →
  ∃ g, with_frames (F := F) (pf_keep a 1) s = Fin (Ok tt) (set_frames g s) ∧
    mem_inv (bump 1 a 1 ext) c (set_frames g s).
Proof.
  intros [H1 H2 H3 H4 H5] Ha He.
  destruct (pf_keep_law _ _ _ a H1 Ha) as (g & E & Hi); [lia|].
  exists g. unfold with_frames. rewrite E. split; [done|]. split; try done; simpl.
  - eapply pf_ext; [|exact Hi]. intros q. rewrite !bump_one. lia.
  - intros q. rewrite bump_one. unfold one. specialize (H2 q). case_bool_decide; lia.
Qed.

(** An entry takes over a reference, or gives it back. *)
Lemma insert_inv ext c s m p v e :
  mem_inv (bump 1 (addr e) 1 ext) c s → (∀ q, 0 <= ext q) → mems s !! m = Some p →
  phy_pages p !! v = None → frame_ok (addr e) → 1 <= refcount e →
  (∀ k e1, flat s !! k = Some e1 → addr e1 / PAGESIZE = addr e / PAGESIZE → 1 < refcount e ∧ 1 < refcount e1) →
  mem_inv ext c (set_mems (alter (set_pages <[v := e]>) m) s).
Proof.
  intros [H1 H2 H3 H4 H5] He Hm Hv Hok Hrc Hsh.
  assert (Hk : flat s !! (m, v) = None) by (rewrite lookup_flatten, Hm; done).
  split; simpl; rewrite ?(flatten_insert _ _ _ _ _ Hm); try done.
  - eapply pf_ext; [|exact H1]. intros q. simpl. rewrite cnt_insert, bump_one by done. lia.
  - intros k e'. destruct (decide (k = (m, v))) as [->|Hne].
    + rewrite lookup_insert_eq. by intros [= <-].
    + rewrite lookup_insert_ne by congruence. apply H3.
  - intros k1 k2 e1 e2. destruct (decide (k1 = (m, v))) as [->|Hn1], (decide (k2 = (m, v))) as [->|Hn2];
      rewrite ?lookup_insert_eq, ?lookup_insert_ne by congruence; intros E1 E2 Hne Ea; try done; simplify_eq.
    + by apply (Hsh k2 e2).
    + by apply (Hsh k1 e1).
    + by apply (H4 k1 k2 e1 e2).
  - intros m' Hm'. apply H5. destruct (decide (m = m')) as [->|]; [eauto|].
    by rewrite lookup_alter_ne in Hm'.
Qed.

Lemma delete_inv ext c s m p v e :
  mem_inv ext c s → mems s !! m = Some p → phy_pages p !! v = Some e →
  mem_inv (bump 1 (addr e) 1 ext) c (set_mems (alter (set_pages (delete v)) m) s).
Proof.
  intros [H1 H2 H3 H4 H5] Hm Hv.
  assert (Hk : flat s !! (m, v) = Some e) by (rewrite lookup_flatten, Hm; done).
  split; simpl; rewrite ?(flatten_delete _ _ _ _ Hm); try done.
  - eapply pf_ext; [|exact H1]. intros q. simpl. rewrite (cnt_delete _ _ e), bump_one by done. lia.
  - intros q. rewrite bump_one. unfold one. specialize (H2 q). case_bool_decide; lia.
  - intros k e' [_ Hk']%lookup_delete_Some. by apply (H3 k).
  - intros k1 k2 e1 e2 [_ E1]%lookup_delete_Some [_ E2]%lookup_delete_Some. by apply (H4 k1 k2 e1 e2).
  - intros m' Hm'. apply H5. destruct (decide (m = m')) as [->|]; [eauto|].
    by rewrite lookup_alter_ne in Hm'.
Qed.

(** An entry changes: the new page is not shared, or it is the same page. *)
Lemma replace_inv ext c s m p v e0 e :
  mem_inv (bump 1 (addr e) 1 ext) c s → (∀ q, 0 <= ext q) → mems s !! m = Some p →
  phy_pages p !! v = Some e0 → frame_ok (addr e) → 1 <= refcount e →
  (∀ k e1, flat s !! k = Some e1 → k ≠ (m, v) → addr e1 / PAGESIZE = addr e / PAGESIZE →
     1 < refcount e ∧ 1 < refcount e1) →
  mem_inv (bump 1 (addr e0) 1 ext) c (set_mems (alter (set_pages <[v := e]>) m) s).
Proof.
  intros Hi He Hm Hv Hok Hrc Hsh.
  pose proof (delete_inv _ _ _ _ _ _ _ Hi Hm Hv) as Hd.
  set (s1 := set_mems (alter (set_pages (delete v)) m) s) in *.
  assert (Hm1 : mems s1 !! m = Some (set_pages (delete v) p)) by (simpl; by rewrite lookup_alter_eq, Hm).
  assert (E : set_mems (alter (set_pages <[v := e]>) m) s1 = set_mems (alter (set_pages <[v := e]>) m) s).
  { unfold s1, set_mems. simpl. f_equal. apply map_eq. intros m'.
    destruct (decide (m = m')) as [<-|]; [|by rewrite !lookup_alter_ne].
    rewrite !lookup_alter_eq, Hm. simpl. unfold set_pages; simpl. by rewrite insert_delete_eq. }
  rewrite <- E. eapply insert_inv; try done.
  - eapply mem_inv_ext; [|exact Hd]. intros q. rewrite !bump_one. lia.
  - intros q. rewrite bump_one. unfold one. specialize (He q). case_bool_decide; lia.
  - simpl. by rewrite lookup_delete_eq.
  - intros k e1. unfold s1; simpl. rewrite (flatten_delete _ _ _ _ Hm).
    intros [Hne Hk]%lookup_delete_Some Ea. apply (Hsh k e1); congruence.
Qed.

(** ** What stays as it is *)

Definition uses s (m q : Z) : Prop := ∃ v e, flat s !! (m, v) = Some e ∧ addr e / PAGESIZE = q.

(** Page [q] belongs to someone else than payload [m]. *)
Definition held ext s (m q : Z) : Prop :=
  (∃ m', m' ≠ m ∧ uses s m' q) ∨ (0 < ext q ∧ ~ uses s m q).

Record private_to ext m s s' : Prop := {
  pv_mems : ∀ m', m' ≠ m → mems s' !! m' = mems s !! m';
  pv_ram : ∀ q, held ext s m q → ram s' !! q = ram s !! q;
  pv_held : ∀ q, held ext s m q → held ext s' m q;
}.

Lemma private_refl ext m s : private_to ext m s s.
Proof. by split. Qed.
Lemma private_trans ext m s1 s2 s3 :
  private_to ext m s1 s2 → private_to ext m s2 s3 → private_to ext m s1 s3.
Proof.
  intros [A1 A2 A3] [B1 B2 B3]. split.
  - intros m' Hm. by rewrite B1, A1.
  - intros q Hq. rewrite B2, A2; auto.
  - auto.
Qed.

(** Steps that change only payload [m] and pages nobody else holds. *)
Lemma private_step ext m s s' :
  (∀ m', m' ≠ m → mems s' !! m' = mems s !! m') →
  (∀ q, ram s' !! q ≠ ram s !! q → ~ held ext s m q) →
  (∀ q, uses s' m q → uses s m q ∨ ~ held ext s m q) →
  private_to ext m s s'.
Proof.
  intros Hm Hr Hu. split; [done| |].
  - intros q Hq. destruct (decide (ram s' !! q = ram s !! q)) as [|Hne]; [done|]. by apply Hr in Hne.
  - intros q Hq. pose proof Hq as Hq'. destruct Hq as [(m' & Hne & v & e & Hv & Ha)|[He Hn]].
    + left. exists m'. split; [done|]. exists v, e. split; [|done].
      rewrite lookup_flatten in *. by rewrite Hm.
    + right. split; [done|]. intros Hu'. by destruct (Hu q Hu').
Qed.

(** The byte at offset [o] of a payload, 0 where no page is present. *)
Definition page_at s (q : Z) : page := default ∅ (ram s !! q).
Definition view s (m o : Z) : Z :=
  match flat s !! (m, o / PAGESIZE) with
  | Some e => default 0 (page_at s (addr e / PAGESIZE) !! (o mod PAGESIZE))
  | None => 0
  end.

Lemma private_view ext m m' s s' :
  private_to ext m s s' → m' ≠ m → ∀ o, view s' m' o = view s m' o.
Proof.
  intros [H1 H2 _] Hne o. unfold view, page_at. rewrite !lookup_flatten, H1 by done.
  destruct (mems s !! m') as [p|] eqn:Em; [|done]. simpl.
  destruct (phy_pages p !! (o / PAGESIZE)) as [e|] eqn:Ee; [|done].
  rewrite H2; [done|]. left. exists m'. split; [done|]. exists (o / PAGESIZE), e.
  split; [|done]. by rewrite lookup_flatten, Em.
Qed.

(** ** Contents of frames *)

Lemma kpa_page_run a s : frame_ok a → kpa_page a s = Fin (Ok (a / PAGESIZE)) s.
Proof.
  intros [Hp _ Hl]. assert (Hr : 0 < a < KVA_OFFSET - KPA_OFFSET).
  { unfold Buddy.LIMIT, PAGESIZE in *. lia. }
  unfold kpa_page, convert, nonnull. rewrite (proj2 (Z.eqb_neq a 0)) by lia. cbn [negb].
  rewrite PA2KPA_small by lia. unfold mk_addr.
  rewrite (proj2 (within_kpa (a + KPA_OFFSET) ltac:(unfold KPA_OFFSET; lia)))
    by (unfold KPA_OFFSET, KVA_OFFSET in *; lia).
  unfold mret, M_ret, KPA2PA, sub64. do 3 f_equal.
  replace (a + KPA_OFFSET - KPA_OFFSET) with a by lia. apply wrap64_small.
  unfold is_u64, W64, KPA_OFFSET, KVA_OFFSET in *. lia.
Qed.

Lemma zero_page_run a s :
  frame_ok a → zero_page a s = Fin (Ok tt) (set_ram <[a / PAGESIZE := ∅]> s).
Proof. intros Ha. unfold zero_page, mbind, M_bind. by rewrite kpa_page_run. Qed.

Lemma copy_page_run d a s :
  frame_ok d → frame_ok a →
  copy_page d a s = Fin (Ok tt) (set_ram <[d / PAGESIZE := page_at s (a / PAGESIZE)]> s).
Proof. intros Hd Ha. unfold copy_page, mbind, M_bind. by rewrite !kpa_page_run. Qed.

Lemma store_page_run a o bytes s :
  frame_ok a →
  store_page a o bytes s =
  Fin (Ok tt) (set_ram <[a / PAGESIZE := store_bytes o bytes (page_at s (a / PAGESIZE))]> s).
Proof. intros Ha. unfold store_page, mbind, M_bind. by rewrite kpa_page_run. Qed.

Lemma load_page_run a o n s :
  frame_ok a → load_page a o n s = Fin (Ok (load_bytes o n (page_at s (a / PAGESIZE)))) s.
Proof. intros Ha. unfold load_page, mbind, M_bind. by rewrite kpa_page_run. Qed.

Lemma offvpn_div off : is_u64 off → offset_to_offvpn off = off / PAGESIZE.
Proof.
  intros Ho. unfold offset_to_offvpn. rewrite page_align_down_div by done. unfold PAGESIZE.
  by rewrite Z.div_mul.
Qed.

(** A page nobody refers to: writing it and letting [m] take it is private. *)
Lemma fresh_not_held ext s m q : cnt (flat s) q = 0 → ext q = 0 → ~ held ext s m q.
Proof.
  intros Hc He [(m' & _ & v & e & Hv & Ha)|[Hp _]]; [|lia]. by eapply cnt_zero in Hc.
Qed.

Lemma frame_of_run a : 0 < a → (PAGESIZE | a) → a + 1 * PAGESIZE <= Buddy.LIMIT → frame_ok a.
Proof. intros. split; [done|done|lia]. Qed.

(** ** First use of a page *)

Lemma get_mem_run s m p : mems s !! m = Some p → get_mem m s = Fin (Ok p) s.
Proof. unfold get_mem. by intros ->. Qed.

(** A reference held outside is given back. *)
Lemma put_taken ext c s a :
  mem_inv (bump 1 a 1 ext) (S c) s → frame_ok a → (∀ q, 0 <= ext q) →
  ∃ g, with_frames (F := F) (pf_put a 1) s = Fin (Ok tt) (set_frames g s) ∧ mem_inv ext c (set_frames g s).
Proof.
  intros Hi Ha He. destruct (put_frame _ _ _ a Hi Ha) as (g & E & Hg).
  { rewrite bump_one. unfold one. rewrite bool_decide_eq_true_2 by done. specialize (He (a / PAGESIZE)). lia. }
  exists g. split; [done|]. eapply mem_inv_ext; [|exact Hg]. intros q. rewrite !bump_one. lia.
Qed.

Lemma fill_run ext c s p f v a :
  mem_inv (bump 1 a 1 ext) (S c) s → frame_ok a → (∀ q, 0 <= ext q) →
  ∃ r s', fill_from_file p f v a s = Fin r s' ∧ mems s' = mems s ∧
    (∀ q, q ≠ a / PAGESIZE → ram s' !! q = ram s !! q) ∧
    match r with Ok _ => mem_inv (bump 1 a 1 ext) c s' | Err _ => mem_inv ext c s' end.
Proof.
  intros Hi Ha He. pose proof (mem_inv_less _ c 1 _ Hi) as Hi'. unfold fill_from_file.
  destruct (_ <? _).
  { destruct (put_taken _ _ _ _ Hi Ha He) as (g & E & Hg). exists (Err OUT_OF_BOUNDARY), (set_frames g s).
    split; [by rewrite (bind_run _ _ _ _ _ E)|]. by split_and!. }
  destruct (_ =? 0); [by exists (Ok tt), s|].
  rewrite (bind_run _ _ _ _ _ (kpa_page_run a s Ha)). rewrite (bind_run (gets files) _ _ (files s) s eq_refl).
  destruct (vf_read _ _ _ _) as [[r bytes] fs].
  rewrite (bind_run (modify (set_files fs)) _ _ tt (set_files fs s) eq_refl).
  rewrite (bind_run _ _ _ _ _ (store_page_run a 0 bytes (set_files fs s) Ha)).
  set (s1 := set_ram _ _).
  assert (Hram : ∀ q, q ≠ a / PAGESIZE → ram s1 !! q = ram s !! q).
  { intros q Hq. simpl. by rewrite lookup_insert_ne. }
  assert (Hi1 : mem_inv (bump 1 a 1 ext) (S c) s1) by (by apply (mem_inv_same _ _ s)).
  destruct r as [n|e].
  - exists (Ok tt), s1. split_and!; [done|done|done|by apply (mem_inv_less _ _ 1)].
  - destruct (put_taken _ _ _ _ Hi1 Ha He) as (g & E & Hg). exists (Err e), (set_frames g s1).
    split; [by rewrite (bind_run _ _ _ _ _ E)|]. by split_and!.
Qed.

(** Payload [m] keeps everything but its pages, which become [pg]. *)
Definition repaged s' (m : Z) p (pg : gmap Z PhyPage) : Prop :=
  mems s' !! m = Some (set_pages (λ _, pg) p).

Lemma repaged_refl s m p : mems s !! m = Some p → repaged s m p (phy_pages p).
Proof. unfold repaged. intros ->. by destruct p. Qed.

(** [m] takes the fresh page [a] at position [v]; only that page was written. *)
Lemma take_page ext c s s1 m p v a :
  mem_inv (bump 1 a 1 ext) c s1 → mems s1 = mems s → (∀ q, q ≠ a / PAGESIZE → ram s1 !! q = ram s !! q) →
  mems s !! m = Some p → phy_pages p !! v = None → (∀ q, 0 <= ext q) → frame_ok a →
  cnt (flat s) (a / PAGESIZE) = 0 → ext (a / PAGESIZE) = 0 →
  let s2 := set_mems (alter (set_pages <[v := mkPage a 1]>) m) s1 in
  mem_inv ext c s2 ∧ private_to ext m s s2 ∧ repaged s2 m p (<[v := mkPage a 1]> (phy_pages p)) ∧
  ∀ o, o / PAGESIZE ≠ v → view s2 m o = view s m o.
Proof.
  intros Hi Hms Hram Hm Hv He Ha Hc Hx s2.
  assert (Hm1 : mems s1 !! m = Some p) by congruence.
  split_and!.
  - eapply insert_inv; try done. intros k e1. rewrite Hms. intros Hk Ea. exfalso.
    by apply (cnt_zero (flat s) k e1 (a / PAGESIZE)).
  - apply private_step.
    + intros m' Hne. simpl. by rewrite Hms, lookup_alter_ne.
    + intros q Hne. simpl in Hne. destruct (decide (q = a / PAGESIZE)) as [->|Hq]; [|by rewrite Hram in Hne].
      by apply fresh_not_held.
    + intros q (v' & e & Hk & Hq). simpl in Hk. rewrite Hms, (flatten_insert _ _ _ _ _ Hm) in Hk.
      apply lookup_insert_Some in Hk as [[_ <-]|[_ Hk]]; [|left; by exists v', e].
      right. simpl in Hq. subst q. by apply fresh_not_held.
  - unfold repaged. simpl. rewrite Hms, lookup_alter_eq, Hm. done.
  - intros o Ho. unfold view, page_at. simpl. rewrite Hms, (flatten_insert _ _ _ _ _ Hm).
    rewrite lookup_insert_ne by congruence. destruct (flat s !! (m, o / PAGESIZE)) as [e|] eqn:Ee; [|done].
    rewrite Hram; [done|]. by apply (cnt_zero (flat s) (m, o / PAGESIZE)).
Qed.

(** What an operation that may add pages to [m] keeps of its contents. *)
Definition keeps_view s s' (m : Z) p : Prop :=
  ∀ o, (file p = None ∨ is_Some (phy_pages p !! (o / PAGESIZE))) → view s' m o = view s m o.

Lemma ensure_page_run ext c s m p off :
  mem_inv ext (S (S c)) s → mems s !! m = Some p → is_u64 off →
  ∃ r s' pg, ensure_page m off s = Fin r s' ∧ mem_inv ext c s' ∧ private_to ext m s s' ∧
    repaged s' m p pg ∧ keeps_view s s' m p ∧
    match r with
    | Ok a => page_align_down off < memsz p ∧
        (∃ e, pg !! (off / PAGESIZE) = Some e ∧ addr e = a) ∧
        (∀ v e, phy_pages p !! v = Some e → pg !! v = Some e) ∧
        (∀ v, v ≠ off / PAGESIZE → pg !! v = phy_pages p !! v)
    | Err _ => pg = phy_pages p
    end.
Proof.
  intros Hi Hm Ho. pose proof (mi_ext _ _ _ Hi) as He. unfold ensure_page.
  rewrite (bind_run _ _ _ _ _ (get_mem_run s m p Hm)).
  assert (Hkeep : ∀ r, match r with Ok a => page_align_down off < memsz p ∧
        (∃ e, phy_pages p !! (off / PAGESIZE) = Some e ∧ addr e = a) | Err _ => True end →
    ∃ r' s' pg, Fin r s = Fin r' s' ∧ mem_inv ext c s' ∧ private_to ext m s s' ∧
    repaged s' m p pg ∧ keeps_view s s' m p ∧
    match r' with
    | Ok a => page_align_down off < memsz p ∧
        (∃ e, pg !! (off / PAGESIZE) = Some e ∧ addr e = a) ∧
        (∀ v e, phy_pages p !! v = Some e → pg !! v = Some e) ∧
        (∀ v, v ≠ off / PAGESIZE → pg !! v = phy_pages p !! v)
    | Err _ => pg = phy_pages p
    end).
  { intros r Hr. exists r, s, (phy_pages p). split_and!; try done.
    - by apply (mem_inv_less _ _ 2).
    - by apply repaged_refl.
    - destruct r as [a|]; [|done]. by destruct Hr as (? & ?); split_and!. }
  unfold lookup_page, lookup_page_entry. destruct (Z.leb_spec (memsz p) (page_align_down off)) as [Hle|Hlt].
  { rewrite bool_decide_eq_false_2 by done. cbn [negb]. by apply (Hkeep (Err OUT_OF_BOUNDARY)). }
  rewrite offvpn_div by done. destruct (phy_pages p !! (off / PAGESIZE)) as [e|] eqn:Ee; simpl.
  { apply (Hkeep (Ok (addr e))). eauto. }
  destruct (get_frames _ _ _ 1 Hi) as (r & g & E & Hr); [lia|]. destruct r as [a|e].
  2: { rewrite (bind_run_err _ _ _ _ _ E). exists (Err e), (set_frames g s), (phy_pages p).
       split_and!; [done|by apply (mem_inv_less _ _ 1)|by split|by apply repaged_refl|by intros o _|done]. }
  rewrite (bind_run _ _ _ _ _ E). destruct Hr as (Hp & Hal & Hl & Hz & Hi1).
  assert (Ha : frame_ok a) by by apply frame_of_run.
  rewrite (bind_run _ _ _ _ _ (zero_page_run a (set_frames g s) Ha)). set (s1 := set_ram _ _).
  destruct (Hz (a / PAGESIZE)) as [Hc Hx]; [unfold Gfp.in_pages; lia|].
  assert (Hi1' : mem_inv (bump 1 a 1 ext) (S c) s1) by by apply (mem_inv_same _ _ (set_frames g s)).
  assert (Hram1 : ∀ q, q ≠ a / PAGESIZE → ram s1 !! q = ram s !! q).
  { intros q Hq. simpl. by rewrite lookup_insert_ne. }
  assert (Hfill : ∃ r s2, (match file p with None => mret tt | Some f => fill_from_file p f (off / PAGESIZE) a end)
      s1 = Fin r s2 ∧ mems s2 = mems s ∧ (∀ q, q ≠ a / PAGESIZE → ram s2 !! q = ram s !! q) ∧
      (file p = None → r = Ok tt ∧ s2 = s1) ∧
      match r with Ok _ => mem_inv (bump 1 a 1 ext) c s2 | Err _ => mem_inv ext c s2 end).
  { destruct (file p) as [f|].
    - destruct (fill_run ext c s1 p f (off / PAGESIZE) a Hi1' Ha He) as (r & s2 & E2 & Hm2 & Hr2 & Hi2).
      exists r, s2. split_and!; try done. intros q Hq. rewrite Hr2, Hram1; done.
    - exists (Ok tt), s1. split_and!; try done. by apply (mem_inv_less _ _ 1). }
  destruct Hfill as (r & s2 & E2 & Hm2 & Hram2 & Hnone & Hi2). destruct r as [[]|e].
  2: { rewrite (bind_run_err _ _ _ _ _ E2). exists (Err e), s2, (phy_pages p). split_and!; try done.
       - apply private_step; [by rewrite Hm2| |intros q (v & e1 & Hk & Hq); left; exists v, e1; by rewrite <- Hm2].
         intros q Hne. destruct (decide (q = a / PAGESIZE)) as [->|Hq]; [|by rewrite Hram2 in Hne].
         by apply fresh_not_held.
       - apply repaged_refl. by rewrite Hm2.
       - intros o [Hf|_]; [by destruct (Hnone Hf)|]. unfold view, page_at. rewrite Hm2.
         destruct (flat s !! (m, o / PAGESIZE)) as [e1|] eqn:Ek; [|done]. rewrite Hram2; [done|].
         by apply (cnt_zero (flat s) (m, o / PAGESIZE)). }
  rewrite (bind_run _ _ _ _ _ E2).
  destruct (take_page ext c s s2 m p (off / PAGESIZE) a Hi2 Hm2 Hram2 Hm Ee He Ha Hc Hx) as (T1 & T2 & T3 & T4).
  set (s3 := set_mems _ s2) in *.
  rewrite (bind_run (upd_mem m _) _ _ tt s3 eq_refl).
  eexists (Ok a), (match file_backed p with true => set_mapped _ s3 | false => set_anon _ s3 end), _.
  split; [by destruct (file_backed p)|]. split_and!.
  - destruct (file_backed p); by apply (mem_inv_same _ _ s3).
  - apply (private_trans _ _ _ s3); [done|]. destruct (file_backed p); (apply private_step; [done|done|by left]).
  - unfold repaged in *. destruct (file_backed p); exact T3.
  - intros o Ho'. transitivity (view s3 m o); [by destruct (file_backed p)|].
    destruct (decide (o / PAGESIZE = off / PAGESIZE)) as [Eo|]; [|by apply T4].
    destruct Ho' as [Hf|[e' He']]; [|congruence]. destruct (Hnone Hf) as [_ ->].
    unfold view, page_at, s3. simpl. rewrite Eo, lookup_flatten, lookup_alter_eq, Hm. simpl.
    rewrite lookup_insert_eq. simpl. rewrite lookup_insert_eq. simpl.
    rewrite lookup_flatten, Hm. simpl. rewrite Ee. by rewrite lookup_empty.
  - done.
  - exists (mkPage a 1). by rewrite lookup_insert_eq.
  - intros v e1 Hv. rewrite lookup_insert_ne by congruence. done.
  - intros v Hv. by rewrite lookup_insert_ne.
Qed.

(** ** Copy on write *)

Lemma fork_run ext c s m p off e :
  mem_inv ext (S (S c)) s → mems s !! m = Some p → is_u64 off → page_align_down off < memsz p →
  phy_pages p !! (off / PAGESIZE) = Some e →
  ∃ r s' pg, fork m off s = Fin r s' ∧ mem_inv ext c s' ∧ private_to ext m s s' ∧
    repaged s' m p pg ∧ (∀ o, view s' m o = view s m o) ∧
    match r with
    | Ok _ => ∃ a, frame_ok a ∧ pg = <[off / PAGESIZE := mkPage a 1]> (phy_pages p)
    | Err _ => pg = phy_pages p
    end.
Proof.
  intros Hi Hm Ho Hlt Hv. pose proof (mi_ext _ _ _ Hi) as He.
  assert (Hk : flat s !! (m, off / PAGESIZE) = Some e) by (rewrite lookup_flatten, Hm; done).
  destruct (mi_ok _ _ _ Hi _ _ Hk) as [Ha Hrc].
  unfold fork. rewrite (bind_run _ _ _ _ _ (get_mem_run s m p Hm)), (proj2 (Z.leb_gt _ _)) by done.
  rewrite offvpn_div by done. unfold lookup_page_entry. rewrite Hv.
  rewrite (bind_run (of_result (Ok e)) _ _ e s eq_refl).
  destruct (Z.leb_spec (refcount e) 1) as [H1|H1].
  - assert (Ee : mkPage (addr e) 1 = e) by (destruct e; simpl in *; f_equal; lia). rewrite Ee.
    assert (Es : set_mems (alter (set_pages <[off / PAGESIZE := e]>) m) s = s).
    { unfold set_mems. destruct s; simpl in *. f_equal. apply map_eq. intros m'.
      destruct (decide (m = m')) as [<-|]; [|by rewrite lookup_alter_ne].
      rewrite lookup_alter_eq, Hm. simpl. f_equal. destruct p; unfold set_pages; simpl in *. f_equal.
      by apply insert_id. }
    unfold upd_mem, modify. rewrite Es. eexists (Ok tt), s, _. split; [done|]. split_and!.
    + by apply (mem_inv_less _ _ 2).
    + apply private_refl.
    + by apply repaged_refl.
    + done.
    + exists (addr e). split; [done|]. rewrite Ee. symmetry. by apply insert_id.
  - destruct (get_frames _ _ _ 1 Hi) as (r & g & E & Hr); [lia|]. destruct r as [a|err].
    2: { rewrite (bind_run_err _ _ _ _ _ E). exists (Err err), (set_frames g s), (phy_pages p).
         split_and!; [done|by apply (mem_inv_less _ _ 1)|by split|by apply repaged_refl|done|done]. }
    rewrite (bind_run _ _ _ _ _ E). destruct Hr as (Hp & Hal & Hl & Hz & Hi1).
    assert (Ha' : frame_ok a) by by apply frame_of_run.
    destruct (Hz (a / PAGESIZE)) as [Hc Hx]; [unfold Gfp.in_pages; lia|].
    rewrite (bind_run _ _ _ _ _ (copy_page_run a (addr e) (set_frames g s) Ha' Ha)).
    set (s1 := set_ram _ _).
    assert (Hne : addr e / PAGESIZE ≠ a / PAGESIZE) by by apply (cnt_zero (flat s) (m, off / PAGESIZE)).
    assert (Hi2 : mem_inv (bump 1 a 1 ext) (S c) s1) by by apply (mem_inv_same _ _ (set_frames g s)).
    assert (Hi3 := replace_inv ext (S c) s1 m p (off / PAGESIZE) e (mkPage a 1) Hi2 He Hm Hv Ha' ltac:(simpl; lia)).
    set (s2 := set_mems _ s1) in *.
    rewrite (bind_run (upd_mem m _) _ _ tt s2 eq_refl).
    destruct (put_taken ext c s2 (addr e)) as (g2 & E2 & Hi4); [|done|done|].
    { apply Hi3. intros k e1 Hk1 _ Ea. exfalso. by apply (cnt_zero (flat s) k e1 (a / PAGESIZE)). }
    exists (Ok tt), (set_frames g2 s2), (<[off / PAGESIZE := mkPage a 1]> (phy_pages p)).
    split_and!; [done|done| | | |by exists a].
    + apply private_step.
      * intros m' Hn. simpl. by rewrite lookup_alter_ne.
      * intros q Hq. simpl in Hq. destruct (decide (q = a / PAGESIZE)) as [->|]; [by apply fresh_not_held|].
        by rewrite lookup_insert_ne in Hq.
      * intros q (v & e1 & Hk1 & Hq). simpl in Hk1. rewrite (flatten_insert _ _ _ _ _ Hm) in Hk1.
        apply lookup_insert_Some in Hk1 as [[_ <-]|[_ Hk1]]; [|left; by exists v, e1].
        right. simpl in Hq. subst q. by apply fresh_not_held.
    + unfold repaged. simpl. rewrite lookup_alter_eq, Hm. done.
    + intros o. unfold view, page_at. simpl. rewrite (flatten_insert _ _ _ _ _ Hm).
      destruct (decide (o / PAGESIZE = off / PAGESIZE)) as [Eo|Eo].
      * rewrite Eo, lookup_insert_eq, Hk. simpl. by rewrite lookup_insert_eq.
      * rewrite lookup_insert_ne by congruence. destruct (flat s !! (m, o / PAGESIZE)) as [e1|] eqn:E1; [|done].
        rewrite lookup_insert_ne; [done|]. intros Eq. symmetry in Eq. revert Eq.
        by apply (cnt_zero (flat s) (m, o / PAGESIZE)).
Qed.

Lemma lookup_store_bytes o bytes pg i :
  store_bytes o bytes pg !! i =
  if bool_decide (o <= i < o + Z.of_nat (length bytes)) then bytes !! Z.to_nat (i - o) else pg !! i.
Proof.
  revert o pg. induction bytes as [|b bytes IH]; intros o pg; simpl.
  - rewrite bool_decide_eq_false_2 by lia. done.
  - rewrite IH. destruct (decide (i = o)) as [->|Hne].
    + rewrite bool_decide_eq_false_2, bool_decide_eq_true_2 by lia.
      rewrite Z.sub_diag, lookup_insert_eq. done.
    + destruct (decide (o + 1 <= i < o + 1 + Z.of_nat (length bytes))).
      * rewrite !bool_decide_eq_true_2 by lia.
        replace (Z.to_nat (i - o)) with (S (Z.to_nat (i - (o + 1)))) by lia. done.
      * rewrite !bool_decide_eq_false_2 by lia. by rewrite lookup_insert_ne.
Qed.

(** Writing a page in place when the entry's count is 1. *)
Lemma store_private ext c s m p v e o bytes :
  mem_inv ext c s → mems s !! m = Some p → phy_pages p !! v = Some e → refcount e <= 1 →
  0 <= o → o + Z.of_nat (length bytes) <= PAGESIZE →
  let s' := set_ram <[addr e / PAGESIZE := store_bytes o bytes (page_at s (addr e / PAGESIZE))]> s in
  mem_inv ext c s' ∧ private_to ext m s s' ∧
  ∀ x, view s' m x =
    if bool_decide (v * PAGESIZE + o <= x < v * PAGESIZE + o + Z.of_nat (length bytes))
    then default 0 (bytes !! Z.to_nat (x - (v * PAGESIZE + o))) else view s m x.
Proof.
  intros Hi Hm Hv Hrc Ho Hlen s'.
  assert (Hk : flat s !! (m, v) = Some e) by (rewrite lookup_flatten, Hm; done).
  assert (Hex : ∀ k e1, flat s !! k = Some e1 → addr e1 / PAGESIZE = addr e / PAGESIZE → k = (m, v)).
  { intros k e1 Hk1 Ea. destruct (decide (k = (m, v))) as [|Hne]; [done|].
    pose proof (mi_excl _ _ _ Hi _ _ _ _ Hk Hk1 (not_eq_sym Hne) (eq_sym Ea)). lia. }
  split_and!.
  - by apply (mem_inv_same _ _ s).
  - apply private_step; [done| |by left]. intros q Hq. simpl in Hq.
    destruct (decide (q = addr e / PAGESIZE)) as [->|]; [|by rewrite lookup_insert_ne in Hq].
    intros [(m' & Hne & v' & e1 & Hk1 & Ea)|[_ Hn]].
    + apply Hex in Hk1; [congruence|done].
    + apply Hn. by exists v, e.
  - intros x. unfold view, page_at, s'. simpl. pose proof (Z.div_mod x PAGESIZE ltac:(done)) as Hx.
    pose proof (Z.mod_pos_bound x PAGESIZE ltac:(done)).
    destruct (decide (x / PAGESIZE = v)) as [<-|Hne].
    + rewrite Hk, lookup_insert_eq. cbn [default from_option id]. rewrite lookup_store_bytes. fold (page_at s (addr e / PAGESIZE)).
      replace (bool_decide (x / PAGESIZE * PAGESIZE + o <= x < x / PAGESIZE * PAGESIZE + o + Z.of_nat (length bytes)))
        with (bool_decide (o <= x mod PAGESIZE < o + Z.of_nat (length bytes))) by (apply bool_decide_ext; lia).
      case_bool_decide; [|done]. do 3 f_equal. lia.
    + rewrite bool_decide_eq_false_2.
      2: { intros Hr. apply Hne. symmetry. apply Z.div_unique with (x - v * PAGESIZE); lia. }
      destruct (flat s !! (m, x / PAGESIZE)) as [e1|] eqn:E1; [|done].
      rewrite lookup_insert_ne; [done|]. intros Ea. symmetry in Ea. apply (Hex _ _ E1) in Ea. congruence.
Qed.

(** ** Writing *)

(** Adding pages and changing entries never makes a present page absent. *)
Definition grows p (pg : gmap Z PhyPage) : Prop := ∀ v, is_Some (phy_pages p !! v) → is_Some (pg !! v).

(** The bytes at [from ..] become [bytes], the others keep their value. *)
Record overwritten s s' (m : Z) p (from : Z) (bytes : list Z) : Prop := {
  ow_new : ∀ x, from <= x < from + Z.of_nat (length bytes) →
    view s' m x = default 0 (bytes !! Z.to_nat (x - from)) ∧ is_Some (flat s' !! (m, x / PAGESIZE));
  ow_old : ∀ x, ~ from <= x < from + Z.of_nat (length bytes) →
    file p = None ∨ is_Some (phy_pages p !! (x / PAGESIZE)) → view s' m x = view s m x;
  ow_keep : ∀ v, is_Some (phy_pages p !! v) → is_Some (flat s' !! (m, v));
}.

Lemma in_page_range cur n x :
  n <= PAGESIZE - cur mod PAGESIZE → cur <= x < cur + n → x / PAGESIZE = cur / PAGESIZE.
Proof.
  intros Hn Hx. pose proof (Z.div_mod cur PAGESIZE ltac:(done)).
  pose proof (Z.mod_pos_bound cur PAGESIZE ltac:(done)).
  symmetry. apply Z.div_unique with (x - cur / PAGESIZE * PAGESIZE); lia.
Qed.

Lemma write_chunk_run ext c s m p cur bytes :
  mem_inv ext (4 + c) s → mems s !! m = Some p → is_u64 cur →
  Z.of_nat (length bytes) <= PAGESIZE - cur mod PAGESIZE →
  ∃ r s' pg, write_chunk m cur bytes s = Fin r s' ∧ mem_inv ext c s' ∧ private_to ext m s s' ∧
    repaged s' m p pg ∧ grows p pg ∧
    match r with Ok _ => overwritten s s' m p cur bytes | Err _ => keeps_view s s' m p end.
Proof.
  intros Hi Hm Hu Hlen. unfold write_chunk.
  destruct (ensure_page_run ext (2 + c) s m p cur Hi Hm Hu) as (r & s1 & pg1 & E1 & Hi1 & Hp1 & Hr1 & Hk1 & Hres).
  destruct r as [a1|e].
  2: { rewrite (bind_run_err _ _ _ _ _ E1). exists (Err e), s1, pg1. split_and!; try done.
       - by apply (mem_inv_less _ _ 2).
       - rewrite Hres. by intros v. }
  rewrite (bind_run _ _ _ _ _ E1). destruct Hres as (Hlt & (e1 & He1 & Ea1) & Hkeep & _).
  set (p1 := set_pages (λ _, pg1) p) in *.
  rewrite (bind_run _ _ _ _ _ (get_mem_run s1 m p1 Hr1)).
  assert (Hrc : page_refcount p1 cur = Ok (refcount e1)).
  { unfold page_refcount, lookup_page_entry. rewrite (proj2 (Z.leb_gt _ _)), offvpn_div by done.
    simpl. by rewrite He1. }
  rewrite Hrc, (bind_run (of_result (Ok (refcount e1))) _ _ (refcount e1) s1 eq_refl).
  assert (Hfork : ∃ r s2 pg2, (if 1 <? refcount e1 then fork m cur else mret tt) s1 = Fin r s2 ∧
    mem_inv ext c s2 ∧ private_to ext m s1 s2 ∧ repaged s2 m p pg2 ∧ (∀ o, view s2 m o = view s1 m o) ∧
    (∀ v, is_Some (pg1 !! v) → is_Some (pg2 !! v)) ∧
    match r with Ok _ => ∃ e2, pg2 !! (cur / PAGESIZE) = Some e2 ∧ frame_ok (addr e2) ∧ refcount e2 <= 1 | Err _ => True end).
  { assert (Hk : flat s1 !! (m, cur / PAGESIZE) = Some e1) by (rewrite lookup_flatten, Hr1; done).
    destruct (mi_ok _ _ _ Hi1 _ _ Hk) as [Hok1 _]. destruct (Z.ltb_spec 1 (refcount e1)) as [Hsh|Hsh].
    - destruct (fork_run ext c s1 m p1 cur e1 Hi1 Hr1 Hu Hlt He1) as (r & s2 & pg2 & E2 & Hi2 & Hp2 & Hr2 & Hv2 & Hres).
      exists r, s2, pg2. split_and!; try done.
      + intros v Hv. destruct r as [[]|]; [|by subst pg2]. destruct Hres as (a & _ & ->).
        destruct (decide (v = cur / PAGESIZE)) as [->|]; [rewrite lookup_insert_eq; eauto|by rewrite lookup_insert_ne].
      + destruct r as [[]|]; [|done]. destruct Hres as (a & Ha & ->). exists (mkPage a 1).
        by rewrite lookup_insert_eq.
    - exists (Ok tt), s1, pg1. split_and!; try done.
      + by apply (mem_inv_less _ _ 2).
      + by exists e1. }
  destruct Hfork as (r & s2 & pg2 & E2 & Hi2 & Hp2 & Hr2 & Hv2 & Hg2 & Hres).
  assert (Hgr : grows p pg2).
  { intros v [e Hv]. apply Hg2. eauto. }
  assert (Hpriv : private_to ext m s s2) by by eapply private_trans.
  assert (Hkv : keeps_view s s2 m p) by (intros o Ho; rewrite Hv2; by apply Hk1).
  destruct r as [[]|e].
  2: { rewrite (bind_run_err _ _ _ _ _ E2). by exists (Err e), s2, pg2. }
  rewrite (bind_run _ _ _ _ _ E2). destruct Hres as (e2 & He2 & Hok2 & Hrc2).
  set (p2 := set_pages (λ _, pg2) p) in *.
  rewrite (bind_run _ _ _ _ _ (get_mem_run s2 m p2 Hr2)).
  assert (Hlk : lookup_page p2 cur = Ok (addr e2)).
  { unfold lookup_page, lookup_page_entry. rewrite (proj2 (Z.leb_gt _ _)), offvpn_div by done.
    simpl. by rewrite He2. }
  rewrite Hlk, (bind_run (of_result (Ok (addr e2))) _ _ (addr e2) s2 eq_refl), store_page_run by done.
  destruct (store_private ext c s2 m p2 (cur / PAGESIZE) e2 (cur mod PAGESIZE) bytes) as (Hi3 & Hp3 & Hv3);
    try done; [by apply Z.mod_pos_bound|lia|].
  eexists (Ok tt), _, pg2. split; [done|]. split_and!; try done; [by eapply private_trans|].
  replace (cur / PAGESIZE * PAGESIZE + cur mod PAGESIZE) with cur in Hv3
    by (pose proof (Z.div_mod cur PAGESIZE ltac:(done)); lia).
  split; [intros x Hx; rewrite Hv3|intros x Hx; rewrite Hv3|].
  - rewrite bool_decide_eq_true_2 by done. split; [done|]. simpl.
    rewrite (in_page_range cur _ x Hlen Hx), lookup_flatten, Hr2. simpl. eauto.
  - intros Hf. rewrite bool_decide_eq_false_2 by done. by apply Hkv.
  - intros v Hv. simpl. rewrite lookup_flatten, Hr2. by apply Hgr.
Qed.

Lemma overwritten_app s s1 s2 m p pg from b1 b2 :
  repaged s1 m p pg → grows p pg →
  overwritten s s1 m p from b1 → overwritten s1 s2 m (set_pages (λ _, pg) p) (from + Z.of_nat (length b1)) b2 →
  overwritten s s2 m p from (b1 ++ b2).
Proof.
  intros Hr Hg [A1 A2 A3] [B1 B2 B3]. split.
  - intros x; rewrite length_app, Nat2Z.inj_add; intros Hx.
    destruct (decide (x < from + Z.of_nat (length b1))) as [Hl|Hl].
    + destruct (A1 x ltac:(lia)) as [E [e He]].
      assert (Hpg : pg !! (x / PAGESIZE) = Some e) by (rewrite lookup_flatten, Hr in He; done).
      rewrite B2; [|lia|right; simpl; eauto]. rewrite lookup_app_l by lia. split; [done|].
      apply B3; simpl; eauto.
    + destruct (B1 x ltac:(lia)) as [E Hp]. rewrite lookup_app_r by lia.
      split; [|done]. rewrite E. do 2 f_equal. lia.
  - intros x; rewrite length_app, Nat2Z.inj_add; intros Hx Hf.
    rewrite B2, A2; try done; try lia. destruct Hf as [|Hs]; [by left|right]. by apply Hg.
  - intros v Hv. apply B3. by apply Hg.
Qed.

Lemma overwritten_nil s s' m p pg from :
  repaged s' m p pg → grows p pg → keeps_view s s' m p → overwritten s s' m p from [].
Proof.
  intros Hr Hg Hk. split; simpl; [lia|by intros; apply Hk|].
  intros v Hv. rewrite lookup_flatten, Hr. by apply Hg.
Qed.

Lemma overwritten_refl s m p from : mems s !! m = Some p → overwritten s s m p from [].
Proof.
  intros Hm. apply (overwritten_nil _ _ _ _ (phy_pages p)); [by apply repaged_refl| |].
  - by intros v.
  - by intros o.
Qed.

(** The rounds of [read] and [write]: each ends at the end of a page or of the
    request. *)
Lemma chunk_facts offset consumed total :
  0 <= offset → 0 <= consumed < total → offset + total <= W64 →
  let cur := offset + consumed in
  let chunk := page_chunk_size cur (total - consumed) in
  add64 offset consumed = cur ∧ is_u64 cur ∧ 0 < chunk ∧ consumed + chunk <= total ∧
  chunk <= PAGESIZE - cur mod PAGESIZE ∧
  (consumed + chunk < total → (cur + chunk) / PAGESIZE = cur / PAGESIZE + 1).
Proof.
  intros Ho Hc Ht cur chunk. pose proof (Z.mod_pos_bound cur PAGESIZE ltac:(done)) as Hm.
  assert (Hcur : is_u64 cur) by (unfold is_u64, cur; lia).
  unfold chunk, page_chunk_size, offset_in_page.
  split_and!; [by apply wrap64_small|done|..].
  - destruct (Z.ltb_spec (PAGESIZE - cur mod PAGESIZE) (total - consumed)); lia.
  - destruct (Z.ltb_spec (PAGESIZE - cur mod PAGESIZE) (total - consumed)); lia.
  - destruct (Z.ltb_spec (PAGESIZE - cur mod PAGESIZE) (total - consumed)); lia.
  - destruct (Z.ltb_spec (PAGESIZE - cur mod PAGESIZE) (total - consumed)); [|lia]. intros _.
    pose proof (Z.div_mod cur PAGESIZE ltac:(done)).
    replace (cur + (PAGESIZE - cur mod PAGESIZE)) with ((cur / PAGESIZE + 1) * PAGESIZE) by lia.
    by rewrite Z.div_mul.
Qed.

(** [k] rounds are enough. *)
Definition enough (k : nat) (offset consumed total : Z) : Prop :=
  consumed < total → (offset + total - 1) / PAGESIZE - (offset + consumed) / PAGESIZE < Z.of_nat k.

Lemma enough_iters offset total : 0 <= offset → enough (page_iters total) offset 0 total.
Proof.
  intros Ho Ht. unfold page_iters.
  assert (0 <= total / PAGESIZE) by (apply Z.div_pos; [lia|done]). rewrite Z2Nat.id by lia. rewrite Z.add_0_r.
  pose proof (Z.div_mod offset PAGESIZE ltac:(done)). pose proof (Z.mod_pos_bound offset PAGESIZE ltac:(done)).
  pose proof (Z.div_mod total PAGESIZE ltac:(done)). pose proof (Z.mod_pos_bound total PAGESIZE ltac:(done)).
  assert ((offset + total - 1) / PAGESIZE < offset / PAGESIZE + total / PAGESIZE + 2); [|lia].
  apply Z.div_lt_upper_bound; [done|]. unfold PAGESIZE in *. lia.
Qed.

Lemma enough_step k offset consumed chunk total :
  enough (S k) offset consumed total → 0 < chunk → consumed < total →
  (consumed + chunk < total → (offset + consumed + chunk) / PAGESIZE = (offset + consumed) / PAGESIZE + 1) →
  enough k offset (consumed + chunk) total.
Proof. intros He Hc Hlt Hd Hlt'. specialize (He Hlt). rewrite Z.add_assoc, Hd by done. lia. Qed.

Lemma write_loop_run ext c m offset total src k s p consumed :
  mem_inv ext (4 * k + c) s → mems s !! m = Some p →
  0 <= offset → 0 <= consumed <= total → offset + total <= W64 → total <= Z.of_nat (length src) →
  enough k offset consumed total →
  ∃ r s' pg n, write_loop k m offset consumed total src s = Fin r s' ∧ mem_inv ext c s' ∧
    private_to ext m s s' ∧ repaged s' m p pg ∧ consumed <= n <= total ∧ (r = Ok tt → n = total) ∧
    overwritten s s' m p (offset + consumed) (take (Z.to_nat (n - consumed)) (drop (Z.to_nat consumed) src)).
Proof.
  revert s p consumed. induction k as [|k IH]; intros s p consumed Hi Hm Ho Hc Ht Hl Hk.
  - simpl in *. destruct (Z.ltb_spec consumed total) as [Hlt|Hge]; [specialize (Hk Hlt)|]; simpl.
    { exfalso. enough ((offset + consumed) / PAGESIZE <= (offset + total - 1) / PAGESIZE) by lia.
      apply Z.div_le_mono; [done|lia]. }
    exists (Ok tt), s, (phy_pages p), consumed. rewrite Z.sub_diag.
    split_and!; [done|done|apply private_refl|by apply repaged_refl|lia|lia|lia|].
    by apply overwritten_refl.
  - cbn [write_loop]. destruct (Z.ltb_spec consumed total) as [Hlt|Hge]; cbn [negb].
    2: { exists (Ok tt), s, (phy_pages p), consumed. rewrite Z.sub_diag.
         split_and!; [done|by apply (mem_inv_less _ _ (4 * S k))|apply private_refl|by apply repaged_refl|lia|lia|lia|].
         by apply overwritten_refl. }
    destruct (chunk_facts offset consumed total Ho ltac:(lia) Ht) as (Ecur & Hu & Hpos & Hle & Hin & Hnext).
    rewrite Ecur. set (chunk := page_chunk_size _ _) in *.
    set (bytes := take (Z.to_nat chunk) (drop (Z.to_nat consumed) src)).
    assert (Hlen : Z.of_nat (length bytes) = chunk).
    { unfold bytes. rewrite length_take, length_drop. lia. }
    replace (4 * S k + c)%nat with (4 + (4 * k + c))%nat in Hi by lia.
    destruct (write_chunk_run ext (4 * k + c) s m p (offset + consumed) bytes Hi Hm Hu ltac:(lia))
      as (r & s1 & pg1 & E1 & Hi1 & Hp1 & Hr1 & Hg1 & Hres).
    destruct r as [[]|e].
    2: { rewrite (bind_run_err _ _ _ _ _ E1). exists (Err e), s1, pg1, consumed. rewrite Z.sub_diag.
         split_and!; [done|by apply (mem_inv_less _ _ (4 * k))|done|done|lia|lia|done|].
         by eapply overwritten_nil. }
    rewrite (bind_run _ _ _ _ _ E1).
    destruct (IH s1 _ (consumed + chunk) Hi1 Hr1 Ho) as (r & s2 & pg2 & n & E2 & Hi2 & Hp2 & Hr2 & Hn & Hok & How);
      [lia|done|done|by eapply enough_step; [| |exact Hlt|]; rewrite ?Z.add_assoc|].
    exists r, s2, pg2, n. rewrite E2. split_and!; try done; try lia; [by eapply private_trans|].
    replace (take (Z.to_nat (n - consumed)) (drop (Z.to_nat consumed) src))
      with (bytes ++ take (Z.to_nat (n - (consumed + chunk))) (drop (Z.to_nat (consumed + chunk)) src)).
    + eapply overwritten_app; [exact Hr1|done|done|]. rewrite Hlen.
      by replace (offset + consumed + chunk) with (offset + (consumed + chunk)) by lia.
    + unfold bytes. replace (Z.to_nat (consumed + chunk)) with (Z.to_nat consumed + Z.to_nat chunk)%nat by lia.
      rewrite <- drop_drop, take_take_drop. f_equal. lia.
Qed.

(** ** Reading *)

Lemma load_view s m e cur n :
  flat s !! (m, cur / PAGESIZE) = Some e → 0 <= n → n <= PAGESIZE - cur mod PAGESIZE →
  load_bytes (cur mod PAGESIZE) n (page_at s (addr e / PAGESIZE)) = view s m <$> seqZ cur n.
Proof.
  intros Hk Hn Hlen. unfold load_bytes. apply list_eq. intros i. rewrite !list_lookup_fmap.
  destruct (decide (i < Z.to_nat n)%nat) as [Hi|Hi].
  - rewrite !lookup_seqZ_lt by lia. simpl. f_equal. unfold view.
    pose proof (in_page_range cur n (cur + Z.of_nat i) Hlen ltac:(lia)) as Hd. rewrite Hd, Hk.
    do 3 f_equal. pose proof (Z.div_mod cur PAGESIZE ltac:(done)).
    pose proof (Z.div_mod (cur + Z.of_nat i) PAGESIZE ltac:(done)). rewrite Hd in *. lia.
  - rewrite !lookup_seqZ_ge by lia. done.
Qed.

Lemma keeps_view_trans s s1 s2 m p pg :
  grows p pg → keeps_view s s1 m p → keeps_view s1 s2 m (set_pages (λ _, pg) p) → keeps_view s s2 m p.
Proof.
  intros Hg H1 H2 o Ho. rewrite H2, H1; [done|done|]. destruct Ho as [|Ho]; [by left|right]. by apply Hg.
Qed.

Lemma read_loop_run ext c m offset total k s p consumed :
  mem_inv ext (2 * k + c) s → mems s !! m = Some p →
  0 <= offset → 0 <= consumed <= total → offset + total <= W64 → enough k offset consumed total →
  ∃ r s' pg, read_loop k m offset consumed total s = Fin r s' ∧ mem_inv ext c s' ∧
    private_to ext m s s' ∧ repaged s' m p pg ∧ grows p pg ∧ keeps_view s s' m p ∧
    match r with
    | Ok bytes => bytes = view s' m <$> seqZ (offset + consumed) (total - consumed)
    | Err _ => True
    end.
Proof.
  revert s p consumed. induction k as [|k IH]; intros s p consumed Hi Hm Ho Hc Ht Hk.
  - simpl in *. destruct (Z.ltb_spec consumed total) as [Hlt|Hge]; [specialize (Hk Hlt)|]; simpl.
    { exfalso. enough ((offset + consumed) / PAGESIZE <= (offset + total - 1) / PAGESIZE) by lia.
      apply Z.div_le_mono; [done|lia]. }
    exists (Ok []), s, (phy_pages p). rewrite seqZ_nil by lia.
    split_and!; [done|done|apply private_refl|by apply repaged_refl|by intros v|by intros o|done].
  - cbn [read_loop]. destruct (Z.ltb_spec consumed total) as [Hlt|Hge]; cbn [negb].
    2: { exists (Ok []), s, (phy_pages p). rewrite seqZ_nil by lia.
         split_and!; [done|by apply (mem_inv_less _ _ (2 * S k))|apply private_refl|by apply repaged_refl|
           by intros v|by intros o|done]. }
    destruct (chunk_facts offset consumed total Ho ltac:(lia) Ht) as (Ecur & Hu & Hpos & Hle & Hin & Hnext).
    rewrite Ecur. set (chunk := page_chunk_size _ _) in *.
    replace (2 * S k + c)%nat with (S (S (2 * k + c)))%nat in Hi by lia.
    destruct (ensure_page_run ext (2 * k + c) s m p (offset + consumed) Hi Hm Hu)
      as (r & s1 & pg1 & E1 & Hi1 & Hp1 & Hr1 & Hk1 & Hres).
    destruct r as [a|e].
    2: { rewrite (bind_run_err _ _ _ _ _ E1). exists (Err e), s1, pg1.
         split_and!; [done|by apply (mem_inv_less _ _ (2 * k))|done|done|rewrite Hres; by intros v|done|done]. }
    rewrite (bind_run _ _ _ _ _ E1). destruct Hres as (_ & (e1 & He1 & <-) & Hkeep & _).
    assert (Hg1 : grows p pg1) by (intros v [x Hx]; eauto).
    assert (Hf : flat s1 !! (m, (offset + consumed) / PAGESIZE) = Some e1) by (rewrite lookup_flatten, Hr1; done).
    destruct (mi_ok _ _ _ Hi1 _ _ Hf) as [Hok1 _].
    rewrite (bind_run _ _ _ _ _ (load_page_run (addr e1) _ chunk s1 Hok1)).
    destruct (IH s1 _ (consumed + chunk) Hi1 Hr1 Ho) as (r & s2 & pg2 & E2 & Hi2 & Hp2 & Hr2 & Hg2 & Hk2 & Hres2);
      [lia|done|by eapply enough_step; [| |exact Hlt|]; rewrite ?Z.add_assoc|].
    assert (Hg : grows p pg2) by (intros v Hv; by apply Hg2, Hg1).
    assert (Hkv : keeps_view s s2 m p) by exact (keeps_view_trans _ _ _ _ _ _ Hg1 Hk1 Hk2).
    destruct r as [rest|e].
    2: { rewrite (bind_run_err _ _ _ _ _ E2). exists (Err e), s2, pg2.
         split_and!; [done|done|by eapply private_trans|done|done|done|done]. }
    rewrite (bind_run _ _ _ _ _ E2). eexists (Ok _), s2, pg2. split; [done|].
    split_and!; [done|by eapply private_trans|done|done|done|].
    unfold offset_in_page. rewrite (load_view s1 m e1), Hres2 by (done || lia).
    replace (total - consumed) with (chunk + (total - (consumed + chunk))) by lia.
    rewrite seqZ_app, fmap_app by lia. f_equal; [|do 2 f_equal; lia].
    apply list_fmap_ext. intros i x Hx. apply list_elem_of_lookup_2, elem_of_seqZ in Hx. symmetry. apply Hk2.
    right. simpl. rewrite (in_page_range (offset + consumed) chunk x) by (done || lia). eauto.
Qed.

(** ** Giving pages back *)

(** References of a list of entries. *)
Definition refs (l : list (Z * PhyPage)) (q : Z) : Z := foldr (λ ve n, one (addr ve.2) q + n) 0 l.

Lemma refs_perm l l' q : l ≡ₚ l' → refs l q = refs l' q.
Proof. induction 1; simpl; lia. Qed.
Lemma one_nonneg a q : 0 <= one a q.
Proof. unfold one. case_bool_decide; lia. Qed.
Lemma refs_nonneg l q : 0 <= refs l q.
Proof. induction l as [|[v e] l IH]; simpl; [lia|]. pose proof (one_nonneg (addr e) q). lia. Qed.

Lemma cnt_payload ms m p pg q :
  cnt (flatten (<[m := set_pages (λ _, pg) p]> ms)) q =
  cnt (flatten (delete m ms)) q + refs (map_to_list pg) q.
Proof.
  induction pg as [|v e pg Hv IH] using map_ind.
  - rewrite map_to_list_empty. simpl. rewrite Z.add_0_r.
    rewrite <- (insert_delete_eq ms m). rewrite flatten_new; [done|by rewrite lookup_delete_eq|done].
  - rewrite (refs_perm _ _ _ (map_to_list_insert pg v e Hv)). cbn [refs foldr].
    change (foldr _ 0 (map_to_list pg)) with (refs (map_to_list pg) q). simpl addr.
    replace (<[m := set_pages (λ _, <[v := e]> pg) p]> ms)
      with (alter (set_pages <[v := e]>) m (<[m := set_pages (λ _, pg) p]> ms)).
    + rewrite (flatten_insert _ _ (set_pages (λ _, pg) p)) by apply lookup_insert_eq.
      rewrite cnt_insert, IH; [lia|]. rewrite lookup_flatten, lookup_insert_eq. done.
    + rewrite alter_insert_eq. done.
Qed.

(** All references of payload [m] are held by the caller. *)
Lemma drop_payload ext c s m p :
  mem_inv ext c s → mems s !! m = Some p →
  mem_inv (λ q, ext q + refs (map_to_list (phy_pages p)) q) c (set_mems (delete m) s).
Proof.
  intros [H1 H2 H3 H4 H5] Hm.
  assert (Hsub : ∀ k e, flatten (delete m (mems s)) !! k = Some e → flat s !! k = Some e).
  { intros [m' v] e. rewrite !lookup_flatten. destruct (decide (m' = m)) as [->|]; [by rewrite lookup_delete_eq|].
    by rewrite lookup_delete_ne. }
  split; simpl.
  - eapply pf_ext; [|exact H1]. intros q. simpl.
    rewrite <- (insert_id (mems s) m (set_pages (λ _, phy_pages p) p)) at 1 by (rewrite Hm; by destruct p).
    rewrite cnt_payload. lia.
  - intros q. specialize (H2 q). pose proof (refs_nonneg (map_to_list (phy_pages p)) q). lia.
  - intros k e Hk. by apply (H3 k), Hsub.
  - intros k1 k2 e1 e2 Hk1 Hk2. apply (H4 k1 k2); by apply Hsub.
  - intros m' Hm'. apply H5. destruct (decide (m' = m)) as [->|]; [by rewrite Hm|].
    by rewrite lookup_delete_ne in Hm'.
Qed.

(** Putting pages back looks only at the allocator. *)
Lemma put_taken_on ext c s s1 a :
  frames s = frames s1 → mem_inv (bump 1 a 1 ext) (S c) s1 → frame_ok a → (∀ q, 0 <= ext q) →
  ∃ g, with_frames (F := F) (pf_put a 1) s = Fin (Ok tt) (set_frames g s) ∧ mem_inv ext c (set_frames g s1).
Proof.
  intros Ef Hi Ha He. destruct (put_taken ext c s1 a Hi Ha He) as (g & E & Hg). exists g. split; [|done].
  unfold with_frames in *. rewrite Ef. destruct (pf_put a 1 (frames s1)); try done. by simplify_eq.
Qed.

Lemma put_pages_run ext c l s s1 :
  frames s = frames s1 → mem_inv (λ q, ext q + refs l q) (length l + c) s1 →
  Forall (λ ve, frame_ok (addr ve.2)) l → (∀ q, 0 <= ext q) →
  ∃ g, put_pages (F := F) l s = Fin (Ok tt) (set_frames g s) ∧ mem_inv ext c (set_frames g s1).
Proof.
  revert s s1. induction l as [|[v e] l IH]; intros s s1 Ef Hi Hok He.
  - exists (frames s). split; [by destruct s|].
    assert (Es : set_frames (frames s) s1 = s1) by (rewrite Ef; by destruct s1).
    rewrite Es. eapply mem_inv_ext; [|exact Hi]. intros q. simpl. lia.
  - apply Forall_cons in Hok as [Ha Hok]. simpl in Ha.
    destruct (put_taken_on (λ q, ext q + refs l q) (length l + c) s s1 (addr e)) as (g & E & Hg); [done| |done| |].
    { eapply mem_inv_ext; [|exact Hi]. intros q. rewrite bump_one. simpl. lia. }
    { intros q. specialize (He q). pose proof (refs_nonneg l q). lia. }
    destruct (IH (set_frames g s) (set_frames g s1) eq_refl Hg Hok He) as (g' & E' & Hg').
    exists g'. cbn [put_pages]. rewrite (bind_run _ _ _ _ _ E). done.
Qed.

Lemma pages_ok ext c s m p :
  mem_inv ext c s → mems s !! m = Some p → Forall (λ ve, frame_ok (addr ve.2)) (map_to_list (phy_pages p)).
Proof.
  intros Hi Hm. apply Forall_forall. intros [v e] Hin. apply elem_of_map_to_list in Hin.
  apply (mi_ok _ _ _ Hi (m, v)). by rewrite lookup_flatten, Hm.
Qed.

Lemma destruct_run ext c s m p :
  mem_inv ext (size (phy_pages p) + c) s → mems s !! m = Some p →
  ∃ s', destruct_memory m s = Fin (Ok tt) s' ∧ mem_inv ext c s' ∧ mems s' = delete m (mems s) ∧ ram s' = ram s.
Proof.
  intros Hi Hm. pose proof (mi_ext _ _ _ Hi) as He. unfold destruct_memory.
  rewrite (bind_run _ _ _ _ _ (get_mem_run s m p Hm)).
  set (n := Z.of_nat _).
  set (sa := if file_backed p then set_mapped (adjust (mapped_pages s) (- n)) s
             else set_anon (adjust (anon_pages s) (- n)) s).
  rewrite (bind_run (adjust_backed_pages (file_backed p) (- n)) _ _ tt sa eq_refl).
  set (sb := set_committed (adjust (committed_pages sa) (- pages_of (memsz p))) sa).
  rewrite (bind_run (adjust_committed_pages (- pages_of (memsz p))) _ _ tt sb eq_refl).
  assert (Hsb : frames sb = frames s ∧ mems sb = mems s ∧ ram sb = ram s ∧ next_mem sb = next_mem s)
    by (unfold sb, sa; by destruct (file_backed p)).
  destruct Hsb as (E1 & E2 & E3 & E4).
  destruct (put_pages_run ext c (map_to_list (phy_pages p)) sb (set_mems (delete m) s)) as (g & E & Hg).
  - done.
  - rewrite length_map_to_list. by apply drop_payload.
  - by apply (pages_ok ext (size (phy_pages p) + c) s m).
  - done.
  - rewrite (bind_run _ _ _ _ _ E).
    assert (Hd : ∃ fs, delete_file (file p) (set_frames g sb) = Fin (Ok tt) (set_files fs (set_frames g sb))).
    { generalize (set_frames g sb). intros x. unfold delete_file. destruct (file p); [by eexists|].
      exists (files x). by destruct x. }
    destruct Hd as [fs Ed]. rewrite (bind_run _ _ _ _ _ Ed).
    eexists. split; [done|]. split_and!; simpl; [|by rewrite (E2 : mems sa = mems s)|exact E3].
    apply (mem_inv_same _ _ (set_frames g (set_mems (delete m) s))); simpl; rewrite ?E1, ?E2, ?E4. all: try done. by rewrite (E2 : mems sa = mems s).
Qed.

(** The entries from page [first] on, in the list still to visit, go. *)
Lemma release_loop_run ext c first fb m l s p :
  mem_inv ext (length l + c) s → mems s !! m = Some p → NoDup l.*1 →
  (∀ v e, (v, e) ∈ l → phy_pages p !! v = Some e) →
  ∃ s' pg, release_loop m first fb l s = Fin (Ok tt) s' ∧ mem_inv ext c s' ∧ private_to ext m s s' ∧
    repaged s' m p pg ∧ ram s' = ram s ∧
    ∀ v, pg !! v = if bool_decide (first <= v ∧ v ∈ l.*1) then None else phy_pages p !! v.
Proof.
  revert s p. induction l as [|[v e] l IH]; intros s p Hi Hm Hnd Hl.
  - exists s, (phy_pages p). split_and!; [done|done|apply private_refl|by apply repaged_refl|done|].
    intros v. rewrite bool_decide_eq_false_2; [done|]. intros [_ Hin]. by apply not_elem_of_nil in Hin.
  - pose proof (mi_ext _ _ _ Hi) as He. rewrite fmap_cons in Hnd. apply NoDup_cons in Hnd as [Hni Hnd].
    cbn [release_loop]. destruct (Z.leb_spec first v) as [Hle|Hgt].
    + assert (Hv : phy_pages p !! v = Some e) by (apply Hl; left).
      assert (Ha : frame_ok (addr e)).
      { apply (mi_ok _ _ _ Hi (m, v)). by rewrite lookup_flatten, Hm. }
      pose proof (delete_inv _ _ _ _ _ _ _ Hi Hm Hv) as Hd.
      set (s1 := set_mems (alter (set_pages (delete v)) m) s) in *.
      destruct (put_taken_on ext (length l + c) s s1 (addr e) eq_refl Hd Ha He) as (g & E & Hg).
      assert (Hbody : ∃ s2, (_ ← with_frames (F := F) (pf_put (addr e) 1); _ ← adjust_backed_pages fb (-1);
                 upd_mem m (set_pages (delete v))) s = Fin (Ok tt) s2 ∧
                frames s2 = g ∧ mems s2 = mems s1 ∧ ram s2 = ram s ∧ next_mem s2 = next_mem s).
      { eexists. split; [rewrite (bind_run _ _ _ _ _ E); reflexivity|]. by destruct fb. }
      destruct Hbody as (s2 & E2 & F1 & F2 & F3 & F4). rewrite (bind_run _ _ _ _ _ E2).
      assert (Hi2 : mem_inv ext (length l + c) s2) by (apply (mem_inv_same _ _ (set_frames g s1)); done).
      assert (Hm2 : mems s2 !! m = Some (set_pages (delete v) p)).
      { rewrite F2. simpl. by rewrite lookup_alter_eq, Hm. }
      destruct (IH s2 _ Hi2 Hm2 Hnd) as (s3 & pg & E3 & Hi3 & Hp3 & Hr3 & Hram3 & Hpg).
      { intros v' e' Hin. simpl. rewrite lookup_delete_ne; [apply Hl; by right|]. intros ->.
        apply Hni. apply list_elem_of_fmap. by exists (v', e'). }
      exists s3, pg. split_and!; [done|done| |done|congruence|].
      * eapply private_trans; [|exact Hp3]. apply private_step.
        -- intros m' Hne. rewrite F2. simpl. by rewrite lookup_alter_ne.
        -- intros q Hq. by rewrite F3 in Hq.
        -- intros q (v' & e' & Hk & Hq). left. exists v', e'. split; [|done]. rewrite F2 in Hk. simpl in Hk.
           rewrite (flatten_delete _ _ _ _ Hm) in Hk. by apply lookup_delete_Some in Hk as [_ ?].
      * intros v'. rewrite Hpg. simpl. destruct (decide (v' = v)) as [->|Hne].
        -- rewrite lookup_delete_eq, (bool_decide_eq_true_2 (_ ∧ v ∈ v :: _)) by (split; [done|left]).
           by case_bool_decide.
        -- rewrite lookup_delete_ne by done.
           assert (Hiff : first <= v' ∧ v' ∈ v :: l.*1 ↔ first <= v' ∧ v' ∈ l.*1) by (rewrite elem_of_cons; naive_solver).
           by rewrite (bool_decide_ext _ _ Hiff).
    + rewrite (bind_run (mret tt) _ _ tt s eq_refl).
      destruct (IH s p) as (s3 & pg & E3 & Hi3 & Hp3 & Hr3 & Hram3 & Hpg); try done.
      { by apply (mem_inv_less _ _ 1). }
      { intros v' e' Hin. apply Hl. by right. }
      exists s3, pg. split_and!; try done. intros v'. rewrite Hpg.
      assert (Hiff : first <= v' ∧ v' ∈ v :: l.*1 ↔ first <= v' ∧ v' ∈ l.*1).
      { rewrite elem_of_cons. split; [|naive_solver]. intros [? [->|?]]; [lia|done]. }
      simpl. by rewrite (bool_decide_ext _ _ Hiff).
Qed.

(** ** Cloning *)

(** Two payloads come to share one page: both entries record the raised count. *)
Lemma share_step ext c s m m' p p' v e :
  mem_inv ext c s → m ≠ m' → mems s !! m = Some p → mems s !! m' = Some p' →
  phy_pages p !! v = Some e → phy_pages p' !! v = None → refcount e < W64 - 1 →
  cnt (flat s) (addr e / PAGESIZE) + ext (addr e / PAGESIZE) < W64 - 1 →
  let e' := mkPage (addr e) (refcount e + 1) in
  ∃ g, with_frames (F := F) (pf_keep (addr e) 1) s = Fin (Ok tt) (set_frames g s) ∧
    add64 (refcount e) 1 = refcount e + 1 ∧
    mem_inv ext c (set_mems (λ ms, alter (set_pages <[v := e']>) m' (alter (set_pages <[v := e']>) m ms)) (set_frames g s)).
Proof.
  intros Hi Hne Hm Hm' Hv Hv' Hrc Hb e'. pose proof (mi_ext _ _ _ Hi) as He.
  assert (Hk : flat s !! (m, v) = Some e) by (rewrite lookup_flatten, Hm; done).
  destruct (mi_ok _ _ _ Hi _ _ Hk) as [Ha H1].
  assert (Hsh : ∀ k e1, flat s !! k = Some e1 → k ≠ (m, v) → addr e1 / PAGESIZE = addr e / PAGESIZE → 1 < refcount e1).
  { intros k e1 Hk1 Hn Ea. by apply (mi_excl _ _ _ Hi k (m, v) e1 e). }
  destruct (keep_frame ext c s (addr e) Hi Ha) as (g & E & Hg).
  { pose proof (cnt_entry _ _ _ Hk). specialize (He (addr e / PAGESIZE)). lia. }
  exists g. split; [done|]. split; [apply wrap64_small; unfold is_u64; lia|].
  assert (Hi2 : mem_inv (bump 1 (addr e') 1 ext) c (set_mems (alter (set_pages <[v := e']>) m) (set_frames g s))).
  { apply (replace_inv ext c (set_frames g s) m p v e e' Hg He Hm Hv Ha); [simpl; lia|].
    intros k e1 Hk1 Hn Ea. split; [simpl; lia|by apply (Hsh k)]. }
  set (s2 := set_mems _ (set_frames g s)) in Hi2.
  eapply (insert_inv ext c s2 m' p' v e'); try done.
  - simpl. by rewrite lookup_alter_ne.
  - simpl. lia.
  - intros k e1 Hk1 Ea. simpl in Hk1. rewrite (flatten_insert _ _ _ _ _ Hm) in Hk1.
    split; [simpl; lia|]. apply lookup_insert_Some in Hk1 as [[_ <-]|[Hn Hk1]]; [simpl; lia|].
    by apply (Hsh k); [done|congruence|].
Qed.

Lemma share_pages_run ext c m m' l s p p' :
  mem_inv ext c s → m ≠ m' → mems s !! m = Some p → mems s !! m' = Some p' → NoDup l.*1 →
  (∀ v e, (v, e) ∈ l → phy_pages p !! v = Some e ∧ phy_pages p' !! v = None ∧ refcount e < W64 - 1) →
  (∀ q, cnt (flat s) q + ext q + Z.of_nat (length l) < W64) →
  ∃ s' pg pg', share_pages m m' l s = Fin (Ok tt) s' ∧ mem_inv ext c s' ∧ ram s' = ram s ∧
    repaged s' m p pg ∧ repaged s' m' p' pg' ∧
    (∀ m1, m1 ≠ m → m1 ≠ m' → mems s' !! m1 = mems s !! m1) ∧
    (∀ v, addr <$> pg !! v = addr <$> phy_pages p !! v) ∧
    (∀ v, addr <$> pg' !! v = if bool_decide (v ∈ l.*1) then addr <$> phy_pages p !! v else addr <$> phy_pages p' !! v).
Proof.
  intros Hi Hne. revert s p p' Hi. induction l as [|[v e] l IH]; intros s p p' Hi Hm Hm' Hnd Hl Hb.
  - exists s, (phy_pages p), (phy_pages p').
    split_and!; [done|done|done|by apply repaged_refl|by apply repaged_refl|done|done|].
    intros v. rewrite bool_decide_eq_false_2; [done|]. apply not_elem_of_nil.
  - rewrite fmap_cons in Hnd. apply NoDup_cons in Hnd as [Hni Hnd].
    destruct (Hl v e ltac:(left)) as (Hv & Hv' & Hrc). simpl length in Hb.
    destruct (share_step ext c s m m' p p' v e Hi Hne Hm Hm' Hv Hv' Hrc) as (g & E & Eadd & Hi1).
    { specialize (Hb (addr e / PAGESIZE)). lia. }
    cbn [share_pages]. rewrite (bind_run _ _ _ _ _ E), Eadd. set (e' := mkPage (addr e) (refcount e + 1)) in *.
    set (s1 := set_mems _ _) in Hi1.
    change (∃ s' pg pg', share_pages m m' l s1 = Fin (Ok tt) s' ∧ mem_inv ext c s' ∧ ram s' = ram s ∧
      repaged s' m p pg ∧ repaged s' m' p' pg' ∧ (∀ m1, m1 ≠ m → m1 ≠ m' → mems s' !! m1 = mems s !! m1) ∧
      (∀ v, addr <$> pg !! v = addr <$> phy_pages p !! v) ∧
      (∀ v0, addr <$> pg' !! v0 = if bool_decide (v0 ∈ v :: l.*1) then addr <$> phy_pages p !! v0
                                  else addr <$> phy_pages p' !! v0)).
    destruct (IH s1 (set_pages <[v := e']> p) (set_pages <[v := e']> p') Hi1)
      as (s2 & pg & pg' & E2 & Hi2 & Hr2 & Hp & Hp' & Ho & Ha & Ha').
    + simpl. rewrite lookup_alter_ne, lookup_alter_eq, Hm by done. done.
    + simpl. rewrite lookup_alter_eq, lookup_alter_ne, Hm' by done. done.
    + done.
    + intros v1 e1 Hin. assert (v1 ≠ v).
      { intros ->. apply Hni. apply list_elem_of_fmap. by exists (v, e1). }
      simpl. rewrite !lookup_insert_ne by done. apply Hl. by right.
    + intros q. specialize (Hb q). unfold s1. simpl.
      rewrite (flatten_insert _ m' p'), (flatten_insert _ _ _ _ _ Hm)
        by (by rewrite lookup_alter_ne).
      assert (Hk : flat s !! (m, v) = Some e) by (rewrite lookup_flatten, Hm; done).
      rewrite cnt_insert.
      2: { rewrite lookup_insert_ne by congruence. rewrite lookup_flatten, Hm'. done. }
      rewrite <- (insert_delete_eq (flat s)), cnt_insert, (cnt_delete _ _ e _ Hk) by (apply lookup_delete_eq).
      unfold one. simpl. case_bool_decide; lia.
    + exists s2, pg, pg'. split_and!; try done.
      * intros m1 H1 H2. rewrite Ho by done. simpl. by rewrite !lookup_alter_ne.
      * intros v1. rewrite Ha. simpl. destruct (decide (v1 = v)) as [->|]; [|by rewrite lookup_insert_ne].
        rewrite lookup_insert_eq, Hv. done.
      * intros v1. rewrite Ha'. simpl. destruct (decide (v1 = v)) as [->|].
        -- rewrite !lookup_insert_eq, Hv, (bool_decide_eq_true_2 (v ∈ v :: _)) by left. by case_bool_decide.
        -- rewrite !lookup_insert_ne by done.
           assert (Hiff : v1 ∈ v :: l.*1 ↔ v1 ∈ l.*1) by (rewrite elem_of_cons; naive_solver).
           by rewrite (bool_decide_ext _ _ Hiff).
Qed.

Lemma view_addr s s' m m' :
  ram s' = ram s → (∀ v, addr <$> flat s' !! (m', v) = addr <$> flat s !! (m, v)) →
  ∀ o, view s' m' o = view s m o.
Proof.
  intros Hr Ha o. specialize (Ha (o / PAGESIZE)). unfold view, page_at. rewrite Hr.
  destruct (flat s' !! (m', o / PAGESIZE)), (flat s !! (m, o / PAGESIZE)); simplify_eq/=; [|done]. by rewrite Ha.
Qed.

(** A payload is created with no pages. *)
Lemma new_memory_run ext c s sz sh ct gr fl fo fb :
  mem_inv ext c s →
  ∃ s', new_memory sz sh ct gr fl fo fb s = Fin (Ok (next_mem s)) s' ∧ mem_inv ext c s' ∧
    mems s !! next_mem s = None ∧ mems s' = <[next_mem s := mkMemory sz sh ct gr fl fo fb ∅]> (mems s) ∧
    ram s' = ram s ∧ flat s' = flat s.
Proof.
  intros Hi. eexists. split; [reflexivity|].
  assert (Hn : mems s !! next_mem s = None).
  { destruct (mems s !! next_mem s) eqn:E; [|done].
    pose proof (mi_next _ _ _ Hi (next_mem s) ltac:(eauto)). lia. }
  assert (Hfl : flatten (<[next_mem s := mkMemory sz sh ct gr fl fo fb ∅]> (mems s)) = flat s)
    by by apply flatten_new.
  split_and!; try done. destruct Hi as [H1 H2 H3 H4 H5]. split; simpl; rewrite ?Hfl; try done.
  intros m. destruct (decide (m = next_mem s)) as [->|]; [lia|]. rewrite lookup_insert_ne by done.
  intros Hm. apply H5 in Hm. lia.
Qed.

(** Reference counts are far from the limit of [size_t]. *)
Definition counts_fit ext s p : Prop :=
  (∀ v e, phy_pages p !! v = Some e → refcount e < W64 - 1) ∧
  ∀ q, cnt (flat s) q + ext q + Z.of_nat (size (phy_pages p)) < W64.

Lemma clone_run ext c s m p :
  mem_inv ext c s → mems s !! m = Some p → shared p = false → counts_fit ext s p →
  ∃ m' s' p', clone_payload m s = Fin (Ok m') s' ∧ mem_inv ext c s' ∧ ram s' = ram s ∧
    mems s !! m' = None ∧ mems s' !! m' = Some p' ∧
    (memsz p', shared p', continuity p', growth p') = (memsz p, shared p, continuity p, growth p) ∧
    (file p = None → file p' = None) ∧
    (∀ v, is_Some (phy_pages p' !! v) ↔ is_Some (phy_pages p !! v)) ∧
    (∀ o, view s' m' o = view s m o) ∧ (∀ o, view s' m o = view s m o) ∧
    (∃ pg, repaged s' m p pg ∧ ∀ v, addr <$> pg !! v = addr <$> phy_pages p !! v) ∧
    (∀ m1, m1 ≠ m → m1 ≠ m' → mems s' !! m1 = mems s !! m1).
Proof.
  intros Hi Hm Hsh [Hrc Hb]. unfold clone_payload.
  rewrite (bind_run _ _ _ _ _ (get_mem_run s m p Hm)), Hsh.
  assert (Hf : ∃ f' fs, clone_file (file p) s = Fin (Ok f') (set_files fs s) ∧ (file p = None → f' = None)).
  { unfold clone_file. destruct (file p) as [f|].
    - destruct (vf_clone f (files s)) as [f' fs]. by eexists _, fs.
    - exists None, (files s). split; [by destruct s|done]. }
  destruct Hf as (f' & fs & Ef & Hfn). rewrite (bind_run _ _ _ _ _ Ef).
  assert (Hi0 : mem_inv ext c (set_files fs s)) by by apply (mem_inv_same _ _ s).
  destruct (new_memory_run ext c (set_files fs s) (memsz p) false (continuity p) (growth p) f'
    (file_offset p) (file_backed_len p) Hi0) as (s1 & E1 & Hi1 & Hnew & Hms1 & Hr1 & Hf1).
  rewrite (bind_run _ _ _ _ _ E1). simpl in *. set (m' := next_mem s) in *.
  assert (Hne : m ≠ m') by congruence.
  set (p0 := mkMemory _ _ _ _ _ _ _ _) in Hms1.
  destruct (share_pages_run ext c m m' (map_to_list (phy_pages p)) s1 p p0 Hi1 Hne)
    as (s2 & pg & pg' & E2 & Hi2 & Hr2 & Hp & Hp' & Ho & Ha & Ha').
  - by rewrite Hms1, lookup_insert_ne.
  - by rewrite Hms1, lookup_insert_eq.
  - apply NoDup_fst_map_to_list.
  - intros v e Hin%elem_of_map_to_list. split; [done|]. split; [done|by eapply Hrc].
  - intros q. rewrite Hf1, length_map_to_list. apply Hb.
  - rewrite (bind_run _ _ _ _ _ E2).
    assert (Ha1 : ∀ v, addr <$> pg' !! v = addr <$> phy_pages p !! v).
    { intros v. rewrite Ha'. case_bool_decide as Hin; [done|]. unfold p0. simpl.
      destruct (phy_pages p !! v) as [e|] eqn:Ev; [|done]. destruct Hin.
      apply list_elem_of_fmap. exists (v, e). by rewrite elem_of_map_to_list. }
    assert (Hram : ram s2 = ram s) by congruence.
    exists m', s2, (set_pages (λ _, pg') p0).
    split_and!; [done|done|done|done|done|done|done| | | |by exists pg|].
    + intros v. simpl. specialize (Ha1 v). destruct (pg' !! v), (phy_pages p !! v); simplify_eq/=; split; eauto.
    + apply view_addr; [done|]. intros v. rewrite !lookup_flatten, Hp', Hm. apply Ha1.
    + apply view_addr; [done|]. intros v. rewrite !lookup_flatten, Hp, Hm. apply Ha.
    + intros m1 H1 H2. by rewrite Ho, Hms1, lookup_insert_ne.
Qed.

(** ** The operations as their callers see them *)

(** Bytes a request of [len] bytes at [off] can reach. *)
Definition reach_len p (off len : Z) : Z := Z.max 0 (Z.min len (memsz p - off)).

Lemma page_iters_mono a b : a <= b → (page_iters a <= page_iters b)%nat.
Proof.
  intros Hab. unfold page_iters. assert (a / PAGESIZE <= b / PAGESIZE) by (apply Z.div_le_mono; [done|lia]). lia.
Qed.

Lemma mem_inv_le ext c d s : mem_inv ext c s → (d <= c)%nat → mem_inv ext d s.
Proof.
  intros Hi Hd. apply (mem_inv_less _ _ (c - d)). by replace (c - d + d)%nat with c by lia.
Qed.

Lemma write_run ext c s m p off data :
  let len := Z.of_nat (length data) in
  mem_inv ext (4 * page_iters len + c) s → mems s !! m = Some p → is_u64 off → memsz p < W64 →
  ∃ r s' pg n, write m off (Some data) len s = Fin r s' ∧ mem_inv ext c s' ∧ private_to ext m s s' ∧
    repaged s' m p pg ∧ 0 <= n <= reach_len p off len ∧
    overwritten s s' m p off (take (Z.to_nat n) data) ∧
    match r with
    | Ok k => k = n ∧ n = reach_len p off len
    | Err e => memsz p <= off → e = OUT_OF_BOUNDARY ∧ s' = s
    end.
Proof.
  intros len Hi Hm Ho Hsz. unfold write. rewrite bool_decide_eq_false_2 by done. cbn [andb].
  assert (Hstay : mem_inv ext c s) by (by apply (mem_inv_le _ _ _ _ Hi); lia).
  destruct (Z.eqb_spec len 0) as [E0|E0].
  { exists (Ok 0), s, (phy_pages p), 0. unfold reach_len. rewrite E0.
    split_and!; [done|done|apply private_refl|by apply repaged_refl|lia|lia|by apply overwritten_refl|done|lia]. }
  rewrite (bind_run _ _ _ _ _ (get_mem_run s m p Hm)). unfold bounded_length.
  destruct (Z.leb_spec (memsz p) off) as [Hle|Hlt].
  { exists (Err OUT_OF_BOUNDARY), s, (phy_pages p), 0. unfold reach_len.
    split_and!; [done|done|apply private_refl|by apply repaged_refl|lia|lia|by apply overwritten_refl|done]. }
  assert (Et : (if memsz p - off <? len then memsz p - off else len) = reach_len p off len).
  { unfold reach_len. destruct (Z.ltb_spec (memsz p - off) len); lia. }
  rewrite Et. set (total := reach_len p off len) in *.
  assert (Htot : 0 <= total <= len ∧ off + total <= memsz p) by (unfold total, reach_len; lia).
  rewrite (bind_run (of_result (Ok total)) _ _ total s eq_refl).
  pose proof (page_iters_mono total len ltac:(lia)).
  destruct (write_loop_run ext c m off total data (page_iters total) s p 0)
    as (r & s' & pg & n & E & Hi' & Hp & Hr & Hn & Hok & How); try done; try (unfold is_u64 in *; lia).
  { apply (mem_inv_le _ _ _ _ Hi). lia. }
  { apply enough_iters. unfold is_u64 in Ho. lia. }
  rewrite Z.add_0_r, Z.sub_0_r in How. simpl in How.
  destruct r as [[]|e]; cbn [default from_option id] in *.
  - rewrite (bind_run _ _ _ _ _ E). exists (Ok total), s', pg, n. specialize (Hok eq_refl).
    split_and!; try done; lia.
  - rewrite (bind_run_err _ _ _ _ _ E). exists (Err e), s', pg, n. split_and!; try done; try lia.
Qed.

Lemma read_run ext c s m p off len :
  0 <= len → mem_inv ext (2 * page_iters len + c) s → mems s !! m = Some p → is_u64 off → memsz p < W64 →
  ∃ r s' pg, read m off false len s = Fin r s' ∧ mem_inv ext c s' ∧ private_to ext m s s' ∧
    repaged s' m p pg ∧ grows p pg ∧ keeps_view s s' m p ∧
    match r with
    | Ok (k, bytes) => k = reach_len p off len ∧ bytes = view s' m <$> seqZ off k
    | Err e => memsz p <= off → e = OUT_OF_BOUNDARY ∧ s' = s
    end.
Proof.
  intros Hl Hi Hm Ho Hsz. unfold read. cbn [andb].
  assert (Hstay : mem_inv ext c s) by (by apply (mem_inv_le _ _ _ _ Hi); lia).
  destruct (Z.eqb_spec len 0) as [E0|E0].
  { exists (Ok (0, [])), s, (phy_pages p). unfold reach_len. rewrite E0.
    split_and!; [done|done|apply private_refl|by apply repaged_refl|by intros v|by intros o|lia|done]. }
  rewrite (bind_run _ _ _ _ _ (get_mem_run s m p Hm)). unfold bounded_length.
  destruct (Z.leb_spec (memsz p) off) as [Hle|Hlt].
  { exists (Err OUT_OF_BOUNDARY), s, (phy_pages p).
    split_and!; [done|done|apply private_refl|by apply repaged_refl|by intros v|by intros o|done]. }
  assert (Et : (if memsz p - off <? len then memsz p - off else len) = reach_len p off len).
  { unfold reach_len. destruct (Z.ltb_spec (memsz p - off) len); lia. }
  rewrite Et. set (total := reach_len p off len) in *.
  assert (Htot : 0 <= total <= len ∧ off + total <= memsz p) by (unfold total, reach_len; lia).
  rewrite (bind_run (of_result (Ok total)) _ _ total s eq_refl).
  pose proof (page_iters_mono total len ltac:(lia)).
  destruct (read_loop_run ext c m off total (page_iters total) s p 0)
    as (r & s' & pg & E & Hi' & Hp & Hr & Hg & Hk & Hres); try done; try (unfold is_u64 in *; lia).
  { apply (mem_inv_le _ _ _ _ Hi). lia. }
  { apply enough_iters. unfold is_u64 in Ho. lia. }
  rewrite Z.add_0_r, Z.sub_0_r in Hres. destruct r as [bytes|e].
  - rewrite (bind_run _ _ _ _ _ E). by exists (Ok (total, bytes)), s', pg.
  - rewrite (bind_run_err _ _ _ _ _ E). exists (Err e), s', pg. split_and!; try done; lia.
Qed.

(** Reading pages that are all present changes nothing. *)
Lemma read_loop_present m p offset total k s consumed :
  (∀ k e, flat s !! k = Some e → frame_ok (addr e)) →
  mems s !! m = Some p → 0 <= offset → 0 <= consumed <= total → offset + total <= W64 →
  offset + total <= memsz p → enough k offset consumed total →
  (∀ x, offset + consumed <= x < offset + total → is_Some (phy_pages p !! (x / PAGESIZE))) →
  read_loop k m offset consumed total s =
  Fin (Ok (view s m <$> seqZ (offset + consumed) (total - consumed))) s.
Proof.
  intros Hok Hm Ho. revert consumed. induction k as [|k IH]; intros consumed Hc Ht Hsz Hk Hp.
  - simpl. destruct (Z.ltb_spec consumed total) as [Hlt|Hge]; simpl.
    { specialize (Hk Hlt). exfalso.
      enough ((offset + consumed) / PAGESIZE <= (offset + total - 1) / PAGESIZE) by lia.
      apply Z.div_le_mono; [done|lia]. }
    rewrite seqZ_nil by lia. done.
  - cbn [read_loop]. destruct (Z.ltb_spec consumed total) as [Hlt|Hge]; cbn [negb].
    2: { rewrite seqZ_nil by lia. done. }
    destruct (chunk_facts offset consumed total Ho ltac:(lia) Ht) as (Ecur & Hu & Hpos & Hle & Hin & Hnext).
    rewrite Ecur. set (chunk := page_chunk_size _ _) in *.
    destruct (Hp (offset + consumed) ltac:(lia)) as [e He].
    assert (Hf : flat s !! (m, (offset + consumed) / PAGESIZE) = Some e) by (rewrite lookup_flatten, Hm; done).
    assert (Hen : ensure_page m (offset + consumed) s = Fin (Ok (addr e)) s).
    { unfold ensure_page. rewrite (bind_run _ _ _ _ _ (get_mem_run s m p Hm)).
      unfold lookup_page, lookup_page_entry. rewrite (proj2 (Z.leb_gt _ _)), offvpn_div, He; [done|done|].
      destruct (page_align_down_spec _ Hu). lia. }
    rewrite (bind_run _ _ _ _ _ Hen), (bind_run _ _ _ _ _ (load_page_run (addr e) _ chunk s (Hok _ _ Hf))).
    rewrite (bind_run _ _ _ _ _ (IH (consumed + chunk) ltac:(lia) Ht Hsz
      ltac:(by eapply enough_step; [| |exact Hlt|]; rewrite ?Z.add_assoc) ltac:(intros; apply Hp; lia))).
    unfold offset_in_page. rewrite (load_view s m e) by (done || lia).
    replace (total - consumed) with (chunk + (total - (consumed + chunk))) by lia.
    rewrite seqZ_app, fmap_app, Z.add_assoc by lia.
    replace (chunk + (total - (consumed + chunk)) - chunk) with (total - (consumed + chunk)) by lia. done.
Qed.

Lemma read_run_present ext c s m p off n :
  0 <= n → mem_inv ext (2 * page_iters n + c) s → mems s !! m = Some p → is_u64 off → memsz p < W64 →
  (∀ x, off <= x < off + n → is_Some (phy_pages p !! (x / PAGESIZE))) → (n = 0 ∨ off + n <= memsz p) →
  ∃ s', read m off false n s = Fin (Ok (n, view s m <$> seqZ off n)) s' ∧ mem_inv ext c s'.
Proof.
  intros Hn Hi Hm Ho Hsz Hp Hle. exists s. split; [|by apply (mem_inv_le _ _ _ _ Hi); lia].
  unfold read. cbn [andb]. destruct (Z.eqb_spec n 0) as [->|Hne]; [done|].
  rewrite (bind_run _ _ _ _ _ (get_mem_run s m p Hm)). unfold bounded_length.
  rewrite (proj2 (Z.leb_gt _ _)) by lia.
  replace (if memsz p - off <? n then memsz p - off else n) with n
    by (destruct (Z.ltb_spec (memsz p - off) n); lia).
  rewrite (bind_run (of_result (Ok n)) _ _ n s eq_refl).
  rewrite (bind_run _ _ _ _ _ (read_loop_present m p off n (page_iters n) s 0
    ltac:(intros k e Hk; by apply (mi_ok _ _ _ Hi k)) Hm ltac:(unfold is_u64 in *; lia) ltac:(lia) ltac:(lia)
    ltac:(lia) ltac:(apply enough_iters; unfold is_u64 in *; lia) ltac:(intros; apply Hp; lia))).
  by rewrite Z.add_0_r, Z.sub_0_r.
Qed.

Lemma release_run ext c s m p off :
  mem_inv ext (size (phy_pages p) + c) s → mems s !! m = Some p →
  ∃ s' pg, release_pages_from m off s = Fin (Ok tt) s' ∧ mem_inv ext c s' ∧ private_to ext m s s' ∧
    repaged s' m p pg ∧ ram s' = ram s ∧
    ∀ v, pg !! v = if bool_decide (pages_of off <= v) then None else phy_pages p !! v.
Proof.
  intros Hi Hm. unfold release_pages_from. rewrite (bind_run _ _ _ _ _ (get_mem_run s m p Hm)).
  destruct (release_loop_run ext c (pages_of off) (file_backed p) m (map_to_list (phy_pages p)) s p)
    as (s' & pg & E & Hi' & Hp & Hr & Hram & Hpg).
  - by rewrite length_map_to_list.
  - done.
  - apply NoDup_fst_map_to_list.
  - intros v e. by rewrite elem_of_map_to_list.
  - exists s', pg. split_and!; try done. intros v. rewrite Hpg.
    destruct (phy_pages p !! v) as [e|] eqn:Ev.
    + assert (Hin : v ∈ (map_to_list (phy_pages p)).*1).
      { apply list_elem_of_fmap. exists (v, e). by rewrite elem_of_map_to_list. }
      repeat case_bool_decide; naive_solver.
    + by repeat case_bool_decide.
Qed.

(** Changing the promised size touches no page. *)
Lemma set_memsz_inv ext c s m p n :
  mem_inv ext c s → mems s !! m = Some p →
  let s' := set_mems (alter (set_memsz n) m) s in
  mem_inv ext c s' ∧ private_to ext m s s' ∧ flat s' = flat s ∧ mems s' !! m = Some (set_memsz n p).
Proof.
  intros [H1 H2 H3 H4 H5] Hm s'.
  assert (Hf : flatten (alter (set_memsz n) m (mems s)) = flat s).
  { replace (alter (set_memsz n) m (mems s)) with (<[m := set_memsz n p]> (mems s)).
    - by apply (flatten_same _ _ p).
    - apply map_eq. intros m'. destruct (decide (m = m')) as [<-|].
      + by rewrite lookup_insert_eq, lookup_alter_eq, Hm.
      + by rewrite lookup_insert_ne, lookup_alter_ne. }
  split_and!.
  - split; simpl; rewrite ?Hf; try done. intros m'. destruct (decide (m = m')) as [<-|]; [intros _; apply H5; eauto|].
    rewrite lookup_alter_ne by done. apply H5.
  - apply private_step; [|done|].
    + intros m' Hn. simpl. by rewrite lookup_alter_ne.
    + intros q (v & e & Hk & Hq). left. exists v, e. simpl in Hk. by rewrite Hf in Hk.
  - done.
  - simpl. by rewrite lookup_alter_eq, Hm.
Qed.

(** What a change of size leaves of the pages. *)
Definition kept_pages p (newsz : Z) (pg : gmap Z PhyPage) : Prop :=
  ∀ v, pg !! v = if bool_decide (newsz < memsz p ∧ pages_of newsz <= v) then None else phy_pages p !! v.

Lemma resize_run ext c s m p newsz :
  mem_inv ext (size (phy_pages p) + c) s → mems s !! m = Some p → continuity p = false →
  ∃ r s', resize m newsz s = Fin r s' ∧ mem_inv ext c s' ∧ private_to ext m s s' ∧
    match r with
    | Ok _ => (s' = s ∧ newsz = memsz p) ∨
        ∃ pg, mems s' !! m = Some (set_memsz newsz (set_pages (λ _, pg) p)) ∧ ram s' = ram s ∧ kept_pages p newsz pg
    | Err e => e = NOT_SUPPORTED ∧ s' = s
    end.
Proof.
  intros Hi Hm Hc. assert (Hstay : mem_inv ext c s) by (by apply (mem_inv_le _ _ _ _ Hi); lia).
  unfold resize. rewrite (bind_run _ _ _ _ _ (get_mem_run s m p Hm)), Hc.
  destruct (Z.eqb_spec newsz (memsz p)) as [E0|E0].
  { exists (Ok tt), s. split_and!; [done|done|apply private_refl|by left]. }
  destruct (shared p).
  { exists (Err NOT_SUPPORTED), s. split_and!; [done|done|apply private_refl|done|done]. }
  destruct (negb _ && negb _).
  { exists (Err NOT_SUPPORTED), s. split_and!; [done|done|apply private_refl|done|done]. }
  assert (Hrel : ∃ s1 pg, (if newsz <? memsz p then release_pages_from m newsz else mret tt) s = Fin (Ok tt) s1 ∧
    mem_inv ext c s1 ∧ private_to ext m s s1 ∧ repaged s1 m p pg ∧ ram s1 = ram s ∧ kept_pages p newsz pg).
  { destruct (Z.ltb_spec newsz (memsz p)) as [Hlt|Hge].
    - destruct (release_run ext c s m p newsz Hi Hm) as (s1 & pg & E & Hi1 & Hp1 & Hr1 & Hram & Hpg).
      exists s1, pg. split_and!; try done. intros v. rewrite Hpg.
      by rewrite (bool_decide_ext (pages_of newsz <= v) (newsz < memsz p ∧ pages_of newsz <= v)) by naive_solver.
    - exists s, (phy_pages p). split_and!; [done|done|apply private_refl|by apply repaged_refl|done|].
      intros v. rewrite bool_decide_eq_false_2 by lia. done. }
  destruct Hrel as (s1 & pg & E1 & Hi1 & Hp1 & Hr1 & Hram1 & Hpg). rewrite (bind_run _ _ _ _ _ E1).
  set (s2 := set_committed (adjust (committed_pages s1) (pages_of newsz - pages_of (memsz p))) s1).
  rewrite (bind_run (adjust_committed_pages _) _ _ tt s2 eq_refl).
  destruct (set_memsz_inv ext c s2 m (set_pages (λ _, pg) p) newsz) as (Hi3 & Hp3 & _ & Hm3); [|done|].
  { by apply (mem_inv_same _ _ s1). }
  exists (Ok tt), (set_mems (alter (set_memsz newsz) m) s2). split_and!; [done|done| |].
  - eapply private_trans; [exact Hp1|]. eapply private_trans; [|exact Hp3].
    apply private_step; [done|done|by left].
  - right. by exists pg.
Qed.

(** ** Writing back *)

(** Only the file system below changes. *)
Definition files_only s s' : Prop := ∃ fs, s' = set_files fs s.

Lemma files_only_refl s : files_only s s.
Proof. exists (files s). by destruct s. Qed.
Lemma files_only_trans s1 s2 s3 : files_only s1 s2 → files_only s2 s3 → files_only s1 s3.
Proof. intros [f1 ->] [f2 ->]. by exists f2. Qed.

(** One round of the loop: it goes on, with [next], or fails. *)
Lemma writeback_loop_run ext c m f offset total k s p consumed :
  mem_inv ext c s → mems s !! m = Some p →
  0 <= offset → 0 <= consumed <= total → offset + total <= W64 → enough k offset consumed total →
  ∃ r s', sync_loop k p f offset consumed total s = Fin r s' ∧ files_only s s'.
Proof.
  revert s consumed. induction k as [|k IH]; intros s consumed Hi Hm Ho Hc Ht Hk.
  - simpl in *. destruct (Z.ltb_spec consumed total) as [Hlt|Hge]; [specialize (Hk Hlt)|]; simpl.
    { exfalso. enough ((offset + consumed) / PAGESIZE <= (offset + total - 1) / PAGESIZE) by lia.
      apply Z.div_le_mono; [done|lia]. }
    exists (Ok tt), s. split; [done|apply files_only_refl].
  - cbn [sync_loop]. destruct (Z.ltb_spec consumed total) as [Hlt|Hge]; cbn [negb].
    2: { exists (Ok tt), s. split; [done|apply files_only_refl]. }
    destruct (chunk_facts offset consumed total Ho ltac:(lia) Ht) as (Ecur & Hu & Hpos & Hle & Hin & Hnext).
    rewrite Ecur. set (chunk := page_chunk_size _ _) in *. rewrite offvpn_div by done.
    assert (Hgo : ∀ s1, files_only s s1 →
      ∃ r s', sync_loop k p f offset (consumed + chunk) total s1 = Fin r s' ∧ files_only s s').
    { intros s1 [fs ->]. destruct (IH (set_files fs s) (consumed + chunk)) as (r & s' & E & Hf); try done; try lia.
      - by apply (mem_inv_same _ _ s).
      - by eapply enough_step; [| |exact Hlt|]; rewrite ?Z.add_assoc.
      - exists r, s'. split; [done|]. by eapply files_only_trans; [eexists|]. }
    destruct (phy_pages p !! ((offset + consumed) / PAGESIZE)) as [e|] eqn:Ee; [|by apply Hgo, files_only_refl].
    destruct (W64 - 1 - file_offset p <? _); [exists (Err OUT_OF_BOUNDARY), s; split; [done|apply files_only_refl]|].
    destruct (sync_len _ _ _ _ =? 0); [by apply Hgo, files_only_refl|].
    assert (Hok : frame_ok (addr e)).
    { apply (mi_ok _ _ _ Hi (m, (offset + consumed) / PAGESIZE)). by rewrite lookup_flatten, Hm. }
    rewrite (bind_run _ _ _ _ _ (load_page_run (addr e) _ _ s Hok)). unfold gets. unfold mbind at 1, M_bind at 1.
    destruct (vf_write _ _ _ _) as [r fs]. rewrite (bind_run (modify _) _ s tt (set_files fs s) eq_refl).
    destruct r as [n|er]; [|exists (Err er), (set_files fs s); split; [done|by exists fs]].
    rewrite (bind_run (of_result (Ok n)) _ _ n (set_files fs s) eq_refl).
    destruct (negb _); [exists (Err IO_ERROR), (set_files fs s); split; [done|by exists fs]|].
    apply Hgo. by exists fs.
Qed.

Lemma writeback_run ext c s m p off len :
  mem_inv ext c s → mems s !! m = Some p → is_u64 off → 0 <= len → memsz p < W64 →
  ∃ r s', sync m off len s = Fin r s' ∧ files_only s s'.
Proof.
  intros Hi Hm Ho Hl Hsz. unfold sync. rewrite (bind_run _ _ _ _ _ (get_mem_run s m p Hm)).
  destruct (file p) as [f|]; [|exists (Ok tt), s; split; [done|apply files_only_refl]].
  destruct (len =? 0); [exists (Ok tt), s; split; [done|apply files_only_refl]|]. unfold bounded_length.
  destruct (Z.leb_spec (memsz p) off) as [Hle|Hlt]; [exists (Err OUT_OF_BOUNDARY), s; split; [done|apply files_only_refl]|].
  set (total := if memsz p - off <? len then memsz p - off else len).
  assert (0 <= total ∧ off + total <= memsz p) as [Ht1 Ht2]
    by (unfold total; destruct (Z.ltb_spec (memsz p - off) len); lia).
  rewrite (bind_run (of_result (Ok total)) _ _ total s eq_refl). unfold is_u64 in Ho.
  destruct (writeback_loop_run ext c m f off total (page_iters total) s p 0 Hi Hm) as (r & s1 & E & Hf); try lia.
  { apply enough_iters. lia. }
  destruct r as [[]|e]; [|rewrite (bind_run_err _ _ _ _ _ E); by exists (Err e), s1].
  rewrite (bind_run _ _ _ _ _ E). unfold sync_file. destruct (vf_sync f (files s1)) as [r fs].
  exists r, (set_files fs s1). split; [done|]. by eapply files_only_trans; [|eexists].
Qed.

(** ** Contiguous runs *)

(** The [k] frames from number [i] on of a run at [base]. *)
Record run_ok ext s (base i : Z) (k : nat) : Prop := {
  ro_pos : 0 < base;
  ro_first : 0 <= i;
  ro_align : (PAGESIZE | base);
  ro_limit : base + (i + Z.of_nat k) * PAGESIZE <= Buddy.LIMIT;
  ro_free : ∀ q, Gfp.in_pages q (base + i * PAGESIZE) (Z.of_nat k) → cnt (flat s) q = 0 ∧ ext q = 0;
}.

Lemma run_frame ext s base i k : run_ok ext s base i (S k) → frame_ok (base + i * PAGESIZE).
Proof.
  intros [Hp Hi Ha Hl _]. split; [unfold PAGESIZE; lia| |unfold PAGESIZE in *; lia].
  apply Z.divide_add_r; [done|]. by eexists.
Qed.
Lemma run_page base i : (base + i * PAGESIZE) / PAGESIZE = base / PAGESIZE + i.
Proof. by rewrite Z.div_add by done. Qed.
Lemma run_free ext s base i k q :
  run_ok ext s base i k → base / PAGESIZE + i <= q < base / PAGESIZE + i + Z.of_nat k →
  cnt (flat s) q = 0 ∧ ext q = 0.
Proof. intros Hr Hq. apply (ro_free _ _ _ _ _ Hr). unfold Gfp.in_pages. rewrite run_page. lia. Qed.
Lemma run_step ext s base i k : run_ok ext s base i (S k) → run_ok ext s base (i + 1) k.
Proof.
  intros Hr. pose proof Hr as [Hp Hi Ha Hl _]. split; try done; try lia.
  intros q. unfold Gfp.in_pages. rewrite run_page. intros Hq. apply (run_free _ _ _ _ _ q Hr). lia.
Qed.
Lemma run_same ext s s' base i k : flat s' = flat s → run_ok ext s base i k → run_ok ext s' base i k.
Proof. intros E [? ? ? ? Hf]. split; try done. by rewrite E. Qed.

Lemma nth_page_run ext s base i k s1 :
  run_ok ext s base i (S k) → nth_page base i s1 = Fin (Ok (base + i * PAGESIZE)) s1.
Proof.
  intros Hr. pose proof (ro_first _ _ _ _ _ Hr). pose proof (ro_pos _ _ _ _ _ Hr).
  destruct (run_frame _ _ _ _ _ Hr) as [Hp _ Hl].
  assert (Hs : base + i * PAGESIZE + PAGESIZE <= KVA_OFFSET - KPA_OFFSET) by (unfold Buddy.LIMIT in *; lia).
  unfold nth_page, add64, mul64. unfold PAGESIZE in *.
  rewrite (wrap64_small (i * 4096)) by (unfold is_u64, W64, KVA_OFFSET, KPA_OFFSET in *; lia).
  rewrite wrap64_small by (unfold is_u64, W64, KVA_OFFSET, KPA_OFFSET in *; lia).
  unfold mk_addr, within_scope. rewrite (proj2 (Z.eqb_neq _ 0)) by lia.
  rewrite (proj2 (andb_true_iff _ _)); [done|]. cbn [get_scope PA_SCOPE scope_start scope_end].
  unfold NULL_ADDR, KPA_OFFSET, KVA_OFFSET in *. split; apply Z.leb_le; lia.
Qed.

(** The entries of a run take over its references. *)
Lemma insert_run_run ext c m base k i s p :
  mem_inv (bump 1 (base + i * PAGESIZE) (Z.of_nat k) ext) c s → (∀ q, 0 <= ext q) → mems s !! m = Some p →
  run_ok ext s base i k → (∀ j, i <= j < i + Z.of_nat k → phy_pages p !! j = None) →
  ∃ s' pg, insert_run m base i k s = Fin (Ok tt) s' ∧ mem_inv ext c s' ∧ private_to ext m s s' ∧
    repaged s' m p pg ∧ ram s' = ram s ∧
    ∀ j, pg !! j = if bool_decide (i <= j < i + Z.of_nat k) then Some (mkPage (base + j * PAGESIZE) 1)
                   else phy_pages p !! j.
Proof.
  revert i s p. induction k as [|k IH]; intros i s p Hi He Hm Hr Hnone.
  - exists s, (phy_pages p). split; [done|]. split_and!; [|apply private_refl|by apply repaged_refl|done|].
    + eapply mem_inv_ext; [|exact Hi]. intros q. unfold bump, Gfp.in_pages. rewrite bool_decide_eq_false_2 by lia. done.
    + intros j. by rewrite bool_decide_eq_false_2 by lia.
  - cbn [insert_run]. rewrite (bind_run _ _ _ _ _ (nth_page_run _ _ _ _ _ s Hr)).
    set (a := base + i * PAGESIZE) in *. set (e := mkPage a 1).
    set (s1 := set_mems (alter (set_pages <[i := e]>) m) s). rewrite (bind_run (upd_mem m _) _ _ tt s1 eq_refl).
    set (p1 := set_pages <[i := e]> p).
    assert (Hm1 : mems s1 !! m = Some p1) by (simpl; by rewrite lookup_alter_eq, Hm).
    pose proof (run_frame _ _ _ _ _ Hr) as Hok. fold a in Hok.
    assert (Hqa : a / PAGESIZE = base / PAGESIZE + i) by (unfold a; apply run_page).
    assert (Hbump : ∀ q, bump 1 a (Z.of_nat (S k)) ext q = bump 1 a 1 (bump 1 (base + (i + 1) * PAGESIZE) (Z.of_nat k) ext) q).
    { intros q. rewrite bump_one. unfold bump, one, Gfp.in_pages. rewrite run_page, Hqa.
      repeat case_bool_decide; lia. }
    destruct (run_free _ _ _ _ _ (a / PAGESIZE) Hr) as [Hc0 He0]; [lia|].
    assert (Hi1 : mem_inv (bump 1 (base + (i + 1) * PAGESIZE) (Z.of_nat k) ext) c s1).
    { apply (insert_inv _ c s m p i e); try done.
      - eapply mem_inv_ext; [|exact Hi]. apply Hbump.
      - intros q. unfold bump. specialize (He q). case_bool_decide; lia.
      - apply Hnone. lia.
      - intros k1 e1 Hk1 Ea. by apply (cnt_zero (flat s) k1 e1 (a / PAGESIZE)) in Hk1. }
    assert (Hr1 : run_ok ext s1 base (i + 1) k).
    { pose proof (run_step _ _ _ _ _ Hr) as [? ? ? ? Hfree]. split; try done. intros q Hq.
      destruct (Hfree q Hq) as [Hcq ?]. split; [|done]. unfold s1. simpl.
      rewrite (flatten_insert _ _ _ _ _ Hm), cnt_insert by (rewrite lookup_flatten, Hm; simpl; apply Hnone; lia).
      simpl. rewrite Hcq. unfold one. rewrite bool_decide_eq_false_2; [lia|]. rewrite Hqa.
      unfold Gfp.in_pages in Hq. rewrite run_page in Hq. lia. }
    destruct (IH (i + 1) s1 p1 Hi1 He Hm1 Hr1) as (s2 & pg & E & Hi2 & Hp2 & Hrep & Hram & Hpg).
    { intros j Hj. unfold p1. simpl. rewrite lookup_insert_ne by lia. apply Hnone. lia. }
    exists s2, pg. split; [done|]. split; [done|]. split; [|split; [done|split; [done|]]].
    + eapply private_trans; [|exact Hp2]. apply private_step.
      * intros m' Hne. simpl. by rewrite lookup_alter_ne.
      * done.
      * intros q (v & e1 & Hk & Hq). simpl in Hk. rewrite (flatten_insert _ _ _ _ _ Hm) in Hk.
        apply lookup_insert_Some in Hk as [[_ <-]|[_ Hk]]; [|left; by exists v, e1].
        right. simpl in Hq. subst q. by apply fresh_not_held.
    + intros j. rewrite Hpg. unfold p1. simpl. destruct (decide (j = i)) as [->|Hne].
      * rewrite bool_decide_eq_false_2, bool_decide_eq_true_2, lookup_insert_eq by lia. done.
      * rewrite lookup_insert_ne by done.
        by rewrite (bool_decide_ext (i + 1 <= j < i + 1 + Z.of_nat k) (i <= j < i + Z.of_nat (S k))) by lia.
Qed.

Lemma size_outside (i : Z) (k : nat) (f : Z → PhyPage) (pg pg0 : gmap Z PhyPage) :
  (∀ j, pg !! j = if bool_decide (i <= j < i + Z.of_nat k) then Some (f j) else pg0 !! j) →
  (size pg <= size pg0 + k)%nat.
Proof.
  revert i pg0. induction k as [|k IH]; intros i pg0 Hpg.
  - assert (pg = pg0) as ->; [|lia]. apply map_eq. intros j. by rewrite Hpg, bool_decide_eq_false_2 by lia.
  - assert (Hsz : (size (<[i := f i]> pg0) <= size pg0 + 1)%nat).
    { rewrite map_size_insert. destruct (pg0 !! i); unfold id; lia. }
    enough (size pg <= size (<[i := f i]> pg0) + k)%nat by lia. apply (IH (i + 1)). intros j. rewrite Hpg.
    destruct (decide (j = i)) as [->|Hne].
    + by rewrite bool_decide_eq_true_2, bool_decide_eq_false_2, lookup_insert_eq by lia.
    + rewrite lookup_insert_ne by done.
      by rewrite (bool_decide_ext (i <= j < i + Z.of_nat (S k)) (i + 1 <= j < i + 1 + Z.of_nat k)) by lia.
Qed.

(** The payload has at most [n] pages more than before. *)
Definition pages_up_to s s' (m : Z) p (n : nat) : Prop :=
  ∃ p', mems s' !! m = Some p' ∧ (size (phy_pages p') <= size (phy_pages p) + n)%nat.

Lemma pages_same s s' m p n : mems s' !! m = Some p → pages_up_to s s' m p n.
Proof. intros Hm. exists p. split; [done|lia]. Qed.

(** The frames of a new run. *)
Lemma get_run ext c s n :
  mem_inv ext (S c) s → 1 <= n <= 2 ^ 15 →
  ∃ r g, with_frames (F := F) (pf_get n) s = Fin r (set_frames g s) ∧
    match r with
    | Ok a => run_ok ext (set_frames g s) a 0 (Z.to_nat n) ∧
              mem_inv (bump 1 (a + 0 * PAGESIZE) (Z.of_nat (Z.to_nat n)) ext) c (set_frames g s)
    | Err _ => mem_inv ext c (set_frames g s)
    end.
Proof.
  intros Hi Hn. destruct (get_frames _ _ _ _ Hi Hn) as (r & g & E & Hr). exists r, g. split; [done|].
  destruct r as [a|]; [|done]. destruct Hr as (Hp & Hal & Hl & Hz & Hi1).
  rewrite Z.mul_0_l, Z.add_0_r, Z2Nat.id by lia. split; [|done].
  split; try done; rewrite ?Z.mul_0_l, ?Z.add_0_r, ?Z.add_0_l, ?Z2Nat.id by lia; done.
Qed.

Lemma ensure_contiguous_run ext c s m p :
  mem_inv ext (S c) s → mems s !! m = Some p → m ≠ 0 → Z.of_nat (size (phy_pages p)) * PAGESIZE < W64 →
  0 <= pages_of (memsz p) <= 2 ^ 15 →
  ∃ r s', ensure_contiguous m s = Fin r s' ∧ mem_inv ext c s' ∧ private_to ext m s s' ∧
    pages_up_to s s' m p (Z.to_nat (pages_of (memsz p))).
Proof.
  intros Hi Hm Hm0 Hsz Hn. assert (Hstay : ∃ r s', Fin (Ok tt) s = Fin r s' ∧ mem_inv ext c s' ∧ private_to ext m s s' ∧
    pages_up_to s s' m p (Z.to_nat (pages_of (memsz p)))).
  { exists (Ok tt), s. split_and!; [done|by apply (mem_inv_less _ _ 1)|apply private_refl|by apply pages_same]. }
  unfold ensure_contiguous. rewrite (proj2 (Z.eqb_neq m 0)), (bind_run _ _ _ _ _ (get_mem_run s m p Hm)) by done.
  unfold allocated_size, mul64.
  rewrite wrap64_small by (unfold is_u64, PAGESIZE in *; lia).
  destruct (negb (continuity p)); [exact Hstay|]. cbn [orb].
  destruct (Z.eqb_spec (Z.of_nat (size (phy_pages p)) * PAGESIZE) 0) as [E0|E0]; cbn [negb]; [|exact Hstay].
  assert (Hempty : phy_pages p = ∅) by (apply map_size_empty_inv; unfold PAGESIZE in E0; lia).
  destruct (Z.eqb_spec (pages_of (memsz p)) 0) as [Ez|Ez]; [exact Hstay|].
  destruct (get_run _ _ _ (pages_of (memsz p)) Hi) as (r & g & E & Hr); [lia|]. destruct r as [a|e].
  2: { rewrite (bind_run_err _ _ _ _ _ E). exists (Err e), (set_frames g s). split_and!; [done|done|by split|by apply pages_same]. }
  rewrite (bind_run _ _ _ _ _ E). destruct Hr as [Hok Hi1].
  destruct (insert_run_run ext c m a (Z.to_nat (pages_of (memsz p))) 0 (set_frames g s) p Hi1)
    as (s2 & pg & E2 & Hi2 & Hp2 & Hrp2 & _ & Hpg); [apply (mi_ext _ _ _ Hi)|done|done|by rewrite Hempty|].
  exists (Ok tt), s2. split_and!; [done|done| |].
  - eapply private_trans; [|exact Hp2]. by split.
  - eexists. split; [exact Hrp2|]. cbn [phy_pages set_pages].
    apply (size_outside 0 _ (λ j, mkPage (a + j * PAGESIZE) 1)). exact Hpg.
Qed.

(** Filling a run that is not in use yet changes the contents of its frames. *)
Definition run_filled (base i : Z) (k : nat) s s' : Prop :=
  ∃ r, s' = set_ram (λ _, r) s ∧
    ∀ q, ~ (base / PAGESIZE + i <= q < base / PAGESIZE + i + Z.of_nat k) → r !! q = ram s !! q.

Lemma run_filled_refl base i k s : run_filled base i k s s.
Proof. exists (ram s). split; [by destruct s|done]. Qed.
Lemma run_filled_step base i k s s1 s2 :
  run_filled base i 1 s s1 → run_filled base (i + 1) k s1 s2 → run_filled base i (S k) s s2.
Proof.
  intros (r1 & -> & H1) (r2 & -> & H2). exists r2. split; [done|]. intros q Hq.
  rewrite H2 by lia. apply H1. lia.
Qed.
Lemma run_filled_private ext m base i k s s' :
  run_ok ext s base i k → run_filled base i k s s' → private_to ext m s s'.
Proof.
  intros Hr (r & -> & Hq). apply private_step; [done| |by left]. intros q Hne. simpl in Hne.
  destruct (decide (base / PAGESIZE + i <= q < base / PAGESIZE + i + Z.of_nat k)) as [Hin|Hout].
  - destruct (run_free _ _ _ _ _ q Hr Hin). by apply fresh_not_held.
  - by rewrite Hq in Hne.
Qed.

Lemma zero_run_run ext s0 base k i s :
  run_ok ext s0 base i k → ∃ s', zero_run base i k s = Fin (Ok tt) s' ∧ run_filled base i k s s'.
Proof.
  revert i s. induction k as [|k IH]; intros i s Hr; cbn [zero_run]; [by eexists; split; [|apply run_filled_refl]|].
  rewrite (bind_run _ _ _ _ _ (nth_page_run _ _ _ _ _ s Hr)).
  rewrite (bind_run _ _ _ _ _ (zero_page_run _ s (run_frame _ _ _ _ _ Hr))).
  destruct (IH (i + 1) (set_ram <[(base + i * PAGESIZE) / PAGESIZE := ∅]> s) (run_step _ _ _ _ _ Hr)) as (s' & E & Hf).
  exists s'. split; [done|]. eapply run_filled_step; [|exact Hf]. eexists. split; [by destruct s|].
  intros q Hq. simpl. rewrite run_page. apply lookup_insert_ne. lia.
Qed.

Lemma copy_run_run ext s0 p base k i s :
  (∀ v e, phy_pages p !! v = Some e → frame_ok (addr e)) → run_ok ext s0 base i k →
  ∃ s', copy_run p base i k s = Fin (Ok tt) s' ∧ run_filled base i k s s'.
Proof.
  intros Hp. revert i s. induction k as [|k IH]; intros i s Hr; cbn [copy_run]; [by eexists; split; [|apply run_filled_refl]|].
  assert (∃ s1, (match lookup_page p (offvpn_to_offset i) with
    | Ok old => a ← nth_page base i; copy_page a old | Err _ => mret tt end) s = Fin (Ok tt) s1 ∧ run_filled base i 1 s s1)
    as (s1 & E1 & Hf1).
  { unfold lookup_page, lookup_page_entry. destruct (memsz p <=? _); [by exists s; split; [|apply run_filled_refl]|].
    destruct (phy_pages p !! _) as [e|] eqn:Ee; simpl; [|by exists s; split; [|apply run_filled_refl]].
    rewrite (bind_run _ _ _ _ _ (nth_page_run _ _ _ _ _ s Hr)).
    rewrite (copy_page_run _ _ s (run_frame _ _ _ _ _ Hr) (Hp _ _ Ee)). eexists. split; [done|].
    eexists. split; [by destruct s|]. intros q Hq. simpl. rewrite run_page. apply lookup_insert_ne. lia. }
  rewrite (bind_run _ _ _ _ _ E1). destruct (IH (i + 1) s1 (run_step _ _ _ _ _ Hr)) as (s' & E & Hf).
  exists s'. split; [done|]. by eapply run_filled_step.
Qed.

(** A payload lets go of its pages; the references are held outside. *)
Lemma clear_payload ext c s m p :
  mem_inv ext c s → mems s !! m = Some p →
  flatten (alter (set_pages (λ _, ∅)) m (mems s)) = flatten (delete m (mems s)) ∧
  mem_inv (λ q, ext q + refs (map_to_list (phy_pages p)) q) c (set_mems (alter (set_pages (λ _, ∅)) m) s).
Proof.
  intros Hi Hm. pose proof (mi_next _ _ _ Hi) as Hnx. apply (drop_payload _ _ _ m p) in Hi as [H1 H2 H3 H4 H5]; [|done].
  assert (Ef : flatten (alter (set_pages (λ _, ∅)) m (mems s)) = flatten (delete m (mems s))).
  { replace (alter (set_pages (λ _, ∅)) m (mems s)) with (<[m := set_pages (λ _, ∅) p]> (delete m (mems s))).
    - apply flatten_new; [apply lookup_delete_eq|done].
    - apply map_eq. intros m'. destruct (decide (m = m')) as [<-|].
      + by rewrite lookup_insert_eq, lookup_alter_eq, Hm.
      + by rewrite lookup_insert_ne, lookup_delete_ne, lookup_alter_ne. }
  split; [done|]. split; simpl in *; rewrite ?Ef; try done. intros m' Hm'. apply Hnx.
  destruct (decide (m = m')) as [<-|]; [eauto|]. by rewrite lookup_alter_ne in Hm'.
Qed.

Lemma cnt_drop s m p q : mems s !! m = Some p → cnt (flatten (delete m (mems s))) q <= cnt (flat s) q.
Proof.
  intros Hm. rewrite <- (insert_id (mems s) m (set_pages (λ _, phy_pages p) p)) at 2 by (rewrite Hm; by destruct p).
  rewrite cnt_payload. pose proof (refs_nonneg (map_to_list (phy_pages p)) q). lia.
Qed.

(** All pages are given back. *)
Lemma clear_pages_run ext c s m p :
  mem_inv ext (size (phy_pages p) + c) s → mems s !! m = Some p →
  ∃ g, put_pages (F := F) (map_to_list (phy_pages p)) s = Fin (Ok tt) (set_frames g s) ∧
    ∀ s1, frames s1 = g → mems s1 = alter (set_pages (λ _, ∅)) m (mems s) → next_mem s1 = next_mem s → ram s1 = ram s →
      mem_inv ext c s1 ∧ (∀ ext', private_to ext' m s s1) ∧ mems s1 !! m = Some (set_pages (λ _, ∅) p) ∧
      ∀ q, cnt (flat s1) q <= cnt (flat s) q.
Proof.
  intros Hi Hm. destruct (clear_payload _ _ s m p Hi Hm) as [Ef Hc].
  destruct (put_pages_run ext c (map_to_list (phy_pages p)) s (set_mems (alter (set_pages (λ _, ∅)) m) s))
    as (g & E & Hg); [done| |by apply (pages_ok _ _ s m p Hi)|apply (mi_ext _ _ _ Hi)|].
  { by rewrite length_map_to_list. }
  exists g. split; [done|]. intros s1 E1 E2 E3 E4. split; [|split; [|split]].
  - by apply (mem_inv_same _ _ (set_frames g (set_mems (alter (set_pages (λ _, ∅)) m) s))).
  - intros ext'. apply private_step; [|by rewrite E4|].
    + intros m' Hne. by rewrite E2, lookup_alter_ne.
    + intros q (v & e & Hk & _). rewrite E2, Ef, lookup_flatten, lookup_delete_eq in Hk. done.
  - by rewrite E2, lookup_alter_eq, Hm.
  - intros q. rewrite E2, Ef. by apply (cnt_drop s m p).
Qed.

(** The end of [resize]. *)
Lemma finish_resize ext c s s1 m p p1 newsz k n :
  mem_inv ext c s1 → private_to ext m s s1 → mems s1 !! m = Some p1 →
  (size (phy_pages p1) <= size (phy_pages p) + n)%nat →
  ∃ r s', (_ ← adjust_committed_pages k; upd_mem m (set_memsz newsz)) s1 = Fin r s' ∧ mem_inv ext c s' ∧ private_to ext m s s' ∧
    pages_up_to s s' m p n.
Proof.
  intros Hi1 Hp1 Hm1 Hsz. set (s2 := set_committed (adjust (committed_pages s1) k) s1).
  rewrite (bind_run (adjust_committed_pages k) _ _ tt s2 eq_refl).
  destruct (set_memsz_inv ext c s2 m p1 newsz) as (Hi3 & Hp3 & _ & Hm3); [by apply (mem_inv_same _ _ s1)|done|].
  exists (Ok tt), (set_mems (alter (set_memsz newsz) m) s2). split_and!; [done|done| |by eexists].
  eapply private_trans; [exact Hp1|]. eapply private_trans; [|exact Hp3]. apply private_step; [done|done|by left].
Qed.

(** The frames of a payload in continuity mode move to another run. *)
Lemma resize_run_cont ext c s m p newsz :
  mem_inv ext (S (size (phy_pages p)) + c) s → mems s !! m = Some p → continuity p = true →
  0 <= pages_of newsz <= 2 ^ 15 →
  ∃ r s', resize m newsz s = Fin r s' ∧ mem_inv ext c s' ∧ private_to ext m s s' ∧
    pages_up_to s s' m p (Z.to_nat (pages_of newsz)).
Proof.
  intros Hi Hm Hct Hn. pose proof (mi_ext _ _ _ Hi) as He.
  assert (Hstay : ∀ r : Result unit, ∃ r' s', Fin r s = Fin r' s' ∧ mem_inv ext c s' ∧ private_to ext m s s' ∧
    pages_up_to s s' m p (Z.to_nat (pages_of newsz))).
  { intros r. exists r, s. split_and!; [done|by apply (mem_inv_le _ _ _ _ Hi); lia|apply private_refl|by apply pages_same]. }
  unfold resize. rewrite (bind_run _ _ _ _ _ (get_mem_run s m p Hm)), Hct.
  destruct (newsz =? memsz p); [apply Hstay|]. destruct (shared p); [apply Hstay|].
  destruct (negb _ && negb _); [apply Hstay|].
  destruct (Z.eqb_spec (pages_of newsz) 0) as [E0|E0].
  { destruct (release_run ext c s m p 0) as (s1 & pg & E & Hi1 & Hp1 & Hr1 & _ & Hpg); [by apply (mem_inv_le _ _ _ _ Hi); lia|done|].
    rewrite (bind_run _ _ _ _ _ E). apply (finish_resize ext c s s1 m p _ newsz _ _ Hi1 Hp1 Hr1).
    enough (size pg <= size (phy_pages p))%nat by (simpl; lia). apply map_subseteq_size, map_subseteq_spec.
    intros v e. rewrite Hpg. by case_bool_decide. }
  destruct (get_run ext (size (phy_pages p) + c) s (pages_of newsz)) as (r & g & E & Hr); [by apply (mem_inv_le _ _ _ _ Hi); lia|lia|].
  destruct r as [base|e].
  2: { rewrite (bind_run_err _ _ _ _ _ E). exists (Err e), (set_frames g s). split_and!; [done|by apply (mem_inv_le _ _ _ _ Hr); lia|by split|by apply pages_same]. }
  rewrite (bind_run _ _ _ _ _ E). destruct Hr as [Hok Hi1]. set (n := Z.to_nat (pages_of newsz)) in *. set (s1 := set_frames g s) in *.
  destruct (zero_run_run ext s1 base n 0 s1 Hok) as (s2 & E2 & Hf2). rewrite (bind_run _ _ _ _ _ E2).
  set (k := Z.to_nat (Z.min (pages_of (memsz p)) (pages_of newsz))).
  assert (Hok2 : run_ok ext s1 base 0 k).
  { destruct Hok as [R1 R2 R3 R4 R5]. split; try done; [unfold PAGESIZE in *; lia|]. intros q Hq. apply R5.
    unfold Gfp.in_pages in *. lia. }
  destruct (copy_run_run ext s1 p base k 0 s2) as (s3 & E3 & Hf3); [|done|].
  { intros v e Hv. apply (mi_ok _ _ _ Hi (m, v)). by rewrite lookup_flatten, Hm. }
  rewrite (bind_run _ _ _ _ _ E3). destruct Hf2 as (r2 & -> & Hr2), Hf3 as (r3 & -> & Hr3). cbn [ram set_ram] in Hr3.
  set (s3 := set_ram (λ _, r3) (set_ram (λ _, r2) s1)).
  assert (Hp3 : private_to ext m s s3).
  { eapply (private_trans _ _ _ s1); [by split|]. apply (run_filled_private ext m base 0 n); [done|]. exists r3. split; [done|].
    intros q Hq. rewrite Hr3 by lia. by apply Hr2. }
  destruct (clear_pages_run (bump 1 (base + 0 * PAGESIZE) (Z.of_nat n) ext) c s3 m p) as (g4 & E4 & H4);
    [by apply (mem_inv_same _ _ s1)|done|].
  rewrite (bind_run _ _ _ _ _ E4). set (s4 := set_frames g4 s3). set (d := - Z.of_nat (size (phy_pages p))).
  set (s5 := if file_backed p then set_mapped (adjust (mapped_pages s4) d) s4 else set_anon (adjust (anon_pages s4) d) s4).
  rewrite (bind_run (adjust_backed_pages (file_backed p) d) _ _ tt s5 eq_refl).
  set (s6 := set_mems (alter (set_pages (λ _, ∅)) m) s5). rewrite (bind_run (upd_mem m _) _ _ tt s6 eq_refl).
  destruct (H4 s6) as (Hi6 & Hp6 & Hm6 & Hc6); [by unfold s6, s5; destruct (file_backed p)..|].
  destruct (insert_run_run ext c m base n 0 s6 (set_pages (λ _, ∅) p) Hi6 He Hm6) as (s7 & pg & E7 & Hi7 & Hp7 & Hr7 & _ & Hpg).
  { destruct Hok as [R1 R2 R3 R4 R5]. split; try done. intros q Hq. destruct (R5 q Hq) as [Hz ?]. split; [|done].
    specialize (Hc6 q). pose proof (cnt_nonneg (flat s6) q). change (flat s3) with (flat s1) in Hc6. lia. }
  { intros j _. apply lookup_empty. }
  rewrite (bind_run _ _ _ _ _ E7).
  set (s8 := if file_backed p then set_mapped (adjust (mapped_pages s7) (pages_of newsz)) s7 else set_anon (adjust (anon_pages s7) (pages_of newsz)) s7).
  rewrite (bind_run (adjust_backed_pages (file_backed p) (pages_of newsz)) _ _ tt s8 eq_refl).
  apply (finish_resize ext c s s8 m p (set_pages (λ _, pg) (set_pages (λ _, ∅) p)));
    [by unfold s8; destruct (file_backed p); apply (mem_inv_same _ _ s7)| |by unfold s8; destruct (file_backed p)|].
  2: { apply (size_outside 0 _ (λ j, mkPage (base + j * PAGESIZE) 1)) in Hpg. cbn [phy_pages set_pages] in *.
       rewrite map_size_empty in Hpg. unfold n in Hpg. lia. }
  eapply private_trans; [exact Hp3|]. eapply private_trans; [apply Hp6|]. eapply private_trans; [exact Hp7|].
  apply private_step; unfold s8; destruct (file_backed p); done || by left.
Qed.

(** ** Isolation *)

Inductive mem_op :=
  | OpNew (memsz : Z) (shared continuity : bool) (growth : Z) (file : option Z) (file_offset file_backed_len : Z)
  | OpClone (m : Z)
  | OpRead (m off len : Z)
  | OpWrite (m off : Z) (data : list Z)
  | OpFork (m off : Z)
  | OpRelease (m off : Z)
  | OpResize (m newsz : Z)
  | OpEnsure (m off : Z)
  | OpContiguous (m : Z)
  | OpSync (m off len : Z)
  | OpDestruct (m : Z).

Definition run_mem_op (op : mem_op) : M (mstate G F) unit :=
  match op with
  | OpNew sz sh ct gr fl fo fb => _ ← new_memory sz sh ct gr fl fo fb; mret tt
  | OpClone m => _ ← clone_payload m; mret tt
  | OpRead m off len => _ ← read m off false len; mret tt
  | OpWrite m off data => _ ← write m off (Some data) (Z.of_nat (length data)); mret tt
  | OpFork m off => fork m off
  | OpRelease m off => release_pages_from m off
  | OpResize m newsz => resize m newsz
  | OpEnsure m off => _ ← ensure_page m off; mret tt
  | OpContiguous m => ensure_contiguous m
  | OpSync m off len => sync m off len
  | OpDestruct m => destruct_memory m
  end.

(** The payload an operation is called on. *)
Definition op_target (op : mem_op) : option Z :=
  match op with
  | OpNew _ _ _ _ _ _ _ => None
  | OpClone m | OpRead m _ _ | OpWrite m _ _ | OpFork m _ | OpRelease m _ | OpResize m _
  | OpEnsure m _ | OpContiguous m | OpSync m _ _ | OpDestruct m => Some m
  end.

(** Calls of the page-frame allocator an operation can make. *)
Definition op_calls p (op : mem_op) : nat :=
  match op with
  | OpNew _ _ _ _ _ _ _ | OpClone _ => 0
  | OpRead _ _ len => 2 * page_iters len
  | OpWrite _ _ data => 4 * page_iters (Z.of_nat (length data))
  | OpFork _ _ | OpEnsure _ _ => 2
  | OpContiguous _ => 1
  | OpSync _ _ _ => 0
  | OpResize _ _ => S (size (phy_pages p))
  | OpRelease _ _ | OpDestruct _ => size (phy_pages p)
  end.

(** What the callers keep to: offsets and sizes are those of the machine, reference
    counts have not run out for a clone, and a run of pages is one the page-frame
    allocator is asked for (at most 128 MiB). *)
Definition op_allowed ext s p (op : mem_op) : Prop :=
  match op with
  | OpNew _ _ _ _ _ _ _ | OpRelease _ _ | OpDestruct _ => True
  | OpClone _ => counts_fit ext s p
  | OpRead _ off len => 0 <= len ∧ is_u64 off ∧ memsz p < W64
  | OpWrite _ off _ => is_u64 off ∧ memsz p < W64
  | OpFork _ off | OpEnsure _ off => is_u64 off
  | OpResize _ newsz => continuity p = false ∨ 0 <= pages_of newsz <= 2 ^ 15
  | OpContiguous m =>
      m ≠ 0 ∧ Z.of_nat (size (phy_pages p)) * PAGESIZE < W64 ∧ 0 <= pages_of (memsz p) <= 2 ^ 15
  | OpSync _ off len => is_u64 off ∧ 0 <= len ∧ memsz p < W64
  end.

(** What the operation may not touch: other payloads and what they read, and
    pages held outside the payloads. *)
Record untouched ext (t : option Z) s s' : Prop := {
  un_mems : ∀ m, Some m ≠ t → is_Some (mems s !! m) → mems s' !! m = mems s !! m;
  un_view : ∀ m, Some m ≠ t → is_Some (mems s !! m) → ∀ o, view s' m o = view s m o;
  un_ram : ∀ q, 0 < ext q → (∀ m, ~ uses s m q) → ram s' !! q = ram s !! q;
}.

Lemma private_untouched ext m s s' : private_to ext m s s' → untouched ext (Some m) s s'.
Proof.
  intros Hp. split.
  - intros m' Hne _. apply Hp. congruence.
  - intros m' Hne _. eapply private_view; [exact Hp|]. congruence.
  - intros q Hq Hn. apply Hp. by right.
Qed.

Lemma untouched_ram ext t s s' :
  ram s' = ram s → (∀ m, Some m ≠ t → is_Some (mems s !! m) → mems s' !! m = mems s !! m) → untouched ext t s s'.
Proof.
  intros Hr Hm. split; [done| |by rewrite Hr]. intros m Hne Hs. apply view_addr; [done|].
  intros v. by rewrite !lookup_flatten, Hm.
Qed.

(** Steps whose answer is dropped, and steps that stay within a payload. *)
Lemma op_private ext c s m (k : M (mstate G F) unit) :
  (∃ r s', k s = Fin r s' ∧ mem_inv ext c s' ∧ private_to ext m s s') →
  ∃ r s', k s = Fin r s' ∧ mem_inv ext c s' ∧ untouched ext (Some m) s s'.
Proof. intros (r & s' & E & Hi & Hp). exists r, s'. split_and!; [done|done|by apply private_untouched]. Qed.
Lemma op_discard {A} ext c s m (k : M (mstate G F) A) :
  (∃ r s', k s = Fin r s' ∧ mem_inv ext c s' ∧ private_to ext m s s') →
  ∃ r s', (_ ← k; mret tt) s = Fin r s' ∧ mem_inv ext c s' ∧ untouched ext (Some m) s s'.
Proof.
  intros (r & s' & E & Hi & Hp). apply op_private. destruct r as [a|e].
  - exists (Ok tt), s'. by rewrite (bind_run _ _ _ _ _ E).
  - exists (Err e), s'. by rewrite (bind_run_err _ _ _ _ _ E).
Qed.

Lemma clone_step ext c s m p :
  mem_inv ext c s → mems s !! m = Some p → counts_fit ext s p →
  ∃ r s', (_ ← clone_payload m; mret tt) s = Fin r s' ∧ mem_inv ext c s' ∧ untouched ext (Some m) s s'.
Proof.
  intros Hi Ht Ha. destruct (shared p) eqn:Esh.
  - exists (Ok tt), s. split_and!; [|done|by apply untouched_ram].
    unfold clone_payload, mbind, M_bind. rewrite (get_mem_run s m p Ht), Esh. done.
  - destruct (clone_run ext c s m p Hi Ht Esh Ha) as (m' & s' & p' & E & Hi' & Hr & Hn & _ & _ & _ & _ & _ & _ & _ & Ho).
    exists (Ok tt), s'. rewrite (bind_run _ _ _ _ _ E). split_and!; [done|done|].
    apply untouched_ram; [done|]. intros m1 Hne [p1 H1]. apply Ho; congruence.
Qed.

Lemma fork_private ext c s m p off :
  mem_inv ext (2 + c) s → mems s !! m = Some p → is_u64 off →
  ∃ r s', fork m off s = Fin r s' ∧ mem_inv ext c s' ∧ private_to ext m s s'.
Proof.
  intros Hi Ht Ha.
  assert (Hout : ∀ r, fork m off s = Fin r s → ∃ r s', fork m off s = Fin r s' ∧ mem_inv ext c s' ∧ private_to ext m s s').
  { intros r E. exists r, s. split_and!; [done|by apply (mem_inv_less _ _ 2)|apply private_refl]. }
  destruct (Z.leb_spec (memsz p) (page_align_down off)) as [Hle|Hlt].
  { apply (Hout (Err OUT_OF_BOUNDARY)). unfold fork, mbind, M_bind. rewrite (get_mem_run s m p Ht).
    by rewrite (proj2 (Z.leb_le _ _)). }
  destruct (phy_pages p !! (off / PAGESIZE)) as [e|] eqn:Ee.
  - destruct (fork_run ext c s m p off e Hi Ht Ha Hlt Ee) as (r & s' & pg & E & Hi' & Hp & _). by exists r, s'.
  - apply (Hout (Err PAGE_NOT_PRESENT)). unfold fork, mbind, M_bind. rewrite (get_mem_run s m p Ht).
    rewrite (proj2 (Z.leb_gt _ _)) by done. unfold lookup_page_entry. by rewrite offvpn_div, Ee.
Qed.

Lemma resize_step ext c s m p newsz :
  mem_inv ext (S (size (phy_pages p)) + c) s → mems s !! m = Some p →
  continuity p = false ∨ 0 <= pages_of newsz <= 2 ^ 15 →
  ∃ r s', resize m newsz s = Fin r s' ∧ mem_inv ext c s' ∧ private_to ext m s s' ∧
    pages_up_to s s' m p (if continuity p then Z.to_nat (pages_of newsz) else 0).
Proof.
  intros Hi Ht Ha. destruct (continuity p) eqn:Ect.
  - destruct Ha as [?|Ha]; [done|]. by apply (resize_run_cont ext c s m p).
  - destruct (resize_run ext c s m p newsz) as (r & s' & E & Hi' & Hp & Hr); [by apply (mem_inv_le _ _ _ _ Hi); lia|done|done|].
    exists r, s'. split_and!; [done|done|done|]. destruct r as [u|e]; [destruct Hr as [[-> _]|(pg & Hm & _ & Hpg)]|destruct Hr as [_ ->]];
      [by apply pages_same| |by apply pages_same].
    eexists. split; [exact Hm|]. simpl. enough (size pg <= size (phy_pages p))%nat by lia.
    apply map_subseteq_size, map_subseteq_spec. intros v e. rewrite Hpg. by case_bool_decide.
Qed.

Lemma op_step ext c s p op :
  mem_inv ext (op_calls p op + c) s →
  (∀ m, op_target op = Some m → mems s !! m = Some p) → op_allowed ext s p op →
  ∃ r s', run_mem_op op s = Fin r s' ∧ mem_inv ext c s' ∧ untouched ext (op_target op) s s'.
Proof.
  intros Hi Ht Ha. destruct op as [sz sh ct gr fl fo fb|m|m off len|m off data|m off|m off|m newsz|m off|m|m off len|m];
    simpl in *; try specialize (Ht m eq_refl).
  - destruct (new_memory_run ext c s sz sh ct gr fl fo fb Hi) as (s' & E & Hi' & Hn & Hms & Hr & _).
    exists (Ok tt), s'. rewrite (bind_run _ _ _ _ _ E). split_and!; [done|done|].
    apply untouched_ram; [done|]. intros m _ [p' Hm]. rewrite Hms, lookup_insert_ne by congruence. done.
  - by apply (clone_step ext c s m p).
  - destruct Ha as (Hl & Ho & Hsz). apply op_discard.
    destruct (read_run ext c s m p off len Hl Hi Ht Ho Hsz) as (r & s' & pg & E & Hi' & Hp & _). by exists r, s'.
  - destruct Ha as [Ho Hsz]. apply op_discard.
    destruct (write_run ext c s m p off data Hi Ht Ho Hsz) as (r & s' & pg & n & E & Hi' & Hp & _). by exists r, s'.
  - by apply op_private, (fork_private ext c s m p).
  - apply op_private. destruct (release_run ext c s m p off Hi Ht) as (s' & pg & E & Hi' & Hp & _). by exists (Ok tt), s'.
  - apply op_private. destruct (resize_step ext c s m p newsz Hi Ht Ha) as (r & s' & E & Hi' & Hp & _). by exists r, s'.
  - apply op_discard. destruct (ensure_page_run ext c s m p off Hi Ht Ha) as (r & s' & pg & E & Hi' & Hp & _). by exists r, s'.
  - destruct Ha as (Hm0 & Hsz & Hn). apply op_private.
    destruct (ensure_contiguous_run ext c s m p Hi Ht Hm0 Hsz Hn) as (r & s' & E & Hi' & Hp & _). by exists r, s'.
  - destruct Ha as (Ho & Hl & Hsz). destruct (writeback_run ext c s m p off len Hi Ht Ho Hl Hsz) as (r & s' & E & [fs ->]).
    exists r, (set_files fs s). split_and!; [done|by apply (mem_inv_same _ _ s)|by apply untouched_ram].
  - destruct (destruct_run ext c s m p Hi Ht) as (s' & E & Hi' & Hms & Hr).
    exists (Ok tt), s'. split_and!; [done|done|]. apply untouched_ram; [done|].
    intros m' Hne _. rewrite Hms, lookup_delete_ne by congruence. done.
Qed.

(** C15: isolation of memory objects.  The operations are construction,
    [clone_payload], [read], [write], [fork], [release_pages_from], [resize],
    [ensure_page], [ensure_contiguous], [sync] and [destruct]; [replace_page], which
    nothing calls, is not among them.  In a consistent state whose allocator has room for
    the calls, each of them, run to its end on a payload that is alive, returns (with
    success or an error), keeps the state consistent (each entry holds one reference on
    its frame, and a frame that an entry may write in place has no other entry), and
    changes neither the other payloads, nor a byte they read, nor a page held outside the
    payloads.  Conditions ([op_allowed]): offsets and sizes are below 2^64, a clone does
    not push a reference count to 2^64, and memory in continuity mode is of at most
    128 MiB when its run of frames is taken. *)
Theorem memory_isolation ext c s p op :
  mem_inv ext (op_calls p op + c) s →
  (∀ m, op_target op = Some m → mems s !! m = Some p) → op_allowed ext s p op →
  ∃ r s', run_mem_op op s = Fin r s' ∧ mem_inv ext c s' ∧ untouched ext (op_target op) s s'.
Proof. apply op_step. Qed.

(** Writing.  [write] returns.  It reports the number of bytes from the offset
    to the end of the request or of the memory, whichever comes first, and these
    bytes then read as the data; a failure (no frame left, or the file) leaves a
    prefix written.  Every other byte of an anonymous payload, and of the present
    pages of a file-backed one, keeps its value; beyond the end nothing happens and
    the error is [OUT_OF_BOUNDARY]. *)
Theorem memory_write_spec ext c s m p off data :
  let len := Z.of_nat (length data) in
  mem_inv ext (4 * page_iters len + c) s → mems s !! m = Some p → is_u64 off → memsz p < W64 →
  ∃ r s' n, write m off (Some data) len s = Fin r s' ∧ mem_inv ext c s' ∧
    0 <= n <= reach_len p off len ∧ overwritten s s' m p off (take (Z.to_nat n) data) ∧
    match r with
    | Ok k => k = n ∧ n = reach_len p off len
    | Err e => memsz p <= off → e = OUT_OF_BOUNDARY ∧ s' = s
    end.
Proof.
  intros len Hi Hm Ho Hsz.
  destruct (write_run ext c s m p off data Hi Hm Ho Hsz) as (r & s' & pg & n & E & Hi' & _ & _ & Hn & How & Hr).
  exists r, s', n. split_and!; try done; apply Hn.
Qed.

(** C21: copy on write.  A clone of an anonymous payload that is not shared (a shared one
    is not copied), whose reference counts do not run out, has the same size and reads byte
    by byte as the original.  A write to either of the two
    afterwards (at an offset inside it) changes what the writer reads, and
    nothing the other reads. *)
Theorem memory_clone_cow ext c s m p off data :
  let len := Z.of_nat (length data) in
  mem_inv ext (4 * page_iters len + c) s → mems s !! m = Some p → shared p = false → file p = None →
  counts_fit ext s p → is_u64 off → memsz p < W64 →
  ∃ m' s1, clone_payload m s = Fin (Ok m') s1 ∧ mems s !! m' = None ∧
    (∀ o, view s1 m' o = view s m o) ∧ (∀ o, view s1 m o = view s m o) ∧
    ∀ w other, (w, other) = (m, m') ∨ (w, other) = (m', m) →
      ∃ r s2 n, write w off (Some data) len s1 = Fin r s2 ∧ mem_inv ext c s2 ∧
        (r = Ok n → n = reach_len p off len) ∧
        (∀ o, view s2 w o = if bool_decide (off <= o < off + n) then default 0 (data !! Z.to_nat (o - off))
                            else view s m o) ∧
        ∀ o, view s2 other o = view s m o.
Proof.
  intros len Hi Hm Hsh Hf Hb Ho Hsz.
  destruct (clone_run ext _ s m p Hi Hm Hsh Hb) as
    (m' & s1 & p' & E1 & Hi1 & Hr1 & Hn & Hm' & Hmeta & Hf' & _ & Hv' & Hv & (pg & Hrp & _) & _).
  injection Hmeta as Esz _ _ _.
  exists m', s1. split_and!; [done|done|done|done|]. intros w other Hw.
  assert (Hne : other ≠ w) by (destruct Hw; simplify_eq; congruence).
  assert (Hpw : ∃ pw, mems s1 !! w = Some pw ∧ memsz pw = memsz p ∧ file pw = None).
  { destruct Hw as [Hw|Hw]; simplify_eq; eauto. }
  destruct Hpw as (pw & Hpw & Eszw & Efw).
  destruct (write_run ext c s1 w pw off data Hi1 Hpw Ho ltac:(lia))
    as (r & s2 & pg2 & n & E2 & Hi2 & Hp2 & _ & Hn2 & [O1 O2 _] & Hres).
  assert (Hreach : reach_len pw off len = reach_len p off len) by (unfold reach_len; by rewrite Eszw).
  assert (Hlen : Z.of_nat (length (take (Z.to_nat n) data)) = n).
  { rewrite length_take. unfold reach_len in Hn2. lia. }
  assert (Hvw : ∀ o, view s1 w o = view s m o) by (destruct Hw; simplify_eq; auto).
  assert (Hvo : ∀ o, view s1 other o = view s m o) by (destruct Hw; simplify_eq; auto).
  exists r, s2, n. split_and!; [done|done| | |].
  - intros ->. destruct Hres as [_ Hx]. rewrite Hx. exact Hreach.
  - intros o. rewrite Hlen in O1, O2. case_bool_decide as Hin.
    + destruct (O1 o Hin) as [-> _]. rewrite lookup_take_lt by lia. done.
    + rewrite O2 by (done || by left). apply Hvw.
  - intros o. rewrite (private_view _ _ _ _ _ Hp2 Hne). apply Hvo.
Qed.

(** Round trip.  What a successful [write] stored, a [read] of the same range
    returns. *)
Theorem memory_write_read ext c s m p off data n s1 :
  let len := Z.of_nat (length data) in
  mem_inv ext (4 * page_iters len + (2 * page_iters n + c)) s → mems s !! m = Some p → is_u64 off → memsz p < W64 →
  write m off (Some data) len s = Fin (Ok n) s1 →
  ∃ r s2, read m off false n s1 = Fin r s2 ∧ mem_inv ext c s2 ∧
    match r with Ok (k, bytes) => k = n ∧ bytes = take (Z.to_nat n) data | Err _ => False end.
Proof.
  intros len Hi Hm Ho Hsz E1.
  destruct (write_run ext _ s m p off data Hi Hm Ho Hsz)
    as (r & s1' & pg & n' & E & Hi1 & Hp1 & Hr1 & Hn & [O1 O2 O3] & Hres).
  unfold len in E1; rewrite E1 in E. injection E as Er Es. subst r s1'. destruct Hres as [<- Hn'].
  assert (Hlen : Z.of_nat (length (take (Z.to_nat n) data)) = n).
  { rewrite length_take. unfold reach_len in Hn'. lia. }
  rewrite Hlen in *. destruct (read_run_present ext c s1 m _ off n ltac:(lia) Hi1 Hr1 Ho ltac:(simpl; lia))
    as (s2 & E2 & Hi2); [|simpl; unfold reach_len in Hn'; lia|].
  { intros x Hx. destruct (O1 x Hx) as [_ Hs]. by rewrite lookup_flatten, Hr1 in Hs. }
  eexists _, s2. split; [exact E2|]. split; [done|]. split; [done|].
  apply list_eq. intros i. rewrite list_lookup_fmap. destruct (decide (i < Z.to_nat n)%nat) as [Hi'|Hi'].
  - rewrite lookup_seqZ_lt by lia. simpl. destruct (O1 (off + Z.of_nat i) ltac:(lia)) as [-> _].
    replace (Z.to_nat (off + Z.of_nat i - off)) with i by lia.
    destruct (take (Z.to_nat n) data !! i) eqn:El; [done|]. apply lookup_ge_None in El. lia.
  - rewrite lookup_seqZ_ge by lia. symmetry. apply lookup_ge_None. lia.
Qed.
End inv.

End Memory.
