(* ===== verification/MemFrames.v ===== *)
(** * The page-frame interface implements what memory objects rely on

    [GFP] over a raw allocator is an instance of [Memory.PageFrames]: a page's
    reference count is the number of references its holders have.  The raw
    allocator must hand out pages the reference table covers and have room for
    the calls to come ([RawCredit]); the growing allocator of the boot phase
    does. *)
From S2P Require Import Prelude ErrCode Addr Buddy Gfp Memory.

Module MemFrames.
Import Memory Gfp.

Class RawCredit (R : Type) `{RawGFP R} := {
  rc_ok : nat → R → Prop;
  rc_less c s : rc_ok (S c) s → rc_ok c s;
  rc_get c s n :
    raw_inv s → rc_ok (S c) s → 1 <= n <= 2 ^ 15 →
    raw_get_pre s n ∧
    ∀ r s', raw_get_free_page n s = Fin r s' → rc_ok c s' ∧
      match r with Ok p => 0 < p ∧ p + n * PAGESIZE <= MAX_TRACKED_MEMORY | Err _ => True end;
  rc_put c s p :
    raw_inv s → rc_ok (S c) s → frame_ok p → p + PAGESIZE <= MAX_TRACKED_MEMORY →
    ~ raw_free s (p / PAGESIZE) →
    raw_put_pre s p 1 ∧ ∀ s', raw_put_page p 1 s = Fin (Ok tt) s' → rc_ok c s';
}.

Section instance.
Context {R : Type} `{RawCredit R}.
Implicit Types (g : gfp R) (own : Z → Z).

Definition frames_inv own (c : nat) g : Prop :=
  gfp_inv g ∧ rc_ok c (g_raw g) ∧ (∀ q, ref g q = own q) ∧ ∀ q, 0 < own q → q < MAX_TRACKED_PAGES.

Lemma frame_range p : frame_ok p → range_ok p 1.
Proof. intros [Hp Ha Hl]. split; try done; lia. Qed.

Lemma frame_tracked p : frame_ok p → p / PAGESIZE < MAX_TRACKED_PAGES → tracked p 1 = true.
Proof.
  intros Hf Hq. unfold tracked. rewrite (range_ok_topfn p 1 (frame_range p Hf)).
  apply andb_true_iff. split; [by apply Z.ltb_lt|apply Z.leb_le; lia].
Qed.

Lemma frame_below p : frame_ok p → p / PAGESIZE < MAX_TRACKED_PAGES → p + PAGESIZE <= MAX_TRACKED_MEMORY.
Proof.
  intros [_ [k ->] _] Hq. rewrite Z.div_mul in Hq by done.
  change MAX_TRACKED_PAGES with 1048576 in *. unfold MAX_TRACKED_MEMORY, PAGESIZE in *. lia.
Qed.

Lemma frames_get own c g n :
  frames_inv own (S c) g → 1 <= n <= 2 ^ 15 →
  ∃ r g', get_free_page n g = Fin r g' ∧
    match r with
    | Ok p => 0 < p ∧ (PAGESIZE | p) ∧ p + n * PAGESIZE <= Buddy.LIMIT ∧
              (∀ q, in_pages q p n → own q = 0) ∧ frames_inv (bump 1 p n own) c g'
    | Err _ => frames_inv own c g'
    end.
Proof.
  intros (Hg & Hc & Hr & Ht) Hn. destruct (rc_get c (g_raw g) n (proj1 Hg) Hc Hn) as [Hpre Hrc].
  assert (Hn0 : 0 <= n) by lia.
  destruct (gfp_get_inv g n Hg (conj Hn0 Hpre)) as (r & g' & E & Hg' & Hz).
  exists r, g'. split; [done|].
  unfold get_free_page, mbind, M_bind, lift in E.
  destruct (raw_get_free_page n (g_raw g)) as [r1 s1| |] eqn:E1; try done.
  destruct (Hrc _ _ eq_refl) as [Hc1 Hb]. destruct r1 as [p|e].
  2: { simplify_eq. by split_and!. }
  destruct Hb as [Hp Hlim].
  destruct (raw_get_law _ _ (proj1 Hg) Hpre) as (r2 & s2 & E2 & _ & _ & Hal). rewrite E1 in E2. simplify_eq.
  destruct Hal as (Hal & Hu & _).
  assert (Etr : tracked p n = true).
  { unfold tracked. rewrite (topfn_div p Hu Hal). destruct Hal as [k ->]. rewrite Z.div_mul by done.
    change MAX_TRACKED_PAGES with 1048576 in *. unfold MAX_TRACKED_MEMORY, PAGESIZE in *. apply andb_true_iff.
    split; [apply Z.ltb_lt|apply Z.leb_le]; lia. }
  rewrite Etr in E. unfold modify, mret, M_ret in E. simplify_eq.
  assert (Hzero : ∀ q, in_pages q p n → own q = 0) by (intros q Hq; rewrite <- Hr; by apply Hz).
  assert (Href : ∀ q, default 0 (foldl (λ m i, <[topfn p + i := 1]> m) (refcounts g) (seqZ 0 n) !! q) = bump 1 p n own q).
  { intros q. pose proof (foldl_update (λ _, 1) (topfn p) (refcounts g) q (Z.to_nat n) 0) as Hfl.
    rewrite Z2Nat.id in Hfl by lia. rewrite Hfl, (topfn_div p Hu Hal). unfold bump.
    pose proof (in_pages_bool q p n) as Hib. specialize (Hr q). unfold ref in Hr. clear Hfl.
    destruct (_ && _).
    - rewrite bool_decide_eq_true_2 by by apply Hib. rewrite (Hzero q) by (by apply Hib). done.
    - rewrite bool_decide_eq_false_2; [done|]. intros Hq. apply Hib in Hq. done. }
  split; [done|]. split; [done|]. split; [|split; [done|]].
  - unfold Buddy.LIMIT, KVA_OFFSET, KPA_OFFSET, MAX_TRACKED_MEMORY in *. lia.
  - split; [done|]. split; [done|]. split; [exact Href|].
    intros q. unfold bump. case_bool_decide as Hq; [|by apply Ht]. intros _.
    unfold in_pages in Hq. destruct Hal as [k ->]. rewrite Z.div_mul in Hq by done.
    change MAX_TRACKED_PAGES with 1048576 in *. unfold MAX_TRACKED_MEMORY, PAGESIZE in *. lia.
Qed.

Lemma frames_put own c g p :
  frames_inv own (S c) g → frame_ok p → 0 < own (p / PAGESIZE) →
  ∃ g', put_page p 1 g = Fin (Ok tt) g' ∧ frames_inv (bump (-1) p 1 own) c g'.
Proof.
  intros (Hg & Hc & Hr & Ht) Hf Ho.
  pose proof (Ht _ Ho) as Htr. pose proof (frame_range p Hf) as Hrg. pose proof (frame_tracked p Hf Htr) as Etr.
  pose proof (range_ok_topfn p 1 Hrg) as Etop.
  destruct Hg as (Hi & Hm & Hfree).
  assert (Hnf : ~ raw_free (g_raw g) (p / PAGESIZE)) by (apply Hfree; by rewrite Hr).
  destruct (rc_put c _ p Hi Hc Hf (frame_below p Hf Htr) Hnf) as [Hpre Hrc].
  assert (Hrel : released p 1 (refcounts g) =
    if last_ref (refcounts g) (topfn p) then [(0, 1)] else []).
  { unfold released, flags. change (Z.of_nat (Z.to_nat 1)) with 1. change (seqZ 0 1) with [0].
    cbn [fmap list_fmap]. rewrite Z.add_0_r. by destruct (last_ref _ _). }
  assert (Hok : puts_ok p (released p 1 (refcounts g)) (g_raw g)).
  { rewrite Hrel. destruct (last_ref _ _); [|done]. simpl. replace (p + 0 * PAGESIZE) with p by lia. done. }
  destruct (gfp_put_inv g p 1) as (g' & E & Hg'); [by split|by split|].
  exists g'. split; [done|].
  destruct (raw_puts_law p _ _ Hi Hok) as (s' & Es & _ & _).
  rewrite (gfp_put_page_run p 1 g s' Hm Hrg Etr Es) in E. simplify_eq. split_and!; [done| | |].
  - simpl. rewrite Hrel in Es. destruct (last_ref _ _); simpl in Es.
    + unfold mbind, M_bind in Es. replace (p + 0 * PAGESIZE) with p in Es by lia.
      destruct (raw_put_page p 1 (g_raw g)) as [[[]|] s1| |] eqn:E1; try done. simplify_eq. by apply Hrc.
    + unfold mret, M_ret in Es. simplify_eq. by apply rc_less.
  - intros q. unfold ref. simpl. rewrite dec_refs_lookup, Etop by done. change (Z.of_nat (Z.to_nat 1)) with 1.
    pose proof (in_pages_bool q p 1) as Hib. specialize (Hr q). unfold ref in Hr. unfold bump.
    destruct (_ && _).
    + rewrite bool_decide_eq_true_2 by by apply Hib. assert (Hq : in_pages q p 1) by by apply Hib.
      unfold in_pages in Hq. assert (q = p / PAGESIZE) as -> by lia. lia.
    + rewrite bool_decide_eq_false_2; [done|]. intros Hq. apply Hib in Hq. done.
  - intros q. unfold bump. case_bool_decide; intros Hq; apply Ht; lia.
Qed.

Lemma frames_keep own c g p :
  frames_inv own c g → frame_ok p → 0 < own (p / PAGESIZE) < W64 - 1 →
  ∃ g', keep_page p 1 g = Fin (Ok tt) g' ∧ frames_inv (bump 1 p 1 own) c g'.
Proof.
  intros (Hg & Hc & Hr & Ht) Hf Ho. pose proof (Ht _ (proj1 Ho)) as Htr.
  assert (Hin : ∀ q, in_pages q p 1 → q = p / PAGESIZE) by (unfold in_pages; intros; lia).
  assert (Hpre : op_pre g (OpKeep p 1)).
  { split; [by apply frame_range|]. split; [by apply frame_tracked|]. intros q ->%Hin. by rewrite Hr. }
  destruct (gfp_keep_inv g p 1 Hg Hpre) as (g' & E & Hg' & Href). exists g'. split; [done|].
  split_and!; [done| | |].
  - unfold keep_page in E. rewrite (frame_tracked p Hf Htr) in E. cbn [negb] in E. unfold modify in E. by simplify_eq.
  - intros q. rewrite Href, Hr. done.
  - intros q. unfold bump. case_bool_decide as Hq; [|by apply Ht]. intros _. by rewrite (Hin q Hq).
Qed.

#[export, refine] Instance gfp_frames : PageFrames (gfp R) := {|
  pf_get := get_free_page;
  pf_put := put_page;
  pf_keep := keep_page;
  pf_inv := frames_inv;
|}.
Proof.
  - intros own own' c g Hq (H1 & H2 & H3 & H4). split_and!; [done|done| |].
    + intros q. by rewrite H3.
    + intros q. rewrite <- Hq. apply H4.
  - intros own c g (H1 & H2 & H3 & H4). split_and!; [done|by apply rc_less|done|done].
  - apply frames_get.
  - apply frames_put.
  - apply frames_keep.
Defined.
End instance.

(** The growing allocator never takes pages back: any number of calls is fine as
    long as its region is covered by the table. *)
#[export, refine] Instance linear_credit : RawCredit linear := {|
  rc_ok c s := 0 < curaddr s ∧ curaddr s <= boundary s ∧ boundary s <= MAX_TRACKED_MEMORY;
|}.
Proof.
  - done.
  - intros c s n (Ha & Hc & Hb) (Hp & Hle & Hlim) Hn.
    assert (Hpre : curaddr s + n * PAGESIZE < KPA_OFFSET).
    { unfold MAX_TRACKED_MEMORY, PAGESIZE, KPA_OFFSET in *. lia. }
    split; [split; [lia|done]|]. intros r s'. simpl. unfold linear_get_free_page.
    assert (Em : mul64 n PAGESIZE = n * PAGESIZE).
    { apply wrap64_small. unfold is_u64, W64, PAGESIZE in *. lia. }
    assert (Ea : add64 (curaddr s) (n * PAGESIZE) = curaddr s + n * PAGESIZE).
    { apply wrap64_small. unfold is_u64, W64, KPA_OFFSET, PAGESIZE in *. lia. }
    rewrite Em, Ea. destruct (negb _); [done|].
    destruct (Z.ltb_spec (boundary s) (curaddr s + n * PAGESIZE)); intros E; simplify_eq; simpl.
    + done.
    + unfold PAGESIZE in *. lia.
  - intros c s p _ Hc _ _ _. split; [done|]. simpl. unfold linear_put_page. intros s' E.
    by inversion E; subst.
Defined.

(** ** Witnesses: one anonymous payload of two pages over the growing allocator *)
Module MemoryWitness.

(** A file system without files. *)
Definition no_files : VFileOps unit := {|
  vf_read _ _ _ fs := (Err IO_ERROR, [], fs);
  vf_write _ _ _ fs := (Err IO_ERROR, fs);
  vf_sync _ fs := (Err IO_ERROR, fs);
  vf_clone f fs := (f, fs);
  vf_delete _ fs := fs;
|}.
#[local] Existing Instance no_files.

Definition ex_payload : MemoryPayload := mkMemory 0x2000 false false MemoryGrowth.FLEXUP None 0 (W64 - 1) ∅.
Definition ex_ext (_ : Z) : Z := 0.
Definition ex_state : mstate (gfp linear) unit :=
  mkState (mkGfp (mkLinear 0x80000000 0x80100000) ∅ 0) tt ∅ {[1 := ex_payload]} 2 2 0 0.
Definition ex_data : list Z := [1; 2; 3; 4; 5; 6; 7; 8].

Lemma ex_flat : flatten (mems ex_state) = ∅.
Proof. vm_compute. reflexivity. Qed.

Lemma ex_state_inv c : mem_inv ex_ext c ex_state.
Proof.
  split.
  - rewrite ex_flat. split; [|split; [|split]].
    + split; [|split].
      * simpl. split; [by exists 0x80000|]. done.
      * intros q. change (0 <= default 0 ((∅ : gmap Z Z) !! q)). by rewrite lookup_empty.
      * intros q. unfold ref. change (refcounts (frames ex_state)) with (∅ : gmap Z Z). rewrite lookup_empty. simpl. lia.
    + simpl. done.
    + intros q. unfold ref. change (refcounts (frames ex_state)) with (∅ : gmap Z Z). by rewrite lookup_empty.
    + intros q. unfold cnt. rewrite map_filter_empty, map_size_empty. unfold ex_ext. lia.
  - done.
  - intros k e. rewrite ex_flat. by rewrite lookup_empty.
  - intros k1 k2 e1 e2. rewrite ex_flat. by rewrite lookup_empty.
  - intros m. change (mems ex_state) with ({[1 := ex_payload]} : gmap Z MemoryPayload).
    intros [p Hp]. apply lookup_singleton_Some in Hp as [<- _]. done.
Qed.

Lemma ex_lookup : mems ex_state !! 1 = Some ex_payload.
Proof. reflexivity. Qed.

(** The write crosses the boundary between the two pages. *)
Lemma memory_write_spec_witness :
  ∃ r s' n, write 1 4092 (Some ex_data) 8 ex_state = Fin r s' ∧ mem_inv ex_ext 0 s' ∧
    0 <= n <= reach_len ex_payload 4092 8 ∧ overwritten ex_state s' 1 ex_payload 4092 (take (Z.to_nat n) ex_data) ∧
    match r with
    | Ok k => k = n ∧ n = reach_len ex_payload 4092 8
    | Err e => memsz ex_payload <= 4092 → e = OUT_OF_BOUNDARY ∧ s' = ex_state
    end.
Proof.
  apply (memory_write_spec ex_ext 0 ex_state 1 ex_payload 4092 ex_data);
    [apply ex_state_inv|reflexivity|unfold is_u64, W64; lia|unfold W64; simpl; lia].
Defined.

Lemma memory_isolation_witness :
  ∃ r s', run_mem_op (OpWrite 1 4092 ex_data) ex_state = Fin r s' ∧ mem_inv ex_ext 0 s' ∧
    untouched ex_ext (Some 1) ex_state s'.
Proof.
  apply (memory_isolation ex_ext 0 ex_state ex_payload (OpWrite 1 4092 ex_data));
    [apply ex_state_inv|by intros m [= <-]|]. simpl. unfold is_u64, W64. lia.
Defined.

Definition state_after {S A} (o : outcome S A) (d : S) : S := match o with Fin _ s => s | _ => d end.
Definition ex_written : mstate (gfp linear) unit :=
  state_after (write 1 4092 (Some ex_data) 8 ex_state) ex_state.

Lemma ex_written_run : write 1 4092 (Some ex_data) 8 ex_state = Fin (Ok 8) ex_written.
Proof. vm_compute. reflexivity. Qed.

Lemma ex_written_inv c : mem_inv ex_ext c ex_written.
Proof.
  destruct (write_run ex_ext c ex_state 1 ex_payload 4092 ex_data) as (r & s' & pg & n & E & Hi & _);
    [apply ex_state_inv|reflexivity|unfold is_u64, W64; lia|unfold W64; simpl; lia|].
  change (Z.of_nat (length ex_data)) with 8 in E. rewrite ex_written_run in E. by simplify_eq.
Qed.

Lemma memory_write_read_witness :
  ∃ r s2, read 1 4092 false 8 ex_written = Fin r s2 ∧ mem_inv ex_ext 0 s2 ∧
    match r with Ok (k, bytes) => k = 8 ∧ bytes = ex_data | Err _ => False end.
Proof.
  apply (memory_write_read ex_ext 0 ex_state 1 ex_payload 4092 ex_data 8 ex_written);
    [apply ex_state_inv|reflexivity|unfold is_u64, W64; lia|unfold W64; simpl; lia|apply ex_written_run].
Defined.

Definition ex_payload2 : MemoryPayload :=
  mkMemory 0x2000 false false MemoryGrowth.FLEXUP None 0 (W64 - 1)
    (<[0 := mkPage 0x80000000 1]> {[1 := mkPage 0x80001000 1]}).
Lemma ex_lookup2 : mems ex_written !! 1 = Some ex_payload2.
Proof. vm_compute. reflexivity. Qed.

Lemma cnt_size fl q : cnt fl q <= Z.of_nat (size fl).
Proof. unfold cnt. apply inj_le, map_size_filter. Qed.

Lemma ex_counts : counts_fit ex_ext ex_written ex_payload2.
Proof.
  split.
  - intros v e. simpl. intros [[_ <-]|[_ [_ <-]%lookup_singleton_Some]]%lookup_insert_Some; done.
  - intros q. pose proof (cnt_size (flatten (mems ex_written)) q) as Hc.
    replace (size (flatten (mems ex_written))) with 2%nat in Hc by (vm_compute; reflexivity).
    replace (size (phy_pages ex_payload2)) with 2%nat by (vm_compute; reflexivity).
    unfold ex_ext, W64. lia.
Qed.

Lemma memory_clone_cow_witness :
  ∃ m' s1, clone_payload 1 ex_written = Fin (Ok m') s1 ∧ mems ex_written !! m' = None ∧
    (∀ o, view s1 m' o = view ex_written 1 o) ∧ (∀ o, view s1 1 o = view ex_written 1 o) ∧
    ∀ w other, (w, other) = (1, m') ∨ (w, other) = (m', 1) →
      ∃ r s2 n, write w 4090 (Some [9; 9; 9; 9; 9]) 5 s1 = Fin r s2 ∧ mem_inv ex_ext 0 s2 ∧
        (r = Ok n → n = reach_len ex_payload2 4090 5) ∧
        (∀ o, view s2 w o = if bool_decide (4090 <= o < 4090 + n) then default 0 ([9; 9; 9; 9; 9] !! Z.to_nat (o - 4090))
                            else view ex_written 1 o) ∧
        ∀ o, view s2 other o = view ex_written 1 o.
Proof.
  apply (memory_clone_cow ex_ext 0 ex_written 1 ex_payload2 4090 [9; 9; 9; 9; 9]);
    [apply ex_written_inv|apply ex_lookup2|reflexivity|reflexivity|apply ex_counts|unfold is_u64, W64; lia|
     unfold W64; simpl; lia].
Defined.
End MemoryWitness.
End MemFrames.
