(* ===== verification/Sv39.v ===== *)
(** * SV39 page tables

    [SV39PageMan] of kernel/arch/riscv64/mem/sv39.h and sv39.cpp, with the page
    flags of kernel/mem/page_types.h.  The store holds every page table of the
    machine, by page number, each with its 512 entries; an entry that was never
    written is zero.  A page table manager is a root in that store, so several
    address spaces share one store and what one does to another is visible.
    A root or a table is named by its page number.  Reading a page that is not a
    page table panics.

    The physical pages that [GFP::page_gfp] hands out for new tables are a
    supply in the state, an empty supply being its failure. *)
From S2P Require Import Prelude ErrCode Addr.

Module Sv39.

(** ** Page flags *)

(** [PageRWX]: bit 0 read, bit 1 write, bit 2 execute; [P] (a pointer to the
    next table) is 0. *)
Definition RWX_P : Z := 0.
Definition RWX_R : Z := 1.
Definition RWX_W : Z := 2.
Definition RWX_X : Z := 4.

(** [operator&] on the flag enumerations. *)
Definition flag_and (a b : Z) : bool := negb (Z.land a b =? 0).

Record PageFlags := mkFlags { f_rwx : Z; f_u : bool; f_g : bool; f_p : bool }.

Definition page_rwx (r w x : bool) : Z :=
  if r && w && x then 7 else if r && w then 3 else if r && x then 5 else if r then 1 else 0.
Definition page_is_writable (rwx : Z) : bool := flag_and rwx RWX_W.
Definition without_write (rwx : Z) : Z :=
  if rwx =? 3 then 1 else if rwx =? 7 then 5 else rwx.

(** [PageModifier] *)
Definition MOD_R : Z := 1.
Definition MOD_W : Z := 2.
Definition MOD_X : Z := 4.
Definition MOD_U : Z := 8.
Definition MOD_G : Z := 16.
Definition MOD_P : Z := 32.
Definition MOD_RWX : Z := 7.
Definition MOD_ALL : Z := 63.

(** The combination write|execute has no encoding. *)
Definition rwx_cast (rwx : Z) : Z :=
  if (rwx =? 1) || (rwx =? 2) || (rwx =? 3) || (rwx =? 4) || (rwx =? 5) || (rwx =? 7)
  then rwx else 0.

(** ** Entries and tables *)

Inductive PageSize := SZ_NULL | SZ_4K | SZ_2M | SZ_1G.
#[export] Instance PageSize_eq_dec : EqDecision PageSize.
Proof. solve_decision. Defined.

Definition psize (s : PageSize) : Z :=
  match s with SZ_4K => 0x1000 | SZ_2M => 0x200000 | SZ_1G => 0x40000000 | SZ_NULL => 0 end.
Definition level (s : PageSize) : nat :=
  match s with SZ_1G => 1 | SZ_2M => 2 | SZ_4K => 3 | SZ_NULL => 0 end.

Record PTE := mkPTE {
  pte_v : bool; pte_rwx : Z; pte_u : bool; pte_g : bool; pte_a : bool; pte_d : bool;
  pte_rsw : Z; pte_ppn : Z; pte_rsvd : Z; pte_pbmt : Z; pte_np : bool
}.
Definition pte0 : PTE := mkPTE false 0 false false false false 0 0 0 0 false.

(** The union's other view: the 64-bit value. *)
Definition pte_value (e : PTE) : Z :=
  Z.b2z (pte_v e) + 2 * (pte_rwx e + 8 * (Z.b2z (pte_u e) + 2 * (Z.b2z (pte_g e) + 2 * (
  Z.b2z (pte_a e) + 2 * (Z.b2z (pte_d e) + 2 * (pte_rsw e + 4 * (pte_ppn e + 2 ^ 44 * (
  pte_rsvd e + 2 ^ 7 * (pte_pbmt e + 4 * Z.b2z (pte_np e)))))))))).

Definition rwx_of (e : PTE) : Z :=
  if (pte_rwx e =? 2) || (pte_rwx e =? 6) then 0 else pte_rwx e.
Definition is_present (e : PTE) : bool := pte_v e && negb (pte_np e).
Definition from_ppn (ppn : Z) : Z := shl64 ppn 12.
Definition to_ppn (addr : Z) : Z := Z.shiftr addr 12.
(** The field [ppn] has 44 bits. *)
Definition ppn_field (ppn : Z) : Z := ppn mod 2 ^ 44.
Definition is_cow (e : PTE) : bool := flag_and (pte_rsw e) 1.

Definition set_cow (cow : bool) (e : PTE) : PTE :=
  mkPTE (pte_v e) (pte_rwx e) (pte_u e) (pte_g e) (pte_a e) (pte_d e)
    (if cow then Z.lor (pte_rsw e) 1 else Z.land (pte_rsw e) (not64 1))
    (pte_ppn e) (pte_rsvd e) (pte_pbmt e) (pte_np e).
Definition set_paddr (paddr : Z) (e : PTE) : PTE :=
  mkPTE (pte_v e) (pte_rwx e) (pte_u e) (pte_g e) (pte_a e) (pte_d e) (pte_rsw e)
    (ppn_field (to_ppn paddr)) (pte_rsvd e) (pte_pbmt e) (pte_np e).

Definition to_rwx_mask (mask : Z) : Z :=
  Z.lor (if flag_and mask MOD_R then 1 else 0)
    (Z.lor (if flag_and mask MOD_W then 2 else 0) (if flag_and mask MOD_X then 4 else 0)).

Definition modify_pte (modifier : Z) (flags : PageFlags) (e : PTE) : PTE :=
  let rwx_mask := to_rwx_mask modifier in
  let rwx := if negb (rwx_mask =? 0)
             then Z.lor (Z.land (pte_rwx e) (not64 rwx_mask)) (Z.land (rwx_cast (f_rwx flags)) rwx_mask)
             else pte_rwx e in
  mkPTE (pte_v e) rwx
    (if flag_and modifier MOD_U then f_u flags else pte_u e)
    (if flag_and modifier MOD_G then f_g flags else pte_g e)
    (pte_a e) (pte_d e) (pte_rsw e) (pte_ppn e) (pte_rsvd e) (pte_pbmt e)
    (if flag_and modifier MOD_P then negb (f_p flags) else pte_np e).

Definition protect_cow (original_rwx : Z) (e : PTE) : PTE :=
  set_cow true (modify_pte MOD_RWX
    (mkFlags (without_write original_rwx) (pte_u e) (pte_g e) (is_present e)) e).
Definition restore_from_cow (flags : PageFlags) (e : PTE) : PTE :=
  set_cow false (modify_pte MOD_ALL flags e).

Abbreviation ptables := (gmap Z (gmap Z PTE)).
Record pt := mkPt { tables : ptables; frames : list Z }.
Definition set_tables f (s : pt) : pt := mkPt (f (tables s)) (frames s).

(** Entry [i] of table [t]; [None]: the page is no page table. *)
Definition entry (m : ptables) (t i : Z) : option PTE :=
  tb ← m !! t; Some (default pte0 (tb !! i)).
Definition write (t i : Z) (e : PTE) (m : ptables) : ptables := alter <[i := e]> t m.

Definition get_pte (t i : Z) : M pt PTE := λ s,
  match entry (tables s) t i with Some e => Fin (Ok e) s | None => Panic end.
Definition put_pte (t i : Z) (e : PTE) : M pt unit := modify (set_tables (write t i e)).
(** [make_root], and the [memset] of a fresh table. *)
Definition make_root (t : Z) : M pt unit := modify (set_tables <[t := ∅]>).

Definition new_page : M pt Z := λ s,
  match frames s with
  | [] => Fin (Err OUT_OF_MEMORY) s
  | f :: fs => Fin (Ok f) (mkPt (tables s) fs)
  end.

(** ** Walking *)

Definition make_vpn (size : PageSize) (va : Z) : list Z :=
  take (level size)
    [Z.land (Z.shiftr va 30) 0x1FF; Z.land (Z.shiftr va 21) 0x1FF; Z.land (Z.shiftr va 12) 0x1FF].

Definition size_of_level (l : nat) : PageSize :=
  match l with O => SZ_1G | S O => SZ_2M | _ => SZ_4K end.

(** The loop of [query_page]: where the leaf is, and the leaf. *)
Fixpoint walk (m : ptables) (t : Z) (l : nat) (vpn : list Z) : option (Result (Z * Z * PageSize * PTE)) :=
  match vpn with
  | [] => Some (Err INVALID_PTE)
  | i :: vpn =>
      e ← entry m t i;
      if negb (pte_v e) then Some (Err PAGE_NOT_PRESENT)
      else if negb (pte_rwx e =? 0) then Some (Ok (t, i, size_of_level l, e))
      else walk m (pte_ppn e) (S l) vpn
  end.
Definition query_page (root va : Z) : M pt (Z * Z * PageSize * PTE) := λ s,
  match walk (tables s) root 0 (make_vpn SZ_4K va) with
  | Some r => Fin r s
  | None => Panic
  end.

(** ** Mapping *)

(** The entry that points to a new table: the software, reserved and memory-type
    bits of the old entry stay. *)
Definition table_pte (ppn : Z) (e : PTE) : PTE :=
  mkPTE true 0 false false false false (pte_rsw e) (ppn_field ppn) (pte_rsvd e) (pte_pbmt e) false.

(** The loop of [map_page]: the target entry, or nothing. *)
Fixpoint map_walk (t : Z) (vpn : list Z) : M pt (option (Z * Z)) :=
  match vpn with
  | [] => mret None
  | i :: rest =>
      e ← get_pte t i;
      if negb (pte_rwx e =? 0) then mret None
      else if pte_v e && pte_np e then mret None
      else if pte_v e then map_walk (pte_ppn e) rest
      else match rest with
           | [] => mret (Some (t, i))
           | _ =>
               r ← attempt new_page;
               match r with
               | Err _ => mret None
               | Ok new_pt =>
                   _ ← massert (nonnull new_pt);
                   _ ← make_root (to_ppn new_pt);
                   _ ← put_pte t i (table_pte (to_ppn new_pt) e);
                   map_walk (to_ppn new_pt) rest
               end
           end
  end.

Definition leaf_pte (paddr : Z) (flags : PageFlags) (e : PTE) : PTE :=
  modify_pte MOD_ALL flags
    (mkPTE true (pte_rwx e) (pte_u e) (pte_g e) true (page_is_writable (f_rwx flags)) 0
       (ppn_field (to_ppn paddr)) (pte_rsvd e) (pte_pbmt e) (pte_np e)).

Definition map_page (size : PageSize) (root va paddr : Z) (flags : PageFlags) : M pt unit :=
  target ← map_walk root (make_vpn size va);
  match target with
  | None => mret tt
  | Some (t, i) => e ← get_pte t i; put_pte t i (leaf_pte paddr flags e)
  end.

(** [map_range<false>] and [map_range<true>] *)
Fixpoint map_small_loop (k : nat) (i root vs ps : Z) (flags : PageFlags) : M pt unit :=
  match k with
  | O => mret tt
  | S k =>
      let vaddr := add64 vs (mul64 i PAGESIZE) in
      match mk_addr PA (add64 ps (mul64 i PAGESIZE)) with
      | None => panic
      | Some paddr => _ ← map_page SZ_4K root vaddr paddr flags; map_small_loop k (i + 1) root vs ps flags
      end
  end.
Fixpoint map_huge_loop (k : nat) (root va pa remcnt : Z) (flags : PageFlags) : M pt unit :=
  match k with
  | O => no_fuel
  | S k =>
      if negb (0 <? remcnt) then mret tt
      else
        let size :=
          if (psize SZ_1G / PAGESIZE <=? remcnt) && aligned va (psize SZ_1G) && aligned pa (psize SZ_1G)
          then SZ_1G
          else if (psize SZ_2M / PAGESIZE <=? remcnt) && aligned va (psize SZ_2M) && aligned pa (psize SZ_2M)
          then SZ_2M
          else SZ_4K in
        _ ← map_page size root va pa flags;
        map_huge_loop k root (add64 va (psize size)) (add64 pa (psize size))
          (remcnt - psize size / PAGESIZE) flags
  end.
Definition map_range (use_hugepage : bool) (root vstart pstart range_sz : Z) (flags : PageFlags) : M pt unit :=
  let vs := page_align_down vstart in
  let ps := page_align_down pstart in
  let cnt := page_align_up range_sz / PAGESIZE in
  if use_hugepage then map_huge_loop (S (Z.to_nat cnt)) root vs ps cnt flags
  else map_small_loop (Z.to_nat cnt) 0 root vs ps flags.

Definition unmap_page (root va : Z) : M pt unit :=
  r ← attempt (query_page root va);
  match r with
  | Err _ => mret tt
  | Ok (t, i, _, _) => put_pte t i pte0
  end.
Fixpoint unmap_loop (k : nat) (i root vs : Z) : M pt unit :=
  match k with
  | O => mret tt
  | S k => _ ← unmap_page root (add64 vs (mul64 i PAGESIZE)); unmap_loop k (i + 1) root vs
  end.
Definition unmap_range (root vstart size : Z) : M pt unit :=
  unmap_loop (Z.to_nat (page_align_up size / PAGESIZE)) 0 root (page_align_down vstart).

Definition modify_flags (modifier root va : Z) (flags : PageFlags) : M pt PageSize :=
  r ← attempt (query_page root va);
  match r with
  | Err _ => mret SZ_NULL
  | Ok (t, i, size, e) => _ ← put_pte t i (modify_pte modifier flags e); mret size
  end.

(** The loop of [modify_range_flags]; [remcnt] is a [size_t]. *)
Fixpoint modify_range_loop (k : nat) (modifier root va remcnt : Z) (flags : PageFlags) : M pt unit :=
  match k with
  | O => no_fuel
  | S k =>
      if negb (0 <? remcnt) then mret tt
      else
        size ← modify_flags modifier root va flags;
        match size with
        | SZ_NULL => mret tt
        | _ => modify_range_loop k modifier root (add64 va (psize size))
                 (sub64 remcnt (psize size / PAGESIZE)) flags
        end
  end.
Definition modify_range_flags (fuel : nat) (modifier root vstart size : Z) (flags : PageFlags) : M pt unit :=
  modify_range_loop fuel modifier root (page_align_down vstart) (page_align_up size / PAGESIZE) flags.

Definition clone_mapping_from (root src va : Z) : M pt unit :=
  '(_, _, size, e) ← query_page src va;
  let flags := mkFlags (rwx_of e) (pte_u e) (pte_g e) (is_present e) in
  match size with
  | SZ_NULL => fail INVALID_PTE
  | _ => map_page size root (page_align_down va) (from_ppn (pte_ppn e)) flags
  end.

(** ** Copying the kernel's mappings into a new root *)

Definition is_table_pte (e : PTE) (l : nat) : bool :=
  (l <? 2)%nat && pte_v e && negb (pte_np e) && (pte_rwx e =? 0).

Definition ensure_child_table (dst i : Z) : M pt unit :=
  new_pt ← new_page;
  _ ← make_root (to_ppn new_pt);
  put_pte dst i (table_pte (to_ppn new_pt) pte0).

(** [merge_page_table]: [n] levels are left, [idx] are the entries to visit. *)
Fixpoint merge_page_table (n : nat) (dst src : Z) (l : nat) : M pt unit :=
  match n with
  | O => mret tt
  | S n =>
      let fix entries (idx : list Z) : M pt unit :=
        match idx with
        | [] => mret tt
        | i :: idx =>
            s ← get_pte src i;
            if negb (pte_v s) then entries idx
            else
              d ← get_pte dst i;
              if negb (pte_v d) && negb (is_table_pte s l)
              then _ ← put_pte dst i s; entries idx
              else
                _ ← (if negb (pte_v d) then ensure_child_table dst i else mret tt);
                d ← get_pte dst i;
                if negb (is_table_pte s l) || negb (is_table_pte d l) then entries idx
                else _ ← merge_page_table n (pte_ppn d) (pte_ppn s) (S l); entries idx
        end in
      entries (seqZ 0 512)
  end.
Definition merge_from (root src : Z) : M pt unit := merge_page_table 3 root src 0.

Definition init_task_root (root kernel_pgd : Z) : M pt unit :=
  if negb (nonnull root) then fail INVALID_PARAM
  else
    _ ← make_root (to_ppn root);
    if negb (nonnull kernel_pgd) then fail INVALID_PARAM
    else merge_from (to_ppn root) (to_ppn kernel_pgd).

(** ** The tables form a forest

    A ghost map gives every table its level and the entry that points to it. *)
Definition is_table (e : PTE) : bool := pte_v e && (pte_rwx e =? 0).

Abbreviation ghost := (gmap Z (nat * Z * Z)).
Record pt_wf (m : ptables) (P : ghost) : Prop := {
  pw_dom : ∀ t, is_Some (m !! t) ↔ is_Some (P !! t);
  pw_lvl : ∀ t l q j, P !! t = Some (l, q, j) → (l <= 2)%nat;
  pw_child : ∀ t l q j i e, P !! t = Some (l, q, j) → (l < 2)%nat →
    entry m t i = Some e → is_table e = true → P !! pte_ppn e = Some (S l, t, i);
}.

Definition is_root (P : ghost) (r : Z) : Prop := ∃ q j, P !! r = Some (0%nat, q, j).

Lemma entry_write m t i e t' i' :
  entry (write t i e m) t' i' =
  if bool_decide (t = t' ∧ i = i' ∧ is_Some (m !! t)) then Some e else entry m t' i'.
Proof.
  unfold entry, write. destruct (decide (t = t')) as [<-|Hne].
  - rewrite lookup_alter_eq. destruct (m !! t) as [tb|]; simpl.
    + destruct (decide (i = i')) as [<-|].
      * rewrite lookup_insert_eq, bool_decide_eq_true_2 by done. done.
      * rewrite lookup_insert_ne, bool_decide_eq_false_2 by naive_solver. done.
    + rewrite bool_decide_eq_false_2; [done|]. intros (_ & _ & [? ?]). done.
  - rewrite lookup_alter_ne by done. rewrite bool_decide_eq_false_2; [done|naive_solver].
Qed.

Lemma write_dom m t i e t' : is_Some (write t i e m !! t') ↔ is_Some (m !! t').
Proof.
  unfold write. destruct (decide (t = t')) as [<-|].
  - rewrite lookup_alter_eq. destruct (m !! t); simpl; split; intros [? ?]; eauto; done.
  - by rewrite lookup_alter_ne.
Qed.

Lemma entry_some m P t l q j i : pt_wf m P → P !! t = Some (l, q, j) → is_Some (entry m t i).
Proof.
  intros H Ht. destruct (proj2 (pw_dom _ _ H t)) as [tb Htb]; [eauto|]. unfold entry. rewrite Htb. simpl. eauto.
Qed.

(** The tables a walk passes, from [t] along [vs]. *)
Inductive reach (m : ptables) : Z → list Z → Z → Prop :=
  | reach_nil t : reach m t [] t
  | reach_cons t i e vs t' :
      entry m t i = Some e → is_table e = true → reach m (pte_ppn e) vs t' → reach m t (i :: vs) t'.

Lemma reach_level m P t vs t' l q j :
  pt_wf m P → reach m t vs t' → P !! t = Some (l, q, j) → (l + length vs <= 2)%nat →
  ∃ q' j', P !! t' = Some ((l + length vs)%nat, q', j').
Proof.
  intros H Hr. revert l q j. induction Hr as [t|t i e vs t' He Ht Hr IH]; intros l q j Hl Hlen.
  - exists q, j. simpl. by rewrite Nat.add_0_r.
  - simpl in Hlen. destruct (IH (S l) t i) as (q' & j' & E).
    + apply (pw_child _ _ H t l q j); [done|lia|done|done].
    + lia.
    + exists q', j'. rewrite E. simpl. do 3 f_equal. lia.
Qed.

Lemma reach_snoc m t vs i t' :
  reach m t (vs ++ [i]) t' → ∃ t1 e, reach m t vs t1 ∧ entry m t1 i = Some e ∧ is_table e = true ∧ pte_ppn e = t'.
Proof.
  revert t. induction vs as [|v vs IH]; intros t Hr; simpl in Hr.
  - inversion Hr as [|? ? e ? ? He Ht Hr']; subst. inversion Hr'; subst. exists t, e. by repeat constructor.
  - inversion Hr as [|? ? e ? ? He Ht Hr']; subst. destruct (IH _ Hr') as (t1 & e1 & H1 & H2 & H3 & H4).
    exists t1, e1. split_and!; try done. by econstructor.
Qed.

(** Only one root and one path lead to a table. *)
Lemma reach_unique m P r1 r2 vs1 vs2 t :
  pt_wf m P → is_root P r1 → is_root P r2 → (length vs1 <= 2)%nat → (length vs2 <= 2)%nat →
  reach m r1 vs1 t → reach m r2 vs2 t → r1 = r2 ∧ vs1 = vs2.
Proof.
  intros H (q1 & j1 & R1) (q2 & j2 & R2). revert vs2 t.
  induction vs1 as [|i vs1 IH] using rev_ind; intros vs2 t L1 L2 H1 H2.
  - destruct (reach_level m P r2 vs2 t 0 q2 j2 H H2 R2 L2) as (q' & j' & E).
    destruct (reach_level m P r1 [] t 0 q1 j1 H H1 R1 ltac:(done)) as (q'' & j'' & E').
    rewrite E in E'. destruct vs2 as [|v vs2]; [|done]. inversion H1; inversion H2; by subst.
  - rewrite length_app in L1. simpl in L1.
    destruct (reach_level m P r1 (vs1 ++ [i]) t 0 q1 j1 H H1 R1) as (q' & j' & E).
    { rewrite length_app. simpl. lia. }
    destruct (reach_level m P r2 vs2 t 0 q2 j2 H H2 R2 L2) as (q'' & j'' & E').
    rewrite E in E'. injection E' as El _ _. rewrite length_app in El. simpl in El.
    destruct vs2 as [|k vs2 _] using rev_ind; [simpl in El; lia|]. rewrite length_app in El, L2. simpl in El, L2.
    apply reach_snoc in H1 as (t1 & e1 & H1 & Ee1 & Ht1 & <-).
    apply reach_snoc in H2 as (t2 & e2 & H2 & Ee2 & Ht2 & Eppn).
    destruct (reach_level m P r1 vs1 t1 0 q1 j1 H H1 R1) as (x1 & y1 & P1); [lia|].
    destruct (reach_level m P r2 vs2 t2 0 q2 j2 H H2 R2) as (x2 & y2 & P2); [lia|].
    pose proof (pw_child _ _ H _ _ _ _ _ _ P1 ltac:(lia) Ee1 Ht1) as C1.
    pose proof (pw_child _ _ H _ _ _ _ _ _ P2 ltac:(lia) Ee2 Ht2) as C2.
    rewrite Eppn, C1 in C2. injection C2 as _ Et Ei. subst t2 k.
    destruct (IH vs2 t1) as [-> ->]; try done; lia.
Qed.

(** ** Effect of one write on every translation *)

(** Overwriting an entry that is no table pointer by another such entry. *)
Lemma write_leaf_wf m P t i e0 e :
  pt_wf m P → entry m t i = Some e0 → is_table e = false → pt_wf (write t i e m) P.
Proof.
  intros [Hd Hl Hc] He0 He. split; [|done|].
  - intros t'. by rewrite write_dom.
  - intros t' l q j i' e' Ht' Hlt. rewrite entry_write. case_bool_decide as Hb; [|by apply (Hc _ _ q j)].
    intros [= <-] ?. congruence.
Qed.

Lemma walk_write_hit m t i e0 e r l vs rest :
  entry m t i = Some e0 → is_table e0 = false → reach m r vs t →
  walk (write t i e m) r l (vs ++ i :: rest) =
  walk (write t i e m) t (l + length vs) (i :: rest).
Proof.
  intros He0 Hn Hr. revert l. induction Hr as [t|r j e1 vs t He1 Ht1 Hr IH]; intros l.
  - simpl. by rewrite Nat.add_0_r.
  - specialize (IH He0 (S l)). simpl length.
    assert (E : entry (write t i e m) r j = Some e1).
    { rewrite entry_write. rewrite bool_decide_eq_false_2; [done|]. intros (-> & -> & _). congruence. }
    cbn [walk app]. rewrite E. simpl. unfold is_table in Ht1. apply andb_true_iff in Ht1 as [-> ->]. simpl.
    rewrite IH. cbn [walk]. by replace (S l + length vs)%nat with (l + S (length vs))%nat by lia.
Qed.

Lemma walk_write_miss m t i e r l vpn :
  (∀ vs rest, vpn = vs ++ i :: rest → ~ reach m r vs t) →
  walk (write t i e m) r l vpn = walk m r l vpn.
Proof.
  revert r l. induction vpn as [|j vpn IH]; intros r l Hno; [done|]. cbn [walk].
  assert (E : entry (write t i e m) r j = entry m r j).
  { rewrite entry_write. rewrite bool_decide_eq_false_2; [done|]. intros (-> & -> & _).
    apply (Hno [] vpn); [done|constructor]. }
  rewrite E. destruct (entry m r j) as [e1|] eqn:E1; [|done]. simpl.
  destruct (pte_v e1) eqn:Ev; [|done]. simpl. destruct (pte_rwx e1 =? 0) eqn:Er; [|done]. simpl.
  apply IH. intros vs rest -> Hr. apply (Hno (j :: vs) rest); [done|].
  econstructor; [exact E1|by unfold is_table; rewrite Ev, Er|done].
Qed.

(** Linking a fresh, empty table. *)
Definition link_table (t i f : Z) (e : PTE) (m : ptables) : ptables :=
  write t i (table_pte f e) (<[f := ∅]> m).

Lemma entry_fresh_table (m : ptables) f t i :
  entry (<[f := ∅]> m) t i = if bool_decide (t = f) then Some pte0 else entry m t i.
Proof.
  unfold entry. case_bool_decide as E; [subst; by rewrite lookup_insert_eq|by rewrite lookup_insert_ne].
Qed.

Lemma entry_link m P t i f e t' i' :
  pt_wf m P → is_Some (P !! t) → P !! f = None → entry m t i = Some e →
  entry (link_table t i f e m) t' i' =
  if bool_decide (t = t' ∧ i = i') then Some (table_pte f e)
  else if bool_decide (t' = f) then Some pte0 else entry m t' i'.
Proof.
  intros H Ht Hf He. assert (Hne : t ≠ f) by (intros ->; rewrite Hf in Ht; by destruct Ht).
  unfold link_table. rewrite entry_write, entry_fresh_table.
  destruct (decide (t = t' ∧ i = i')) as [[<- <-]|Hn].
  - rewrite !bool_decide_eq_true_2; [done|done|]. split_and!; [done|done|].
    rewrite lookup_insert_ne by done. by apply (pw_dom _ _ H).
  - rewrite (bool_decide_eq_false_2 (t = t' ∧ i = i')) by done.
    by rewrite bool_decide_eq_false_2 by naive_solver.
Qed.

Lemma link_wf m P t i f e l q j :
  pt_wf m P → P !! t = Some (l, q, j) → (l < 2)%nat → P !! f = None → entry m t i = Some e →
  pte_v e = false → ppn_field f = f → pt_wf (link_table t i f e m) (<[f := (S l, t, i)]> P).
Proof.
  intros H Ht Hl Hf He Hv Hff. assert (Hne : t ≠ f) by congruence. split.
  - intros t'. unfold link_table. rewrite write_dom. destruct (decide (t' = f)) as [->|].
    + rewrite !lookup_insert_eq. split; eauto.
    + rewrite !lookup_insert_ne by done. apply H.
  - intros t' l' q' j'. destruct (decide (t' = f)) as [->|].
    + rewrite lookup_insert_eq. intros [= <- <- <-]. lia.
    + rewrite lookup_insert_ne by done. apply H.
  - intros t' l' q' j' i' e' Ht' Hl' He' Htab.
    rewrite (entry_link m P) in He' by eauto. case_bool_decide as Hb.
    { destruct Hb as [-> ->]. simplify_eq. simpl. rewrite Hff, lookup_insert_eq.
      rewrite lookup_insert_ne in Ht' by done. by simplify_eq. }
    case_bool_decide as Hb2; [simplify_eq; done|].
    rewrite lookup_insert_ne in Ht' by done.
    pose proof (pw_child _ _ H _ _ _ _ _ _ Ht' Hl' He' Htab) as Hc.
    rewrite lookup_insert_ne; [done|]. intros Ex. rewrite <- Ex in Hc. congruence.
Qed.

(** An empty table changes no translation. *)
Lemma walk_link m P t i f e lt qt jt r l q j vpn :
  pt_wf m P → P !! t = Some (lt, qt, jt) → (lt < 2)%nat → P !! f = None → entry m t i = Some e →
  pte_v e = false → ppn_field f = f → P !! r = Some (l, q, j) → (l + length vpn = 3)%nat →
  walk (link_table t i f e m) r l vpn = walk m r l vpn.
Proof.
  intros H Ht Hlt Hf He Hv Hff. revert r l q j. induction vpn as [|k vpn IH]; intros r l q j Hr Hlen; [done|].
  cbn [walk]. simpl in Hlen. rewrite (entry_link m P) by eauto. case_bool_decide as Hb.
  - destruct Hb as [<- <-]. rewrite Ht in Hr. simplify_eq. rewrite He. simpl. rewrite Hv. simpl.
    destruct vpn as [|k' vpn]; [simpl in Hlen; lia|]. rewrite Hff. cbn [walk].
    rewrite (entry_link m P) by eauto. rewrite bool_decide_eq_false_2 by naive_solver.
    by rewrite bool_decide_eq_true_2.
  - rewrite bool_decide_eq_false_2 by congruence.
    destruct (entry m r k) as [e1|] eqn:E1; [|done]. simpl.
    destruct (pte_v e1) eqn:Ev; [|done]. simpl. destruct (pte_rwx e1 =? 0) eqn:Er; [|done]. simpl.
    destruct vpn as [|k' vpn]; [done|]. apply (IH _ _ r k); [|simpl in *; lia].
    apply (pw_child _ _ H r l q j); [done|simpl in *; lia|done|by unfold is_table; rewrite Ev, Er].
Qed.

(** ** [map_page] *)

(** The supply holds distinct non-null pages, of physical addresses below [2^56], that
    are not tables yet. *)
Record supply_ok (fs : list Z) (P : ghost) : Prop := {
  so_fresh : Forall (λ f, nonnull f = true ∧ P !! to_ppn f = None) fs;
  so_nodup : NoDup (to_ppn <$> fs);
  so_range : Forall (λ f, ppn_field (to_ppn f) = to_ppn f) fs;
}.

(** The entry the mapping needs is reachable and unused. *)
Fixpoint slot_free (m : ptables) (t : Z) (vpn : list Z) : bool :=
  match vpn with
  | [] => false
  | i :: rest =>
      match entry m t i with
      | None => false
      | Some e =>
          if negb (pte_rwx e =? 0) then false
          else if pte_v e && pte_np e then false
          else if pte_v e then slot_free m (pte_ppn e) rest
          else true
      end
  end.

(** What a walk for mapping leaves behind. *)
Record walked (s : pt) (P : ghost) (s' : pt) (P' : ghost) : Prop := {
  wk_wf : pt_wf (tables s') P';
  wk_supply : supply_ok (frames s') P';
  wk_ghost : P ⊆ P';
  wk_same : ∀ r l q j vpn, P !! r = Some (l, q, j) → (l + length vpn = 3)%nat →
    walk (tables s') r l vpn = walk (tables s) r l vpn;
  wk_keep : ∀ t i e, entry (tables s) t i = Some e → pte_v e = true → entry (tables s') t i = Some e;
}.

Lemma walked_refl s P : pt_wf (tables s) P → supply_ok (frames s) P → walked s P s P.
Proof. intros. by split. Qed.

Lemma supply_next f fs P x : supply_ok (f :: fs) P → supply_ok fs (<[to_ppn f := x]> P).
Proof.
  intros [Hf Hn Hr]. apply Forall_cons in Hf as [_ Hf]. apply Forall_cons in Hr as [_ Hr].
  rewrite fmap_cons in Hn. apply NoDup_cons in Hn as [Hni Hn]. split; [|done|done]. rewrite Forall_forall in *. intros g Hg. destruct (Hf g Hg) as [H1 H2]. split; [done|].
  rewrite lookup_insert_ne; [done|]. intros E. apply Hni. rewrite E. apply list_elem_of_fmap. by exists g.
Qed.

Lemma walked_link s P f fs t i e l q j :
  pt_wf (tables s) P → supply_ok (frames s) P → frames s = f :: fs → P !! t = Some (l, q, j) → (l < 2)%nat →
  entry (tables s) t i = Some e → pte_v e = false →
  walked s P (mkPt (link_table t i (to_ppn f) e (tables s)) fs) (<[to_ppn f := (S l, t, i)]> P).
Proof.
  intros H Hs Hfs Ht Hl He Hv. rewrite Hfs in Hs.
  assert (Hf : P !! to_ppn f = None) by (destruct Hs as [Hf _ _]; by apply Forall_cons in Hf as [[_ ?] _]).
  assert (Hff : ppn_field (to_ppn f) = to_ppn f) by (destruct Hs as [_ _ Hr]; by apply Forall_cons in Hr as [? _]).
  split; simpl.
  - by eapply link_wf.
  - by apply supply_next.
  - by apply insert_subseteq.
  - intros r l0 q0 j0 vpn Hr Hlen. by eapply walk_link.
  - intros t' i' e' He' Hv'. rewrite (entry_link _ P) by eauto.
    rewrite bool_decide_eq_false_2 by (intros [<- <-]; congruence). rewrite bool_decide_eq_false_2; [done|].
    intros ->. assert (Hd : is_Some (tables s !! to_ppn f)).
    { unfold entry in He'. destruct (tables s !! to_ppn f); [eauto|done]. }
    apply (pw_dom _ _ H) in Hd. rewrite Hf in Hd. by destruct Hd.
Qed.

Lemma walked_trans s P s1 P1 s2 P2 : walked s P s1 P1 → walked s1 P1 s2 P2 → walked s P s2 P2.
Proof.
  intros [A1 A2 A3 A4 A5] [B1 B2 B3 B4 B5]. split; try done.
  - by etrans.
  - intros r l q j vpn Hr Hlen. rewrite (B4 r l q j), (A4 r l q j); try done. by eapply lookup_weaken.
  - eauto.
Qed.

(** The target [map_walk] ends at. *)
Definition target_ok (s' : pt) (t : Z) (vpn : list Z) (o : option (Z * Z)) : Prop :=
  match o with
  | Some (t', i) => ∃ vs e, vpn = vs ++ [i] ∧ reach (tables s') t vs t' ∧
                      entry (tables s') t' i = Some e ∧ pte_v e = false ∧ pte_rwx e = 0
  | None => True
  end.

Lemma map_walk_spec vpn t l q j s P :
  pt_wf (tables s) P → supply_ok (frames s) P → P !! t = Some (l, q, j) → (l + length vpn <= 3)%nat →
  ∃ o s' P', map_walk t vpn s = Fin (Ok o) s' ∧ walked s P s' P' ∧ target_ok s' t vpn o ∧
    (slot_free (tables s) t vpn = false → o = None ∧ s' = s) ∧
    (slot_free (tables s) t vpn = true → (length vpn <= S (length (frames s)))%nat → o ≠ None).
Proof.
  revert t l q j s P. induction vpn as [|i rest IH]; intros t l q j s P H Hs Ht Hlen.
  { exists None, s, P. by split_and!; [|apply walked_refl| | |]. }
  simpl in Hlen. destruct (entry_some _ _ _ _ _ _ i H Ht) as [e He].
  cbn [map_walk slot_free]. unfold mbind, M_bind, get_pte. rewrite He.
  destruct (pte_rwx e =? 0) eqn:Er; cbn [negb].
  2: { exists None, s, P. by split_and!; [|apply walked_refl| | |]. }
  destruct (pte_v e) eqn:Ev; cbn [andb].
  - destruct (pte_np e).
    { exists None, s, P. by split_and!; [|apply walked_refl| | |]. }
    assert (Htab : is_table e = true) by (unfold is_table; by rewrite Ev, Er).
    destruct rest as [|k rest].
    { exists None, s, P. by split_and!; [|apply walked_refl| | |]. }
    pose proof (pw_child _ _ H t l q j i e Ht ltac:(simpl in Hlen; lia) He Htab) as Hc.
    destruct (IH _ _ _ _ s P H Hs Hc ltac:(simpl in *; lia)) as (o & s' & P' & E & Hw & Ho & Hf & Hok).
    exists o, s', P'. split_and!; [done|done| |done|].
    + destruct o as [[t' i']|]; [|done]. destruct Ho as (vs & e' & -> & Hr & He' & Hv' & Hw').
      exists (i :: vs), e'. split_and!; try done. econstructor; [|exact Htab|done].
      by apply (wk_keep _ _ _ _ Hw).
    + intros Hsf Hle. apply Hok; [done|]. simpl in *. lia.
  - destruct rest as [|k rest].
    { exists (Some (t, i)), s, P. split; [done|]. split; [by apply walked_refl|].
      split; [exists [], e; split_and!; [done|constructor|done|done|by apply Z.eqb_eq]|]. by split. }
    unfold attempt, new_page. destruct (frames s) as [|f fs] eqn:Efs.
    { exists None, s, P. split; [done|]. split; [apply walked_refl; [done|by rewrite Efs]|].
      split; [done|]. split; [done|]. simpl. lia. }
    rewrite <- Efs in Hs.
    assert (Hnn : nonnull f = true).
    { destruct Hs as [Hf _ _]. rewrite Efs in Hf. by apply Forall_cons in Hf as [[? _] _]. }
    assert (Hff : P !! to_ppn f = None).
    { destruct Hs as [Hf _ _]. rewrite Efs in Hf. by apply Forall_cons in Hf as [[_ ?] _]. }
    assert (Hfr : ppn_field (to_ppn f) = to_ppn f).
    { destruct Hs as [_ _ Hr]. rewrite Efs in Hr. by apply Forall_cons in Hr as [? _]. }
    unfold massert. rewrite Hnn. unfold make_root, put_pte, modify, set_tables. cbn [tables frames].
    fold (link_table t i (to_ppn f) e (tables s)).
    assert (Hl2 : (l < 2)%nat) by (simpl in Hlen; lia).
    pose proof (walked_link s P f fs t i e l q j H Hs Efs Ht Hl2 He Ev) as Hw1.
    set (s1 := mkPt _ fs) in *. set (P1 := <[_ := _]> P) in *.
    destruct (IH (to_ppn f) (S l) t i s1 P1) as (o & s' & P' & E & Hw & Ho & _ & Hok).
    { apply Hw1. } { apply Hw1. } { unfold P1. by rewrite lookup_insert_eq. } { simpl in *; lia. }
    exists o, s', P'. split_and!; [done|by eapply walked_trans| |done|].
    + destruct o as [[t' i']|]; [|done]. destruct Ho as (vs & e' & -> & Hr & He' & Hv' & Hw').
      exists (i :: vs), e'. split_and!; try done.
      apply (reach_cons _ t i (table_pte (to_ppn f) e)); [|done|by simpl; rewrite Hfr].
      apply (wk_keep _ _ _ _ Hw); [|done].
      unfold s1; simpl. rewrite (entry_link _ P) by eauto. by rewrite bool_decide_eq_true_2.
    + intros _ Hle. apply Hok; [|simpl in *; lia].
      cbn [slot_free]. unfold s1; simpl. rewrite (entry_link _ P) by eauto.
      rewrite bool_decide_eq_false_2 by (intros [-> _]; congruence).
      by rewrite bool_decide_eq_true_2.
Qed.

(** The translation of a virtual address under a root: the leaf and its size. *)
Definition translate (s : pt) (root va : Z) : option (Result (PageSize * PTE)) :=
  match walk (tables s) root 0 (make_vpn SZ_4K va) with
  | Some (Ok (_, _, size, e)) => Some (Ok (size, e))
  | Some (Err e) => Some (Err e)
  | None => None
  end.

(** Two addresses in the same page of the given size. *)
Definition same_page (size : PageSize) (va va' : Z) : Prop := make_vpn size va = make_vpn size va'.
#[export] Instance same_page_dec size va va' : Decision (same_page size va va').
Proof. unfold same_page. apply _. Defined.

Definition pt_inv (s : pt) (P : ghost) : Prop := pt_wf (tables s) P ∧ supply_ok (frames s) P.

Lemma vpn_take size va : size ≠ SZ_NULL → make_vpn size va = take (level size) (make_vpn SZ_4K va).
Proof. intros H. by destruct size. Qed.

Lemma vpn_length size va : length (make_vpn size va) = level size.
Proof. by destruct size. Qed.

(** What a walk finds at an entry that points to no table. *)
Definition leaf_result (size : PageSize) (e : PTE) : Result (PageSize * PTE) :=
  if pte_v e then Ok (size, e) else Err PAGE_NOT_PRESENT.

(** Replacing the leaf at the end of the path of [va] changes the translations
    of exactly the addresses in its page. *)
Lemma translate_write s P root size va vs i t e0 e root' va' :
  pt_wf (tables s) P → is_root P root → is_root P root' → size ≠ SZ_NULL →
  make_vpn size va = vs ++ [i] → reach (tables s) root vs t →
  entry (tables s) t i = Some e0 → is_table e0 = false →
  is_table e = false →
  translate (set_tables (write t i e) s) root' va' =
  if bool_decide (root' = root ∧ same_page size va va') then Some (leaf_result size e)
  else translate s root' va'.
Proof.
  intros H Hr Hr' Hsz Hvpn Hreach He0 Hn He. unfold translate. cbn [tables set_tables].
  assert (Hlen : length vs = pred (level size)).
  { pose proof (vpn_length size va) as Hl. rewrite Hvpn, length_app in Hl. simpl in Hl. lia. }
  case_bool_decide as Hb.
  - destruct Hb as [-> Hsame]. unfold same_page in Hsame.
    assert (E : make_vpn SZ_4K va' = vs ++ i :: drop (level size) (make_vpn SZ_4K va')).
    { rewrite <- (take_drop (level size) (make_vpn SZ_4K va')) at 1.
      rewrite <- vpn_take, <- Hsame, Hvpn by done. by rewrite <- app_assoc. }
    rewrite E, (walk_write_hit (tables s) t i e0) by done. cbn [walk].
    rewrite entry_write, bool_decide_eq_true_2.
    2: { split_and!; [done|done|]. unfold entry in He0. destruct (tables s !! t); [eauto|done]. }
    simpl. unfold leaf_result, is_table in *. destruct (pte_v e); [|done]. simpl in *. rewrite He. simpl.
    rewrite Hlen. by destruct size.
  - rewrite walk_write_miss; [done|]. intros vs' rest E Hreach'. apply Hb.
    assert (length vs <= 2)%nat by (rewrite Hlen; destruct size; simpl; lia).
    assert (length vs' <= 2)%nat.
    { pose proof (vpn_length SZ_4K va') as Hl. rewrite E, length_app in Hl. simpl in Hl. lia. }
    destruct (reach_unique _ P root' root vs' vs t H Hr' Hr) as [-> ->]; try done. split; [done|].
    unfold same_page. rewrite Hvpn, (vpn_take size va'), E by done.
    rewrite take_app. rewrite take_ge by lia. f_equal.
    replace (level size - length vs)%nat with 1%nat; [done|]. rewrite Hlen. by destruct size.
Qed.

(** The leaf that [map_page] writes. *)
Record leaf_for (paddr : Z) (flags : PageFlags) (e : PTE) : Prop := {
  lf_v : pte_v e = true;
  lf_rwx : pte_rwx e = rwx_cast (f_rwx flags);
  lf_u : pte_u e = f_u flags;
  lf_g : pte_g e = f_g flags;
  lf_np : pte_np e = negb (f_p flags);
  lf_ppn : pte_ppn e = ppn_field (to_ppn paddr);
  lf_dirty : pte_d e = page_is_writable (f_rwx flags);
  lf_rsw : pte_rsw e = 0;
}.

Lemma rwx_cast_range x : rwx_cast x = 0 ∨ rwx_cast x ∈ [1; 2; 3; 4; 5; 7].
Proof.
  unfold rwx_cast.
  destruct (Z.eqb_spec x 1), (Z.eqb_spec x 2), (Z.eqb_spec x 3), (Z.eqb_spec x 4), (Z.eqb_spec x 5),
    (Z.eqb_spec x 7); subst; simpl; try (by left); right; set_solver.
Qed.

Lemma leaf_pte_for paddr flags e : pte_rwx e = 0 → leaf_for paddr flags (leaf_pte paddr flags e).
Proof.
  intros He. split; try done. unfold leaf_pte, modify_pte. cbn [pte_rwx]. rewrite He.
  change (negb (to_rwx_mask MOD_ALL =? 0)) with true. cbv iota.
  change (to_rwx_mask MOD_ALL) with (Z.ones 3). rewrite Z.land_0_l, Z.lor_0_l, Z.land_ones by lia.
  apply Z.mod_small. destruct (rwx_cast_range (f_rwx flags)) as [->|Hin]; [done|].
  rewrite !elem_of_cons, elem_of_nil in Hin. change (2 ^ 3) with 8. lia.
Qed.

(** Every translation of every address space: the page of [va] under [root]
    now gives [r], all others are unchanged. *)
Definition remapped (s : pt) (P : ghost) (root : Z) (size : PageSize) (va : Z)
    (r : Result (PageSize * PTE)) (s' : pt) : Prop :=
  ∀ root' va', is_root P root' →
    translate s' root' va' =
    if bool_decide (root' = root ∧ same_page size va va') then Some r else translate s root' va'.
Definition unchanged (s : pt) (P : ghost) (s' : pt) : Prop :=
  ∀ root' va', is_root P root' → translate s' root' va' = translate s root' va'.

Lemma walked_unchanged s P s' P' : walked s P s' P' → unchanged s P s'.
Proof.
  intros Hw root' va' (q & j & Hr). unfold translate.
  by rewrite (wk_same _ _ _ _ Hw root' 0 q j).
Qed.

Lemma set_leaf_inv s P t i e0 e :
  pt_inv s P → entry (tables s) t i = Some e0 → is_table e = false →
  pt_inv (set_tables (write t i e) s) P.
Proof. intros [H Hs] He0 He. split; [|done]. by eapply write_leaf_wf. Qed.

Lemma map_page_run s P root size va paddr flags :
  pt_inv s P → is_root P root → size ≠ SZ_NULL → rwx_cast (f_rwx flags) ≠ 0 →
  ∃ s' P', map_page size root va paddr flags s = Fin (Ok tt) s' ∧ pt_inv s' P' ∧ P ⊆ P' ∧
    (unchanged s P s' ∨ ∃ e, leaf_for paddr flags e ∧ remapped s P root size va (Ok (size, e)) s') ∧
    (slot_free (tables s) root (make_vpn size va) = false → s' = s) ∧
    (slot_free (tables s) root (make_vpn size va) = true → (level size <= S (length (frames s)))%nat →
     ∃ e, leaf_for paddr flags e ∧ remapped s P root size va (Ok (size, e)) s').
Proof.
  intros [H Hs] Hroot Hsz Hrwx. pose proof Hroot as (q & j & Hr).
  destruct (map_walk_spec (make_vpn size va) root 0 q j s P H Hs Hr) as (o & s1 & P1 & E & Hw & Ho & Hf & Hok).
  { rewrite vpn_length. by destruct size; simpl; lia. }
  rewrite vpn_length in Hok. pose proof (walked_unchanged _ _ _ _ Hw) as Hun.
  unfold map_page, mbind, M_bind. rewrite E. destruct o as [[t i]|].
  2: { exists s1, P1. split; [done|]. split; [by split; apply Hw|]. split; [apply Hw|].
       split; [by left|]. split; [by intros [_ ?]%Hf|]. intros H1 H2. by destruct (Hok H1 H2). }
  destruct Ho as (vs & e & Hvpn & Hreach & He & Hv & Hw0).
  unfold get_pte. rewrite He. set (leaf := leaf_pte paddr flags e).
  pose proof (leaf_pte_for paddr flags e Hw0) as Hleaf. fold leaf in Hleaf.
  assert (Hnt : is_table leaf = false).
  { unfold is_table. rewrite (lf_rwx _ _ _ Hleaf), (proj2 (Z.eqb_neq _ 0)) by done. apply andb_false_r. }
  assert (Hnt0 : is_table e = false) by (unfold is_table; by rewrite Hv).
  assert (Hmap : ∃ e, leaf_for paddr flags e ∧
            remapped s P root size va (Ok (size, e)) (set_tables (write t i leaf) s1)).
  { exists leaf. split; [done|]. intros root' va' Hr'.
    assert (Hsub : ∀ x, is_root P x → is_root P1 x).
    { intros x (qx & jx & Hx). exists qx, jx. eapply lookup_weaken; [exact Hx|apply Hw]. }
    rewrite (translate_write s1 P1 root size va vs i t e leaf) by (try done; try apply Hw; by apply Hsub).
    unfold leaf_result. rewrite (lf_v _ _ _ Hleaf). case_bool_decide; [done|]. by apply Hun. }
  exists (set_tables (write t i leaf) s1), P1. split; [done|].
  split; [eapply set_leaf_inv; [split; apply Hw|exact He|done]|]. split; [apply Hw|].
  split; [by right|]. split; [by intros [? _]%Hf|]. by intros _ _.
Qed.

(** C33: mapping.  [map_page] never panics and keeps the tables a forest.  When the
    slot is free and the supply has a page for each missing table, every address
    of the page at [va] translates to the new leaf (physical page, permissions,
    user, global and presence flags as requested) and no other translation, of
    this or of any other address space, changes.  When the slot is taken the
    tables are untouched; when the supply runs out, no translation changes. *)
Theorem sv39_map_page_spec s P root size va paddr flags :
  pt_inv s P → is_root P root → size ≠ SZ_NULL → rwx_cast (f_rwx flags) ≠ 0 →
  ∃ s' P', map_page size root va paddr flags s = Fin (Ok tt) s' ∧ pt_inv s' P' ∧ P ⊆ P' ∧
    (unchanged s P s' ∨ ∃ e, leaf_for paddr flags e ∧ remapped s P root size va (Ok (size, e)) s') ∧
    (slot_free (tables s) root (make_vpn size va) = false → s' = s) ∧
    (slot_free (tables s) root (make_vpn size va) = true → (level size <= S (length (frames s)))%nat →
     ∃ e, leaf_for paddr flags e ∧ remapped s P root size va (Ok (size, e)) s').
Proof. apply map_page_run. Qed.

Lemma walk_total m P r l q j vpn :
  pt_wf m P → P !! r = Some (l, q, j) → (l + length vpn <= 3)%nat → walk m r l vpn ≠ None.
Proof.
  intros H. revert r l q j. induction vpn as [|i vpn IH]; intros r l q j Hr Hlen; cbn [walk]; [done|].
  destruct (entry_some _ _ _ _ _ _ i H Hr) as [e He]. rewrite He. simpl.
  destruct (pte_v e) eqn:Ev; [|done]. simpl. destruct (pte_rwx e =? 0) eqn:Er; [|done]. simpl.
  destruct vpn as [|k vpn]; [done|]. simpl in Hlen. apply (IH _ _ r i); [|simpl; lia].
  apply (pw_child _ _ H r l q j); [done|lia|done|by unfold is_table; rewrite Ev, Er].
Qed.

(** A successful walk names its path. *)
Lemma walk_found m r l vpn t i size e :
  walk m r l vpn = Some (Ok (t, i, size, e)) →
  ∃ vs rest, vpn = vs ++ i :: rest ∧ reach m r vs t ∧ entry m t i = Some e ∧
    pte_v e = true ∧ pte_rwx e ≠ 0 ∧ size = size_of_level (l + length vs).
Proof.
  revert r l. induction vpn as [|k vpn IH]; intros r l; cbn [walk]; [done|].
  destruct (entry m r k) as [e1|] eqn:E1; [|done]. simpl.
  destruct (pte_v e1) eqn:Ev; [|done]. simpl. destruct (Z.eqb_spec (pte_rwx e1) 0) as [Er|Er]; simpl.
  - intros Hwk. destruct (IH _ _ Hwk) as (vs & rest & -> & Hr & He & Hv & Hx & ->).
    exists (k :: vs), rest. split_and!; try done.
    + econstructor; [exact E1| |done]. unfold is_table. by rewrite Ev, (proj2 (Z.eqb_eq _ 0)).
    + by replace (l + length (k :: vs))%nat with (S l + length vs)%nat by (simpl; lia).
  - intros [= <- <- <- <-]. exists [], vpn. split_and!; try done; [constructor|]. simpl. by rewrite Nat.add_0_r.
Qed.

(** Overwriting a leaf that a walk found. *)
Lemma put_leaf_run s P root va t i size e e' :
  pt_inv s P → is_root P root → walk (tables s) root 0 (make_vpn SZ_4K va) = Some (Ok (t, i, size, e)) →
  is_table e' = false →
  pt_inv (set_tables (write t i e') s) P ∧
  remapped s P root size va (leaf_result size e') (set_tables (write t i e') s).
Proof.
  intros H Hroot E He'. apply walk_found in E as (vs & rest & Hvpn & Hreach & He & Hv & Hrwx & ->). simpl.
  assert (Hl : (length vs <= 2)%nat).
  { pose proof (vpn_length SZ_4K va) as Hl. rewrite Hvpn, length_app in Hl. simpl in Hl. lia. }
  set (size := size_of_level (length vs)).
  assert (Hlev : level size = S (length vs)).
  { unfold size. destruct (length vs) as [|[|[|n]]]; try done; lia. }
  assert (Hsz : size ≠ SZ_NULL) by (unfold size; by destruct (length vs) as [|[|]]).
  assert (Hnt : is_table e = false).
  { unfold is_table. rewrite (proj2 (Z.eqb_neq _ 0)) by done. apply andb_false_r. }
  split; [by eapply set_leaf_inv|]. intros root' va' Hr'.
  rewrite (translate_write s P root size va vs i t e e'); try done; [apply H|].
  rewrite vpn_take, Hvpn, Hlev by done. rewrite take_app, take_ge by lia.
  by replace (S (length vs) - length vs)%nat with 1%nat by lia.
Qed.

Lemma unmap_page_run s P root va :
  pt_inv s P → is_root P root →
  ∃ s', unmap_page root va s = Fin (Ok tt) s' ∧ pt_inv s' P ∧
    match translate s root va with
    | Some (Ok (size, _)) => remapped s P root size va (Err PAGE_NOT_PRESENT) s'
    | Some (Err _) => s' = s
    | None => False
    end.
Proof.
  intros H Hroot. pose proof Hroot as (q & j & Hr). unfold unmap_page, mbind, M_bind, attempt, query_page, translate.
  destruct (walk (tables s) root 0 (make_vpn SZ_4K va)) as [[[[[t i] size] e]|x]|] eqn:E.
  - destruct (put_leaf_run s P root va t i size e pte0 H Hroot E) as [Hi Hr']; [done|]. eexists. by split.
  - by exists s.
  - exfalso. revert E. apply (walk_total _ P _ _ q j); [apply H|done|by rewrite vpn_length].
Qed.

(** Unmapping.  [unmap_page] makes every address of the page that holds [va]
    (whatever its size) not present and changes no other translation, in no
    address space; where nothing is mapped it changes nothing. *)
Theorem sv39_unmap_page_spec s P root va :
  pt_inv s P → is_root P root →
  ∃ s', unmap_page root va s = Fin (Ok tt) s' ∧ pt_inv s' P ∧
    match translate s root va with
    | Some (Ok (size, _)) => remapped s P root size va (Err PAGE_NOT_PRESENT) s'
    | Some (Err _) => s' = s
    | None => False
    end.
Proof. apply unmap_page_run. Qed.

(** The page counter of [modify_range_flags] wraps.  Asked to change one 4 KiB
    page that lies in a 2 MiB page, it changes that page's leaf and then goes on
    behind it with 2^64 - 511 pages to go, until it meets an address that is not
    mapped: mappings outside the range lose or gain permissions. *)
Theorem sv39_modify_range_overruns s root va t i e k modifier flags :
  is_u64 va → va mod PAGESIZE = 0 → va + psize SZ_2M < W64 →
  walk (tables s) root 0 (make_vpn SZ_4K va) = Some (Ok (t, i, SZ_2M, e)) →
  modify_range_flags (S k) modifier root va PAGESIZE flags s =
  modify_range_loop k modifier root (va + psize SZ_2M) (W64 - 511) flags
    (set_tables (write t i (modify_pte modifier flags e)) s).
Proof.
  intros Hva Hal Hlim E. unfold modify_range_flags. rewrite page_align_down_idem by done.
  change (page_align_up PAGESIZE / PAGESIZE) with 1. cbn [modify_range_loop]. change (0 <? 1) with true.
  cbn [negb]. unfold modify_flags, mbind, M_bind, attempt, query_page. rewrite E.
  unfold put_pte, modify, mret, M_ret. cbv beta iota. f_equal.
  - apply wrap64_small. unfold is_u64, psize in *. lia.
Qed.

(** ** Witnesses: two empty roots (pages 1 and 2) and five spare pages. *)
Module Sv39Witness.
Definition rw : PageFlags := mkFlags 3 true false true.
Definition ro : PageFlags := mkFlags 1 true false true.
Definition ex_pt : pt := mkPt (<[1 := ∅]> {[2 := ∅]}) [0x3000; 0x4000; 0x5000; 0x6000; 0x7000].
Definition ex_ghost : ghost := <[1 := (0%nat, 0, 0)]> {[2 := (0%nat, 0, 0)]}.

Definition state_of {A} (o : outcome pt A) : pt := match o with Fin _ s => s | _ => ex_pt end.
(** A 2 MiB page at 1 GiB and a 4 KiB page right behind it. *)
Definition ex_mapped : pt :=
  state_of ((_ ← map_page SZ_2M 1 0x40000000 0x80000000 rw;
             map_page SZ_4K 1 0x40200000 0x90000000 rw) ex_pt).

Lemma ex_entry t i e : entry (tables ex_pt) t i = Some e → e = pte0.
Proof.
  unfold entry. simpl. destruct (decide (t = 1)) as [->|].
  - rewrite lookup_insert_eq. simpl. rewrite lookup_empty. by intros [= <-].
  - rewrite lookup_insert_ne by done. destruct (decide (t = 2)) as [->|].
    + rewrite lookup_singleton_eq. simpl. rewrite lookup_empty. by intros [= <-].
    + by rewrite lookup_singleton_ne.
Qed.

Lemma sv39_ex_inv : pt_inv ex_pt ex_ghost.
Proof.
  split; [split|split].
  - intros t. simpl. unfold ex_ghost. destruct (decide (t = 1)) as [->|]; [by rewrite !lookup_insert_eq; split; eauto|].
    rewrite !lookup_insert_ne by done. destruct (decide (t = 2)) as [->|];
      [by rewrite !lookup_singleton_eq; split; eauto|by rewrite !lookup_singleton_ne by done].
  - intros t l q j. unfold ex_ghost. intros [[_ [= <- <- <-]]|[_ Hx]]%lookup_insert_Some; [lia|].
    apply lookup_singleton_Some in Hx as [_ [= <- <- <-]]. lia.
  - intros t l q j i e _ _ He. apply ex_entry in He as ->. done.
  - repeat constructor.
  - vm_compute. repeat constructor; set_solver.
  - repeat constructor.
Qed.

Lemma ex_root : is_root ex_ghost 1.
Proof. by exists 0, 0. Qed.

Lemma sv39_map_page_spec_witness :
  ∃ s' P', map_page SZ_2M 1 0x40000000 0x80000000 rw ex_pt = Fin (Ok tt) s' ∧ pt_inv s' P' ∧
    ex_ghost ⊆ P' ∧
    ∃ e, leaf_for 0x80000000 rw e ∧ remapped ex_pt ex_ghost 1 SZ_2M 0x40000000 (Ok (SZ_2M, e)) s'.
Proof.
  destruct (sv39_map_page_spec ex_pt ex_ghost 1 SZ_2M 0x40000000 0x80000000 rw sv39_ex_inv ex_root)
    as (s' & P' & E & Hi & Hsub & _ & _ & Hok); [discriminate|discriminate|].
  exists s', P'. split; [exact E|]. split; [exact Hi|]. split; [exact Hsub|].
  apply Hok; [vm_compute; reflexivity|simpl; lia].
Defined.

Lemma sv39_unmap_page_spec_witness :
  ∃ s', unmap_page 1 0x40000000 ex_pt = Fin (Ok tt) s' ∧ pt_inv s' ex_ghost ∧ s' = ex_pt.
Proof.
  destruct (sv39_unmap_page_spec ex_pt ex_ghost 1 0x40000000 sv39_ex_inv ex_root) as (s' & E & Hi & Hs).
  exists s'. split; [exact E|]. split; [exact Hi|]. exact Hs.
Defined.

(** Making one page of the 2 MiB page read-only also makes the page behind it
    read-only. *)
Lemma sv39_modify_range_overruns_witness :
  ∃ e s', modify_range_flags 4 MOD_RWX 1 0x40000000 PAGESIZE ro ex_mapped = Fin (Ok tt) s' ∧
    translate s' 1 0x40200000 = Some (Ok (SZ_4K, e)) ∧ pte_rwx e = 1.
Proof.
  set (e := mkPTE true 3 true false true true 0 0x80000 0 0 false).
  rewrite (sv39_modify_range_overruns ex_mapped 1 0x40000000 3 0 e 3 MOD_RWX ro);
    [|unfold is_u64, W64; lia|reflexivity|reflexivity|vm_compute; reflexivity].
  eexists _, _. split; [vm_compute; reflexivity|]. split; vm_compute; reflexivity.
Defined.
End Sv39Witness.

End Sv39.
