(* ===== verification/Vma.v ===== *)
(** * Address spaces

    [TaskMemoryManager] of kernel/mem/vma.h and vma.cpp: the virtual memory areas
    of a task, the page tables behind them and the page-fault handlers; and
    [MemoryObject] of kernel/object/memory.cpp, the permission checks around
    mapping a memory object.

    The state joins the address spaces, the page tables ([Sv39]), the memory
    objects ([Memory]) and the reference counts [keep] and [release] of
    kernel/cap/capability.h maintain for each payload.  A VMA is a record with an
    identity, standing for the pointer; an address space holds its VMAs in list
    order.  A dangling pointer panics.  The TLB flushes have no effect in the
    model. *)
From S2P Require Import Prelude ErrCode Addr Buddy Gfp Memory Sv39.

Module Vma.
#[local] Existing Instance Sv39.PageSize_eq_dec.

(** ** Data *)

Inductive Type_ := T_NONE | T_CODE | T_DATA | T_STACK | T_HEAP | T_SHARE.

Definition PROT_R : Z := 1.
Definition PROT_W : Z := 2.
Definition PROT_X : Z := 4.
Definition PROT_SHARE : Z := 8.

Definition prot_to_rwx (prot : Z) : Z :=
  let readable := negb (Z.land prot PROT_R =? 0) in
  let writable := negb (Z.land prot PROT_W =? 0) in
  let executable := negb (Z.land prot PROT_X =? 0) in
  if readable && writable && executable then 7
  else if readable && writable then 3
  else if readable && executable then 5
  else if readable then 1 else 0.

Definition rwx_to_prot (rwx : Z) (shared : bool) : Z :=
  Z.lor (if Sv39.flag_and rwx Sv39.RWX_R then PROT_R else 0)
    (Z.lor (if Sv39.flag_and rwx Sv39.RWX_W then PROT_W else 0)
      (Z.lor (if Sv39.flag_and rwx Sv39.RWX_X then PROT_X else 0)
        (if shared then PROT_SHARE else 0))).
Definition sharable (prot : Z) : bool := negb (Z.land prot PROT_SHARE =? 0).
Definition cowable (prot : Z) : bool := negb (sharable prot).

Record VMA := mkVMA {
  vid : Z;
  vtype : Type_;
  vgrowth : Z;
  vmemory : Z;
  vprot : Z;
  mem_offset : Z;
  varea : Range
}.
Definition set_varea r v := mkVMA (vid v) (vtype v) (vgrowth v) (vmemory v) (vprot v) (mem_offset v) r.
Definition set_mem_offset o v := mkVMA (vid v) (vtype v) (vgrowth v) (vmemory v) (vprot v) o (varea v).
Definition vsize (v : VMA) : Z := rsize (varea v).

Record TM := mkTM { vma_list : list VMA; pgd : Z }.

Definition less_by_begin (l r : VMA) : bool := rbegin (varea l) <? rbegin (varea r).
Definition valid_user_area (a : Range) : bool :=
  (rbegin a <=? rend a) && is_user_vaddr (rbegin a) && is_user_vaddr (rend a).
Definition page_inner_area (a : Range) : Range :=
  let b := page_align_up (rbegin a) in
  let e := page_align_down (rend a) in
  if e <=? b then {| rbegin := b; rend := b |} else {| rbegin := b; rend := e |}.
Definition page_outer_area (a : Range) : Range :=
  if nullable a then {| rbegin := rbegin a; rend := rbegin a |}
  else {| rbegin := page_align_down (rbegin a); rend := page_align_up (rend a) |}.
Definition memory_offset_for_page (v : VMA) (aligned_vaddr : Z) : Z :=
  if aligned_vaddr <=? rbegin (varea v) then mem_offset v
  else add64 (mem_offset v) (sub64 aligned_vaddr (rbegin (varea v))).

(** [within(area, vaddr)], or an empty area that starts there. *)
Definition holds (v : VMA) (vaddr : Z) : bool :=
  within (varea v) vaddr || ((rsize (varea v) =? 0) && (rbegin (varea v) =? vaddr)).

(** The list insertion of [add_vma]: before the first VMA that starts later. *)
Fixpoint insert_vma (v : VMA) (l : list VMA) : list VMA :=
  match l with
  | [] => [v]
  | w :: l => if rbegin (varea v) <? rbegin (varea w) then v :: w :: l else w :: insert_vma v l
  end.

(** The loops of the lookups, all over the list from its front. *)
Definition locate_in (l : list VMA) (vaddr : Z) : Result VMA :=
  match List.find (λ v, holds v vaddr) l with Some v => Ok v | None => Err ENTRY_NOT_FOUND end.
Definition locate_range_in (l : list VMA) (a : Range) : Result VMA :=
  match List.find (λ v, is_intersecting (varea v) a) l with Some v => Ok v | None => Err ENTRY_NOT_FOUND end.
Definition locate_memory_in (l : list VMA) (memory vaddr : Z) : Result VMA :=
  match List.find (λ v, (vmemory v =? memory) && holds v vaddr) l with
  | Some v => Ok v | None => Err ENTRY_NOT_FOUND end.

(** [perm::memory] *)
Module perm.
Definition MAP : Z := 0x010000.
Definition READ : Z := 0x020000.
Definition WRITE : Z := 0x040000.
Definition EXEC : Z := 0x080000.
Definition RESIZE : Z := 0x100000.
Definition QUERY : Z := 0x200000.
Definition FLEXUP : Z := 0x400000.
Definition FLEXDOWN : Z := 0x800000.
End perm.

Section vma.
Context {G F : Type} `{Memory.PageFrames G} `{Memory.VFileOps F}.

Record vm := mkVm {
  spaces : gmap Z TM;
  pts : Sv39.pt;
  objs : Memory.mstate G F;
  keeps : gmap Z Z;
  next_vma : Z
}.
Definition set_spaces f s := mkVm (f (spaces s)) (pts s) (objs s) (keeps s) (next_vma s).
Definition set_pts x s := mkVm (spaces s) x (objs s) (keeps s) (next_vma s).
Definition set_objs x s := mkVm (spaces s) (pts s) x (keeps s) (next_vma s).
Definition set_keeps f s := mkVm (spaces s) (pts s) (objs s) (f (keeps s)) (next_vma s).
Definition set_next_vma x s := mkVm (spaces s) (pts s) (objs s) (keeps s) x.

Definition with_pt {A} (m : M Sv39.pt A) : M vm A := λ s,
  match m (pts s) with
  | Fin r x => Fin r (set_pts x s) | Panic => Panic | OutOfFuel => OutOfFuel
  end.
Definition with_mem {A} (m : M (Memory.mstate G F) A) : M vm A := λ s,
  match m (objs s) with
  | Fin r x => Fin r (set_objs x s) | Panic => Panic | OutOfFuel => OutOfFuel
  end.
Definition get_tm (t : Z) : M vm TM := λ s,
  match spaces s !! t with Some x => Fin (Ok x) s | None => Panic end.
Definition set_list (t : Z) (f : list VMA → list VMA) : M vm unit :=
  modify (set_spaces (alter (λ x, mkTM (f (vma_list x)) (pgd x)) t)).
Definition memory_of (m : Z) : M vm Memory.MemoryPayload := with_mem (Memory.get_mem m).

(** [Payload::keep] and [release]; the payload of the last holder is destroyed. *)
Definition keep (m : Z) : M vm unit := modify (set_keeps (λ k, <[m := add64 (default 0 (k !! m)) 1]> k)).
Definition release (m : Z) : M vm unit :=
  n ← gets (λ s, default 0 (keeps s !! m));
  _ ← massert (0 <? n);
  _ ← modify (set_keeps <[m := n - 1]>);
  if n - 1 =? 0 then with_mem (Memory.destruct_memory m) else mret tt.

Definition vma_of (t id : Z) : M vm (option VMA) :=
  x ← get_tm t; mret (List.find (λ v, vid v =? id) (vma_list x)).
Definition update_vma (t id : Z) (f : VMA → VMA) : M vm unit :=
  set_list t (fmap (λ v, if vid v =? id then f v else v)).

(** [__check_vma]: the VMA belongs to this address space.  A VMA of no address
    space is a dangling pointer. *)
Definition check_vma (t id : Z) : M vm VMA :=
  o ← vma_of t id;
  match o with
  | Some v => mret v
  | None =>
      elsewhere ← gets (λ s, existsb (λ x, existsb (λ v, vid v =? id) (vma_list x)) (map_to_list (spaces s)).*2);
      if (elsewhere : bool) then fail INVALID_PARAM else panic
  end.

(** ** Page tables *)

Fixpoint unmap_pages_loop (k : nat) (i root b : Z) : M vm unit :=
  match k with
  | O => mret tt
  | S k =>
      let vaddr := add64 b (mul64 i PAGESIZE) in
      q ← attempt (with_pt (Sv39.query_page root vaddr));
      _ ← match q with
          | Err _ => mret tt
          | Ok _ => with_pt (Sv39.unmap_page root vaddr)
          end;
      unmap_pages_loop k (i + 1) root b
  end.
Definition unmap_pages (t : Z) (a : Range) : M vm unit :=
  let map_area := page_outer_area a in
  if nullable map_area then mret tt
  else
    x ← get_tm t;
    unmap_pages_loop (Z.to_nat (rsize map_area / PAGESIZE)) 0 (pgd x) (rbegin map_area).

(** ** Areas *)

Definition locate (t vaddr : Z) : M vm VMA := x ← get_tm t; of_result (locate_in (vma_list x) vaddr).
Definition locate_range (t : Z) (a : Range) : M vm VMA :=
  x ← get_tm t; of_result (locate_range_in (vma_list x) a).
Definition locate_memory (t memory vaddr : Z) : M vm VMA :=
  x ← get_tm t; of_result (locate_memory_in (vma_list x) memory vaddr).

Definition add_vma (t : Z) (type : Type_) (growth : Z) (a : Range) (memory prot offset : Z) : M vm Z :=
  if memory =? 0 then fail NULLPTR
  else if negb (valid_user_area a) then fail INVALID_PARAM
  else
    x ← get_tm t;
    if negb (nullable a) && has_value (locate_range_in (vma_list x) a) then fail BUSY
    else
      id ← gets next_vma;
      _ ← modify (λ s, set_next_vma (id + 1) s);
      _ ← keep memory;
      _ ← set_list t (insert_vma (mkVMA id type growth memory prot offset a));
      mret id.

Definition clone_vma (t id dst : Z) : M vm Z :=
  v ← check_vma t id;
  add_vma dst (vtype v) (vgrowth v) (varea v) (vmemory v) (vprot v) (mem_offset v).

Definition remove_vma (t id : Z) : M vm unit :=
  v ← check_vma t id;
  _ ← unmap_pages t (varea v);
  _ ← set_list t (filter (λ w, vid w ≠ id));
  release (vmemory v).

(** One round of [remove_vma_range] for the VMA [id]. *)
Definition cut_vma (t : Z) (a : Range) (id : Z) : M vm unit :=
  o ← vma_of t id;
  match o with
  | None => panic
  | Some v =>
      let old := varea v in
      if negb (is_intersecting old a) then mret tt
      else
        let cut_begin := if rbegin old <? rbegin a then rbegin a else rbegin old in
        let cut_end := if rend a <? rend old then rend a else rend old in
        if cut_end <=? cut_begin then mret tt
        else
          let cut := {| rbegin := cut_begin; rend := cut_end |} in
          let cut_offset := sub64 cut_begin (rbegin old) in
          let cut_size := sub64 cut_end cut_begin in
          if (cut_begin =? rbegin old) && (cut_end =? rend old) then remove_vma t id
          else if cut_begin =? rbegin old then
            _ ← unmap_pages t cut;
            update_vma t id (λ v, set_mem_offset (add64 (mem_offset v) cut_size)
                                    (set_varea {| rbegin := cut_end; rend := rend old |} v))
          else if cut_end =? rend old then
            _ ← unmap_pages t cut;
            update_vma t id (set_varea {| rbegin := rbegin old; rend := cut_begin |})
          else
            _ ← keep (vmemory v);
            _ ← unmap_pages t cut;
            _ ← update_vma t id (set_varea {| rbegin := rbegin old; rend := cut_begin |});
            r ← attempt (add_vma t (vtype v) (vgrowth v) {| rbegin := cut_end; rend := rend old |} (vmemory v)
                   (vprot v) (add64 (add64 (mem_offset v) cut_offset) cut_size));
            _ ← release (vmemory v);
            match r with Ok _ => mret tt | Err e => fail e end
  end.
Fixpoint cut_loop (t : Z) (a : Range) (ids : list Z) : M vm unit :=
  match ids with
  | [] => mret tt
  | id :: ids => _ ← cut_vma t a id; cut_loop t a ids
  end.
Definition remove_vma_range (t : Z) (a : Range) : M vm unit :=
  if nullable a then mret tt
  else if negb (valid_user_area a) then fail INVALID_PARAM
  else x ← get_tm t; cut_loop t a (vid <$> vma_list x).

Definition grow_vma (t id : Z) (a : Range) : M vm Range :=
  target ← check_vma t id;
  if negb (valid_user_area a) then fail INVALID_PARAM
  else
    let old := varea target in
    if range_eqb a old then mret old
    else
      let grow_up := (rbegin a =? rbegin old) && (rend old <? rend a) in
      let shrink_up := (rbegin a =? rbegin old) && (rend a <? rend old) in
      let grow_down := (rend a =? rend old) && (rbegin a <? rbegin old) in
      let shrink_down := (rend a =? rend old) && (rbegin old <? rbegin a) in
      let may := Memory.growth_and (vgrowth target) in
      if grow_up && negb (may Memory.MemoryGrowth.GROW_UP) then fail NOT_SUPPORTED
      else if shrink_up && negb (may Memory.MemoryGrowth.SHRINK_UP) then fail NOT_SUPPORTED
      else if grow_down && negb (may Memory.MemoryGrowth.GROW_DOWN) then fail NOT_SUPPORTED
      else if shrink_down && negb (may Memory.MemoryGrowth.SHRINK_DOWN) then fail NOT_SUPPORTED
      else if negb grow_up && negb shrink_up && negb grow_down && negb shrink_down then fail INVALID_PARAM
      else
        x ← get_tm t;
        if negb (nullable a) &&
           existsb (λ w, negb (vid w =? id) && is_intersecting (varea w) a) (vma_list x)
        then fail BUSY
        else
          _ ← (if shrink_up then
                 let u := page_inner_area {| rbegin := rend a; rend := rend old |} in
                 if nullable u then mret tt else unmap_pages t u
               else if shrink_down then
                 let u := page_inner_area {| rbegin := rbegin old; rend := rbegin a |} in
                 if nullable u then mret tt else unmap_pages t u
               else mret tt);
          _ ← update_vma t id (set_varea a);
          mret a.

Definition has_memory_mapping (t memory : Z) : M vm bool :=
  x ← get_tm t; mret (existsb (λ v, vmemory v =? memory) (vma_list x)).

(** ** Following a change of the memory's size *)

Fixpoint tail_loop (t memory new_size : Z) (ids : list Z) : M vm unit :=
  match ids with
  | [] => mret tt
  | id :: ids =>
      o ← vma_of t id;
      match o with
      | None => panic
      | Some v =>
          _ ← (if negb (vmemory v =? memory) then mret tt
               else
                 let k := if mem_offset v <? new_size then new_size - mem_offset v else 0 in
                 let new_end := add64 (rbegin (varea v)) (if k <? vsize v then k else vsize v) in
                 if new_end <? rend (varea v) then
                   _ ← unmap_pages t {| rbegin := new_end; rend := rend (varea v) |};
                   update_vma t id (set_varea {| rbegin := rbegin (varea v); rend := new_end |})
                 else mret tt);
          tail_loop t memory new_size ids
      end
  end.
Definition unmap_memory_tail (t memory new_size : Z) : M vm unit :=
  x ← get_tm t; tail_loop t memory new_size (vid <$> vma_list x).

Fixpoint sync_loop (t memory : Z) (ids : list Z) : M vm unit :=
  match ids with
  | [] => mret tt
  | id :: ids =>
      o ← vma_of t id;
      match o with
      | None => panic
      | Some v =>
          if negb (vmemory v =? memory) then sync_loop t memory ids
          else
            p ← memory_of memory;
            let sz := if mem_offset v <? Memory.memsz p then Memory.memsz p - mem_offset v else 0 in
            let old := varea v in
            let new := if Memory.growth_and (vgrowth v) Memory.MemoryGrowth.GROW_DOWN
                       then {| rbegin := sub64 (rend old) sz; rend := rend old |}
                       else {| rbegin := rbegin old; rend := add64 (rbegin old) sz |} in
            _ ← grow_vma t id new;
            sync_loop t memory ids
      end
  end.
Definition sync_memory_vmas (t memory : Z) : M vm unit :=
  x ← get_tm t; sync_loop t memory (vid <$> vma_list x).

(** ** Queries *)

Definition cloned_memory_for (t source dst : Z) : M vm Z :=
  x ← get_tm t;
  match List.find (λ v, vmemory v =? source) (vma_list x) with
  | None => fail ENTRY_NOT_FOUND
  | Some v => w ← locate_range dst (varea v); mret (vmemory w)
  end.

Record VMAQueryResult := mkQuery {
  q_type : Type_; q_prot : Z; q_start : Z; q_size : Z; q_mem_cap : Z
}.
Definition query_of (v : VMA) (mem_cap : Z) : VMAQueryResult :=
  mkQuery (vtype v) (vprot v) (rbegin (varea v)) (vsize v) mem_cap.
Definition query_vaddr (t vaddr mem_cap : Z) : M vm VMAQueryResult :=
  v ← locate t vaddr; mret (query_of v mem_cap).
Definition query_vspace (t offset max_entries : Z) (resolver : VMA → Z) : M vm (list VMAQueryResult) :=
  x ← get_tm t;
  mret ((λ v, query_of v (resolver v)) <$> take (Z.to_nat max_entries) (drop (Z.to_nat offset) (vma_list x))).

(** ** Copy on write *)

Definition put_leaf (tb i : Z) (e : Sv39.PTE) : M vm unit := with_pt (Sv39.put_pte tb i e).

(** The page loop of [protect_memory_cow]. *)
Fixpoint protect_loop (k : nat) (i root b : Z) : M vm unit :=
  match k with
  | O => mret tt
  | S k =>
      let vaddr := add64 b (mul64 i PAGESIZE) in
      q ← attempt (with_pt (Sv39.query_page root vaddr));
      match q with
      | Err e => if bool_decide (e = PAGE_NOT_PRESENT) then protect_loop k (i + 1) root b else fail e
      | Ok (tb, ix, size, e) =>
          if negb (bool_decide (size = Sv39.SZ_4K)) then fail NOT_SUPPORTED
          else
            let rwx := Sv39.rwx_of e in
            _ ← (if Sv39.page_is_writable rwx then put_leaf tb ix (Sv39.protect_cow rwx e) else mret tt);
            protect_loop k (i + 1) root b
      end
  end.
Fixpoint protect_vmas (root memory : Z) (l : list VMA) : M vm unit :=
  match l with
  | [] => mret tt
  | v :: l =>
      _ ← (if negb (vmemory v =? memory) then mret tt
           else let a := page_outer_area (varea v) in
                protect_loop (Z.to_nat (rsize a / PAGESIZE)) 0 root (rbegin a));
      protect_vmas root memory l
  end.
Definition protect_memory_cow (t memory : Z) : M vm unit :=
  if memory =? 0 then mret tt
  else
    p ← memory_of memory;
    if Memory.shared p then mret tt
    else x ← get_tm t; protect_vmas (pgd x) memory (vma_list x).

Definition PTE_flags (rwx : Z) (e : Sv39.PTE) : Sv39.PageFlags :=
  Sv39.mkFlags rwx (Sv39.pte_u e) (Sv39.pte_g e) (Sv39.is_present e).

(** The loop of [clone_vma_pages_to_cow]. *)
Fixpoint clone_pages_loop (k : nat) (i : Z) (shared : bool) (src dst b : Z) : M vm unit :=
  match k with
  | O => mret tt
  | S k =>
      let vaddr := add64 b (mul64 i PAGESIZE) in
      q ← attempt (with_pt (Sv39.query_page src vaddr));
      match q with
      | Err e => if bool_decide (e = PAGE_NOT_PRESENT) then clone_pages_loop k (i + 1) shared src dst b else fail e
      | Ok (tb, ix, size, e) =>
          if negb (bool_decide (size = Sv39.SZ_4K)) then fail NOT_SUPPORTED
          else
            let rwx := Sv39.rwx_of e in
            let cow_page := negb shared && (Sv39.page_is_writable rwx || Sv39.is_cow e) in
            let child_rwx := if cow_page then Sv39.without_write rwx else rwx in
            _ ← with_pt (Sv39.map_page Sv39.SZ_4K dst vaddr (Sv39.from_ppn (Sv39.pte_ppn e)) (PTE_flags child_rwx e));
            _ ← (if cow_page then
                   _ ← put_leaf tb ix (Sv39.protect_cow rwx e);
                   '(tb', ix', _, e') ← with_pt (Sv39.query_page dst vaddr);
                   put_leaf tb' ix' (Sv39.protect_cow rwx e')
                 else mret tt);
            clone_pages_loop k (i + 1) shared src dst b
      end
  end.
Definition clone_vma_pages_to_cow (v : VMA) (map_area : Range) (src dst : Z) : M vm unit :=
  p ← memory_of (vmemory v);
  clone_pages_loop (Z.to_nat (rsize map_area / PAGESIZE)) 0 (Memory.shared p) src dst (rbegin map_area).

Fixpoint clone_vmas (root dst : Z) (l : list VMA) : M vm unit :=
  match l with
  | [] => mret tt
  | v :: l =>
      memory ← with_mem (Memory.clone_payload (vmemory v));
      _ ← add_vma dst (vtype v) (vgrowth v) (varea v) memory (vprot v) (mem_offset v);
      let map_area := page_outer_area (varea v) in
      y ← get_tm dst;
      _ ← (if nullable map_area then mret tt else clone_vma_pages_to_cow v map_area root (pgd y));
      clone_vmas root dst l
  end.
Definition clone_to_cow (t dst : Z) : M vm unit :=
  x ← get_tm t; clone_vmas (pgd x) dst (vma_list x).

(** ** Page faults *)

Definition on_np (t access_address : Z) : M vm bool :=
  x ← get_tm t;
  match locate_in (vma_list x) access_address with
  | Err _ => mret false
  | Ok v =>
      let aligned_vaddr := page_align_down access_address in
      let offset := memory_offset_for_page v aligned_vaddr in
      r ← attempt (with_mem (Memory.ensure_page (vmemory v) offset));
      match r with
      | Err _ => mret false
      | Ok _ =>
          p ← memory_of (vmemory v);
          match Memory.lookup_page p offset, Memory.page_refcount p offset with
          | Ok paddr, Ok rc =>
              _ ← massert (nonnull paddr);
              let rwx := prot_to_rwx (vprot v) in
              let cow_page := negb (Memory.shared p) && Sv39.page_is_writable rwx && (1 <? rc) in
              let map_rwx := if cow_page then Sv39.without_write rwx else rwx in
              _ ← with_pt (Sv39.map_page Sv39.SZ_4K (pgd x) aligned_vaddr paddr
                             (Sv39.mkFlags map_rwx true false true));
              _ ← (if cow_page then
                     q ← attempt (with_pt (Sv39.query_page (pgd x) aligned_vaddr));
                     match q with
                     | Ok (tb, ix, _, e) => put_leaf tb ix (Sv39.protect_cow rwx e)
                     | Err _ => mret tt
                     end
                   else mret tt);
              mret true
          | _, _ => mret false
          end
      end
  end.

Definition on_wp (t fault_addr : Z) : M vm bool :=
  x ← get_tm t;
  match locate_in (vma_list x) fault_addr with
  | Err _ => mret false
  | Ok v =>
      p ← memory_of (vmemory v);
      if Memory.shared p then mret false
      else
        let aligned_vaddr := page_align_down fault_addr in
        q ← attempt (with_pt (Sv39.query_page (pgd x) aligned_vaddr));
        match q with
        | Err _ => mret false
        | Ok (tb, ix, size, e) =>
            if negb (bool_decide (size = Sv39.SZ_4K)) then mret false
            else if negb (Sv39.is_cow e) then mret false
            else
              let offset := memory_offset_for_page v aligned_vaddr in
              r ← attempt (with_mem (Memory.fork (vmemory v) offset));
              match r with
              | Err _ => mret false
              | Ok _ =>
                  p ← memory_of (vmemory v);
                  match Memory.lookup_page p offset with
                  | Err _ => mret false
                  | Ok paddr =>
                      let e1 := Sv39.set_paddr paddr e in
                      _ ← put_leaf tb ix (Sv39.restore_from_cow (PTE_flags (prot_to_rwx (vprot v)) e1) e1);
                      mret true
                  end
              end
        end
  end.

(** ** Life of an address space *)

(** The constructors; [kernel_pgd] is the root the kernel's mappings are copied
    from. *)
Definition new_tm (t root kernel_pgd : Z) : M vm unit :=
  r ← attempt (with_pt (Sv39.init_task_root root kernel_pgd));
  _ ← massert (has_value r);
  modify (set_spaces <[t := mkTM [] (Sv39.to_ppn root)]>).
Definition from_existing_pgd (t root : Z) : M vm unit :=
  if negb (nonnull root) then fail INVALID_PARAM
  else modify (set_spaces <[t := mkTM [] (Sv39.to_ppn root)]>).

Fixpoint drop_vmas (t : Z) (l : list VMA) : M vm unit :=
  match l with
  | [] => mret tt
  | v :: l =>
      _ ← set_list t (drop 1);
      _ ← unmap_pages t (varea v);
      _ ← release (vmemory v);
      drop_vmas t l
  end.
Definition delete_tm (t : Z) : M vm unit :=
  x ← get_tm t; _ ← drop_vmas t (vma_list x); modify (set_spaces (delete t)).

(** ** [MemoryObject] *)


(** What [map_into] refuses before it looks at the address space. *)
Definition map_refused (p : Memory.MemoryPayload) (cap_perm rwx req_growth : Z) : option ErrCode :=
  let imply := bits_implies cap_perm in
  let wants := Memory.growth_and req_growth in
  if negb (imply perm.MAP) then Some INSUFFICIENT_PERMISSIONS
  else if negb (Sv39.flag_and rwx Sv39.RWX_R) then Some INVALID_PARAM
  else if negb (imply perm.READ) then Some INSUFFICIENT_PERMISSIONS
  else if Sv39.page_is_writable rwx && negb (imply perm.WRITE) then Some INSUFFICIENT_PERMISSIONS
  else if Sv39.flag_and rwx Sv39.RWX_X && negb (imply perm.EXEC) then Some INSUFFICIENT_PERMISSIONS
  else if (wants Memory.MemoryGrowth.GROW_UP || wants Memory.MemoryGrowth.SHRINK_UP) && negb (imply perm.FLEXUP)
  then Some INSUFFICIENT_PERMISSIONS
  else if (wants Memory.MemoryGrowth.GROW_DOWN || wants Memory.MemoryGrowth.SHRINK_DOWN) && negb (imply perm.FLEXDOWN)
  then Some INSUFFICIENT_PERMISSIONS
  else if negb (Memory.growth_allows (Memory.growth p) req_growth) then Some NOT_SUPPORTED
  else None.

Definition map_into (t m cap_perm vaddr rwx req_growth : Z) : M vm unit :=
  p ← memory_of m;
  match map_refused p cap_perm rwx req_growth with
  | Some e => fail e
  | None =>
      _ ← with_mem (Memory.ensure_contiguous m);
      _ ← add_vma t T_SHARE req_growth {| rbegin := vaddr; rend := add64 vaddr (Memory.memsz p) |} m
            (rwx_to_prot rwx true) 0;
      mret tt
  end.

Definition unmap_from (t m cap_perm vaddr : Z) : M vm unit :=
  if negb (bits_implies cap_perm perm.MAP) then fail INSUFFICIENT_PERMISSIONS
  else v ← locate_memory t m vaddr; remove_vma t (vid v).

Definition resize_in (t : option Z) (m cap_perm newsz : Z) : M vm unit :=
  if negb (bits_implies cap_perm perm.RESIZE) then fail INSUFFICIENT_PERMISSIONS
  else
    p ← memory_of m;
    _ ← match t with
        | Some t => if newsz <? Memory.memsz p then unmap_memory_tail t m newsz else mret tt
        | None => mret tt
        end;
    _ ← with_mem (Memory.resize m newsz);
    match t with
    | Some t => sync_memory_vmas t m
    | None => mret tt
    end.

Definition query_memory (m cap_perm : Z) : M vm (Z * Z) :=
  if negb (bits_implies cap_perm perm.QUERY) then fail INSUFFICIENT_PERMISSIONS
  else p ← memory_of m; mret (Memory.memsz p, Memory.allocated_size p).
End vma.
Arguments vm : clear implicits.

End Vma.
