(* ===== verification/VmaInv.v ===== *)
(** * Address spaces: consistency and effects

    Theorems about [Vma]: the areas of an address space stay valid and pairwise
    disjoint under every operation, every VMA keeps its memory object alive and
    the page tables stay well formed; removing a range removes exactly its
    addresses and leaves no translation behind; a page fault is resolved with the
    page the area assigns to the address. *)
From S2P Require Import Prelude ErrCode Addr Buddy Gfp Memory Sv39 Vma.

Module VmaInv.
Import Vma.

(** ** Areas *)

Definition uarea (r : Range) : Prop := 0 < rbegin r ∧ rbegin r <= rend r ∧ rend r < KPA_OFFSET.

Lemma valid_uarea r :
  is_u64 (rbegin r) → is_u64 (rend r) → valid_user_area r = true ↔ uarea r.
Proof.
  intros Hb He. unfold valid_user_area, uarea.
  rewrite !andb_true_iff, !is_user_vaddr_spec, Z.leb_le by done. lia.
Qed.

Lemma uarea_u64 r : uarea r → is_u64 (rbegin r) ∧ is_u64 (rend r).
Proof. unfold uarea, is_u64, W64, KPA_OFFSET. lia. Qed.

Lemma uarea_valid r : uarea r → valid_user_area r = true.
Proof. intros Hr. destruct (uarea_u64 r Hr). by apply valid_uarea. Qed.

Definition meets (a b : Range) : Prop := ∃ x, within a x = true ∧ within b x = true.
Lemma intersecting_meets a b : is_intersecting a b = true ↔ meets a b.
Proof. apply is_intersecting_spec. Qed.
Lemma not_meets a b : is_intersecting a b = false ↔ ~ meets a b.
Proof. rewrite <- intersecting_meets. by destruct (is_intersecting a b); split; intros; try done; destruct H. Qed.

(** An area that covers part of another meets at most what the other met. *)
Definition inside (a b : Range) : Prop := ∀ x, within a x = true → within b x = true.
Lemma meets_inside a a' b : inside a a' → meets a b → meets a' b.
Proof. intros Hi (x & H1 & H2). exists x. split; [by apply Hi|done]. Qed.
Lemma meets_sym a b : meets a b → meets b a.
Proof. intros (x & ? & ?). by exists x. Qed.

Record space_ok (l : list VMA) : Prop := {
  so_ids : NoDup (vid <$> l);
  so_area : ∀ v, v ∈ l → uarea (varea v);
  so_disj : ∀ v w, v ∈ l → w ∈ l → vid v ≠ vid w → ~ meets (varea v) (varea w);
}.

Lemma space_ok_perm l l' : l ≡ₚ l' → space_ok l → space_ok l'.
Proof.
  intros Hp [H1 H2 H3]. split.
  - by rewrite <- Hp.
  - intros v. rewrite <- Hp. apply H2.
  - intros v w. rewrite <- Hp. apply H3.
Qed.

Lemma space_ok_cons v l :
  space_ok (v :: l) ↔
  space_ok l ∧ uarea (varea v) ∧ (∀ w, w ∈ l → vid w ≠ vid v ∧ ~ meets (varea v) (varea w)).
Proof.
  split.
  - intros [H1 H2 H3]. rewrite fmap_cons in H1. apply NoDup_cons in H1 as [Hn Hd]. split; [|split].
    + split; [done|intros w Hw; apply H2; by right|intros w1 w2 Hw1 Hw2; apply H3; by right].
    + apply H2. left.
    + intros w Hw. assert (Hne : vid w ≠ vid v).
      { intros E. apply Hn. rewrite <- E. apply list_elem_of_fmap. by exists w. }
      split; [done|]. apply H3; [left|by right|done].
  - intros ([H1 H2 H3] & Ha & Hw). split.
    + rewrite fmap_cons. apply NoDup_cons. split; [|done]. intros (w & E & Hin)%list_elem_of_fmap.
      destruct (Hw w Hin). congruence.
    + intros w [->|Hin]%elem_of_cons; [done|by apply H2].
    + intros w1 w2 [->|H4]%elem_of_cons [->|H5]%elem_of_cons Hne; try done.
      * by apply Hw.
      * intros Hm. apply (proj2 (Hw w1 H4)). by apply meets_sym.
      * by apply H3.
Qed.

(** The entry of an identity, apart from the others. *)
Lemma vma_split l id v :
  List.find (λ w, vid w =? id) l = Some v → ∃ l1 l2, l = l1 ++ v :: l2 ∧ vid v = id ∧ ∀ w, w ∈ l1 → vid w ≠ id.
Proof.
  induction l as [|w l IH]; simpl; [done|]. destruct (Z.eqb_spec (vid w) id) as [E|E].
  - intros [= <-]. exists [], l. split; [done|]. split; [done|]. by intros ? ?%not_elem_of_nil.
  - intros (l1 & l2 & -> & Hv & Hn)%IH. exists (w :: l1), l2. split_and!; [done|done|].
    intros u [->|Hu]%elem_of_cons; [done|by apply Hn].
Qed.

Lemma find_elem l v : space_ok l → v ∈ l → List.find (λ w, vid w =? vid v) l = Some v.
Proof.
  intros [Hd _ _] Hin. induction l as [|w l IH]; [by apply not_elem_of_nil in Hin|].
  rewrite fmap_cons in Hd. apply NoDup_cons in Hd as [Hn Hd]. simpl.
  apply elem_of_cons in Hin as [->|Hin]; [by rewrite Z.eqb_refl|].
  rewrite (proj2 (Z.eqb_neq _ _)); [by apply IH|]. intros E. apply Hn. rewrite E. apply list_elem_of_fmap. by exists v.
Qed.

(** [update_vma] and the filter of [remove_vma], as lists. *)
Definition replace_vma (id : Z) (f : VMA → VMA) (l : list VMA) : list VMA :=
  (λ v, if vid v =? id then f v else v) <$> l.
Definition drop_vma (id : Z) (l : list VMA) : list VMA := filter (λ w, vid w ≠ id) l.

Lemma replace_same id f l : (∀ w, w ∈ l → vid w ≠ id) → replace_vma id f l = l.
Proof.
  intros Hn. unfold replace_vma. induction l as [|w l IH]; [done|]. simpl.
  rewrite (proj2 (Z.eqb_neq _ _)) by (apply Hn; left). f_equal. apply IH. intros u Hu. apply Hn. by right.
Qed.
Lemma drop_same id l : (∀ w, w ∈ l → vid w ≠ id) → drop_vma id l = l.
Proof.
  intros Hn. unfold drop_vma. induction l as [|w l IH]; [done|].
  rewrite filter_cons_True by (apply Hn; left). f_equal. apply IH. intros u Hu. apply Hn. by right.
Qed.

Lemma perm_front (l1 : list VMA) (v : VMA) (l2 : list VMA) : l1 ++ v :: l2 ≡ₚ v :: l1 ++ l2.
Proof. symmetry. apply Permutation_middle. Qed.

(** With distinct identities both change one entry. *)
Lemma ids_apart l1 v l2 :
  space_ok (l1 ++ v :: l2) → ∀ w, w ∈ l1 ++ l2 → vid w ≠ vid v.
Proof.
  intros H%(space_ok_perm _ _ (perm_front _ _ _)) w Hw. apply space_ok_cons in H as (_ & _ & H). by apply H.
Qed.

Lemma replace_at l1 v l2 f :
  space_ok (l1 ++ v :: l2) → replace_vma (vid v) f (l1 ++ v :: l2) = l1 ++ f v :: l2.
Proof.
  intros H. pose proof (ids_apart _ _ _ H) as Hn. unfold replace_vma. rewrite fmap_app, fmap_cons, Z.eqb_refl.
  f_equal; [|f_equal]; (apply replace_same; intros w Hw; apply Hn; set_solver).
Qed.
Lemma drop_at l1 v l2 : space_ok (l1 ++ v :: l2) → drop_vma (vid v) (l1 ++ v :: l2) = l1 ++ l2.
Proof.
  intros H. pose proof (ids_apart _ _ _ H) as Hn. unfold drop_vma. rewrite filter_app, filter_cons_False by naive_solver.
  f_equal; (apply drop_same; intros w Hw; apply Hn; set_solver).
Qed.

Lemma existsb_false_forallb {A} (f : A → bool) (l : list A) : existsb f l = false ↔ forallb (λ x, negb (f x)) l = true.
Proof. induction l as [|y l IH]; simpl; [done|]. destruct (f y); simpl; [done|exact IH]. Qed.

Lemma insert_perm v l : insert_vma v l ≡ₚ v :: l.
Proof.
  induction l as [|w l IH]; [done|]. simpl. destruct (_ <? _); [done|]. rewrite IH. apply Permutation_swap.
Qed.

(** ** What an address means in a space *)

(** Address [a] shows byte [off] of memory [m] with permissions [prot]. *)
Definition maps (l : list VMA) (a : Z) (r : Z * Z * Z) : Prop :=
  ∃ v, v ∈ l ∧ within (varea v) a = true ∧
    r = (vmemory v, wrap64 (mem_offset v + (a - rbegin (varea v))), vprot v).

Lemma maps_perm l l' a r : l ≡ₚ l' → maps l a r → maps l' a r.
Proof. intros Hp (v & Hv & H). exists v. by rewrite <- Hp. Qed.
Lemma maps_cons v l a r :
  maps (v :: l) a r ↔ (within (varea v) a = true ∧
     r = (vmemory v, wrap64 (mem_offset v + (a - rbegin (varea v))), vprot v)) ∨ maps l a r.
Proof.
  split.
  - intros (w & [->|Hw]%elem_of_cons & H1 & H2); [by left|right]. by exists w.
  - intros [[H1 H2]|(w & Hw & H1 & H2)]; [exists v|exists w]; (split; [set_solver|done]).
Qed.

(** At most one area holds an address. *)
Lemma maps_fun l a r1 r2 : space_ok l → maps l a r1 → maps l a r2 → r1 = r2.
Proof.
  intros Hok (v & Hv & Hva & ->) (w & Hw & Hwa & ->). destruct (decide (vid v = vid w)) as [E|E].
  - pose proof (find_elem l v Hok Hv) as F1. pose proof (find_elem l w Hok Hw) as F2. rewrite E, F2 in F1.
    by simplify_eq.
  - exfalso. apply (so_disj _ Hok v w Hv Hw E). by exists a.
Qed.

Lemma locate_in_maps l a v :
  locate_in l a = Ok v → v ∈ l ∧ holds v a = true.
Proof.
  unfold locate_in. destruct (List.find _ l) as [w|] eqn:E; [|done]. intros [= <-].
  apply List.find_some in E as [Hin Hh]. split; [by apply list_elem_of_In|done].
Qed.
Lemma locate_range_none l a :
  has_value (locate_range_in l a) = false → ∀ v, v ∈ l → ~ meets (varea v) a.
Proof.
  unfold locate_range_in. destruct (List.find _ l) as [w|] eqn:E; [done|]. intros _ v Hv.
  apply not_meets. by apply (List.find_none _ _ E), list_elem_of_In.
Qed.

(** ** The invariant *)

(** VMAs that hold memory [m]. *)
Definition count (m : Z) (l : list VMA) : Z := Z.of_nat (length (filter (λ v, vmemory v = m) l)).
Definition all_of (sp : gmap Z TM) : list VMA := (map_to_list sp).*2 ≫= vma_list.

Definition at_ (m m' : Z) : Z := if bool_decide (m' = m) then 1 else 0.

Lemma count_perm m l l' : l ≡ₚ l' → count m l = count m l'.
Proof. intros Hp. unfold count. by rewrite Hp. Qed.
Lemma count_app m l l' : count m (l ++ l') = count m l + count m l'.
Proof. unfold count. rewrite filter_app, length_app. lia. Qed.
Lemma count_cons m v l : count m (v :: l) = at_ (vmemory v) m + count m l.
Proof.
  unfold count, at_. case_bool_decide as E; [rewrite filter_cons_True by done|rewrite filter_cons_False by congruence];
    simpl; lia.
Qed.
Lemma count_nonneg m l : 0 <= count m l.
Proof. unfold count. lia. Qed.

Lemma all_of_lookup sp t x : sp !! t = Some x → all_of sp ≡ₚ vma_list x ++ all_of (delete t sp).
Proof.
  intros Ht. unfold all_of. rewrite <- (map_to_list_delete _ _ _ Ht) at 1. done.
Qed.
Lemma all_of_insert sp t y : all_of (<[t := y]> sp) ≡ₚ vma_list y ++ all_of (delete t sp).
Proof. rewrite (all_of_lookup _ t y) by apply lookup_insert_eq. by rewrite delete_insert_eq. Qed.
Lemma elem_all_of sp t x v : sp !! t = Some x → v ∈ vma_list x → v ∈ all_of sp.
Proof. intros Ht Hv. rewrite (all_of_lookup _ _ _ Ht). set_solver. Qed.

Section inv.
Context {G F : Type} `{Memory.PageFrames G} `{Memory.VFileOps F}.
Implicit Types (s : vm G F) (P : Sv39.ghost) (ext hold : Z → Z) (c : nat).

Abbreviation pages s := (Memory.flatten (Memory.mems (objs s))).
Abbreviation kept s m := (default 0 (keeps s !! m)).

(** [hold m] references on memory [m] are held by others than VMAs.  Room for the
    calls that release every page in use, and [c] more, is left in the page-frame
    allocator. *)
Record vm_inv P ext hold c s : Prop := {
  vi_pt : Sv39.pt_inv (pts s) P;
  vi_root : ∀ t x, spaces s !! t = Some x → Sv39.is_root P (pgd x);
  vi_mem : Memory.mem_inv ext (size (pages s) + c) (objs s);
  vi_keeps : ∀ m, kept s m = count m (all_of (spaces s)) + hold m;
  vi_hold : ∀ m, 0 <= hold m;
  vi_alive : ∀ m, 0 < kept s m → is_Some (Memory.mems (objs s) !! m);
  vi_null : ∀ v, v ∈ all_of (spaces s) → vmemory v ≠ 0;
  vi_ids : ∀ v, v ∈ all_of (spaces s) → vid v < next_vma s;
  vi_spaces : ∀ t x, spaces s !! t = Some x → space_ok (vma_list x);
}.

Definition shift (d m : Z) hold (m' : Z) : Z := hold m' + d * at_ m m'.

Lemma vm_inv_hold P ext hold hold' c s :
  (∀ m, hold m = hold' m) → vm_inv P ext hold c s → vm_inv P ext hold' c s.
Proof.
  intros He [H1 H2 H3 H4 H5 H6 H7 H8 H9]. split; try done; intros m; rewrite <- He; auto.
Qed.

Lemma set_pts_inv P ext hold c s x : vm_inv P ext hold c s → Sv39.pt_inv x P → vm_inv P ext hold c (set_pts x s).
Proof. intros [H1 H2 H3 H4 H5 H6 H7 H8 H9] Hx. by split. Qed.

(** Replacing the list of one space; the VMAs that come and go change hands with
    [hold]. *)
Lemma set_list_inv P ext hold hold' c s t x f :
  vm_inv P ext hold c s → spaces s !! t = Some x →
  space_ok (f (vma_list x)) →
  (∀ v, v ∈ f (vma_list x) → vmemory v ≠ 0 ∧ vid v < next_vma s) →
  (∀ m, 0 <= hold' m ∧ hold' m + count m (f (vma_list x)) = hold m + count m (vma_list x)) →
  ∃ s', set_list t f s = Fin (Ok tt) s' ∧ vm_inv P ext hold' c s' ∧
    spaces s' = <[t := mkTM (f (vma_list x)) (pgd x)]> (spaces s) ∧
    pts s' = pts s ∧ objs s' = objs s ∧ keeps s' = keeps s ∧ next_vma s' = next_vma s.
Proof.
  intros [H1 H2 H3 H4 H5 H6 H7 H8 H9] Ht Hok Hv Hh.
  set (y := mkTM (f (vma_list x)) (pgd x)).
  assert (Esp : alter (λ x, mkTM (f (vma_list x)) (pgd x)) t (spaces s) = <[t := y]> (spaces s)).
  { apply map_eq. intros t'. destruct (decide (t = t')) as [<-|].
    - by rewrite lookup_alter_eq, lookup_insert_eq, Ht.
    - by rewrite lookup_alter_ne, lookup_insert_ne. }
  eexists. split; [reflexivity|]. split; [|by rewrite <- Esp].
  assert (Hel : ∀ v, v ∈ all_of (<[t := y]> (spaces s)) → v ∈ f (vma_list x) ∨ v ∈ all_of (spaces s)).
  { intros v. rewrite all_of_insert, (all_of_lookup _ _ _ Ht). set_solver. }
  split; simpl; rewrite ?Esp; try done.
  - intros t' x'. rewrite lookup_insert_Some. intros [[<- <-]|[_ Hx]]; [by apply (H2 t x)|by apply (H2 t')].
  - intros m. rewrite H4. destruct (Hh m) as [_ E].
    rewrite (count_perm m _ _ (all_of_insert _ t y)), (count_perm m _ _ (all_of_lookup _ _ _ Ht)), !count_app.
    simpl. lia.
  - intros m. by apply Hh.
  - intros v [Hin|Hin]%Hel; [by apply Hv|by apply H7].
  - intros v [Hin|Hin]%Hel; [by apply Hv|by apply H8].
  - intros t' x'. rewrite lookup_insert_Some. intros [[<- <-]|[_ Hx]]; [done|by apply (H9 t')].
Qed.

Lemma keep_inv P ext hold c s m :
  vm_inv P ext hold c s → is_Some (Memory.mems (objs s) !! m) → kept s m < W64 - 1 →
  ∃ s', keep m s = Fin (Ok tt) s' ∧ vm_inv P ext (shift 1 m hold) c s' ∧ spaces s' = spaces s ∧ pts s' = pts s ∧
    objs s' = objs s ∧ next_vma s' = next_vma s ∧ ∀ m', kept s' m' = kept s m' + at_ m m'.
Proof.
  intros [H1 H2 H3 H4 H5 H6 H7 H8 H9] Hm Hb. eexists. split; [reflexivity|].
  assert (Hk : ∀ m', default 0 (<[m := add64 (kept s m) 1]> (keeps s) !! m') = kept s m' + at_ m m').
  { intros m'. unfold at_. case_bool_decide as E.
    - subst m'. rewrite lookup_insert_eq. simpl. apply wrap64_small. pose proof (count_nonneg m (all_of (spaces s))).
      pose proof (H4 m). pose proof (H5 m). unfold is_u64. lia.
    - rewrite lookup_insert_ne by congruence. lia. }
  split_and!; try done. split; try done.
  - intros m'. simpl. rewrite Hk, H4. unfold shift. lia.
  - intros m'. unfold shift, at_. pose proof (H5 m'). case_bool_decide; lia.
  - intros m'. simpl. rewrite Hk. unfold at_. case_bool_decide as E; [by subst|]. rewrite Z.add_0_r. apply H6.
Qed.

Lemma release_inv P ext hold c s m :
  vm_inv P ext hold c s → 0 < hold m →
  ∃ s', release m s = Fin (Ok tt) s' ∧ vm_inv P ext (shift (-1) m hold) c s' ∧ spaces s' = spaces s ∧ pts s' = pts s ∧
    next_vma s' = next_vma s ∧ ∀ m', kept s' m' <= kept s m'.
Proof.
  intros Hi Hp. pose proof Hi as [H1 H2 H3 H4 H5 H6 H7 H8 H9].
  pose proof (count_nonneg m (all_of (spaces s))) as Hc. pose proof (H4 m) as Ek.
  unfold release. assert (Eg : gets (λ s, kept s m) s = Fin (Ok (kept s m)) s) by done.
  rewrite (bind_run _ _ _ _ _ Eg).
  assert (Hpos : (0 <? kept s m) = true) by (apply Z.ltb_lt; rewrite Ek; lia).
  assert (Ea : massert (0 <? kept s m) s = Fin (Ok tt) s) by (unfold massert; by rewrite Hpos).
  rewrite (bind_run _ _ _ _ _ Ea).
  set (s1 := set_keeps <[m := kept s m - 1]> s).
  rewrite (bind_run (modify _) _ _ tt s1 eq_refl).
  assert (Hk : ∀ m', kept s1 m' = kept s m' - at_ m m').
  { intros m'. unfold at_. simpl. case_bool_decide as E.
    - subst m'. by rewrite lookup_insert_eq.
    - rewrite lookup_insert_ne by congruence. lia. }
  assert (Hk1 : ∀ m', kept s1 m' <= kept s m') by (intros m'; rewrite Hk; unfold at_; case_bool_decide; lia).
  assert (Hs1 : vm_inv P ext (shift (-1) m hold) c s1).
  { split; try done.
    - intros m'. rewrite Hk. simpl. rewrite H4. unfold shift. lia.
    - intros m'. unfold shift, at_. pose proof (H5 m'). case_bool_decide; subst; lia.
    - intros m' Hm'. simpl. apply H6. specialize (Hk1 m'). lia. }
  destruct (Z.eqb_spec (kept s m - 1) 0) as [E0|E0]; [|exists s1; split_and!; [done|exact Hs1|done|done|done|exact Hk1]].
  destruct (H6 m ltac:(lia)) as [p Hpm].
  assert (Esz : size (pages s) = (size (Memory.phy_pages p) + size (Memory.flatten (delete m (Memory.mems (objs s)))))%nat)
    by by apply Memory.flatten_size.
  destruct (Memory.destruct_run ext (size (Memory.flatten (delete m (Memory.mems (objs s)))) + c) (objs s) m p)
    as (o & Eo & Ho & Hms & _).
  { rewrite Nat.add_assoc, <- Esz. done. }
  { done. }
  exists (set_objs o s1). split.
  { unfold with_mem. change (objs s1) with (objs s). by rewrite Eo. }
  split_and!; try done. destruct Hs1 as [J1 J2 J3 J4 J5 J6 J7 J8 J9]. split; try done.
  - simpl. by rewrite Hms.
  - intros m' Hm'. simpl. rewrite Hms. rewrite lookup_delete_ne.
    + by apply J6.
    + intros <-. change (kept (set_objs o s1) m) with (kept s1 m) in Hm'. rewrite Hk in Hm'.
      unfold at_ in Hm'. rewrite bool_decide_eq_true_2 in Hm' by done. lia.
Qed.

(** ** Unmapping pages *)

(** Translations only disappear, only under [root], and none is left from [lo] to
    [hi]. *)
Record cleared P (root lo hi : Z) (x x' : Sv39.pt) : Prop := {
  cl_only : ∀ root' va, Sv39.is_root P root' →
    Sv39.translate x' root' va = Sv39.translate x root' va ∨
    (root' = root ∧ Sv39.translate x' root' va = Some (Err PAGE_NOT_PRESENT));
  cl_gone : ∀ va r, lo <= va < hi → Sv39.translate x' root va ≠ Some (Ok r);
}.

Lemma cleared_refl P root lo x : cleared P root lo lo x x.
Proof. split; [by left|lia]. Qed.

Lemma cleared_app P root lo mid hi x x1 x2 :
  Sv39.is_root P root → cleared P root lo mid x x1 → cleared P root mid hi x1 x2 → cleared P root lo hi x x2.
Proof.
  intros Hr [A1 A2] [B1 B2]. split.
  - intros root' va Hr'. destruct (B1 root' va Hr') as [->|?]; [by apply A1|by right].
  - intros va r Hva. destruct (decide (mid <= va)) as [Hm|Hm]; [apply B2; lia|].
    destruct (B1 root va Hr) as [->|[_ ->]]; [apply A2; lia|done].
Qed.

Lemma vpn_page size va va' :
  is_u64 va → is_u64 va' → va / PAGESIZE = va' / PAGESIZE → Sv39.make_vpn size va = Sv39.make_vpn size va'.
Proof.
  intros Hva Hva' E. unfold Sv39.make_vpn.
  assert (Hs : ∀ n, 12 <= n → Z.shiftr va n = Z.shiftr va' n).
  { intros n Hn. rewrite !Z.shiftr_div_pow2 by lia. replace (2 ^ n) with (PAGESIZE * 2 ^ (n - 12)).
    - rewrite <- !Z.div_div by (try done; apply Z.pow_pos_nonneg; lia). by rewrite E.
    - change PAGESIZE with (2 ^ 12). rewrite <- Z.pow_add_r by lia. f_equal. lia. }
  by rewrite !Hs by lia.
Qed.

Lemma translate_page x root va va' :
  is_u64 va → is_u64 va' → va / PAGESIZE = va' / PAGESIZE → Sv39.translate x root va = Sv39.translate x root va'.
Proof. intros H1 H2 E. unfold Sv39.translate. by rewrite (vpn_page _ va va'). Qed.

Lemma query_translate x P root va :
  Sv39.pt_inv x P → Sv39.is_root P root →
  (∃ e, Sv39.query_page root va x = Fin (Err e) x ∧ Sv39.translate x root va = Some (Err e)) ∨
  (∃ tb ix size e, Sv39.query_page root va x = Fin (Ok (tb, ix, size, e)) x ∧
     Sv39.walk (Sv39.tables x) root 0 (Sv39.make_vpn Sv39.SZ_4K va) = Some (Ok (tb, ix, size, e)) ∧
     Sv39.translate x root va = Some (Ok (size, e))).
Proof.
  intros Hx (q & j & Hr). unfold Sv39.query_page, Sv39.translate.
  destruct (Sv39.walk _ root 0 _) as [[[[[tb ix] size] e]|e]|] eqn:E.
  - right. by exists tb, ix, size, e.
  - left. by exists e.
  - exfalso. revert E. apply (Sv39.walk_total _ P _ _ q j); [apply Hx|done|by rewrite Sv39.vpn_length].
Qed.

(** One page. *)
Lemma unmap_one P s root va :
  Sv39.pt_inv (pts s) P → Sv39.is_root P root → is_u64 va → va mod PAGESIZE = 0 →
  ∃ x', (q ← attempt (with_pt (Sv39.query_page root va));
         match q with Err _ => mret tt | Ok _ => with_pt (Sv39.unmap_page root va) end) s
        = Fin (Ok tt) (set_pts x' s) ∧ Sv39.pt_inv x' P ∧ cleared P root va (va + PAGESIZE) (pts s) x'.
Proof.
  intros Hx Hr Hu Hal.
  assert (Hpage : ∀ a, va <= a < va + PAGESIZE → is_u64 a ∧ a / PAGESIZE = va / PAGESIZE).
  { intros a Ha. pose proof (Z.div_mod va PAGESIZE ltac:(done)).
    split; [|symmetry; apply Z.div_unique with (a - va); lia].
    unfold is_u64, W64, PAGESIZE in *. lia. }
  assert (Hsame : set_pts (pts s) s = s) by by destruct s.
  destruct (query_translate (pts s) P root va Hx Hr) as [(e & Eq & Et)|(tb & ix & size & e & Eq & _ & Et)].
  - exists (pts s). rewrite Hsame. split; [|split; [done|split; [by left|]]].
    + erewrite bind_run; [|unfold attempt, with_pt; rewrite Eq, Hsame; reflexivity]. done.
    + intros a r Ha. destruct (Hpage a Ha). by rewrite (translate_page _ _ a va), Et.
  - destruct (Sv39.unmap_page_run (pts s) P root va Hx Hr) as (x' & Eu & Hi & Hres). rewrite Et in Hres.
    exists x'. split; [|split; [done|split]].
    + erewrite bind_run; [|unfold attempt, with_pt; rewrite Eq, Hsame; reflexivity].
      unfold with_pt. by rewrite Eu.
    + intros root' a Hr'. rewrite (Hres root' a Hr'). case_bool_decide as Hb; [right|by left]. by destruct Hb.
    + intros a r Ha. destruct (Hpage a Ha) as [Hua Hda]. rewrite (Hres root a Hr), bool_decide_eq_true_2; [done|].
      split; [done|]. unfold Sv39.same_page. symmetry. by apply vpn_page.
Qed.

Lemma unmap_loop_run P k s i root b :
  Sv39.pt_inv (pts s) P → Sv39.is_root P root → 0 <= i → 0 <= b → b mod PAGESIZE = 0 →
  b + (i + Z.of_nat k) * PAGESIZE <= W64 →
  ∃ x', unmap_pages_loop k i root b s = Fin (Ok tt) (set_pts x' s) ∧ Sv39.pt_inv x' P ∧
    cleared P root (b + i * PAGESIZE) (b + (i + Z.of_nat k) * PAGESIZE) (pts s) x'.
Proof.
  revert s i. induction k as [|k IH]; intros s i Hx Hr Hi Hb Hal Hlim.
  - exists (pts s). split; [by destruct s|]. split; [done|]. rewrite Z.add_0_r. apply cleared_refl.
  - cbn [unmap_pages_loop]. unfold PAGESIZE in Hlim.
    assert (Ev : add64 b (mul64 i PAGESIZE) = b + i * PAGESIZE).
    { unfold mul64, add64, PAGESIZE. rewrite (wrap64_small (i * 4096)) by (unfold is_u64, W64 in *; lia).
      apply wrap64_small. unfold is_u64, W64 in *. lia. }
    rewrite Ev.
    destruct (unmap_one P s root (b + i * PAGESIZE) Hx Hr) as (x1 & E1 & Hx1 & Hc1).
    { unfold is_u64, PAGESIZE. lia. }
    { by rewrite Z.mod_add. }
    assert (Eb : ∀ K : M (vm G F) unit,
      (q ← attempt (with_pt (Sv39.query_page root (b + i * PAGESIZE)));
       _ ← match q with Err _ => mret tt | Ok _ => with_pt (Sv39.unmap_page root (b + i * PAGESIZE)) end; K) s =
      K (set_pts x1 s)).
    { intros K. revert E1. unfold mbind, M_bind. destruct (attempt _ s) as [[q|] ?| |]; try done.
      intros E1. by rewrite E1. }
    rewrite Eb.
    destruct (IH (set_pts x1 s) (i + 1)) as (x2 & E2 & Hx2 & Hc2); try done; [lia|unfold PAGESIZE; lia|].
    exists x2. split; [done|]. split; [done|].
    replace (b + (i + Z.of_nat (S k)) * PAGESIZE) with (b + (i + 1 + Z.of_nat k) * PAGESIZE) by lia.
    eapply cleared_app; [done|exact Hc1|]. by replace (b + i * PAGESIZE + PAGESIZE) with (b + (i + 1) * PAGESIZE) by lia.
Qed.

(** The pages an area touches lose their translations. *)
Lemma unmap_pages_run P ext hold c s t x a :
  vm_inv P ext hold c s → spaces s !! t = Some x → uarea a →
  ∃ x', unmap_pages t a s = Fin (Ok tt) (set_pts x' s) ∧ vm_inv P ext hold c (set_pts x' s) ∧
    cleared P (pgd x) (rbegin a) (rend a) (pts s) x'.
Proof.
  intros Hi Ht Ha. pose proof (vi_pt _ _ _ _ _ Hi) as Hx. pose proof (vi_root _ _ _ _ _ Hi t x Ht) as Hr.
  unfold unmap_pages, page_outer_area, nullable.
  assert (Hsame : set_pts (pts s) s = s) by by destruct s.
  destruct (Z.leb_spec (rend a) (rbegin a)) as [Hn|Hn]; simpl.
  { rewrite Z.leb_refl. exists (pts s). rewrite Hsame. split; [done|]. split; [done|].
    replace (rend a) with (rbegin a) by (destruct Ha; lia). apply cleared_refl. }
  destruct Ha as (Hb & _ & He). unfold KPA_OFFSET in He.
  destruct (page_align_down_spec (rbegin a)) as [Hd1 Hd2]; [unfold is_u64, W64; lia|].
  destruct (page_align_up_spec (rend a)) as [Hu1 Hu2]; [unfold is_u64, W64; lia|unfold W64, PAGESIZE; lia|].
  set (lo := page_align_down (rbegin a)) in *. set (hi := page_align_up (rend a)) in *.
  rewrite (proj2 (Z.leb_gt hi lo)) by lia.
  assert (Eg : get_tm t s = Fin (Ok x) s) by (unfold get_tm; by rewrite Ht).
  rewrite (bind_run _ _ _ _ _ Eg). unfold rsize. simpl.
  assert (Hlo : 0 <= lo).
  { unfold lo. rewrite page_align_down_div by (unfold is_u64, W64; lia).
    pose proof (Z.div_pos (rbegin a) 4096). lia. }
  unfold sub64. rewrite wrap64_small by (unfold is_u64, W64, PAGESIZE in *; lia).
  assert (Hk : lo + (0 + Z.of_nat (Z.to_nat ((hi - lo) / PAGESIZE))) * PAGESIZE = hi).
  { assert ((hi - lo) mod PAGESIZE = 0) by (rewrite Zminus_mod, Hd2, Hu2; done).
    pose proof (Z.div_mod (hi - lo) PAGESIZE ltac:(done)).
    assert (0 <= (hi - lo) / PAGESIZE) by (apply Z.div_pos; [lia|done]). rewrite Z2Nat.id by done. lia. }
  destruct (unmap_loop_run P (Z.to_nat ((hi - lo) / PAGESIZE)) s 0 (pgd x) lo) as (x' & E & Hx' & Hc); try done.
  { rewrite Hk. unfold W64, PAGESIZE in *. lia. }
  exists x'. split; [done|]. split; [by apply set_pts_inv|]. rewrite Hk in Hc. replace (lo + 0 * PAGESIZE) with lo in Hc by lia.
  destruct Hc as [C1 C2]. split; [done|]. intros va r Hva. apply C2. lia.
Qed.

(** ** Adding and removing areas *)

Lemma get_tm_run s t x : spaces s !! t = Some x → get_tm t s = Fin (Ok x) s.
Proof. unfold get_tm. by intros ->. Qed.

Lemma vma_of_run s t x v :
  spaces s !! t = Some x → space_ok (vma_list x) → v ∈ vma_list x → vma_of t (vid v) s = Fin (Ok (Some v)) s.
Proof.
  intros Ht Hok Hv. unfold vma_of. rewrite (bind_run _ _ _ _ _ (get_tm_run s t x Ht)).
  by rewrite (find_elem _ _ Hok Hv).
Qed.

Lemma check_run s t x v :
  spaces s !! t = Some x → space_ok (vma_list x) → v ∈ vma_list x → check_vma t (vid v) s = Fin (Ok v) s.
Proof. intros Ht Hok Hv. unfold check_vma. by rewrite (bind_run _ _ _ _ _ (vma_of_run s t x v Ht Hok Hv)). Qed.

(** A new area must be valid and meet no other. *)
Definition fits (l : list VMA) (a : Range) : Prop := uarea a ∧ ∀ v, v ∈ l → ~ meets (varea v) a.

Lemma empty_meets a b : nullable b = true → ~ meets a b.
Proof.
  intros Hn (y & H1 & H2). apply within_spec in H2. unfold nullable in Hn. apply Z.leb_le in Hn. lia.
Qed.

Lemma add_vma_check l a :
  is_u64 (rbegin a) → is_u64 (rend a) →
  (if negb (valid_user_area a) then Some INVALID_PARAM
   else if negb (nullable a) && has_value (locate_range_in l a) then Some BUSY else None) = None ↔ fits l a.
Proof.
  intros Hb He. destruct (valid_user_area a) eqn:Ev; simpl.
  2: { split; [done|]. intros [Ha _]. apply uarea_valid in Ha. congruence. }
  apply (valid_uarea a Hb He) in Ev. split.
  - destruct (nullable a) eqn:En; simpl; intros E; (split; [done|]); intros v Hv.
    + by apply empty_meets.
    + destruct (has_value (locate_range_in l a)) eqn:El; [done|]. by apply (locate_range_none l).
  - intros [_ Hf]. destruct (nullable a); [done|]. simpl. unfold locate_range_in.
    destruct (List.find _ l) as [w|] eqn:El; [|done]. apply List.find_some in El as [Hin Hw].
    exfalso. apply (Hf w); [by apply list_elem_of_In|by apply intersecting_meets].
Qed.

Lemma add_vma_run P ext hold c s t x ty gr a m prot off :
  vm_inv P ext hold c s → spaces s !! t = Some x → m ≠ 0 → is_Some (Memory.mems (objs s) !! m) →
  kept s m < W64 - 1 → fits (vma_list x) a →
  let v := mkVMA (next_vma s) ty gr m prot off a in
  ∃ s', add_vma t ty gr a m prot off s = Fin (Ok (next_vma s)) s' ∧ vm_inv P ext hold c s' ∧
    spaces s' = <[t := mkTM (insert_vma v (vma_list x)) (pgd x)]> (spaces s) ∧ pts s' = pts s ∧ objs s' = objs s ∧
    next_vma s' = next_vma s + 1 ∧ ∀ m', kept s' m' = kept s m' + at_ m m'.
Proof.
  intros Hi Ht Hm0 Hm Hk Hf v. destruct (uarea_u64 a (proj1 Hf)) as [Hb He].
  pose proof (proj2 (add_vma_check (vma_list x) a Hb He) Hf) as Hchk.
  unfold add_vma. rewrite (proj2 (Z.eqb_neq m 0)) by done.
  destruct (negb (valid_user_area a)); [done|]. rewrite (bind_run _ _ _ _ _ (get_tm_run s t x Ht)).
  destruct (negb (nullable a) && _); [done|].
  rewrite (bind_run (gets next_vma) _ _ (next_vma s) s eq_refl).
  set (s1 := set_next_vma (next_vma s + 1) s).
  rewrite (bind_run (modify _) _ _ tt s1 eq_refl).
  assert (Hi1 : vm_inv P ext hold c s1).
  { destruct Hi as [H1 H2 H3 H4 H5 H6 H7 H8 H9]. split; try done. intros w Hw. simpl. specialize (H8 w Hw). lia. }
  destruct (keep_inv P ext hold c s1 m Hi1 Hm Hk) as (s2 & E2 & Hi2 & Hsp2 & Hpt2 & Ho2 & Hn2 & Hk2).
  rewrite (bind_run _ _ _ _ _ E2).
  assert (Ht2 : spaces s2 !! t = Some x) by by rewrite Hsp2.
  pose proof (vi_spaces _ _ _ _ _ Hi t x Ht) as Hok.
  destruct (set_list_inv P ext (shift 1 m hold) hold c s2 t x (insert_vma v) Hi2 Ht2)
    as (s3 & E3 & Hi3 & Hsp3 & Hpt3 & Ho3 & Hk3 & Hn3).
  - eapply space_ok_perm; [symmetry; apply insert_perm|]. apply space_ok_cons. split; [done|]. split; [apply Hf|].
    intros w Hw. split.
    + pose proof (vi_ids _ _ _ _ _ Hi w (elem_all_of _ _ _ _ Ht Hw)). simpl. lia.
    + intros Hmt. by apply (proj2 Hf w Hw), meets_sym.
  - intros w. rewrite insert_perm. intros [->|Hw]%elem_of_cons; simpl.
    + split; [done|]. rewrite Hn2. simpl. lia.
    + pose proof (elem_all_of _ _ _ _ Ht Hw) as Hin. split; [by apply (vi_null _ _ _ _ _ Hi)|].
      pose proof (vi_ids _ _ _ _ _ Hi w Hin). rewrite Hn2. simpl. lia.
  - intros m'. split; [apply (vi_hold _ _ _ _ _ Hi)|]. rewrite (count_perm m' _ _ (insert_perm v _)), count_cons.
    unfold shift. simpl. lia.
  - rewrite (bind_run _ _ _ _ _ E3). exists s3. split; [done|]. split; [done|]. split; [by rewrite Hsp3, Hsp2|].
    split_and!; [by rewrite Hpt3, Hpt2|by rewrite Ho3, Ho2|rewrite Hn3, Hn2; done|]. intros m'. rewrite Hk3. apply Hk2.
Qed.

(** A list operation that keeps the memories and identities of the VMAs. *)
Lemma update_run P ext hold c s t x l1 v l2 f :
  vm_inv P ext hold c s → spaces s !! t = Some x → vma_list x = l1 ++ v :: l2 →
  vid (f v) = vid v → vmemory (f v) = vmemory v → uarea (varea (f v)) →
  (∀ w, w ∈ l1 ++ l2 → ~ meets (varea (f v)) (varea w)) →
  ∃ s', update_vma t (vid v) f s = Fin (Ok tt) s' ∧ vm_inv P ext hold c s' ∧
    spaces s' = <[t := mkTM (l1 ++ f v :: l2) (pgd x)]> (spaces s) ∧ pts s' = pts s ∧ objs s' = objs s ∧
    keeps s' = keeps s ∧ next_vma s' = next_vma s.
Proof.
  intros Hi Ht Hl Hid Hmem Ha Hd. pose proof (vi_spaces _ _ _ _ _ Hi t x Ht) as Hok.
  pose proof Hok as Hok'. rewrite Hl in Hok'.
  assert (Er : replace_vma (vid v) f (vma_list x) = l1 ++ f v :: l2) by (rewrite Hl; by apply replace_at).
  assert (Hin : ∀ w, w ∈ l1 ++ v :: l2 → vmemory w ≠ 0 ∧ vid w < next_vma s).
  { intros w Hw. rewrite <- Hl in Hw. pose proof (elem_all_of _ _ _ _ Ht Hw) as Hin.
    split; [by apply (vi_null _ _ _ _ _ Hi)|by apply (vi_ids _ _ _ _ _ Hi)]. }
  destruct (set_list_inv P ext hold hold c s t x (replace_vma (vid v) f) Hi Ht)
    as (s' & E & Hi' & Hsp & Hrest).
  - rewrite Er. apply (space_ok_perm _ _ (perm_front _ _ _)), space_ok_cons in Hok' as (H1 & _ & H3).
    eapply space_ok_perm; [symmetry; apply perm_front|]. apply space_ok_cons. split_and!; [done|done|].
    intros w Hw. rewrite Hid. split; [by apply H3|by apply Hd].
  - intros w. rewrite Er. rewrite perm_front. intros [->|Hw]%elem_of_cons.
    + rewrite Hid, Hmem. apply Hin. set_solver.
    + apply Hin. set_solver.
  - intros m. split; [apply (vi_hold _ _ _ _ _ Hi)|]. rewrite Er, Hl.
    rewrite (count_perm m _ _ (perm_front l1 (f v) l2)), (count_perm m _ _ (perm_front l1 v l2)), !count_cons, Hmem. done.
  - exists s'. rewrite Er in Hsp. destruct Hrest as (? & ? & ? & ?). split_and!; done.
Qed.

Lemma remove_vma_run P ext hold c s t x l1 v l2 :
  vm_inv P ext hold c s → spaces s !! t = Some x → vma_list x = l1 ++ v :: l2 →
  ∃ s', remove_vma t (vid v) s = Fin (Ok tt) s' ∧ vm_inv P ext hold c s' ∧
    spaces s' = <[t := mkTM (l1 ++ l2) (pgd x)]> (spaces s) ∧ next_vma s' = next_vma s ∧
    cleared P (pgd x) (rbegin (varea v)) (rend (varea v)) (pts s) (pts s') ∧ ∀ m', kept s' m' <= kept s m'.
Proof.
  intros Hi Ht Hl. pose proof (vi_spaces _ _ _ _ _ Hi t x Ht) as Hok.
  assert (Hv : v ∈ vma_list x) by (rewrite Hl; set_solver).
  unfold remove_vma. rewrite (bind_run _ _ _ _ _ (check_run s t x v Ht Hok Hv)).
  destruct (unmap_pages_run P ext hold c s t x (varea v) Hi Ht (so_area _ Hok v Hv)) as (p1 & E1 & Hi1 & Hc1).
  rewrite (bind_run _ _ _ _ _ E1). set (s1 := set_pts p1 s) in *.
  assert (Hok' : space_ok (l1 ++ v :: l2)) by by rewrite <- Hl.
  assert (Ed : drop_vma (vid v) (vma_list x) = l1 ++ l2) by (rewrite Hl; by apply drop_at).
  destruct (set_list_inv P ext hold (shift 1 (vmemory v) hold) c s1 t x (drop_vma (vid v)) Hi1 Ht)
    as (s2 & E2 & Hi2 & Hsp2 & Hpt2 & Ho2 & Hk2 & Hn2).
  - rewrite Ed. apply (space_ok_perm _ _ (perm_front _ _ _)), space_ok_cons in Hok' as (H1 & _ & _). done.
  - intros w. rewrite Ed. intros Hw. assert (Hin : w ∈ vma_list x) by (rewrite Hl; set_solver).
    pose proof (elem_all_of _ _ _ _ Ht Hin) as Hall.
    split; [by apply (vi_null _ _ _ _ _ Hi)|by apply (vi_ids _ _ _ _ _ Hi)].
  - intros m. rewrite Ed, Hl, (count_perm m _ _ (perm_front l1 v l2)), count_cons.
    unfold shift, at_. pose proof (vi_hold _ _ _ _ _ Hi m). case_bool_decide; lia.
  - rewrite (bind_run (set_list t _) _ _ _ _ E2).
    destruct (release_inv P ext _ c s2 (vmemory v) Hi2) as (s3 & E3 & Hi3 & Hsp3 & Hpt3 & Hn3 & Hk3).
    { unfold shift, at_. pose proof (vi_hold _ _ _ _ _ Hi (vmemory v)). rewrite bool_decide_eq_true_2 by done. lia. }
    exists s3. split; [done|]. split_and!.
    + eapply vm_inv_hold; [|exact Hi3]. intros m. unfold shift. lia.
    + by rewrite Hsp3, Hsp2, Ed.
    + by rewrite Hn3, Hn2.
    + by rewrite Hpt3, Hpt2.
    + intros m'. specialize (Hk3 m'). rewrite Hk2 in Hk3. done.
Qed.

(** A VMA keeps its memory alive. *)
Lemma kept_pos P ext hold c s t x v :
  vm_inv P ext hold c s → spaces s !! t = Some x → v ∈ vma_list x → 0 < kept s (vmemory v).
Proof.
  intros Hi Ht Hv. apply list_elem_of_split in Hv as (l1 & l2 & Hl).
  rewrite (vi_keeps _ _ _ _ _ Hi), (count_perm _ _ _ (all_of_lookup _ _ _ Ht)), count_app, Hl.
  rewrite (count_perm _ _ _ (perm_front l1 v l2)), count_cons. unfold at_. rewrite bool_decide_eq_true_2 by done.
  pose proof (count_nonneg (vmemory v) (l1 ++ l2)). pose proof (count_nonneg (vmemory v) (all_of (delete t (spaces s)))).
  pose proof (vi_hold _ _ _ _ _ Hi (vmemory v)). lia.
Qed.

(** ** Cutting a range out of the areas *)

(** Translations only disappear, only under [root], and none is left in [S]. *)
Record removed P (root : Z) (S : Z → Prop) (x x' : Sv39.pt) : Prop := {
  rm_only : ∀ root' va, Sv39.is_root P root' →
    Sv39.translate x' root' va = Sv39.translate x root' va ∨
    (root' = root ∧ Sv39.translate x' root' va = Some (Err PAGE_NOT_PRESENT));
  rm_gone : ∀ va r, S va → Sv39.translate x' root va ≠ Some (Ok r);
}.
Lemma removed_refl P root (S : Z → Prop) x : (∀ va, ~ S va) → removed P root S x x.
Proof. intros Hs. split; [by left|]. intros va r Hva. by destruct (Hs va). Qed.
Lemma removed_trans P root (S1 S2 S : Z → Prop) x x1 x2 :
  Sv39.is_root P root → removed P root S1 x x1 → removed P root S2 x1 x2 →
  (∀ va, S va → S1 va ∨ S2 va) → removed P root S x x2.
Proof.
  intros Hr [A1 A2] [B1 B2] Hs. split.
  - intros root' va Hr'. destruct (B1 root' va Hr') as [->|?]; [by apply A1|by right].
  - intros va r [Hva|Hva]%Hs; [|by apply B2]. destruct (B1 root va Hr) as [->|[_ ->]]; [by apply A2|done].
Qed.
Lemma cleared_removed P root lo hi (S : Z → Prop) x x' :
  (∀ va, S va → lo <= va < hi) → cleared P root lo hi x x' → removed P root S x x'.
Proof. intros Hs [A1 A2]. split; [done|]. intros va r Hva. apply A2. by apply Hs. Qed.

Lemma wrap64_add_l a b : wrap64 (wrap64 a + b) = wrap64 (a + b).
Proof. apply Zplus_mod_idemp_l. Qed.

(** The pieces of [v] outside [a]. *)
Definition cut_pieces (a : Range) (v : VMA) (ps : list VMA) : Prop :=
  ∀ y r, maps ps y r ↔ maps [v] y r ∧ within a y = false.

(** The addresses of [v] in [a]. *)
Definition in_cut (a : Range) (v : VMA) (y : Z) : Prop := within (varea v) y = true ∧ within a y = true.

Lemma maps_one v y r :
  maps [v] y r ↔ within (varea v) y = true ∧
    r = (vmemory v, wrap64 (mem_offset v + (y - rbegin (varea v))), vprot v).
Proof. rewrite maps_cons. split; [intros [?|(w & ?%not_elem_of_nil & _)]; done|by left]. Qed.

Lemma within_false r y : within r y = false ↔ ~ rbegin r <= y < rend r.
Proof. rewrite <- within_spec. by destruct (within r y); split; intros; try done; destruct H1. Qed.

(** The part of an area that keeps the byte each address shows. *)
Lemma maps_part v w y r :
  vmemory w = vmemory v → vprot w = vprot v → inside (varea w) (varea v) →
  wrap64 (mem_offset w - rbegin (varea w)) = wrap64 (mem_offset v - rbegin (varea v)) →
  maps [w] y r ↔ maps [v] y r ∧ within (varea w) y = true.
Proof.
  intros Hm Hp Hin Ho. rewrite !maps_one, Hm, Hp.
  assert (Eo : wrap64 (mem_offset w + (y - rbegin (varea w))) = wrap64 (mem_offset v + (y - rbegin (varea v)))).
  { replace (mem_offset w + (y - rbegin (varea w))) with ((mem_offset w - rbegin (varea w)) + y) by lia.
    replace (mem_offset v + (y - rbegin (varea v))) with ((mem_offset v - rbegin (varea v)) + y) by lia.
    by rewrite <- wrap64_add_l, Ho, wrap64_add_l. }
  rewrite Eo. split; [intros [H1 ->]|naive_solver]. split_and!; [by apply Hin|done|done].
Qed.

Lemma cut_ends v a :
  is_intersecting (varea v) a = true →
  (if rbegin (varea v) <? rbegin a then rbegin a else rbegin (varea v)) = Z.max (rbegin (varea v)) (rbegin a) ∧
  (if rend a <? rend (varea v) then rend a else rend (varea v)) = Z.min (rend (varea v)) (rend a) ∧
  Z.max (rbegin (varea v)) (rbegin a) < Z.min (rend (varea v)) (rend a).
Proof.
  unfold is_intersecting. rewrite Z.ltb_lt.
  destruct (Z.ltb_spec (rbegin (varea v)) (rbegin a)), (Z.ltb_spec (rend a) (rend (varea v))); lia.
Qed.

Lemma inside_meets l1 l2 v w a :
  space_ok (l1 ++ v :: l2) → inside a (varea v) → w ∈ l1 ++ l2 → ~ meets a (varea w).
Proof.
  intros Hok Hin Hw Hm. apply (space_ok_perm _ _ (perm_front _ _ _)), space_ok_cons in Hok as (_ & _ & H3).
  apply (proj2 (H3 w Hw)). by eapply meets_inside.
Qed.

(** What one round of [remove_vma_range] does to the area [v]. *)
Record cut_result P ext hold c s t x (others : list VMA) v a s' : Prop := {
  cr_inv : vm_inv P ext hold c s';
  cr_list : ∃ ps l', spaces s' = <[t := mkTM l' (pgd x)]> (spaces s) ∧ l' ≡ₚ ps ++ others ∧ cut_pieces a v ps;
  cr_pages : removed P (pgd x) (in_cut a v) (pts s) (pts s');
  cr_kept : ∀ m', kept s' m' <= kept s m' + 1;
}.

(** One piece is left. *)
Lemma cut_one_side P ext hold c s t x l1 v l2 a cut f :
  vm_inv P ext hold c s → spaces s !! t = Some x → vma_list x = l1 ++ v :: l2 → uarea cut →
  vid (f v) = vid v → vmemory (f v) = vmemory v → vprot (f v) = vprot v → uarea (varea (f v)) →
  inside (varea (f v)) (varea v) →
  wrap64 (mem_offset (f v) - rbegin (varea (f v))) = wrap64 (mem_offset v - rbegin (varea v)) →
  (∀ y, within (varea v) y = true → within (varea (f v)) y = negb (within a y)) →
  (∀ y, in_cut a v y → rbegin cut <= y < rend cut) →
  ∃ s', (_ ← unmap_pages t cut; update_vma t (vid v) f) s = Fin (Ok tt) s' ∧
    cut_result P ext hold c s t x (l1 ++ l2) v a s'.
Proof.
  intros Hi Ht Hl Hcut Hid Hmem Hprot Ha Hin Hoff Hw Hc.
  pose proof (vi_spaces _ _ _ _ _ Hi t x Ht) as Hok. rewrite Hl in Hok.
  destruct (unmap_pages_run P ext hold c s t x cut Hi Ht Hcut) as (p1 & E1 & Hi1 & Hc1).
  rewrite (bind_run _ _ _ _ _ E1).
  destruct (update_run P ext hold c (set_pts p1 s) t x l1 v l2 f Hi1 Ht Hl Hid Hmem Ha)
    as (s' & E & Hi' & Hsp & Hpt & _ & Hk & _).
  { intros w Hw'. by apply (inside_meets l1 l2 v). }
  exists s'. split; [done|]. split; [done| | |].
  - exists [f v], (l1 ++ f v :: l2). split; [done|]. split; [apply perm_front|]. intros y r.
    rewrite (maps_part v) by done. split; intros [H1 H2]; (split; [done|]); apply maps_one in H1 as [H1 _];
      rewrite (Hw y H1) in *; by destruct (within a y).
  - rewrite Hpt. eapply cleared_removed; [exact Hc|done].
  - intros m'. rewrite Hk. simpl. lia.
Qed.

(** The range lies inside the area: two pieces are left. *)
Lemma cut_middle P ext hold c s t x l1 v l2 a ro :
  vm_inv P ext hold c s → spaces s !! t = Some x → vma_list x = l1 ++ v :: l2 → uarea a →
  kept s (vmemory v) + 2 < W64 →
  rbegin (varea v) < rbegin a → rbegin a < rend a → rend a < rend (varea v) →
  wrap64 (ro - rend a) = wrap64 (mem_offset v - rbegin (varea v)) →
  ∃ s', (_ ← keep (vmemory v);
         _ ← unmap_pages t a;
         _ ← update_vma t (vid v) (set_varea {| rbegin := rbegin (varea v); rend := rbegin a |});
         r ← attempt (add_vma t (vtype v) (vgrowth v) {| rbegin := rend a; rend := rend (varea v) |} (vmemory v)
                (vprot v) ro);
         _ ← release (vmemory v);
         match r with Ok _ => mret tt | Err e => fail e end) s = Fin (Ok tt) s' ∧
    cut_result P ext hold c s t x (l1 ++ l2) v a s'.
Proof.
  intros Hi Ht Hl Ha Hkp Hb Hab He Hro.
  pose proof (vi_spaces _ _ _ _ _ Hi t x Ht) as Hok.
  assert (Hv : v ∈ vma_list x) by (rewrite Hl; set_solver).
  pose proof (so_area _ Hok v Hv) as Hva. rewrite Hl in Hok.
  pose proof (elem_all_of _ _ _ _ Ht Hv) as Hall.
  pose proof (kept_pos _ _ _ _ _ _ _ _ Hi Ht Hv) as Hkv.
  pose proof (vi_alive _ _ _ _ _ Hi _ Hkv) as Hal.
  destruct (keep_inv P ext hold c s (vmemory v) Hi Hal ltac:(lia)) as (s1 & E1 & Hi1 & Hsp1 & Hpt1 & Ho1 & Hn1 & Hk1).
  rewrite (bind_run _ _ _ _ _ E1).
  assert (Ht1 : spaces s1 !! t = Some x) by by rewrite Hsp1.
  destruct (unmap_pages_run P ext _ c s1 t x a Hi1 Ht1 Ha) as (p2 & E2 & Hi2 & Hc2).
  rewrite (bind_run _ _ _ _ _ E2). set (s2 := set_pts p2 s1) in *.
  set (fv := set_varea {| rbegin := rbegin (varea v); rend := rbegin a |} v).
  unfold uarea in Ha, Hva.
  assert (Hfin : inside (varea fv) (varea v)) by (intros y; rewrite !within_spec; simpl; lia).
  destruct (update_run P ext _ c s2 t x l1 v l2 (set_varea {| rbegin := rbegin (varea v); rend := rbegin a |})
    Hi2 Ht1 Hl eq_refl eq_refl) as (s3 & E3 & Hi3 & Hsp3 & Hpt3 & Ho3 & Hk3 & Hn3).
  { unfold uarea; simpl; lia. }
  { intros w Hw. by apply (inside_meets l1 l2 v). }
  rewrite (bind_run _ _ _ _ _ E3). fold fv in Hsp3.
  assert (Ht3 : spaces s3 !! t = Some (mkTM (l1 ++ fv :: l2) (pgd x))) by (rewrite Hsp3; apply lookup_insert_eq).
  set (ra := {| rbegin := rend a; rend := rend (varea v) |}).
  destruct (add_vma_run P ext _ c s3 t _ (vtype v) (vgrowth v) ra (vmemory v) (vprot v) ro Hi3 Ht3)
    as (s4 & E4 & Hi4 & Hsp4 & Hpt4 & Ho4 & Hn4 & Hk4).
  { by apply (vi_null _ _ _ _ _ Hi). }
  { rewrite Ho3. change (objs s2) with (objs s1). by rewrite Ho1. }
  { rewrite Hk3. change (keeps s2) with (keeps s1). rewrite Hk1. unfold at_. rewrite bool_decide_eq_true_2 by done. lia. }
  { split; [unfold uarea; simpl; lia|]. simpl. intros w. rewrite perm_front. intros [->|Hw]%elem_of_cons.
    - intros (y & H1 & H2). apply within_spec in H1, H2. simpl in *. lia.
    - intros Hm. apply meets_sym in Hm. revert Hm. apply (inside_meets l1 l2 v); [done| |done].
      intros y. rewrite !within_spec. simpl. lia. }
  erewrite bind_run; [|unfold attempt; rewrite E4; reflexivity].
  destruct (release_inv P ext _ c s4 (vmemory v) Hi4) as (s5 & E5 & Hi5 & Hsp5 & Hpt5 & Hn5 & Hk5).
  { unfold shift, at_. rewrite bool_decide_eq_true_2 by done. pose proof (vi_hold _ _ _ _ _ Hi (vmemory v)). lia. }
  rewrite (bind_run _ _ _ _ _ E5). exists s5. split; [done|].
  set (rv := mkVMA (next_vma s3) (vtype v) (vgrowth v) (vmemory v) (vprot v) ro ra) in *. simpl in Hsp4. split.
  - eapply vm_inv_hold; [|exact Hi5]. intros m. unfold shift. lia.
  - exists [fv; rv], (insert_vma rv (l1 ++ fv :: l2)). split; [|split].
    + by rewrite Hsp5, Hsp4, Hsp3, insert_insert_eq, <- Hsp1.
    + rewrite insert_perm, perm_front. by rewrite (Permutation_swap fv rv).
    + intros y r. rewrite maps_cons, <- maps_one. rewrite (maps_part v fv) by done.
      rewrite (maps_part v rv); [|done|done|intros z; rewrite !within_spec; simpl; lia|done].
      rewrite within_false, !within_spec. simpl. split; [intros [[H1 ?]|[H1 ?]]|intros [H1 ?]].
      * split; [done|lia].
      * split; [done|lia].
      * pose proof H1 as Hy. apply maps_one in Hy as [Hy _]. apply within_spec in Hy.
        destruct (decide (y < rbegin a)); [left|right]; (split; [done|lia]).
  - rewrite Hpt5, Hpt4, Hpt3. rewrite <- Hpt1. eapply cleared_removed; [|exact Hc2].
    intros y [_ Hy]. by apply within_spec in Hy.
  - intros m'. specialize (Hk5 m'). rewrite Hk4, Hk3 in Hk5. change (keeps s2) with (keeps s1) in Hk5. rewrite Hk1 in Hk5.
    assert (at_ (vmemory v) m' <= 1) by (unfold at_; case_bool_decide; lia).
    destruct (decide (m' = vmemory v)) as [->|Hne].
    + pose proof (vi_keeps _ _ _ _ _ Hi5 (vmemory v)) as Ek5. pose proof (vi_keeps _ _ _ _ _ Hi4 (vmemory v)) as Ek4.
      rewrite Hsp5 in Ek5. unfold shift, at_ in Ek5, Ek4. rewrite bool_decide_eq_true_2 in Ek5, Ek4 by done.
      rewrite Hk4, Hk3 in Ek4. change (keeps s2) with (keeps s1) in Ek4. rewrite Hk1 in Ek4.
      unfold at_ in Ek4. rewrite bool_decide_eq_true_2 in Ek4 by done. lia.
    + unfold at_ in Hk5. rewrite bool_decide_eq_false_2 in Hk5 by done. lia.
Qed.

Lemma cut_vma_run P ext hold c s t x l1 v l2 a :
  vm_inv P ext hold c s → spaces s !! t = Some x → vma_list x = l1 ++ v :: l2 → uarea a →
  kept s (vmemory v) + 2 < W64 →
  ∃ s', cut_vma t a (vid v) s = Fin (Ok tt) s' ∧ cut_result P ext hold c s t x (l1 ++ l2) v a s'.
Proof.
  intros Hi Ht Hl Ha Hk. pose proof (vi_spaces _ _ _ _ _ Hi t x Ht) as Hok.
  assert (Hv : v ∈ vma_list x) by (rewrite Hl; set_solver).
  pose proof (so_area _ Hok v Hv) as Hva. unfold cut_vma.
  rewrite (bind_run _ _ _ _ _ (vma_of_run s t x v Ht Hok Hv)).
  destruct (is_intersecting (varea v) a) eqn:Ei; simpl.
  2: { exists s. split; [done|]. apply not_meets in Ei. split; [done| | |lia].
       - exists [v], (l1 ++ v :: l2). split; [|split; [apply perm_front|]].
         + rewrite <- Hl. rewrite insert_id; [done|]. rewrite Ht. by destruct x.
         + intros y r. split; [|by intros [? _]]. intros Hm. split; [done|]. apply maps_one in Hm as [Hy _].
           destruct (within a y) eqn:Ey; [|done]. destruct Ei. by exists y.
       - apply removed_refl. intros y [H1 H2]. apply Ei. by exists y. }
  destruct (cut_ends v a Ei) as (Eb & Ee & Hlt). rewrite Eb, Ee.
  set (cb := Z.max _ _) in *. set (ce := Z.min _ _) in *.
  rewrite (proj2 (Z.leb_gt ce cb)) by lia. unfold uarea in Ha, Hva.
  assert (Hsz : sub64 ce cb = ce - cb) by (apply wrap64_small; unfold is_u64, W64, KPA_OFFSET in *; lia).
  assert (Hco : sub64 cb (rbegin (varea v)) = cb - rbegin (varea v))
    by (apply wrap64_small; unfold is_u64, W64, KPA_OFFSET in *; lia).
  assert (Hcut : uarea {| rbegin := cb; rend := ce |}) by (unfold uarea; simpl; lia).
  assert (Hcin : ∀ y, in_cut a v y → cb <= y < ce).
  { intros y [H1 H2]. apply within_spec in H1, H2. lia. }
  destruct (Z.eqb_spec cb (rbegin (varea v))) as [E1|E1], (Z.eqb_spec ce (rend (varea v))) as [E2|E2]; cbn [andb].
  - destruct (remove_vma_run P ext hold c s t x l1 v l2 Hi Ht Hl) as (s' & E & Hi' & Hsp & _ & Hc & Hk').
    exists s'. split; [done|]. split; [done| | |].
    + exists [], (l1 ++ l2). split; [done|]. split; [done|]. intros y r. split; [by intros (w & ?%not_elem_of_nil & _)|].
      intros [Hm Hy]. apply maps_one in Hm as [Hm _]. apply within_spec in Hm. apply within_false in Hy. lia.
    + eapply cleared_removed; [|exact Hc]. intros y Hy. specialize (Hcin y Hy). lia.
    + intros m'. specialize (Hk' m'). lia.
  - eapply (cut_one_side P ext hold c s t x l1 v l2 a _
      (λ v0, set_mem_offset (add64 (mem_offset v0) (sub64 ce cb)) (set_varea {| rbegin := ce; rend := rend (varea v) |} v0)));
      try done; simpl.
    + unfold uarea; simpl; lia.
    + intros y. rewrite !within_spec. simpl. lia.
    + rewrite Hsz. unfold add64, Z.sub at 1. rewrite wrap64_add_l. f_equal. lia.
    + intros y Hy. apply within_spec in Hy.
      destruct (within a y) eqn:Eay; [apply within_spec in Eay|apply within_false in Eay];
      destruct (within _ y) eqn:Ewy; try done; [apply within_spec in Ewy|apply within_false in Ewy]; simpl in *; lia.
  - eapply (cut_one_side P ext hold c s t x l1 v l2 a _ (set_varea {| rbegin := rbegin (varea v); rend := cb |}));
      try done; simpl.
    + unfold uarea; simpl; lia.
    + intros y. rewrite !within_spec. simpl. lia.
    + intros y Hy. apply within_spec in Hy.
      destruct (within a y) eqn:Eay; [apply within_spec in Eay|apply within_false in Eay];
      destruct (within _ y) eqn:Ewy; try done; [apply within_spec in Ewy|apply within_false in Ewy]; simpl in *; lia.
  - assert (Ecut : {| rbegin := cb; rend := ce |} = a) by (destruct a; simpl in *; f_equal; lia).
    assert (Hbb : rbegin (varea v) < rbegin a ∧ rbegin a < rend a ∧ rend a < rend (varea v)) by lia.
    rewrite Ecut. assert (cb = rbegin a ∧ ce = rend a) as [-> ->] by lia.
    eapply cut_middle; try done; try lia. rewrite Hco, Hsz. unfold add64.
    rewrite wrap64_add_l. unfold Z.sub at 1. rewrite wrap64_add_l. f_equal. lia.
Qed.

(** The rounds of the loop; [L] are the areas not yet visited. *)
Lemma cut_loop_run P ext hold c t a L s x D :
  vm_inv P ext hold c s → spaces s !! t = Some x → vma_list x ≡ₚ D ++ L → uarea a →
  (∀ m, kept s m + Z.of_nat (length L) + 2 < W64) →
  ∃ s' x' R, cut_loop t a (vid <$> L) s = Fin (Ok tt) s' ∧ vm_inv P ext hold c s' ∧
    spaces s' = <[t := x']> (spaces s) ∧ pgd x' = pgd x ∧ vma_list x' ≡ₚ D ++ R ∧
    (∀ y r, maps R y r ↔ maps L y r ∧ within a y = false) ∧
    removed P (pgd x) (λ y, within a y = true ∧ ∃ v, v ∈ L ∧ within (varea v) y = true) (pts s) (pts s').
Proof.
  revert s x D. induction L as [|v L IH]; intros s x D Hi Ht Hp Ha Hk.
  - exists s, x, []. split; [done|]. split; [done|]. split; [by rewrite insert_id|]. split; [done|]. split; [done|]. split.
    + intros y r. split; [by intros (w & ?%not_elem_of_nil & _)|by intros [(w & ?%not_elem_of_nil & _) _]].
    + apply removed_refl. by intros y [_ (w & ?%not_elem_of_nil & _)].
  - assert (Hv : v ∈ vma_list x) by (rewrite Hp; set_solver).
    apply list_elem_of_split in Hv as (l1 & l2 & Hl).
    simpl length in Hk. pose proof (Hk (vmemory v)) as Hkv.
    destruct (cut_vma_run P ext hold c s t x l1 v l2 a Hi Ht Hl Ha ltac:(lia)) as (s1 & E1 & [Hi1 Hls1 Hpt1 Hk1]).
    destruct Hls1 as (ps & l' & Hsp1 & Hl' & Hps).
    rewrite fmap_cons. cbn [cut_loop]. rewrite (bind_run _ _ _ _ _ E1).
    assert (Hrest : l1 ++ l2 ≡ₚ D ++ L).
    { apply (Permutation_cons_inv (a := v)). rewrite <- perm_front, <- Hl, Hp. apply perm_front. }
    assert (Ht1 : spaces s1 !! t = Some (mkTM l' (pgd x))) by (rewrite Hsp1; apply lookup_insert_eq).
    destruct (IH s1 (mkTM l' (pgd x)) (ps ++ D) Hi1 Ht1) as (s2 & x2 & R & E2 & Hi2 & Hsp2 & Hpg2 & Hl2 & Hm2 & Hr2).
    { simpl. rewrite Hl', Hrest. by rewrite app_assoc. }
    { done. }
    { intros m. specialize (Hk m). specialize (Hk1 m). lia. }
    exists s2, x2, (ps ++ R). split; [done|]. split; [done|]. split; [by rewrite Hsp2, Hsp1, insert_insert_eq|].
    split; [done|]. split_and!.
    + rewrite Hl2. rewrite (Permutation_app_comm ps D). by rewrite app_assoc.
    + intros y r. assert (Happ : maps (ps ++ R) y r ↔ maps ps y r ∨ maps R y r).
      { unfold maps. setoid_rewrite elem_of_app. naive_solver. }
      rewrite Happ, (Hps y r), (Hm2 y r), (maps_cons v L), <- maps_one. naive_solver.
    + eapply removed_trans; [apply (vi_root _ _ _ _ _ Hi t x Ht)|exact Hpt1|exact Hr2|].
      intros y (Hy & w & [->|Hw]%elem_of_cons & Hwy); [left; by split|right]. split; [done|]. by exists w.
Qed.

Lemma remove_range_run P ext hold c s t x a :
  vm_inv P ext hold c s → spaces s !! t = Some x → is_u64 (rbegin a) → is_u64 (rend a) →
  (∀ m, kept s m + Z.of_nat (length (vma_list x)) + 2 < W64) →
  ∃ r s' x', remove_vma_range t a s = Fin r s' ∧ vm_inv P ext hold c s' ∧ spaces s' = <[t := x']> (spaces s) ∧
    pgd x' = pgd x ∧
    match r with
    | Ok _ => (∀ y z, maps (vma_list x') y z ↔ maps (vma_list x) y z ∧ within a y = false) ∧
        removed P (pgd x) (λ y, within a y = true ∧ ∃ v, v ∈ vma_list x ∧ within (varea v) y = true) (pts s) (pts s')
    | Err e => e = INVALID_PARAM ∧ s' = s ∧ ~ uarea a
    end.
Proof.
  intros Hi Ht Hb He Hk. unfold remove_vma_range.
  destruct (nullable a) eqn:En.
  { exists (Ok tt), s, x. split; [done|]. split; [done|]. split; [by rewrite insert_id|]. split; [done|].
    assert (Hn : ∀ y, within a y = false).
    { intros y. apply within_false. unfold nullable in En. apply Z.leb_le in En. lia. }
    split.
    - intros y z. split; [by intros; split|by intros [? _]].
    - apply removed_refl. intros y [Hy _]. rewrite Hn in Hy. done. }
  destruct (valid_user_area a) eqn:Ev; simpl.
  2: { exists (Err INVALID_PARAM), s, x. split; [done|]. split; [done|]. split; [by rewrite insert_id|].
       split_and!; try done. intros Ha. apply uarea_valid in Ha. congruence. }
  apply (valid_uarea a Hb He) in Ev. rewrite (bind_run _ _ _ _ _ (get_tm_run s t x Ht)).
  destruct (cut_loop_run P ext hold c t a (vma_list x) s x [] Hi Ht ltac:(done) Ev Hk)
    as (s' & x' & R & E & Hi' & Hsp & Hpg & Hl & Hm & Hr).
  exists (Ok tt), s', x'. split_and!; try done. intros y z. rewrite <- Hm. split; apply maps_perm; by rewrite Hl.
Qed.

(** ** Changing the size of an area *)

Lemma inner_uarea b e :
  0 < b → b <= e → e < KPA_OFFSET →
  let u := page_inner_area {| rbegin := b; rend := e |} in nullable u = false → uarea u.
Proof.
  intros Hb Hbe He u. unfold u, page_inner_area, nullable, uarea, KPA_OFFSET in *. cbn [rbegin rend].
  destruct (page_align_up_spec b) as [Hu1 _]; [unfold is_u64, W64; lia|unfold W64, PAGESIZE; lia|].
  destruct (page_align_down_spec e) as [Hd1 _]; [unfold is_u64, W64; lia|].
  destruct (Z.leb_spec (page_align_down e) (page_align_up b)); cbn [rbegin rend]; rewrite Z.leb_gt; lia.
Qed.

(** Unmapping that may be skipped. *)
Lemma unmap_opt_run P ext hold c s t x u :
  vm_inv P ext hold c s → spaces s !! t = Some x → (nullable u = false → uarea u) →
  ∃ x', (if nullable u then mret tt else unmap_pages t u) s = Fin (Ok tt) (set_pts x' s) ∧
    vm_inv P ext hold c (set_pts x' s).
Proof.
  intros Hi Ht Hu. destruct (nullable u).
  - exists (pts s). assert (set_pts (pts s) s = s) as -> by by destruct s. done.
  - destruct (unmap_pages_run P ext hold c s t x u Hi Ht (Hu eq_refl)) as (x' & E & Hi' & _). by exists x'.
Qed.

Lemma grow_vma_run P ext hold c s t x l1 v l2 a :
  vm_inv P ext hold c s → spaces s !! t = Some x → vma_list x = l1 ++ v :: l2 →
  is_u64 (rbegin a) → is_u64 (rend a) →
  ∃ r s', grow_vma t (vid v) a s = Fin r s' ∧ vm_inv P ext hold c s' ∧
    match r with
    | Ok a' => a' = a ∧ spaces s' = <[t := mkTM (l1 ++ set_varea a v :: l2) (pgd x)]> (spaces s) ∧
               objs s' = objs s ∧ keeps s' = keeps s
    | Err _ => s' = s
    end.
Proof.
  intros Hi Ht Hl Hb He. pose proof (vi_spaces _ _ _ _ _ Hi t x Ht) as Hok.
  assert (Hv : v ∈ vma_list x) by (rewrite Hl; set_solver).
  pose proof (so_area _ Hok v Hv) as Hva.
  unfold grow_vma. rewrite (bind_run _ _ _ _ _ (check_run s t x v Ht Hok Hv)).
  destruct (valid_user_area a) eqn:Ev; cbn [negb]; [|by exists (Err INVALID_PARAM), s].
  apply (valid_uarea a Hb He) in Ev.
  destruct (range_eqb a (varea v)) eqn:Er.
  { apply range_eqb_eq in Er. subst a. exists (Ok (varea v)), s. split_and!; try done.
    assert (set_varea (varea v) v = v) as -> by by destruct v. rewrite <- Hl. rewrite insert_id; [done|].
    rewrite Ht. by destruct x. }
  set (gu := _ && (rend (varea v) <? rend a)). set (su := (rbegin a =? rbegin (varea v)) && _).
  set (gd := (rend a =? rend (varea v)) && (rbegin a <? _)). set (sd := (rend a =? _) && _).
  repeat match goal with |- context [if ?b then fail ?e else _] =>
    destruct b eqn:?; [by exists (Err e), s|] end.
  rewrite (bind_run _ _ _ _ _ (get_tm_run s t x Ht)).
  destruct (negb (nullable a) && _) eqn:Eb; [by exists (Err BUSY), s|].
  assert (Hfree : ∀ w, w ∈ l1 ++ l2 → ~ meets a (varea w)).
  { intros w Hw Hm. destruct (nullable a) eqn:En.
    - apply meets_sym in Hm. by apply (empty_meets (varea w) a En).
    - cbn [negb andb] in Eb. rewrite existsb_false_forallb in Eb. rewrite List.forallb_forall in Eb.
      assert (Hin : w ∈ vma_list x) by (rewrite Hl; set_solver).
      specialize (Eb w (proj1 (list_elem_of_In _ _) Hin)).
      assert (Hid : vid w ≠ vid v) by (rewrite Hl in Hok; by apply (ids_apart l1 v l2)).
      rewrite (proj2 (Z.eqb_neq _ _) Hid) in Eb. cbn [negb andb] in Eb.
      apply negb_true_iff, not_meets in Eb. by apply Eb, meets_sym. }
  assert (Hun : ∃ x', (if su then
                 let u := page_inner_area {| rbegin := rend a; rend := rend (varea v) |} in
                 if nullable u then mret tt else unmap_pages t u
               else if sd then
                 let u := page_inner_area {| rbegin := rbegin (varea v); rend := rbegin a |} in
                 if nullable u then mret tt else unmap_pages t u
               else mret tt) s = Fin (Ok tt) (set_pts x' s) ∧ vm_inv P ext hold c (set_pts x' s)).
  { unfold uarea in Ev, Hva. destruct su eqn:Esu; [|destruct sd eqn:Esd].
    - apply (unmap_opt_run P ext hold c s t x); [done|done|]. unfold su in Esu. apply andb_true_iff in Esu as [_ Esu].
      apply Z.ltb_lt in Esu. apply inner_uarea; lia.
    - apply (unmap_opt_run P ext hold c s t x); [done|done|]. unfold sd in Esd. apply andb_true_iff in Esd as [_ Esd].
      apply Z.ltb_lt in Esd. apply inner_uarea; lia.
    - exists (pts s). assert (set_pts (pts s) s = s) as -> by by destruct s. done. }
  destruct Hun as (p1 & E1 & Hi1). rewrite (bind_run _ _ _ _ _ E1).
  destruct (update_run P ext hold c (set_pts p1 s) t x l1 v l2 (set_varea a) Hi1 Ht Hl eq_refl eq_refl Ev Hfree)
    as (s2 & E2 & Hi2 & Hsp2 & Hpt2 & Ho2 & Hk2 & Hn2).
  rewrite (bind_run _ _ _ _ _ E2). exists (Ok a), s2. by split_and!.
Qed.
(** ** Following the size of a memory *)

Lemma memory_of_run P ext hold c s t x v :
  vm_inv P ext hold c s → spaces s !! t = Some x → v ∈ vma_list x →
  ∃ p, Memory.mems (objs s) !! vmemory v = Some p ∧ memory_of (vmemory v) s = Fin (Ok p) s.
Proof.
  intros Hi Ht Hv. destruct (vi_alive _ _ _ _ _ Hi _ (kept_pos _ _ _ _ _ _ _ _ Hi Ht Hv)) as [p Hp].
  exists p. split; [done|]. unfold memory_of, with_mem. rewrite (Memory.get_mem_run _ _ _ Hp). by destruct s.
Qed.

(** The part of an area below [new_size] bytes of the memory. *)
Definition truncated (memory new_size : Z) (v : VMA) : VMA :=
  if bool_decide (vmemory v = memory)
  then set_varea {| rbegin := rbegin (varea v);
                    rend := Z.min (rend (varea v)) (rbegin (varea v) + Z.max 0 (new_size - mem_offset v)) |} v
  else v.

Lemma truncate_end v new_size :
  uarea (varea v) →
  add64 (rbegin (varea v))
    (if (if mem_offset v <? new_size then new_size - mem_offset v else 0) <? vsize v
     then (if mem_offset v <? new_size then new_size - mem_offset v else 0) else vsize v) =
  Z.min (rend (varea v)) (rbegin (varea v) + Z.max 0 (new_size - mem_offset v)).
Proof.
  intros (Hb & Hbe & He). unfold vsize, rsize, sub64. unfold KPA_OFFSET in He.
  rewrite (wrap64_small (rend (varea v) - rbegin (varea v))) by (unfold is_u64, W64; lia).
  destruct (Z.ltb_spec (mem_offset v) new_size);
    match goal with |- context [?a <? rend (varea v) - rbegin (varea v)] =>
      destruct (Z.ltb_spec a (rend (varea v) - rbegin (varea v))) end; unfold add64;
    rewrite wrap64_small by (unfold is_u64, W64; lia); lia.
Qed.

Lemma tail_loop_run P ext hold c t m new_size L s x D :
  vm_inv P ext hold c s → spaces s !! t = Some x → vma_list x = D ++ L →
  ∃ s', tail_loop t m new_size (vid <$> L) s = Fin (Ok tt) s' ∧ vm_inv P ext hold c s' ∧
    spaces s' = <[t := mkTM (D ++ (truncated m new_size <$> L)) (pgd x)]> (spaces s) ∧
    objs s' = objs s ∧ keeps s' = keeps s.
Proof.
  revert s x D. induction L as [|v L IH]; intros s x D Hi Ht Hl.
  - exists s. split_and!; try done. change (truncated m new_size <$> []) with (@nil VMA). rewrite <- Hl.
    rewrite insert_id; [done|]. rewrite Ht. by destruct x.
  - pose proof (vi_spaces _ _ _ _ _ Hi t x Ht) as Hok.
    assert (Hv : v ∈ vma_list x) by (rewrite Hl; set_solver).
    pose proof (so_area _ Hok v Hv) as Hva.
    rewrite fmap_cons. cbn [tail_loop]. rewrite (bind_run _ _ _ _ _ (vma_of_run s t x v Ht Hok Hv)).
    match goal with |- context [mbind (λ _, tail_loop t m new_size (vid <$> L)) ?b] => set (body := b) end.
    assert (Hstep : ∃ s1, body s = Fin (Ok tt) s1 ∧ vm_inv P ext hold c s1 ∧
      spaces s1 = <[t := mkTM (D ++ truncated m new_size v :: L) (pgd x)]> (spaces s) ∧
      objs s1 = objs s ∧ keeps s1 = keeps s).
    { assert (Hsame : <[t := mkTM (D ++ v :: L) (pgd x)]> (spaces s) = spaces s).
      { rewrite <- Hl. rewrite insert_id; [done|]. rewrite Ht. by destruct x. }
      unfold body, truncated. clear IH body. case_bool_decide as Em.
      2: { rewrite (proj2 (Z.eqb_neq _ _)) by done. by exists s. }
      rewrite (proj2 (Z.eqb_eq _ _)) by done. cbn [negb]. cbv zeta. rewrite (truncate_end v new_size Hva).
      set (ne := Z.min _ _). destruct Hva as (Hb & Hbe & He).
      destruct (Z.ltb_spec ne (rend (varea v))) as [Hlt|Hge].
      2: { exists s. split_and!; try done.
           replace (set_varea _ v) with v; [done|]. destruct v as [? ? ? ? ? ? [? ?]]. unfold set_varea. simpl in *.
           do 2 f_equal. unfold ne in Hge. lia. }
      destruct (unmap_pages_run P ext hold c s t x {| rbegin := ne; rend := rend (varea v) |} Hi Ht)
        as (p1 & E1 & Hi1 & _).
      { unfold uarea; simpl. unfold ne. lia. }
      rewrite (bind_run _ _ _ _ _ E1).
      destruct (update_run P ext hold c (set_pts p1 s) t x D v L
        (set_varea {| rbegin := rbegin (varea v); rend := ne |}) Hi1 Ht Hl eq_refl eq_refl)
        as (s2 & E2 & Hi2 & Hsp2 & _ & Ho2 & Hk2 & _).
      { unfold uarea; simpl. unfold ne. lia. }
      { intros w Hw. apply (inside_meets D L v); [by rewrite <- Hl| |done].
        intros y. rewrite !within_spec. simpl. lia. }
      exists s2. by split_and!. }
    destruct Hstep as (s1 & E1 & Hi1 & Hsp1 & Ho1 & Hk1). rewrite (bind_run _ _ _ _ _ E1).
    destruct (IH s1 (mkTM (D ++ truncated m new_size v :: L) (pgd x)) (D ++ [truncated m new_size v]) Hi1)
      as (s2 & E2 & Hi2 & Hsp2 & Ho2 & Hk2).
    { rewrite Hsp1. apply lookup_insert_eq. }
    { simpl. by rewrite <- app_assoc. }
    exists s2. split_and!; [done|done| |congruence|congruence].
    rewrite Hsp2, Hsp1, insert_insert_eq, <- app_assoc. done.
Qed.

Lemma tail_run P ext hold c s t x m new_size :
  vm_inv P ext hold c s → spaces s !! t = Some x →
  ∃ s', unmap_memory_tail t m new_size s = Fin (Ok tt) s' ∧ vm_inv P ext hold c s' ∧
    spaces s' = <[t := mkTM (truncated m new_size <$> vma_list x) (pgd x)]> (spaces s) ∧
    objs s' = objs s ∧ keeps s' = keeps s.
Proof.
  intros Hi Ht. unfold unmap_memory_tail. rewrite (bind_run _ _ _ _ _ (get_tm_run s t x Ht)).
  by apply (tail_loop_run P ext hold c t m new_size (vma_list x) s x []).
Qed.

(** The areas are resized one after the other; the first one that cannot be
    resized ends the loop. *)
Lemma sync_loop_run P ext hold c t m L s x D :
  vm_inv P ext hold c s → spaces s !! t = Some x → vma_list x = D ++ L →
  ∃ r s' x', sync_loop t m (vid <$> L) s = Fin r s' ∧ vm_inv P ext hold c s' ∧
    spaces s' = <[t := x']> (spaces s) ∧ pgd x' = pgd x ∧ objs s' = objs s ∧ keeps s' = keeps s.
Proof.
  revert s x D. induction L as [|v L IH]; intros s x D Hi Ht Hl.
  - exists (Ok tt), s, x. split_and!; try done. by rewrite insert_id.
  - pose proof (vi_spaces _ _ _ _ _ Hi t x Ht) as Hok.
    assert (Hv : v ∈ vma_list x) by (rewrite Hl; set_solver).
    rewrite fmap_cons. cbn [sync_loop]. rewrite (bind_run _ _ _ _ _ (vma_of_run s t x v Ht Hok Hv)).
    assert (Hl' : vma_list x = (D ++ [v]) ++ L) by by rewrite <- app_assoc.
    destruct (Z.eqb_spec (vmemory v) m) as [<-|Em]; cbn [negb]; [|by apply (IH s x (D ++ [v]))].
    destruct (memory_of_run P ext hold c s t x v Hi Ht Hv) as (p & Hp & Ep).
    rewrite (bind_run _ _ _ _ _ Ep). cbv zeta.
    match goal with |- context [grow_vma t (vid v) ?a] => set (na := a) end.
    destruct (grow_vma_run P ext hold c s t x D v L na Hi Ht Hl) as (r & s1 & E1 & Hi1 & Hr).
    { unfold na. destruct (Memory.growth_and _ _); simpl; [apply wrap64_range|].
      pose proof (so_area _ Hok v Hv) as Hva. by apply uarea_u64. }
    { unfold na. destruct (Memory.growth_and _ _); simpl; [|apply wrap64_range].
      pose proof (so_area _ Hok v Hv) as Hva. by apply uarea_u64. }
    destruct r as [a|e].
    + destruct Hr as (-> & Hsp1 & Ho1 & Hk1). rewrite (bind_run _ _ _ _ _ E1).
      destruct (IH s1 (mkTM (D ++ set_varea na v :: L) (pgd x)) (D ++ [set_varea na v]) Hi1)
        as (r & s2 & x2 & E2 & Hi2 & Hsp2 & Hpg2 & Ho2 & Hk2).
      { rewrite Hsp1. apply lookup_insert_eq. }
      { simpl. by rewrite <- app_assoc. }
      exists r, s2, x2. split_and!; [done|done| |done|congruence|congruence].
      by rewrite Hsp2, Hsp1, insert_insert_eq.
    + subst s1. rewrite (bind_run_err _ _ _ _ _ E1). exists (Err e), s, x. split_and!; try done. by rewrite insert_id.
Qed.

Lemma sync_run P ext hold c s t x m :
  vm_inv P ext hold c s → spaces s !! t = Some x →
  ∃ r s' x', sync_memory_vmas t m s = Fin r s' ∧ vm_inv P ext hold c s' ∧
    spaces s' = <[t := x']> (spaces s) ∧ pgd x' = pgd x ∧ objs s' = objs s ∧ keeps s' = keeps s.
Proof.
  intros Hi Ht. unfold sync_memory_vmas. rewrite (bind_run _ _ _ _ _ (get_tm_run s t x Ht)).
  by apply (sync_loop_run P ext hold c t m (vma_list x) s x []).
Qed.
End inv.

End VmaInv.
