(* ===== verification/VmaOps.v ===== *)
(** * Operations on address spaces

    Steps that change memory objects, page tables and areas together: mapping,
    unmapping and resizing a memory object through [MemoryObject]
    (kernel/object/memory.cpp), [protect_memory_cow] and the destruction of an address
    space (kernel/mem/vma.cpp).  Each keeps the invariant of [VmaInv]; the list of all
    operations is in [VmaFault]. *)
From S2P Require Import Prelude ErrCode Addr Buddy Gfp Memory Sv39 Vma VmaInv.

Module VmaOps.
Import Vma VmaInv.

Section ops.
Context {G F : Type} `{Memory.PageFrames G} `{Memory.VFileOps F}.
Implicit Types (s : vm G F) (P : Sv39.ghost) (ext hold : Z → Z) (c : nat).

Abbreviation pages s := (Memory.flatten (Memory.mems (objs s))).

(** ** Steps of the memory objects and of the page tables keep the invariant *)

Lemma pages_step (ms ms' : gmap Z Memory.MemoryPayload) m p p' :
  (∀ m', m' ≠ m → ms' !! m' = ms !! m') → ms !! m = Some p → ms' !! m = Some p' →
  (size (Memory.flatten ms') + size (Memory.phy_pages p) =
   size (Memory.flatten ms) + size (Memory.phy_pages p'))%nat.
Proof.
  intros Hne Hm Hm'. rewrite (Memory.flatten_size _ _ _ Hm), (Memory.flatten_size _ _ _ Hm').
  replace (delete m ms') with (delete m ms); [lia|]. apply map_eq. intros m'.
  destruct (decide (m = m')) as [<-|]; [by rewrite !lookup_delete_eq|]. by rewrite !lookup_delete_ne, Hne.
Qed.

Lemma mem_step_any P ext hold c0 c s o m p p' n :
  vm_inv P ext hold c0 s → Memory.mems (objs s) !! m = Some p →
  Memory.mem_inv ext (size (pages s) + (n + c)) o → Memory.private_to ext m (objs s) o →
  Memory.mems o !! m = Some p' → (size (Memory.phy_pages p') <= size (Memory.phy_pages p) + n)%nat →
  vm_inv P ext hold c (set_objs o s).
Proof.
  intros [H1 H2 H3 H4 H5 H6 H7 H8 H9] Hm Ho Hpv Hrp Hsz. split; try done.
  - eapply Memory.mem_inv_le; [exact Ho|].
    pose proof (pages_step _ _ m p _ (Memory.pv_mems _ _ _ _ Hpv) Hm Hrp) as Hp. simpl in *. lia.
  - intros m' Hm'. simpl. destruct (decide (m' = m)) as [->|Hne]; [by rewrite Hrp|].
    rewrite (Memory.pv_mems _ _ _ _ Hpv) by done. by apply H6.
Qed.

Lemma mem_step_inv P ext hold c0 c s o m p pg n :
  vm_inv P ext hold c0 s → Memory.mems (objs s) !! m = Some p →
  Memory.mem_inv ext (size (pages s) + (n + c)) o → Memory.private_to ext m (objs s) o →
  Memory.repaged o m p pg → (size pg <= size (Memory.phy_pages p) + n)%nat →
  vm_inv P ext hold c (set_objs o s).
Proof. intros Hi Hm Ho Hpv Hrp Hsz. by apply (mem_step_any P ext hold c0 c s o m p _ n Hi Hm Ho Hpv Hrp). Qed.

Lemma pt_step_inv P P' ext hold c s x :
  vm_inv P ext hold c s → Sv39.pt_inv x P' → P ⊆ P' → vm_inv P' ext hold c (set_pts x s).
Proof.
  intros [H1 H2 H3 H4 H5 H6 H7 H8 H9] Hx Hs. split; try done. intros t y Ht.
  destruct (H2 t y Ht) as (q & j & E). exists q, j. by eapply lookup_weaken.
Qed.

Lemma vm_inv_le P ext hold c d s : vm_inv P ext hold c s → (d <= c)%nat → vm_inv P ext hold d s.
Proof. intros [H1 H2 H3 H4 H5 H6 H7 H8 H9] Hd. split; try done. eapply Memory.mem_inv_le; [done|]. lia. Qed.

Definition space_alive s (t : Z) : Prop := is_Some (spaces s !! t).
Definition vma_alive s (id : Z) : Prop := ∃ v, v ∈ all_of (spaces s) ∧ vid v = id.
Definition u64_area (a : Range) : Prop := is_u64 (rbegin a) ∧ is_u64 (rend a).

(** [__check_vma] finds the VMA in this space or refuses it. *)
Lemma check_any s t x id :
  spaces s !! t = Some x → vma_alive s id →
  (∃ v, v ∈ vma_list x ∧ vid v = id ∧ check_vma t id s = Fin (Ok v) s) ∨ check_vma t id s = Fin (Err INVALID_PARAM) s.
Proof.
  intros Ht (w & Hw & <-). unfold check_vma, vma_of.
  assert (Ev : (x ← get_tm t; mret (List.find (λ v, vid v =? vid w) (vma_list x))) s =
    Fin (Ok (List.find (λ v, vid v =? vid w) (vma_list x))) s)
    by by rewrite (bind_run _ _ _ _ _ (get_tm_run s t x Ht)).
  rewrite (bind_run _ _ _ _ _ Ev). destruct (List.find _ (vma_list x)) as [v|] eqn:Ef.
  - left. apply List.find_some in Ef as [Hin Hid%Z.eqb_eq]. exists v. by rewrite list_elem_of_In.
  - right. match goal with |- context [gets ?f] => rewrite (bind_run (gets f) _ _ true s) end; [done|].
    unfold gets. repeat f_equal. apply existsb_exists. unfold all_of in Hw.
    apply list_elem_of_bind in Hw as (y & Hy & Hx). exists y. split; [by apply list_elem_of_In|].
    apply existsb_exists. exists w. split; [by apply list_elem_of_In|apply Z.eqb_refl].
Qed.

Lemma add_vma_any P ext hold c s t x ty gr a m prot off :
  vm_inv P ext hold c s → spaces s !! t = Some x → u64_area a → m = 0 ∨ is_Some (Memory.mems (objs s) !! m) →
  default 0 (keeps s !! m) < W64 - 1 →
  ∃ r s', add_vma t ty gr a m prot off s = Fin r s' ∧ vm_inv P ext hold c s' ∧ (∀ e, r = Err e → s' = s).
Proof.
  intros Hi Ht [Hb He] Hm Hk. pose proof (add_vma_check (vma_list x) a Hb He) as Hc.
  destruct (decide (m = 0)) as [->|Hm0]; [by exists (Err NULLPTR), s|].
  assert (Hfit : fits (vma_list x) a → ∃ r s', add_vma t ty gr a m prot off s = Fin r s' ∧ vm_inv P ext hold c s' ∧
    (∀ e, r = Err e → s' = s)).
  { intros Hf. destruct (add_vma_run P ext hold c s t x ty gr a m prot off Hi Ht Hm0) as (s' & E & Hi' & _); try done.
    { by destruct Hm. }
    by exists (Ok (next_vma s)), s'. }
  revert Hc Hfit. unfold add_vma. rewrite (proj2 (Z.eqb_neq m 0)) by done.
  destruct (negb (valid_user_area a)); [by exists (Err INVALID_PARAM), s|].
  rewrite (bind_run _ _ _ _ _ (get_tm_run s t x Ht)).
  destruct (negb (nullable a) && _); [by exists (Err BUSY), s|]. intros Hc Hfit. by apply Hfit, Hc.
Qed.

Lemma all_of_length (sp : gmap Z TM) t x : sp !! t = Some x → (length (vma_list x) <= length (all_of sp))%nat.
Proof. intros Ht. rewrite (Permutation_length (all_of_lookup sp t x Ht)), length_app. lia. Qed.

(** An operation on the VMA [id] of a space. *)
Lemma on_vma {A} P ext hold c s t x id (k : VMA → M (vm G F) A) :
  vm_inv P ext hold c s → spaces s !! t = Some x → vma_alive s id →
  (∀ l1 v l2, vma_list x = l1 ++ v :: l2 → vid v = id → check_vma t id s = Fin (Ok v) s →
     ∃ r s', (v ← check_vma t id; k v) s = Fin r s' ∧ vm_inv P ext hold c s') →
  ∃ r s', (v ← check_vma t id; k v) s = Fin r s' ∧ vm_inv P ext hold c s'.
Proof.
  intros Hi Ht Hid Hk. destruct (check_any s t x id Ht Hid) as [(v & Hv & Hvid & E)|E].
  - pose proof Hv as (l1 & l2 & Hl)%list_elem_of_split. by apply (Hk l1 v l2).
  - exists (Err INVALID_PARAM), s. by rewrite (bind_run_err _ _ _ _ _ E).
Qed.

Lemma then_done {A} (m : M (vm G F) A) (I : vm G F → Prop) s :
  (∃ r s', m s = Fin r s' ∧ I s') → ∃ r s', (_ ← m; mret tt) s = Fin r s' ∧ I s'.
Proof.
  intros (r & s' & E & Hi). destruct r as [y|e].
  - exists (Ok tt), s'. by rewrite (bind_run _ _ _ _ _ E).
  - exists (Err e), s'. by rewrite (bind_run_err _ _ _ _ _ E).
Qed.

(** ** Memory objects through [MemoryObject] *)

Lemma with_mem_run {A} (k : M (Memory.mstate G F) A) s r o :
  k (objs s) = Fin r o → with_mem k s = Fin r (set_objs o s).
Proof. intros E. unfold with_mem. by rewrite E. Qed.

Lemma memory_of_alive s m p : Memory.mems (objs s) !! m = Some p → memory_of m s = Fin (Ok p) s.
Proof. intros Hm. unfold memory_of. erewrite with_mem_run; [|by apply Memory.get_mem_run]. by destruct s. Qed.

(** Frames a payload in continuity mode takes for a size of [n] bytes, and calls of
    the allocator. *)
Definition run_room (p : Memory.MemoryPayload) (n : Z) : nat :=
  if Memory.continuity p then Z.to_nat (Memory.pages_of n) else 0.
Definition resize_room (p : Memory.MemoryPayload) (n : Z) : nat := S (size (Memory.phy_pages p)) + run_room p n.

Lemma resize_inv P ext hold c s m p newsz :
  vm_inv P ext hold (resize_room p newsz + c) s → Memory.mems (objs s) !! m = Some p →
  Memory.continuity p = false ∨ 0 <= Memory.pages_of newsz <= 2 ^ 15 →
  ∃ r o, with_mem (Memory.resize m newsz) s = Fin r (set_objs o s) ∧ vm_inv P ext hold c (set_objs o s).
Proof.
  intros Hi Hm Hn. destruct (Memory.resize_step ext (size (pages s) + (run_room p newsz + c)) (objs s) m p newsz)
    as (r & o & E & Ho & Hpv & p' & Hm' & Hsz); [|done|done|].
  - eapply Memory.mem_inv_le; [apply Hi|]. unfold resize_room. lia.
  - exists r, o. split; [by apply with_mem_run|]. by apply (mem_step_any P ext hold _ c s o m p p' (run_room p newsz) Hi Hm).
Qed.

Lemma contiguous_inv P ext hold c s m p :
  vm_inv P ext hold (S (run_room p (Memory.memsz p)) + c) s → Memory.mems (objs s) !! m = Some p → m ≠ 0 →
  Memory.continuity p = false ∨
    Z.of_nat (size (Memory.phy_pages p)) * PAGESIZE < W64 ∧ 0 <= Memory.pages_of (Memory.memsz p) <= 2 ^ 15 →
  ∃ r o, with_mem (Memory.ensure_contiguous m) s = Fin r (set_objs o s) ∧ vm_inv P ext hold c (set_objs o s) ∧
    is_Some (Memory.mems o !! m).
Proof.
  intros Hi Hm Hm0 Hn. unfold run_room in Hi. destruct (Memory.continuity p) eqn:Ect.
  - destruct Hn as [|[Hsz Hn]]; [done|].
    destruct (Memory.ensure_contiguous_run ext (size (pages s) + (Z.to_nat (Memory.pages_of (Memory.memsz p)) + c)) (objs s) m p)
      as (r & o & E & Ho & Hpv & p' & Hm' & Hsz'); try done.
    { eapply Memory.mem_inv_le; [apply Hi|]. lia. }
    exists r, o. split; [by apply with_mem_run|]. split; [|by exists p'].
    by apply (mem_step_any P ext hold _ c s o m p p' (Z.to_nat (Memory.pages_of (Memory.memsz p))) Hi Hm).
  - exists (Ok tt), (objs s). replace (set_objs (objs s) s) with s by by destruct s.
    split; [|split; [eapply vm_inv_le; [exact Hi|lia]|by exists p]]. rewrite (with_mem_run _ s (Ok tt) (objs s)); [by destruct s|].
    unfold Memory.ensure_contiguous. rewrite (proj2 (Z.eqb_neq m 0)) by done.
    rewrite (bind_run _ _ _ _ _ (Memory.get_mem_run _ m p Hm)). by rewrite Ect.
Qed.

Lemma map_into_run P ext hold c s t x m p cap va rwx gr :
  vm_inv P ext hold (S (run_room p (Memory.memsz p)) + c) s → spaces s !! t = Some x →
  Memory.mems (objs s) !! m = Some p → m ≠ 0 → is_u64 va → default 0 (keeps s !! m) < W64 - 1 →
  Memory.continuity p = false ∨
    Z.of_nat (size (Memory.phy_pages p)) * PAGESIZE < W64 ∧ 0 <= Memory.pages_of (Memory.memsz p) <= 2 ^ 15 →
  ∃ r s', map_into t m cap va rwx gr s = Fin r s' ∧ vm_inv P ext hold c s'.
Proof.
  intros Hi Ht Hm Hm0 Hva Hk Hn. assert (Hi0 : vm_inv P ext hold c s) by (eapply vm_inv_le; [exact Hi|lia]).
  unfold map_into. rewrite (bind_run _ _ _ _ _ (memory_of_alive s m p Hm)).
  destruct (map_refused p cap rwx gr) as [e|]; [by exists (Err e), s|].
  destruct (contiguous_inv P ext hold c s m p Hi Hm Hm0 Hn) as (r & o & E & Hi1 & Hm1).
  destruct r as [u|e]; [|exists (Err e), (set_objs o s); by rewrite (bind_run_err _ _ _ _ _ E)].
  rewrite (bind_run _ _ _ _ _ E). apply then_done.
  match goal with |- context [add_vma t T_SHARE gr ?a m ?pr 0] =>
    destruct (add_vma_any P ext hold c (set_objs o s) t x T_SHARE gr a m pr 0 Hi1 Ht) as (r & s' & E' & Hi' & _) end.
  - split; [done|]. apply wrap64_range.
  - by right.
  - done.
  - eauto.
Qed.

Lemma unmap_from_run P ext hold c s t x m cap va :
  vm_inv P ext hold c s → spaces s !! t = Some x →
  ∃ r s', unmap_from t m cap va s = Fin r s' ∧ vm_inv P ext hold c s'.
Proof.
  intros Hi Ht. unfold unmap_from. destruct (negb _); [by exists (Err INSUFFICIENT_PERMISSIONS), s|].
  unfold locate_memory. unfold mbind at 1, M_bind at 1. rewrite (bind_run _ _ _ _ _ (get_tm_run s t x Ht)).
  unfold locate_memory_in. destruct (List.find _ (vma_list x)) as [v|] eqn:Ef; [|by exists (Err ENTRY_NOT_FOUND), s].
  apply List.find_some in Ef as [Hin _]. apply list_elem_of_In, list_elem_of_split in Hin as (l1 & l2 & Hl).
  destruct (remove_vma_run P ext hold c s t x l1 v l2 Hi Ht Hl) as (s' & E & Hi' & _). simpl. eauto.
Qed.

Lemma resize_in_run P ext hold c s t m p cap newsz :
  vm_inv P ext hold (resize_room p newsz + c) s → (∀ t0, t = Some t0 → space_alive s t0) →
  Memory.mems (objs s) !! m = Some p → Memory.continuity p = false ∨ 0 <= Memory.pages_of newsz <= 2 ^ 15 →
  ∃ r s', resize_in t m cap newsz s = Fin r s' ∧ vm_inv P ext hold c s'.
Proof.
  intros Hi Ht Hm Hn. unfold resize_in.
  destruct (negb _); [by exists (Err INSUFFICIENT_PERMISSIONS), s; split; [|eapply vm_inv_le; [exact Hi|lia]]|].
  rewrite (bind_run _ _ _ _ _ (memory_of_alive s m p Hm)).
  match goal with |- context [mbind (λ _, mbind _ (with_mem _)) ?b] => set (cut := b) end.
  assert (Hcut : ∃ s1, cut s = Fin (Ok tt) s1 ∧ vm_inv P ext hold (resize_room p newsz + c) s1 ∧ objs s1 = objs s ∧
    ∀ t0, t = Some t0 → space_alive s1 t0).
  { subst cut. destruct t as [t|]; [|by exists s]. destruct (newsz <? _); [|by exists s].
    destruct (Ht t eq_refl) as [x Hx]. destruct (tail_run P ext hold _ s t x m newsz Hi Hx) as (s1 & E & Hi1 & Hsp & Ho & _).
    exists s1. split_and!; try done. intros t0 [= <-]. unfold space_alive. by rewrite Hsp, lookup_insert_eq. }
  destruct Hcut as (s1 & E1 & Hi1 & Ho1 & Ht1). rewrite (bind_run _ _ _ _ _ E1). rewrite <- Ho1 in Hm.
  destruct (resize_inv P ext hold c s1 m p newsz Hi1 Hm Hn) as (r & o & E2 & Hi2).
  destruct r as [u|e]; [|exists (Err e), (set_objs o s1); by rewrite (bind_run_err _ _ _ _ _ E2)].
  rewrite (bind_run _ _ _ _ _ E2). destruct t as [t|]; [|by exists (Ok tt), (set_objs o s1)].
  destruct (Ht1 t eq_refl) as [x Hx].
  destruct (sync_run P ext hold c (set_objs o s1) t x m Hi2 Hx) as (r & s' & x' & E3 & Hi3 & _). eauto.
Qed.
(** ** [protect_memory_cow] *)

(** The permission fields hold three bits. *)
Definition three_bits (x : Sv39.pt) : Prop :=
  ∀ tb i e, Sv39.entry (Sv39.tables x) tb i = Some e → 0 <= Sv39.pte_rwx e < 8.

Lemma protected_leaf e :
  0 <= Sv39.pte_rwx e < 8 → Sv39.page_is_writable (Sv39.rwx_of e) = true →
  let e' := Sv39.protect_cow (Sv39.rwx_of e) e in Sv39.is_table e' = false ∧ 0 <= Sv39.pte_rwx e' < 8.
Proof.
  intros Hb Hw. cbv zeta. unfold Sv39.is_table. simpl (Sv39.pte_v (Sv39.protect_cow _ _)).
  assert (E : Sv39.pte_rwx e = 3 ∨ Sv39.pte_rwx e = 7).
  { revert Hw. unfold Sv39.rwx_of. generalize dependent (Sv39.pte_rwx e). intros w Hw.
    assert (Hc : w = 0 ∨ w = 1 ∨ w = 2 ∨ w = 3 ∨ w = 4 ∨ w = 5 ∨ w = 6 ∨ w = 7) by lia.
    destruct_or! Hc; subst w; done || (by left) || (by right). }
  unfold Sv39.protect_cow, Sv39.set_cow, Sv39.modify_pte, Sv39.rwx_of. cbn [Sv39.pte_rwx Sv39.f_rwx].
  assert (Hf : ∀ b, b && false = false) by apply andb_false_r.
  destruct E as [-> | ->]; (split; [apply Hf|done]).
Qed.

Lemma protect_loop_run P s k i root b :
  Sv39.pt_inv (pts s) P → Sv39.is_root P root → three_bits (pts s) →
  ∃ r x', protect_loop k i root b s = Fin r (set_pts x' s) ∧ Sv39.pt_inv x' P ∧ three_bits x'.
Proof.
  revert s i. induction k as [|k IH]; intros s i Hx Hr H3.
  - exists (Ok tt), (pts s). split; [by destruct s|done].
  - cbn [protect_loop]. set (va := add64 b (mul64 i PAGESIZE)). cbv zeta.
    assert (Hsame : set_pts (pts s) s = s) by by destruct s.
    assert (Hout : ∀ r : Result unit, ∃ r' x', Fin r s = Fin r' (set_pts x' s) ∧ Sv39.pt_inv x' P ∧ three_bits x').
    { intros r. exists r, (pts s). by rewrite Hsame. }
    destruct (query_translate (pts s) P root va Hx Hr) as [(e & Eq & _)|(tb & ix & sz & e & Eq & Ew & _)];
      (erewrite bind_run; [|unfold attempt, with_pt; rewrite Eq, Hsame; reflexivity]).
    { cbv beta iota. case_bool_decide; [by apply IH|apply Hout]. }
    cbv beta iota. case_bool_decide; cbn [negb]; [|apply Hout].
    assert (He : Sv39.entry (Sv39.tables (pts s)) tb ix = Some e) by (by apply Sv39.walk_found in Ew as (? & ? & _ & _ & ? & _)).
    destruct (Sv39.page_is_writable (Sv39.rwx_of e)) eqn:Ewr; [|by rewrite (bind_run _ _ _ tt s eq_refl); apply IH].
    destruct (protected_leaf e (H3 _ _ _ He) Ewr) as [Hnt Hb]. set (e' := Sv39.protect_cow _ e) in *.
    destruct (Sv39.put_leaf_run (pts s) P root va tb ix sz e e' Hx Hr Ew Hnt) as [Hx1 _].
    set (x1 := Sv39.set_tables _ (pts s)) in *. rewrite (bind_run (put_leaf tb ix e') _ _ tt (set_pts x1 s) eq_refl).
    apply (IH (set_pts x1 s)); [done|done|]. intros tb' i' e1. simpl. rewrite Sv39.entry_write. intros He1.
    case_bool_decide; [|by eapply H3]. destruct (Sv39.entry _ _ _); simplify_eq/=; done.
Qed.

Lemma protect_run P ext hold c s t x m :
  vm_inv P ext hold c s → spaces s !! t = Some x → three_bits (pts s) → m = 0 ∨ is_Some (Memory.mems (objs s) !! m) →
  ∃ r s', protect_memory_cow t m s = Fin r s' ∧ vm_inv P ext hold c s'.
Proof.
  intros Hi Ht H3 Hm. unfold protect_memory_cow. destruct (Z.eqb_spec m 0) as [|Hm0]; [by exists (Ok tt), s|].
  destruct Hm as [|[p Hp]]; [done|]. rewrite (bind_run _ _ _ _ _ (memory_of_alive s m p Hp)).
  destruct (Memory.shared p); [by exists (Ok tt), s|]. rewrite (bind_run _ _ _ _ _ (get_tm_run s t x Ht)).
  pose proof (vi_root _ _ _ _ _ Hi t x Ht) as Hr. clear Ht.
  revert s Hi H3 Hp. induction (vma_list x) as [|v l IH]; intros s Hi H3 Hp; [by exists (Ok tt), s|].
  cbn [protect_vmas]. destruct (negb _); [by rewrite (bind_run _ _ _ tt s eq_refl); apply IH|].
  set (a := page_outer_area (varea v)).
  destruct (protect_loop_run P s (Z.to_nat (rsize a / PAGESIZE)) 0 (pgd x) (rbegin a) (vi_pt _ _ _ _ _ Hi) Hr H3)
    as (r & x1 & E & Hx1 & H31).
  pose proof (set_pts_inv P ext hold c s x1 Hi Hx1) as Hi1.
  destruct r as [[]|e]; [|exists (Err e), (set_pts x1 s); by rewrite (bind_run_err _ _ _ _ _ E)].
  rewrite (bind_run _ _ _ _ _ E). by apply IH.
Qed.

(** ** The end of an address space *)

Lemma drop_vmas_run P ext hold c t L s x :
  vm_inv P ext hold c s → spaces s !! t = Some x → vma_list x = L →
  ∃ s', drop_vmas t L s = Fin (Ok tt) s' ∧ vm_inv P ext hold c s' ∧ spaces s' = <[t := mkTM [] (pgd x)]> (spaces s).
Proof.
  revert s x. induction L as [|v L IH]; intros s x Hi Ht Hl.
  { exists s. split_and!; [done|done|]. rewrite insert_id; [done|]. rewrite Ht. destruct x. by simplify_eq/=. }
  pose proof (vi_spaces _ _ _ _ _ Hi t x Ht) as Hok. rewrite Hl in Hok. pose proof Hok as (HokL & _ & _)%space_ok_cons.
  assert (Hva : uarea (varea v)) by (apply (so_area _ Hok); set_solver).
  cbn [drop_vmas].
  destruct (set_list_inv P ext hold (shift 1 (vmemory v) hold) c s t x (drop 1) Hi Ht)
    as (s1 & E1 & Hi1 & Hsp1 & Hpt1 & Ho1 & Hk1 & Hn1).
  - by rewrite Hl.
  - rewrite Hl. simpl. intros w Hw. assert (Hin : w ∈ vma_list x) by (rewrite Hl; set_solver).
    pose proof (elem_all_of _ _ _ _ Ht Hin). split; [by apply (vi_null _ _ _ _ _ Hi)|by apply (vi_ids _ _ _ _ _ Hi)].
  - intros m. rewrite Hl. change (drop 1 (v :: L)) with L. rewrite count_cons. pose proof (vi_hold _ _ _ _ _ Hi m).
    unfold shift, at_. case_bool_decide; lia.
  - rewrite (bind_run _ _ _ _ _ E1). rewrite Hl in Hsp1. simpl in Hsp1.
    assert (Ht1 : spaces s1 !! t = Some (mkTM L (pgd x))) by (by rewrite Hsp1, lookup_insert_eq).
    destruct (unmap_pages_run P ext _ c s1 t _ (varea v) Hi1 Ht1 Hva) as (p2 & E2 & Hi2 & _).
    rewrite (bind_run _ _ _ _ _ E2). set (s2 := set_pts p2 s1) in *.
    destruct (release_inv P ext _ c s2 (vmemory v) Hi2) as (s3 & E3 & Hi3 & Hsp3 & _).
    { unfold shift, at_. pose proof (vi_hold _ _ _ _ _ Hi (vmemory v)). rewrite bool_decide_eq_true_2 by done. lia. }
    rewrite (bind_run _ _ _ _ _ E3). change (spaces s2) with (spaces s1) in Hsp3.
    destruct (IH s3 (mkTM L (pgd x))) as (s4 & E4 & Hi4 & Hsp4); [|by rewrite Hsp3|done|].
    { eapply vm_inv_hold; [|exact Hi3]. intros m. unfold shift. lia. }
    exists s4. split_and!; [done|done|]. by rewrite Hsp4, Hsp3, Hsp1, insert_insert_eq.
Qed.

Lemma delete_tm_run P ext hold c s t x :
  vm_inv P ext hold c s → spaces s !! t = Some x →
  ∃ s', delete_tm t s = Fin (Ok tt) s' ∧ vm_inv P ext hold c s' ∧ spaces s' = delete t (spaces s).
Proof.
  intros Hi Ht. unfold delete_tm. rewrite (bind_run _ _ _ _ _ (get_tm_run s t x Ht)).
  destruct (drop_vmas_run P ext hold c t (vma_list x) s x Hi Ht eq_refl) as (s1 & E1 & Hi1 & Hsp1).
  rewrite (bind_run _ _ _ _ _ E1). eexists. split; [reflexivity|].
  assert (Ed : delete t (spaces s1) = delete t (spaces s)) by by rewrite Hsp1, delete_insert_eq.
  split; [|simpl; done].
  assert (Ht1 : spaces s1 !! t = Some (mkTM [] (pgd x))) by by rewrite Hsp1, lookup_insert_eq.
  pose proof (all_of_lookup _ _ _ Ht1) as Ha. simpl in Ha. destruct Hi1 as [H1 H2 H3 H4 H5 H6 H7 H8 H9].
  split; simpl; try done.
  - intros t' y [_ Hy]%lookup_delete_Some. by apply (H2 t').
  - intros m. rewrite H4. f_equal. by apply count_perm.
  - intros v. rewrite <- Ha. apply H7.
  - intros v. rewrite <- Ha. apply H8.
  - intros t' y [_ Hy]%lookup_delete_Some. by apply (H9 t').
Qed.

(** A new address space over page tables that are there already. *)
Lemma from_pgd_run P ext hold c s t root :
  vm_inv P ext hold c s → spaces s !! t = None → Sv39.is_root P (Sv39.to_ppn root) →
  ∃ r s', from_existing_pgd t root s = Fin r s' ∧ vm_inv P ext hold c s'.
Proof.
  intros Hi Ht Hr. unfold from_existing_pgd. destruct (negb _); [by exists (Err INVALID_PARAM), s|].
  eexists (Ok tt), _. split; [reflexivity|]. destruct Hi as [H1 H2 H3 H4 H5 H6 H7 H8 H9].
  assert (Ha : all_of (<[t := mkTM [] (Sv39.to_ppn root)]> (spaces s)) ≡ₚ all_of (spaces s)).
  { rewrite all_of_insert. simpl. by rewrite delete_id. }
  split; simpl; try done.
  - intros t' y [[_ <-]|[_ Hy]]%lookup_insert_Some; [done|by apply (H2 t')].
  - intros m. rewrite H4. f_equal. by apply count_perm.
  - intros v. rewrite Ha. apply H7.
  - intros v. rewrite Ha. apply H8.
  - intros t' y [[_ <-]|[_ Hy]]%lookup_insert_Some; [|by apply (H9 t')]. split; simpl; [constructor|set_solver|set_solver].
Qed.
End ops.

End VmaOps.
