(* ===== verification/VmaFault.v ===== *)
(** * Page faults

    Theorems about [on_np] and [on_wp] of [Vma] (kernel/mem/vma.cpp): a fault that
    is resolved makes the faulting address show the byte of the memory object the
    area assigns to it, with the area's permissions; a frame is mapped writable
    only where no other payload uses it; all other translations and contents
    stay. *)
From S2P Require Import Prelude ErrCode Addr Buddy Gfp Memory MemFrames Sv39 Vma VmaInv VmaOps.

Module VmaFault.
Import Vma VmaInv VmaOps.

(** ** Permissions *)

Definition readable (v : VMA) : Prop := prot_to_rwx (vprot v) ≠ 0.

Lemma prot_rwx prot : prot_to_rwx prot ∈ [0; 1; 3; 5; 7].
Proof. unfold prot_to_rwx. destruct (negb _), (negb _), (negb _); simpl; set_solver. Qed.

Lemma prot_rwx_cases v : readable v → let r := prot_to_rwx (vprot v) in r = 1 ∨ r = 3 ∨ r = 5 ∨ r = 7.
Proof.
  unfold readable. intros Hr. pose proof (prot_rwx (vprot v)) as Hc. rewrite !elem_of_cons, elem_of_nil in Hc.
  naive_solver.
Qed.

Lemma writable_prot prot : Sv39.page_is_writable (prot_to_rwx prot) = true → Z.land prot PROT_W ≠ 0.
Proof.
  unfold prot_to_rwx. destruct (Z.eqb_spec (Z.land prot PROT_W) 0) as [E|E]; [|done].
  by destruct (negb (Z.land prot PROT_R =? 0)), (negb (Z.land prot PROT_X =? 0)).
Qed.

(** The permissions of the leaf of a page. *)
Definition leaf_rwx (cow : bool) (rwx : Z) : Z := if cow then Sv39.without_write rwx else rwx.

Lemma leaf_rwx_cast cow v : readable v → Sv39.rwx_cast (leaf_rwx cow (prot_to_rwx (vprot v))) ≠ 0.
Proof. intros Hr%prot_rwx_cases. destruct cow; simpl in *; destruct Hr as [-> | [-> | [-> | ->]]]; done. Qed.

(** [protect_cow] of the leaf that was just mapped read-only. *)
Lemma protect_cow_leaf v paddr e :
  readable v → let rwx := prot_to_rwx (vprot v) in
  Sv39.leaf_for paddr (Sv39.mkFlags (Sv39.without_write rwx) true false true) e →
  let e' := Sv39.protect_cow rwx e in
  Sv39.pte_v e' = true ∧ Sv39.pte_rwx e' = Sv39.without_write rwx ∧ Sv39.pte_u e' = true ∧ Sv39.pte_np e' = false ∧
  Sv39.pte_ppn e' = Sv39.ppn_field (Sv39.to_ppn paddr) ∧ Sv39.is_cow e' = true.
Proof.
  intros Hr%prot_rwx_cases rwx [H1 H2 H3 H4 H5 H6 H7 H8]. simpl in *. unfold Sv39.is_cow, Sv39.protect_cow, Sv39.set_cow.
  simpl. rewrite H8. fold rwx in Hr.
  split_and!; try done; rewrite H2; by destruct Hr as [-> | [-> | [-> | ->]]].
Qed.

Lemma protect_cow_not_table v e : readable v → Sv39.is_table (Sv39.protect_cow (prot_to_rwx (vprot v)) e) = false.
Proof.
  intros Hr%prot_rwx_cases. unfold Sv39.is_table. apply andb_false_iff. right. apply Z.eqb_neq.
  unfold Sv39.protect_cow, Sv39.set_cow, Sv39.modify_pte. simpl. intros [_ E]%Z.lor_eq_0_iff. revert E.
  by destruct Hr as [-> | [-> | [-> | ->]]].
Qed.

(** ** Offsets *)

(** The byte of its memory that an area shows at address [a]. *)
Definition byte_offset (v : VMA) (a : Z) : Z := wrap64 (mem_offset v + (a - rbegin (varea v))).

(** The area begins as far into a page as its part of the memory does. *)
Definition congruent (v : VMA) : Prop := is_u64 (mem_offset v) ∧ mem_offset v mod PAGESIZE = rbegin (varea v) mod PAGESIZE.

Lemma mod_page_wrap z : wrap64 z mod PAGESIZE = z mod PAGESIZE.
Proof.
  unfold wrap64. change W64 with (PAGESIZE * 2 ^ 52). rewrite Z.rem_mul_r by (unfold PAGESIZE; lia).
  rewrite Z.mul_comm, Z.mod_add by (unfold PAGESIZE; lia). apply Z.mod_mod. by unfold PAGESIZE.
Qed.

Lemma fault_offset v a :
  uarea (varea v) → is_u64 a → congruent v → rbegin (varea v) <= a →
  memory_offset_for_page v (page_align_down a) / PAGESIZE = byte_offset v a / PAGESIZE ∧
  byte_offset v a mod PAGESIZE = a mod PAGESIZE.
Proof.
  intros (Hb & Hbe & He) Ha [Hm Hc] Hle. unfold memory_offset_for_page, byte_offset.
  rewrite page_align_down_div by done. change 4096 with PAGESIZE.
  assert (Emod : wrap64 (mem_offset v + (a - rbegin (varea v))) mod PAGESIZE = a mod PAGESIZE).
  { rewrite mod_page_wrap. replace (mem_offset v + (a - rbegin (varea v))) with (a + (mem_offset v - rbegin (varea v))) by lia.
    rewrite Z.add_mod, Zminus_mod, Hc, Z.sub_diag by (unfold PAGESIZE; lia). rewrite Z.add_0_r. by rewrite !Z.mod_mod. }
  split; [|exact Emod].
  pose proof (Z.div_mod a PAGESIZE ltac:(done)) as Ea. pose proof (Z.mod_pos_bound a PAGESIZE ltac:(done)) as Hpa.
  pose proof (Z.div_mod (mem_offset v) PAGESIZE ltac:(done)) as Em.
  pose proof (Z.div_mod (rbegin (varea v)) PAGESIZE ltac:(done)) as Eb. rewrite Hc in Em.
  pose proof (Z.mod_pos_bound (rbegin (varea v)) PAGESIZE ltac:(done)) as Hpb.
  set (o := mem_offset v + (a - rbegin (varea v))) in *.
  destruct (Z.leb_spec (a / PAGESIZE * PAGESIZE) (rbegin (varea v))) as [Hlow|Hhigh].
  - assert (Eq : a / PAGESIZE = rbegin (varea v) / PAGESIZE) by (unfold PAGESIZE in *; lia).
    assert (Ho : o = mem_offset v / PAGESIZE * PAGESIZE + a mod PAGESIZE) by (unfold o; lia).
    assert (Hu : is_u64 o).
    { unfold is_u64 in *. rewrite Ho. change W64 with (PAGESIZE * 2 ^ 52) in *.
      assert (0 <= mem_offset v / PAGESIZE < 2 ^ 52); [|unfold PAGESIZE in *; lia].
      split; [apply Z.div_pos; unfold PAGESIZE; lia|]. apply Z.div_lt_upper_bound; unfold PAGESIZE in *; lia. }
    rewrite (wrap64_small o Hu), Ho. rewrite Z.div_add_l by done. rewrite (Z.div_small (a mod PAGESIZE)) by lia. lia.
  - assert (Hs : sub64 (a / PAGESIZE * PAGESIZE) (rbegin (varea v)) = a / PAGESIZE * PAGESIZE - rbegin (varea v)).
    { apply wrap64_small. unfold is_u64, PAGESIZE in *. lia. }
    rewrite Hs. unfold add64. set (w := mem_offset v + (a / PAGESIZE * PAGESIZE - rbegin (varea v))).
    assert (Ew : wrap64 o = wrap64 w + a mod PAGESIZE).
    { assert (Hw : wrap64 w mod PAGESIZE = 0).
      { rewrite mod_page_wrap. unfold w. rewrite Em at 1.
        replace (_ + _) with ((mem_offset v / PAGESIZE - rbegin (varea v) / PAGESIZE + a / PAGESIZE) * PAGESIZE)
          by (rewrite Eb at 3; lia).
        apply Z.mod_mul. done. }
      pose proof (wrap64_range w) as Hr. pose proof (Z.div_mod (wrap64 w) PAGESIZE ltac:(done)) as Ed. rewrite Hw in Ed.
      assert (wrap64 w / PAGESIZE < 2 ^ 52).
      { apply Z.div_lt_upper_bound; [done|]. unfold is_u64 in Hr. change W64 with (PAGESIZE * 2 ^ 52) in Hr. lia. }
      replace o with (w + a mod PAGESIZE) by (unfold o, w; lia). rewrite <- wrap64_add_l. apply wrap64_small.
      unfold is_u64 in *. change W64 with (PAGESIZE * 2 ^ 52). unfold PAGESIZE in *. lia. }
    rewrite Ew. pose proof (Z.div_mod (wrap64 o) PAGESIZE ltac:(done)) as Eo. rewrite Emod in Eo.
    rewrite <- Ew. symmetry. apply Z.div_unique with (- (a mod PAGESIZE) + a mod PAGESIZE); [lia|].
    lia.
Qed.

Section fault.
Context {G F : Type} `{Memory.PageFrames G} `{Memory.VFileOps F}.
Implicit Types (s : vm G F) (P : Sv39.ghost) (ext hold : Z → Z) (c : nat).

Abbreviation pages s := (Memory.flatten (Memory.mems (objs s))).

(** ** What one address space sees *)

(** The byte at address [a] under [root], where a page is mapped. *)
Definition user_byte s (root a : Z) : option Z :=
  match Sv39.translate (pts s) root a with
  | Some (Ok (Sv39.SZ_4K, e)) =>
      Some (default 0 (Memory.page_at (objs s) (Sv39.pte_ppn e) !! (a mod PAGESIZE)))
  | _ => None
  end.

Definition slot_open s (root a : Z) : Prop :=
  Sv39.slot_free (Sv39.tables (pts s)) root (Sv39.make_vpn Sv39.SZ_4K a) = true ∧
  (2 <= length (Sv39.frames (pts s)))%nat.

Lemma same_page_4k a a' : is_u64 a → is_u64 a' → a / PAGESIZE = a' / PAGESIZE → Sv39.same_page Sv39.SZ_4K a a'.
Proof. intros ? ? ?. by apply vpn_page. Qed.

(** ** A page that is not present *)

(** The leaf [on_np] leaves for the page of [a]. *)
Record np_leaf (paddr : Z) (cow : bool) (rwx : Z) (e : Sv39.PTE) : Prop := {
  nl_v : Sv39.pte_v e = true;
  nl_rwx : Sv39.pte_rwx e = leaf_rwx cow rwx;
  nl_u : Sv39.pte_u e = true;
  nl_np : Sv39.pte_np e = false;
  nl_ppn : Sv39.pte_ppn e = Sv39.to_ppn paddr;
  nl_cow : Sv39.is_cow e = cow;
}.

Definition map_np root va paddr (cow : bool) (rwx : Z) : M (vm G F) bool :=
  _ ← with_pt (Sv39.map_page Sv39.SZ_4K root va paddr (Sv39.mkFlags (leaf_rwx cow rwx) true false true));
  _ ← (if cow then
         q ← attempt (with_pt (Sv39.query_page root va));
         match q with
         | Ok (tb, ix, _, e) => put_leaf tb ix (Sv39.protect_cow rwx e)
         | Err _ => mret tt
         end
       else mret tt);
  mret true.

Lemma map_np_run P s root va paddr cow v :
  Sv39.pt_inv (pts s) P → Sv39.is_root P root → readable v → Sv39.ppn_field (Sv39.to_ppn paddr) = Sv39.to_ppn paddr →
  let rwx := prot_to_rwx (vprot v) in
  ∃ x' P', map_np root va paddr cow rwx s = Fin (Ok true) (set_pts x' s) ∧ Sv39.pt_inv x' P' ∧ P ⊆ P' ∧
    (slot_open s root va →
     ∃ e, np_leaf paddr cow rwx e ∧ Sv39.remapped (pts s) P root Sv39.SZ_4K va (Ok (Sv39.SZ_4K, e)) x').
Proof.
  intros Hx Hr Hrd Hfit rwx. pose proof (leaf_rwx_cast cow v Hrd) as Hcast. fold rwx in Hcast.
  set (flags := Sv39.mkFlags (leaf_rwx cow rwx) true false true).
  destruct (Sv39.map_page_run (pts s) P root Sv39.SZ_4K va paddr flags Hx Hr ltac:(done) Hcast)
    as (x1 & P1 & E1 & Hx1 & Hsub & _ & _ & Hok).
  assert (Hok' : slot_open s root va → ∃ e, Sv39.leaf_for paddr flags e ∧
    Sv39.remapped (pts s) P root Sv39.SZ_4K va (Ok (Sv39.SZ_4K, e)) x1).
  { intros [H1 H2]. apply Hok; [done|simpl; lia]. }
  assert (Hr1 : Sv39.is_root P1 root) by (destruct Hr as (q & j & Hq); exists q, j; by eapply lookup_weaken).
  unfold map_np. fold flags. assert (E1' : with_pt (Sv39.map_page Sv39.SZ_4K root va paddr flags) s = Fin (Ok tt) (set_pts x1 s)).
  { unfold with_pt. by rewrite E1. }
  rewrite (bind_run _ _ _ _ _ E1'). destruct cow.
  2: { exists x1, P1. split; [done|]. split; [done|]. split; [done|]. intros Ho. destruct (Hok' Ho) as (e & Hl & Hm).
       exists e. split; [|done]. destruct Hl. split; try done; try by rewrite lf_ppn.
       - rewrite lf_rwx. change (Sv39.rwx_cast (prot_to_rwx (vprot v)) = prot_to_rwx (vprot v)).
         by destruct (prot_rwx_cases v Hrd) as [-> | [-> | [-> | ->]]].
       - unfold Sv39.is_cow. by rewrite lf_rsw. }
  assert (Hat : ∀ r, Sv39.translate x1 root va = Some r →
    slot_open s root va → ∃ e, r = Ok (Sv39.SZ_4K, e) ∧ Sv39.leaf_for paddr flags e ∧
      Sv39.remapped (pts s) P root Sv39.SZ_4K va (Ok (Sv39.SZ_4K, e)) x1).
  { intros r Er Ho. destruct (Hok' Ho) as (e & Hl & Hm). exists e. split; [|done].
    rewrite (Hm root va Hr), bool_decide_eq_true_2 in Er by done. by simplify_eq. }
  destruct (query_translate x1 P1 root va Hx1 Hr1) as [(e & Eq & Et)|(tb & ix & sz & e & Eq & Ew & Et)].
  - exists x1, P1. split.
    + unfold mbind, M_bind, attempt, with_pt. cbn [pts set_pts]. rewrite Eq. reflexivity.
    + split; [done|]. split; [done|]. intros Ho. by destruct (Hat _ Et Ho) as (? & ? & _).
  - destruct (Sv39.put_leaf_run x1 P1 root va tb ix sz e (Sv39.protect_cow rwx e) Hx1 Hr1 Ew) as [Hx2 Hm2].
    { by apply protect_cow_not_table. }
    exists (Sv39.set_tables (Sv39.write tb ix (Sv39.protect_cow rwx e)) x1), P1. split.
    + unfold mbind, M_bind, attempt, with_pt. cbn [pts set_pts]. rewrite Eq. reflexivity.
    + split; [exact Hx2|]. split; [done|]. intros Ho. destruct (Hat _ Et Ho) as (e1 & [= -> ->] & Hl & Hm).
      destruct (protect_cow_leaf v paddr e1 Hrd Hl) as (L1 & L2 & L3 & L4 & L5 & L6).
      rewrite Hfit in L5. exists (Sv39.protect_cow rwx e1). split; [by split|]. intros root' va' Hr'.
      assert (Hr1' : Sv39.is_root P1 root') by (destruct Hr' as (q & j & Hq); exists q, j; by eapply lookup_weaken).
      rewrite (Hm2 root' va' Hr1'). unfold Sv39.leaf_result. fold rwx in L1. rewrite L1.
      case_bool_decide as Hb; [done|]. by rewrite (Hm root' va' Hr'), bool_decide_eq_false_2.
Qed.

Lemma frame_ppn a : Memory.frame_ok a → Sv39.ppn_field (Sv39.to_ppn a) = Sv39.to_ppn a.
Proof.
  intros [Hp _ Hl]. unfold Sv39.ppn_field, Sv39.to_ppn. rewrite Z.shiftr_div_pow2 by done.
  apply Z.mod_small. split; [by apply Z.div_pos; lia|]. apply Z.div_lt_upper_bound; [done|].
  unfold Buddy.LIMIT, KVA_OFFSET, KPA_OFFSET, PAGESIZE in *. lia.
Qed.

(** No other payload, and no other page of this one, uses the frame. *)
Definition sole_owner s (m vpn frame : Z) : Prop :=
  ∀ k e, pages s !! k = Some e → Memory.addr e / PAGESIZE = frame → k = (m, vpn).

Definition fault_page v a : Z := memory_offset_for_page v (page_align_down a) / PAGESIZE.

(** The fault at [a] in area [v] is resolved. *)
Definition np_resolved P s s' (root : Z) (v : VMA) (a : Z) : Prop :=
  ∃ p pg e, Memory.mems (objs s') !! vmemory v = Some p ∧ Memory.phy_pages p !! fault_page v a = Some pg ∧
    let rwx := prot_to_rwx (vprot v) in
    np_leaf (Memory.addr pg)
      (negb (Memory.shared p) && Sv39.page_is_writable rwx && (1 <? Memory.refcount pg)) rwx e ∧
    Sv39.remapped (pts s) P root Sv39.SZ_4K a (Ok (Sv39.SZ_4K, e)) (pts s') ∧
    (congruent v → user_byte s' root a = Some (Memory.view (objs s') (vmemory v) (byte_offset v a))) ∧
    (Sv39.page_is_writable (Sv39.pte_rwx e) = true → Z.land (vprot v) PROT_W ≠ 0 ∧
      (Memory.shared p = true ∨ sole_owner s' (vmemory v) (fault_page v a) (Sv39.pte_ppn e))).

Lemma to_ppn_div a : Sv39.to_ppn a = a / PAGESIZE.
Proof. unfold Sv39.to_ppn. by rewrite Z.shiftr_div_pow2. Qed.

(** What a leaf shows, once it points to the frame of the page. *)
Lemma leaf_shows s root v a p pg e :
  Memory.mems (objs s) !! vmemory v = Some p → Memory.phy_pages p !! fault_page v a = Some pg →
  Sv39.translate (pts s) root a = Some (Ok (Sv39.SZ_4K, e)) → Sv39.pte_ppn e = Sv39.to_ppn (Memory.addr pg) →
  uarea (varea v) → is_u64 a → rbegin (varea v) <= a → congruent v →
  user_byte s root a = Some (Memory.view (objs s) (vmemory v) (byte_offset v a)).
Proof.
  intros Hm Hpg Ht Hppn Hu Ha Hle Hc. destruct (fault_offset v a Hu Ha Hc Hle) as [E1 E2].
  unfold user_byte, Memory.view. rewrite Ht, Memory.lookup_flatten, Hm. simpl. unfold fault_page in Hpg.
  rewrite <- E1, Hpg, Hppn, to_ppn_div, E2. done.
Qed.

Lemma writable_leaf cow v :
  readable v → Sv39.page_is_writable (leaf_rwx cow (prot_to_rwx (vprot v))) = true →
  cow = false ∧ Sv39.page_is_writable (prot_to_rwx (vprot v)) = true.
Proof. intros Hr%prot_rwx_cases. simpl in Hr. by destruct cow; destruct Hr as [-> | [-> | [-> | ->]]]. Qed.

Lemma sole_from_inv P ext hold c s m p vpn pg :
  vm_inv P ext hold c s → Memory.mems (objs s) !! m = Some p → Memory.phy_pages p !! vpn = Some pg →
  Memory.refcount pg <= 1 → sole_owner s m vpn (Memory.addr pg / PAGESIZE).
Proof.
  intros Hi Hm Hpg Hrc k e Hk Ha. destruct (decide (k = (m, vpn))) as [|Hne]; [done|].
  assert (Hpk : pages s !! (m, vpn) = Some pg) by (rewrite Memory.lookup_flatten, Hm; done).
  pose proof (Memory.mi_excl _ _ _ (vi_mem _ _ _ _ _ Hi) (m, vpn) k pg e Hpk Hk ltac:(congruence) ltac:(congruence)). lia.
Qed.

Lemma offset_u64 v a : is_u64 (mem_offset v) → is_u64 (memory_offset_for_page v a).
Proof. intros Ho. unfold memory_offset_for_page. destruct (_ <=? _); [done|apply wrap64_range]. Qed.

Lemma holds_le v a : uarea (varea v) → holds v a = true → rbegin (varea v) <= a.
Proof.
  intros _. unfold holds. rewrite orb_true_iff, within_spec, andb_true_iff, !Z.eqb_eq. lia.
Qed.

Lemma grown_size (pg pg0 : gmap Z Memory.PhyPage) k e :
  pg !! k = Some e → (∀ v, v ≠ k → pg !! v = pg0 !! v) → (size pg <= size pg0 + 1)%nat.
Proof.
  intros Hk Hne. assert (pg = <[k := e]> pg0) as ->.
  { apply map_eq. intros v. destruct (decide (v = k)) as [->|Hv]; [by rewrite lookup_insert_eq|].
    by rewrite lookup_insert_ne, Hne. }
  rewrite map_size_insert. destruct (pg0 !! k); unfold id; lia.
Qed.

Lemma aligned_page a : is_u64 a → is_u64 (page_align_down a) ∧ page_align_down a / PAGESIZE = a / PAGESIZE.
Proof.
  intros Ha. rewrite page_align_down_div by done. change 4096 with PAGESIZE. split; [|by rewrite Z.div_mul].
  pose proof (Z.div_mod a PAGESIZE ltac:(done)). pose proof (Z.mod_pos_bound a PAGESIZE ltac:(done)).
  unfold is_u64 in *. pose proof (Z.div_pos a PAGESIZE). unfold PAGESIZE in *. lia.
Qed.

Lemma remapped_page x P root va va' r x' :
  Sv39.make_vpn Sv39.SZ_4K va = Sv39.make_vpn Sv39.SZ_4K va' →
  Sv39.remapped x P root Sv39.SZ_4K va r x' → Sv39.remapped x P root Sv39.SZ_4K va' r x'.
Proof.
  intros E Hm root' a Hr. rewrite (Hm root' a Hr). unfold Sv39.same_page.
  erewrite bool_decide_ext; [reflexivity|]. by rewrite E.
Qed.

Definition usable (v : VMA) : Prop := readable v ∧ is_u64 (mem_offset v).

Lemma on_np_run P ext hold c s t x a :
  vm_inv P ext hold (3 + c) s → spaces s !! t = Some x → is_u64 a → (∀ v, v ∈ vma_list x → usable v) →
  ∃ b s' P', on_np t a s = Fin (Ok b) s' ∧ P ⊆ P' ∧ vm_inv P' ext hold c s' ∧ spaces s' = spaces s ∧
    match locate_in (vma_list x) a with
    | Err _ => b = false ∧ s' = s
    | Ok v => ∃ p, Memory.mems (objs s) !! vmemory v = Some p ∧
        Memory.private_to ext (vmemory v) (objs s) (objs s') ∧
        Memory.keeps_view (objs s) (objs s') (vmemory v) p ∧
        (b = false → pts s' = pts s) ∧
        (b = true → slot_open s (pgd x) a → np_resolved P s s' (pgd x) v a)
    end.
Proof.
  intros Hi Ht Ha Hus. pose proof (vi_spaces _ _ _ _ _ Hi t x Ht) as Hok.
  unfold on_np. rewrite (bind_run _ _ _ _ _ (get_tm_run s t x Ht)).
  destruct (locate_in (vma_list x) a) as [v|e] eqn:El.
  2: { exists false, s, P. split_and!; try done. destruct Hi. split; try done.
       eapply Memory.mem_inv_le; [done|]. lia. }
  apply locate_in_maps in El as [Hv Hh]. destruct (Hus v Hv) as [Hrd Hmo].
  pose proof (so_area _ Hok v Hv) as Hva. pose proof (holds_le v a Hva Hh) as Hle.
  destruct (memory_of_run P ext hold _ s t x v Hi Ht Hv) as (p & Hp & _).
  destruct (aligned_page a Ha) as [Hal Hap].
  set (va := page_align_down a) in *. cbv zeta. set (off := memory_offset_for_page v va).
  pose proof (offset_u64 v va Hmo) as Hoff. fold off in Hoff.
  assert (Hmi : Memory.mem_inv ext (S (S (size (pages s) + (1 + c)))) (objs s)).
  { eapply Memory.mem_inv_le; [apply Hi|]. lia. }
  destruct (Memory.ensure_page_run ext _ (objs s) (vmemory v) p off Hmi Hp Hoff)
    as (r & o & pg & Eo & Ho & Hpv & Hrp & Hkv & Hr).
  assert (Hsz : (size pg <= size (Memory.phy_pages p) + 1)%nat).
  { destruct r; [|subst pg; lia]. destruct Hr as (_ & (e & He & _) & _ & Hn). by eapply grown_size. }
  pose proof (mem_step_inv P ext hold _ c s o (vmemory v) p pg 1 Hi Hp Ho Hpv Hrp Hsz) as Hi1.
  erewrite bind_run; [|unfold attempt, with_mem; rewrite Eo; reflexivity].
  destruct r as [a0|e].
  2: { exists false, (set_objs o s), P. split_and!; try done. exists p. by split_and!. }
  destruct Hr as (Hbd & (en & Hen & Ea0) & _ & _).
  set (s1 := set_objs o s) in *. set (p1 := Memory.set_pages (λ _, pg) p).
  assert (Hm1 : Memory.mems (objs s1) !! vmemory v = Some p1) by exact Hrp.
  assert (Hmo1 : memory_of (vmemory v) s1 = Fin (Ok p1) s1).
  { unfold memory_of, with_mem. by rewrite (Memory.get_mem_run _ _ _ Hm1). }
  rewrite (bind_run _ _ _ _ _ Hmo1).
  unfold Memory.lookup_page, Memory.page_refcount, Memory.lookup_page_entry. rewrite Memory.offvpn_div by done.
  simpl (Memory.memsz p1). rewrite (proj2 (Z.leb_gt _ _)) by done.
  simpl (Memory.phy_pages p1). rewrite Hen. simpl (_ <$> _).
  assert (Hfr : pages s1 !! (vmemory v, off / PAGESIZE) = Some en) by (rewrite Memory.lookup_flatten, Hm1; done).
  destruct (Memory.mi_ok _ _ _ (vi_mem _ _ _ _ _ Hi1) _ _ Hfr) as [Hfok Hrc]. pose proof Hfok as [Hpos _ _].
  assert (Hnn : massert (nonnull (Memory.addr en)) s1 = Fin (Ok tt) s1).
  { unfold massert, nonnull. by rewrite (proj2 (Z.eqb_neq _ 0)) by lia. }
  cbv beta iota. rewrite (bind_run (massert (nonnull (Memory.addr en))) _ _ _ _ Hnn).
  set (cow := negb (Memory.shared p1) && _ && _).
  destruct (map_np_run P s1 (pgd x) va (Memory.addr en) cow v (vi_pt _ _ _ _ _ Hi1)
    (vi_root _ _ _ _ _ Hi t x Ht) Hrd (frame_ppn _ Hfok)) as (x2 & P2 & E2 & Hx2 & Hsub & Hres).
  unfold map_np in E2. exists true, (set_pts x2 s1), P2. split; [exact E2|]. split; [done|].
  pose proof (pt_step_inv P P2 ext hold c s1 x2 Hi1 Hx2 Hsub) as Hi2.
  split; [done|]. split; [done|]. exists p. split_and!; try done. intros _ Hso.
  assert (Hvpn : Sv39.make_vpn Sv39.SZ_4K va = Sv39.make_vpn Sv39.SZ_4K a) by by apply vpn_page.
  destruct Hres as (e & Hl & Hm). { unfold slot_open. rewrite Hvpn. exact Hso. }
  exists p1, en, e. split; [done|]. split; [done|]. split; [exact Hl|].
  assert (Hrm : Sv39.remapped (pts s) P (pgd x) Sv39.SZ_4K a (Ok (Sv39.SZ_4K, e)) x2).
  { by apply (remapped_page (pts s) P (pgd x) va a). }
  split; [exact Hrm|]. split.
  - intros Hcg. apply (leaf_shows (set_pts x2 s1) (pgd x) v a p1 en e); try done; [|apply Hl].
    simpl. rewrite (Hrm (pgd x) a (vi_root _ _ _ _ _ Hi t x Ht)). by rewrite bool_decide_eq_true_2.
  - rewrite (nl_rwx _ _ _ _ Hl). intros [Hcow Hw]%(writable_leaf cow v Hrd). split; [by apply writable_prot|].
    unfold cow in Hcow. clearbody cow. destruct (Memory.shared p1); [by left|right].
    rewrite Hw in Hcow. simpl in Hcow. apply Z.ltb_ge in Hcow.
    rewrite (nl_ppn _ _ _ _ Hl), to_ppn_div. by apply (sole_from_inv P2 ext hold c (set_pts x2 s1) (vmemory v) p1).
Qed.

(** ** A write to a page that is shared copy-on-write *)

Lemma restored_leaf v paddr e :
  readable v → Sv39.pte_v e = true →
  let rwx := prot_to_rwx (vprot v) in
  let e1 := Sv39.set_paddr paddr e in
  let e' := Sv39.restore_from_cow (PTE_flags rwx e1) e1 in
  Sv39.is_table e' = false ∧ Sv39.pte_v e' = true ∧ Sv39.pte_ppn e' = Sv39.ppn_field (Sv39.to_ppn paddr) ∧
  Sv39.is_cow e' = false ∧
  Sv39.pte_u e' = Sv39.pte_u e ∧ (0 <= Sv39.pte_rwx e < 8 → Sv39.pte_rwx e' = rwx).
Proof.
  intros Hr%prot_rwx_cases Hv rwx e1 e'. fold rwx in Hr. cbv zeta in Hr.
  assert (Hcast : Z.land (Sv39.rwx_cast rwx) 7 = rwx) by (by destruct Hr as [-> | [-> | [-> | ->]]]).
  assert (E : Sv39.pte_rwx e' = Z.lor (Z.land (Sv39.pte_rwx e) (not64 7)) rwx).
  { transitivity (Z.lor (Z.land (Sv39.pte_rwx e) (not64 7)) (Z.land (Sv39.rwx_cast rwx) 7)); [reflexivity|by rewrite Hcast]. }
  split_and!; try done.
  - unfold Sv39.is_table. rewrite E. apply andb_false_iff. right. apply Z.eqb_neq. intros [_ Ez]%Z.lor_eq_0_iff.
    by destruct Hr as [Hr | [Hr | [Hr | Hr]]]; rewrite Hr in Ez.
  - unfold Sv39.is_cow, Sv39.flag_and, e', Sv39.restore_from_cow, Sv39.set_cow. cbn [Sv39.pte_rsw].
    rewrite <- Z.land_assoc. change (Z.land (not64 1) 1) with 0. by rewrite Z.land_0_r.
  - intros Hw. rewrite E. rewrite (land_not64 _ 7) by (unfold is_u64, W64; lia).
    change 7 with (Z.ones 3). rewrite ldiff_ones_round by lia. by rewrite Z.div_small.
Qed.

Lemma fork_absent (o : Memory.mstate G F) m p off :
  Memory.mems o !! m = Some p → is_u64 off →
  Memory.memsz p <= page_align_down off ∨ Memory.phy_pages p !! (off / PAGESIZE) = None →
  ∃ e, Memory.fork m off o = Fin (Err e) o.
Proof.
  intros Hm Ho Hn. unfold Memory.fork. rewrite (bind_run _ _ _ _ _ (Memory.get_mem_run o m p Hm)).
  destruct (Z.leb_spec (Memory.memsz p) (page_align_down off)) as [Hle|Hlt]; [by eexists|].
  rewrite Memory.offvpn_div by done. unfold Memory.lookup_page_entry. destruct Hn as [Hn|Hn]; [lia|].
  rewrite Hn. by eexists.
Qed.

(** The page of [a] is the area's own again: its memory holds the frame alone, and
    the leaf has the area's permissions. *)
Definition wp_resolved P s s' (root : Z) (v : VMA) (a : Z) : Prop :=
  ∃ p pg e0 e, Memory.mems (objs s') !! vmemory v = Some p ∧ Memory.phy_pages p !! fault_page v a = Some pg ∧
    Memory.shared p = false ∧ sole_owner s' (vmemory v) (fault_page v a) (Sv39.pte_ppn e) ∧
    Sv39.translate (pts s) root a = Some (Ok (Sv39.SZ_4K, e0)) ∧ Sv39.is_cow e0 = true ∧
    Sv39.remapped (pts s) P root Sv39.SZ_4K a (Ok (Sv39.SZ_4K, e)) (pts s') ∧
    Sv39.is_cow e = false ∧ Sv39.pte_u e = Sv39.pte_u e0 ∧ Sv39.pte_ppn e = Sv39.to_ppn (Memory.addr pg) ∧
    (0 <= Sv39.pte_rwx e0 < 8 → Sv39.pte_rwx e = prot_to_rwx (vprot v)) ∧
    (congruent v → user_byte s' root a = Some (Memory.view (objs s) (vmemory v) (byte_offset v a))).

(** [fork] of the page at [off], in the whole state. *)
Lemma fork_step P ext hold c s m p off :
  vm_inv P ext hold (2 + c) s → Memory.mems (objs s) !! m = Some p → is_u64 off →
  ∃ r o, attempt (with_mem (Memory.fork m off)) s = Fin (Ok r) (set_objs o s) ∧ vm_inv P ext hold c (set_objs o s) ∧
    (∀ m' y, Memory.view o m' y = Memory.view (objs s) m' y) ∧
    (r = Ok tt → ∃ a, Memory.mems o !! m = Some (Memory.set_pages <[off / PAGESIZE := Memory.mkPage a 1]> p) ∧
       page_align_down off < Memory.memsz p).
Proof.
  intros Hi Hm Ho. assert (Habs : (∃ e, Memory.fork m off (objs s) = Fin (Err e) (objs s)) →
    ∃ r o, attempt (with_mem (Memory.fork m off)) s = Fin (Ok r) (set_objs o s) ∧ vm_inv P ext hold c (set_objs o s) ∧
    (∀ m' y, Memory.view o m' y = Memory.view (objs s) m' y) ∧
    (r = Ok tt → ∃ a, Memory.mems o !! m = Some (Memory.set_pages <[off / PAGESIZE := Memory.mkPage a 1]> p) ∧
       page_align_down off < Memory.memsz p)).
  { intros [e E]. exists (Err e), (objs s). assert (set_objs (objs s) s = s) as -> by by destruct s.
    split_and!; try done; [|eapply vm_inv_le; [done|lia]]. unfold attempt, with_mem. rewrite E. by destruct s. }
  destruct (decide (Memory.memsz p <= page_align_down off)) as [Hle|Hlt]; [apply Habs, (fork_absent _ _ p); auto|].
  destruct (Memory.phy_pages p !! (off / PAGESIZE)) as [e|] eqn:Ee; [|apply Habs, (fork_absent _ _ p); auto].
  assert (Hmi : Memory.mem_inv ext (S (S (size (pages s) + (0 + c)))) (objs s)).
  { eapply Memory.mem_inv_le; [apply Hi|]. lia. }
  destruct (Memory.fork_run ext _ (objs s) m p off e Hmi Hm Ho ltac:(lia) Ee) as (r & o & pg & Eo & Ho' & Hpv & Hrp & Hvw & Hr).
  exists r, o. split; [unfold attempt, with_mem; by rewrite Eo|]. split_and!.
  - apply (mem_step_inv P ext hold _ c s o m p pg 0 Hi Hm Ho' Hpv Hrp).
    destruct r; [|subst; lia]. destruct Hr as (fa & _ & ->). rewrite map_size_insert, Ee. unfold id. lia.
  - intros m' y. destruct (decide (m' = m)) as [->|Hne]; [done|]. by eapply Memory.private_view.
  - intros ->. destruct Hr as (a & _ & ->). exists a. split; [exact Hrp|lia].
Qed.

Lemma on_wp_run P ext hold c s t x a :
  vm_inv P ext hold (2 + c) s → spaces s !! t = Some x → is_u64 a → (∀ v, v ∈ vma_list x → usable v) →
  ∃ b s', on_wp t a s = Fin (Ok b) s' ∧ vm_inv P ext hold c s' ∧ spaces s' = spaces s ∧
    (∀ m y, Memory.view (objs s') m y = Memory.view (objs s) m y) ∧
    (b = false → pts s' = pts s) ∧
    (b = true → ∃ v, locate_in (vma_list x) a = Ok v ∧ wp_resolved P s s' (pgd x) v a).
Proof.
  intros Hi Ht Ha Hus. pose proof (vi_spaces _ _ _ _ _ Hi t x Ht) as Hok.
  pose proof (vi_root _ _ _ _ _ Hi t x Ht) as Hroot.
  assert (Hi0 : vm_inv P ext hold c s) by (eapply vm_inv_le; [done|lia]).
  unfold on_wp. rewrite (bind_run _ _ _ _ _ (get_tm_run s t x Ht)).
  destruct (locate_in (vma_list x) a) as [v|e] eqn:El; [|by exists false, s].
  apply locate_in_maps in El as [Hv Hh]. destruct (Hus v Hv) as [Hrd Hmo].
  pose proof (so_area _ Hok v Hv) as Hva. pose proof (holds_le v a Hva Hh) as Hle.
  destruct (memory_of_run P ext hold _ s t x v Hi Ht Hv) as (p & Hp & Ep).
  rewrite (bind_run _ _ _ _ _ Ep). destruct (Memory.shared p) eqn:Esh; [by exists false, s|].
  destruct (aligned_page a Ha) as [Hal Hap]. set (va := page_align_down a) in *. cbv zeta.
  assert (Hvpn : Sv39.make_vpn Sv39.SZ_4K va = Sv39.make_vpn Sv39.SZ_4K a) by by apply vpn_page.
  assert (Hsame : set_pts (pts s) s = s) by by destruct s.
  destruct (query_translate (pts s) P (pgd x) va (vi_pt _ _ _ _ _ Hi) Hroot)
    as [(e & Eq & _)|(tb & ix & sz & e & Eq & Ew & Et)];
    (erewrite bind_run; [|unfold attempt, with_pt; rewrite Eq, Hsame; reflexivity]); [by exists false, s|].
  cbv beta iota. case_bool_decide as Esz; cbn [negb]; [|by exists false, s]. subst sz.
  destruct (Sv39.is_cow e) eqn:Ec; cbn [negb]; [|by exists false, s].
  pose proof (offset_u64 v va Hmo) as Hoff. set (off := memory_offset_for_page v va) in *.
  destruct (fork_step P ext hold c s (vmemory v) p off Hi Hp Hoff) as (r & o & Eo & Hio & Hvw & Hr).
  rewrite (bind_run _ _ _ _ _ Eo). set (s1 := set_objs o s) in *.
  destruct r as [[]|e1]; [|by exists false, s1]. destruct (Hr eq_refl) as (fa & Hm1 & Hlt).
  set (p1 := Memory.set_pages _ p) in Hm1. change o with (objs s1) in Hm1.
  assert (Hmo1 : memory_of (vmemory v) s1 = Fin (Ok p1) s1).
  { unfold memory_of, with_mem. by rewrite (Memory.get_mem_run _ _ _ Hm1). }
  rewrite (bind_run _ _ _ _ _ Hmo1). unfold Memory.lookup_page, Memory.lookup_page_entry.
  rewrite Memory.offvpn_div by done. simpl (Memory.memsz p1). rewrite (proj2 (Z.leb_gt _ _)) by done.
  assert (Hpg : Memory.phy_pages p1 !! (off / PAGESIZE) = Some (Memory.mkPage fa 1)) by apply lookup_insert_eq.
  rewrite Hpg. simpl (_ <$> _). cbv beta iota.
  assert (Hev : Sv39.pte_v e = true) by (by apply Sv39.walk_found in Ew as (_ & _ & _ & _ & _ & ? & _)).
  destruct (restored_leaf v fa e Hrd Hev) as (L1 & L2 & L3 & L4 & L5 & L6).
  set (e' := Sv39.restore_from_cow _ _) in *.
  assert (Hfok : Memory.frame_ok fa).
  { apply (Memory.mi_ok _ _ _ (vi_mem _ _ _ _ _ Hio) (vmemory v, off / PAGESIZE) (Memory.mkPage fa 1)).
    change (objs s1) with o. rewrite Memory.lookup_flatten. change o with (objs s1). by rewrite Hm1. }
  rewrite (frame_ppn _ Hfok) in L3.
  destruct (Sv39.put_leaf_run (pts s1) P (pgd x) va tb ix Sv39.SZ_4K e e' (vi_pt _ _ _ _ _ Hio) Hroot Ew L1) as [Hx2 Hm2].
  set (x2 := Sv39.set_tables (Sv39.write tb ix e') (pts s1)) in *.
  exists true, (set_pts x2 s1). split; [done|]. split; [by apply set_pts_inv|]. split_and!; try done.
  intros _. exists v. split; [done|]. unfold Sv39.leaf_result in Hm2. rewrite L2 in Hm2.
  apply (remapped_page _ _ _ va a) in Hm2; [|done].
  exists p1, (Memory.mkPage fa 1), e, e'. split; [done|]. split; [done|]. split; [done|]. split_and!; try done.
  - rewrite L3, to_ppn_div.
    by apply (sole_from_inv P ext hold c (set_pts x2 s1) (vmemory v) p1 (off / PAGESIZE) (Memory.mkPage fa 1));
      [apply set_pts_inv| | |simpl].
  - by rewrite (translate_page _ _ a va).
  - intros Hcg. rewrite <- Hvw. apply (leaf_shows (set_pts x2 s1) (pgd x) v a p1 (Memory.mkPage fa 1) e'); try done.
    change (pts (set_pts x2 s1)) with x2. rewrite (Hm2 (pgd x) a Hroot). by rewrite bool_decide_eq_true_2.
Qed.

(** ** Every operation keeps the invariant *)

Inductive vm_op :=
  | VAdd (t : Z) (type : Type_) (growth : Z) (a : Range) (memory prot offset : Z)
  | VClone (t id dst : Z)
  | VRemove (t id : Z)
  | VRemoveRange (t : Z) (a : Range)
  | VGrow (t id : Z) (a : Range)
  | VTail (t memory new_size : Z)
  | VSync (t memory : Z)
  | VNotPresent (t a : Z)
  | VWriteProtected (t a : Z)
  | VProtect (t memory : Z)
  | VMapInto (t memory cap_perm vaddr rwx req_growth : Z)
  | VUnmapFrom (t memory cap_perm vaddr : Z)
  | VResizeIn (t : option Z) (memory cap_perm newsz : Z)
  | VExisting (t root : Z)
  | VDelete (t : Z).

Definition run_vm_op (op : vm_op) : M (vm G F) unit :=
  match op with
  | VAdd t ty gr a m prot off => _ ← add_vma t ty gr a m prot off; mret tt
  | VClone t id dst => _ ← clone_vma t id dst; mret tt
  | VRemove t id => remove_vma t id
  | VRemoveRange t a => remove_vma_range t a
  | VGrow t id a => _ ← grow_vma t id a; mret tt
  | VTail t m n => unmap_memory_tail t m n
  | VSync t m => sync_memory_vmas t m
  | VNotPresent t a => _ ← on_np t a; mret tt
  | VWriteProtected t a => _ ← on_wp t a; mret tt
  | VProtect t m => protect_memory_cow t m
  | VMapInto t m cap va rwx gr => map_into t m cap va rwx gr
  | VUnmapFrom t m cap va => unmap_from t m cap va
  | VResizeIn t m cap n => resize_in t m cap n
  | VExisting t root => from_existing_pgd t root
  | VDelete t => delete_tm t
  end.

(** Frames the operation may take and calls of the page-frame allocator it makes
    beyond the release of what is in use. *)
Definition vm_room s (op : vm_op) : nat :=
  match op with
  | VNotPresent _ _ => 3
  | VWriteProtected _ _ => 2
  | VMapInto _ m _ _ _ _ => match Memory.mems (objs s) !! m with Some p => S (run_room p (Memory.memsz p)) | None => 0 end
  | VResizeIn _ m _ n => match Memory.mems (objs s) !! m with Some p => resize_room p n | None => 0 end
  | _ => 0
  end.

(** The pointers passed are alive, addresses are 64 bits wide, no reference count is at
    its limit, a run of frames is at most 128 MiB long, and a fault meets only areas
    that are readable. *)
Definition vm_op_ok P s (op : vm_op) : Prop :=
  (∀ m, default 0 (keeps s !! m) + Z.of_nat (length (all_of (spaces s))) + 2 < W64) ∧
  match op with
  | VAdd t _ _ a m _ _ => space_alive s t ∧ u64_area a ∧ (m = 0 ∨ is_Some (Memory.mems (objs s) !! m))
  | VClone t id dst => space_alive s t ∧ vma_alive s id ∧ space_alive s dst
  | VRemove t id => space_alive s t ∧ vma_alive s id
  | VRemoveRange t a => space_alive s t ∧ u64_area a
  | VGrow t id a => space_alive s t ∧ vma_alive s id ∧ u64_area a
  | VTail t _ _ | VSync t _ => space_alive s t
  | VNotPresent t a | VWriteProtected t a =>
      is_u64 a ∧ ∃ x, spaces s !! t = Some x ∧ ∀ v, v ∈ vma_list x → usable v
  | VProtect t m => space_alive s t ∧ three_bits (pts s) ∧ (m = 0 ∨ is_Some (Memory.mems (objs s) !! m))
  | VMapInto t m _ va _ _ => space_alive s t ∧ m ≠ 0 ∧ is_u64 va ∧ ∃ p, Memory.mems (objs s) !! m = Some p ∧
      (Memory.continuity p = false ∨
       Z.of_nat (size (Memory.phy_pages p)) * PAGESIZE < W64 ∧ 0 <= Memory.pages_of (Memory.memsz p) <= 2 ^ 15)
  | VUnmapFrom t _ _ _ | VDelete t => space_alive s t
  | VResizeIn t m _ n => (∀ t0, t = Some t0 → space_alive s t0) ∧ ∃ p, Memory.mems (objs s) !! m = Some p ∧
      (Memory.continuity p = false ∨ 0 <= Memory.pages_of n <= 2 ^ 15)
  | VExisting t root => spaces s !! t = None ∧ Sv39.is_root P (Sv39.to_ppn root)
  end.

Lemma vm_op_areas P ext hold c s op :
  vm_inv P ext hold c s → vm_op_ok P s op →
  match op with
  | VAdd _ _ _ _ _ _ _ | VClone _ _ _ | VRemove _ _ | VRemoveRange _ _ | VGrow _ _ _ | VTail _ _ _ | VSync _ _ =>
      ∃ r s', run_vm_op op s = Fin r s' ∧ vm_inv P ext hold c s'
  | _ => True
  end.
Proof.
  intros Hi [Hk Hop]. destruct op as [t ty gr a m prot off|t id dst|t id|t a|t id a|t m n|t m| | | | | | | |]; try done;
    cbn [run_vm_op].
  - destruct Hop as ([x Ht] & Ha & Hm). apply then_done. pose proof (Hk m) as Hkm.
    destruct (add_vma_any P ext hold c s t x ty gr a m prot off Hi Ht Ha Hm ltac:(lia)) as (r & s' & E & Hi' & _). eauto.
  - destruct Hop as ([x Ht] & Hid & [y Hd]). apply then_done. unfold clone_vma.
    apply (on_vma P ext hold c s t x id); [done..|]. intros l1 v l2 Hl Hvid E. rewrite (bind_run _ _ _ _ _ E).
    assert (Hv : v ∈ vma_list x) by (rewrite Hl; set_solver). pose proof (Hk (vmemory v)) as Hkm.
    destruct (add_vma_any P ext hold c s dst y (vtype v) (vgrowth v) (varea v) (vmemory v) (vprot v) (mem_offset v))
      as (r & s' & E' & Hi' & _); [done|done| |right|lia|eauto].
    + apply uarea_u64, (so_area _ (vi_spaces _ _ _ _ _ Hi t x Ht)). done.
    + apply (vi_alive _ _ _ _ _ Hi). by apply (kept_pos P ext hold c s t x v).
  - destruct Hop as ([x Ht] & Hid). unfold remove_vma at 1. apply (on_vma P ext hold c s t x id); [done..|].
    intros l1 v l2 Hl <- _. destruct (remove_vma_run P ext hold c s t x l1 v l2 Hi Ht Hl) as (s' & E & Hi' & _). eauto.
  - destruct Hop as ([x Ht] & [Hb He]).
    destruct (remove_range_run P ext hold c s t x a Hi Ht Hb He) as (r & s' & x' & E & Hi' & _); [|eauto].
    intros m. pose proof (Hk m). pose proof (all_of_length _ _ _ Ht). lia.
  - destruct Hop as ([x Ht] & Hid & [Hb He]). apply then_done. unfold grow_vma at 1.
    apply (on_vma P ext hold c s t x id); [done..|]. intros l1 v l2 Hl <- _.
    destruct (grow_vma_run P ext hold c s t x l1 v l2 a Hi Ht Hl Hb He) as (r & s' & E & Hi' & _). eauto.
  - destruct Hop as [x Ht]. destruct (tail_run P ext hold c s t x m n Hi Ht) as (s' & E & Hi' & _). eauto.
  - destruct Hop as [x Ht]. destruct (sync_run P ext hold c s t x m Hi Ht) as (r & s' & x' & E & Hi' & _). eauto.
Qed.

Lemma vm_op_objects P ext hold c s op :
  vm_inv P ext hold (vm_room s op + c) s → vm_op_ok P s op →
  match op with
  | VProtect _ _ | VMapInto _ _ _ _ _ _ | VUnmapFrom _ _ _ _ | VResizeIn _ _ _ _ | VExisting _ _ | VDelete _ =>
      ∃ r s', run_vm_op op s = Fin r s' ∧ vm_inv P ext hold c s'
  | _ => True
  end.
Proof.
  intros Hi [Hk Hop]. destruct op as [| | | | | | | | |t m|t m cap va rwx gr|t m cap va|t m cap n|t root|t]; try done;
    cbn [run_vm_op vm_room] in *.
  - destruct Hop as ([x Ht] & H3 & Hm). by apply (protect_run P ext hold c s t x m).
  - destruct Hop as ([x Ht] & Hm0 & Hva & p & Hm & Hn). rewrite Hm in Hi. pose proof (Hk m).
    apply (map_into_run P ext hold c s t x m p); done || lia.
  - destruct Hop as [x Ht]. by apply (unmap_from_run P ext hold c s t x).
  - destruct Hop as (Ht & p & Hm & Hn). rewrite Hm in Hi. by apply (resize_in_run P ext hold c s t m p).
  - destruct Hop as [Ht Hr]. by apply from_pgd_run.
  - destruct Hop as [x Ht]. destruct (delete_tm_run P ext hold c s t x Hi Ht) as (s' & E & Hi' & _). eauto.
Qed.


(** C31: [remove_vma_range] removes from the address space exactly the addresses of
    the range, whatever the range cuts (whole areas, their ends, or a hole in the
    middle): every other address shows the same byte of the same memory object with
    the same permissions as before, no translation is left for a removed address,
    and no other address space changes.  It fails only for a range that is not a
    valid user area, and then changes nothing. *)
Theorem remove_vma_range_spec P ext hold c s t x a :
  vm_inv P ext hold c s → spaces s !! t = Some x → u64_area a →
  (∀ m, default 0 (keeps s !! m) + Z.of_nat (length (vma_list x)) + 2 < W64) →
  ∃ r s' x', remove_vma_range t a s = Fin r s' ∧ vm_inv P ext hold c s' ∧ spaces s' = <[t := x']> (spaces s) ∧
    pgd x' = pgd x ∧
    match r with
    | Ok _ => (∀ y z, maps (vma_list x') y z ↔ maps (vma_list x) y z ∧ within a y = false) ∧
        removed P (pgd x) (λ y, within a y = true ∧ ∃ v, v ∈ vma_list x ∧ within (varea v) y = true) (pts s) (pts s')
    | Err e => e = INVALID_PARAM ∧ s' = s ∧ ~ uarea a
    end.
Proof. intros Hi Ht [Hb He]. by apply remove_range_run. Qed.



(** Growing an area downwards moves its contents.  [grow_vma] keeps the area's
    offset into the memory while its first address goes down, so that every address
    of the old area shows, from then on, a byte that lies further up in the memory
    by the number of bytes grown, although its page may still be mapped to the old
    frame. *)
Theorem grow_down_shifts_contents P ext hold c s t x l1 v l2 a s' y :
  vm_inv P ext hold c s → spaces s !! t = Some x → vma_list x = l1 ++ v :: l2 → u64_area a →
  rbegin a < rbegin (varea v) → grow_vma t (vid v) a s = Fin (Ok a) s' →
  rbegin (varea v) <= y < rend (varea v) → y < rend a →
  let d := rbegin (varea v) - rbegin a in
  maps (vma_list x) y (vmemory v, byte_offset v y, vprot v) ∧
  ∃ x', spaces s' !! t = Some x' ∧ maps (vma_list x') y (vmemory v, wrap64 (byte_offset v y + d), vprot v).
Proof.
  intros Hi Ht Hl [Hb He] Hdown E Hy Hya d.
  destruct (grow_vma_run P ext hold c s t x l1 v l2 a Hi Ht Hl Hb He) as (r & s1 & E1 & _ & Hr).
  rewrite E in E1. injection E1 as <- <-. destruct Hr as (_ & Hsp & _). split.
  - exists v. split; [rewrite Hl; set_solver|]. split; [by apply within_spec|done].
  - eexists. split; [rewrite Hsp; apply lookup_insert_eq|]. exists (set_varea a v). split; [simpl; set_solver|].
    split; [apply within_spec; simpl; lia|]. simpl. unfold byte_offset. rewrite wrap64_add_l. unfold d.
    do 3 f_equal. lia.
Qed.
End fault.

(** ** Witnesses: one address space over the page tables of [Sv39Witness], with an
    area of two pages that maps an anonymous memory object. *)
Module VmaWitness.
Import MemFrames.MemFrames MemFrames.MemFrames.MemoryWitness.
#[local] Existing Instance no_files.

Definition area0 : Range := {| rbegin := 0x40000000; rend := 0x40002000 |}.
Definition vma_with (type : Type_) (growth : Z) : VMA := mkVMA 0 type growth 1 (PROT_R + PROT_W) 0 area0.
Definition ex_vma : VMA := vma_with T_HEAP 0.
Definition ex_tm : TM := mkTM [ex_vma] 1.
Definition no_hold (_ : Z) : Z := 0.
Definition vm_with (v : VMA) (o : Memory.mstate (Gfp.gfp Gfp.linear) unit) : vm (Gfp.gfp Gfp.linear) unit :=
  mkVm {[1 := mkTM [v] 1]} Sv39.Sv39Witness.ex_pt o {[1 := 1]} 1.
Definition ex_vm := vm_with ex_vma ex_state.

Lemma ex_all v o : all_of (spaces (vm_with v o)) = [v].
Proof. unfold all_of. simpl. by rewrite map_to_list_singleton. Qed.
Lemma ex_space v o t x : spaces (vm_with v o) !! t = Some x → t = 1 ∧ x = mkTM [v] 1.
Proof. simpl. by intros [<- <-]%lookup_singleton_Some. Qed.
Lemma area0_ok : uarea area0.
Proof. unfold uarea, KPA_OFFSET. simpl. lia. Qed.

Lemma vm_with_inv ty gr o c :
  (∀ c, Memory.mem_inv ex_ext c o) → is_Some (Memory.mems o !! 1) →
  vm_inv Sv39.Sv39Witness.ex_ghost ex_ext no_hold c (vm_with (vma_with ty gr) o).
Proof.
  intros Ho H1. split.
  - apply Sv39.Sv39Witness.sv39_ex_inv.
  - intros t x [-> ->]%ex_space. apply Sv39.Sv39Witness.ex_root.
  - apply Ho.
  - intros m. rewrite ex_all, count_cons. simpl. unfold no_hold, at_. case_bool_decide as E.
    + subst. by rewrite lookup_singleton_eq.
    + by rewrite lookup_singleton_ne.
  - done.
  - intros m. simpl. destruct (decide (m = 1)) as [->|Hm]; [done|].
    rewrite lookup_singleton_ne by done. simpl. lia.
  - intros v. rewrite ex_all. by intros ->%list_elem_of_singleton.
  - intros v. rewrite ex_all. intros ->%list_elem_of_singleton. simpl. lia.
  - intros t x [-> ->]%ex_space. split.
    + apply NoDup_singleton.
    + intros v ->%list_elem_of_singleton. apply area0_ok.
    + by intros v w ->%list_elem_of_singleton ->%list_elem_of_singleton.
Qed.
Lemma ex_vm_inv c : vm_inv Sv39.Sv39Witness.ex_ghost ex_ext no_hold c ex_vm.
Proof. apply vm_with_inv; [apply ex_state_inv|by exists ex_payload]. Qed.

Lemma ex_keeps m : default 0 (keeps ex_vm !! m) <= 1.
Proof.
  simpl. destruct (decide (m = 1)) as [->|Hm]; [by rewrite lookup_singleton_eq|].
  rewrite lookup_singleton_ne by done. simpl. lia.
Qed.

Lemma ex_usable v : v ∈ vma_list ex_tm → usable v.
Proof. intros ->%list_elem_of_singleton. split; [done|]. unfold is_u64, W64. simpl. lia. Qed.

Definition ex_hole : Range := {| rbegin := 0x40000800; rend := 0x40001000 |}.


Lemma remove_vma_range_spec_witness :
  ∃ r s' x', remove_vma_range 1 ex_hole ex_vm = Fin r s' ∧
    vm_inv Sv39.Sv39Witness.ex_ghost ex_ext no_hold 0 s' ∧ spaces s' = <[1 := x']> (spaces ex_vm) ∧ pgd x' = 1 ∧
    match r with
    | Ok _ => (∀ y z, maps (vma_list x') y z ↔ maps [ex_vma] y z ∧ within ex_hole y = false) ∧
        removed Sv39.Sv39Witness.ex_ghost 1
          (λ y, within ex_hole y = true ∧ ∃ v, v ∈ [ex_vma] ∧ within (varea v) y = true) (pts ex_vm) (pts s')
    | Err e => e = INVALID_PARAM ∧ s' = ex_vm ∧ ~ uarea ex_hole
    end.
Proof.
  apply (remove_vma_range_spec Sv39.Sv39Witness.ex_ghost ex_ext no_hold 0 ex_vm 1 ex_tm ex_hole);
    [apply ex_vm_inv|reflexivity| |].
  - unfold u64_area, is_u64, W64. simpl. lia.
  - intros m. pose proof (ex_keeps m). unfold W64. simpl in *. lia.
Defined.


(** The memory has a copy-on-write clone, and its second page is mapped. *)
Definition ex_cloned := state_after (Memory.clone_payload 1 ex_written) ex_written.
Definition ex_cow_vm := state_after (on_np 1 0x40001234 (vm_with ex_vma ex_cloned)) (vm_with ex_vma ex_cloned).

Lemma ex_cloned_inv c : Memory.mem_inv ex_ext c ex_cloned.
Proof.
  destruct (Memory.clone_run ex_ext c ex_written 1 ex_payload2 (ex_written_inv c) ex_lookup2 eq_refl ex_counts)
    as (m' & s' & p' & E & Hi & _). unfold ex_cloned. by rewrite E.
Qed.
Lemma ex_cow_vm_inv c : ∃ P, vm_inv P ex_ext no_hold c ex_cow_vm.
Proof.
  destruct (on_np_run Sv39.Sv39Witness.ex_ghost ex_ext no_hold c (vm_with ex_vma ex_cloned) 1 ex_tm 0x40001234)
    as (b & s' & P' & E & _ & Hi & _);
    [apply vm_with_inv; [apply ex_cloned_inv|by eexists]|done|unfold is_u64, W64; lia|apply ex_usable|].
  exists P'. unfold ex_cow_vm. by rewrite E.
Qed.


(** A stack of two pages that grows by one: the address 0x40001234 showed byte 0x1234
    of the memory and shows byte 0x2234 afterwards. *)
Definition ex_stack : VMA := vma_with T_STACK Memory.MemoryGrowth.GROW_DOWN.
Definition grown0 : Range := {| rbegin := 0x3ffff000; rend := 0x40002000 |}.
Lemma grow_down_shifts_contents_witness :
  ∃ s' x', grow_vma 1 0 grown0 (vm_with ex_stack ex_state) = Fin (Ok grown0) s' ∧
    maps [ex_stack] 0x40001234 (1, 0x1234, PROT_R + PROT_W) ∧
    spaces s' !! 1 = Some x' ∧ maps (vma_list x') 0x40001234 (1, 0x2234, PROT_R + PROT_W).
Proof.
  set (s0 := vm_with ex_stack ex_state).
  assert (E : grow_vma 1 0 grown0 s0 = Fin (Ok grown0) (state_after (grow_vma 1 0 grown0 s0) s0))
    by (vm_compute; reflexivity).
  destruct (grow_down_shifts_contents Sv39.Sv39Witness.ex_ghost ex_ext no_hold 0 s0 1 (mkTM [ex_stack] 1) [] ex_stack []
    grown0 (state_after (grow_vma 1 0 grown0 s0) s0) 0x40001234) as [H1 (x' & Ht & H2)]; [| | | | |exact E| | |].
  - apply vm_with_inv; [apply ex_state_inv|by exists ex_payload].
  - reflexivity.
  - reflexivity.
  - unfold u64_area, is_u64, W64. simpl. lia.
  - simpl. lia.
  - simpl. lia.
  - simpl. lia.
  - eexists _, x'. split; [exact E|]. split; [exact H1|]. split; [exact Ht|exact H2].
Defined.

(** ** Resizing memory that is mapped *)

Definition cont_payload : Memory.MemoryPayload :=
  Memory.mkMemory 0x1000 false true Memory.MemoryGrowth.FLEXUP None 0 (W64 - 1) ∅.
Definition cont_vm : vm (Gfp.gfp Gfp.linear) unit :=
  mkVm {[1 := mkTM [] 1]} Sv39.Sv39Witness.ex_pt
    (Memory.mkState (Gfp.mkGfp (Gfp.mkLinear 0x80000000 0x80100000) ∅ 0) tt ∅ {[1 := cont_payload]} 2 2 0 0)
    {[1 := 1]} 1.

(** Growing a contiguous memory that is mapped leaves a stale translation.  After
    [map_into], a page fault and [resize_in] to a larger size, each successful, the
    user's page is still mapped writable to the frame the memory had before, whose
    last reference [resize] has just returned to the allocator. *)
Theorem resize_leaves_stale_translation :
  ∃ s1 s2 s3 e,
    map_into 1 1 (perm.MAP + perm.READ + perm.WRITE + perm.FLEXUP) 0x40000000 3 Memory.MemoryGrowth.FLEXUP cont_vm =
      Fin (Ok tt) s1 ∧
    on_np 1 0x40000000 s1 = Fin (Ok true) s2 ∧
    resize_in (Some 1) 1 perm.RESIZE 0x2000 s2 = Fin (Ok tt) s3 ∧
    Sv39.translate (pts s3) 1 0x40000000 = Some (Ok (Sv39.SZ_4K, e)) ∧ Sv39.pte_u e = true ∧
    Sv39.page_is_writable (Sv39.pte_rwx e) = true ∧
    0 < Gfp.ref (Memory.frames (objs s2)) (Sv39.pte_ppn e) ∧ Gfp.ref (Memory.frames (objs s3)) (Sv39.pte_ppn e) = 0.
Proof.
  set (o1 := map_into 1 1 _ _ _ _ _). set (s1 := state_after o1 cont_vm).
  set (o2 := on_np 1 0x40000000 s1). set (s2 := state_after o2 cont_vm).
  set (o3 := resize_in (Some 1) 1 perm.RESIZE 0x2000 s2). set (s3 := state_after o3 cont_vm).
  exists s1, s2, s3, (Sv39.mkPTE true 3 true false true true 0 0x80000 0 0 false).
  split_and!; vm_compute; reflexivity.
Qed.
End VmaWitness.

End VmaFault.
