(* ===== verification/RingBuf.v ===== *)
(** * Ring buffers

    [include/sus/ringbuf.h].  [RingBuffer] allocates its storage: [D_data] is
    [None] for a null pointer, else the constructed elements by index (a cell
    without an entry is raw storage).  [StaticRingBuffer] has its storage inside
    and overwrites elements in place.  Both keep one slot empty.  The refinement
    theorems relate them to a FIFO queue, a plain list. *)

From S2P Require Import Prelude ErrCode.

#[local] Open Scope Z_scope.

(** The [std::error_type] values the buffers return. *)
Inductive NtError := NT_NULLPTR | OVERFLOW_ERROR | UNDERFLOW_ERROR.

#[export] Instance NtError_eq_dec : EqDecision NtError.
Proof. solve_decision. Defined.

(** ** The abstract queue *)

Inductive ring_cmd (A : Type) := CPush (v : A) | CPop | CClear.
Arguments CPush {A} _.
Arguments CPop {A}.
Arguments CClear {A}.

(** A command on a list bounded by [max] elements: an error, or the element
    popped. *)
Definition queue_exec {A} (max : Z) (c : ring_cmd A) (l : list A)
    : (NtError + option A) * list A :=
  match c with
  | CPush v => if Z.of_nat (length l) <? max then (inr None, l ++ [v]) else (inl OVERFLOW_ERROR, l)
  | CPop => match l with [] => (inl UNDERFLOW_ERROR, []) | x :: l => (inr (Some x), l) end
  | CClear => (inr None, [])
  end.

Fixpoint run_cmds {A S} (exec : ring_cmd A → S → (NtError + option A) * S)
    (cs : list (ring_cmd A)) (s : S) : list (NtError + option A) :=
  match cs with
  | [] => []
  | c :: cs => let '(r, s) := exec c s in r :: run_cmds exec cs s
  end.

(** What a queue implementation promises: it simulates the bounded list. *)
Class QueueImpl (A Q : Type) := {
  q_exec : ring_cmd A → Q → (NtError + option A) * Q;
  q_rep : Q → list A → Prop;
  q_max : Q → Z;
  q_sim : ∀ c q l, q_rep q l →
    (q_exec c q).1 = (queue_exec (q_max q) c l).1 ∧
    q_rep (q_exec c q).2 (queue_exec (q_max q) c l).2 ∧ q_max (q_exec c q).2 = q_max q
}.

(** A simulation gives equal answers on every sequence of commands. *)
Lemma queue_impl_refines {A Q} `{!QueueImpl A Q} cs (q : Q) (l : list A) :
  q_rep q l → run_cmds q_exec cs q = run_cmds (queue_exec (q_max q)) cs l.
Proof.
  revert q l. induction cs as [|c cs IH]; intros q l H; simpl; [done|].
  destruct (q_sim c q l H) as (E1 & H' & Em).
  destruct (q_exec c q) as [r q'], (queue_exec _ c l) as [r' l']; simpl in *.
  rewrite E1, <- Em. f_equal. by apply IH.
Qed.

Section ringbuf.
Context {A : Type} `{EqA : !EqDecision A}.

Record RingBuffer := mkRing {
  D_data : option (gmap Z A);
  D_capacity : Z;
  D_head : Z;
  D_tail : Z
}.

Definition U_normalize_capacity (capacity : Z) : Z := if capacity <? 2 then 2 else capacity.

Definition U_next (rb : RingBuffer) (idx : Z) : Z :=
  if D_capacity rb =? 0 then 0 else add64 idx 1 mod D_capacity rb.

Definition U_index_from_head (rb : RingBuffer) (offset : Z) : Z :=
  if D_capacity rb =? 0 then 0
  else
    let idx := add64 (D_head rb) offset in
    if D_capacity rb <=? idx then sub64 idx (D_capacity rb) else idx.

(** The constructor; [alloc_ok] is whether the allocator had the memory. *)
Definition ring_new (alloc_ok : bool) (capacity : Z) : RingBuffer :=
  let cap := U_normalize_capacity capacity in
  if alloc_ok then mkRing (Some ∅) cap 0 0 else mkRing None 0 0 0.

Definition ring_size (rb : RingBuffer) : Z :=
  if D_capacity rb =? 0 then 0
  else if D_head rb <=? D_tail rb then sub64 (D_tail rb) (D_head rb)
  else sub64 (D_capacity rb) (sub64 (D_head rb) (D_tail rb)).

Definition ring_empty (rb : RingBuffer) : bool := D_head rb =? D_tail rb.

Definition ring_full (rb : RingBuffer) : bool :=
  negb (D_capacity rb =? 0) && (U_next rb (D_tail rb) =? D_head rb).

Definition ring_emplace (v : A) (rb : RingBuffer) : (NtError + unit) * RingBuffer :=
  match D_data rb with
  | None => (inl NT_NULLPTR, rb)
  | Some cells =>
      if ring_full rb then (inl OVERFLOW_ERROR, rb)
      else
        let insert_idx := D_tail rb in
        (inr tt, mkRing (Some (<[insert_idx := v]> cells)) (D_capacity rb) (D_head rb)
                   (U_next rb (D_tail rb)))
  end.

Definition ring_push (v : A) (rb : RingBuffer) := ring_emplace v rb.

(** [U_destroy]: the element is destroyed, its storage is raw again. *)
Definition U_destroy (rb : RingBuffer) (idx : Z) : RingBuffer :=
  mkRing (delete idx <$> D_data rb) (D_capacity rb) (D_head rb) (D_tail rb).

Definition ring_pop (rb : RingBuffer) : (NtError + unit) * RingBuffer :=
  if ring_empty rb then (inl UNDERFLOW_ERROR, rb)
  else
    let rb := U_destroy rb (D_head rb) in
    let rb := mkRing (D_data rb) (D_capacity rb) (U_next rb (D_head rb)) (D_tail rb) in
    if ring_empty rb then (inr tt, mkRing (D_data rb) (D_capacity rb) 0 0)
    else (inr tt, rb).

(** [front()]: the element at the head, [None] when none was constructed
    there. *)
Definition ring_front (rb : RingBuffer) : option A := cells ← D_data rb; cells !! D_head rb.

(** [U_destroy_all]; [D_capacity] rounds suffice. *)
Fixpoint destroy_all_loop (fuel : nat) (rb : RingBuffer) : RingBuffer :=
  match fuel with
  | O => rb
  | S fuel =>
      if ring_empty rb then rb
      else
        let rb := U_destroy rb (D_head rb) in
        destroy_all_loop fuel
          (mkRing (D_data rb) (D_capacity rb) (U_next rb (D_head rb)) (D_tail rb))
  end.
Definition U_destroy_all (rb : RingBuffer) : RingBuffer :=
  let rb := destroy_all_loop (Z.to_nat (D_capacity rb)) rb in
  mkRing (D_data rb) (D_capacity rb) 0 0.
Definition ring_clear (rb : RingBuffer) : RingBuffer := U_destroy_all rb.

(** [U_reset_storage] and the destructor. *)
Definition U_reset_storage (rb : RingBuffer) : RingBuffer :=
  let rb := U_destroy_all rb in mkRing None 0 (D_head rb) (D_tail rb).

(** [U_copy_from] into an object with no storage: the elements are compacted to
    the front. *)
Fixpoint copy_from_loop (other : RingBuffer) (idxs : list Z) (cells : gmap Z A) : option (gmap Z A) :=
  match idxs with
  | [] => Some cells
  | i :: idxs =>
      src ← D_data other;
      v ← src !! U_index_from_head other i;
      copy_from_loop other idxs (<[i := v]> cells)
  end.
Definition U_copy_from (alloc_ok : bool) (other : RingBuffer) : option RingBuffer :=
  if D_capacity other =? 0 then Some (mkRing None 0 0 0)
  else if negb alloc_ok then Some (mkRing None 0 0 0)
  else
    let cnt := ring_size other in
    cells ← copy_from_loop other (seqZ 0 cnt) ∅;
    Some (mkRing (Some cells) (D_capacity other) 0 cnt).

(** Move construction: the source is left without storage. *)
Definition ring_move (other : RingBuffer) : RingBuffer * RingBuffer :=
  (other, mkRing None 0 0 0).

Definition ring_contains (v : A) (rb : RingBuffer) : bool :=
  existsb (λ i, bool_decide (D_data rb ≫= (.!! U_index_from_head rb i) = Some v))
    (seqZ 0 (ring_size rb)).

(** ** Refinement to a FIFO queue *)

(** [rb] holds the queue [l]: element [i] is at [(head + i) mod capacity], and
    no other cell holds a constructed element. *)
Record ring_rep (rb : RingBuffer) (l : list A) : Prop := {
  rr_cap : 2 <= D_capacity rb < W64;
  rr_head : 0 <= D_head rb < D_capacity rb;
  rr_len : Z.of_nat (length l) < D_capacity rb;
  rr_tail : D_tail rb = (D_head rb + Z.of_nat (length l)) mod D_capacity rb;
  rr_cells : ∃ cells, D_data rb = Some cells ∧
    ∀ k v, cells !! k = Some v ↔
      ∃ i, l !! i = Some v ∧ k = (D_head rb + Z.of_nat i) mod D_capacity rb
}.

(** A sum of two in-range indices reduced modulo the capacity, by cases. *)
Lemma mod_wrap a n c : 0 <= a < c → 0 <= n <= c →
  (a + n) mod c = if a + n <? c then a + n else a + n - c.
Proof.
  intros Ha Hn. destruct (Z.ltb_spec (a + n) c).
  - by apply Z.mod_small; lia.
  - rewrite <- (Z.mod_small (a + n - c) c) by lia.
    replace (a + n) with (a + n - c + 1 * c) at 1 by lia. by rewrite Z.mod_add by lia.
Qed.

(** Distinct offsets below the capacity are distinct cells. *)
Lemma mod_wrap_inj a c i j : 0 <= a < c → 0 <= i < c → 0 <= j < c →
  (a + i) mod c = (a + j) mod c → i = j.
Proof.
  intros Ha Hi Hj. rewrite !mod_wrap by lia.
  destruct (Z.ltb_spec (a + i) c), (Z.ltb_spec (a + j) c); lia.
Qed.

Lemma add64_next idx c : 0 <= idx < c → c < W64 → add64 idx 1 = idx + 1.
Proof. intros ??. unfold add64. apply wrap64_small. unfold is_u64. lia. Qed.

Lemma U_next_mod rb idx : 2 <= D_capacity rb < W64 → 0 <= idx < D_capacity rb →
  U_next rb idx = (idx + 1) mod D_capacity rb.
Proof.
  intros Hc Hi. unfold U_next. rewrite (proj2 (Z.eqb_neq _ 0)) by lia.
  by rewrite (add64_next _ (D_capacity rb)) by lia.
Qed.

Lemma ring_tail_range rb l : ring_rep rb l → 0 <= D_tail rb < D_capacity rb.
Proof. intros [Hc Hh Hl -> _]. apply Z.mod_pos_bound. lia. Qed.

Lemma ring_empty_spec rb l : ring_rep rb l → ring_empty rb = true ↔ l = [].
Proof.
  intros H. destruct H as [Hc Hh Hl Ht _]. unfold ring_empty. rewrite Z.eqb_eq, Ht.
  rewrite mod_wrap by lia. destruct (Z.ltb_spec (D_head rb + Z.of_nat (length l)) (D_capacity rb)).
  - destruct l; simpl in *; split; try done; lia.
  - destruct l; simpl in *; split; try done; lia.
Qed.

Lemma ring_full_spec rb l :
  ring_rep rb l → ring_full rb = true ↔ Z.of_nat (length l) = D_capacity rb - 1.
Proof.
  intros H. pose proof (ring_tail_range _ _ H) as Htr. destruct H as [Hc Hh Hl Ht _].
  unfold ring_full. rewrite (proj2 (Z.eqb_neq (D_capacity rb) 0)) by lia. simpl.
  rewrite Z.eqb_eq, U_next_mod by lia. rewrite mod_wrap by lia.
  rewrite mod_wrap in Ht by lia.
  destruct (Z.ltb_spec (D_head rb + Z.of_nat (length l)) (D_capacity rb)),
    (Z.ltb_spec (D_tail rb + 1) (D_capacity rb)); lia.
Qed.

Lemma ring_size_spec rb l : ring_rep rb l → ring_size rb = Z.of_nat (length l).
Proof.
  intros H. pose proof (ring_tail_range _ _ H) as Htr. destruct H as [Hc Hh Hl Ht _].
  unfold ring_size, sub64. rewrite (proj2 (Z.eqb_neq (D_capacity rb) 0)) by lia.
  rewrite mod_wrap in Ht by lia.
  destruct (Z.leb_spec (D_head rb) (D_tail rb)).
  - rewrite wrap64_small by (unfold is_u64; lia).
    destruct (Z.ltb_spec (D_head rb + Z.of_nat (length l)) (D_capacity rb)); lia.
  - rewrite !wrap64_small by (unfold is_u64; rewrite ?wrap64_small by (unfold is_u64; lia); lia).
    destruct (Z.ltb_spec (D_head rb + Z.of_nat (length l)) (D_capacity rb)); lia.
Qed.

Lemma ring_new_rep capacity :
  0 <= capacity < W64 → ring_rep (ring_new true capacity) [].
Proof.
  intros Hc. assert (Hn : 2 <= U_normalize_capacity capacity < W64).
  { unfold U_normalize_capacity, W64 in *. destruct (Z.ltb_spec capacity 2); lia. }
  split; simpl; try lia.
  - by rewrite Z.mod_0_l by lia.
  - exists ∅. split; [done|]. intros k v. rewrite lookup_empty.
    split; [done|]. by intros (i & Hi & _).
Qed.

Lemma ring_emplace_rep rb l v :
  ring_rep rb l → Z.of_nat (length l) < D_capacity rb - 1 →
  ∃ rb', ring_emplace v rb = (inr tt, rb') ∧ ring_rep rb' (l ++ [v]) ∧
         D_capacity rb' = D_capacity rb.
Proof.
  intros H Hroom. pose proof (ring_tail_range _ _ H) as Htr.
  assert (Hnf : ring_full rb = false).
  { destruct (ring_full rb) eqn:E; [|done]. apply (ring_full_spec _ _ H) in E. lia. }
  destruct H as [Hc Hh Hl Ht (cells & Hd & Hcells)].
  unfold ring_emplace. rewrite Hd, Hnf. eexists. split; [done|]. split; [|done].
  split; simpl; try done; try (rewrite length_app; simpl; lia).
  - rewrite U_next_mod, Ht, length_app by lia. simpl. rewrite Z.add_mod_idemp_l by lia.
    f_equal. lia.
  - eexists. split; [done|]. intros k w. destruct (decide (k = D_tail rb)) as [->|Hne].
    + rewrite lookup_insert_eq. split.
      * intros [= <-]. exists (length l). split; [|done].
        by rewrite lookup_app_r, Nat.sub_diag by lia.
      * intros (i & Hi & E). rewrite Ht in E. apply mod_wrap_inj in E; [|lia|lia|].
        -- assert (i = length l) as -> by lia. rewrite lookup_app_r, Nat.sub_diag in Hi by lia. done.
        -- apply lookup_lt_Some in Hi. rewrite length_app in Hi. simpl in Hi. lia.
    + rewrite lookup_insert_ne by done. rewrite Hcells. split; intros (i & Hi & ->).
      * exists i. split; [|done]. by apply lookup_app_l_Some.
      * exists i. split; [|done]. apply lookup_app_Some in Hi as [|[Hge Hi]]; [done|].
        apply lookup_lt_Some in Hi as Hlt. simpl in Hlt. exfalso. apply Hne. rewrite Ht.
        do 2 f_equal. lia.
Qed.

(** Advancing the head over a destroyed front element. *)
Lemma ring_advance_rep rb x l cells :
  ring_rep rb (x :: l) → D_data rb = Some cells →
  ring_rep (mkRing (Some (delete (D_head rb) cells)) (D_capacity rb)
              (U_next rb (D_head rb)) (D_tail rb)) l.
Proof.
  intros [Hc Hh Hl Ht (cells' & Hd & Hcells)] Hd'. simplify_eq. simpl in *.
  split; simpl; try done; try lia.
  - rewrite U_next_mod by lia. apply Z.mod_pos_bound. lia.
  - rewrite U_next_mod, Ht by lia. rewrite Z.add_mod_idemp_l by lia. f_equal. lia.
  - eexists. split; [done|]. intros k v. rewrite lookup_delete_Some, Hcells.
    rewrite U_next_mod by lia. split.
    + intros (Hk & i & Hi & ->). destruct i as [|i].
      * simpl in Hk. rewrite Z.add_0_r, Z.mod_small in Hk by lia. done.
      * exists i. split; [done|]. rewrite Z.add_mod_idemp_l by lia. f_equal. lia.
    + intros (i & Hi & ->). apply lookup_lt_Some in Hi as Hlt. split.
      * rewrite Z.add_mod_idemp_l by lia. intros E.
        rewrite <- (Z.mod_small (D_head rb) (D_capacity rb)) in E at 1 by lia.
        rewrite <- (Z.add_0_r (D_head rb)) in E at 1. rewrite <- Z.add_assoc in E.
        apply mod_wrap_inj in E; lia.
      * exists (S i). split; [done|]. rewrite Z.add_mod_idemp_l by lia. f_equal. lia.
Qed.

(** An empty buffer may restart at index 0. *)
Lemma ring_reset_rep rb : ring_rep rb [] → ring_rep (mkRing (D_data rb) (D_capacity rb) 0 0) [].
Proof.
  intros [Hc Hh Hl Ht (cells & Hd & Hcells)]. split; simpl in *; try done; try lia.
  exists cells. split; [done|]. intros k v. rewrite Hcells.
  split; intros (i & Hi & _); by rewrite lookup_nil in Hi.
Qed.

Lemma ring_pop_rep rb x l :
  ring_rep rb (x :: l) →
  ring_front rb = Some x ∧
  ∃ rb', ring_pop rb = (inr tt, rb') ∧ ring_rep rb' l ∧ D_capacity rb' = D_capacity rb.
Proof.
  intros H. assert (He : ring_empty rb = false).
  { destruct (ring_empty rb) eqn:E; [|done]. by apply (ring_empty_spec _ _ H) in E. }
  pose proof (rr_cells _ _ H) as (cells & Hd & Hcells).
  pose proof (ring_advance_rep _ _ _ _ H Hd) as Hadv.
  pose proof (rr_cap _ _ H). pose proof (rr_head _ _ H). split.
  - unfold ring_front. rewrite Hd. simpl. apply Hcells. exists O. split; [done|].
    rewrite Z.add_0_r, Z.mod_small by lia. done.
  - set (rb1 := mkRing (Some (delete (D_head rb) cells)) (D_capacity rb) (U_next rb (D_head rb))
                 (D_tail rb)) in *.
    assert (E1 : ring_pop rb = if ring_empty rb1
                 then (inr tt, mkRing (D_data rb1) (D_capacity rb1) 0 0) else (inr tt, rb1)).
    { unfold ring_pop. rewrite He. unfold U_destroy. rewrite Hd. reflexivity. }
    rewrite E1. destruct (ring_empty rb1) eqn:E.
    + apply (ring_empty_spec _ _ Hadv) in E as ->. eexists. split; [done|]. split; [|done].
      apply (ring_reset_rep _ Hadv).
    + eexists. split; [done|]. split; [exact Hadv|done].
Qed.

Lemma destroy_all_loop_rep fuel rb l :
  ring_rep rb l → (length l <= fuel)%nat →
  ring_rep (destroy_all_loop fuel rb) [] ∧ D_capacity (destroy_all_loop fuel rb) = D_capacity rb.
Proof.
  revert rb l. induction fuel as [|fuel IH]; intros rb l H Hf; simpl.
  - destruct l; [done|simpl in Hf; lia].
  - destruct (ring_empty rb) eqn:E.
    + by apply (ring_empty_spec _ _ H) in E as ->.
    + destruct l as [|x l].
      { rewrite (proj2 (ring_empty_spec _ _ H)) in E by done. done. }
      pose proof (rr_cells _ _ H) as (cells & Hd & _).
      pose proof (ring_advance_rep _ _ _ _ H Hd) as Hadv.
      assert (E1 : mkRing (delete (D_head rb) <$> D_data rb) (D_capacity rb)
                (U_next (U_destroy rb (D_head rb)) (D_head rb)) (D_tail rb) =
              mkRing (Some (delete (D_head rb) cells)) (D_capacity rb) (U_next rb (D_head rb))
                (D_tail rb)) by (by rewrite Hd).
      unfold U_destroy in *; simpl in *. rewrite E1. by apply (IH _ l Hadv); lia.
Qed.

Lemma ring_clear_rep rb l :
  ring_rep rb l → ring_rep (ring_clear rb) [] ∧ D_capacity (ring_clear rb) = D_capacity rb.
Proof.
  intros H. unfold ring_clear, U_destroy_all.
  destruct (destroy_all_loop_rep (Z.to_nat (D_capacity rb)) rb l H) as [Hr Hc].
  { pose proof (rr_len _ _ H). lia. }
  split; [by apply ring_reset_rep|done].
Qed.

Lemma index_from_head_spec rb l i :
  ring_rep rb l → 0 <= i < D_capacity rb →
  D_capacity rb + D_capacity rb < W64 →
  U_index_from_head rb i = (D_head rb + i) mod D_capacity rb.
Proof.
  intros [Hc Hh Hl Ht _] Hi Hw. unfold U_index_from_head.
  rewrite (proj2 (Z.eqb_neq (D_capacity rb) 0)) by lia. cbv zeta. unfold add64, sub64.
  rewrite (wrap64_small (D_head rb + i)) by (unfold is_u64; lia). rewrite mod_wrap by lia.
  destruct (Z.leb_spec (D_capacity rb) (D_head rb + i)).
  - rewrite wrap64_small by (unfold is_u64; lia).
    destruct (Z.ltb_spec (D_head rb + i) (D_capacity rb)); lia.
  - destruct (Z.ltb_spec (D_head rb + i) (D_capacity rb)); lia.
Qed.

(** The loop of [U_copy_from] from offset [n]: it copies the rest of the
    queue. *)
Lemma copy_from_loop_spec rb l n cells :
  ring_rep rb l → D_capacity rb + D_capacity rb < W64 → (n <= length l)%nat →
  (∀ k v, cells !! k = Some v ↔ ∃ i, (i < n)%nat ∧ l !! i = Some v ∧ k = Z.of_nat i) →
  ∃ cells', copy_from_loop rb (seqZ (Z.of_nat n) (Z.of_nat (length l - n))) cells = Some cells' ∧
    ∀ k v, cells' !! k = Some v ↔ ∃ i, l !! i = Some v ∧ k = Z.of_nat i.
Proof.
  intros H Hw. remember (length l - n)%nat as m eqn:Em. revert n cells Em.
  induction m as [|m IH]; intros n cells Em Hn Hcells.
  - exists cells. rewrite seqZ_nil by lia. split; [done|]. intros k v. rewrite Hcells.
    split; [intros (i & _ & Hi & ->); by exists i|]. intros (i & Hi & ->). exists i.
    apply lookup_lt_Some in Hi as Hlt. split_and!; [lia|done|done].
  - rewrite seqZ_cons by lia. simpl.
    destruct (lookup_lt_is_Some_2 l n) as [v Hv]; [lia|].
    pose proof (rr_cells _ _ H) as (src & Hd & Hsrc). pose proof (rr_len _ _ H).
    rewrite Hd. simpl. rewrite (index_from_head_spec rb l) by (done || lia).
    rewrite (proj2 (Hsrc _ v)) by (by exists n). simpl.
    replace (Z.succ (Z.of_nat n)) with (Z.of_nat (S n)) by lia.
    replace (Z.pred (Z.of_nat (S m))) with (Z.of_nat m) by lia.
    apply IH; [lia|lia|]. intros k w. destruct (decide (k = Z.of_nat n)) as [->|Hne].
    + rewrite lookup_insert_eq. split.
      * intros [= <-]. exists n. split_and!; [lia|done|done].
      * intros (i & _ & Hi & E). assert (i = n) as -> by lia. congruence.
    + rewrite lookup_insert_ne by done. rewrite Hcells.
      split; intros (i & Hi & Hl & ->); exists i; split_and!; try done; lia.
Qed.

Lemma U_copy_from_rep rb l :
  ring_rep rb l → D_capacity rb + D_capacity rb < W64 →
  ∃ rb', U_copy_from true rb = Some rb' ∧ ring_rep rb' l ∧ D_head rb' = 0 ∧
         D_capacity rb' = D_capacity rb.
Proof.
  intros H Hw. unfold U_copy_from. pose proof (rr_cap _ _ H). pose proof (rr_len _ _ H).
  rewrite (proj2 (Z.eqb_neq (D_capacity rb) 0)) by lia. simpl.
  rewrite (ring_size_spec _ _ H).
  destruct (copy_from_loop_spec rb l 0 ∅ H Hw) as (cells & E & Hcells); [lia| |].
  { intros k v. rewrite lookup_empty. split; [done|]. intros (i & Hi & _). lia. }
  rewrite Nat.sub_0_r in E. change (Z.of_nat 0) with 0 in E. rewrite E. simpl.
  eexists. split; [done|]. split; [|done]. split; simpl; try done; try lia.
  - by rewrite Z.mod_small by lia.
  - exists cells. split; [done|]. intros k v. rewrite Hcells.
    split; intros (i & Hi & ->); exists i; split; try done;
      apply lookup_lt_Some in Hi; by rewrite Z.mod_small by lia.
Qed.

(** What a client sees of a command: an error, or the element popped. *)
Definition ring_exec (c : ring_cmd A) (rb : RingBuffer) : (NtError + option A) * RingBuffer :=
  match c with
  | CPush v =>
      let '(r, rb) := ring_push v rb in
      (match r with inl e => inl e | inr _ => inr None end, rb)
  | CPop =>
      let x := ring_front rb in
      let '(r, rb) := ring_pop rb in
      (match r with inl e => inl e | inr _ => inr x end, rb)
  | CClear => (inr None, ring_clear rb)
  end.

Lemma ring_exec_refines c rb l :
  ring_rep rb l →
  (ring_exec c rb).1 = (queue_exec (D_capacity rb - 1) c l).1 ∧
  ring_rep (ring_exec c rb).2 (queue_exec (D_capacity rb - 1) c l).2 ∧
  D_capacity (ring_exec c rb).2 = D_capacity rb.
Proof.
  intros H. pose proof (rr_len _ _ H) as Hlen. destruct c as [v| |]; simpl.
  - destruct (Z.ltb_spec (Z.of_nat (length l)) (D_capacity rb - 1)).
    + destruct (ring_emplace_rep rb l v H) as (rb' & E & Hr & Hc); [done|].
      unfold ring_push. by rewrite E.
    + unfold ring_push, ring_emplace. pose proof (rr_cells _ _ H) as (cells & Hd & _).
      rewrite Hd, (proj2 (ring_full_spec _ _ H)) by lia. done.
  - destruct l as [|x l].
    + unfold ring_pop. by rewrite (proj2 (ring_empty_spec _ _ H)).
    + destruct (ring_pop_rep _ _ _ H) as (Hf & rb' & E & Hr & Hc). by rewrite E, Hf.
  - destruct (ring_clear_rep _ _ H). done.
Qed.

#[global] Instance RingBuffer_impl : QueueImpl A RingBuffer := {|
  q_exec := ring_exec; q_rep := ring_rep; q_max rb := D_capacity rb - 1;
  q_sim c rb l H := let '(conj E (conj R C)) := ring_exec_refines c rb l H in
                    conj E (conj R (f_equal (λ c, c - 1) C)) |}.

(** C32: the ring buffer is a bounded FIFO queue.  For every sequence of push,
    pop and clear, a buffer built with [capacity] answers exactly as a list that
    holds at most [max(capacity, 2) - 1] elements: the same elements come out in
    the same order, [OVERFLOW_ERROR] exactly when full and [UNDERFLOW_ERROR]
    exactly when empty. *)
Theorem ring_refines_queue capacity cs :
  0 <= capacity < W64 →
  run_cmds ring_exec cs (ring_new true capacity) =
  run_cmds (queue_exec (U_normalize_capacity capacity - 1)) cs [].
Proof.
  intros Hc. exact (queue_impl_refines cs _ [] (ring_new_rep capacity Hc)).
Qed.

(** The copy constructor gives an independent buffer with the same elements
    in the same order, compacted to the front, and [contains] finds exactly the
    elements of the queue. *)
Theorem ring_copy_contains rb l v :
  ring_rep rb l → D_capacity rb + D_capacity rb < W64 →
  (∃ rb', U_copy_from true rb = Some rb' ∧ ring_rep rb' l ∧ D_head rb' = 0 ∧
          D_capacity rb' = D_capacity rb) ∧
  (ring_contains v rb = true ↔ v ∈ l).
Proof.
  intros H Hw. split.
  - by apply U_copy_from_rep.
  - pose proof (rr_cells _ _ H) as (cells & Hd & Hcells). pose proof (rr_len _ _ H).
    unfold ring_contains. rewrite existsb_exists, (ring_size_spec _ _ H).
    rewrite list_elem_of_lookup. split.
    + intros (i & Hi & E). apply list_elem_of_In, elem_of_seqZ in Hi. apply bool_decide_eq_true in E.
      rewrite Hd in E; simpl in E. rewrite (index_from_head_spec rb l) in E by (done || lia).
      apply Hcells in E as (j & Hj & Ej). apply lookup_lt_Some in Hj as Hlt.
      exists j. done.
    + intros (i & Hi). apply lookup_lt_Some in Hi as Hlt. exists (Z.of_nat i).
      split; [apply list_elem_of_In, elem_of_seqZ; lia|]. apply bool_decide_eq_true.
      rewrite Hd; simpl. rewrite (index_from_head_spec rb l) by (done || lia).
      apply Hcells. by exists i.
Qed.
End ringbuf.
Arguments RingBuffer : clear implicits.

(** ** [StaticRingBuffer] *)

Section static_ring.
Context {A : Type} `{EqA : !EqDecision A}.
(** The template parameter [D_capacity]. *)
Context (C : Z).

(** [S_data]: the elements written so far; cells never written are
    indeterminate. *)
Record StaticRing := mkSRing { S_data : gmap Z A; S_head : Z; S_tail : Z }.

Definition S_next (idx : Z) : Z := add64 idx 1 mod C.
Definition s_new : StaticRing := mkSRing ∅ 0 0.
Definition s_size (q : StaticRing) : Z :=
  if S_head q <=? S_tail q then sub64 (S_tail q) (S_head q)
  else sub64 C (sub64 (S_head q) (S_tail q)).
Definition s_empty (q : StaticRing) : bool := S_tail q =? S_head q.
Definition s_full (q : StaticRing) : bool := s_size q =? sub64 C 1.

(** [emplace] and [push]: the tail moves first, then the old tail cell is
    assigned. *)
Definition s_push (v : A) (q : StaticRing) : (NtError + unit) * StaticRing :=
  if s_full q then (inl OVERFLOW_ERROR, q)
  else
    let last_idx := S_tail q in
    let q := mkSRing (S_data q) (S_head q) (S_next (S_tail q)) in
    (inr tt, mkSRing (<[last_idx := v]> (S_data q)) (S_head q) (S_tail q)).

Definition s_pop (q : StaticRing) : (NtError + unit) * StaticRing :=
  if s_empty q then (inl UNDERFLOW_ERROR, q)
  else (inr tt, mkSRing (S_data q) (S_next (S_head q)) (S_tail q)).

Definition s_front (q : StaticRing) : option A := S_data q !! S_head q.
Definition s_clear (q : StaticRing) : StaticRing := mkSRing (S_data q) 0 0.

(** The loop of [contains], at most [C] rounds. *)
Fixpoint s_contains_loop (fuel : nat) (v : A) (q : StaticRing) (i : Z) : bool :=
  match fuel with
  | O => false
  | S fuel =>
      if i =? S_tail q then false
      else if bool_decide (S_data q !! i = Some v) then true
      else s_contains_loop fuel v q (S_next i)
  end.
Definition s_contains (v : A) (q : StaticRing) : bool :=
  s_contains_loop (Z.to_nat C) v q (S_head q).

Definition s_exec (c : ring_cmd A) (q : StaticRing) : (NtError + option A) * StaticRing :=
  match c with
  | CPush v =>
      let '(r, q) := s_push v q in
      (match r with inl e => inl e | inr _ => inr None end, q)
  | CPop =>
      let x := s_front q in
      let '(r, q) := s_pop q in
      (match r with inl e => inl e | inr _ => inr x end, q)
  | CClear => (inr None, s_clear q)
  end.

Record s_rep (q : StaticRing) (l : list A) : Prop := {
  sr_head : 0 <= S_head q < C;
  sr_len : Z.of_nat (length l) < C;
  sr_tail : S_tail q = (S_head q + Z.of_nat (length l)) mod C;
  sr_cells : ∀ i v, l !! i = Some v → S_data q !! ((S_head q + Z.of_nat i) mod C) = Some v
}.

Hypothesis HC : 1 <= C < W64.

Lemma S_next_mod idx : 0 <= idx < C → S_next idx = (idx + 1) mod C.
Proof. intros Hi. unfold S_next. by rewrite (add64_next _ C) by lia. Qed.

Lemma s_size_spec q l : s_rep q l → s_size q = Z.of_nat (length l).
Proof.
  intros [Hh Hl Ht _]. unfold s_size, sub64. rewrite mod_wrap in Ht by lia.
  destruct (Z.ltb_spec (S_head q + Z.of_nat (length l)) C), (Z.leb_spec (S_head q) (S_tail q));
    rewrite ?(wrap64_small (S_head q - S_tail q)) by (unfold is_u64; lia);
    rewrite ?wrap64_small by (unfold is_u64; lia); lia.
Qed.

Lemma s_push_rep q l v :
  s_rep q l → Z.of_nat (length l) < C - 1 →
  s_rep (mkSRing (<[S_tail q := v]> (S_data q)) (S_head q) (S_next (S_tail q))) (l ++ [v]).
Proof.
  intros H Hroom. destruct H as [Hh Hl Ht Hc].
  assert (0 <= S_tail q < C) by (rewrite Ht; apply Z.mod_pos_bound; lia).
  split; simpl; rewrite ?length_app; simpl; try lia.
  - rewrite S_next_mod, Ht, Z.add_mod_idemp_l by lia. f_equal. lia.
  - intros i w [Hi|[Hge Hi]]%lookup_app_Some.
    + apply lookup_lt_Some in Hi as Hlt. rewrite lookup_insert_ne; [by apply Hc|].
      rewrite Ht. intros E. apply mod_wrap_inj in E; lia.
    + apply lookup_lt_Some in Hi as Hlt. simpl in Hlt.
      assert (i = length l) as -> by lia. rewrite Nat.sub_diag in Hi. simplify_eq/=.
      rewrite Ht. apply lookup_insert_eq.
Qed.

Lemma s_pop_rep q x l :
  s_rep q (x :: l) → s_front q = Some x ∧ s_empty q = false ∧
  s_rep (mkSRing (S_data q) (S_next (S_head q)) (S_tail q)) l.
Proof.
  intros [Hh Hl Ht Hc]. simpl in *. split_and!.
  - specialize (Hc 0%nat x eq_refl). rewrite Z.add_0_r, Z.mod_small in Hc by lia. done.
  - unfold s_empty. apply Z.eqb_neq. rewrite Ht, mod_wrap by lia. case_goal; zify_bools; lia.
  - split; simpl; try lia.
    + rewrite S_next_mod by lia. apply Z.mod_pos_bound. lia.
    + rewrite S_next_mod, Ht, Z.add_mod_idemp_l by lia. f_equal. lia.
    + intros i v Hi. rewrite S_next_mod, Z.add_mod_idemp_l by lia.
      rewrite <- (Hc (S i) v Hi). do 2 f_equal. lia.
Qed.

Lemma s_exec_refines c q l :
  s_rep q l → (s_exec c q).1 = (queue_exec (C - 1) c l).1 ∧
  s_rep (s_exec c q).2 (queue_exec (C - 1) c l).2.
Proof.
  intros H. pose proof (sr_len _ _ H) as Hlen. destruct c as [v| |]; simpl.
  - unfold s_push, s_full. rewrite (s_size_spec _ _ H). unfold sub64.
    rewrite wrap64_small by (unfold is_u64; lia).
    destruct (Z.eqb_spec (Z.of_nat (length l)) (C - 1)), (Z.ltb_spec (Z.of_nat (length l)) (C - 1));
      try lia; [done|]. split; [done|]. simpl. by apply s_push_rep.
  - destruct l as [|x l].
    + unfold s_pop, s_empty. rewrite (sr_tail _ _ H). simpl. pose proof (sr_head _ _ H).
      rewrite Z.add_0_r, Z.mod_small, Z.eqb_refl by lia. done.
    + destruct (s_pop_rep _ _ _ H) as (Hf & He & Hr). unfold s_pop. by rewrite He, Hf.
  - split; [done|]. split; simpl; try lia; [|done]. by rewrite Z.mod_0_l by lia.
Qed.

(** The statically sized buffer is the same bounded FIFO queue, with at
    most [D_capacity - 1] elements. *)
Theorem static_ring_refines_queue cs :
  run_cmds s_exec cs s_new = run_cmds (queue_exec (C - 1)) cs [].
Proof.
  assert (H : s_rep s_new []).
  { split; simpl; try lia; [|done]. by rewrite Z.mod_0_l by lia. }
  revert H. generalize s_new as q. generalize (@nil A) as l.
  induction cs as [|c cs IH]; intros l q H; simpl; [done|].
  destruct (s_exec_refines c q l H) as [E1 H'].
  destruct (s_exec c q) as [r q'], (queue_exec _ c l) as [r' l']; simpl in *.
  rewrite E1. f_equal. by apply IH.
Qed.
End static_ring.

Lemma static_ring_refines_queue_witness :
  run_cmds (s_exec 3) [CPush 1; CPush 2; CPush 3; CPop; CPush 4; CPop; CPop; CPop] s_new =
  run_cmds (queue_exec (3 - 1)) [CPush 1; CPush 2; CPush 3; CPop; CPush 4; CPop; CPop; CPop] [].
Proof. apply (static_ring_refines_queue 3). unfold W64; lia. Defined.

Lemma ring_refines_queue_witness :
  run_cmds ring_exec [CPush 1; CPush 2; CPush 3; CPush 4; CPop; CPush 5; CPop; CPop; CPop; CPop]
    (ring_new true 4) =
  run_cmds (queue_exec (U_normalize_capacity 4 - 1))
    [CPush 1; CPush 2; CPush 3; CPush 4; CPop; CPush 5; CPop; CPop; CPop; CPop] [].
Proof. apply (ring_refines_queue 4). unfold W64; lia. Defined.

(** A buffer of capacity 4 whose window wraps around the end. *)
Definition ex_ring : RingBuffer Z := mkRing (Some (<[3 := 7]> {[0 := 8]})) 4 3 1.

Lemma ex_ring_rep : ring_rep ex_ring [7; 8].
Proof.
  split; simpl; try (unfold W64; lia); [done|].
  eexists. split; [done|]. intros k v. split.
  - intros [[<- <-]|[_ [<- <-]%lookup_singleton_Some]]%lookup_insert_Some;
      [by exists 0%nat|by exists 1%nat].
  - intros ([|[|i]] & Hi & ->); simplify_eq/=; done.
Qed.

Lemma ring_copy_contains_witness :
  ring_contains 8 ex_ring = true ↔ 8 ∈ [7; 8].
Proof. apply (ring_copy_contains ex_ring [7; 8] 8 ex_ring_rep). unfold W64; simpl; lia. Defined.
