(* ===== verification/Pipe.v ===== *)
(** * Anonymous pipes

    [kernel/object/pipe.h] and [pipe.cpp].  A pipe is a ring buffer of bytes and
    the numbers of open ends.  The body of the blocking loops of [read] and
    [write] runs under the pipe's lock, so one iteration is one atomic attempt:
    it ends the call, or it asks to block and the thread tries again when it is
    woken.  [wake] stands for the result of [wait::locked_wake_all], which is
    the wait queues' component. *)

From S2P Require Import Prelude ErrCode Capability RingBuf.

#[local] Open Scope Z_scope.

Definition PIPE_READ : Z := 0x010000.
Definition PIPE_WRITE : Z := 0x020000.
Definition PIPE_DEFAULT_CAPACITY : Z := 4096.

Record PipePayload := mkPipe {
  buffer : RingBuffer Z;
  capacity : Z;
  read_ends : Z;
  write_ends : Z
}.

(** A read or write end object; its pipe pointer never changes. *)
Record PipeEnd := mkEnd { nonblock : bool; closed : bool }.

Definition pipe_storage_capacity (usable_capacity : Z) : Z := add64 usable_capacity 1.

Definition pipe_new (alloc_ok : bool) (usable_capacity : Z) : PipePayload :=
  mkPipe (ring_new alloc_ok (pipe_storage_capacity usable_capacity)) usable_capacity 0 0.

Definition readable_ready (p : PipePayload) : bool :=
  negb (ring_empty (buffer p)) || (write_ends p =? 0).
Definition writable_ready (p : PipePayload) : bool :=
  negb (ring_full (buffer p)) || (read_ends p =? 0).

Definition read_end_new (nb : bool) (p : PipePayload) : PipeEnd * PipePayload :=
  (mkEnd nb false, mkPipe (buffer p) (capacity p) (add64 (read_ends p) 1) (write_ends p)).
Definition write_end_new (nb : bool) (p : PipePayload) : PipeEnd * PipePayload :=
  (mkEnd nb false, mkPipe (buffer p) (capacity p) (read_ends p) (add64 (write_ends p) 1)).

(** [close_read_end]: [None] is a failed assertion. *)
Definition close_read_end (e : PipeEnd) (p : PipePayload) : option (PipeEnd * PipePayload) :=
  if closed e then Some (e, p)
  else if read_ends p =? 0 then None
  else Some (mkEnd (nonblock e) true,
             mkPipe (buffer p) (capacity p) (sub64 (read_ends p) 1) (write_ends p)).

Definition close_write_end (e : PipeEnd) (p : PipePayload) : option (PipeEnd * PipePayload) :=
  if closed e then Some (e, p)
  else if write_ends p =? 0 then None
  else Some (mkEnd (nonblock e) true,
             mkPipe (buffer p) (capacity p) (read_ends p) (sub64 (write_ends p) 1)).

(** One attempt of a call: it is over, with its result and the bytes that went
    through, or it blocks. *)
Inductive attempt_out :=
  | Done (r : Result Z) (bytes : list Z)
  | Block.

Definition set_buffer (rb : RingBuffer Z) (p : PipePayload) : PipePayload :=
  mkPipe rb (capacity p) (read_ends p) (write_ends p).

(** [while (done < len && !buffer.empty())]; [out] holds the bytes so far. *)
Fixpoint read_loop (fuel : nat) (len : Z) (rb : RingBuffer Z) (out : list Z)
    : Result unit * list Z * RingBuffer Z :=
  match fuel with
  | O => (Ok tt, out, rb)
  | S fuel =>
      if (Z.of_nat (length out) <? len) && negb (ring_empty rb) then
        let out := out ++ [default 0 (ring_front rb)] in
        let '(r, rb) := ring_pop rb in
        match r with
        | inl _ => (Err IO_ERROR, out, rb)
        | inr _ => read_loop fuel len rb out
        end
      else (Ok tt, out, rb)
  end.

Definition read_attempt (wake : Result Z) (perms : Z) (buf_null : bool) (len : Z) (e : PipeEnd)
    (p : PipePayload) : attempt_out * PipePayload :=
  if negb (perm_imply perms PIPE_READ) then (Done (Err INSUFFICIENT_PERMISSIONS) [], p)
  else if buf_null && negb (len =? 0) then (Done (Err NULLPTR) [], p)
  else if len =? 0 then (Done (Ok 0) [], p)
  else if closed e then (Done (Err INVALID_PARAM) [], p)
  else if negb (ring_empty (buffer p)) then
    let '(r, out, rb) := read_loop (Z.to_nat (D_capacity (buffer p))) len (buffer p) [] in
    let p := set_buffer rb p in
    match r with
    | Err er => (Done (Err er) out, p)
    | Ok _ =>
        if negb (Z.of_nat (length out) =? 0) then
          match wake with
          | Err er => (Done (Err er) out, p)
          | Ok _ => (Done (Ok (Z.of_nat (length out))) out, p)
          end
        else (Block, p)
    end
  else if write_ends p =? 0 then (Done (Ok 0) [], p)
  else if nonblock e then (Done (Err WOULD_BLOCK) [], p)
  else (Block, p).

(** [while (written < len && !buffer.full())] *)
Fixpoint write_loop (data : list Z) (rb : RingBuffer Z) (written : Z)
    : Result unit * Z * RingBuffer Z :=
  match data with
  | [] => (Ok tt, written, rb)
  | b :: data =>
      if negb (ring_full rb) then
        let '(r, rb) := ring_push b rb in
        match r with
        | inl _ => (Err IO_ERROR, written, rb)
        | inr _ => write_loop data rb (written + 1)
        end
      else (Ok tt, written, rb)
  end.

(** [data] is the caller's buffer of [len] bytes.  A blocked attempt has written
    nothing, so every iteration starts with [written = 0]. *)
Definition write_attempt (wake : Result Z) (perms : Z) (buf_null : bool) (data : list Z)
    (e : PipeEnd) (p : PipePayload) : attempt_out * PipePayload :=
  let len := Z.of_nat (length data) in
  if negb (perm_imply perms PIPE_WRITE) then (Done (Err INSUFFICIENT_PERMISSIONS) [], p)
  else if buf_null && negb (len =? 0) then (Done (Err NULLPTR) [], p)
  else if len =? 0 then (Done (Ok 0) [], p)
  else if closed e then (Done (Err INVALID_PARAM) [], p)
  else if read_ends p =? 0 then (Done (Err BROKEN_PIPE) [], p)
  else if negb (ring_full (buffer p)) then
    let '(r, written, rb) := write_loop data (buffer p) 0 in
    let p := set_buffer rb p in
    let bytes := take (Z.to_nat written) data in
    match r with
    | Err er => (Done (Err er) bytes, p)
    | Ok _ =>
        if 0 <? written then
          match wake with
          | Err er => (Done (Err er) bytes, p)
          | Ok _ => (Done (Ok written) bytes, p)
          end
        else (Block, p)
    end
  else if nonblock e then (Done (Err WOULD_BLOCK) [], p)
  else (Block, p).

(** ** The two loops move a prefix *)

(** [p] holds the bytes [l]. *)
Definition pipe_rep (p : PipePayload) (l : list Z) : Prop := ring_rep (buffer p) l.

Lemma read_loop_spec fuel len rb l out :
  ring_rep rb l → (length l <= fuel)%nat → Z.of_nat (length out) <= len →
  ∃ rb' n, read_loop fuel len rb out = (Ok tt, out ++ take n l, rb') ∧ ring_rep rb' (drop n l) ∧
    D_capacity rb' = D_capacity rb ∧
    n = Z.to_nat (Z.min (len - Z.of_nat (length out)) (Z.of_nat (length l))).
Proof.
  revert rb l out. induction fuel as [|fuel IH]; intros rb l out H Hf Ho.
  { destruct l; [|simpl in Hf; lia]. exists rb, 0%nat. simpl. rewrite app_nil_r.
    split_and!; try done. lia. }
  simpl. destruct (Z.ltb_spec (Z.of_nat (length out)) len) as [Hlt|Hge]; simpl.
  2:{ exists rb, 0%nat. rewrite take_0, drop_0, app_nil_r. split_and!; try done. lia. }
  destruct l as [|x l].
  { rewrite (proj2 (ring_empty_spec _ _ H)) by done. simpl. exists rb, 0%nat.
    rewrite app_nil_r. split_and!; try done. simpl; lia. }
  destruct (ring_empty rb) eqn:E; [by apply (ring_empty_spec _ _ H) in E|]. simpl.
  destruct (ring_pop_rep _ _ _ H) as (Hfr & rb1 & E1 & H1 & Hc1). rewrite E1, Hfr. simpl.
  destruct (IH rb1 l (out ++ [x]) H1) as (rb2 & n & E2 & H2 & Hc2 & Hn).
  { simpl in Hf. lia. }
  { rewrite length_app. simpl. lia. }
  rewrite length_app in Hn. simpl in Hn. exists rb2, (S n). simpl.
  rewrite E2, <- app_assoc. split_and!; try done; [congruence|]. simpl in *. lia.
Qed.

Lemma write_loop_spec data rb l w :
  ring_rep rb l →
  ∃ rb' n, write_loop data rb w = (Ok tt, w + Z.of_nat n, rb') ∧
    ring_rep rb' (l ++ take n data) ∧ D_capacity rb' = D_capacity rb ∧
    n = Z.to_nat (Z.min (Z.of_nat (length data)) (D_capacity rb - 1 - Z.of_nat (length l))).
Proof.
  revert rb l w. induction data as [|b data IH]; intros rb l w H; simpl.
  { exists rb, 0%nat. simpl. rewrite app_nil_r, Z.add_0_r. split_and!; try done.
    pose proof (rr_len _ _ H). lia. }
  pose proof (rr_len _ _ H) as Hl.
  destruct (ring_full rb) eqn:E; simpl.
  - apply (ring_full_spec _ _ H) in E. exists rb, 0%nat.
    rewrite take_0, app_nil_r, Z.add_0_r. split_and!; try done. lia.
  - assert (Hroom : Z.of_nat (length l) < D_capacity rb - 1).
    { destruct (Z.eq_dec (Z.of_nat (length l)) (D_capacity rb - 1)) as [Ef|]; [|lia].
      by rewrite (proj2 (ring_full_spec _ _ H)) in E. }
    destruct (ring_emplace_rep rb l b H Hroom) as (rb1 & E1 & H1 & Hc1).
    unfold ring_push. rewrite E1.
    destruct (IH rb1 (l ++ [b]) (w + 1) H1) as (rb2 & n & E2 & H2 & Hc2 & Hn).
    rewrite length_app, Hc1 in Hn. simpl in Hn. exists rb2, (S n). simpl.
    rewrite E2. rewrite <- app_assoc in H2. split_and!; [f_equal; f_equal; lia|done|congruence|].
    simpl. lia.
Qed.

(** ** Ready predicates *)

(** A call with a valid buffer, permission and open end. *)
Definition read_call (perms len : Z) (e : PipeEnd) : Prop :=
  perm_imply perms PIPE_READ = true ∧ 0 < len ∧ closed e = false.
Definition write_call (perms : Z) (data : list Z) (e : PipeEnd) : Prop :=
  perm_imply perms PIPE_WRITE = true ∧ data ≠ [] ∧ closed e = false.

(** What [read] returns.  With data in the pipe it takes the longest prefix
    that fits the caller's buffer; on an empty pipe it reports end of file
    exactly when no write end is open, else [WOULD_BLOCK] or blocks as the end
    is configured, leaving the pipe alone. *)
Theorem pipe_read_spec perms len e p l n :
  read_call perms len e → pipe_rep p l →
  let '(out, p') := read_attempt (Ok n) perms false len e p in
  read_ends p' = read_ends p ∧ write_ends p' = write_ends p ∧
  if bool_decide (l = []) then
    p' = p ∧ out = (if write_ends p =? 0 then Done (Ok 0) []
                    else if nonblock e then Done (Err WOULD_BLOCK) [] else Block)
  else let k := Z.min len (Z.of_nat (length l)) in
    0 < k ∧ out = Done (Ok k) (take (Z.to_nat k) l) ∧ pipe_rep p' (drop (Z.to_nat k) l).
Proof.
  intros (Hp & Hl & Hc) H. unfold read_attempt. rewrite Hp, Hc. simpl.
  rewrite (proj2 (Z.eqb_neq len 0)) by lia. unfold pipe_rep in H.
  destruct (bool_decide_reflect (l = [])) as [->|Hne].
  - rewrite (proj2 (ring_empty_spec _ _ H)) by done. simpl.
    destruct (write_ends p =? 0), (nonblock e); done.
  - destruct (ring_empty (buffer p)) eqn:E; [by apply (ring_empty_spec _ _ H) in E|]. simpl.
    destruct (read_loop_spec (Z.to_nat (D_capacity (buffer p))) len (buffer p) l [] H)
      as (rb & k & E1 & H1 & Hc1 & Hk); [pose proof (rr_len _ _ H); lia|simpl; lia|].
    rewrite E1. simpl in *. rewrite Z.sub_0_r in Hk. subst k.
    assert (0 < length l)%nat by (destruct l; [done|simpl; lia]).
    rewrite length_take.
    rewrite (proj2 (Z.eqb_neq _ 0)) by lia. simpl. split_and!; try done; [lia|].
    f_equal. f_equal. lia.
Qed.

(** What [write] does.  On an open pipe with room it appends the longest
    prefix of the data that fits; with no read end open it fails with
    [BROKEN_PIPE]; on a full pipe it reports [WOULD_BLOCK] or blocks. *)
Theorem pipe_write_spec perms data e p l n :
  write_call perms data e → pipe_rep p l →
  let '(out, p') := write_attempt (Ok n) perms false data e p in
  read_ends p' = read_ends p ∧ write_ends p' = write_ends p ∧
  if read_ends p =? 0 then p' = p ∧ out = Done (Err BROKEN_PIPE) []
  else if Z.of_nat (length l) =? D_capacity (buffer p) - 1 then
    p' = p ∧ out = (if nonblock e then Done (Err WOULD_BLOCK) [] else Block)
  else let k := Z.min (Z.of_nat (length data)) (D_capacity (buffer p) - 1 - Z.of_nat (length l)) in
    0 < k ∧ out = Done (Ok k) (take (Z.to_nat k) data) ∧
    pipe_rep p' (l ++ take (Z.to_nat k) data).
Proof.
  intros (Hp & Hd & Hc) H. unfold write_attempt. rewrite Hp, Hc. simpl.
  assert (0 < length data)%nat by (destruct data; [done|simpl; lia]).
  rewrite (proj2 (Z.eqb_neq _ 0)) by lia. unfold pipe_rep in *.
  destruct (read_ends p =? 0); [done|]. pose proof (rr_len _ _ H) as Hlen.
  destruct (Z.eqb_spec (Z.of_nat (length l)) (D_capacity (buffer p) - 1)) as [Ef|Ef].
  - rewrite (proj2 (ring_full_spec _ _ H)) by done. simpl. by destruct (nonblock e).
  - destruct (ring_full (buffer p)) eqn:E; [by apply (ring_full_spec _ _ H) in E|]. simpl.
    destruct (write_loop_spec data (buffer p) l 0 H) as (rb & k & E1 & H1 & Hc1 & Hk).
    rewrite Z.add_0_l in E1. rewrite E1, (proj2 (Z.ltb_lt 0 (Z.of_nat k))), Nat2Z.id by lia.
    assert (Ek : Z.min (Z.of_nat (length data)) (D_capacity (buffer p) - 1 - Z.of_nat (length l))
                 = Z.of_nat k) by lia.
    rewrite Ek, Nat2Z.id. split_and!; try done. lia.
Qed.

(** ** Interleavings *)

(** The pipe with all its end objects; [seen] and [sent] are the bytes that
    reads took out and writes put in, over the life of the pipe. *)
Record pipe_sys := mkSys {
  s_pipe : PipePayload;
  s_readers : gmap Z PipeEnd;
  s_writers : gmap Z PipeEnd;
  s_seen : list Z;
  s_sent : list Z
}.

Inductive pipe_step : pipe_sys → pipe_sys → Prop :=
  | step_open_read s i nb :
      s_readers s !! i = None → Z.of_nat (size (s_readers s)) + 1 < W64 →
      let '(e, p) := read_end_new nb (s_pipe s) in
      pipe_step s (mkSys p (<[i := e]> (s_readers s)) (s_writers s) (s_seen s) (s_sent s))
  | step_open_write s i nb :
      s_writers s !! i = None → Z.of_nat (size (s_writers s)) + 1 < W64 →
      let '(e, p) := write_end_new nb (s_pipe s) in
      pipe_step s (mkSys p (s_readers s) (<[i := e]> (s_writers s)) (s_seen s) (s_sent s))
  | step_close_read s i e e' p :
      s_readers s !! i = Some e → close_read_end e (s_pipe s) = Some (e', p) →
      pipe_step s (mkSys p (<[i := e']> (s_readers s)) (s_writers s) (s_seen s) (s_sent s))
  | step_close_write s i e e' p :
      s_writers s !! i = Some e → close_write_end e (s_pipe s) = Some (e', p) →
      pipe_step s (mkSys p (s_readers s) (<[i := e']> (s_writers s)) (s_seen s) (s_sent s))
  | step_read s i e wake perms bn len r bytes p :
      s_readers s !! i = Some e → 0 <= len →
      read_attempt wake perms bn len e (s_pipe s) = (Done r bytes, p) →
      pipe_step s (mkSys p (s_readers s) (s_writers s) (s_seen s ++ bytes) (s_sent s))
  | step_read_block s i e wake perms bn len p :
      s_readers s !! i = Some e → 0 <= len →
      read_attempt wake perms bn len e (s_pipe s) = (Block, p) →
      pipe_step s (mkSys p (s_readers s) (s_writers s) (s_seen s) (s_sent s))
  | step_write s i e wake perms bn data r bytes p :
      s_writers s !! i = Some e →
      write_attempt wake perms bn data e (s_pipe s) = (Done r bytes, p) →
      pipe_step s (mkSys p (s_readers s) (s_writers s) (s_seen s) (s_sent s ++ bytes))
  | step_write_block s i e wake perms bn data p :
      s_writers s !! i = Some e →
      write_attempt wake perms bn data e (s_pipe s) = (Block, p) →
      pipe_step s (mkSys p (s_readers s) (s_writers s) (s_seen s) (s_sent s)).

Definition open_ends (m : gmap Z PipeEnd) : gmap Z PipeEnd :=
  filter (λ x, closed x.2 = false) m.

Definition ends_ok (n : Z) (m : gmap Z PipeEnd) : Prop :=
  n = Z.of_nat (size (open_ends m)) ∧ Z.of_nat (size m) < W64.

Record pipe_inv (s : pipe_sys) : Prop := {
  pi_stream : ∃ l, pipe_rep (s_pipe s) l ∧ s_sent s = s_seen s ++ l;
  pi_read : ends_ok (read_ends (s_pipe s)) (s_readers s);
  pi_write : ends_ok (write_ends (s_pipe s)) (s_writers s)
}.

Lemma open_ends_insert m i e :
  m !! i = None →
  size (open_ends (<[i := e]> m)) = ((if closed e then 0 else 1) + size (open_ends m))%nat.
Proof.
  intros Hi. unfold open_ends. destruct (closed e) eqn:E.
  - rewrite map_filter_insert_False by (simpl; congruence). by rewrite delete_id.
  - rewrite map_filter_insert_True by done. rewrite map_size_insert_None; [done|].
    apply map_lookup_filter_None. by left.
Qed.

Lemma open_ends_delete m i e :
  m !! i = Some e →
  size (open_ends m) = ((if closed e then 0 else 1) + size (open_ends (delete i m)))%nat.
Proof.
  intros Hi. rewrite <- (open_ends_insert (delete i m) i e) by apply lookup_delete_eq.
  by rewrite insert_delete_id.
Qed.

Lemma ends_ok_open n m i nb :
  ends_ok n m → m !! i = None → Z.of_nat (size m) + 1 < W64 →
  ends_ok (add64 n 1) (<[i := mkEnd nb false]> m).
Proof.
  intros [-> Hs] Hi Hb. unfold ends_ok. rewrite open_ends_insert by done. simpl.
  rewrite map_size_insert_None by done.
  assert (size (open_ends m) <= size m)%nat by apply map_subseteq_size, map_filter_subseteq.
  unfold add64. rewrite wrap64_small by (unfold is_u64; lia). lia.
Qed.

(** Closing an open end: the count is positive and drops by one. *)
Lemma ends_ok_close n m i e :
  ends_ok n m → m !! i = Some e → closed e = false →
  n ≠ 0 ∧ ends_ok (sub64 n 1) (<[i := mkEnd (nonblock e) true]> m).
Proof.
  intros [-> Hs] Hi He. pose proof (open_ends_delete _ _ _ Hi) as E. rewrite He in E.
  assert (size (open_ends m) <= size m)%nat by apply map_subseteq_size, map_filter_subseteq.
  split; [lia|]. unfold ends_ok. rewrite map_size_insert_Some by done. split; [|done].
  rewrite (open_ends_delete (<[i := mkEnd (nonblock e) true]> m) i (mkEnd (nonblock e) true))
    by apply lookup_insert_eq. simpl.
  rewrite delete_insert_eq. unfold sub64. rewrite wrap64_small by (unfold is_u64; lia). lia.
Qed.

(** What an attempt may do to the pipe: nothing to the ends, and the bytes it
    reports are what entered or left. *)
Ltac attempt_idle l := intros; simplify_eq; split_and!; [done|done|exists l; by rewrite ?app_nil_r].

Lemma read_attempt_stream wake perms bn len e p l out p' :
  pipe_rep p l → 0 <= len → read_attempt wake perms bn len e p = (out, p') →
  read_ends p' = read_ends p ∧ write_ends p' = write_ends p ∧
  ∃ l', pipe_rep p' l' ∧ l = (match out with Done _ bytes => bytes | Block => [] end) ++ l'.
Proof.
  intros H Hl. unfold read_attempt.
  destruct (negb (perm_imply perms PIPE_READ)); [attempt_idle l|].
  destruct (bn && _); [attempt_idle l|]. destruct (len =? 0); [attempt_idle l|].
  destruct (closed e); [attempt_idle l|]. destruct (ring_empty (buffer p)); simpl.
  { destruct (write_ends p =? 0); [attempt_idle l|]. destruct (nonblock e); attempt_idle l. }
  destruct (read_loop_spec (Z.to_nat (D_capacity (buffer p))) len (buffer p) l [] H)
    as (rb & k & E1 & H1 & Hc1 & Hk); [pose proof (rr_len _ _ H); lia|simpl; lia|].
  rewrite E1. simpl.
  assert (Hlen : l = take k l ++ drop k l) by by rewrite take_drop.
  destruct (Z.eqb_spec (Z.of_nat (length (take k l))) 0) as [E0|E0]; simpl.
  - destruct (take k l) eqn:Et; [|done]. simpl in Hlen. intros [= <- <-].
    split_and!; try done. exists (drop k l). done.
  - destruct wake as [w|er]; intros [= <- <-]; split_and!; try done; by exists (drop k l).
Qed.

Lemma write_attempt_stream wake perms bn data e p l out p' :
  pipe_rep p l → write_attempt wake perms bn data e p = (out, p') →
  read_ends p' = read_ends p ∧ write_ends p' = write_ends p ∧
  ∃ l', pipe_rep p' l' ∧ l' = l ++ (match out with Done _ bytes => bytes | Block => [] end).
Proof.
  intros H. unfold write_attempt. cbv zeta.
  destruct (negb (perm_imply perms PIPE_WRITE)); [attempt_idle l|].
  destruct (bn && _); [attempt_idle l|]. destruct (_ =? 0); [attempt_idle l|].
  destruct (closed e); [attempt_idle l|]. destruct (read_ends p =? 0); [attempt_idle l|].
  destruct (ring_full (buffer p)); simpl.
  { destruct (nonblock e); attempt_idle l. }
  destruct (write_loop_spec data (buffer p) l 0 H) as (rb & k & E1 & H1 & Hc1 & Hk).
  rewrite Z.add_0_l in E1. rewrite E1, Nat2Z.id.
  destruct (Z.ltb_spec 0 (Z.of_nat k)) as [E0|E0].
  - destruct wake as [w|er]; intros [= <- <-]; split_and!; try done; by exists (l ++ take k data).
  - assert (k = 0%nat) as -> by lia. rewrite take_0, app_nil_r in H1.
    intros [= <- <-]. split_and!; try done. exists l. by rewrite app_nil_r.
Qed.

(** A pipe just created, before any end is opened. *)
Definition sys_init (usable : Z) : pipe_sys := mkSys (pipe_new true usable) ∅ ∅ [] [].

Lemma sys_init_inv usable : 0 <= usable < W64 → pipe_inv (sys_init usable).
Proof.
  intros Hu. split; simpl.
  - exists []. split; [|done]. apply ring_new_rep. apply wrap64_range.
  - split; [done|]. by rewrite map_size_empty.
  - split; [done|]. by rewrite map_size_empty.
Qed.

Lemma close_read_end_inv s i e e' p :
  pipe_inv s → s_readers s !! i = Some e → close_read_end e (s_pipe s) = Some (e', p) →
  pipe_inv (mkSys p (<[i := e']> (s_readers s)) (s_writers s) (s_seen s) (s_sent s)).
Proof.
  intros [St Rd Wr] Hi. unfold close_read_end. destruct (closed e) eqn:Ec.
  - intros [= <- <-]. rewrite insert_id by done. by split.
  - destruct (ends_ok_close _ _ _ _ Rd Hi Ec) as [Hz Hok].
    rewrite (proj2 (Z.eqb_neq _ 0)) by done. intros [= <- <-]. by split.
Qed.

Lemma close_write_end_inv s i e e' p :
  pipe_inv s → s_writers s !! i = Some e → close_write_end e (s_pipe s) = Some (e', p) →
  pipe_inv (mkSys p (s_readers s) (<[i := e']> (s_writers s)) (s_seen s) (s_sent s)).
Proof.
  intros [St Rd Wr] Hi. unfold close_write_end. destruct (closed e) eqn:Ec.
  - intros [= <- <-]. rewrite insert_id by done. by split.
  - destruct (ends_ok_close _ _ _ _ Wr Hi Ec) as [Hz Hok].
    rewrite (proj2 (Z.eqb_neq _ 0)) by done. intros [= <- <-]. by split.
Qed.

Lemma pipe_step_inv s s' : pipe_inv s → pipe_step s s' → pipe_inv s'.
Proof.
  intros H Hst.
  destruct Hst as [s i nb Hi Hb|s i nb Hi Hb|s i e e' p Hi E|s i e e' p Hi E
    |s i e wake perms bn len r bytes p Hi Hl E|s i e wake perms bn len p Hi Hl E
    |s i e wake perms bn data r bytes p Hi E|s i e wake perms bn data p Hi E].
  - destruct H as [St Rd Wr]. split; simpl; [done| |done]. by apply ends_ok_open.
  - destruct H as [St Rd Wr]. split; simpl; [done|done|]. by apply ends_ok_open.
  - by eapply close_read_end_inv.
  - by eapply close_write_end_inv.
  - destruct H as [(l & Hl' & Es) Rd Wr].
    destruct (read_attempt_stream _ _ _ _ _ _ _ _ _ Hl' Hl E) as (Er & Ew & l' & H' & ->).
    split; simpl; [|by rewrite Er|by rewrite Ew]. exists l'. split; [done|].
    by rewrite Es, app_assoc.
  - destruct H as [(l & Hl' & Es) Rd Wr].
    destruct (read_attempt_stream _ _ _ _ _ _ _ _ _ Hl' Hl E) as (Er & Ew & l' & H' & ->).
    split; simpl; [|by rewrite Er|by rewrite Ew]. by exists l'.
  - destruct H as [(l & Hl' & Es) Rd Wr].
    destruct (write_attempt_stream _ _ _ _ _ _ _ _ _ Hl' E) as (Er & Ew & l' & H' & ->).
    split; simpl; [|by rewrite Er|by rewrite Ew]. eexists. split; [done|].
    by rewrite Es, app_assoc.
  - destruct H as [(l & Hl' & Es) Rd Wr].
    destruct (write_attempt_stream _ _ _ _ _ _ _ _ _ Hl' E) as (Er & Ew & l' & H' & ->).
    split; simpl; [|by rewrite Er|by rewrite Ew]. exists l. split; [|done].
    by rewrite app_nil_r in H'.
Qed.

(** C17: no byte is lost, duplicated or reordered.  However reads, writes, opens
    and closes of any number of ends interleave, and whether or not the wake-ups
    succeed, what was written is what was read followed by what the pipe still
    holds; the end counters are the numbers of open ends, and the assertions of
    the close paths hold. *)
Theorem pipe_stream_integrity usable s :
  0 <= usable < W64 → rtc pipe_step (sys_init usable) s →
  (∃ l, pipe_rep (s_pipe s) l ∧ s_sent s = s_seen s ++ l) ∧
  read_ends (s_pipe s) = Z.of_nat (size (open_ends (s_readers s))) ∧
  write_ends (s_pipe s) = Z.of_nat (size (open_ends (s_writers s))) ∧
  (∀ i e, s_readers s !! i = Some e → is_Some (close_read_end e (s_pipe s))) ∧
  (∀ i e, s_writers s !! i = Some e → is_Some (close_write_end e (s_pipe s))).
Proof.
  intros Hu Hr. assert (H : pipe_inv s).
  { pose proof (sys_init_inv usable Hu) as H0. induction Hr; [done|].
    apply IHHr. by eapply pipe_step_inv. }
  split_and!; [apply H|apply H|apply H| |].
  - intros i e Hi. unfold close_read_end. destruct (closed e) eqn:Ec; [by eexists|].
    destruct (ends_ok_close _ _ _ _ (pi_read _ H) Hi Ec) as [Hz _].
    rewrite (proj2 (Z.eqb_neq _ 0)) by done. by eexists.
  - intros i e Hi. unfold close_write_end. destruct (closed e) eqn:Ec; [by eexists|].
    destruct (ends_ok_close _ _ _ _ (pi_write _ H) Hi Ec) as [Hz _].
    rewrite (proj2 (Z.eqb_neq _ 0)) by done. by eexists.
Qed.

(** The wait predicates are the negations of the blocking conditions: an
    attempt made while its predicate holds does not block, so a thread woken
    because the predicate became true finishes its call. *)
Theorem pipe_ready_no_block wake perms bn p l e :
  pipe_rep p l →
  (∀ len, 0 <= len → readable_ready p = true →
     (read_attempt wake perms bn len e p).1 ≠ Block) ∧
  (∀ data, writable_ready p = true → (write_attempt wake perms bn data e p).1 ≠ Block).
Proof.
  intros H. split.
  - intros len Hl Hready. unfold read_attempt, readable_ready in *.
    destruct (negb (perm_imply perms PIPE_READ)); [done|]. destruct (bn && _); [done|].
    destruct (Z.eqb_spec len 0) as [|Hz]; [done|]. destruct (closed e); [done|].
    destruct (ring_empty (buffer p)) eqn:Ee; simpl in *; [by rewrite Hready|].
    destruct (read_loop_spec (Z.to_nat (D_capacity (buffer p))) len (buffer p) l [] H)
      as (rb & k & E1 & H1 & Hc1 & Hk); [pose proof (rr_len _ _ H); lia|simpl; lia|].
    rewrite E1. simpl in *. destruct l as [|x l].
    { by rewrite (proj2 (ring_empty_spec _ _ H)) in Ee. }
    rewrite length_take. simpl in *.
    rewrite (proj2 (Z.eqb_neq _ 0)) by lia. simpl. by destruct wake.
  - intros data Hready. unfold write_attempt, writable_ready in *. cbv zeta.
    destruct (negb (perm_imply perms PIPE_WRITE)); [done|]. destruct (bn && _); [done|].
    destruct (Z.eqb_spec (Z.of_nat (length data)) 0) as [|Hz]; [done|].
    destruct (closed e); [done|].
    destruct (read_ends p =? 0); [done|]. rewrite orb_false_r in Hready. rewrite Hready.
    destruct (write_loop_spec data (buffer p) l 0 H) as (rb & k & E1 & H1 & Hc1 & Hk).
    rewrite Z.add_0_l in E1. pose proof (rr_len _ _ H).
    assert (Z.of_nat (length l) ≠ D_capacity (buffer p) - 1).
    { intros Ef. by rewrite (proj2 (ring_full_spec _ _ H)) in Hready. }
    rewrite E1, (proj2 (Z.ltb_lt 0 (Z.of_nat k))) by lia. by destruct wake.
Qed.

(** ** Witnesses *)

Module PipeWitness.
Definition ex_pipe : PipePayload := mkPipe ex_ring 3 1 1.
Definition ex_end : PipeEnd := mkEnd false false.

Lemma pipe_read_spec_witness :
  read_attempt (Ok 0) PIPE_READ false 5 ex_end ex_pipe =
    (Done (Ok 2) [7; 8], mkPipe (mkRing (Some ∅) 4 0 0) 3 1 1) ∧
  pipe_rep (read_attempt (Ok 0) PIPE_READ false 5 ex_end ex_pipe).2 [].
Proof.
  split; [vm_compute; reflexivity|].
  pose proof (pipe_read_spec PIPE_READ 5 ex_end ex_pipe [7; 8] 0) as H.
  destruct (read_attempt _ _ _ _ _ _) as [out p'] in *. apply H.
  - split; [reflexivity|split; [lia|reflexivity]].
  - exact ex_ring_rep.
Defined.

Lemma pipe_write_spec_witness :
  pipe_rep (write_attempt (Ok 0) PIPE_WRITE false [9; 10] ex_end ex_pipe).2 [7; 8; 9].
Proof.
  pose proof (pipe_write_spec PIPE_WRITE [9; 10] ex_end ex_pipe [7; 8] 0) as H.
  destruct (write_attempt _ _ _ _ _ _) as [out p'] in *. apply H.
  - split; [reflexivity|split; [discriminate|reflexivity]].
  - exact ex_ring_rep.
Defined.

(** A reader and a writer are opened, and two bytes are written. *)
Definition ex_sys1 : pipe_sys :=
  mkSys (read_end_new false (s_pipe (sys_init 16))).2 {[0 := ex_end]} ∅ [] [].
Definition ex_sys2 : pipe_sys :=
  mkSys (write_end_new false (s_pipe ex_sys1)).2 {[0 := ex_end]} {[0 := ex_end]} [] [].
Definition ex_sys3 : pipe_sys :=
  mkSys (write_attempt (Ok 0) PIPE_WRITE false [1; 2] ex_end (s_pipe ex_sys2)).2
    {[0 := ex_end]} {[0 := ex_end]} [] [1; 2].

Lemma ex_steps : rtc pipe_step (sys_init 16) ex_sys3.
Proof.
  eapply rtc_l; [exact (step_open_read (sys_init 16) 0 false eq_refl eq_refl)|].
  eapply rtc_l; [exact (step_open_write ex_sys1 0 false eq_refl eq_refl)|].
  eapply rtc_l; [|apply rtc_refl].
  apply (step_write ex_sys2 0 ex_end (Ok 0) PIPE_WRITE false [1; 2] (Ok 2) [1; 2]); reflexivity.
Qed.

Lemma pipe_stream_integrity_witness :
  ∃ l, pipe_rep (s_pipe ex_sys3) l ∧ [1; 2] = [] ++ l.
Proof.
  apply (pipe_stream_integrity 16 ex_sys3); [unfold W64; lia|exact ex_steps].
Defined.

Lemma pipe_ready_no_block_witness :
  (read_attempt (Ok 0) PIPE_READ false 5 ex_end ex_pipe).1 ≠ Block.
Proof.
  apply (pipe_ready_no_block (Ok 0) PIPE_READ false ex_pipe [7; 8] ex_end ex_ring_rep);
    [lia|reflexivity].
Defined.
End PipeWitness.
