(* ===== verification/Sched.v ===== *)
(** * The scheduler

    [kernel/schd/schdbase.h] and the five scheduling classes ([rt.h], [init.h],
    [rr.h], [fcfs.h], [idle.h]), and [kernel/task/scheduler.h], [scheduler.cpp].

    Threads are [TCB] records in a heap, by address (a [Z], 0 is [nullptr]); an
    intrusive run-queue list is the list of the addresses linked in it.  The
    register and page-table part of a context switch is machine state outside
    the model: [switch_to] has its assertions and the change of the current thread. *)

From S2P Require Import Prelude ErrCode.

#[local] Open Scope Z_scope.

Inductive ThreadState :=
  | EMPTY | INITIALIZATION | READY | RUNNING | YIELD
  | INTERRUPTIBLE_WAITING | UNINTERRUPTIBLE_WAITING | DYING.

#[export] Instance ThreadState_eq_dec : EqDecision ThreadState.
Proof. solve_decision. Defined.

Inductive ClassType := BOT | IDLE | FCFS | RR | INIT | RT.

#[export] Instance ClassType_eq_dec : EqDecision ClassType.
Proof. solve_decision. Defined.

Definition class_val (c : ClassType) : Z :=
  match c with BOT => 0 | IDLE => 1 | FCFS => 2 | RR => 3 | INIT => 4 | RT => 5 end.

Inductive BootThreadRole := ROLE_NONE | KINIT | INIT_USER.

#[export] Instance BootThreadRole_eq_dec : EqDecision BootThreadRole.
Proof. solve_decision. Defined.

Definition FLAGS_NEED_RESCHED : Z := 0x1.
Definition FLAGS_PREEMPT_DISABLED : Z := 0x2.
Definition TIME_SLICES : Z := 5.

(** [ext_ctx] is whether the pointer to the extended context is not null. *)
Record TCB := mkTCB {
  t_state : ThreadState;
  t_flags : Z;
  schd_class : ClassType;
  boot_role : BootThreadRole;
  slice_cnt : Z;
  wait_wd : Z;
  wait_predicate : option (Z → bool);
  ext_ctx : bool
}.

Definition set_state st t := mkTCB st (t_flags t) (schd_class t) (boot_role t) (slice_cnt t)
  (wait_wd t) (wait_predicate t) (ext_ctx t).
Definition set_flags f t := mkTCB (t_state t) f (schd_class t) (boot_role t) (slice_cnt t)
  (wait_wd t) (wait_predicate t) (ext_ctx t).
Definition set_slice n t := mkTCB (t_state t) (t_flags t) (schd_class t) (boot_role t) n
  (wait_wd t) (wait_predicate t) (ext_ctx t).
Definition set_wait wd p t := mkTCB (t_state t) (t_flags t) (schd_class t) (boot_role t)
  (slice_cnt t) wd p (ext_ctx t).

Definition flags_set (f : Z) (t : TCB) : TCB := set_flags (Z.lor (t_flags t) f) t.
Definition flags_reset (f : Z) (t : TCB) : TCB := set_flags (Z.land (t_flags t) (not64 f)) t.
Definition flags_check (f : Z) (t : TCB) : bool := Z.land (t_flags t) f =? f.

(** The scheduler: run queue, class objects, the hart's current thread, and the
    wait queues (used by [Wait.v]). *)
Record sched := mkSched {
  tcbs : gmap Z TCB;
  rt_list : list Z;
  fcfs_list : list Z;
  rr_list : list Z;
  kinit_ready : Z;
  init_ready : Z;
  idle_ready : Z;
  cursched : gmap Z Z;
  current_tcb : Z;
  wait_queues : gmap Z (list Z);
  next_wd : Z
}.

Definition set_tcbs f s := mkSched (f (tcbs s)) (rt_list s) (fcfs_list s) (rr_list s)
  (kinit_ready s) (init_ready s) (idle_ready s) (cursched s) (current_tcb s) (wait_queues s) (next_wd s).
Definition set_rt f s := mkSched (tcbs s) (f (rt_list s)) (fcfs_list s) (rr_list s)
  (kinit_ready s) (init_ready s) (idle_ready s) (cursched s) (current_tcb s) (wait_queues s) (next_wd s).
Definition set_fcfs f s := mkSched (tcbs s) (rt_list s) (f (fcfs_list s)) (rr_list s)
  (kinit_ready s) (init_ready s) (idle_ready s) (cursched s) (current_tcb s) (wait_queues s) (next_wd s).
Definition set_rr f s := mkSched (tcbs s) (rt_list s) (fcfs_list s) (f (rr_list s))
  (kinit_ready s) (init_ready s) (idle_ready s) (cursched s) (current_tcb s) (wait_queues s) (next_wd s).
Definition set_kinit p s := mkSched (tcbs s) (rt_list s) (fcfs_list s) (rr_list s)
  p (init_ready s) (idle_ready s) (cursched s) (current_tcb s) (wait_queues s) (next_wd s).
Definition set_init p s := mkSched (tcbs s) (rt_list s) (fcfs_list s) (rr_list s)
  (kinit_ready s) p (idle_ready s) (cursched s) (current_tcb s) (wait_queues s) (next_wd s).
Definition set_idle p s := mkSched (tcbs s) (rt_list s) (fcfs_list s) (rr_list s)
  (kinit_ready s) (init_ready s) p (cursched s) (current_tcb s) (wait_queues s) (next_wd s).
Definition set_cursched f s := mkSched (tcbs s) (rt_list s) (fcfs_list s) (rr_list s)
  (kinit_ready s) (init_ready s) (idle_ready s) (f (cursched s)) (current_tcb s) (wait_queues s) (next_wd s).
Definition set_current p s := mkSched (tcbs s) (rt_list s) (fcfs_list s) (rr_list s)
  (kinit_ready s) (init_ready s) (idle_ready s) (cursched s) p (wait_queues s) (next_wd s).
Definition set_queues f s := mkSched (tcbs s) (rt_list s) (fcfs_list s) (rr_list s)
  (kinit_ready s) (init_ready s) (idle_ready s) (cursched s) (current_tcb s) (f (wait_queues s)) (next_wd s).
Definition set_next_wd n s := mkSched (tcbs s) (rt_list s) (fcfs_list s) (rr_list s)
  (kinit_ready s) (init_ready s) (idle_ready s) (cursched s) (current_tcb s) (wait_queues s) n.

(** [Scheduler(idle_tcb, kinit_tcb)] over a heap of threads. *)
Definition sched_new (heap : gmap Z TCB) (idle kinit : Z) : sched :=
  mkSched (alter (set_state READY) kinit (alter (set_state READY) idle heap))
    [] [] [] kinit 0 idle ∅ 0 ∅ 1.

Definition get_tcb (p : Z) : M sched TCB := λ s,
  match tcbs s !! p with Some t => Fin (Ok t) s | None => Panic end.
(** A write to a field of a thread. *)
Definition upd_tcb (p : Z) (f : TCB → TCB) : M sched unit :=
  t ← get_tcb p; modify (set_tcbs <[p := f t]>).

(** ** The scheduling classes *)

Definition push_back (p : Z) (l : list Z) : list Z := l ++ [p].
(** [IntrusiveList::remove]: unlink one element. *)
Fixpoint list_unlink (p : Z) (l : list Z) : list Z :=
  match l with
  | [] => []
  | x :: l => if x =? p then l else x :: list_unlink p l
  end.
Definition list_contains (p : Z) (l : list Z) : bool := bool_decide (p ∈ l).

(** [INIT::ready_slot] *)
Definition ready_slot (t : TCB) : Result BootThreadRole :=
  match boot_role t with
  | KINIT => Ok KINIT
  | INIT_USER => Ok INIT_USER
  | ROLE_NONE => Err INVALID_PARAM
  end.
Definition read_slot (r : BootThreadRole) (s : sched) : Z :=
  match r with KINIT => kinit_ready s | _ => init_ready s end.
Definition write_slot (r : BootThreadRole) (p : Z) (s : sched) : sched :=
  match r with KINIT => set_kinit p s | _ => set_init p s end.

(** [enqueue] of each class. *)
Definition rt_enqueue (p : Z) : M sched unit :=
  _ ← upd_tcb p (set_state READY); modify (set_rt (push_back p)).
Definition rr_enqueue (p : Z) : M sched unit :=
  _ ← upd_tcb p (set_state READY); modify (set_rr (push_back p)).
Definition fcfs_enqueue (p : Z) : M sched unit :=
  _ ← upd_tcb p (set_state READY); modify (set_fcfs (push_back p)).
Definition init_enqueue (p : Z) : M sched unit :=
  t ← get_tcb p;
  r ← of_result (ready_slot t);
  _ ← upd_tcb p (set_state READY);
  modify (write_slot r p).
Definition idle_enqueue (p : Z) : M sched unit :=
  _ ← upd_tcb p (set_state READY); modify (set_idle p).

(** The virtual call: [schd] has no object for [BOT]. *)
Definition cls_enqueue (c : ClassType) (p : Z) : M sched unit :=
  match c with
  | RT => rt_enqueue p
  | RR => rr_enqueue p
  | FCFS => fcfs_enqueue p
  | INIT => init_enqueue p
  | IDLE => idle_enqueue p
  | BOT => fail INVALID_PARAM
  end.

(** [put_prev] of each class puts the thread back where [enqueue] puts it. *)
Definition rt_put_prev (p : Z) : M sched unit :=
  _ ← upd_tcb p (set_state READY); modify (set_rt (push_back p)).
Definition rr_put_prev (p : Z) : M sched unit :=
  _ ← upd_tcb p (set_state READY); modify (set_rr (push_back p)).
Definition fcfs_put_prev (p : Z) : M sched unit :=
  _ ← upd_tcb p (set_state READY); modify (set_fcfs (push_back p)).
Definition init_put_prev (p : Z) : M sched unit :=
  t ← get_tcb p;
  r ← of_result (ready_slot t);
  _ ← upd_tcb p (set_state READY);
  modify (write_slot r p).
Definition idle_put_prev (p : Z) : M sched unit :=
  _ ← upd_tcb p (set_state READY); modify (set_idle p).
Definition cls_put_prev (c : ClassType) (p : Z) : M sched unit :=
  match c with
  | RT => rt_put_prev p
  | RR => rr_put_prev p
  | FCFS => fcfs_put_prev p
  | INIT => init_put_prev p
  | IDLE => idle_put_prev p
  | BOT => fail INVALID_PARAM
  end.

Definition list_dequeue (get : sched → list Z) (set : (list Z → list Z) → sched → sched) (p : Z)
    : M sched unit :=
  l ← gets get;
  if negb (list_contains p l) then fail INVALID_PARAM
  else
    _ ← modify (set (list_unlink p));
    upd_tcb p (set_state EMPTY).

Definition rt_dequeue (p : Z) : M sched unit := list_dequeue rt_list set_rt p.
Definition rr_dequeue (p : Z) : M sched unit := list_dequeue rr_list set_rr p.
Definition fcfs_dequeue (p : Z) : M sched unit := list_dequeue fcfs_list set_fcfs p.
Definition init_dequeue (p : Z) : M sched unit :=
  t ← get_tcb p;
  r ← of_result (ready_slot t);
  q ← gets (read_slot r);
  if negb (q =? p) then fail INVALID_PARAM
  else _ ← modify (write_slot r 0); upd_tcb p (set_state EMPTY).
Definition idle_dequeue (p : Z) : M sched unit :=
  q ← gets idle_ready;
  if negb (q =? p) then fail INVALID_PARAM
  else _ ← modify (set_idle 0); upd_tcb p (set_state EMPTY).
Definition cls_dequeue (c : ClassType) (p : Z) : M sched unit :=
  match c with
  | RT => rt_dequeue p
  | RR => rr_dequeue p
  | FCFS => fcfs_dequeue p
  | INIT => init_dequeue p
  | IDLE => idle_dequeue p
  | BOT => fail INVALID_PARAM
  end.

(** The thread [p] of class [c] becomes the running one. *)
Definition run_unit (c : ClassType) (p : Z) (f : TCB → TCB) (pop : sched → sched) : M sched Z :=
  _ ← upd_tcb p (λ t, f (set_state RUNNING t));
  _ ← modify pop;
  _ ← modify (set_cursched <[class_val c := p]>);
  mret p.

Definition list_pick (c : ClassType) (l : list Z) (f : TCB → TCB) (pop : sched → sched) : M sched Z :=
  match l with
  | [] => fail NO_RUNNABLE_THREAD
  | p :: _ => run_unit c p f pop
  end.

Definition rt_pick_next : M sched Z := l ← gets rt_list; list_pick RT l id (set_rt tail).
Definition rr_pick_next : M sched Z :=
  l ← gets rr_list; list_pick RR l (set_slice TIME_SLICES) (set_rr tail).
Definition fcfs_pick_next : M sched Z := l ← gets fcfs_list; list_pick FCFS l id (set_fcfs tail).
Definition init_pick_next : M sched Z :=
  k ← gets kinit_ready;
  i ← gets init_ready;
  let ready := if negb (k =? 0) then k else i in
  if ready =? 0 then fail NO_RUNNABLE_THREAD
  else if ready =? k then run_unit INIT ready id (set_kinit 0)
  else run_unit INIT ready id (set_init 0).
Definition idle_pick_next : M sched Z :=
  p ← gets idle_ready;
  if p =? 0 then fail NO_RUNNABLE_THREAD else run_unit IDLE p id (set_idle 0).
Definition cls_pick_next (c : ClassType) : M sched Z :=
  match c with
  | RT => rt_pick_next
  | RR => rr_pick_next
  | FCFS => fcfs_pick_next
  | INIT => init_pick_next
  | IDLE => idle_pick_next
  | BOT => fail INVALID_PARAM
  end.

(** [yield] marks the class's current thread. *)
Definition cls_yield (c : ClassType) : M sched unit :=
  cs ← gets cursched;
  match cs !! class_val c with
  | None => mret tt
  | Some p => if p =? 0 then mret tt else upd_tcb p (flags_set FLAGS_NEED_RESCHED)
  end.

(** [on_tick]: only round robin counts its slice down. *)
Definition rr_tick (t : TCB) : TCB :=
  let t := if 0 <? slice_cnt t then set_slice (slice_cnt t - 1) t else t in
  if slice_cnt t =? 0 then flags_set FLAGS_NEED_RESCHED t else t.
Definition cls_on_tick (c : ClassType) (p : Z) : M sched unit :=
  match c with RR => upd_tcb p rr_tick | _ => mret tt end.

(** ** [Scheduler] *)

(** [schd(type)]: the class object, or [INVALID_PARAM]. *)
Definition schd (c : ClassType) : Result ClassType :=
  match c with BOT => Err INVALID_PARAM | _ => Ok c end.

Definition schd_classes : list ClassType := [RT; INIT; RR; FCFS; IDLE].

(** [pick_next_task]: the first class, by priority, that has a thread. *)
Fixpoint pick_loop (cs : list ClassType) : M sched Z :=
  match cs with
  | [] => fail NO_RUNNABLE_THREAD
  | c :: cs =>
      r ← attempt (cls_pick_next c);
      match r with
      | Ok p => if p =? 0 then pick_loop cs else mret p
      | Err _ => pick_loop cs
      end
  end.
Definition pick_next_task : M sched Z := pick_loop schd_classes.

Definition can_schedule_tcb (p : Z) : M sched bool :=
  if p =? 0 then mret false
  else t ← get_tcb p; mret (negb (bool_decide (t_state t = DYING))).

(** The loop of [prepare_next_task]; every round takes a thread out of the
    ready queues. *)
Fixpoint prepare_next_loop (fuel : nat) : M sched Z :=
  match fuel with
  | O => no_fuel
  | S fuel =>
      next ← pick_next_task;
      ok ← can_schedule_tcb next;
      if (ok : bool) then mret next
      else
        _ ← upd_tcb next (flags_set FLAGS_NEED_RESCHED);
        prepare_next_loop fuel
  end.
Definition ready_count (s : sched) : nat :=
  length (rt_list s) + length (rr_list s) + length (fcfs_list s) + 3.
Definition prepare_next_task : M sched Z := λ s, prepare_next_loop (S (ready_count s)) s.

Definition is_waiting (st : ThreadState) : bool :=
  match st with INTERRUPTIBLE_WAITING | UNINTERRUPTIBLE_WAITING => true | _ => false end.

Definition prepare_prev_task (p : Z) : M sched unit :=
  if p =? 0 then mret tt
  else
    t ← get_tcb p;
    if is_waiting (t_state t) || bool_decide (t_state t = DYING) then mret tt
    else
      ok ← can_schedule_tcb p;
      if negb ok then upd_tcb p (set_state UNINTERRUPTIBLE_WAITING)
      else
        c ← of_result (schd (schd_class t));
        cls_put_prev c p.

Definition check_preempt_curr (new_tcb : Z) : M sched unit :=
  cur ← gets current_tcb;
  if cur =? 0 then mret tt
  else
    t ← get_tcb cur;
    if flags_check FLAGS_PREEMPT_DISABLED t then mret tt
    else
      n ← get_tcb new_tcb;
      if class_val (schd_class n) <=? class_val (schd_class t) then mret tt
      else
        match schd (schd_class n) with
        | Err _ => mret tt
        | Ok _ => upd_tcb cur (flags_set FLAGS_NEED_RESCHED)
        end.

Definition prepare_switch (next : Z) : M sched unit := modify (set_current next).
Definition switch_to (prev next : Z) : M sched unit :=
  _ ← massert (negb (prev =? 0));
  _ ← massert (negb (next =? 0));
  t ← get_tcb prev;
  _ ← massert (ext_ctx t);
  u ← get_tcb next;
  _ ← massert (ext_ctx u);
  _ ← prepare_switch next;
  cur ← gets current_tcb;
  _ ← massert (negb (cur =? 0));
  v ← get_tcb cur;
  massert (ext_ctx v).

Definition schedule (ignore_preempt_disabled : bool) : M sched unit :=
  cur ← gets current_tcb;
  if cur =? 0 then mret tt
  else
    t ← get_tcb cur;
    if negb ignore_preempt_disabled && negb (is_waiting (t_state t))
       && flags_check FLAGS_PREEMPT_DISABLED t
    then mret tt
    else if negb (flags_check FLAGS_NEED_RESCHED t) then mret tt
    else
      _ ← upd_tcb cur (flags_reset FLAGS_NEED_RESCHED);
      r ← attempt (prepare_prev_task cur);
      match r with
      | Err _ => panic
      | Ok _ =>
          r ← attempt prepare_next_task;
          match r with
          | Err _ => panic
          | Ok next => if negb (cur =? next) then switch_to cur next else mret tt
          end
      end.

Definition enqueue (p : Z) : M sched unit :=
  t ← get_tcb p;
  c ← of_result (schd (schd_class t));
  cls_enqueue c p.

Definition dequeue (p : Z) : M sched unit :=
  t ← get_tcb p;
  c ← of_result (schd (schd_class t));
  cls_dequeue c p.

Definition try_wakeup (p : Z) : M sched bool :=
  r ← attempt (enqueue p);
  match r with
  | Err _ => mret false
  | Ok _ => _ ← check_preempt_curr p; mret true
  end.
Definition wakeup (p : Z) : M sched bool := try_wakeup p.
Definition wakeup_new (p : Z) : M sched bool := try_wakeup p.

Definition wakeup_waiting (p : Z) : M sched bool :=
  if p =? 0 then mret false
  else
    t ← get_tcb p;
    if bool_decide (t_state t = DYING) then mret false
    else if negb (is_waiting (t_state t)) then mret false
    else _ ← upd_tcb p (set_state EMPTY); wakeup p.

Definition yield_cpu : M sched unit :=
  cur ← gets current_tcb;
  if cur =? 0 then mret tt
  else
    t ← get_tcb cur;
    _ ← (match schd (schd_class t) with
         | Ok c => r ← attempt (cls_yield c); mret tt
         | Err _ => mret tt
         end);
    schedule true.

Definition do_tick : M sched unit :=
  cur ← gets current_tcb;
  if cur =? 0 then mret tt
  else
    t ← get_tcb cur;
    match schd (schd_class t) with
    | Err _ => mret tt
    | Ok c => r ← attempt (cls_on_tick c cur); mret tt
    end.

Definition preempt_disable : M sched unit :=
  cur ← gets current_tcb;
  if cur =? 0 then fail INVALID_PARAM else upd_tcb cur (flags_set FLAGS_PREEMPT_DISABLED).
Definition preempt_enable : M sched unit :=
  cur ← gets current_tcb;
  if cur =? 0 then fail INVALID_PARAM else upd_tcb cur (flags_reset FLAGS_PREEMPT_DISABLED).
Definition preempt_disabled : M sched bool :=
  cur ← gets current_tcb;
  if cur =? 0 then mret false else t ← get_tcb cur; mret (flags_check FLAGS_PREEMPT_DISABLED t).

(** [Scheduler::init] and [bootstrap_tasks] up to the first context switch. *)
Definition sched_init : M sched unit :=
  s ← get_st;
  if (idle_ready s =? 0) || (kinit_ready s =? 0) then panic
  else if negb (current_tcb s =? 0) then panic
  else mret tt.
Definition bootstrap_tasks : M sched unit :=
  s ← get_st;
  if negb (current_tcb s =? 0) then panic
  else
    r ← attempt prepare_next_task;
    match r with
    | Err _ => panic
    | Ok next => _ ← prepare_switch next; t ← get_tcb next; massert (ext_ctx t)
    end.

(** ** Invariant *)

Definition opt_ptr (p : Z) : list Z := if p =? 0 then [] else [p].

(** The ready threads of a class in the order it would pick them, and of all
    classes in priority order. *)
Definition class_seq (s : sched) (c : ClassType) : list Z :=
  match c with
  | RT => rt_list s
  | INIT => opt_ptr (kinit_ready s) ++ opt_ptr (init_ready s)
  | RR => rr_list s
  | FCFS => fcfs_list s
  | IDLE => opt_ptr (idle_ready s)
  | BOT => []
  end.
Definition ready_seq (s : sched) : list Z :=
  class_seq s RT ++ class_seq s INIT ++ class_seq s RR ++ class_seq s FCFS ++ class_seq s IDLE.

(** The threads: the idle thread and each boot role exist once, every thread
    has a real class and an extended context, an [INIT] thread has a role. *)
Record heap_wf (h : gmap Z TCB) : Prop := {
  hw_thread : ∀ p t, h !! p = Some t →
    p ≠ 0 ∧ schd_class t ≠ BOT ∧ (schd_class t = INIT → boot_role t ≠ ROLE_NONE) ∧ ext_ctx t = true;
  hw_unique : ∀ p q t u, h !! p = Some t → h !! q = Some u → schd_class t = schd_class u →
    schd_class t = IDLE ∨ (schd_class t = INIT ∧ boot_role t = boot_role u) → p = q
}.

Record rq_inv (s : sched) : Prop := {
  rq_heap : heap_wf (tcbs s);
  rq_nodup : NoDup (ready_seq s);
  rq_unit : ∀ c p, p ∈ class_seq s c →
    ∃ t, tcbs s !! p = Some t ∧ t_state t = READY ∧ schd_class t = c;
  rq_role : ∀ r t, r ≠ ROLE_NONE → tcbs s !! read_slot r s = Some t → boot_role t = r
}.

(** The current thread is not in a ready queue; the idle thread is ready or
    current. *)
Record sched_inv (s : sched) : Prop := {
  si_rq : rq_inv s;
  si_cur : current_tcb s ≠ 0 → ∃ t, tcbs s !! current_tcb s = Some t ∧
    (t_state t = RUNNING ∨ t_state t = DYING ∧ schd_class t ≠ IDLE ∨
     is_waiting (t_state t) = true ∧ schd_class t ≠ IDLE) ∧ current_tcb s ∉ ready_seq s;
  si_idle : idle_ready s ≠ 0 ∨
    ∃ t, current_tcb s ≠ 0 ∧ tcbs s !! current_tcb s = Some t ∧ schd_class t = IDLE
}.

(** ** Thread updates *)

Definition same_shape (t u : TCB) : Prop :=
  schd_class u = schd_class t ∧ boot_role u = boot_role t ∧ ext_ctx u = ext_ctx t.

Lemma heap_wf_upd h p t u : heap_wf h → h !! p = Some t → same_shape t u → heap_wf (<[p := u]> h).
Proof.
  intros [Ht Hu] Hp (Sc & Sr & Se).
  assert (Hlook : ∀ q v, <[p := u]> h !! q = Some v → ∃ v0, h !! q = Some v0 ∧ same_shape v0 v).
  { intros q v. destruct (decide (q = p)) as [->|Hne].
    - rewrite lookup_insert_eq. intros [= <-]. by exists t.
    - rewrite lookup_insert_ne by done. intros Hv. by exists v. }
  split.
  - intros q v Hv. destruct (Hlook _ _ Hv) as (v0 & H0 & -> & -> & ->). eauto.
  - intros q1 q2 v1 v2 H1 H2. destruct (Hlook _ _ H1) as (w1 & G1 & -> & -> & _).
    destruct (Hlook _ _ H2) as (w2 & G2 & -> & -> & _). eauto.
Qed.

Lemma upd_tcb_run s p t f :
  tcbs s !! p = Some t → upd_tcb p f s = Fin (Ok tt) (set_tcbs <[p := f t]> s).
Proof. intros H. unfold upd_tcb, get_tcb, mbind, M_bind. by rewrite H. Qed.

Lemma get_tcb_run s p t : tcbs s !! p = Some t → get_tcb p s = Fin (Ok t) s.
Proof. intros H. unfold get_tcb. by rewrite H. Qed.

Lemma elem_class_ready s c p : p ∈ class_seq s c → p ∈ ready_seq s.
Proof.
  unfold ready_seq. rewrite !elem_of_app. destruct c; simpl; auto 10.
  by intros ?%not_elem_of_nil.
Qed.

Lemma elem_ready_class s p : p ∈ ready_seq s → ∃ c, c ≠ BOT ∧ p ∈ class_seq s c.
Proof.
  unfold ready_seq. rewrite !elem_of_app. intros [?|[?|[?|[?|?]]]].
  - by exists RT.
  - by exists INIT.
  - by exists RR.
  - by exists FCFS.
  - by exists IDLE.
Qed.

Lemma opt_ptr_elem p q : q ∈ opt_ptr p ↔ p ≠ 0 ∧ q = p.
Proof.
  unfold opt_ptr. destruct (Z.eqb_spec p 0) as [->|].
  - rewrite elem_of_nil. naive_solver.
  - rewrite list_elem_of_singleton. naive_solver.
Qed.

(** ** Adding a thread to its class *)

(** [s'] is [s] with thread [p], now [u], added to class [c]. *)
Record added (s : sched) (c : ClassType) (p : Z) (u : TCB) (s' : sched) : Prop := {
  ad_tcbs : tcbs s' = <[p := u]> (tcbs s);
  ad_class : class_seq s' c ≡ₚ p :: class_seq s c;
  ad_other : ∀ c', c' ≠ c → class_seq s' c' = class_seq s c';
  ad_current : current_tcb s' = current_tcb s;
  ad_queues : wait_queues s' = wait_queues s
}.

Lemma added_ready s c p u s' : c ≠ BOT → added s c p u s' → ready_seq s' ≡ₚ p :: ready_seq s.
Proof.
  intros Hc [_ Hp Ho _ _]. unfold ready_seq. destruct c; try done.
  - rewrite (Ho RT), (Ho INIT), (Ho RR), (Ho FCFS), Hp by done. by rewrite !Permutation_middle.
  - rewrite (Ho RT), (Ho INIT), (Ho RR), (Ho IDLE), Hp by done. simpl. by rewrite !Permutation_middle.
  - rewrite (Ho RT), (Ho INIT), (Ho FCFS), (Ho IDLE), Hp by done. simpl. by rewrite !Permutation_middle.
  - rewrite (Ho RT), (Ho RR), (Ho FCFS), (Ho IDLE), Hp by done. simpl. by rewrite !Permutation_middle.
  - rewrite (Ho INIT), (Ho RR), (Ho FCFS), (Ho IDLE), Hp by done. done.
Qed.

Lemma rq_inv_added s c p t u s' :
  rq_inv s → c ≠ BOT → tcbs s !! p = Some t → same_shape t u → t_state u = READY →
  schd_class t = c → p ∉ ready_seq s → added s c p u s' →
  (∀ r v, r ≠ ROLE_NONE → tcbs s' !! read_slot r s' = Some v → boot_role v = r) → rq_inv s'.
Proof.
  intros [Hh Hn Hu _] Hc Hp Hsh Hst Hcl Hnin Ha Hrole.
  pose proof (added_ready _ _ _ _ _ Hc Ha) as Hperm. destruct Ha as [Et Hpm Ho _ _].
  split; [by rewrite Et; eapply heap_wf_upd| | |done].
  - rewrite Hperm. by apply NoDup_cons.
  - intros c' q Hq. rewrite Et. destruct (decide (q = p)) as [->|Hne].
    + rewrite lookup_insert_eq. exists u. destruct Hsh as [Sc _]. split_and!; [done|done|].
      rewrite Sc, Hcl. destruct (decide (c' = c)) as [|Hcc]; [done|].
      rewrite (Ho _ Hcc) in Hq. by apply elem_class_ready in Hq.
    + rewrite lookup_insert_ne by done. apply Hu. destruct (decide (c' = c)) as [->|Hcc].
      * rewrite Hpm in Hq. by apply elem_of_cons in Hq as [|].
      * by rewrite (Ho _ Hcc) in Hq.
Qed.

(** The slot a thread of class [INIT] or [IDLE] goes to is free, since it is the
    only thread that can be there. *)
Lemma slot_free s p t r :
  rq_inv s → tcbs s !! p = Some t → p ∉ ready_seq s → schd_class t = INIT →
  boot_role t = r → r ≠ ROLE_NONE → read_slot r s = 0.
Proof.
  intros H Hp Hn Hc Hr Hrn. destruct (Z.eq_dec (read_slot r s) 0) as [|Hz]; [done|].
  assert (Hin : read_slot r s ∈ class_seq s INIT).
  { simpl. rewrite elem_of_app, !opt_ptr_elem. destruct r; simpl in *; naive_solver. }
  destruct (rq_unit _ H _ _ Hin) as (v & Hv & _ & Hvc).
  pose proof (rq_role _ H r v Hrn Hv) as Hvr.
  assert (p = read_slot r s) as ->.
  { eapply (hw_unique _ (rq_heap _ H)); [done|done|congruence|]. right. split; congruence. }
  exfalso. by apply Hn, (elem_class_ready _ INIT).
Qed.

Lemma idle_free s p t :
  rq_inv s → tcbs s !! p = Some t → p ∉ ready_seq s → schd_class t = IDLE → idle_ready s = 0.
Proof.
  intros H Hp Hn Hc. destruct (Z.eq_dec (idle_ready s) 0) as [|Hz]; [done|].
  assert (Hin : idle_ready s ∈ class_seq s IDLE) by (simpl; by rewrite opt_ptr_elem).
  destruct (rq_unit _ H _ _ Hin) as (v & Hv & _ & Hvc).
  assert (p = idle_ready s) as ->.
  { eapply (hw_unique _ (rq_heap _ H)); [done|done|congruence|by left]. }
  exfalso. by apply Hn, (elem_class_ready _ IDLE).
Qed.

Lemma slot_ready s r : r ≠ ROLE_NONE → read_slot r s ≠ 0 → read_slot r s ∈ class_seq s INIT.
Proof.
  intros Hr Hz. simpl. rewrite elem_of_app, !opt_ptr_elem. destruct r; simpl in *; auto.
Qed.

(** A slot that was not touched keeps its role. *)
Lemma role_keep s s' p t u r v :
  rq_inv s → tcbs s !! p = Some t → p ∉ ready_seq s → tcbs s' = <[p := u]> (tcbs s) →
  r ≠ ROLE_NONE → read_slot r s' = read_slot r s →
  tcbs s' !! read_slot r s' = Some v → boot_role v = r.
Proof.
  intros H Hp Hn Et Hr E. rewrite Et, E. destruct (hw_thread _ (rq_heap _ H) _ _ Hp) as [Hp0 _].
  destruct (decide (read_slot r s = p)) as [Ep|Ep].
  - exfalso. apply Hn, (elem_class_ready _ INIT). rewrite <- Ep.
    apply slot_ready; [done|]. by rewrite Ep.
  - rewrite lookup_insert_ne by done. by apply (rq_role _ H).
Qed.

(** What [enqueue] (and [put_prev]) of a class guarantees: the thread is at the
    back of its class, everything else is as before. *)
Record enqueued (s : sched) (c : ClassType) (p : Z) (t : TCB) (s' : sched) : Prop := {
  en_rq : rq_inv s';
  en_added : added s c p (set_state READY t) s';
  en_fifo : c = RT ∨ c = RR ∨ c = FCFS → class_seq s' c = class_seq s c ++ [p];
  en_idle : c = IDLE ∨ idle_ready s ≠ 0 → idle_ready s' ≠ 0
}.

(** The three list classes share this step. *)
Lemma list_enqueue_spec s c p t (set : (list Z → list Z) → sched → sched) :
  rq_inv s → tcbs s !! p = Some t → p ∉ ready_seq s → schd_class t = c →
  c = RT ∨ c = RR ∨ c = FCFS →
  (let s' := set (push_back p) (set_tcbs <[p := set_state READY t]> s) in
   tcbs s' = <[p := set_state READY t]> (tcbs s) ∧ class_seq s' c = class_seq s c ++ [p] ∧
   (∀ c', c' ≠ c → class_seq s' c' = class_seq s c') ∧ current_tcb s' = current_tcb s ∧
   wait_queues s' = wait_queues s ∧ idle_ready s' = idle_ready s ∧
   ∀ r, read_slot r s' = read_slot r s) →
  ∃ s', (_ ← upd_tcb p (set_state READY); modify (set (push_back p))) s = Fin (Ok tt) s' ∧
        enqueued s c p t s'.
Proof.
  intros H Hp Hn Hc Hlist. cbv zeta. set (s' := set _ _). intros (Et & Ef & Eo & Ec & Eq & Ei & Er).
  exists s'. split; [unfold mbind, M_bind; by rewrite (upd_tcb_run _ _ _ _ Hp)|].
  assert (Ha : added s c p (set_state READY t) s').
  { split; try done. rewrite Ef. by rewrite Permutation_app_comm. }
  split; [|done|done|intros [Hi|Hi]; [destruct Hlist as [?|[?|?]]; congruence|congruence]].
  apply (rq_inv_added s c p t (set_state READY t));
    [done|destruct Hlist as [?|[?|?]]; congruence|done|by split|done|done|done|done|].
  intros r v Hr. eapply (role_keep s s' p t); eauto.
Qed.

Lemma cls_enqueue_spec s c p t :
  rq_inv s → tcbs s !! p = Some t → p ∉ ready_seq s → schd_class t = c →
  ∃ s', cls_enqueue c p s = Fin (Ok tt) s' ∧ enqueued s c p t s'.
Proof.
  intros H Hp Hn Hc. destruct (hw_thread _ (rq_heap _ H) _ _ Hp) as (Hp0 & Hb & Hrole & _).
  destruct c; simpl;
    unfold rt_enqueue, rr_enqueue, fcfs_enqueue, init_enqueue, idle_enqueue.
  - congruence.
  - (* IDLE *)
    pose proof (idle_free _ _ _ H Hp Hn Hc) as Hf.
    eexists. split; [unfold mbind, M_bind; by rewrite (upd_tcb_run _ _ _ _ Hp)|].
    set (s' := set_idle p _).
    assert (Ha : added s IDLE p (set_state READY t) s').
    { split; try done; simpl.
      - unfold opt_ptr. rewrite Hf, (proj2 (Z.eqb_neq p 0)) by done. done.
      - intros c' Hc'. by destruct c'. }
    split; [|done|intros [|[|]]; done|done].
    apply (rq_inv_added s IDLE p t (set_state READY t));
      [done|done|done|by split|done|done|done|done|].
    intros r v Hr. by eapply (role_keep s s' p t); destruct r.
  - apply list_enqueue_spec; auto. simpl. split_and!; try done. intros c' Hc'. by destruct c'.
  - apply list_enqueue_spec; auto. simpl. split_and!; try done. intros c' Hc'. by destruct c'.
  - (* INIT *)
    specialize (Hrole Hc). unfold mbind, M_bind. rewrite (get_tcb_run _ _ _ Hp).
    assert (Er : ready_slot t = Ok (boot_role t)) by (unfold ready_slot; by destruct (boot_role t)).
    rewrite Er. simpl. rewrite (upd_tcb_run _ _ _ _ Hp). eexists. split; [done|].
    pose proof (slot_free _ _ _ _ H Hp Hn Hc eq_refl Hrole) as Hf.
    set (s' := write_slot _ _ _).
    assert (Hz : opt_ptr p = [p]) by (unfold opt_ptr; by rewrite (proj2 (Z.eqb_neq p 0))).
    assert (Ha : added s INIT p (set_state READY t) s').
    { subst s'. destruct (boot_role t); simpl in *; try done; split; simpl;
        try done; try (intros c' Hc'; by destruct c'); rewrite Hf, Hz; simpl.
      - done.
      - change (opt_ptr 0) with (@nil Z). by rewrite app_nil_r, Permutation_app_comm. }
    split; [|done|intros [|[|]]; done|].
    + apply (rq_inv_added s INIT p t (set_state READY t));
        [done|done|done|by split|done|done|done|done|]. intros r v Hr Hv.
      destruct (decide (r = boot_role t)) as [->|Hne].
      * assert (Es : read_slot (boot_role t) s' = p) by (subst s'; by destruct (boot_role t)).
        rewrite Es, (ad_tcbs _ _ _ _ _ Ha), lookup_insert_eq in Hv. by simplify_eq.
      * eapply (role_keep s s' p t); try done; [apply (ad_tcbs _ _ _ _ _ Ha)|].
        subst s'. destruct (boot_role t) eqn:Eb; destruct r; simpl; done || congruence.
    + intros [|Hi]; [done|]. subst s'. by destruct (boot_role t).
  - apply list_enqueue_spec; auto. simpl. split_and!; try done. intros c' Hc'. by destruct c'.
Qed.

(** ** Taking a thread out of its class *)

(** [s'] is [s] with [p], the first thread of class [c], picked. *)
Record picked (s : sched) (c : ClassType) (p : Z) (rest : list Z) (s' : sched) : Prop := {
  pk_head : class_seq s c = p :: rest;
  pk_tcb : ∃ t, tcbs s !! p = Some t ∧ t_state t = READY ∧ schd_class t = c ∧
    tcbs s' = <[p := (if decide (c = RR) then set_slice TIME_SLICES else id) (set_state RUNNING t)]>
                (tcbs s);
  pk_class : class_seq s' c = rest;
  pk_other : ∀ c', c' ≠ c → class_seq s' c' = class_seq s c';
  pk_slots : ∀ r, read_slot r s' = read_slot r s ∨ read_slot r s' = 0;
  pk_current : current_tcb s' = current_tcb s;
  pk_cursched : cursched s' = <[class_val c := p]> (cursched s);
  pk_queues : wait_queues s' = wait_queues s;
  pk_idle : c ≠ IDLE → idle_ready s' = idle_ready s
}.

Lemma run_unit_run s c p t f pop :
  tcbs s !! p = Some t →
  run_unit c p f pop s =
  Fin (Ok p) (set_cursched <[class_val c := p]> (pop (set_tcbs <[p := f (set_state RUNNING t)]> s))).
Proof. intros H. unfold run_unit, mbind, M_bind. by rewrite (upd_tcb_run _ _ _ _ H). Qed.

Lemma put_prev_enqueue c p : cls_put_prev c p = cls_enqueue c p.
Proof. by destruct c. Qed.

(** A class with no ready thread reports it and changes nothing; otherwise its
    first thread starts to run. *)
Lemma cls_pick_spec s c :
  rq_inv s → c ≠ BOT →
  match class_seq s c with
  | [] => cls_pick_next c s = Fin (Err NO_RUNNABLE_THREAD) s
  | p :: rest => ∃ s', cls_pick_next c s = Fin (Ok p) s' ∧ picked s c p rest s'
  end.
Proof.
  intros H Hb.
  assert (Hu : ∀ p rest, class_seq s c = p :: rest →
            ∃ t, tcbs s !! p = Some t ∧ t_state t = READY ∧ schd_class t = c).
  { intros p rest E. apply (rq_unit _ H). rewrite E. left. }
  destruct c; try done; simpl;
    unfold rt_pick_next, rr_pick_next, fcfs_pick_next, init_pick_next, idle_pick_next,
      mbind, M_bind, gets.
  - (* IDLE *)
    unfold opt_ptr in *. simpl in Hu. unfold opt_ptr in Hu.
    destruct (Z.eqb_spec (idle_ready s) 0) as [E|E]; [done|].
    destruct (Hu _ _ eq_refl) as (t & Ht & Hst & Hc). eexists.
    rewrite (run_unit_run _ _ _ _ _ _ Ht). split; [done|]. split; simpl; try done.
    + unfold opt_ptr. by rewrite (proj2 (Z.eqb_neq _ 0)).
    + by exists t.
    + intros c' Hc'. by destruct c'.
    + intros r. left. by destruct r.
  - destruct (fcfs_list s) as [|p rest] eqn:E; simpl; [done|].
    destruct (Hu p rest) as (t & Ht & Hst & Hc); [done|]. eexists.
    rewrite (run_unit_run _ _ _ _ _ _ Ht). split; [done|]. split; simpl; try done.
    + by exists t.
    + by rewrite E.
    + intros c' Hc'. by destruct c'.
    + intros r. left. by destruct r.
  - destruct (rr_list s) as [|p rest] eqn:E; simpl; [done|].
    destruct (Hu p rest) as (t & Ht & Hst & Hc); [done|]. eexists.
    rewrite (run_unit_run _ _ _ _ _ _ Ht). split; [done|]. split; simpl; try done.
    + by exists t.
    + by rewrite E.
    + intros c' Hc'. by destruct c'.
    + intros r. left. by destruct r.
  - (* INIT *)
    simpl in Hu. unfold opt_ptr in *.
    destruct (Z.eqb_spec (kinit_ready s) 0) as [Ek|Ek]; simpl in *.
    + destruct (Z.eqb_spec (init_ready s) 0) as [Ei|Ei]; simpl in *; [done|].
      destruct (Hu _ _ eq_refl) as (t & Ht & Hst & Hc). eexists.
      rewrite (proj2 (Z.eqb_neq (init_ready s) (kinit_ready s))) by congruence.
      rewrite (run_unit_run _ _ _ _ _ _ Ht). split; [done|]. split; simpl; try done.
      * unfold opt_ptr. by rewrite Ek, (proj2 (Z.eqb_neq (init_ready s) 0)).
      * by exists t.
      * unfold opt_ptr. by rewrite Ek.
      * intros c' Hc'. by destruct c'.
      * intros r. destruct r; simpl; auto.
    + destruct (Hu _ _ eq_refl) as (t & Ht & Hst & Hc). eexists.
      rewrite (proj2 (Z.eqb_neq (kinit_ready s) 0)), Z.eqb_refl by done.
      rewrite (run_unit_run _ _ _ _ _ _ Ht). split; [done|]. split; simpl; try done.
      * unfold opt_ptr. by rewrite (proj2 (Z.eqb_neq (kinit_ready s) 0)).
      * by exists t.
      * intros c' Hc'. by destruct c'.
      * intros r. destruct r; simpl; auto.
  - destruct (rt_list s) as [|p rest] eqn:E; simpl; [done|].
    destruct (Hu p rest) as (t & Ht & Hst & Hc); [done|]. eexists.
    rewrite (run_unit_run _ _ _ _ _ _ Ht). split; [done|]. split; simpl; try done.
    + by exists t.
    + by rewrite E.
    + intros c' Hc'. by destruct c'.
    + intros r. left. by destruct r.
Qed.

Lemma picked_ready s c p rest s' :
  c ≠ BOT → picked s c p rest s' → ready_seq s ≡ₚ p :: ready_seq s'.
Proof.
  intros Hc [Hh _ Hr Ho _ _ _ _ _]. unfold ready_seq.
  destruct c; try done; rewrite Hh, Hr.
  - rewrite (Ho RT), (Ho INIT), (Ho RR), (Ho FCFS) by done. by rewrite !Permutation_middle.
  - rewrite (Ho RT), (Ho INIT), (Ho RR), (Ho IDLE) by done. simpl. by rewrite !Permutation_middle.
  - rewrite (Ho RT), (Ho INIT), (Ho FCFS), (Ho IDLE) by done. simpl. by rewrite !Permutation_middle.
  - rewrite (Ho RT), (Ho RR), (Ho FCFS), (Ho IDLE) by done. simpl. by rewrite !Permutation_middle.
  - rewrite (Ho INIT), (Ho RR), (Ho FCFS), (Ho IDLE) by done. done.
Qed.

Lemma rq_inv_picked s c p rest s' :
  rq_inv s → c ≠ BOT → picked s c p rest s' → rq_inv s' ∧ p ∉ ready_seq s'.
Proof.
  intros H Hc Hp. pose proof (picked_ready _ _ _ _ _ Hc Hp) as Hperm.
  destruct Hp as [Hh (t & Ht & Hst & Hcl & Et) Hr Ho Hsl _ _ _ _].
  set (u := (if decide (c = RR) then set_slice TIME_SLICES else id) (set_state RUNNING t)) in *.
  assert (Hsh : same_shape t u) by (subst u; by destruct (decide (c = RR))).
  pose proof (rq_nodup _ H) as Hn. rewrite Hperm in Hn. apply NoDup_cons in Hn as [Hni Hn].
  split; [|done]. split; [by rewrite Et; eapply heap_wf_upd, Hsh; [apply H|]|done| |].
  - intros c' q Hq. rewrite Et. destruct (decide (q = p)) as [->|Hne].
    { by apply elem_class_ready in Hq. }
    rewrite lookup_insert_ne by done. apply (rq_unit _ H).
    destruct (decide (c' = c)) as [->|Hcc]; [|by rewrite (Ho _ Hcc) in Hq].
    rewrite Hr in Hq. rewrite Hh. by right.
  - intros r v Hrn. destruct (Hsl r) as [-> | ->].
    + rewrite Et. destruct (decide (read_slot r s = p)) as [Ep|Ep].
      * rewrite Ep, lookup_insert_eq. intros [= <-]. destruct Hsh as (_ & -> & _).
        apply (rq_role _ H r t Hrn). by rewrite Ep.
      * rewrite lookup_insert_ne by done. by apply (rq_role _ H).
    + rewrite Et. destruct (hw_thread _ (rq_heap _ H) _ _ Ht) as [Hp0 _].
      rewrite lookup_insert_ne by done. intros Hv.
      by destruct (hw_thread _ (rq_heap _ H) _ _ Hv) as [? _].
Qed.

(** ** Picking the next thread *)

(** [c] is the highest class with a ready thread. *)
Definition top_class (s : sched) (c : ClassType) : Prop :=
  ∀ c', class_val c < class_val c' → class_seq s c' = [].

Lemma pick_loop_spec s cs :
  rq_inv s → BOT ∉ cs →
  (pick_loop cs s = Fin (Err NO_RUNNABLE_THREAD) s ∧ ∀ c, c ∈ cs → class_seq s c = []) ∨
  ∃ cs1 c cs2 p rest s', cs = cs1 ++ c :: cs2 ∧ (∀ c', c' ∈ cs1 → class_seq s c' = []) ∧
    pick_loop cs s = Fin (Ok p) s' ∧ picked s c p rest s'.
Proof.
  intros H. induction cs as [|c cs IH]; intros Hb.
  { left. split; [done|]. by intros c ?%not_elem_of_nil. }
  apply not_elem_of_cons in Hb as [Hb Hbs]. pose proof (cls_pick_spec s c H (not_eq_sym Hb)) as Hp.
  simpl. unfold mbind, M_bind, attempt. destruct (class_seq s c) as [|p rest] eqn:Ec.
  - rewrite Hp. destruct (IH Hbs) as [[E Hall]|(cs1 & c1 & cs2 & p & rest & s' & -> & Hall & E & Hpk)].
    + left. split; [done|]. intros c' [->|Hc']%elem_of_cons; auto.
    + right. exists (c :: cs1), c1, cs2, p, rest, s'. split_and!; try done.
      intros c' [->|Hc']%elem_of_cons; auto.
  - destruct Hp as (s' & E & Hpk). rewrite E.
    destruct (rq_unit _ H c p) as (t & Ht & _); [rewrite Ec; left|].
    destruct (hw_thread _ (rq_heap _ H) _ _ Ht) as [Hp0 _].
    rewrite (proj2 (Z.eqb_neq p 0)) by done. right. exists [], c, cs, p, rest, s'.
    split_and!; try done. by intros c' ?%not_elem_of_nil.
Qed.

Lemma pick_next_task_spec s :
  rq_inv s →
  (ready_seq s = [] ∧ pick_next_task s = Fin (Err NO_RUNNABLE_THREAD) s) ∨
  ∃ c p rest s', c ≠ BOT ∧ pick_next_task s = Fin (Ok p) s' ∧ picked s c p rest s' ∧ top_class s c.
Proof.
  intros H. unfold pick_next_task.
  destruct (pick_loop_spec s schd_classes H) as [[E Hall]|(cs1 & c & cs2 & p & rest & s' & Es & Hall & E & Hpk)].
  { unfold schd_classes. set_solver. }
  - left. split; [|done]. unfold ready_seq, schd_classes in *.
    rewrite !Hall by set_solver. done.
  - right. exists c, p, rest, s'. unfold schd_classes in *. split_and!; try done.
    + intros ->. assert (Hin : BOT ∈ [RT; INIT; RR; FCFS; IDLE]) by (rewrite Es; set_solver). set_solver.
    + intros c' Hlt. apply Hall.
      assert (Hin : c' ∈ [RT; INIT; RR; FCFS; IDLE]) by (destruct c', c; simpl in Hlt; try lia; set_solver).
      rewrite Es, elem_of_app, elem_of_cons in Hin. destruct Hin as [|[->|Hin]]; [done|lia|].
      exfalso. repeat (destruct cs1 as [|? cs1]; simplify_eq/=; try set_solver);
        simpl in Hlt; rewrite ?elem_of_cons, ?elem_of_nil in Hin;
        (repeat destruct Hin as [->|Hin]); simpl in *; try lia; done.
Qed.

(** [prepare_next_task] takes a single round: the thread it just picked is
    [RUNNING], so the test for [DYING] always passes. *)
Lemma prepare_next_task_spec s :
  rq_inv s → ready_seq s ≠ [] →
  ∃ c p rest s', c ≠ BOT ∧ prepare_next_task s = Fin (Ok p) s' ∧ picked s c p rest s' ∧ top_class s c.
Proof.
  intros H Hne. destruct (pick_next_task_spec s H) as [[? _]|(c & p & rest & s' & Hc & E & Hpk & Htop)]; [done|].
  exists c, p, rest, s'. split_and!; try done. unfold prepare_next_task. simpl.
  unfold mbind, M_bind. rewrite E. unfold can_schedule_tcb.
  destruct (pk_tcb _ _ _ _ _ Hpk) as (t & Ht & _ & _ & Et).
  destruct (hw_thread _ (rq_heap _ H) _ _ Ht) as [Hp0 _].
  rewrite (proj2 (Z.eqb_neq p 0)) by done. unfold mbind, M_bind.
  erewrite get_tcb_run by (rewrite Et; apply lookup_insert_eq).
  by destruct (decide (c = RR)).
Qed.

(** Updating a thread that is not in a ready queue. *)
Lemma rq_inv_upd s p t u :
  rq_inv s → tcbs s !! p = Some t → p ∉ ready_seq s → same_shape t u →
  rq_inv (set_tcbs <[p := u]> s).
Proof.
  intros H Hp Hn Hsh. pose proof H as [Hh Hnd Hu Hr]. split; simpl.
  - by eapply heap_wf_upd.
  - done.
  - intros c q Hq. destruct (decide (q = p)) as [->|Hne].
    + exfalso. apply Hn. by apply (elem_class_ready s c).
    + rewrite lookup_insert_ne by done. by apply Hu.
  - intros r v Hrn Hv. apply (role_keep s (set_tcbs <[p := u]> s) p t u r v); done.
Qed.

(** [put_prev] of the old thread: it joins its class when it can still run, and
    is left alone when it waits or is dying. *)
Lemma prepare_prev_spec s p t :
  rq_inv s → tcbs s !! p = Some t → p ∉ ready_seq s →
  (t_state t = RUNNING ∨ t_state t = DYING ∨ is_waiting (t_state t) = true) →
  if decide (t_state t = RUNNING)
  then ∃ s', prepare_prev_task p s = Fin (Ok tt) s' ∧ enqueued s (schd_class t) p t s'
  else prepare_prev_task p s = Fin (Ok tt) s.
Proof.
  intros H Hp Hn Hst. destruct (hw_thread _ (rq_heap _ H) _ _ Hp) as (Hp0 & Hb & _).
  unfold prepare_prev_task. rewrite (proj2 (Z.eqb_neq p 0)) by done.
  unfold mbind, M_bind. rewrite (get_tcb_run _ _ _ Hp).
  destruct (decide (t_state t = RUNNING)) as [E|E].
  - rewrite E. simpl. unfold can_schedule_tcb. rewrite (proj2 (Z.eqb_neq p 0)) by done.
    unfold mbind, M_bind. rewrite (get_tcb_run _ _ _ Hp), E. simpl.
    assert (Es : schd (schd_class t) = Ok (schd_class t)) by (by destruct (schd_class t)).
    rewrite Es, put_prev_enqueue. simpl. by apply cls_enqueue_spec.
  - destruct Hst as [?|[Hd|Hw]]; [done| |].
    + rewrite Hd. simpl. done.
    + by rewrite Hw.
Qed.

(** ** The scheduling decision *)

(** What a rescheduling does: the threads that can run are the ones that could
    before, one of them is now current and runs, and no ready thread is of a
    higher class. *)
Definition rescheduled (s s' : sched) : Prop :=
  ∃ t, tcbs s !! current_tcb s = Some t ∧ flags_check FLAGS_NEED_RESCHED t = true ∧
    current_tcb s' :: ready_seq s' ≡ₚ
      (if decide (t_state t = RUNNING) then [current_tcb s] else []) ++ ready_seq s ∧
    ∃ u, tcbs s' !! current_tcb s' = Some u ∧ t_state u = RUNNING ∧
      ∀ q tq, q ∈ ready_seq s' → tcbs s' !! q = Some tq →
        class_val (schd_class tq) <= class_val (schd_class u).

(** The second half of [schedule]: from a run queue [s1] that contains the idle
    thread, pick and switch. *)
Lemma pick_and_switch s1 :
  rq_inv s1 → idle_ready s1 ≠ 0 →
  ∃ p s2, prepare_next_task s1 = Fin (Ok p) s2 ∧ current_tcb s2 = current_tcb s1 ∧
    sched_inv (set_current p s2) ∧ ready_seq s1 ≡ₚ p :: ready_seq s2 ∧
    wait_queues s2 = wait_queues s1 ∧ (∀ x, x ≠ p → tcbs s2 !! x = tcbs s1 !! x) ∧
    ∃ u, tcbs s2 !! p = Some u ∧ t_state u = RUNNING ∧
      ∀ q tq, q ∈ ready_seq s2 → tcbs s2 !! q = Some tq →
        class_val (schd_class tq) <= class_val (schd_class u).
Proof.
  intros H Hidle. assert (Hne : ready_seq s1 ≠ []).
  { intros E. assert (Hin : idle_ready s1 ∈ ready_seq s1).
    { apply (elem_class_ready _ IDLE). simpl. by rewrite opt_ptr_elem. }
    rewrite E in Hin. by apply not_elem_of_nil in Hin. }
  destruct (prepare_next_task_spec s1 H Hne) as (c & p & rest & s2 & Hc & E & Hpk & Htop).
  destruct (rq_inv_picked _ _ _ _ _ H Hc Hpk) as [H2 Hni].
  pose proof (picked_ready _ _ _ _ _ Hc Hpk) as Hperm.
  pose proof (pk_tcb _ _ _ _ _ Hpk) as (t & Ht & Hst & Hcl & Et).
  set (u := (if decide (c = RR) then set_slice TIME_SLICES else id) (set_state RUNNING t)) in *.
  assert (Hu : t_state u = RUNNING ∧ schd_class u = c).
  { subst u. destruct (decide (c = RR)); simpl; done. }
  assert (Hp2 : tcbs s2 !! p = Some u) by by rewrite Et, lookup_insert_eq.
  destruct (hw_thread _ (rq_heap _ H2) _ _ Hp2) as [Hp0 _].
  exists p, s2. split_and!; [done|apply Hpk| |done|apply Hpk| |].
  - split; simpl.
    + by destruct H2; split.
    + intros _. exists u. split_and!; [done|left; apply Hu|done].
    + destruct (decide (c = IDLE)) as [Hi|Hi].
      * right. exists u. split_and!; [done|done|]. destruct Hu. congruence.
      * left. rewrite (pk_idle _ _ _ _ _ Hpk Hi). done.
  - intros x Hx. by rewrite Et, lookup_insert_ne.
  - exists u. split_and!; [done|apply Hu|]. intros q tq Hq Htq.
    apply elem_ready_class in Hq as (c' & _ & Hq').
    destruct (rq_unit _ H2 _ _ Hq') as (tq' & Htq' & _ & Ecq).
    assert (tq' = tq) as -> by congruence. subst c'.
    destruct Hu as [_ ->]. destruct (Z.le_gt_cases (class_val (schd_class tq)) (class_val c)) as [|Hgt]; [done|].
    exfalso. assert (Hne' : schd_class tq ≠ c) by (intros Ex; rewrite Ex in Hgt; lia).
    rewrite (pk_other _ _ _ _ _ Hpk _ Hne'), (Htop _ Hgt) in Hq'. by apply not_elem_of_nil in Hq'.
Qed.

(** The first half of [schedule]: the flag is cleared and the old thread put
    back.  Afterwards the idle thread is ready. *)
Lemma put_prev_half s t :
  sched_inv s → current_tcb s ≠ 0 → tcbs s !! current_tcb s = Some t →
  ∃ s1 s2, upd_tcb (current_tcb s) (flags_reset FLAGS_NEED_RESCHED) s = Fin (Ok tt) s1 ∧
    prepare_prev_task (current_tcb s) s1 = Fin (Ok tt) s2 ∧ rq_inv s2 ∧
    idle_ready s2 ≠ 0 ∧ current_tcb s2 = current_tcb s ∧
    ready_seq s2 ≡ₚ (if decide (t_state t = RUNNING) then [current_tcb s] else []) ++ ready_seq s ∧
    (t_state t = RUNNING → enqueued s1 (schd_class t) (current_tcb s)
                             (flags_reset FLAGS_NEED_RESCHED t) s2) ∧
    (∀ c, class_seq s1 c = class_seq s c) ∧ wait_queues s2 = wait_queues s ∧
    (∀ x, x ≠ current_tcb s → tcbs s2 !! x = tcbs s !! x) ∧
    (t_state t ≠ RUNNING → tcbs s2 !! current_tcb s = Some (flags_reset FLAGS_NEED_RESCHED t)).
Proof.
  intros [Hrq Hcur Hidle] E0 Ht. destruct (Hcur E0) as (t' & Ht' & Hst & Hni). simplify_eq.
  set (t1 := flags_reset FLAGS_NEED_RESCHED t). set (s1 := set_tcbs <[current_tcb s := t1]> s).
  assert (H1 : rq_inv s1) by (apply (rq_inv_upd s (current_tcb s) t t1); [done|done|done|by split]).
  assert (Ht1 : tcbs s1 !! current_tcb s = Some t1) by apply lookup_insert_eq.
  pose proof (prepare_prev_spec s1 (current_tcb s) t1 H1 Ht1 Hni) as Hprev.
  exists s1. destruct (decide (t_state t = RUNNING)) as [Er|Er].
  - destruct (decide (t_state t1 = RUNNING)) as [_|Hx]; [|by destruct Hx].
    destruct Hprev as (s2 & E2 & Hen); [by left|]. exists s2.
    pose proof (en_added _ _ _ _ _ Hen) as Ha.
    split_and!; [by apply upd_tcb_run|done|apply Hen| | | |done|by intros []|apply (ad_queues _ _ _ _ _ Ha)| |done].
    + apply (en_idle _ _ _ _ _ Hen). destruct Hidle as [Hi|(t' & _ & Ht'' & Hti)]; [by right|left].
      by simplify_eq.
    + apply (ad_current _ _ _ _ _ (en_added _ _ _ _ _ Hen)).
    + apply (added_ready s1 (schd_class t1) (current_tcb s) (set_state READY t1)); [|apply Hen].
      apply (hw_thread _ (rq_heap _ H1) _ _ Ht1).
    + intros x Hx. rewrite (ad_tcbs _ _ _ _ _ Ha). simpl. by rewrite !lookup_insert_ne.
  - destruct (decide (t_state t1 = RUNNING)) as [Hx|_]; [by destruct Er|].
    exists s1. split_and!; [by apply upd_tcb_run| |done| |done|done|done|by intros []|done| |done].
    + apply Hprev. destruct Hst as [?|[[? _]|[? _]]]; auto.
    + destruct Hidle as [Hi|(t' & _ & Ht'' & Hti)]; [done|]. exfalso. simplify_eq.
      destruct Hst as [?|[[_ ?]|[_ ?]]]; done.
    + intros x Hx. simpl. by rewrite lookup_insert_ne.
Qed.

(** Nothing else changes: wait queues, and threads other than the old and the
    new one; an old thread that does not run any more only loses its flag. *)
Definition resched_frame (s s' : sched) : Prop :=
  wait_queues s' = wait_queues s ∧ current_tcb s' ≠ 0 ∧
  (∀ x, x ≠ current_tcb s → x ≠ current_tcb s' → tcbs s' !! x = tcbs s !! x) ∧
  ∀ t, tcbs s !! current_tcb s = Some t → t_state t ≠ RUNNING →
    current_tcb s' ≠ current_tcb s ∧
    tcbs s' !! current_tcb s = Some (flags_reset FLAGS_NEED_RESCHED t).

Lemma switch_to_run s prev next t u :
  heap_wf (tcbs s) → tcbs s !! prev = Some t → tcbs s !! next = Some u →
  switch_to prev next s = Fin (Ok tt) (set_current next s).
Proof.
  intros Hh Ht Hu. destruct (hw_thread _ Hh _ _ Ht) as (Hp & _ & _ & Et), (hw_thread _ Hh _ _ Hu) as (Hn & _ & _ & Eu).
  assert (Hyes : ∀ b (s0 : sched), b = true → massert b s0 = Fin (Ok tt) s0) by (by intros b s0 ->).
  assert (Hnz : ∀ x, x ≠ 0 → negb (x =? 0) = true) by (intros x Hx; by rewrite (proj2 (Z.eqb_neq x 0))).
  unfold switch_to. rewrite (bind_run _ _ _ _ _ (Hyes _ s (Hnz _ Hp))), (bind_run _ _ _ _ _ (Hyes _ s (Hnz _ Hn))).
  rewrite (bind_run _ _ _ _ _ (get_tcb_run _ _ _ Ht)), (bind_run _ _ _ _ _ (Hyes _ s Et)).
  rewrite (bind_run _ _ _ _ _ (get_tcb_run _ _ _ Hu)), (bind_run _ _ _ _ _ (Hyes _ s Eu)).
  rewrite (bind_run (prepare_switch next) _ _ tt (set_current next s) eq_refl).
  rewrite (bind_run (gets current_tcb) _ (set_current next s) next (set_current next s) eq_refl), (bind_run _ _ _ _ _ (Hyes _ _ (Hnz _ Hn))).
  rewrite (bind_run (get_tcb next) _ (set_current next s) u _ (get_tcb_run (set_current next s) _ _ Hu)). by apply Hyes.
Qed.

(** [schedule] when nothing holds it back. *)
Lemma schedule_resched s b t :
  sched_inv s → current_tcb s ≠ 0 → tcbs s !! current_tcb s = Some t →
  flags_check FLAGS_NEED_RESCHED t = true →
  negb b && negb (is_waiting (t_state t)) && flags_check FLAGS_PREEMPT_DISABLED t = false →
  ∃ s', schedule b s = Fin (Ok tt) s' ∧ sched_inv s' ∧ rescheduled s s' ∧ resched_frame s s'.
Proof.
  intros H E0 Ht Ef Eb.
  destruct (put_prev_half s t H E0 Ht)
    as (s1 & s2 & E1 & E2 & H2 & Hi2 & Hc2 & Hp2 & Hen & _ & Hq2 & Hx2 & Hcu2).
  destruct (pick_and_switch s2 H2 Hi2)
    as (p & s3 & E3 & Hc3 & H3 & Hp3 & Hq3 & Hx3 & u & Hu & Hur & Htop).
  exists (set_current p s3).
  assert (Hpin : p ∈ (if decide (t_state t = RUNNING) then [current_tcb s] else []) ++ ready_seq s)
    by (rewrite <- Hp2, Hp3; left).
  assert (Hold : is_Some (tcbs s2 !! current_tcb s)).
  { destruct (decide (t_state t = RUNNING)) as [Er|Er]; [|by eexists; apply Hcu2].
    rewrite (ad_tcbs _ _ _ _ _ (en_added _ _ _ _ _ (Hen Er))), lookup_insert_eq. by eexists. }
  split_and!; [|done| |].
  - unfold schedule, mbind, M_bind, gets. rewrite (proj2 (Z.eqb_neq _ 0)) by done.
    rewrite (get_tcb_run _ _ _ Ht), Eb, Ef. cbn [negb]. rewrite E1. unfold attempt. rewrite E2, E3.
    destruct (Z.eqb_spec (current_tcb s) p) as [Ep|Ep]; cbn [negb].
    + unfold mret, M_ret. f_equal. destruct s3; simpl in *. unfold set_current; simpl. congruence.
    + destruct Hold as [w Hw]. rewrite <- (Hx3 _ Ep) in Hw.
      by apply (switch_to_run s3 _ _ w u (rq_heap _ (si_rq _ H3))).
  - exists t. split_and!; [done|done| |exists u; by split_and!]. simpl. by rewrite <- Hp2, Hp3.
  - unfold resched_frame; simpl. split_and!; [congruence| | |].
    + destruct (hw_thread _ (rq_heap _ (si_rq _ H3)) _ _ Hu). done.
    + intros x Hx1 Hx. rewrite Hx3, Hx2 by done. done.
    + intros t' Ht' Hnr. simplify_eq. rewrite decide_False in Hpin by done.
      destruct (si_cur _ H E0) as (t' & Ht'' & _ & Hni).
      assert (p ≠ current_tcb s) by (intros ->; done). split; [done|].
      rewrite Hx3 by done. by apply Hcu2.
Qed.

(** C8: a scheduling decision is sound.  From any consistent state [schedule]
    returns without a panic; when it reschedules, the set of threads that can
    run is exactly the one before (nothing is lost or duplicated; a waiting or
    dying thread is dropped), the chosen thread is marked running, and no ready
    thread has a higher class (RT > INIT > RR > FCFS > IDLE). *)
Theorem schedule_sound s b :
  sched_inv s →
  ∃ s', schedule b s = Fin (Ok tt) s' ∧ sched_inv s' ∧ (s' = s ∨ rescheduled s s').
Proof.
  intros H. destruct (Z.eq_dec (current_tcb s) 0) as [E0|E0].
  { exists s. unfold schedule, mbind, M_bind, gets. rewrite E0. by split_and!; [| |left]. }
  destruct (si_cur _ H E0) as (t & Ht & _).
  destruct (negb b && negb (is_waiting (t_state t)) && flags_check FLAGS_PREEMPT_DISABLED t) eqn:Eb;
    [|destruct (flags_check FLAGS_NEED_RESCHED t) eqn:Ef].
  - exists s. unfold schedule, mbind, M_bind, gets. rewrite (proj2 (Z.eqb_neq _ 0)) by done.
    rewrite (get_tcb_run _ _ _ Ht), Eb. by split_and!; [| |left].
  - destruct (schedule_resched s b t H E0 Ht Ef Eb) as (s' & E & H' & Hr & _).
    exists s'. by split_and!; [| |right].
  - exists s. unfold schedule, mbind, M_bind, gets. rewrite (proj2 (Z.eqb_neq _ 0)) by done.
    rewrite (get_tcb_run _ _ _ Ht), Eb, Ef. by split_and!; [| |left].
Qed.

(** Round robin.  When the current round-robin thread's slice is over and no
    thread of a higher class is ready, [schedule] puts it at the back of its
    queue and runs the thread at the front, with a fresh slice of
    [TIME_SLICES] ticks. *)
Theorem rr_rotation s t :
  sched_inv s → current_tcb s ≠ 0 → tcbs s !! current_tcb s = Some t →
  t_state t = RUNNING → schd_class t = RR → flags_check FLAGS_NEED_RESCHED t = true →
  rt_list s = [] → kinit_ready s = 0 → init_ready s = 0 →
  ∃ s' u, schedule true s = Fin (Ok tt) s' ∧
    rr_list s ++ [current_tcb s] = current_tcb s' :: rr_list s' ∧
    tcbs s' !! current_tcb s' = Some u ∧ slice_cnt u = TIME_SLICES.
Proof.
  intros H E0 Ht Hst Hcl Hf Hrt Hk Hi.
  destruct (put_prev_half s t H E0 Ht) as (s1 & s2 & E1 & E2 & H2 & Hi2 & Hc2 & _ & Hen & Hseq & _).
  specialize (Hen Hst). rewrite Hcl in Hen.
  pose proof (en_fifo _ _ _ _ _ Hen (or_intror (or_introl eq_refl))) as Hrr.
  rewrite Hseq in Hrr. simpl in Hrr.
  pose proof (ad_other _ _ _ _ _ (en_added _ _ _ _ _ Hen)) as Ho.
  assert (Hrt2 : class_seq s2 RT = []) by (rewrite Ho, Hseq by done; exact Hrt).
  assert (Hin2 : class_seq s2 INIT = []) by (rewrite Ho, Hseq by done; simpl; by rewrite Hk, Hi).
  unfold schedule, mbind, M_bind, gets. rewrite (proj2 (Z.eqb_neq _ 0)) by done.
  rewrite (get_tcb_run _ _ _ Ht), Hf. cbn [negb andb]. rewrite E1. unfold attempt. rewrite E2.
  assert (Hne : ready_seq s2 ≠ []).
  { unfold ready_seq. rewrite Hrt2, Hin2. simpl. rewrite Hrr. by destruct (rr_list s). }
  destruct (prepare_next_task_spec s2 H2 Hne) as (c & p & rest & s3 & Hc & E3 & Hpk & Htop).
  assert (c = RR) as ->.
  { pose proof (pk_head _ _ _ _ _ Hpk) as Hh. destruct c; try done; try congruence.
    - specialize (Htop RR ltac:(simpl; lia)). simpl in Htop. rewrite Htop in Hrr. by destruct (rr_list s).
    - specialize (Htop RR ltac:(simpl; lia)). simpl in Htop. rewrite Htop in Hrr. by destruct (rr_list s). }
  rewrite E3. pose proof (pk_head _ _ _ _ _ Hpk) as Hh. pose proof (pk_class _ _ _ _ _ Hpk) as Hr3.
  simpl in Hh, Hr3. rewrite Hrr in Hh. pose proof (pk_tcb _ _ _ _ _ Hpk) as (v & _ & _ & _ & Et).
  rewrite decide_True in Et by done.
  assert (Hu : tcbs s3 !! p = Some (set_slice TIME_SLICES (set_state RUNNING v)))
    by by rewrite Et, lookup_insert_eq.
  pose proof (pk_current _ _ _ _ _ Hpk) as Hc3.
  destruct (Z.eqb_spec (current_tcb s) p) as [Ep|Ep]; simpl.
  - eexists s3, _. rewrite Hc3, Hc2, Hr3, Ep. split_and!; [done|congruence|done|done].
  - assert (Hold : tcbs s3 !! current_tcb s = tcbs s2 !! current_tcb s) by by rewrite Et, lookup_insert_ne.
    rewrite (ad_tcbs _ _ _ _ _ (en_added _ _ _ _ _ Hen)), lookup_insert_eq in Hold.
    destruct (rq_inv_picked _ _ _ _ _ H2 Hc Hpk) as [H3 _].
    rewrite (switch_to_run s3 _ _ _ _ (rq_heap _ H3) Hold Hu).
    eexists _, _. split_and!; [done| |done|done]. simpl. by rewrite Hr3.
Qed.

Lemma flags_set_check f t : flags_check f (flags_set f t) = true.
Proof.
  unfold flags_check, flags_set; simpl. apply Z.eqb_eq. apply Z.bits_inj'. intros m Hm.
  rewrite Z.land_spec, Z.lor_spec. by destruct (Z.testbit (t_flags t) m), (Z.testbit f m).
Qed.

(** One tick of a thread whose slice is not negative. *)
Lemma rr_tick_spec t :
  0 <= slice_cnt t →
  slice_cnt (rr_tick t) = Z.max (slice_cnt t - 1) 0 ∧
  flags_check FLAGS_NEED_RESCHED (rr_tick t) =
    (slice_cnt t <=? 1) || flags_check FLAGS_NEED_RESCHED t.
Proof.
  intros Hs. unfold rr_tick. cbv zeta.
  destruct (Z.ltb_spec 0 (slice_cnt t)), (Z.leb_spec (slice_cnt t) 1);
    [|destruct (Z.eqb_spec (slice_cnt (set_slice (slice_cnt t - 1) t)) 0) as [E|E]| |lia];
    try (simpl in E; lia).
  - assert (E : slice_cnt t = 1) by lia. rewrite E. simpl.
    by rewrite flags_set_check.
  - split; [|done]. change (slice_cnt (set_slice (slice_cnt t - 1) t)) with (slice_cnt t - 1). lia.
  - assert (E : slice_cnt t = 0) by lia. rewrite E. simpl. rewrite E. by rewrite flags_set_check.
Qed.

(** C40: the slice.  After [n] ticks a round-robin thread that started with a
    full slice and no reschedule flag has [max(5 - n, 0)] ticks left, and the
    flag is raised exactly from the fifth tick on. *)
Theorem rr_slice_bound n t :
  slice_cnt t = TIME_SLICES → flags_check FLAGS_NEED_RESCHED t = false →
  slice_cnt (Nat.iter n rr_tick t) = Z.max (TIME_SLICES - Z.of_nat n) 0 ∧
  (flags_check FLAGS_NEED_RESCHED (Nat.iter n rr_tick t) = true ↔ TIME_SLICES <= Z.of_nat n).
Proof.
  intros Hs Hf. unfold TIME_SLICES in *. induction n as [|n [IHs IHf]].
  - simpl. rewrite Hs, Hf. split; [done|]. split; [done|lia].
  - rewrite Nat.iter_succ. destruct (rr_tick_spec (Nat.iter n rr_tick t)) as [E1 E2]; [lia|].
    rewrite E1, E2, orb_true_iff, IHf, IHs, Z.leb_le. lia.
Qed.

(** The flag [check_preempt_curr] leaves on the current thread [cu] when [t] was
    woken. *)
Definition preempt_flag (t cu : TCB) : TCB :=
  if negb (flags_check FLAGS_PREEMPT_DISABLED cu) &&
     (class_val (schd_class cu) <? class_val (schd_class t))
  then flags_set FLAGS_NEED_RESCHED cu else cu.

(** What waking thread [p] does: it is ready, at the back of its class, and the
    current thread is marked for rescheduling exactly when [p] has a higher
    class and preemption is allowed. *)
Definition woken (s : sched) (p : Z) (t : TCB) (s' : sched) : Prop :=
  sched_inv s' ∧ ready_seq s' ≡ₚ p :: ready_seq s ∧ current_tcb s' = current_tcb s ∧
  wait_queues s' = wait_queues s ∧
  (∀ x, x ≠ p → x ≠ current_tcb s → tcbs s' !! x = tcbs s !! x) ∧
  (∃ t', tcbs s' !! p = Some t' ∧ t_state t' = READY) ∧
  (schd_class t = RT ∨ schd_class t = RR ∨ schd_class t = FCFS →
     class_seq s' (schd_class t) = class_seq s (schd_class t) ++ [p]) ∧
  ∀ cu, tcbs s !! current_tcb s = Some cu → tcbs s' !! current_tcb s = Some (preempt_flag t cu).

Lemma waiting_not_ready s p t :
  rq_inv s → tcbs s !! p = Some t → t_state t ≠ READY → p ∉ ready_seq s.
Proof.
  intros H Hp Hst Hin. apply elem_ready_class in Hin as (c & _ & Hin).
  destruct (rq_unit _ H _ _ Hin) as (u & Hu & Hr & _). congruence.
Qed.

Lemma enqueue_spec s p t :
  rq_inv s → tcbs s !! p = Some t → p ∉ ready_seq s →
  ∃ s', enqueue p s = Fin (Ok tt) s' ∧ enqueued s (schd_class t) p t s'.
Proof.
  intros H Hp Hn. destruct (hw_thread _ (rq_heap _ H) _ _ Hp) as (_ & Hb & _).
  unfold enqueue, mbind, M_bind. rewrite (get_tcb_run _ _ _ Hp).
  assert (Es : schd (schd_class t) = Ok (schd_class t)) by by destruct (schd_class t).
  rewrite Es. simpl. by apply cls_enqueue_spec.
Qed.

(** [check_preempt_curr]: the current thread [cu] is flagged or nothing
    happens. *)
Lemma check_preempt_spec s p t cu :
  heap_wf (tcbs s) → tcbs s !! p = Some t → tcbs s !! current_tcb s = Some cu →
  check_preempt_curr p s = Fin (Ok tt)
    (if negb (flags_check FLAGS_PREEMPT_DISABLED cu) &&
        (class_val (schd_class cu) <? class_val (schd_class t))
     then set_tcbs <[current_tcb s := flags_set FLAGS_NEED_RESCHED cu]> s else s).
Proof.
  intros Hh Hp Hc. destruct (hw_thread _ Hh _ _ Hc) as [Hz _].
  destruct (hw_thread _ Hh _ _ Hp) as (_ & Hb & _).
  unfold check_preempt_curr, mbind, M_bind, gets. rewrite (proj2 (Z.eqb_neq _ 0)) by done.
  rewrite (get_tcb_run _ _ _ Hc). destruct (flags_check _ cu); simpl; [done|].
  rewrite (get_tcb_run _ _ _ Hp).
  destruct (Z.leb_spec (class_val (schd_class t)) (class_val (schd_class cu))),
    (Z.ltb_spec (class_val (schd_class cu)) (class_val (schd_class t))); try lia; [done|].
  assert (Es : schd (schd_class t) = Ok (schd_class t)) by by destruct (schd_class t).
  rewrite Es. by apply upd_tcb_run.
Qed.

Lemma check_preempt_keeps s p t :
  rq_inv s → tcbs s !! p = Some t → p ≠ current_tcb s →
  (current_tcb s ≠ 0 → is_Some (tcbs s !! current_tcb s) ∧ current_tcb s ∉ ready_seq s) →
  ∃ s', check_preempt_curr p s = Fin (Ok tt) s' ∧ rq_inv s' ∧
    (∀ c, class_seq s' c = class_seq s c) ∧ idle_ready s' = idle_ready s ∧
    current_tcb s' = current_tcb s ∧ wait_queues s' = wait_queues s ∧
    (∀ x, x ≠ current_tcb s → tcbs s' !! x = tcbs s !! x) ∧
    ∀ cu, tcbs s !! current_tcb s = Some cu → tcbs s' !! current_tcb s = Some (preempt_flag t cu).
Proof.
  intros H Hp Hne Hcur. destruct (Z.eq_dec (current_tcb s) 0) as [Ez|Ez].
  - exists s. unfold check_preempt_curr, mbind, M_bind, gets. rewrite Ez. simpl.
    split_and!; try done. intros cu Hcu. by destruct (hw_thread _ (rq_heap _ H) _ _ Hcu).
  - destruct (Hcur Ez) as [[cu Hcu] Hncu].
    rewrite (check_preempt_spec s p _ cu (rq_heap _ H) Hp Hcu). unfold preempt_flag.
    destruct (negb _ && _) eqn:Ef.
    + eexists. split; [done|]. split_and!; try done; simpl.
      * by apply (rq_inv_upd s _ cu).
      * intros x Hx. by rewrite lookup_insert_ne.
      * intros cu' Hcu'. simplify_eq. by rewrite Ef, lookup_insert_eq.
    + exists s. split_and!; try done. intros cu' Hcu'. simplify_eq. by rewrite Ef.
Qed.

Lemma wakeup_waiting_spec s p t :
  sched_inv s → tcbs s !! p = Some t → is_waiting (t_state t) = true → p ≠ current_tcb s →
  ∃ s', wakeup_waiting p s = Fin (Ok true) s' ∧ woken s p t s'.
Proof.
  intros [Hrq Hcur Hidle] Hp Hw Hne. destruct (hw_thread _ (rq_heap _ Hrq) _ _ Hp) as (Hp0 & Hb & _).
  assert (Hn : p ∉ ready_seq s).
  { apply (waiting_not_ready s p t); [done|done|]. intros E. by rewrite E in Hw. }
  set (s1 := set_tcbs <[p := set_state EMPTY t]> s).
  assert (H1 : rq_inv s1) by (apply (rq_inv_upd s p t); [done|done|done|by split]).
  assert (Hp1 : tcbs s1 !! p = Some (set_state EMPTY t)) by apply lookup_insert_eq.
  destruct (enqueue_spec s1 p _ H1 Hp1 Hn) as (s2 & E2 & Hen). simpl in Hen.
  pose proof (en_added _ _ _ _ _ Hen) as Ha. pose proof (ad_tcbs _ _ _ _ _ Ha) as Et2.
  pose proof (added_ready _ _ _ _ _ Hb Ha) as Hperm.
  assert (Hp2 : tcbs s2 !! p = Some (set_state READY t)) by by rewrite Et2, lookup_insert_eq.
  assert (Hcu2 : ∀ q, q ≠ p → tcbs s2 !! q = tcbs s !! q).
  { intros q Hq. rewrite Et2. simpl. by rewrite !lookup_insert_ne. }
  assert (Hc2 : current_tcb s2 = current_tcb s) by apply (ad_current _ _ _ _ _ Ha).
  destruct (check_preempt_keeps s2 p (set_state READY t)) as (s3 & E3 & H3 & Hs3 & Hi3 & Hc3 & Hq3 & Hx3 & Hcu3);
    [apply Hen|done|congruence| |].
  { rewrite Hc2. intros Ez. destruct (Hcur Ez) as (cu & Hcu & _ & Hncu).
    rewrite Hcu2, Hcu, Hperm, not_elem_of_cons by done. split; [done|split; [congruence|done]]. }
  rewrite Hc2, Hcu2 in Hcu3 by done.
  assert (Er3 : ready_seq s3 ≡ₚ p :: ready_seq s).
  { unfold ready_seq at 1. rewrite !Hs3. exact Hperm. }
  exists s3. split.
  - unfold wakeup_waiting. rewrite (proj2 (Z.eqb_neq p 0)) by done. unfold mbind, M_bind.
    rewrite (get_tcb_run _ _ _ Hp), Hw. rewrite bool_decide_eq_false_2 by (intros E; by rewrite E in Hw).
    simpl. rewrite (upd_tcb_run _ _ _ _ Hp). fold s1.
    unfold wakeup, try_wakeup, attempt, mbind, M_bind. by rewrite E2, E3.
  - assert (Hp3 : tcbs s3 !! p = Some (set_state READY t)) by (rewrite Hx3 by congruence; done).
    split_and!; try done; [|congruence|by rewrite Hq3, (ad_queues _ _ _ _ _ Ha)| |by eexists|].
    + split; [done| |].
      * rewrite Hc3, Hc2. intros Ez. destruct (Hcur Ez) as (cu & Hcu & Hst & Hncu).
        eexists. split; [by apply Hcu3|]. split.
        -- unfold preempt_flag. by destruct (negb _ && _).
        -- rewrite Er3, not_elem_of_cons. split; [congruence|done].
      * rewrite Hc3, Hc2. destruct Hidle as [Hi|(cu & Hz & Hcu & Hci)].
        -- left. rewrite Hi3. apply (en_idle _ _ _ _ _ Hen). by right.
        -- right. eexists. split_and!; [done|by apply Hcu3|].
           unfold preempt_flag. by destruct (negb _ && _).
    + intros x Hxp Hxc. rewrite Hx3 by congruence. by apply Hcu2.
    + intros Hl. rewrite Hs3. by apply (en_fifo _ _ _ _ _ Hen).
Qed.

(** ** Witnesses

    Idle thread 1, round-robin threads 3 (running, slice used up) and 4 (ready),
    FCFS thread 5 (ready). *)
Module SchedWitness.
Definition mk (st : ThreadState) (fl : Z) (c : ClassType) : TCB := mkTCB st fl c ROLE_NONE 5 0 None true.
Definition ex_sched : sched :=
  mkSched (<[1 := mk READY 0 IDLE]> (<[3 := mk RUNNING 1 RR]> (<[4 := mk READY 0 RR]>
            {[5 := mk READY 0 FCFS]}))) [] [5] [4] 0 0 1 {[3 := 3]} 3 ∅ 1.

Lemma ex_tcb p t :
  tcbs ex_sched !! p = Some t →
  (p = 1 ∧ t = mk READY 0 IDLE) ∨ (p = 3 ∧ t = mk RUNNING 1 RR) ∨
  (p = 4 ∧ t = mk READY 0 RR) ∨ (p = 5 ∧ t = mk READY 0 FCFS).
Proof.
  simpl. intros [[<- <-]|[_ H]]%lookup_insert_Some; [tauto|].
  apply lookup_insert_Some in H as [[<- <-]|[_ H]]; [tauto|].
  apply lookup_insert_Some in H as [[<- <-]|[_ H]]; [tauto|].
  apply lookup_singleton_Some in H as [<- <-]. tauto.
Qed.

Lemma ex_class_seq c :
  class_seq ex_sched c = match c with IDLE => [1] | FCFS => [5] | RR => [4] | _ => [] end.
Proof. by destruct c. Qed.

Lemma ex_sched_inv : sched_inv ex_sched.
Proof.
  split; [split; [split| | |]| |].
  - intros p t Ht. apply ex_tcb in Ht. naive_solver.
  - intros p q t u Hp Hq Hc Hor. apply ex_tcb in Hp, Hq. naive_solver.
  - change (ready_seq ex_sched) with [4; 5; 1]. repeat constructor; set_solver.
  - intros c p Hp. rewrite ex_class_seq in Hp.
    destruct c; first [by apply not_elem_of_nil in Hp
                      |apply list_elem_of_singleton in Hp as ->; by eexists].
  - intros r t Hr Ht. apply ex_tcb in Ht. destruct r; simpl in Ht; naive_solver.
  - intros _. exists (mk RUNNING 1 RR). split_and!; [done|by left|].
    change (ready_seq ex_sched) with [4; 5; 1]. simpl. set_solver.
  - by left.
Qed.

Lemma schedule_sound_witness :
  ∃ s', schedule false ex_sched = Fin (Ok tt) s' ∧ sched_inv s' ∧
        (s' = ex_sched ∨ rescheduled ex_sched s').
Proof. apply (schedule_sound ex_sched false ex_sched_inv). Defined.

Lemma rr_rotation_witness :
  ∃ s' u, schedule true ex_sched = Fin (Ok tt) s' ∧ [4; 3] = current_tcb s' :: rr_list s' ∧
    tcbs s' !! current_tcb s' = Some u ∧ slice_cnt u = TIME_SLICES.
Proof.
  apply (rr_rotation ex_sched (mk RUNNING 1 RR) ex_sched_inv);
    [discriminate|reflexivity|reflexivity|reflexivity|reflexivity|reflexivity|reflexivity|reflexivity].
Defined.

Lemma rr_slice_bound_witness :
  slice_cnt (Nat.iter 4 rr_tick (mk RUNNING 0 RR)) = Z.max (TIME_SLICES - 4) 0 ∧
  (flags_check FLAGS_NEED_RESCHED (Nat.iter 4 rr_tick (mk RUNNING 0 RR)) = true ↔ TIME_SLICES <= 4).
Proof. apply (rr_slice_bound 4 (mk RUNNING 0 RR)); reflexivity. Defined.
End SchedWitness.
