(* ===== verification/Wait.v ===== *)
(** * Wait queues

    [WaitReasonManager] of [kernel/task/wait.h] and [wait.cpp], and
    [Scheduler::block_current].  The queues are part of the scheduler state of
    [Sched.v] because waking a thread runs the scheduler.  A wait predicate is a
    function of the thread; the data it reads does not change during one call. *)

From S2P Require Import Prelude ErrCode Sched.

#[local] Open Scope Z_scope.

Definition alloc_reason : M sched Z :=
  n ← gets next_wd;
  _ ← modify (set_next_wd (add64 n 1));
  mret n.

(** [queue_for_wait]: the queue is made on demand; [alloc_ok] is whether its
    allocation succeeds. *)
Definition queue_for_wait (alloc_ok : bool) (wd : Z) : M sched (list Z) :=
  if wd =? 0 then fail INVALID_PARAM
  else
    qs ← gets wait_queues;
    match qs !! wd with
    | Some q => mret q
    | None =>
        if negb alloc_ok then fail OUT_OF_MEMORY
        else _ ← modify (set_queues <[wd := []]>); mret []
    end.

(** [queue_if_exists]: [None] is the null pointer. *)
Definition queue_if_exists (wd : Z) : M sched (option (list Z)) :=
  if wd =? 0 then fail INVALID_PARAM
  else qs ← gets wait_queues; mret (qs !! wd).

Definition put_queue (wd : Z) (q : list Z) : M sched unit := modify (set_queues <[wd := q]>).

Definition wait_enqueue (alloc_ok : bool) (wd p : Z) (predicate : option (Z → bool)) : M sched unit :=
  if p =? 0 then fail NULLPTR
  else
    q ← queue_for_wait alloc_ok wd;
    _ ← upd_tcb p (λ t, set_state UNINTERRUPTIBLE_WAITING (set_wait wd predicate t));
    put_queue wd (push_back p q).

Definition clear_wait_metadata (p : Z) : M sched unit := upd_tcb p (set_wait 0 None).

Definition run_wait_predicate (p : Z) : M sched bool :=
  if p =? 0 then mret false
  else
    t ← get_tcb p;
    match wait_predicate t with
    | None => mret true
    | Some f => mret (f p)
    end.

Definition dispatch_waiter (p : Z) : M sched unit :=
  if p =? 0 then fail NULLPTR
  else
    ok ← wakeup_waiting p;
    if negb ok then fail FAILURE else mret tt.

Definition peek_one (wd : Z) : M sched Z :=
  q ← queue_if_exists wd;
  match q with Some (p :: _) => mret p | _ => mret 0 end.

Definition pop_one (wd : Z) : M sched Z :=
  q ← queue_if_exists wd;
  match q with
  | Some (p :: q) => _ ← put_queue wd q; _ ← clear_wait_metadata p; mret p
  | _ => mret 0
  end.

Definition wait_remove (p : Z) : M sched unit :=
  if p =? 0 then fail NULLPTR
  else
    t ← get_tcb p;
    if wait_wd t =? 0 then mret tt
    else
      q ← queue_if_exists (wait_wd t);
      _ ← (match q with
           | None => mret tt
           | Some q => put_queue (wait_wd t) (list_unlink p q)
           end);
      clear_wait_metadata p.

(** The loop of [wake_one]; the thread first rejected comes back after one
    round. *)
Fixpoint wake_one_loop (fuel : nat) (wd first_rejected : Z) : M sched Z :=
  match fuel with
  | O => no_fuel
  | S fuel =>
      qs ← gets wait_queues;
      match default [] (qs !! wd) with
      | [] => mret 0
      | p :: q =>
          _ ← put_queue wd q;
          if p =? first_rejected then _ ← put_queue wd (push_back p q); mret 0
          else
            ok ← run_wait_predicate p;
            if (ok : bool) then
              _ ← clear_wait_metadata p;
              _ ← dispatch_waiter p;
              mret 1
            else
              _ ← put_queue wd (push_back p q);
              wake_one_loop fuel wd (if first_rejected =? 0 then p else first_rejected)
      end
  end.

Definition wake_one (wd : Z) : M sched Z :=
  q ← queue_if_exists wd;
  match q with
  | None => mret 0
  | Some [] => mret 0
  | Some q => wake_one_loop (2 + length q) wd 0
  end.

(** The loop of [wake_all], [scan_count] rounds. *)
Fixpoint wake_all_loop (scan : nat) (wd count : Z) : M sched Z :=
  match scan with
  | O => mret count
  | S scan =>
      qs ← gets wait_queues;
      match default [] (qs !! wd) with
      | [] => panic
      | p :: q =>
          _ ← put_queue wd q;
          ok ← run_wait_predicate p;
          if negb ok then
            _ ← put_queue wd (push_back p q);
            wake_all_loop scan wd count
          else
            _ ← clear_wait_metadata p;
            _ ← dispatch_waiter p;
            wake_all_loop scan wd (count + 1)
      end
  end.

Definition wake_all (wd : Z) : M sched Z :=
  q ← queue_if_exists wd;
  match q with
  | None => mret 0
  | Some q => wake_all_loop (length q) wd 0
  end.

Definition has_waiting (wd : Z) : M sched bool :=
  r ← attempt (queue_if_exists wd);
  match r with Ok (Some (_ :: _)) => mret true | _ => mret false end.

Definition block_current (alloc_ok : bool) (wd : Z) (predicate : option (Z → bool)) : M sched unit :=
  cur ← gets current_tcb;
  if cur =? 0 then fail INVALID_PARAM
  else
    t ← get_tcb cur;
    if bool_decide (schd_class t = IDLE) then fail INVALID_PARAM
    else
      _ ← wait_enqueue alloc_ok wd cur predicate;
      _ ← upd_tcb cur (flags_set FLAGS_NEED_RESCHED);
      schedule true.

(** ** Invariant *)

(** The threads of a queue are distinct, wait for its descriptor, and none of
    them runs. *)
Record wait_inv (s : sched) : Prop := {
  wi_sched : sched_inv s;
  wi_queue : ∀ wd q, wait_queues s !! wd = Some q → wd ≠ 0 ∧ NoDup q ∧
    ∀ p, p ∈ q → ∃ t, tcbs s !! p = Some t ∧ is_waiting (t_state t) = true ∧
      wait_wd t = wd ∧ p ≠ current_tcb s
}.

(** Does thread [p] of heap [h] accept a wake-up? *)
Definition accepts (h : gmap Z TCB) (p : Z) : bool :=
  match h !! p with
  | None => false
  | Some t => match wait_predicate t with None => true | Some f => f p end
  end.

Lemma run_wait_predicate_run s p t :
  tcbs s !! p = Some t → p ≠ 0 → run_wait_predicate p s = Fin (Ok (accepts (tcbs s) p)) s.
Proof.
  intros Hp Hz. unfold run_wait_predicate, mbind, M_bind. rewrite (proj2 (Z.eqb_neq p 0)) by done.
  rewrite (get_tcb_run _ _ _ Hp). unfold accepts. rewrite Hp. by destruct (wait_predicate t).
Qed.

(** A thread that [wake_*] accepts: its metadata is cleared and it is handed to
    the scheduler.  [q] is what is left in its queue. *)
Record dispatched (s : sched) (wd p : Z) (q : list Z) (s' : sched) : Prop := {
  dp_inv : wait_inv s';
  dp_queues : wait_queues s' = <[wd := q]> (wait_queues s);
  dp_ready : p ∈ ready_seq s';
  dp_perm : ready_seq s' ≡ₚ p :: ready_seq s;
  dp_accepts : ∀ x, x ∈ q → accepts (tcbs s') x = accepts (tcbs s) x;
  dp_current : current_tcb s' = current_tcb s
}.

(** Rewriting a queue to a permutation of a sub-list keeps the invariant. *)
Lemma wait_inv_put s wd q q' :
  wait_inv s → wait_queues s !! wd = Some q → NoDup q' → (∀ x, x ∈ q' → x ∈ q) →
  wait_inv (set_queues <[wd := q']> s).
Proof.
  intros [Hs Hq] Hwd Hn Hsub. split.
  - destruct Hs as [[] Hc Hi]. by split; [split| |].
  - simpl. intros wd' l. destruct (decide (wd' = wd)) as [->|Hne].
    + rewrite lookup_insert_eq. intros [= <-]. destruct (Hq _ _ Hwd) as (Hz & _ & Hall).
      split_and!; auto.
    + rewrite lookup_insert_ne by done. apply Hq.
Qed.

Lemma wait_thread s wd q p :
  wait_inv s → wait_queues s !! wd = Some q → p ∈ q →
  ∃ t, tcbs s !! p = Some t ∧ is_waiting (t_state t) = true ∧ wait_wd t = wd ∧
       p ≠ current_tcb s ∧ p ≠ 0 ∧ p ∉ ready_seq s.
Proof.
  intros [Hs Hq] Hwd Hp. destruct (Hq _ _ Hwd) as (_ & _ & Hall).
  destruct (Hall _ Hp) as (t & Ht & Hw & Hwt & Hne). exists t.
  destruct (hw_thread _ (rq_heap _ (si_rq _ Hs)) _ _ Ht) as [Hz _]. split_and!; try done.
  apply (waiting_not_ready s p t); [apply Hs|done|]. intros E. by rewrite E in Hw.
Qed.

Lemma sched_inv_upd s p t u :
  sched_inv s → tcbs s !! p = Some t → p ∉ ready_seq s → p ≠ current_tcb s → same_shape t u →
  sched_inv (set_tcbs <[p := u]> s).
Proof.
  intros [Hr Hc Hi] Hp Hn Hne Hsh. split.
  - by apply (rq_inv_upd s p t u).
  - simpl. intros Hz. destruct (Hc Hz) as (cu & Hcu & ?). exists cu. by rewrite lookup_insert_ne.
  - simpl. destruct Hi as [|(cu & Hz & Hcu & ?)]; [by left|right]. exists cu.
    by rewrite lookup_insert_ne.
Qed.

(** Waking the thread at the front of a queue succeeds. *)
Lemma dispatch_spec s wd p q q0 :
  wait_inv s → wait_queues s !! wd = Some q0 → p ∈ q0 → NoDup (p :: q) → (∀ x, x ∈ q → x ∈ q0) →
  ∃ s', (_ ← clear_wait_metadata p; dispatch_waiter p) (set_queues <[wd := q]> s) = Fin (Ok tt) s' ∧
        dispatched s wd p q s'.
Proof.
  intros H Hwd Hp Hn Hsub. apply NoDup_cons in Hn as [Hpq Hn].
  pose proof (wait_inv_put s wd q0 q H Hwd Hn Hsub) as H1.
  destruct (wait_thread _ _ _ _ H Hwd Hp) as (t & Ht & Hw & Hwt & Hne & Hz & Hnr).
  set (s1 := set_queues <[wd := q]> s). set (t2 := set_wait 0 None t).
  set (s2 := set_tcbs <[p := t2]> s1).
  assert (H2 : sched_inv s2) by (apply (sched_inv_upd s1 p t t2); [apply H1|done|done|done|by split]).
  assert (Ht2 : tcbs s2 !! p = Some t2) by apply lookup_insert_eq.
  destruct (wakeup_waiting_spec s2 p t2 H2 Ht2 Hw Hne)
    as (s3 & E3 & Hs3 & Hperm & Hc3 & Hq3 & Hx3 & _ & _ & Hcu3).
  change (ready_seq s2) with (ready_seq s) in Hperm.
  assert (Hother : ∀ x, x ≠ p → x ≠ current_tcb s → tcbs s3 !! x = tcbs s !! x).
  { intros x Hxp Hxc. rewrite Hx3 by done. simpl. by rewrite lookup_insert_ne. }
  assert (Hkeep : ∀ wd' l x, wait_queues s !! wd' = Some l → x ∈ l → x ≠ p →
            tcbs s3 !! x = tcbs s !! x).
  { intros wd' l x Hl Hx Hxp. destruct (wait_thread _ _ _ _ H Hl Hx) as (tx & _ & _ & _ & Hxc & _).
    by apply Hother. }
  exists s3. split.
  - unfold mbind, M_bind, clear_wait_metadata, dispatch_waiter.
    rewrite (upd_tcb_run s1 p t) by done. rewrite (proj2 (Z.eqb_neq p 0)) by done.
    unfold mbind, M_bind. fold t2 s2. by rewrite E3.
  - split.
    + split; [done|]. rewrite Hq3. intros wd' l Hl. simpl in Hl.
      assert (Hlq : ∃ l0, wait_queues s !! wd' = Some l0 ∧ wd' ≠ 0 ∧ NoDup l ∧
                (∀ x, x ∈ l → x ∈ l0) ∧ p ∉ l).
      { destruct (decide (wd' = wd)) as [->|Hw'].
        - rewrite lookup_insert_eq in Hl. simplify_eq. exists q0.
          split_and!; try done. apply (wi_queue _ H _ _ Hwd).
        - rewrite lookup_insert_ne in Hl by done. exists l. destruct (wi_queue _ H _ _ Hl) as (? & ? & Hall).
          split_and!; try done. intros Hpl. destruct (Hall _ Hpl) as (t' & Ht' & _ & Hw2 & _). congruence. }
      destruct Hlq as (l0 & Hl0 & Hz' & Hnd & Hin & Hpl). split_and!; [done|done|]. intros x Hx.
      destruct (wait_thread _ _ _ _ H Hl0 (Hin _ Hx)) as (tx & Htx & Hwx & Hwtx & Hxc & _).
      exists tx. rewrite (Hkeep _ _ _ Hl0 (Hin _ Hx)) by (intros ->; done).
      split_and!; try done. by rewrite Hc3.
    + by rewrite Hq3.
    + rewrite Hperm. left.
    + done.
    + intros x Hx. unfold accepts. rewrite (Hkeep _ _ _ Hwd (Hsub _ Hx)); [done|].
      intros ->. done.
    + by rewrite Hc3.
Qed.

(** ** [wake_one] *)

(** Moving the rejected front thread to the back. *)
Lemma rotate_queues wd p q (s : sched) :
  set_queues <[wd := push_back p q]> (set_queues <[wd := q]> s) = set_queues <[wd := push_back p q]> s.
Proof. unfold set_queues; simpl. f_equal. apply insert_insert_eq. Qed.

(** The first element that satisfies [f], with what is around it. *)
Fixpoint split_first (f : Z → bool) (l : list Z) : option (list Z * Z * list Z) :=
  match l with
  | [] => None
  | x :: l =>
      if f x then Some ([], x, l)
      else match split_first f l with
           | None => None
           | Some (pre, y, post) => Some (x :: pre, y, post)
           end
  end.

Lemma wait_inv_rotate s wd p q :
  wait_inv s → wait_queues s !! wd = Some (p :: q) → wait_inv (set_queues <[wd := push_back p q]> s).
Proof.
  intros H Hwd. apply (wait_inv_put s wd (p :: q)); [done|done| |].
  - destruct (wi_queue _ H _ _ Hwd) as (_ & Hn & _). unfold push_back.
    by rewrite Permutation_app_comm.
  - unfold push_back. intros x. set_solver.
Qed.

(** One round of the scan on the front thread [p]. *)
Lemma wake_one_loop_step fuel wd first s p q t :
  wait_queues s !! wd = Some (p :: q) → tcbs s !! p = Some t → p ≠ 0 → p ≠ first →
  wake_one_loop (S fuel) wd first s =
  if accepts (tcbs s) p
  then (_ ← (_ ← clear_wait_metadata p; dispatch_waiter p); mret 1) (set_queues <[wd := q]> s)
  else wake_one_loop fuel wd (if first =? 0 then p else first)
         (set_queues <[wd := push_back p q]> s).
Proof.
  intros Hwd Ht Hp Hne. cbn [wake_one_loop]. unfold mbind, M_bind, gets, put_queue, modify.
  rewrite Hwd. cbn [from_option id]. rewrite (proj2 (Z.eqb_neq p first)) by done.
  rewrite (run_wait_predicate_run (set_queues _ s) p t) by done.
  change (tcbs (set_queues <[wd := q]> s)) with (tcbs s).
  destruct (accepts (tcbs s) p); [|by rewrite rotate_queues].
  by destruct (clear_wait_metadata p _) as [[]| |].
Qed.

(** The scan: [done] was rejected already and queued again behind [todo]. *)
Lemma wake_one_loop_spec todo done wd s fuel :
  wait_inv s → wait_queues s !! wd = Some (todo ++ done) → todo ++ done ≠ [] →
  (length todo < fuel)%nat →
  match split_first (accepts (tcbs s)) todo with
  | Some (pre, x, post) =>
      ∃ s', wake_one_loop fuel wd (hd 0 done) s = Fin (Ok 1) s' ∧
            dispatched s wd x (post ++ done ++ pre) s'
  | None =>
      wake_one_loop fuel wd (hd 0 done) s =
      Fin (Ok 0) (set_queues <[wd := tl (done ++ todo) ++ [hd 0 (done ++ todo)]]> s)
  end.
Proof.
  revert done s fuel. induction todo as [|p todo IH]; intros done s fuel H Hwd Hne Hf;
    (destruct fuel as [|fuel]; [simpl in Hf; lia|]).
  - simpl in *. destruct done as [|p q]; [done|]. unfold mbind, M_bind, gets, put_queue, modify.
    rewrite Hwd. simpl. rewrite Z.eqb_refl, rotate_queues, app_nil_r. done.
  - destruct (wi_queue _ H _ _ Hwd) as (Hz & Hn & _).
    destruct (wait_thread s wd _ p H Hwd) as (t & Ht & Hw & Hwt & Hnc & Hp0 & Hnr); [left|].
    assert (Hhd : p ≠ hd 0 done).
    { simpl in Hn. apply NoDup_cons in Hn as [Hn _]. destruct done as [|y done]; simpl; [done|].
      intros ->. apply Hn. set_solver. }
    rewrite (wake_one_loop_step _ _ _ _ p (todo ++ done) t) by done. simpl split_first.
    destruct (accepts (tcbs s) p) eqn:Ea.
    + destruct (dispatch_spec s wd p (todo ++ done) _ H Hwd) as (s' & E & Hd);
        [left|done|intros; by right|].
      exists s'. rewrite app_nil_r. split; [|done]. unfold mbind at 1, M_bind at 1. by rewrite E.
    + set (s1 := set_queues <[wd := push_back p (todo ++ done)]> s).
      assert (H1 : wait_inv s1) by by apply wait_inv_rotate.
      assert (Hwd1 : wait_queues s1 !! wd = Some (todo ++ (done ++ [p]))).
      { simpl. rewrite lookup_insert_eq. unfold push_back. by rewrite app_assoc. }
      assert (Ehd : (if hd 0 done =? 0 then p else hd 0 done) = hd 0 (done ++ [p])).
      { destruct done as [|y done]; [done|]. simpl.
        destruct (wait_thread s wd _ y H Hwd) as (ty & _ & _ & _ & _ & Hy0 & _); [set_solver|].
        by rewrite (proj2 (Z.eqb_neq y 0)). }
      rewrite Ehd. specialize (IH (done ++ [p]) s1 fuel H1 Hwd1).
      change (tcbs s1) with (tcbs s) in IH. simpl in Hf.
      assert (Ht1 : todo ++ done ++ [p] ≠ []) by (destruct todo, done; done).
      specialize (IH Ht1 ltac:(lia)).
      destruct (split_first (accepts (tcbs s)) todo) as [[[pre x] post]|].
      * destruct IH as (s' & E & Hd). exists s'. split; [done|].
        rewrite <- app_assoc in Hd. simpl in Hd.
        destruct Hd as [D1 D2 D3 D4 D5 D6]. split; try done.
        rewrite D2. simpl. by rewrite insert_insert_eq.
      * rewrite IH. f_equal. unfold s1, set_queues; simpl. f_equal.
        rewrite insert_insert_eq. by rewrite <- app_assoc.
Qed.

(** [wake_one] scans the queue once from the front and wakes the first
    thread that accepts; the threads it rejected go behind the ones it did not
    look at.  When every thread rejects, it returns 0 and the queue is rotated
    by one (the oldest waiter becomes the youngest).  The loop always ends. *)
Theorem wake_one_spec s wd q :
  wait_inv s → wait_queues s !! wd = Some q → q ≠ [] →
  match split_first (accepts (tcbs s)) q with
  | Some (pre, x, post) =>
      ∃ s', wake_one wd s = Fin (Ok 1) s' ∧ dispatched s wd x (post ++ pre) s'
  | None =>
      wake_one wd s = Fin (Ok 0) (set_queues <[wd := tl q ++ [hd 0 q]]> s)
  end.
Proof.
  intros H Hwd Hne. destruct (wi_queue _ H _ _ Hwd) as (Hz & _ & _).
  assert (E : wake_one wd s = wake_one_loop (2 + length q) wd (hd 0 []) s).
  { unfold wake_one, queue_if_exists, mbind, M_bind, gets.
    rewrite (proj2 (Z.eqb_neq wd 0)) by done. rewrite Hwd. by destruct q. }
  rewrite E. pose proof (wake_one_loop_spec q [] wd s (2 + length q) H) as Hl.
  rewrite app_nil_r in Hl. specialize (Hl Hwd Hne ltac:(lia)). exact Hl.
Qed.

(** ** [wake_all] *)

(** Outcome of waking the accepting threads [ys] and keeping [q]. *)
Record all_dispatched (s : sched) (wd : Z) (ys q : list Z) (s' : sched) : Prop := {
  al_inv : wait_inv s';
  al_queues : wait_queues s' = <[wd := q]> (wait_queues s);
  al_perm : ready_seq s' ≡ₚ ys ++ ready_seq s;
  al_current : current_tcb s' = current_tcb s
}.

Lemma filter_ext_in (f g : Z → Prop) `{∀ x, Decision (f x)} `{∀ x, Decision (g x)} (l : list Z) :
  (∀ x, x ∈ l → f x ↔ g x) → filter f l = filter g l.
Proof.
  induction l as [|x l IH]; intros Hl; [done|]. rewrite !filter_cons.
  rewrite IH by (intros y Hy; apply Hl; by right).
  destruct (decide (f x)) as [Hf|Hf], (decide (g x)) as [Hg|Hg]; try done;
    exfalso; [apply Hg|apply Hf]; apply Hl; (left || done).
Qed.

Lemma wake_all_loop_step n wd count s p q t :
  wait_queues s !! wd = Some (p :: q) → tcbs s !! p = Some t → p ≠ 0 →
  wake_all_loop (S n) wd count s =
  if accepts (tcbs s) p
  then (_ ← (_ ← clear_wait_metadata p; dispatch_waiter p); wake_all_loop n wd (count + 1))
         (set_queues <[wd := q]> s)
  else wake_all_loop n wd count (set_queues <[wd := push_back p q]> s).
Proof.
  intros Hwd Ht Hp. cbn [wake_all_loop]. unfold mbind, M_bind, gets, put_queue, modify.
  rewrite Hwd. cbn [from_option id]. rewrite (run_wait_predicate_run (set_queues _ s) p t) by done.
  change (tcbs (set_queues <[wd := q]> s)) with (tcbs s).
  destruct (accepts (tcbs s) p); cbn [negb]; [by destruct (clear_wait_metadata p _) as [[]| |]|].
  by rewrite rotate_queues.
Qed.

Lemma wake_all_loop_spec todo done wd s n :
  wait_inv s → wait_queues s !! wd = Some (todo ++ done) →
  ∃ s', wake_all_loop (length todo) wd n s =
          Fin (Ok (n + Z.of_nat (length (filter (λ x, accepts (tcbs s) x = true) todo)))) s' ∧
        all_dispatched s wd (filter (λ x, accepts (tcbs s) x = true) todo)
          (done ++ filter (λ x, accepts (tcbs s) x = false) todo) s'.
Proof.
  revert done s n. induction todo as [|p todo IH]; intros done s n H Hwd.
  - exists s. simpl. rewrite Z.add_0_r, app_nil_r. split; [done|]. split; try done.
    by rewrite insert_id.
  - destruct (wi_queue _ H _ _ Hwd) as (Hz & Hn & _).
    destruct (wait_thread s wd _ p H Hwd) as (t & Ht & Hw & Hwt & Hnc & Hp0 & Hnr); [left|].
    cbn [length]. rewrite (wake_all_loop_step _ _ _ _ p (todo ++ done) t) by done.
    destruct (accepts (tcbs s) p) eqn:Ea.
    + destruct (dispatch_spec s wd p (todo ++ done) _ H Hwd) as (s1 & E & [D1 D2 D3 D4 D5 D6]);
        [left|done|intros; by right|].
      destruct (IH done s1 (n + 1) D1) as (s' & E' & [A1 A2 A3 A4]).
      { by rewrite D2, lookup_insert_eq. }
      assert (Eacc : ∀ b, filter (λ x, accepts (tcbs s1) x = b) todo =
                          filter (λ x, accepts (tcbs s) x = b) todo).
      { intros b. apply filter_ext_in. intros x Hx. rewrite D5; [done|]. set_solver. }
      rewrite !Eacc in *. exists s'.
      rewrite filter_cons_True by done. rewrite (filter_cons_False _ p) by congruence. split.
      * unfold mbind at 1, M_bind at 1. rewrite E, E'. do 2 f_equal. simpl. lia.
      * split; try done.
        -- by rewrite A2, D2, insert_insert_eq.
        -- rewrite A3, D4. simpl. by rewrite Permutation_middle.
        -- congruence.
    + set (s1 := set_queues <[wd := push_back p (todo ++ done)]> s).
      assert (H1 : wait_inv s1) by by apply wait_inv_rotate.
      destruct (IH (done ++ [p]) s1 n H1) as (s' & E' & [A1 A2 A3 A4]).
      { simpl. rewrite lookup_insert_eq. unfold push_back. by rewrite app_assoc. }
      change (tcbs s1) with (tcbs s) in *. exists s'.
      rewrite filter_cons_False by congruence. rewrite (filter_cons_True _ p) by done.
      split; [done|]. split; try done. rewrite A2. simpl. rewrite insert_insert_eq.
      by rewrite <- app_assoc.
Qed.

(** [wake_all] wakes exactly the threads that accept, returns their number,
    and keeps the others in their order. *)
Theorem wake_all_spec s wd q :
  wait_inv s → wait_queues s !! wd = Some q →
  let ys := filter (λ x, accepts (tcbs s) x = true) q in
  ∃ s', wake_all wd s = Fin (Ok (Z.of_nat (length ys))) s' ∧
        all_dispatched s wd ys (filter (λ x, accepts (tcbs s) x = false) q) s'.
Proof.
  intros H Hwd. destruct (wi_queue _ H _ _ Hwd) as (Hz & _ & _).
  destruct (wake_all_loop_spec q [] wd s 0 H) as (s' & E & Ha); [by rewrite app_nil_r|].
  exists s'. split; [|done]. unfold wake_all, queue_if_exists, mbind, M_bind, gets.
  rewrite (proj2 (Z.eqb_neq wd 0)) by done. rewrite Hwd. exact E.
Qed.

(** ** Blocking *)

Lemma running_not_queued s wd q p t :
  wait_inv s → wait_queues s !! wd = Some q → tcbs s !! p = Some t → t_state t = RUNNING → p ∉ q.
Proof.
  intros H Hwd Ht Hr Hin. destruct (wait_thread _ _ _ _ H Hwd Hin) as (u & Hu & Hw & _).
  assert (u = t) as -> by congruence. by rewrite Hr in Hw.
Qed.

(** The waiting state a thread gets from [wait_enqueue]. *)
Definition waiting_tcb (wd : Z) (pred : option (Z → bool)) (t : TCB) : TCB :=
  set_state UNINTERRUPTIBLE_WAITING (set_wait wd pred t).

Lemma wait_enqueue_run s wd p pred t :
  wd ≠ 0 → p ≠ 0 → tcbs s !! p = Some t →
  wait_enqueue true wd p pred s = Fin (Ok tt)
    (set_tcbs <[p := waiting_tcb wd pred t]>
       (set_queues <[wd := push_back p (default [] (wait_queues s !! wd))]> s)).
Proof.
  intros Hwd Hp Ht. unfold wait_enqueue, queue_for_wait, mbind, M_bind, gets.
  rewrite (proj2 (Z.eqb_neq wd 0)), (proj2 (Z.eqb_neq p 0)) by done.
  destruct (wait_queues s !! wd) as [q|]; simpl; unfold mret, M_ret.
  - by rewrite (upd_tcb_run s p t).
  - rewrite (upd_tcb_run (set_queues _ s) p t) by done. unfold put_queue, modify, set_tcbs, set_queues; simpl.
    by rewrite insert_insert_eq.
Qed.

(** The queues after the running thread [cur] joined queue [wd], in any state
    [s'] where it waits and the other waiting threads are as before. *)
Lemma blocked_queues s s' wd u t :
  wait_inv s → wd ≠ 0 → tcbs s !! current_tcb s = Some t → t_state t = RUNNING →
  tcbs s' !! current_tcb s = Some u → is_waiting (t_state u) = true → wait_wd u = wd →
  current_tcb s' ≠ current_tcb s →
  (∀ x tx, x ≠ current_tcb s → x ∉ ready_seq s → tcbs s !! x = Some tx →
     tcbs s' !! x = Some tx ∧ x ≠ current_tcb s') →
  ∀ wd' l, <[wd := push_back (current_tcb s) (default [] (wait_queues s !! wd))]> (wait_queues s) !! wd'
             = Some l →
  wd' ≠ 0 ∧ NoDup l ∧ ∀ p, p ∈ l → ∃ t, tcbs s' !! p = Some t ∧ is_waiting (t_state t) = true ∧
      wait_wd t = wd' ∧ p ≠ current_tcb s'.
Proof.
  intros H Hwd Ht Hst Hu Hwu Hwdu Hne Hother wd' l Hl.
  assert (Hold : ∀ wd0 l0 x, wait_queues s !! wd0 = Some l0 → x ∈ l0 →
     ∃ t, tcbs s' !! x = Some t ∧ is_waiting (t_state t) = true ∧ wait_wd t = wd0 ∧ x ≠ current_tcb s').
  { intros wd0 l0 x Hl0 Hx.
    destruct (wait_thread _ _ _ _ H Hl0 Hx) as (tx & Htx & Hwx & Hwtx & Hxc & _ & Hxr).
    destruct (Hother x tx Hxc Hxr Htx). by exists tx. }
  destruct (decide (wd' = wd)) as [->|Hw'].
  - rewrite lookup_insert_eq in Hl. simplify_eq. unfold push_back. split_and!; [done| |].
    + rewrite Permutation_app_comm. simpl.
      destruct (wait_queues s !! wait_wd u) as [q0|] eqn:Eq; simpl; [|apply NoDup_singleton].
      apply NoDup_cons. split; [by eapply running_not_queued|]. apply (wi_queue _ H _ _ Eq).
    + intros x [Hx|Hx]%elem_of_app.
      * destruct (wait_queues s !! wait_wd u) as [q0|] eqn:Eq; simpl in Hx;
          [by eapply Hold|by apply not_elem_of_nil in Hx].
      * apply list_elem_of_singleton in Hx as ->. exists u. by split_and!.
  - rewrite lookup_insert_ne in Hl by done. destruct (wi_queue _ H _ _ Hl) as (? & ? & _).
    split_and!; try done. intros x Hx. by eapply Hold.
Qed.

(** [block_current].  The running thread, if it is not the idle one, ends up
    at the back of the wait queue, waiting, neither current nor ready; another
    thread runs and every invariant holds.  Nothing can panic on the way. *)
Theorem block_current_spec s wd pred t :
  wait_inv s → wd ≠ 0 → current_tcb s ≠ 0 → tcbs s !! current_tcb s = Some t →
  t_state t = RUNNING → schd_class t ≠ IDLE →
  ∃ s' u, block_current true wd pred s = Fin (Ok tt) s' ∧ wait_inv s' ∧
    wait_queues s' = <[wd := default [] (wait_queues s !! wd) ++ [current_tcb s]]> (wait_queues s) ∧
    tcbs s' !! current_tcb s = Some u ∧ is_waiting (t_state u) = true ∧ wait_predicate u = pred ∧
    current_tcb s' ≠ current_tcb s ∧ current_tcb s ∉ ready_seq s'.
Proof.
  intros H Hwd E0 Ht Hst Hcl.
  destruct (si_cur _ (wi_sched _ H) E0) as (t' & Ht' & _ & Hni). simplify_eq.
  set (q := default [] (wait_queues s !! wd)).
  set (t2 := flags_set FLAGS_NEED_RESCHED (waiting_tcb wd pred t)).
  set (s2 := set_tcbs <[current_tcb s := t2]> (set_queues <[wd := push_back (current_tcb s) q]> s)).
  assert (Hs2 : sched_inv s2).
  { destruct (wi_sched _ H) as [Hr Hc Hi]. split.
    - apply (rq_inv_upd (set_queues _ s) _ t t2); [by destruct Hr; split|done|done|by split].
    - simpl. intros _. exists t2. rewrite lookup_insert_eq. split_and!; [done|by right; right|done].
    - simpl. destruct Hi as [|(t' & Hz & Ht'' & Hci)]; [by left|right]. exfalso. congruence. }
  assert (Ht2 : tcbs s2 !! current_tcb s2 = Some t2) by apply lookup_insert_eq.
  destruct (schedule_resched s2 true t2 Hs2 E0 Ht2 (flags_set_check _ _) eq_refl)
    as (s3 & E3 & H3 & Hres & Hq3 & Hz3 & Hx3 & Hcu3).
  destruct (Hcu3 t2 Ht2 ltac:(done)) as [Hne3 Htcur].
  change (current_tcb s2) with (current_tcb s) in *.
  eexists s3, _. split_and!; [| |exact Hq3|exact Htcur|done|done|done|].
  - unfold block_current, mbind, M_bind, gets. rewrite (proj2 (Z.eqb_neq _ 0)) by done.
    rewrite (get_tcb_run _ _ _ Ht), bool_decide_eq_false_2 by done.
    rewrite (wait_enqueue_run s wd _ pred t) by done.
    erewrite upd_tcb_run by apply lookup_insert_eq. rewrite <- E3. unfold s2, set_tcbs; simpl.
    by rewrite insert_insert_eq.
  - split; [done|]. rewrite Hq3. simpl.
    apply (blocked_queues s s3 wd (flags_reset FLAGS_NEED_RESCHED t2) t); try done.
    intros x tx Hxc Hxr Htx. assert (Hxn : x ≠ current_tcb s3).
    { intros ->. destruct Hres as (t0 & Ht0 & _ & Hperm & _). apply Hxr.
      change (current_tcb s2) with (current_tcb s) in Ht0.
      assert (t0 = t2) as -> by congruence.
      assert (Hin : current_tcb s3 ∈ current_tcb s3 :: ready_seq s3) by left.
      rewrite Hperm in Hin. exact Hin. }
    rewrite Hx3 by done. simpl. by rewrite lookup_insert_ne.
  - apply (waiting_not_ready s3 _ (flags_reset FLAGS_NEED_RESCHED t2)); [apply H3|done|done].
Qed.

(** ** Witnesses

    The scheduler of [SchedWitness] with threads 6, 7 and 8 waiting for
    descriptor 9; thread 6 has a predicate that rejects. *)
Module WaitWitness.
Import SchedWitness.

Definition waiter (p : option (Z → bool)) : TCB :=
  mkTCB UNINTERRUPTIBLE_WAITING 0 RR ROLE_NONE 0 9 p true.
Definition no : option (Z → bool) := Some (λ _, false).
Definition ex_wait : sched :=
  mkSched (<[6 := waiter no]> (<[7 := waiter None]> (<[8 := waiter None]> (tcbs ex_sched))))
    [] [5] [4] 0 0 1 {[3 := 3]} 3 {[9 := [6; 7; 8]]} 10.

Lemma ex_wait_tcb p t :
  tcbs ex_wait !! p = Some t →
  (p = 6 ∧ t = waiter no) ∨ (p = 7 ∧ t = waiter None) ∨ (p = 8 ∧ t = waiter None) ∨
  tcbs ex_sched !! p = Some t.
Proof.
  change (tcbs ex_wait) with (<[6 := waiter no]> (<[7 := waiter None]> (<[8 := waiter None]> (tcbs ex_sched)))).
  intros [[<- <-]|[_ H]]%lookup_insert_Some; [tauto|].
  apply lookup_insert_Some in H as [[<- <-]|[_ H]]; [tauto|].
  apply lookup_insert_Some in H as [[<- <-]|[_ H]]; [tauto|]. tauto.
Qed.

Lemma ex_wait_all p t :
  tcbs ex_wait !! p = Some t →
  (6 <= p <= 8 ∧ schd_class t = RR ∧ boot_role t = ROLE_NONE ∧ ext_ctx t = true) ∨
  (p = 1 ∧ t = mk READY 0 IDLE) ∨ (p = 3 ∧ t = mk RUNNING 1 RR) ∨
  (p = 4 ∧ t = mk READY 0 RR) ∨ (p = 5 ∧ t = mk READY 0 FCFS).
Proof.
  intros H. apply ex_wait_tcb in H as [[-> ->]|[[-> ->]|[[-> ->]|H]]].
  - left. split_and!; done.
  - left. split_and!; done.
  - left. split_and!; done.
  - right. by apply ex_tcb.
Qed.

Lemma ex_wait_inv : wait_inv ex_wait.
Proof.
  split; [split; [split; [split| | |]| |]|].
  - intros p t Ht. apply ex_wait_all in Ht as [(?&?&?&?)|[[-> ->]|[[-> ->]|[[-> ->]|[-> ->]]]]];
      (split_and!; [lia|simpl; congruence|simpl; congruence|done]).
  - intros p q t u Hp Hq Hc Hor.
    apply ex_wait_all in Hp as [(?&?&?&?)|[[-> ->]|[[-> ->]|[[-> ->]|[-> ->]]]]];
      destruct Hor as [Hor|[Hor _]]; simpl in *; try congruence.
    apply ex_wait_all in Hq as [(?&?&?&?)|[[-> ->]|[[-> ->]|[[-> ->]|[-> ->]]]]]; simpl in *;
      congruence.
  - change (ready_seq ex_wait) with [4; 5; 1]. repeat constructor; set_solver.
  - intros c p Hp. change (class_seq ex_wait c) with (class_seq ex_sched c) in Hp.
    destruct (rq_unit _ (si_rq _ ex_sched_inv) c p Hp) as (t & Ht & Hst & Hcl). exists t.
    split_and!; try done. apply ex_tcb in Ht as [[-> ->]|[[-> ->]|[[-> ->]|[-> ->]]]]; done.
  - intros r t Hr Ht. assert (E : read_slot r ex_wait = 0) by (by destruct r). rewrite E in Ht.
    apply ex_wait_all in Ht as [(?&?&?&?)|[[? ?]|[[? ?]|[[? ?]|[? ?]]]]]; lia.
  - intros _. exists (mk RUNNING 1 RR). split_and!; [done|by left|].
    change (ready_seq ex_wait) with [4; 5; 1]. simpl. set_solver.
  - by left.
  - simpl. intros wd q Hq. apply lookup_singleton_Some in Hq as [<- <-].
    split_and!; [done|repeat constructor; set_solver|].
    intros p Hp. rewrite !elem_of_cons, elem_of_nil in Hp.
    destruct Hp as [->|[->|[->|[]]]]; eexists; split_and!; done.
Qed.

Lemma wake_one_spec_witness :
  ∃ s', wake_one 9 ex_wait = Fin (Ok 1) s' ∧ dispatched ex_wait 9 7 ([8] ++ [6]) s'.
Proof.
  apply (wake_one_spec ex_wait 9 [6; 7; 8] ex_wait_inv); [reflexivity|discriminate].
Defined.

Lemma wake_all_spec_witness :
  ∃ s', wake_all 9 ex_wait = Fin (Ok 2) s' ∧ all_dispatched ex_wait 9 [7; 8] [6] s'.
Proof.
  apply (wake_all_spec ex_wait 9 [6; 7; 8] ex_wait_inv). reflexivity.
Defined.

Lemma block_current_spec_witness :
  ∃ s' u, block_current true 9 None ex_wait = Fin (Ok tt) s' ∧ wait_inv s' ∧
    wait_queues s' = <[9 := [6; 7; 8] ++ [3]]> (wait_queues ex_wait) ∧
    tcbs s' !! 3 = Some u ∧ is_waiting (t_state u) = true ∧ wait_predicate u = None ∧
    current_tcb s' ≠ 3 ∧ 3 ∉ ready_seq s'.
Proof.
  apply (block_current_spec ex_wait 9 None (mk RUNNING 1 RR) ex_wait_inv);
    [discriminate|discriminate|reflexivity|reflexivity|discriminate].
Defined.
End WaitWitness.
