(* ===== verification/Future.v ===== *)
(** * Futures and promises

    [wait::Promise] and [wait::Future] of kernel/task/wait.h: a reference-counted
    state that a promise settles once and a future reads once.  The wait queues are
    behind the interface [Waker] (allocating a wait descriptor and waking its
    threads), which [Wait] implements.  A cancel callback is a value of a type
    [CB] that the component creating the promise interprets.

    Not modelled here: [co_await] and the coroutine promises of the same header. *)
From S2P Require Import Prelude ErrCode Sched Wait.

Module Future.

(** ** What futures use of the wait queues *)

(** [wk_inv c w]: [w] is consistent and [c] more descriptors can be allocated. *)
Class Waker (W : Type) := {
  wk_alloc : M W Z;
  wk_wake_all : Z → M W Z;
  wk_inv : nat → W → Prop;
  wk_less : ∀ c w, wk_inv (S c) w → wk_inv c w;
  wk_alloc_ok : ∀ c w, wk_inv (S c) w → ∃ wd w', wk_alloc w = Fin (Ok wd) w' ∧ wd ≠ 0 ∧ wk_inv c w';
  wk_wake_ok : ∀ c w wd, wk_inv c w → wd ≠ 0 → ∃ n w', wk_wake_all wd w = Fin (Ok n) w' ∧ wk_inv c w';
}.

(** ** Data *)

Inductive FutureState := PENDING | COMPLETE | ERROR | CANCLED | CONSUMED.
#[export] Instance FutureState_eq_dec : EqDecision FutureState.
Proof. solve_decision. Defined.

Definition future_ready_state (s : FutureState) : bool :=
  match s with PENDING => false | _ => true end.

Section future.
Context {CB W : Type} `{Waker W}.

Record AsyncState := mkAsync {
  fstate : FutureState;
  wait_wd : Z;
  ref_count : Z;
  ferror : ErrCode;
  fvalue : option Z;
  cancel_callback : option CB
}.
Definition set_fstate x a := mkAsync x (wait_wd a) (ref_count a) (ferror a) (fvalue a) (cancel_callback a).
Definition set_refs x a := mkAsync (fstate a) (wait_wd a) x (ferror a) (fvalue a) (cancel_callback a).
Definition set_ferror x a := mkAsync (fstate a) (wait_wd a) (ref_count a) x (fvalue a) (cancel_callback a).
Definition set_fvalue x a := mkAsync (fstate a) (wait_wd a) (ref_count a) (ferror a) x (cancel_callback a).
Definition set_callback x a := mkAsync (fstate a) (wait_wd a) (ref_count a) (ferror a) (fvalue a) x.

Record fut := mkFut { asyncs : gmap Z AsyncState; next_async : Z; waker : W }.
Definition set_asyncs f s := mkFut (f (asyncs s)) (next_async s) (waker s).
Definition set_waker x s := mkFut (asyncs s) (next_async s) x.

Definition get_async (p : Z) : M fut AsyncState := λ s,
  match asyncs s !! p with Some a => Fin (Ok a) s | None => Panic end.
Definition put_async (p : Z) (a : AsyncState) : M fut unit := modify (set_asyncs <[p := a]>).
Definition with_waker {A} (m : M W A) : M fut A := λ s,
  match m (waker s) with
  | Fin r w => Fin r (set_waker w s) | Panic => Panic | OutOfFuel => OutOfFuel
  end.

(** ** Reference counting *)

(** [Promise()]: [alloc_ok] is whether the state can be allocated. *)
Definition new_promise (alloc_ok : bool) : M fut Z :=
  wd ← with_waker wk_alloc;
  _ ← massert alloc_ok;
  p ← gets next_async;
  _ ← modify (λ s, mkFut (<[p := mkAsync PENDING wd 1 FUTURE_ERROR None None]> (asyncs s)) (p + 1) (waker s));
  mret p.

Definition acquire (p : Z) : M fut unit :=
  if p =? 0 then mret tt else a ← get_async p; put_async p (set_refs (add64 (ref_count a) 1) a).
Definition release (p : Z) : M fut unit :=
  if p =? 0 then mret tt
  else
    a ← get_async p;
    _ ← massert (0 <? ref_count a);
    if ref_count a - 1 =? 0 then modify (set_asyncs (delete p))
    else put_async p (set_refs (ref_count a - 1) a).
(** [Promise::future] *)
Definition future_of (p : Z) : M fut Z := _ ← acquire p; mret p.

(** ** Settling *)

Definition settle (p : Z) (f : AsyncState → AsyncState) : M fut unit :=
  if p =? 0 then fail BUSY
  else
    a ← get_async p;
    if negb (bool_decide (fstate a = PENDING)) then fail BUSY
    else
      _ ← put_async p (f a);
      _ ← with_waker (wk_wake_all (wait_wd a));
      mret tt.
(** [Promise<T>::set_value]; [None] is [Promise<void>::set_value]. *)
Definition set_value (p : Z) (v : option Z) : M fut unit :=
  settle p (λ a, set_fstate COMPLETE (match v with Some _ => set_fvalue v a | None => a end)).
Definition set_error (p : Z) (e : ErrCode) : M fut unit :=
  settle p (λ a, set_fstate ERROR (set_ferror e a)).
Definition set_cancled (p : Z) : M fut unit := settle p (set_fstate CANCLED).
Definition set_cancel_callback (p : Z) (cb : option CB) : M fut unit :=
  if p =? 0 then fail INVALID_PARAM else a ← get_async p; put_async p (set_callback cb a).

(** ** Reading *)

Definition readable (p : Z) : M fut bool :=
  if p =? 0 then mret false else a ← get_async p; mret (future_ready_state (fstate a)).
Definition state_of (p : Z) : M fut FutureState :=
  if p =? 0 then mret ERROR else a ← get_async p; mret (fstate a).

(** [Future<T>::value], and [Future<void>::value] when [void]. *)
Definition value (void : bool) (p : Z) : M fut Z :=
  if p =? 0 then fail INVALID_PARAM
  else
    a ← get_async p;
    match fstate a with
    | PENDING => fail FUTURE_PENDING
    | ERROR => fail (ferror a)
    | CANCLED => fail FUTURE_CANCLED
    | CONSUMED => fail FUTURE_CONSUMED
    | COMPLETE =>
        if void then _ ← put_async p (set_fstate CONSUMED a); mret 0
        else
          match fvalue a with
          | None => fail FUTURE_ERROR
          | Some v => _ ← put_async p (set_fstate CONSUMED (set_fvalue None a)); mret v
          end
    end.
End future.
Arguments AsyncState : clear implicits.
Arguments fut : clear implicits.

(** ** Cancelling

    The callback runs in the state [S] of the component that set it; [lift] runs an
    operation on futures there. *)
Definition cancle {CB W S} `{Waker W} (lift : ∀ A, M (fut CB W) A → M S A) (run : CB → M S unit) (p : Z) : M S unit :=
  if p =? 0 then fail INVALID_PARAM
  else
    a ← lift _ (get_async p);
    match fstate a with
    | PENDING =>
        _ ← match cancel_callback a with Some cb => run cb | None => mret tt end;
        a ← lift _ (get_async p);
        _ ← lift _ (put_async p (set_fstate CANCLED a));
        _ ← lift _ (with_waker (wk_wake_all (wait_wd a)));
        mret tt
    | COMPLETE | ERROR => fail FUTURE_ERROR
    | CANCLED => fail FUTURE_CANCLED
    | CONSUMED => fail FUTURE_CONSUMED
    end.

(** ** Steps *)

Section spec.
Context {CB W : Type} `{Waker W}.
Implicit Types (s : fut CB W) (a : AsyncState CB).

(** Consistency: states are counted, and their descriptors are real. *)
Record fut_inv (c : nat) s : Prop := {
  fi_waker : wk_inv c (waker s);
  fi_async : ∀ p a, asyncs s !! p = Some a → 0 < p < next_async s ∧ wait_wd a ≠ 0 ∧ 0 < ref_count a < W64;
  fi_next : 0 < next_async s;
}.

Lemma get_async_run s p a : asyncs s !! p = Some a → get_async p s = Fin (Ok a) s.
Proof. unfold get_async. by intros ->. Qed.

Lemma put_inv c s p a a' :
  fut_inv c s → asyncs s !! p = Some a → wait_wd a' = wait_wd a → 0 < ref_count a' < W64 →
  fut_inv c (set_asyncs <[p := a']> s).
Proof.
  intros [H1 H2 H3] Hp Hw Hr. split; [done| |done]. intros q b. simpl. intros [[<- <-]|[_ Hq]]%lookup_insert_Some.
  - destruct (H2 p a Hp) as (? & ? & _). rewrite Hw. done.
  - by apply H2.
Qed.

(** The states behind the pointers stay the same, apart from one. *)
Definition only (p : Z) s s' : Prop := ∀ q, q ≠ p → asyncs s' !! q = asyncs s !! q.

Lemma settle_run c s p a f :
  fut_inv c s → asyncs s !! p = Some a → wait_wd (f a) = wait_wd a → ref_count (f a) = ref_count a →
  if bool_decide (fstate a = PENDING)
  then ∃ w, settle p f s = Fin (Ok tt) (mkFut (<[p := f a]> (asyncs s)) (next_async s) w) ∧
         fut_inv c (mkFut (<[p := f a]> (asyncs s)) (next_async s) w)
  else settle p f s = Fin (Err BUSY) s.
Proof.
  intros Hi Hp Hw Hr. destruct (fi_async _ _ Hi p a Hp) as (Hpos & Hwd & Hrc).
  unfold settle. rewrite (proj2 (Z.eqb_neq p 0)) by lia. rewrite (bind_run _ _ _ _ _ (get_async_run s p a Hp)).
  case_bool_decide as E; cbn [negb]; [|done].
  rewrite (bind_run (put_async p (f a)) _ _ tt (set_asyncs <[p := f a]> s) eq_refl).
  destruct (wk_wake_ok c (waker s) (wait_wd a)) as (n & w & Ew & Hiw); [apply Hi|done|].
  exists w. unfold with_waker, mbind, M_bind. simpl. rewrite Ew. split; [done|].
  pose proof (put_inv c s p a (f a) Hi Hp Hw) as [_ H2 H3]; [rewrite Hr; done|]. by split.
Qed.

Lemma new_promise_run c s :
  fut_inv (S c) s →
  ∃ wd w, let s' := mkFut (<[next_async s := mkAsync PENDING wd 1 FUTURE_ERROR None None]> (asyncs s)) (next_async s + 1) w in
    new_promise true s = Fin (Ok (next_async s)) s' ∧ fut_inv c s'.
Proof.
  intros [H1 H2 H3]. destruct (wk_alloc_ok c (waker s) H1) as (wd & w & E & Hwd & Hw). exists wd, w. intros s'. split.
  - unfold new_promise, with_waker, mbind, M_bind. by rewrite E.
  - split; [done| |simpl; lia]. intros p a. simpl. intros [[<- <-]|[_ Hp]]%lookup_insert_Some.
    + simpl. unfold W64. split_and!; [lia|lia|done|lia|lia].
    + destruct (H2 p a Hp) as (? & ? & ?). split; [lia|done].
Qed.

Lemma acquire_run c s p a :
  fut_inv c s → asyncs s !! p = Some a → ref_count a + 1 < W64 →
  acquire p s = Fin (Ok tt) (set_asyncs <[p := set_refs (ref_count a + 1) a]> s) ∧
  fut_inv c (set_asyncs <[p := set_refs (ref_count a + 1) a]> s).
Proof.
  intros Hi Hp Hr. destruct (fi_async _ _ Hi p a Hp) as (Hpos & _ & Hrc).
  unfold acquire. rewrite (proj2 (Z.eqb_neq p 0)) by lia. rewrite (bind_run _ _ _ _ _ (get_async_run s p a Hp)).
  unfold add64. rewrite wrap64_small by (unfold is_u64; lia). split; [done|]. apply (put_inv c s p a); simpl; [done..|lia].
Qed.

Lemma fut_release_run c s p a :
  fut_inv c s → asyncs s !! p = Some a →
  let s' := if ref_count a =? 1 then set_asyncs (delete p) s else set_asyncs <[p := set_refs (ref_count a - 1) a]> s in
  release p s = Fin (Ok tt) s' ∧ fut_inv c s'.
Proof.
  intros Hi Hp s'. destruct (fi_async _ _ Hi p a Hp) as (Hpos & _ & Hrc).
  unfold release. rewrite (proj2 (Z.eqb_neq p 0)) by lia. rewrite (bind_run _ _ _ _ _ (get_async_run s p a Hp)).
  rewrite (proj2 (Z.ltb_lt 0 (ref_count a))) by lia.
  rewrite (bind_run (massert true) _ _ tt s eq_refl). unfold s'.
  destruct (Z.eqb_spec (ref_count a) 1) as [E|E].
  - rewrite E. simpl. split; [done|]. destruct Hi as [H1 H2 H3]. split; [done| |done].
    intros q b. simpl. intros [_ Hq]%lookup_delete_Some. by apply H2.
  - rewrite (proj2 (Z.eqb_neq (ref_count a - 1) 0)) by lia. split; [done|]. apply (put_inv c s p a); simpl; [done..|lia].
Qed.

(** What cancelling runs: the callbacks of the components that make promises. *)
Context (run_cb : CB → M (fut CB W) unit).

Inductive fut_op :=
  | FNew | FFuture (p : Z) | FRelease (p : Z) | FCallback (p : Z) (cb : option CB)
  | FSetValue (p : Z) (v : option Z) | FSetError (p : Z) (e : ErrCode) | FSetCancled (p : Z)
  | FCancle (p : Z) | FValue (void : bool) (p : Z) | FReadable (p : Z).

Definition run_fut_op (op : fut_op) : M (fut CB W) Z :=
  match op with
  | FNew => new_promise true
  | FFuture p => future_of p
  | FRelease p => _ ← release p; mret 0
  | FCallback p cb => _ ← set_cancel_callback p cb; mret 0
  | FSetValue p v => _ ← set_value p v; mret 0
  | FSetError p e => _ ← set_error p e; mret 0
  | FSetCancled p => _ ← set_cancled p; mret 0
  | FCancle p => _ ← cancle (λ _ m, m) run_cb p; mret 0
  | FValue void p => value void p
  | FReadable p => b ← readable p; mret (Z.b2z b)
  end.

(** [s'] is [s] after references were given back, not the last one of [p].  That
    is what the callbacks of endpoints and replies do to futures: they delete
    promises. *)
Definition gives_back (p : Z) s s' : Prop :=
  next_async s' = next_async s ∧ waker s' = waker s ∧
  (∀ q, asyncs s !! q = None → asyncs s' !! q = None) ∧
  ∀ q a, asyncs s !! q = Some a →
    (q ≠ p ∧ asyncs s' !! q = None) ∨
    ∃ n, 0 < n <= ref_count a ∧ asyncs s' !! q = Some (set_refs n a).

(** The pointers passed are alive, a count has room for one more reference, and
    the callback of a future that is cancelled returns (with success or an error)
    and at most gives references back. *)
Definition fut_op_ok s (op : fut_op) : Prop :=
  match op with
  | FNew => True
  | FFuture p => ∃ a, asyncs s !! p = Some a ∧ ref_count a + 1 < W64
  | FRelease p | FCallback p _ | FSetValue p _ | FSetError p _ | FSetCancled p | FValue _ p | FReadable p =>
      is_Some (asyncs s !! p)
  | FCancle p => ∃ a, asyncs s !! p = Some a ∧ ∀ cb, cancel_callback a = Some cb →
      ∃ r s', run_cb cb s = Fin r s' ∧ gives_back p s s'
  end.

(** Executions. *)
Inductive ftrace : fut CB W → list (fut_op * Result Z) → fut CB W → Prop :=
  | ft_nil s : ftrace s [] s
  | ft_step s op r s1 l s2 :
      fut_op_ok s op → run_fut_op op s = Fin r s1 → ftrace s1 l s2 → ftrace s ((op, r) :: l) s2.

(** [e] settled, or took the value of, the future [p]. *)
Definition settles (p : Z) (e : fut_op * Result Z) : Prop :=
  match e with
  | ((FSetValue q _ | FSetError q _ | FSetCancled q | FCancle q), Ok _) => q = p
  | _ => False
  end.
Definition takes (p : Z) (e : fut_op * Result Z) : Prop :=
  match e with (FValue _ q, Ok _) => q = p | _ => False end.
#[export] Instance settles_dec p e : Decision (settles p e).
Proof. destruct e as [[] []]; simpl; apply _. Defined.
#[export] Instance takes_dec p e : Decision (takes p e).
Proof. destruct e as [[] []]; simpl; apply _. Defined.

(** How the state [a] of future [p] may change in step [e]. *)
Definition moves (p : Z) a a' (e : fut_op * Result Z) : Prop :=
  (settles p e ∧ fstate a = PENDING ∧ fstate a' ≠ PENDING ∧
     (fstate a' = COMPLETE → ∃ v r, e = (FSetValue p v, Ok r) ∧ fvalue a' = match v with Some _ => v | None => fvalue a end)) ∨
  (takes p e ∧ fstate a = COMPLETE ∧ fstate a' = CONSUMED ∧
     (∀ v, e = (FValue false p, Ok v) → fvalue a = Some v)) ∨
  (~ settles p e ∧ ~ takes p e ∧ fstate a' = fstate a ∧ fvalue a' = fvalue a).

Lemma moves_refl p a e : ~ settles p e → ~ takes p e → moves p a a e.
Proof. intros. by right; right. Qed.

(** Every operation returns, and moves the state of each future as above. *)
Definition step_ok c s op : Prop :=
  ∃ r s', run_fut_op op s = Fin r s' ∧ fut_inv c s' ∧ next_async s <= next_async s' ∧
    (∀ p a, asyncs s !! p = Some a → 
       (asyncs s' !! p = None ∧ ~ settles p (op, r) ∧ ~ takes p (op, r)) ∨
       ∃ a', asyncs s' !! p = Some a' ∧ moves p a a' (op, r)) ∧
    (∀ p a', asyncs s !! p = None → asyncs s' !! p = Some a' →
       p = next_async s ∧ p < next_async s' ∧ fstate a' = PENDING ∧ fvalue a' = None) ∧
    (∀ p, asyncs s !! p = None → ~ settles p (op, r) ∧ ~ takes p (op, r)).

(** A step that changes one state. *)
Lemma step_put c s op r p a a' (w : W) :
  asyncs s !! p = Some a → run_fut_op op s = Fin r (mkFut (<[p := a']> (asyncs s)) (next_async s) w) →
  fut_inv c (mkFut (<[p := a']> (asyncs s)) (next_async s) w) →
  moves p a a' (op, r) → (∀ q, q ≠ p → ~ settles q (op, r) ∧ ~ takes q (op, r)) → step_ok c s op.
Proof.
  intros Hp E Hi Hm Hq. exists r, (mkFut (<[p := a']> (asyncs s)) (next_async s) w).
  split; [done|]. split; [done|]. split; [simpl; lia|]. simpl. split_and!.
  - intros q b Hb. right. destruct (decide (q = p)) as [->|Hne].
    + rewrite lookup_insert_eq. exists a'. split; [done|]. by simplify_eq.
    + rewrite lookup_insert_ne by done. exists b. split; [done|]. by apply moves_refl; apply Hq.
  - intros q b Hn. destruct (decide (q = p)) as [->|Hne]; [congruence|]. rewrite lookup_insert_ne by done. congruence.
  - intros q Hn. apply Hq. congruence.
Qed.
Lemma step_same c s op r :
  run_fut_op op s = Fin r s → fut_inv c s → (∀ q, ~ settles q (op, r) ∧ ~ takes q (op, r)) → step_ok c s op.
Proof.
  intros E Hi Hq. exists r, s. split_and!; try done.
  - intros p a Hp. right. exists a. split; [done|]. by apply moves_refl; apply Hq.
  - congruence.
Qed.

Lemma step_err c s op e : run_fut_op op s = Fin (Err e) s → fut_inv c s → step_ok c s op.
Proof. intros E Hi. apply (step_same c s op (Err e) E Hi). intros q. destruct op; split; by intros []. Qed.

Lemma step_settle c s op p a f :
  fut_inv c s → asyncs s !! p = Some a → wait_wd (f a) = wait_wd a → ref_count (f a) = ref_count a →
  run_fut_op op s = (_ ← settle p f; mret 0) s →
  (∀ q, takes q (op, Ok 0) → False) → (∀ q, settles q (op, Ok 0) ↔ q = p) →
  fstate (f a) ≠ PENDING → (fstate (f a) = COMPLETE → ∃ v, op = FSetValue p v ∧
     fvalue (f a) = match v with Some _ => v | None => fvalue a end) →
  step_ok c s op.
Proof.
  intros Hi Hp Hw Hr Erun Ht Hs Hf Hv. pose proof (settle_run c s p a f Hi Hp Hw Hr) as Hrun.
  case_bool_decide as E.
  - destruct Hrun as (w & Es & Hi'). rewrite (bind_run _ _ _ _ _ Es) in Erun.
    apply (step_put c s op (Ok 0) p a (f a) w Hp Erun Hi').
    + left. split_and!; [by apply Hs|done|done|]. intros Hc. destruct (Hv Hc) as (v & -> & Ev). by exists v, 0.
    + intros q Hq. split; [intros Hc%Hs; done|by intros Hc%Ht].
  - rewrite (bind_run_err _ _ _ _ _ Hrun) in Erun. by apply (step_err c s op BUSY).
Qed.

Lemma fut_inv_less c s : fut_inv (S c) s → fut_inv c s.
Proof. intros [H1 H2 H3]. split; [by apply wk_less|done|done]. Qed.

Lemma same_waker s (m : gmap Z (AsyncState CB)) : set_asyncs (λ _, m) s = mkFut m (next_async s) (waker s).
Proof. done. Qed.

Lemma step_new c s : fut_inv (S c) s → step_ok c s FNew.
Proof.
  intros Hi. destruct (new_promise_run c s Hi) as (wd & w & E & Hi'). eexists _, _. split; [exact E|]. split; [exact Hi'|].
  assert (Hfresh : ∀ p a, asyncs s !! p = Some a → p ≠ next_async s).
  { intros p a Hp. destruct (fi_async _ _ Hi p a Hp). lia. }
  simpl. split; [lia|]. split_and!.
  - intros p a Hp. right. exists a. rewrite lookup_insert_ne by (apply not_eq_sym, (Hfresh p a Hp)).
    split; [done|]. apply moves_refl; by intros [].
  - intros p a' Hn. intros [[<- <-]|[_ Hp]]%lookup_insert_Some; [|congruence]. split_and!; [done|lia|done|done].
  - intros p _. split; by intros [].
Qed.

Lemma step_release c s p : fut_inv c s → is_Some (asyncs s !! p) → step_ok c s (FRelease p).
Proof.
  intros Hi [a Hp]. destruct (fut_release_run c s p a Hi Hp) as [E Hi'].
  assert (Hns : ∀ q, ~ settles q (FRelease p, Ok 0) ∧ ~ takes q (FRelease p, Ok 0)) by (intros q; split; by intros []).
  assert (Erun : run_fut_op (FRelease p) s = Fin (Ok 0)
    (if ref_count a =? 1 then set_asyncs (delete p) s else set_asyncs <[p := set_refs (ref_count a - 1) a]> s)).
  { cbn [run_fut_op]. by rewrite (bind_run _ _ _ _ _ E). }
  destruct (ref_count a =? 1).
  - eexists _, _. split; [exact Erun|]. split; [exact Hi'|]. simpl. split; [lia|]. split_and!.
    + intros q b Hq. destruct (decide (q = p)) as [->|Hne]; [left; split; [apply lookup_delete_eq|exact (Hns p)]|right].
      exists b. rewrite lookup_delete_ne by done. split; [done|]. destruct (Hns q). by apply moves_refl.
    + intros q b Hn [_ Hq]%lookup_delete_Some. congruence.
    + intros q _. exact (Hns q).
  - destruct (Hns p). apply (step_put c s (FRelease p) (Ok 0) p a (set_refs (ref_count a - 1) a) (waker s)); try done.
    by right; right.
Qed.

Lemma gives_back_inv c p s s' : fut_inv c s → gives_back p s s' → fut_inv c s'.
Proof.
  intros [H1 H2 H3] (En & Ew & Hn & Hs). split; [by rewrite Ew| |by rewrite En].
  intros q a' Hq. destruct (asyncs s !! q) as [a|] eqn:Ea; [|by rewrite Hn in Hq].
  destruct (H2 q a Ea) as (? & ? & ?). destruct (Hs q a Ea) as [[_ E]|(n & Hr & E)]; [congruence|].
  rewrite E in Hq. injection Hq as <-. rewrite En. simpl. split_and!; lia || done.
Qed.

(** The callback of a pending future, if it has one, has run. *)
Definition run_callback a : M (fut CB W) unit :=
  match cancel_callback a with Some cb => run_cb cb | None => mret tt end.

Lemma run_callback_ok s p a :
  asyncs s !! p = Some a →
  (∀ cb, cancel_callback a = Some cb → ∃ r s', run_cb cb s = Fin r s' ∧ gives_back p s s') →
  (∀ q b, asyncs s !! q = Some b → 0 < ref_count b) →
  ∃ r s', run_callback a s = Fin r s' ∧ gives_back p s s'.
Proof.
  intros Hp Hcb Hrc. unfold run_callback. destruct (cancel_callback a) as [cb|]; [by apply Hcb|].
  exists (Ok tt), s. split; [done|]. split; [done|]. split; [done|]. split; [done|].
  intros q b Hq. right. exists (ref_count b). pose proof (Hrc q b Hq). split; [lia|]. by destruct b.
Qed.

(** A callback that fails: the future stays as it is. *)
Lemma step_cancle_err c s p s1 e :
  fut_inv c s → run_fut_op (FCancle p) s = Fin (Err e) s1 → gives_back p s s1 → step_ok c s (FCancle p).
Proof.
  intros Hi E Hg. pose proof (gives_back_inv c p s s1 Hi Hg) as Hi1. destruct Hg as (En & _ & Hn & Hs).
  exists (Err e), s1. split; [done|]. split; [done|]. split; [lia|].
  assert (Hns : ∀ q, ~ settles q (FCancle p, Err e) ∧ ~ takes q (FCancle p, Err e)) by (intros q; split; by intros []).
  split_and!.
  - intros q a Hq. destruct (Hns q). destruct (Hs q a Hq) as [[_ ?]|(n & _ & ?)]; [by left|right].
    eexists. split; [done|]. by right; right.
  - intros q a' Hq. rewrite (Hn q Hq). done.
  - intros q _. apply Hns.
Qed.

(** A callback that succeeds, or none: the future is cancelled. *)
Lemma step_cancle_ok c s p a s1 n w :
  fut_inv c s → asyncs s !! p = Some a → fstate a = PENDING → gives_back p s s1 →
  asyncs s1 !! p = Some (set_refs n a) → wk_inv c w →
  run_fut_op (FCancle p) s = Fin (Ok 0) (set_waker w (set_asyncs <[p := set_fstate CANCLED (set_refs n a)]> s1)) →
  step_ok c s (FCancle p).
Proof.
  intros Hi Hp Es Hg E1 Hw E. pose proof (gives_back_inv c p s s1 Hi Hg) as Hi1.
  destruct (fi_async _ _ Hi1 p _ E1) as (_ & _ & Hr).
  pose proof (put_inv c s1 p _ (set_fstate CANCLED (set_refs n a)) Hi1 E1 eq_refl Hr) as [_ P2 P3].
  destruct Hg as (En & _ & Hn & Hs).
  eexists (Ok 0), _. split; [exact E|]. split; [by split|]. split; [simpl; lia|]. simpl.
  assert (Hns : ∀ q, q ≠ p → ~ settles q (FCancle p, Ok 0) ∧ ~ takes q (FCancle p, Ok 0))
    by (intros q Hq; split; [by intros ->|by intros []]).
  split_and!.
  - intros q b Hq. destruct (decide (q = p)) as [->|Hne].
    + right. rewrite lookup_insert_eq. eexists. split; [done|]. left. assert (b = a) as -> by congruence.
      by split_and!.
    + rewrite lookup_insert_ne by done. destruct (Hns q Hne). destruct (Hs q b Hq) as [[_ ?]|(n' & _ & ?)]; [by left|right].
      eexists. split; [done|]. by right; right.
  - intros q b Hq. rewrite lookup_insert_ne by congruence. by rewrite (Hn q Hq).
  - intros q Hq. apply Hns. congruence.
Qed.

Lemma step_cancle c s p : fut_inv c s → fut_op_ok s (FCancle p) → step_ok c s (FCancle p).
Proof.
  intros Hi (a & Hp & Hcb). destruct (fi_async _ _ Hi p a Hp) as (Hpos & Hwd & Hrc).
  assert (Erun : run_fut_op (FCancle p) s =
    (_ ← match fstate a with
         | PENDING => _ ← run_callback a; b ← get_async p; _ ← put_async p (set_fstate CANCLED b);
             _ ← with_waker (wk_wake_all (wait_wd b)); mret tt
         | COMPLETE | ERROR => fail FUTURE_ERROR
         | CANCLED => fail FUTURE_CANCLED
         | CONSUMED => fail FUTURE_CONSUMED
         end; mret 0) s).
  { cbn [run_fut_op]. unfold cancle. rewrite (proj2 (Z.eqb_neq p 0)) by lia. unfold mbind, M_bind.
    by rewrite (get_async_run s p a Hp). }
  destruct (fstate a) eqn:Es; [|by eapply step_err, Hi; rewrite Erun..].
  destruct (run_callback_ok s p a Hp Hcb) as (r & s1 & E1 & Hg).
  { intros q b Hq. apply (fi_async _ _ Hi q b Hq). }
  unfold mbind, M_bind in Erun. rewrite E1 in Erun. destruct r as [[]|e]; [|by eapply step_cancle_err].
  pose proof (gives_back_inv c p s s1 Hi Hg) as Hi1.
  destruct (proj2 (proj2 (proj2 Hg)) p a Hp) as [[? _]|(n & _ & Ep)]; [done|].
  destruct (wk_wake_ok c (waker s1) (wait_wd a)) as (k & w & Ew & Hiw); [apply Hi1|done|].
  rewrite (get_async_run s1 p _ Ep) in Erun. unfold put_async, modify, with_waker in Erun. simpl in Erun.
  rewrite Ew in Erun. by eapply step_cancle_ok.
Qed.

Lemma step_value c s void p : fut_inv c s → is_Some (asyncs s !! p) → step_ok c s (FValue void p).
Proof.
  intros Hi [a Hp]. destruct (fi_async _ _ Hi p a Hp) as (Hpos & Hwd & Hrc).
  assert (Erun : run_fut_op (FValue void p) s =
    (match fstate a with
    | PENDING => fail FUTURE_PENDING
    | ERROR => fail (ferror a)
    | CANCLED => fail FUTURE_CANCLED
    | CONSUMED => fail FUTURE_CONSUMED
    | COMPLETE =>
        if void then _ ← put_async p (set_fstate CONSUMED a); mret 0
        else
          match fvalue a with
          | None => fail FUTURE_ERROR
          | Some v => _ ← put_async p (set_fstate CONSUMED (set_fvalue None a)); mret v
          end
    end) s).
  { cbn [run_fut_op]. unfold value. rewrite (proj2 (Z.eqb_neq p 0)) by lia.
    by rewrite (bind_run _ _ _ _ _ (get_async_run s p a Hp)). }
  destruct (fstate a) eqn:Es; try (by eapply step_err).
  destruct void.
  - apply (step_put c s (FValue true p) (Ok 0) p a (set_fstate CONSUMED a) (waker s) Hp Erun).
    + by apply (put_inv c s p a).
    + right; left. split_and!; try done.
    + intros q Hq. split; [by intros []|by intros ->].
  - destruct (fvalue a) as [v|] eqn:Ev.
    + apply (step_put c s (FValue false p) (Ok v) p a (set_fstate CONSUMED (set_fvalue None a)) (waker s) Hp Erun).
      * by apply (put_inv c s p a).
      * right; left. split_and!; try done. intros v' [= <-]. done.
      * intros q Hq. split; [by intros []|by intros ->].
    + by eapply step_err.
Qed.

Lemma fut_step c s op : fut_inv (S c) s → fut_op_ok s op → step_ok c s op.
Proof.
  intros Hi Hop. pose proof (fut_inv_less c s Hi) as Hi0.
  destruct op as [|p|p|p cb|p v|p e|p|p|void p|p]; simpl in Hop.
  - by apply step_new.
  - destruct Hop as (a & Hp & Hr). destruct (acquire_run c s p a Hi0 Hp Hr) as [E Hi'].
    apply (step_put c s (FFuture p) (Ok p) p a (set_refs (ref_count a + 1) a) (waker s) Hp).
    + cbn [run_fut_op]. unfold future_of. by rewrite (bind_run _ _ _ _ _ E).
    + done.
    + right; right. split_and!; try done; by intros [].
    + intros q _. split; by intros [].
  - by apply step_release.
  - destruct Hop as [a Hp]. destruct (fi_async _ _ Hi0 p a Hp) as (Hpos & _ & Hrc).
    apply (step_put c s (FCallback p cb) (Ok 0) p a (set_callback cb a) (waker s) Hp).
    + cbn [run_fut_op]. unfold set_cancel_callback. rewrite (proj2 (Z.eqb_neq p 0)) by lia.
      unfold mbind, M_bind. by rewrite (get_async_run s p a Hp).
    + by apply (put_inv c s p a).
    + right; right. split_and!; try done; by intros [].
    + intros q _. split; by intros [].
  - destruct Hop as [a Hp].
    apply (step_settle c s (FSetValue p v) p a
      (λ a, set_fstate COMPLETE (match v with Some _ => set_fvalue v a | None => a end)) Hi0 Hp); try done;
      [by destruct v|by destruct v|intros _; exists v; by destruct v].
  - destruct Hop as [a Hp]. by apply (step_settle c s (FSetError p e) p a (λ a, set_fstate ERROR (set_ferror e a)) Hi0 Hp).
  - destruct Hop as [a Hp]. by apply (step_settle c s (FSetCancled p) p a (set_fstate CANCLED) Hi0 Hp).
  - by apply step_cancle.
  - by apply step_value.
  - destruct Hop as [a Hp]. destruct (fi_async _ _ Hi0 p a Hp) as (Hpos & _ & _).
    apply (step_same c s (FReadable p) (Ok (Z.b2z (future_ready_state (fstate a))))); [|done|].
    + cbn [run_fut_op]. unfold readable. rewrite (proj2 (Z.eqb_neq p 0)) by lia. unfold mbind, M_bind.
      by rewrite (get_async_run s p a Hp).
    + intros q. split; by intros [].
Qed.

(** ** Changing one future *)

Implicit Types (g : fut CB W).
(** What is left of a future once its promise is deleted. *)
Definition left_over a : option (AsyncState CB) :=
  if ref_count a =? 1 then None else Some (set_refs (ref_count a - 1) a).

Lemma left_over_state a b : left_over a = Some b → fstate b = fstate a ∧ fvalue b = fvalue a ∧ ferror b = ferror a.
Proof. unfold left_over. case_match; [done|]. by intros [= <-]. Qed.
(** What a change of one future does to the heap of futures. *)
Record touched (c : nat) (g g' : fut CB W) (f : Z) (x : option (AsyncState CB)) : Prop := {
  td_inv : fut_inv c g';
  td_at : asyncs g' !! f = x;
  td_off : ∀ y, y ≠ f → asyncs g' !! y = asyncs g !! y;
  td_next : next_async g' = next_async g
}.

Lemma set_value_run c g f a v :
  fut_inv c g → asyncs g !! f = Some a → fstate a = PENDING →
  ∃ g', set_value f v g = Fin (Ok tt) g' ∧
    touched c g g' f (Some (set_fstate COMPLETE (match v with Some _ => set_fvalue v a | None => a end))).
Proof.
  intros Hi Ha Hp. unfold set_value.
  pose proof (settle_run c g f a (λ a, set_fstate COMPLETE (match v with Some _ => set_fvalue v a | None => a end)) Hi Ha) as Hr.
  rewrite bool_decide_eq_true_2 in Hr by done. destruct Hr as (w & E & Hi'); [by destruct v|by destruct v|].
  eexists. split; [exact E|]. split; [done| | |done]; simpl; [by rewrite lookup_insert_eq|].
  intros y Hy. by rewrite lookup_insert_ne.
Qed.
Lemma release_touched c g f a :
  fut_inv c g → asyncs g !! f = Some a →
  ∃ g', release f g = Fin (Ok tt) g' ∧
    touched c g g' f (left_over a).
Proof.
  intros Hi Ha. destruct (fut_release_run c g f a Hi Ha) as [E Hi']. eexists. split; [exact E|]. unfold left_over.
  split; [done| | |by case_match]; case_match; simpl.
  - apply lookup_delete_eq.
  - by rewrite lookup_insert_eq.
  - intros y Hy. by rewrite lookup_delete_ne.
  - intros y Hy. by rewrite lookup_insert_ne.
Qed.
Lemma callback_touched c g f a cb :
  fut_inv c g → asyncs g !! f = Some a →
  ∃ g', set_cancel_callback f cb g = Fin (Ok tt) g' ∧ touched c g g' f (Some (set_callback cb a)).
Proof.
  intros Hi Ha. destruct (fi_async _ _ Hi f a Ha) as (Hf & _ & Hr). unfold set_cancel_callback.
  rewrite (proj2 (Z.eqb_neq f 0)) by lia. rewrite (bind_run _ _ _ _ _ (get_async_run _ _ _ Ha)).
  eexists. split; [reflexivity|]. split; [by apply (put_inv c g f a)| | |done]; simpl; [by rewrite lookup_insert_eq|].
  intros y Hy. by rewrite lookup_insert_ne.
Qed.

(** A new promise and the future made from it. *)
Definition fresh_async (wd : Z) : AsyncState CB := mkAsync PENDING wd 2 FUTURE_ERROR None None.
Lemma promise_future_run c g :
  fut_inv (S c) g →
  ∃ g1 g2 wd, new_promise true g = Fin (Ok (next_async g)) g1 ∧ future_of (next_async g) g1 = Fin (Ok (next_async g)) g2 ∧
    fut_inv c g2 ∧ asyncs g2 !! next_async g = Some (fresh_async wd) ∧
    (∀ y, y ≠ next_async g → asyncs g2 !! y = asyncs g !! y) ∧ asyncs g !! next_async g = None.
Proof.
  intros Hi. destruct (new_promise_run c g Hi) as (wd & w & E & Hi1).
  set (g1 := mkFut (<[next_async g := mkAsync PENDING wd 1 FUTURE_ERROR None None]> (asyncs g)) (next_async g + 1) w) in *.
  assert (Ha : asyncs g1 !! next_async g = Some (mkAsync PENDING wd 1 FUTURE_ERROR None None)) by apply lookup_insert_eq.
  destruct (acquire_run c g1 _ _ Hi1 Ha) as [E2 Hi2]; [done|].
  eexists g1, _, wd. split; [exact E|]. split; [unfold future_of; by rewrite (bind_run _ _ _ _ _ E2)|].
  split; [exact Hi2|]. split_and!.
  - apply lookup_insert_eq.
  - intros y Hy. simpl. by rewrite !lookup_insert_ne.
  - destruct (asyncs g !! next_async g) as [a|] eqn:Ea; [|done]. destruct (fi_async _ _ Hi _ _ Ea). lia.
Qed.

Lemma value_touched c g void f a :
  fut_inv c g → asyncs g !! f = Some a →
  ∃ r g' b, value void f g = Fin r g' ∧ touched c g g' f (Some b) ∧ cancel_callback b = cancel_callback a ∧
    (fstate b = fstate a ∨ (fstate a = COMPLETE ∧ fstate b = CONSUMED)).
Proof.
  intros Hi Ha. destruct (fi_async _ _ Hi f a Ha) as (Hf & Hw & Hr).
  assert (Hput : ∀ b, wait_wd b = wait_wd a → ref_count b = ref_count a → touched c g (set_asyncs <[f := b]> g) f (Some b)).
  { intros b Eb1 Eb2. split; [apply (put_inv c g f a); try done; by rewrite Eb2|apply lookup_insert_eq| |done].
    intros y Hy. by apply lookup_insert_ne. }
  unfold value. rewrite (proj2 (Z.eqb_neq f 0)) by lia. rewrite (bind_run _ _ _ _ _ (get_async_run g f a Ha)).
  assert (Hsame : touched c g g f (Some a)) by (by split).
  destruct (fstate a) eqn:Es; try (eexists _, g, a; split; [reflexivity|]; by auto).
  destruct void; [|destruct (fvalue a) as [v|]; [|eexists _, g, a; split; [reflexivity|]; by auto]];
    (eexists _, _, _; split; [reflexivity|]; split; [by apply Hput|]; by auto).
Qed.

(** ** Traces *)

(** How often [p] can still be settled and read, and the value it holds. *)
Definition may_settle s (p : Z) : nat :=
  match asyncs s !! p with
  | Some a => if bool_decide (fstate a = PENDING) then 1 else 0
  | None => if bool_decide (next_async s <= p) then 1 else 0
  end.
Definition may_take s (p : Z) : nat :=
  match asyncs s !! p with
  | Some a => match fstate a with PENDING | COMPLETE => 1 | _ => 0 end
  | None => if bool_decide (next_async s <= p) then 1 else 0
  end.
Definition holds_value s (p v : Z) : Prop :=
  ∃ a, asyncs s !! p = Some a ∧ fstate a = COMPLETE ∧ fvalue a = Some v.

(** No value before the future is complete. *)
Definition no_early s (p : Z) : Prop := ∀ a, asyncs s !! p = Some a → fstate a = PENDING → fvalue a = None.

Definition once (p : Z) s (l : list (fut_op * Result Z)) : Prop :=
  (length (filter (settles p) l) <= may_settle s p)%nat ∧
  (length (filter (takes p) l) <= may_take s p)%nat ∧
  (∀ l1 v l2, l = l1 ++ (FValue false p, Ok v) :: l2 →
     holds_value s p v ∨ ∃ r, (FSetValue p (Some v), Ok r) ∈ l1).

(** One more event in front. *)
Lemma once_cons s s1 p e l :
  ((if decide (settles p e) then 1 else 0) + may_settle s1 p <= may_settle s p)%nat →
  ((if decide (takes p e) then 1 else 0) + may_take s1 p <= may_take s p)%nat →
  (∀ v, e = (FValue false p, Ok v) → holds_value s p v) →
  (∀ v, holds_value s1 p v → holds_value s p v ∨ ∃ r, e = (FSetValue p (Some v), Ok r)) →
  once p s1 l → once p s (e :: l).
Proof.
  intros H1 H2 H3 H4 (O1 & O2 & O3). split_and!.
  - destruct (decide (settles p e)); [rewrite filter_cons_True by done|rewrite filter_cons_False by done]; simpl; lia.
  - destruct (decide (takes p e)); [rewrite filter_cons_True by done|rewrite filter_cons_False by done]; simpl; lia.
  - intros [|e1 l1] v l2 E; simpl in E; injection E as -> El.
    + left. by apply H3.
    + destruct (O3 l1 v l2 El) as [Hh|[r Hr]].
      * destruct (H4 v Hh) as [?|[r ->]]; [by left|right]. exists r. left.
      * right. exists r. by right.
Qed.

Lemma settles_not_takes p e : settles p e → ~ takes p e.
Proof. destruct e as [[] []]; simpl; tauto. Qed.

Lemma moves_once s s1 p a a' e l :
  asyncs s !! p = Some a → asyncs s1 !! p = Some a' → no_early s p → moves p a a' e →
  no_early s1 p ∧ (once p s1 l → once p s (e :: l)).
Proof.
  intros Ea Ea' He [(M1 & M2 & M3 & M4)|[(M1 & M2 & M3 & M4)|(M1 & M2 & M3 & M4)]].
  - split; [intros b Hb Hp; congruence|]. apply once_cons; unfold may_settle, may_take, holds_value; rewrite ?Ea, ?Ea'.
    + rewrite decide_True, bool_decide_eq_false_2, bool_decide_eq_true_2 by done. lia.
    + rewrite decide_False by (by apply settles_not_takes). rewrite M2. destruct (fstate a'); lia.
    + intros v ->. by destruct M1.
    + intros v (b & [= <-] & Hc & Hv). right. destruct (M4 Hc) as (v0 & r & -> & Hv0).
      destruct v0 as [v0|]; [|by rewrite (He a Ea M2) in Hv0; congruence]. exists r. congruence.
  - split; [intros b Hb Hp; congruence|]. apply once_cons; unfold may_settle, may_take, holds_value; rewrite ?Ea, ?Ea'.
    + rewrite decide_False by (intros Hs%settles_not_takes; by apply Hs).
      rewrite !bool_decide_eq_false_2 by congruence. lia.
    + rewrite decide_True, M2, M3 by done. lia.
    + intros v ->. exists a. split_and!; [done|done|by apply M4].
    + intros v (b & [= <-] & Hc & _). congruence.
  - split; [intros b Hb Hp; simplify_eq; rewrite M4; apply (He a Ea); congruence|].
    apply once_cons; unfold may_settle, may_take, holds_value; rewrite ?Ea, ?Ea'.
    + rewrite decide_False, M3 by done. lia.
    + rewrite decide_False, M3 by done. lia.
    + intros v ->. by destruct M2.
    + intros v (b & [= <-] & Hc & Hv). left. exists a. split_and!; congruence.
Qed.

Lemma once_step c s op r s1 l p :
  fut_inv (S c) s → no_early s p → fut_op_ok s op → run_fut_op op s = Fin r s1 →
  fut_inv c s1 ∧ no_early s1 p ∧ (once p s1 l → once p s ((op, r) :: l)).
Proof.
  intros Hi He Hop Erun. destruct (fut_step c s op Hi Hop) as (r' & s' & E & Hi' & Hmono & Hold & Hnew & Hnone).
  rewrite Erun in E. injection E as <- <-. split; [done|]. destruct (asyncs s !! p) as [a|] eqn:Ea.
  - destruct (fi_async _ _ Hi p a Ea) as (Hlt & _ & _).
    destruct (Hold p a Ea) as [(Hgone & Hs & Ht)|(a' & Ea' & Hm)]; [|by apply (moves_once s s1 p a a')].
    split; [intros b Hb; congruence|]. apply once_cons; unfold may_settle, may_take, holds_value; rewrite ?Ea, ?Hgone.
    + rewrite decide_False, bool_decide_eq_false_2 by (done || lia). lia.
    + rewrite decide_False, bool_decide_eq_false_2 by (done || lia). lia.
    + intros v [= -> ->]. by destruct Ht.
    + intros v (b & ? & _). congruence.
  - destruct (Hnone p Ea) as [Hs Ht].
    assert (Hlater : (may_settle s1 p <= may_settle s p)%nat ∧ (may_take s1 p <= may_take s p)%nat ∧
      no_early s1 p ∧ ∀ v, ~ holds_value s1 p v).
    { unfold may_settle, may_take, no_early, holds_value. rewrite Ea. destruct (asyncs s1 !! p) as [a'|] eqn:Ea'.
      - destruct (Hnew p a' Ea Ea') as (-> & _ & Hp & Hv). rewrite Hp, !bool_decide_eq_true_2 by (done || lia).
        split_and!; [lia|lia|intros b [= <-]; done|]. intros v (b & [= <-] & Hc & _). congruence.
      - split_and!; [| |done|by intros v (b & ? & _)];
          (case_bool_decide; [rewrite bool_decide_eq_true_2 by lia; lia|destruct (bool_decide _); lia]). }
    destruct Hlater as (L1 & L2 & L3 & L4). split; [done|]. apply once_cons.
    + rewrite decide_False by done. lia.
    + rewrite decide_False by done. lia.
    + intros v [= -> ->]. by destruct Ht.
    + intros v Hh. by destruct (L4 v).
Qed.

Lemma once_trace s l s' p : ftrace s l s' → fut_inv (length l) s → no_early s p → once p s l.
Proof.
  induction 1 as [s|s op r s1 l s2 Hop Erun Htr IH]; intros Hi He.
  - split_and!; simpl; [lia|lia|]. by intros [|? ?] v l2 E.
  - destruct (once_step (length l) s op r s1 l p Hi He Hop Erun) as (Hi1 & He1 & Hc). apply Hc, IH; done.
Qed.

(** C7: a future is settled once and read once, when the operations on futures do not
    interrupt each other.  In every sequence of whole operations ([Promise], [future],
    deletions, [set_cancel_callback], [set_value], [set_error], [set_cancled], [cancle],
    [value], [readable]), started before the future exists: at most one of the calls
    that settle it (a value, an error, a cancellation from either side) succeeds, its
    value is taken at most once, and the value taken is the one that a successful
    [set_value] stored before.  A callback that [cancle] runs may fail or succeed and
    may delete promises, but not the last reference to the future; counts stay below
    2^64.  Nothing is said of an operation that is preempted in the middle by another
    one on the same future, against which [future_begin_update] does not protect. *)
Theorem future_settled_and_read_once s l s' p :
  ftrace s l s' → fut_inv (length l) s → next_async s <= p →
  (length (filter (settles p) l) <= 1)%nat ∧ (length (filter (takes p) l) <= 1)%nat ∧
  ∀ l1 v l2, l = l1 ++ (FValue false p, Ok v) :: l2 → ∃ r, (FSetValue p (Some v), Ok r) ∈ l1.
Proof.
  intros Htr Hi Hp. assert (Hn : asyncs s !! p = None).
  { destruct (asyncs s !! p) as [a|] eqn:Ea; [|done]. destruct (fi_async _ _ Hi p a Ea). lia. }
  destruct (once_trace s l s' p Htr Hi) as (O1 & O2 & O3); [intros a Ha; congruence|].
  unfold may_settle, may_take, holds_value in *. rewrite Hn, bool_decide_eq_true_2 in * by done.
  split_and!; [done|done|]. intros l1 v l2 E. destruct (O3 l1 v l2 E) as [(a & ? & _)|?]; [congruence|done].
Qed.
End spec.

End Future.

(** ** The wait queues implement the interface *)

(** [m] does not change what [f] reads. *)
Definition keeps {S A B} (f : S → B) (m : M S A) : Prop := ∀ s r s', m s = Fin r s' → f s' = f s.

Section keeps.
Context {S B : Type} (f : S → B).
Lemma keeps_bind {A C} (m : M S A) (k : A → M S C) : keeps f m → (∀ x, keeps f (k x)) → keeps f (mbind k m).
Proof.
  intros Hm Hk s r s'. unfold mbind, M_bind. destruct (m s) as [[x|e] s1| |] eqn:E; try done.
  - intros E2. rewrite (Hk x s1 r s' E2). by apply (Hm s (Ok x)).
  - intros [= _ <-]. by apply (Hm s (Err e)).
Qed.
Lemma keeps_attempt {A} (m : M S A) : keeps f m → keeps f (attempt m).
Proof. intros Hm s r s'. unfold attempt. destruct (m s) as [x s1| |] eqn:E; try done. intros [= _ <-]. by apply (Hm s x). Qed.
Lemma keeps_ret {A} (x : A) : keeps f (mret x : M S A).
Proof. by intros s r s' [= _ <-]. Qed.
Lemma keeps_fail {A} e : keeps f (fail e : M S A).
Proof. by intros s r s' [= _ <-]. Qed.
Lemma keeps_gets {A} (g : S → A) : keeps f (gets g).
Proof. by intros s r s' [= _ <-]. Qed.
Lemma keeps_panic {A} : keeps f (panic : M S A).
Proof. done. Qed.
Lemma keeps_of_result {A} (x : Result A) : keeps f (of_result x : M S A).
Proof. destruct x; by intros s r s' [= _ <-]. Qed.
End keeps.
Create HintDb keeps discriminated.
#[export] Hint Resolve keeps_ret keeps_fail keeps_gets keeps_panic keeps_of_result keeps_attempt : keeps.
Ltac keeps_step :=
  first [ solve [eauto with keeps nocore] | apply keeps_bind; [|intro] | apply keeps_attempt | case_match ].
Ltac keeps_solve := repeat keeps_step.

Module FutureSched.
Import Future.

(** No wake-up touches the counter that descriptors are numbered from. *)
Lemma get_tcb_keeps p : keeps next_wd (get_tcb p).
Proof. intros s r s'. unfold get_tcb. by case_match; intros [= _ <-]. Qed.
Lemma upd_tcb_keeps p g : keeps next_wd (upd_tcb p g).
Proof. apply keeps_bind; [apply get_tcb_keeps|]. by intros t s r s' [= _ <-]. Qed.
Lemma put_queue_keeps wd q : keeps next_wd (put_queue wd q).
Proof. by intros s r s' [= _ <-]. Qed.
#[export] Hint Resolve get_tcb_keeps upd_tcb_keeps put_queue_keeps : keeps.

Lemma cls_enqueue_keeps c p : keeps next_wd (cls_enqueue c p).
Proof.
  destruct c; simpl; unfold rt_enqueue, rr_enqueue, fcfs_enqueue, init_enqueue, idle_enqueue; keeps_solve;
    intros s r s' [= _ <-]; try done. unfold write_slot. by case_match.
Qed.
#[export] Hint Resolve cls_enqueue_keeps : keeps.
Lemma dispatch_waiter_keeps p : keeps next_wd (dispatch_waiter p).
Proof.
  unfold dispatch_waiter, wakeup_waiting, wakeup, try_wakeup, enqueue, check_preempt_curr. keeps_solve.
Qed.
Lemma run_wait_predicate_keeps p : keeps next_wd (run_wait_predicate p).
Proof. unfold run_wait_predicate. keeps_solve. Qed.
#[export] Hint Resolve dispatch_waiter_keeps run_wait_predicate_keeps : keeps.
Lemma wake_all_loop_keeps n wd count : keeps next_wd (wake_all_loop n wd count).
Proof. revert count. induction n as [|n IH]; intros count; cbn [wake_all_loop]; unfold clear_wait_metadata; keeps_solve. Qed.

Lemma wake_all_ok s wd :
  wait_inv s → wd ≠ 0 → ∃ n s', wake_all wd s = Fin (Ok n) s' ∧ wait_inv s' ∧ next_wd s' = next_wd s.
Proof.
  intros Hi Hwd. unfold wake_all, queue_if_exists. rewrite (proj2 (Z.eqb_neq wd 0)) by done.
  unfold mbind, M_bind, gets. simpl. destruct (wait_queues s !! wd) as [q|] eqn:Eq; [|by exists 0, s].
  destruct (wake_all_loop_spec q [] wd s 0 Hi) as (s' & E & Ha); [by rewrite app_nil_r|].
  rewrite E. eexists _, s'. split; [done|]. split; [apply Ha|]. by apply (wake_all_loop_keeps _ _ _ _ _ _ E).
Qed.

(** Descriptors are numbered from 1 and never reused: [c] more of them stay below
    2^64. *)
#[export, program] Instance sched_waker : Waker sched := {
  wk_alloc := alloc_reason;
  wk_wake_all := wake_all;
  wk_inv c s := wait_inv s ∧ 0 < next_wd s ∧ next_wd s + Z.of_nat c < W64;
}.
Next Obligation. intros c s (H1 & H2 & H3). split_and!; [done|done|lia]. Qed.
Next Obligation.
  intros c s ([Hs Hq] & H2 & H3). unfold alloc_reason, mbind, M_bind, gets, modify, mret, M_ret.
  eexists _, _. split; [reflexivity|]. split; [lia|]. simpl. unfold add64. rewrite wrap64_small by (unfold is_u64; lia).
  split_and!; [|lia|lia]. split; [|done]. destruct Hs as [[] Hc Hi]. by split; [split| |].
Qed.
Next Obligation.
  intros c s wd (H1 & H2 & H3) Hwd. destruct (wake_all_ok s wd H1 Hwd) as (n & s' & E & Hi & En).
  exists n, s'. split; [done|]. by rewrite En.
Qed.
End FutureSched.

Module FutureWitness.
Import Future FutureSched WaitWitness.

(** Thread 6 does not accept a wake-up and stays in queue 9, threads 7 and 8 are
    woken by [set_value]. *)
Definition ex_fut {CB} : fut CB sched := mkFut ∅ 1 (set_next_wd 9 ex_wait).
(** The callback of the example deletes a promise and reports a result. *)
Definition ex_cb : Type := Z * Result unit.
Definition ex_run (cb : ex_cb) : M (fut ex_cb sched) unit := _ ← release cb.1; of_result cb.2.
Definition ex_ops : list (fut_op (CB:=ex_cb)) :=
  [FNew; FFuture 1; FValue false 1; FCallback 1 (Some (1, Err BUSY)); FFuture 1; FCancle 1;
   FSetValue 1 (Some 42); FSetError 1 BUSY; FCancle 1;
   FReadable 1; FValue false 1; FValue false 1; FRelease 1].
Definition ex_events : list (fut_op (CB:=ex_cb) * Result Z) :=
  zip ex_ops [Ok 1; Ok 1; Err FUTURE_PENDING; Ok 0; Ok 1; Err BUSY; Ok 0; Err BUSY; Err FUTURE_ERROR;
              Ok 1; Ok 42; Err FUTURE_CONSUMED; Ok 0].

Lemma ex_fut_inv {CB} c : Z.of_nat c + 9 < W64 → fut_inv c (@ex_fut CB).
Proof.
  intros Hc. split; [|simpl; intros p a; by rewrite lookup_empty|done].
  split; [|split; [done|simpl; lia]]. destruct ex_wait_inv as [[[] Hcu Hi] Hq]. split; [|done]. by split; [split| |].
Qed.

(** The callback gives one of the three references back, and fails. *)
Lemma ex_gives_back s a :
  asyncs s !! 1 = Some a → 1 < ref_count a → (∀ q b, asyncs s !! q = Some b → 0 < ref_count b) →
  ∃ r s', ex_run (1, Err BUSY) s = Fin r s' ∧ gives_back 1 s s'.
Proof.
  intros Ha Hr Hpos. unfold ex_run, release, mbind, M_bind. cbn -[Z.ltb Z.sub]. unfold get_async. rewrite Ha.
  unfold massert. rewrite (proj2 (Z.ltb_lt 0 _)) by lia. rewrite (proj2 (Z.eqb_neq (ref_count a - 1) 0)) by lia.
  eexists _, _. split; [reflexivity|]. split; [done|]. split; [done|]. split; simpl.
  - intros q Hq. rewrite lookup_insert_ne; [done|congruence].
  - intros q b Hq. right. destruct (decide (q = 1)) as [->|Hne].
    + exists (ref_count a - 1). rewrite lookup_insert_eq. assert (b = a) as -> by congruence. split; [lia|done].
    + exists (ref_count b). rewrite lookup_insert_ne by done. rewrite Hq. split; [|by destruct b].
      pose proof (Hpos q b Hq). lia.
Qed.

Definition counts_ok (s : fut ex_cb sched) : bool :=
  forallb (λ x, bool_decide (0 < ref_count x.2)) (map_to_list (asyncs s)).
Lemma counts_positive s : counts_ok s = true → ∀ q b, asyncs s !! q = Some b → 0 < ref_count b.
Proof.
  intros Hc q b Hq. unfold counts_ok in Hc. rewrite forallb_forall in Hc.
  specialize (Hc (q, b)). apply bool_decide_eq_true in Hc; [done|].
  by apply list_elem_of_In, elem_of_map_to_list.
Qed.

Lemma ex_trace : ∃ s', ftrace ex_run ex_fut ex_events s'.
Proof.
  eexists. unfold ex_events, ex_ops. simpl.
  repeat (eapply ft_step;
    [first [exact I | by eexists | by (eexists; split; [vm_compute; reflexivity|])
           | eexists; split; [vm_compute; reflexivity|]; intros cb [= <-]; eapply ex_gives_back;
             [vm_compute; reflexivity|done|by apply counts_positive]]
    |vm_compute; reflexivity|]).
  apply ft_nil.
Qed.

Lemma future_settled_and_read_once_witness :
  (∃ s', ftrace ex_run ex_fut ex_events s') ∧
  (length (filter (settles 1) ex_events) <= 1)%nat ∧ (length (filter (takes 1) ex_events) <= 1)%nat ∧
  ∃ r, (FSetValue 1 (Some 42), Ok r) ∈ take 10 ex_events.
Proof.
  split; [exact ex_trace|]. destruct ex_trace as [s' Htr].
  destruct (future_settled_and_read_once ex_run ex_fut ex_events s' 1 Htr) as (H1 & H2 & H3);
    [by apply ex_fut_inv|simpl; lia|].
  split; [done|]. split; [done|]. apply (H3 (take 10 ex_events) 42 (drop 11 ex_events)). reflexivity.
Defined.
End FutureWitness.
