(* ===== verification/Endpoint.v ===== *)
(** * IPC endpoints

    kernel/object/endpoint.cpp: [EndpointObject::send] and [recv], the callbacks
    that cancelling a send or a receive runs, and the destructor of the payload.
    Messages and pending requests live in heaps; promises and futures are those of
    [Future].  The intrusive lists of a payload are the sequences [IList] shows them
    to be.  The reply objects of the same file are in [Reply]. *)
From S2P Require Import Prelude ErrCode Capability Sched Wait Future.
Import Future.

#[local] Open Scope Z_scope.

Definition MAX_MSG_SIZE : Z := 128.
Definition MAX_MSG_CAPS : Z := 4.
Definition ENDPOINT_GRANT : Z := 0x010000.
Definition ENDPOINT_READ : Z := 0x020000.
Definition ENDPOINT_WRITE : Z := 0x040000.

(** A null buffer is [None]; a buffer holds at least the elements its size says. *)
Record EndpointMsgView := mkView { v_msgbuf : option (list Z); v_msgsz : Z; v_capidxs : option (list Z); v_capsz : Z }.

Record EndpointMessage := mkMsg {
  sender_pid : Z; m_msgbuf : list Z; m_msgsz : Z; m_capidxs : list Z; m_capsz : Z
}.

Definition check_msg_valid (v : EndpointMsgView) : Result unit :=
  if (MAX_MSG_SIZE <? v_msgsz v) || (MAX_MSG_CAPS <? v_capsz v) then Err OUT_OF_BOUNDARY
  else if negb (v_msgsz v =? 0) && bool_decide (v_msgbuf v = None) then Err NULLPTR
  else if negb (v_capsz v =? 0) && bool_decide (v_capidxs v = None) then Err NULLPTR
  else Ok tt.

(** The first [n] elements of a buffer written over a zeroed array of [size]. *)
Definition copy_into (size n : Z) (buf : option (list Z)) : list Z :=
  let l := take (Z.to_nat n) (default [] buf) in l ++ replicate (Z.to_nat size - length l) 0.

Definition message_of (pid : Z) (v : EndpointMsgView) : EndpointMessage :=
  mkMsg pid (copy_into MAX_MSG_SIZE (v_msgsz v) (v_msgbuf v)) (v_msgsz v)
    (copy_into MAX_MSG_CAPS (v_capsz v) (v_capidxs v)) (v_capsz v).

(** Which of the allocations of a call succeed. *)
Record allocs := mkAllocs { msg_ok : bool; pending_ok : bool; state_ok : bool }.

Module Endpoint.

(** What a cancel callback captured. *)
Inductive CB := CbSend (pending : Z) | CbRecv (pending : Z).

Record PendingEndpointSend := mkPS { ps_message : Z; ps_promise : Z }.

Section endpoint.
Context {W : Type} `{Waker W}.

Record ep := mkEp {
  messages : list Z;
  pending_sends : list Z;
  pending_recvs : list Z;
  msgs : gmap Z EndpointMessage;
  sends : gmap Z PendingEndpointSend;
  recvs : gmap Z Z;
  next_ptr : Z;
  futs : fut CB W
}.
Definition set_messages f s := mkEp (f (messages s)) (pending_sends s) (pending_recvs s) (msgs s) (sends s) (recvs s) (next_ptr s) (futs s).
Definition set_pending_sends f s := mkEp (messages s) (f (pending_sends s)) (pending_recvs s) (msgs s) (sends s) (recvs s) (next_ptr s) (futs s).
Definition set_pending_recvs f s := mkEp (messages s) (pending_sends s) (f (pending_recvs s)) (msgs s) (sends s) (recvs s) (next_ptr s) (futs s).
Definition set_msgs f s := mkEp (messages s) (pending_sends s) (pending_recvs s) (f (msgs s)) (sends s) (recvs s) (next_ptr s) (futs s).
Definition set_sends f s := mkEp (messages s) (pending_sends s) (pending_recvs s) (msgs s) (f (sends s)) (recvs s) (next_ptr s) (futs s).
Definition set_recvs f s := mkEp (messages s) (pending_sends s) (pending_recvs s) (msgs s) (sends s) (f (recvs s)) (next_ptr s) (futs s).
Definition set_next_ptr x s := mkEp (messages s) (pending_sends s) (pending_recvs s) (msgs s) (sends s) (recvs s) x (futs s).
Definition set_futs x s := mkEp (messages s) (pending_sends s) (pending_recvs s) (msgs s) (sends s) (recvs s) (next_ptr s) x.

Definition on_futs {A} (m : M (fut CB W) A) : M ep A := λ s,
  match m (futs s) with
  | Fin r g => Fin r (set_futs g s) | Panic => Panic | OutOfFuel => OutOfFuel
  end.

(** ** The heaps: reading or freeing a freed object panics *)

Definition get_send (p : Z) : M ep PendingEndpointSend := λ s,
  match sends s !! p with Some x => Fin (Ok x) s | None => Panic end.
Definition get_recv (p : Z) : M ep Z := λ s,
  match recvs s !! p with Some x => Fin (Ok x) s | None => Panic end.

(** [new PendingEndpointSend()], [new PendingEndpointRecv()] with their promises; null
    without memory, which the callers test for. *)
Definition new_send (al : allocs) : M ep Z :=
  if negb (pending_ok al) then mret 0
  else
    f ← on_futs (new_promise (state_ok al));
    p ← gets next_ptr;
    _ ← modify (set_next_ptr (p + 1));
    _ ← modify (set_sends <[p := mkPS 0 f]>);
    mret p.
Definition new_recv (al : allocs) : M ep Z :=
  if negb (pending_ok al) then mret 0
  else
    f ← on_futs (new_promise (state_ok al));
    p ← gets next_ptr;
    _ ← modify (set_next_ptr (p + 1));
    _ ← modify (set_recvs <[p := f]>);
    mret p.
Definition set_message (p m : Z) : M ep unit :=
  x ← get_send p; modify (set_sends <[p := mkPS m (ps_promise x)]>).
(** [delete]: the destructor of the promise drops its reference. *)
Definition delete_send (p : Z) : M ep unit :=
  x ← get_send p; _ ← on_futs (release (ps_promise x)); modify (set_sends (delete p)).
Definition delete_recv (p : Z) : M ep unit :=
  f ← get_recv p; _ ← on_futs (release f); modify (set_recvs (delete p)).
Definition delete_msg (m : Z) : M ep unit :=
  if m =? 0 then mret tt
  else λ s, match msgs s !! m with Some _ => Fin (Ok tt) (set_msgs (delete m) s) | None => Panic end.

Definition build_endpoint_message (al : allocs) (pid : Z) (v : EndpointMsgView) : M ep Z :=
  _ ← of_result (check_msg_valid v);
  if negb (msg_ok al) then fail ALLOCATION_FAILED
  else
    m ← gets next_ptr;
    _ ← modify (set_next_ptr (m + 1));
    _ ← modify (set_msgs <[m := message_of pid v]>);
    mret m.

(** ** Searching the queues *)

Definition message_is_queued (m : Z) : M ep bool :=
  if m =? 0 then mret false else l ← gets messages; mret (bool_decide (m ∈ l)).

Fixpoint find_send (m : Z) (l : list Z) : M ep Z :=
  match l with
  | [] => mret 0
  | p :: l => x ← get_send p; if ps_message x =? m then mret p else find_send m l
  end.
Definition find_pending_send (m : Z) : M ep Z :=
  if m =? 0 then mret 0 else l ← gets pending_sends; find_send m l.

Definition pop_pending_recv : M ep Z :=
  l ← gets pending_recvs;
  match l with [] => mret 0 | p :: l => _ ← modify (set_pending_recvs (λ _, l)); mret p end.

(** ** Cancel callbacks *)

Definition cancel_send (p : Z) : M ep unit :=
  if p =? 0 then fail INVALID_PARAM
  else
    x ← get_send p;
    q ← find_pending_send (ps_message x);
    if negb (q =? p) then mret tt
    else
      queued ← message_is_queued (ps_message x);
      _ ← (if negb (ps_message x =? 0) && queued then modify (set_messages (list_unlink (ps_message x))) else mret tt);
      _ ← modify (set_pending_sends (list_unlink p));
      _ ← delete_msg (ps_message x);
      _ ← set_message p 0;
      delete_send p.
Definition cancel_recv (p : Z) : M ep unit :=
  if p =? 0 then fail INVALID_PARAM
  else _ ← modify (set_pending_recvs (list_unlink p)); delete_recv p.
Definition run_cb (cb : CB) : M ep unit :=
  match cb with CbSend p => cancel_send p | CbRecv p => cancel_recv p end.

(** [Future::cancle] of a future of this system. *)
Definition ep_cancle (f : Z) : M ep unit := cancle (λ A m, @on_futs A m) run_cb f.

(** ** [EndpointObject::send] *)

Definition send_checks (perms : Z) (v : EndpointMsgView) : Result unit :=
  _ ← check_msg_valid v;
  if negb (perm_imply perms ENDPOINT_WRITE) then Err INSUFFICIENT_PERMISSIONS
  else if negb (v_capsz v =? 0) && negb (perm_imply perms ENDPOINT_GRANT) then Err INSUFFICIENT_PERMISSIONS
  else Ok tt.

(** The part under the interrupt guard, for the pending send [p] whose promise and
    future are [f]. *)
Definition send_deliver (p m f : Z) : M ep Z :=
  _ ← on_futs (set_cancel_callback f (Some (CbSend p)));
  _ ← modify (set_pending_sends (push_back p));
  r ← pop_pending_recv;
  if negb (r =? 0) then
    fr ← get_recv r;
    x ← attempt (on_futs (set_value fr (Some m)));
    match x with
    | Err e => _ ← modify (set_pending_recvs (push_back r)); _ ← on_futs (release f); fail e
    | Ok _ =>
        _ ← attempt (on_futs (set_value f None));
        _ ← set_message p 0;
        _ ← delete_recv r;
        _ ← modify (set_pending_sends (list_unlink p));
        _ ← delete_send p;
        mret f
    end
  else
    _ ← modify (set_messages (push_back m));
    mret f.

Definition send (al : allocs) (perms pid : Z) (v : EndpointMsgView) : M ep Z :=
  _ ← of_result (send_checks perms v);
  m ← build_endpoint_message al pid v;
  p ← new_send al;
  if p =? 0 then fail ALLOCATION_FAILED
  else
    _ ← set_message p m;
    x ← get_send p;
    f ← on_futs (future_of (ps_promise x));
    send_deliver p m f.

(** ** [EndpointObject::recv] *)

(** Complete the send of message [m], if it is still pending. *)
Definition complete_send (m : Z) : M ep unit :=
  q ← find_pending_send m;
  if q =? 0 then mret tt
  else
    _ ← modify (set_pending_sends (list_unlink q));
    x ← get_send q;
    _ ← attempt (on_futs (set_value (ps_promise x) None));
    _ ← set_message q 0;
    delete_send q.

(** The part of [recv] under the interrupt guard, for the pending receive [p] whose promise and
    future are [f]. *)
Definition recv_rest (p f : Z) : M ep Z :=
  l ← gets messages;
  match l with
  | m :: l =>
      _ ← modify (set_messages (λ _, l));
      _ ← complete_send m;
      x ← attempt (on_futs (set_value f (Some m)));
      match x with
      | Err e => _ ← on_futs (release f); fail e
      | Ok _ => mret f
      end
  | [] =>
      _ ← on_futs (set_cancel_callback f (Some (CbRecv p)));
      _ ← modify (set_pending_recvs (push_back p));
      mret f
  end.

Definition recv (al : allocs) (perms : Z) : M ep Z :=
  if negb (perm_imply perms ENDPOINT_READ) then fail INSUFFICIENT_PERMISSIONS
  else
    p ← new_recv al;
    if p =? 0 then fail ALLOCATION_FAILED
    else
      fp ← get_recv p;
      f ← on_futs (future_of fp);
      recv_rest p f.

(** ** [~EndpointPayload] *)

Fixpoint destroy_sends (l : list Z) : M ep unit :=
  match l with
  | [] => mret tt
  | p :: l =>
      _ ← modify (set_pending_sends (λ _, l));
      x ← get_send p;
      _ ← (if negb (ps_message x =? 0) then
             queued ← message_is_queued (ps_message x);
             _ ← (if (queued : bool) then modify (set_messages (list_unlink (ps_message x))) else mret tt);
             _ ← delete_msg (ps_message x);
             set_message p 0
           else mret tt);
      _ ← on_futs (set_cancel_callback (ps_promise x) None);
      _ ← delete_send p;
      destroy_sends l
  end.
Fixpoint destroy_messages (l : list Z) : M ep unit :=
  match l with
  | [] => mret tt
  | m :: l => _ ← modify (set_messages (λ _, l)); _ ← delete_msg m; destroy_messages l
  end.
Fixpoint destroy_recvs (l : list Z) : M ep unit :=
  match l with
  | [] => mret tt
  | p :: l =>
      _ ← modify (set_pending_recvs (λ _, l));
      f ← get_recv p;
      _ ← on_futs (set_cancel_callback f None);
      _ ← delete_recv p;
      destroy_recvs l
  end.
(** Each loop runs until its list is empty, which is after one round per element. *)
Definition destroy : M ep unit :=
  l ← gets pending_sends; _ ← destroy_sends l;
  l ← gets messages; _ ← destroy_messages l;
  l ← gets pending_recvs; destroy_recvs l.
End endpoint.
Arguments ep : clear implicits.

(** ** Specification: a rendezvous

    Senders and receivers wait in two queues; a message goes from the sender that
    waits longest to the receiver that waits longest. *)

Inductive outcome := OPending | ODone | OGot (m : EndpointMessage) | OError (e : ErrCode) | OCancled | OConsumed.

Record rdv := mkRdv { senders : list (Z * EndpointMessage); receivers : list Z; outs : gmap Z outcome }.

Definition a_send (f : Z) (m : EndpointMessage) (A : rdv) : rdv :=
  match receivers A with
  | r :: rs => mkRdv (senders A) rs (<[r := OGot m]> (<[f := ODone]> (outs A)))
  | [] => mkRdv (senders A ++ [(f, m)]) [] (<[f := OPending]> (outs A))
  end.
Definition a_recv (f : Z) (A : rdv) : rdv :=
  match senders A with
  | (g, m) :: ss => mkRdv ss (receivers A) (<[f := OGot m]> (<[g := ODone]> (outs A)))
  | [] => mkRdv [] (receivers A ++ [f]) (<[f := OPending]> (outs A))
  end.
Definition a_cancel (f : Z) (A : rdv) : rdv :=
  mkRdv (filter (λ x, x.1 ≠ f) (senders A)) (filter (λ g, g ≠ f) (receivers A)) (<[f := OCancled]> (outs A)).

Inductive ep_op :=
  | ESend (al : allocs) (perms pid : Z) (v : EndpointMsgView) | ERecv (al : allocs) (perms : Z)
  | ECancel (f : Z) | EValue (void : bool) (f : Z) | ECopy (f : Z) | EDrop (f : Z).

(** What an operation answers: a future, nothing, or a message. *)
Inductive answer := AFut (f : Z) | AUnit | AMsg (m : EndpointMessage).

(** The operations on a rendezvous; [f] names the future a request creates. *)
Definition a_op (f : Z) (op : ep_op) (A : rdv) : Result answer * rdv :=
  match op with
  | ESend al perms pid v =>
      match send_checks perms v with
      | Err e => (Err e, A)
      | Ok _ => if msg_ok al && pending_ok al then (Ok (AFut f), a_send f (message_of pid v) A) else (Err ALLOCATION_FAILED, A)
      end
  | ERecv al perms =>
      if negb (perm_imply perms ENDPOINT_READ) then (Err INSUFFICIENT_PERMISSIONS, A)
      else if pending_ok al then (Ok (AFut f), a_recv f A) else (Err ALLOCATION_FAILED, A)
  | ECancel g =>
      match outs A !! g with
      | Some OPending => (Ok AUnit, a_cancel g A)
      | Some OCancled => (Err FUTURE_CANCLED, A)
      | Some OConsumed => (Err FUTURE_CONSUMED, A)
      | _ => (Err FUTURE_ERROR, A)
      end
  | EValue void g =>
      let consumed := mkRdv (senders A) (receivers A) (<[g := OConsumed]> (outs A)) in
      match outs A !! g with
      | Some OPending => (Err FUTURE_PENDING, A)
      | Some (OError e) => (Err e, A)
      | Some OCancled => (Err FUTURE_CANCLED, A)
      | Some OConsumed => (Err FUTURE_CONSUMED, A)
      | Some ODone => if void then (Ok AUnit, consumed) else (Err FUTURE_ERROR, A)
      | Some (OGot m) => (Ok (if void then AUnit else AMsg m), consumed)
      | None => (Err FUTURE_ERROR, A)
      end
  | ECopy _ | EDrop _ => (Ok AUnit, A)
  end.

Section spec.
Context {W : Type} `{Waker W}.
Implicit Types (s : ep W) (h : gmap Z (AsyncState CB)) (g : fut CB W) (a : AsyncState CB).

(** Future [f] is pending and cancelling it runs [cb]. *)
Definition pendf h (f : Z) (cb : CB) : Prop :=
  ∃ a, h !! f = Some a ∧ fstate a = PENDING ∧ cancel_callback a = Some cb.

(** [q] lists the pending sends (request, message, future), [w] the pending
    receives (request, future). *)
Record ep_q h (sd : gmap Z PendingEndpointSend) (rv : gmap Z Z) (q : list (Z * Z * Z)) (w : list (Z * Z)) : Prop := {
  eq_send : ∀ p m f, (p, m, f) ∈ q → sd !! p = Some (mkPS m f) ∧ pendf h f (CbSend p);
  eq_recv : ∀ p f, (p, f) ∈ w → rv !! p = Some f ∧ pendf h f (CbRecv p);
  eq_cb : ∀ f cb, pendf h f cb → match cb with CbSend p => ∃ m, (p, m, f) ∈ q | CbRecv p => (p, f) ∈ w end;
  eq_ndq : NoDup q.*1.*1;
  eq_ndm : NoDup q.*1.*2;
  eq_ndw : NoDup w.*1
}.

(** The state [a] of a future shows outcome [o]; [queued] are the messages that
    still belong to their senders. *)
Definition o_match (mg : gmap Z EndpointMessage) (queued : list Z) a (o : outcome) : Prop :=
  match fstate a with
  | PENDING => o = OPending ∧ fvalue a = None
  | COMPLETE =>
      match fvalue a with
      | None => o = ODone
      | Some m => (m ∉ queued) ∧ ∃ x, mg !! m = Some x ∧ o = OGot x
      end
  | ERROR => o = OError (ferror a)
  | CANCLED => o = OCancled
  | CONSUMED => o = OConsumed
  end.
Definition ep_o h mg queued (O : gmap Z outcome) : Prop :=
  ∀ f a, h !! f = Some a → ∃ o, O !! f = Some o ∧ o_match mg queued a o.

Record ep_rep (c : nat) (A : rdv) q w s : Prop := {
  er_fut : fut_inv c (futs s);
  er_ps : pending_sends s = q.*1.*1;
  er_ms : messages s = q.*1.*2;
  er_pr : pending_recvs s = w.*1;
  er_q : ep_q (asyncs (futs s)) (sends s) (recvs s) q w;
  er_one : q = [] ∨ w = [];
  er_next : 0 < next_ptr s;
  er_ptr : ∀ p, is_Some (msgs s !! p) ∨ is_Some (sends s !! p) ∨ is_Some (recvs s !! p) → 0 < p < next_ptr s;
  er_senders : Forall2 (λ x y, msgs s !! x.1.2 = Some y.2 ∧ x.2 = y.1) q (senders A);
  er_receivers : receivers A = w.*2;
  er_out : ep_o (asyncs (futs s)) (msgs s) (messages s) (outs A)
}.

(** *** The queues against the futures *)

Lemma pendf_fun h f cb cb' : pendf h f cb → pendf h f cb' → cb = cb'.
Proof. intros (a & E & _ & E1) (b & E' & _ & E2). congruence. Qed.
Lemma pendf_off h h' (f y : Z) cb : (∀ x, x ≠ f → h' !! x = h !! x) → y ≠ f → pendf h' y cb ↔ pendf h y cb.
Proof. intros Hoff Hne. unfold pendf. by rewrite Hoff. Qed.

Lemma elem_ps (q : list (Z * Z * Z)) p : p ∈ q.*1.*1 → ∃ m f, (p, m, f) ∈ q.
Proof. rewrite <- list_fmap_compose. intros ([[x m] f] & -> & Hx)%list_elem_of_fmap. by exists m, f. Qed.
Lemma elem_ms (q : list (Z * Z * Z)) m : m ∈ q.*1.*2 → ∃ p f, (p, m, f) ∈ q.
Proof. rewrite <- list_fmap_compose. intros ([[p x] f] & -> & Hx)%list_elem_of_fmap. by exists p, f. Qed.

(** A future that no callback refers to, before and after. *)
Lemma epq_quiet h h' sd rv q w f :
  ep_q h sd rv q w → (∀ x, x ≠ f → h' !! x = h !! x) → (∀ cb, ~ pendf h f cb) → (∀ cb, ~ pendf h' f cb) →
  ep_q h' sd rv q w.
Proof.
  intros [H1 H2 H3 H4 H5 H6] Hoff Hn Hn'. split; try done.
  - intros p m x Hx. destruct (H1 p m x Hx) as [? Hp]. split; [done|].
    apply (pendf_off h h' f); [done| |done]. intros ->. by apply (Hn (CbSend p)).
  - intros p x Hx. destruct (H2 p x Hx) as [? Hp]. split; [done|].
    apply (pendf_off h h' f); [done| |done]. intros ->. by apply (Hn (CbRecv p)).
  - intros x cb Hx. assert (x ≠ f) by (intros ->; by apply (Hn' cb)).
    apply H3. by apply (pendf_off h h' f).
Qed.
Lemma epq_add_send h h' sd sd' rv q w p m f :
  ep_q h sd rv q w → (∀ x, x ≠ f → h' !! x = h !! x) → (∀ cb, ~ pendf h f cb) → pendf h' f (CbSend p) →
  (∀ x, x ≠ p → sd' !! x = sd !! x) → sd' !! p = Some (mkPS m f) → sd !! p = None → m ∉ q.*1.*2 →
  ep_q h' sd' rv (q ++ [(p, m, f)]) w.
Proof.
  intros [H1 H2 H3 H4 H5 H6] Hoff Hn Hn' Hsd Hp Hfresh Hm.
  assert (Hpq : p ∉ q.*1.*1).
  { intros (m' & f' & Hz)%elem_ps. destruct (H1 _ _ _ Hz) as [? _]. congruence. }
  split; try done.
  - intros p' m' x. rewrite elem_of_app, list_elem_of_singleton. intros [Hx|[= -> -> ->]]; [|done].
    destruct (H1 p' m' x Hx) as [Hs Hpd]. split; [rewrite Hsd by congruence; done|].
    apply (pendf_off h h' f); [done| |done]. intros ->. by apply (Hn (CbSend p')).
  - intros p' x Hx. destruct (H2 p' x Hx) as [? Hpd]. split; [done|].
    apply (pendf_off h h' f); [done| |done]. intros ->. by apply (Hn (CbRecv p')).
  - intros x cb Hx. destruct (decide (x = f)) as [->|Hne].
    + rewrite (pendf_fun h' f cb (CbSend p)) by done. exists m. set_solver.
    + apply (pendf_off h h' f) in Hx; [|done|done]. specialize (H3 x cb Hx). destruct cb; [|done].
      destruct H3 as [m' Hm']. exists m'. set_solver.
  - rewrite !fmap_app. apply NoDup_app. split_and!; [done|set_solver|apply NoDup_singleton].
  - rewrite !fmap_app. apply NoDup_app. split_and!; [done|set_solver|apply NoDup_singleton].
Qed.
Lemma epq_add_recv h h' sd rv rv' q w p f :
  ep_q h sd rv q w → (∀ x, x ≠ f → h' !! x = h !! x) → (∀ cb, ~ pendf h f cb) → pendf h' f (CbRecv p) →
  (∀ x, x ≠ p → rv' !! x = rv !! x) → rv' !! p = Some f → rv !! p = None →
  ep_q h' sd rv' q (w ++ [(p, f)]).
Proof.
  intros [H1 H2 H3 H4 H5 H6] Hoff Hn Hn' Hrv Hp Hfresh.
  split; try done.
  - intros p' m' x Hx. destruct (H1 p' m' x Hx) as [? Hpd]. split; [done|].
    apply (pendf_off h h' f); [done| |done]. intros ->. by apply (Hn (CbSend p')).
  - intros p' x. rewrite elem_of_app, list_elem_of_singleton. intros [Hx|[= -> ->]]; [|done].
    destruct (H2 p' x Hx) as [Hs Hpd]. split; [rewrite Hrv by congruence; done|].
    apply (pendf_off h h' f); [done| |done]. intros ->. by apply (Hn (CbRecv p')).
  - intros x cb Hx. destruct (decide (x = f)) as [->|Hne].
    + rewrite (pendf_fun h' f cb (CbRecv p)) by done. set_solver.
    + apply (pendf_off h h' f) in Hx; [|done|done]. specialize (H3 x cb Hx). destruct cb; [done|set_solver].
  - rewrite fmap_app. apply NoDup_app. split_and!; [done| |apply NoDup_singleton].
    intros x ([y z] & -> & Hz)%list_elem_of_fmap. destruct (H2 _ _ Hz) as [? _].
    simpl. intros ->%list_elem_of_singleton. simpl in *. congruence.
Qed.

Lemma ndq_ne (q1 q2 : list (Z * Z * Z)) p m f p' m' f' :
  NoDup (q1 ++ (p, m, f) :: q2).*1.*1 → (p', m', f') ∈ q1 ++ q2 → p' ≠ p.
Proof.
  rewrite !fmap_app, !fmap_cons, NoDup_app, NoDup_cons. simpl. intros (_ & H1 & H2 & _) Hin ->.
  apply elem_of_app in Hin as [Hin|Hin]; apply (list_elem_of_fmap_2 fst), (list_elem_of_fmap_2 fst) in Hin; simpl in Hin.
  - by apply (H1 p Hin), list_elem_of_here.
  - done.
Qed.
Lemma ndw_ne (w1 w2 : list (Z * Z)) p f p' f' :
  NoDup (w1 ++ (p, f) :: w2).*1 → (p', f') ∈ w1 ++ w2 → p' ≠ p.
Proof.
  rewrite !fmap_app, !fmap_cons, NoDup_app, NoDup_cons. simpl. intros (_ & H1 & H2 & _) Hin ->.
  apply elem_of_app in Hin as [Hin|Hin]; apply (list_elem_of_fmap_2 fst) in Hin; simpl in Hin.
  - by apply (H1 p Hin), list_elem_of_here.
  - done.
Qed.
Lemma NoDup_drop_mid {A B} (F : A → B) l1 x l2 : NoDup (F <$> l1 ++ x :: l2) → NoDup (F <$> l1 ++ l2).
Proof.
  rewrite !fmap_app, !fmap_cons, !NoDup_app, NoDup_cons. intros (? & H1 & _ & ?).
  split_and!; [done| |done]. intros y Hy Hy'. apply (H1 y Hy). by right.
Qed.

Lemma epq_drop_send h h' sd sd' rv q1 q2 w p m f :
  ep_q h sd rv (q1 ++ (p, m, f) :: q2) w → (∀ x, x ≠ f → h' !! x = h !! x) → (∀ cb, ~ pendf h' f cb) →
  (∀ x, x ≠ p → sd' !! x = sd !! x) → ep_q h' sd' rv (q1 ++ q2) w.
Proof.
  intros [H1 H2 H3 H4 H5 H6] Hoff Hn Hsd.
  assert (Hpf : pendf h f (CbSend p)) by (apply (H1 p m f); set_solver).
  split.
  - intros p' m' x Hx. pose proof (ndq_ne _ _ _ _ _ _ _ _ H4 Hx) as Hne.
    destruct (H1 p' m' x) as [Hs Hpd]; [set_solver|]. split; [by rewrite Hsd|].
    apply (pendf_off h h' f); [done| |done]. intros ->. pose proof (pendf_fun _ _ _ _ Hpf Hpd). congruence.
  - intros p' x Hx. destruct (H2 p' x Hx) as [Hs Hpd]. split; [done|].
    apply (pendf_off h h' f); [done| |done]. intros ->. pose proof (pendf_fun _ _ _ _ Hpf Hpd). congruence.
  - intros x cb Hx. assert (Hne : x ≠ f) by (intros ->; by apply (Hn cb)).
    apply (pendf_off h h' f) in Hx; [|done|done]. specialize (H3 x cb Hx). destruct cb; [|done].
    destruct H3 as [m' Hm']. exists m'. rewrite elem_of_app, elem_of_cons in Hm'. rewrite elem_of_app.
    destruct Hm' as [?|[?|?]]; [by left|congruence|by right].
  - rewrite <- list_fmap_compose in H4 |- *. by apply NoDup_drop_mid in H4.
  - rewrite <- list_fmap_compose in H5 |- *. by apply NoDup_drop_mid in H5.
  - done.
Qed.
Lemma epq_drop_recv h h' sd rv rv' q w1 w2 p f :
  ep_q h sd rv q (w1 ++ (p, f) :: w2) → (∀ x, x ≠ f → h' !! x = h !! x) → (∀ cb, ~ pendf h' f cb) →
  (∀ x, x ≠ p → rv' !! x = rv !! x) → ep_q h' sd rv' q (w1 ++ w2).
Proof.
  intros [H1 H2 H3 H4 H5 H6] Hoff Hn Hrv.
  assert (Hpf : pendf h f (CbRecv p)) by (apply (H2 p f); set_solver).
  split; try done.
  - intros p' m' x Hx. destruct (H1 p' m' x Hx) as [Hs Hpd]. split; [done|].
    apply (pendf_off h h' f); [done| |done]. intros ->. pose proof (pendf_fun _ _ _ _ Hpf Hpd). congruence.
  - intros p' x Hx. pose proof (ndw_ne _ _ _ _ _ _ H6 Hx) as Hne.
    destruct (H2 p' x) as [Hs Hpd]; [set_solver|]. split; [by rewrite Hrv|].
    apply (pendf_off h h' f); [done| |done]. intros ->. pose proof (pendf_fun _ _ _ _ Hpf Hpd). congruence.
  - intros x cb Hx. assert (Hne : x ≠ f) by (intros ->; by apply (Hn cb)).
    apply (pendf_off h h' f) in Hx; [|done|done]. specialize (H3 x cb Hx). destruct cb; [done|].
    rewrite elem_of_app, elem_of_cons in H3. rewrite elem_of_app.
    destruct H3 as [?|[?|?]]; [by left|congruence|by right].
  - by apply NoDup_drop_mid in H6.
Qed.

(** *** Outcomes *)

Lemma epo_set h h' mg ml O f o :
  ep_o h mg ml O → (∀ x, x ≠ f → h' !! x = h !! x) → (∀ a, h' !! f = Some a → o_match mg ml a o) →
  ep_o h' mg ml (<[f := o]> O).
Proof.
  intros Ho Hoff Hf x a Hx. destruct (decide (x = f)) as [->|Hne].
  - exists o. rewrite lookup_insert_eq. split; [done|]. by apply Hf.
  - rewrite lookup_insert_ne by done. rewrite Hoff in Hx by done. by apply Ho.
Qed.
Lemma epo_same h h' mg ml O f a' :
  ep_o h mg ml O → (∀ x, x ≠ f → h' !! x = h !! x) → h !! f = Some a' →
  (∀ a o, h' !! f = Some a → o_match mg ml a' o → o_match mg ml a o) → ep_o h' mg ml O.
Proof.
  intros Ho Hoff Ha Hf x a Hx. destruct (decide (x = f)) as [->|Hne].
  - destruct (Ho f a' Ha) as (o & EO & Hm). exists o. split; [done|]. by apply Hf.
  - rewrite Hoff in Hx by done. by apply Ho.
Qed.
Lemma epo_msgs h mg ml mg' ml' O :
  ep_o h mg ml O → (∀ m x, m ∉ ml → mg !! m = Some x → (m ∉ ml') ∧ mg' !! m = Some x) → ep_o h mg' ml' O.
Proof.
  intros Ho Hm f a Ha. destruct (Ho f a Ha) as (o & EO & Hma). exists o. split; [done|].
  unfold o_match in *. destruct (fstate a); try done. destruct (fvalue a) as [m|]; [|done].
  destruct Hma as (Hni & x & Hx & ->). destruct (Hm m x Hni Hx) as [? ?]. split; [done|]. by exists x.
Qed.

(** *** Running the parts *)

Lemma ep_futs_run {A} (m : M (fut CB W) A) s r g : m (futs s) = Fin r g → on_futs m s = Fin r (set_futs g s).
Proof. unfold on_futs. by intros ->. Qed.
Lemma get_send_run s p x : sends s !! p = Some x → get_send p s = Fin (Ok x) s.
Proof. unfold get_send. by intros ->. Qed.
Lemma get_recv_run s p x : recvs s !! p = Some x → get_recv p s = Fin (Ok x) s.
Proof. unfold get_recv. by intros ->. Qed.
Lemma set_message_run s p m0 f m :
  sends s !! p = Some (mkPS m0 f) → set_message p m s = Fin (Ok tt) (set_sends <[p := mkPS m f]> s).
Proof. intros E. unfold set_message. by rewrite (bind_run _ _ _ _ _ (get_send_run _ _ _ E)). Qed.

(** [delete] of a request drops one reference to its future. *)
Lemma delete_send_run c s p m f a :
  fut_inv c (futs s) → sends s !! p = Some (mkPS m f) → asyncs (futs s) !! f = Some a →
  ∃ g', delete_send p s = Fin (Ok tt) (set_sends (delete p) (set_futs g' s)) ∧
    touched c (futs s) g' f (left_over a).
Proof.
  intros Hi Hp Ha. destruct (release_touched c _ f a Hi Ha) as (g' & E & Ht). exists g'. split; [|done].
  unfold delete_send. rewrite (bind_run _ _ _ _ _ (get_send_run _ _ _ Hp)).
  by rewrite (bind_run _ _ _ _ _ (ep_futs_run _ _ _ _ E)).
Qed.
Lemma delete_recv_run c s p f a :
  fut_inv c (futs s) → recvs s !! p = Some f → asyncs (futs s) !! f = Some a →
  ∃ g', delete_recv p s = Fin (Ok tt) (set_recvs (delete p) (set_futs g' s)) ∧
    touched c (futs s) g' f (left_over a).
Proof.
  intros Hi Hp Ha. destruct (release_touched c _ f a Hi Ha) as (g' & E & Ht). exists g'. split; [|done].
  unfold delete_recv. rewrite (bind_run _ _ _ _ _ (get_recv_run _ _ _ Hp)).
  by rewrite (bind_run _ _ _ _ _ (ep_futs_run _ _ _ _ E)).
Qed.

(** *** [send] *)

(** The state once the message [m] and the request [p] with future [f] exist. *)
Definition prepared s (m p f : Z) (x : EndpointMessage) g : ep W :=
  mkEp (messages s) (pending_sends s) (pending_recvs s) (<[m := x]> (msgs s)) (<[p := mkPS m f]> (sends s))
    (recvs s) (p + 1) g.

Lemma build_run s al pid v :
  msg_ok al = true → check_msg_valid v = Ok tt →
  build_endpoint_message al pid v s = Fin (Ok (next_ptr s))
    (mkEp (messages s) (pending_sends s) (pending_recvs s) (<[next_ptr s := message_of pid v]> (msgs s)) (sends s)
      (recvs s) (next_ptr s + 1) (futs s)).
Proof. intros Hal Hv. unfold build_endpoint_message. rewrite Hv, Hal. reflexivity. Qed.
Lemma new_send_run s al f g :
  al = mkAllocs (msg_ok al) true true → new_promise true (futs s) = Fin (Ok f) g →
  new_send al s = Fin (Ok (next_ptr s))
    (mkEp (messages s) (pending_sends s) (pending_recvs s) (msgs s) (<[next_ptr s := mkPS 0 f]> (sends s))
      (recvs s) (next_ptr s + 1) g).
Proof.
  intros -> E. unfold new_send. cbn [pending_ok state_ok negb]. by rewrite (bind_run _ _ _ _ _ (ep_futs_run _ _ _ _ E)).
Qed.
Lemma new_recv_run s al f g :
  al = mkAllocs (msg_ok al) true true → new_promise true (futs s) = Fin (Ok f) g →
  new_recv al s = Fin (Ok (next_ptr s))
    (mkEp (messages s) (pending_sends s) (pending_recvs s) (msgs s) (sends s) (<[next_ptr s := f]> (recvs s))
      (next_ptr s + 1) g).
Proof.
  intros -> E. unfold new_recv. cbn [pending_ok state_ok negb]. by rewrite (bind_run _ _ _ _ _ (ep_futs_run _ _ _ _ E)).
Qed.

Lemma send_prep c s perms pid v al :
  fut_inv (S c) (futs s) → 0 < next_ptr s → send_checks perms v = Ok tt → al = mkAllocs true true true →
  let m := next_ptr s in let p := next_ptr s + 1 in let f := next_async (futs s) in
  ∃ g wd, send al perms pid v s = send_deliver p m f (prepared s m p f (message_of pid v) g) ∧
    fut_inv c g ∧ asyncs g !! f = Some (fresh_async wd) ∧
    (∀ y, y ≠ f → asyncs g !! y = asyncs (futs s) !! y) ∧ asyncs (futs s) !! f = None.
Proof.
  intros Hi Hnext Hc -> m p f. destruct (promise_future_run c (futs s) Hi) as (g1 & g2 & wd & E1 & E2 & Hrest).
  exists g2, wd. split; [|exact Hrest].
  assert (Hv : check_msg_valid v = Ok tt) by (unfold send_checks in Hc; by destruct (check_msg_valid v) as [[]|]).
  unfold send. rewrite (bind_run (of_result (send_checks perms v)) _ s tt s) by (unfold of_result; by rewrite Hc).
  rewrite (bind_run _ _ _ _ _ (build_run s (mkAllocs true true true) pid v eq_refl Hv)).
  rewrite (bind_run _ _ _ _ _ (new_send_run (mkEp _ _ _ _ _ _ _ (futs s)) (mkAllocs true true true) _ g1 eq_refl E1)). cbn [next_ptr].
  rewrite (proj2 (Z.eqb_neq (next_ptr s + 1) 0)) by lia.
  rewrite (bind_run _ _ _ _ _ (set_message_run _ _ _ _ _ (lookup_insert_eq _ _ _))). cbn [ps_promise].
  rewrite (bind_run _ _ _ _ _ (get_send_run _ _ _ (lookup_insert_eq _ _ _))). cbn [ps_promise].
  erewrite bind_run by (apply ep_futs_run; exact E2). unfold prepared, set_sends, set_futs. cbn [messages pending_sends pending_recvs msgs sends recvs next_ptr futs].
  by rewrite insert_insert_eq.
Qed.

Ltac ep_fields := cbn [futs messages pending_sends pending_recvs msgs sends recvs next_ptr senders receivers outs].
Ltac run_by E := erewrite bind_run by (first [exact E | apply ep_futs_run; exact E | reflexivity]).

Lemma pop_none s : pending_recvs s = [] → pop_pending_recv s = Fin (Ok 0) s.
Proof. intros E. unfold pop_pending_recv. rewrite (bind_run (gets pending_recvs) _ s _ s eq_refl). by rewrite E. Qed.
Lemma pop_some s p l : pending_recvs s = p :: l → pop_pending_recv s = Fin (Ok p) (set_pending_recvs (λ _, l) s).
Proof. intros E. unfold pop_pending_recv. rewrite (bind_run (gets pending_recvs) _ s _ s eq_refl). by rewrite E. Qed.

Lemma deliver_queue c s p m f a :
  fut_inv c (futs s) → asyncs (futs s) !! f = Some a → pending_recvs s = [] →
  ∃ g, send_deliver p m f s = Fin (Ok f)
         (set_messages (push_back m) (set_pending_sends (push_back p) (set_futs g s))) ∧
    touched c (futs s) g f (Some (set_callback (Some (CbSend p)) a)).
Proof.
  intros Hi Ha Hr. destruct (callback_touched c _ f a (Some (CbSend p)) Hi Ha) as (g & E & Ht).
  exists g. split; [|done]. unfold send_deliver. run_by E.
  erewrite bind_run by reflexivity. by erewrite bind_run by (apply pop_none; exact Hr).
Qed.

Lemma rep_sends_fresh c A q w s p : ep_rep c A q w s → next_ptr s <= p →
  msgs s !! p = None ∧ sends s !! p = None ∧ recvs s !! p = None.
Proof.
  intros Hr Hp. pose proof (er_ptr _ _ _ _ _ Hr p) as H0. unfold is_Some in H0.
  destruct (msgs s !! p), (sends s !! p), (recvs s !! p); try done; exfalso;
    (assert (0 < p < next_ptr s) by (apply H0; eauto); lia).
Qed.
Lemma rep_msg_live c A q w s p m f : ep_rep c A q w s → (p, m, f) ∈ q → is_Some (msgs s !! m).
Proof.
  intros Hr [i Hi]%list_elem_of_lookup.
  destruct (Forall2_lookup_l _ _ _ _ _ (er_senders _ _ _ _ _ Hr) Hi) as (y & _ & E & _). by exists y.2.
Qed.
Lemma rep_msg_old c A q w s : ep_rep c A q w s → next_ptr s ∉ q.*1.*2.
Proof.
  intros Hr (p & f & Hin)%elem_ms. destruct (rep_msg_live _ _ _ _ _ _ _ _ Hr Hin) as [x Hx].
  destruct (rep_sends_fresh _ _ _ _ _ (next_ptr s) Hr) as [? _]; [lia|congruence].
Qed.

Lemma not_pend_none h f : h !! f = None → ∀ cb, ~ pendf h f cb.
Proof. intros E cb (a & ? & _). congruence. Qed.
Lemma not_pend_state h f a : h !! f = Some a → fstate a ≠ PENDING → ∀ cb, ~ pendf h f cb.
Proof. intros E Hs cb (b & ? & ? & _). congruence. Qed.

(** Growing the heap of messages past the end. *)
Lemma senders_grow (q : list (Z * Z * Z)) (l : list (Z * EndpointMessage)) (mg mg' : gmap Z EndpointMessage) :
  Forall2 (λ x y, mg !! x.1.2 = Some y.2 ∧ x.2 = y.1) q l → (∀ m x, mg !! m = Some x → m ∈ q.*1.*2 → mg' !! m = Some x) →
  Forall2 (λ x y, mg' !! x.1.2 = Some y.2 ∧ x.2 = y.1) q l.
Proof.
  intros HF Hg. apply Forall2_same_length_lookup. split; [by eapply Forall2_length|].
  intros i x y Hx Hy. destruct (Forall2_lookup_lr _ _ _ _ _ _ HF Hx Hy) as [E1 E2]. split; [|done].
  apply Hg; [done|]. apply (list_elem_of_lookup_2 _ i). by rewrite !list_lookup_fmap, Hx.
Qed.

Lemma send_queued c A q s perms pid v :
  ep_rep (S c) A q [] s → send_checks perms v = Ok tt →
  let f := next_async (futs s) in
  ∃ s' q', send (mkAllocs true true true) perms pid v s = Fin (Ok f) s' ∧
    ep_rep c (a_send f (message_of pid v) A) q' [] s'.
Proof.
  intros Hr Hc f.
  destruct (send_prep c s perms pid v _ (er_fut _ _ _ _ _ Hr) (er_next _ _ _ _ _ Hr) Hc eq_refl)
    as (g & wd & E & Hi & Hf & Hoff & Hnone). cbv zeta in *. fold f in E, Hf, Hoff, Hnone.
  set (m := next_ptr s) in *. set (s1 := prepared _ _ _ _ _ _) in E.
  destruct (deliver_queue c s1 (m + 1) m f _ Hi Hf (er_pr _ _ _ _ _ Hr)) as (g2 & E2 & [T1 T2 T3 T4]).
  exists (mkEp (messages s ++ [m]) (pending_sends s ++ [m + 1]) (pending_recvs s) (<[m := message_of pid v]> (msgs s))
    (<[m + 1 := mkPS m f]> (sends s)) (recvs s) (m + 1 + 1) g2), (q ++ [(m + 1, m, f)]). split; [rewrite E; exact E2|].
  destruct (rep_sends_fresh _ _ _ _ _ m Hr) as (Fm & _ & _); [lia|].
  destruct (rep_sends_fresh _ _ _ _ _ (m + 1) Hr) as (_ & Fs & _); [lia|].
  pose proof (rep_msg_old _ _ _ _ _ Hr) as Hold. fold m in Hold.
  destruct Hr as [R1 R2 R3 R4 R5 R6 R7 R8 R9 R10 R11].
  assert (Hoff2 : ∀ x, x ≠ f → asyncs g2 !! x = asyncs (futs s) !! x) by (intros x Hx; by rewrite T3, Hoff).
  unfold a_send. rewrite R10. cbn [fmap list_fmap].
  assert (Hgot : ep_o (asyncs (futs s)) (<[m := message_of pid v]> (msgs s)) (messages s ++ [m]) (outs A)).
  { apply (epo_msgs _ _ _ _ _ _ R11). intros m' x Hm' Hx. assert (m' ≠ m) by congruence.
    rewrite lookup_insert_ne by done. split; [set_solver|done]. }
  split; ep_fields.
  - done.
  - by rewrite R2, !fmap_app.
  - by rewrite R3, !fmap_app.
  - done.
  - apply (epq_add_send (asyncs (futs s)) _ (sends s)); try done.
    + by apply not_pend_none.
    + eexists. split; [exact T2|done].
    + intros x Hx. by rewrite lookup_insert_ne.
    + apply lookup_insert_eq.
  - by right.
  - lia.
  - intros p Hp. fold m in R8. rewrite !lookup_insert_is_Some in Hp. specialize (R8 p). fold m in R7. unfold m in *. naive_solver lia.
  - apply Forall2_app; [|constructor; [by rewrite lookup_insert_eq|constructor]].
    apply (senders_grow _ _ (msgs s)); [done|]. intros m' x Hx _. rewrite lookup_insert_ne; congruence.
  - done.
  - apply (epo_set (asyncs (futs s)) _ _ _ _ _ _ Hgot Hoff2). intros a. rewrite T2. by intros [= <-].
Qed.

Lemma unlink_mid p l1 l2 : p ∉ l1 → list_unlink p (l1 ++ p :: l2) = l1 ++ l2.
Proof.
  induction l1 as [|x l1 IH]; simpl; [by rewrite Z.eqb_refl|]. rewrite not_elem_of_cons. intros [Hne Hn].
  rewrite (proj2 (Z.eqb_neq x p)) by congruence. by rewrite IH.
Qed.
Lemma unlink_last p l : p ∉ l → list_unlink p (l ++ [p]) = l.
Proof. intros Hp. by rewrite unlink_mid, app_nil_r. Qed.

Lemma deliver_match c s p m f a r l fr ar :
  fut_inv c (futs s) → asyncs (futs s) !! f = Some a → fstate a = PENDING → sends s !! p = Some (mkPS m f) →
  p ∉ pending_sends s → pending_recvs s = r :: l → r ≠ 0 → recvs s !! r = Some fr →
  asyncs (futs s) !! fr = Some ar → fstate ar = PENDING → fr ≠ f →
  ∃ g, send_deliver p m f s = Fin (Ok f) (mkEp (messages s) (pending_sends s) l (msgs s)
         (delete p (sends s)) (delete r (recvs s)) (next_ptr s) g) ∧
    fut_inv c g ∧ asyncs g !! f = left_over (set_fstate COMPLETE (set_callback (Some (CbSend p)) a)) ∧
    asyncs g !! fr = left_over (set_fstate COMPLETE (set_fvalue (Some m) ar)) ∧
    (∀ x, x ≠ f → x ≠ fr → asyncs g !! x = asyncs (futs s) !! x).
Proof.
  intros Hi Ha Hap Hs Hp Hl Hr Hrv Har Hrp Hne.
  destruct (callback_touched c _ f a (Some (CbSend p)) Hi Ha) as (g1 & E1 & [I1 A1 O1 _]).
  destruct (set_value_run c g1 fr ar (Some m) I1) as (g2 & E2 & [I2 A2 O2 _]); [by rewrite O1|done|].
  destruct (set_value_run c g2 f (set_callback (Some (CbSend p)) a) None I2) as (g3 & E3 & [I3 A3 O3 _]);
    [by rewrite O2, A1|done|].
  destruct (delete_recv_run c (set_sends <[p := mkPS 0 f]> (set_futs g3 (set_pending_recvs (λ _, l) (set_pending_sends (push_back p) s))))
    r fr _ I3 Hrv (eq_trans (O3 fr Hne) A2)) as (g4 & E4 & [I4 A4 O4 _]).
  destruct (delete_send_run c (mkEp (messages s) (pending_sends s) l (msgs s) (<[p := mkPS 0 f]> (sends s)) (delete r (recvs s)) (next_ptr s) g4)
    p 0 f _ I4 (lookup_insert_eq _ _ _) (eq_trans (O4 f (not_eq_sym Hne)) A3)) as (g5 & E5 & [I5 A5 O5 _]).
  exists g5. split.
  - unfold send_deliver. run_by E1. erewrite bind_run by reflexivity.
    erewrite bind_run by (apply pop_some; exact Hl). rewrite (proj2 (Z.eqb_neq r 0)) by done. cbn [negb].
    erewrite bind_run by (apply get_recv_run; exact Hrv).
    erewrite bind_run by (unfold attempt; erewrite ep_futs_run by exact E2; reflexivity). cbv beta iota.
    erewrite bind_run by (unfold attempt; erewrite ep_futs_run by exact E3; reflexivity).
    erewrite bind_run by (apply (set_message_run _ p m f); exact Hs).
    erewrite bind_run by exact E4. erewrite bind_run by reflexivity.
    unfold push_back, set_pending_sends. cbn [pending_sends set_recvs set_sends set_futs set_pending_recvs].
    rewrite unlink_last by done. erewrite bind_run by exact E5.
    unfold set_sends, set_futs, mret, M_ret. ep_fields. by rewrite delete_insert_eq.
  - split; [done|]. split; [done|]. split; [exact (eq_trans (O5 fr Hne) A4)|].
    intros x Hx Hx'. etrans; [by apply O5|]. etrans; [by apply O4|]. simpl. by rewrite O3, O2, O1.
Qed.

Lemma epq_sends_any h sd sd' rv w : ep_q h sd rv [] w → ep_q h sd' rv [] w.
Proof. intros [H1 H2 H3 H4 H5 H6]. split; try done. intros p m f Hin. by apply elem_of_nil in Hin. Qed.
Lemma left_over_quiet h f a : h !! f = left_over a → fstate a ≠ PENDING → ∀ cb, ~ pendf h f cb.
Proof. intros E Hs cb (b & Eb & Hb & _). rewrite E in Eb. apply left_over_state in Eb as [? _]. congruence. Qed.
Lemma left_over_match mg ml a b o : left_over a = Some b → o_match mg ml a o → o_match mg ml b o.
Proof. intros (E1 & E2 & E3)%left_over_state. unfold o_match. by rewrite E1, E2, E3. Qed.

(** Keys of the heaps after an insertion past the end, or a deletion. *)
Lemma ptr_msgs c A q w s p x : ep_rep c A q w s → is_Some (<[next_ptr s := x]> (msgs s) !! p) → 0 < p < next_ptr s + 1.
Proof.
  intros Hr. rewrite lookup_insert_is_Some. pose proof (er_next _ _ _ _ _ Hr).
  intros [?|[_ Hp]]; [lia|]. destruct (er_ptr _ _ _ _ _ Hr p); [by left|lia].
Qed.

Lemma send_matched c A q s perms pid v r fr w :
  ep_rep (S c) A q ((r, fr) :: w) s → send_checks perms v = Ok tt →
  let f := next_async (futs s) in
  ∃ s', send (mkAllocs true true true) perms pid v s = Fin (Ok f) s' ∧
    ep_rep c (a_send f (message_of pid v) A) q w s'.
Proof.
  intros Hr Hc f.
  destruct (send_prep c s perms pid v _ (er_fut _ _ _ _ _ Hr) (er_next _ _ _ _ _ Hr) Hc eq_refl)
    as (g & wd & E & Hi & Hf & Hoff & Hnone). cbv zeta in *. fold f in E, Hf, Hoff, Hnone.
  set (m := next_ptr s) in *.
  destruct (rep_sends_fresh _ _ _ _ _ m Hr) as (Fm & _ & _); [lia|].
  destruct (rep_sends_fresh _ _ _ _ _ (m + 1) Hr) as (_ & Fs & _); [lia|].
  pose proof (λ p, ptr_msgs _ _ _ _ _ p (message_of pid v) Hr) as Hpm. fold m in Hpm.
  destruct Hr as [R1 R2 R3 R4 R5 R6 R7 R8 R9 R10 R11].
  destruct R6 as [->|?]; [|done]. rewrite fmap_cons in R4, R10. cbn [fst snd] in R4, R10.
  destruct (eq_recv _ _ _ _ _ R5 r fr) as (Hrv & ar & Har & Hrp & _); [left|].
  assert (Hne : fr ≠ f) by congruence.
  assert (Hrz : r ≠ 0) by (destruct (R8 r); [right; right; by exists fr|lia]).
  destruct (deliver_match c (prepared s m (m + 1) f (message_of pid v) g) (m + 1) m f (fresh_async wd) r w.*1 fr ar)
    as (g2 & E2 & I2 & T1 & T2 & T3);
    [done|done|done|apply lookup_insert_eq|simpl; rewrite R2; apply not_elem_of_nil|done|done|done|simpl; by rewrite Hoff|done|done|].
  cbn [prepared messages pending_sends pending_recvs msgs sends recvs next_ptr futs] in E2, T3.
  eexists. split; [rewrite E; exact E2|]. unfold a_send. rewrite R10.
  set (h1 := <[f := set_refs 1 (set_fstate COMPLETE (set_callback (Some (CbSend (m + 1))) (fresh_async wd)))]> (asyncs (futs s))).
  assert (Hh1 : ∀ x, x ≠ fr → asyncs g2 !! x = h1 !! x).
  { intros x Hx. unfold h1. destruct (decide (x = f)) as [->|Hxf]; [by rewrite T1, lookup_insert_eq|].
    rewrite lookup_insert_ne, T3, Hoff; done. }
  assert (Hq1 : ∀ x, x ≠ f → h1 !! x = asyncs (futs s) !! x) by (intros x Hx; by apply lookup_insert_ne).
  split; ep_fields; try done.
  - apply (epq_sends_any _ (sends s)). apply (epq_drop_recv h1 _ (sends s) (recvs s) _ [] [] w r fr).
    + apply (epq_quiet (asyncs (futs s)) _ _ _ _ _ f R5 Hq1); [by apply not_pend_none|].
      by eapply not_pend_state; [apply lookup_insert_eq|].
    + done.
    + by eapply left_over_quiet; [exact T2|].
    + intros x Hx. by rewrite lookup_delete_ne.
  - by left.
  - lia.
  - intros p. rewrite delete_insert_id by done. rewrite lookup_delete_is_Some. intros [Hp|Hp]; [specialize (Hpm p Hp); lia|].
    destruct (R8 p); [tauto|lia].
  - apply Forall2_nil_inv_l in R9. rewrite R9. constructor.
  - rewrite R3 in *. apply (epo_set h1); [|done|].
    + apply (epo_set (asyncs (futs s))); [|done|].
      * apply (epo_msgs _ _ _ _ _ _ R11). intros m' x Hm' Hx. split; [done|]. rewrite lookup_insert_ne; congruence.
      * intros a. unfold h1. rewrite lookup_insert_eq. by intros [= <-].
    + intros a. rewrite T2. intros Hl. apply (left_over_match _ _ _ _ _ Hl). cbn. split; [set_solver|]. eexists. split; [apply lookup_insert_eq|done].
Qed.

(** *** [recv] *)

Definition with_recv s (p f : Z) g : ep W :=
  mkEp (messages s) (pending_sends s) (pending_recvs s) (msgs s) (sends s) (<[p := f]> (recvs s)) (p + 1) g.

Lemma recv_prep c s perms :
  fut_inv (S c) (futs s) → 0 < next_ptr s → perm_imply perms ENDPOINT_READ = true →
  let p := next_ptr s in let f := next_async (futs s) in
  ∃ g wd, recv (mkAllocs true true true) perms s = recv_rest p f (with_recv s p f g) ∧
    fut_inv c g ∧ asyncs g !! f = Some (fresh_async wd) ∧
    (∀ y, y ≠ f → asyncs g !! y = asyncs (futs s) !! y) ∧ asyncs (futs s) !! f = None.
Proof.
  intros Hi Hnext Hp p f. destruct (promise_future_run c (futs s) Hi) as (g1 & g2 & wd & E1 & E2 & Hrest).
  exists g2, wd. split; [|exact Hrest]. unfold recv. rewrite Hp. cbn [negb].
  rewrite (bind_run _ _ _ _ _ (new_recv_run s (mkAllocs true true true) _ g1 eq_refl E1)).
  rewrite (proj2 (Z.eqb_neq (next_ptr s) 0)) by lia.
  rewrite (bind_run _ _ _ _ _ (get_recv_run _ _ _ (lookup_insert_eq _ _ _))).
  by erewrite bind_run by (apply ep_futs_run; exact E2).
Qed.

Lemma recv_waits c A w s perms :
  ep_rep (S c) A [] w s → perm_imply perms ENDPOINT_READ = true →
  let f := next_async (futs s) in
  ∃ s' w', recv (mkAllocs true true true) perms s = Fin (Ok f) s' ∧ ep_rep c (a_recv f A) [] w' s'.
Proof.
  intros Hr Hc f.
  destruct (recv_prep c s perms (er_fut _ _ _ _ _ Hr) (er_next _ _ _ _ _ Hr) Hc)
    as (g & wd & E & Hi & Hf & Hoff & Hnone). cbv zeta in *. fold f in E, Hf, Hoff, Hnone.
  set (p := next_ptr s) in *.
  destruct (rep_sends_fresh _ _ _ _ _ p Hr) as (_ & _ & Fr); [lia|].
  destruct Hr as [R1 R2 R3 R4 R5 R6 R7 R8 R9 R10 R11].
  destruct (callback_touched c g f _ (Some (CbRecv p)) Hi Hf) as (g2 & E2 & [T1 T2 T3 T4]).
  exists (mkEp (messages s) (pending_sends s) (pending_recvs s ++ [p]) (msgs s) (sends s) (<[p := f]> (recvs s)) (p + 1) g2),
    (w ++ [(p, f)]).
  assert (Hoff2 : ∀ x, x ≠ f → asyncs g2 !! x = asyncs (futs s) !! x) by (intros x Hx; by rewrite T3, Hoff).
  split.
  { rewrite E. unfold recv_rest.
    rewrite (bind_run (gets messages) _ (with_recv s p f g) [] (with_recv s p f g)) by (unfold gets; simpl; by rewrite R3).
    by run_by E2. }
  unfold a_recv. apply Forall2_nil_inv_l in R9. rewrite R9. split; ep_fields; try done.
  - by rewrite R4, fmap_app.
  - apply (epq_add_recv (asyncs (futs s)) _ _ (recvs s)); try done.
    + by apply not_pend_none.
    + eexists. split; [exact T2|done].
    + intros x Hx. by rewrite lookup_insert_ne.
    + apply lookup_insert_eq.
  - by left.
  - lia.
  - intros x. rewrite lookup_insert_is_Some. intros Hx. specialize (R8 x). fold p in R7, R8. naive_solver lia.
  - by rewrite R10, fmap_app.
  - apply (epo_set (asyncs (futs s)) _ _ _ _ _ _ R11 Hoff2). intros a. rewrite T2. by intros [= <-].
Qed.

Lemma complete_send_run c s p m f a l :
  fut_inv c (futs s) → m ≠ 0 → p ≠ 0 → pending_sends s = p :: l → sends s !! p = Some (mkPS m f) →
  asyncs (futs s) !! f = Some a → fstate a = PENDING →
  ∃ g, complete_send m s = Fin (Ok tt) (mkEp (messages s) l (pending_recvs s) (msgs s) (delete p (sends s))
         (recvs s) (next_ptr s) g) ∧
    touched c (futs s) g f (left_over (set_fstate COMPLETE a)).
Proof.
  intros Hi Hm Hp Hl Hs Ha Hap.
  destruct (set_value_run c (futs s) f a None Hi Ha Hap) as (g1 & E1 & [I1 A1 O1 N1]).
  destruct (delete_send_run c (set_sends <[p := mkPS 0 f]> (set_futs g1 (set_pending_sends (list_unlink p) s))) p 0 f _ I1
    (lookup_insert_eq _ _ _) A1) as (g2 & E2 & [I2 A2 O2 N2]).
  exists g2. split.
  - unfold complete_send, find_pending_send. rewrite (proj2 (Z.eqb_neq m 0)) by done.
    erewrite bind_run.
    2: { erewrite bind_run by reflexivity. rewrite Hl. cbn [find_send].
      erewrite bind_run by (apply get_send_run; exact Hs). cbn [ps_message]. by rewrite Z.eqb_refl. }
    rewrite (proj2 (Z.eqb_neq p 0)) by done. erewrite bind_run by reflexivity.
    erewrite bind_run by (apply get_send_run; exact Hs). cbn [ps_promise].
    erewrite bind_run by (unfold attempt; erewrite ep_futs_run by exact E1; reflexivity).
    erewrite bind_run by (apply (set_message_run _ p m f); exact Hs). etrans; [exact E2|].
    unfold set_sends, set_futs, set_pending_sends. ep_fields. rewrite Hl. cbn [list_unlink]. rewrite Z.eqb_refl.
    by rewrite delete_insert_eq.
  - split; [done|done| |].
    + intros y Hy. etrans; [by apply O2|]. by apply O1.
    + etrans; [exact N2|exact N1].
Qed.

Lemma recv_takes c A q w s perms p0 m f0 :
  ep_rep (S c) A ((p0, m, f0) :: q) w s → perm_imply perms ENDPOINT_READ = true →
  let f := next_async (futs s) in
  ∃ s', recv (mkAllocs true true true) perms s = Fin (Ok f) s' ∧ ep_rep c (a_recv f A) q w s'.
Proof.
  intros Hr Hc f.
  destruct (recv_prep c s perms (er_fut _ _ _ _ _ Hr) (er_next _ _ _ _ _ Hr) Hc)
    as (g & wd & E & Hi & Hf & Hoff & Hnone). cbv zeta in *. fold f in E, Hf, Hoff, Hnone.
  set (p := next_ptr s) in *.
  destruct (rep_msg_live _ _ _ _ _ p0 m f0 Hr) as [x Hx]; [left|].
  destruct Hr as [R1 R2 R3 R4 R5 R6 R7 R8 R9 R10 R11]. rewrite !fmap_cons in R2, R3. cbn [fst snd] in R2, R3.
  destruct R6 as [R6|R6]; [done|subst w].
  destruct (eq_send _ _ _ _ _ R5 p0 m f0) as (Hsd & a0 & Ha0 & Hp0 & Hcb0); [left|].
  assert (Hne : f0 ≠ f) by congruence.
  assert (Hp0z : p0 ≠ 0) by (destruct (R8 p0); [right; left; by eexists|lia]).
  assert (Hmz : m ≠ 0) by (destruct (R8 m); [left; by exists x|lia]).
  destruct (complete_send_run c (set_messages (λ _, q.*1.*2) (with_recv s p f g)) p0 m f0 a0 q.*1.*1 Hi Hmz Hp0z R2 Hsd)
    as (g2 & E2 & [I2 A2 O2 _]); [simpl; by rewrite Hoff|done|].
  destruct (set_value_run c g2 f (fresh_async wd) (Some m) I2) as (g3 & E3 & [I3 A3 O3 _]);
    [etrans; [by apply O2|exact Hf]|done|].
  eexists. split.
  { rewrite E. unfold recv_rest.
    rewrite (bind_run (gets messages) _ (with_recv s p f g) (m :: q.*1.*2) (with_recv s p f g)) by (unfold gets; simpl; by rewrite R3).
    erewrite bind_run by reflexivity. run_by E2.
    erewrite bind_run by (unfold attempt; erewrite ep_futs_run by exact E3; reflexivity). reflexivity. }
  unfold a_recv. destruct (senders A) as [|[f1 y] ss] eqn:EA; [by inversion R9|].
  apply Forall2_cons in R9 as [[Hmx Hf1] R9']. cbn [fst snd] in Hmx, Hf1. simplify_eq.
  set (h1 := <[f := set_fstate COMPLETE (set_fvalue (Some m) (fresh_async wd))]> (asyncs (futs s))).
  assert (Hq1 : ∀ x, x ≠ f → h1 !! x = asyncs (futs s) !! x) by (intros z Hz; by apply lookup_insert_ne).
  assert (Hh1 : ∀ x, x ≠ f1 → asyncs g3 !! x = h1 !! x).
  { intros z Hz. unfold h1. destruct (decide (z = f)) as [->|Hzf]; [by rewrite A3, lookup_insert_eq|].
    rewrite lookup_insert_ne by done. rewrite O3 by done. etrans; [by apply O2|]. by apply Hoff. }
  assert (At : asyncs g3 !! f1 = left_over (set_fstate COMPLETE a0)) by (rewrite O3 by done; exact A2).
  pose proof (eq_ndm _ _ _ _ _ R5) as Hnd. rewrite !fmap_cons in Hnd. apply NoDup_cons in Hnd as [Hmq _]. cbn [fst snd] in Hmq.
  split; cbn [set_messages set_futs with_recv futs messages pending_sends pending_recvs msgs sends recvs next_ptr senders receivers outs]; try done.
  - eapply (epq_drop_send h1 _ (sends s) _ _ [] q [] p0 m f1).
    + assert (HQ : ep_q h1 (sends s) (recvs s) ((p0, m, f1) :: q) []).
      { apply (epq_quiet (asyncs (futs s)) _ _ _ _ _ f R5 Hq1); [by apply not_pend_none|].
        by eapply not_pend_state; [apply lookup_insert_eq|]. }
      destruct HQ. split; try done. intros ? ? []%elem_of_nil.
    + done.
    + by eapply left_over_quiet; [exact At|].
    + intros z Hz. by rewrite lookup_delete_ne.
  - by right.
  - lia.
  - intros z. rewrite lookup_insert_is_Some, lookup_delete_is_Some. intros Hz. specialize (R8 z). fold p in R7, R8. naive_solver lia.
  - assert (EO : <[f := OGot y]> (<[f1 := ODone]> (outs A)) = <[f1 := ODone]> (<[f := OGot y]> (outs A)))
      by (by apply insert_insert_ne). rewrite EO.
    apply (epo_set h1); [|done|].
    + apply (epo_set (asyncs (futs s))); [|done|].
      * apply (epo_msgs _ _ _ _ _ _ R11). rewrite R3. set_solver.
      * intros a. unfold h1. rewrite lookup_insert_eq. intros [= <-]. cbn. split; [done|]. by exists y.
    + intros a. rewrite At. intros Hl. apply (left_over_match _ _ _ _ _ Hl). cbn.
      destruct (R11 f1 a0 Ha0) as (o & _ & Ho). unfold o_match in Ho. rewrite Hp0 in Ho. by destruct Ho as [_ ->].
Qed.

(** *** Cancelling *)

Lemma filter_id {A} (P : A → Prop) `{∀ x, Decision (P x)} (l : list A) : (∀ x, x ∈ l → P x) → filter P l = l.
Proof.
  induction l as [|x l IH]; intros Hl; [done|]. rewrite filter_cons_True by (apply Hl; left).
  f_equal. apply IH. intros y Hy. apply Hl. by right.
Qed.
Lemma filter_mid {A B} (F : A → B) `{EqDecision B} (x : B) (l1 : list A) (y : A) (l2 : list A) :
  F y = x → (∀ z, z ∈ l1 ++ l2 → F z ≠ x) → filter (λ z, F z ≠ x) (l1 ++ y :: l2) = l1 ++ l2.
Proof.
  intros Hy Hl. rewrite filter_app, filter_cons_False by (intros Hn; by apply Hn).
  rewrite !filter_id; [done|intros z Hz; apply Hl, elem_of_app; by right|intros z Hz; apply Hl, elem_of_app; by left].
Qed.

Lemma find_send_run s q1 p m f q2 :
  (∀ p' m' f', (p', m', f') ∈ q1 ++ (p, m, f) :: q2 → sends s !! p' = Some (mkPS m' f')) →
  m ∉ q1.*1.*2 → find_send m (q1 ++ (p, m, f) :: q2).*1.*1 s = Fin (Ok p) s.
Proof.
  induction q1 as [|[[p1 m1] f1] q1 IH]; cbn -[mbind]; intros Hs Hm.
  - erewrite bind_run by (apply get_send_run, (Hs p m f); left). cbn. by rewrite Z.eqb_refl.
  - apply not_elem_of_cons in Hm as [Hne Hm].
    erewrite bind_run by (apply get_send_run, (Hs p1 m1 f1); left). cbn -[mbind].
    rewrite (proj2 (Z.eqb_neq m1 m)) by congruence. apply IH; [|done]. intros p' m' f' Hin. apply Hs. by right.
Qed.

Lemma cancel_send_run c s q1 p m f q2 a :
  fut_inv c (futs s) → p ≠ 0 → m ≠ 0 → is_Some (msgs s !! m) →
  (∀ p' m' f', (p', m', f') ∈ q1 ++ (p, m, f) :: q2 → sends s !! p' = Some (mkPS m' f')) →
  NoDup (q1 ++ (p, m, f) :: q2).*1.*1 → NoDup (q1 ++ (p, m, f) :: q2).*1.*2 →
  pending_sends s = (q1 ++ (p, m, f) :: q2).*1.*1 → messages s = (q1 ++ (p, m, f) :: q2).*1.*2 →
  asyncs (futs s) !! f = Some a →
  ∃ g, cancel_send p s = Fin (Ok tt) (mkEp (q1 ++ q2).*1.*2 (q1 ++ q2).*1.*1 (pending_recvs s) (delete m (msgs s))
         (delete p (sends s)) (recvs s) (next_ptr s) g) ∧
    touched c (futs s) g f (left_over a).
Proof.
  intros Hi Hpz Hmz [y Hy] Hs Hnp Hnm Hps Hms Ha.
  rewrite !fmap_app, !fmap_cons in Hnp, Hnm. cbn [fst snd] in Hnp, Hnm.
  assert (Hmq : m ∉ q1.*1.*2) by (apply NoDup_app in Hnm as (_ & Hd & _); intros Hin; apply (Hd m Hin); left).
  assert (Hpq : p ∉ q1.*1.*1) by (apply NoDup_app in Hnp as (_ & Hd & _); intros Hin; apply (Hd p Hin); left).
  set (s1 := mkEp (q1 ++ q2).*1.*2 (q1 ++ q2).*1.*1 (pending_recvs s) (delete m (msgs s)) (<[p := mkPS 0 f]> (sends s))
    (recvs s) (next_ptr s) (futs s)).
  destruct (delete_send_run c s1 p 0 f a Hi (lookup_insert_eq _ _ _) Ha) as (g & E & Ht). exists g. split; [|done].
  assert (Hsp : sends s !! p = Some (mkPS m f)) by (apply (Hs p m f); set_solver).
  unfold cancel_send. rewrite (proj2 (Z.eqb_neq p 0)) by done.
  erewrite bind_run by (apply get_send_run; exact Hsp). cbn [ps_message].
  rewrite (bind_run (find_pending_send m) _ s p s).
  2: { unfold find_pending_send. rewrite (proj2 (Z.eqb_neq m 0)) by done. erewrite bind_run by reflexivity.
       rewrite Hps. by apply (find_send_run s q1 p m f q2). }
  rewrite Z.eqb_refl. cbn [negb].
  rewrite (bind_run (message_is_queued m) _ s true s).
  2: { unfold message_is_queued. rewrite (proj2 (Z.eqb_neq m 0)) by done. erewrite bind_run by reflexivity.
       rewrite bool_decide_eq_true_2; [done|]. rewrite Hms. set_solver. }
  rewrite (proj2 (Z.eqb_neq m 0)) by done. cbn [negb andb].
  erewrite bind_run by reflexivity. erewrite bind_run by reflexivity.
  rewrite (bind_run (delete_msg m) _ _ tt (set_msgs (delete m) (set_pending_sends (list_unlink p) (set_messages (list_unlink m) s))))
    by (unfold delete_msg; rewrite (proj2 (Z.eqb_neq m 0)) by done; simpl; by rewrite Hy).
  erewrite bind_run by (apply (set_message_run _ p m f); exact Hsp).
  replace (set_sends _ _) with s1; [|].
  - etrans; [exact E|]. unfold s1, set_sends, set_futs. ep_fields. by rewrite delete_insert_eq.
  - unfold s1, set_sends, set_msgs, set_pending_sends, set_messages. ep_fields.
    rewrite Hps, Hms, !fmap_app, !fmap_cons. cbn [fst snd]. by rewrite !unlink_mid.
Qed.

Lemma cancel_recv_run c s w1 p f w2 a :
  fut_inv c (futs s) → p ≠ 0 → recvs s !! p = Some f → NoDup (w1 ++ (p, f) :: w2).*1 →
  pending_recvs s = (w1 ++ (p, f) :: w2).*1 → asyncs (futs s) !! f = Some a →
  ∃ g, cancel_recv p s = Fin (Ok tt) (mkEp (messages s) (pending_sends s) (w1 ++ w2).*1 (msgs s)
         (sends s) (delete p (recvs s)) (next_ptr s) g) ∧
    touched c (futs s) g f (left_over a).
Proof.
  intros Hi Hpz Hp Hn Hpr Ha. rewrite !fmap_app, !fmap_cons in Hn. cbn [fst snd] in Hn.
  assert (Hpq : p ∉ w1.*1) by (apply NoDup_app in Hn as (_ & Hd & _); intros Hin; apply (Hd p Hin); left).
  destruct (delete_recv_run c (set_pending_recvs (list_unlink p) s) p f a Hi Hp Ha) as (g & E & Ht). exists g. split; [|done].
  unfold cancel_recv. rewrite (proj2 (Z.eqb_neq p 0)) by done. erewrite bind_run by reflexivity.
  etrans; [exact E|]. unfold set_recvs, set_pending_recvs, set_futs. ep_fields. rewrite Hpr, !fmap_app, !fmap_cons. cbn [fst snd].
  by rewrite unlink_mid.
Qed.

Lemma cancel_tail c s f a :
  fut_inv c (futs s) → asyncs (futs s) !! f = Some a →
  ∃ g, (a ← on_futs (get_async f); _ ← on_futs (put_async f (set_fstate CANCLED a));
        _ ← on_futs (with_waker (wk_wake_all (wait_wd a))); mret tt) s = Fin (Ok tt) (set_futs g s) ∧
    touched c (futs s) g f (Some (set_fstate CANCLED a)).
Proof.
  intros Hi Ha. destruct (fi_async _ _ Hi f a Ha) as (Hf & Hwd & Hrc).
  destruct (wk_wake_ok c (waker (futs s)) (wait_wd a)) as (n & w & Ew & Hiw); [apply Hi|done|].
  exists (set_waker w (set_asyncs <[f := set_fstate CANCLED a]> (futs s))). split.
  - erewrite bind_run by (apply ep_futs_run, get_async_run; exact Ha). erewrite bind_run by reflexivity.
    erewrite bind_run; [reflexivity|]. unfold on_futs, with_waker. simpl. by rewrite Ew.
  - pose proof (put_inv c (futs s) f a (set_fstate CANCLED a) Hi Ha eq_refl Hrc) as [_ H2 H3].
    split; [by split| | |done]; simpl; [apply lookup_insert_eq|intros y Hy; by rewrite lookup_insert_ne].
Qed.

(** [cancle] of a pending future: its callback, then the future itself. *)
Lemma cancle_run c s f a s1 a1 :
  fut_inv c (futs s) → asyncs (futs s) !! f = Some a → fstate a = PENDING →
  (match cancel_callback a with Some cb => run_cb cb | None => mret tt end) s = Fin (Ok tt) s1 →
  fut_inv c (futs s1) → asyncs (futs s1) !! f = Some a1 →
  ∃ g, ep_cancle f s = Fin (Ok tt) (set_futs g s1) ∧ touched c (futs s1) g f (Some (set_fstate CANCLED a1)).
Proof.
  intros Hi Ha Hp Hcb Hi1 Ha1. destruct (fi_async _ _ Hi f a Ha) as (Hf & _ & _).
  destruct (cancel_tail c s1 f a1 Hi1 Ha1) as (g & E & Ht). exists g. split; [|done].
  unfold ep_cancle, cancle. rewrite (proj2 (Z.eqb_neq f 0)) by lia.
  erewrite bind_run by (apply ep_futs_run, get_async_run; exact Ha). rewrite Hp.
  replace (set_futs (futs s) s) with s by (by destruct s).
  erewrite bind_run by exact Hcb. exact E.
Qed.

Lemma rep_sender_at c A q1 p m f q2 w s :
  ep_rep c A (q1 ++ (p, m, f) :: q2) w s → ∃ l1 x l2, senders A = l1 ++ (f, x) :: l2 ∧
    Forall2 (λ x y, msgs s !! x.1.2 = Some y.2 ∧ x.2 = y.1) (q1 ++ q2) (l1 ++ l2) ∧
    (∀ z, z ∈ l1 ++ l2 → z.1 ≠ f).
Proof.
  intros Hr. pose proof (er_senders _ _ _ _ _ Hr) as (l1 & l2 & HF1 & HF2 & EA)%Forall2_app_inv_l.
  apply Forall2_cons_inv_l in HF2 as ([f' x] & l2' & [_ Hf] & HF2 & ->). cbn [fst snd] in Hf. subst f'.
  exists l1, x, l2'. assert (HF : Forall2 (λ x y, msgs s !! x.1.2 = Some y.2 ∧ x.2 = y.1) (q1 ++ q2) (l1 ++ l2')) by by apply Forall2_app.
  split_and!; [done|done|]. intros z [i Hz]%list_elem_of_lookup.
  destruct (Forall2_lookup_r _ _ _ _ _ HF Hz) as ([[p' m'] f'] & Hin & [_ Hf']). cbn [fst snd] in Hf'. subst f'. intros Hzf.
  apply list_elem_of_lookup_2 in Hin. pose proof (er_q _ _ _ _ _ Hr) as Hq.
  pose proof (ndq_ne _ _ _ _ _ _ _ _ (eq_ndq _ _ _ _ _ Hq) Hin) as Hne. apply Hne. subst f.
  destruct (eq_send _ _ _ _ _ Hq p' m' z.1) as [_ P1]; [set_solver|].
  destruct (eq_send _ _ _ _ _ Hq p m z.1) as [_ P2]; [set_solver|].
  pose proof (pendf_fun _ _ _ _ P1 P2). congruence.
Qed.
Lemma rep_not_sender c A q w s f : ep_rep c A q w s → (∀ p, ~ pendf (asyncs (futs s)) f (CbSend p)) → ∀ z, z ∈ senders A → z.1 ≠ f.
Proof.
  intros Hr Hn z [i Hz]%list_elem_of_lookup <-.
  destruct (Forall2_lookup_r _ _ _ _ _ (er_senders _ _ _ _ _ Hr) Hz) as ([[p' m'] f'] & Hin & [_ Hf']). cbn [fst snd] in Hf'. subst f'.
  apply (Hn p'), (eq_send _ _ _ _ _ (er_q _ _ _ _ _ Hr) p' m'). by apply list_elem_of_lookup_2 in Hin.
Qed.
Lemma rep_not_receiver c A q w s f : ep_rep c A q w s → (∀ p, ~ pendf (asyncs (futs s)) f (CbRecv p)) → ∀ z, z ∈ receivers A → z ≠ f.
Proof.
  intros Hr Hn z. rewrite (er_receivers _ _ _ _ _ Hr). intros ([p g] & -> & Hin)%list_elem_of_fmap Hg. cbn [snd] in Hg. subst g.
  by apply (Hn p), (eq_recv _ _ _ _ _ (er_q _ _ _ _ _ Hr)).
Qed.

Lemma cancel_sender c A q1 p m f q2 w s a :
  ep_rep c A (q1 ++ (p, m, f) :: q2) w s → asyncs (futs s) !! f = Some a → 1 < ref_count a →
  ∃ s', ep_cancle f s = Fin (Ok tt) s' ∧ ep_rep c (a_cancel f A) (q1 ++ q2) w s'.
Proof.
  intros Hr Ha Hrc. pose proof (er_q _ _ _ _ _ Hr) as Hq.
  destruct (eq_send _ _ _ _ _ Hq p m f) as (Hsp & a' & Ha' & Hp & Hcb); [set_solver|]. simplify_eq.
  destruct (rep_msg_live _ _ _ _ _ p m f Hr) as [x Hx]; [set_solver|].
  assert (Hpz : p ≠ 0) by (destruct (er_ptr _ _ _ _ _ Hr p); [right; left; by eexists|lia]).
  assert (Hmz : m ≠ 0) by (destruct (er_ptr _ _ _ _ _ Hr m); [left; by exists x|lia]).
  destruct (cancel_send_run c s q1 p m f q2 a (er_fut _ _ _ _ _ Hr) Hpz Hmz (mk_is_Some _ _ Hx)
    (λ p' m' f' Hin, proj1 (eq_send _ _ _ _ _ Hq p' m' f' Hin)) (eq_ndq _ _ _ _ _ Hq) (eq_ndm _ _ _ _ _ Hq)
    (er_ps _ _ _ _ _ Hr) (er_ms _ _ _ _ _ Hr) Ha) as (g1 & E1 & [I1 A1 O1 _]).
  unfold left_over in A1. rewrite (proj2 (Z.eqb_neq (ref_count a) 1)) in A1 by lia.
  destruct (cancle_run c s f a _ _ (er_fut _ _ _ _ _ Hr) Ha Hp ltac:(rewrite Hcb; exact E1) I1 A1) as (g & E & [I2 A2 O2 _]).
  eexists. split; [exact E|]. cbn [futs] in O2.
  assert (Hoff : ∀ x, x ≠ f → asyncs g !! x = asyncs (futs s) !! x) by (intros z Hz; by rewrite O2, O1).
  destruct (rep_sender_at _ _ _ _ _ _ _ _ _ Hr) as (l1 & y & l2 & EA & HF & Hl).
  assert (Hmq : m ∉ (q1 ++ q2).*1.*2).
  { pose proof (eq_ndm _ _ _ _ _ Hq) as Hn. rewrite !fmap_app, !fmap_cons in Hn. cbn [fst snd] in Hn.
    rewrite !fmap_app. apply NoDup_app in Hn as (_ & Hd & [Hm2 _]%NoDup_cons).
    intros [Hin|Hin]%elem_of_app; [|done]. apply (Hd m Hin). left. }
  unfold a_cancel. rewrite EA, (filter_mid fst) by done.
  rewrite (filter_id _ (receivers A)).
  2: { apply (rep_not_receiver _ _ _ _ _ _ Hr). intros p' (b & Hb & _ & Hcb'). congruence. }
  split; cbn [set_futs futs messages pending_sends pending_recvs msgs sends recvs next_ptr senders receivers outs]; try done.
  - apply Hr.
  - apply (epq_drop_send _ _ _ _ _ _ _ _ _ _ _ Hq Hoff); [by eapply not_pend_state; [exact A2|]|].
    intros z Hz. by rewrite lookup_delete_ne.
  - destruct (er_one _ _ _ _ _ Hr) as [Ho|Ho]; [by destruct q1|by right].
  - apply Hr.
  - intros z. rewrite !lookup_delete_is_Some. intros Hz. apply (er_ptr _ _ _ _ _ Hr). naive_solver.
  - apply (senders_grow _ _ (msgs s)); [done|]. intros m' z Hz Hin. rewrite lookup_delete_ne; [done|]. intros ->. done.
  - apply Hr.
  - apply (epo_set (asyncs (futs s))); [|done|intros b; rewrite A2; by intros [= <-]].
    apply (epo_msgs _ _ _ _ _ _ (er_out _ _ _ _ _ Hr)). rewrite (er_ms _ _ _ _ _ Hr).
    intros m' z Hm' Hz. rewrite !fmap_app, !fmap_cons in Hm'. cbn [fst snd] in Hm'. rewrite !fmap_app.
    rewrite lookup_delete_ne by set_solver. split; [set_solver|done].
Qed.

Lemma cancel_receiver c A q w1 p f w2 s a :
  ep_rep c A q (w1 ++ (p, f) :: w2) s → asyncs (futs s) !! f = Some a → 1 < ref_count a →
  ∃ s', ep_cancle f s = Fin (Ok tt) s' ∧ ep_rep c (a_cancel f A) q (w1 ++ w2) s'.
Proof.
  intros Hr Ha Hrc. pose proof (er_q _ _ _ _ _ Hr) as Hq.
  destruct (eq_recv _ _ _ _ _ Hq p f) as (Hsp & a' & Ha' & Hp & Hcb); [set_solver|]. simplify_eq.
  assert (Hpz : p ≠ 0) by (destruct (er_ptr _ _ _ _ _ Hr p); [right; right; by eexists|lia]).
  destruct (cancel_recv_run c s w1 p f w2 a (er_fut _ _ _ _ _ Hr) Hpz Hsp (eq_ndw _ _ _ _ _ Hq)
    (er_pr _ _ _ _ _ Hr) Ha) as (g1 & E1 & [I1 A1 O1 _]).
  unfold left_over in A1. rewrite (proj2 (Z.eqb_neq (ref_count a) 1)) in A1 by lia.
  destruct (cancle_run c s f a _ _ (er_fut _ _ _ _ _ Hr) Ha Hp ltac:(rewrite Hcb; exact E1) I1 A1) as (g & E & [I2 A2 O2 _]).
  eexists. split; [exact E|]. cbn [futs] in O2.
  assert (Hoff : ∀ x, x ≠ f → asyncs g !! x = asyncs (futs s) !! x) by (intros z Hz; by rewrite O2, O1).
  unfold a_cancel. rewrite (filter_id _ (senders A)).
  2: { apply (rep_not_sender _ _ _ _ _ _ Hr). intros p' (b & Hb & _ & Hcb'). congruence. }
  split; cbn [set_futs futs messages pending_sends pending_recvs msgs sends recvs next_ptr senders receivers outs]; try done; try (by apply Hr).
  - apply (epq_drop_recv _ _ _ _ _ _ _ _ _ _ Hq Hoff); [by eapply not_pend_state; [exact A2|]|].
    intros z Hz. by rewrite lookup_delete_ne.
  - destruct (er_one _ _ _ _ _ Hr) as [Ho|Ho]; [by left|by destruct w1].
  - intros z. rewrite !lookup_delete_is_Some. intros Hz. apply (er_ptr _ _ _ _ _ Hr). naive_solver.
  - rewrite (er_receivers _ _ _ _ _ Hr), !fmap_app, fmap_cons. cbn [snd]. apply (filter_mid id); [done|].
    intros z. rewrite <- fmap_app. intros ([p' g'] & -> & Hin)%list_elem_of_fmap Hg. cbn [snd id] in Hg. unfold id in Hg. subst g'.
    pose proof (ndw_ne _ _ _ _ _ _ (eq_ndw _ _ _ _ _ Hq) Hin) as Hne.
    destruct (eq_recv _ _ _ _ _ Hq p' f) as (_ & b & Hb & _ & Hcb'); [set_solver|]. congruence.
  - apply (epo_set (asyncs (futs s))); [apply Hr|done|intros b; rewrite A2; by intros [= <-]].
Qed.

(** A change of one future that is not pending afterwards, or that keeps its state. *)
Lemma rep_touch c c' A A' q w s g f x :
  ep_rep c A q w s → touched c' (futs s) g f x → (∀ cb, pendf (asyncs (futs s)) f cb ↔ pendf (asyncs g) f cb) →
  senders A' = senders A → receivers A' = receivers A →
  ep_o (asyncs g) (msgs s) (messages s) (outs A') → ep_rep c' A' q w (set_futs g s).
Proof.
  intros [R1 R2 R3 R4 R5 R6 R7 R8 R9 R10 R11] [T1 T2 T3 _] Hpd ES ER Ho.
  split; cbn [set_futs futs messages pending_sends pending_recvs msgs sends recvs next_ptr]; try done; [|by rewrite ES|by rewrite ER].
  destruct R5 as [H1 H2 H3 H4 H5 H6].
  assert (Hall : ∀ y cb, pendf (asyncs g) y cb ↔ pendf (asyncs (futs s)) y cb).
  { intros y cb. destruct (decide (y = f)) as [->|Hne]; [symmetry; apply Hpd|]. by apply (pendf_off _ _ f). }
  split; try done.
  - intros p m y Hin. destruct (H1 p m y Hin) as [? ?]. split; [done|]. by apply Hall.
  - intros p y Hin. destruct (H2 p y Hin) as [? ?]. split; [done|]. by apply Hall.
  - intros y cb Hy. by apply H3, Hall.
Qed.

Lemma cancel_plain c A q w s f a :
  ep_rep c A q w s → asyncs (futs s) !! f = Some a → fstate a = PENDING → cancel_callback a = None →
  ∃ s', ep_cancle f s = Fin (Ok tt) s' ∧ ep_rep c (a_cancel f A) q w s'.
Proof.
  intros Hr Ha Hp Hcb.
  destruct (cancle_run c s f a s a (er_fut _ _ _ _ _ Hr) Ha Hp ltac:(by rewrite Hcb) (er_fut _ _ _ _ _ Hr) Ha) as (g & E & Ht).
  eexists. split; [exact E|].
  assert (Hn : ∀ cb, ~ pendf (asyncs (futs s)) f cb) by (intros cb (b & Hb & _ & Hc); congruence).
  apply (rep_touch c c A _ q w s g f _ Hr Ht).
  - intros cb. split; [intros Hc; by destruct (Hn cb)|]. intros (b & Hb & Hs & _). rewrite (td_at _ _ _ _ _ Ht) in Hb. by simplify_eq.
  - unfold a_cancel. cbn [senders]. apply filter_id, (rep_not_sender _ _ _ _ _ _ Hr). intros p. apply Hn.
  - unfold a_cancel. cbn [receivers]. apply filter_id, (rep_not_receiver _ _ _ _ _ _ Hr). intros p. apply Hn.
  - apply (epo_set (asyncs (futs s))); [apply Hr|apply Ht|]. intros b. rewrite (td_at _ _ _ _ _ Ht). by intros [= <-].
Qed.

Lemma cancel_pending c A q w s f a :
  ep_rep c A q w s → asyncs (futs s) !! f = Some a → fstate a = PENDING → 1 < ref_count a →
  ∃ s' q' w', ep_cancle f s = Fin (Ok tt) s' ∧ ep_rep c (a_cancel f A) q' w' s'.
Proof.
  intros Hr Ha Hp Hrc. destruct (cancel_callback a) as [cb|] eqn:Hcb.
  - pose proof (eq_cb _ _ _ _ _ (er_q _ _ _ _ _ Hr) f cb (ex_intro _ a (conj Ha (conj Hp Hcb)))) as Hin. destruct cb as [p|p].
    + destruct Hin as [m (q1 & q2 & ->)%list_elem_of_split].
      destruct (cancel_sender _ _ _ _ _ _ _ _ _ _ Hr Ha Hrc) as (s' & ? & ?). by exists s', (q1 ++ q2), w.
    + apply list_elem_of_split in Hin as (w1 & w2 & ->).
      destruct (cancel_receiver _ _ _ _ _ _ _ _ _ Hr Ha Hrc) as (s' & ? & ?). by exists s', q, (w1 ++ w2).
  - destruct (cancel_plain _ _ _ _ _ _ _ Hr Ha Hp Hcb) as (s' & ? & ?). by exists s', q, w.
Qed.

(** *** All operations *)

Definition run_ep_op (op : ep_op) : M (ep W) Z :=
  match op with
  | ESend al perms pid v => send al perms pid v
  | ERecv al perms => recv al perms
  | ECancel f => _ ← ep_cancle f; mret 0
  | EValue void f => on_futs (value void f)
  | ECopy f => on_futs (future_of f)
  | EDrop f => _ ← on_futs (release f); mret 0
  end.

(** The caller holds a reference to [f] of its own, apart from the one of a pending
    request. *)
Definition held s (f : Z) : Prop :=
  ∃ a, asyncs (futs s) !! f = Some a ∧ (fstate a = PENDING → 1 < ref_count a).
Definition ep_op_ok s (op : ep_op) : Prop :=
  match op with
  | ESend al _ _ _ | ERecv al _ => state_ok al = true
  | ECancel f | EDrop f | EValue _ f => held s f
  | ECopy f => ∃ a, asyncs (futs s) !! f = Some a ∧ ref_count a + 1 < W64
  end.

Definition answers s (r : Result Z) (b : Result answer) : Prop :=
  match r, b with
  | Ok z, Ok (AFut f) => z = f
  | Ok _, Ok AUnit => True
  | Ok z, Ok (AMsg m) => msgs s !! z = Some m
  | Err e, Err e' => e = e'
  | _, _ => False
  end.

(** [op] returns, answers as on the rendezvous [A], and the state after it is the
    rendezvous after it. *)
Definition simulates c A s op : Prop :=
  ∃ r s' q' w', run_ep_op op s = Fin r s' ∧
    answers s' r (a_op (next_async (futs s)) op A).1 ∧
    ep_rep c (a_op (next_async (futs s)) op A).2 q' w' s'.

Lemma rep_less c A q w s : ep_rep (S c) A q w s → ep_rep c A q w s.
Proof. intros []. split; try done. by apply fut_inv_less. Qed.
Lemma set_futs_id s : set_futs (futs s) s = s.
Proof. by destruct s. Qed.

(** The message is built and the request is not: the message stays in the heap. *)
Lemma rep_leak c A q w s x :
  ep_rep c A q w s →
  ep_rep c A q w (mkEp (messages s) (pending_sends s) (pending_recvs s) (<[next_ptr s := x]> (msgs s)) (sends s)
    (recvs s) (next_ptr s + 1) (futs s)).
Proof.
  intros Hr. destruct (rep_sends_fresh _ _ _ _ _ (next_ptr s) Hr) as (Fm & _); [lia|].
  destruct Hr as [R1 R2 R3 R4 R5 R6 R7 R8 R9 R10 R11]. split; ep_fields; try done.
  - lia.
  - intros p. rewrite lookup_insert_is_Some. intros Hp. specialize (R8 p). naive_solver lia.
  - apply (senders_grow _ _ (msgs s)); [done|]. intros m y Hm _. rewrite lookup_insert_ne; congruence.
  - apply (epo_msgs _ _ _ _ _ _ R11). intros m y Hm Hy. split; [done|]. rewrite lookup_insert_ne; congruence.
Qed.

Lemma sim_send c A q w s al perms pid v :
  ep_rep (S c) A q w s → state_ok al = true → simulates c A s (ESend al perms pid v).
Proof.
  intros Hr Hal. unfold simulates. cbn [a_op run_ep_op].
  destruct (send_checks perms v) as [[]|e] eqn:Ec.
  2: { exists (Err e), s, q, w. split; [|split; [done|by apply rep_less]]. unfold send. by rewrite Ec. }
  assert (Hv : check_msg_valid v = Ok tt) by (unfold send_checks in Ec; by destruct (check_msg_valid v) as [[]|]).
  destruct al as [[] [] []]; cbn [msg_ok pending_ok andb fst snd]; try done.
  - destruct w as [|[r fr] w].
    + destruct (send_queued c A q s perms pid v Hr Ec) as (s' & q' & E & Hr'). by exists (Ok (next_async (futs s))), s', q', [].
    + destruct (send_matched c A q s perms pid v r fr w Hr Ec) as (s' & E & Hr'). by exists (Ok (next_async (futs s))), s', q, w.
  - eexists (Err ALLOCATION_FAILED), _, q, w.
    split; [|split; [done|apply rep_less, (rep_leak _ _ _ _ _ (message_of pid v) Hr)]].
    unfold send. rewrite (bind_run (of_result (send_checks perms v)) _ s tt s) by (unfold of_result; by rewrite Ec).
    by erewrite bind_run by (by apply build_run).
  - exists (Err ALLOCATION_FAILED), s, q, w. split; [|split; [done|by apply rep_less]]. unfold send, build_endpoint_message. by rewrite Ec, Hv.
  - exists (Err ALLOCATION_FAILED), s, q, w. split; [|split; [done|by apply rep_less]]. unfold send, build_endpoint_message. by rewrite Ec, Hv.
Qed.

Lemma recv_alloc al perms s : pending_ok al = true → state_ok al = true → recv al perms s = recv (mkAllocs true true true) perms s.
Proof. intros E1 E2. unfold recv, new_recv. by rewrite E1, E2. Qed.
Lemma sim_recv c A q w s al perms :
  ep_rep (S c) A q w s → state_ok al = true → simulates c A s (ERecv al perms).
Proof.
  intros Hr Hal. unfold simulates. cbn [a_op run_ep_op]. destruct (perm_imply perms ENDPOINT_READ) eqn:Ep; cbn [negb].
  2: { exists (Err INSUFFICIENT_PERMISSIONS), s, q, w. split; [|split; [done|by apply rep_less]]. unfold recv. by rewrite Ep. }
  destruct (pending_ok al) eqn:Epo; cbn [fst snd].
  - destruct q as [|[[p0 m] f0] q].
    + destruct (recv_waits c A w s perms Hr Ep) as (s' & w' & E & Hr'). exists (Ok (next_async (futs s))), s', [], w'.
      by rewrite recv_alloc.
    + destruct (recv_takes c A q w s perms p0 m f0 Hr Ep) as (s' & E & Hr'). exists (Ok (next_async (futs s))), s', q, w.
      by rewrite recv_alloc.
  - exists (Err ALLOCATION_FAILED), s, q, w. split; [|split; [done|by apply rep_less]].
    unfold recv, new_recv. by rewrite Ep, Epo.
Qed.

Lemma sim_cancel c A q w s f : ep_rep (S c) A q w s → held s f → simulates c A s (ECancel f).
Proof.
  intros Hr%rep_less (a & Ha & Hrc). destruct (er_out _ _ _ _ _ Hr f a Ha) as (o & EO & Ho).
  destruct (fi_async _ _ (er_fut _ _ _ _ _ Hr) f a Ha) as (Hf & _ & _).
  unfold simulates. cbn [a_op run_ep_op]. rewrite EO.
  destruct (decide (fstate a = PENDING)) as [Hp|Hp].
  - unfold o_match in Ho. rewrite Hp in Ho. destruct Ho as [-> _]. cbn [fst snd].
    destruct (cancel_pending _ _ _ _ _ _ _ Hr Ha Hp (Hrc Hp)) as (s' & q' & w' & E & Hr').
    exists (Ok 0), s', q', w'. split; [by rewrite (bind_run _ _ _ _ _ E)|done].
  - assert (E : ∃ e, ep_cancle f s = Fin (Err e) s ∧
      e = match fstate a with CANCLED => FUTURE_CANCLED | CONSUMED => FUTURE_CONSUMED | _ => FUTURE_ERROR end).
    { unfold ep_cancle, cancle. rewrite (proj2 (Z.eqb_neq f 0)) by lia.
      erewrite bind_run by (apply ep_futs_run, get_async_run; exact Ha). rewrite set_futs_id.
      destruct (fstate a); try done; by eexists. }
    destruct E as (e & E & Ee). exists (Err e), s, q, w. split; [by rewrite (bind_run_err _ _ _ _ _ E)|].
    unfold o_match in Ho. destruct (fstate a); try done; try (destruct (fvalue a); [destruct Ho as (_ & x & _ & Ho)|]); by subst.
Qed.

Lemma sim_value c A q w s void f : ep_rep (S c) A q w s → held s f → simulates c A s (EValue void f).
Proof.
  intros Hr%rep_less (a & Ha & _). destruct (er_out _ _ _ _ _ Hr f a Ha) as (o & EO & Ho).
  destruct (fi_async _ _ (er_fut _ _ _ _ _ Hr) f a Ha) as (Hf & Hwd & Hrc).
  unfold simulates. cbn [a_op run_ep_op]. rewrite EO.
  assert (Eget : get_async f (futs s) = Fin (Ok a) (futs s)) by by apply get_async_run.
  assert (Herr : ∀ e, value void f (futs s) = Fin (Err e) (futs s) → on_futs (value void f) s = Fin (Err e) s).
  { intros e E. rewrite (ep_futs_run _ _ _ _ E). by rewrite set_futs_id. }
  assert (Hput : ∀ v b, fstate a = COMPLETE → fstate b = CONSUMED → wait_wd b = wait_wd a → ref_count b = ref_count a →
    value void f (futs s) = Fin (Ok v) (set_asyncs <[f := b]> (futs s)) →
    ∃ s', on_futs (value void f) s = Fin (Ok v) s' ∧ msgs s' = msgs s ∧
      ep_rep c (mkRdv (senders A) (receivers A) (<[f := OConsumed]> (outs A))) q w s').
  { intros v b Hc Hb Hbw Hbr E. eexists. split; [apply ep_futs_run; exact E|]. split; [done|].
    apply (rep_touch c c A _ q w s _ f (Some b) Hr); try done.
    - split; [apply (put_inv c (futs s) f a); try done; [apply Hr|by rewrite Hbr]|apply lookup_insert_eq| |done].
      intros y Hy. by apply lookup_insert_ne.
    - intros cb. split; intros (b' & Hb' & Hs & _); simpl in *; [|rewrite lookup_insert_eq in Hb']; congruence.
    - apply (epo_set (asyncs (futs s))); [apply Hr|intros y Hy; by apply lookup_insert_ne|].
      intros b'. simpl. rewrite lookup_insert_eq. intros [= <-]. unfold o_match. by rewrite Hb. }
  unfold value in Herr, Hput |- *. rewrite (proj2 (Z.eqb_neq f 0)) in Herr, Hput |- * by lia.
  rewrite (bind_run _ _ _ _ _ Eget) in Herr. rewrite (bind_run _ _ _ _ _ Eget) in Hput.
  unfold o_match in Ho. destruct (fstate a) eqn:Es.
  1: destruct Ho as [-> _]. 3, 4, 5: subst o.
  1, 3, 4, 5: (eexists (Err _), s, q, w; split; [by apply Herr|done]).
  destruct (fvalue a) as [m|] eqn:Ev; [destruct Ho as (_ & x & Hx & ->)|subst o]; destruct void; cbn [fst snd].
  - destruct (Hput 0 (set_fstate CONSUMED a)) as (s' & E & Em & Hr'); try done. by exists (Ok 0), s', q, w.
  - destruct (Hput m (set_fstate CONSUMED (set_fvalue None a))) as (s' & E & Em & Hr'); try done.
    exists (Ok m), s', q, w. split; [done|]. split; [|done]. simpl. by rewrite Em.
  - destruct (Hput 0 (set_fstate CONSUMED a)) as (s' & E & Em & Hr'); try done. by exists (Ok 0), s', q, w.
  - eexists (Err _), s, q, w. split; [by apply Herr|done].
Qed.

Lemma sim_copy c A q w s f :
  ep_rep (S c) A q w s → ep_op_ok s (ECopy f) → simulates c A s (ECopy f).
Proof.
  intros Hr%rep_less (a & Ha & Hrc).
  destruct (acquire_run c (futs s) f a (er_fut _ _ _ _ _ Hr) Ha Hrc) as [E Hi].
  eexists (Ok f), _, q, w. split; [apply ep_futs_run; unfold future_of; by rewrite (bind_run _ _ _ _ _ E)|]. split; [done|].
  apply (rep_touch c c A _ q w s _ f (Some (set_refs (ref_count a + 1) a)) Hr); try done.
  - split; [done|apply lookup_insert_eq| |done]. intros y Hy. by apply lookup_insert_ne.
  - intros cb. unfold pendf. simpl. rewrite lookup_insert_eq, Ha. naive_solver.
  - apply (epo_same (asyncs (futs s)) _ _ _ _ f a (er_out _ _ _ _ _ Hr)); [|done|].
    + intros y Hy. by apply lookup_insert_ne.
    + intros b o. simpl. rewrite lookup_insert_eq. by intros [= <-].
Qed.

Lemma sim_drop c A q w s f : ep_rep (S c) A q w s → held s f → simulates c A s (EDrop f).
Proof.
  intros Hr%rep_less (a & Ha & Hrc).
  destruct (release_touched c (futs s) f a (er_fut _ _ _ _ _ Hr) Ha) as (g & E & Ht).
  eexists (Ok 0), _, q, w. split; [cbn [run_ep_op]; by run_by E|]. split; [done|].
  apply (rep_touch c c A _ q w s _ f _ Hr Ht); try done.
  - intros cb. unfold pendf. rewrite (td_at _ _ _ _ _ Ht), Ha. unfold left_over.
    destruct (Z.eqb_spec (ref_count a) 1) as [E1|E1]; [|naive_solver]. split; [|naive_solver].
    intros (b & [= <-] & Hp & _). specialize (Hrc Hp). lia.
  - apply (epo_same (asyncs (futs s)) _ _ _ _ f a (er_out _ _ _ _ _ Hr)); [apply Ht|done|].
    intros b o. rewrite (td_at _ _ _ _ _ Ht). intros Hl. by apply left_over_match.
Qed.

(** C6: an endpoint is a first-come first-served rendezvous.  From a state that
    represents a rendezvous, every operation of its users (sending, receiving,
    cancelling, reading, copying and dropping futures) returns without touching
    freed memory, answers what the rendezvous answers, with the content of the
    message that was sent, and leaves a state that represents the rendezvous after
    it: a message goes to the receiver that waits longest, or waits behind the
    messages sent before it, and is received at most once. *)
Theorem endpoint_refines_rendezvous c A q w s op :
  ep_rep (S c) A q w s → ep_op_ok s op → simulates c A s op.
Proof.
  intros Hr Hok. destruct op; simpl in Hok; [by eapply sim_send|by eapply sim_recv|by eapply sim_cancel|by eapply sim_value|by eapply sim_copy|by eapply sim_drop].
Qed.

(** *** Destroying an endpoint *)

Definition ep_waker s : W := waker (futs s).

Lemma on_futs_keeps {A} (m : M (fut CB W) A) : keeps waker m → keeps ep_waker (on_futs m).
Proof.
  intros Hm s r s'. unfold on_futs, ep_waker. destruct (m (futs s)) as [r1 g| |] eqn:E; try done.
  intros [= _ <-]. by apply (Hm _ _ _ E).
Qed.
Lemma get_async_keeps f : keeps waker (get_async f : M (fut CB W) _).
Proof. intros s r s'. unfold get_async. destruct (asyncs s !! f); by intros [= _ <-]. Qed.
Lemma release_keeps f : keeps waker (release f : M (fut CB W) _).
Proof.
  unfold release. case_match; [apply keeps_ret|]. apply keeps_bind; [apply get_async_keeps|]. intros a.
  apply keeps_bind; [unfold massert; case_match; by intros ? ? ? [= _ <-]|]. intros _. case_match; by intros ? ? ? [= _ <-].
Qed.
Lemma callback_keeps f cb : keeps waker (set_cancel_callback f cb : M (fut CB W) _).
Proof.
  unfold set_cancel_callback. case_match; [apply keeps_fail|]. apply keeps_bind; [apply get_async_keeps|].
  by intros a ? ? ? [= _ <-].
Qed.
#[local] Hint Resolve on_futs_keeps release_keeps callback_keeps : keeps.
Lemma get_send_keeps p : keeps ep_waker (get_send p).
Proof. intros s r s'. unfold get_send. destruct (sends s !! p); by intros [= _ <-]. Qed.
Lemma get_recv_keeps p : keeps ep_waker (get_recv p).
Proof. intros s r s'. unfold get_recv. destruct (recvs s !! p); by intros [= _ <-]. Qed.
Lemma modify_keeps (F : ep W → ep W) : (∀ s, futs (F s) = futs s) → keeps ep_waker (modify F).
Proof. intros HF s r s' [= _ <-]. unfold ep_waker. by rewrite HF. Qed.
Lemma delete_msg_keeps m : keeps ep_waker (delete_msg m).
Proof. unfold delete_msg. case_match; [apply keeps_ret|]. intros s r s'. case_match; by intros [= _ <-]. Qed.
#[local] Hint Resolve get_send_keeps get_recv_keeps delete_msg_keeps : keeps.
#[local] Hint Extern 2 (keeps _ (modify _)) => by apply modify_keeps : keeps.

Lemma destroy_keeps : keeps ep_waker destroy.
Proof.
  assert (H1 : ∀ l, keeps ep_waker (destroy_sends l)).
  { induction l; cbn [destroy_sends]; unfold message_is_queued, set_message, delete_send; keeps_solve. }
  assert (H2 : ∀ l, keeps ep_waker (destroy_messages l)) by (induction l; cbn [destroy_messages]; keeps_solve).
  assert (H3 : ∀ l, keeps ep_waker (destroy_recvs l)) by (induction l; cbn [destroy_recvs]; unfold delete_recv; keeps_solve).
  unfold destroy. keeps_solve.
Qed.

(** The futures after their requests are gone. *)
Definition orphaned (l : list Z) h (h' : gmap Z (AsyncState CB)) : Prop :=
  ∀ f, h' !! f = if bool_decide (f ∈ l) then h !! f ≫= λ a, left_over (set_callback None a) else h !! f.

Lemma orphaned_cons f l h h1 h2 a :
  f ∉ l → h !! f = Some a → h1 !! f = left_over (set_callback None a) → (∀ x, x ≠ f → h1 !! x = h !! x) →
  orphaned l h1 h2 → orphaned (f :: l) h h2.
Proof.
  intros Hf Ha H1 Hoff Ho x. rewrite Ho. destruct (decide (x = f)) as [->|Hne].
  - rewrite bool_decide_eq_false_2, bool_decide_eq_true_2, Ha by (done || left). done.
  - rewrite Hoff by done. case_bool_decide as E1; case_bool_decide as E2; try done; set_solver.
Qed.

Lemma destroy_sends_run c q s :
  fut_inv c (futs s) → pending_sends s = q.*1.*1 → messages s = q.*1.*2 → NoDup q.*1.*1 → NoDup q.*1.*2 → NoDup q.*2 →
  (∀ p m f, (p, m, f) ∈ q → m ≠ 0 ∧ sends s !! p = Some (mkPS m f) ∧ is_Some (msgs s !! m) ∧ is_Some (asyncs (futs s) !! f)) →
  ∃ s', destroy_sends q.*1.*1 s = Fin (Ok tt) s' ∧ messages s' = [] ∧ pending_sends s' = [] ∧
    pending_recvs s' = pending_recvs s ∧ recvs s' = recvs s ∧ fut_inv c (futs s') ∧
    orphaned q.*2 (asyncs (futs s)) (asyncs (futs s')).
Proof.
  revert s. induction q as [|[[p m] f] q IH]; intros s Hi Hps Hms N1 N2 N3 Hq.
  { exists s. split_and!; try done. }
  rewrite !fmap_cons in *. cbn [fst snd] in *.
  destruct (Hq p m f) as (Hmz & Hs & [x Hx] & [a Ha]); [left|].
  apply NoDup_cons in N1 as [N1p N1], N2 as [N2m N2], N3 as [N3f N3].
  set (s1 := mkEp q.*1.*2 q.*1.*1 (pending_recvs s) (delete m (msgs s)) (<[p := mkPS 0 f]> (sends s)) (recvs s) (next_ptr s) (futs s)).
  destruct (callback_touched c (futs s) f a None Hi Ha) as (g1 & E1 & [I1 A1 O1 _]).
  destruct (delete_send_run c (set_futs g1 s1) p 0 f _ I1 (lookup_insert_eq _ _ _) A1) as (g2 & E2 & [I2 A2 O2 _]).
  set (s2 := set_sends (delete p) (set_futs g2 (set_futs g1 s1))) in *.
  assert (Hoff : ∀ y, y ≠ f → asyncs g2 !! y = asyncs (futs s) !! y) by (intros y Hy; etrans; [by apply O2|by apply O1]).
  destruct (IH s2) as (s' & E & M1 & M2 & M3 & M4 & M5 & M6); try done.
  { intros p' m' f' Hin. destruct (Hq p' m' f') as (? & Hs' & Hm' & Ha'); [by right|].
    apply (list_elem_of_fmap_2 fst) in Hin as Hin1. apply (list_elem_of_fmap_2 snd) in Hin as Hf'. cbn [fst snd] in Hin1, Hf'.
    assert (f' ≠ f) by congruence.
    assert (p' ≠ p) by (intros ->; apply N1p; by apply (list_elem_of_fmap_2 fst) in Hin1).
    assert (m' ≠ m) by (intros ->; apply N2m; by apply (list_elem_of_fmap_2 snd) in Hin1).
    split; [done|]. simpl. rewrite lookup_delete_ne, lookup_insert_ne, lookup_delete_ne by done. split_and!; [done|done|].
    by rewrite Hoff. }
  exists s'. split_and!; try done.
  - cbn [destroy_sends]. erewrite bind_run by reflexivity. erewrite bind_run by (apply get_send_run; exact Hs).
    cbn [ps_message ps_promise]. rewrite (proj2 (Z.eqb_neq m 0)) by done. cbn [negb].
    erewrite (bind_run _ _ _ tt s1).
    + run_by E1. run_by E2. exact E.
    + unfold message_is_queued. rewrite (proj2 (Z.eqb_neq m 0)) by done.
      rewrite (bind_run _ _ _ true (set_pending_sends (λ _, q.*1.*1) s)).
      2: { erewrite bind_run by reflexivity. rewrite bool_decide_eq_true_2; [done|]. simpl. rewrite Hms. left. }
      cbn match. erewrite bind_run by reflexivity.
      rewrite (bind_run (delete_msg m) _ _ tt (set_msgs (delete m) (set_messages (list_unlink m) (set_pending_sends (λ _, q.*1.*1) s))))
        by (unfold delete_msg; rewrite (proj2 (Z.eqb_neq m 0)) by done; simpl; by rewrite Hx).
      rewrite (set_message_run _ p m f) by exact Hs. unfold s1, set_sends, set_msgs, set_messages, set_pending_sends. ep_fields.
      rewrite Hms. cbn [list_unlink]. by rewrite Z.eqb_refl.
  - by apply (orphaned_cons f q.*2 _ (asyncs g2) _ a).
Qed.

Lemma destroy_recvs_run c w s :
  fut_inv c (futs s) → pending_recvs s = w.*1 → NoDup w.*1 → NoDup w.*2 →
  (∀ p f, (p, f) ∈ w → recvs s !! p = Some f ∧ is_Some (asyncs (futs s) !! f)) →
  ∃ s', destroy_recvs w.*1 s = Fin (Ok tt) s' ∧ messages s' = messages s ∧ pending_sends s' = pending_sends s ∧
    pending_recvs s' = [] ∧ fut_inv c (futs s') ∧ orphaned w.*2 (asyncs (futs s)) (asyncs (futs s')).
Proof.
  revert s. induction w as [|[p f] w IH]; intros s Hi Hpr N1 N3 Hw.
  { exists s. split_and!; try done. }
  rewrite !fmap_cons in *. cbn [fst snd] in *.
  destruct (Hw p f) as (Hs & [a Ha]); [left|]. apply NoDup_cons in N1 as [N1p N1], N3 as [N3f N3].
  destruct (callback_touched c (futs s) f a None Hi Ha) as (g1 & E1 & [I1 A1 O1 _]).
  destruct (delete_recv_run c (set_futs g1 (set_pending_recvs (λ _, w.*1) s)) p f _ I1 Hs A1) as (g2 & E2 & [I2 A2 O2 _]).
  assert (Hoff : ∀ y, y ≠ f → asyncs g2 !! y = asyncs (futs s) !! y) by (intros y Hy; etrans; [by apply O2|by apply O1]).
  destruct (IH (set_recvs (delete p) (set_futs g2 (set_futs g1 (set_pending_recvs (λ _, w.*1) s))))) as (s' & E & M1 & M2 & M3 & M5 & M6); try done.
  { intros p' f' Hin. destruct (Hw p' f') as (Hs' & Ha'); [by right|].
    assert (f' ≠ f) by (intros ->; apply N3f; by apply (list_elem_of_fmap_2 snd) in Hin).
    assert (p' ≠ p) by (intros ->; apply N1p; by apply (list_elem_of_fmap_2 fst) in Hin).
    simpl. rewrite lookup_delete_ne by done. split; [done|]. by rewrite Hoff. }
  exists s'. split_and!; try done.
  - cbn [destroy_recvs]. erewrite bind_run by reflexivity. erewrite bind_run by (apply get_recv_run; exact Hs).
    run_by E1. run_by E2. exact E.
  - by apply (orphaned_cons f w.*2 _ (asyncs g2) _ a).
Qed.

Lemma NoDup_via {A B C} (F : A → B) (G : A → C) (l : list A) :
  NoDup (F <$> l) → (∀ x y, x ∈ l → y ∈ l → G x = G y → F x = F y) → NoDup (G <$> l).
Proof.
  induction l as [|x l IH]; [constructor|]. rewrite !fmap_cons, !NoDup_cons. intros [Hx Hl] HG. split.
  - intros (y & Ey & Hy)%list_elem_of_fmap. apply Hx. rewrite (HG x y); [by apply list_elem_of_fmap_2|left|by right|done].
  - apply IH; [done|]. intros y z Hy Hz. apply HG; by right.
Qed.
Lemma rep_futures c A q w s : ep_rep c A q w s → NoDup q.*2 ∧ NoDup w.*2 ∧ (∀ f, f ∈ q.*2 → f ∈ w.*2 → False).
Proof.
  intros Hr. destruct (er_q _ _ _ _ _ Hr) as [H1 H2 _ H4 _ H6]. split_and!.
  - rewrite <- list_fmap_compose in H4. apply (NoDup_via _ _ _ H4). intros [[p m] f] [[p' m'] f'] Hx Hy Hf. simpl in *. subst f'.
    destruct (H1 _ _ _ Hx) as [_ P1], (H1 _ _ _ Hy) as [_ P2]. pose proof (pendf_fun _ _ _ _ P1 P2). congruence.
  - apply (NoDup_via _ _ _ H6). intros [p f] [p' f'] Hx Hy Hf. simpl in *. subst f'.
    destruct (H2 _ _ Hx) as [_ P1], (H2 _ _ Hy) as [_ P2]. pose proof (pendf_fun _ _ _ _ P1 P2). congruence.
  - intros f ([[p m] f1] & -> & Hx)%list_elem_of_fmap ([p' f'] & Hf & Hy)%list_elem_of_fmap. simpl in *. subst f'.
    destruct (H1 _ _ _ Hx) as [_ P1], (H2 _ _ Hy) as [_ P2]. pose proof (pendf_fun _ _ _ _ P1 P2). congruence.
Qed.
Lemma orphaned_pending l h h' f a :
  orphaned l h h' → h !! f = Some a → fstate a = PENDING → 1 < ref_count a →
  ∃ a', h' !! f = Some a' ∧ fstate a' = PENDING ∧ (f ∉ l → a' = a).
Proof.
  intros Ho Ha Hp Hr. rewrite Ho, Ha. case_bool_decide as E; [|by exists a]. simpl. unfold left_over. simpl.
  rewrite (proj2 (Z.eqb_neq (ref_count a) 1)) by lia. eexists. by split_and!.
Qed.

(** Destroying an endpoint strands the threads that wait on it.  [~EndpointPayload]
    frees the queues, wakes nobody, and every future that someone still holds and
    that was pending is pending afterwards, with no request left that could settle
    it. *)
Theorem endpoint_destroy_strands_waiters c A q w s :
  ep_rep c A q w s →
  ∃ s', destroy s = Fin (Ok tt) s' ∧ messages s' = [] ∧ pending_sends s' = [] ∧ pending_recvs s' = [] ∧
    ep_waker s' = ep_waker s ∧
    ∀ f a, asyncs (futs s) !! f = Some a → fstate a = PENDING → 1 < ref_count a →
      ∃ a', asyncs (futs s') !! f = Some a' ∧ fstate a' = PENDING.
Proof.
  intros Hr. destruct (rep_futures _ _ _ _ _ Hr) as (N1 & N2 & Hdisj). pose proof (er_q _ _ _ _ _ Hr) as Hq.
  destruct (destroy_sends_run c q s (er_fut _ _ _ _ _ Hr) (er_ps _ _ _ _ _ Hr) (er_ms _ _ _ _ _ Hr)
    (eq_ndq _ _ _ _ _ Hq) (eq_ndm _ _ _ _ _ Hq) N1) as (s1 & E1 & M1 & P1 & R1 & V1 & I1 & O1).
  { intros p m f Hin. pose proof (rep_msg_live _ _ _ _ _ _ _ _ Hr Hin) as Hm. destruct (eq_send _ _ _ _ _ Hq _ _ _ Hin) as (? & a & Ha & _).
    split_and!; [|done|done|by exists a]. pose proof (er_ptr _ _ _ _ _ Hr m (or_introl Hm)). lia. }
  destruct (destroy_recvs_run c w s1 I1) as (s2 & E2 & M2 & P2 & R2 & I2 & O2);
    [rewrite R1; apply Hr|apply Hq|done| |].
  { intros p f Hin. destruct (eq_recv _ _ _ _ _ Hq _ _ Hin) as (? & a & Ha & _). rewrite V1. split; [done|].
    exists a. rewrite O1, bool_decide_eq_false_2; [done|]. intros Hf. apply (Hdisj f Hf). by apply (list_elem_of_fmap_2 snd) in Hin. }
  assert (E : destroy s = Fin (Ok tt) s2).
  { unfold destroy. erewrite bind_run by reflexivity. rewrite (er_ps _ _ _ _ _ Hr). erewrite bind_run by exact E1.
    erewrite bind_run by reflexivity. rewrite M1. erewrite bind_run by reflexivity. erewrite bind_run by reflexivity.
    by rewrite R1, (er_pr _ _ _ _ _ Hr). }
  exists s2. split; [done|]. rewrite M2, P2. split_and!; [done|done|done|by apply (destroy_keeps _ _ _ E)|].
  intros f a Ha Hp Hrc. destruct (orphaned_pending _ _ _ f a O1 Ha Hp Hrc) as (a1 & Ha1 & Hp1 & Hsame).
  destruct (decide (f ∈ w.*2)) as [Hw|Hw].
  - rewrite Hsame in Ha1 by (intros Hf; by apply (Hdisj f)).
    destruct (orphaned_pending _ _ _ f a O2 Ha1 Hp Hrc) as (a2 & ? & ? & _). by exists a2.
  - exists a1. rewrite O2, bool_decide_eq_false_2; done.
Qed.
End spec.

End Endpoint.

Module EndpointWitness.
Import Endpoint Future FutureSched FutureWitness WaitWitness.

Definition ex_ep : ep sched := mkEp [] [] [] ∅ ∅ ∅ 1 ex_fut.
Definition ex_rdv : rdv := mkRdv [] [] ∅.
Definition ex_view : EndpointMsgView := mkView (Some [1; 2; 3]) 3 None 0.
Definition all_ok : allocs := mkAllocs true true true.

Lemma ex_ep_rep c : Z.of_nat c + 9 < W64 → ep_rep c ex_rdv [] [] ex_ep.
Proof.
  intros Hc. split; try done.
  - by apply ex_fut_inv.
  - split; try (by constructor); [intros ? ? ? []%elem_of_nil|intros ? ? []%elem_of_nil|].
    intros f cb (a & Ha & _). simpl in Ha. by rewrite lookup_empty in Ha.
  - by left.
  - intros p. simpl. rewrite !lookup_empty. intros [[? ?]|[[? ?]|[? ?]]]; done.
Qed.

Definition after {A} (m : M (ep sched) A) (s : ep sched) : ep sched :=
  match m s with Fin _ s' => s' | _ => s end.
Lemma after_run {A} (m : M (ep sched) A) s r s' : m s = Fin r s' → s' = after m s.
Proof. unfold after. by intros ->. Qed.
(** Future [f] is live in [s], in state [st] with [n] references. *)
Definition future_is (s : ep sched) (f : Z) (st : FutureState) (n : Z) : bool :=
  match asyncs (futs s) !! f with Some a => bool_decide (fstate a = st) && (ref_count a =? n) | None => false end.
Lemma future_is_spec s f st n :
  future_is s f st n = true → ∃ a, asyncs (futs s) !! f = Some a ∧ fstate a = st ∧ ref_count a = n.
Proof.
  unfold future_is. destruct (asyncs (futs s) !! f) as [a|]; [|done].
  intros [?%bool_decide_eq_true ?%Z.eqb_eq]%andb_true_iff. by exists a.
Qed.

Definition ex_recv : ep_op := ERecv all_ok ENDPOINT_READ.
Definition ex_send : ep_op := ESend all_ok ENDPOINT_WRITE 7 ex_view.
Lemma ex_recv_next : next_async (futs (after (run_ep_op ex_recv) ex_ep)) = 2.
Proof. vm_compute. reflexivity. Qed.
Lemma ex_send_held : future_is (after (run_ep_op ex_send) (after (run_ep_op ex_recv) ex_ep)) 1 COMPLETE 1 = true.
Proof. vm_compute. reflexivity. Qed.
Lemma ex_recv_waits : future_is (after (recv all_ok ENDPOINT_READ) ex_ep) 1 PENDING 2 = true.
Proof. vm_compute. reflexivity. Qed.
Lemma ep_ex_steps s1 s2 r1 r2 :
  run_ep_op ex_recv ex_ep = Fin r1 s1 → run_ep_op ex_send s1 = Fin r2 s2 → next_async (futs s1) = 2 ∧ held s2 1.
Proof.
  intros ->%after_run ->%after_run. split; [apply ex_recv_next|].
  destruct (future_is_spec _ _ _ _ ex_send_held) as (a & Ha & Hs & _). exists a. split; [done|]. by rewrite Hs.
Qed.

(** A receiver waits, a message is sent, the receiver reads it. *)
Lemma endpoint_refines_rendezvous_witness :
  ∃ s1 s2 s3 z, run_ep_op ex_recv ex_ep = Fin (Ok 1) s1 ∧ run_ep_op ex_send s1 = Fin (Ok 2) s2 ∧
    run_ep_op (EValue false 1) s2 = Fin (Ok z) s3 ∧ msgs s3 !! z = Some (message_of 7 ex_view).
Proof.
  destruct (endpoint_refines_rendezvous 2 ex_rdv [] [] ex_ep ex_recv) as (r1 & s1 & q1 & w1 & E1 & A1 & R1);
    [by apply ex_ep_rep|done|].
  destruct r1 as [r1|]; [|done]. simpl in A1. subst r1.
  destruct (endpoint_refines_rendezvous 1 _ _ _ s1 ex_send R1) as (r2 & s2 & q2 & w2 & E2 & A2 & R2); [done|].
  destruct (ep_ex_steps _ _ _ _ E1 E2) as [N1 Hh].
  rewrite N1 in A2, R2. destruct r2 as [r2|]; [|done]. simpl in A2. subst r2.
  destruct (endpoint_refines_rendezvous 0 _ _ _ s2 (EValue false 1) R2 Hh) as (r3 & s3 & q3 & w3 & E3 & A3 & R3).
  destruct r3 as [z|]; [|done]. exists s1, s2, s3, z. split; [exact E1|]. split; [exact E2|]. split; [exact E3|]. exact A3.
Defined.

Lemma endpoint_destroy_strands_waiters_witness :
  ∃ s1 s2 a, recv all_ok ENDPOINT_READ ex_ep = Fin (Ok 1) s1 ∧ destroy s1 = Fin (Ok tt) s2 ∧
    ep_waker s2 = ep_waker s1 ∧ asyncs (futs s2) !! 1 = Some a ∧ fstate a = PENDING.
Proof.
  destruct (recv_waits 0 ex_rdv [] ex_ep ENDPOINT_READ) as (s1 & w & E1 & R1); [by apply ex_ep_rep|done|].
  destruct (endpoint_destroy_strands_waiters _ _ _ _ _ R1) as (s2 & E2 & _ & _ & _ & Hw & Hp).
  destruct (future_is_spec _ _ _ _ ex_recv_waits) as (a & Ha & Hpa & Hra). rewrite <- (after_run (recv all_ok ENDPOINT_READ) _ _ _ E1) in Ha.
  destruct (Hp 1 a Ha Hpa) as (a' & Ha' & Hp'); [lia|]. by exists s1, s2, a'.
Defined.
End EndpointWitness.
