(* ===== verification/Reply.v ===== *)
(** * Reply objects

    [ReplyObject] of kernel/object/endpoint.cpp: [send_reply], [reply] and [recv],
    the callback that cancelling a receive runs, and [~ReplyPayload].  A reply object
    keeps at most one message, for the caller of [endpoint_call]; it has the messages,
    the requests to receive and the futures of [Endpoint]. *)
From S2P Require Import Prelude ErrCode Capability CHolder Sched Wait Future Endpoint.
Import Future.

#[local] Open Scope Z_scope.

Definition REPLY_CALLER : Z := 0x010000.
Definition REPLY_REPLIER : Z := 0x020000.

Module Reply.
Import Endpoint.

Section reply.
Context {W : Type} `{Waker W}.

(** The payload ([rmessage], [rpending]) with the heaps of messages and requests. *)
Record rp := mkRp {
  rmessage : Z;
  rpending : list Z;
  rmsgs : gmap Z EndpointMessage;
  rrecvs : gmap Z Z;
  rnext : Z;
  rfuts : fut CB W
}.
Definition set_rmessage x s := mkRp x (rpending s) (rmsgs s) (rrecvs s) (rnext s) (rfuts s).
Definition set_rpending f s := mkRp (rmessage s) (f (rpending s)) (rmsgs s) (rrecvs s) (rnext s) (rfuts s).
Definition set_rmsgs f s := mkRp (rmessage s) (rpending s) (f (rmsgs s)) (rrecvs s) (rnext s) (rfuts s).
Definition set_rrecvs f s := mkRp (rmessage s) (rpending s) (rmsgs s) (f (rrecvs s)) (rnext s) (rfuts s).
Definition set_rnext x s := mkRp (rmessage s) (rpending s) (rmsgs s) (rrecvs s) x (rfuts s).
Definition set_rfuts x s := mkRp (rmessage s) (rpending s) (rmsgs s) (rrecvs s) (rnext s) x.

Definition on_rfuts {A} (m : M (fut CB W) A) : M rp A := λ s,
  match m (rfuts s) with
  | Fin r g => Fin r (set_rfuts g s) | Panic => Panic | OutOfFuel => OutOfFuel
  end.

(** ** The heaps *)

Definition reply_get_recv (p : Z) : M rp Z := λ s,
  match rrecvs s !! p with Some f => Fin (Ok f) s | None => Panic end.
Definition reply_delete_recv (p : Z) : M rp unit :=
  f ← reply_get_recv p; _ ← on_rfuts (release f); modify (set_rrecvs (delete p)).
Definition reply_delete_msg (m : Z) : M rp unit :=
  if m =? 0 then mret tt
  else λ s, match rmsgs s !! m with Some _ => Fin (Ok tt) (set_rmsgs (delete m) s) | None => Panic end.
Definition reply_new_msg (x : EndpointMessage) : M rp Z :=
  m ← gets rnext;
  _ ← modify (set_rnext (m + 1));
  _ ← modify (set_rmsgs <[m := x]>);
  mret m.
(** [new PendingReplyRecv()] with its promise. *)
Definition reply_new_recv (al : allocs) : M rp Z :=
  if negb (pending_ok al) then mret 0
  else
    f ← on_rfuts (new_promise (state_ok al));
    p ← gets rnext;
    _ ← modify (set_rnext (p + 1));
    _ ← modify (set_rrecvs <[p := f]>);
    mret p.

Definition reply_pop_recv : M rp Z :=
  l ← gets rpending;
  match l with [] => mret 0 | p :: l => _ ← modify (set_rpending (λ _, l)); mret p end.

(** ** Operations *)

Definition send_reply (ok : bool) (perms pid : Z) (v : EndpointMsgView) : M rp bool :=
  _ ← of_result (check_msg_valid v);
  if negb (perm_imply perms REPLY_REPLIER) then fail INSUFFICIENT_PERMISSIONS
  else if negb ok then fail OUT_OF_MEMORY
  else
    m ← reply_new_msg (message_of pid v);
    cur ← gets rmessage;
    if negb (cur =? 0) then _ ← reply_delete_msg m; mret false
    else
      r ← reply_pop_recv;
      if negb (r =? 0) then
        f ← reply_get_recv r;
        x ← attempt (on_rfuts (set_value f (Some m)));
        match x with
        | Err e => _ ← reply_delete_recv r; _ ← reply_delete_msg m; fail e
        | Ok _ => _ ← reply_delete_recv r; mret true
        end
      else _ ← modify (set_rmessage m); mret true.

Definition reply_recv_rest (p f : Z) : M rp Z :=
  m ← gets rmessage;
  if negb (m =? 0) then
    _ ← modify (set_rmessage 0);
    x ← attempt (on_rfuts (set_value f (Some m)));
    match x with
    | Err e => _ ← on_rfuts (release f); fail e
    | Ok _ => mret f
    end
  else
    _ ← on_rfuts (set_cancel_callback f (Some (CbRecv p)));
    _ ← modify (set_rpending (push_back p));
    mret f.
Definition reply_recv (al : allocs) (perms : Z) : M rp Z :=
  if negb (perm_imply perms REPLY_CALLER) then fail INSUFFICIENT_PERMISSIONS
  else
    p ← reply_new_recv al;
    if p =? 0 then fail ALLOCATION_FAILED
    else
      fp ← reply_get_recv p;
      f ← on_rfuts (future_of fp);
      reply_recv_rest p f.

Definition reply_cancel_recv (p : Z) : M rp unit :=
  if p =? 0 then fail INVALID_PARAM
  else _ ← modify (set_rpending (list_unlink p)); reply_delete_recv p.
(** A reply object makes callbacks of receives only. *)
Definition reply_run_cb (cb : CB) : M rp unit :=
  match cb with CbRecv p => reply_cancel_recv p | CbSend _ => panic end.
Definition reply_cancle (f : Z) : M rp unit := cancle (λ A m, @on_rfuts A m) reply_run_cb f.

Fixpoint reply_destroy_recvs (l : list Z) : M rp unit :=
  match l with
  | [] => mret tt
  | p :: l =>
      _ ← modify (set_rpending (λ _, l));
      f ← reply_get_recv p;
      _ ← on_rfuts (set_cancel_callback f None);
      _ ← reply_delete_recv p;
      reply_destroy_recvs l
  end.
Definition reply_destroy : M rp unit :=
  m ← gets rmessage;
  _ ← reply_delete_msg m;
  _ ← modify (set_rmessage 0);
  l ← gets rpending; reply_destroy_recvs l.

(** [ReplyObject::reply], over the state [H] of the capability holders; [holder] is 0
    for [nullptr] and [remove] is [CHolder::remove]. *)
Definition reply {H0 : Type} (remove : Z → Z → M H0 unit) (ok : bool) (perms pid holder reply_cap : Z)
    (v : EndpointMsgView) : M (rp * H0) unit := λ s,
  if holder =? 0 then Fin (Err NULLPTR) s
  else
    match send_reply ok perms pid v s.1 with
    | Fin (Err e) r' => Fin (Err e) (r', s.2)
    | Fin (Ok false) r' => Fin (Err FAILURE) (r', s.2)
    | Fin (Ok true) r' =>
        match remove holder reply_cap s.2 with
        | Fin x h' => Fin x (r', h') | Panic => Panic | OutOfFuel => OutOfFuel
        end
    | Panic => Panic | OutOfFuel => OutOfFuel
    end.
End reply.
Arguments rp : clear implicits.

(** ** Specification: a mailbox for one message

    A reply goes to the caller that waits longest, or into the slot; a caller takes
    the message of the slot, or waits. *)

Record box := mkBox { slot : option EndpointMessage; waiting : list Z; bouts : gmap Z outcome }.

Definition b_reply (m : EndpointMessage) (A : box) : bool * box :=
  match slot A, waiting A with
  | Some _, _ => (false, A)
  | None, f :: l => (true, mkBox None l (<[f := OGot m]> (bouts A)))
  | None, [] => (true, mkBox (Some m) [] (bouts A))
  end.
Definition b_recv (f : Z) (A : box) : box :=
  match slot A with
  | Some m => mkBox None (waiting A) (<[f := OGot m]> (bouts A))
  | None => mkBox None (waiting A ++ [f]) (<[f := OPending]> (bouts A))
  end.
Definition b_cancel (f : Z) (A : box) : box :=
  mkBox (slot A) (filter (λ g, g ≠ f) (waiting A)) (<[f := OCancled]> (bouts A)).

Inductive rp_op :=
  | RReply (ok : bool) (perms pid : Z) (v : EndpointMsgView) | RRecv (al : allocs) (perms : Z)
  | RCancel (f : Z) | RValue (f : Z) | RCopy (f : Z) | RDrop (f : Z).

(** What an operation answers: whether the reply was accepted, a future, nothing, or
    a message. *)
Inductive banswer := BTaken (b : bool) | BFut (f : Z) | BUnit | BMsg (m : EndpointMessage).

Definition b_op (f : Z) (op : rp_op) (A : box) : Result banswer * box :=
  match op with
  | RReply ok perms pid v =>
      match check_msg_valid v with
      | Err e => (Err e, A)
      | Ok _ =>
          if negb (perm_imply perms REPLY_REPLIER) then (Err INSUFFICIENT_PERMISSIONS, A)
          else if negb ok then (Err OUT_OF_MEMORY, A)
          else let x := b_reply (message_of pid v) A in (Ok (BTaken x.1), x.2)
      end
  | RRecv al perms =>
      if negb (perm_imply perms REPLY_CALLER) then (Err INSUFFICIENT_PERMISSIONS, A)
      else if pending_ok al then (Ok (BFut f), b_recv f A) else (Err ALLOCATION_FAILED, A)
  | RCancel g =>
      match bouts A !! g with
      | Some OPending => (Ok BUnit, b_cancel g A)
      | Some OCancled => (Err FUTURE_CANCLED, A)
      | Some OConsumed => (Err FUTURE_CONSUMED, A)
      | _ => (Err FUTURE_ERROR, A)
      end
  | RValue g =>
      match bouts A !! g with
      | Some OPending => (Err FUTURE_PENDING, A)
      | Some (OError e) => (Err e, A)
      | Some OCancled => (Err FUTURE_CANCLED, A)
      | Some OConsumed => (Err FUTURE_CONSUMED, A)
      | Some (OGot m) => (Ok (BMsg m), mkBox (slot A) (waiting A) (<[g := OConsumed]> (bouts A)))
      | _ => (Err FUTURE_ERROR, A)
      end
  | RCopy _ | RDrop _ => (Ok BUnit, A)
  end.

Section spec.
Context {W : Type} `{Waker W}.
Implicit Types (s : rp W) (g : fut CB W).

(** The message of the slot, which no future has. *)
Definition in_slot s : list Z := if rmessage s =? 0 then [] else [rmessage s].
Definition slot_is s (x : option EndpointMessage) : Prop :=
  match x with None => rmessage s = 0 | Some m => rmessage s ≠ 0 ∧ rmsgs s !! rmessage s = Some m end.

Record rp_rep (c : nat) (A : box) (w : list (Z * Z)) s : Prop := {
  rr_fut : fut_inv c (rfuts s);
  rr_pr : rpending s = w.*1;
  rr_q : ep_q (asyncs (rfuts s)) ∅ (rrecvs s) [] w;
  rr_one : slot A = None ∨ w = [];
  rr_next : 0 < rnext s;
  rr_ptr : ∀ p, is_Some (rmsgs s !! p) ∨ is_Some (rrecvs s !! p) → 0 < p < rnext s;
  rr_slot : slot_is s (slot A);
  rr_waiting : waiting A = w.*2;
  rr_out : ep_o (asyncs (rfuts s)) (rmsgs s) (in_slot s) (bouts A)
}.

Ltac rp_fields := cbn [rfuts rmessage rpending rmsgs rrecvs rnext slot waiting bouts
  set_rfuts set_rmessage set_rpending set_rmsgs set_rrecvs set_rnext fst snd].

Lemma rp_futs_run {A} (m : M (fut CB W) A) s r g : m (rfuts s) = Fin r g → on_rfuts m s = Fin r (set_rfuts g s).
Proof. unfold on_rfuts. by intros ->. Qed.
Ltac run_by E := erewrite bind_run by (first [exact E | apply rp_futs_run; exact E | reflexivity]).
Lemma reply_get_run s p x : rrecvs s !! p = Some x → reply_get_recv p s = Fin (Ok x) s.
Proof. unfold reply_get_recv. by intros ->. Qed.
Lemma reply_delete_run c s p f a :
  fut_inv c (rfuts s) → rrecvs s !! p = Some f → asyncs (rfuts s) !! f = Some a →
  ∃ g', reply_delete_recv p s = Fin (Ok tt) (set_rrecvs (delete p) (set_rfuts g' s)) ∧
    touched c (rfuts s) g' f (left_over a).
Proof.
  intros Hi Hp Ha. destruct (release_touched c _ f a Hi Ha) as (g' & E & Ht). exists g'. split; [|done].
  unfold reply_delete_recv. rewrite (bind_run _ _ _ _ _ (reply_get_run _ _ _ Hp)). by run_by E.
Qed.

Lemma rp_fresh c A w s p : rp_rep c A w s → rnext s <= p → rmsgs s !! p = None ∧ rrecvs s !! p = None.
Proof.
  intros Hr Hp. pose proof (rr_ptr _ _ _ _ Hr p) as H0. unfold is_Some in H0.
  destruct (rmsgs s !! p), (rrecvs s !! p); try done; exfalso; (assert (0 < p < rnext s) by (apply H0; eauto); lia).
Qed.
Lemma rp_less c A w s : rp_rep (S c) A w s → rp_rep c A w s.
Proof. intros []. split; try done. by apply fut_inv_less. Qed.

(** *** [send_reply] *)

(** The state once the message is built. *)
Definition built s (x : EndpointMessage) : rp W :=
  mkRp (rmessage s) (rpending s) (<[rnext s := x]> (rmsgs s)) (rrecvs s) (rnext s + 1) (rfuts s).

(** A message in the heap that nobody refers to. *)
Lemma rp_built_out c A w s x :
  rp_rep c A w s → ep_o (asyncs (rfuts s)) (<[rnext s := x]> (rmsgs s)) (in_slot s) (bouts A).
Proof.
  intros Hr. destruct (rp_fresh _ _ _ _ (rnext s) Hr) as [Fm _]; [lia|].
  apply (epo_msgs _ _ _ _ _ _ (rr_out _ _ _ _ Hr)). intros m y Hm Hy. split; [done|]. rewrite lookup_insert_ne; congruence.
Qed.
Lemma rp_built_ptr c A w s x p :
  rp_rep c A w s → is_Some (<[rnext s := x]> (rmsgs s) !! p) ∨ is_Some (rrecvs s !! p) → 0 < p < rnext s + 1.
Proof.
  intros Hr. rewrite lookup_insert_is_Some. pose proof (rr_ptr _ _ _ _ Hr p). pose proof (rr_next _ _ _ _ Hr). naive_solver lia.
Qed.


Lemma reply_new_run s x : reply_new_msg x s = Fin (Ok (rnext s)) (built s x).
Proof. done. Qed.

Lemma reply_starts s perms pid v :
  check_msg_valid v = Ok tt → perm_imply perms REPLY_REPLIER = true →
  send_reply true perms pid v s =
    (if negb (rmessage s =? 0) then _ ← reply_delete_msg (rnext s); mret false
     else
       r ← reply_pop_recv;
       if negb (r =? 0) then
         f ← reply_get_recv r;
         x ← attempt (on_rfuts (set_value f (Some (rnext s))));
         match x with
         | Err e => _ ← reply_delete_recv r; _ ← reply_delete_msg (rnext s); fail e
         | Ok _ => _ ← reply_delete_recv r; mret true
         end
       else _ ← modify (set_rmessage (rnext s)); mret true) (built s (message_of pid v)).
Proof. intros Hv Hp. unfold send_reply. rewrite Hv, Hp. reflexivity. Qed.

Lemma reply_full c A w s perms pid v m :
  rp_rep c A w s → slot A = Some m → check_msg_valid v = Ok tt → perm_imply perms REPLY_REPLIER = true →
  ∃ s', send_reply true perms pid v s = Fin (Ok false) s' ∧ rp_rep c A w s'.
Proof.
  intros Hr Hs Hv Hp. pose proof (rr_slot _ _ _ _ Hr) as Hsl. rewrite Hs in Hsl. destruct Hsl as [Hz Hm].
  destruct (rp_fresh _ _ _ _ (rnext s) Hr) as [Fm _]; [lia|]. pose proof (rr_next _ _ _ _ Hr) as Hn.
  rewrite (reply_starts _ _ _ _ Hv Hp), (proj2 (Z.eqb_neq (rmessage s) 0)) by done. cbn [negb].
  eexists. split.
  - erewrite bind_run; [reflexivity|]. unfold reply_delete_msg. rewrite (proj2 (Z.eqb_neq (rnext s) 0)) by lia.
    unfold built. rp_fields. by rewrite lookup_insert_eq.
  - unfold built. destruct Hr as [R1 R2 R3 R4 R5 R6 R7 R8 R9]. split; rp_fields; try done.
    + lia.
    + intros p. rewrite delete_insert_id by done. intros Hx. specialize (R6 p Hx). lia.
    + unfold slot_is. rp_fields. by rewrite delete_insert_id.
    + by rewrite delete_insert_id.
Qed.

Lemma reply_fills c A s perms pid v :
  rp_rep c A [] s → slot A = None → check_msg_valid v = Ok tt → perm_imply perms REPLY_REPLIER = true →
  ∃ s', send_reply true perms pid v s = Fin (Ok true) s' ∧
    rp_rep c (mkBox (Some (message_of pid v)) [] (bouts A)) [] s'.
Proof.
  intros Hr Hs Hv Hp. pose proof (rr_slot _ _ _ _ Hr) as Hsl. rewrite Hs in Hsl. simpl in Hsl.
  destruct (rp_fresh _ _ _ _ (rnext s) Hr) as [Fm _]; [lia|]. pose proof (rr_next _ _ _ _ Hr) as Hn.
  rewrite (reply_starts _ _ _ _ Hv Hp), Hsl. cbn [negb Z.eqb].
  eexists. split.
  - erewrite bind_run; [|unfold reply_pop_recv; erewrite bind_run by reflexivity; unfold built; rp_fields;
      rewrite (rr_pr _ _ _ _ Hr); reflexivity]. reflexivity.
  - pose proof (rp_built_out _ _ _ _ (message_of pid v) Hr) as Ho. pose proof (λ p, rp_built_ptr _ _ _ _ (message_of pid v) p Hr) as Hptr.
    unfold built in *. destruct Hr as [R1 R2 R3 R4 R5 R6 R7 R8 R9]. split; rp_fields; try done.
    + by right.
    + lia.
    + split; rp_fields; [lia|apply lookup_insert_eq].
    + unfold in_slot in *. rp_fields. rewrite Hsl in Ho. simpl in Ho. rewrite (proj2 (Z.eqb_neq (rnext s) 0)) by lia.
      unfold in_slot in R9. rewrite Hsl in R9. apply (epo_msgs _ _ _ _ _ _ R9).
      intros m y _ Hy. assert (m ≠ rnext s) by congruence. rewrite lookup_insert_ne by done. split; [set_solver|done].
Qed.

Lemma reply_matches c A s perms pid v r f w :
  rp_rep c A ((r, f) :: w) s → check_msg_valid v = Ok tt → perm_imply perms REPLY_REPLIER = true →
  ∃ s', send_reply true perms pid v s = Fin (Ok true) s' ∧
    rp_rep c (mkBox None (tail (waiting A)) (<[f := OGot (message_of pid v)]> (bouts A))) w s'.
Proof.
  intros Hr Hv Hp. pose proof (rr_slot _ _ _ _ Hr) as Hsl.
  destruct (rr_one _ _ _ _ Hr) as [Hs|?]; [|done]. rewrite Hs in Hsl. simpl in Hsl.
  destruct (rp_fresh _ _ _ _ (rnext s) Hr) as [Fm _]; [lia|]. pose proof (rr_next _ _ _ _ Hr) as Hn.
  destruct (eq_recv _ _ _ _ _ (rr_q _ _ _ _ Hr) r f) as (Hrv & a & Ha & Hpa & _); [left|].
  assert (Hrz : r ≠ 0) by (destruct (rr_ptr _ _ _ _ Hr r); [right; by exists f|lia]).
  destruct (set_value_run c (rfuts s) f a (Some (rnext s)) (rr_fut _ _ _ _ Hr) Ha Hpa) as (g1 & E1 & [I1 A1 O1 _]).
  set (s1 := set_rpending (λ _, w.*1) (built s (message_of pid v))).
  destruct (reply_delete_run c (set_rfuts g1 s1) r f _ I1 Hrv A1) as (g2 & E2 & [I2 A2 O2 _]).
  eexists. split.
  - rewrite (reply_starts _ _ _ _ Hv Hp), Hsl. cbn [negb Z.eqb].
    rewrite (bind_run reply_pop_recv _ _ r s1).
    2: { unfold reply_pop_recv. erewrite bind_run by reflexivity. unfold built. rp_fields. by rewrite (rr_pr _ _ _ _ Hr). }
    rewrite (proj2 (Z.eqb_neq r 0)) by done. cbn [negb].
    erewrite bind_run by (apply reply_get_run; exact Hrv).
    erewrite bind_run by (unfold attempt; erewrite rp_futs_run by exact E1; reflexivity). cbv beta iota.
    erewrite bind_run by exact E2. reflexivity.
  - pose proof (rp_built_out _ _ _ _ (message_of pid v) Hr) as Ho. pose proof (λ p, rp_built_ptr _ _ _ _ (message_of pid v) p Hr) as Hptr.
    assert (Hoff : ∀ x, x ≠ f → asyncs g2 !! x = asyncs (rfuts s) !! x) by (intros x Hx; etrans; [by apply O2|by apply O1]).
    unfold s1, built in *. destruct Hr as [R1 R2 R3 R4 R5 R6 R7 R8 R9]. split; rp_fields; try done.
    + apply (epq_drop_recv _ _ _ _ _ [] [] w r f R3 Hoff); [by eapply left_over_quiet; [exact A2|]|].
      intros x Hx. by rewrite lookup_delete_ne.
    + by left.
    + lia.
    + intros p. rewrite lookup_delete_is_Some. intros Hx. apply Hptr. tauto.
    + by rewrite R8.
    + apply (epo_set (asyncs (rfuts s)) _ _ _ _ _ _ Ho Hoff). intros b. rewrite A2. intros Hl. apply (left_over_match _ _ _ _ _ Hl).
      unfold in_slot. rp_fields. rewrite Hsl. cbn. split; [set_solver|]. eexists. split; [apply lookup_insert_eq|done].
Qed.

(** *** [recv] *)

Definition reply_with_recv s (p f : Z) g : rp W :=
  mkRp (rmessage s) (rpending s) (rmsgs s) (<[p := f]> (rrecvs s)) (p + 1) g.

Lemma reply_recv_prep c s al perms :
  fut_inv (S c) (rfuts s) → 0 < rnext s → perm_imply perms REPLY_CALLER = true →
  pending_ok al = true → state_ok al = true →
  let p := rnext s in let f := next_async (rfuts s) in
  ∃ g wd, reply_recv al perms s = reply_recv_rest p f (reply_with_recv s p f g) ∧
    fut_inv c g ∧ asyncs g !! f = Some (fresh_async wd) ∧
    (∀ y, y ≠ f → asyncs g !! y = asyncs (rfuts s) !! y) ∧ asyncs (rfuts s) !! f = None.
Proof.
  intros Hi Hnext Hp Ha1 Ha2 p f. destruct (promise_future_run c (rfuts s) Hi) as (g1 & g2 & wd & E1 & E2 & Hrest).
  exists g2, wd. split; [|exact Hrest]. unfold reply_recv. rewrite Hp. cbn [negb].
  rewrite (bind_run (reply_new_recv al) _ _ p (mkRp (rmessage s) (rpending s) (rmsgs s) (<[p := f]> (rrecvs s)) (p + 1) g1)).
  2: { unfold reply_new_recv. rewrite Ha1, Ha2. cbn [negb]. by run_by E1. }
  rewrite (proj2 (Z.eqb_neq p 0)) by (unfold p; lia).
  erewrite bind_run by (apply reply_get_run, lookup_insert_eq). by run_by E2.
Qed.

Lemma reply_recv_waits c A w s al perms :
  rp_rep (S c) A w s → slot A = None → perm_imply perms REPLY_CALLER = true →
  pending_ok al = true → state_ok al = true →
  let f := next_async (rfuts s) in
  ∃ s' w', reply_recv al perms s = Fin (Ok f) s' ∧ rp_rep c (b_recv f A) w' s'.
Proof.
  intros Hr Hs Hc Ha1 Ha2 f.
  destruct (reply_recv_prep c s al perms (rr_fut _ _ _ _ Hr) (rr_next _ _ _ _ Hr) Hc Ha1 Ha2)
    as (g & wd & E & Hi & Hf & Hoff & Hnone). cbv zeta in *. fold f in E, Hf, Hoff, Hnone.
  set (p := rnext s) in *. destruct (rp_fresh _ _ _ _ p Hr) as [_ Fr]; [lia|].
  pose proof (rr_slot _ _ _ _ Hr) as Hsl. rewrite Hs in Hsl. simpl in Hsl.
  destruct Hr as [R1 R2 R3 R4 R5 R6 R7 R8 R9].
  destruct (callback_touched c g f _ (Some (CbRecv p)) Hi Hf) as (g2 & E2 & [T1 T2 T3 T4]).
  assert (Hoff2 : ∀ x, x ≠ f → asyncs g2 !! x = asyncs (rfuts s) !! x) by (intros x Hx; by rewrite T3, Hoff).
  exists (mkRp 0 (rpending s ++ [p]) (rmsgs s) (<[p := f]> (rrecvs s)) (p + 1) g2), (w ++ [(p, f)]). split.
  { rewrite E. unfold reply_recv_rest. erewrite bind_run by reflexivity. unfold reply_with_recv. rp_fields. rewrite Hsl.
    cbn [Z.eqb negb]. by run_by E2. }
  unfold b_recv. rewrite Hs. split; rp_fields; try done.
  - by rewrite R2, fmap_app.
  - apply (epq_add_recv (asyncs (rfuts s)) _ _ (rrecvs s)); try done.
    + by apply not_pend_none.
    + eexists. split; [exact T2|done].
    + intros x Hx. by rewrite lookup_insert_ne.
    + apply lookup_insert_eq.
  - by left.
  - lia.
  - intros x. rewrite lookup_insert_is_Some. intros Hx. specialize (R6 x). fold p in R5, R6. naive_solver lia.
  - by rewrite R8, fmap_app.
  - unfold in_slot in *. rewrite Hsl in R9. apply (epo_set (asyncs (rfuts s)) _ _ _ _ _ _ R9 Hoff2). intros a. rewrite T2. by intros [= <-].
Qed.

Lemma reply_recv_takes c A s al perms m :
  rp_rep (S c) A [] s → slot A = Some m → perm_imply perms REPLY_CALLER = true →
  pending_ok al = true → state_ok al = true →
  let f := next_async (rfuts s) in
  ∃ s', reply_recv al perms s = Fin (Ok f) s' ∧ rp_rep c (b_recv f A) [] s'.
Proof.
  intros Hr Hs Hc Ha1 Ha2 f.
  destruct (reply_recv_prep c s al perms (rr_fut _ _ _ _ Hr) (rr_next _ _ _ _ Hr) Hc Ha1 Ha2)
    as (g & wd & E & Hi & Hf & Hoff & Hnone). cbv zeta in *. fold f in E, Hf, Hoff, Hnone.
  set (p := rnext s) in *. destruct (rp_fresh _ _ _ _ p Hr) as [_ Fr]; [lia|].
  pose proof (rr_slot _ _ _ _ Hr) as Hsl. rewrite Hs in Hsl. destruct Hsl as [Hz Hm].
  destruct Hr as [R1 R2 R3 R4 R5 R6 R7 R8 R9].
  destruct (set_value_run c g f _ (Some (rmessage s)) Hi Hf eq_refl) as (g2 & E2 & [T1 T2 T3 T4]).
  assert (Hoff2 : ∀ x, x ≠ f → asyncs g2 !! x = asyncs (rfuts s) !! x) by (intros x Hx; by rewrite T3, Hoff).
  exists (mkRp 0 (rpending s) (rmsgs s) (<[p := f]> (rrecvs s)) (p + 1) g2). split.
  { rewrite E. unfold reply_recv_rest. erewrite bind_run by reflexivity. unfold reply_with_recv. rp_fields.
    rewrite (proj2 (Z.eqb_neq (rmessage s) 0)) by done. cbn [negb]. erewrite bind_run by reflexivity.
    erewrite bind_run by (unfold attempt; erewrite rp_futs_run by exact E2; reflexivity). reflexivity. }
  unfold b_recv. rewrite Hs. split; rp_fields; try done.
  - assert (HQ : ep_q (asyncs g2) ∅ (rrecvs s) [] []).
    { apply (epq_quiet (asyncs (rfuts s)) _ _ _ _ _ f R3 Hoff2); [by apply not_pend_none|].
      by eapply not_pend_state; [exact T2|]. }
    destruct HQ. split; try done. intros ? ? []%elem_of_nil.
  - by left.
  - lia.
  - intros x. rewrite lookup_insert_is_Some. intros Hx. specialize (R6 x). fold p in R5, R6. naive_solver lia.
  - unfold in_slot in *. rp_fields. apply (epo_set (asyncs (rfuts s)) _ _ _ _ _ _); [|done|].
    + apply (epo_msgs _ _ _ _ _ _ R9). intros x y _ Hy. split; [set_solver|done].
    + intros a. rewrite T2. intros [= <-]. cbn. split; [set_solver|]. by exists m.
Qed.

(** *** Futures *)

Lemma reply_set_futs_id s : set_rfuts (rfuts s) s = s.
Proof. by destruct s. Qed.

(** A change of one future that is not pending afterwards, or that keeps its state. *)
Lemma rp_touch c c' A A' w s g f x :
  rp_rep c A w s → touched c' (rfuts s) g f x → (∀ cb, pendf (asyncs (rfuts s)) f cb ↔ pendf (asyncs g) f cb) →
  slot A' = slot A → waiting A' = waiting A →
  ep_o (asyncs g) (rmsgs s) (in_slot s) (bouts A') → rp_rep c' A' w (set_rfuts g s).
Proof.
  intros [R1 R2 R3 R4 R5 R6 R7 R8 R9] [T1 T2 T3 _] Hpd ES ER Ho.
  split; rp_fields; try done; [|by rewrite ES|by rewrite ES|by rewrite ER].
  destruct R3 as [H1 H2 H3 H4 H5 H6].
  assert (Hall : ∀ y cb, pendf (asyncs g) y cb ↔ pendf (asyncs (rfuts s)) y cb).
  { intros y cb. destruct (decide (y = f)) as [->|Hne]; [symmetry; apply Hpd|]. by apply (pendf_off _ _ f). }
  split; try done.
  - intros p m y Hin. destruct (H1 p m y Hin) as [? ?]. split; [done|]. by apply Hall.
  - intros p y Hin. destruct (H2 p y Hin) as [? ?]. split; [done|]. by apply Hall.
  - intros y cb Hy. by apply H3, Hall.
Qed.

Lemma rp_not_waiting c A w s f : rp_rep c A w s → (∀ cb, ~ pendf (asyncs (rfuts s)) f cb) → ∀ z, z ∈ waiting A → z ≠ f.
Proof.
  intros Hr Hn z. rewrite (rr_waiting _ _ _ _ Hr). intros ([p g] & -> & Hin)%list_elem_of_fmap Hg. cbn [snd] in Hg. subst g.
  by apply (Hn (CbRecv p)), (eq_recv _ _ _ _ _ (rr_q _ _ _ _ Hr)).
Qed.

Lemma reply_cancel_tail c s f a :
  fut_inv c (rfuts s) → asyncs (rfuts s) !! f = Some a →
  ∃ g, (a ← on_rfuts (get_async f); _ ← on_rfuts (put_async f (set_fstate CANCLED a));
        _ ← on_rfuts (with_waker (wk_wake_all (wait_wd a))); mret tt) s = Fin (Ok tt) (set_rfuts g s) ∧
    touched c (rfuts s) g f (Some (set_fstate CANCLED a)).
Proof.
  intros Hi Ha. destruct (fi_async _ _ Hi f a Ha) as (Hf & Hwd & Hrc).
  destruct (wk_wake_ok c (waker (rfuts s)) (wait_wd a)) as (n & w & Ew & Hiw); [apply Hi|done|].
  exists (set_waker w (set_asyncs <[f := set_fstate CANCLED a]> (rfuts s))). split.
  - erewrite bind_run by (apply rp_futs_run, get_async_run; exact Ha). erewrite bind_run by reflexivity.
    erewrite bind_run; [reflexivity|]. unfold on_rfuts, with_waker. simpl. by rewrite Ew.
  - pose proof (put_inv c (rfuts s) f a (set_fstate CANCLED a) Hi Ha eq_refl Hrc) as [_ H2 H3].
    split; [by split| | |done]; simpl; [apply lookup_insert_eq|intros y Hy; by rewrite lookup_insert_ne].
Qed.
Lemma reply_cancle_run c s f a s1 a1 :
  fut_inv c (rfuts s) → asyncs (rfuts s) !! f = Some a → fstate a = PENDING →
  (match cancel_callback a with Some cb => reply_run_cb cb | None => mret tt end) s = Fin (Ok tt) s1 →
  fut_inv c (rfuts s1) → asyncs (rfuts s1) !! f = Some a1 →
  ∃ g, reply_cancle f s = Fin (Ok tt) (set_rfuts g s1) ∧ touched c (rfuts s1) g f (Some (set_fstate CANCLED a1)).
Proof.
  intros Hi Ha Hp Hcb Hi1 Ha1. destruct (fi_async _ _ Hi f a Ha) as (Hf & _ & _).
  destruct (reply_cancel_tail c s1 f a1 Hi1 Ha1) as (g & E & Ht). exists g. split; [|done].
  unfold reply_cancle, cancle. rewrite (proj2 (Z.eqb_neq f 0)) by lia.
  erewrite bind_run by (apply rp_futs_run, get_async_run; exact Ha). rewrite Hp, reply_set_futs_id.
  erewrite bind_run by exact Hcb. exact E.
Qed.

Lemma reply_cancel_waiter c A w1 p f w2 s a :
  rp_rep c A (w1 ++ (p, f) :: w2) s → asyncs (rfuts s) !! f = Some a → 1 < ref_count a →
  ∃ s', reply_cancle f s = Fin (Ok tt) s' ∧ rp_rep c (b_cancel f A) (w1 ++ w2) s'.
Proof.
  intros Hr Ha Hrc. pose proof (rr_q _ _ _ _ Hr) as Hq.
  destruct (eq_recv _ _ _ _ _ Hq p f) as (Hsp & a' & Ha' & Hp & Hcb); [set_solver|]. simplify_eq.
  assert (Hpz : p ≠ 0) by (destruct (rr_ptr _ _ _ _ Hr p); [right; by eexists|lia]).
  pose proof (eq_ndw _ _ _ _ _ Hq) as Hn.
  assert (Hpq : p ∉ w1.*1).
  { rewrite fmap_app, fmap_cons in Hn. apply NoDup_app in Hn as (_ & Hd & _). intros Hin. apply (Hd p Hin). left. }
  destruct (reply_delete_run c (set_rpending (λ _, (w1 ++ w2).*1) s) p f a (rr_fut _ _ _ _ Hr) Hsp Ha) as (g1 & E1 & [I1 A1 O1 _]).
  unfold left_over in A1. rewrite (proj2 (Z.eqb_neq (ref_count a) 1)) in A1 by lia.
  assert (Ecb : (match cancel_callback a with Some cb => reply_run_cb cb | None => mret tt end) s =
    Fin (Ok tt) (set_rrecvs (delete p) (set_rfuts g1 (set_rpending (λ _, (w1 ++ w2).*1) s)))).
  { rewrite Hcb. cbn [reply_run_cb]. unfold reply_cancel_recv. rewrite (proj2 (Z.eqb_neq p 0)) by done.
    rewrite (bind_run (modify (set_rpending (list_unlink p))) _ s tt (set_rpending (λ _, (w1 ++ w2).*1) s)); [exact E1|].
    unfold modify, set_rpending. rewrite (rr_pr _ _ _ _ Hr), !fmap_app, fmap_cons. cbn [fst]. by rewrite unlink_mid. }
  destruct (reply_cancle_run c s f a _ _ (rr_fut _ _ _ _ Hr) Ha Hp Ecb I1 A1) as (g & E & [I2 A2 O2 _]).
  eexists. split; [exact E|].
  assert (Hoff : ∀ x, x ≠ f → asyncs g !! x = asyncs (rfuts s) !! x).
  { intros z Hz. etrans; [by apply O2|]. by apply O1. }
  unfold b_cancel. destruct Hr as [R1 R2 R3 R4 R5 R6 R7 R8 R9]. split; rp_fields; try done.
  - apply (epq_drop_recv _ _ _ _ _ _ _ _ _ _ R3 Hoff); [by eapply not_pend_state; [exact A2|]|].
    intros z Hz. by rewrite lookup_delete_ne.
  - destruct R4 as [?|Ho]; [by left|by destruct w1].
  - intros z. rewrite lookup_delete_is_Some. intros Hz. apply R6. naive_solver.
  - rewrite R8, !fmap_app, fmap_cons. cbn [snd]. apply (filter_mid id); [done|].
    intros z. rewrite <- fmap_app. intros ([p' g'] & -> & Hin)%list_elem_of_fmap Hg. cbn [snd id] in Hg. unfold id in Hg. subst g'.
    pose proof (ndw_ne _ _ _ _ _ _ Hn Hin) as Hne.
    destruct (eq_recv _ _ _ _ _ R3 p' f) as (_ & b & Hb & _ & Hcb'); [set_solver|]. congruence.
  - apply (epo_set (asyncs (rfuts s)) _ _ _ _ _ _ R9 Hoff). intros b. rewrite A2. by intros [= <-].
Qed.

Lemma reply_cancel_plain c A w s f a :
  rp_rep c A w s → asyncs (rfuts s) !! f = Some a → fstate a = PENDING → cancel_callback a = None →
  ∃ s', reply_cancle f s = Fin (Ok tt) s' ∧ rp_rep c (b_cancel f A) w s'.
Proof.
  intros Hr Ha Hp Hcb.
  destruct (reply_cancle_run c s f a s a (rr_fut _ _ _ _ Hr) Ha Hp ltac:(by rewrite Hcb) (rr_fut _ _ _ _ Hr) Ha) as (g & E & Ht).
  eexists. split; [exact E|].
  assert (Hn : ∀ cb, ~ pendf (asyncs (rfuts s)) f cb) by (intros cb (b & Hb & _ & Hc); congruence).
  apply (rp_touch c c A _ w s g f _ Hr Ht); [|done| |].
  - intros cb. split; [intros Hc; by destruct (Hn cb)|]. intros (b & Hb & Hs & _). rewrite (td_at _ _ _ _ _ Ht) in Hb. by simplify_eq.
  - unfold b_cancel. cbn [waiting]. by apply filter_id, (rp_not_waiting _ _ _ _ _ Hr).
  - apply (epo_set (asyncs (rfuts s))); [apply Hr|apply Ht|]. intros b. rewrite (td_at _ _ _ _ _ Ht). by intros [= <-].
Qed.

Lemma reply_cancel_pending c A w s f a :
  rp_rep c A w s → asyncs (rfuts s) !! f = Some a → fstate a = PENDING → 1 < ref_count a →
  ∃ s' w', reply_cancle f s = Fin (Ok tt) s' ∧ rp_rep c (b_cancel f A) w' s'.
Proof.
  intros Hr Ha Hp Hrc. destruct (cancel_callback a) as [cb|] eqn:Hcb.
  - pose proof (eq_cb _ _ _ _ _ (rr_q _ _ _ _ Hr) f cb (ex_intro _ a (conj Ha (conj Hp Hcb)))) as Hin. destruct cb as [p|p].
    + by destruct Hin as [m []%elem_of_nil].
    + apply list_elem_of_split in Hin as (w1 & w2 & ->).
      destruct (reply_cancel_waiter _ _ _ _ _ _ _ _ Hr Ha Hrc) as (s' & ? & ?). by exists s', (w1 ++ w2).
  - destruct (reply_cancel_plain _ _ _ _ _ _ Hr Ha Hp Hcb) as (s' & ? & ?). by exists s', w.
Qed.

(** *** All operations *)

Definition run_rp_op (op : rp_op) : M (rp W) Z :=
  match op with
  | RReply ok perms pid v => b ← send_reply ok perms pid v; mret (Z.b2z b)
  | RRecv al perms => reply_recv al perms
  | RCancel f => _ ← reply_cancle f; mret 0
  | RValue f => on_rfuts (value false f)
  | RCopy f => on_rfuts (future_of f)
  | RDrop f => _ ← on_rfuts (release f); mret 0
  end.

Definition reply_held s (f : Z) : Prop :=
  ∃ a, asyncs (rfuts s) !! f = Some a ∧ (fstate a = PENDING → 1 < ref_count a).
Definition rp_op_ok s (op : rp_op) : Prop :=
  match op with
  | RReply _ _ _ _ => True
  | RRecv al _ => state_ok al = true
  | RCancel f | RDrop f | RValue f => reply_held s f
  | RCopy f => ∃ a, asyncs (rfuts s) !! f = Some a ∧ ref_count a + 1 < W64
  end.

Definition reply_answers s (r : Result Z) (b : Result banswer) : Prop :=
  match r, b with
  | Ok z, Ok (BTaken b) => z = Z.b2z b
  | Ok z, Ok (BFut f) => z = f
  | Ok _, Ok BUnit => True
  | Ok z, Ok (BMsg m) => rmsgs s !! z = Some m
  | Err e, Err e' => e = e'
  | _, _ => False
  end.

Definition reply_simulates c A s op : Prop :=
  ∃ r s' w', run_rp_op op s = Fin r s' ∧
    reply_answers s' r (b_op (next_async (rfuts s)) op A).1 ∧
    rp_rep c (b_op (next_async (rfuts s)) op A).2 w' s'.

Lemma sim_reply c A w s ok perms pid v : rp_rep (S c) A w s → reply_simulates c A s (RReply ok perms pid v).
Proof.
  intros Hr%rp_less. unfold reply_simulates. cbn [b_op run_rp_op].
  destruct (check_msg_valid v) as [[]|e] eqn:Ev.
  2: { exists (Err e), s, w. split; [|by split]. unfold send_reply. by rewrite Ev. }
  destruct (perm_imply perms REPLY_REPLIER) eqn:Ep; cbn [negb].
  2: { exists (Err INSUFFICIENT_PERMISSIONS), s, w. split; [|by split]. unfold send_reply. by rewrite Ev, Ep. }
  destruct ok; cbn [negb].
  2: { exists (Err OUT_OF_MEMORY), s, w. split; [|by split]. unfold send_reply. by rewrite Ev, Ep. }
  cbv zeta. unfold b_reply. destruct (slot A) as [m|] eqn:Es; cbn [fst snd].
  - destruct (reply_full _ _ _ _ perms pid v m Hr Es Ev Ep) as (s' & E & Hr'). exists (Ok 0), s', w.
    by rewrite (bind_run _ _ _ _ _ E).
  - destruct w as [|[r f] w].
    + destruct (reply_fills _ _ _ perms pid v Hr Es Ev Ep) as (s' & E & Hr'). exists (Ok 1), s', [].
      rewrite (bind_run _ _ _ _ _ E), (rr_waiting _ _ _ _ Hr). by split_and!.
    + destruct (reply_matches _ _ _ perms pid v r f w Hr Ev Ep) as (s' & E & Hr'). exists (Ok 1), s', w.
      rewrite (rr_waiting _ _ _ _ Hr) in Hr' |- *. rewrite (bind_run _ _ _ _ _ E). by split_and!.
Qed.

Lemma sim_reply_recv c A w s al perms :
  rp_rep (S c) A w s → state_ok al = true → reply_simulates c A s (RRecv al perms).
Proof.
  intros Hr Hal. unfold reply_simulates. cbn [b_op run_rp_op]. destruct (perm_imply perms REPLY_CALLER) eqn:Ep; cbn [negb].
  2: { exists (Err INSUFFICIENT_PERMISSIONS), s, w. split; [|split; [done|by apply rp_less]]. unfold reply_recv. by rewrite Ep. }
  destruct (pending_ok al) eqn:Epo; cbn [fst snd].
  - destruct (slot A) as [m|] eqn:Es.
    + destruct (rr_one _ _ _ _ Hr) as [?|Hw]; [congruence|]. subst w.
      destruct (reply_recv_takes c A s al perms m Hr Es Ep Epo Hal) as (s' & E & Hr'). by exists (Ok (next_async (rfuts s))), s', [].
    + destruct (reply_recv_waits c A w s al perms Hr Es Ep Epo Hal) as (s' & w' & E & Hr'). by exists (Ok (next_async (rfuts s))), s', w'.
  - exists (Err ALLOCATION_FAILED), s, w. split; [|split; [done|by apply rp_less]].
    unfold reply_recv, reply_new_recv. by rewrite Ep, Epo.
Qed.

Lemma sim_reply_cancel c A w s f : rp_rep (S c) A w s → reply_held s f → reply_simulates c A s (RCancel f).
Proof.
  intros Hr%rp_less (a & Ha & Hrc). destruct (rr_out _ _ _ _ Hr f a Ha) as (o & EO & Ho).
  destruct (fi_async _ _ (rr_fut _ _ _ _ Hr) f a Ha) as (Hf & _ & _).
  unfold reply_simulates. cbn [b_op run_rp_op]. rewrite EO.
  destruct (decide (fstate a = PENDING)) as [Hp|Hp].
  - unfold o_match in Ho. rewrite Hp in Ho. destruct Ho as [-> _]. cbn [fst snd].
    destruct (reply_cancel_pending _ _ _ _ _ _ Hr Ha Hp (Hrc Hp)) as (s' & w' & E & Hr').
    exists (Ok 0), s', w'. split; [by rewrite (bind_run _ _ _ _ _ E)|done].
  - assert (E : ∃ e, reply_cancle f s = Fin (Err e) s ∧
      e = match fstate a with CANCLED => FUTURE_CANCLED | CONSUMED => FUTURE_CONSUMED | _ => FUTURE_ERROR end).
    { unfold reply_cancle, cancle. rewrite (proj2 (Z.eqb_neq f 0)) by lia.
      erewrite bind_run by (apply rp_futs_run, get_async_run; exact Ha). rewrite reply_set_futs_id.
      destruct (fstate a); try done; by eexists. }
    destruct E as (e & E & Ee). exists (Err e), s, w. split; [by rewrite (bind_run_err _ _ _ _ _ E)|].
    unfold o_match in Ho. destruct (fstate a); try done; try (destruct (fvalue a); [destruct Ho as (_ & x & _ & Ho)|]); by subst.
Qed.

Lemma sim_reply_value c A w s f : rp_rep (S c) A w s → reply_held s f → reply_simulates c A s (RValue f).
Proof.
  intros Hr%rp_less (a & Ha & _). destruct (rr_out _ _ _ _ Hr f a Ha) as (o & EO & Ho).
  destruct (fi_async _ _ (rr_fut _ _ _ _ Hr) f a Ha) as (Hf & Hwd & Hrc).
  unfold reply_simulates. cbn [b_op run_rp_op]. rewrite EO.
  assert (Eget : get_async f (rfuts s) = Fin (Ok a) (rfuts s)) by by apply get_async_run.
  assert (Ev : ∀ r g, value false f (rfuts s) = Fin r g → on_rfuts (value false f) s = Fin r (set_rfuts g s)) by apply rp_futs_run.
  unfold value in Ev |- *. rewrite (proj2 (Z.eqb_neq f 0)) in Ev |- * by lia. rewrite (bind_run _ _ _ _ _ Eget) in Ev.
  unfold o_match in Ho. destruct (fstate a) eqn:Es.
  1: destruct Ho as [-> _]. 3, 4, 5: subst o.
  1, 3, 4, 5: (eexists (Err _), s, w; rewrite <- (reply_set_futs_id s) at 2; split; [by apply Ev|done]).
  destruct (fvalue a) as [m|] eqn:Em.
  2: { subst o. eexists (Err _), s, w. rewrite <- (reply_set_futs_id s) at 2. split; [by apply Ev|done]. }
  destruct Ho as (_ & x & Hx & ->). eexists (Ok m), _, w. split; [apply Ev; reflexivity|]. split; [done|]. cbn [snd].
  apply (rp_touch c c A _ w s _ f (Some (set_fstate CONSUMED (set_fvalue None a))) Hr); try done.
  - split; [apply (put_inv c (rfuts s) f a); try done; apply Hr|apply lookup_insert_eq| |done].
    intros y Hy. by apply lookup_insert_ne.
  - intros cb. split; intros (b & Hb & Hs & _); simpl in *; [|rewrite lookup_insert_eq in Hb]; simplify_eq; simpl in *; congruence.
  - apply (epo_set (asyncs (rfuts s))); [apply Hr|intros y Hy; by apply lookup_insert_ne|].
    intros b. simpl. rewrite lookup_insert_eq. by intros [= <-].
Qed.

Lemma sim_reply_copy c A w s f : rp_rep (S c) A w s → rp_op_ok s (RCopy f) → reply_simulates c A s (RCopy f).
Proof.
  intros Hr%rp_less (a & Ha & Hrc).
  destruct (acquire_run c (rfuts s) f a (rr_fut _ _ _ _ Hr) Ha Hrc) as [E Hi].
  eexists (Ok f), _, w. split; [apply rp_futs_run; unfold future_of; by rewrite (bind_run _ _ _ _ _ E)|]. split; [done|].
  apply (rp_touch c c A _ w s _ f (Some (set_refs (ref_count a + 1) a)) Hr); try done.
  - split; [done|apply lookup_insert_eq| |done]. intros y Hy. by apply lookup_insert_ne.
  - intros cb. unfold pendf. simpl. rewrite lookup_insert_eq, Ha. naive_solver.
  - apply (epo_same (asyncs (rfuts s)) _ _ _ _ f a (rr_out _ _ _ _ Hr)); [|done|].
    + intros y Hy. by apply lookup_insert_ne.
    + intros b o. simpl. rewrite lookup_insert_eq. by intros [= <-].
Qed.

Lemma sim_reply_drop c A w s f : rp_rep (S c) A w s → reply_held s f → reply_simulates c A s (RDrop f).
Proof.
  intros Hr%rp_less (a & Ha & Hrc).
  destruct (release_touched c (rfuts s) f a (rr_fut _ _ _ _ Hr) Ha) as (g & E & Ht).
  eexists (Ok 0), _, w. split; [cbn [run_rp_op]; by run_by E|]. split; [done|].
  apply (rp_touch c c A _ w s _ f _ Hr Ht); try done.
  - intros cb. unfold pendf. rewrite (td_at _ _ _ _ _ Ht), Ha. unfold left_over.
    destruct (Z.eqb_spec (ref_count a) 1) as [E1|E1]; [|naive_solver]. split; [|naive_solver].
    intros (b & [= <-] & Hp & _). specialize (Hrc Hp). lia.
  - apply (epo_same (asyncs (rfuts s)) _ _ _ _ f a (rr_out _ _ _ _ Hr)); [apply Ht|done|].
    intros b o. rewrite (td_at _ _ _ _ _ Ht). intros Hl. by apply left_over_match.
Qed.

(** C22: a reply object is a mailbox for one message.  From a state that represents a
    mailbox, every operation of its users (replying, receiving, cancelling, reading,
    copying and dropping futures) returns without touching freed memory, answers what
    the mailbox answers, and leaves a state that represents the mailbox after it: a
    reply goes to the caller that waits longest or into the empty slot, is refused
    while the slot is full, and is received at most once with the content sent. *)
Theorem reply_refines_mailbox c A w s op :
  rp_rep (S c) A w s → rp_op_ok s op → reply_simulates c A s op.
Proof.
  intros Hr Hok. destruct op; simpl in Hok; [by eapply sim_reply|by eapply sim_reply_recv|by eapply sim_reply_cancel|
    by eapply sim_reply_value|by eapply sim_reply_copy|by eapply sim_reply_drop].
Qed.

(** [reply] spends the capability exactly when the reply was accepted: after a refusal
    the holder is as before, after an acceptance it is what [remove] left. *)
Theorem reply_spends_capability {H0} (remove : Z → Z → M H0 unit) c A w s h ok perms pid holder idx v :
  rp_rep (S c) A w s → holder ≠ 0 →
  let b := b_op (next_async (rfuts s)) (RReply ok perms pid v) A in
  ∃ s' w', rp_rep c b.2 w' s' ∧
    reply remove ok perms pid holder idx v (s, h) =
      match b.1 with
      | Err e => Fin (Err e) (s', h)
      | Ok (BTaken true) => match remove holder idx h with Fin x h' => Fin x (s', h') | Panic => Panic | OutOfFuel => OutOfFuel end
      | Ok _ => Fin (Err FAILURE) (s', h)
      end.
Proof.
  intros Hr Hh b. destruct (sim_reply c A w s ok perms pid v Hr) as (r & s' & w' & E & Ha & Hr'). fold b in Ha, Hr'.
  exists s', w'. split; [done|]. unfold reply. rewrite (proj2 (Z.eqb_neq holder 0)) by done. cbn [fst snd].
  assert (Hb : ∀ x, b.1 = Ok x → ∃ b1, x = BTaken b1).
  { intros x. unfold b. cbn [b_op]. repeat case_match; intros [= <-]; eauto. }
  cbn [run_rp_op] in E. unfold mbind, M_bind in E. destruct (send_reply ok perms pid v s) as [[b0|e] s1| |]; try done.
  - injection E as <- <-. destruct b.1 as [x|]; [|done]. destruct (Hb x) as [b1 ->]; [done|]. simpl in Ha. by destruct b0, b1.
  - injection E as <- <-. destruct b.1 as [a|]; [by destruct a|]. simpl in Ha. by subst.
Qed.
End spec.
End Reply.

Module ReplyWitness.
Import Endpoint Reply Future FutureSched FutureWitness EndpointWitness.

Definition ex_rp : rp sched := mkRp 0 [] ∅ ∅ 1 ex_fut.
Definition ex_box : box := mkBox None [] ∅.

Lemma ex_rp_rep c : Z.of_nat c + 9 < W64 → rp_rep c ex_box [] ex_rp.
Proof.
  intros Hc. split; try done.
  - by apply ex_fut_inv.
  - split; try (by constructor); [intros ? ? ? []%elem_of_nil|intros ? ? []%elem_of_nil|].
    intros f cb (a & Ha & _). simpl in Ha. by rewrite lookup_empty in Ha.
  - by left.
  - intros p. simpl. rewrite !lookup_empty. intros [[? ?]|[? ?]]; done.
Qed.

Definition ex_reply : rp_op := RReply true REPLY_REPLIER 7 ex_view.
(** The first reply is accepted, the second refused. *)
Lemma reply_refines_mailbox_witness :
  ∃ s1 s2, run_rp_op ex_reply ex_rp = Fin (Ok 1) s1 ∧ run_rp_op ex_reply s1 = Fin (Ok 0) s2.
Proof.
  destruct (reply_refines_mailbox 1 ex_box [] ex_rp ex_reply) as (r1 & s1 & w1 & E1 & A1 & R1);
    [by apply ex_rp_rep|done|].
  destruct r1 as [r1|]; [|done]. simpl in A1. subst r1.
  destruct (reply_refines_mailbox 0 _ _ s1 ex_reply R1) as (r2 & s2 & w2 & E2 & A2 & R2); [done|].
  destruct r2 as [r2|]; [|done]. simpl in A2. subst r2. by exists s1, s2.
Defined.
End ReplyWitness.
