(* ===== verification/Slub.v ===== *)
(** * The slab allocator

    [Slub<ObjType>] of kernel/mem/slub.h.  A slab is one page of the kernel's window
    on physical memory: a header, then objects of one size.  The free objects of a
    slab are linked through their first word, so the links lie in memory that users
    of the allocator had before and will have again.

    The headers of all slabs are in one map by address, the words of memory in
    another; a slab allocator is its three lists of slabs and its counter.  Pages come
    through [PageFrames].  A null pointer is 0. *)
From S2P Require Import Prelude ErrCode Addr Buddy Gfp Memory MemFrames Sched.
Import Memory.

Module Slub.

Definition PAGES_PER_SLAB : Z := 1.
Definition SLAB_BYTES : Z := PAGESIZE * PAGES_PER_SLAB.
Definition SLAB_KMAX : Z := 2048.

Definition slub_align_down (addr align : Z) : Z := Z.land addr (not64 (sub64 align 1)).
Definition slub_align_up (addr align : Z) : Z := Z.land (sub64 (add64 addr align) 1) (not64 (sub64 align 1)).

Inductive SlabState := EMPTY | PARTIAL | FULL.
#[export] Instance SlabState_eq_dec : EqDecision SlabState.
Proof. solve_decision. Defined.

(** The links of the header are in the lists of [slub]. *)
Record SlabHeader := mkSlab { freelist : Z; inuse : Z; total : Z; slab_state : SlabState }.
(** [sizeof(SlabHeader)]: two links, three words and the state, padded. *)
Definition SLAB_HEADER_SIZE : Z := 48.

Record slub := mkSlub { partial : list Z; full : list Z; empty : list Z; inuse_objects : Z }.

Record kheap (G : Type) := mkHeap { slabs : gmap Z SlabHeader; words : gmap Z Z; frames : G }.
Arguments mkHeap {G} _ _ _.
Arguments slabs {G} _.
Arguments words {G} _.
Arguments frames {G} _.

Definition ptr_size : Z := 8.
Definition ptr_align : Z := 8.

Section slub.
Context {G : Type} `{PageFrames G}.
(** [sizeof] and [alignof] of the objects. *)
Context (raw_obj_size raw_obj_align : Z).

Definition round_up_pow2 (n align : Z) : Z := slub_align_up n align.
Definition obj_align : Z := Z.max raw_obj_align ptr_align.
Definition obj_size : Z := round_up_pow2 (Z.max raw_obj_size ptr_size) obj_align.
Definition slab_total : Z := (SLAB_BYTES - slub_align_up SLAB_HEADER_SIZE obj_align) / obj_size.

Definition sst : Type := slub * kheap G.
Definition on_slub (f : slub → slub) : M sst unit := modify (λ s, (f s.1, s.2)).
Definition set_partial f s := mkSlub (f (partial s)) (full s) (empty s) (inuse_objects s).
Definition set_full f s := mkSlub (partial s) (f (full s)) (empty s) (inuse_objects s).
Definition set_empty f s := mkSlub (partial s) (full s) (f (empty s)) (inuse_objects s).
Definition set_inuse_objects f s := mkSlub (partial s) (full s) (empty s) (f (inuse_objects s)).
Definition set_slabs f (h : kheap G) := mkHeap (f (slabs h)) (words h) (frames h).
Definition set_words f (h : kheap G) := mkHeap (slabs h) (f (words h)) (frames h).
Definition set_frames (g : G) (h : kheap G) := mkHeap (slabs h) (words h) g.

Definition get_slab (b : Z) : M sst SlabHeader := λ s,
  match slabs s.2 !! b with Some h => Fin (Ok h) s | None => Panic end.
Definition put_slab (b : Z) (h : SlabHeader) : M sst unit := modify (λ s, (s.1, set_slabs <[b := h]> s.2)).
Definition load (a : Z) : M sst Z := λ s,
  match words s.2 !! a with Some v => Fin (Ok v) s | None => Panic end.
Definition store_word (a v : Z) : M sst unit := modify (λ s, (s.1, set_words <[a := v]> s.2)).

(** ** Slabs *)

Definition slab_of (p : Z) : Z := slub_align_down p SLAB_BYTES.

(** The loop of [init_slab_headers], from object [i] down to the first. *)
Fixpoint link_objects (slab_start : Z) (i : nat) (head : Z) : M sst Z :=
  match i with
  | O => mret head
  | S i =>
      let obj := add64 slab_start (mul64 (Z.of_nat i) obj_size) in
      _ ← store_word obj head;
      link_objects slab_start i obj
  end.
Definition init_slab_headers (slab : Z) : M sst unit :=
  let slab_start := slub_align_up (add64 slab SLAB_HEADER_SIZE) obj_align in
  h ← get_slab slab;
  _ ← put_slab slab (mkSlab (freelist h) 0 slab_total (slab_state h));
  head ← link_objects slab_start (Z.to_nat slab_total) 0;
  h ← get_slab slab;
  put_slab slab (mkSlab head (inuse h) (total h) (slab_state h)).

Definition page_get (n : Z) : M sst (Result Z) := λ s,
  match pf_get n (frames s.2) with
  | Fin r g => Fin (Ok r) (s.1, set_frames g s.2) | Panic => Panic | OutOfFuel => OutOfFuel
  end.
Definition page_put (p n : Z) : M sst (Result unit) := λ s,
  match pf_put p n (frames s.2) with
  | Fin r g => Fin (Ok r) (s.1, set_frames g s.2) | Panic => Panic | OutOfFuel => OutOfFuel
  end.
Definition to_kpa (pa : Z) : M sst Z := match convert KPA PA pa with Some a => mret a | None => panic end.
Definition to_pa (kpa : Z) : M sst Z := match mk_addr KPA kpa ≫= convert PA KPA with Some a => mret a | None => panic end.

Definition new_slab : M sst Z :=
  r ← page_get PAGES_PER_SLAB;
  match r with
  | Err _ => mret 0
  | Ok pa =>
      b ← to_kpa pa;
      _ ← put_slab b (mkSlab 0 0 0 EMPTY);
      _ ← init_slab_headers b;
      mret b
  end.

(** ** The three lists *)

Definition set_slab_state (b : Z) (st : SlabState) : M sst unit :=
  h ← get_slab b; put_slab b (mkSlab (freelist h) (inuse h) (total h) st).
Definition to_empty (b : Z) : M sst unit :=
  h ← get_slab b;
  _ ← match slab_state h with
      | PARTIAL => on_slub (set_partial (list_unlink b))
      | FULL => on_slub (set_full (list_unlink b))
      | EMPTY => mret tt
      end;
  _ ← set_slab_state b EMPTY;
  on_slub (set_empty (push_back b)).
Definition to_partial (b : Z) : M sst unit :=
  h ← get_slab b;
  _ ← match slab_state h with
      | EMPTY => on_slub (set_empty (list_unlink b))
      | FULL => on_slub (set_full (list_unlink b))
      | PARTIAL => mret tt
      end;
  _ ← set_slab_state b PARTIAL;
  on_slub (set_partial (push_back b)).
Definition to_full (b : Z) : M sst unit :=
  h ← get_slab b;
  _ ← match slab_state h with
      | PARTIAL => on_slub (set_partial (list_unlink b))
      | EMPTY => on_slub (set_empty (list_unlink b))
      | FULL => mret tt
      end;
  _ ← set_slab_state b FULL;
  on_slub (set_full (push_back b)).

(** ** [alloc] and [free] *)

(** The slab to allocate from, 0 when there is none. *)
Definition pick_slab : M sst Z :=
  s ← gets fst;
  match last (partial s), last (empty s) with
  | Some b, _ => mret b
  | None, Some b => _ ← to_partial b; mret b
  | None, None =>
      b ← new_slab;
      if b =? 0 then mret 0
      else
        _ ← set_slab_state b PARTIAL;
        _ ← on_slub (set_partial (push_back b));
        mret b
  end.
Definition alloc : M sst Z :=
  b ← pick_slab;
  if b =? 0 then mret 0
  else
    h ← get_slab b;
    _ ← massert (negb (freelist h =? 0));
    next ← load (freelist h);
    _ ← put_slab b (mkSlab next (add64 (inuse h) 1) (total h) (slab_state h));
    _ ← on_slub (set_inuse_objects (λ n, add64 n 1));
    _ ← (if add64 (inuse h) 1 =? total h then to_full b else mret tt);
    mret (freelist h).

Definition inner_free (p : Z) : M sst unit :=
  if p =? 0 then mret tt
  else
    let b := slab_of p in
    h ← get_slab b;
    _ ← store_word p (freelist h);
    _ ← put_slab b (mkSlab p (sub64 (inuse h) 1) (total h) (slab_state h));
    _ ← on_slub (set_inuse_objects (λ n, sub64 n 1));
    if sub64 (inuse h) 1 =? 0 then to_empty b
    else if sub64 (inuse h) 1 =? sub64 (total h) 1 then to_partial b
    else mret tt.
Definition free (p : Z) : M sst unit := if p =? 0 then mret tt else inner_free p.

(** ** Statistics *)

(** The counting loop of [get_stats], from address [cur] of a slab at 0. *)
Fixpoint count_objects (fuel : nat) (cur per_slab : Z) : Z :=
  match fuel with
  | O => per_slab
  | S fuel => if add64 cur obj_size <=? SLAB_BYTES then count_objects fuel (add64 cur obj_size) (per_slab + 1) else per_slab
  end.
Record SlubStats := mkStats { total_slabs : Z; objects_inuse : Z; objects_total : Z; memory_usage_bytes : Z }.
Definition get_stats (s : slub) : SlubStats :=
  let n := Z.of_nat (length (partial s) + length (full s) + length (empty s)) in
  let per_slab := count_objects (Z.to_nat SLAB_BYTES) (slub_align_up (add64 0 SLAB_HEADER_SIZE) obj_align) 0 in
  mkStats n (inuse_objects s) (if 0 <? n then mul64 n per_slab else 0) (mul64 n SLAB_BYTES).

(** ** [Slub] of objects of at least [SLAB_KMAX] bytes: whole pages *)

Definition obj_pages : Z := page_align_up raw_obj_size / PAGESIZE.
Definition huge_alloc : M sst Z :=
  r ← page_get obj_pages;
  match r with
  | Err _ => mret 0
  | Ok pa =>
      _ ← massert (negb (pa =? 0));
      _ ← on_slub (set_inuse_objects (λ n, add64 n 1));
      to_kpa pa
  end.
Definition huge_free (p : Z) : M sst unit :=
  if p =? 0 then mret tt
  else
    pa ← to_pa p;
    _ ← page_put pa obj_pages;
    on_slub (set_inuse_objects (λ n, sub64 n 1)).

(** ** Layout of a slab *)

(** The object type has a size below [SLAB_KMAX] and an alignment that is a power of
    two within a page; [static_assert]: a slab holds at least one object. *)
Class slab_type : Prop := {
  st_size : 0 < raw_obj_size < SLAB_KMAX;
  st_align : ∃ k, 0 <= k <= 12 ∧ raw_obj_align = 2 ^ k;
  st_total : 0 < slab_total
}.
Context `{!slab_type}.

Lemma align_up_div a k : 0 <= k <= 12 → 0 <= a < W64 - 2 ^ k → slub_align_up a (2 ^ k) = (a + 2 ^ k - 1) / 2 ^ k * 2 ^ k.
Proof.
  intros Hk Ha. assert (0 < 2 ^ k <= 4096).
  { split; [apply Z.pow_pos_nonneg; lia|]. change 4096 with (2 ^ 12). apply Z.pow_le_mono_r; lia. }
  unfold slub_align_up, add64, sub64, W64 in *. rewrite (wrap64_small (a + 2 ^ k)) by (unfold is_u64, W64; lia).
  rewrite !wrap64_small by (unfold is_u64, W64; lia). rewrite land_not64 by (unfold is_u64, W64; lia).
  replace (2 ^ k - 1) with (Z.ones k) by (rewrite Z.ones_equiv; lia). rewrite ldiff_ones_round by lia. done.
Qed.
Lemma round_up_bounds a d : 0 < d → a <= (a + d - 1) / d * d < a + d.
Proof. intros Hd. pose proof (Z.div_mod (a + d - 1) d). pose proof (Z.mod_pos_bound (a + d - 1) d). lia. Qed.

Lemma obj_align_pow : ∃ k, 3 <= k <= 12 ∧ obj_align = 2 ^ k.
Proof.
  destruct st_align as (k & Hk & E). unfold obj_align, ptr_align. rewrite E.
  destruct (Z.le_gt_cases 3 k) as [H3|H3].
  - exists k. split; [lia|]. apply Z.max_l. change 8 with (2 ^ 3). apply Z.pow_le_mono_r; lia.
  - exists 3. split; [lia|]. change (2 ^ 3) with 8. apply Z.max_r. change 8 with (2 ^ 3). apply Z.pow_le_mono_r; lia.
Qed.

(** Where the first object of a slab lies. *)
Definition slab_first : Z := slub_align_up SLAB_HEADER_SIZE obj_align.

Record layout : Prop := {
  lo_align : 8 <= obj_align <= PAGESIZE;
  lo_page : (obj_align | PAGESIZE);
  lo_size : 8 <= obj_size;
  lo_fits : raw_obj_size <= obj_size;
  lo_sized : (obj_align | obj_size);
  lo_raw : (raw_obj_align | obj_align);
  lo_first : SLAB_HEADER_SIZE <= slab_first;
  lo_first_al : (obj_align | slab_first);
  lo_last : slab_first + slab_total * obj_size <= PAGESIZE;
}.

Lemma slab_layout : layout.
Proof.
  destruct obj_align_pow as (k & Hk & Ek). destruct st_align as (k0 & Hk0 & Ek0). pose proof st_size as Hs. pose proof st_total as Ht.
  assert (Hb : 8 <= 2 ^ k <= 4096).
  { split; [change 8 with (2 ^ 3)|change 4096 with (2 ^ 12)]; apply Z.pow_le_mono_r; lia. }
  unfold SLAB_KMAX in *. set (m := Z.max raw_obj_size ptr_size). assert (Hm : 8 <= m < 2048) by (unfold m, ptr_size; lia).
  assert (Es : obj_size = (m + 2 ^ k - 1) / 2 ^ k * 2 ^ k).
  { unfold obj_size, round_up_pow2. rewrite Ek. apply align_up_div; fold m; unfold W64; lia. }
  assert (Ef : slab_first = (48 + 2 ^ k - 1) / 2 ^ k * 2 ^ k).
  { unfold slab_first, SLAB_HEADER_SIZE. rewrite Ek. apply align_up_div; unfold W64; lia. }
  pose proof (round_up_bounds m (2 ^ k)) as B1. pose proof (round_up_bounds 48 (2 ^ k)) as B2.
  rewrite <- Es in B1. rewrite <- Ef in B2.
  assert (H4096 : PAGESIZE = 2 ^ (12 - k) * 2 ^ k).
  { rewrite <- Z.pow_add_r by lia. by replace (12 - k + k) with 12 by lia. }
  split.
  - rewrite Ek. unfold PAGESIZE. lia.
  - rewrite Ek. by exists (2 ^ (12 - k)).
  - lia.
  - unfold m, ptr_size in *. lia.
  - rewrite Ek, Es. apply Z.divide_factor_r.
  - rewrite Ek0. unfold obj_align. destruct (Z.max_spec raw_obj_align ptr_align) as [[Hlt E]|[Hge E]]; rewrite E; unfold ptr_align in *.
    + exists (2 ^ (3 - k0)). rewrite <- Z.pow_add_r; [by replace (3 - k0 + k0) with 3 by lia| |lia].
      destruct (Z.le_gt_cases k0 3); [lia|]. exfalso. rewrite Ek0 in Hlt. assert (2 ^ 3 <= 2 ^ k0) by (apply Z.pow_le_mono_r; lia). lia.
    + rewrite <- Ek0. apply Z.divide_refl.
  - unfold SLAB_HEADER_SIZE. lia.
  - rewrite Ek, Ef. apply Z.divide_factor_r.
  - unfold slab_total in *. fold slab_first in *. change SLAB_BYTES with PAGESIZE in *.
    pose proof (Z.div_mod (PAGESIZE - slab_first) obj_size). pose proof (Z.mod_pos_bound (PAGESIZE - slab_first) obj_size). lia.
Qed.

Definition objs (b : Z) : list Z := (λ i, b + slab_first + Z.of_nat i * obj_size) <$> seq 0 (Z.to_nat slab_total).

(** The page number of an address of the kernel's window on physical memory. *)
Definition kpage (a : Z) : Z := (a - KPA_OFFSET) / PAGESIZE.
Definition slab_base (b : Z) : Prop := (PAGESIZE | b) ∧ KPA_OFFSET < b ∧ b + PAGESIZE <= KVA_OFFSET.

Lemma elem_objs b x : x ∈ objs b ↔ ∃ i, 0 <= i < slab_total ∧ x = b + slab_first + i * obj_size.
Proof.
  unfold objs. rewrite list_elem_of_fmap. pose proof st_total. split.
  - intros (i & -> & Hi%elem_of_seq). exists (Z.of_nat i). split; [lia|done].
  - intros (i & Hi & ->). exists (Z.to_nat i). rewrite Z2Nat.id by lia. split; [done|]. apply elem_of_seq. lia.
Qed.
Lemma objs_NoDup b : NoDup (objs b).
Proof.
  unfold objs. apply NoDup_fmap_2_strong; [|apply NoDup_seq]. intros x y _ _. pose proof (lo_size slab_layout). nia.
Qed.
Lemma objs_length b : length (objs b) = Z.to_nat slab_total.
Proof. unfold objs. by rewrite length_fmap, length_seq. Qed.
Lemma objs_bounds b x : x ∈ objs b → b + SLAB_HEADER_SIZE <= x ∧ x + obj_size <= b + PAGESIZE.
Proof. rewrite elem_objs. intros (i & Hi & ->). destruct slab_layout. nia. Qed.
(** Two objects of a slab do not overlap. *)
Lemma objs_apart b x y : x ∈ objs b → y ∈ objs b → x ≠ y → x + obj_size <= y ∨ y + obj_size <= x.
Proof. rewrite !elem_objs. intros (i & Hi & ->) (j & Hj & ->) Hne. destruct slab_layout. assert (i < j ∨ j < i) by (destruct (Z.lt_trichotomy i j) as [?|[->|?]]; [lia|done|lia]). nia. Qed.

Lemma kpage_in b a : slab_base b → b <= a < b + PAGESIZE → kpage a = kpage b.
Proof.
  intros ([k Hk] & _ & _) Ha. unfold kpage. replace a with ((a - b) + b) by lia. subst b. unfold PAGESIZE, KPA_OFFSET in *.
  replace (a - k * 4096 + k * 4096 - 0xFFFFFFC000000000) with ((a - k * 4096) + (k - 0xFFFFFFC000000) * 4096) by lia.
  replace (k * 4096 - 0xFFFFFFC000000000) with ((k - 0xFFFFFFC000000) * 4096) by lia.
  rewrite Z.div_add, Z.div_mul by lia. rewrite (Z.div_small (a - k * 4096)) by lia. lia.
Qed.
Lemma kpage_inj b b' : slab_base b → slab_base b' → kpage b = kpage b' → b = b'.
Proof.
  intros ([k ->] & _ & _) ([k' ->] & _ & _). unfold kpage, PAGESIZE, KPA_OFFSET.
  replace (k * 4096 - 0xFFFFFFC000000000) with ((k - 0xFFFFFFC000000) * 4096) by lia.
  replace (k' * 4096 - 0xFFFFFFC000000000) with ((k' - 0xFFFFFFC000000) * 4096) by lia.
  rewrite !Z.div_mul by lia. lia.
Qed.
Lemma kpage_obj b x : slab_base b → x ∈ objs b → kpage x = kpage b.
Proof. intros Hb Hx%objs_bounds. apply kpage_in; [done|]. pose proof (lo_size slab_layout). unfold SLAB_HEADER_SIZE in *. lia. Qed.
Lemma slab_of_obj b x : slab_base b → x ∈ objs b → slab_of x = b.
Proof.
  intros ([k Hk] & Hlo & Hhi) Hx%objs_bounds. pose proof (lo_size slab_layout). unfold SLAB_HEADER_SIZE in *.
  unfold slab_of, slub_align_down. change (sub64 SLAB_BYTES 1) with (Z.ones 12).
  unfold KPA_OFFSET, KVA_OFFSET, PAGESIZE in *.
  rewrite land_not64 by (unfold is_u64, W64; change (Z.ones 12) with 4095; lia). rewrite ldiff_ones_round by lia.
  change (2 ^ 12) with 4096. subst b. replace x with ((x - k * 4096) + k * 4096) by lia. rewrite Z.div_add by lia.
  rewrite (Z.div_small (x - k * 4096)) by lia. lia.
Qed.
Lemma obj_nonnull b x : slab_base b → x ∈ objs b → 0 < x.
Proof. intros (_ & Hlo & _) Hx%objs_bounds. unfold KPA_OFFSET, SLAB_HEADER_SIZE in *. lia. Qed.

(** ** Consistency *)

(** [l] are the objects linked from [p]. *)
Fixpoint chain (ws : gmap Z Z) (l : list Z) (p : Z) : Prop :=
  match l with
  | [] => p = 0
  | x :: l => p = x ∧ ∃ n, ws !! x = Some n ∧ chain ws l n
  end.
Lemma chain_ext ws ws' l p : (∀ x, x ∈ l → ws' !! x = ws !! x) → chain ws l p → chain ws' l p.
Proof.
  revert p. induction l as [|x l IH]; intros p He; [done|]. intros (-> & n & Hn & Hc). split; [done|]. exists n.
  split; [rewrite He by left; done|]. apply IH; [|done]. intros y Hy. apply He. by right.
Qed.

Record slab_ok (ws : gmap Z Z) (b : Z) (hd : SlabHeader) (fl : list Z) : Prop := {
  sk_chain : chain ws fl (freelist hd);
  sk_nodup : NoDup fl;
  sk_objs : ∀ x, x ∈ fl → x ∈ objs b;
  sk_total : total hd = slab_total;
  sk_inuse : inuse hd = slab_total - Z.of_nat (length fl)
}.
Definition shape (st : SlabState) (fl : list Z) : Prop :=
  match st with
  | EMPTY => Z.of_nat (length fl) = slab_total
  | PARTIAL => 0 < Z.of_nat (length fl) < slab_total
  | FULL => fl = []
  end.
Definition placed (s : slub) (b : Z) (st : SlabState) : Prop :=
  match st with EMPTY => b ∈ empty s | PARTIAL => b ∈ partial s | FULL => b ∈ full s end.
Definition all_slabs (s : slub) : list Z := partial s ++ full s ++ empty s.

(** [L] are the objects in use, [F b] the free objects of slab [b], [mine] the pages
    of this allocator. *)
Record slub_ok (mine : Z → Prop) (F : Z → list Z) (L : gset Z) (s : slub) (h : kheap G) : Prop := {
  so_nodup : NoDup (all_slabs s);
  so_slab : ∀ b, b ∈ all_slabs s → ∃ hd, slabs h !! b = Some hd ∧ placed s b (slab_state hd) ∧
    slab_ok (words h) b hd (F b) ∧ shape (slab_state hd) (F b) ∧ slab_base b ∧ mine (kpage b);
  so_live : ∀ x, x ∈ L ↔ ∃ b, b ∈ all_slabs s ∧ x ∈ objs b ∧ x ∉ F b;
  so_count : inuse_objects s = wrap64 (Z.of_nat (size L))
}.

Lemma placed_all s b st : placed s b st → b ∈ all_slabs s.
Proof. unfold all_slabs. rewrite !elem_of_app. destruct st; simpl; tauto. Qed.
Lemma all_placed s b : b ∈ all_slabs s → ∃ st, placed s b st.
Proof. unfold all_slabs. rewrite !elem_of_app. intros [?|[?|?]]; [by exists PARTIAL|by exists FULL|by exists EMPTY]. Qed.

(** Replacing slab [b]: the other slabs stay in their lists, with their headers and
    their memory. *)
Lemma slub_rebuild mine F L s h mine' L' s' h' b hd fl :
  slub_ok mine F L s h → NoDup (all_slabs s') →
  (∀ b' st, b' ≠ b → placed s' b' st ↔ placed s b' st) →
  (∀ b', b' ≠ b → slabs h' !! b' = slabs h !! b') →
  (∀ a, kpage a ≠ kpage b → words h' !! a = words h !! a) →
  (∀ q, mine q → mine' q) → slab_base b → mine' (kpage b) →
  slabs h' !! b = Some hd → placed s' b (slab_state hd) → slab_ok (words h') b hd fl → shape (slab_state hd) fl →
  (∀ x, x ∈ L' ↔ (x ∈ L ∧ kpage x ≠ kpage b) ∨ (x ∈ objs b ∧ x ∉ fl)) →
  inuse_objects s' = wrap64 (Z.of_nat (size L')) →
  slub_ok mine' (λ b', if decide (b' = b) then fl else F b') L' s' h'.
Proof.
  intros [H1 H2 H3 H4] Hnd Hpl Hsl Hw Hmine Hb Hmb Ehd Hplb Hok Hsh HL Hcount.
  assert (Hall : ∀ b', b' ≠ b → b' ∈ all_slabs s' ↔ b' ∈ all_slabs s).
  { intros b' Hne. split; intros [st Hst]%all_placed; apply (placed_all _ _ st); by apply Hpl. }
  split; [done| | |done].
  - intros b' Hb'. destruct (decide (b' = b)) as [->|Hne]; [by exists hd|].
    apply Hall in Hb'; [|done]. destruct (H2 b' Hb') as (hd' & E1 & E2 & [K1 K2 K3 K4 K5] & E4 & E5 & E6).
    exists hd'. rewrite Hsl by done. split_and!; [done|by apply Hpl| |done|done|by apply Hmine].
    split; try done. apply (chain_ext (words h)); [|done]. intros x Hx. apply Hw.
    rewrite (kpage_obj b') by auto. intros Hk. by apply Hne, kpage_inj.
  - intros x. rewrite HL. split.
    + intros [[Hx Hk]|[Hx Hf]].
      * apply H3 in Hx as (b' & Hb' & Ho & Hn). assert (b' ≠ b).
        { intros ->. apply Hk. by apply kpage_obj. }
        exists b'. rewrite decide_False by done. split_and!; [by apply Hall|done|done].
      * exists b. rewrite decide_True by done. split_and!; [by apply (placed_all _ _ (slab_state hd))|done|done].
    + intros (b' & Hb' & Ho & Hn). destruct (decide (b' = b)) as [->|Hne]; [by right|]. left.
      apply Hall in Hb'; [|done]. destruct (H2 b' Hb') as (_ & _ & _ & _ & _ & Hbb & _).
      split; [apply H3; by exists b'|]. rewrite (kpage_obj b') by done. intros Hk. by apply Hne, kpage_inj.
Qed.

(** What other users of the heap do does not matter. *)
Lemma slub_frame mine F L s h h' :
  slub_ok mine F L s h → (∀ b, mine (kpage b) → slabs h' !! b = slabs h !! b) →
  (∀ b x, b ∈ all_slabs s → x ∈ F b → words h' !! x = words h !! x) → slub_ok mine F L s h'.
Proof.
  intros [H1 H2 H3 H4] Hs Hw. split; try done. intros b Hb. destruct (H2 b Hb) as (hd & E1 & E2 & [K1 K2 K3 K4 K5] & E4 & E5 & E6).
  exists hd. rewrite Hs by done. split_and!; try done. split; try done. apply (chain_ext (words h)); [|done].
  intros x Hx. by apply (Hw b).
Qed.

(** ** Running the parts *)

Lemma get_slab_run s h b hd : slabs h !! b = Some hd → get_slab b (s, h) = Fin (Ok hd) (s, h).
Proof. unfold get_slab. simpl. by intros ->. Qed.
Lemma load_run s h a v : words h !! a = Some v → load a (s, h) = Fin (Ok v) (s, h).
Proof. unfold load. simpl. by intros ->. Qed.
Lemma set_state_run s h b hd st :
  slabs h !! b = Some hd →
  set_slab_state b st (s, h) = Fin (Ok tt) (s, set_slabs <[b := mkSlab (freelist hd) (inuse hd) (total hd) st]> h).
Proof. intros E. unfold set_slab_state. by rewrite (bind_run _ _ _ _ _ (get_slab_run s h b hd E)). Qed.

Lemma unlink_perm b l : b ∈ l → l ≡ₚ b :: list_unlink b l.
Proof.
  induction l as [|x l IH]; [by intros []%elem_of_nil|]. simpl. destruct (Z.eqb_spec x b) as [->|Hne]; [done|].
  intros [->|Hb]%elem_of_cons; [done|]. rewrite (IH Hb) at 1. apply Permutation_swap.
Qed.

(** The lists after slab [b] has moved from its place [st] to [st']. *)
Definition take_out (b : Z) (st : SlabState) (s : slub) : slub :=
  match st with EMPTY => set_empty (list_unlink b) s | PARTIAL => set_partial (list_unlink b) s | FULL => set_full (list_unlink b) s end.
Definition put_in (b : Z) (st : SlabState) (s : slub) : slub :=
  match st with EMPTY => set_empty (push_back b) s | PARTIAL => set_partial (push_back b) s | FULL => set_full (push_back b) s end.

Lemma take_out_all b st s : placed s b st → all_slabs s ≡ₚ b :: all_slabs (take_out b st s).
Proof.
  unfold all_slabs. destruct st; simpl; intros Hb; rewrite (unlink_perm b _ Hb) at 1.
  - by rewrite !Permutation_middle.
  - done.
  - by rewrite Permutation_middle.
Qed.
Lemma put_in_all b st s : all_slabs (put_in b st s) ≡ₚ b :: all_slabs s.
Proof.
  unfold all_slabs, push_back. destruct st; simpl.
  - rewrite (Permutation_app_comm (empty s) [b]). simpl. by rewrite !Permutation_middle.
  - by rewrite (Permutation_app_comm (partial s) [b]).
  - rewrite (Permutation_app_comm (full s) [b]). simpl. by rewrite <- Permutation_middle.
Qed.
Lemma put_in_placed b st s : placed (put_in b st s) b st.
Proof. destruct st; simpl; unfold push_back; set_solver. Qed.
Lemma put_in_other b st s b' st' : b' ≠ b → placed (put_in b st s) b' st' ↔ placed s b' st'.
Proof. intros Hne. destruct st, st'; simpl; unfold push_back; rewrite ?elem_of_app, ?list_elem_of_singleton; tauto. Qed.
Lemma unlink_other b b' l : b ∈ l → b' ≠ b → b' ∈ list_unlink b l ↔ b' ∈ l.
Proof. intros Hb Hne. rewrite (unlink_perm b l Hb) at 2. rewrite elem_of_cons. tauto. Qed.
Lemma take_out_other b st s b' st' : placed s b st → b' ≠ b → placed (take_out b st s) b' st' ↔ placed s b' st'.
Proof. intros Hb Hne. destruct st, st'; simpl in *; rewrite ?unlink_other; done. Qed.

Lemma NoDup_put_in b st s : NoDup (all_slabs s) → b ∉ all_slabs s → NoDup (all_slabs (put_in b st s)).
Proof. intros H1 H2. rewrite put_in_all. by apply NoDup_cons. Qed.
Lemma NoDup_take_out b st s :
  NoDup (all_slabs s) → placed s b st → NoDup (all_slabs (take_out b st s)) ∧ b ∉ all_slabs (take_out b st s).
Proof. intros Hn Hp. rewrite (take_out_all b st s Hp) in Hn. apply NoDup_cons in Hn as [? ?]. done. Qed.
Lemma inuse_moved b st st' s : inuse_objects (put_in b st' (take_out b st s)) = inuse_objects s.
Proof. by destruct st, st'. Qed.

(** All three moves are the same move when the slab is not there yet. *)
Lemma move_run b st (m : M sst unit) s h hd :
  (m = to_empty b ∧ st = EMPTY) ∨ (m = to_partial b ∧ st = PARTIAL) ∨ (m = to_full b ∧ st = FULL) →
  slabs h !! b = Some hd → slab_state hd ≠ st →
  m (s, h) = Fin (Ok tt) (put_in b st (take_out b (slab_state hd) s),
    set_slabs <[b := mkSlab (freelist hd) (inuse hd) (total hd) st]> h).
Proof.
  intros Hm E Hne. destruct Hm as [[-> ->]|[[-> ->]|[-> ->]]]; unfold to_empty, to_partial, to_full;
    rewrite (bind_run _ _ _ _ _ (get_slab_run s h b hd E)); destruct (slab_state hd) eqn:Es; try done;
    (erewrite bind_run by reflexivity); by (erewrite bind_run by (by apply set_state_run)).
Qed.

(** ** A new slab *)

Lemma slab_start_eq b : slab_base b → slub_align_up (add64 b SLAB_HEADER_SIZE) obj_align = b + slab_first.
Proof.
  intros ([c Hc] & Hlo & Hhi). destruct obj_align_pow as (k & Hk & Ek). destruct (lo_page slab_layout) as [d Hd].
  assert (8 <= 2 ^ k <= 4096).
  { split; [change 8 with (2 ^ 3)|change 4096 with (2 ^ 12)]; apply Z.pow_le_mono_r; lia. }
  unfold slab_first, KPA_OFFSET, KVA_OFFSET, PAGESIZE, SLAB_HEADER_SIZE in *. rewrite Ek in *.
  unfold add64. rewrite wrap64_small by (unfold is_u64, W64; lia). rewrite (align_up_div 48), (align_up_div (b + 48)) by (unfold W64; lia).
  assert (Hb : b = c * d * 2 ^ k) by (rewrite Hc; nia).
  replace (b + 48 + 2 ^ k - 1) with ((48 + 2 ^ k - 1) + c * d * 2 ^ k) by lia. rewrite Z.div_add by lia. rewrite Z.mul_add_distr_r, <- Hb. lia.
Qed.

Lemma obj_addr b i :
  slab_base b → (i < Z.to_nat slab_total)%nat →
  objs b !! i = Some (add64 (b + slab_first) (mul64 (Z.of_nat i) obj_size)).
Proof.
  intros (_ & Hlo & Hhi) Hi. unfold objs. rewrite list_lookup_fmap, lookup_seq_lt by done. simpl. f_equal.
  destruct slab_layout. unfold KPA_OFFSET, KVA_OFFSET, SLAB_HEADER_SIZE, PAGESIZE in *. pose proof st_total.
  assert (Z.of_nat i * obj_size < 4096) by nia.
  assert (0 <= Z.of_nat i * obj_size) by nia.
  unfold add64, mul64. rewrite (wrap64_small (_ * _)) by (unfold is_u64, W64; lia).
  rewrite wrap64_small by (unfold is_u64, W64; lia). done.
Qed.

Lemma link_run b i head l s h :
  slab_base b → (i <= Z.to_nat slab_total)%nat → chain (words h) l head → (∀ x, x ∈ take i (objs b) → x ∉ l) →
  ∃ p ws, link_objects (b + slab_first) i head (s, h) = Fin (Ok p) (s, set_words (λ _, ws) h) ∧
    chain ws (take i (objs b) ++ l) p ∧ ∀ a, a ∉ take i (objs b) → ws !! a = words h !! a.
Proof.
  intros Hb. revert head l h. induction i as [|i IH]; intros head l h Hi Hc Hd.
  { exists head, (words h). by destruct h. }
  cbn [link_objects]. pose proof (obj_addr b i Hb Hi) as Eo. set (o := add64 _ _) in *.
  rewrite (take_S_r _ _ _ Eo) in Hd |- *. erewrite bind_run by reflexivity.
  assert (Ho : o ∉ take i (objs b)).
  { pose proof (objs_NoDup b) as Hn. rewrite <- (take_drop_middle _ _ _ Eo) in Hn.
    apply NoDup_app in Hn as (_ & Hn & _). intros Ho. apply (Hn o Ho). left. }
  assert (Hol : o ∉ l) by (apply Hd; set_solver).
  destruct (IH o (o :: l) (set_words <[o := head]> h)) as (p & ws & E & Hp & Hoff); [lia| | |].
  - split; [done|]. exists head. simpl. rewrite lookup_insert_eq. split; [done|]. apply (chain_ext (words h)); [|done].
    intros x Hx. rewrite lookup_insert_ne; [done|]. by intros ->.
  - intros x Hx. apply not_elem_of_cons. split; [by intros ->|]. apply Hd. set_solver.
  - exists p, ws. split; [exact E|]. rewrite <- app_assoc. split; [done|].
    intros a Ha. rewrite Hoff by set_solver. simpl. rewrite lookup_insert_ne; [done|]. intros ->. set_solver.
Qed.

Lemma new_slab_run own c s h :
  pf_inv own (S c) (frames h) →
  (∃ e g, pf_get 1 (frames h) = Fin (Err e) g ∧ pf_inv own c g ∧ new_slab (s, h) = Fin (Ok 0) (s, set_frames g h)) ∨
  (∃ b g ws fl, pf_get 1 (frames h) = Fin (Ok (b - KPA_OFFSET)) g ∧ slab_base b ∧ own (kpage b) = 0 ∧
    pf_inv (bump 1 (b - KPA_OFFSET) 1 own) c g ∧
    new_slab (s, h) = Fin (Ok b) (s, mkHeap (<[b := mkSlab fl 0 slab_total EMPTY]> (slabs h)) ws g) ∧
    chain ws (objs b) fl ∧ ∀ a, a ∉ objs b → ws !! a = words h !! a).
Proof.
  intros Hpf. destruct (pf_get_law own c (frames h) 1 Hpf) as (r & g & E & Hr); [lia|].
  assert (Eg : page_get PAGES_PER_SLAB (s, h) = Fin (Ok r) (s, set_frames g h)).
  { unfold page_get, PAGES_PER_SLAB. cbn [fst snd]. by rewrite E. }
  destruct r as [pa|e].
  2: { left. exists e, g. split; [done|]. split; [done|]. unfold new_slab. by rewrite (bind_run _ _ _ _ _ Eg). }
  right. destruct Hr as (Hpos & Hal & Hlim & Hown & Hpf').
  set (b := pa + KPA_OFFSET). assert (Epa : b - KPA_OFFSET = pa) by (unfold b; lia).
  unfold Buddy.LIMIT, KVA_OFFSET, PAGESIZE in Hlim.
  assert (Hb : slab_base b).
  { destruct Hal as [k ->]. unfold slab_base, b, KPA_OFFSET, KVA_OFFSET, PAGESIZE in *. split; [|lia].
    exists (k + 0xFFFFFFC000000). lia. }
  assert (Ek : to_kpa pa (s, set_frames g h) = Fin (Ok b) (s, set_frames g h)).
  { unfold to_kpa, convert. unfold nonnull. rewrite (proj2 (Z.eqb_neq pa 0)) by lia. simpl.
    unfold PA2KPA, add64. rewrite wrap64_small by (unfold is_u64, W64, KPA_OFFSET in *; lia).
    unfold mk_addr, within_scope. fold b. destruct Hb as (_ & Hlo & Hhi). unfold KPA_OFFSET, KVA_OFFSET, PAGESIZE in *.
    rewrite (proj2 (Z.eqb_neq b 0)) by lia. simpl. unfold KPA_OFFSET, KVA_OFFSET.
    rewrite (proj2 (Z.leb_le _ b)), (proj2 (Z.leb_le b _)) by lia. done. }
  set (h1 := set_slabs <[b := mkSlab 0 0 0 EMPTY]> (set_frames g h)).
  set (h2 := set_slabs <[b := mkSlab 0 0 slab_total EMPTY]> h1).
  destruct (link_run b (Z.to_nat slab_total) 0 [] s h2 Hb) as (p & ws & El & Hc & Hoff); [lia|done|set_solver|].
  rewrite <- (objs_length b), firstn_all in Hc, Hoff. rewrite app_nil_r in Hc.
  rewrite <- (objs_length b) in El. exists b, g, ws, p. rewrite Epa. split_and!; [done|done| |done| |done|exact Hoff].
  - apply Hown. unfold Gfp.in_pages, kpage. rewrite Epa. lia.
  - unfold new_slab. rewrite (bind_run _ _ _ _ _ Eg), (bind_run _ _ _ _ _ Ek). rewrite (bind_run (put_slab _ _) _ _ tt (s, h1)) by done.
    erewrite bind_run; [reflexivity|]. unfold init_slab_headers. rewrite slab_start_eq by done.
    erewrite bind_run by (apply get_slab_run, lookup_insert_eq). cbn [freelist slab_state].
    rewrite (bind_run (put_slab _ _) _ _ tt (s, h2)) by done. rewrite <- (objs_length b), (bind_run _ _ _ _ _ El).
    erewrite bind_run by (apply get_slab_run, lookup_insert_eq). cbn [inuse total slab_state].
    unfold put_slab, modify, set_slabs, set_words. simpl. by rewrite !insert_insert_eq.
Qed.

(** ** [alloc] *)

(** What [pick_slab] did: [b] is a slab in use with the free objects [fl]. *)
Record picked (L : gset Z) (s : slub) (h : kheap G) (s1 : slub) (h1 : kheap G) (b : Z) (hd : SlabHeader) (fl : list Z) : Prop := {
  pk_placed : placed s1 b PARTIAL;
  pk_hd : slabs h1 !! b = Some hd;
  pk_state : slab_state hd = PARTIAL;
  pk_ok : slab_ok (words h1) b hd fl;
  pk_some : fl ≠ [];
  pk_nodup : NoDup (all_slabs s1);
  pk_base : slab_base b;
  pk_other : ∀ b' st, b' ≠ b → placed s1 b' st ↔ placed s b' st;
  pk_slabs : ∀ b', b' ≠ b → slabs h1 !! b' = slabs h !! b';
  pk_words : ∀ a, a ∉ objs b → words h1 !! a = words h !! a;
  pk_count : inuse_objects s1 = inuse_objects s;
  pk_live : ∀ x, kpage x = kpage b → x ∈ L ↔ x ∈ objs b ∧ x ∉ fl
}.

Lemma live_in_slab mine F L s h b x :
  slub_ok mine F L s h → b ∈ all_slabs s → kpage x = kpage b → x ∈ L ↔ x ∈ objs b ∧ x ∉ F b.
Proof.
  intros [H1 H2 H3 H4] Hb Hk. rewrite H3. split; [|intros [? ?]; by exists b]. intros (b' & Hb' & Ho & Hn).
  destruct (H2 b Hb) as (_ & _ & _ & _ & _ & Hbb & _). destruct (H2 b' Hb') as (_ & _ & _ & _ & _ & Hbb' & _).
  rewrite (kpage_obj b') in Hk by done. by rewrite (kpage_inj b b').
Qed.

(** The header of a slab with its state changed. *)
Lemma slab_ok_state ws b hd fl st : slab_ok ws b hd fl → slab_ok ws b (mkSlab (freelist hd) (inuse hd) (total hd) st) fl.
Proof. intros []. by split. Qed.

Lemma pick_run mine F L s h own c :
  slub_ok mine F L s h → pf_inv own (S c) (frames h) → (∀ q, mine q → own q ≠ 0) →
  (∃ e g, pf_get 1 (frames h) = Fin (Err e) g ∧ pf_inv own c g ∧ pick_slab (s, h) = Fin (Ok 0) (s, set_frames g h) ∧
    partial s = [] ∧ empty s = []) ∨
  (∃ b s1 h1 hd fl, pick_slab (s, h) = Fin (Ok b) (s1, h1) ∧ picked L s h s1 h1 b hd fl ∧
    ((mine (kpage b) ∧ frames h1 = frames h ∧ words h1 = words h) ∨
     (own (kpage b) = 0 ∧ pf_inv (bump 1 (b - KPA_OFFSET) 1 own) c (frames h1)))).
Proof.
  intros Hok Hpf Hmine. unfold pick_slab. rewrite (bind_run (gets fst) _ (s, h) s (s, h) eq_refl).
  destruct (last (partial s)) as [b|] eqn:Ep; [|destruct (last (empty s)) as [b|] eqn:Ee].
  - right. assert (Hpl : placed s b PARTIAL) by (simpl; apply last_Some in Ep as [l ->]; set_solver).
    pose proof (placed_all _ _ _ Hpl) as Hb. destruct (so_slab _ _ _ _ _ Hok b Hb) as (hd & E1 & E2 & E3 & E4 & E5 & E6).
    assert (Est : slab_state hd = PARTIAL).
    { pose proof (so_nodup _ _ _ _ _ Hok) as Hn. unfold all_slabs in Hn. simpl in Hpl.
      apply NoDup_app in Hn as (_ & Hd & _). specialize (Hd b Hpl). rewrite elem_of_app in Hd. destruct (slab_state hd); simpl in E2; tauto. }
    exists b, s, h, hd, (F b). split; [done|]. split; [|by left].
    split; try done; [|apply Hok|].
    + rewrite Est in E4. simpl in E4. intros Hf. rewrite Hf in E4. simpl in E4. lia.
    + intros x Hk. by apply (live_in_slab mine F L s h).
  - right. assert (Hpl : placed s b EMPTY) by (simpl; apply last_Some in Ee as [l ->]; set_solver).
    pose proof (placed_all _ _ _ Hpl) as Hb. destruct (so_slab _ _ _ _ _ Hok b Hb) as (hd & E1 & E2 & E3 & E4 & E5 & E6).
    assert (Est : slab_state hd = EMPTY).
    { pose proof (so_nodup _ _ _ _ _ Hok) as Hn. unfold all_slabs in Hn. simpl in Hpl.
      apply last_None in Ep. rewrite Ep in Hn. simpl in Hn. apply NoDup_app in Hn as (_ & Hd & _).
      destruct (slab_state hd); simpl in E2; [done|rewrite Ep in E2; by apply elem_of_nil in E2|by destruct (Hd b E2)]. }
    rewrite Est in *. exists b, (put_in b PARTIAL (take_out b EMPTY s)), (set_slabs <[b := mkSlab (freelist hd) (inuse hd) (total hd) PARTIAL]> h),
      (mkSlab (freelist hd) (inuse hd) (total hd) PARTIAL), (F b).
    split; [|split; [|by left]].
    { erewrite bind_run; [reflexivity|]. rewrite (move_run b PARTIAL (to_partial b) s h hd); [by rewrite Est|tauto|done|by rewrite Est]. }
    destruct (NoDup_take_out b EMPTY s (so_nodup _ _ _ _ _ Hok) Hpl) as [N1 N2].
    split; try done.
    + apply (put_in_placed b PARTIAL).
    + apply lookup_insert_eq.
    + by apply slab_ok_state.
    + simpl in E4. pose proof st_total. intros Hf. rewrite Hf in E4. simpl in E4. lia.
    + by apply NoDup_put_in.
    + intros b' st' Hne. rewrite put_in_other, take_out_other by done. done.
    + intros b' Hne. simpl. by rewrite lookup_insert_ne.
    + intros x Hk. by apply (live_in_slab mine F L s h).
  - destruct (new_slab_run own c s h Hpf) as [(e & g & E & Hpf' & Er)|(b & g & ws & fl & E & Hb & Hown & Hpf' & Er & Hc & Hoff)].
    { left. exists e, g. split; [done|]. split; [done|]. rewrite (bind_run _ _ _ _ _ Er). by apply last_None in Ep, Ee. }
    right. pose proof st_total as Ht.
    assert (Hnew : b ∉ all_slabs s).
    { intros Hin. destruct (so_slab _ _ _ _ _ Hok b Hin) as (_ & _ & _ & _ & _ & _ & Hm). by apply (Hmine _ Hm). }
    set (hd := mkSlab fl 0 slab_total PARTIAL).
    exists b, (put_in b PARTIAL s), (mkHeap (<[b := hd]> (slabs h)) ws g), hd, (objs b).
    split; [|split; [|by right]].
    { rewrite (bind_run _ _ _ _ _ Er). destruct Hb as (_ & Hlo & _). unfold KPA_OFFSET in *. rewrite (proj2 (Z.eqb_neq b 0)) by lia.
      erewrite bind_run by (apply set_state_run, lookup_insert_eq). erewrite bind_run by reflexivity.
      unfold set_slabs. simpl. by rewrite insert_insert_eq. }
    split; try done.
    + apply (put_in_placed b PARTIAL).
    + apply lookup_insert_eq.
    + split; try done; [apply objs_NoDup|]. rewrite objs_length. simpl. lia.
    + intros Hf. apply (f_equal length) in Hf. rewrite objs_length in Hf. simpl in Hf. lia.
    + apply NoDup_put_in; [apply Hok|done].
    + intros b' st' Hne. by apply put_in_other.
    + intros b' Hne. simpl. by rewrite lookup_insert_ne.
    + intros x Hk. split; [|tauto]. intros Hx. apply (so_live _ _ _ _ _ Hok) in Hx as (b' & Hb' & Ho & _).
      destruct (so_slab _ _ _ _ _ Hok b' Hb') as (_ & _ & _ & _ & _ & Hbb' & Hm).
      rewrite (kpage_obj b') in Hk by done. rewrite Hk in Hm. by destruct (Hmine _ Hm).
Qed.

Lemma wrap64_succ n : add64 (wrap64 n) 1 = wrap64 (n + 1).
Proof. unfold add64, wrap64. by rewrite Zplus_mod_idemp_l. Qed.
Lemma wrap64_pred n : sub64 (wrap64 n) 1 = wrap64 (n - 1).
Proof. unfold sub64, wrap64. by rewrite Zminus_mod_idemp_l. Qed.

Lemma slab_total_small : slab_total < 4096.
Proof.
  pose proof (lo_last slab_layout). pose proof (lo_size slab_layout). pose proof (lo_first slab_layout). pose proof st_total.
  unfold SLAB_HEADER_SIZE, PAGESIZE in *. nia.
Qed.
Lemma free_room b x fl : NoDup (x :: fl) → (∀ y, y ∈ x :: fl → y ∈ objs b) → Z.of_nat (length fl) < slab_total.
Proof.
  intros Hn Ho. pose proof (submseteq_length (x :: fl) (objs b)) as Hs. rewrite length_cons, objs_length in Hs.
  pose proof st_total. assert (S (length fl) ≤ Z.to_nat slab_total)%nat; [|lia]. apply Hs. by apply NoDup_submseteq.
Qed.

(** The rest of [alloc], for a picked slab. *)
Lemma alloc_from mine mine' F L s h s1 h1 b hd x fl :
  slub_ok mine F L s h → picked L s h s1 h1 b hd (x :: fl) → (∀ q, mine q → mine' q) → mine' (kpage b) →
  ∃ s2 h2, (h ← get_slab b; _ ← massert (negb (freelist h =? 0)); next ← load (freelist h);
      _ ← put_slab b (mkSlab next (add64 (inuse h) 1) (total h) (slab_state h));
      _ ← on_slub (set_inuse_objects (λ n, add64 n 1));
      _ ← (if add64 (inuse h) 1 =? total h then to_full b else mret tt); mret (freelist h)) (s1, h1) = Fin (Ok x) (s2, h2) ∧
    slub_ok mine' (λ b', if decide (b' = b) then fl else F b') ({[x]} ∪ L) s2 h2 ∧
    words h2 = words h1 ∧ frames h2 = frames h1 ∧ ∀ b', b' ≠ b → slabs h2 !! b' = slabs h1 !! b'.
Proof.
  intros Hok [P1 P2 P3 [K1 K2 K3 K4 K5] _ P6 P7 P8 P9 P10 P11 P12] Hm1 Hm2.
  destruct K1 as (Ef & next & En & Hc). apply NoDup_cons in K2 as [Kx K2]. rewrite length_cons in K5.
  assert (Hxo : x ∈ objs b) by (apply K3; left). pose proof (obj_nonnull b x P7 Hxo) as Hx0. pose proof (kpage_obj b x P7 Hxo) as Hxk.
  assert (Hxl : x ∉ L) by (rewrite P12 by done; intros [_ Hn]; apply Hn; left).
  assert (Hlen : Z.of_nat (length fl) < slab_total).
  { apply (free_room b x); [by apply NoDup_cons|done]. }
  pose proof slab_total_small as Htot. pose proof st_total.
  assert (Ein : add64 (inuse hd) 1 = slab_total - Z.of_nat (length fl)).
  { unfold add64. rewrite wrap64_small; [lia|]. unfold is_u64, W64. lia. }
  set (hd1 := mkSlab next (add64 (inuse hd) 1) (total hd) PARTIAL).
  set (s3 := set_inuse_objects (λ n, add64 n 1) s1).
  assert (Hp3 : ∀ b' st, placed s3 b' st ↔ placed s1 b' st) by (intros b' []; done).
  assert (Hcount : inuse_objects s3 = wrap64 (Z.of_nat (size ({[x]} ∪ L)))).
  { simpl. rewrite P11, (so_count _ _ _ _ _ Hok), wrap64_succ. f_equal. rewrite size_union by set_solver. rewrite size_singleton. lia. }
  assert (HL : ∀ y, y ∈ ({[x]} ∪ L : gset Z) ↔ (y ∈ L ∧ kpage y ≠ kpage b) ∨ (y ∈ objs b ∧ y ∉ fl)).
  { intros y. rewrite elem_of_union, elem_of_singleton. destruct (decide (kpage y = kpage b)) as [Hy|Hy].
    - rewrite (P12 y Hy), not_elem_of_cons. destruct (decide (y = x)) as [->|Hne]; tauto.
    - assert (y ≠ x) by (intros ->; done). assert (y ∉ objs b) by (intros Ho; by apply Hy, kpage_obj). tauto. }
  assert (Hwords : ∀ a, kpage a ≠ kpage b → words h1 !! a = words h !! a).
  { intros a Ha. apply P10. intros Ho. by apply Ha, kpage_obj. }
  assert (Hall3 : all_slabs s3 = all_slabs s1) by done.
  assert (Estart : ∀ (k : M sst Z), (h ← get_slab b; _ ← massert (negb (freelist h =? 0)); next ← load (freelist h);
      _ ← put_slab b (mkSlab next (add64 (inuse h) 1) (total h) (slab_state h));
      _ ← on_slub (set_inuse_objects (λ n, add64 n 1));
      _ ← (if add64 (inuse h) 1 =? total h then to_full b else mret tt); mret (freelist h)) (s1, h1) =
    ((_ ← (if add64 (inuse hd) 1 =? total hd then to_full b else mret tt); mret x) (s3, set_slabs <[b := hd1]> h1))).
  { intros _. erewrite bind_run by (by apply get_slab_run). rewrite Ef, (proj2 (Z.eqb_neq x 0)) by lia.
    rewrite (bind_run (massert _) _ _ tt (s1, h1)) by done. erewrite bind_run by (apply load_run; exact En).
    rewrite P3. erewrite bind_run by reflexivity. by erewrite bind_run by reflexivity. }
  rewrite (Estart (mret 0)). clear Estart. rewrite Ein, K4.
  destruct (Z.eqb_spec (slab_total - Z.of_nat (length fl)) slab_total) as [Efull|Enot].
  - assert (fl = []) as -> by (destruct fl; [done|simpl in Efull; lia]).
    erewrite bind_run by (apply (move_run b FULL); [tauto|apply lookup_insert_eq|done]). cbn [slab_state hd1].
    eexists _, _. split; [reflexivity|]. split; [|split; [done|split; [done|]]].
    2: { intros b' Hne. simpl. by rewrite !lookup_insert_ne. }
    destruct (NoDup_take_out b PARTIAL s3) as [N1 N2]; [by rewrite Hall3|by apply Hp3|].
    apply (slub_rebuild mine F L s h mine' _ _ _ b (mkSlab next (add64 (inuse hd) 1) (total hd) FULL)); try done.
    + by apply NoDup_put_in.
    + intros b' st Hne. rewrite (put_in_other b FULL), (take_out_other b PARTIAL), Hp3 by (done || by apply Hp3). by apply P8.
    + intros b' Hne. simpl. rewrite !lookup_insert_ne by done. by apply P9.
    + apply lookup_insert_eq.
    + apply (put_in_placed b FULL).
    + split; try done. by intros ? []%elem_of_nil.
  - eexists _, _. split; [reflexivity|]. split; [|split; [done|split; [done|]]].
    2: { intros b' Hne. simpl. by rewrite lookup_insert_ne. }
    apply (slub_rebuild mine F L s h mine' _ _ _ b hd1); try done.
    + intros b' Hne. simpl. rewrite lookup_insert_ne by done. by apply P9.
    + apply lookup_insert_eq.
    + split; try done. intros y Hy. apply K3. by right.
    + simpl. lia.
Qed.

(** How the pages of the allocator and of the machine grow with an allocation from
    slab [b]. *)
Definition page_grows (mine : Z → Prop) (own : Z → Z) (b : Z) (h h' : kheap G) (mine' : Z → Prop) (own' : Z → Z) : Prop :=
  (mine (kpage b) ∧ mine' = mine ∧ own' = own ∧ words h' = words h) ∨
  (own (kpage b) = 0 ∧ mine' = (λ q, mine q ∨ q = kpage b) ∧ own' = bump 1 (b - KPA_OFFSET) 1 own ∧
   ∀ a, a ∉ objs b → words h' !! a = words h !! a).

Lemma alloc_spec mine F L s h own c :
  slub_ok mine F L s h → pf_inv own (S c) (frames h) → (∀ q, mine q → own q ≠ 0) →
  ∃ p s' h', alloc (s, h) = Fin (Ok p) (s', h') ∧
    ((p = 0 ∧ (∃ e, pf_get 1 (frames h) = Fin (Err e) (frames h')) ∧ pf_inv own c (frames h') ∧
      s' = s ∧ slabs h' = slabs h ∧ words h' = words h ∧ partial s = [] ∧ empty s = []) ∨
     (∃ F' b mine' own', p ∈ objs b ∧ slab_base b ∧ (p ∉ L) ∧ page_grows mine own b h h' mine' own' ∧
       slub_ok mine' F' ({[p]} ∪ L) s' h' ∧ pf_inv own' c (frames h') ∧
       ∀ b', b' ≠ b → slabs h' !! b' = slabs h !! b')).
Proof.
  intros Hok Hpf Hmine. unfold alloc.
  destruct (pick_run mine F L s h own c Hok Hpf Hmine) as [(e & g & E & Hg & Er & Hp1 & Hp2)|(b & s1 & h1 & hd & fl & Er & Hpk & Hpg)].
  { exists 0, s, (set_frames g h). rewrite (bind_run _ _ _ _ _ Er). split; [done|]. left. split_and!; try done. by exists e. }
  rewrite (bind_run _ _ _ _ _ Er). pose proof (pk_base _ _ _ _ _ _ _ _ Hpk) as Hb.
  rewrite (proj2 (Z.eqb_neq b 0)) by (destruct Hb as (_ & Hlo & _); unfold KPA_OFFSET in Hlo; lia).
  pose proof (pk_ok _ _ _ _ _ _ _ _ Hpk) as Hslab.
  destruct fl as [|x fl]; [by destruct (pk_some _ _ _ _ _ _ _ _ Hpk)|].
  assert (Hxo : x ∈ objs b) by (apply (sk_objs _ _ _ _ Hslab); left).
  assert (Hxl : x ∉ L).
  { rewrite (pk_live _ _ _ _ _ _ _ _ Hpk) by by apply kpage_obj. intros [_ Hn]. apply Hn. left. }
  assert (Hcase : ∃ mine' own', page_grows mine own b h h1 mine' own' ∧ (∀ q, mine q → mine' q) ∧ mine' (kpage b) ∧
    pf_inv own' c (frames h1)).
  { destruct Hpg as [(Hm & Hf & Hw)|(Ho & Hf)].
    - exists mine, own. split; [by left|]. split_and!; try done. rewrite Hf. by apply pf_less.
    - exists (λ q, mine q ∨ q = kpage b), (bump 1 (b - KPA_OFFSET) 1 own). split; [right; split_and!; try done; apply Hpk|].
      split_and!; [by left|by right|done]. }
  destruct Hcase as (mine' & own' & Hpg' & Hm1 & Hm2 & Hf).
  destruct (alloc_from mine mine' F L s h s1 h1 b hd x fl Hok Hpk Hm1 Hm2) as (s2 & h2 & E & Hok2 & Hw & Hfr & Hsl).
  exists x, s2, h2. split; [exact E|]. right. eexists _, b, mine', own'.
  split_and!; [done|done|done| |exact Hok2|by rewrite Hfr|].
  - unfold page_grows in *. rewrite Hw. done.
  - intros b' Hne. rewrite Hsl by done. by apply Hpk.
Qed.

(** ** [free] *)

Lemma free_spec mine F L s h p :
  slub_ok mine F L s h → p ∈ L →
  ∃ F' s' h', free p (s, h) = Fin (Ok tt) (s', h') ∧ slub_ok mine F' (L ∖ {[p]}) s' h' ∧ frames h' = frames h ∧
    (∀ a, a ≠ p → words h' !! a = words h !! a) ∧ (∀ b, kpage b ≠ kpage p → slabs h' !! b = slabs h !! b).
Proof.
  intros Hok Hp. destruct (proj1 (so_live _ _ _ _ _ Hok p) Hp) as (b & Hb & Ho & Hn).
  destruct (so_slab _ _ _ _ _ Hok b Hb) as (hd & E1 & E2 & [K1 K2 K3 K4 K5] & E4 & E5 & E6).
  pose proof (obj_nonnull b p E5 Ho) as Hp0. pose proof (kpage_obj b p E5 Ho) as Hpk. pose proof (slab_of_obj b p E5 Ho) as Eb.
  pose proof slab_total_small as Htot. pose proof st_total as Ht.
  assert (Hnd : NoDup (p :: F b)) by by apply NoDup_cons.
  assert (Hob : ∀ y, y ∈ p :: F b → y ∈ objs b) by (intros y [->|Hy]%elem_of_cons; auto).
  pose proof (free_room b p (F b) Hnd Hob) as Hroom.
  assert (Ein : sub64 (inuse hd) 1 = slab_total - Z.of_nat (length (F b)) - 1).
  { unfold sub64. rewrite wrap64_small; [lia|]. unfold is_u64, W64. lia. }
  assert (Etm : sub64 (total hd) 1 = slab_total - 1).
  { unfold sub64. rewrite K4, wrap64_small; [lia|]. unfold is_u64, W64. lia. }
  set (hd1 := mkSlab p (slab_total - Z.of_nat (length (F b)) - 1) slab_total (slab_state hd)).
  set (h1 := mkHeap (<[b := hd1]> (slabs h)) (<[p := freelist hd]> (words h)) (frames h)).
  set (s1 := set_inuse_objects (λ n, sub64 n 1) s).
  assert (Hcount : inuse_objects s1 = wrap64 (Z.of_nat (size (L ∖ {[p]})))).
  { simpl. rewrite (so_count _ _ _ _ _ Hok), wrap64_pred. f_equal. rewrite size_difference by set_solver. rewrite size_singleton.
    assert (size L ≠ 0%nat) by (intros Hz%size_empty_inv; set_solver). lia. }
  assert (HL : ∀ y, y ∈ L ∖ {[p]} ↔ (y ∈ L ∧ kpage y ≠ kpage b) ∨ (y ∈ objs b ∧ y ∉ p :: F b)).
  { intros y. rewrite elem_of_difference, elem_of_singleton, not_elem_of_cons. destruct (decide (kpage y = kpage b)) as [Hy|Hy].
    - rewrite (live_in_slab _ _ _ _ _ b y Hok Hb Hy). tauto.
    - assert (y ≠ p) by (intros ->; done). assert (y ∉ objs b) by (intros Hyo; by apply Hy, kpage_obj). tauto. }
  assert (Hwords : ∀ a, kpage a ≠ kpage b → words h1 !! a = words h !! a).
  { intros a Ha. simpl. rewrite lookup_insert_ne; [done|]. by intros <-. }
  assert (Hsk : ∀ st, slab_ok (words h1) b (mkSlab p (slab_total - Z.of_nat (length (F b)) - 1) slab_total st) (p :: F b)).
  { intros st. split; simpl; try done; [|lia]. split; [done|]. exists (freelist hd). rewrite lookup_insert_eq. split; [done|].
    apply (chain_ext (words h)); [|done]. intros y Hy. rewrite lookup_insert_ne; [done|]. by intros <-. }
  assert (Hslab : ∀ hd2 b', b' ≠ b → slabs (set_slabs <[b := hd2]> h1) !! b' = slabs h !! b').
  { intros hd2 b' Hne. simpl. by rewrite !lookup_insert_ne. }
  assert (Hmove : ∀ st, slab_state hd ≠ st → shape st (p :: F b) → 
    slub_ok mine (λ b', if decide (b' = b) then p :: F b else F b') (L ∖ {[p]}) (put_in b st (take_out b (slab_state hd) s1))
      (set_slabs <[b := mkSlab p (slab_total - Z.of_nat (length (F b)) - 1) slab_total st]> h1)).
  { intros st Hst Hsh. assert (Hp1 : placed s1 b (slab_state hd)) by (by destruct (slab_state hd)).
    destruct (NoDup_take_out b (slab_state hd) s1 (so_nodup _ _ _ _ _ Hok) Hp1) as [N1 N2].
    apply (slub_rebuild mine F L s h mine _ _ _ b (mkSlab p (slab_total - Z.of_nat (length (F b)) - 1) slab_total st) (p :: F b) Hok); try done.
    - by apply NoDup_put_in.
    - intros b' st' Hne. rewrite put_in_other, take_out_other by done. by destruct st'.
    - intros b' Hne. by apply Hslab.
    - apply lookup_insert_eq.
    - apply put_in_placed.
    - by rewrite inuse_moved. }
  assert (Estart : free p (s, h) = (if sub64 (inuse hd) 1 =? 0 then to_empty b
    else if sub64 (inuse hd) 1 =? sub64 (total hd) 1 then to_partial b else mret tt) (s1, h1)).
  { unfold free, inner_free. rewrite (proj2 (Z.eqb_neq p 0)), Eb by lia. erewrite bind_run by (by apply get_slab_run).
    erewrite bind_run by reflexivity. erewrite bind_run by reflexivity. erewrite bind_run by reflexivity.
    unfold h1, hd1. by rewrite Ein, K4. }
  rewrite Estart, Ein, Etm. exists (λ b', if decide (b' = b) then p :: F b else F b').
  assert (Hoff : ∀ a, a ≠ p → words h1 !! a = words h !! a) by (intros a Ha; simpl; by rewrite lookup_insert_ne).
  assert (Hsoff : ∀ hd2 b', kpage b' ≠ kpage p → slabs (set_slabs <[b := hd2]> h1) !! b' = slabs h !! b').
  { intros hd2 b' Hne. apply Hslab. intros ->. by apply Hne. }
  destruct (Z.eqb_spec (slab_total - Z.of_nat (length (F b)) - 1) 0) as [Ez|Ez].
  { assert (Hst : slab_state hd ≠ EMPTY) by (intros Est; rewrite Est in E4; simpl in E4; lia).
    eexists _, _. split; [apply (move_run b EMPTY _ s1 h1 hd1); [tauto|apply lookup_insert_eq|done]|].
    split; [apply Hmove; [done|simpl; lia]|]. split_and!; [done|exact Hoff|apply Hsoff]. }
  destruct (Z.eqb_spec (slab_total - Z.of_nat (length (F b)) - 1) (slab_total - 1)) as [Et|Et].
  { assert (Hst : slab_state hd ≠ PARTIAL) by (intros Est; rewrite Est in E4; simpl in E4; lia).
    eexists _, _. split; [apply (move_run b PARTIAL _ s1 h1 hd1); [tauto|apply lookup_insert_eq|done]|].
    split; [apply Hmove; [done|simpl; lia]|]. split_and!; [done|exact Hoff|apply Hsoff]. }
  assert (Est : slab_state hd = PARTIAL).
  { destruct (slab_state hd); [simpl in E4; lia|done|]. simpl in E4. rewrite E4 in Et. simpl in Et. lia. }
  exists s1, h1. split; [done|]. split; [|split_and!; try done].
  2: { intros b' Hne. simpl. rewrite lookup_insert_ne; [done|]. intros <-. by apply Hne. }
  apply (slub_rebuild mine F L s h mine _ s1 h1 b hd1 (p :: F b) Hok); try done.
  - apply Hok.
  - intros b' Hne. simpl. by rewrite lookup_insert_ne.
  - apply lookup_insert_eq.
  - apply Hsk.
  - simpl. rewrite Est. simpl. lia.
Qed.

(** ** All operations *)

Definition apart (x y : Z) : Prop := x + obj_size <= y ∨ y + obj_size <= x.
(** [a] lies in object [x]. *)
Definition inside (x a : Z) : Prop := x <= a < x + obj_size.

Lemma live_slab mine F L s h x : slub_ok mine F L s h → x ∈ L → ∃ b, b ∈ all_slabs s ∧ slab_base b ∧ mine (kpage b) ∧ x ∈ objs b ∧ x ∉ F b.
Proof.
  intros Hok Hx. destruct (proj1 (so_live _ _ _ _ _ Hok x) Hx) as (b & Hb & Ho & Hn).
  destruct (so_slab _ _ _ _ _ Hok b Hb) as (_ & _ & _ & _ & _ & ? & ?). by exists b.
Qed.
Lemma inside_page b x a : slab_base b → x ∈ objs b → inside x a → kpage a = kpage b.
Proof. intros Hb Hx%objs_bounds Ha. apply kpage_in; [done|]. unfold inside, SLAB_HEADER_SIZE in *. lia. Qed.
Lemma live_apart mine F L s h x y : slub_ok mine F L s h → x ∈ L → y ∈ L → x ≠ y → apart x y.
Proof.
  intros Hok Hx Hy Hne. destruct (live_slab _ _ _ _ _ _ Hok Hx) as (b & _ & Hb & _ & Hxb & _).
  destruct (live_slab _ _ _ _ _ _ Hok Hy) as (b' & _ & Hb' & _ & Hyb & _).
  destruct (decide (b = b')) as [->|Hbb]; [by apply (objs_apart b')|].
  apply objs_bounds in Hxb, Hyb. destruct Hb as ([k ->] & _), Hb' as ([k' ->] & _).
  unfold apart, SLAB_HEADER_SIZE, PAGESIZE in *. assert (k < k' ∨ k' < k) by lia. lia.
Qed.
(** A word of an object in use is not a link. *)
Lemma inside_not_free mine F L s h x a b y :
  slub_ok mine F L s h → x ∈ L → inside x a → b ∈ all_slabs s → y ∈ F b → a ≠ y.
Proof.
  intros Hok Hx Ha Hb Hy ->. destruct (so_slab _ _ _ _ _ Hok b Hb) as (_ & _ & _ & [_ _ K3 _ _] & _ & Hbb & _).
  specialize (K3 y Hy). destruct (live_slab _ _ _ _ _ _ Hok Hx) as (b' & _ & Hb' & _ & Hxb & Hxf).
  pose proof (inside_page _ _ _ Hb' Hxb Ha) as Hk. rewrite (kpage_obj b y Hbb K3) in Hk.
  apply kpage_inj in Hk as <-; [|done|done]. destruct (decide (x = y)) as [->|Hne]; [done|].
  destruct (objs_apart _ _ _ Hxb K3 Hne) as [?|?]; unfold inside in Ha; pose proof (lo_size slab_layout); lia.
Qed.

Lemma in_page_iff b q : slab_base b → Gfp.in_pages q (b - KPA_OFFSET) 1 ↔ q = kpage b.
Proof. intros _. unfold Gfp.in_pages, kpage. lia. Qed.
Lemma page_grows_own mine own b h h' mine' own' :
  slab_base b → page_grows mine own b h h' mine' own' → (∀ q, mine q → own q ≠ 0) → ∀ q, mine' q → own' q ≠ 0.
Proof.
  intros Hb [(_ & -> & -> & _)|(Ho & -> & -> & _)] Hm q; [apply Hm|]. unfold bump.
  case_bool_decide as Hq; rewrite in_page_iff in Hq by done; [subst q; lia|]. intros [?| ->]; [by apply Hm|done].
Qed.

Inductive slub_op := SAlloc | SFree (p : Z) | SWrite (a v : Z).
(** A user writes a word of memory. *)
Definition run_slub_op (op : slub_op) : M sst Z :=
  match op with
  | SAlloc => alloc
  | SFree p => _ ← free p; mret 0
  | SWrite a v => _ ← store_word a v; mret 0
  end.
(** Users free and write what they have. *)
Definition slub_op_ok (L : gset Z) (op : slub_op) : Prop :=
  match op with SAlloc => True | SFree p => p ∈ L | SWrite a _ => ∃ x, x ∈ L ∧ inside x a end.
(** The objects in use after [op] with result [r]. *)
Definition live_after (L : gset Z) (op : slub_op) (r : Z) : gset Z :=
  match op with
  | SAlloc => if bool_decide (r = 0) then L else {[r]} ∪ L
  | SFree p => L ∖ {[p]}
  | SWrite _ _ => L
  end.
Definition word_after (ws : gmap Z Z) (op : slub_op) (a : Z) : option Z :=
  match op with SWrite a' v => if bool_decide (a = a') then Some v else ws !! a | _ => ws !! a end.

Lemma op_alloc mine F L s h own c :
  slub_ok mine F L s h → pf_inv own (S c) (frames h) → (∀ q, mine q → own q ≠ 0) →
  ∃ r s' h' mine' F' own', alloc (s, h) = Fin (Ok r) (s', h') ∧ slub_ok mine' F' (live_after L SAlloc r) s' h' ∧
    pf_inv own' c (frames h') ∧ (∀ q, mine' q → own' q ≠ 0) ∧
    (if bool_decide (r = 0) then ∃ e, pf_get 1 (frames h) = Fin (Err e) (frames h')
     else (r ∉ L) ∧ (raw_obj_align | r) ∧ 0 < r) ∧
    ∀ x a, x ∈ L → inside x a → words h' !! a = words h !! a.
Proof.
  intros Hok Hpf Hm. destruct (alloc_spec mine F L s h own c Hok Hpf Hm)
    as (p & s' & h' & E & [(-> & Hr & Hpf' & -> & Hs & Hw & _)|(F' & b & mine' & own' & Ho & Hb & Hn & Hg & Hok' & Hpf' & Hs)]).
  - exists 0, s, h', mine, F, own. simpl. split_and!; try done; [|intros; by rewrite Hw].
    apply (slub_frame _ _ _ _ h _ Hok); intros; by rewrite ?Hs, ?Hw.
  - pose proof (obj_nonnull b p Hb Ho) as Hp. exists p, s', h', mine', F', own'.
    assert (Hz : bool_decide (p = 0) = false) by (apply bool_decide_eq_false_2; lia). cbn [live_after]. rewrite Hz. split_and!; try done.
    + by apply (page_grows_own mine own b h h').
    + etrans; [exact (lo_raw slab_layout)|]. apply elem_objs in Ho as (i & _ & ->). destruct Hb as (Hbp & _).
      apply Z.divide_add_r; [apply Z.divide_add_r; [|apply slab_layout]|].
      * etrans; [exact (lo_page slab_layout)|done].
      * apply Z.divide_mul_r, slab_layout.
    + intros x a Hx Ha. destruct Hg as [(_ & _ & _ & Hw)|(Hown & _ & _ & Hw)]; [by rewrite Hw|]. apply Hw. intros Hao.
      destruct (live_slab _ _ _ _ _ _ Hok Hx) as (b' & _ & Hb' & Hmb & Hxb & _).
      pose proof (inside_page _ _ _ Hb' Hxb Ha) as Hk. rewrite (kpage_obj b a Hb Hao) in Hk. rewrite Hk in Hown. by apply (Hm _ Hmb).
Qed.

(** C4: the slab allocator hands out distinct objects and keeps its hands off them.
    Whatever its users do with their objects (the links of the allocator lie in the
    free ones): allocating returns an aligned object that was not in use, or null when
    there is no page for a new slab; freeing makes exactly one object free; the objects
    in use never overlap each other or a slab header; and no word of an object in use
    changes unless its user writes it. *)
Theorem slub_objects_safe mine F L s h own c op :
  slub_ok mine F L s h → pf_inv own (S c) (frames h) → (∀ q, mine q → own q ≠ 0) → slub_op_ok L op →
  ∃ r s' h' mine' F' own', run_slub_op op (s, h) = Fin (Ok r) (s', h') ∧
    slub_ok mine' F' (live_after L op r) s' h' ∧ pf_inv own' c (frames h') ∧ (∀ q, mine' q → own' q ≠ 0) ∧
    (op = SAlloc → if bool_decide (r = 0) then ∃ e, pf_get 1 (frames h) = Fin (Err e) (frames h')
                   else (r ∉ L) ∧ (raw_obj_align | r) ∧ 0 < r) ∧
    (∀ x y, x ∈ live_after L op r → y ∈ live_after L op r → x ≠ y → apart x y) ∧
    (∀ x, x ∈ live_after L op r → slab_of x + SLAB_HEADER_SIZE <= x ∧ x + raw_obj_size <= slab_of x + PAGESIZE) ∧
    (∀ x a, x ∈ L → x ∈ live_after L op r → inside x a → words h' !! a = word_after (words h) op a).
Proof.
  intros Hok Hpf Hm Hop.
  assert (Hmain : ∃ r s' h' mine' F' own', run_slub_op op (s, h) = Fin (Ok r) (s', h') ∧
    slub_ok mine' F' (live_after L op r) s' h' ∧ pf_inv own' c (frames h') ∧ (∀ q, mine' q → own' q ≠ 0) ∧
    (op = SAlloc → if bool_decide (r = 0) then ∃ e, pf_get 1 (frames h) = Fin (Err e) (frames h')
                   else (r ∉ L) ∧ (raw_obj_align | r) ∧ 0 < r) ∧
    (∀ x a, x ∈ L → x ∈ live_after L op r → inside x a → words h' !! a = word_after (words h) op a)).
  { destruct op as [|p|a v]; simpl in Hop.
    - destruct (op_alloc _ _ _ _ _ _ _ Hok Hpf Hm) as (r & s' & h' & mine' & F' & own' & E & H1 & H2 & H3 & H4 & H5).
      exists r, s', h', mine', F', own'. split_and!; try done. intros x a Hx _. by apply H5.
    - destruct (free_spec _ _ _ _ _ p Hok Hop) as (F' & s' & h' & E & H1 & H2 & H3 & H4).
      exists 0, s', h', mine, F', own. cbn [run_slub_op]. rewrite (bind_run _ _ _ _ _ E). split_and!; try done.
      + rewrite H2. by apply pf_less.
      + intros x a Hx Hx' Ha. apply H3. intros ->. simpl in Hx'. assert (Hne : x ≠ p) by set_solver.
        destruct (live_apart _ _ _ _ _ _ _ Hok Hx Hop Hne); unfold inside in Ha; pose proof (lo_size slab_layout); lia.
    - destruct Hop as (x & Hx & Ha). exists 0, s, (set_words <[a := v]> h), mine, F, own. split_and!; try done.
      + apply (slub_frame _ _ _ _ h _ Hok); [done|]. intros b y Hb Hy. simpl.
        rewrite lookup_insert_ne; [done|]. by apply (inside_not_free _ _ _ _ _ x _ b _ Hok).
      + by apply pf_less.
      + intros y a' _ _ _. simpl. case_bool_decide as E; [subst; apply lookup_insert_eq|by apply lookup_insert_ne]. }
  destruct Hmain as (r & s' & h' & mine' & F' & own' & H1 & H2 & H3 & H4 & H5 & H6).
  exists r, s', h', mine', F', own'. split_and!; try done.
  - intros x y. by apply (live_apart _ _ _ _ _ _ _ H2).
  - intros x Hx. destruct (live_slab _ _ _ _ _ _ H2 Hx) as (b & _ & Hb & _ & Hxb & _).
    rewrite (slab_of_obj b x Hb Hxb). apply objs_bounds in Hxb. pose proof (lo_fits slab_layout). lia.
Qed.
End slub.
End Slub.

Module SlubWitness.
Import Slub Gfp MemFrames.

Definition ex_frames : gfp linear := mkGfp (mkLinear 0x80000000 0x80100000) ∅ 0.
Lemma ex_frames_inv c : pf_inv (λ _, 0) c ex_frames.
Proof.
  split; [|split; [|split]].
  - split; [|split].
    + simpl. split; [by exists 0x80000|]. done.
    + intros q. change (0 <= default 0 ((∅ : gmap Z Z) !! q)). by rewrite lookup_empty.
    + intros q. unfold ref. simpl. rewrite lookup_empty. simpl. lia.
  - simpl. done.
  - intros q. unfold ref. simpl. by rewrite lookup_empty.
  - intros q. lia.
Qed.

Definition no_slabs : slub := mkSlub [] [] [] 0.
Definition ex_heap : kheap (gfp linear) := mkHeap ∅ ∅ ex_frames.
Lemma no_slabs_ok sz al : slub_ok sz al (λ _, False) (λ _, []) ∅ no_slabs ex_heap.
Proof.
  split; [constructor|by intros b []%elem_of_nil| |done]. intros x. split; [set_solver|]. by intros (b & []%elem_of_nil & _).
Qed.
#[local] Instance ex_type : slab_type 24 8.
Proof. split; [done|exists 3; split; [lia|done]|reflexivity]. Qed.

(** The first object of 24 bytes lies behind the header of its slab. *)
Lemma ex_alloc : match alloc 24 8 (no_slabs, ex_heap) with Fin (Ok p) _ => p | _ => 0 end = 0xFFFFFFC080000030.
Proof. vm_compute. reflexivity. Qed.

Lemma slub_objects_safe_witness :
  ∃ s h (L : gset Z), run_slub_op 24 8 SAlloc (no_slabs, ex_heap) = Fin (Ok 0xFFFFFFC080000030) (s, h) ∧
    0xFFFFFFC080000030 ∈ L ∧ ∃ r s' h', run_slub_op 24 8 (SFree 0xFFFFFFC080000030) (s, h) = Fin (Ok r) (s', h').
Proof.
  destruct (slub_objects_safe 24 8 (λ _, False) (λ _, []) ∅ no_slabs ex_heap (λ _, 0) 1 SAlloc)
    as (r & s & h & m & F & own & E & Hok & Hpf & Hm & _);
    [apply no_slabs_ok|apply ex_frames_inv|done|done|].
  pose proof ex_alloc as Er. cbn [run_slub_op] in E. rewrite E in Er. subst r.
  exists s, h, (live_after ∅ SAlloc 0xFFFFFFC080000030). split; [exact E|]. split; [set_solver|].
  destruct (slub_objects_safe 24 8 m F _ s h own 0 (SFree 0xFFFFFFC080000030) Hok Hpf Hm) as (r & s' & h' & _ & _ & _ & E' & _);
    [simpl; set_solver|]. by exists r, s', h'.
Defined.
End SlubWitness.
