(* ===== verification/Malloc.v ===== *)
(** * The kernel heap

    [SlubMalloc] of kernel/mem/slub.h and slub.cpp: blocks of arbitrary size from slab
    allocators of the powers of two and from whole pages, with a record of every block.
    Also [LinearGrowAllocator] of kernel/mem/alloc.cpp, the heap of the boot phase.

    The slab allocators are a function from their names ([pool]); they share one heap
    of slabs and memory. *)
From S2P Require Import Prelude ErrCode Addr Buddy Gfp Memory MemFrames Sched Slub.
Import Memory Slub.

Module Malloc.

Definition KMAX : Z := 2048.
Definition KMIN : Z := 8.

Record AllocRecord := mkRecord { ar_ptr : Z; ar_size : Z }.
(** [sizeof(AllocRecord)]: the pointer, the size and two links. *)
Definition ALLOC_RECORD_SIZE : Z := 32.

(** [_slub8] to [_slub2048] and [_alloc_record_slub]. *)
Inductive pool := PClass (sz : Z) | PRecord.
#[export] Instance pool_eq_dec : EqDecision pool.
Proof. solve_decision. Defined.
Definition pool_size (o : pool) : Z := match o with PClass sz => sz | PRecord => ALLOC_RECORD_SIZE end.
Definition pool_align (o : pool) : Z := match o with PClass _ => 1 | PRecord => 8 end.

Definition contains_small_size (sz : Z) : bool :=
  bool_decide (sz ∈ [8; 16; 32; 64; 128; 256; 512; 1024; 2048]).

Definition smear (d n : Z) : Z := Z.lor n (Z.shiftr n d).
Definition up2pow (n : Z) : Z :=
  let n := sub64 n 1 in
  let n := smear 32 (smear 16 (smear 8 (smear 4 (smear 2 (smear 1 n))))) in
  add64 n 1.
Definition get_pages (rsz : Z) : Z := Z.max 1 (sub64 (add64 rsz PAGESIZE) 1 / PAGESIZE).

(** The size of the block for a request of [sz] bytes. *)
Definition block_size (sz : Z) : Z := Z.max (up2pow sz) KMIN.

Section malloc.
Context {G : Type} `{PageFrames G}.

Record mst := mkMst { pools : pool → slub; records : list Z; recs : gmap Z AllocRecord; heap : kheap G }.
Definition set_pool (o : pool) (x : slub) (P : pool → slub) : pool → slub := λ o', if decide (o' = o) then x else P o'.

(** Run an operation of one slab allocator. *)
Definition on_pool {A} (o : pool) (m : M (sst (G:=G)) A) : M mst A := λ s,
  match m (pools s o, heap s) with
  | Fin r (x, h) => Fin r (mkMst (set_pool o x (pools s)) (records s) (recs s) h)
  | Panic => Panic | OutOfFuel => OutOfFuel
  end.

(** Run an operation of the page allocator. *)
Definition on_frames {A} (m : M G A) : M mst (Result A) := λ s,
  match m (frames (heap s)) with
  | Fin r g => Fin (Ok r) (mkMst (pools s) (records s) (recs s) (set_frames g (heap s)))
  | Panic => Panic | OutOfFuel => OutOfFuel
  end.
Definition of_addr (a : option Z) : M mst Z := match a with Some a => mret a | None => panic end.

(** ** Records *)

Definition get_rec (r : Z) : M mst AllocRecord := λ s,
  match recs s !! r with Some x => Fin (Ok x) s | None => Panic end.
Definition set_records f s := mkMst (pools s) (f (records s)) (recs s) (heap s).
Definition set_recs f s := mkMst (pools s) (records s) (f (recs s)) (heap s).

(** [operator new] may return null, and the constructor then writes to it.  The node
    is new, so that its insertion succeeds. *)
Definition add_record (ptr rsz : Z) : M mst bool :=
  r ← on_pool PRecord (alloc ALLOC_RECORD_SIZE 8);
  if r =? 0 then panic
  else
    _ ← modify (set_recs <[r := mkRecord ptr rsz]>);
    _ ← modify (set_records (push_back r));
    mret true.
Fixpoint find_record (ptr : Z) (l : list Z) : M mst Z :=
  match l with
  | [] => mret 0
  | r :: l => x ← get_rec r; if ar_ptr x =? ptr then mret r else find_record ptr l
  end.
Definition get_record (ptr : Z) : M mst Z := l ← gets records; find_record ptr l.
Definition remove_record (r : Z) : M mst unit :=
  _ ← modify (set_records (list_unlink r));
  _ ← modify (set_recs (delete r));
  on_pool PRecord (free r).

(** ** Blocks *)

Definition large_malloc (rsz : Z) : M mst Z :=
  _ ← massert (is_pow2 rsz);
  r ← on_frames (pf_get (get_pages rsz));
  match r with Err _ => mret 0 | Ok pa => of_addr (convert KPA PA pa) end.
Definition small_malloc (rsz : Z) : M mst Z :=
  _ ← massert (contains_small_size rsz);
  on_pool (PClass rsz) (if rsz =? 2048 then huge_alloc 2048 else alloc rsz 1).
Definition free_inner (ptr rsz : Z) : M mst unit :=
  if KMAX <=? rsz then
    pa ← of_addr (mk_addr KPA ptr ≫= convert PA KPA);
    _ ← on_frames (pf_put pa (get_pages rsz));
    mret tt
  else
    _ ← massert (contains_small_size rsz);
    on_pool (PClass rsz) (if rsz =? 2048 then huge_free 2048 ptr else free ptr).

Definition malloc (sz : Z) : M mst Z :=
  let rsz := block_size sz in
  _ ← massert (contains_small_size rsz || (KMAX <=? rsz));
  ptr ← (if KMAX <=? rsz then large_malloc rsz else small_malloc rsz);
  if ptr =? 0 then mret 0
  else
    ok ← add_record ptr rsz;
    if negb ok then _ ← free_inner ptr rsz; panic
    else mret ptr.
(** [SlubMalloc::free] *)
Definition mfree (ptr : Z) : M mst unit :=
  r ← get_record ptr;
  if r =? 0 then mret tt
  else
    x ← get_rec r;
    _ ← free_inner ptr (ar_size x);
    remove_record r.
End malloc.
Arguments mst : clear implicits.

(** ** [LinearGrowAllocator] *)

Definition LGA_SIZE : Z := 0x400000.
Record lga (G : Type) := mkLga { lga_offset : Z; lga_frames : G }.
Arguments mkLga {G} _ _.
Arguments lga_offset {G} _.
Arguments lga_frames {G} _.

Section lga.
Context {G : Type} `{PageFrames G}.
(** The address of [LGA_HEAP]. *)
Context (LGA_HEAP : Z).

(** [None] is the null pointer. *)
Definition lga_malloc (size : Z) : M (lga G) (option Z) := λ s,
  let rdsz := Z.land (add64 size 7) (not64 7) in
  if 4096 <=? rdsz then
    match pf_get (page_align_up rdsz / PAGESIZE) (lga_frames s) with
    | Fin (Ok pa) g => match convert KPA PA pa with Some a => Fin (Ok (Some a)) (mkLga (lga_offset s) g) | None => Panic end
    | Fin (Err _) g => Fin (Ok None) (mkLga (lga_offset s) g)
    | Panic => Panic | OutOfFuel => OutOfFuel
    end
  else if LGA_SIZE <? add64 (lga_offset s) rdsz then Fin (Ok None) s
  else Fin (Ok (Some (LGA_HEAP + lga_offset s))) (mkLga (add64 (lga_offset s) rdsz) (lga_frames s)).
Definition lga_free (p : Z) : M (lga G) unit := mret tt.
End lga.

(** ** The size of a block *)

(** Bit [i] of [y] is the disjunction of the bits [i .. i+d) of [x]. *)
Definition smeared (x d y : Z) : Prop :=
  ∀ i, 0 <= i → Z.testbit y i = true ↔ ∃ j, 0 <= j < d ∧ Z.testbit x (i + j) = true.
Lemma smear_step x d y : 0 < d → smeared x d y → smeared x (d + d) (smear d y).
Proof.
  intros Hd Hs i Hi. unfold smear. rewrite Z.lor_spec, Z.shiftr_spec, orb_true_iff by done.
  rewrite (Hs i Hi), (Hs (i + d)) by lia. split.
  - intros [(j & Hj & Hb)|(j & Hj & Hb)].
    + exists j. split; [lia|done].
    + exists (d + j). split; [lia|]. by rewrite Z.add_assoc.
  - intros (j & Hj & Hb). destruct (Z.lt_ge_cases j d); [left; exists j; split; [lia|done]|right]. exists (j - d).
    split; [lia|]. by replace (i + d + (j - d)) with (i + j) by lia.
Qed.
Lemma smeared_id x : smeared x 1 x.
Proof.
  intros i Hi. split.
  - intros Hb. exists 0. split; [lia|]. by rewrite Z.add_0_r.
  - intros (j & Hj & Hb). assert (j = 0) as -> by lia. by rewrite Z.add_0_r in Hb.
Qed.
Lemma smear_all x : 0 < x < 2 ^ 64 → smear 32 (smear 16 (smear 8 (smear 4 (smear 2 (smear 1 x))))) = Z.ones (Z.log2 x + 1).
Proof.
  intros Hx. pose proof (Z.log2_nonneg x) as Hl. pose proof (Z.log2_spec x) as Hls.
  assert (Hlt : Z.log2 x < 64) by (apply Z.log2_lt_pow2; lia).
  assert (Hs : smeared x 64 (smear 32 (smear 16 (smear 8 (smear 4 (smear 2 (smear 1 x))))))).
  { pose proof (smeared_id x) as S. do 6 (apply smear_step in S; [|lia]). exact S. }
  apply Z.bits_inj'. intros i Hi. rewrite Z.testbit_ones_nonneg by lia. apply eq_true_iff_eq. rewrite (Hs i Hi), Z.ltb_lt. split.
  - intros (j & Hj & Hb). destruct (Z.lt_ge_cases (Z.log2 x) (i + j)); [|lia]. rewrite Z.bits_above_log2 in Hb; [done|lia|lia].
  - intros Hi'. exists (Z.log2 x - i). split; [lia|]. replace (i + (Z.log2 x - i)) with (Z.log2 x) by lia. apply Z.bit_log2. lia.
Qed.
(** [up2pow] rounds up to a power of two. *)
Lemma up2pow_spec n : 1 < n <= 2 ^ 63 → ∃ k, 0 < k <= 63 ∧ up2pow n = 2 ^ k ∧ n <= 2 ^ k < 2 * n.
Proof.
  intros Hn. unfold up2pow, sub64. rewrite wrap64_small by (unfold is_u64, W64; lia). cbv zeta.
  rewrite smear_all by lia. set (k := Z.log2 (n - 1) + 1).
  pose proof (Z.log2_spec (n - 1)) as Hls. pose proof (Z.log2_nonneg (n - 1)).
  assert (Hk : Z.log2 (n - 1) < 63) by (apply Z.log2_lt_pow2; lia).
  exists k. rewrite Z.ones_equiv. unfold add64.
  assert (Hb : n - 1 < 2 ^ k). { unfold k. destruct Hls as [_ Hls]; [lia|]. by rewrite Z.add_1_r. }
  assert (Hb2 : 2 ^ k <= 2 * (n - 1)). { unfold k. rewrite Z.pow_add_r by lia. destruct Hls as [Hls _]; lia. }
  rewrite wrap64_small by (unfold is_u64, W64; lia). split; [lia|]. split; [lia|lia].
Qed.
Lemma up2pow_0 : up2pow 0 = 0.
Proof. reflexivity. Qed.
Lemma up2pow_1 : up2pow 1 = 1.
Proof. reflexivity. Qed.
(** Past 2^63 the result wraps to 0. *)
Lemma up2pow_wraps n : 2 ^ 63 < n < 2 ^ 64 → up2pow n = 0.
Proof.
  intros Hn. unfold up2pow, sub64. rewrite wrap64_small by (unfold is_u64, W64; lia). cbv zeta. rewrite smear_all by lia.
  assert (Z.log2 (n - 1) = 63) as -> by (apply Z.log2_unique; lia). reflexivity.
Qed.

(** ** The slab allocators side by side *)

Definition class_sizes : list Z := [8; 16; 32; 64; 128; 256; 512; 1024].
Definition pool_ok (o : pool) : Prop := match o with PClass sz => sz ∈ class_sizes | PRecord => True end.

Ltac each_class Hin :=
  unfold class_sizes in Hin; repeat (apply elem_of_cons in Hin as [->|Hin]; [|]); [..|by apply elem_of_nil in Hin].

Lemma pool_type o : pool_ok o → slab_type (pool_size o) (pool_align o).
Proof.
  intros Ho. destruct o as [sz|]; simpl in *.
  - each_class Ho; (split; [unfold SLAB_KMAX; lia|exists 0; split; [lia|done]|reflexivity]).
  - split; [done|exists 3; split; [lia|done]|reflexivity].
Qed.
Lemma pool_obj_size o : pool_ok o → obj_size (pool_size o) (pool_align o) = pool_size o.
Proof. intros Ho. destruct o as [sz|]; simpl in *; [|reflexivity]. each_class Ho; reflexivity. Qed.

(** What [GFP::put_page] promises for a run of pages that nobody shares. *)
Class PageRuns (G : Type) `{PageFrames G} := {
  pr_put_law own c g p n :
    pf_inv own (S c) g → 1 <= n → 0 < p → (PAGESIZE | p) → p + n * PAGESIZE <= Buddy.LIMIT →
    (∀ q, Gfp.in_pages q p n → own q = 1) →
    ∃ r g', pf_put p n g = Fin r g' ∧ pf_inv (bump (-1) p n own) c g'
}.

(** Who has a page: a slab allocator, or a block of whole pages. *)
Inductive owner := OPool (o : pool) | OBig (p : Z).

Section spec.
Context {G : Type} `{PageFrames G}.
Implicit Types (who : Z → option owner) (own : Z → Z) (h : kheap G).

Definition pools_ok who (L : pool → gset Z) (P : pool → slub) h : Prop :=
  ∀ o, pool_ok o → ∃ F, slub_ok (pool_size o) (pool_align o) (λ q, who q = Some (OPool o)) F (L o) (P o) h.
Definition set_live (o : pool) (x : gset Z) (L : pool → gset Z) : pool → gset Z := λ o', if decide (o' = o) then x else L o'.

Lemma pools_ok_ext who L L' P h : (∀ o, pool_ok o → L' o = L o) → pools_ok who L P h → pools_ok who L' P h.
Proof. intros He Hp o Ho. rewrite He by done. by apply Hp. Qed.

(** Replacing one slab allocator, while the pages of the others are left alone. *)
Lemma pools_set who who' L P h h' o F x L0 :
  pools_ok who L P h → slub_ok (pool_size o) (pool_align o) (λ q, who' q = Some (OPool o)) F L0 x h' →
  (∀ q o', o' ≠ o → who' q = Some (OPool o') ↔ who q = Some (OPool o')) →
  (∀ b o', o' ≠ o → who (kpage b) = Some (OPool o') → slabs h' !! b = slabs h !! b) →
  (∀ a o', o' ≠ o → who (kpage a) = Some (OPool o') → words h' !! a = words h !! a) →
  pools_ok who' (set_live o L0 L) (set_pool o x P) h'.
Proof.
  intros Hp Hx Hw Hs Ha o' Ho'. unfold set_live, set_pool. destruct (decide (o' = o)) as [->|Hne]; [by exists F|].
  destruct (Hp o' Ho') as [F' HF]. exists F'. pose proof (pool_type o' Ho').
  assert (HF' : slub_ok (pool_size o') (pool_align o') (λ q, who q = Some (OPool o')) F' (L o') (P o') h').
  { apply (slub_frame _ _ _ _ _ _ h _ HF).
    - intros b Hb. by apply (Hs b o').
    - intros b a Hb Hf. apply (Ha a o' Hne). destruct (so_slab _ _ _ _ _ _ _ HF b Hb) as (_ & _ & _ & [_ _ K3 _ _] & _ & Hbb & Hm).
      by rewrite (kpage_obj _ _ b a Hbb (K3 a Hf)). }
  destruct HF' as [H1 H2 H3 H4]. split; try done. intros b Hb. destruct (H2 b Hb) as (hd & ?). exists hd.
  destruct_and!. split_and!; try done. by apply Hw.
Qed.

(** The page of slab [b] goes to pool [o]. *)
Definition give (b : Z) (o : pool) who : Z → option owner := λ q, if decide (q = kpage b) then Some (OPool o) else who q.

Record pool_grows (o : pool) who own who' own' (h h' : kheap G) (p : Z) : Prop := {
  pg_page : who' (kpage p) = Some (OPool o);
  pg_who : ∀ q x, who q = Some x → who' q = Some x ∧ own' q = own q;
  pg_new : ∀ q x, who' q = Some x → who q = Some x ∨ (own q = 0 ∧ x = OPool o);
  pg_own : ∀ q, who' q ≠ None → own' q ≠ 0;
  pg_words : ∀ a, who (kpage a) ≠ None → words h' !! a = words h !! a
}.

Lemma pool_alloc who L P h own c o :
  pools_ok who L P h → pf_inv own (S c) (frames h) → (∀ q, who q ≠ None → own q ≠ 0) → pool_ok o →
  ∃ p x h', alloc (pool_size o) (pool_align o) (P o, h) = Fin (Ok p) (x, h') ∧
    ((p = 0 ∧ (∃ e, pf_get 1 (frames h) = Fin (Err e) (frames h')) ∧ pf_inv own c (frames h') ∧
      pools_ok who L (set_pool o x P) h' ∧ words h' = words h ∧ partial (P o) = [] ∧ empty (P o) = []) ∨
     (∃ who' own' b, slab_base b ∧ p ∈ objs (pool_size o) (pool_align o) b ∧ (p ∉ L o) ∧ pool_grows o who own who' own' h h' p ∧
       pools_ok who' (set_live o ({[p]} ∪ L o) L) (set_pool o x P) h' ∧ pf_inv own' c (frames h'))).
Proof.
  intros Hp Hpf Hwho Ho. pose proof (pool_type o Ho). destruct (Hp o Ho) as [F HF].
  destruct (alloc_spec _ _ _ F (L o) (P o) h own c HF Hpf) as (p & x & h' & E & Hcase); [intros q Hq; apply Hwho; by rewrite Hq|].
  exists p, x, h'. split; [done|]. destruct Hcase as [(-> & He & Hpf' & -> & Hs & Hw & He1 & He2)|(F' & b & mine' & own' & Hob & Hb & Hn & Hg & Hok & Hpf' & Hs)].
  - left. split_and!; try done. apply (pools_ok_ext who (set_live o (L o) L)).
    { intros o' _. unfold set_live. case_decide; congruence. }
    apply (pools_set who who L P h h' o F); try done; [|intros; by rewrite ?Hs|intros; by rewrite Hw].
    apply (slub_frame _ _ _ _ _ _ h _ HF); intros; by rewrite ?Hs, ?Hw.
  - right. pose proof (kpage_obj _ _ b p Hb Hob) as Hk.
    assert (Hwb : who (kpage b) = Some (OPool o) ∨ (who (kpage b) = None ∧ own (kpage b) = 0)).
    { destruct Hg as [(Hm & _)|(Hown & _)]; [by left|]. right. split; [|done]. destruct (who (kpage b)) eqn:Ew; [|done].
      exfalso. apply (Hwho (kpage b)); [by rewrite Ew|done]. }
    assert (Hmine : ∀ q, mine' q ↔ give b o who q = Some (OPool o)).
    { intros q. unfold give. destruct Hg as [(Hm & -> & _)|(_ & -> & _)]; case_decide as Eq; subst; naive_solver. }
    assert (Hok' : slub_ok (pool_size o) (pool_align o) (λ q, give b o who q = Some (OPool o)) F' ({[p]} ∪ L o) x h').
    { destruct Hok as [H1 H2 H3 H4]. split; try done. intros b' Hb'. destruct (H2 b' Hb') as (hd & ?). exists hd.
      destruct_and!. split_and!; try done. by apply Hmine. }
    exists (give b o who), own', b. split_and!; try done.
    + split.
      * unfold give. by rewrite Hk, decide_True.
      * intros q y Hq. unfold give. destruct Hg as [(Hm & _ & -> & _)|(Hown & _ & -> & _)].
        -- case_decide as Eq; subst; [split; [congruence|done]|done].
        -- assert (q ≠ kpage b). { intros ->. apply (Hwho (kpage b)); [by rewrite Hq|done]. }
           rewrite decide_False by done. split; [done|]. unfold bump. rewrite bool_decide_eq_false_2; [done|].
           by rewrite in_page_iff.
      * intros q y. unfold give. case_decide as Eq; [|by left]. intros [= <-]. subst q. destruct Hwb as [?|[? ?]]; [by left|by right].
      * intros q. unfold give. destruct Hg as [(Hm & _ & -> & _)|(Hown & _ & -> & _)].
        -- case_decide as Eq; [subst; intros _; apply Hwho; by rewrite Hm|apply Hwho].
        -- unfold bump. case_decide as Eq.
           ++ subst q. rewrite bool_decide_eq_true_2 by (by apply in_page_iff). lia.
           ++ rewrite bool_decide_eq_false_2 by (by rewrite in_page_iff). apply Hwho.
      * intros a Ha. destruct Hg as [(_ & _ & _ & ->)|(Hown & _ & _ & Hw)]; [done|]. apply Hw. intros Hao.
        apply (kpage_obj _ _ b) in Hao; [|done]. rewrite Hao in Ha. by apply (Hwho _ Ha).
    + apply (pools_set who (give b o who) L P h h' o F'); try done.
      * intros q o' Hne. unfold give. case_decide as Eq; [subst q|done]. destruct Hwb as [Hwb|[Hwb _]]; rewrite Hwb; split; congruence.
      * intros b' o' Hne Hb'. apply Hs. intros ->. destruct Hwb as [Hwb|[Hwb _]]; congruence.
      * intros a o' Hne Ha. destruct Hg as [(_ & _ & _ & ->)|(Hown & _ & _ & Hw)]; [done|]. apply Hw. intros Hao.
        apply (kpage_obj _ _ b) in Hao; [|done]. rewrite Hao in Ha. apply (Hwho (kpage b)); [by rewrite Ha|done].
Qed.

Lemma pool_free who L P h o p :
  pools_ok who L P h → pool_ok o → p ∈ L o →
  ∃ x h', free p (P o, h) = Fin (Ok tt) (x, h') ∧ pools_ok who (set_live o (L o ∖ {[p]}) L) (set_pool o x P) h' ∧
    frames h' = frames h ∧ ∀ a, a ≠ p → words h' !! a = words h !! a.
Proof.
  intros Hp Ho Hin. pose proof (pool_type o Ho). destruct (Hp o Ho) as [F HF].
  destruct (free_spec _ _ _ F (L o) (P o) h p HF Hin) as (F' & x & h' & E & Hok & Hf & Hw & Hs).
  exists x, h'. split; [done|]. split; [|by split]. apply (pools_set who who L P h h' o F'); try done.
  - intros b o' Hne Hb. apply Hs. intros Hk. destruct (live_slab _ _ _ _ _ _ _ _ HF Hin) as (b0 & _ & Hb0 & Hm & Hob & _).
    rewrite Hk, (kpage_obj _ _ b0 p Hb0 Hob), Hm in Hb. congruence.
  - intros a o' Hne Ha. apply Hw. intros ->. destruct (live_slab _ _ _ _ _ _ _ _ HF Hin) as (b0 & _ & Hb0 & Hm & Hob & _).
    rewrite (kpage_obj _ _ b0 p Hb0 Hob), Hm in Ha. congruence.
Qed.

(** ** Sizes *)

Lemma block_size_pow sz : 0 <= sz <= 2 ^ 27 → ∃ k, 3 <= k <= 27 ∧ block_size sz = 2 ^ k ∧ sz <= 2 ^ k.
Proof.
  intros Hs. unfold block_size, KMIN. destruct (Z.le_gt_cases sz 8) as [H8|H8].
  - exists 3. split; [lia|]. split; [|lia]. apply Z.max_r. destruct (Z.le_gt_cases sz 1) as [H1|H1].
    + assert (sz = 0 ∨ sz = 1) as [->| ->] by lia; vm_compute; congruence.
    + destruct (up2pow_spec sz) as (k & Hk & -> & Hb); [lia|]. change 8 with (2 ^ 3). apply Z.pow_le_mono_r; [lia|].
      apply Z.lt_succ_r. apply (Z.pow_lt_mono_r_iff 2); lia.
  - destruct (up2pow_spec sz) as (k & Hk & -> & Hb); [lia|]. exists k.
    assert (3 < k) by (apply (Z.pow_lt_mono_r_iff 2); lia).
    assert (k < 28) by (apply (Z.pow_lt_mono_r_iff 2); lia).
    assert (2 ^ 3 <= 2 ^ k) by (apply Z.pow_le_mono_r; lia). split; [lia|]. split; [|lia]. apply Z.max_l. lia.
Qed.

Definition big_size (r : Z) : Prop := KMAX <= r <= 2 ^ 27.

Lemma block_size_cases sz :
  0 <= sz <= 2 ^ 27 → let r := block_size sz in
  sz <= r ∧ is_pow2 r = true ∧ ((r ∈ class_sizes ∧ r < KMAX) ∨ big_size r).
Proof.
  intros (k & Hk & -> & Hle)%block_size_pow r. split; [done|]. unfold r, big_size, KMAX.
  assert (Hn : ∃ n : nat, (n < 25)%nat ∧ k = 3 + Z.of_nat n) by (exists (Z.to_nat (k - 3)); lia).
  destruct Hn as (n & Hn & ->). do 25 (destruct n as [|n]; [split; [reflexivity|]; try (left; split; [unfold class_sizes; set_solver|lia]); right; simpl; lia|]). lia.
Qed.
Lemma get_pages_bounds r : big_size r → 1 <= get_pages r <= 2 ^ 15 ∧ r <= get_pages r * PAGESIZE.
Proof.
  unfold big_size, KMAX, get_pages, PAGESIZE. intros Hr. unfold add64, sub64. rewrite (wrap64_small (r + _)) by (unfold is_u64, W64; lia).
  rewrite wrap64_small by (unfold is_u64, W64; lia). pose proof (Z.div_mod (r + 4096 - 1) 4096). pose proof (Z.mod_pos_bound (r + 4096 - 1) 4096). lia.
Qed.
Lemma class_lt r : r ∈ class_sizes → 0 < r < KMAX ∧ contains_small_size r = true ∧ (r =? 2048) = false.
Proof. intros Hr. each_class Hr; (split; [unfold KMAX; lia|by split]). Qed.

(** ** The heap *)

(** The objects of each slab allocator, for the blocks [A] and the records [rs]. *)
Definition live_of (A : gmap Z Z) (rs : list Z) (o : pool) : gset Z :=
  match o with PClass k => dom (filter (λ x, x.2 = k) A) | PRecord => list_to_set rs end.
Lemma elem_live A rs k p : p ∈ live_of A rs (PClass k) ↔ A !! p = Some k.
Proof. simpl. rewrite elem_of_dom. split.
  - intros [x Hx]. apply map_lookup_filter_Some in Hx as [Hx Hk]. simpl in Hk. by subst.
  - intros Hx. exists k. by apply map_lookup_filter_Some.
Qed.

Definition big_ok who own (p r : Z) : Prop :=
  big_size r ∧ (PAGESIZE | p) ∧ KPA_OFFSET < p ∧ p + get_pages r * PAGESIZE <= KVA_OFFSET ∧
  ∀ q, Gfp.in_pages q (p - KPA_OFFSET) (get_pages r) → who q = Some (OBig p) ∧ own q = 1.
Definition block_ok who own (p r : Z) : Prop := r ∈ class_sizes ∨ big_ok who own p r.

(** [A]: the blocks in use; [B]: the blocks that have a record. *)
Record malloc_ok (A B : gmap Z Z) who own (c : nat) (s : mst G) : Prop := {
  mo_pools : pools_ok who (live_of A (records s)) (pools s) (heap s);
  mo_frames : pf_inv own c (frames (heap s));
  mo_who : ∀ q, who q ≠ None → own q ≠ 0;
  mo_block : ∀ p r, A !! p = Some r → block_ok who own p r;
  mo_nodup : NoDup (records s);
  mo_recs : ∃ l, Forall2 (λ r x, recs s !! r = Some (mkRecord x.1 x.2)) (records s) l ∧ l ≡ₚ map_to_list B
}.

(** Address [a] lies in the block [p] of [r] bytes. *)
Definition in_block (p r a : Z) : Prop := p <= a < p + r.

Lemma big_pages who own p r a : big_ok who own p r → in_block p r a → who (kpage a) = Some (OBig p).
Proof.
  intros (Hr & [k Hk] & _ & _ & Hq) Ha. apply Hq. pose proof (get_pages_bounds r Hr) as [_ Hp]. unfold Gfp.in_pages, kpage, in_block, KPA_OFFSET, PAGESIZE in *.
  subst p. replace (k * 4096 - 0xFFFFFFC000000000) with ((k - 0xFFFFFFC000000) * 4096) by lia. rewrite Z.div_mul by lia.
  replace (a - 0xFFFFFFC000000000) with ((a - k * 4096) + (k - 0xFFFFFFC000000) * 4096) by lia. rewrite Z.div_add by lia.
  pose proof (Z.div_pos (a - k * 4096) 4096). pose proof (Z.div_lt_upper_bound (a - k * 4096) 4096 (get_pages r)). lia.
Qed.

(** The page of a block belongs to its slab allocator, or to it. *)
Lemma block_page A B who own c s p r a :
  malloc_ok A B who own c s → A !! p = Some r → in_block p r a →
  who (kpage a) = Some (if bool_decide (r ∈ class_sizes) then OPool (PClass r) else OBig p).
Proof.
  intros Hm Hp Ha. case_bool_decide as Hr.
  - destruct (mo_pools _ _ _ _ _ _ Hm (PClass r) Hr) as [F HF]. pose proof (pool_type (PClass r) Hr).
    apply elem_live with (rs := records s) in Hp. destruct (live_slab _ _ _ _ _ _ _ _ HF Hp) as (b & _ & Hb & Hw & Hob & _).
    rewrite (inside_page _ _ b p a Hb Hob); [exact Hw|]. unfold inside. rewrite (pool_obj_size (PClass r) Hr). exact Ha.
  - destruct (mo_block _ _ _ _ _ _ Hm p r Hp) as [?|Hb]; [done|]. by apply (big_pages who own p r).
Qed.
(** No address lies in two blocks. *)
Lemma blocks_apart A B who own c s p r p' r' a :
  malloc_ok A B who own c s → A !! p = Some r → A !! p' = Some r' → in_block p r a → in_block p' r' a → p = p'.
Proof.
  intros Hm Hp Hp' Ha Ha'. pose proof (block_page _ _ _ _ _ _ _ _ _ Hm Hp Ha) as E1.
  pose proof (block_page _ _ _ _ _ _ _ _ _ Hm Hp' Ha') as E2. rewrite E1 in E2. injection E2 as E2.
  destruct (bool_decide (r ∈ class_sizes)) eqn:Er; destruct (bool_decide (r' ∈ class_sizes)) eqn:Er'; try done; [|by injection E2].
  injection E2 as ->. apply bool_decide_eq_true in Er.
  destruct (mo_pools _ _ _ _ _ _ Hm (PClass r') Er) as [F HF]. pose proof (pool_type (PClass r') Er).
  destruct (decide (p = p')) as [?|Hne]; [done|]. exfalso.
  apply elem_live with (rs := records s) in Hp, Hp'. pose proof (live_apart _ _ _ _ _ _ _ _ _ HF Hp Hp' Hne) as Hap.
  unfold apart in Hap. rewrite (pool_obj_size (PClass r') Er) in Hap. simpl in Hap. unfold in_block in *. lia.
Qed.

(** What every step keeps: the contents of the blocks that stay. *)
Definition same_blocks (A : gmap Z Z) (s s' : mst G) : Prop :=
  ∀ p r a, A !! p = Some r → in_block p r a → words (heap s') !! a = words (heap s) !! a.

Lemma own_more who own who' own' o h h' p A B c s :
  pool_grows o who own who' own' h h' p → malloc_ok A B who own c s → ∀ p r, A !! p = Some r → block_ok who' own' p r.
Proof.
  intros Hg Hm p0 r Hp. destruct (mo_block _ _ _ _ _ _ Hm p0 r Hp) as [?|(H1 & H2 & H3 & H4 & H5)]; [by left|right].
  split_and!; try done. intros q Hq. destruct (H5 q Hq) as [Hw Ho]. destruct (pg_who _ _ _ _ _ _ _ _ Hg q _ Hw) as [? ->]. done.
Qed.
Lemma grows_same o who own who' own' h' p A B c s s' :
  pool_grows o who own who' own' (heap s) h' p → heap s' = h' → malloc_ok A B who own c s → same_blocks A s s'.
Proof.
  intros Hg Hh Hm p0 r a Hp Ha. rewrite Hh. apply Hg. rewrite (block_page _ _ _ _ _ _ _ _ _ Hm Hp Ha). done.
Qed.

Lemma live_insert A rs k p o :
  A !! p = None → live_of (<[p := k]> A) rs o = set_live (PClass k) ({[p]} ∪ live_of A rs (PClass k)) (live_of A rs) o.
Proof.
  intros Hp. unfold set_live. destruct o as [k'|]; [|by rewrite decide_False].
  case_decide as E.
  - injection E as ->. apply set_eq. intros x. rewrite elem_of_union, elem_of_singleton, !elem_live. rewrite lookup_insert_Some. naive_solver.
  - apply set_eq. intros x. rewrite !elem_live, lookup_insert_Some. split; [|naive_solver]. intros [[-> ->]|[_ ?]]; [done|done].
Qed.

Lemma small_run r s p x h' :
  r ∈ class_sizes → alloc r 1 (pools s (PClass r), heap s) = Fin (Ok p) (x, h') →
  small_malloc r s = Fin (Ok p) (mkMst (set_pool (PClass r) x (pools s)) (records s) (recs s) h').
Proof.
  intros Hr E. destruct (class_lt r Hr) as (_ & Hc & Hne). unfold small_malloc. rewrite Hc, Hne.
  rewrite (bind_run (massert true) _ s tt s eq_refl). unfold on_pool. by rewrite E.
Qed.

(** The page allocator refuses a run of [n] pages. *)
Definition no_pages (n : Z) (s : mst G) : Prop := ∃ e g, pf_get n (frames (heap s)) = Fin (Err e) g.

Lemma take_small A B who own c s r :
  malloc_ok A B who own (S c) s → r ∈ class_sizes →
  ∃ p s' who' own', small_malloc r s = Fin (Ok p) s' ∧ same_blocks A s s' ∧ records s' = records s ∧
    pools s' PRecord = pools s PRecord ∧
    if bool_decide (p = 0) then no_pages 1 s ∧ malloc_ok A B who' own' c s'
    else A !! p = None ∧ malloc_ok (<[p := r]> A) B who' own' c s'.
Proof.
  intros Hm Hr. destruct (pool_alloc who (live_of A (records s)) (pools s) (heap s) own c (PClass r)
    (mo_pools _ _ _ _ _ _ Hm) (mo_frames _ _ _ _ _ _ Hm) (mo_who _ _ _ _ _ _ Hm) Hr) as (p & x & h' & E & Hcase).
  eexists p, _. pose proof (small_run r s p x h' Hr E) as Er.
  destruct Hcase as [(-> & [e He] & Hpf & Hp & Hw & _)|(who' & own' & b & Hb & Hob & Hn & Hg & Hp & Hpf)].
  - exists who, own. split; [exact Er|]. split; [intros p r0 a _ _; simpl; by rewrite Hw|]. split_and!; try done.
    rewrite bool_decide_eq_true_2 by done. split; [by eexists _, _|]. destruct Hm as [M1 M2 M3 M4 M5 M6]. by split.
  - pose proof (pool_type (PClass r) Hr). pose proof (obj_nonnull _ _ b p Hb Hob) as Hpos.
    exists who', own'. split; [exact Er|]. split; [by eapply grows_same; [exact Hg| |exact Hm]|].
    split_and!; try done. rewrite bool_decide_eq_false_2 by lia.
    assert (Hfresh : A !! p = None).
    { destruct (A !! p) as [r'|] eqn:Ep; [|done]. exfalso.
      assert (Hin : in_block p r' p).
      { destruct (mo_block _ _ _ _ _ _ Hm p r' Ep) as [Hc|Hc]; [apply class_lt in Hc as [? _]|destruct Hc as [Hc _]; unfold big_size, KMAX in Hc]; unfold in_block; lia. }
      pose proof (block_page _ _ _ _ _ _ _ _ _ Hm Ep Hin) as Ew.
      destruct (pg_who _ _ _ _ _ _ _ _ Hg _ _ Ew) as [Ew' _]. rewrite (pg_page _ _ _ _ _ _ _ _ Hg) in Ew'. injection Ew' as Ew'.
      case_bool_decide; [|done]. injection Ew' as ->. by apply Hn, elem_live. }
    split; [done|]. pose proof (own_more _ _ _ _ _ _ _ _ _ _ _ _ Hg Hm) as Hbl. destruct Hm as [M1 M2 M3 M4 M5 M6]. split; simpl; try done.
    + apply (pools_ok_ext _ (set_live (PClass r) ({[p]} ∪ live_of A (records s) (PClass r)) (live_of A (records s)))); [|done].
      intros o _. by apply live_insert.
    + apply Hg.
    + intros p0 r0. rewrite lookup_insert_Some. intros [[<- <-]|[_ Hp0]]; [by left|]. by apply Hbl.
Qed.

(** A page to itself. *)
Definition claim (p pa n : Z) who : Z → option owner := λ q, if bool_decide (Gfp.in_pages q pa n) then Some (OBig p) else who q.

Lemma to_window pa n :
  0 < pa → (PAGESIZE | pa) → pa + n * PAGESIZE <= Buddy.LIMIT → 1 <= n →
  let p := pa + KPA_OFFSET in
  convert KPA PA pa = Some p ∧ mk_addr KPA p ≫= convert PA KPA = Some pa ∧
  (PAGESIZE | p) ∧ KPA_OFFSET < p ∧ p + n * PAGESIZE <= KVA_OFFSET.
Proof.
  intros Hpa [k Hk] Hl Hn p. unfold Buddy.LIMIT, KVA_OFFSET, KPA_OFFSET, PAGESIZE in *.
  assert (Hp : is_u64 p) by (unfold p, KPA_OFFSET, is_u64, W64; lia).
  assert (Hmk : mk_addr KPA p = Some p).
  { unfold mk_addr, within_scope. rewrite (proj2 (Z.eqb_neq p 0)) by (unfold p, KPA_OFFSET; lia).
    rewrite (proj2 (andb_true_iff _ _)); [done|]. cbn [get_scope KPA_SCOPE scope_start scope_end].
    unfold p, KPA_OFFSET, KVA_OFFSET. split; apply Z.leb_le; lia. }
  assert (Hmp : mk_addr PA pa = Some pa).
  { unfold mk_addr, within_scope. rewrite (proj2 (Z.eqb_neq pa 0)) by lia.
    rewrite (proj2 (andb_true_iff _ _)); [done|]. cbn [get_scope PA_SCOPE scope_start scope_end].
    unfold NULL_ADDR, KPA_OFFSET. split; apply Z.leb_le; lia. }
  assert (Hz : p <> 0) by (unfold p, KPA_OFFSET; lia).
  split_and!.
  - unfold convert, nonnull. rewrite (proj2 (Z.eqb_neq pa 0)) by lia. cbn [negb]. unfold PA2KPA, add64. rewrite wrap64_small by exact Hp. exact Hmk.
  - rewrite Hmk. simpl. unfold convert, nonnull. rewrite (proj2 (Z.eqb_neq p 0)) by done. cbn [negb]. unfold KPA2PA, sub64.
    replace (p - KPA_OFFSET) with pa by (unfold p, KPA_OFFSET; lia). rewrite wrap64_small by (unfold is_u64, W64; lia). exact Hmp.
  - exists (k + 0xFFFFFFC000000). unfold p, KPA_OFFSET. lia.
  - unfold p, KPA_OFFSET. lia.
  - unfold p, KPA_OFFSET. lia.
Qed.

Lemma pools_claim who who' L P h h' :
  pools_ok who L P h → slabs h' = slabs h → words h' = words h →
  (∀ q o, who' q = Some (OPool o) ↔ who q = Some (OPool o)) → pools_ok who' L P h'.
Proof.
  intros Hp Hs Hw Hq o Ho. destruct (Hp o Ho) as [F [H1 H2 H3 H4]]. exists F. split; try done.
  intros b Hb. destruct (H2 b Hb) as (hd & ?). exists hd. destruct_and!. rewrite Hs, Hw. split_and!; try done. by apply Hq.
Qed.

Lemma take_big A B who own c s r :
  malloc_ok A B who own (S c) s → big_size r → is_pow2 r = true →
  ∃ p s' who' own', large_malloc r s = Fin (Ok p) s' ∧ same_blocks A s s' ∧ records s' = records s ∧
    pools s' PRecord = pools s PRecord ∧
    if bool_decide (p = 0) then no_pages (get_pages r) s ∧ malloc_ok A B who' own' c s'
    else A !! p = None ∧ malloc_ok (<[p := r]> A) B who' own' c s'.
Proof.
  intros Hm Hr Hpow. destruct (get_pages_bounds r Hr) as [Hn _].
  destruct (pf_get_law own c (frames (heap s)) (get_pages r) (mo_frames _ _ _ _ _ _ Hm) Hn) as (x & g & E & Hx).
  set (s' := mkMst (pools s) (records s) (recs s) (set_frames g (heap s))).
  assert (Er : large_malloc r s = (match x with Err _ => mret 0 | Ok pa => of_addr (convert KPA PA pa) end) s').
  { unfold large_malloc. rewrite Hpow, (bind_run (massert true) _ s tt s eq_refl). erewrite bind_run; [reflexivity|].
    unfold on_frames. by rewrite E. }
  rewrite Er. destruct x as [pa|e].
  2: { exists 0, s', who, own. split; [done|]. split; [done|]. split_and!; try done. rewrite bool_decide_eq_true_2 by done.
       split; [by eexists _, _|]. simpl. destruct Hm as [M1 M2 M3 M4 M5 M6]. split; try done.
       by apply (pools_claim who who _ _ (heap s)). }
  destruct Hx as (Hpa & Hal & Hl & Hown & Hpf).
  destruct (to_window pa (get_pages r) Hpa Hal Hl) as (C1 & C2 & C3 & C4 & C5); [lia|]. set (p := pa + KPA_OFFSET) in *.
  exists p, s', (claim p pa (get_pages r) who), (bump 1 pa (get_pages r) own). rewrite C1.
  split; [done|]. split; [done|]. split_and!; try done.
  rewrite bool_decide_eq_false_2 by (unfold KPA_OFFSET in *; lia).
  assert (Hnone : ∀ q, Gfp.in_pages q pa (get_pages r) → who q = None).
  { intros q Hq. destruct (who q) eqn:Ew; [|done]. exfalso. apply (mo_who _ _ _ _ _ _ Hm q); [by rewrite Ew|by apply Hown]. }
  assert (Epa : p - KPA_OFFSET = pa) by (unfold p; lia).
  assert (Hfresh : A !! p = None).
  { destruct (A !! p) as [r'|] eqn:Ep; [|done]. exfalso.
    assert (Hin : in_block p r' p).
    { destruct (mo_block _ _ _ _ _ _ Hm p r' Ep) as [Hc|Hc]; [apply class_lt in Hc as [? _]|destruct Hc as [Hc _]; unfold big_size, KMAX in Hc]; unfold in_block; lia. }
    pose proof (block_page _ _ _ _ _ _ _ _ _ Hm Ep Hin) as Ew. rewrite (Hnone (kpage p)) in Ew; [done|].
    unfold kpage, Gfp.in_pages. rewrite Epa. lia. }
  split; [done|]. destruct Hm as [M1 M2 M3 M4 M5 M6]. split; simpl; try done.
  - apply (pools_ok_ext _ (live_of A (records s))).
    + intros [k|] Ho; [|done]. apply set_eq. intros y. rewrite !elem_live, lookup_insert_Some. simpl in Ho. split; [|naive_solver].
      intros [[_ <-]|[_ ?]]; [|done]. apply class_lt in Ho as [? _]. unfold big_size in Hr. lia.
    + apply (pools_claim who _ _ _ (heap s)); try done. intros q o. unfold claim. case_bool_decide as Hq; [|done].
      rewrite (Hnone q Hq). by split.
  - intros q. unfold claim, bump. case_bool_decide as Hq; [|by apply M3]. rewrite (Hown q Hq). lia.
  - intros p0 r0. rewrite lookup_insert_Some. intros [[<- <-]|[_ Hp0]].
    + right. split_and!; try done. intros q Hq. rewrite Epa in Hq. unfold claim, bump. rewrite !bool_decide_eq_true_2 by done.
      rewrite (Hown q Hq). by split.
    + destruct (M4 p0 r0 Hp0) as [?|(H1 & H2 & H3 & H4 & H5)]; [by left|right]. split_and!; try done. intros q Hq. destruct (H5 q Hq) as [Hw Ho].
      unfold claim, bump. rewrite !bool_decide_eq_false_2; [done|intros Hi; rewrite (Hnone q Hi) in Hw; done..].
Qed.

(** ** Records *)

(** The record allocator has no free object. *)
Definition no_records (s : mst G) : Prop := partial (pools s PRecord) = [] ∧ empty (pools s PRecord) = [].

Lemma record_nonzero A B who own c s r : malloc_ok A B who own c s → r ∈ records s → 0 < r.
Proof.
  intros Hm Hr. destruct (mo_pools _ _ _ _ _ _ Hm PRecord I) as [F HF]. pose proof (pool_type PRecord I).
  assert (Hin : r ∈ live_of A (records s) PRecord) by (simpl; by apply elem_of_list_to_set).
  destruct (live_slab _ _ _ _ _ _ _ _ HF Hin) as (b & _ & Hb & _ & Hob & _). by apply (obj_nonnull _ _ b r).
Qed.

Lemma add_record_run A B who own c s p r :
  malloc_ok A B who own (S c) s → B !! p = None →
  (add_record p r s = Panic ∧ no_records s ∧ no_pages 1 s) ∨
  ∃ s' who' own', add_record p r s = Fin (Ok true) s' ∧ same_blocks A s s' ∧ malloc_ok A (<[p := r]> B) who' own' c s'.
Proof.
  intros Hm Hp. destruct (pool_alloc who (live_of A (records s)) (pools s) (heap s) own c PRecord
    (mo_pools _ _ _ _ _ _ Hm) (mo_frames _ _ _ _ _ _ Hm) (mo_who _ _ _ _ _ _ Hm) I) as (x & sl & h' & E & Hcase).
  assert (Er : on_pool PRecord (alloc ALLOC_RECORD_SIZE 8) s =
    Fin (Ok x) (mkMst (set_pool PRecord sl (pools s)) (records s) (recs s) h')).
  { unfold on_pool. cbn [pool_size pool_align] in E. by rewrite E. }
  unfold add_record. rewrite (bind_run _ _ _ _ _ Er).
  destruct Hcase as [(-> & [e He] & _ & _ & _ & Hn)|(who' & own' & b & Hb & Hob & Hn & Hg & Hpo & Hpf)].
  { left. split; [done|]. split; [done|]. by eexists _, _. }
  right. pose proof (pool_type PRecord I). pose proof (obj_nonnull _ _ b x Hb Hob) as Hx. rewrite (proj2 (Z.eqb_neq x 0)) by lia.
  eexists _, who', own'. split; [reflexivity|]. split; [by eapply grows_same; [exact Hg| |exact Hm]|].
  assert (Hxr : x ∉ records s) by (intros Hi; apply Hn; simpl; by apply elem_of_list_to_set).
  pose proof (own_more _ _ _ _ _ _ _ _ _ _ _ _ Hg Hm) as Hbl. destruct Hm as [M1 M2 M3 M4 M5 M6]. split; simpl; try done.
  - apply (pools_ok_ext _ (set_live PRecord ({[x]} ∪ live_of A (records s) PRecord) (live_of A (records s)))); [|done].
    intros [k|] _; unfold set_live; [by rewrite decide_False|]. rewrite decide_True by done. simpl. unfold push_back. set_solver.
  - apply Hg.
  - unfold push_back. apply NoDup_app. split_and!; [done|set_solver|apply NoDup_singleton].
  - destruct M6 as (l & HF & Hl). exists (l ++ [(p, r)]). split.
    + unfold push_back. apply Forall2_app; [|constructor; [by rewrite lookup_insert_eq|constructor]].
      apply Forall2_same_length_lookup. split; [by eapply Forall2_length|]. intros j y z Hy Hz.
      rewrite lookup_insert_ne; [by apply (Forall2_lookup_lr _ _ _ _ _ _ HF Hy Hz)|]. intros ->. by apply Hxr, (list_elem_of_lookup_2 _ j).
    + rewrite map_to_list_insert by done. rewrite Hl. by rewrite Permutation_app_comm.
Qed.

Lemma find_record_run l rs (s : mst G) ptr :
  Forall2 (λ r x, recs s !! r = Some (mkRecord x.1 x.2)) rs l →
  ∃ r, find_record ptr rs s = Fin (Ok r) s ∧
    ((r = 0 ∧ ∀ x, x ∈ l → x.1 ≠ ptr) ∨
     (∃ i x, rs !! i = Some r ∧ l !! i = Some x ∧ x.1 = ptr)).
Proof.
  induction 1 as [|r x rs l Hr HF IH]; cbn [find_record].
  - exists 0. split; [done|]. left. split; [done|]. by intros x []%elem_of_nil.
  - rewrite (bind_run (get_rec r) _ s (mkRecord x.1 x.2) s) by (unfold get_rec; by rewrite Hr). cbn [ar_ptr].
    destruct (Z.eqb_spec x.1 ptr) as [E|E].
    + exists r. split; [done|]. right. by exists 0%nat, x.
    + destruct IH as (r' & E' & [[-> Hn]|(i & y & H1 & H2 & H3)]); [exists 0|exists r']; (split; [done|]).
      * left. split; [done|]. intros y [->|Hy]%elem_of_cons; [done|by apply Hn].
      * right. by exists (S i), y.
Qed.

Lemma get_record_run A B who own c s ptr :
  malloc_ok A B who own c s →
  ∃ r, get_record ptr s = Fin (Ok r) s ∧
    match B !! ptr with
    | None => r = 0
    | Some sz => r ∈ records s ∧ r ≠ 0 ∧ recs s !! r = Some (mkRecord ptr sz)
    end.
Proof.
  intros Hm. destruct (mo_recs _ _ _ _ _ _ Hm) as (l & HF & Hl).
  destruct (find_record_run l (records s) s ptr HF) as (r & E & Hcase). exists r.
  split; [unfold get_record; by rewrite (bind_run (gets records) _ s _ s eq_refl)|].
  destruct (B !! ptr) as [sz|] eqn:EB.
  - destruct Hcase as [[_ Hn]|(i & x & H1 & H2 & H3)].
    + exfalso. apply (Hn (ptr, sz)); [|done]. rewrite Hl. by apply elem_of_map_to_list.
    + pose proof (list_elem_of_lookup_2 _ _ _ H1) as Hin. pose proof (record_nonzero _ _ _ _ _ _ _ Hm Hin).
      split_and!; [done|lia|]. pose proof (Forall2_lookup_lr _ _ _ _ _ _ HF H1 H2) as Hr. rewrite Hr. destruct x as [x1 x2]. simpl in *. subst x1.
      apply list_elem_of_lookup_2 in H2. rewrite Hl in H2. apply elem_of_map_to_list in H2. congruence.
  - destruct Hcase as [[-> _]|(i & x & _ & H2 & H3)]; [done|]. exfalso.
    apply list_elem_of_lookup_2 in H2. rewrite Hl in H2. destruct x as [x1 x2]. apply elem_of_map_to_list in H2. simpl in *. congruence.
Qed.

Lemma remove_record_run A B who own c s p sz r :
  malloc_ok A B who own c s → r ∈ records s → recs s !! r = Some (mkRecord p sz) → B !! p = Some sz →
  ∃ s', remove_record r s = Fin (Ok tt) s' ∧ same_blocks A s s' ∧ malloc_ok A (delete p B) who own c s'.
Proof.
  intros Hm Hr Hrec HB. 
  assert (Hin : r ∈ live_of A (records s) PRecord) by (simpl; by apply elem_of_list_to_set).
  destruct (pool_free who (live_of A (records s)) (pools s) (heap s) PRecord r (mo_pools _ _ _ _ _ _ Hm) I Hin) as (x & h' & E & Hp & Hf & Hw).
  pose proof (unlink_perm r (records s) Hr) as Hu.
  assert (Hnd : (r ∉ list_unlink r (records s)) ∧ NoDup (list_unlink r (records s))).
  { pose proof (mo_nodup _ _ _ _ _ _ Hm) as Hn. rewrite Hu in Hn. by apply NoDup_cons in Hn. }
  eexists. split.
  { unfold remove_record. erewrite bind_run by reflexivity. erewrite bind_run by reflexivity. unfold on_pool. simpl. rewrite E. reflexivity. }
  split.
  { intros p0 r0 a Hp0 Ha. simpl. apply Hw. intros ->. pose proof (block_page _ _ _ _ _ _ _ _ _ Hm Hp0 Ha) as Ew.
    destruct (mo_pools _ _ _ _ _ _ Hm PRecord I) as [F HF]. pose proof (pool_type PRecord I).
    destruct (live_slab _ _ _ _ _ _ _ _ HF Hin) as (b & _ & Hb & Hwb & Hob & _). rewrite (kpage_obj _ _ b r Hb Hob), Hwb in Ew. by case_bool_decide. }
  destruct Hm as [M1 M2 M3 M4 M5 M6]. split; simpl; try done.
  - apply (pools_ok_ext _ (set_live PRecord (live_of A (records s) PRecord ∖ {[r]}) (live_of A (records s)))); [|done].
    intros [k|] _; unfold set_live; [by rewrite decide_False|]. rewrite decide_True by done. simpl. apply set_eq. intros y.
    rewrite elem_of_difference, !elem_of_list_to_set, elem_of_singleton. rewrite Hu at 2. rewrite elem_of_cons. set_solver.
  - by rewrite Hf.
  - apply Hnd.
  - destruct M6 as (l & HF & Hl). apply list_elem_of_lookup in Hr as [i Hi].
    destruct (Forall2_lookup_l _ _ _ _ _ HF Hi) as (y & Hy & Ey). rewrite Hrec in Ey. injection Ey as E1 E2. destruct y as [y1 y2]. simpl in *. subst y1 y2.
    exists (delete i l). assert (Eu : list_unlink r (records s) = delete i (records s)).
    { clear -Hi M5. revert i Hi. induction (records s) as [|z zs IH]; intros i Hi; [done|]. apply NoDup_cons in M5 as [Hz M5]. simpl.
      destruct i as [|i]; simpl in Hi; [injection Hi as ->; by rewrite Z.eqb_refl|].
      rewrite (proj2 (Z.eqb_neq z r)) by (intros ->; by apply Hz, (list_elem_of_lookup_2 _ i)). simpl. f_equal. by apply IH. }
    split.
    + rewrite Eu. apply Forall2_same_length_lookup. split.
      { pose proof (Forall2_length _ _ _ HF). rewrite !length_delete by done. lia. }
      intros j y z Hyj Hzj. rewrite <- Eu in Hyj. assert (y ≠ r) by (intros ->; apply Hnd; by apply (list_elem_of_lookup_2 _ j)). rewrite Eu in Hyj.
      rewrite lookup_delete_ne by done. destruct (decide (j < i)%nat) as [Hlt|Hge].
      * rewrite list_lookup_delete_lt in Hyj by lia. rewrite list_lookup_delete_lt in Hzj by lia. by apply (Forall2_lookup_lr _ _ _ _ _ _ HF Hyj Hzj).
      * rewrite list_lookup_delete_ge in Hyj by lia. rewrite list_lookup_delete_ge in Hzj by lia. by apply (Forall2_lookup_lr _ _ _ _ _ _ HF Hyj Hzj).
    + apply (Permutation_cons_inv (a := (p, sz))). rewrite (map_to_list_delete B p sz) by done. rewrite <- Hl. symmetry. by apply delete_Permutation.
Qed.

(** ** Giving blocks back *)

Lemma live_delete A rs k p o :
  A !! p = Some k → live_of (delete p A) rs o = set_live (PClass k) (live_of A rs (PClass k) ∖ {[p]}) (live_of A rs) o.
Proof.
  intros Hp. unfold set_live. destruct o as [k'|]; [|by rewrite decide_False].
  case_decide as E.
  - injection E as ->. apply set_eq. intros x. rewrite elem_of_difference, elem_of_singleton, !elem_live, lookup_delete_Some. naive_solver.
  - apply set_eq. intros x. rewrite !elem_live, lookup_delete_Some. split; [naive_solver|]. intros Hx. split; [|done]. congruence.
Qed.
Lemma block_nonempty A B who own c s p r : malloc_ok A B who own c s → A !! p = Some r → in_block p r p.
Proof.
  intros Hm Hp. destruct (mo_block _ _ _ _ _ _ Hm p r Hp) as [Hc|Hc]; [apply class_lt in Hc as [? _]|destruct Hc as [Hc _]; unfold big_size, KMAX in Hc]; unfold in_block; lia.
Qed.

Lemma give_small A B who own c s p r :
  malloc_ok A B who own c s → A !! p = Some r → r ∈ class_sizes →
  ∃ s', free_inner p r s = Fin (Ok tt) s' ∧ same_blocks (delete p A) s s' ∧ records s' = records s ∧ recs s' = recs s ∧
    malloc_ok (delete p A) B who own c s'.
Proof.
  intros Hm Hp Hr. destruct (class_lt r Hr) as (Hlt & Hc & Hne).
  assert (Hin : p ∈ live_of A (records s) (PClass r)) by by apply elem_live.
  destruct (pool_free who (live_of A (records s)) (pools s) (heap s) (PClass r) p (mo_pools _ _ _ _ _ _ Hm) Hr Hin) as (x & h' & E & Hpo & Hf & Hw).
  eexists. split.
  { unfold free_inner. rewrite (proj2 (Z.leb_gt KMAX r)), Hc, Hne by lia. rewrite (bind_run (massert true) _ s tt s eq_refl).
    unfold on_pool. by rewrite E. }
  split; [|split; [done|split; [done|]]].
  { intros p0 r0 a [Hpp Hp0]%lookup_delete_Some Ha. simpl. apply Hw. intros ->.
    apply Hpp. symmetry. by apply (blocks_apart _ _ _ _ _ _ _ _ _ _ _ Hm Hp0 Hp Ha), (block_nonempty _ _ _ _ _ _ _ _ Hm). }
  destruct Hm as [M1 M2 M3 M4 M5 M6]. split; simpl; try done.
  - apply (pools_ok_ext _ (set_live (PClass r) (live_of A (records s) (PClass r) ∖ {[p]}) (live_of A (records s)))); [|done].
    intros o _. by apply live_delete.
  - by rewrite Hf.
  - intros p0 r0 [_ Hp0]%lookup_delete_Some. by apply M4.
Qed.

Lemma big_live A p r rs o : A !! p = Some r → big_size r → pool_ok o → live_of (delete p A) rs o = live_of A rs o.
Proof.
  intros Hp Hr Ho. destruct o as [k|]; [|done]. apply set_eq. intros y. rewrite !elem_live, lookup_delete_Some. split; [naive_solver|].
  intros Hy. split; [|done]. intros <-. simpl in Ho. apply class_lt in Ho as [? _]. unfold big_size in Hr. assert (r = k) by congruence. lia.
Qed.

Lemma give_big `{!PageRuns G} A B who own c s p r :
  malloc_ok A B who own (S c) s → A !! p = Some r → big_ok who own p r →
  ∃ s' who' own', free_inner p r s = Fin (Ok tt) s' ∧ same_blocks (delete p A) s s' ∧ records s' = records s ∧ recs s' = recs s ∧
    malloc_ok (delete p A) B who' own' c s'.
Proof.
  intros Hm Hp (Hr & Hal & Hlo & Hhi & Hq). destruct (get_pages_bounds r Hr) as [Hn _]. set (n := get_pages r) in *. set (pa := p - KPA_OFFSET) in *.
  assert (Hpa : 0 < pa) by (unfold pa; lia).
  assert (Hal' : (PAGESIZE | pa)). { destruct Hal as [k Hk]. exists (k - 0xFFFFFFC000000). unfold pa, PAGESIZE, KPA_OFFSET in *. lia. }
  assert (Hlim : pa + n * PAGESIZE <= Buddy.LIMIT) by (unfold pa, Buddy.LIMIT; lia).
  destruct (to_window pa n Hpa Hal' Hlim) as (_ & C2 & _); [lia|]. replace (pa + KPA_OFFSET) with p in C2 by (unfold pa; lia).
  destruct (pr_put_law own c (frames (heap s)) pa n (mo_frames _ _ _ _ _ _ Hm)) as (x & g & E & Hpf);
    [lia|done|done|done|intros q Hin; by apply Hq|].
  set (who' := λ q, if bool_decide (Gfp.in_pages q pa n) then None else who q).
  eexists (mkMst (pools s) (records s) (recs s) (set_frames g (heap s))), who', (bump (-1) pa n own). split.
  { unfold free_inner. rewrite (proj2 (Z.leb_le KMAX r)) by (unfold big_size in Hr; lia). rewrite C2.
    rewrite (bind_run (of_addr _) _ s pa s) by done. fold n. erewrite bind_run; [reflexivity|]. unfold on_frames. by rewrite E. }
  split; [done|]. split; [done|]. split; [done|].
  destruct Hm as [M1 M2 M3 M4 M5 M6]. split; simpl; try done.
  - apply (pools_ok_ext _ (live_of A (records s))); [intros o Ho; by apply (big_live A p r)|].
    apply (pools_claim who _ _ _ (heap s)); try done. intros q o. unfold who'. case_bool_decide as Hin; [|done].
    destruct (Hq q Hin) as [-> _]. by split.
  - intros q. unfold who', bump. case_bool_decide; [done|]. apply M3.
  - intros p0 r0 [Hne Hp0]%lookup_delete_Some. destruct (M4 p0 r0 Hp0) as [?|(H1 & H2 & H3 & H4 & H5)]; [by left|right].
    split_and!; try done. intros q Hin. destruct (H5 q Hin) as [Hw Ho]. unfold who', bump.
    rewrite !bool_decide_eq_false_2; [done|intros Hi; destruct (Hq q Hi) as [Hw' _]; congruence..].
Qed.

Lemma heap_less A B who own c s : malloc_ok A B who own (S c) s → malloc_ok A B who own c s.
Proof. intros []. split; try done. by apply pf_less. Qed.

Lemma mfree_spec `{!PageRuns G} A who own c s p :
  malloc_ok A A who own (S c) s →
  match A !! p with
  | None => mfree p s = Fin (Ok tt) s
  | Some r => ∃ s' who' own', mfree p s = Fin (Ok tt) s' ∧ same_blocks (delete p A) s s' ∧
      malloc_ok (delete p A) (delete p A) who' own' c s'
  end.
Proof.
  intros Hm. destruct (get_record_run _ _ _ _ _ _ p Hm) as (x & E & Hx). unfold mfree. rewrite (bind_run _ _ _ _ _ E).
  destruct (A !! p) as [r|] eqn:EA; [|by subst x]. destruct Hx as (Hin & Hz & Hrec). rewrite (proj2 (Z.eqb_neq x 0)) by done.
  rewrite (bind_run (get_rec x) _ s (mkRecord p r) s) by (unfold get_rec; by rewrite Hrec). cbn [ar_size].
  assert (Hgive : ∃ s1 who' own', free_inner p r s = Fin (Ok tt) s1 ∧ same_blocks (delete p A) s s1 ∧ records s1 = records s ∧
    recs s1 = recs s ∧ malloc_ok (delete p A) A who' own' c s1).
  { destruct (mo_block _ _ _ _ _ _ Hm p r EA) as [Hc|Hb]; [|by eapply give_big].
    destruct (give_small A A who own c s p r (heap_less _ _ _ _ _ _ Hm) EA Hc) as (s1 & ?). by exists s1, who, own. }
  destruct Hgive as (s1 & who' & own' & E1 & Hs1 & Hr1 & Hr2 & Hm1). rewrite (bind_run _ _ _ _ _ E1).
  destruct (remove_record_run _ _ _ _ _ s1 p r x Hm1) as (s2 & E2 & Hs2 & Hm2); [by rewrite Hr1|by rewrite Hr2|done|].
  exists s2, who', own'. split; [done|]. split; [|done]. intros p0 r0 a Hp0 Ha. rewrite (Hs2 p0 r0 a Hp0 Ha). by apply (Hs1 p0 r0).
Qed.

(** ** [malloc] *)

(** How [malloc] takes the block itself, and the run of pages it may need. *)
Definition take_block (r : Z) : M (mst G) Z := if KMAX <=? r then large_malloc r else small_malloc r.
Definition block_pages (r : Z) : Z := if KMAX <=? r then get_pages r else 1.

(** The block was taken, but no free record is left for it and the page
    allocator refuses the page for more records. *)
Definition record_refused (sz : Z) (s : mst G) : Prop :=
  no_records s ∧ ∃ p s1, take_block (block_size sz) s = Fin (Ok p) s1 ∧ p ≠ 0 ∧ no_pages 1 s1.

Lemma malloc_spec A who own c s sz :
  malloc_ok A A who own (S (S c)) s → 0 <= sz <= 2 ^ 27 →
  (malloc sz s = Panic ∧ record_refused sz s) ∨
  ∃ p s' who' own', malloc sz s = Fin (Ok p) s' ∧ same_blocks A s s' ∧
    if bool_decide (p = 0) then no_pages (block_pages (block_size sz)) s ∧ malloc_ok A A who' own' c s'
    else A !! p = None ∧ malloc_ok (<[p := block_size sz]> A) (<[p := block_size sz]> A) who' own' c s'.
Proof.
  intros Hm Hsz. destruct (block_size_cases sz Hsz) as (_ & Hpow & Hcase).
  unfold record_refused. remember (block_size sz) as r eqn:Er.
  assert (Htake : ∃ p s1 who' own', take_block r s = Fin (Ok p) s1 ∧
    contains_small_size r || (KMAX <=? r) = true ∧ same_blocks A s s1 ∧ records s1 = records s ∧
    pools s1 PRecord = pools s PRecord ∧
    if bool_decide (p = 0) then no_pages (block_pages r) s ∧ malloc_ok A A who' own' (S c) s1 else A !! p = None ∧ malloc_ok (<[p := r]> A) A who' own' (S c) s1).
  { unfold take_block, block_pages. destruct Hcase as [[Hc Hlt]|Hb].
    - destruct (class_lt r Hc) as (_ & Hcs & _). rewrite (proj2 (Z.leb_gt KMAX r)) by lia.
      destruct (take_small A A who own (S c) s r Hm Hc) as (p & s1 & w1 & o1 & ?). exists p, s1, w1, o1. rewrite Hcs. naive_solver.
    - rewrite (proj2 (Z.leb_le KMAX r)) by (unfold big_size in Hb; lia). rewrite orb_true_r.
      destruct (take_big A A who own (S c) s r Hm Hb Hpow) as (p & s1 & w1 & o1 & ?). exists p, s1, w1, o1. naive_solver. }
  destruct Htake as (p & s1 & w1 & o1 & E1 & Hass & Hs1 & Hrs & Hrp & Hm1).
  pose proof E1 as E1'. unfold take_block in E1'.
  unfold malloc. cbv zeta. rewrite <- Er, Hass, (bind_run (massert true) _ s tt s eq_refl), (bind_run _ _ _ _ _ E1').
  case_bool_decide as Hp0.
  { subst p. right. exists 0, s1, w1, o1. split; [done|]. split; [done|]. simpl. destruct Hm1. split; [done|].
    by apply heap_less. }
  destruct Hm1 as [Hfresh Hm1]. rewrite (proj2 (Z.eqb_neq p 0)) by done.
  destruct (add_record_run _ _ _ _ _ s1 p r Hm1 Hfresh) as [(E2 & Hn & Hno)|(s2 & w2 & o2 & E2 & Hs2 & Hm2)].
  { left. split; [unfold mbind, M_bind; by rewrite E2|]. unfold no_records in *. rewrite Hrp in Hn. split; [done|].
    by exists p, s1. }
  right. exists p, s2, w2, o2. rewrite (bind_run _ _ _ _ _ E2). split; [done|]. split.
  - intros p0 r0 a Hp Ha. rewrite (Hs2 p0 r0 a); [by apply (Hs1 p0 r0)| |done]. rewrite lookup_insert_ne; congruence.
  - by rewrite bool_decide_eq_false_2.
Qed.

(** ** All operations *)

Inductive heap_op := MMalloc (sz : Z) | MFree (p : Z) | MWrite (a v : Z).
Definition run_heap_op (op : heap_op) : M (mst G) Z :=
  match op with
  | MMalloc sz => malloc sz
  | MFree p => _ ← mfree p; mret 0
  | MWrite a v => _ ← modify (λ s, mkMst (pools s) (records s) (recs s) (set_words <[a := v]> (heap s))); mret 0
  end.
(** Users ask for at most 128 MiB, the largest run of pages, and write to their blocks.
    They may free any address. *)
Definition heap_op_ok (A : gmap Z Z) (op : heap_op) : Prop :=
  match op with
  | MMalloc sz => 0 <= sz <= 2 ^ 27
  | MFree _ => True
  | MWrite a _ => ∃ p r, A !! p = Some r ∧ in_block p r a
  end.
Definition blocks_after (A : gmap Z Z) (op : heap_op) (r : Z) : gmap Z Z :=
  match op with
  | MMalloc sz => if bool_decide (r = 0) then A else <[r := block_size sz]> A
  | MFree p => delete p A
  | MWrite _ _ => A
  end.
Definition byte_after (ws : gmap Z Z) (op : heap_op) (a : Z) : option Z :=
  match op with MWrite a' v => if bool_decide (a = a') then Some v else ws !! a | _ => ws !! a end.

Lemma pools_write A who own c s p r a v :
  malloc_ok A A who own c s → A !! p = Some r → in_block p r a →
  pools_ok who (live_of A (records s)) (pools s) (set_words <[a := v]> (heap s)).
Proof.
  intros Hm Hp Ha o Ho. destruct (mo_pools _ _ _ _ _ _ Hm o Ho) as [F HF]. exists F. pose proof (pool_type o Ho).
  apply (slub_frame _ _ _ _ _ _ (heap s) _ HF); [done|]. intros b x Hb Hx. simpl. apply lookup_insert_ne. intros ->.
  pose proof (block_page _ _ _ _ _ _ _ _ _ Hm Hp Ha) as Ew.
  destruct (so_slab _ _ _ _ _ _ _ HF b Hb) as (_ & _ & _ & [_ _ K3 _ _] & _ & Hbb & Hmine).
  rewrite (kpage_obj _ _ b x Hbb (K3 x Hx)), Hmine in Ew. case_bool_decide as Hr; [|done]. injection Ew as ->.
  apply (inside_not_free _ _ _ _ _ _ _ p x b x HF); [by apply elem_live| |done|done|done].
  unfold inside. by rewrite (pool_obj_size (PClass r) Hr).
Qed.

(** C5: the kernel heap gives out disjoint blocks that are large enough and keeps its
    hands off them, for requests of at most 128 MiB (the longest run of pages), calls
    that run one after the other, and users that write only to their blocks.  [malloc]
    returns a new block of at least the requested size, or null, and null only when the
    page allocator refuses the pages the block needs; [free] gives back exactly the
    block at the address, and does nothing for an address that is not a block, so that
    a second [free] is harmless; no address lies in two blocks; no word of a block
    changes unless its user writes it.  The one way to stop the kernel is a [malloc]
    that has taken its block, finds no free record for it, and is refused the page for
    more records. *)
Theorem heap_blocks_safe `{!PageRuns G} A who own c s op :
  malloc_ok A A who own (S (S c)) s → heap_op_ok A op →
  (run_heap_op op s = Panic ∧ ∃ sz, op = MMalloc sz ∧ record_refused sz s) ∨
  ∃ r s' who' own', run_heap_op op s = Fin (Ok r) s' ∧
    malloc_ok (blocks_after A op r) (blocks_after A op r) who' own' c s' ∧
    (∀ sz, op = MMalloc sz → if bool_decide (r = 0) then no_pages (block_pages (block_size sz)) s
                             else A !! r = None ∧ sz <= block_size sz) ∧
    (∀ p, op = MFree p → A !! p = None → s' = s) ∧
    (∀ p n p' n' a, blocks_after A op r !! p = Some n → blocks_after A op r !! p' = Some n' →
       in_block p n a → in_block p' n' a → p = p') ∧
    (∀ p n a, A !! p = Some n → blocks_after A op r !! p = Some n → in_block p n a →
       words (heap s') !! a = byte_after (words (heap s)) op a).
Proof.
  intros Hm Hop.
  assert (Hmain : (run_heap_op op s = Panic ∧ ∃ sz, op = MMalloc sz ∧ record_refused sz s) ∨
    ∃ r s' who' own', run_heap_op op s = Fin (Ok r) s' ∧
      malloc_ok (blocks_after A op r) (blocks_after A op r) who' own' c s' ∧
      (∀ sz, op = MMalloc sz → if bool_decide (r = 0) then no_pages (block_pages (block_size sz)) s
                               else A !! r = None ∧ sz <= block_size sz) ∧
      (∀ p, op = MFree p → A !! p = None → s' = s) ∧
      (∀ p n a, A !! p = Some n → blocks_after A op r !! p = Some n → in_block p n a →
         words (heap s') !! a = byte_after (words (heap s)) op a)).
  { destruct op as [sz|p|a v]; simpl in Hop.
    - destruct (malloc_spec A who own c s sz Hm Hop) as [(E & Hn)|(p & s' & w & o & E & Hs & Hr)];
        [left; split; [done|by exists sz]|right].
      exists p, s', w, o. cbn [run_heap_op blocks_after byte_after]. split; [done|]. destruct (block_size_cases sz Hop) as [Hsz _].
      case_bool_decide as Hp; destruct Hr as [Hfresh Hr]; (split; [done|]); (split; [by intros sz' [= <-]|]); (split; [done|]);
        intros p0 n a Hp0 _ Ha; by apply (Hs p0 n).
    - right. pose proof (mfree_spec A who own (S c) s p Hm) as Hf. cbn [run_heap_op blocks_after byte_after].
      destruct (A !! p) as [r|] eqn:Ep.
      + destruct Hf as (s' & w & o & E & Hs & Hr). exists 0, s', w, o. rewrite (bind_run _ _ _ _ _ E). split; [done|].
        split; [by apply heap_less|]. split; [done|]. split; [intros p' [= <-]; congruence|].
        intros p0 n a _ Hp0 Ha. by apply (Hs p0 n).
      + exists 0, s, who, own. rewrite (bind_run _ _ _ _ _ Hf), delete_id by done. split; [done|]. split; [by apply heap_less, heap_less|]. by split_and!.
    - right. destruct Hop as (p & r & Hp & Ha). cbn [run_heap_op blocks_after byte_after]. eexists 0, _, who, own. split; [reflexivity|].
      pose proof (pools_write _ _ _ _ _ _ _ _ v Hm Hp Ha) as Hpo. apply heap_less, heap_less in Hm. destruct Hm as [M1 M2 M3 M4 M5 M6].
      split; [by split|]. split; [done|]. split; [done|]. intros p0 n a' _ _ _. simpl.
      case_bool_decide as E; [subst; apply lookup_insert_eq|by apply lookup_insert_ne]. }
  destruct Hmain as [?|(r & s' & w & o & H1 & H2 & H3 & H4 & H5)]; [by left|right]. exists r, s', w, o. split_and!; try done.
  intros p n p' n' a. by apply (blocks_apart _ _ _ _ _ _ _ _ _ _ _ H2).
Qed.

(** A request of more than 2^63 bytes is answered with a block of 8. *)
Lemma huge_request_gets_8 sz : 2 ^ 63 < sz < 2 ^ 64 → block_size sz = 8.
Proof. intros Hs. unfold block_size. by rewrite up2pow_wraps. Qed.
End spec.

(** ** The page-frame interface of the boot phase *)

Import Gfp MemFrames.

Lemma linear_puts addr rs (s : linear) : raw_puts addr rs s = Fin (Ok tt) s.
Proof. induction rs as [|[st len] rs IH]; [done|]. simpl. by rewrite (bind_run (linear_put_page _ _) _ s tt s eq_refl). Qed.

#[export, refine] Instance linear_runs : PageRuns (gfp linear) := {| pr_put_law := _ |}.
Proof.
  intros own c g p n (Hg & Hc & Hr & Ht) Hn Hp Hal Hl Hone.
  assert (Hrg : range_ok p n) by (split; try done; lia). pose proof (range_ok_topfn p n Hrg) as Etop.
  assert (Etr : tracked p n = true).
  { assert (Hlast : in_pages (p / PAGESIZE + n - 1) p n) by (unfold in_pages; lia).
    assert (Htr : p / PAGESIZE + n - 1 < MAX_TRACKED_PAGES) by (apply Ht; rewrite (Hone _ Hlast); lia).
    unfold tracked. rewrite Etop. apply andb_true_iff. split; [apply Z.ltb_lt|apply Z.leb_le]; lia. }
  assert (Hpre : op_pre g (OpPut p n)).
  { split; [done|]. split; [done|]. generalize (released p n (refcounts g)) (g_raw g). induction l as [|[st len] l IH]; intros x; [done|].
    split; [done|]. intros s' _. apply IH. }
  destruct (gfp_put_inv g p n Hg Hpre) as (g' & E & Hg'). exists (Ok tt), g'. split; [done|].
  destruct Hg as (Hi & Hm & Hfree). rewrite (gfp_put_page_run p n g (g_raw g) Hm Hrg Etr) in E by apply linear_puts. simplify_eq.
  split_and!; [done|done| |].
  - intros q. unfold ref. simpl. rewrite dec_refs_lookup, Etop by done. rewrite Z2Nat.id by lia.
    pose proof (in_pages_bool q p n) as Hib. specialize (Hr q). unfold ref in Hr. unfold bump. destruct (_ && _).
    + rewrite bool_decide_eq_true_2 by by apply Hib. rewrite Hr, (Hone q) by by apply Hib. done.
    + rewrite bool_decide_eq_false_2; [done|]. intros Hq. apply Hib in Hq. done.
  - intros q. unfold bump. case_bool_decide; intros Hq; apply Ht; lia.
Defined.
End Malloc.

Module MallocWitness.
Import Slub Malloc Gfp MemFrames SlubWitness.

Definition ex_mst : mst (gfp linear) := mkMst (λ _, no_slabs) [] ∅ ex_heap.
Lemma ex_mst_ok c : malloc_ok ∅ ∅ (λ _, None) (λ _, 0) c ex_mst.
Proof.
  split; try done.
  - intros o Ho. exists (λ _, []). simpl.
    replace (live_of ∅ [] o) with (∅ : gset Z) by (destruct o; simpl; [by rewrite map_filter_empty, dom_empty_L|done]).
    destruct (no_slabs_ok (pool_size o) (pool_align o)) as [H1 H2 H3 H4]. split; try done. by intros b []%elem_of_nil.
  - apply ex_frames_inv.
  - constructor.
  - exists []. split; [constructor|]. by rewrite map_to_list_empty.
Qed.
Lemma ex_malloc : match malloc 100 ex_mst with Fin (Ok p) s => (p, length (records s)) | _ => (0, 0%nat) end = (0xFFFFFFC080000030, 1%nat).
Proof. vm_compute. reflexivity. Qed.

(** 100 bytes get a block of 128 in the first slab. *)
Lemma heap_blocks_safe_witness :
  ∃ s, run_heap_op (MMalloc 100) ex_mst = Fin (Ok 0xFFFFFFC080000030) s ∧ 100 <= block_size 100 ∧
    ∃ r s', run_heap_op (MFree 0xFFFFFFC080000030) s = Fin (Ok r) s'.
Proof.
  pose proof ex_malloc as Er.
  destruct (heap_blocks_safe ∅ (λ _, None) (λ _, 0) 2 ex_mst (MMalloc 100)) as [(E & _)|(r & s & w & o & E & Hok & Hsz & _)];
    [apply ex_mst_ok|simpl; lia|cbn [run_heap_op] in E; rewrite E in Er; discriminate Er|].
  cbn [run_heap_op] in E. rewrite E in Er. injection Er as Er _. subst r. exists s. split; [exact E|].
  pose proof (Hsz 100 eq_refl) as Hx. rewrite bool_decide_eq_false_2 in Hx by lia.
  destruct Hx as [_ Hle]. split; [exact Hle|].
  destruct (heap_blocks_safe _ w o 0 s (MFree 0xFFFFFFC080000030) Hok I) as [(_ & sz & Hc & _)|(r & s' & _ & _ & E' & _)];
    [discriminate Hc|]. by exists r, s'.
Defined.
End MallocWitness.
