(* ===== verification/HashMap.v ===== *)
(** * Hash tables

    [include/std/c++/unordered_map]: the hash table with chained buckets behind
    [std::unordered_map], which the file systems, the page cache and the mount
    tables of the kernel keep their state in, and the hash functions of
    [include/std/c++/functional] and [string_view].

    The buckets are a list of chains, [buckets_[i]] first node first; their number is
    [bucket_count_], and a moved-from map ([buckets_ == nullptr]) has none.  The nodes
    of a table never move, so a node is named by its key, and an iterator is the index
    of its bucket and the key of its node.  [UMap] is what the clients rely on: a
    finite map that can be enumerated in some order.  Allocations succeed: the
    code does not test for a null pointer, which it would write to. *)

From S2P Require Import Prelude ErrCode.

#[local] Open Scope Z_scope.

(** ** What a table promises *)

(** [um_list] is the order in which [begin()] and [++] visit the entries. *)
Class UMap (K : Type) `{Countable K} (U : Type → Type) := {
  um_empty {V} : U V;
  um_find {V} (k : K) (u : U V) : option V;
  um_put {V} (k : K) (v : V) (u : U V) : U V;
  um_erase {V} (k : K) (u : U V) : U V;
  um_size {V} (u : U V) : Z;
  um_list {V} (u : U V) : list (K * V);
  um_wf {V} (u : U V) : Prop;
  um_map {V} (u : U V) : gmap K V := list_to_map (um_list u);
  um_nodup {V} (u : U V) : um_wf u → NoDup (um_list u).*1;
  um_empty_wf {V} : um_wf (@um_empty V);
  um_empty_map {V} : um_map (@um_empty V) = ∅;
  um_find_map {V} k (u : U V) : um_wf u → um_find k u = um_map u !! k;
  um_put_wf {V} k v (u : U V) : um_wf u → um_wf (um_put k v u);
  um_put_map {V} k v (u : U V) : um_wf u → um_map (um_put k v u) = <[k := v]> (um_map u);
  um_erase_wf {V} k (u : U V) : um_wf u → um_wf (um_erase k u);
  um_erase_map {V} k (u : U V) : um_wf u → um_map (um_erase k u) = delete k (um_map u);
  um_size_map {V} (u : U V) : um_wf u → um_size u = wrap64 (Z.of_nat (size (um_map u)));
}.

(** ** The load factor *)

Module Rational.

Record RationalNumber := mkRational { numerator : Z; denominator : Z }.

(** Two 64-bit numbers meet in fewer than 130 divisions ([gcd_loop_spec]). *)
Definition GCD_FUEL : nat := 130.

Fixpoint gcd_loop (fuel : nat) (lhs rhs : Z) : option Z :=
  match fuel with
  | O => None
  | S fuel =>
      if rhs =? 0 then Some (if lhs =? 0 then 1 else lhs)
      else gcd_loop fuel rhs (lhs mod rhs)
  end.

Definition gcd (lhs rhs : Z) : Z := default 0 (gcd_loop GCD_FUEL lhs rhs).

Definition normalize (r : RationalNumber) : RationalNumber :=
  if (numerator r =? 0) || (denominator r =? 0) then mkRational 1 1
  else let div := gcd (numerator r) (denominator r) in
       mkRational (numerator r / div) (denominator r / div).

Definition rational (num denom : Z) : RationalNumber := normalize (mkRational num denom).
Definition one : RationalNumber := mkRational 1 1.

End Rational.
Import Rational.

(** ** The table *)

Module HashMap.

Record unordered_map (K V : Type) := mkUMap {
  buckets_ : list (list (K * V));
  size_ : Z;
  max_load_factor_ : RationalNumber;
}.
Arguments mkUMap {K V} _ _ _.
Arguments buckets_ {K V} _.
Arguments size_ {K V} _.
Arguments max_load_factor_ {K V} _.

(** [bucket_index_] and [node_]; the key [None] is the null pointer. *)
Record iterator (K : Type) := mkIt { bucket_index_ : nat; node_ : option K }.
Arguments mkIt {K} _ _.
Arguments bucket_index_ {K} _.
Arguments node_ {K} _.

Section table.
Context {K V : Type} `{Countable K} (hash : K → Z).

Implicit Types (u : unordered_map K V) (k : K) (v : V) (c : list (K * V)).

Definition bucket_count u : Z := Z.of_nat (length (buckets_ u)).

(** The constructor with a number of buckets. *)
Definition with_buckets (bucket_count : Z) : unordered_map K V :=
  mkUMap (replicate (Z.to_nat (if bucket_count =? 0 then 1 else bucket_count)) []) 0 one.
Definition empty_map : unordered_map K V := with_buckets 1.

Definition bucket_index_for_size (k : K) (count : Z) : nat :=
  if count =? 0 then 0%nat else Z.to_nat (hash k mod count).
Definition bucket_index u k : nat := bucket_index_for_size k (bucket_count u).

Definition chain u (i : nat) : list (K * V) := default [] (buckets_ u !! i).

(** *** Iterators *)

Definition end_ u : iterator K := mkIt (length (buckets_ u)) None.

(** The first node of the first bucket from [i] on that has one. *)
Fixpoint seek (bs : list (list (K * V))) (i : nat) : iterator K :=
  match bs with
  | [] => mkIt i None
  | [] :: bs => seek bs (S i)
  | (kv :: _) :: _ => mkIt i (Some kv.1)
  end.

Definition begin_ u : iterator K := seek (buckets_ u) 0.

(** [node->next] of the node with key [k]. *)
Fixpoint chain_next (k : K) c : option K :=
  match c with
  | [] => None
  | (k', _) :: c => if decide (k' = k) then fst <$> head c else chain_next k c
  end.

(** [operator++] *)
Definition it_next u (it : iterator K) : iterator K :=
  match node_ it with
  | None => it
  | Some k =>
      match chain_next k (chain u (bucket_index_ it)) with
      | Some k' => mkIt (bucket_index_ it) (Some k')
      | None => seek (drop (S (bucket_index_ it)) (buckets_ u)) (S (bucket_index_ it))
      end
  end.

Definition it_eqb (it1 it2 : iterator K) : bool := bool_decide (node_ it1 = node_ it2).

(** *** Lookup *)

Fixpoint chain_find (k : K) c : option V :=
  match c with
  | [] => None
  | (k', v) :: c => if decide (k' = k) then Some v else chain_find k c
  end.

Definition find u k : iterator K :=
  if bucket_count u =? 0 then end_ u
  else let index := bucket_index u k in
       match chain_find k (chain u index) with
       | Some _ => mkIt index (Some k)
       | None => end_ u
       end.

(** [it->second]; [None] when the iterator points at no node. *)
Definition it_value u (it : iterator K) : option V :=
  k ← node_ it; chain_find k (chain u (bucket_index_ it)).

Definition at_nt u k : option V :=
  let it := find u k in if it_eqb it (end_ u) then None else it_value u it.
Definition contains u k : bool := negb (it_eqb (find u k) (end_ u)).
Definition count u k : Z := if contains u k then 1 else 0.
Definition equal_range u k : iterator K * iterator K :=
  let it := find u k in
  if it_eqb it (end_ u) then (it, it) else (it, it_next u it).

Definition bucket_size u (n : Z) : Z :=
  if (length (buckets_ u) =? 0)%nat || (bucket_count u <=? n) then 0
  else Z.of_nat (length (chain u (Z.to_nat n))).

Definition empty u : bool := size_ u =? 0.

(** What a [for] loop over the map visits. *)
Fixpoint collect (fuel : nat) u (it : iterator K) : list (K * V) :=
  match fuel, node_ it, it_value u it with
  | S fuel, Some k, Some v => (k, v) :: collect fuel u (it_next u it)
  | _, _, _ => []
  end.
Definition entries u : list (K * V) := collect (length (concat (buckets_ u))) u (begin_ u).

(** *** Growing *)

Definition U_exceeds_max_load u (element_count bucket_count : Z) : bool :=
  mul64 bucket_count (numerator (max_load_factor_ u)) <?
  mul64 element_count (denominator (max_load_factor_ u)).

Definition U_min_bucket_count u (element_count : Z) : Z :=
  if element_count =? 0 then 1
  else
    let n := numerator (max_load_factor_ u) in
    let d := denominator (max_load_factor_ u) in
    let count := sub64 (add64 (mul64 element_count d) n) 1 / n in
    if count =? 0 then 1 else count.

(** [node->next = buckets[i]; buckets[i] = node] *)
Definition push (i : nat) (kv : K * V) (bs : list (list (K * V))) : list (list (K * V)) :=
  alter (cons kv) i bs.

Definition rehash u (count : Z) : unordered_map K V :=
  let min_count := U_min_bucket_count u (size_ u) in
  let count := if count <? min_count then min_count else count in
  if count =? bucket_count u then u
  else
    let count := if count =? 0 then 1 else count in
    let move new_buckets kv := push (bucket_index_for_size kv.1 count) kv new_buckets in
    mkUMap (foldl move (replicate (Z.to_nat count) []) (concat (buckets_ u)))
      (size_ u) (max_load_factor_ u).

Definition reserve u (count : Z) : unordered_map K V := rehash u (U_min_bucket_count u count).
Definition set_max_load_factor u (ml : RationalNumber) : unordered_map K V :=
  mkUMap (buckets_ u) (size_ u) ml.

(** *** Insertion *)

Definition U_try_emplace u k v : unordered_map K V * (iterator K * bool) :=
  let u := if bucket_count u =? 0 then mkUMap [[]] (size_ u) (max_load_factor_ u) else u in
  let index := bucket_index u k in
  match chain_find k (chain u index) with
  | Some _ => (u, (mkIt index (Some k), false))
  | None =>
      let u := if U_exceeds_max_load u (add64 (size_ u) 1) (bucket_count u)
               then rehash u (mul64 (bucket_count u) 2) else u in
      let index := bucket_index u k in
      (mkUMap (push index (k, v) (buckets_ u)) (add64 (size_ u) 1) (max_load_factor_ u),
       (mkIt index (Some k), true))
  end.

Definition insert u (kv : K * V) : unordered_map K V := (U_try_emplace u kv.1 kv.2).1.
Definition insert_all u (l : list (K * V)) : unordered_map K V := foldl insert u l.

(** [it->second = value] *)
Fixpoint chain_assign (k : K) v c : list (K * V) :=
  match c with
  | [] => []
  | (k', v') :: c => if decide (k' = k) then (k', v) :: c else (k', v') :: chain_assign k v c
  end.

Definition insert_or_assign u k v : unordered_map K V * (iterator K * bool) :=
  let it := find u k in
  if it_eqb it (end_ u) then U_try_emplace u k v
  else (mkUMap (alter (chain_assign k v) (bucket_index_ it) (buckets_ u))
          (size_ u) (max_load_factor_ u), (it, false)).

(** [operator[]] with the default value [d]: the map and the value found. *)
Definition subscript u k (d : V) : unordered_map K V * option V :=
  let '(u', (it, _)) := U_try_emplace u k d in (u', it_value u' it).

(** *** Removal *)

Fixpoint chain_remove (k : K) c : list (K * V) :=
  match c with
  | [] => []
  | (k', v) :: c => if decide (k' = k) then c else (k', v) :: chain_remove k c
  end.

Definition erase_it u (pos : iterator K) : unordered_map K V * iterator K :=
  match node_ pos with
  | None => (u, end_ u)
  | Some k =>
      let index := bucket_index_ pos in
      match chain_find k (chain u index) with
      | None => (u, end_ u)
      | Some _ =>
          let next := chain_next k (chain u index) in
          let u' := mkUMap (alter (chain_remove k) index (buckets_ u))
                      (sub64 (size_ u) 1) (max_load_factor_ u) in
          (u', match next with
               | Some k' => mkIt index (Some k')
               | None => seek (drop (S index) (buckets_ u')) (S index)
               end)
      end
  end.

Definition erase u k : unordered_map K V * Z :=
  let it := find u k in
  if it_eqb it (end_ u) then (u, 0) else ((erase_it u it).1, 1).

Fixpoint erase_range (fuel : nat) u (first last : iterator K)
    : option (unordered_map K V * iterator K) :=
  if it_eqb first last then Some (u, last)
  else match fuel with
       | O => None
       | S fuel => let '(u', first) := erase_it u first in erase_range fuel u' first last
       end.

Definition clear u : unordered_map K V :=
  mkUMap ((λ _, []) <$> buckets_ u) 0 (max_load_factor_ u).

(** *** Copy and move *)

Definition copy u : unordered_map K V :=
  insert_all (set_max_load_factor (with_buckets (bucket_count u)) (max_load_factor_ u))
    (entries u).

(** The new map and what is left of the old one. *)
Definition move u : unordered_map K V * unordered_map K V :=
  (u, mkUMap [] 0 (max_load_factor_ u)).

End table.

(** *** Hash functions *)

(** [__trival_hash] with the default salt. *)
Definition trival_hash (value : Z) : Z := wrap64 value.

(** [__string_view_hash]; a [char] of riscv64 is unsigned. *)
Definition string_hash (str : string) : Z :=
  foldl (λ h ch, add64 (mul64 h 42) (Z.of_nat (Ascii.nat_of_ascii ch))) 0
    (String.list_ascii_of_string str).

End HashMap.
Import HashMap.

(** ** Euclid's loop *)

Module RationalFacts.

Lemma gcd_loop_S n a b :
  gcd_loop (S n) a b =
  if b =? 0 then Some (if a =? 0 then 1 else a) else gcd_loop n b (a mod b).
Proof. done. Qed.

Lemma gcd_loop_run n a b :
  0 <= b <= a → a * b < 2 ^ Z.of_nat n → (a = 0 → b = 0) →
  gcd_loop (S n) a b = Some (if Z.gcd a b =? 0 then 1 else Z.gcd a b).
Proof.
  revert a b. induction n as [|n IH]; intros a b Hb Hn Ha.
  - change (2 ^ Z.of_nat 0) with 1 in Hn. assert (b = 0) as -> by nia. cbn.
    rewrite Z.gcd_0_r, Z.abs_eq by lia. done.
  - rewrite gcd_loop_S. destruct (Z.eqb_spec b 0) as [->|Hb0].
    + rewrite Z.gcd_0_r, Z.abs_eq by lia. done.
    + pose proof (Z.mod_pos_bound a b). pose proof (Z.div_mod a b).
      assert (1 <= a / b) by (apply Z.div_le_lower_bound; lia).
      rewrite IH; [| lia | | lia].
      * rewrite (Z.gcd_comm b), Z.gcd_mod by lia. by rewrite Z.gcd_comm.
      * rewrite Nat2Z.inj_succ, Z.pow_succ_r in Hn by lia. nia.
Qed.

Lemma gcd_loop_spec a b :
  is_u64 a → is_u64 b → gcd a b = if Z.gcd a b =? 0 then 1 else Z.gcd a b.
Proof.
  unfold is_u64, W64. intros Ha Hb. unfold gcd, GCD_FUEL.
  assert (∀ x y, 0 <= y <= x → x < 2 ^ 64 → x * y < 2 ^ Z.of_nat 128) as Hprod.
  { intros x y Hy Hx. change (2 ^ Z.of_nat 128) with (2 ^ 64 * 2 ^ 64). nia. }
  change 130%nat with (S (S 128)).
  destruct (Z.leb_spec b a) as [Hle|Hgt].
  - rewrite (gcd_loop_run 129); [done|lia| |lia].
    eapply Z.lt_le_trans; [apply Hprod; lia|]. apply Z.pow_le_mono_r; lia.
  - rewrite gcd_loop_S, (proj2 (Z.eqb_neq b 0)) by lia.
    rewrite Z.mod_small by lia. rewrite (gcd_loop_run 128); [|lia|apply Hprod; lia|lia].
    cbn. by rewrite Z.gcd_comm.
Qed.

(** The fraction in lowest terms has the value it was given. *)
Lemma rational_normal n d :
  is_u64 n → is_u64 d → n ≠ 0 → d ≠ 0 →
  let r := rational n d in
  numerator r * d = n * denominator r ∧ Z.gcd (numerator r) (denominator r) = 1.
Proof.
  intros Hn Hd Hn0 Hd0. cbn zeta. unfold rational, normalize. cbn [numerator denominator].
  rewrite !(proj2 (Z.eqb_neq _ _)) by done. cbn [orb].
  rewrite gcd_loop_spec by done.
  assert (Z.gcd n d ≠ 0) as Hg by (intros [? ?]%Z.gcd_eq_0; done).
  rewrite (proj2 (Z.eqb_neq _ _)) by done. cbn [numerator denominator].
  pose proof (Z.gcd_nonneg n d). split.
  - destruct (Z.gcd_divide_l n d) as [x Hx], (Z.gcd_divide_r n d) as [y Hy].
    rewrite Hx at 1. rewrite Hy at 4. rewrite !Z.div_mul by done. nia.
  - apply Z.gcd_div_gcd; done.
Qed.

End RationalFacts.

(** ** A table is a finite map *)

Module HashMapFacts.

Section table_facts.
Context {K V : Type} `{Countable K} (hash : K → Z).

Implicit Types (u : unordered_map K V) (k : K) (v : V) (c : list (K * V))
  (bs : list (list (K * V))).

(** Every node hangs in the bucket of its hash, no key twice, and [size_] counts the
    nodes. *)
Record wf u : Prop := {
  wf_nodup : NoDup (concat (buckets_ u)).*1;
  wf_home i c kv : buckets_ u !! i = Some c → kv ∈ c → i = bucket_index hash u kv.1;
  wf_size : size_ u = wrap64 (Z.of_nat (length (concat (buckets_ u))));
}.

Definition to_map u : gmap K V := list_to_map (concat (buckets_ u)).

(** *** Chains *)

Lemma chain_find_map k c : chain_find k c = (list_to_map c : gmap K V) !! k.
Proof.
  induction c as [|[k' v] c IH]; cbn; [by rewrite lookup_empty|].
  destruct (decide (k' = k)) as [->|]; by simplify_map_eq.
Qed.

Lemma chain_find_elem k v c : chain_find k c = Some v → (k, v) ∈ c.
Proof. rewrite chain_find_map. apply elem_of_list_to_map_2. Qed.

Lemma chain_find_some k v c : NoDup c.*1 → (k, v) ∈ c → chain_find k c = Some v.
Proof. rewrite chain_find_map. apply elem_of_list_to_map_1. Qed.

Lemma chain_remove_perm k v c :
  chain_find k c = Some v → c ≡ₚ (k, v) :: chain_remove k c.
Proof.
  induction c as [|[k' v'] c IH]; cbn; [done|].
  destruct (decide (k' = k)) as [->|]; [by intros [= ->]|].
  intros Hk%IH. rewrite Hk at 1. apply Permutation_swap.
Qed.

Lemma chain_assign_perm k v v' c :
  chain_find k c = Some v' → chain_assign k v c ≡ₚ (k, v) :: chain_remove k c.
Proof.
  induction c as [|[k' v''] c IH]; cbn; [done|].
  destruct (decide (k' = k)) as [->|]; [done|].
  intros Hk%IH. rewrite Hk. apply Permutation_swap.
Qed.

(** *** One bucket of many *)

Lemma concat_delete bs i c : bs !! i = Some c → concat bs ≡ₚ c ++ concat (delete i bs).
Proof.
  revert i. induction bs as [|c' bs IH]; intros [|i] Hi; simplify_eq/=; [done|].
  rewrite (IH _ Hi) at 1. rewrite !app_assoc. f_equiv. apply Permutation_app_comm.
Qed.

Lemma concat_put bs i c c' :
  bs !! i = Some c' → concat (<[i := c]> bs) ≡ₚ c ++ concat (delete i bs).
Proof.
  revert i. induction bs as [|c0 bs IH]; intros [|i] Hi; simplify_eq/=; [done|].
  rewrite (IH _ Hi). rewrite !app_assoc. f_equiv. apply Permutation_app_comm.
Qed.

Lemma alter_at bs i c f : bs !! i = Some c → alter f i bs = <[i := f c]> bs.
Proof.
  revert i. induction bs as [|c0 bs IH]; intros [|i] Hi; simplify_eq/=; [done|].
  f_equal. by apply IH.
Qed.

Lemma bucket_for_lt count k :
  0 < count → (bucket_index_for_size hash k count < Z.to_nat count)%nat.
Proof.
  intros Hc. unfold bucket_index_for_size. rewrite (proj2 (Z.eqb_neq _ _)) by lia.
  pose proof (Z.mod_pos_bound (hash k) count Hc). lia.
Qed.

Lemma bucket_index_lt u k :
  buckets_ u ≠ [] → (bucket_index hash u k < length (buckets_ u))%nat.
Proof.
  intros Hne. unfold bucket_index, bucket_count.
  rewrite <- (Nat2Z.id (length (buckets_ u))) at 2. apply bucket_for_lt.
  destruct (buckets_ u); [done|cbn; lia].
Qed.

Lemma chain_at u k :
  buckets_ u ≠ [] →
  buckets_ u !! bucket_index hash u k = Some (chain u (bucket_index hash u k)).
Proof.
  intros Hne. unfold chain.
  destruct (lookup_lt_is_Some_2 (buckets_ u) (bucket_index hash u k)) as [c Hc];
    [by apply bucket_index_lt|]. by rewrite Hc.
Qed.

Lemma chain_nodup u i c : wf u → buckets_ u !! i = Some c → NoDup c.*1.
Proof.
  intros Hwf Hi. pose proof (wf_nodup u Hwf) as Hnd.
  rewrite (concat_delete _ _ _ Hi), fmap_app in Hnd. by apply NoDup_app in Hnd as (?&_&_).
Qed.

Lemma elem_of_concat kv bs : kv ∈ concat bs ↔ ∃ i c, bs !! i = Some c ∧ kv ∈ c.
Proof.
  rewrite list_elem_of_In, in_concat. setoid_rewrite <- list_elem_of_In.
  split.
  - intros (c & (i & Hi)%list_elem_of_lookup & Hc). eauto.
  - intros (i & c & Hi & Hc). exists c. split; [|done]. by eapply list_elem_of_lookup_2.
Qed.

(** The bucket of the hash has the key or no bucket does. *)
Lemma bucket_find u k :
  wf u → chain_find k (chain u (bucket_index hash u k)) = to_map u !! k.
Proof.
  intros Hwf. apply option_eq. intros v. unfold to_map.
  rewrite <- (elem_of_list_to_map _ _ _ (wf_nodup u Hwf)), elem_of_concat. split.
  - intros Hf%chain_find_elem. unfold chain in Hf.
    destruct (buckets_ u !! _) as [c|] eqn:Hc; [eauto|by apply elem_of_nil in Hf].
  - intros (i & c & Hi & Hc). pose proof (wf_home u Hwf _ _ _ Hi Hc) as ->. cbn in Hi.
    unfold chain. rewrite Hi. cbn. apply chain_find_some; [|done]. by eapply chain_nodup.
Qed.

Lemma find_spec u k :
  wf u →
  find hash u k =
  match to_map u !! k with
  | Some _ => mkIt (bucket_index hash u k) (Some k)
  | None => end_ u
  end.
Proof.
  intros Hwf. unfold find. rewrite bucket_find by done.
  destruct (Z.eqb_spec (bucket_count u) 0) as [H0|]; [|by case_match].
  destruct u as [[|] ? ?]; [|discriminate H0]. unfold to_map. cbn. by rewrite lookup_empty.
Qed.

Lemma found_not_end u k :
  wf u → it_eqb (find hash u k) (end_ u) = negb (bool_decide (is_Some (to_map u !! k))).
Proof.
  intros Hwf. rewrite find_spec by done. unfold it_eqb.
  destruct (to_map u !! k); cbn; [|done].
  apply bool_decide_eq_false. done.
Qed.

(** *** Changing one bucket *)

Lemma relink u i c c' sz :
  wf u → buckets_ u !! i = Some c →
  (∀ kv, kv ∈ c' → i = bucket_index hash u kv.1) →
  NoDup (c' ++ concat (delete i (buckets_ u))).*1 →
  sz = wrap64 (Z.of_nat (length (c' ++ concat (delete i (buckets_ u))))) →
  let u' := mkUMap (<[i := c']> (buckets_ u)) sz (max_load_factor_ u) in
  wf u' ∧ to_map u' = list_to_map (c' ++ concat (delete i (buckets_ u))).
Proof.
  intros Hwf Hi Hhome Hnd Hsz u'.
  assert (concat (buckets_ u') ≡ₚ c' ++ concat (delete i (buckets_ u))) as Hp
    by by apply concat_put with (c' := c).
  assert (∀ k, bucket_index hash u' k = bucket_index hash u k) as Hb.
  { intros k. unfold bucket_index, bucket_count, u'. cbn. by rewrite length_insert. }
  split; [split|].
  - by rewrite Hp.
  - intros j cj kv Hj Hkv. rewrite Hb. cbn in Hj.
    apply list_lookup_insert_Some in Hj as [(<- & <- & _)|[_ Hj]]; [auto|].
    by eapply wf_home.
  - rewrite Hp. done.
  - unfold to_map. apply list_to_map_proper; [by rewrite Hp|done].
Qed.

Lemma length_concat_at u i c :
  buckets_ u !! i = Some c →
  length (concat (buckets_ u)) = (length c + length (concat (delete i (buckets_ u))))%nat.
Proof. intros Hi. by rewrite (concat_delete _ _ _ Hi), length_app. Qed.

Lemma push_spec u k v :
  wf u → buckets_ u ≠ [] → to_map u !! k = None →
  let u' := mkUMap (push (bucket_index hash u k) (k, v) (buckets_ u)) (add64 (size_ u) 1)
              (max_load_factor_ u) in
  wf u' ∧ to_map u' = <[k := v]> (to_map u).
Proof.
  intros Hwf Hne Hk u'. pose proof (chain_at u k Hne) as Hc.
  set (i := bucket_index hash u k) in *. set (c := chain u i) in *.
  pose proof (wf_nodup u Hwf) as Hnd. rewrite (concat_delete _ _ _ Hc) in Hnd.
  subst u'. unfold push. rewrite (alter_at _ _ _ _ Hc).
  destruct (relink u i c ((k, v) :: c) (add64 (size_ u) 1)) as [Hwf' Hm]; try done.
  - intros kv [-> |Hkv]%elem_of_cons; [done|]. by eapply wf_home.
  - cbn. constructor; [|done].
    rewrite <- (concat_delete _ _ _ Hc).
    by apply (not_elem_of_list_to_map_2 (M:=gmap K)).
  - rewrite (wf_size u Hwf), (length_concat_at _ _ _ Hc). unfold add64, wrap64. cbn [length app].
    rewrite length_app, Zplus_mod_idemp_l. f_equal. lia.
  - split; [done|]. rewrite Hm. cbn. f_equal. unfold to_map.
    apply list_to_map_proper; [done|]. by rewrite <- (concat_delete _ _ _ Hc).
Qed.

Lemma found_chain u k v :
  wf u → to_map u !! k = Some v →
  buckets_ u !! bucket_index hash u k = Some (chain u (bucket_index hash u k)) ∧
  chain_find k (chain u (bucket_index hash u k)) = Some v.
Proof.
  intros Hwf Hk. split; [|by rewrite bucket_find]. apply chain_at. intros Hnil.
  unfold to_map in Hk. rewrite Hnil in Hk. cbn in Hk. by rewrite lookup_empty in Hk.
Qed.

Lemma chain_remove_sub k c kv : kv ∈ chain_remove k c → kv ∈ c.
Proof.
  induction c as [|[k' v'] c IH]; cbn; [done|]. destruct (decide (k' = k)); set_solver.
Qed.

Lemma chain_remove_spec u k v :
  wf u → to_map u !! k = Some v →
  let u' := mkUMap (alter (chain_remove k) (bucket_index hash u k) (buckets_ u))
              (sub64 (size_ u) 1) (max_load_factor_ u) in
  wf u' ∧ to_map u' = delete k (to_map u).
Proof.
  intros Hwf Hk u'. destruct (found_chain u k v Hwf Hk) as [Hc Hf].
  set (i := bucket_index hash u k) in *. set (c := chain u i) in *.
  pose proof (chain_remove_perm _ _ _ Hf) as Hp.
  pose proof (wf_nodup u Hwf) as Hnd. rewrite (concat_delete _ _ _ Hc), Hp in Hnd.
  cbn in Hnd. apply NoDup_cons in Hnd as [Hnot Hnd].
  subst u'. rewrite (alter_at _ _ _ _ Hc).
  destruct (relink u i c (chain_remove k c) (sub64 (size_ u) 1)) as [Hwf' Hm]; try done.
  - intros kv Hkv%chain_remove_sub. by eapply wf_home.
  - rewrite (wf_size u Hwf), (length_concat_at _ _ _ Hc).
    pose proof (Permutation_length Hp) as Hl. cbn in Hl. unfold sub64, wrap64.
    rewrite length_app, Zminus_mod_idemp_l. f_equal. lia.
  - split; [done|]. rewrite Hm. unfold to_map.
    rewrite (list_to_map_proper (concat (buckets_ u)) ((k, v) :: chain_remove k c ++
      concat (delete i (buckets_ u)))); cbn.
    + rewrite delete_insert_id; [done|]. by apply not_elem_of_list_to_map_1.
    + apply (wf_nodup u Hwf).
    + rewrite (concat_delete _ _ _ Hc). by apply (Permutation_app_tail _ Hp).
Qed.

Lemma assign_spec u k v v' :
  wf u → to_map u !! k = Some v' →
  let u' := mkUMap (alter (chain_assign k v) (bucket_index hash u k) (buckets_ u))
              (size_ u) (max_load_factor_ u) in
  wf u' ∧ to_map u' = <[k := v]> (to_map u).
Proof.
  intros Hwf Hk u'. destruct (found_chain u k v' Hwf Hk) as [Hc Hf].
  set (i := bucket_index hash u k) in *. set (c := chain u i) in *.
  pose proof (chain_remove_perm _ _ _ Hf) as Hp.
  pose proof (chain_assign_perm _ v _ _ Hf) as Hp'.
  pose proof (wf_nodup u Hwf) as Hnd. rewrite (concat_delete _ _ _ Hc), Hp in Hnd.
  subst u'. rewrite (alter_at _ _ _ _ Hc).
  destruct (relink u i c (chain_assign k v c) (size_ u)) as [Hwf' Hm]; try done.
  - intros kv Hkv. rewrite Hp' in Hkv. apply elem_of_cons in Hkv as [-> |Hkv]; [done|].
    apply chain_remove_sub in Hkv. by eapply wf_home.
  - rewrite Hp'. done.
  - rewrite (wf_size u Hwf), (length_concat_at _ _ _ Hc), length_app.
    by rewrite (Permutation_length Hp), (Permutation_length Hp').
  - split; [done|]. rewrite Hm. unfold to_map.
    rewrite (list_to_map_proper (chain_assign k v c ++ _)
      ((k, v) :: chain_remove k c ++ concat (delete i (buckets_ u)))); cbn;
      [|by rewrite Hp'|by rewrite Hp'].
    rewrite (list_to_map_proper (concat (buckets_ u)) ((k, v') :: chain_remove k c ++
      concat (delete i (buckets_ u)))); cbn.
    + by rewrite insert_insert_eq.
    + apply (wf_nodup u Hwf).
    + rewrite (concat_delete _ _ _ Hc). by apply (Permutation_app_tail _ Hp).
Qed.

(** *** Growing *)

Definition homed (count : Z) bs : Prop :=
  ∀ i c kv, bs !! i = Some c → kv ∈ c → i = bucket_index_for_size hash kv.1 count.

Lemma move_all count l bs :
  0 < count → length bs = Z.to_nat count → homed count bs →
  let bs' := foldl (λ b kv, push (bucket_index_for_size hash kv.1 count) kv b) bs l in
  length bs' = Z.to_nat count ∧ homed count bs' ∧ concat bs' ≡ₚ l ++ concat bs.
Proof.
  intros Hc. revert bs. induction l as [|kv l IH]; intros bs Hlen Hh; [done|].
  cbn [foldl]. set (i := bucket_index_for_size hash kv.1 count).
  assert (i < length bs)%nat as [c Hi]%lookup_lt_is_Some_2
    by (rewrite Hlen; by apply bucket_for_lt).
  assert (push i kv bs = <[i := kv :: c]> bs) as -> by (by apply alter_at).
  destruct (IH (<[i := kv :: c]> bs)) as (Hlen' & Hh' & Hp').
  - by rewrite length_insert.
  - intros j cj kv' [(<- & <- & _)|[_ Hj]]%list_lookup_insert_Some Hkv; [|by eapply Hh].
    apply elem_of_cons in Hkv as [-> |Hkv]; [done|]. by eapply Hh.
  - split; [done|]. split; [done|]. rewrite Hp', (concat_put _ _ _ _ Hi).
    rewrite (concat_delete _ _ _ Hi). symmetry. apply Permutation_middle.
Qed.

Lemma replicate_homed count n : homed count (replicate n []).
Proof. intros i c kv [-> _]%lookup_replicate Hkv. by apply elem_of_nil in Hkv. Qed.

Lemma concat_replicate_nil n : concat (replicate n ([] : list (K * V))) = [].
Proof. by induction n. Qed.

Lemma min_bucket_pos u n : 0 < numerator (max_load_factor_ u) → 0 < U_min_bucket_count u n.
Proof.
  intros Hn. unfold U_min_bucket_count. destruct (n =? 0); [done|].
  destruct (Z.eqb_spec (sub64 (add64 (mul64 n (denominator (max_load_factor_ u)))
    (numerator (max_load_factor_ u))) 1 / numerator (max_load_factor_ u)) 0); [done|].
  assert (0 <= sub64 (add64 (mul64 n (denominator (max_load_factor_ u)))
    (numerator (max_load_factor_ u))) 1) by apply wrap64_range.
  pose proof (Z.div_pos (sub64 (add64 (mul64 n (denominator (max_load_factor_ u)))
    (numerator (max_load_factor_ u))) 1) (numerator (max_load_factor_ u))). lia.
Qed.

(** The load factor of a map is positive: [normalize] leaves no zero. *)
Definition factor_pos u : Prop := 0 < numerator (max_load_factor_ u).

Lemma rehash_spec u n :
  wf u → factor_pos u →
  let u' := rehash hash u n in
  wf u' ∧ to_map u' = to_map u ∧ max_load_factor_ u' = max_load_factor_ u ∧
  size_ u' = size_ u ∧
  bucket_count u' = Z.max n (U_min_bucket_count u (size_ u)).
Proof.
  intros Hwf Hf. cbn zeta. unfold rehash.
  pose proof (min_bucket_pos u (size_ u) Hf) as Hpos.
  set (m := if n <? _ then _ else n).
  assert (m = Z.max n (U_min_bucket_count u (size_ u))) as Hm
    by (unfold m; destruct (Z.ltb_spec n (U_min_bucket_count u (size_ u))); lia).
  destruct (Z.eqb_spec m (bucket_count u)) as [He|_].
  { split_and!; [done..|]. lia. }
  rewrite (proj2 (Z.eqb_neq m 0)) by lia.
  destruct (move_all m (concat (buckets_ u)) (replicate (Z.to_nat m) []))
    as (Hlen & Hh & Hp); [lia|by rewrite length_replicate|apply replicate_homed|].
  rewrite concat_replicate_nil, app_nil_r in Hp.
  split_and!; [split|..]; cbn [buckets_ size_ max_load_factor_]; try done.
  - rewrite Hp. apply (wf_nodup u Hwf).
  - intros i c kv Hi Hkv. unfold bucket_index, bucket_count. cbn [buckets_].
    rewrite Hlen, Z2Nat.id by lia. by eapply Hh.
  - rewrite Hp. apply (wf_size u Hwf).
  - unfold to_map. apply list_to_map_proper; [|done]. rewrite Hp. apply (wf_nodup u Hwf).
  - unfold bucket_count. cbn [buckets_]. rewrite Hlen. lia.
Qed.

(** *** Insertion and removal *)

Lemma revive_spec u :
  wf u → let u' := if bucket_count u =? 0 then mkUMap [[]] (size_ u) (max_load_factor_ u) else u in
  wf u' ∧ buckets_ u' ≠ [] ∧ to_map u' = to_map u ∧
  max_load_factor_ u' = max_load_factor_ u.
Proof.
  intros Hwf. cbn zeta. unfold bucket_count. destruct u as [[|b bs] sz m]; cbn in *; [|done].
  split_and!; [|done..]. split; cbn.
  - constructor.
  - intros i c kv [-> <-]%list_lookup_singleton_Some Hkv. by apply elem_of_nil in Hkv.
  - apply (wf_size _ Hwf).
Qed.

Lemma try_emplace_spec u k v :
  wf u → factor_pos u →
  let '(u', (it, fresh)) := U_try_emplace hash u k v in
  wf u' ∧ factor_pos u' ∧ it = mkIt (bucket_index hash u' k) (Some k) ∧
  fresh = bool_decide (to_map u !! k = None) ∧
  to_map u' = if fresh then <[k := v]> (to_map u) else to_map u.
Proof.
  intros Hwf Hf. unfold U_try_emplace.
  destruct (revive_spec u Hwf) as (Hwf1 & Hne1 & Hm1 & Hl1).
  set (u1 := if bucket_count u =? 0 then _ else u) in *.
  rewrite bucket_find by done. rewrite Hm1.
  destruct (to_map u !! k) as [v'|] eqn:Hk.
  { split_and!; try done. unfold factor_pos. by rewrite Hl1. }
  assert (factor_pos u1) as Hf1 by (unfold factor_pos; by rewrite Hl1).
  set (u2 := if U_exceeds_max_load u1 _ _ then _ else u1).
  assert (wf u2 ∧ buckets_ u2 ≠ [] ∧ to_map u2 = to_map u1 ∧
    max_load_factor_ u2 = max_load_factor_ u1 ∧ size_ u2 = size_ u1)
    as (Hwf2 & Hne2 & Hm2 & Hl2 & Hs2).
  { unfold u2. destruct (U_exceeds_max_load _ _ _); [|done].
    destruct (rehash_spec u1 (mul64 (bucket_count u1) 2) Hwf1 Hf1) as (?&?&?&?&Hb).
    split_and!; try done. intros Hnil. unfold bucket_count in Hb at 1. rewrite Hnil in Hb.
    pose proof (min_bucket_pos u1 (size_ u1) Hf1). cbn in Hb. lia. }
  destruct (push_spec u2 k v Hwf2 Hne2) as [Hwf3 Hm3]; [by rewrite Hm2, Hm1|].
  split_and!; try done.
  - unfold factor_pos. cbn. rewrite Hl2. done.
  - f_equal. unfold bucket_index, bucket_count. cbn. unfold push. by rewrite length_alter.
  - rewrite Hm3, Hm2, Hm1. done.
Qed.

Lemma insert_or_assign_spec u k v :
  wf u → factor_pos u →
  let '(u', (_, fresh)) := insert_or_assign hash u k v in
  wf u' ∧ factor_pos u' ∧ fresh = bool_decide (to_map u !! k = None) ∧
  to_map u' = <[k := v]> (to_map u).
Proof.
  intros Hwf Hf. unfold insert_or_assign. rewrite found_not_end by done.
  destruct (to_map u !! k) as [v'|] eqn:Hk.
  - rewrite bool_decide_eq_true_2 by eauto. cbn [negb].
    rewrite find_spec, Hk by done. cbn [bucket_index_].
    destruct (assign_spec u k v v' Hwf Hk) as [Hwf' Hm]. by split_and!.
  - rewrite bool_decide_eq_false_2 by (by intros []). cbn [negb].
    pose proof (try_emplace_spec u k v Hwf Hf) as Hs.
    destruct (U_try_emplace hash u k v) as [u' [it fresh]].
    destruct Hs as (? & ? & _ & Hfr & Hm). rewrite Hk in Hfr. cbn in Hfr. subst fresh. done.
Qed.

Lemma erase_spec u k :
  wf u → factor_pos u →
  let '(u', n) := erase hash u k in
  wf u' ∧ factor_pos u' ∧ to_map u' = delete k (to_map u) ∧
  n = if bool_decide (is_Some (to_map u !! k)) then 1 else 0.
Proof.
  intros Hwf Hf. unfold erase. rewrite found_not_end by done.
  destruct (to_map u !! k) as [v|] eqn:Hk.
  - rewrite bool_decide_eq_true_2 by eauto. cbn [negb].
    rewrite find_spec, Hk by done. unfold erase_it. cbn [node_ bucket_index_].
    rewrite bucket_find, Hk by done. cbn [fst].
    destruct (chain_remove_spec u k v Hwf Hk) as [Hwf' Hm]. by split_and!.
  - rewrite bool_decide_eq_false_2 by (by intros []). cbn [negb].
    by rewrite delete_id.
Qed.

(** *** Iteration *)

(** Where the [i]-th node of a table hangs. *)
Lemma locate bs i kv :
  concat bs !! i = Some kv →
  ∃ n c1 c2, bs !! n = Some (c1 ++ kv :: c2) ∧
    take i (concat bs) = concat (take n bs) ++ c1 ∧
    drop (S i) (concat bs) = c2 ++ concat (drop (S n) bs).
Proof.
  revert i. induction bs as [|c bs IH]; intros i Hi; [done|]. cbn [concat] in *.
  destruct (decide (i < length c)%nat) as [Hlt|Hge].
  - rewrite lookup_app_l in Hi by done.
    exists 0%nat, (take i c), (drop (S i) c). split_and!.
    + cbn. by rewrite take_drop_middle.
    + cbn. by rewrite take_app_le by lia.
    + cbn [drop]. rewrite drop_app_le by lia. by destruct bs.
  - rewrite lookup_app_r in Hi by lia. destruct (IH _ Hi) as (n & c1 & c2 & Hn & Ht & Hd).
    exists (S n), c1, c2. split_and!; [done| |].
    + rewrite take_app_ge by lia. cbn [take concat]. by rewrite Ht, app_assoc.
    + rewrite drop_app_ge by lia. cbn [drop]. rewrite <- Hd. f_equal. lia.
Qed.

Lemma seek_spec bs i :
  match concat bs with
  | [] => seek bs i = mkIt (i + length bs) None
  | kv :: _ => ∃ n c, seek bs i = mkIt (i + n) (Some kv.1) ∧ bs !! n = Some c ∧ kv ∈ c
  end.
Proof.
  revert i. induction bs as [|[|kv c] bs IH]; intros i; cbn [concat app seek].
  - cbn. by rewrite Nat.add_0_r.
  - specialize (IH (S i)). cbn [length]. destruct (concat bs) as [|kv l].
    + rewrite IH. f_equal. lia.
    + destruct IH as (n & c & -> & Hn & Hc). exists (S n), c. split; [|done].
      f_equal. lia.
  - exists 0%nat, (kv :: c). split_and!; [|done|set_solver]. by rewrite Nat.add_0_r.
Qed.

(** The iterator at the [i]-th entry. *)
Definition pos u (i : nat) : iterator K :=
  match concat (buckets_ u) !! i with
  | Some kv => mkIt (bucket_index hash u kv.1) (Some kv.1)
  | None => end_ u
  end.

Lemma seek_pos u n i :
  wf u → (n <= length (buckets_ u))%nat →
  drop i (concat (buckets_ u)) = concat (drop n (buckets_ u)) →
  seek (drop n (buckets_ u)) n = pos u i.
Proof.
  intros Hwf Hn Hd. pose proof (seek_spec (drop n (buckets_ u)) n) as Hs.
  unfold pos. rewrite <- Hd in Hs.
  rewrite <- (Nat.add_0_r i) at 1. rewrite <- lookup_drop.
  destruct (drop i _) as [|kv l]; cbn.
  - rewrite Hs, length_drop. unfold end_. f_equal. lia.
  - destruct Hs as (m & c & -> & Hm & Hc). f_equal. rewrite lookup_drop in Hm.
    by eapply wf_home.
Qed.

Lemma begin_pos u : wf u → begin_ u = pos u 0.
Proof.
  intros Hwf. unfold begin_. rewrite <- (drop_0 (buckets_ u)) at 1.
  apply seek_pos; [done|lia|]. by rewrite !drop_0.
Qed.

Lemma chain_next_at c1 kv c2 :
  NoDup (c1 ++ kv :: c2).*1 → chain_next kv.1 (c1 ++ kv :: c2) = fst <$> head c2.
Proof.
  destruct kv as [k v]. induction c1 as [|[k' v'] c1 IH]; cbn; [by rewrite decide_True|].
  intros [Hnot Hnd]%NoDup_cons. rewrite decide_False; [auto|]. intros ->.
  apply Hnot. rewrite fmap_app. cbn. set_solver.
Qed.

(** What the table knows of its [i]-th entry. *)
Lemma entry_at u i kv :
  wf u → concat (buckets_ u) !! i = Some kv →
  ∃ c1 c2, buckets_ u !! bucket_index hash u kv.1 = Some (c1 ++ kv :: c2) ∧
    chain u (bucket_index hash u kv.1) = c1 ++ kv :: c2 ∧
    take i (concat (buckets_ u)) = concat (take (bucket_index hash u kv.1) (buckets_ u)) ++ c1 ∧
    drop (S i) (concat (buckets_ u)) =
      c2 ++ concat (drop (S (bucket_index hash u kv.1)) (buckets_ u)) ∧
    chain_find kv.1 (c1 ++ kv :: c2) = Some kv.2 ∧
    chain_next kv.1 (c1 ++ kv :: c2) = fst <$> head c2.
Proof.
  intros Hwf Hi. destruct (locate _ _ _ Hi) as (n & c1 & c2 & Hn & Ht & Hd).
  assert (n = bucket_index hash u kv.1) as -> by (eapply wf_home; [done..|set_solver]).
  pose proof (chain_nodup _ _ _ Hwf Hn) as Hnd.
  exists c1, c2. split_and!; try done.
  - unfold chain. by rewrite Hn.
  - apply chain_find_some; [done|]. destruct kv. set_solver.
  - by apply chain_next_at.
Qed.

Lemma next_key u i c2 n kv' c2' :
  wf u → buckets_ u !! n = Some c2' → kv' ∈ c2' → c2 = kv' :: tail c2 →
  drop i (concat (buckets_ u)) = c2 ++ concat (drop (S n) (buckets_ u)) →
  pos u i = mkIt n (Some kv'.1).
Proof.
  intros Hwf Hn Hin Hc2 Hd. unfold pos. rewrite <- (Nat.add_0_r i), <- lookup_drop, Hd, Hc2.
  cbn. f_equal. symmetry. by eapply wf_home.
Qed.

Lemma it_next_pos u i :
  wf u → (i < length (concat (buckets_ u)))%nat → it_next u (pos u i) = pos u (S i).
Proof.
  intros Hwf [kv Hkv]%lookup_lt_is_Some_2.
  destruct (entry_at u i kv Hwf Hkv) as (c1 & c2 & Hb & Hc & _ & Hd & _ & Hnx).
  unfold pos at 1. rewrite Hkv. unfold it_next. cbn [node_ bucket_index_].
  rewrite Hc, Hnx. destruct c2 as [|kv' c2]; cbn [head fmap option_fmap option_map].
  - apply seek_pos; [done| |done]. apply lookup_lt_Some in Hb. lia.
  - symmetry. apply (next_key u _ (kv' :: c2) _ _ _ Hwf Hb); [set_solver|done|done].
Qed.

Lemma collect_pos u i n :
  wf u → (i + n = length (concat (buckets_ u)))%nat →
  collect n u (pos u i) = drop i (concat (buckets_ u)).
Proof.
  intros Hwf. revert i. induction n as [|n IH]; intros i Hn.
  - rewrite drop_ge by lia. done.
  - destruct (lookup_lt_is_Some_2 (concat (buckets_ u)) i) as [kv Hkv]; [lia|].
    destruct (entry_at u i kv Hwf Hkv) as (c1 & c2 & _ & Hc & _ & _ & Hf & _).
    pose proof (it_next_pos u i Hwf) as Hnext.
    rewrite (drop_S _ _ _ Hkv), <- (IH (S i)) by lia.
    rewrite <- Hnext by lia. unfold pos at 1 2. rewrite Hkv.
    cbn [collect node_]. unfold it_value. cbn [node_ bucket_index_ mbind option_bind].
    rewrite Hc, Hf. by destruct kv.
Qed.

(** A loop over the map visits the chains in turn. *)
Lemma entries_concat u : wf u → entries u = concat (buckets_ u).
Proof.
  intros Hwf. unfold entries. rewrite begin_pos by done.
  by rewrite (collect_pos u 0 _ Hwf eq_refl), drop_0.
Qed.

Lemma chain_remove_at c1 kv c2 :
  NoDup (c1 ++ kv :: c2).*1 → chain_remove kv.1 (c1 ++ kv :: c2) = c1 ++ c2.
Proof.
  destruct kv as [k v]. induction c1 as [|[k' v'] c1 IH]; cbn; [by rewrite decide_True|].
  intros [Hnot Hnd]%NoDup_cons. rewrite decide_False; [by f_equal; auto|]. intros ->.
  apply Hnot. rewrite fmap_app. cbn. set_solver.
Qed.

Lemma concat_insert_eq bs n c :
  (n < length bs)%nat →
  concat (<[n := c]> bs) = concat (take n bs) ++ c ++ concat (drop (S n) bs).
Proof. intros Hn. by rewrite insert_take_drop, concat_app. Qed.

(** Erasing the [i]-th entry keeps the order of the others and returns the iterator at
    the entry after it. *)
Lemma erase_it_pos u i :
  wf u → (i < length (concat (buckets_ u)))%nat →
  let '(u', it) := erase_it u (pos u i) in
  wf u' ∧ concat (buckets_ u') = delete i (concat (buckets_ u)) ∧ it = pos u' i.
Proof.
  intros Hwf [kv Hkv]%lookup_lt_is_Some_2.
  destruct (entry_at u i kv Hwf Hkv) as (c1 & c2 & Hb & Hc & Ht & Hd & Hf & Hnx).
  pose proof (chain_nodup _ _ _ Hwf Hb) as Hnd.
  assert (to_map u !! kv.1 = Some kv.2) as Hm by by rewrite <- bucket_find, Hc.
  destruct (chain_remove_spec u _ _ Hwf Hm) as [Hwf' _].
  pose proof (lookup_lt_Some _ _ _ Hb) as Hlt.
  unfold pos at 1. rewrite Hkv. unfold erase_it. cbn [node_ bucket_index_].
  rewrite Hc, Hf. rewrite Hnx. set (n := bucket_index hash u kv.1) in *.
  set (u' := mkUMap _ _ _) in *.
  assert (buckets_ u' = <[n := c1 ++ c2]> (buckets_ u)) as Hbs.
  { unfold u'. cbn. rewrite (alter_at _ _ _ _ Hb). by rewrite chain_remove_at. }
  assert (drop (S n) (buckets_ u') = drop (S n) (buckets_ u)) as Hdr
    by (rewrite Hbs; apply drop_insert_lt; lia).
  assert (concat (buckets_ u') = take i (concat (buckets_ u)) ++ c2 ++
    concat (drop (S n) (buckets_ u))) as Hcat.
  { rewrite Hbs, concat_insert_eq by done. by rewrite Ht, <- !app_assoc. }
  split; [done|]. split; [by rewrite delete_take_drop, Hd|].
  assert (drop i (concat (buckets_ u')) = c2 ++ concat (drop (S n) (buckets_ u'))) as Hd'.
  { rewrite Hcat, Hdr, drop_app_length'; [done|]. rewrite length_take.
    apply lookup_lt_Some in Hkv. lia. }
  destruct c2 as [|kv' c2]; cbn [head fmap option_fmap option_map].
  - apply seek_pos; [done| |done]. rewrite Hbs, length_insert. lia.
  - symmetry. apply (next_key u' _ (kv' :: c2) _ _ (c1 ++ kv' :: c2)); [done| |set_solver|done|done].
    rewrite Hbs. by apply list_lookup_insert_eq.
Qed.

Lemma pos_node u i : node_ (pos u i) = fst <$> concat (buckets_ u) !! i.
Proof. unfold pos. by destruct (concat (buckets_ u) !! i). Qed.

(** [erase(first, last)] removes exactly the entries between its arguments, and does so
    within as many steps as there are entries. *)
Lemma erase_range_spec n u i last :
  wf u → (i + n <= length (concat (buckets_ u)))%nat →
  node_ last = fst <$> concat (buckets_ u) !! (i + n)%nat →
  ∃ u', erase_range n u (pos u i) last = Some (u', last) ∧ wf u' ∧
    concat (buckets_ u') = take i (concat (buckets_ u)) ++ drop (i + n) (concat (buckets_ u)).
Proof.
  revert u. induction n as [|n IH]; intros u Hwf Hn Hlast.
  - rewrite Nat.add_0_r in *. exists u. split_and!; [|done|by rewrite take_drop].
    cbn. unfold it_eqb. rewrite pos_node, Hlast. by rewrite bool_decide_eq_true_2.
  - destruct (lookup_lt_is_Some_2 (concat (buckets_ u)) i) as [kv Hkv]; [lia|].
    cbn [erase_range]. unfold it_eqb. rewrite pos_node, Hkv.
    rewrite bool_decide_eq_false_2; last first.
    { rewrite Hlast. cbn. intros Heq. symmetry in Heq.
      assert ((concat (buckets_ u)).*1 !! i = (concat (buckets_ u)).*1 !! (i + S n)%nat) as He
        by by rewrite !list_lookup_fmap, Hkv.
      assert (i = i + S n)%nat; [|lia].
      eapply (NoDup_lookup _ _ _ kv.1 (wf_nodup u Hwf)); rewrite <- ?He;
        by rewrite list_lookup_fmap, Hkv. }
    pose proof (erase_it_pos u i Hwf) as Hs.
    destruct (erase_it u (pos u i)) as [u1 first].
    destruct Hs as (Hwf1 & Hc1 & ->); [lia|].
    pose proof (length_delete _ _ (mk_is_Some _ _ Hkv)) as Hlen.
    destruct (IH u1) as (u' & Hr & Hwf' & Hc'); [done|rewrite Hc1; lia| |].
    { rewrite Hlast, Hc1. f_equal. rewrite list_lookup_delete_ge by lia. f_equal. lia. }
    exists u'. split_and!; [done..|]. rewrite Hc', Hc1, delete_take_drop.
    assert (i < length (concat (buckets_ u)))%nat by (by eapply lookup_lt_Some).
    rewrite take_app_length' by (rewrite length_take; lia). f_equal.
    rewrite drop_app_ge by (rewrite length_take; lia). rewrite drop_drop. f_equal.
    rewrite length_take. lia.
Qed.

(** *** The rest of the interface *)

Lemma empty_spec n : wf (with_buckets n) ∧ to_map (with_buckets n) = ∅.
Proof.
  unfold with_buckets, to_map. cbn [buckets_].
  rewrite concat_replicate_nil. split; [|done]. split; cbn [buckets_ size_].
  - rewrite concat_replicate_nil. constructor.
  - intros i c kv [-> _]%lookup_replicate Hkv. by apply elem_of_nil in Hkv.
  - by rewrite concat_replicate_nil.
Qed.

Lemma clear_spec u : wf (clear u) ∧ to_map (clear u) = ∅.
Proof.
  assert (concat ((λ _ : list (K * V), [] : list (K * V)) <$> buckets_ u) = []) as Hc
    by (by induction (buckets_ u)).
  unfold clear, to_map. split; [|cbn; by rewrite Hc]. split; cbn [buckets_ size_].
  - rewrite Hc. constructor.
  - intros i c kv Hi Hkv. apply list_lookup_fmap_Some in Hi as (? & -> & _).
    by apply elem_of_nil in Hkv.
  - by rewrite Hc.
Qed.

Lemma wf_factor u ml : wf u → wf (set_max_load_factor u ml).
Proof. intros [? ? ?]. by split. Qed.

Lemma insert_all_spec l u :
  wf u → factor_pos u → NoDup l.*1 → (∀ k, k ∈ l.*1 → to_map u !! k = None) →
  wf (insert_all hash u l) ∧ factor_pos (insert_all hash u l) ∧
  to_map (insert_all hash u l) = list_to_map l ∪ to_map u.
Proof.
  revert u. induction l as [|[k v] l IH]; intros u Hwf Hf Hnd Hfresh; cbn.
  - split_and!; [done..|]. by rewrite map_empty_union.
  - cbn in Hnd. apply NoDup_cons in Hnd as [Hk Hnd].
    pose proof (try_emplace_spec u k v Hwf Hf) as Hs. unfold insert at 2 4 6. cbn [fst snd].
    destruct (U_try_emplace hash u k v) as [u1 [it fresh]]. cbn [fst].
    destruct Hs as (Hwf1 & Hf1 & _ & -> & Hm1).
    rewrite bool_decide_eq_true_2 in Hm1 by (apply Hfresh; set_solver).
    destruct (IH u1) as (? & ? & Hm); [done..| |].
    { intros k' Hk'. rewrite Hm1, lookup_insert_ne by set_solver. apply Hfresh. set_solver. }
    fold (insert_all hash u1 l). split_and!; [done..|]. rewrite Hm, Hm1.
    rewrite <- insert_union_r by (by apply not_elem_of_list_to_map_1).
    by rewrite insert_union_l.
Qed.

Lemma copy_spec u :
  wf u → factor_pos u →
  wf (copy hash u) ∧ factor_pos (copy hash u) ∧ to_map (copy hash u) = to_map u.
Proof.
  intros Hwf Hf. unfold copy. destruct (empty_spec (bucket_count u)) as [He Hm].
  set (e := set_max_load_factor _ _).
  assert (to_map e = ∅) as Hme by done. rewrite entries_concat by done.
  destruct (insert_all_spec (concat (buckets_ u)) e) as (? & ? & Hc).
  - by apply wf_factor.
  - done.
  - apply (wf_nodup u Hwf).
  - intros k _. rewrite Hme. apply lookup_empty.
  - split_and!; [done..|]. by rewrite Hc, Hme, map_union_empty.
Qed.

Lemma at_nt_spec u k : wf u → at_nt hash u k = to_map u !! k.
Proof.
  intros Hwf. unfold at_nt. rewrite found_not_end, find_spec by done.
  destruct (to_map u !! k) as [v|] eqn:Hk.
  - rewrite bool_decide_eq_true_2 by eauto. cbn. by rewrite bucket_find.
  - by rewrite bool_decide_eq_false_2 by (by intros []).
Qed.

Lemma size_spec u : wf u → size_ u = wrap64 (Z.of_nat (size (to_map u))).
Proof.
  intros Hwf. rewrite (wf_size u Hwf). do 2 f_equal. unfold to_map.
  rewrite <- length_map_to_list, map_to_list_to_map by apply (wf_nodup u Hwf). done.
Qed.

(** With the default load factor a table has at least as many buckets as entries. *)
Definition loaded u : Prop := max_load_factor_ u = one ∧ size_ u <= bucket_count u.

Lemma try_emplace_load u k v :
  wf u → loaded u → bucket_count u < 2 ^ 63 →
  loaded (U_try_emplace hash u k v).1.
Proof.
  intros Hwf [Hone Hld] Hb. assert (factor_pos u) as Hf by (unfold factor_pos; by rewrite Hone).
  unfold U_try_emplace. set (u1 := if bucket_count u =? 0 then _ else u).
  destruct (revive_spec u Hwf) as (Hwf1 & Hne1 & Hm1 & Hl1). fold u1 in Hwf1, Hne1, Hm1, Hl1.
  assert (size_ u1 = size_ u ∧ bucket_count u1 = Z.max 1 (bucket_count u)) as [Hs1 Hb1].
  { unfold u1. destruct (Z.eqb_spec (bucket_count u) 0) as [->|]; [done|].
    unfold bucket_count in *. lia. }
  assert (0 <= size_ u1) by (rewrite (wf_size u1 Hwf1); apply wrap64_range).
  assert (wrap64 (size_ u1 + 1) = size_ u1 + 1) as Hadd
    by (apply wrap64_small; unfold is_u64, W64; lia).
  destruct (chain_find k _); [split; cbn; [congruence|lia]|].
  unfold U_exceeds_max_load, add64. rewrite Hl1, Hone, Hadd. cbn [numerator denominator one].
  unfold mul64. rewrite !Z.mul_1_r, !wrap64_small by (unfold is_u64, W64; lia).
  destruct (Z.ltb_spec (bucket_count u1) (size_ u1 + 1)) as [Hlt|Hge]; cbn [fst].
  - assert (factor_pos u1) as Hf1 by (unfold factor_pos; by rewrite Hl1).
    destruct (rehash_spec u1 (bucket_count u1 * 2) Hwf1 Hf1) as (_ & _ & Hl & Hs & Hbc).
    split; cbn [max_load_factor_ size_]; [congruence|]. rewrite Hs, Hadd.
    unfold bucket_count in *. cbn [buckets_]. unfold push. rewrite length_alter. lia.
  - split; cbn [max_load_factor_ size_]; [congruence|]. rewrite Hadd.
    unfold bucket_count in *. cbn [buckets_]. unfold push. rewrite length_alter. lia.
Qed.

End table_facts.
End HashMapFacts.
Import HashMapFacts.

(** ** The tables implement the interface *)

#[local] Obligation Tactic := idtac.

#[export] Program Instance hash_umap {K} `{Countable K} (hash : K → Z)
    : UMap K (unordered_map K) := {|
  um_empty V := empty_map;
  um_find V k u := at_nt hash u k;
  um_put V k v u := (insert_or_assign hash u k v).1;
  um_erase V k u := (erase hash u k).1;
  um_size V u := size_ u;
  um_list V u := entries u;
  um_wf V u := wf hash u ∧ factor_pos u;
|}.
Next Obligation.
  intros K ? ? hash V u [Hwf _]. rewrite (entries_concat hash) by done. apply (wf_nodup _ _ Hwf).
Qed.
Next Obligation. intros. split; [apply empty_spec|done]. Qed.
Next Obligation. done. Qed.
Next Obligation.
  intros K ? ? hash V k u [Hwf _]. rewrite (entries_concat hash) by done. by apply at_nt_spec.
Qed.
Next Obligation.
  intros K ? ? hash V k v u [Hwf Hf]. pose proof (insert_or_assign_spec hash u k v Hwf Hf) as Hs.
  destruct (insert_or_assign hash u k v) as [u' [it fresh]]. cbn. naive_solver.
Qed.
Next Obligation.
  intros K ? ? hash V k v u [Hwf Hf]. pose proof (insert_or_assign_spec hash u k v Hwf Hf) as Hs.
  destruct (insert_or_assign hash u k v) as [u' [it fresh]]. cbn.
  destruct Hs as (Hwf' & _ & _ & Hm). rewrite !(entries_concat hash) by done. apply Hm.
Qed.
Next Obligation.
  intros K ? ? hash V k u [Hwf Hf]. pose proof (erase_spec hash u k Hwf Hf) as Hs.
  destruct (erase hash u k) as [u' n]. cbn. naive_solver.
Qed.
Next Obligation.
  intros K ? ? hash V k u [Hwf Hf]. pose proof (erase_spec hash u k Hwf Hf) as Hs.
  destruct (erase hash u k) as [u' n]. cbn.
  destruct Hs as (Hwf' & _ & Hm & _). rewrite !(entries_concat hash) by done. apply Hm.
Qed.
Next Obligation.
  intros K ? ? hash V u [Hwf _]. rewrite (entries_concat hash) by done. by apply size_spec with (hash := hash).
Qed.

(** ** Refinement

    The operations of a table, and what they do to the finite map it stands for. *)

Module HashMapSpec.

Inductive op (K V : Type) :=
  | OFind (k : K) | OCount (k : K) | OSize
  | OEmplace (k : K) (v : V) | OAssign (k : K) (v : V) | OSubscript (k : K) (d : V)
  | OErase (k : K) | OClear | ORehash (n : Z) | OReserve (n : Z)
  | OLoad (num denom : Z) | OCopy | OMoved.
Arguments OFind {K V} _.
Arguments OCount {K V} _.
Arguments OSize {K V}.
Arguments OEmplace {K V} _ _.
Arguments OAssign {K V} _ _.
Arguments OSubscript {K V} _ _.
Arguments OErase {K V} _.
Arguments OClear {K V}.
Arguments ORehash {K V} _.
Arguments OReserve {K V} _.
Arguments OLoad {K V} _ _.
Arguments OCopy {K V}.
Arguments OMoved {K V}.

Inductive answer (V : Type) := AVal (o : option V) | ANum (n : Z).
Arguments AVal {V} _.
Arguments ANum {V} _.

Section spec.
Context {K V : Type} `{Countable K} (hash : K → Z).

(** [OCopy] goes on with a copy of the map, [OMoved] with a map whose contents were
    moved away; the number an insertion returns is its flag [second]. *)
Definition run_op (o : op K V) (u : unordered_map K V) : unordered_map K V * answer V :=
  match o with
  | OFind k => (u, AVal (at_nt hash u k))
  | OCount k => (u, ANum (count hash u k))
  | OSize => (u, ANum (size_ u))
  | OEmplace k v => let '(u', (_, b)) := U_try_emplace hash u k v in (u', ANum (Z.b2z b))
  | OAssign k v => let '(u', (_, b)) := insert_or_assign hash u k v in (u', ANum (Z.b2z b))
  | OSubscript k d => let '(u', r) := subscript hash u k d in (u', AVal r)
  | OErase k => let '(u', n) := erase hash u k in (u', ANum n)
  | OClear => (clear u, ANum 0)
  | ORehash n => (rehash hash u n, ANum 0)
  | OReserve n => (reserve hash u n, ANum 0)
  | OLoad n d => (set_max_load_factor u (rational (wrap64 n) (wrap64 d)), ANum 0)
  | OCopy => (copy hash u, ANum 0)
  | OMoved => ((move u).2, ANum 0)
  end.

Definition spec_op (o : op K V) (m : gmap K V) : gmap K V * answer V :=
  match o with
  | OFind k => (m, AVal (m !! k))
  | OCount k => (m, ANum (if m !! k is Some _ then 1 else 0))
  | OSize => (m, ANum (wrap64 (Z.of_nat (base.size m))))
  | OEmplace k v => if m !! k is Some _ then (m, ANum 0) else (<[k := v]> m, ANum 1)
  | OAssign k v => (<[k := v]> m, ANum (if m !! k is Some _ then 0 else 1))
  | OSubscript k d => let m' := if m !! k is Some _ then m else <[k := d]> m in (m', AVal (m' !! k))
  | OErase k => (delete k m, ANum (if m !! k is Some _ then 1 else 0))
  | OClear | OMoved => (∅, ANum 0)
  | ORehash _ | OReserve _ | OLoad _ _ | OCopy => (m, ANum 0)
  end.

Fixpoint run {S} (f : op K V → S → S * answer V) (ops : list (op K V)) (s : S)
    : S * list (answer V) :=
  match ops with
  | [] => (s, [])
  | o :: ops => let '(s1, a) := f o s in let '(s2, l) := run f ops s1 in (s2, a :: l)
  end.

Lemma rational_pos n d : is_u64 n → is_u64 d → 0 < numerator (rational n d).
Proof.
  intros Hn Hd. unfold rational, normalize. cbn [numerator denominator].
  destruct (Z.eqb_spec n 0) as [|Hn0]; [done|]. destruct (Z.eqb_spec d 0) as [|Hd0]; [done|].
  cbn [orb numerator]. rewrite RationalFacts.gcd_loop_spec by done.
  assert (Z.gcd n d ≠ 0) as Hg by (intros [? ?]%Z.gcd_eq_0; done).
  rewrite (proj2 (Z.eqb_neq _ _)) by done. pose proof (Z.gcd_nonneg n d).
  unfold is_u64 in *. apply Z.div_str_pos. split; [lia|].
  apply Z.divide_pos_le; [lia|]. apply Z.gcd_divide_l.
Qed.

Lemma op_refines o u :
  wf hash u → factor_pos u →
  let '(u', a) := run_op o u in
  wf hash u' ∧ factor_pos u' ∧ spec_op o (to_map u) = (to_map u', a).
Proof.
  intros Hwf Hf. destruct o as [k|k| |k v|k v|k d|k| |n|n|n d| |]; cbn [run_op spec_op].
  - by rewrite at_nt_spec.
  - split_and!; [done..|]. unfold count, contains. rewrite found_not_end by done.
    by destruct (to_map u !! k).
  - split_and!; [done..|]. by rewrite <- (size_spec hash) by done.
  - pose proof (try_emplace_spec hash u k v Hwf Hf) as Hs.
    destruct (U_try_emplace hash u k v) as [u' [it b]]. destruct Hs as (? & ? & _ & -> & ->).
    by destruct (to_map u !! k).
  - pose proof (insert_or_assign_spec hash u k v Hwf Hf) as Hs.
    destruct (insert_or_assign hash u k v) as [u' [it b]]. destruct Hs as (? & ? & -> & ->).
    by destruct (to_map u !! k).
  - unfold subscript. pose proof (try_emplace_spec hash u k d Hwf Hf) as Hs.
    destruct (U_try_emplace hash u k d) as [u' [it b]].
    destruct Hs as (Hwf' & ? & -> & -> & Hm).
    unfold it_value. cbn. rewrite bucket_find, Hm by done. split_and!; [done..|].
    by destruct (to_map u !! k).
  - pose proof (erase_spec hash u k Hwf Hf) as Hs.
    destruct (erase hash u k) as [u' n]. destruct Hs as (? & ? & -> & ->).
    split_and!; [done..|]. by destruct (to_map u !! k).
  - destruct (clear_spec hash u) as [? ->]. done.
  - destruct (rehash_spec hash u n Hwf Hf) as (? & -> & Hl & _). split_and!; [done| |done].
    unfold factor_pos. by rewrite Hl.
  - unfold reserve. destruct (rehash_spec hash u (U_min_bucket_count u n) Hwf Hf)
      as (? & -> & Hl & _). split_and!; [done| |done]. unfold factor_pos. by rewrite Hl.
  - split_and!; [by apply wf_factor| |done]. apply rational_pos; apply wrap64_range.
  - destruct (copy_spec hash u Hwf Hf) as (? & ? & ->). done.
  - split_and!; [|done..]. split; cbn; [constructor|done|done].
Qed.

Lemma run_refines ops u :
  wf hash u → factor_pos u →
  let '(u', l) := run run_op ops u in
  wf hash u' ∧ run spec_op ops (to_map u) = (to_map u', l).
Proof.
  revert u. induction ops as [|o ops IH]; intros u Hwf Hf; cbn [run]; [done|].
  pose proof (op_refines o u Hwf Hf) as Ho. destruct (run_op o u) as [u1 a].
  destruct Ho as (Hwf1 & Hf1 & ->). specialize (IH u1 Hwf1 Hf1).
  destruct (run run_op ops u1) as [u2 l]. destruct IH as (? & ->). done.
Qed.

(** C27: whatever the hash function, the number of buckets it starts with and the
    operations performed (insertions, removals, growth, a change of the load factor,
    copies, moves), a hash table answers every operation as the finite map would, and
    a loop over the table visits every entry of that map once. *)
Theorem unordered_map_refines (n : Z) (ops : list (op K V)) :
  let '(u, answers) := run run_op ops (with_buckets n) in
  let '(m, expected) := run spec_op ops (∅ : gmap K V) in
  answers = expected ∧ entries u ≡ₚ map_to_list m.
Proof.
  destruct (empty_spec (V:=V) hash n) as [Hwf Hm].
  pose proof (run_refines ops (with_buckets n) Hwf eq_refl) as Hr. rewrite Hm in Hr.
  destruct (run run_op ops (with_buckets n)) as [u l]. destruct Hr as (Hwf' & ->).
  split; [done|]. rewrite (entries_concat hash) by done.
  symmetry. apply map_to_list_to_map, (wf_nodup _ _ Hwf').
Qed.

End spec.

(** Strings that collide in a table of two buckets, through growth and removal. *)
Example string_table :
  run (run_op string_hash)
    [OAssign "a"%string 1; OAssign "c"%string 2; OAssign "a"%string 3; OFind "a"%string;
     OErase "a"%string; OFind "c"%string; OSize; OCount "a"%string] (with_buckets 0) =
  (mkUMap [[]; [("c"%string, 2)]] 1 one,
   [ANum 1; ANum 1; ANum 0; AVal (Some 3); ANum 1; AVal (Some 2); ANum 1; ANum 0]).
Proof. vm_compute. reflexivity. Qed.

End HashMapSpec.
