(* ===== verification/TmpFs.v ===== *)
(** * The memory file system

    [kernel/vfs/tmpfs.h] and [tmpfs.cpp]: a superblock owns the nodes, in a hash table
    from inode numbers; a directory node has a hash table from names to inode numbers.
    Handles ([TmpFSFile], [TmpFSDirectory], [TmpFSSymlink]) hold a raw pointer to a
    node.  The nodes of a hash table do not move, so such a pointer is the number of
    its inode, and using it after the node is gone is a [Panic].

    The tables are any instance of [UMap].  [new char[n]] gives the null pointer
    ([None]) or memory with arbitrary contents ([Some g], [g] the bytes), which each
    operation takes as an argument, as it does whether [new] of a handle succeeds. *)

From Stdlib Require Import Ascii.
From S2P Require Import Prelude ErrCode HashMap.

#[local] Open Scope Z_scope.

Module TmpFs.

(** ** Data *)

Inductive INodeType := FILE | DIRECTORY | SYMLINK.
#[global] Instance INodeType_eq_dec : EqDecision INodeType.
Proof. solve_decision. Defined.

Record AttrSet := mkAttr {
  a_mode : Z; a_uid : Z; a_gid : Z; a_size : Z; a_inode : Z; a_nlink : Z;
  a_atime : Z; a_mtime : Z; a_ctime : Z; a_blksize : Z; a_blocks : Z;
}.

Inductive IINode := TmpFSFile (node : Z) | TmpFSDirectory (node : Z) | TmpFSSymlink (node : Z).

Definition TMPFS_S_IFREG : Z := 0x8000.
Definition TMPFS_S_IFDIR : Z := 0x4000.
Definition TMPFS_S_IFLNK : Z := 0xA000.

Definition validate_entry_name (name : string) : Result unit :=
  if bool_decide (name = ""%string) || bool_decide (name = "."%string) ||
     bool_decide (name = ".."%string) then Err INVALID_PARAM
  else if existsb (Ascii.eqb "/"%char) (String.list_ascii_of_string name) then Err INVALID_PARAM
  else Ok tt.

(** [0755], [0777] and [0644] are octal. *)
Definition default_mode (type : INodeType) : Z :=
  match type with
  | DIRECTORY => Z.lor TMPFS_S_IFDIR 493
  | SYMLINK => Z.lor TMPFS_S_IFLNK 511
  | FILE => Z.lor TMPFS_S_IFREG 420
  end.

Definition MAX_TMPFS_FILE : Z := 64 * 1024 * 1024.

(** [memcpy] of [bytes] into an array, at [start]. *)
Definition copy_in (start : Z) (bytes l : list Z) : list Z :=
  take (Z.to_nat start) l ++ bytes ++ drop (Z.to_nat start + length bytes) l.

(** [new char[n]] *)
Definition new_chars (mem : option (nat → Z)) (n : Z) : option (list Z) :=
  (λ g, g <$> seq 0 (Z.to_nat n)) <$> mem.

Section tmpfs.
Context {US UI : Type → Type} `{!UMap string US} `{!UMap Z UI}.

(** [content] is empty when the code has the null pointer. *)
Record TmpFSNode := mkNode {
  inode_id : Z;
  type : INodeType;
  entries : US Z;
  content : list Z;
  content_sz : Z;
  symlink_target : string;
}.

Record TmpFSSuperblock := mkSb {
  sb_id : Z;
  next_inode : Z;
  nodes : UI TmpFSNode;
}.

Definition set_nodes f (s : TmpFSSuperblock) : TmpFSSuperblock :=
  mkSb (sb_id s) (next_inode s) (f (nodes s)).
Definition set_entries f (n : TmpFSNode) : TmpFSNode :=
  mkNode (inode_id n) (type n) (f (entries n)) (content n) (content_sz n) (symlink_target n).
Definition set_content c sz (n : TmpFSNode) : TmpFSNode :=
  mkNode (inode_id n) (type n) (entries n) c sz (symlink_target n).
Definition set_target t (n : TmpFSNode) : TmpFSNode :=
  mkNode (inode_id n) (type n) (entries n) (content n) (content_sz n) t.

(** A node as [TmpFSNode node{}] leaves it, with its number and type set. *)
Definition new_node (id : Z) (ty : INodeType) : TmpFSNode := mkNode id ty um_empty [] 0 "".

(** Reading and writing through a pointer to a node. *)
Definition deref (p : Z) : M TmpFSSuperblock TmpFSNode :=
  n ← gets (λ s, um_find p (nodes s));
  match n with Some n => mret n | None => panic end.
Definition update (p : Z) (f : TmpFSNode → TmpFSNode) : M TmpFSSuperblock unit :=
  n ← deref p; modify (set_nodes (um_put p (f n))).

Definition fill_node_attr (n : TmpFSNode) : AttrSet :=
  let attr size nlink blocks :=
    mkAttr (default_mode (type n)) 0 0 size (inode_id n) nlink 0 0 0 512 blocks in
  match type n with
  | DIRECTORY => attr 0 2 0
  | SYMLINK => attr (Z.of_nat (String.length (symlink_target n))) 1 0
  | FILE => attr (content_sz n) 1 (add64 (content_sz n) 511 / 512)
  end.

(** ** Files *)

Definition resize_file_content (mem : option (nat → Z)) (p new_size : Z)
    : M TmpFSSuperblock unit :=
  n ← deref p;
  if new_size =? content_sz n then mret tt
  else if MAX_TMPFS_FILE <? new_size then fail OUT_OF_BOUNDARY
  else
    new_content ←
      (if negb (new_size =? 0) then
         match new_chars mem new_size with
         | None => fail OUT_OF_MEMORY
         | Some new_content =>
             let copied := Z.min (content_sz n) new_size in
             let c1 := if negb (copied =? 0) && negb (bool_decide (content n = []))
                       then copy_in 0 (take (Z.to_nat copied) (content n)) new_content
                       else new_content in
             mret (if copied <? new_size
                   then copy_in copied (replicate (Z.to_nat (new_size - copied)) 0) c1
                   else c1)
         end
       else mret []);
    update p (set_content new_content new_size).

(** [buf] is the null pointer or not; the answer is what is stored in the buffer, its
    length what [read] returns. *)
Definition file_read (p offset : Z) (buf : bool) (len : Z) : M TmpFSSuperblock (list Z) :=
  if (offset <? 0) || negb buf then fail INVALID_PARAM
  else
    n ← deref p;
    if content_sz n <=? offset then mret []
    else
      let readable := Z.min len (content_sz n - offset) in
      mret (take (Z.to_nat readable) (drop (Z.to_nat offset) (content n))).

Definition file_write (mem : option (nat → Z)) (p offset : Z) (buf : option (list Z)) (len : Z)
    : M TmpFSSuperblock Z :=
  if (offset <? 0) || (negb (len =? 0) && bool_decide (buf = None)) then fail INVALID_PARAM
  else
    let end_ := add64 offset len in
    if end_ <? offset then fail OUT_OF_BOUNDARY
    else
      n ← deref p;
      _ ← (if content_sz n <? end_ then resize_file_content mem p end_ else mret tt);
      n ← deref p;
      if negb (len =? 0) then
        if bool_decide (content n = []) then fail OUT_OF_MEMORY
        else
          let bytes := take (Z.to_nat len) (default [] buf) in
          _ ← update p (λ n, set_content (copy_in offset bytes (content n)) (content_sz n) n);
          mret len
      else mret len.

Definition file_size (p : Z) : M TmpFSSuperblock Z := n ← deref p; mret (content_sz n).
Definition file_truncate (mem : option (nat → Z)) (p new_size : Z) : M TmpFSSuperblock unit :=
  resize_file_content mem p new_size.
Definition file_ioctl : M TmpFSSuperblock unit := fail NOT_SUPPORTED.
Definition file_sync : M TmpFSSuperblock unit := mret tt.
Definition node_getattr (p : Z) : M TmpFSSuperblock AttrSet :=
  n ← deref p; mret (fill_node_attr n).
Definition node_setattr : M TmpFSSuperblock unit := mret tt.
Definition node_inode_id (p : Z) : M TmpFSSuperblock Z := n ← deref p; mret (inode_id n).

(** ** The superblock *)

Definition new_superblock (id : Z) : TmpFSSuperblock :=
  mkSb id 1 (um_put 0 (new_node 0 DIRECTORY) um_empty).

(** A pointer to the node: its number. *)
Definition lookup_node (id : Z) : M TmpFSSuperblock Z :=
  n ← gets (λ s, um_find id (nodes s));
  match n with Some _ => mret id | None => fail ENTRY_NOT_FOUND end.

Definition alloc_inode (ty : INodeType) : M TmpFSSuperblock Z :=
  id ← gets next_inode;
  _ ← modify (λ s, mkSb (sb_id s) (add64 id 1) (um_put id (new_node id ty) (nodes s)));
  mret id.

Definition free_inode (id : Z) : M TmpFSSuperblock unit :=
  n ← gets (λ s, um_find id (nodes s));
  if (id =? 0) || bool_decide (n = None) then fail ENTRY_NOT_FOUND
  else modify (set_nodes (um_erase id)).

(** The guard that frees the inode is released before it can run. *)
Definition create_entry (parent : Z) (name : string) (ty : INodeType) : M TmpFSSuperblock Z :=
  _ ← of_result (validate_entry_name name);
  n ← deref parent;
  if negb (bool_decide (type n = DIRECTORY)) then fail INVALID_PARAM
  else if bool_decide (is_Some (um_find name (entries n))) then fail KEY_DUPLICATED
  else
    inode ← alloc_inode ty;
    _ ← update parent (set_entries (um_put name inode));
    mret inode.

Definition get_inode (ok : bool) (id : Z) : M TmpFSSuperblock IINode :=
  p ← lookup_node id;
  n ← deref p;
  if negb ok then fail OUT_OF_MEMORY
  else mret match type n with
            | DIRECTORY => TmpFSDirectory p
            | SYMLINK => TmpFSSymlink p
            | FILE => TmpFSFile p
            end.

Definition root : M TmpFSSuperblock Z := mret 0.
Definition inode_mode (id : Z) : M TmpFSSuperblock Z :=
  p ← lookup_node id; n ← deref p; mret (default_mode (type n)).
Definition is_symlink (id : Z) : M TmpFSSuperblock bool :=
  p ← lookup_node id; n ← deref p; mret (bool_decide (type n = SYMLINK)).
Definition readlink (id : Z) : M TmpFSSuperblock string :=
  p ← lookup_node id;
  n ← deref p;
  if negb (bool_decide (type n = SYMLINK)) then fail TYPE_NOT_MATCHED
  else mret (symlink_target n).
Definition symlink_read (p : Z) : M TmpFSSuperblock string :=
  n ← deref p; mret (symlink_target n).

(** ** Directories *)

Definition dir_lookup (p : Z) (name : string) : M TmpFSSuperblock Z :=
  n ← deref p;
  if bool_decide (name = ""%string) then mret (inode_id n)
  else match um_find name (entries n) with
       | None => fail ENTRY_NOT_FOUND
       | Some id => mret id
       end.

Definition dir_mkfile (p : Z) (name : string) : M TmpFSSuperblock Z := create_entry p name FILE.
Definition dir_mkdir (p : Z) (name : string) : M TmpFSSuperblock Z := create_entry p name DIRECTORY.

Definition dir_symlink (p : Z) (name target : string) : M TmpFSSuperblock Z :=
  if bool_decide (target = ""%string) then fail INVALID_PARAM
  else
    inode ← create_entry p name SYMLINK;
    q ← lookup_node inode;
    _ ← update q (set_target target);
    mret inode.

Definition dir_link : M TmpFSSuperblock unit := fail NOT_SUPPORTED.
Definition dir_rename : M TmpFSSuperblock unit := fail NOT_SUPPORTED.

(** [entries.erase(name)], then [free_inode]. *)
Definition remove_entry (p : Z) (name : string) (target : Z) : M TmpFSSuperblock unit :=
  n ← deref p;
  let erase_count := bool_decide (is_Some (um_find name (entries n))) in
  _ ← update p (set_entries (um_erase name));
  if negb erase_count then fail ENTRY_NOT_FOUND
  else t ← deref target; free_inode (inode_id t).

Definition dir_unlink (p : Z) (name : string) : M TmpFSSuperblock unit :=
  id ← dir_lookup p name;
  target ← lookup_node id;
  t ← deref target;
  if bool_decide (type t = DIRECTORY) then fail NOT_SUPPORTED
  else remove_entry p name target.

Definition dir_rmdir (p : Z) (name : string) : M TmpFSSuperblock unit :=
  id ← dir_lookup p name;
  target ← lookup_node id;
  t ← deref target;
  if negb (bool_decide (type t = DIRECTORY)) then fail NOT_SUPPORTED
  else if negb (um_size (entries t) =? 0) then fail BUSY
  else remove_entry p name target.

Definition dir_entry_count (p : Z) : M TmpFSSuperblock Z := n ← deref p; mret (um_size (entries n)).

(** [begin()] advanced [index] times. *)
Definition dir_entry_at (p index : Z) : M TmpFSSuperblock string :=
  n ← deref p;
  if um_size (entries n) <=? index then fail OUT_OF_BOUNDARY
  else match um_list (entries n) !! Z.to_nat index with
       | Some kv => mret kv.1
       | None => panic
       end.

Definition dir_sync : M TmpFSSuperblock unit := mret tt.

End tmpfs.

(** ** The driver

    A superblock is named by its address; [None] and 0 are the null pointer. *)

Record TmpFSDriver := mkDriver { next_sb_id : Z; mounted : Z }.
Definition new_driver : TmpFSDriver := mkDriver 1 0.

Definition probe (name : option string) : Result unit :=
  match name with
  | None => Err NOT_SUPPORTED
  | Some name => if negb (bool_decide (name = "tmpfs"%string)) then Err NOT_SUPPORTED else Ok tt
  end.

(** [new_sb] is the address of the new superblock; the answer also has its number. *)
Definition mount (new_sb : Z) (name : option string) : M TmpFSDriver (Z * Z) :=
  _ ← of_result (probe name);
  m ← gets mounted;
  if negb (m =? 0) then fail BUSY
  else if new_sb =? 0 then fail OUT_OF_MEMORY
  else
    id ← gets next_sb_id;
    _ ← modify (λ _, mkDriver (add64 id 1) new_sb);
    mret (new_sb, id).

Definition unmount (sb : Z) : M TmpFSDriver unit :=
  modify (λ d, if mounted d =? sb then mkDriver (next_sb_id d) 0 else d).

End TmpFs.
Import TmpFs.

(** ** What it promises: a tree of named nodes *)

Module TmpFsSpec.

Inductive anode := AFile (bytes : list Z) | ADir (m : gmap string Z) | ALink (target : string).
Record afs := mkAfs { a_nodes : gmap Z anode; a_next : Z }.

Definition a_put (p : Z) (x : anode) (a : afs) : afs := mkAfs (<[p := x]> (a_nodes a)) (a_next a).

Definition kind (x : anode) : INodeType :=
  match x with AFile _ => FILE | ADir _ => DIRECTORY | ALink _ => SYMLINK end.

(** What users do, through handles ([p]) and inode numbers ([id]). *)
Inductive op :=
  | ORead (p offset : Z) (buf : bool) (len : Z)
  | OWrite (mem : option (nat → Z)) (p offset : Z) (buf : option (list Z)) (len : Z)
  | OSize (p : Z)
  | OTruncate (mem : option (nat → Z)) (p new_size : Z)
  | OLookup (p : Z) (name : string)
  | OMkfile (p : Z) (name : string)
  | OMkdir (p : Z) (name : string)
  | OSymlink (p : Z) (name target : string)
  | OUnlink (p : Z) (name : string)
  | ORmdir (p : Z) (name : string)
  | OCount (p : Z)
  | OGetInode (ok : bool) (id : Z)
  | OMode (id : Z)
  | OReadlink (id : Z).

Inductive answer :=
  | RUnit | RNum (n : Z) | RBytes (l : list Z) | RName (t : string) | RNode (h : IINode).

(** The bytes of a file after a write: the written ones, the old ones around them,
    zeros in a gap. *)
Definition written (offset : Z) (bytes l : list Z) : list Z :=
  let o := Z.to_nat offset in
  (λ i, if decide (o <= i < o + length bytes)%nat then nth (i - o) bytes 0 else nth i l 0)
    <$> seq 0 (max (length l) (o + length bytes)).

Definition spec_resize (mem : option (nat → Z)) (n : Z) (l : list Z) : Result (list Z) :=
  if n =? Z.of_nat (length l) then Ok l
  else if MAX_TMPFS_FILE <? n then Err OUT_OF_BOUNDARY
  else if negb (n =? 0) && bool_decide (mem = None) then Err OUT_OF_MEMORY
  else Ok (resize (Z.to_nat n) 0 l).

Definition spec_write (mem : option (nat → Z)) (offset : Z) (buf : option (list Z)) (len : Z)
    (l : list Z) : Result (list Z) :=
  if (offset <? 0) || (negb (len =? 0) && bool_decide (buf = None)) then Err INVALID_PARAM
  else if W64 <=? offset + len then Err OUT_OF_BOUNDARY
  else
    _ ← (if Z.of_nat (length l) <? offset + len then spec_resize mem (offset + len) l else Ok l);
    Ok (written offset (take (Z.to_nat len) (default [] buf)) l).

Definition spec_create (p : Z) (m : gmap string Z) (name : string) (x : anode) (a : afs)
    : afs * Result answer :=
  match validate_entry_name name with
  | Err e => (a, Err e)
  | Ok _ =>
      if m !! name is Some _ then (a, Err KEY_DUPLICATED)
      else (mkAfs (<[p := ADir (<[name := a_next a]> m)]> (<[a_next a := x]> (a_nodes a)))
              (a_next a + 1), Ok (RNum (a_next a)))
  end.

Definition spec_remove (p : Z) (m : gmap string Z) (name : string) (j : Z) (a : afs) : afs :=
  mkAfs (delete j (<[p := ADir (delete name m)]> (a_nodes a))) (a_next a).

Definition file_of (a : afs) (p : Z) : list Z :=
  if a_nodes a !! p is Some (AFile l) then l else [].
Definition dir_of (a : afs) (p : Z) : gmap string Z :=
  if a_nodes a !! p is Some (ADir m) then m else ∅.

Definition spec_op (o : op) (a : afs) : afs * Result answer :=
  match o with
  | ORead p offset buf len =>
      (a, if (offset <? 0) || negb buf then Err INVALID_PARAM
          else Ok (RBytes (take (Z.to_nat len) (drop (Z.to_nat offset) (file_of a p)))))
  | OWrite mem p offset buf len =>
      match spec_write mem offset buf len (file_of a p) with
      | Ok l => (a_put p (AFile l) a, Ok (RNum len))
      | Err e => (a, Err e)
      end
  | OSize p => (a, Ok (RNum (Z.of_nat (length (file_of a p)))))
  | OTruncate mem p n =>
      match spec_resize mem n (file_of a p) with
      | Ok l => (a_put p (AFile l) a, Ok RUnit)
      | Err e => (a, Err e)
      end
  | OLookup p name =>
      (a, if decide (name = ""%string) then Ok (RNum p)
          else if dir_of a p !! name is Some j then Ok (RNum j) else Err ENTRY_NOT_FOUND)
  | OMkfile p name => spec_create p (dir_of a p) name (AFile []) a
  | OMkdir p name => spec_create p (dir_of a p) name (ADir ∅) a
  | OSymlink p name target =>
      if decide (target = ""%string) then (a, Err INVALID_PARAM)
      else spec_create p (dir_of a p) name (ALink target) a
  | OUnlink p name =>
      if decide (name = ""%string) then (a, Err NOT_SUPPORTED)
      else match dir_of a p !! name with
           | None => (a, Err ENTRY_NOT_FOUND)
           | Some j => if a_nodes a !! j is Some (ADir _) then (a, Err NOT_SUPPORTED)
                       else (spec_remove p (dir_of a p) name j a, Ok RUnit)
           end
  | ORmdir p name =>
      if decide (name = ""%string) then
        (a, Err (if decide (dir_of a p = ∅) then ENTRY_NOT_FOUND else BUSY))
      else match dir_of a p !! name with
           | None => (a, Err ENTRY_NOT_FOUND)
           | Some j =>
               if a_nodes a !! j is Some (ADir m) then
                 if decide (m = ∅) then (spec_remove p (dir_of a p) name j a, Ok RUnit)
                 else (a, Err BUSY)
               else (a, Err NOT_SUPPORTED)
           end
  | OCount p => (a, Ok (RNum (Z.of_nat (size (dir_of a p)))))
  | OGetInode ok id =>
      (a, if a_nodes a !! id is Some x then
            if ok then Ok (RNode match x with
                                 | AFile _ => TmpFSFile id
                                 | ADir _ => TmpFSDirectory id
                                 | ALink _ => TmpFSSymlink id
                                 end)
            else Err OUT_OF_MEMORY
          else Err ENTRY_NOT_FOUND)
  | OMode id =>
      (a, if a_nodes a !! id is Some x then Ok (RNum (default_mode (kind x)))
          else Err ENTRY_NOT_FOUND)
  | OReadlink id =>
      (a, match a_nodes a !! id with
          | Some (ALink t) => Ok (RName t)
          | Some _ => Err TYPE_NOT_MATCHED
          | None => Err ENTRY_NOT_FOUND
          end)
  end.

(** A handle is used while its node is there, on machine integers, and a buffer has
    the length it is given with. *)
Definition op_ok (a : afs) (o : op) : Prop :=
  match o with
  | ORead p offset _ len =>
      (∃ l, a_nodes a !! p = Some (AFile l)) ∧ - 2 ^ 63 <= offset < 2 ^ 63 ∧ is_u64 len
  | OWrite _ p offset buf len =>
      (∃ l, a_nodes a !! p = Some (AFile l)) ∧ - 2 ^ 63 <= offset < 2 ^ 63 ∧ is_u64 len ∧
      (∀ b, buf = Some b → Z.of_nat (length b) = len)
  | OSize p => ∃ l, a_nodes a !! p = Some (AFile l)
  | OTruncate _ p n => (∃ l, a_nodes a !! p = Some (AFile l)) ∧ is_u64 n
  | OLookup p _ | OMkfile p _ | OMkdir p _ | OSymlink p _ _ | OUnlink p _ | ORmdir p _
  | OCount p => ∃ m, a_nodes a !! p = Some (ADir m)
  | OGetInode _ _ | OMode _ | OReadlink _ => True
  end.

(** [edge a p name j]: the directory [p] has the entry [name] for [j]. *)
Definition edge (a : afs) (p : Z) (name : string) (j : Z) : Prop :=
  ∃ m, a_nodes a !! p = Some (ADir m) ∧ m !! name = Some j.

(** The nodes form a tree below node 0, and parents are older than their children. *)
Record tree (a : afs) : Prop := {
  t_root : ∃ m, a_nodes a !! 0 = Some (ADir m);
  t_edge p name j : edge a p name j →
    p < j ∧ is_Some (a_nodes a !! j) ∧ validate_entry_name name = Ok tt;
  t_uniq p1 name1 p2 name2 j :
    edge a p1 name1 j → edge a p2 name2 j → p1 = p2 ∧ name1 = name2;
  t_named j : is_Some (a_nodes a !! j) → j = 0 ∨ ∃ p name, edge a p name j;
  t_next j : is_Some (a_nodes a !! j) → 0 <= j < a_next a;
}.

(** [names a l j]: the names [l] lead from the root to [j]. *)
Inductive names (a : afs) : list string → Z → Prop :=
  | names_root : names a [] 0
  | names_step l p name j : names a l p → edge a p name j → names a (l ++ [name]) j.

(** *** Trees *)

Lemma edge_dom a p name j : edge a p name j → is_Some (a_nodes a !! p).
Proof. intros (m & Hp & _). by eexists. Qed.

Lemma edge_below a p name j : tree a → edge a p name j → 0 <= p < j.
Proof.
  intros Ht He. destruct (t_edge a Ht _ _ _ He) as (Hlt & _).
  pose proof (t_next a Ht p (edge_dom _ _ _ _ He)). lia.
Qed.

Lemma tree_name a j : tree a → is_Some (a_nodes a !! j) → ∃ l, names a l j.
Proof.
  intros Ht. remember (Z.to_nat j) as n eqn:Hn. revert j Hn.
  induction (lt_wf n) as [n _ IH]; intros j -> Hj.
  destruct (t_named a Ht j Hj) as [->|(p & name & He)]; [eexists; constructor|].
  pose proof (edge_below a p name j Ht He).
  destruct (IH (Z.to_nat p)) with (j := p) as [l Hl]; [lia|done|by eapply edge_dom|].
  eexists. by econstructor.
Qed.

Lemma tree_name_unique a l1 l2 j : tree a → names a l1 j → names a l2 j → l1 = l2.
Proof.
  intros Ht H1. revert l2. induction H1 as [|l p name j H1 IH He]; intros l2 H2.
  - inversion H2 as [|l p name j' H2' He]; [done|]; subst.
    pose proof (edge_below _ _ _ _ Ht He). lia.
  - inversion H2 as [|l' p' name' j' H2' He']; subst.
    + pose proof (edge_below _ _ _ _ Ht He). lia.
    + destruct (t_uniq a Ht _ _ _ _ _ He He') as [-> ->]. by rewrite (IH l').
Qed.

Lemma tree_dir_size a p m :
  tree a → a_nodes a !! p = Some (ADir m) → Z.of_nat (size m) < a_next a.
Proof.
  intros Ht Hp. pose proof (t_next a Ht p (mk_is_Some _ _ Hp)) as Hpn.
  assert (NoDup (map_to_list m).*2) as Hnd.
  { apply NoDup_fmap_2_strong; [|apply NoDup_map_to_list].
    intros [n1 j1] [n2 j2] H1%elem_of_map_to_list H2%elem_of_map_to_list. cbn. intros ->.
    f_equal. destruct (t_uniq a Ht p n1 p n2 j2) as [_ ->]; [by exists m|by exists m|done]. }
  assert ((map_to_list m).*2 ⊆ seqZ 1 (a_next a - 1)) as Hsub.
  { intros j ([name j'] & -> & Hj)%list_elem_of_fmap.
    apply elem_of_map_to_list in Hj.
    destruct (t_edge a Ht p name j') as (Hlt & Hs & _); [by exists m|].
    pose proof (t_next a Ht _ Hs). apply elem_of_seqZ. cbn. lia. }
  pose proof (submseteq_length _ _ (NoDup_submseteq _ _ Hnd Hsub)) as Hl.
  rewrite length_fmap, length_map_to_list, length_seqZ in Hl. lia.
Qed.

(** Changing a file keeps the tree. *)
Lemma tree_put_file a p l l' :
  tree a → a_nodes a !! p = Some (AFile l) → tree (a_put p (AFile l') a).
Proof.
  intros [Hr He Hu Hn Hx] Hp.
  assert (∀ q m, a_nodes (a_put p (AFile l') a) !! q = Some (ADir m) ↔
    a_nodes a !! q = Some (ADir m)) as Hdir.
  { intros q m. cbn. destruct (decide (p = q)) as [<-|]; simplify_map_eq; [|done].
    by split. }
  assert (∀ q, is_Some (a_nodes (a_put p (AFile l') a) !! q) ↔ is_Some (a_nodes a !! q)) as Hdom.
  { intros q. cbn. rewrite lookup_insert_is_Some.
    destruct (decide (p = q)) as [<-|]; [|naive_solver]. split; [by eexists|by left]. }
  assert (∀ q name j, edge (a_put p (AFile l') a) q name j ↔ edge a q name j) as Hedge.
  { intros q name j. unfold edge. by setoid_rewrite Hdir. }
  split.
  - destruct Hr as [m Hm]. exists m. by apply Hdir.
  - intros q name j Hj%Hedge. rewrite Hdom. eauto.
  - intros p1 n1 p2 n2 j H1%Hedge H2%Hedge. eauto.
  - intros j Hj%Hdom. destruct (Hn j Hj) as [->|(q & name & Hq)]; [by left|right].
    exists q, name. by apply Hedge.
  - intros j Hj%Hdom. cbn. eauto.
Qed.

(** A node that holds no entries. *)
Definition leaf (x : anode) : Prop := ∀ m, x = ADir m → m = ∅.

Lemma tree_create a p m name x :
  tree a → a_nodes a !! p = Some (ADir m) → m !! name = None →
  validate_entry_name name = Ok tt → leaf x →
  tree (mkAfs (<[p := ADir (<[name := a_next a]> m)]> (<[a_next a := x]> (a_nodes a)))
          (a_next a + 1)).
Proof.
  intros Ht Hp Hm Hv Hleaf. pose proof Ht as [Hr He Hu Hn Hx]. set (a' := mkAfs _ _).
  set (j0 := a_next a) in *. pose proof (Hx p (mk_is_Some _ _ Hp)) as Hp0.
  assert (a_nodes a !! j0 = None) as Hfresh.
  { apply eq_None_not_Some. intros Hj%Hx. lia. }
  assert (p ≠ j0) as Hpj by lia.
  assert (∀ q, is_Some (a_nodes a' !! q) ↔ q = j0 ∨ is_Some (a_nodes a !! q)) as Hdom.
  { intros q. cbn. rewrite !lookup_insert_is_Some.
    destruct (decide (p = q)) as [Hq|Hq]; [subst q; naive_solver|].
    destruct (decide (j0 = q)); naive_solver. }
  assert (∀ q n i, edge a' q n i ↔ edge a q n i ∨ (q = p ∧ n = name ∧ i = j0)) as Hedge.
  { intros q n i. unfold edge. cbn. destruct (decide (p = q)) as [<-|Hq].
    - rewrite lookup_insert_eq. split.
      + intros (m' & [= <-] & Hi). apply lookup_insert_Some in Hi as [[-> ->]|[? Hi]]; eauto.
      + intros [(m' & Hm' & Hi)|(_ & -> & ->)]; simplify_eq; eexists; (split; [done|]).
        * rewrite lookup_insert_ne; [done|]. intros ->. by rewrite Hm in Hi.
        * by rewrite lookup_insert_eq.
    - rewrite lookup_insert_ne by done. destruct (decide (j0 = q)) as [<-|Hj].
      + rewrite lookup_insert_eq, Hfresh. split; [|naive_solver].
        intros (m' & Hm' & Hi). simplify_eq. by rewrite (Hleaf m' eq_refl), lookup_empty in Hi.
      + rewrite lookup_insert_ne by done. naive_solver. }
  split.
  - destruct (decide (p = 0)) as [->|]; [eexists; apply lookup_insert_eq|].
    destruct Hr as [m0 H0]. exists m0. cbn. rewrite !lookup_insert_ne; [done|lia|done].
  - intros q n i [Hi|(-> & -> & ->)]%Hedge; rewrite Hdom.
    + destruct (He _ _ _ Hi) as (? & ? & ?). auto.
    + split_and!; [lia|by left|done].
  - intros p1 n1 p2 n2 i [H1|(-> & -> & ->)]%Hedge [H2|(-> & -> & Hi)]%Hedge;
      [eauto| | |done]; exfalso; subst;
      [destruct (He _ _ _ H1) as (_ & Hs & _)|destruct (He _ _ _ H2) as (_ & Hs & _)];
      by rewrite Hfresh in Hs; destruct Hs.
  - intros i [->|Hi]%Hdom; [right; exists p, name; apply Hedge; auto|].
    destruct (Hn i Hi) as [->|(q & n & Hq)]; [by left|right]. exists q, n. apply Hedge. auto.
  - intros i [->|Hi]%Hdom; cbn; [lia|]. specialize (Hx i Hi). lia.
Qed.

Lemma tree_remove a p m name j x :
  tree a → a_nodes a !! p = Some (ADir m) → m !! name = Some j →
  a_nodes a !! j = Some x → leaf x → tree (spec_remove p m name j a).
Proof.
  intros Ht Hp Hm Hj Hleaf. pose proof Ht as [Hr He Hu Hn Hx].
  assert (edge a p name j) as Hpj by by exists m.
  pose proof (edge_below a p name j Ht Hpj) as Hlt. unfold spec_remove. set (a' := mkAfs _ _).
  assert (∀ q, is_Some (a_nodes a' !! q) ↔ q ≠ j ∧ is_Some (a_nodes a !! q)) as Hdom.
  { intros q. cbn. rewrite lookup_delete_is_Some, lookup_insert_is_Some.
    destruct (decide (p = q)) as [<-|]; naive_solver. }
  assert (∀ q n i, edge a' q n i ↔ edge a q n i ∧ i ≠ j) as Hedge.
  { intros q n i. unfold edge at 1. cbn. destruct (decide (q = j)) as [->|Hqj].
    { rewrite lookup_delete_eq. split; [naive_solver|]. intros [(m' & Hm' & Hi) _].
      simplify_eq. by rewrite (Hleaf m' eq_refl), lookup_empty in Hi. }
    rewrite lookup_delete_ne by done. destruct (decide (p = q)) as [<-|Hq].
    - rewrite lookup_insert_eq. split.
      + intros (m' & [= <-] & Hi). apply lookup_delete_Some in Hi as [Hne Hi].
        assert (edge a p n i) as Hni by by exists m. split; [done|]. intros ->.
        apply Hne. by destruct (Hu _ _ _ _ _ Hni Hpj) as [_ ->].
      + intros [(m' & Hm' & Hi) Hij]. simplify_eq. eexists. split; [done|].
        rewrite lookup_delete_ne; [done|]. intros ->. congruence.
    - rewrite lookup_insert_ne by done. split.
      + intros (m' & Hm' & Hi). assert (edge a q n i) as Hni by by exists m'.
        split; [done|]. intros ->. by destruct (Hu _ _ _ _ _ Hni Hpj).
      + by intros [(m' & Hm' & Hi) _]; exists m'. }
  split.
  - destruct (decide (p = 0)) as [->|].
    + eexists. cbn. rewrite lookup_delete_ne by lia. apply lookup_insert_eq.
    + destruct Hr as [m0 H0]. exists m0. cbn. rewrite lookup_delete_ne by lia.
      by rewrite lookup_insert_ne.
  - intros q n i [Hi Hij]%Hedge. rewrite Hdom. destruct (He _ _ _ Hi) as (? & ? & ?). auto.
  - intros p1 n1 p2 n2 i [H1 _]%Hedge [H2 _]%Hedge. eauto.
  - intros i [Hij Hi]%Hdom. destruct (Hn i Hi) as [->|(q & n & Hq)]; [by left|right].
    exists q, n. by apply Hedge.
  - intros i [_ Hi]%Hdom. cbn. eauto.
Qed.

Lemma file_of_eq a p l : a_nodes a !! p = Some (AFile l) → file_of a p = l.
Proof. unfold file_of. by intros ->. Qed.
Lemma dir_of_eq a p m : a_nodes a !! p = Some (ADir m) → dir_of a p = m.
Proof. unfold dir_of. by intros ->. Qed.

Lemma spec_create_tree a p m name x :
  tree a → a_nodes a !! p = Some (ADir m) → leaf x → tree (spec_create p m name x a).1.
Proof.
  intros Ht Hp Hx. unfold spec_create.
  destruct (validate_entry_name name) as [[]|] eqn:Hv; [|done].
  destruct (m !! name) eqn:Hm; [done|]. by apply tree_create.
Qed.

(** Every operation keeps the tree. *)
Lemma spec_op_tree o a : tree a → op_ok a o → tree (spec_op o a).1.
Proof.
  intros Ht Hok. destruct o; cbn [spec_op op_ok] in *; try done.
  - destruct Hok as ([l Hl] & _). destruct (spec_write _ _ _ _ _); [|done].
    by eapply tree_put_file.
  - destruct Hok as ([l Hl] & _). destruct (spec_resize _ _ _); [|done].
    by eapply tree_put_file.
  - destruct Hok as [m Hm]. rewrite (dir_of_eq _ _ _ Hm). by apply spec_create_tree.
  - destruct Hok as [m Hm]. rewrite (dir_of_eq _ _ _ Hm). apply spec_create_tree; [done..|].
    by intros m' [= <-].
  - destruct Hok as [m Hm]. rewrite (dir_of_eq _ _ _ Hm). destruct (decide _); [done|].
    by apply spec_create_tree.
  - destruct Hok as [m Hm]. rewrite (dir_of_eq _ _ _ Hm). destruct (decide _); [done|].
    destruct (m !! name) as [j|] eqn:Hj; [|done].
    destruct (t_edge a Ht p name j) as (_ & [x Hx] & _); [by exists m|]. rewrite Hx.
    destruct x; [|done|]; (eapply tree_remove; [done..|]); by intros ? ?.
  - destruct Hok as [m Hm]. rewrite (dir_of_eq _ _ _ Hm). destruct (decide _); [done|].
    destruct (m !! name) as [j|] eqn:Hj; [|done].
    destruct (t_edge a Ht p name j) as (_ & [x Hx] & _); [by exists m|]. rewrite Hx.
    destruct x; [done| |done]. destruct (decide _) as [->|]; [|done].
    eapply tree_remove; [done..|]. by intros m' [= <-].
Qed.

(** *** Bytes of a file *)

Lemma copy_in_lookup (o : nat) bytes l i :
  (o + length bytes <= length l)%nat →
  copy_in (Z.of_nat o) bytes l !! i =
  if decide (o <= i < o + length bytes)%nat then bytes !! (i - o)%nat else l !! i.
Proof.
  intros Hl. unfold copy_in. rewrite Nat2Z.id. destruct (decide _) as [Hi|Hi].
  - rewrite lookup_app_r by (rewrite length_take; lia).
    rewrite length_take, Nat.min_l by lia. by rewrite lookup_app_l by lia.
  - destruct (decide (i < o)%nat).
    + rewrite lookup_app_l by (rewrite length_take; lia). by rewrite lookup_take_lt.
    + rewrite lookup_app_r by (rewrite length_take; lia).
      rewrite length_take, Nat.min_l by lia. rewrite lookup_app_r by lia.
      rewrite lookup_drop. f_equal. lia.
Qed.

Lemma length_copy_in (o : nat) bytes l :
  (o + length bytes <= length l)%nat → length (copy_in (Z.of_nat o) bytes l) = length l.
Proof.
  intros Hl. unfold copy_in. rewrite Nat2Z.id, !length_app, length_take, length_drop. lia.
Qed.

(** Copying the old contents and clearing the rest resizes the file. *)
Lemma resized_bytes (g : nat → Z) (l : list Z) (n : nat) :
  let arr := g <$> seq 0 n in
  let copied := Z.min (Z.of_nat (length l)) (Z.of_nat n) in
  let c1 := if negb (copied =? 0) && negb (bool_decide (l = []))
            then copy_in 0 (take (Z.to_nat copied) l) arr else arr in
  (if copied <? Z.of_nat n
   then copy_in copied (replicate (Z.to_nat (Z.of_nat n - copied)) 0) c1 else c1) = resize n 0 l.
Proof.
  cbn zeta. set (arr := g <$> seq 0 n).
  assert (length arr = n) as Harr by (unfold arr; by rewrite length_fmap, length_seq).
  set (k := min (length l) n).
  replace (Z.min (Z.of_nat (length l)) (Z.of_nat n)) with (Z.of_nat k) by lia.
  set (c1 := if negb _ && _ then _ else arr).
  assert (c1 = take k l ++ drop k arr) as Hc1.
  { unfold c1, copy_in. rewrite Nat2Z.id. destruct (Z.eqb_spec (Z.of_nat k) 0) as [Hk|Hk].
    - replace k with 0%nat by lia. cbn. by rewrite drop_0.
    - rewrite bool_decide_eq_false_2 by (intros ->; by apply Hk). cbn [negb andb].
      assert (length (take k l) = k) as -> by (rewrite length_take; lia). done. }
  rewrite Hc1. destruct (Z.ltb_spec (Z.of_nat k) (Z.of_nat n)) as [Hlt|Hge].
  - replace k with (length l) by lia. rewrite take_ge by lia.
    rewrite resize_ge by lia. unfold copy_in. rewrite Nat2Z.id.
    rewrite take_app_length', length_replicate by done. f_equal.
    replace (Z.to_nat (Z.of_nat n - Z.of_nat (length l))) with (n - length l)%nat by lia.
    rewrite drop_ge, app_nil_r; [done|]. rewrite length_app, length_drop. lia.
  - replace k with n by lia. rewrite drop_ge, app_nil_r by lia. by rewrite resize_le by lia.
Qed.

(** A write into a file that is long enough, or was resized. *)
Lemma written_bytes (o : nat) bytes l :
  copy_in (Z.of_nat o) bytes
    (if (length l <? o + length bytes)%nat then resize (o + length bytes) 0 l else l) =
  written (Z.of_nat o) bytes l.
Proof.
  set (l' := if (length l <? o + length bytes)%nat then _ else _).
  assert ((o + length bytes <= length l')%nat ∧
    length l' = max (length l) (o + length bytes) ∧
    ∀ i : nat, nth i l' 0 = nth i l 0) as (Hle & Hlen & Hnth).
  { unfold l'. destruct (Nat.ltb_spec (length l) (o + length bytes)).
    - rewrite length_resize. split_and!; [lia|lia|]. intros i. rewrite resize_ge by lia.
      destruct (decide (i < length l)%nat); [by rewrite app_nth1|].
      rewrite app_nth2 by lia. rewrite (nth_overflow l) by lia. rewrite nth_lookup.
      destruct (replicate _ _ !! _) eqn:E; [by apply lookup_replicate in E as [-> _]|done].
    - split_and!; [lia|lia|done]. }
  apply list_eq_same_length with (n := length l').
  - unfold written. by rewrite length_fmap, length_seq, Nat2Z.id.
  - by rewrite length_copy_in.
  - intros i x y Hi. rewrite copy_in_lookup by done. unfold written. rewrite Nat2Z.id.
    rewrite list_lookup_fmap, lookup_seq_lt by lia. cbn.
    destruct (decide _) as [Hin|Hout]; intros Hx [= <-]; symmetry.
    + by apply nth_lookup_Some.
    + rewrite <- Hnth. by apply nth_lookup_Some.
Qed.

(** *** The nodes of the code *)

Section refine.
Context {US UI : Type → Type} `{!UMap string US} `{!UMap Z UI}.
Implicit Types (s : TmpFSSuperblock (US := US) (UI := UI)) (n : TmpFSNode (US := US)).

Definition node_map s : gmap Z TmpFSNode := um_map (nodes s).

Definition abs_node n : anode :=
  match type n with
  | FILE => AFile (content n)
  | DIRECTORY => ADir (um_map (entries n))
  | SYMLINK => ALink (symlink_target n)
  end.

Definition abs s : afs := mkAfs (abs_node <$> node_map s) (next_inode s).

Record node_ok (i : Z) n : Prop := {
  n_id : inode_id n = i;
  n_entries : um_wf (entries n);
  n_size : Z.of_nat (length (content n)) = content_sz n;
  n_max : content_sz n <= MAX_TMPFS_FILE;
}.

Record rep s : Prop := {
  r_nodes : um_wf (nodes s);
  r_node i n : node_map s !! i = Some n → node_ok i n;
}.

Lemma find_node s p : rep s → um_find p (nodes s) = node_map s !! p.
Proof. intros Hr. apply um_find_map, Hr. Qed.

Lemma deref_run s p n : rep s → node_map s !! p = Some n → deref p s = Fin (Ok n) s.
Proof. intros Hr Hn. unfold deref, gets, mbind, M_bind. by rewrite find_node, Hn. Qed.

Lemma node_update_run s p n f :
  rep s → node_map s !! p = Some n →
  update p f s = Fin (Ok tt) (set_nodes (um_put p (f n)) s).
Proof.
  intros Hr Hn. unfold update. by rewrite (bind_run _ _ _ _ _ (deref_run s p n Hr Hn)).
Qed.

Lemma lookup_node_run s p n : rep s → node_map s !! p = Some n → lookup_node p s = Fin (Ok p) s.
Proof. intros Hr Hn. unfold lookup_node, gets, mbind, M_bind. by rewrite find_node, Hn. Qed.

Lemma lookup_node_none s p :
  rep s → node_map s !! p = None → lookup_node p s = Fin (Err ENTRY_NOT_FOUND) s.
Proof. intros Hr Hn. unfold lookup_node, gets, mbind, M_bind. by rewrite find_node, Hn. Qed.

Lemma put_map s p n : rep s → node_map (set_nodes (um_put p n) s) = <[p := n]> (node_map s).
Proof. intros Hr. apply um_put_map, Hr. Qed.

Lemma put_rep s p n : rep s → node_ok p n → rep (set_nodes (um_put p n) s).
Proof.
  intros Hr Hn. split; [apply um_put_wf, Hr|]. intros i n'. rewrite put_map by done.
  intros [[<- <-]|[_ Hi]]%lookup_insert_Some; [done|]. by apply Hr.
Qed.

Lemma put_abs s p n :
  rep s → abs (set_nodes (um_put p n) s) = a_put p (abs_node n) (abs s).
Proof. intros Hr. unfold abs, a_put. cbn. by rewrite put_map, fmap_insert. Qed.

Lemma abs_lookup s p x :
  a_nodes (abs s) !! p = Some x → ∃ n, node_map s !! p = Some n ∧ abs_node n = x.
Proof. cbn. rewrite lookup_fmap_Some. naive_solver. Qed.

Lemma abs_lookup_none s p : a_nodes (abs s) !! p = None → node_map s !! p = None.
Proof. cbn. by rewrite lookup_fmap, fmap_None. Qed.

Lemma abs_file s p l :
  a_nodes (abs s) !! p = Some (AFile l) →
  ∃ n, node_map s !! p = Some n ∧ type n = FILE ∧ content n = l.
Proof.
  intros (n & Hn & Hx)%abs_lookup. exists n. split; [done|]. unfold abs_node in Hx.
  destruct (type n); naive_solver.
Qed.

Lemma abs_dir s p m :
  a_nodes (abs s) !! p = Some (ADir m) →
  ∃ n, node_map s !! p = Some n ∧ type n = DIRECTORY ∧ um_map (entries n) = m.
Proof.
  intros (n & Hn & Hx)%abs_lookup. exists n. split; [done|]. unfold abs_node in Hx.
  destruct (type n); naive_solver.
Qed.

Lemma find_entry s p n name :
  rep s → node_map s !! p = Some n → um_find name (entries n) = um_map (entries n) !! name.
Proof. intros Hr Hn. apply um_find_map. by apply (n_entries p), Hr. Qed.

Lemma content_ok p n l :
  node_ok p n → Z.of_nat (length l) <= MAX_TMPFS_FILE →
  node_ok p (set_content l (Z.of_nat (length l)) n).
Proof. by intros [? ? ? ?] ?; split. Qed.

Lemma put_content s p n l :
  rep s → node_map s !! p = Some n → type n = FILE → Z.of_nat (length l) <= MAX_TMPFS_FILE →
  let s' := set_nodes (um_put p (set_content l (Z.of_nat (length l)) n)) s in
  rep s' ∧ abs s' = a_put p (AFile l) (abs s) ∧
  node_map s' !! p = Some (set_content l (Z.of_nat (length l)) n).
Proof.
  intros Hr Hn Ht Hl s'. pose proof (r_node s Hr _ _ Hn) as Hok. unfold s'. split_and!.
  - apply put_rep; [done|]. by apply content_ok.
  - rewrite put_abs by done. unfold abs_node. cbn [set_content type content]. by rewrite Ht.
  - by rewrite put_map, lookup_insert_eq.
Qed.

Lemma put_same s p n :
  rep s → node_map s !! p = Some n → type n = FILE →
  a_put p (AFile (content n)) (abs s) = abs s.
Proof.
  intros Hr Hn Ht. unfold a_put, abs. cbn. f_equal. apply insert_id.
  rewrite lookup_fmap, Hn. cbn. unfold abs_node. by rewrite Ht.
Qed.

Lemma file_resize_run mem s p n k :
  rep s → node_map s !! p = Some n → type n = FILE → is_u64 k →
  match spec_resize mem k (content n) with
  | Ok l => ∃ s', resize_file_content mem p k s = Fin (Ok tt) s' ∧ rep s' ∧
      abs s' = a_put p (AFile l) (abs s) ∧ Z.of_nat (length l) <= MAX_TMPFS_FILE ∧
      ∃ n', node_map s' !! p = Some n' ∧ type n' = FILE ∧ content n' = l
  | Err e => resize_file_content mem p k s = Fin (Err e) s
  end.
Proof.
  intros Hr Hn Ht Hk. pose proof (r_node s Hr _ _ Hn) as [Hid Hent Hsz Hmax].
  unfold resize_file_content. rewrite (bind_run _ _ _ _ _ (deref_run s p n Hr Hn)).
  unfold spec_resize. rewrite Hsz. destruct (Z.eqb_spec k (content_sz n)) as [->|Hne].
  { exists s. split_and!; [done|done|by rewrite put_same|lia|by exists n]. }
  destruct (Z.ltb_spec MAX_TMPFS_FILE k) as [|Hle]; [done|].
  unfold is_u64, W64 in Hk.
  assert (∀ l, length l = Z.to_nat k → ∃ s',
    update p (set_content l k) s = Fin (Ok tt) s' ∧ rep s' ∧
    abs s' = a_put p (AFile l) (abs s) ∧ Z.of_nat (length l) <= MAX_TMPFS_FILE ∧
    ∃ n', node_map s' !! p = Some n' ∧ type n' = FILE ∧ content n' = l) as Hput.
  { intros l Hl. destruct (put_content s p n l) as (? & ? & ?); [done..|lia|].
    rewrite (node_update_run s p n _ Hr Hn).
    replace (Z.of_nat (length l)) with k in * by lia.
    eexists. split_and!; [done..|lia|]. eexists. by split_and!. }
  destruct (Z.eqb_spec k 0) as [->|Hk0]; cbn [negb andb].
  { assert (resize (Z.to_nat 0) 0 (content n) = []) as -> by (by destruct (content n)).
    by apply (Hput []). }
  unfold new_chars. destruct mem as [g|]; cbn [fmap option_fmap option_map]; [|done].
  rewrite bool_decide_eq_false_2 by done.
  pose proof (resized_bytes g (content n) (Z.to_nat k)) as Hb. cbn zeta in Hb.
  rewrite Hsz, Z2Nat.id in Hb by lia.
  unfold mbind at 1, M_bind at 1, mret, M_ret. rewrite Hb. apply Hput. by rewrite length_resize.
Qed.

Lemma file_read_run s p n off buf len :
  rep s → node_map s !! p = Some n → is_u64 len →
  file_read p off buf len s =
  Fin (if (off <? 0) || negb buf then Err INVALID_PARAM
       else Ok (take (Z.to_nat len) (drop (Z.to_nat off) (content n)))) s.
Proof.
  intros Hr Hn Hlen. pose proof (r_node s Hr _ _ Hn) as [_ _ Hsz _]. unfold file_read.
  destruct (Z.ltb_spec off 0), buf; cbn [orb negb]; try done.
  rewrite (bind_run _ _ _ _ _ (deref_run s p n Hr Hn)). unfold is_u64 in Hlen.
  destruct (Z.leb_spec (content_sz n) off).
  - rewrite drop_ge by lia. by destruct (Z.to_nat len).
  - unfold mret, M_ret. do 2 f_equal.
    assert (length (drop (Z.to_nat off) (content n)) = Z.to_nat (content_sz n - off)) as Hd
      by (rewrite length_drop; lia).
    destruct (Z.min_spec len (content_sz n - off)) as [[_ ->]|[Hge ->]]; [done|].
    rewrite !take_ge by lia. done.
Qed.

(** The second half of [file_write]: the file is long enough. *)
Definition store (p off : Z) (bytes : list Z) (len : Z) : M (TmpFSSuperblock (US := US)) Z :=
  n ← deref p;
  if negb (len =? 0) then
    if bool_decide (content n = []) then fail OUT_OF_MEMORY
    else _ ← update p (λ n, set_content (copy_in off bytes (content n)) (content_sz n) n);
         mret len
  else mret len.

Lemma store_run s p n off bytes :
  rep s → node_map s !! p = Some n → type n = FILE → 0 <= off →
  off + Z.of_nat (length bytes) <= Z.of_nat (length (content n)) →
  ∃ s', store p off bytes (Z.of_nat (length bytes)) s = Fin (Ok (Z.of_nat (length bytes))) s' ∧
    rep s' ∧ abs s' = a_put p (AFile (copy_in off bytes (content n))) (abs s).
Proof.
  intros Hr Hn Ht Hoff Hl. unfold store.
  rewrite (bind_run _ _ _ _ _ (deref_run s p n Hr Hn)).
  pose proof (r_node s Hr _ _ Hn) as [_ _ Hsz Hmax].
  destruct (Z.eqb_spec (Z.of_nat (length bytes)) 0) as [H0|H0]; cbn [negb].
  - exists s. split_and!; [done..|]. destruct bytes; [|cbn in H0; lia]. unfold copy_in.
    cbn [length app]. by rewrite Nat.add_0_r, take_drop, put_same.
  - rewrite bool_decide_eq_false_2 by (intros Hnil; rewrite Hnil in Hl; cbn in Hl; lia).
    rewrite (bind_run _ _ _ _ _ (node_update_run s p n _ Hr Hn)).
    assert (length (copy_in off bytes (content n)) = length (content n)) as Hlc.
    { rewrite <- (Z2Nat.id off) by lia. apply length_copy_in. lia. }
    destruct (put_content s p n (copy_in off bytes (content n))) as (Hr2 & Ha2 & _);
      [done..|lia|].
    rewrite Hlc, Hsz in Hr2, Ha2. eexists. by split_and!.
Qed.

(** Resizing before a write gives what [written_bytes] is about. *)
Lemma grow_spec mem n off (bytes l : list Z) :
  0 <= off → Z.of_nat (length (content n)) < off + Z.of_nat (length bytes) →
  spec_resize mem (off + Z.of_nat (length bytes)) (content n) = Ok l →
  Z.of_nat (length l) = off + Z.of_nat (length bytes) ∧
  copy_in off bytes l = written off bytes (content n).
Proof.
  intros Hoff Hgrow. unfold spec_resize.
  destruct (Z.eqb_spec (off + Z.of_nat (length bytes)) (Z.of_nat (length (content n)))); [lia|].
  destruct (MAX_TMPFS_FILE <? _); [done|]. destruct (_ && _); [done|]. intros [= <-].
  rewrite length_resize. split; [lia|].
  pose proof (written_bytes (Z.to_nat off) bytes (content n)) as Hw.
  rewrite Z2Nat.id, (proj2 (Nat.ltb_lt _ _)) in Hw by lia. rewrite <- Hw. do 2 f_equal. lia.
Qed.

Lemma wrapped_end off len :
  0 <= off < 2 ^ 63 → is_u64 len → (add64 off len <? off) = (W64 <=? off + len).
Proof.
  unfold add64, wrap64, is_u64, W64. intros Hoff Hlen.
  destruct (Z.leb_spec (2 ^ 64) (off + len)).
  - rewrite <- (Z_mod_plus_full _ (-1)), Z.mod_small by lia. apply Z.ltb_lt. lia.
  - rewrite Z.mod_small by lia. apply Z.ltb_ge. lia.
Qed.

Lemma file_write_run mem s p n off buf len :
  rep s → node_map s !! p = Some n → type n = FILE →
  - 2 ^ 63 <= off < 2 ^ 63 → is_u64 len → (∀ b, buf = Some b → Z.of_nat (length b) = len) →
  match spec_write mem off buf len (content n) with
  | Ok l => ∃ s', file_write mem p off buf len s = Fin (Ok len) s' ∧ rep s' ∧
      abs s' = a_put p (AFile l) (abs s)
  | Err e => file_write mem p off buf len s = Fin (Err e) s
  end.
Proof.
  intros Hr Hn Ht Hoff Hlen Hbuf. pose proof (r_node s Hr _ _ Hn) as [_ _ Hsz _].
  unfold file_write, spec_write.
  destruct ((off <? 0) || _) eqn:Hbad; [done|]. apply orb_false_iff in Hbad as [Hneg Hnull].
  apply Z.ltb_ge in Hneg. cbv zeta. rewrite wrapped_end by (done || lia).
  unfold is_u64 in Hlen. destruct (Z.leb_spec W64 (off + len)) as [|Hfit]; [done|].
  assert (add64 off len = off + len) as -> by (apply wrap64_small; unfold is_u64; lia).
  rewrite (bind_run _ _ _ _ _ (deref_run s p n Hr Hn)), Hsz.
  assert (len = Z.of_nat (length (take (Z.to_nat len) (default [] buf)))) as Hbl.
  { rewrite length_take. destruct buf as [b|]; cbn.
    - specialize (Hbuf b eq_refl). lia.
    - destruct (Z.eqb_spec len 0); [lia|done]. }
  clear Hbuf Hnull. revert Hbl. generalize (take (Z.to_nat len) (default [] buf)) as bytes.
  intros bytes ->.
  destruct (Z.ltb_spec (content_sz n) (off + Z.of_nat (length bytes))) as [Hgrow|Hroom].
  - pose proof (file_resize_run mem s p n (off + Z.of_nat (length bytes)) Hr Hn Ht) as Hrs.
    destruct (spec_resize mem _ (content n)) as [l|e] eqn:Hspec; cbn [mbind Result_bind].
    + destruct Hrs as (s1 & Hrun & Hr1 & Ha1 & _ & n1 & Hn1 & Ht1 & Hc1);
        [unfold is_u64; lia|]. rewrite (bind_run _ _ _ _ _ Hrun).
      destruct (grow_spec mem n off bytes l) as [Hl Hw]; [lia..|done|].
      destruct (store_run s1 p n1 off bytes) as (s2 & Hs2 & Hr2 & Ha2);
        [done..|rewrite Hc1; lia|].
      exists s2. split_and!; [done..|]. rewrite Ha2, Hc1, Hw, Ha1. unfold a_put. cbn.
      by rewrite insert_insert_eq.
    + rewrite (bind_run_err _ _ _ _ _ (Hrs ltac:(unfold is_u64; lia))). done.
  - destruct (store_run s p n off bytes) as (s2 & Hs2 & Hr2 & Ha2); [done..|lia|].
    exists s2. split_and!; [done..|]. rewrite Ha2.
    pose proof (written_bytes (Z.to_nat off) bytes (content n)) as Hw.
    by rewrite Z2Nat.id, (proj2 (Nat.ltb_ge _ _)), <- Hw in * by lia.
Qed.

(** *** Directories *)

Definition blank (ty : INodeType) : anode :=
  match ty with FILE => AFile [] | DIRECTORY => ADir ∅ | SYMLINK => ALink "" end.

Lemma abs_new_node id ty : abs_node (new_node (US := US) id ty) = blank ty.
Proof. destruct ty; unfold abs_node; cbn; [done|by rewrite um_empty_map|done]. Qed.

Lemma new_node_ok id ty : node_ok id (new_node (US := US) id ty).
Proof. split; cbn; [done|apply um_empty_wf|done|done]. Qed.

Lemma entries_ok p n f :
  node_ok p n → um_wf (f (entries n)) → node_ok p (set_entries f n).
Proof. by intros [? ? ? ?] ?; split. Qed.

Lemma abs_entries n f :
  type n = DIRECTORY → abs_node (set_entries f n) = ADir (um_map (f (entries n))).
Proof. intros Ht. unfold abs_node. cbn. by rewrite Ht. Qed.

Lemma fresh_inode s : rep s → tree (abs s) → node_map s !! next_inode s = None.
Proof.
  intros Hr Ht. apply eq_None_not_Some. intros [n Hn].
  destruct (t_next (abs s) Ht (next_inode s)) as [_ Hlt]; [|cbn in Hlt; lia].
  cbn. rewrite lookup_fmap, Hn. by eexists.
Qed.

Lemma alloc_run s ty :
  rep s → next_inode s < W64 - 1 → 0 <= next_inode s →
  let id := next_inode s in
  let s' := mkSb (sb_id s) (id + 1) (um_put id (new_node id ty) (nodes s)) in
  alloc_inode ty s = Fin (Ok id) s' ∧ rep s' ∧
  node_map s' = <[id := new_node id ty]> (node_map s).
Proof.
  intros Hr Hlt Hge id s'.
  assert (add64 id 1 = id + 1) as Hadd by (apply wrap64_small; unfold is_u64; lia).
  assert (node_map s' = <[id := new_node id ty]> (node_map s)) as Hm by apply um_put_map, Hr.
  split_and!; [|split|done].
  - unfold alloc_inode, gets, modify, mbind, M_bind, mret, M_ret. fold id. by rewrite Hadd.
  - apply um_put_wf, Hr.
  - intros i n. rewrite Hm. intros [[<- <-]|[_ Hi]]%lookup_insert_Some; [apply new_node_ok|].
    by apply Hr.
Qed.

Lemma create_run s p n name ty :
  rep s → tree (abs s) → next_inode s < W64 - 1 →
  node_map s !! p = Some n → type n = DIRECTORY →
  ∃ r s', create_entry p name ty s = Fin r s' ∧ rep s' ∧
    spec_create p (um_map (entries n)) name (blank ty) (abs s) = (abs s', RNum <$> r) ∧
    (∀ j, r = Ok j → node_map s' !! j = Some (new_node j ty) ∧ p ≠ j ∧ j = next_inode s).
Proof.
  intros Hr Ht Hnext Hn Hty. unfold create_entry, spec_create.
  destruct (validate_entry_name name) as [[]|e]; [|by exists (Err e), s].
  unfold of_result at 1. unfold mbind at 1, M_bind at 1.
  rewrite (bind_run _ _ _ _ _ (deref_run s p n Hr Hn)).
  rewrite bool_decide_eq_true_2 by done. cbn [negb]. rewrite (find_entry s p) by done.
  destruct (um_map (entries n) !! name) as [j|] eqn:Hname.
  { rewrite bool_decide_eq_true_2 by eauto. by exists (Err KEY_DUPLICATED), s. }
  rewrite bool_decide_eq_false_2 by (by intros []).
  assert (is_Some (a_nodes (abs s) !! p)) as Hp by (cbn; rewrite lookup_fmap, Hn; by eexists).
  pose proof (t_next (abs s) Ht p Hp) as Hpn. cbn in Hpn.
  destruct (alloc_run s ty Hr Hnext) as (Hrun & Hr1 & Hm1); [lia|].
  rewrite (bind_run _ _ _ _ _ Hrun). set (id := next_inode s) in *.
  set (s1 := mkSb _ _ _) in *.
  assert (node_map s1 !! p = Some n) as Hn1 by (rewrite Hm1, lookup_insert_ne; [done|lia]).
  rewrite (bind_run _ _ _ _ _ (node_update_run s1 p n _ Hr1 Hn1)).
  pose proof (r_node s Hr _ _ Hn) as Hok.
  eexists (Ok id), _. split; [done|]. split_and!.
  - apply put_rep; [done|]. apply entries_ok; [done|]. apply um_put_wf, Hok.
  - rewrite put_abs, abs_entries, um_put_map by (done || apply Hok).
    unfold a_put, abs. cbn [a_nodes a_next]. rewrite Hm1, fmap_insert, abs_new_node. done.
  - intros j [= <-]. rewrite put_map by done. rewrite lookup_insert_ne by lia.
    rewrite Hm1. split_and!; [apply lookup_insert_eq|lia|done].
Qed.

Lemma symlink_run s p n name target :
  rep s → tree (abs s) → next_inode s < W64 - 1 →
  node_map s !! p = Some n → type n = DIRECTORY → target ≠ ""%string →
  ∃ r s', dir_symlink p name target s = Fin r s' ∧ rep s' ∧
    spec_create p (um_map (entries n)) name (ALink target) (abs s) = (abs s', RNum <$> r).
Proof.
  intros Hr Ht Hnext Hn Hty Htg. unfold dir_symlink. rewrite bool_decide_eq_false_2 by done.
  destruct (create_run s p n name SYMLINK Hr Ht Hnext Hn Hty) as (r & s1 & Hrun & Hr1 & Hs & Hj).
  unfold spec_create in *. destruct (validate_entry_name name) as [|e].
  2: { rewrite (pair_equal_spec) in Hs. destruct Hs as [Ha He]. destruct r; [done|].
       rewrite (bind_run_err _ _ _ _ _ Hrun). exists (Err e0), s1. by rewrite Ha, He. }
  destruct (um_map (entries n) !! name) as [j|] eqn:Hname.
  { rewrite (pair_equal_spec) in Hs. destruct Hs as [Ha He]. destruct r; [done|].
    rewrite (bind_run_err _ _ _ _ _ Hrun). exists (Err e), s1. by rewrite Ha, He. }
  rewrite (pair_equal_spec) in Hs. destruct Hs as [Ha He].
  destruct r as [id|]; [|done]. destruct (Hj id eq_refl) as (Hid & Hpid & ->).
  rewrite (bind_run _ _ _ _ _ Hrun).
  rewrite (bind_run _ _ _ _ _ (lookup_node_run s1 _ _ Hr1 Hid)).
  rewrite (bind_run _ _ _ _ _ (node_update_run s1 _ _ _ Hr1 Hid)).
  eexists (Ok _), _. split; [done|]. split.
  - apply put_rep; [done|]. by split; cbn; [|apply um_empty_wf| |].
  - rewrite put_abs by done. rewrite <- Ha. unfold a_put, abs_node. cbn.
    rewrite (insert_insert_ne _ (next_inode s) p) by done. by rewrite insert_insert_eq.
Qed.

Lemma remove_run s p n name j t :
  rep s → tree (abs s) → node_map s !! p = Some n → type n = DIRECTORY →
  um_map (entries n) !! name = Some j → node_map s !! j = Some t →
  ∃ s', remove_entry p name j s = Fin (Ok tt) s' ∧ rep s' ∧
    abs s' = spec_remove p (um_map (entries n)) name j (abs s).
Proof.
  intros Hr Ht Hn Hty Hj Htj. pose proof (r_node s Hr _ _ Hn) as Hok.
  assert (edge (abs s) p name j) as He.
  { exists (um_map (entries n)). split; [|done]. cbn. rewrite lookup_fmap, Hn. cbn.
    unfold abs_node. by rewrite Hty. }
  pose proof (edge_below _ _ _ _ Ht He) as Hlt.
  unfold remove_entry. rewrite (bind_run _ _ _ _ _ (deref_run s p n Hr Hn)).
  rewrite (find_entry s p) by done. rewrite Hj.
  rewrite (bool_decide_eq_true_2 (is_Some _)) by eauto. cbv zeta. cbn [negb].
  rewrite (bind_run _ _ _ _ _ (node_update_run s p n _ Hr Hn)).
  set (s1 := set_nodes _ s).
  assert (rep s1) as Hr1.
  { apply put_rep; [done|]. apply entries_ok; [done|]. apply um_erase_wf, Hok. }
  assert (node_map s1 !! j = Some t) as Ht1
    by (unfold s1; rewrite put_map, lookup_insert_ne; [done|lia|done]).
  rewrite (bind_run _ _ _ _ _ (deref_run s1 j t Hr1 Ht1)).
  rewrite (n_id j t) by (by apply Hr). unfold free_inode, gets, mbind, M_bind.
  rewrite find_node, Ht1 by done. rewrite (proj2 (Z.eqb_neq j 0)) by lia. cbn.
  eexists. split; [done|].
  assert (node_map (set_nodes (um_erase j) s1) = delete j (node_map s1)) as Hdel
    by apply um_erase_map, Hr1.
  split; [split|].
  - apply um_erase_wf, Hr1.
  - intros i ni. rewrite Hdel. intros [_ Hi]%lookup_delete_Some. by apply Hr1.
  - unfold abs, spec_remove. cbn [a_nodes a_next]. rewrite Hdel. unfold s1.
    rewrite put_map, fmap_delete, fmap_insert, abs_entries, um_erase_map by (done || apply Hok).
    done.
Qed.

Lemma dir_lookup_run s p n name :
  rep s → node_map s !! p = Some n →
  dir_lookup p name s =
  Fin (if decide (name = ""%string) then Ok p
       else if um_map (entries n) !! name is Some j then Ok j else Err ENTRY_NOT_FOUND) s.
Proof.
  intros Hr Hn. unfold dir_lookup. rewrite (bind_run _ _ _ _ _ (deref_run s p n Hr Hn)).
  rewrite (n_id p n) by (by apply Hr). rewrite (find_entry s p) by done.
  destruct (decide (name = ""%string)); [by rewrite bool_decide_eq_true_2|].
  rewrite bool_decide_eq_false_2 by done. by destruct (um_map (entries n) !! name).
Qed.

Lemma entry_node s p n name j :
  tree (abs s) → node_map s !! p = Some n → type n = DIRECTORY →
  um_map (entries n) !! name = Some j → name ≠ ""%string ∧ ∃ t, node_map s !! j = Some t.
Proof.
  intros Ht Hn Hty Hj. destruct (t_edge (abs s) Ht p name j) as (_ & Hs & Hv).
  - exists (um_map (entries n)). split; [|done]. cbn. rewrite lookup_fmap, Hn. cbn.
    unfold abs_node. by rewrite Hty.
  - split; [by intros ->|]. cbn in Hs. by rewrite lookup_fmap, fmap_is_Some in Hs.
Qed.

Lemma dir_size s p n :
  rep s → tree (abs s) → next_inode s < W64 → node_map s !! p = Some n → type n = DIRECTORY →
  um_size (entries n) = Z.of_nat (size (um_map (entries n))).
Proof.
  intros Hr Ht Hnx Hn Hty. rewrite um_size_map by (by apply (n_entries p), Hr).
  apply wrap64_small. unfold is_u64.
  pose proof (tree_dir_size (abs s) p (um_map (entries n)) Ht) as Hs. cbn in Hs.
  assert (Z.of_nat (size (um_map (entries n))) < next_inode s); [|lia]. apply Hs.
  rewrite lookup_fmap, Hn. cbn. unfold abs_node. by rewrite Hty.
Qed.

Lemma abs_at s p n : node_map s !! p = Some n → a_nodes (abs s) !! p = Some (abs_node n).
Proof. intros Hn. cbn. by rewrite lookup_fmap, Hn. Qed.

Lemma unlink_run s p n name :
  rep s → tree (abs s) → node_map s !! p = Some n → type n = DIRECTORY →
  ∃ r s', dir_unlink p name s = Fin r s' ∧ rep s' ∧
    spec_op (OUnlink p name) (abs s) = (abs s', (λ _, RUnit) <$> r).
Proof.
  intros Hr Ht Hn Hty. unfold dir_unlink. cbn [spec_op].
  assert (dir_of (abs s) p = um_map (entries n)) as ->.
  { apply dir_of_eq. rewrite (abs_at _ _ _ Hn). unfold abs_node. by rewrite Hty. }
  pose proof (dir_lookup_run s p n name Hr Hn) as Hl.
  destruct (decide (name = ""%string)) as [->|Hne].
  { rewrite (bind_run _ _ _ _ _ Hl), (bind_run _ _ _ _ _ (lookup_node_run s p n Hr Hn)).
    rewrite (bind_run _ _ _ _ _ (deref_run s p n Hr Hn)).
    rewrite bool_decide_eq_true_2 by done. by exists (Err NOT_SUPPORTED), s. }
  destruct (um_map (entries n) !! name) as [j|] eqn:Hj.
  2: { rewrite (bind_run_err _ _ _ _ _ Hl). by exists (Err ENTRY_NOT_FOUND), s. }
  destruct (entry_node s p n name j Ht Hn Hty Hj) as (_ & t & Hn').
  rewrite (bind_run _ _ _ _ _ Hl), (bind_run _ _ _ _ _ (lookup_node_run s j t Hr Hn')).
  rewrite (bind_run _ _ _ _ _ (deref_run s j t Hr Hn')).
  rewrite (abs_at _ _ _ Hn'). unfold abs_node.
  destruct (remove_run s p n name j t Hr Ht Hn Hty Hj Hn') as (s' & Hrm & Hr' & Ha').
  destruct (type t) eqn:Htt; cbn.
  - exists (Ok tt), s'. by rewrite Ha'.
  - by exists (Err NOT_SUPPORTED), s.
  - exists (Ok tt), s'. by rewrite Ha'.
Qed.

Lemma size_zero (m : gmap string Z) : (Z.of_nat (size m) =? 0) = bool_decide (m = ∅).
Proof.
  destruct (Z.eqb_spec (Z.of_nat (size m)) 0) as [H0|H0]; symmetry.
  - apply bool_decide_eq_true. apply map_size_empty_inv. lia.
  - apply bool_decide_eq_false. intros ->. by rewrite map_size_empty in H0.
Qed.

Lemma rmdir_run s p n name :
  rep s → tree (abs s) → next_inode s < W64 → node_map s !! p = Some n → type n = DIRECTORY →
  ∃ r s', dir_rmdir p name s = Fin r s' ∧ rep s' ∧
    spec_op (ORmdir p name) (abs s) = (abs s', (λ _, RUnit) <$> r).
Proof.
  intros Hr Ht Hnx Hn Hty. unfold dir_rmdir. cbn [spec_op].
  assert (dir_of (abs s) p = um_map (entries n)) as ->.
  { apply dir_of_eq. rewrite (abs_at _ _ _ Hn). unfold abs_node. by rewrite Hty. }
  pose proof (dir_lookup_run s p n name Hr Hn) as Hl.
  destruct (decide (name = ""%string)) as [->|Hne].
  { rewrite (bind_run _ _ _ _ _ Hl), (bind_run _ _ _ _ _ (lookup_node_run s p n Hr Hn)).
    rewrite (bind_run _ _ _ _ _ (deref_run s p n Hr Hn)).
    rewrite bool_decide_eq_true_2 by done. cbn [negb].
    rewrite (dir_size s p), size_zero by done.
    destruct (decide (um_map (entries n) = ∅)) as [He|He].
    2: { rewrite bool_decide_eq_false_2 by done. by exists (Err BUSY), s. }
    rewrite bool_decide_eq_true_2 by done. cbn [negb]. unfold remove_entry.
    rewrite (bind_run _ _ _ _ _ (deref_run s p n Hr Hn)).
    rewrite (find_entry s p), He, lookup_empty by done.
    rewrite (bind_run _ _ _ _ _ (node_update_run s p n _ Hr Hn)).
    pose proof (r_node s Hr _ _ Hn) as Hok.
    exists (Err ENTRY_NOT_FOUND). eexists. split; [done|]. split.
    - apply put_rep; [done|]. apply entries_ok; [done|]. apply um_erase_wf, Hok.
    - rewrite put_abs, abs_entries, um_erase_map by (done || apply Hok).
      rewrite He, delete_empty. unfold a_put, abs. cbn. do 2 f_equal. symmetry. apply insert_id.
      rewrite lookup_fmap, Hn. cbn. unfold abs_node. by rewrite Hty, He. }
  destruct (um_map (entries n) !! name) as [j|] eqn:Hj.
  2: { rewrite (bind_run_err _ _ _ _ _ Hl). by exists (Err ENTRY_NOT_FOUND), s. }
  destruct (entry_node s p n name j Ht Hn Hty Hj) as (_ & t & Hn').
  rewrite (bind_run _ _ _ _ _ Hl), (bind_run _ _ _ _ _ (lookup_node_run s j t Hr Hn')).
  rewrite (bind_run _ _ _ _ _ (deref_run s j t Hr Hn')).
  rewrite (abs_at _ _ _ Hn'). unfold abs_node.
  destruct (type t) eqn:Htt; cbn; [by exists (Err NOT_SUPPORTED), s| |by exists (Err NOT_SUPPORTED), s].
  rewrite (dir_size s j), size_zero by done.
  destruct (decide (um_map (entries t) = ∅)) as [He|He].
  2: { rewrite (bool_decide_eq_false_2 (um_map _ = ∅)) by done. by exists (Err BUSY), s. }
  rewrite (bool_decide_eq_true_2 (um_map _ = ∅)) by done.
  destruct (remove_run s p n name j t Hr Ht Hn Hty Hj Hn') as (s' & Hrm & Hr' & Ha').
  exists (Ok tt), s'. by rewrite Ha'.
Qed.

(** *** Executions *)

Definition run_op (o : op) : M (TmpFSSuperblock (US := US) (UI := UI)) answer :=
  match o with
  | ORead p off buf len => l ← file_read p off buf len; mret (RBytes l)
  | OWrite mem p off buf len => n ← file_write mem p off buf len; mret (RNum n)
  | OSize p => n ← file_size p; mret (RNum n)
  | OTruncate mem p n => _ ← file_truncate mem p n; mret RUnit
  | OLookup p name => j ← dir_lookup p name; mret (RNum j)
  | OMkfile p name => j ← dir_mkfile p name; mret (RNum j)
  | OMkdir p name => j ← dir_mkdir p name; mret (RNum j)
  | OSymlink p name target => j ← dir_symlink p name target; mret (RNum j)
  | OUnlink p name => _ ← dir_unlink p name; mret RUnit
  | ORmdir p name => _ ← dir_rmdir p name; mret RUnit
  | OCount p => n ← dir_entry_count p; mret (RNum n)
  | OGetInode ok id => h ← get_inode ok id; mret (RNode h)
  | OMode id => n ← inode_mode id; mret (RNum n)
  | OReadlink id => t ← readlink id; mret (RName t)
  end.

Lemma bind_ret {A B} (m : M (TmpFSSuperblock (US := US) (UI := UI)) A) (f : A → B) s r s' :
  m s = Fin r s' → (x ← m; mret (f x)) s = Fin (f <$> r) s'.
Proof. intros Hm. unfold mbind, M_bind. rewrite Hm. by destruct r. Qed.

(** The outcome of an operation agrees with the tree. *)
Definition agrees o s : Prop :=
  ∃ s', run_op o s = Fin (spec_op o (abs s)).2 s' ∧ rep s' ∧ abs s' = (spec_op o (abs s)).1.

Lemma agrees_run {A} o s (m : M (TmpFSSuperblock (US := US) (UI := UI)) A) (f : A → answer) :
  run_op o = (x ← m; mret (f x)) →
  (∃ r s', m s = Fin r s' ∧ rep s' ∧ spec_op o (abs s) = (abs s', f <$> r)) → agrees o s.
Proof.
  intros Ho (r & s' & Hm & Hr & Hs). exists s'. rewrite Ho, Hs.
  by rewrite (bind_ret m f s r s' Hm).
Qed.

Lemma file_op_agrees o s :
  rep s → op_ok (abs s) o →
  match o with
  | ORead _ _ _ _ | OWrite _ _ _ _ _ | OSize _ | OTruncate _ _ _ => agrees o s
  | _ => True
  end.
Proof.
  intros Hr Hok. destruct o as [p off buf len|mem p off buf len|p|mem p k| | | | | | | | | | ];
    try done; cbn [op_ok] in Hok.
  - destruct Hok as ([l Hl] & Hoff & Hlen). destruct (abs_file _ _ _ Hl) as (n & Hn & Ht & Hc).
    eapply agrees_run; [done|]. eexists _, s. split; [by apply file_read_run|]. split; [done|].
    cbn [spec_op]. rewrite (file_of_eq _ _ _ Hl), Hc. by destruct (_ || _).
  - destruct Hok as ([l Hl] & Hoff & Hlen & Hbuf).
    destruct (abs_file _ _ _ Hl) as (n & Hn & Ht & Hc).
    pose proof (file_write_run mem s p n off buf len Hr Hn Ht Hoff Hlen Hbuf) as Hw.
    eapply agrees_run; [done|]. cbn [spec_op]. rewrite (file_of_eq _ _ _ Hl), <- Hc.
    destruct (spec_write mem off buf len (content n)) as [l'|e].
    + destruct Hw as (s' & Hs & Hr' & Ha). exists (Ok len), s'. by rewrite Ha.
    + by exists (Err e), s.
  - destruct Hok as [l Hl]. destruct (abs_file _ _ _ Hl) as (n & Hn & Ht & Hc).
    eapply agrees_run; [done|]. eexists (Ok (content_sz n)), s. split.
    + unfold file_size. by rewrite (bind_run _ _ _ _ _ (deref_run s p n Hr Hn)).
    + split; [done|]. cbn [spec_op]. rewrite (file_of_eq _ _ _ Hl), <- Hc.
      by rewrite (n_size p n) by (by apply Hr).
  - destruct Hok as ([l Hl] & Hk). destruct (abs_file _ _ _ Hl) as (n & Hn & Ht & Hc).
    pose proof (file_resize_run mem s p n k Hr Hn Ht Hk) as Hrs.
    eapply agrees_run with (f := λ _, RUnit); [done|]. cbn [spec_op].
    rewrite (file_of_eq _ _ _ Hl), <- Hc. destruct (spec_resize mem k (content n)) as [l'|e].
    + destruct Hrs as (s' & Hs & Hr' & Ha & _). exists (Ok tt), s'. by rewrite Ha.
    + by exists (Err e), s.
Qed.

Lemma dir_op_agrees o s :
  rep s → tree (abs s) → next_inode s < W64 - 1 → op_ok (abs s) o →
  match o with
  | OLookup _ _ | OMkfile _ _ | OMkdir _ _ | OSymlink _ _ _ | OUnlink _ _ | ORmdir _ _
  | OCount _ => agrees o s
  | _ => True
  end.
Proof.
  intros Hr Ht Hnx Hok. destruct o as [| | | |p name|p name|p name|p name target|p name|p name|p| | | ];
    try done; cbn [op_ok] in Hok; destruct Hok as [m Hm];
    destruct (abs_dir _ _ _ Hm) as (n & Hn & Hty & Hme); subst m.
  - eapply agrees_run; [done|]. eexists _, s. split; [by apply dir_lookup_run|].
    split; [done|]. cbn [spec_op]. rewrite (dir_of_eq _ _ _ Hm).
    destruct (decide _); [done|]. by destruct (um_map (entries n) !! name).
  - eapply agrees_run; [done|].
    destruct (create_run s p n name FILE Hr Ht Hnx Hn Hty) as (r & s' & ? & ? & Hs & _).
    exists r, s'. cbn [spec_op]. by rewrite (dir_of_eq _ _ _ Hm).
  - eapply agrees_run; [done|].
    destruct (create_run s p n name DIRECTORY Hr Ht Hnx Hn Hty) as (r & s' & ? & ? & Hs & _).
    exists r, s'. cbn [spec_op]. by rewrite (dir_of_eq _ _ _ Hm).
  - eapply agrees_run; [done|]. cbn [spec_op]. destruct (decide (target = ""%string)) as [->|Htg].
    + by exists (Err INVALID_PARAM), s.
    + rewrite (dir_of_eq _ _ _ Hm). by apply symlink_run.
  - eapply agrees_run with (f := λ _, RUnit); [done|]. by eapply unlink_run.
  - eapply agrees_run with (f := λ _, RUnit); [done|]. eapply rmdir_run; [done..|lia|done|done].
  - eapply agrees_run; [done|]. eexists (Ok (um_size (entries n))), s. split.
    + unfold dir_entry_count. by rewrite (bind_run _ _ _ _ _ (deref_run s p n Hr Hn)).
    + split; [done|]. cbn [spec_op]. rewrite (dir_of_eq _ _ _ Hm).
      by rewrite (dir_size s p) by (done || lia).
Qed.

Lemma inode_op_agrees o s :
  rep s →
  match o with OGetInode _ _ | OMode _ | OReadlink _ => agrees o s | _ => True end.
Proof.
  intros Hr. destruct o as [| | | | | | | | | | |ok id|id|id]; try done;
    (eapply agrees_run; [done|]); cbn [spec_op];
    (destruct (a_nodes (abs s) !! id) as [x|] eqn:Hx;
     [destruct (abs_lookup _ _ _ Hx) as (n & Hn & <-)
     |apply abs_lookup_none in Hx]);
    unfold get_inode, inode_mode, readlink;
    [|rewrite (bind_run_err _ _ _ _ _ (lookup_node_none s id Hr Hx)); by eexists _, s
    | |rewrite (bind_run_err _ _ _ _ _ (lookup_node_none s id Hr Hx)); by eexists _, s
    | |rewrite (bind_run_err _ _ _ _ _ (lookup_node_none s id Hr Hx)); by eexists _, s];
    rewrite (bind_run _ _ _ _ _ (lookup_node_run s id n Hr Hn));
    rewrite (bind_run _ _ _ _ _ (deref_run s id n Hr Hn)); unfold abs_node.
  - destruct ok; eexists _, s; [|done]. split; [done|]. split; [done|]. by destruct (type n).
  - eexists _, s. split; [done|]. split; [done|]. by destruct (type n).
  - destruct (type n); by eexists _, s.
Qed.

Lemma op_agrees o s :
  rep s → tree (abs s) → next_inode s < W64 - 1 → op_ok (abs s) o → agrees o s.
Proof.
  intros Hr Ht Hnx Hok.
  pose proof (file_op_agrees o s Hr Hok). pose proof (dir_op_agrees o s Hr Ht Hnx Hok).
  pose proof (inode_op_agrees o s Hr). by destruct o.
Qed.

(** Operations one after the other, with their outcomes. *)
Inductive exec : TmpFSSuperblock (US := US) (UI := UI) → list (op * Result answer) →
    TmpFSSuperblock (US := US) (UI := UI) → Prop :=
  | exec_nil s : exec s [] s
  | exec_cons s o r s1 tr s2 :
      op_ok (abs s) o → run_op o s = Fin r s1 → exec s1 tr s2 → exec s ((o, r) :: tr) s2.

(** The tree goes from [a] to [a'] with the same answers. *)
Fixpoint allowed (a : afs) (tr : list (op * Result answer)) (a' : afs) : Prop :=
  match tr with
  | [] => a' = a
  | (o, r) :: tr => r = (spec_op o a).2 ∧ allowed (spec_op o a).1 tr a'
  end.

Definition a_init : afs := mkAfs {[0 := ADir ∅]} 1.

Lemma init_rep id : rep (new_superblock id) ∧ abs (new_superblock id) = a_init.
Proof.
  assert (node_map (new_superblock id) = {[0 := new_node 0 DIRECTORY]}) as Hm.
  { unfold node_map, new_superblock. cbn [nodes].
    by rewrite um_put_map, um_empty_map by apply um_empty_wf. }
  split; [split|].
  - apply um_put_wf, um_empty_wf.
  - intros i n. rewrite Hm. intros [<- <-]%lookup_singleton_Some. apply new_node_ok.
  - unfold abs. by rewrite Hm, map_fmap_singleton, abs_new_node.
Qed.

Lemma init_tree : tree a_init.
Proof.
  assert (∀ p name j, ~ edge a_init p name j) as Hno.
  { intros p name j (m & Hp & Hj). cbn in Hp. apply lookup_singleton_Some in Hp as [_ [= <-]].
    by rewrite lookup_empty in Hj. }
  split.
  - exists ∅. apply lookup_singleton_eq.
  - intros p name j He. by destruct (Hno _ _ _ He).
  - intros ? ? ? ? ? He. by destruct (Hno _ _ _ He).
  - intros j [x Hx]. cbn in Hx. apply lookup_singleton_Some in Hx as [<- _]. by left.
  - intros j [x Hx]. cbn in *. apply lookup_singleton_Some in Hx as [<- _]. lia.
Qed.

Lemma spec_op_next o a : a_next a <= a_next (spec_op o a).1 <= a_next a + 1.
Proof.
  assert (∀ p m name x, a_next a <= a_next (spec_create p m name x a).1 <= a_next a + 1) as Hc.
  { intros p m name x. unfold spec_create. destruct (validate_entry_name name); cbn; [|lia].
    destruct (m !! name); cbn; lia. }
  destruct o; cbn [spec_op fst]; try apply Hc; repeat case_match; cbn; try lia; apply Hc.
Qed.

Lemma exec_agrees s tr s' :
  exec s tr s' → rep s → tree (abs s) → next_inode s + Z.of_nat (length tr) < W64 - 1 →
  allowed (abs s) tr (abs s') ∧ rep s' ∧ tree (abs s') ∧
  next_inode s' <= next_inode s + Z.of_nat (length tr).
Proof.
  induction 1 as [s|s o r s1 tr s2 Hok Hrun Hex IH]; intros Hr Ht Hnx.
  - split_and!; [done..|]. cbn. lia.
  - cbn [length] in Hnx. destruct (op_agrees o s Hr Ht) as (s1' & Hrun' & Hr1 & Ha1); [lia|done|].
    rewrite Hrun in Hrun'. injection Hrun' as -> <-.
    pose proof (spec_op_tree o (abs s) Ht Hok) as Ht1. rewrite <- Ha1 in Ht1.
    pose proof (spec_op_next o (abs s)) as Hn1. rewrite <- Ha1 in Hn1. cbn in Hn1.
    destruct IH as (Hal & Hr2 & Ht2 & Hn2); [done..|lia|].
    split_and!; [|done..|]; [|cbn [length]; lia]. cbn [allowed]. split; [done|]. by rewrite <- Ha1.
Qed.

(** A state that users can bring a new file system to, with inode numbers left. *)
Lemma exec_init id tr s :
  exec (new_superblock id) tr s → Z.of_nat (length tr) < W64 - 3 →
  allowed a_init tr (abs s) ∧ rep s ∧ tree (abs s) ∧ next_inode s < W64 - 1.
Proof.
  intros Hex Hlen. destruct (init_rep id) as [Hr Ha].
  destruct (exec_agrees _ _ _ Hex Hr) as (Hal & Hr' & Ht' & Hn').
  - rewrite Ha. apply init_tree.
  - cbn. lia.
  - rewrite Ha in Hal. split_and!; [done..|]. cbn in Hn'. lia.
Qed.

(** C12: the memory file system is a tree of named nodes.  Whatever its users do through
    handles to nodes that are there, each operation returns (it uses no freed node) and
    answers as on an abstract tree, where a file is a sequence of bytes that a write
    extends with zeros and changes only where it writes, errors change nothing, and a
    removal takes away one file, link or empty directory; and every node keeps exactly
    one path from the root. *)
Theorem tmpfs_refines_tree id tr s :
  exec (new_superblock id) tr s → Z.of_nat (length tr) < W64 - 3 →
  allowed a_init tr (abs s) ∧
  (∀ j, is_Some (a_nodes (abs s) !! j) →
    ∃ l, names (abs s) l j ∧ ∀ l', names (abs s) l' j → l' = l) ∧
  (∀ o, op_ok (abs s) o → ∃ r s', run_op o s = Fin r s').
Proof.
  intros Hex Hlen. destruct (exec_init id tr s Hex Hlen) as (Hal & Hr & Ht & Hn).
  split; [done|]. split.
  - intros j Hj. destruct (tree_name _ _ Ht Hj) as [l Hl]. exists l. split; [done|].
    intros l' Hl'. by eapply tree_name_unique.
  - intros o Hok. destruct (op_agrees o s Hr Ht Hn Hok) as (s' & Hrun & _). eauto.
Qed.

(** Listing a directory by index gives each of its names once. *)
Theorem tmpfs_listing_complete id tr s p m :
  exec (new_superblock id) tr s → Z.of_nat (length tr) < W64 - 3 →
  a_nodes (abs s) !! p = Some (ADir m) →
  ∃ l, l ≡ₚ (map_to_list m).*1 ∧
    dir_entry_count p s = Fin (Ok (Z.of_nat (length l))) s ∧
    ∀ i, 0 <= i → dir_entry_at p i s =
      Fin (if l !! Z.to_nat i is Some name then Ok name else Err OUT_OF_BOUNDARY) s.
Proof.
  intros Hex Hlen Hp. destruct (exec_init id tr s Hex Hlen) as (_ & Hr & Ht & Hnx).
  destruct (abs_dir _ _ _ Hp) as (n & Hn & Hty & Hm).
  pose proof (r_node s Hr _ _ Hn) as [_ Hwf _ _].
  assert (map_to_list m ≡ₚ um_list (entries n)) as Hperm.
  { rewrite <- Hm. apply map_to_list_to_map, um_nodup, Hwf. }
  assert (um_size (entries n) = Z.of_nat (length (um_list (entries n)))) as Hsz.
  { rewrite (dir_size s p) by (done || lia). rewrite Hm. f_equal.
    by rewrite <- Hperm, length_map_to_list. }
  exists (um_list (entries n)).*1. rewrite length_fmap, <- Hsz. split_and!.
  - by rewrite Hperm.
  - unfold dir_entry_count. by rewrite (bind_run _ _ _ _ _ (deref_run s p n Hr Hn)).
  - intros i Hi. unfold dir_entry_at.
    rewrite (bind_run _ _ _ _ _ (deref_run s p n Hr Hn)), list_lookup_fmap.
    destruct (Z.leb_spec (um_size (entries n)) i).
    + by rewrite lookup_ge_None_2 by lia.
    + destruct (lookup_lt_is_Some_2 (um_list (entries n)) (Z.to_nat i)) as [kv Hkv]; [lia|].
      by rewrite Hkv.
Qed.

(** C39: an open file does not survive its name.  Once [unlink] removed the entry of a
    file, a handle to it that is still open points into freed memory, and the next
    read, write or call of [size] through it stops the kernel; nothing above keeps the
    node alive, and [unlink] of the virtual file system succeeds on open files. *)
Theorem tmpfs_unlink_dangles id tr s p m name j l :
  exec (new_superblock id) tr s → Z.of_nat (length tr) < W64 - 3 →
  a_nodes (abs s) !! p = Some (ADir m) → m !! name = Some j →
  a_nodes (abs s) !! j = Some (AFile l) →
  ∃ s', dir_unlink p name s = Fin (Ok tt) s' ∧
    (∀ off len, 0 <= off → file_read j off true len s' = Panic) ∧ file_size j s' = Panic.
Proof.
  intros Hex Hlen Hp Hj Hl. destruct (exec_init id tr s Hex Hlen) as (_ & Hr & Ht & _).
  destruct (abs_dir _ _ _ Hp) as (n & Hn & Hty & <-).
  destruct (unlink_run s p n name Hr Ht Hn Hty) as (r & s' & Hrun & Hr' & Hs).
  cbn [spec_op] in Hs. rewrite (dir_of_eq _ _ _ Hp), Hj, Hl in Hs.
  destruct (entry_node s p n name j Ht Hn Hty Hj) as [Hne _].
  rewrite decide_False in Hs by done. injection Hs as Ha Hres.
  destruct r as [[]|]; [|done]. exists s'. split; [done|].
  assert (node_map s' !! j = None) as Hgone.
  { apply abs_lookup_none. unfold abs. rewrite <- Ha. apply lookup_delete_eq. }
  assert (deref j s' = Panic) as Hd.
  { unfold deref, gets, mbind, M_bind. by rewrite find_node, Hgone. }
  split.
  - intros off len Hoff. unfold file_read. rewrite (proj2 (Z.ltb_ge off 0)) by done. cbn.
    unfold mbind, M_bind. by rewrite Hd.
  - unfold file_size, mbind, M_bind. by rewrite Hd.
Qed.

End refine.

End TmpFsSpec.

(** ** On hash tables *)

Module TmpFsWitness.
Import TmpFsSpec.

#[local] Existing Instance hash_umap.
Abbreviation names_umap := (hash_umap HashMap.string_hash).
Abbreviation inodes_umap := (hash_umap HashMap.trival_hash).

Definition sb := @TmpFSSuperblock (HashMap.unordered_map string) (HashMap.unordered_map Z).
Definition start : sb := @new_superblock _ _ names_umap inodes_umap 7.

(** A directory with a file; a write that leaves a gap. *)
Definition ops : list op :=
  [OMkdir 0 "d"; OMkfile 1 "f"; OWrite (Some (λ _, 99)) 2 3 (Some [7; 8]) 2;
   ORead 2 1 true 10; OMkfile 1 "f"; ORmdir 0 "d"]%string.

Definition step (o : op) (s : sb) : outcome sb answer :=
  @run_op _ _ names_umap inodes_umap o s.
Fixpoint go (l : list op) (s : sb) : list (op * Result answer) * sb :=
  match l with
  | [] => ([], s)
  | o :: l =>
      match step o s with
      | Fin r s1 => let '(tr, s2) := go l s1 in ((o, r) :: tr, s2)
      | _ => ([], s)
      end
  end.
Definition trace := (go ops start).1.
Definition final : sb := (go ops start).2.

Example trace_answers :
  snd <$> trace =
  [Ok (RNum 1); Ok (RNum 2); Ok (RNum 2); Ok (RBytes [0; 0; 7; 8]); Err KEY_DUPLICATED; Err BUSY].
Proof. vm_compute. reflexivity. Qed.

Lemma trace_exec : @exec _ _ names_umap inodes_umap start trace final.
Proof.
  assert (∀ l s, (∀ k s1, go (take k l) s = s1 →
    match drop k l with [] => True | o :: _ => op_ok (@abs _ _ names_umap inodes_umap s1.2) o end) →
    (length (go l s).1 = length l)%nat →
    @exec _ _ names_umap inodes_umap s (go l s).1 (go l s).2) as Hgo.
  { induction l as [|o l IH]; intros s Hok Hlen; [constructor|].
    cbn [go] in *. destruct (step o s) as [r s1| |] eqn:Hs; [|done..].
    destruct (go l s1) as [tr s2] eqn:Hg. cbn [fst snd length] in *.
    specialize (IH s1). rewrite Hg in IH. econstructor; [|done|].
    - apply (Hok 0%nat _ eq_refl).
    - apply IH; [|cbn; lia]. intros k [tr1 s1'] Hk. specialize (Hok (S k)). cbn [take drop go] in Hok.
      rewrite Hs, Hk in Hok. by specialize (Hok _ eq_refl). }
  apply Hgo; [|reflexivity].
  intros k s1 <-. do 6 (destruct k as [|k];
    [cbn [op_ok drop ops]; repeat split; try (eexists; vm_compute; reflexivity);
     try (vm_compute; congruence); intros b [= <-]; reflexivity|]).
  cbn. by destruct k.
Qed.

Lemma tmpfs_refines_tree_witness :
  allowed a_init trace (@abs _ _ names_umap inodes_umap final) ∧
  ∃ l, names (@abs _ _ names_umap inodes_umap final) l 2.
Proof.
  destruct (@tmpfs_refines_tree _ _ names_umap inodes_umap 7 trace final trace_exec)
    as (Hal & Hn & _); [vm_compute; reflexivity|].
  split; [exact Hal|].
  destruct (Hn 2) as (l & Hl & _); [eexists; vm_compute; reflexivity|]. exists l. exact Hl.
Defined.

Lemma tmpfs_unlink_dangles_witness :
  ∃ s', @dir_unlink _ _ names_umap inodes_umap 1 "f" final = Fin (Ok tt) s' ∧
    @file_size _ _ inodes_umap 2 s' = Panic.
Proof.
  destruct (@tmpfs_unlink_dangles _ _ names_umap inodes_umap 7 trace final 1
    {["f"%string := 2]} "f" 2 [0; 0; 0; 7; 8] trace_exec) as (s' & Hu & _ & Hs);
    [vm_compute; reflexivity..|]. exists s'. exact (conj Hu Hs).
Defined.

End TmpFsWitness.
