(* ===== verification/PageCache.v ===== *)
(** * The page cache

    The cached pages of files in [kernel/vfs/vfs.h] and [vfs.cpp]: each [VINode] keeps
    pages of its file in a hash table; the pages of all files are linked in an active
    and an inactive list, and the first inactive page is written back and dropped when
    1024 pages are cached.  [VFS::read], [write], [size] and [truncate] go through it.

    A page is named by its [VINode] and its index in the file: the nodes of a hash table
    do not move.  Using a page that is gone is a [Panic].  Files are the interface
    [IFile], page frames the interface [PageFrames] of [Memory].  A routine runs
    without interruption, so the locks are free and the count of readers is 0 when the
    cache waits for them; [keep] and [release] around an eviction cancel out. *)

From S2P Require Import Prelude ErrCode Addr Buddy Gfp Memory HashMap TmpFs.
Import Memory(PageFrames, pf_get, pf_put, pf_inv, pf_get_law, pf_put_law, pf_less, pf_ext).

#[local] Open Scope Z_scope.

Module PageCache.

(** ** What the cache uses of a file system *)

(** [FileCachePolicy] *)
Inductive FileCachePolicy := CACHE_NONE | CACHE_SHARED | CACHE_PERMANENT.
#[global] Instance FileCachePolicy_eq_dec : EqDecision FileCachePolicy.
Proof. solve_decision. Defined.

(** [IFile::read], [write], [size], [truncate], [sync] and [file_cache] of the file [f]; the
    bytes [if_read] gives are what is stored in the buffer. *)
Class IFile (F : Type) := {
  if_cache : F → Z → FileCachePolicy;
  if_sync : Z → M F unit;
  if_read : Z → Z → Z → M F (list Z);
  if_write : Z → Z → list Z → M F Z;
  if_size : Z → M F Z;
  if_truncate : Z → Z → M F unit;
}.

(** ** Data *)

Abbreviation pkey := (Z * Z)%type.

Record CachedFilePage := mkPage {
  paddr : Z;
  valid : Z;
  dirty : bool;
  active : bool;
  evicting : bool;
  invalidating : bool;
  owner : option Z;
  page_index : Z;
  prev : option pkey;
  next : option pkey;
}.

Definition new_page : CachedFilePage := mkPage 0 0 false false false false None 0 None None.
Definition set_valid x (p : CachedFilePage) : CachedFilePage :=
  mkPage (paddr p) x (dirty p) (active p) (evicting p) (invalidating p) (owner p)
    (page_index p) (prev p) (next p).
Definition set_dirty x (p : CachedFilePage) : CachedFilePage :=
  mkPage (paddr p) (valid p) x (active p) (evicting p) (invalidating p) (owner p)
    (page_index p) (prev p) (next p).
Definition set_active x (p : CachedFilePage) : CachedFilePage :=
  mkPage (paddr p) (valid p) (dirty p) x (evicting p) (invalidating p) (owner p)
    (page_index p) (prev p) (next p).
Definition set_evicting x (p : CachedFilePage) : CachedFilePage :=
  mkPage (paddr p) (valid p) (dirty p) (active p) x (invalidating p) (owner p)
    (page_index p) (prev p) (next p).
Definition set_invalidating x (p : CachedFilePage) : CachedFilePage :=
  mkPage (paddr p) (valid p) (dirty p) (active p) (evicting p) x (owner p)
    (page_index p) (prev p) (next p).
Definition set_links a b (p : CachedFilePage) : CachedFilePage :=
  mkPage (paddr p) (valid p) (dirty p) (active p) (evicting p) (invalidating p) (owner p)
    (page_index p) a b.
Definition set_prev a (p : CachedFilePage) : CachedFilePage := set_links a (next p) p.
Definition set_next b (p : CachedFilePage) : CachedFilePage := set_links (prev p) b p.

(** The fields of [VFSPageCacheStats] and those of [SystemMemoryInfo] that the cache
    counts in. *)
Inductive counter :=
  | hits | misses | invalidations | writebacks | evictions | cached_pages
  | backing_reads | backing_writes
  | page_cache_pages | dirty_pages | writeback_pages | active_file_pages | inactive_file_pages.
#[global] Instance counter_eq_dec : EqDecision counter.
Proof. solve_decision. Defined.

Definition kMaxPageCachePages : Z := 1024.

Section cache.
Context {G F : Type} {UI : Type → Type} `{!PageFrames G} `{!IFile F} `{!UMap Z UI}.

(** [v_file] is the file behind the inode, [None] when it is not a file. *)
Record VINode := mkVINode {
  v_file : option Z;
  file_pages : UI CachedFilePage;
  cached_file_size : Z;
  cached_file_size_valid : bool;
}.

(** A list of pages is its head and its tail; [ram] is what the frames hold. *)
Record vfs := mkVfs {
  vnodes : gmap Z VINode;
  active_list : option pkey * option pkey;
  inactive_list : option pkey * option pkey;
  counters : counter → Z;
  frames : G;
  ram : gmap Z (list Z);
  files : F;
}.

Definition set_vnodes f (s : vfs) : vfs :=
  mkVfs (f (vnodes s)) (active_list s) (inactive_list s) (counters s) (frames s) (ram s) (files s).
Definition set_counter c f (s : vfs) : vfs :=
  mkVfs (vnodes s) (active_list s) (inactive_list s)
    (λ c', if decide (c' = c) then f (counters s c) else counters s c') (frames s) (ram s) (files s).
Definition set_ram f (s : vfs) : vfs :=
  mkVfs (vnodes s) (active_list s) (inactive_list s) (counters s) (frames s) (f (ram s)) (files s).

Definition incr (c : counter) : M vfs unit := modify (set_counter c (λ n, add64 n 1)).
(** [if (n > 0) n--] *)
Definition decr (c : counter) : M vfs unit :=
  modify (set_counter c (λ n, if 0 <? n then n - 1 else n)).
Definition with_frames {A} (m : M G A) : M vfs A := λ s,
  match m (frames s) with
  | Fin r g => Fin r (mkVfs (vnodes s) (active_list s) (inactive_list s) (counters s) g
                        (ram s) (files s))
  | Panic => Panic
  | OutOfFuel => OutOfFuel
  end.
Definition with_files {A} (m : M F A) : M vfs A := λ s,
  match m (files s) with
  | Fin r f => Fin r (mkVfs (vnodes s) (active_list s) (inactive_list s) (counters s)
                        (frames s) (ram s) f)
  | Panic => Panic
  | OutOfFuel => OutOfFuel
  end.

(** *** Nodes and pages *)

Definition vnode (v : Z) : M vfs VINode :=
  n ← gets (λ s, vnodes s !! v); match n with Some n => mret n | None => panic end.
Definition set_vnode (v : Z) (f : VINode → VINode) : M vfs unit :=
  n ← vnode v; modify (set_vnodes (insert v (f n))).
Definition set_file_pages f (n : VINode) : VINode :=
  mkVINode (v_file n) (f (file_pages n)) (cached_file_size n) (cached_file_size_valid n).
Definition set_size x b (n : VINode) : VINode :=
  mkVINode (v_file n) (file_pages n) x b.

(** [_file_pages.find] *)
Definition find_page (s : vfs) (p : pkey) : option CachedFilePage :=
  n ← vnodes s !! p.1; um_find p.2 (file_pages n).
Definition page (p : pkey) : M vfs CachedFilePage :=
  x ← gets (λ s, find_page s p); match x with Some x => mret x | None => panic end.
Definition set_page (p : pkey) (f : CachedFilePage → CachedFilePage) : M vfs unit :=
  x ← page p; set_vnode p.1 (set_file_pages (um_put p.2 (f x))).

(** [_inode->as_file()] *)
Definition as_file (v : Z) : M vfs Z :=
  n ← vnode v; match v_file n with Some f => mret f | None => fail INVALID_PARAM end.

Definition frame (a : Z) : M vfs (list Z) := gets (λ s, default [] (ram s !! a)).

(** *** The lists *)

Definition lru_refs (b : bool) : M vfs (option pkey * option pkey) :=
  gets (λ s, if b then active_list s else inactive_list s).
Definition lru_store_refs (b : bool) (l : option pkey * option pkey) : M vfs unit :=
  modify (λ s, if b
    then mkVfs (vnodes s) l (inactive_list s) (counters s) (frames s) (ram s) (files s)
    else mkVfs (vnodes s) (active_list s) l (counters s) (frames s) (ram s) (files s)).

Definition set_file_page_active (p : pkey) (b : bool) : M vfs unit :=
  x ← page p;
  if bool_decide (active x = b) then mret tt
  else
    _ ← decr (if active x then active_file_pages else inactive_file_pages);
    _ ← incr (if b then active_file_pages else inactive_file_pages);
    set_page p (set_active b).

Definition lru_remove (p : pkey) : M vfs unit :=
  x ← page p;
  '(head, tail) ← lru_refs (active x);
  head ← match prev x with
         | Some q => _ ← set_page q (set_next (next x)); mret head
         | None => mret (if bool_decide (head = Some p) then next x else head)
         end;
  tail ← match next x with
         | Some q => _ ← set_page q (set_prev (prev x)); mret tail
         | None => mret (if bool_decide (tail = Some p) then prev x else tail)
         end;
  _ ← set_page p (set_links None None);
  lru_store_refs (active x) (head, tail).

Definition lru_push_tail (p : pkey) (b : bool) : M vfs unit :=
  _ ← set_file_page_active p b;
  _ ← set_page p (set_links None None);
  '(head, tail) ← lru_refs b;
  match tail with
  | None => lru_store_refs b (Some p, Some p)
  | Some t =>
      _ ← set_page t (set_next (Some p));
      _ ← set_page p (set_prev (Some t));
      lru_store_refs b (head, Some p)
  end.

Definition lru_touch (p : pkey) : M vfs unit := _ ← lru_remove p; lru_push_tail p true.

Definition lru_demote_one_active_page : M vfs unit :=
  '(head, _) ← lru_refs true;
  match head with
  | None => mret tt
  | Some p => _ ← lru_remove p; lru_push_tail p false
  end.

Definition lru_victim : M vfs (option pkey) :=
  '(head, _) ← lru_refs false;
  _ ← (if bool_decide (head = None) then lru_demote_one_active_page else mret tt);
  '(head, _) ← lru_refs false;
  mret head.

(** *** Eviction *)

(** [static_cast<off_t>] *)
Definition to_off (x : Z) : Z := if x <? 2 ^ 63 then x else x - W64.

(** What [write_back] of a page does up to clearing the flag: [file->write] of the valid
    bytes. *)
Definition write_page (f k : Z) (x : CachedFilePage) : M vfs unit :=
  bytes ← frame (paddr x);
  n ← with_files (if_write f (to_off (mul64 k PAGESIZE)) (take (Z.to_nat (valid x)) bytes));
  if negb (n =? valid x) then fail IO_ERROR else mret tt.

(** The second part of [evict_file_page]: a dirty page is written back. *)
Definition evict_write (v k : Z) (x : CachedFilePage) : M vfs unit :=
  if dirty x then
    _ ← incr writeback_pages;
    f ← as_file v;
    _ ← write_page f k x;
    _ ← decr dirty_pages;
    _ ← decr writeback_pages;
    _ ← incr writebacks;
    incr backing_writes
  else mret tt.

(** Its last part: the page leaves the table and its frame is given back. *)
Definition evict_forget (p : pkey) (v k : Z) (x : CachedFilePage) : M vfs unit :=
  here ← gets (λ s, find_page s (v, k));
  _ ← (if bool_decide (is_Some here) && bool_decide (p = (v, k)) then
         _ ← decr (if active x then active_file_pages else inactive_file_pages);
         _ ← decr page_cache_pages;
         _ ← set_vnode v (set_file_pages (um_erase k));
         _ ← modify (set_counter cached_pages (λ n, sub64 n 1));
         incr evictions
       else mret tt);
  with_frames (pf_put (paddr x) 1).

Definition evict_file_page (v : Z) : M vfs bool :=
  victim ← lru_victim;
  match victim with
  | None => mret false
  | Some p =>
      x ← page p;
      if negb (bool_decide (owner x = Some v)) || evicting x then mret false
      else
        _ ← set_page p (set_evicting true);
        let k := page_index x in
        _ ← lru_remove p;
        x ← page p;
        _ ← evict_write v k x;
        _ ← evict_forget p v k x;
        mret true
  end.

Definition evict_lru_page : M vfs bool :=
  victim ← lru_victim;
  match victim with
  | None => mret false
  | Some p => x ← page p; match owner x with None => mret false | Some o => evict_file_page o end
  end.

Fixpoint capacity_loop (fuel : nat) : M vfs unit :=
  n ← gets (λ s, counters s cached_pages);
  if kMaxPageCachePages <=? n then
    match fuel with
    | O => no_fuel
    | S fuel =>
        b ← evict_lru_page;
        if b : bool then capacity_loop fuel else fail OUT_OF_MEMORY
    end
  else mret tt.

(** An eviction that succeeds lowers [cached_pages]. *)
Definition ensure_page_cache_capacity : M vfs unit :=
  n ← gets (λ s, counters s cached_pages); capacity_loop (Z.to_nat n).

(** *** Pages of a file *)

Definition live (x : option CachedFilePage) : option CachedFilePage :=
  x ← x; if evicting x then None else Some x.

(** The frame and its valid length. *)
Definition cached_file_page (v f k : Z) : M vfs (Z * Z) :=
  cached ← gets (λ s, live (find_page s (v, k)));
  match cached with
  | Some x => _ ← lru_touch (v, k); _ ← incr hits; mret (paddr x, valid x)
  | None =>
      _ ← incr misses;
      _ ← ensure_page_cache_capacity;
      a ← with_frames (pf_get 1);
      _ ← modify (set_ram (insert a (replicate (Z.to_nat PAGESIZE) 0)));
      r ← attempt (with_files (if_read f (to_off (mul64 k PAGESIZE)) PAGESIZE));
      match r with
      | Err e => _ ← with_frames (pf_put a 1); fail e
      | Ok bytes =>
          fr ← frame a;
          _ ← modify (set_ram (insert a (TmpFs.copy_in 0 bytes fr)));
          _ ← incr backing_reads;
          existing ← gets (λ s, live (find_page s (v, k)));
          match existing with
          | Some x =>
              _ ← lru_touch (v, k); _ ← with_frames (pf_put a 1); mret (paddr x, valid x)
          | None =>
              old ← gets (λ s, default new_page (find_page s (v, k)));
              _ ← set_vnode v (set_file_pages (um_put k
                    (mkPage a (Z.of_nat (length bytes)) false false false (invalidating old) (Some v) k
                       (prev old) (next old))));
              _ ← lru_push_tail (v, k) false;
              _ ← incr cached_pages;
              _ ← incr page_cache_pages;
              mret (a, Z.of_nat (length bytes))
          end
      end
  end.

(** A round reads from one page; every round but the first and the last reads a whole
    one, so two more rounds than [len] has pages are enough. *)
Definition page_rounds (len : Z) : nat := S (S (Z.to_nat (len / PAGESIZE))).

Fixpoint read_loop (fuel : nat) (v f offset len completed : Z) : M vfs (list Z) :=
  if completed <? len then
    match fuel with
    | O => no_fuel
    | S fuel =>
        let cur := add64 offset completed in
        if cur <? offset then fail OUT_OF_BOUNDARY
        else
          let k := cur / PAGESIZE in
          let in_page := cur mod PAGESIZE in
          '(_, valid0) ← cached_file_page v f k;
          if valid0 <=? in_page then mret []
          else
            here ← gets (λ s, live (find_page s (v, k)));
            match here with
            | None => fail PAGE_NOT_PRESENT
            | Some x =>
                let chunk := Z.min (len - completed) (valid x - in_page) in
                bytes ← frame (paddr x);
                let got := take (Z.to_nat chunk) (drop (Z.to_nat in_page) bytes) in
                if (valid x <? PAGESIZE) && (valid x <=? in_page + chunk) then mret got
                else rest ← read_loop fuel v f offset len (completed + chunk); mret (got ++ rest)
            end
    end
  else mret [].

Definition read_cached_file (v f offset len : Z) : M vfs (list Z) :=
  read_loop (page_rounds len) v f offset len 0.

Definition ensure_cached_file_size (v f : Z) : M vfs unit :=
  n ← vnode v;
  if cached_file_size_valid n then mret tt
  else size ← with_files (if_size f); set_vnode v (set_size size true).

Fixpoint write_loop (fuel : nat) (v f offset : Z) (buf : list Z) (written : Z) : M vfs Z :=
  let len := Z.of_nat (length buf) in
  if written <? len then
    match fuel with
    | O => no_fuel
    | S fuel =>
        let cur := add64 offset written in
        if cur <? offset then fail OUT_OF_BOUNDARY
        else
          let k := cur / PAGESIZE in
          let in_page := cur mod PAGESIZE in
          let chunk := Z.min (len - written) (PAGESIZE - in_page) in
          _ ← cached_file_page v f k;
          here ← gets (λ s, live (find_page s (v, k)));
          match here with
          | None => fail UNKNOWN_ERROR
          | Some x =>
              bytes ← frame (paddr x);
              let src := take (Z.to_nat chunk) (drop (Z.to_nat written) buf) in
              _ ← modify (set_ram (insert (paddr x) (TmpFs.copy_in in_page src bytes)));
              _ ← set_page (v, k) (set_valid (Z.max (valid x) (in_page + chunk)));
              _ ← (if dirty x then mret tt
                   else _ ← set_page (v, k) (set_dirty true); incr dirty_pages);
              _ ← lru_touch (v, k);
              write_loop fuel v f offset buf (written + chunk)
          end
    end
  else mret written.

Definition write_cached_file (v f offset : Z) (buf : list Z) : M vfs Z :=
  _ ← ensure_cached_file_size v f;
  written ← write_loop (page_rounds (Z.of_nat (length buf))) v f offset buf 0;
  _ ← set_vnode v (λ n, set_size (Z.max (cached_file_size n) (add64 offset written))
                          (cached_file_size_valid n) n);
  mret written.

Definition merged_file_size (v : Z) : M vfs Z :=
  f ← as_file v;
  _ ← ensure_cached_file_size v f;
  n ← vnode v;
  mret (cached_file_size n).

Definition reset_cached_file_size (v size : Z) : M vfs unit := set_vnode v (set_size size true).
Definition invalidate_cached_file_size (v : Z) : M vfs unit := set_vnode v (set_size 0 false).

(** *** Writing back and dropping *)

Definition flush_page (v f k : Z) : M vfs unit :=
  x ← page (v, k);
  if negb (dirty x) then mret tt
  else
    _ ← incr writeback_pages;
    _ ← write_page f k x;
    _ ← set_page (v, k) (set_dirty false);
    _ ← decr dirty_pages;
    _ ← decr writeback_pages;
    _ ← incr writebacks;
    incr backing_writes.

Fixpoint each {A} (f : A → M vfs unit) (l : list A) : M vfs unit :=
  match l with
  | [] => mret tt
  | x :: l => _ ← f x; each f l
  end.

Definition page_list (v : Z) : M vfs (list Z) := n ← vnode v; mret (um_list (file_pages n)).*1.

Definition flush_file_pages (v : Z) : M vfs unit :=
  l ← page_list v;
  if bool_decide (l = []) then mret tt
  else f ← as_file v; each (flush_page v f) l.

Definition has_file_pages (v : Z) : M vfs bool := l ← page_list v; mret (negb (bool_decide (l = []))).

(** The first loop of [invalidate_file_pages]: the pages it takes. *)
Fixpoint mark_pages (v : Z) (l : list Z) : M vfs (list Z) :=
  match l with
  | [] => mret []
  | k :: l =>
      x ← page (v, k);
      if evicting x then mark_pages v l
      else
        _ ← set_page (v, k) (set_evicting true);
        _ ← set_page (v, k) (set_invalidating true);
        _ ← lru_remove (v, k);
        rest ← mark_pages v l;
        mret (k :: rest)
  end.

Definition drop_page (v k : Z) : M vfs unit :=
  here ← gets (λ s, find_page s (v, k));
  match here with
  | None => mret tt
  | Some x =>
      if negb (invalidating x) then mret tt
      else
        _ ← decr (if active x then active_file_pages else inactive_file_pages);
        _ ← (if dirty x then decr dirty_pages else mret tt);
        _ ← decr page_cache_pages;
        _ ← set_vnode v (set_file_pages (um_erase k));
        _ ← decr cached_pages;
        with_frames (pf_put (paddr x) 1)
  end.

Definition invalidate_file_pages (v : Z) : M vfs unit :=
  l ← page_list v;
  _ ← (if bool_decide (l = []) then mret tt else incr invalidations);
  pages_to_free ← mark_pages v l;
  each (drop_page v) pages_to_free.

(** ** The operations of [VFS] on an open file *)

Definition cached_policy (f : Z) : M vfs bool :=
  gets (λ s, negb (bool_decide (if_cache (files s) f = CACHE_NONE))).

Definition vfs_read (v offset : Z) (buf : bool) (len : Z) : M vfs (list Z) :=
  if (offset <? 0) || (negb (len =? 0) && negb buf) then fail INVALID_PARAM
  else
    f ← as_file v;
    c ← cached_policy f;
    if c : bool then read_cached_file v f offset len
    else with_files (if_read f offset len).

Definition vfs_write (v offset : Z) (buf : option (list Z)) (len : Z) : M vfs Z :=
  if (offset <? 0) || (negb (len =? 0) && bool_decide (buf = None)) then fail INVALID_PARAM
  else
    let bytes := take (Z.to_nat len) (default [] buf) in
    f ← as_file v;
    c ← cached_policy f;
    if c : bool then write_cached_file v f offset bytes
    else
      n ← with_files (if_write f offset bytes);
      _ ← invalidate_cached_file_size v;
      r ← attempt (with_files (if_sync f));
      match r with
      | Err e => if bool_decide (e = NOT_SUPPORTED) then mret n else fail e
      | Ok _ => mret n
      end.

Definition vfs_size (v : Z) : M vfs Z := merged_file_size v.

Definition vfs_truncate (v new_size : Z) : M vfs unit :=
  f ← as_file v;
  _ ← flush_file_pages v;
  _ ← with_files (if_truncate f new_size);
  _ ← reset_cached_file_size v new_size;
  invalidate_file_pages v.

(** [VINode::VINode] and [~VINode]; the node is deleted whether or not the pages could
    be written back. *)
Definition new_vinode (v : Z) (f : option Z) : M vfs unit :=
  modify (set_vnodes (insert v (mkVINode f um_empty 0 false))).
Definition delete_vinode (v : Z) : M vfs unit :=
  _ ← attempt (flush_file_pages v);
  _ ← invalidate_file_pages v;
  modify (set_vnodes (delete v)).

End cache.

End PageCache.
Import PageCache.

(** ** The lists of pages are sequences *)

Module LruFacts.
Section lru.
Context {G F : Type} {UI : Type → Type} `{!PageFrames G} `{!IFile F} `{!UMap Z UI}.
Implicit Types (s : vfs (G := G) (F := F) (UI := UI)) (p q : pkey) (x : CachedFilePage).

(** Every table of pages is a table. *)
Definition tables s : Prop := ∀ v n, vnodes s !! v = Some n → um_wf (file_pages n).

Lemma find_page_map s v n k :
  tables s → vnodes s !! v = Some n → find_page s (v, k) = um_map (file_pages n) !! k.
Proof.
  intros Ht Hn. unfold find_page. cbn. rewrite Hn. cbn. apply um_find_map. by eapply Ht.
Qed.

Definition put_page p x s : vfs :=
  match vnodes s !! p.1 with
  | Some n => set_vnodes (insert p.1 (set_file_pages (um_put p.2 x) n)) s
  | None => s
  end.

Lemma find_page_vnode s p x : find_page s p = Some x → ∃ n, vnodes s !! p.1 = Some n.
Proof. unfold find_page. destruct (vnodes s !! p.1) as [n|]; [by exists n|done]. Qed.

Lemma find_put s p x q :
  tables s → is_Some (vnodes s !! p.1) →
  find_page (put_page p x s) q = if decide (q = p) then Some x else find_page s q.
Proof.
  intros Ht [n Hn]. unfold put_page. rewrite Hn. destruct p as [v k], q as [v' k']. cbn in *.
  pose proof (Ht v n Hn) as Hwf. unfold find_page. cbn.
  destruct (decide (v' = v)) as [->|Hv].
  - rewrite lookup_insert_eq, Hn. cbn. rewrite !um_find_map, um_put_map by auto using um_put_wf.
    destruct (decide (k' = k)) as [->|Hk].
    + rewrite lookup_insert_eq. by rewrite decide_True.
    + rewrite lookup_insert_ne by done. rewrite decide_False; [done|congruence].
  - rewrite lookup_insert_ne by done. rewrite decide_False; [done|congruence].
Qed.

Lemma put_tables s p x : tables s → tables (put_page p x s).
Proof.
  intros Ht v n. unfold put_page. destruct (vnodes s !! p.1) as [n'|] eqn:Hn'; [|apply Ht].
  cbn [set_vnodes vnodes].
  intros [[<- <-]|[_ Hv]]%lookup_insert_Some; [|by eapply Ht].
  apply um_put_wf. by eapply Ht.
Qed.

Lemma page_run s p x : find_page s p = Some x → page p s = Fin (Ok x) s.
Proof. intros Hx. unfold page, gets, mbind, M_bind. by rewrite Hx. Qed.

Lemma set_page_run s p x f :
  find_page s p = Some x → set_page p f s = Fin (Ok tt) (put_page p (f x) s).
Proof.
  intros Hx. unfold set_page. rewrite (bind_run _ _ _ _ _ (page_run s p x Hx)).
  destruct (find_page_vnode s p x Hx) as [n Hn].
  unfold set_vnode, vnode, gets, mbind, M_bind, put_page. by rewrite Hn.
Qed.

(** The fields of a page but for the links and the list it is on. *)
Definition core x := (paddr x, valid x, dirty x, evicting x, invalidating x, owner x, page_index x).

(** [s'] differs from [s] only in how the pages are linked, and in the counts of active
    and inactive pages. *)
Record relinked s s' : Prop := {
  rl_core p : core <$> find_page s' p = core <$> find_page s p;
  rl_node v : (λ n, (v_file n, cached_file_size n, cached_file_size_valid n)) <$> vnodes s' !! v =
              (λ n, (v_file n, cached_file_size n, cached_file_size_valid n)) <$> vnodes s !! v;
  rl_count c : c ≠ active_file_pages → c ≠ inactive_file_pages → counters s' c = counters s c;
  rl_frames : frames s' = frames s;
  rl_ram : ram s' = ram s;
  rl_files : files s' = files s;
  rl_tables : tables s';
}.

Lemma relinked_refl s : tables s → relinked s s.
Proof. by split. Qed.

Lemma relinked_trans s1 s2 s3 : relinked s1 s2 → relinked s2 s3 → relinked s1 s3.
Proof.
  intros [H1 H2 H3 H4 H5 H6 H7] [J1 J2 J3 J4 J5 J6 J7]. split; [| | |congruence..|done].
  - intros p. by rewrite J1.
  - intros v. by rewrite J2.
  - intros c Ha Hi. by rewrite J3, H3.
Qed.

Lemma relinked_put s p x x' :
  tables s → find_page s p = Some x → core x' = core x → relinked s (put_page p x' s).
Proof.
  intros Ht Hx Hc. destruct (find_page_vnode s p x Hx) as [n Hn].
  assert (∀ A (f : vfs → A), (∀ h s, f (set_vnodes h s) = f s) → f (put_page p x' s) = f s) as Hf.
  { intros A f Hf. unfold put_page. rewrite Hn. apply Hf. }
  split.
  - intros q. rewrite find_put by eauto. destruct (decide (q = p)) as [->|]; [|done].
    rewrite Hx. cbn. by rewrite Hc.
  - intros v. unfold put_page. rewrite Hn. cbn. destruct (decide (v = p.1)) as [->|].
    + by rewrite lookup_insert_eq, Hn.
    + by rewrite lookup_insert_ne.
  - intros c _ _. by rewrite (Hf _ counters).
  - by rewrite (Hf _ frames).
  - by rewrite (Hf _ ram).
  - by rewrite (Hf _ files).
  - by apply put_tables.
Qed.

Lemma relinked_find s s' p x :
  relinked s s' → find_page s p = Some x → ∃ x', find_page s' p = Some x' ∧ core x' = core x.
Proof.
  intros Hr Hx. pose proof (rl_core s s' Hr p) as Hc. rewrite Hx in Hc. cbn in Hc.
  apply fmap_Some in Hc as (x' & Hx' & Hc). exists x'. split; [done|]. congruence.
Qed.

Lemma relinked_none s s' p : relinked s s' → find_page s p = None → find_page s' p = None.
Proof.
  intros Hr Hx. pose proof (rl_core s s' Hr p) as Hc. rewrite Hx in Hc.
  by apply fmap_None in Hc.
Qed.

Lemma relinked_back s s' p x' :
  relinked s s' → find_page s' p = Some x' → ∃ x, find_page s p = Some x ∧ core x' = core x.
Proof.
  intros Hr Hx. pose proof (rl_core s s' Hr p) as Hc. rewrite Hx in Hc. cbn in Hc. symmetry in Hc.
  apply fmap_Some in Hc as (x & Hx' & Hc). exists x. split; [done|]. congruence.
Qed.

(** *** Segments

    The pages [l], all with [active = b], linked in this order between [pp] and [nn]. *)

Abbreviation store := (pkey → option CachedFilePage).

Definition hd_or (l : list pkey) (nn : option pkey) : option pkey :=
  match l with [] => nn | p :: _ => Some p end.
Fixpoint last_or (pp : option pkey) (l : list pkey) : option pkey :=
  match l with [] => pp | p :: l => last_or (Some p) l end.

Fixpoint seg (P : store) (b : bool) (pp : option pkey) (l : list pkey) (nn : option pkey) : Prop :=
  match l with
  | [] => True
  | p :: l => (∃ x, P p = Some x ∧ active x = b ∧ prev x = pp ∧ next x = hd_or l nn) ∧
              seg P b (Some p) l nn
  end.

Lemma last_or_app pp l1 l2 : last_or pp (l1 ++ l2) = last_or (last_or pp l1) l2.
Proof. revert pp. induction l1; intros pp; cbn; [done|auto]. Qed.

Lemma hd_or_app l1 l2 nn : hd_or (l1 ++ l2) nn = hd_or l1 (hd_or l2 nn).
Proof. by destruct l1. Qed.

Lemma seg_app P b pp l1 l2 nn :
  seg P b pp (l1 ++ l2) nn ↔ seg P b pp l1 (hd_or l2 nn) ∧ seg P b (last_or pp l1) l2 nn.
Proof.
  revert pp. induction l1 as [|p l1 IH]; intros pp; cbn [app seg last_or]; [naive_solver|].
  rewrite IH, hd_or_app. naive_solver.
Qed.

(** Only the pages of a segment matter to it. *)
Lemma seg_ext P P' b pp l nn :
  (∀ q, q ∈ l → P' q = P q) → seg P b pp l nn → seg P' b pp l nn.
Proof.
  revert pp. induction l as [|p l IH]; intros pp HP; cbn; [done|]. intros [Hp Hl].
  split; [|apply IH; [set_solver|done]]. by rewrite HP by set_solver.
Qed.

Lemma seg_elem P b pp l nn p :
  seg P b pp l nn → p ∈ l → ∃ x, P p = Some x ∧ active x = b.
Proof.
  revert pp. induction l as [|q l IH]; intros pp; cbn; [set_solver|].
  intros [(x & Hx & Hb & _) Hl] [-> |Hp]%elem_of_cons; eauto.
Qed.

(** Linking what follows the last page, and what precedes the first. *)
Lemma seg_set_next P b pp l q x nn nn' :
  seg P b pp (l ++ [q]) nn → (q ∉ l) → P q = Some x →
  seg (λ r, if decide (r = q) then Some (set_next nn' x) else P r) b pp (l ++ [q]) nn'.
Proof.
  intros [Hl [(y & Hy & Hb & Hp & Hn) _]]%seg_app Hq Hx. rewrite Hx in Hy. injection Hy as <-.
  apply seg_app. split.
  - cbn in *. eapply seg_ext; [|done]. intros r Hr. rewrite decide_False; [done|set_solver].
  - cbn. split; [|done]. eexists. rewrite decide_True by done. by split_and!.
Qed.

Lemma seg_set_prev P b pp pp' q x l nn :
  seg P b pp (q :: l) nn → (q ∉ l) → P q = Some x →
  seg (λ r, if decide (r = q) then Some (set_prev pp' x) else P r) b pp' (q :: l) nn.
Proof.
  intros [(y & Hy & Hb & Hp & Hn) Hl] Hq Hx. rewrite Hx in Hy. injection Hy as <-.
  split.
  - eexists. rewrite decide_True by done. by split_and!.
  - eapply seg_ext; [|done]. intros r Hr. rewrite decide_False; [done|set_solver].
Qed.

(** A whole list, with its head and tail. *)
Record chain (P : store) (b : bool) (ht : option pkey * option pkey) (l : list pkey) : Prop := {
  ch_seg : seg P b None l None;
  ch_head : ht.1 = hd_or l None;
  ch_tail : ht.2 = last_or None l;
  ch_nodup : NoDup l;
}.

Lemma page_chain_ext P P' b ht l :
  (∀ q, q ∈ l → P' q = P q) → chain P b ht l → chain P' b ht l.
Proof. intros HP [Hs ? ? ?]. split; [|done..]. by eapply seg_ext. Qed.

(** Both lists. *)
Record lists s (la li : list pkey) : Prop := {
  ls_active : chain (find_page s) true (active_list s) la;
  ls_inactive : chain (find_page s) false (inactive_list s) li;
}.

Definition list_of (b : bool) (la li : list pkey) : list pkey := if b then la else li.

Lemma lists_chain s la li b :
  lists s la li → chain (find_page s) b (if b then active_list s else inactive_list s) (list_of b la li).
Proof. by intros [Ha Hi]; destruct b. Qed.

Lemma lists_active s la li b p :
  lists s la li → p ∈ list_of b la li → ∃ x, find_page s p = Some x ∧ active x = b.
Proof. intros Hl Hp. eapply seg_elem; [apply (lists_chain s la li b Hl)|done]. Qed.

Lemma lists_disjoint s la li b p :
  lists s la li → p ∈ list_of b la li → (p ∉ list_of (negb b) la li).
Proof.
  intros Hl Hp Hp'. destruct (lists_active _ _ _ _ _ Hl Hp) as (x & Hx & Hb).
  destruct (lists_active _ _ _ _ _ Hl Hp') as (y & Hy & Hb'). rewrite Hx in Hy.
  injection Hy as <-. rewrite Hb in Hb'. by destruct b.
Qed.

(** What a change of one page leaves alone. *)
Lemma put_rest s p x :
  active_list (put_page p x s) = active_list s ∧ inactive_list (put_page p x s) = inactive_list s ∧
  counters (put_page p x s) = counters s.
Proof. unfold put_page. by destruct (vnodes s !! p.1). Qed.

(** [s'] is [s] with other links on the pages [l]. *)
Definition relinks (l : list pkey) s s' : Prop :=
  relinked s s' ∧ (∀ r, (r ∉ l) → find_page s' r = find_page s r) ∧
  active_list s' = active_list s ∧ inactive_list s' = inactive_list s ∧ counters s' = counters s.

Lemma relinks_refl l s : tables s → relinks l s s.
Proof. intros. split; [by apply relinked_refl|done]. Qed.

Lemma relinks_put l s p x x' :
  tables s → find_page s p = Some x → core x' = core x → p ∈ l → relinks l s (put_page p x' s).
Proof.
  intros Ht Hx Hc Hp. pose proof (put_rest s p x') as (? & ? & ?).
  split_and!; [by eapply relinked_put| |done..].
  intros r Hr. destruct (find_page_vnode s p x Hx) as [n Hn].
  rewrite find_put by eauto. by rewrite decide_False by set_solver.
Qed.

Lemma relinks_trans l1 l2 s1 s2 s3 :
  relinks l1 s1 s2 → relinks l2 s2 s3 → relinks (l1 ++ l2) s1 s3.
Proof.
  intros (H1 & H2 & H3 & H4 & H5) (J1 & J2 & J3 & J4 & J5).
  split_and!; [by eapply relinked_trans| |congruence..].
  intros r Hr. rewrite J2, H2 by set_solver. done.
Qed.

(** The two halves of [lru_remove]. *)
Lemma unlink_before s b l1 p nx head :
  tables s → seg (find_page s) b None l1 (Some p) → NoDup l1 → (p ∉ l1) →
  head = hd_or l1 (Some p) →
  ∃ s', match last_or None l1 with
        | Some q => _ ← set_page q (set_next nx); mret head
        | None => mret (if bool_decide (head = Some p) then nx else head)
        end s = Fin (Ok (hd_or l1 nx)) s' ∧
    relinks l1 s s' ∧ seg (find_page s') b None l1 nx.
Proof.
  intros Ht Hseg Hnd Hp ->. destruct l1 as [|q l1 _] using rev_ind.
  - exists s. cbn. rewrite bool_decide_eq_true_2 by done. split_and!; [done|by apply relinks_refl|done].
  - rewrite last_or_app. cbn [last_or]. apply NoDup_app in Hnd as (_ & Hq & _).
    assert (q ∉ l1) as Hq' by set_solver.
    destruct (seg_elem _ _ _ _ _ q Hseg) as (x & Hx & _); [set_solver|].
    rewrite (bind_run _ _ _ _ _ (set_page_run s q x _ Hx)).
    exists (put_page q (set_next nx x) s). split_and!.
    + by rewrite !hd_or_app; cbn; destruct l1.
    + eapply relinks_put; [done..|set_solver].
    + eapply seg_ext; [|by eapply seg_set_next]. intros r _.
      destruct (find_page_vnode s q x Hx) as [n Hn]. by rewrite find_put by eauto.
Qed.

Lemma unlink_after s b p pv l2 tail :
  tables s → seg (find_page s) b (Some p) l2 None → NoDup l2 → (p ∉ l2) →
  tail = last_or (Some p) l2 →
  ∃ s', match hd_or l2 None with
        | Some q => _ ← set_page q (set_prev pv); mret tail
        | None => mret (if bool_decide (tail = Some p) then pv else tail)
        end s = Fin (Ok (last_or pv l2)) s' ∧
    relinks l2 s s' ∧ seg (find_page s') b pv l2 None.
Proof.
  intros Ht Hseg Hnd Hp ->. destruct l2 as [|q l2].
  - exists s. cbn. rewrite bool_decide_eq_true_2 by done. split_and!; [done|by apply relinks_refl|done].
  - cbn [hd_or last_or]. apply NoDup_cons in Hnd as [Hq _].
    destruct (seg_elem _ _ _ _ _ q Hseg) as (x & Hx & _); [set_solver|].
    rewrite (bind_run _ _ _ _ _ (set_page_run s q x _ Hx)).
    exists (put_page q (set_prev pv x) s). split_and!; [done| |].
    + eapply relinks_put; [done..|set_solver].
    + eapply seg_ext; [|by eapply seg_set_prev]. intros r _.
      destruct (find_page_vnode s q x Hx) as [n Hn]. by rewrite find_put by eauto.
Qed.

Definition with_list (b : bool) (l : list pkey) (la li : list pkey) : list pkey * list pkey :=
  if b then (l, li) else (la, l).

Lemma store_refs_run s b ht :
  ∃ s', lru_store_refs b ht s = Fin (Ok tt) s' ∧ (∀ r, find_page s' r = find_page s r) ∧
    (tables s → relinked s s') ∧
    (if b then active_list s' else inactive_list s') = ht ∧
    (if b then inactive_list s' else active_list s') =
    (if b then inactive_list s else active_list s) ∧ counters s' = counters s.
Proof. eexists. split; [done|]. destruct b; (split_and!; [done| |done..]); by split. Qed.

Lemma lists_replace s s' la li b l ht :
  lists s la li →
  (∀ r, r ∈ list_of (negb b) la li → find_page s' r = find_page s r) →
  chain (find_page s') b ht l →
  (if b then active_list s' else inactive_list s') = ht →
  (if b then inactive_list s' else active_list s') = (if b then inactive_list s else active_list s) →
  lists s' (with_list b l la li).1 (with_list b l la li).2.
Proof.
  intros [Ha Hi] Hrest Hch Hht Ho. destruct b; cbn in *; subst ht; split; try done.
  - rewrite Ho. by eapply page_chain_ext.
  - rewrite Ho. by eapply page_chain_ext.
Qed.

Lemma lru_remove_run s la li p x :
  tables s → lists s la li → find_page s p = Some x → p ∈ list_of (active x) la li →
  ∃ s' l1 l2, lru_remove p s = Fin (Ok tt) s' ∧ relinked s s' ∧ counters s' = counters s ∧
    list_of (active x) la li = l1 ++ p :: l2 ∧
    lists s' (with_list (active x) (l1 ++ l2) la li).1 (with_list (active x) (l1 ++ l2) la li).2 ∧
    find_page s' p = Some (set_links None None x).
Proof.
  intros Ht Hl Hx (l1 & l2 & Hsplit)%list_elem_of_split. set (b := active x) in *.
  pose proof (lists_chain s la li b Hl) as [Hseg Hhd Htl Hnd]. rewrite Hsplit in *.
  apply seg_app in Hseg as [Hs1 [(y & Hy & _ & Hpv & Hnx) Hs2]].
  rewrite Hx in Hy. injection Hy as <-.
  apply NoDup_app in Hnd as (Hnd1 & Hd12 & [Hp2 Hnd2]%NoDup_cons).
  assert (p ∉ l1) as Hp1 by set_solver.
  unfold lru_remove. rewrite (bind_run _ _ _ _ _ (page_run s p x Hx)). fold b.
  unfold lru_refs at 1, gets at 1, mbind at 1, M_bind at 1.
  destruct (if b then active_list s else inactive_list s) as [head tail]. cbn [fst snd] in *.
  rewrite Hpv, Hnx.
  destruct (unlink_before s b l1 p (hd_or l2 None) head) as (s1 & Hr1 & Hk1 & Hseg1); try done.
  { by rewrite Hhd, hd_or_app. }
  rewrite (bind_run _ _ _ _ _ Hr1). pose proof Hk1 as (Hrl1 & Hf1 & Ha1 & Hi1 & Hc1).
  destruct (unlink_after s1 b p (last_or None l1) l2 tail) as (s2 & Hr2 & Hk2 & Hseg2); try done.
  { apply Hrl1. }
  { eapply seg_ext; [|exact Hs2]. intros r Hr. apply Hf1. set_solver. }
  { by rewrite Htl, last_or_app. }
  rewrite (bind_run _ _ _ _ _ Hr2). pose proof Hk2 as (Hrl2 & Hf2 & Ha2 & Hi2 & Hc2).
  assert (find_page s2 p = Some x) as Hx2 by (by rewrite Hf2, Hf1).
  rewrite (bind_run _ _ _ _ _ (set_page_run s2 p x _ Hx2)).
  set (s3 := put_page p (set_links None None x) s2).
  assert (relinks [p] s2 s3) as Hk3 by (eapply relinks_put; [apply Hrl2|done|done|set_solver]).
  pose proof (relinks_trans _ _ _ _ _ (relinks_trans _ _ _ _ _ Hk1 Hk2) Hk3) as (Hrl & Hf & Ha & Hi & Hc).
  destruct (store_refs_run s3 b (hd_or l1 (hd_or l2 None), last_or (last_or None l1) l2))
    as (s4 & Hr4 & Hf4 & Hrl4 & Hht & Ho & Hc4).
  assert (∀ r, r ∈ l1 ++ l2 → find_page s3 r = find_page s2 r) as H32.
  { intros r Hr. apply Hk3. set_solver. }
  exists s4, l1, l2. split_and!; [done| |congruence|done| |].
  - eapply relinked_trans; [done|]. apply Hrl4, Hrl.
  - eapply lists_replace; [done| | |done|].
    + intros r Hr. rewrite Hf4. apply Hf. intros Hin. eapply (lists_disjoint s la li b r); [done| |done].
      rewrite Hsplit. set_solver.
    + split; cbn; [|by rewrite hd_or_app|by rewrite last_or_app|].
      * apply seg_app. split.
        -- eapply seg_ext; [|exact Hseg1]. intros r Hr. rewrite Hf4, H32 by set_solver.
           apply Hf2. set_solver.
        -- eapply seg_ext; [|exact Hseg2]. intros r Hr. rewrite Hf4. apply H32. set_solver.
      * apply NoDup_app. split_and!; [done| |done]. set_solver.
    + rewrite Ho. by destruct b; congruence.
  - rewrite Hf4. destruct (find_page_vnode s2 p x Hx2) as [n Hn]. unfold s3.
    rewrite find_put by (eauto; apply Hrl2). by rewrite decide_True.
Qed.

Lemma counter_relinked s c f :
  tables s → c = active_file_pages ∨ c = inactive_file_pages → relinked s (set_counter c f s).
Proof.
  intros Ht Hc. split; try done. intros c' Ha Hi. cbn. rewrite decide_False; [done|].
  by destruct Hc; congruence.
Qed.

Lemma set_active_run s p x b :
  tables s → find_page s p = Some x →
  ∃ s', set_file_page_active p b s = Fin (Ok tt) s' ∧ relinked s s' ∧
    (∀ r, find_page s' r = if decide (r = p) then Some (set_active b x) else find_page s r) ∧
    active_list s' = active_list s ∧ inactive_list s' = inactive_list s.
Proof.
  intros Ht Hx. unfold set_file_page_active. rewrite (bind_run _ _ _ _ _ (page_run s p x Hx)).
  destruct (decide (active x = b)) as [Hb|Hb].
  - rewrite bool_decide_eq_true_2 by done. exists s. split_and!; [done|by apply relinked_refl| |done..].
    intros r. destruct (decide (r = p)) as [->|]; [|done]. rewrite Hx. subst b. by destruct x.
  - rewrite bool_decide_eq_false_2 by done.
    unfold decr at 1, incr at 1, modify, mbind, M_bind.
    set (s1 := set_counter _ _ s). set (s2 := set_counter _ _ s1).
    assert (relinked s s2) as H2.
    { eapply relinked_trans; [|apply counter_relinked; [|by destruct b; auto]];
        [apply counter_relinked; [done|destruct (active x); auto]|done]. }
    pose proof (put_rest s2 p (set_active b x)) as (Ha & Hi & _).
    exists (put_page p (set_active b x) s2). split_and!; [|..].
    + apply (set_page_run s2 p x (set_active b)). exact Hx.
    + eapply relinked_trans; [done|]. eapply relinked_put; [done|exact Hx|done].
    + intros r. destruct (find_page_vnode s p x Hx) as [n Hn].
      rewrite find_put by (done || by eexists). done.
    + by rewrite Ha.
    + by rewrite Hi.
Qed.

Lemma lru_push_tail_run s la li p x b :
  tables s → lists s la li → find_page s p = Some x → (p ∉ la) → (p ∉ li) →
  ∃ s', lru_push_tail p b s = Fin (Ok tt) s' ∧ relinked s s' ∧
    lists s' (with_list b (list_of b la li ++ [p]) la li).1
             (with_list b (list_of b la li ++ [p]) la li).2.
Proof.
  intros Ht Hl Hx Hpa Hpi. unfold lru_push_tail.
  destruct (set_active_run s p x b Ht Hx) as (s1 & Hr1 & Hrl1 & Hf1 & Ha1 & Hi1).
  rewrite (bind_run _ _ _ _ _ Hr1).
  assert (find_page s1 p = Some (set_active b x)) as Hx1 by (by rewrite Hf1, decide_True).
  rewrite (bind_run _ _ _ _ _ (set_page_run s1 p _ _ Hx1)).
  set (y := set_links None None (set_active b x)). set (s2 := put_page p y s1).
  assert (relinks [p] s1 s2) as (Hrl2 & Hf2 & Ha2 & Hi2 & _)
    by (eapply relinks_put; [apply Hrl1|done|done|set_solver]).
  assert (tables s2) as Ht2 by apply Hrl2.
  assert (find_page s2 p = Some y) as Hx2.
  { destruct (find_page_vnode s1 p _ Hx1) as [n Hn]. unfold s2.
    rewrite find_put by (eauto; apply Hrl1). by rewrite decide_True. }
  assert (∀ r, r ≠ p → find_page s2 r = find_page s r) as Hf.
  { intros r Hr. rewrite Hf2 by set_solver. by rewrite Hf1, decide_False. }
  pose proof (lists_chain s la li b Hl) as [Hseg Hhd Htl Hnd].
  assert (p ∉ list_of b la li) as Hpl by by destruct b.
  assert (∀ r, r ∈ list_of (negb b) la li → r ≠ p) as Hother
    by (intros r Hr ->; by destruct b).
  unfold lru_refs at 1, gets at 1, mbind at 1, M_bind at 1.
  assert ((if b then active_list s2 else inactive_list s2) =
    (if b then active_list s else inactive_list s)) as -> by (destruct b; congruence).
  assert ((if b then inactive_list s2 else active_list s2) =
    (if b then inactive_list s else active_list s)) as Ho2 by (destruct b; congruence).
  destruct (if b then active_list s else inactive_list s) as [head tail]. cbn [fst snd] in *.
  remember (list_of b la li) as l eqn:Hleq. destruct l as [|t l _] using rev_ind.
  - cbn in Htl. subst tail. destruct (store_refs_run s2 b (Some p, Some p))
      as (s3 & Hr3 & Hf3 & Hrl3 & Hht & Ho & _).
    exists s3. split_and!; [done|by eauto using relinked_trans|].
    eapply lists_replace; [done| | |done|by rewrite Ho].
    + intros r Hr. rewrite Hf3. auto.
    + split; [|done|done|by apply NoDup_singleton]. cbn. split; [|done]. exists y.
      by rewrite Hf3.
  - rewrite last_or_app in Htl. cbn in Htl. subst tail.
    assert (t ≠ p) as Htp by set_solver.
    destruct (seg_elem _ _ _ _ _ t Hseg) as (z & Hz & _); [set_solver|].
    assert (find_page s2 t = Some z) as Hz2 by (by rewrite Hf).
    rewrite (bind_run _ _ _ _ _ (set_page_run s2 t z _ Hz2)).
    set (s3 := put_page t (set_next (Some p) z) s2).
    assert (relinks [t] s2 s3) as (Hrl3 & Hf3 & Ha3 & Hi3 & _)
      by (eapply relinks_put; [done..|set_solver]).
    assert (find_page s3 p = Some y) as Hx3 by (rewrite Hf3; [done|set_solver]).
    rewrite (bind_run _ _ _ _ _ (set_page_run s3 p y _ Hx3)).
    set (s4 := put_page p (set_prev (Some t) y) s3).
    assert (relinks [p] s3 s4) as (Hrl4 & Hf4 & Ha4 & Hi4 & _)
      by (eapply relinks_put; [apply Hrl3|done|done|set_solver]).
    destruct (store_refs_run s4 b (head, Some p)) as (s5 & Hr5 & Hf5 & Hrl5 & Hht & Ho & _).
    exists s5. split_and!; [done| |].
    { eapply relinked_trans; [done|]. eapply relinked_trans; [exact Hrl2|].
      eapply relinked_trans; [exact Hrl3|]. eapply relinked_trans; [exact Hrl4|]. apply Hrl5, Hrl4. }
    apply NoDup_app in Hnd as (Hnd & Hdt & _). assert (t ∉ l) as Htl by set_solver.
    eapply lists_replace; [done| | |done|].
    + intros r Hr. assert (r ≠ p) by auto.
      assert (r ≠ t). { intros ->. eapply (lists_disjoint s la li b t); [done| |done].
        rewrite <- Hleq. set_solver. }
      rewrite Hf5, Hf4, Hf3, Hf by set_solver. done.
    + split; cbn [fst snd].
      * apply seg_app. split.
        -- eapply seg_ext; [|eapply (seg_set_next (find_page s) b None l t z None (Some p)); done].
           intros r Hr. rewrite Hf5, Hf4 by set_solver. cbn.
           destruct (find_page_vnode s2 t z Hz2) as [n Hn]. unfold s3. rewrite find_put by eauto.
           destruct (decide (r = t)); [done|]. apply Hf. set_solver.
        -- rewrite last_or_app. cbn. split; [|done]. exists (set_prev (Some t) y).
           rewrite Hf5. destruct (find_page_vnode s3 p y Hx3) as [n Hn]. unfold s4.
           rewrite find_put by (eauto; apply Hrl3). by rewrite decide_True.
      * rewrite Hhd. by rewrite !hd_or_app.
      * by rewrite last_or_app.
      * apply NoDup_app. split_and!; [|set_solver|by apply NoDup_singleton].
        apply NoDup_app. split_and!; [done|set_solver|by apply NoDup_singleton].
    + rewrite Ho. destruct b; congruence.
Qed.

(** *** What the cache uses *)

Lemma with_list_perm b la li p l1 l2 :
  list_of b la li = l1 ++ p :: l2 →
  p :: (with_list b (l1 ++ l2) la li).1 ++ (with_list b (l1 ++ l2) la li).2 ≡ₚ la ++ li.
Proof.
  intros Hl. destruct b; cbn in *; subst; rewrite ?app_assoc.
  - rewrite <- !(app_assoc l1). apply Permutation_middle.
  - apply Permutation_middle.
Qed.

Lemma push_list_perm b la li p :
  (with_list b (list_of b la li ++ [p]) la li).1 ++ (with_list b (list_of b la li ++ [p]) la li).2 ≡ₚ
  p :: la ++ li.
Proof.
  destruct b; cbn.
  - rewrite <- app_assoc. cbn. by rewrite <- Permutation_middle.
  - by rewrite app_assoc, <- Permutation_cons_append.
Qed.

Lemma lists_nodup s la li : lists s la li → NoDup (la ++ li).
Proof.
  intros Hl. apply NoDup_app. split_and!; [apply Hl| |apply Hl].
  intros p Hp. exact (lists_disjoint s la li true p Hl Hp).
Qed.

(** Removing a page and putting it on a list. *)
Lemma lru_move_run s la li p x b :
  tables s → lists s la li → find_page s p = Some x → p ∈ list_of (active x) la li →
  ∃ s' la' li', (_ ← lru_remove p; lru_push_tail p b) s = Fin (Ok tt) s' ∧ relinked s s' ∧
    lists s' la' li' ∧ la' ++ li' ≡ₚ la ++ li ∧ p ∈ list_of b la' li'.
Proof.
  intros Ht Hl Hx Hp.
  destruct (lru_remove_run s la li p x Ht Hl Hx Hp) as (s1 & l1 & l2 & Hr1 & Hrl1 & _ & Hs & Hl1 & Hx1).
  rewrite (bind_run _ _ _ _ _ Hr1).
  pose proof (with_list_perm (active x) la li p l1 l2 Hs) as Hperm.
  destruct (with_list (active x) (l1 ++ l2) la li) as [la1 li1]. cbn [fst snd] in *.
  pose proof (lists_nodup s la li Hl) as Hnd. rewrite <- Hperm in Hnd.
  apply NoDup_cons in Hnd as [Hpn _]. rewrite elem_of_app in Hpn.
  destruct (lru_push_tail_run s1 la1 li1 p _ b (rl_tables _ _ Hrl1) Hl1 Hx1) as (s2 & Hr2 & Hrl2 & Hl2);
    [naive_solver..|].
  exists s2, (with_list b (list_of b la1 li1 ++ [p]) la1 li1).1,
    (with_list b (list_of b la1 li1 ++ [p]) la1 li1).2.
  split_and!; [done|by eapply relinked_trans|done| |].
  - by rewrite push_list_perm.
  - destruct b; cbn; set_solver.
Qed.

Lemma lru_touch_run s la li p x :
  tables s → lists s la li → find_page s p = Some x → p ∈ list_of (active x) la li →
  ∃ s' la' li', lru_touch p s = Fin (Ok tt) s' ∧ relinked s s' ∧ lists s' la' li' ∧
    la' ++ li' ≡ₚ la ++ li ∧ p ∈ la'.
Proof. intros. by apply (lru_move_run s la li p x true). Qed.

Lemma lru_refs_run s b :
  lru_refs b s = Fin (Ok (if b then active_list s else inactive_list s)) s.
Proof. done. Qed.

(** The victim is the first inactive page, an active one when there is no other. *)
Lemma lru_victim_run s la li :
  tables s → lists s la li →
  ∃ r s' la' li', lru_victim s = Fin (Ok r) s' ∧ relinked s s' ∧ lists s' la' li' ∧
    la' ++ li' ≡ₚ la ++ li ∧ r = hd_or li' None ∧ (r = None → la ++ li = []).
Proof.
  intros Ht Hl. unfold lru_victim. rewrite (bind_run _ _ _ _ _ (lru_refs_run s false)).
  pose proof Hl as [Ha Hi]. destruct (inactive_list s) as [head tail] eqn:Hil.
  pose proof (ch_head _ _ _ _ Hi) as Hhd. cbn in Hhd.
  assert (∀ s' la' li', relinked s s' → lists s' la' li' → la' ++ li' ≡ₚ la ++ li →
    (hd_or li' None = None → la ++ li = []) →
    ∃ r s'' la' li', ('(head, _) ← lru_refs false; mret head) s' = Fin (Ok r) s'' ∧
      relinked s s'' ∧ lists s'' la' li' ∧ la' ++ li' ≡ₚ la ++ li ∧
      r = hd_or li' None ∧ (r = None → la ++ li = [])) as Hend.
  { intros s' la' li' Hrl Hl' Hp Hn. pose proof (ch_head _ _ _ _ (ls_inactive _ _ _ Hl')) as Hh.
    unfold lru_refs, gets, mbind, M_bind, mret, M_ret.
    destruct (inactive_list s') as [h t] eqn:Hi'. exists h, s', la', li'.
    cbn in Hh. subst h. by split_and!. }
  destruct (decide (head = None)) as [Hnone|Hsome].
  - rewrite bool_decide_eq_true_2 by done. rewrite Hnone in Hhd.
    assert (li = []) as -> by by destruct li. unfold lru_demote_one_active_page.
    unfold mbind at 1, M_bind at 1. rewrite (bind_run _ _ _ _ _ (lru_refs_run s true)).
    destruct (active_list s) as [h t] eqn:Hal. pose proof (ch_head _ _ _ _ Ha) as Hh. cbn in Hh.
    destruct la as [|p la]; cbn in Hh; subst h.
    + unfold mret at 1, M_ret at 1.
      apply (Hend s [] []); [by apply relinked_refl|by split; rewrite ?Hal, ?Hil|done|done].
    + destruct (lists_active s (p :: la) [] true p) as (x & Hx & Hb); [done|cbn; set_solver|].
      destruct (lru_move_run s (p :: la) [] p x false) as (s1 & la' & li' & Hr1 & Hrl & Hl1 & Hp1 & Hin);
        [done|done|done|rewrite Hb; cbn; set_solver|].
      rewrite Hr1. eapply Hend; [done..|].
      cbn in Hin. destruct li'; [by apply elem_of_nil in Hin|done].
  - rewrite bool_decide_eq_false_2 by done. unfold mbind at 1, M_bind at 1, mret at 1, M_ret at 1.
    apply (Hend s la li); [by apply relinked_refl|done|done|]. by destruct li; cbn in *.
Qed.

Lemma lru_victim_ready s la p li : lists s la (p :: li) → lru_victim s = Fin (Ok (Some p)) s.
Proof.
  intros [_ Hi]. pose proof (ch_head _ _ _ _ Hi) as Hh. cbn in Hh.
  unfold lru_victim. rewrite (bind_run _ _ _ _ _ (lru_refs_run s false)).
  destruct (inactive_list s) as [h t] eqn:Hil. cbn in Hh. subst h.
  rewrite bool_decide_eq_false_2 by done. rewrite (bind_run (mret tt) _ s tt s eq_refl).
  rewrite (bind_run _ _ _ _ _ (lru_refs_run s false)). by rewrite Hil.
Qed.

(** Changing fields that have no part in the lists. *)
Lemma seg_put P P' b pp l nn :
  (∀ q, q ∈ l → ∃ x x', P q = Some x ∧ P' q = Some x' ∧ active x' = active x ∧
    prev x' = prev x ∧ next x' = next x) →
  seg P b pp l nn → seg P' b pp l nn.
Proof.
  revert pp. induction l as [|p l IH]; intros pp HP; cbn; [done|].
  intros [(y & Hy & Ha & Hp & Hn) Hl]. split; [|apply IH; [by intros q Hq; apply HP; right|done]].
  destruct (HP p) as (x & x' & Hx & Hx' & ? & ? & ?); [by left|]. exists x'.
  rewrite Hy in Hx. injection Hx as <-. split_and!; congruence.
Qed.

Lemma lists_put s la li p x x' :
  tables s → lists s la li → find_page s p = Some x →
  active x' = active x → prev x' = prev x → next x' = next x →
  lists (put_page p x' s) la li.
Proof.
  intros Ht [Ha Hi] Hx H1 H2 H3. destruct (find_page_vnode s p x Hx) as [n Hn].
  pose proof (put_rest s p x') as (Hal & Hil & _).
  assert (∀ b ht l, chain (find_page s) b ht l → chain (find_page (put_page p x' s)) b ht l) as Hch.
  { intros b ht l [Hs ? ? ?]. split; [|done..]. eapply seg_put; [|done]. intros q Hq.
    destruct (seg_elem _ _ _ _ _ q Hs Hq) as (y & Hy & _). rewrite find_put by eauto.
    destruct (decide (q = p)) as [->|]; [by exists x, x'|by exists y, y]. }
  split; rewrite ?Hal, ?Hil; auto.
Qed.

(** Pages outside the lists do not matter to them. *)
Lemma lists_other s s' la li :
  lists s la li → (∀ q, q ∈ la ++ li → find_page s' q = find_page s q) →
  active_list s' = active_list s → inactive_list s' = inactive_list s → lists s' la li.
Proof.
  intros [Ha Hi] Hf Hal Hil. split; rewrite ?Hal, ?Hil; (eapply page_chain_ext; [|done]);
    intros q Hq; apply Hf; set_solver.
Qed.

End lru.
End LruFacts.
