(* ===== verification/PageCacheInv.v ===== *)
(** * The page cache is transparent: files and the invariant

    What the page cache relies on a file system for ([FileLaws], which the memory file
    system meets, [tmpfs_file]), and the invariant of the cache: [base] says that the
    lists, the tables, the frames and the counter of pages agree, [coherent] that the
    cached pages and the file below show the bytes of one sequence per file. *)

From S2P Require Import Prelude ErrCode Addr Buddy Gfp Memory HashMap TmpFs PageCache.
Import Memory(PageFrames, pf_get, pf_put, pf_inv, pf_get_law, pf_put_law, pf_less, pf_ext,
  frame_ok, fo_pos, fo_align, fo_limit).
Import PageCache LruFacts.

#[local] Open Scope Z_scope.

(** ** Files *)

(** A file is a sequence of bytes ([fl_content]) of at most [fl_max]; on a consistent
    file system ([fl_inv]) reading and writing below that bound succeed. *)
Class FileLaws (F : Type) `{!IFile F} := {
  fl_inv : F → Prop;
  fl_content : F → Z → option (list Z);
  fl_max : Z;
  fl_max_range : 0 <= fl_max < 2 ^ 62;
  fl_length s f B : fl_inv s → fl_content s f = Some B → Z.of_nat (length B) <= fl_max;
  fl_cached s f B : fl_inv s → fl_content s f = Some B → if_cache s f ≠ CACHE_NONE;
  fl_read_law s f B off len :
    fl_inv s → fl_content s f = Some B → 0 <= off < 2 ^ 63 → is_u64 len →
    if_read f off len s = Fin (Ok (take (Z.to_nat len) (drop (Z.to_nat off) B))) s;
  fl_write_law s f B off bytes :
    fl_inv s → fl_content s f = Some B → 0 <= off → off + Z.of_nat (length bytes) <= fl_max →
    ∃ s', if_write f off bytes s = Fin (Ok (Z.of_nat (length bytes))) s' ∧ fl_inv s' ∧
      ∀ g, fl_content s' g =
        if decide (g = f) then Some (TmpFsSpec.written off bytes B) else fl_content s g;
  fl_size_law s f B :
    fl_inv s → fl_content s f = Some B → if_size f s = Fin (Ok (Z.of_nat (length B))) s;
  fl_truncate_law s f B n :
    fl_inv s → fl_content s f = Some B → 0 <= n <= fl_max →
    ∃ s', if_truncate f n s = Fin (Ok tt) s' ∧ fl_inv s' ∧
      ∀ g, fl_content s' g =
        if decide (g = f) then Some (resize (Z.to_nat n) 0 B) else fl_content s g;
}.

(** *** The memory file system

    While [new char[]] succeeds; [g] is what the memory holds. *)
Section tmpfs.
Context {US UI : Type → Type} `{!UMap string US} `{!UMap Z UI} (g : nat → Z).

#[global] Instance tmpfs_file : IFile (TmpFs.TmpFSSuperblock (US := US) (UI := UI)) := {|
  if_cache _ _ := CACHE_PERMANENT;
  if_sync _ := TmpFs.file_sync;
  if_read f off len := TmpFs.file_read f off true len;
  if_write f off bytes := TmpFs.file_write (Some g) f off (Some bytes) (Z.of_nat (length bytes));
  if_size f := TmpFs.file_size f;
  if_truncate f n := TmpFs.file_truncate (Some g) f n;
|}.

Import TmpFsSpec.

Definition file_content (s : TmpFs.TmpFSSuperblock (US := US) (UI := UI)) (f : Z)
    : option (list Z) :=
  match a_nodes (abs s) !! f with Some (AFile l) => Some l | _ => None end.

Lemma tmpfs_content s f B :
  file_content s f = Some B → a_nodes (abs s) !! f = Some (AFile B).
Proof. unfold file_content. destruct (a_nodes (abs s) !! f) as [[]|]; naive_solver. Qed.

Lemma put_content_at s s' f l :
  abs s' = a_put f (AFile l) (abs s) → ∀ h,
  file_content s' h = if decide (h = f) then Some l else file_content s h.
Proof.
  intros Ha h. unfold file_content. rewrite Ha. cbn. destruct (decide (h = f)) as [->|].
  - by rewrite lookup_insert_eq.
  - by rewrite lookup_insert_ne.
Qed.

#[local] Obligation Tactic := idtac.
#[global] Program Instance tmpfs_laws : FileLaws (TmpFs.TmpFSSuperblock (US := US) (UI := UI)) := {|
  fl_inv s := rep s;
  fl_content s f := file_content s f;
  fl_max := TmpFs.MAX_TMPFS_FILE;
|}.
Next Obligation. done. Qed.
Next Obligation.
  intros s f B Hr HB%tmpfs_content. destruct (abs_file _ _ _ HB) as (n & Hn & _ & <-).
  destruct (r_node s Hr _ _ Hn) as [_ _ -> ?]. done.
Qed.
Next Obligation. done. Qed.
Next Obligation.
  intros s f B off len Hr HB%tmpfs_content Hoff Hlen.
  destruct (abs_file _ _ _ HB) as (n & Hn & _ & <-). cbn.
  rewrite (file_read_run s f n) by done. by rewrite (proj2 (Z.ltb_ge off 0)) by lia.
Qed.
Next Obligation.
  intros s f B off bytes Hr HB%tmpfs_content Hoff Hmax.
  destruct (abs_file _ _ _ HB) as (n & Hn & Ht & <-). unfold TmpFs.MAX_TMPFS_FILE in Hmax.
  pose proof (file_write_run (Some g) s f n off (Some bytes) (Z.of_nat (length bytes)) Hr Hn Ht) as Hw.
  assert (spec_write (Some g) off (Some bytes) (Z.of_nat (length bytes)) (TmpFs.content n) =
    Ok (written off bytes (TmpFs.content n))) as Hs.
  { unfold spec_write. rewrite (proj2 (Z.ltb_ge off 0)) by lia.
    rewrite (bool_decide_eq_false_2 (Some bytes = None)), andb_false_r by done. cbn [orb].
    rewrite (proj2 (Z.leb_gt W64 _)) by (unfold W64; lia). change (default [] (Some bytes)) with bytes.
    rewrite Nat2Z.id, take_ge by lia. destruct (_ <? _); [|done].
    unfold spec_resize. destruct (_ =? _); [done|].
    rewrite (proj2 (Z.ltb_ge TmpFs.MAX_TMPFS_FILE _)) by (unfold TmpFs.MAX_TMPFS_FILE; lia).
    by rewrite (bool_decide_eq_false_2 (Some g = None)), andb_false_r. }
  rewrite Hs in Hw. destruct Hw as (s' & Hrun & Hr' & Ha).
  - lia.
  - unfold is_u64, W64. lia.
  - by intros b [= <-].
  - exists s'. split_and!; [done..|]. by apply put_content_at.
Qed.
Next Obligation.
  intros s f B Hr HB%tmpfs_content. destruct (abs_file _ _ _ HB) as (n & Hn & _ & <-). cbn.
  unfold TmpFs.file_size. rewrite (bind_run _ _ _ _ _ (deref_run s f n Hr Hn)).
  by rewrite (n_size f n) by (by apply Hr).
Qed.
Next Obligation.
  intros s f B n Hr HB%tmpfs_content Hn. destruct (abs_file _ _ _ HB) as (x & Hx & Ht & <-). cbn.
  unfold TmpFs.file_truncate, TmpFs.MAX_TMPFS_FILE in *.
  pose proof (file_resize_run (Some g) s f x n Hr Hx Ht) as Hrs.
  assert (is_u64 n) as Hu by (unfold is_u64, W64; lia). specialize (Hrs Hu).
  assert (spec_resize (Some g) n (TmpFs.content x) = Ok (resize (Z.to_nat n) 0 (TmpFs.content x))) as Hs.
  { unfold spec_resize. destruct (Z.eqb_spec n (Z.of_nat (length (TmpFs.content x)))) as [->|].
    - rewrite Nat2Z.id. by rewrite resize_all.
    - rewrite (proj2 (Z.ltb_ge TmpFs.MAX_TMPFS_FILE _)) by (unfold TmpFs.MAX_TMPFS_FILE; lia).
      by rewrite (bool_decide_eq_false_2 (Some g = None)), andb_false_r. }
  rewrite Hs in Hrs. destruct Hrs as (s' & Hrun & Hr' & Ha & _).
  exists s'. split_and!; [done..|]. by apply put_content_at.
Qed.

End tmpfs.

(** ** Pages of a sequence *)

Module Slices.

Import TmpFsSpec(written).

Definition slice (k : Z) (l : list Z) : list Z :=
  take (Z.to_nat PAGESIZE) (drop (Z.to_nat (k * PAGESIZE)) l).

(** What a frame holds of a page. *)
Definition padded (l : list Z) : list Z := resize (Z.to_nat PAGESIZE) 0 l.

Lemma slice_lookup k l i :
  slice k l !! i = if decide (i < Z.to_nat PAGESIZE)%nat
                   then l !! (Z.to_nat (k * PAGESIZE) + i)%nat else None.
Proof.
  unfold slice. destruct (decide _).
  - by rewrite lookup_take_lt, lookup_drop.
  - by rewrite lookup_take_ge by lia.
Qed.

Lemma length_slice k l :
  length (slice k l) = (Z.to_nat PAGESIZE `min` (length l - Z.to_nat (k * PAGESIZE)))%nat.
Proof. unfold slice. by rewrite length_take, length_drop. Qed.

Lemma slices_eq a b : (∀ k, 0 <= k → slice k a = slice k b) → a = b.
Proof.
  intros Hk. apply list_eq. intros i. specialize (Hk (Z.of_nat i / PAGESIZE)).
  assert (0 <= Z.of_nat i / PAGESIZE) as H0 by (apply Z.div_pos; unfold PAGESIZE; lia).
  specialize (Hk H0). apply (f_equal (λ l, l !! Z.to_nat (Z.of_nat i mod PAGESIZE))) in Hk.
  rewrite !slice_lookup in Hk. pose proof (Z.mod_pos_bound (Z.of_nat i) PAGESIZE) as Hm.
  pose proof (Z.div_mod (Z.of_nat i) PAGESIZE) as Hd.
  rewrite !decide_True in Hk by (unfold PAGESIZE in *; lia).
  replace (Z.to_nat (Z.of_nat i / PAGESIZE * PAGESIZE) + Z.to_nat (Z.of_nat i mod PAGESIZE))%nat
    with i in Hk by (unfold PAGESIZE in *; lia).
  done.
Qed.

Lemma length_written o bytes l :
  0 <= o → length (written o bytes l) = (length l `max` (Z.to_nat o + length bytes))%nat.
Proof. intros Ho. unfold written. by rewrite length_fmap, length_seq. Qed.

Lemma written_lookup o bytes l i :
  0 <= o →
  written o bytes l !! i =
  if decide (Z.to_nat o <= i < Z.to_nat o + length bytes)%nat then bytes !! (i - Z.to_nat o)%nat
  else if decide (i < length l)%nat then l !! i
  else if decide (i < Z.to_nat o + length bytes)%nat then Some 0 else None.
Proof.
  intros Ho. unfold written. rewrite list_lookup_fmap.
  destruct (decide (i < length l `max` (Z.to_nat o + length bytes))%nat) as [Hi|Hi].
  - rewrite lookup_seq_lt by done. cbn. destruct (decide _) as [Hin|Hout].
    + destruct (nth_lookup_or_length bytes (i - Z.to_nat o) 0) as [->|]; [done|lia].
    + destruct (decide (i < length l)%nat) as [Hl|Hl].
      * destruct (nth_lookup_or_length l i 0) as [->|]; [done|lia].
      * rewrite nth_overflow by lia. by rewrite decide_True by lia.
  - rewrite lookup_seq_ge by lia. cbn. rewrite decide_False by lia.
    rewrite decide_False by lia. by rewrite decide_False by lia.
Qed.

Lemma padded_lookup l i :
  (length l <= Z.to_nat PAGESIZE)%nat →
  padded l !! i = if decide (i < length l)%nat then l !! i
                  else if decide (i < Z.to_nat PAGESIZE)%nat then Some 0 else None.
Proof.
  intros Hl. unfold padded. rewrite resize_ge by done. destruct (decide (i < length l)%nat).
  - by rewrite lookup_app_l.
  - rewrite lookup_app_r by lia. destruct (decide _).
    + by apply lookup_replicate_2; lia.
    + apply lookup_ge_None_2. rewrite length_replicate. lia.
Qed.

Lemma length_padded l : length (padded l) = Z.to_nat PAGESIZE.
Proof. apply length_resize. Qed.

(** Writing a page back brings its slice of the file up to date and spoils no other. *)
Lemma write_back_slices k B l :
  0 <= k → (length B <= length l)%nat → slice k l ≠ [] →
  let B' := written (k * PAGESIZE) (slice k l) B in
  (length B' <= length l)%nat ∧ slice k B' = slice k l ∧
  ∀ j, 0 <= j → slice j B = slice j l → slice j B' = slice j l.
Proof.
  intros Hk HB Hne B'. pose proof (length_slice k l) as Hls.
  assert (length (slice k l) ≠ 0%nat) as H0 by (by intros ?%length_zero_iff_nil).
  assert (0 <= k * PAGESIZE) as Hkp by (unfold PAGESIZE; lia).
  assert (length B' <= length l)%nat as HB' by (unfold B'; rewrite length_written; lia).
  assert (∀ i, (Z.to_nat (k * PAGESIZE) <= i < Z.to_nat (k * PAGESIZE) + length (slice k l))%nat →
    B' !! i = l !! i) as Hin.
  { intros i Hi. unfold B'. rewrite written_lookup, decide_True, slice_lookup by done.
    rewrite decide_True by lia. f_equal. lia. }
  split; [done|]. split.
  - apply list_eq. intros i. rewrite !slice_lookup. destruct (decide _) as [Hi|]; [|done].
    destruct (decide (i < length (slice k l))%nat); [by apply Hin; lia|].
    rewrite !lookup_ge_None_2 by lia. done.
  - intros j Hj Hs. apply list_eq. intros i. rewrite !slice_lookup.
    destruct (decide _) as [Hi|]; [|done].
    apply (f_equal (λ x, x !! i)) in Hs. rewrite !slice_lookup, !decide_True in Hs by done.
    set (a := (Z.to_nat (j * PAGESIZE) + i)%nat) in *.
    destruct (decide (Z.to_nat (k * PAGESIZE) <= a < Z.to_nat (k * PAGESIZE) + length (slice k l))%nat)
      as [Ha|Ha]; [by apply Hin|].
    unfold B'. rewrite written_lookup, decide_False by done. rewrite Hs.
    destruct (decide (a < length B)%nat) as [Hb|Hb]; [done|].
    rewrite (lookup_ge_None_2 B) in Hs by lia. rewrite <- Hs.
    apply eq_sym, lookup_ge_None in Hs. rewrite decide_False by lia. done.
Qed.

(** Writing part of a page changes that page only, as the copy into its frame does;
    the page may begin at the end of the file but not after it. *)
Lemma write_slices k i bytes l :
  0 <= k → 0 <= i → k * PAGESIZE <= Z.of_nat (length l) → bytes ≠ [] →
  i + Z.of_nat (length bytes) <= PAGESIZE →
  let l' := written (k * PAGESIZE + i) bytes l in
  padded (slice k l') = TmpFs.copy_in i bytes (padded (slice k l)) ∧
  Z.of_nat (length (slice k l')) = Z.max (Z.of_nat (length (slice k l))) (i + Z.of_nat (length bytes)) ∧
  ∀ j, 0 <= j → j ≠ k → slice j l' = slice j l.
Proof.
  intros Hk Hi Hl Hne Hfit l'.
  assert (length bytes ≠ 0%nat) as H0 by (by intros ?%length_zero_iff_nil).
  assert (0 <= k * PAGESIZE) as Hkp by (unfold PAGESIZE; lia).
  pose proof (length_slice k l) as Hls. pose proof (length_slice k l') as Hls'.
  assert (length l' = (length l `max` (Z.to_nat (k * PAGESIZE + i) + length bytes))%nat) as Hll
    by (apply length_written; lia).
  set (b := Z.to_nat (k * PAGESIZE)) in *.
  assert (Z.to_nat (k * PAGESIZE + i) = (b + Z.to_nat i)%nat) as Hbi by lia.
  split_and!.
  - apply list_eq. intros a. rewrite <- (Z2Nat.id i) by done.
    rewrite TmpFsSpec.copy_in_lookup by (rewrite length_padded; lia).
    rewrite !padded_lookup by lia. rewrite !slice_lookup. fold b.
    destruct (decide (a < Z.to_nat PAGESIZE)%nat) as [Ha|Ha].
    2: { rewrite !(decide_False (P := (a < length (slice k _))%nat)) by lia.
         by rewrite decide_False by lia. }
    pose proof (written_lookup (k * PAGESIZE + i) bytes l (b + a) ltac:(lia)) as Hat.
    fold l' in Hat. rewrite Hat, Hbi.
    destruct (decide (Z.to_nat i <= a < Z.to_nat i + length bytes)%nat) as [Hin|Hout].
    + rewrite decide_True by lia. rewrite decide_True by lia. f_equal. lia.
    + rewrite (decide_False (P := (b + Z.to_nat i <= b + a < _)%nat)) by lia.
      destruct (decide (a < length (slice k l))%nat) as [Hs|Hs].
      * rewrite (decide_True (P := (a < length (slice k l'))%nat)) by lia.
        by rewrite decide_True by lia.
      * destruct (decide (a < length (slice k l'))%nat); [|done].
        rewrite decide_False by lia. by rewrite decide_True by lia.
  - unfold PAGESIZE in *. lia.
  - intros j Hj Hjk. apply list_eq. intros a. rewrite !slice_lookup.
    destruct (decide _) as [Ha|]; [|done]. unfold l'. rewrite written_lookup by lia. rewrite Hbi.
    assert (Z.to_nat (j * PAGESIZE) + Z.to_nat PAGESIZE <= b ∨
      b + Z.to_nat PAGESIZE <= Z.to_nat (j * PAGESIZE))%nat as Hjb by (unfold PAGESIZE in *; lia).
    rewrite decide_False by lia. destruct (decide _); [done|].
    rewrite (lookup_ge_None_2 l) by lia. by rewrite decide_False by lia.
Qed.

(** Part of a cached page is part of the sequence. *)
Lemma read_slice k i c l :
  0 <= k → 0 <= i → 0 <= c → i + c <= Z.of_nat (length (slice k l)) →
  take (Z.to_nat c) (drop (Z.to_nat i) (padded (slice k l))) =
  take (Z.to_nat c) (drop (Z.to_nat (k * PAGESIZE + i)) l).
Proof.
  intros Hk Hi Hc Hl. pose proof (length_slice k l) as Hls. apply list_eq. intros a.
  destruct (decide (a < Z.to_nat c)%nat); [|by rewrite !lookup_take_ge by lia].
  rewrite !lookup_take_lt, !lookup_drop by lia. rewrite padded_lookup by lia.
  rewrite decide_True, slice_lookup, decide_True by lia.
  f_equal. unfold PAGESIZE in *. lia.
Qed.

End Slices.

(** ** The invariant *)

Module CacheInv.
Import Slices.

(** The bytes of the file of each node, and the files that no node is of. *)
Record contents := mkContents { bytes_of :> Z → list Z; closed : Z → option (list Z) }.

Section inv.
Context {G F : Type} {UI : Type → Type} `{!PageFrames G} `{!IFile F} `{!FileLaws F} `{!UMap Z UI}.
Implicit Types (s : vfs (G := G) (F := F) (UI := UI)) (p q : pkey) (x : CachedFilePage)
  (C : contents).

(** An offset is below [2^63], so a page is below [2^51]. *)
Definition page_ok (v k : Z) x : Prop :=
  evicting x = false ∧ invalidating x = false ∧ owner x = Some v ∧ page_index x = k ∧
  0 <= k < 2 ^ 51 ∧ frame_ok (paddr x).

(** [c] more calls to the page-frame allocator fit. *)
Record base (c : nat) s (la li : list pkey) : Prop := {
  b_tables : tables s;
  b_lists : lists s la li;
  b_in p x : find_page s p = Some x → p ∈ la ++ li;
  b_page v k x : find_page s (v, k) = Some x → page_ok v k x;
  b_count : counters s cached_pages = Z.of_nat (length (la ++ li));
  b_max : Z.of_nat (length (la ++ li)) <= kMaxPageCachePages;
  b_inj p q x y : find_page s p = Some x → find_page s q = Some y → paddr x = paddr y → p = q;
  b_frames : ∃ own, pf_inv own c (frames s) ∧
    ∀ p x, find_page s p = Some x → 0 < own (paddr x / PAGESIZE);
}.

(** The file [B] and the cached pages of [v] show the bytes [l]. *)
Record coh s (v : Z) (n : VINode (UI := UI)) (B l : list Z) : Prop := {
  co_len : (length B <= length l)%nat;
  co_max : Z.of_nat (length l) <= fl_max;
  co_page k x : find_page s (v, k) = Some x →
    ram s !! paddr x = Some (padded (slice k l)) ∧ valid x = Z.of_nat (length (slice k l)) ∧
    (dirty x = true → slice k l ≠ []);
  co_clean k : 0 <= k → (∀ x, find_page s (v, k) = Some x → dirty x = false) →
    slice k B = slice k l;
  co_size k x : cached_file_size_valid n = false → find_page s (v, k) = Some x → dirty x = false;
}.

Record coherent C s : Prop := {
  ch_inv : fl_inv (files s);
  ch_file v n f : vnodes s !! v = Some n → v_file n = Some f →
    ∃ B, fl_content (files s) f = Some B ∧ coh s v n B (C v);
  ch_none v n k : vnodes s !! v = Some n → v_file n = None → find_page s (v, k) = None;
  ch_inj v1 v2 n1 n2 f : vnodes s !! v1 = Some n1 → vnodes s !! v2 = Some n2 →
    v_file n1 = Some f → v_file n2 = Some f → v1 = v2;
  ch_rest f : (∀ v n, vnodes s !! v = Some n → v_file n ≠ Some f) →
    fl_content (files s) f = closed C f;
}.

(** The size a node remembers is that of its file. *)
Definition sized C s (v : Z) : Prop :=
  ∀ n, vnodes s !! v = Some n → cached_file_size_valid n = true →
  cached_file_size n = Z.of_nat (length (C v)).

(** *** What the invariant depends on *)

Definition fields (n : VINode (UI := UI)) := (v_file n, cached_file_size n, cached_file_size_valid n).

Definition same_nodes s s' : Prop := ∀ v, fields <$> vnodes s' !! v = fields <$> vnodes s !! v.

Lemma same_nodes_refl s : same_nodes s s.
Proof. done. Qed.
Lemma same_nodes_trans s1 s2 s3 : same_nodes s1 s2 → same_nodes s2 s3 → same_nodes s1 s3.
Proof. intros H1 H2 v. by rewrite H2. Qed.

Lemma same_nodes_lookup s s' v n :
  same_nodes s s' → vnodes s !! v = Some n →
  ∃ n', vnodes s' !! v = Some n' ∧ v_file n' = v_file n ∧ cached_file_size n' = cached_file_size n ∧
    cached_file_size_valid n' = cached_file_size_valid n.
Proof.
  intros Hs Hn. specialize (Hs v). rewrite Hn in Hs. cbn in Hs.
  apply fmap_Some in Hs as (n' & Hn' & He). exists n'. unfold fields in He. naive_solver.
Qed.

Lemma same_nodes_sym s s' : same_nodes s s' → same_nodes s' s.
Proof. intros H v. by rewrite H. Qed.

(** What storing a page leaves alone. *)
Lemma put_page_same s p x :
  same_nodes s (put_page p x s) ∧ frames (put_page p x s) = frames s ∧
  ram (put_page p x s) = ram s ∧ files (put_page p x s) = files s.
Proof.
  unfold put_page. destruct (vnodes s !! p.1) as [n|] eqn:Hn; [|done]. split_and!; [|done..].
  intros w. cbn. destruct (decide (w = p.1)) as [->|].
  - by rewrite lookup_insert_eq, Hn.
  - by rewrite lookup_insert_ne.
Qed.

Lemma sized_same C s s' v : same_nodes s s' → sized C s v → sized C s' v.
Proof.
  intros Hs Hz n' Hn' Hv. destruct (same_nodes_lookup s' s v n') as (n & Hn & _ & He & Hv');
    [by apply same_nodes_sym|done|]. rewrite <- He. apply Hz; congruence.
Qed.

(** What [coherent] depends on. *)
Definition vcore x := (paddr x, valid x, dirty x).

Record same_view s s' : Prop := {
  sv_core p : vcore <$> find_page s' p = vcore <$> find_page s p;
  sv_nodes : same_nodes s s';
  sv_ram : ram s' = ram s;
  sv_files : files s' = files s;
}.

Lemma core_fields x' x :
  core x' = core x →
  paddr x' = paddr x ∧ valid x' = valid x ∧ dirty x' = dirty x ∧ evicting x' = evicting x ∧
  invalidating x' = invalidating x ∧ owner x' = owner x ∧ page_index x' = page_index x.
Proof. unfold core. naive_solver. Qed.

Lemma option_core {A} (f : CachedFilePage → A) s s' p x' :
  f <$> find_page s' p = f <$> find_page s p → find_page s' p = Some x' →
  ∃ x, find_page s p = Some x ∧ f x' = f x.
Proof.
  intros Hc Hx. rewrite Hx in Hc. symmetry in Hc.
  apply fmap_Some in Hc as (x & Hx' & Hc). by exists x.
Qed.

Lemma core_back s s' p x' :
  (∀ p, core <$> find_page s' p = core <$> find_page s p) → find_page s' p = Some x' →
  ∃ x, find_page s p = Some x ∧ core x' = core x.
Proof. intros Hc. by apply option_core. Qed.

Lemma relinked_view s s' : relinked s s' → same_view s s'.
Proof.
  intros [Hc ? ? ? ? ? ?]. split; try done. intros p. specialize (Hc p).
  destruct (find_page s' p) as [x'|], (find_page s p) as [x|]; try done. cbn in *.
  unfold vcore. by injection Hc as -> -> -> _ _ _ _.
Qed.

Lemma same_view_trans s1 s2 s3 : same_view s1 s2 → same_view s2 s3 → same_view s1 s3.
Proof.
  intros [H1 H2 H3 H4] [J1 J2 J3 J4]. split; [|by eapply same_nodes_trans|congruence..].
  intros p. by rewrite J1.
Qed.

(** A node of one file stays coherent when its pages, its file and its fields do. *)
Lemma coh_view s s' v n n' B l :
  coh s v n B l → (∀ k, vcore <$> find_page s' (v, k) = vcore <$> find_page s (v, k)) →
  (∀ k x, find_page s (v, k) = Some x → ram s' !! paddr x = ram s !! paddr x) →
  cached_file_size_valid n' = cached_file_size_valid n → coh s' v n' B l.
Proof.
  intros [H1 H2 H3 H4 H5] Hc Hr Hv. split; [done..| | |].
  - intros k x' Hx'. destruct (option_core vcore s s' _ _ (Hc k) Hx') as (x & Hx & Hcx).
    injection Hcx as -> -> ->. rewrite (Hr k x Hx). by apply H3.
  - intros k Hk Hcl. apply H4; [done|]. intros x Hx.
    destruct (option_core vcore s' s (v, k) x) as (x' & Hx' & Hcx); [done|done|].
    injection Hcx as _ _ ->. by apply Hcl.
  - intros k x' Hs Hx'. destruct (option_core vcore s s' _ _ (Hc k) Hx') as (x & Hx & Hcx).
    injection Hcx as _ _ ->. eapply H5; [congruence|done].
Qed.

(** The nodes and the files stay as they are; the pages and the bytes may change. *)
Lemma coherent_step C C' s s' :
  coherent C s → same_nodes s s' → files s' = files s → closed C' = closed C →
  (∀ v n k, vnodes s !! v = Some n → v_file n = None → find_page s' (v, k) = None) →
  (∀ v n n' f B, vnodes s !! v = Some n → v_file n = Some f → fl_content (files s) f = Some B →
    cached_file_size_valid n' = cached_file_size_valid n → coh s v n B (C v) → coh s' v n' B (C' v)) →
  coherent C' s'.
Proof.
  intros [Hinv Hfile Hnone Hinj Hrest] Hn Hf HC Hno Hcoh.
  assert (same_nodes s' s) as Hn' by by apply same_nodes_sym.
  split; [by rewrite Hf| | | |].
  - intros v n' f Hv Hvf. destruct (same_nodes_lookup s' s v n' Hn' Hv) as (n & Hv0 & Hf0 & _ & Hsv).
    assert (v_file n = Some f) as Hvf0 by congruence.
    destruct (Hfile v n f) as (B & HB & Hc); [done..|]. exists B. rewrite Hf. split; [done|].
    by apply (Hcoh v n n' f B).
  - intros v n' k Hv Hvf. destruct (same_nodes_lookup s' s v n' Hn' Hv) as (n & Hv0 & Hf0 & _).
    apply (Hno v n k); congruence.
  - intros v1 v2 n1 n2 f H1 H2 Hf1 Hf2.
    destruct (same_nodes_lookup s' s v1 n1 Hn' H1) as (m1 & Hm1 & ? & _).
    destruct (same_nodes_lookup s' s v2 n2 Hn' H2) as (m2 & Hm2 & ? & _).
    apply (Hinj v1 v2 m1 m2 f); congruence.
  - intros f Hno'. rewrite Hf, HC. apply Hrest. intros v n Hv.
    destruct (same_nodes_lookup s s' v n Hn Hv) as (n' & Hv' & <- & _). by eapply Hno'.
Qed.

Lemma coherent_view C s s' : coherent C s → same_view s s' → coherent C s'.
Proof.
  intros Hc [Hco Hn Hr Hf]. eapply coherent_step; [done..| |].
  - intros v n k Hv Hvf. specialize (Hco (v, k)). rewrite (ch_none C s Hc v n k Hv Hvf) in Hco.
    by apply fmap_None in Hco.
  - intros v n n' f B Hv Hvf HB Hsv Hcoh. eapply coh_view; [done|done| |done]. intros k x _. by rewrite Hr.
Qed.

Lemma base_core c s s' la li la' li' :
  base c s la li → (∀ p, core <$> find_page s' p = core <$> find_page s p) → tables s' →
  lists s' la' li' → la' ++ li' ≡ₚ la ++ li → frames s' = frames s →
  counters s' cached_pages = counters s cached_pages → base c s' la' li'.
Proof.
  intros [Ht Hl Hin Hp Hn Hm Hinj Hfr] Hc Ht' Hl' Hperm Hf Hcnt.
  split; [done|done| | | | | |].
  - intros p x' Hx'. destruct (core_back s s' _ _ Hc Hx') as (x & Hx & _).
    rewrite Hperm. by eapply Hin.
  - intros v k x' Hx'. destruct (core_back s s' _ _ Hc Hx') as (x & Hx & Hcx).
    destruct (core_fields _ _ Hcx) as (E1 & _ & _ & E2 & E3 & E4 & E5).
    unfold page_ok. rewrite E1, E2, E3, E4, E5. by apply Hp.
  - by rewrite Hperm, Hcnt.
  - by rewrite Hperm.
  - intros p q x' y' Hx' Hy' He. destruct (core_back s s' _ _ Hc Hx') as (x & Hx & Hcx).
    destruct (core_back s s' _ _ Hc Hy') as (y & Hy & Hcy).
    destruct (core_fields _ _ Hcx) as (E1 & _). destruct (core_fields _ _ Hcy) as (E2 & _).
    eapply Hinj; [done|done|congruence].
  - destruct Hfr as (own & Hown & Hpos). exists own. rewrite Hf. split; [done|].
    intros p x' Hx'. destruct (core_back s s' _ _ Hc Hx') as (x & Hx & Hcx).
    destruct (core_fields _ _ Hcx) as (-> & _). by eapply Hpos.
Qed.

Lemma base_relinked c s s' la li la' li' :
  base c s la li → relinked s s' → lists s' la' li' → la' ++ li' ≡ₚ la ++ li → base c s' la' li'.
Proof.
  intros Hb Hr Hl Hp. eapply base_core; [done|apply Hr|apply Hr|done|done|apply Hr|].
  by apply Hr.
Qed.

Lemma base_less c s la li : base (S c) s la li → base c s la li.
Proof.
  intros [? ? ? ? ? ? ? (own & Hown & ?)]. split; try done. exists own. split; [|done].
  by apply pf_less.
Qed.

Lemma base_counter c s la li i f : i ≠ cached_pages → base c s la li → base c (set_counter i f s) la li.
Proof.
  intros Hi Hb. pose proof (b_lists _ _ _ _ Hb) as [Ha Hi'].
  eapply base_core; [exact Hb|done|apply Hb|by split|done|done|].
  cbn. by rewrite decide_False.
Qed.

Lemma view_counter s i f : same_view s (set_counter i f s).
Proof. by split. Qed.

Lemma list_of_active s la li p x :
  lists s la li → find_page s p = Some x → p ∈ la ++ li → p ∈ list_of (active x) la li.
Proof.
  intros Hl Hx Hin.
  assert (∀ b, p ∈ list_of b la li → p ∈ list_of (active x) la li) as Hb.
  { intros b Hp. destruct (lists_active s la li b p Hl Hp) as (y & Hy & Ha).
    rewrite Hx in Hy. injection Hy as <-. by rewrite Ha. }
  apply elem_of_app in Hin as [Hp|Hp]; [by apply (Hb true)|by apply (Hb false)].
Qed.

Lemma in_list c s la li p x :
  base c s la li → find_page s p = Some x → p ∈ list_of (active x) la li.
Proof. intros Hb Hx. eapply list_of_active; [apply Hb|done|by eapply (b_in _ _ _ _ Hb)]. Qed.

End inv.
End CacheInv.
