(* ===== verification/PageCacheSpec.v ===== *)
(** * The page cache is transparent: the operations

    Every operation of the page cache keeps its invariant; reads, writes and truncation
    act as on a sequence of bytes, and write-back and eviction do not show. *)

From S2P Require Import Prelude ErrCode Addr Buddy Gfp Memory MemFrames HashMap TmpFs PageCache.
From S2P Require Import PageCacheInv.
Import Memory(PageFrames, pf_get, pf_put, pf_inv, pf_get_law, pf_put_law, pf_less, pf_ext,
  frame_ok, fo_pos, fo_align, fo_limit).
Import PageCache LruFacts Slices CacheInv.

#[local] Open Scope Z_scope.

Module CacheSpec.

Section ops.
Context {G F : Type} {UI : Type → Type} `{!PageFrames G} `{!IFile F} `{!FileLaws F} `{!UMap Z UI}.
Implicit Types (s : vfs (G := G) (F := F) (UI := UI)) (p q : pkey) (x : CachedFilePage)
  (C : contents).

(** ** One page leaves the cache *)

Lemma frame_pages x y :
  frame_ok (paddr x) → frame_ok (paddr y) →
  paddr x / PAGESIZE = paddr y / PAGESIZE → paddr x = paddr y.
Proof.
  intros [_ [a Ha] _] [_ [b Hb] _]. rewrite Ha, Hb, !Z.div_mul by (unfold PAGESIZE; lia). lia.
Qed.

Lemma base_drop c s s' la li la' li' p x :
  base (S c) s la li → find_page s p = Some x →
  (∀ q, core <$> find_page s' q = if decide (q = p) then None else core <$> find_page s q) →
  tables s' → lists s' la' li' → p :: la' ++ li' ≡ₚ la ++ li →
  counters s' cached_pages = counters s cached_pages - 1 →
  (∀ own, pf_inv own (S c) (frames s) → 0 < own (paddr x / PAGESIZE) →
    pf_inv (Memory.bump (-1) (paddr x) 1 own) c (frames s')) →
  base c s' la' li'.
Proof.
  intros [Ht Hl Hin Hpg Hn Hm Hinj (own & Hown & Hpos)] Hx Hc Ht' Hl' Hperm Hcnt Hfr.
  assert (∀ q y', find_page s' q = Some y' → q ≠ p ∧ ∃ y, find_page s q = Some y ∧ core y' = core y)
    as Hback.
  { intros q y' Hy'. specialize (Hc q). destruct (decide (q = p)).
    - by rewrite Hy' in Hc.
    - split; [done|]. by apply (option_core core s s' q). }
  pose proof (Permutation_length Hperm) as Hlen. cbn in Hlen.
  split; [done|done| | | | | |].
  - intros q y' Hy'. destruct (Hback q y' Hy') as (Hqp & y & Hy & _).
    pose proof (Hin q y Hy) as Hq. rewrite <- Hperm in Hq. set_solver.
  - intros v k y' Hy'. destruct (Hback _ y' Hy') as (_ & y & Hy & Hcy).
    destruct (core_fields _ _ Hcy) as (E1 & _ & _ & E2 & E3 & E4 & E5).
    unfold page_ok. rewrite E1, E2, E3, E4, E5. by apply Hpg.
  - rewrite Hcnt, Hn. lia.
  - lia.
  - intros q1 q2 y1' y2' H1 H2 He. destruct (Hback _ _ H1) as (_ & y1 & Hy1 & Hc1).
    destruct (Hback _ _ H2) as (_ & y2 & Hy2 & Hc2).
    destruct (core_fields _ _ Hc1) as (E1 & _). destruct (core_fields _ _ Hc2) as (E2 & _).
    eapply Hinj; [done|done|congruence].
  - eexists. split; [apply Hfr; [done|by eapply Hpos]|]. intros q y' Hy'.
    destruct (Hback _ _ Hy') as (Hqp & y & Hy & Hcy). destruct (core_fields _ _ Hcy) as (-> & _).
    unfold Memory.bump. rewrite bool_decide_eq_false_2; [by eapply Hpos|].
    unfold Gfp.in_pages. intros Heq. apply Hqp. eapply Hinj; [done|done|].
    destruct p as [vp kp], q as [vq kq].
    destruct (Hpg _ _ _ Hx) as (_ & _ & _ & _ & _ & Hfx).
    destruct (Hpg _ _ _ Hy) as (_ & _ & _ & _ & _ & Hfy).
    apply frame_pages; [done|done|lia].
Qed.

(** The file has the bytes of page [k] of node [v]. *)
Definition synced C s (v k : Z) : Prop :=
  ∃ n f B, vnodes s !! v = Some n ∧ v_file n = Some f ∧ fl_content (files s) f = Some B ∧
    slice k B = slice k (C v).

Lemma synced_view C s s' v k :
  same_nodes s s' → files s' = files s → synced C s v k → synced C s' v k.
Proof.
  intros Hn Hf (n & f & B & Hv & Hvf & HB & Hs).
  destruct (same_nodes_lookup s s' v n Hn Hv) as (n' & Hv' & Hf' & _).
  exists n', f, B. rewrite Hf. split_and!; [done|congruence|done|done].
Qed.

Lemma coherent_drop C s s' v k :
  coherent C s → synced C s v k →
  (∀ q, vcore <$> find_page s' q = if decide (q = (v, k)) then None else vcore <$> find_page s q) →
  same_nodes s s' → ram s' = ram s → files s' = files s → coherent C s'.
Proof.
  intros Hco (n0 & f0 & B0 & Hv0 & Hvf0 & HB0 & Hsl) Hc Hn Hr Hf.
  assert (∀ q y', find_page s' q = Some y' → ∃ y, find_page s q = Some y ∧ vcore y' = vcore y) as Hback.
  { intros q y' Hy'. specialize (Hc q). destruct (decide (q = (v, k))); [by rewrite Hy' in Hc|].
    by apply (option_core vcore s s' q). }
  eapply coherent_step; [done..| |].
  - intros w n j Hw Hwf. specialize (Hc (w, j)). rewrite (ch_none C s Hco w n j Hw Hwf) in Hc.
    apply (fmap_None vcore). rewrite Hc. by destruct (decide _).
  - intros w n n' f B Hw Hwf HB Hsv [H1 H2 H3 H4 H5]. split; [done..| | |].
    + intros j y' Hy'. destruct (Hback _ _ Hy') as (y & Hy & Hcy).
      injection Hcy as -> -> ->. rewrite Hr. by apply H3.
    + intros j Hj Hcl. destruct (decide ((w, j) = (v, k))) as [[= -> ->]|Hne]; [congruence|].
      apply H4; [done|]. intros y Hy. specialize (Hc (w, j)). rewrite decide_False, Hy in Hc by done.
      apply fmap_Some in Hc as (y' & Hy' & Hcy). injection Hcy as _ _ ->. by apply Hcl.
    + intros j y' Hs Hy'. destruct (Hback _ _ Hy') as (y & Hy & Hcy).
      injection Hcy as _ _ ->. eapply H5; [congruence|done].
Qed.

(** ** Writing a page back *)

Lemma page_offset k : 0 <= k < 2 ^ 51 → to_off (mul64 k PAGESIZE) = k * PAGESIZE.
Proof.
  intros Hk. unfold mul64. rewrite wrap64_small by (unfold is_u64, W64, PAGESIZE; lia).
  unfold to_off. by rewrite (proj2 (Z.ltb_lt _ _)) by (unfold PAGESIZE; lia).
Qed.

Definition set_files (fs : F) s : vfs :=
  mkVfs (vnodes s) (active_list s) (inactive_list s) (counters s) (frames s) (ram s) fs.

Lemma with_files_run {A} s (m : M F A) r fs :
  m (files s) = Fin r fs → with_files m s = Fin r (set_files fs s).
Proof. intros Hm. unfold with_files. by rewrite Hm. Qed.

Lemma frame_run s a l : ram s !! a = Some l → frame a s = Fin (Ok l) s.
Proof. intros Ha. unfold frame, gets. by rewrite Ha. Qed.

Lemma write_page_run C s v n f k x :
  coherent C s → vnodes s !! v = Some n → v_file n = Some f → 0 <= k < 2 ^ 51 →
  find_page s (v, k) = Some x → dirty x = true →
  ∃ fs, write_page f k x s = Fin (Ok tt) (set_files fs s) ∧ coherent C (set_files fs s) ∧
    synced C (set_files fs s) v k.
Proof.
  intros [Hinv Hfile Hnone Hinj Hrest] Hv Hf Hk Hx Hd.
  destruct (Hfile v n f Hv Hf) as (B & HB & Hcoh). pose proof Hcoh as [H1 H2 H3 H4 H5].
  destruct (H3 k x Hx) as (Hram & Hval & Hne). specialize (Hne Hd).
  pose proof (length_slice k (C v)) as Hls.
  assert (length (slice k (C v)) ≠ 0%nat) as H0 by (by intros ?%length_zero_iff_nil).
  assert (take (Z.to_nat (valid x)) (padded (slice k (C v))) = slice k (C v)) as Htake.
  { rewrite Hval, Nat2Z.id. unfold padded. rewrite resize_ge by lia. by rewrite take_app_length. }
  destruct (fl_write_law (files s) f B (k * PAGESIZE) (slice k (C v))) as (fs & Hw & Hinv' & Hcont);
    [done|done|unfold PAGESIZE; lia|unfold PAGESIZE in *; lia|].
  destruct (write_back_slices k B (C v)) as (HB1 & HB2 & HB3); [lia|done|done|].
  exists fs. split_and!.
  - unfold write_page. rewrite (bind_run _ _ _ _ _ (frame_run s _ _ Hram)), page_offset by done.
    rewrite Htake.
    rewrite (bind_run _ _ _ _ _ (with_files_run s _ _ _ Hw)).
    by rewrite Hval, Z.eqb_refl.
  - split; [done| |done|done|].
    2: { intros g Hno. cbn [set_files files]. rewrite Hcont, decide_False; [by apply Hrest|].
         intros ->. by eapply Hno. }
    intros w m g Hw' Hg. cbn [set_files vnodes files] in *.
    destruct (decide (g = f)) as [->|Hgf].
    + assert (w = v) as -> by by eapply Hinj. assert (m = n) as -> by congruence.
      eexists. split; [by rewrite Hcont, decide_True|]. split; [done|done|done| |done].
      intros j Hj Hcl. apply HB3; [done|]. by apply H4.
    + destruct (Hfile w m g Hw' Hg) as (B' & HB' & [J1 J2 J3 J4 J5]).
      exists B'. by rewrite Hcont, decide_False.
  - exists n, f. eexists. cbn [set_files vnodes files]. by rewrite Hcont, decide_True.
Qed.

(** ** Eviction *)

(** Only the files and the statistics differ. *)
Record quiet s s' : Prop := {
  qt_vnodes : vnodes s' = vnodes s;
  qt_active : active_list s' = active_list s;
  qt_inactive : inactive_list s' = inactive_list s;
  qt_frames : frames s' = frames s;
  qt_ram : ram s' = ram s;
  qt_count : counters s' cached_pages = counters s cached_pages;
}.

Lemma quiet_refl s : quiet s s.
Proof. by split. Qed.
Lemma quiet_trans s1 s2 s3 : quiet s1 s2 → quiet s2 s3 → quiet s1 s3.
Proof. intros [] []. split; congruence. Qed.
Lemma quiet_counter s i f : i ≠ cached_pages → quiet s (set_counter i f s).
Proof. intros Hi. split; try done. cbn. by rewrite decide_False. Qed.
Lemma quiet_files s fs : quiet s (set_files fs s).
Proof. by split. Qed.

Lemma quiet_find s s' q : quiet s s' → find_page s' q = find_page s q.
Proof. intros Hq. unfold find_page. by rewrite (qt_vnodes _ _ Hq). Qed.

Lemma quiet_nodes s s' : quiet s s' → same_nodes s s'.
Proof. intros Hq v. by rewrite (qt_vnodes _ _ Hq). Qed.

Lemma quiet_lists s s' la li : quiet s s' → lists s la li → lists s' la li.
Proof.
  intros Hq Hl. eapply lists_other; [done| |apply Hq|apply Hq]. intros q _. by apply quiet_find.
Qed.

Lemma quiet_tables s s' : quiet s s' → tables s → tables s'.
Proof. intros Hq Ht. unfold tables. by rewrite (qt_vnodes _ _ Hq). Qed.

Lemma quiet_base c s s' la li : quiet s s' → base c s la li → base c s' la li.
Proof.
  intros Hq Hb. eapply base_core; [done| | | |done|apply Hq|apply Hq].
  - intros q. by rewrite (quiet_find s s').
  - eapply quiet_tables; [done|apply Hb].
  - eapply quiet_lists; [done|apply Hb].
Qed.

Lemma incr_run i s : incr i s = Fin (Ok tt) (set_counter i (λ n, add64 n 1) s).
Proof. done. Qed.
Lemma decr_run i s : decr i s = Fin (Ok tt) (set_counter i (λ n, if 0 <? n then n - 1 else n) s).
Proof. done. Qed.

Lemma coherent_counter C s i f : coherent C s → coherent C (set_counter i f s).
Proof. intros Hc. eapply coherent_view; [done|apply view_counter]. Qed.

Lemma vnode_run s v n : vnodes s !! v = Some n → vnode v s = Fin (Ok n) s.
Proof. intros Hn. unfold vnode, gets, mbind, M_bind. by rewrite Hn. Qed.

Lemma as_file_run s v n f : vnodes s !! v = Some n → v_file n = Some f → as_file v s = Fin (Ok f) s.
Proof.
  intros Hn Hf. unfold as_file. rewrite (bind_run _ _ _ _ _ (vnode_run s v n Hn)). by rewrite Hf.
Qed.

Lemma page_node C s v k x :
  coherent C s → find_page s (v, k) = Some x → ∃ n f, vnodes s !! v = Some n ∧ v_file n = Some f.
Proof.
  intros Hc Hx. destruct (find_page_vnode s (v, k) x Hx) as [n Hn]. cbn in Hn.
  destruct (v_file n) as [f|] eqn:Hf; [by exists n, f|].
  by rewrite (ch_none C s Hc v n k Hn Hf) in Hx.
Qed.

Lemma clean_synced C s v k x :
  coherent C s → find_page s (v, k) = Some x → 0 <= k → dirty x = false → synced C s v k.
Proof.
  intros Hc Hx Hk Hd. destruct (page_node C s v k x Hc Hx) as (n & f & Hn & Hf).
  destruct (ch_file C s Hc v n f Hn Hf) as (B & HB & Hcoh).
  exists n, f, B. split_and!; [done..|]. apply (co_clean _ _ _ _ _ Hcoh); [done|].
  intros y Hy. congruence.
Qed.

(** Changing a flag of a page that its contents do not depend on. *)
Lemma put_page_view s p x x' :
  tables s → find_page s p = Some x → vcore x' = vcore x →
  same_view s (put_page p x' s) ∧ counters (put_page p x' s) = counters s ∧
  frames (put_page p x' s) = frames s.
Proof.
  intros Ht Hx Hv. destruct (find_page_vnode s p x Hx) as [n Hn].
  destruct (put_page_same s p x') as (H1 & H2 & H3 & H4). destruct (put_rest s p x') as (_ & _ & H5).
  split_and!; [|done..]. split; [|done..]. intros q. rewrite find_put by eauto.
  destruct (decide (q = p)) as [->|]; [by rewrite Hx; cbn; rewrite Hv|done].
Qed.

(** The part of [evict_file_page] that writes the page back. *)
Lemma evict_write_run C s v k x :
  coherent C s → find_page s (v, k) = Some x → 0 <= k < 2 ^ 51 →
  ∃ s', evict_write v k x s = Fin (Ok tt) s' ∧ quiet s s' ∧ coherent C s' ∧ synced C s' v k.
Proof.
  intros Hc Hx Hk. unfold evict_write. destruct (dirty x) eqn:Hd.
  - destruct (page_node C s v k x Hc Hx) as (n & f & Hn & Hf).
    rewrite (bind_run _ _ _ _ _ (incr_run writeback_pages s)).
    set (s1 := set_counter _ _ s).
    assert (coherent C s1) as Hc1 by by apply coherent_counter.
    rewrite (bind_run _ _ _ _ _ (as_file_run s1 v n f Hn Hf)).
    destruct (write_page_run C s1 v n f k x Hc1 Hn Hf Hk Hx Hd) as (fs & Hw & Hc2 & Hsy).
    rewrite (bind_run _ _ _ _ _ Hw). do 2 rewrite (bind_run _ _ _ _ _ (decr_run _ _)).
    rewrite (bind_run _ _ _ _ _ (incr_run _ _)). eexists. split; [done|]. split_and!.
    + do 4 (eapply quiet_trans; [|by apply quiet_counter]).
      eapply quiet_trans; [|apply quiet_files]. by apply quiet_counter.
    + by repeat apply coherent_counter.
    + by eapply synced_view; [| |exact Hsy].
  - exists s. split_and!; [done|apply quiet_refl|done|]. eapply clean_synced; [done|done|lia|done].
Qed.

Definition erase_page p s : vfs :=
  match vnodes s !! p.1 with
  | Some n => set_vnodes (insert p.1 (set_file_pages (um_erase p.2) n)) s
  | None => s
  end.

Lemma erase_page_run s v k x :
  find_page s (v, k) = Some x →
  set_vnode v (set_file_pages (um_erase k)) s = Fin (Ok tt) (erase_page (v, k) s).
Proof.
  intros Hx. destruct (find_page_vnode s (v, k) x Hx) as [n Hn]. cbn in Hn.
  unfold set_vnode, erase_page. cbn [fst snd].
  rewrite (bind_run _ _ _ _ _ (vnode_run s v n Hn)). by rewrite Hn.
Qed.

Lemma erase_page_spec s p :
  tables s →
  (∀ q, find_page (erase_page p s) q = if decide (q = p) then None else find_page s q) ∧
  tables (erase_page p s) ∧ same_nodes s (erase_page p s) ∧
  active_list (erase_page p s) = active_list s ∧ inactive_list (erase_page p s) = inactive_list s ∧
  counters (erase_page p s) = counters s ∧ frames (erase_page p s) = frames s ∧
  ram (erase_page p s) = ram s ∧ files (erase_page p s) = files s.
Proof.
  intros Ht. unfold erase_page. destruct p as [v k]. cbn [fst snd].
  destruct (vnodes s !! v) as [n|] eqn:Hn.
  - pose proof (Ht v n Hn) as Hwf. split_and!; [| | |done..].
    + intros [v' k']. unfold find_page. cbn. destruct (decide (v' = v)) as [->|Hv].
      * rewrite lookup_insert_eq, Hn. cbn. rewrite !um_find_map, um_erase_map by auto using um_erase_wf.
        destruct (decide (k' = k)) as [->|Hk].
        -- rewrite lookup_delete_eq. by rewrite decide_True.
        -- rewrite lookup_delete_ne by done. rewrite decide_False; [done|congruence].
      * rewrite lookup_insert_ne by done. rewrite decide_False; [done|congruence].
    + intros w m. cbn [set_vnodes vnodes].
      intros [[<- <-]|[_ Hw]]%lookup_insert_Some; [by apply um_erase_wf|by eapply Ht].
    + intros w. cbn. destruct (decide (w = v)) as [->|].
      * by rewrite lookup_insert_eq, Hn.
      * by rewrite lookup_insert_ne.
  - split_and!; [|done..]. intros [v' k']. destruct (decide _) as [[= -> ->]|]; [|done].
    unfold find_page. cbn. by rewrite Hn.
Qed.

Definition set_frames (g : G) s : vfs :=
  mkVfs (vnodes s) (active_list s) (inactive_list s) (counters s) g (ram s) (files s).

Lemma with_frames_run {A} s (m : M G A) r g :
  m (frames s) = Fin r g → with_frames m s = Fin r (set_frames g s).
Proof. intros Hm. unfold with_frames. by rewrite Hm. Qed.

Lemma put_frame_run c s la li p x :
  base (S c) s la li → find_page s p = Some x →
  ∃ g, pf_put (paddr x) 1 (frames s) = Fin (Ok tt) g ∧
    ∃ own, pf_inv own (S c) (frames s) ∧ (∀ q y, find_page s q = Some y → 0 < own (paddr y / PAGESIZE)) ∧
      pf_inv (Memory.bump (-1) (paddr x) 1 own) c g.
Proof.
  intros Hb Hx. destruct (b_frames _ _ _ _ Hb) as (own & Hown & Hpos).
  destruct p as [v k]. destruct (b_page _ _ _ _ Hb v k x Hx) as (_ & _ & _ & _ & _ & Hfr).
  destruct (pf_put_law own c (frames s) (paddr x) Hown Hfr) as (g & Hg & Hinv); [by eapply Hpos|].
  exists g. split; [done|]. by exists own.
Qed.

(** The counters and the frame after a page left. *)
Lemma base_leave c s s' la li la' li' p x g :
  base (S c) s la li → find_page s p = Some x →
  (∀ q, core <$> find_page s' q = if decide (q = p) then None else core <$> find_page s q) →
  tables s' → lists s' la' li' → p :: la' ++ li' ≡ₚ la ++ li →
  counters s' cached_pages = counters s cached_pages - 1 →
  pf_put (paddr x) 1 (frames s) = Fin (Ok tt) g → base c (set_frames g s') la' li'.
Proof.
  intros Hb Hx Hc Ht Hl Hp Hcnt Hg.
  eapply base_drop; [exact Hb|exact Hx|exact Hc|exact Ht| |exact Hp|exact Hcnt|].
  - eapply lists_other; [exact Hl|done..].
  - intros own Hown Hpos. destruct p as [v k].
    destruct (b_page _ _ _ _ Hb v k x Hx) as (_ & _ & _ & _ & _ & Hfr).
    destruct (pf_put_law own c (frames s) (paddr x) Hown Hfr Hpos) as (g' & Hg' & Hinv).
    rewrite Hg in Hg'. injection Hg' as <-. done.
Qed.

Lemma victim_page c s la p li :
  base c s la (p :: li) → ∃ x, find_page s p = Some x ∧ active x = false ∧ page_ok p.1 p.2 x.
Proof.
  intros Hb. destruct (lists_active s la (p :: li) false p (b_lists _ _ _ _ Hb)) as (x & Hx & Ha);
    [cbn; set_solver|].
  exists x. split_and!; [done..|]. destruct p as [v k]. by apply (b_page _ _ _ _ Hb).
Qed.

Lemma erase_lists s la li p :
  tables s → lists s la li → (p ∉ la ++ li) → lists (erase_page p s) la li.
Proof.
  intros Ht Hl Hp. destruct (erase_page_spec s p Ht) as (Hf & _ & _ & Ha & Hi & _).
  eapply lists_other; [done| |done|done]. intros q Hq. rewrite Hf.
  rewrite decide_False; [done|]. by intros ->.
Qed.

Lemma evict_forget_run c C s s1 la li la' li' v k x x1 :
  base (S c) s la li → find_page s (v, k) = Some x →
  tables s1 → lists s1 la' li' → (v, k) :: la' ++ li' ≡ₚ la ++ li →
  find_page s1 (v, k) = Some x1 → paddr x1 = paddr x →
  (∀ q, q ≠ (v, k) → core <$> find_page s1 q = core <$> find_page s q) →
  frames s1 = frames s → counters s1 cached_pages = counters s cached_pages →
  coherent C s1 → synced C s1 v k →
  ∃ s', evict_forget (v, k) v k x1 s1 = Fin (Ok tt) s' ∧ base c s' la' li' ∧ coherent C s' ∧
    same_nodes s1 s' ∧ ∀ q, find_page s' q = if decide (q = (v, k)) then None else find_page s1 q.
Proof.
  intros Hb Hx Ht Hl Hperm Hx1 Hpa Hcore Hfr Hcnt Hc Hsy.
  destruct (put_frame_run c s la li (v, k) x Hb Hx) as (g & Hg & _).
  set (i := if active x1 then active_file_pages else inactive_file_pages).
  set (s2 := set_counter page_cache_pages (λ n, if 0 <? n then n - 1 else n)
    (set_counter i (λ n, if 0 <? n then n - 1 else n) s1)).
  assert (quiet s1 s2) as Hq.
  { eapply quiet_trans; [|by apply quiet_counter]. apply quiet_counter. unfold i. by destruct (active x1). }
  assert (tables s2) as Ht2 by (by eapply quiet_tables).
  destruct (erase_page_spec s2 (v, k) Ht2) as (Hf3 & Ht3 & Hn3 & _ & _ & Hc3 & Hfr3 & Hra3 & Hfi3).
  set (s3 := erase_page (v, k) s2) in *.
  set (s4 := set_counter evictions (λ n, add64 n 1) (set_counter cached_pages (λ n, sub64 n 1) s3)).
  assert ((v, k) ∉ la' ++ li') as Hout.
  { pose proof (lists_nodup _ _ _ (b_lists _ _ _ _ Hb)) as Hnd. rewrite <- Hperm in Hnd.
    by apply NoDup_cons in Hnd as [? _]. }
  assert (find_page s2 (v, k) = Some x1) as Hx2 by (by rewrite (quiet_find s1 s2)).
  assert (pf_put (paddr x1) 1 (frames s4) = Fin (Ok tt) g) as Hg4.
  { rewrite Hpa. change (frames s4) with (frames s3). rewrite Hfr3.
    change (frames s2) with (frames s1). by rewrite Hfr. }
  exists (set_frames g s4). split_and!.
  - unfold evict_forget, gets at 1. unfold mbind at 1, M_bind at 1. rewrite Hx1.
    rewrite (bool_decide_eq_true_2 (is_Some _)), (bool_decide_eq_true_2 (_ = _)) by eauto. cbn [andb].
    rewrite (bind_run _ _ s1 tt s4); [exact (with_frames_run s4 _ _ g Hg4)|].
    do 2 rewrite (bind_run _ _ _ _ _ (decr_run _ _)). fold i s2.
    by rewrite (bind_run _ _ _ _ _ (erase_page_run s2 v k x1 Hx2)).
  - eapply (base_leave c s s4 la li la' li' (v, k) x g Hb Hx); [|exact Ht3| |done| |done].
    + intros q. change (find_page s4 q) with (find_page s3 q). rewrite Hf3.
      destruct (decide _); [done|]. by apply Hcore.
    + eapply (lists_other s3); [|done..]. apply erase_lists; [done| |done]. by eapply quiet_lists.
    + unfold s4. cbn [set_counter counters]. rewrite decide_False, decide_True by done.
      rewrite Hc3, (qt_count _ _ Hq), Hcnt. unfold sub64. rewrite wrap64_small; [done|].
      pose proof (b_count _ _ _ _ Hb) as Hn. pose proof (b_max _ _ _ _ Hb).
      pose proof (Permutation_length Hperm) as Hlen. cbn [length] in Hlen. rewrite Hn.
      unfold is_u64, W64, kMaxPageCachePages in *. lia.
  - eapply coherent_view with (s := s3); [|by split].
    eapply (coherent_drop C s2 s3 v k); [|..|done|done|done].
    + by repeat apply coherent_counter.
    + by eapply synced_view; [| |exact Hsy].
    + intros q. rewrite Hf3. by destruct (decide _).
  - eapply same_nodes_trans; [by apply quiet_nodes|]. exact Hn3.
  - intros q. change (find_page (set_frames g s4) q) with (find_page s3 q). rewrite Hf3.
    destruct (decide _); [done|]. by apply quiet_find.
Qed.

(** *** Evicting the victim *)
Lemma evict_run c C s la p li :
  base (S c) s la (p :: li) → coherent C s →
  ∃ s' la' li', evict_file_page p.1 s = Fin (Ok true) s' ∧ base c s' la' li' ∧ coherent C s' ∧
    same_nodes s s' ∧ length (la ++ p :: li) = S (length (la' ++ li')) ∧
    ∀ q, find_page s q = None → find_page s' q = None.
Proof.
  intros Hb Hc. destruct (victim_page _ _ _ _ _ Hb) as (x & Hx & Ha & Hev & Hiv & Ho & Hk & Hkr & Hfr).
  destruct p as [v k]. cbn [fst snd] in *.
  pose proof (b_tables _ _ _ _ Hb) as Ht. pose proof (b_lists _ _ _ _ Hb) as Hl.
  unfold evict_file_page. rewrite (bind_run _ _ _ _ _ (lru_victim_ready s la (v, k) li Hl)).
  rewrite (bind_run _ _ _ _ _ (page_run s (v, k) x Hx)). rewrite bool_decide_eq_true_2, Hev by done. cbn [negb orb].
  rewrite (bind_run _ _ _ _ _ (set_page_run s (v, k) x _ Hx)). rewrite Hk. cbv zeta.
  destruct (find_page_vnode s (v, k) x Hx) as [n Hn]. cbn in Hn.
  set (x1 := set_evicting true x). set (s1 := put_page (v, k) x1 s).
  assert (∀ q, find_page s1 q = if decide (q = (v, k)) then Some x1 else find_page s q) as Hf1
    by (intros q; apply find_put; eauto).
  destruct (put_page_view s (v, k) x x1 Ht Hx eq_refl) as (Hv1 & Hc1 & Hfr1). fold s1 in Hv1, Hc1, Hfr1.
  destruct (lru_remove_run s1 la ((v, k) :: li) (v, k) x1)
    as (s2 & l1 & l2 & Hr2 & Hrl2 & Hc2 & Hs2 & Hl2 & Hx2);
    [by apply put_tables|by eapply lists_put|by rewrite Hf1, decide_True|cbn; rewrite Ha; cbn; set_solver|].
  rewrite (bind_run _ _ _ _ _ Hr2). set (x2 := set_links None None x1) in *.
  rewrite (bind_run _ _ _ _ _ (page_run s2 (v, k) x2 Hx2)).
  assert (same_view s s2) as Hv2 by (eapply same_view_trans; [done|by apply relinked_view]).
  destruct (evict_write_run C s2 v k x2) as (s3 & Hr3 & Hq3 & Hcoh3 & Hsy3);
    [by eapply coherent_view|done|done|]. rewrite (bind_run _ _ _ _ _ Hr3).
  pose proof (with_list_perm (active x1) la ((v, k) :: li) (v, k) l1 l2 Hs2) as Hperm.
  destruct (with_list (active x1) (l1 ++ l2) la ((v, k) :: li)) as [la' li']. cbn [fst snd] in *.
  assert (∀ q, q ≠ (v, k) → core <$> find_page s3 q = core <$> find_page s q) as Hcore.
  { intros q Hq. rewrite (quiet_find s2 s3), (rl_core _ _ Hrl2), Hf1 by done. by rewrite decide_False. }
  destruct (evict_forget_run c C s s3 la ((v, k) :: li) la' li' v k x x2) as (s4 & Hr4 & Hb4 & Hc4 & Hn4 & Hf4);
    try done.
  { eapply quiet_tables; [done|apply Hrl2]. }
  { by eapply quiet_lists. }
  { by rewrite (quiet_find s2 s3). }
  { by rewrite (qt_frames _ _ Hq3), (rl_frames _ _ Hrl2), Hfr1. }
  { by rewrite (qt_count _ _ Hq3), Hc2, Hc1. }
  rewrite (bind_run _ _ _ _ _ Hr4). exists s4, la', li'. split_and!; [done..| | |].
  - eapply same_nodes_trans; [apply Hv2|]. by eapply same_nodes_trans; [apply quiet_nodes|].
  - by rewrite <- Hperm.
  - intros q Hq. rewrite Hf4. destruct (decide _); [done|]. apply (fmap_None core).
    rewrite Hcore by done. by rewrite Hq.
Qed.

End ops.
End CacheSpec.
