(* ===== verification/PageCacheOps.v ===== *)
(** * The page cache is transparent: pages, reads and writes

    A page that is asked for is cached with the bytes of its file ([cached_page_run]),
    and the loops over the pages of a request read and write the sequence of bytes
    ([cache_read_run], [cache_write_run]). *)

From S2P Require Import Prelude ErrCode Addr Buddy Gfp Memory HashMap TmpFs PageCache.
From S2P Require Import PageCacheInv PageCacheSpec.
Import Memory(PageFrames, pf_get, pf_put, pf_inv, pf_get_law, pf_put_law, pf_less, pf_ext,
  frame_ok, fo_pos, fo_align, fo_limit).
Import PageCache LruFacts Slices CacheInv CacheSpec.

#[local] Open Scope Z_scope.

Module CacheOps.

Section ops.
Context {G F : Type} {UI : Type → Type} `{!PageFrames G} `{!IFile F} `{!FileLaws F} `{!UMap Z UI}.
Implicit Types (s : vfs (G := G) (F := F) (UI := UI)) (p q : pkey) (x : CachedFilePage)
  (C : contents).

(** ** Room for a page *)

(** No page appears. *)
Definition fewer s s' : Prop := ∀ q, find_page s q = None → find_page s' q = None.

Lemma evict_lru_run c C s la li :
  base (S c) s la li → coherent C s → la ++ li ≠ [] →
  ∃ s' la' li', evict_lru_page s = Fin (Ok true) s' ∧ base c s' la' li' ∧ coherent C s' ∧
    same_nodes s s' ∧ length (la ++ li) = S (length (la' ++ li')) ∧ fewer s s'.
Proof.
  intros Hb Hc Hne. unfold evict_lru_page.
  destruct (lru_victim_run s la li (b_tables _ _ _ _ Hb) (b_lists _ _ _ _ Hb))
    as (r & s1 & la1 & li1 & Hr1 & Hrl & Hl1 & Hperm & Hr & Hnone).
  rewrite (bind_run _ _ _ _ _ Hr1). destruct li1 as [|p li1]; cbn in Hr; subst r; [by destruct Hne; auto|].
  pose proof (base_relinked _ _ _ _ _ _ _ Hb Hrl Hl1 Hperm) as Hb1.
  pose proof (relinked_view _ _ Hrl) as Hv1.
  destruct (victim_page _ _ _ _ _ Hb1) as (x & Hx & _ & _ & _ & Ho & _).
  rewrite (bind_run _ _ _ _ _ (page_run s1 p x Hx)), Ho.
  destruct (evict_run c C s1 la1 p li1 Hb1) as (s2 & la2 & li2 & Hr2 & Hb2 & Hc2 & Hn2 & Hlen & Hf2);
    [by eapply coherent_view|].
  exists s2, la2, li2. split_and!; [done..| | |].
  - eapply same_nodes_trans; [apply Hv1|done].
  - by rewrite <- Hperm.
  - intros q Hq. apply Hf2. by eapply relinked_none.
Qed.

Lemma capacity_run c C s la li :
  base (S c) s la li → coherent C s →
  ∃ s' la' li', ensure_page_cache_capacity s = Fin (Ok tt) s' ∧ base c s' la' li' ∧ coherent C s' ∧
    same_nodes s s' ∧ Z.of_nat (length (la' ++ li')) < kMaxPageCachePages ∧ fewer s s'.
Proof.
  intros Hb Hc. pose proof (b_count _ _ _ _ Hb) as Hn. pose proof (b_max _ _ _ _ Hb) as Hm.
  unfold ensure_page_cache_capacity, gets, mbind, M_bind. rewrite Hn.
  destruct (decide (kMaxPageCachePages <= Z.of_nat (length (la ++ li)))) as [Hfull|Hroom].
  - destruct (evict_lru_run c C s la li Hb Hc) as (s1 & la1 & li1 & Hr1 & Hb1 & Hc1 & Hn1 & Hlen & Hf).
    { intros Hnil. rewrite Hnil in Hfull. unfold kMaxPageCachePages in *. cbn in Hfull. lia. }
    assert (Z.of_nat (length (la1 ++ li1)) < kMaxPageCachePages) as Hlt by lia.
    rewrite Nat2Z.id, Hlen. cbn [capacity_loop]. unfold gets, mbind, M_bind. rewrite Hn.
    rewrite (proj2 (Z.leb_le _ _)) by done. rewrite Hr1.
    assert (∀ fuel, capacity_loop fuel s1 = Fin (Ok tt) s1) as Hend.
    { intros [|fuel]; cbn; unfold gets, mbind, M_bind; rewrite (b_count _ _ _ _ Hb1);
        by rewrite (proj2 (Z.leb_gt _ _)) by done. }
    rewrite Hend. exists s1, la1, li1. by split_and!.
  - assert (∀ fuel, capacity_loop fuel s = Fin (Ok tt) s) as Hend.
    { intros [|fuel]; cbn; unfold gets, mbind, M_bind; rewrite Hn;
        by rewrite (proj2 (Z.leb_gt _ _)) by lia. }
    rewrite Hend. exists s, la, li.
    split_and!; [done|by apply base_less|done|apply same_nodes_refl|lia|by intros q].
Qed.

(** ** One page enters the cache *)

Lemma base_add c s s' la li la' li' v k x :
  base (S c) s la li → find_page s (v, k) = None → page_ok v k x →
  (∀ q, core <$> find_page s' q = if decide (q = (v, k)) then Some (core x) else core <$> find_page s q) →
  tables s' → lists s' la' li' → la' ++ li' ≡ₚ (v, k) :: la ++ li →
  Z.of_nat (length (la ++ li)) < kMaxPageCachePages →
  counters s' cached_pages = counters s cached_pages + 1 →
  (∀ own, pf_inv own (S c) (frames s) →
    own (paddr x / PAGESIZE) = 0 ∧ pf_inv (Memory.bump 1 (paddr x) 1 own) c (frames s')) →
  base c s' la' li'.
Proof.
  intros [Ht Hl Hin Hpg Hn Hm Hinj (own & Hown & Hpos)] Hx Hok Hc Ht' Hl' Hperm Hroom Hcnt Hfr.
  destruct (Hfr own Hown) as [H0 Hown']. pose proof (Permutation_length Hperm) as Hlen. cbn in Hlen.
  assert (∀ q y', find_page s' q = Some y' →
    (q = (v, k) ∧ core y' = core x) ∨ (q ≠ (v, k) ∧ ∃ y, find_page s q = Some y ∧ core y' = core y)) as Hback.
  { intros q y' Hy'. specialize (Hc q). rewrite Hy' in Hc. cbn in Hc. destruct (decide (q = (v, k))).
    - left. split; [done|congruence].
    - right. split; [done|]. symmetry in Hc. apply fmap_Some in Hc as (y & Hy & Hcy). by exists y. }
  assert (∀ q y, find_page s q = Some y → paddr y ≠ paddr x) as Hdiff.
  { intros q y Hy He. pose proof (Hpos q y Hy) as Hp. rewrite He, H0 in Hp. lia. }
  split; [done|done| | |lia|lia| |].
  - intros q y' Hy'. rewrite Hperm. destruct (Hback q y' Hy') as [[-> _]|(_ & y & Hy & _)]; [by left|].
    right. by eapply Hin.
  - intros w j y' Hy'. destruct (Hback _ y' Hy') as [[[= -> ->] Hcy]|(_ & y & Hy & Hcy)];
      destruct (core_fields _ _ Hcy) as (E1 & _ & _ & E2 & E3 & E4 & E5);
      unfold page_ok; rewrite E1, E2, E3, E4, E5; [done|by apply Hpg].
  - intros q1 q2 y1' y2' H1 H2 He.
    destruct (Hback _ _ H1) as [[-> Hc1]|(_ & y1 & Hy1 & Hc1)],
      (Hback _ _ H2) as [[-> Hc2]|(_ & y2 & Hy2 & Hc2)];
      destruct (core_fields _ _ Hc1) as (E1 & _), (core_fields _ _ Hc2) as (E2 & _); [done| | |].
    + exfalso. apply (Hdiff _ _ Hy2). congruence.
    + exfalso. apply (Hdiff _ _ Hy1). congruence.
    + eapply Hinj; [done|done|congruence].
  - eexists. split; [exact Hown'|]. intros q y' Hy'. unfold Memory.bump, Gfp.in_pages.
    destruct (Hback _ _ Hy') as [[-> Hcy]|(_ & y & Hy & Hcy)]; destruct (core_fields _ _ Hcy) as (-> & _).
    + rewrite bool_decide_eq_true_2; lia.
    + pose proof (Hpos q y Hy). case_bool_decide; lia.
Qed.

Lemma coherent_add C s s' v n f k x :
  coherent C s → find_page s (v, k) = None → 0 <= k →
  vnodes s !! v = Some n → v_file n = Some f →
  (∀ q, vcore <$> find_page s' q = if decide (q = (v, k)) then Some (vcore x) else vcore <$> find_page s q) →
  same_nodes s s' → files s' = files s →
  dirty x = false → valid x = Z.of_nat (length (slice k (C v))) →
  ram s' !! paddr x = Some (padded (slice k (C v))) →
  (∀ q y, find_page s q = Some y → ram s' !! paddr y = ram s !! paddr y) → coherent C s'.
Proof.
  intros Hco Hx Hk Hv Hvf Hc Hn Hf Hd Hval Hram Hrest.
  assert (∀ q y', find_page s' q = Some y' →
    (q = (v, k) ∧ vcore y' = vcore x) ∨ (∃ y, find_page s q = Some y ∧ vcore y' = vcore y)) as Hback.
  { intros q y' Hy'. specialize (Hc q). rewrite Hy' in Hc. cbn in Hc.
    destruct (decide (q = (v, k))); [left; split; [done|congruence]|right].
    symmetry in Hc. apply fmap_Some in Hc as (y & Hy & Hcy). by exists y. }
  eapply coherent_step; [done..| |].
  - intros w m j Hw Hwf. specialize (Hc (w, j)). rewrite (ch_none C s Hco w m j Hw Hwf) in Hc.
    apply (fmap_None vcore). rewrite Hc, decide_False; [done|]. intros [= -> ->]. congruence.
  - intros w m n' g B Hw Hwf HB Hsv [H1 H2 H3 H4 H5]. split; [done..| | |].
    + intros j y' Hy'. destruct (Hback _ _ Hy') as [[[= -> ->] Hcy]|(y & Hy & Hcy)];
        injection Hcy as -> -> ->; [by rewrite Hd|]. rewrite (Hrest _ _ Hy). by apply H3.
    + intros j Hj Hcl. apply H4; [done|]. intros y Hy. specialize (Hc (w, j)).
      rewrite decide_False, Hy in Hc by congruence.
      apply fmap_Some in Hc as (y' & Hy' & Hcy). injection Hcy as _ _ ->. by apply Hcl.
    + intros j y' Hs Hy'. destruct (Hback _ _ Hy') as [[[= -> ->] Hcy]|(y & Hy & Hcy)];
        injection Hcy as _ _ ->; [done|]. eapply H5; [congruence|done].
Qed.

(** ** The page that is asked for *)

(** Operations fail only with an error of the page-frame allocator. *)
Definition alloc_err (e : ErrCode) : Prop := ∃ g g', pf_get (G := G) 1 g = Fin (Err e) g'.

Lemma live_page c s la li q : base c s la li → live (find_page s q) = find_page s q.
Proof.
  intros Hb. unfold live. destruct (find_page s q) as [x|] eqn:Hx; [|done]. cbn.
  destruct q as [v k]. destruct (b_page _ _ _ _ Hb v k x Hx) as (-> & _). done.
Qed.

Lemma copy_zero bytes :
  (length bytes <= Z.to_nat PAGESIZE)%nat →
  TmpFs.copy_in 0 bytes (replicate (Z.to_nat PAGESIZE) 0) = padded bytes.
Proof.
  intros Hl. apply list_eq. intros i. rewrite padded_lookup by done.
  pose proof (TmpFsSpec.copy_in_lookup 0 bytes (replicate (Z.to_nat PAGESIZE) 0) i) as Hi.
  change (Z.of_nat 0) with 0 in Hi. rewrite Hi by (rewrite length_replicate; lia).
  destruct (decide (i < length bytes)%nat).
  - rewrite decide_True by lia. f_equal. lia.
  - rewrite decide_False by lia. destruct (decide (i < Z.to_nat PAGESIZE)%nat).
    + apply lookup_replicate_2. lia.
    + apply lookup_ge_None_2. rewrite length_replicate. lia.
Qed.

Lemma set_files_same s : set_files (files s) s = s.
Proof. by destruct s. Qed.

Lemma put_new_run s v n k x :
  vnodes s !! v = Some n →
  set_vnode v (set_file_pages (um_put k x)) s = Fin (Ok tt) (put_page (v, k) x s).
Proof.
  intros Hn. unfold set_vnode, put_page. cbn [fst snd].
  rewrite (bind_run _ _ _ _ _ (vnode_run s v n Hn)). by rewrite Hn.
Qed.

(** What the file gives for a page that is not cached. *)
Lemma fetch_run C s v n f k :
  coherent C s → vnodes s !! v = Some n → v_file n = Some f → 0 <= k < 2 ^ 51 →
  find_page s (v, k) = None →
  if_read f (to_off (mul64 k PAGESIZE)) PAGESIZE (files s) = Fin (Ok (slice k (C v))) (files s).
Proof.
  intros [Hinv Hfile _ _ _] Hv Hf Hk Hx. destruct (Hfile v n f Hv Hf) as (B & HB & Hcoh).
  rewrite page_offset by done. rewrite (fl_read_law _ _ B) by (done || unfold PAGESIZE, is_u64, W64; lia).
  do 2 f_equal. apply (co_clean _ _ _ _ _ Hcoh); [lia|]. intros x Hx'. congruence.
Qed.

(** The tail of [cached_file_page]: the new page is linked. *)
Lemma cache_link_run s la li v n k x :
  tables s → lists s la li → find_page s (v, k) = None → vnodes s !! v = Some n →
  ∃ s' la' li', (_ ← set_vnode v (set_file_pages (um_put k x)); lru_push_tail (v, k) false) s =
      Fin (Ok tt) s' ∧
    lists s' la' li' ∧ la' ++ li' ≡ₚ (v, k) :: la ++ li ∧ tables s' ∧
    (∀ q, core <$> find_page s' q = if decide (q = (v, k)) then Some (core x) else core <$> find_page s q) ∧
    same_nodes s s' ∧ frames s' = frames s ∧ ram s' = ram s ∧ files s' = files s ∧
    counters s' cached_pages = counters s cached_pages.
Proof.
  intros Ht Hl Hx Hn. rewrite (bind_run _ _ _ _ _ (put_new_run s v n k x Hn)).
  set (s1 := put_page (v, k) x s).
  assert (∀ q, find_page s1 q = if decide (q = (v, k)) then Some x else find_page s q) as Hf1
    by (intros q; apply find_put; eauto).
  assert (∀ b, (v, k) ∉ list_of b la li) as Hout.
  { intros b Hin. destruct (lists_active s la li b _ Hl Hin) as (y & Hy & _). congruence. }
  pose proof (put_rest s (v, k) x) as (Ha & Hi & Hcnt).
  pose proof (put_page_same s (v, k) x) as (Hsn & Hsf & Hsr & Hsi). fold s1 in Hsn, Hsf, Hsr, Hsi.
  destruct (lru_push_tail_run s1 la li (v, k) x false) as (s2 & Hr2 & Hrl & Hl2).
  { by apply put_tables. }
  { eapply lists_other; [done| |done|done]. intros q Hq. rewrite Hf1, decide_False; [done|].
    intros ->. apply elem_of_app in Hq as [Hq|Hq]; [by apply (Hout true)|by apply (Hout false)]. }
  { by rewrite Hf1, decide_True. }
  { apply (Hout true). }
  { apply (Hout false). }
  exists s2. do 2 eexists. split_and!; [done|exact Hl2| |apply Hrl| | |..].
  - by rewrite push_list_perm.
  - intros q. rewrite (rl_core _ _ Hrl), Hf1. by destruct (decide _).
  - eapply same_nodes_trans; [exact Hsn|]. exact (rl_node _ _ Hrl).
  - by rewrite (rl_frames _ _ Hrl).
  - by rewrite (rl_ram _ _ Hrl).
  - by rewrite (rl_files _ _ Hrl).
  - rewrite (rl_count _ _ Hrl) by done. unfold s1. by rewrite Hcnt.
Qed.

Lemma seq_run {A} (a b : M (vfs (G := G) (F := F) (UI := UI)) unit) (k : M vfs A) s s' :
  (_ ← a; b) s = Fin (Ok tt) s' → (_ ← a; _ ← b; k) s = k s'.
Proof. unfold mbind, M_bind. destruct (a s) as [[]| |]; [|done..]. by intros ->. Qed.

(** The page is read into the fresh frame [a] and linked. *)
Lemma cache_fill_run c C s la li v n f k a g :
  base (S c) s la li → coherent C s → vnodes s !! v = Some n → v_file n = Some f →
  0 <= k < 2 ^ 51 → find_page s (v, k) = None →
  Z.of_nat (length (la ++ li)) < kMaxPageCachePages → pf_get 1 (frames s) = Fin (Ok a) g →
  let x := mkPage a (Z.of_nat (length (slice k (C v)))) false false false false (Some v) k None None in
  let s1 := set_counter backing_reads (λ n, add64 n 1)
    (set_ram (insert a (padded (slice k (C v)))) (set_ram (insert a (replicate (Z.to_nat PAGESIZE) 0))
      (set_frames g s))) in
  ∃ s' la' li',
    (_ ← set_vnode v (set_file_pages (um_put k x)); lru_push_tail (v, k) false) s1 = Fin (Ok tt) s' ∧
    let s'' := set_counter page_cache_pages (λ n, add64 n 1) (set_counter cached_pages (λ n, add64 n 1) s') in
    base c s'' la' li' ∧ coherent C s'' ∧ same_nodes s s'' ∧
    ∃ y, find_page s'' (v, k) = Some y ∧ core y = core x.
Proof.
  intros Hb Hc Hv Hf Hk Hx Hroom Hg x s1.
  assert (∀ own, pf_inv own (S c) (frames s) → frame_ok a ∧ own (a / PAGESIZE) = 0 ∧
    pf_inv (Memory.bump 1 a 1 own) c g) as Hget.
  { intros own Hown. destruct (pf_get_law own c (frames s) 1 Hown) as (r & g' & Hg' & Hlaw);
      [unfold PAGESIZE; lia|]. rewrite Hg in Hg'. injection Hg' as <- <-.
    destruct Hlaw as (H1 & H2 & H3 & H4 & H5). split_and!; [by split|apply H4; unfold Gfp.in_pages; lia|done]. }
  destruct (b_frames _ _ _ _ Hb) as (own & Hown & Hpos). destruct (Hget own Hown) as (Hfr & H0 & _).
  destruct (cache_link_run s1 la li v n k x) as (s' & la' & li' & Hr & Hl & Hperm & Ht & Hcore & Hn & Hfrm & Hram & Hfi & Hcnt);
    [apply Hb| |done|done|].
  { eapply lists_other; [apply Hb|done..]. }
  exists s', la', li'. split; [done|]. set (s'' := set_counter _ _ _). intros s2. subst s2.
  assert (∀ q, find_page s'' q = find_page s' q) as Hfs by done.
  split_and!.
  - eapply (base_add c s s'' la li la' li' v k x); [done|done| |exact Hcore|done| |done|done| |].
    + by unfold page_ok.
    + eapply lists_other; [done|done..].
    + unfold s''. cbn [set_counter counters]. rewrite decide_False, decide_True by done.
      rewrite Hcnt. unfold s1. cbn [set_counter set_ram set_frames counters]. rewrite decide_False by done.
      pose proof (b_count _ _ _ _ Hb) as Hbc. unfold add64. rewrite Hbc, wrap64_small; [done|].
      unfold is_u64, W64, kMaxPageCachePages in *. lia.
    + intros own' Hown'. destruct (Hget own' Hown') as (_ & ? & ?). split; [done|].
      change (frames s'') with (frames s'). by rewrite Hfrm.
  - eapply (coherent_add C s s'' v n f k x); [done|done|lia|done|done| |exact Hn|exact Hfi|done|done| |].
    + intros q. specialize (Hcore q). rewrite Hfs. change (find_page s1 q) with (find_page s q) in Hcore.
      destruct (find_page s' q) as [y'|], (decide (q = (v, k))), (find_page s q) as [y|];
        cbn in *; try done; injection Hcore; intros; unfold vcore; cbn; congruence.
    + change (ram s'') with (ram s'). rewrite Hram. apply lookup_insert_eq.
    + intros q y Hy. change (ram s'') with (ram s'). rewrite Hram. unfold s1. cbn.
      assert (paddr y ≠ a). { intros He. pose proof (Hpos q y Hy) as Hp. rewrite He, H0 in Hp. lia. }
      by rewrite !lookup_insert_ne.
  - exact Hn.
  - specialize (Hcore (v, k)). rewrite decide_True in Hcore by done.
    apply fmap_Some in Hcore as (y & Hy & He). by exists y.
Qed.

Lemma gets_run {A} (f : vfs (G := G) (F := F) (UI := UI) → A) s : gets f s = Fin (Ok (f s)) s.
Proof. done. Qed.
Lemma modify_run (f : vfs (G := G) (F := F) (UI := UI) → vfs) s : modify f s = Fin (Ok tt) (f s).
Proof. done. Qed.
Lemma attempt_run {A} (m : M (vfs (G := G) (F := F) (UI := UI)) A) s r s' :
  m s = Fin r s' → attempt m s = Fin (Ok r) s'.
Proof. intros Hm. unfold attempt. by rewrite Hm. Qed.

(** What a routine that may fetch pages leaves behind, with [Q] of its result. *)
Definition keeps {A} c C s (m : M vfs A) (Q : A → vfs → Prop) : Prop :=
  ∃ r s' la' li', m s = Fin r s' ∧ base c s' la' li' ∧ coherent C s' ∧ same_nodes s s' ∧
    match r with Ok a => Q a s' | Err e => alloc_err e end.

Lemma miss_run c C s la li v n f k :
  base (S (S c)) s la li → coherent C s → vnodes s !! v = Some n → v_file n = Some f →
  0 <= k < 2 ^ 51 → find_page s (v, k) = None →
  keeps c C s (cached_file_page v f k)
    (λ '(a, vl) s', ∃ x, find_page s' (v, k) = Some x ∧ paddr x = a ∧ valid x = vl).
Proof.
  intros Hb Hc Hv Hf Hk Hx. unfold keeps, cached_file_page. rewrite (bind_run _ _ _ _ _ (gets_run _ _)).
  rewrite (live_page _ _ _ _ _ Hb), Hx. rewrite (bind_run _ _ _ _ _ (incr_run _ _)).
  set (s1 := set_counter misses _ s).
  destruct (capacity_run (S c) C s1 la li) as (s2 & la2 & li2 & Hr2 & Hb2 & Hc2 & Hn2 & Hroom & Hfew);
    [by apply base_counter|by apply coherent_counter|].
  rewrite (bind_run _ _ _ _ _ Hr2). specialize (Hfew (v, k) Hx).
  assert (same_nodes s s2) as Hn by done.
  destruct (same_nodes_lookup s s2 v n Hn Hv) as (n2 & Hv2 & Hf2 & _). rewrite Hf in Hf2.
  destruct (b_frames _ _ _ _ Hb2) as (own & Hown & Hpos).
  destruct (pf_get_law own c (frames s2) 1 Hown) as (r & g & Hg & Hlaw); [lia|].
  pose proof (with_frames_run s2 _ _ _ Hg) as Hwf. destruct r as [a|e].
  2: { rewrite (bind_run_err _ _ _ _ _ Hwf). exists (Err e), (set_frames g s2), la2, li2.
       split_and!; [done| |by eapply coherent_view|done|by eexists _, _].
       destruct Hb2 as [H1 H2 H3 H4 H5 H6 H7 _]. split; [done| |done..|by exists own].
       by eapply lists_other. }
  rewrite (bind_run _ _ _ _ _ Hwf).
  destruct (cache_fill_run c C s2 la2 li2 v n2 f k a g Hb2 Hc2 Hv2 Hf2 Hk Hfew Hroom Hg)
    as (s' & la' & li' & Hr & Hb' & Hc' & Hn' & y & Hy & Hcy).
  destruct (core_fields _ _ Hcy) as (Hpa & Hva & _).
  rewrite (bind_run _ _ _ _ _ (modify_run _ _)). set (s4 := set_ram _ (set_frames g s2)).
  assert (with_files (if_read f (to_off (mul64 k PAGESIZE)) PAGESIZE) s4 = Fin (Ok (slice k (C v))) s4) as Hrd.
  { rewrite (with_files_run s4 _ _ _ (fetch_run C s2 v n2 f k Hc2 Hv2 Hf2 Hk Hfew)).
    change (files s2) with (files s4). by rewrite set_files_same. }
  rewrite (bind_run _ _ _ _ _ (attempt_run _ _ _ _ Hrd)).
  rewrite (bind_run _ _ _ _ _ (frame_run s4 a (replicate (Z.to_nat PAGESIZE) 0) (lookup_insert_eq _ _ _))).
  rewrite (bind_run _ _ _ _ _ (modify_run _ _)). rewrite copy_zero by (rewrite length_slice; lia).
  rewrite (bind_run _ _ _ _ _ (incr_run _ _)). set (s6 := set_counter backing_reads _ _).
  rewrite (bind_run _ _ _ _ _ (gets_run _ _)).
  change (find_page s6 (v, k)) with (find_page s2 (v, k)). rewrite Hfew. cbn [live mbind option_bind].
  rewrite (bind_run _ _ _ _ _ (gets_run _ _)).
  change (find_page s6 (v, k)) with (find_page s2 (v, k)). rewrite Hfew.
  cbn [default from_option id new_page prev next invalidating].
  rewrite (seq_run _ _ _ _ _ Hr). do 2 rewrite (bind_run _ _ _ _ _ (incr_run _ _)).
  do 4 eexists. split_and!; [done|exact Hb'|exact Hc'|by eapply same_nodes_trans|].
  by exists y.
Qed.

Lemma cached_page_run c C s la li v n f k :
  base (S (S c)) s la li → coherent C s → vnodes s !! v = Some n → v_file n = Some f →
  0 <= k < 2 ^ 51 →
  keeps c C s (cached_file_page v f k)
    (λ '(a, vl) s', ∃ x, find_page s' (v, k) = Some x ∧ paddr x = a ∧ valid x = vl).
Proof.
  intros Hb Hc Hv Hf Hk. destruct (find_page s (v, k)) as [x|] eqn:Hx; [|by eapply miss_run].
  unfold keeps, cached_file_page. rewrite (bind_run _ _ _ _ _ (gets_run _ _)).
  rewrite (live_page _ _ _ _ _ Hb), Hx.
  destruct (lru_touch_run s la li (v, k) x) as (s1 & la1 & li1 & Hr1 & Hrl & Hl1 & Hperm & _);
    [apply Hb|apply Hb|done|by eapply in_list|].
  rewrite (bind_run _ _ _ _ _ Hr1), (bind_run _ _ _ _ _ (incr_run _ _)).
  destruct (relinked_find _ _ _ _ Hrl Hx) as (y & Hy & Hcy). destruct (core_fields _ _ Hcy) as (Hpa & Hva & _).
  pose proof (relinked_view _ _ Hrl) as Hvw.
  do 2 eexists. exists la1, li1. split_and!; [done| | | |].
  - apply base_counter; [done|]. do 2 apply base_less. by eapply base_relinked.
  - apply coherent_counter. by eapply coherent_view.
  - apply Hvw.
  - by exists y.
Qed.

(** *** Sequences of such routines *)

Lemma base_le c c' s la li : (c' <= c)%nat → base c s la li → base c' s la li.
Proof. induction 1; [done|]. intros Hb. by apply IHle, base_less. Qed.

Lemma cache_keeps_bind {A B} c c' C s (m : M vfs A) (k : A → M vfs B) Q R :
  keeps c' C s m Q → (c <= c')%nat →
  (∀ a s' la' li', base c' s' la' li' → coherent C s' → same_nodes s s' → Q a s' → keeps c C s' (k a) R) →
  keeps c C s (m ≫= k) R.
Proof.
  intros (r & s1 & la & li & Hm & Hb & Hc & Hn & HQ) Hle Hk. destruct r as [a|e].
  - destruct (Hk a s1 la li Hb Hc Hn HQ) as (r & s2 & la2 & li2 & Hr & Hb2 & Hc2 & Hn2 & HR).
    exists r, s2, la2, li2. rewrite (bind_run _ _ _ _ _ Hm).
    split_and!; [done..|by eapply same_nodes_trans|done].
  - exists (Err e), s1, la, li. rewrite (bind_run_err _ _ _ _ _ Hm).
    split_and!; [done|by eapply base_le|done..].
Qed.

Lemma cache_keeps_ret {A} c C s la li (a : A) (Q : A → vfs → Prop) :
  base c s la li → coherent C s → Q a s → keeps c C s (mret a) Q.
Proof. intros. exists (Ok a), s, la, li. split_and!; [done..|apply same_nodes_refl|done]. Qed.

Lemma coherent_page C s v n f k x :
  coherent C s → vnodes s !! v = Some n → v_file n = Some f → find_page s (v, k) = Some x →
  ram s !! paddr x = Some (padded (slice k (C v))) ∧ valid x = Z.of_nat (length (slice k (C v))).
Proof.
  intros Hc Hv Hf Hx. destruct (ch_file C s Hc v n f Hv Hf) as (B & HB & Hcoh).
  destruct (co_page _ _ _ _ _ Hcoh k x Hx) as (? & ? & _). done.
Qed.

Lemma coherent_length C s v n f :
  coherent C s → vnodes s !! v = Some n → v_file n = Some f → Z.of_nat (length (C v)) < 2 ^ 62.
Proof.
  intros Hc Hv Hf. destruct (ch_file C s Hc v n f Hv Hf) as (B & HB & Hcoh).
  pose proof (co_max _ _ _ _ _ Hcoh). pose proof fl_max_range. lia.
Qed.

(** Where the offset [o] is: page [k], byte [i]. *)
Lemma page_split o :
  0 <= o < 2 ^ 63 → o = o / PAGESIZE * PAGESIZE + o mod PAGESIZE ∧
  0 <= o / PAGESIZE < 2 ^ 51 ∧ 0 <= o mod PAGESIZE < PAGESIZE.
Proof.
  intros Ho. pose proof (Z.div_mod o PAGESIZE). pose proof (Z.mod_pos_bound o PAGESIZE).
  assert (0 <= o / PAGESIZE < 2 ^ 51) by
    (split; [apply Z.div_pos; unfold PAGESIZE; lia|apply Z.div_lt_upper_bound; unfold PAGESIZE; lia]).
  unfold PAGESIZE in *. lia.
Qed.

(** ** Reading *)

(** Reading [chunk] bytes of a page: what the end of the loop and its next round rely on. *)
Lemma chunk_read l o len k i v :
  o = k * PAGESIZE + i → 0 <= k → 0 <= i < PAGESIZE → 0 < len →
  v = Z.of_nat (length (slice k l)) → i < v →
  let chunk := Z.min len (v - i) in
  let got := take (Z.to_nat chunk) (drop (Z.to_nat i) (padded (slice k l))) in
  0 < chunk ∧ got = take (Z.to_nat chunk) (drop (Z.to_nat o) l) ∧
  o + chunk <= Z.of_nat (length l) ∧
  (chunk < len → (PAGESIZE <= v ∨ i + chunk < v) → (o + chunk) mod PAGESIZE = 0 ∧ chunk = PAGESIZE - i) ∧
  (v < PAGESIZE → v <= i + chunk → got = take (Z.to_nat len) (drop (Z.to_nat o) l)).
Proof.
  intros Ho Hk Hi Hlen Hv Hiv chunk got. pose proof (length_slice k l) as Hs.
  assert (got = take (Z.to_nat chunk) (drop (Z.to_nat o) l)) as Hgot.
  { subst o. apply read_slice; lia. }
  split_and!; [lia|done|unfold PAGESIZE in *; lia| |].
  { intros Hlt Hor. assert (chunk = PAGESIZE - i) as Hch by lia. split; [|done].
    replace (o + chunk) with ((k + 1) * PAGESIZE) by lia. apply Z.mod_mul. unfold PAGESIZE. lia. }
  intros Hsh Hend. rewrite Hgot. assert (chunk = v - i) as Hch by lia.
  assert (Z.of_nat (length l) = o + chunk) as Hl by (unfold PAGESIZE in *; lia).
  rewrite !take_ge; [done|rewrite length_drop; lia|rewrite length_drop; lia].
Qed.

Lemma cache_read_loop_run fuel c C s la li v n f off len dn :
  base (2 * fuel + c) s la li → coherent C s → vnodes s !! v = Some n → v_file n = Some f →
  0 <= off < 2 ^ 63 → is_u64 len → 0 <= dn <= len → (dn = 0 ∨ off + dn <= Z.of_nat (length (C v))) →
  (dn < len → (off + dn) mod PAGESIZE + (len - dn) <= Z.of_nat fuel * PAGESIZE) →
  keeps c C s (read_loop fuel v f off len dn)
    (λ bytes _, bytes = take (Z.to_nat (len - dn)) (drop (Z.to_nat (off + dn)) (C v))).
Proof.
  revert s la li n dn. induction fuel as [|fuel IH]; intros s la li n dn Hb Hc Hv Hf Hoff Hlen Hd Hin Hfuel;
    pose proof (coherent_length C s v n f Hc Hv Hf) as Hl62; cbn [read_loop];
    (destruct (Z.ltb_spec dn len) as [Hlt|Hge];
     [specialize (Hfuel Hlt)
     |replace (len - dn) with 0 by lia; eapply cache_keeps_ret; [eapply base_le; [|done]; lia|done|done]]).
  { pose proof (Z.mod_pos_bound (off + dn) PAGESIZE). unfold PAGESIZE in *. lia. }
  unfold add64. rewrite wrap64_small by (unfold is_u64, W64 in *; lia).
  rewrite (proj2 (Z.ltb_ge _ _)) by lia. destruct (page_split (off + dn)) as (Ho & Hk & Hi); [lia|].
  set (o := off + dn) in *. set (k := o / PAGESIZE) in *. set (i := o mod PAGESIZE) in *.
  eapply (cache_keeps_bind _ (2 * fuel + c)); [eapply cached_page_run; [|done..]; eapply base_le; [|done]; lia|lia|].
  intros [a vl] s1 la1 li1 Hb1 Hc1 Hn1 (x & Hx & _ & <-).
  destruct (same_nodes_lookup s s1 v n Hn1 Hv) as (n1 & Hv1 & Hf1 & _). rewrite Hf in Hf1.
  destruct (coherent_page C s1 v n1 f k x Hc1 Hv1 Hf1 Hx) as [Hram Hval].
  destruct (Z.leb_spec (valid x) i) as [Hend|Hmore].
  { eapply cache_keeps_ret; [eapply base_le; [|done]; lia|done|].
    rewrite drop_ge; [by rewrite take_nil|]. pose proof (length_slice k (C v)). unfold PAGESIZE in *. lia. }
  assert (live (find_page s1 (v, k)) = Some x) as Hlive by (by rewrite (live_page _ _ _ _ _ Hb1)).
  unfold keeps. rewrite (bind_run _ _ _ _ _ (gets_run _ _)), Hlive.
  rewrite (bind_run _ _ _ _ _ (frame_run s1 _ _ Hram)).
  destruct (chunk_read (C v) o (len - dn) k i (valid x)) as (Hch & Hgot & Hbound & Hnext & Hlast); [lia..|].
  rewrite Hgot in Hlast |- *. set (chunk := Z.min _ _) in *.
  destruct (_ && _) eqn:Hshort.
  { apply andb_true_iff in Hshort as [?%Z.ltb_lt ?%Z.leb_le].
    eapply cache_keeps_ret; [eapply base_le; [|done]; lia|done|by apply Hlast]. }
  apply andb_false_iff in Hshort. rewrite Z.ltb_ge, Z.leb_gt in Hshort.
  eapply (cache_keeps_bind _ c); [eapply (IH s1 la1 li1 n1 (dn + chunk)); try done| |].
  - lia.
  - right. unfold o in Hbound. lia.
  - intros Hlt'. destruct Hnext as [Hm Hce]; [lia|lia|]. rewrite Z.add_assoc. fold o.
    rewrite Hm. unfold PAGESIZE in *. lia.
  - lia.
  - intros bytes s2 la2 li2 Hb2 Hc2 _ ->. eapply cache_keeps_ret; [done..|].
    replace (Z.to_nat (len - dn)) with (Z.to_nat chunk + Z.to_nat (len - (dn + chunk)))%nat by lia.
    rewrite <- take_take_drop, drop_drop. do 3 f_equal. lia.
Qed.

Lemma cache_read_run c C s la li v n f off len :
  base (2 * page_rounds len + c) s la li → coherent C s → vnodes s !! v = Some n → v_file n = Some f →
  0 <= off < 2 ^ 63 → is_u64 len →
  keeps c C s (read_cached_file v f off len)
    (λ bytes _, bytes = take (Z.to_nat len) (drop (Z.to_nat off) (C v))).
Proof.
  intros Hb Hc Hv Hf Hoff Hlen. unfold read_cached_file.
  pose proof (cache_read_loop_run (page_rounds len) c C s la li v n f off len 0) as Hr.
  rewrite Z.sub_0_r, Z.add_0_r in Hr. apply Hr; try done.
  - unfold is_u64 in Hlen. lia.
  - by left.
  - intros _. unfold page_rounds. pose proof (Z.mod_pos_bound off PAGESIZE). unfold is_u64 in Hlen.
    pose proof (Z.mul_succ_div_gt len PAGESIZE). unfold PAGESIZE in *. lia.
Qed.

(** ** Writing *)

Import TmpFsSpec(written).

(** The bytes after a write; an empty write changes nothing. *)
Definition overwrite (o : Z) (bytes l : list Z) : list Z :=
  if bool_decide (bytes = []) then l else written o bytes l.

Definition upd (v : Z) (l : list Z) C : contents :=
  mkContents (λ w, if decide (w = v) then l else C w) (closed C).

Lemma overwrite_app o b1 b2 l :
  0 <= o → overwrite (o + Z.of_nat (length b1)) b2 (overwrite o b1 l) = overwrite o (b1 ++ b2) l.
Proof.
  intros Ho. destruct b1 as [|z1 b1]; [cbn [app length Z.of_nat]; by rewrite Z.add_0_r|].
  destruct b2 as [|z2 b2]; [by rewrite app_nil_r|].
  unfold overwrite. repeat (rewrite bool_decide_eq_false_2 by done).
  set (x := z1 :: b1). set (y := z2 :: b2). apply list_eq. intros i.
  rewrite !written_lookup by lia. rewrite length_written, length_app by lia.
  replace (Z.to_nat (o + Z.of_nat (length x))) with (Z.to_nat o + length x)%nat by lia.
  set (a := Z.to_nat o).
  destruct (decide (i < a)%nat) as [H1|H1].
  { rewrite !(decide_False (P := (_ <= i < _)%nat)) by lia. rewrite (decide_True (P := (i < _ `max` _)%nat)) by lia.
    destruct (decide (i < length l)%nat); [done|]. by rewrite !decide_True by lia. }
  destruct (decide (i < a + length x)%nat) as [H2|H2].
  { rewrite decide_False by lia. rewrite decide_True by lia. rewrite decide_True by lia.
    rewrite decide_True by lia. by rewrite lookup_app_l by lia. }
  destruct (decide (i < a + length x + length y)%nat) as [H3|H3].
  { rewrite decide_True by lia. rewrite decide_True by lia. rewrite lookup_app_r by lia. f_equal. lia. }
  rewrite !(decide_False (P := (_ <= i < _)%nat)) by lia.
  destruct (decide (i < length l)%nat); [by rewrite decide_True by lia|].
  by repeat rewrite decide_False by lia.
Qed.

Lemma length_overwrite o bytes l :
  0 <= o → bytes ≠ [] →
  Z.of_nat (length (overwrite o bytes l)) = Z.max (Z.of_nat (length l)) (o + Z.of_nat (length bytes)).
Proof. intros Ho Hb. unfold overwrite. rewrite bool_decide_eq_false_2, length_written by done. lia. Qed.

Lemma coherent_ext C C' s : (∀ w, C w = C' w) → closed C = closed C' → coherent C s → coherent C' s.
Proof.
  intros He Hcl [Hi Hf Hn Hj Hr]. split; [done| |done|done|by rewrite <- Hcl]. intros v n f Hv Hvf.
  rewrite <- He. by apply Hf.
Qed.

Lemma upd_same v C w : upd v (C v) C w = C w.
Proof. cbn. by destruct (decide _) as [->|]. Qed.

(** *** One page of a write *)

Lemma base_put c s la li v k x x' :
  base c s la li → find_page s (v, k) = Some x → page_ok v k x' → paddr x' = paddr x →
  active x' = active x → prev x' = prev x → next x' = next x → base c (put_page (v, k) x' s) la li.
Proof.
  intros [Ht Hl Hin Hpg Hn Hm Hinj (own & Hown & Hpos)] Hx Hok Hpa Ha Hp Hnx.
  destruct (find_page_vnode s (v, k) x Hx) as [n Hv].
  assert (∀ q, find_page (put_page (v, k) x' s) q = if decide (q = (v, k)) then Some x' else find_page s q)
    as Hf by (intros q; apply find_put; eauto).
  assert (∀ q y, find_page (put_page (v, k) x' s) q = Some y → ∃ y0, find_page s q = Some y0 ∧ paddr y = paddr y0)
    as Hback.
  { intros q y. rewrite Hf. destruct (decide (q = (v, k))) as [->|]; [intros [= <-]; by exists x|by exists y]. }
  destruct (put_rest s (v, k) x') as (_ & _ & Hcnt).
  split; [by apply put_tables|by eapply lists_put| | |by rewrite Hcnt|done| |].
  - intros q y Hy. destruct (Hback q y Hy) as (y0 & Hy0 & _). by eapply Hin.
  - intros w j y. rewrite Hf. destruct (decide _) as [[= -> ->]|]; [by intros [= <-]|apply Hpg].
  - intros q1 q2 y1 y2 H1 H2 He. destruct (Hback _ _ H1) as (z1 & Hz1 & E1), (Hback _ _ H2) as (z2 & Hz2 & E2).
    eapply Hinj; [done|done|congruence].
  - exists own. split; [unfold put_page; cbn in *; by rewrite Hv|].
    intros q y Hy. destruct (Hback q y Hy) as (y0 & Hy0 & ->). by eapply Hpos.
Qed.

Section one_page.
Context (c : nat) C s (la li : list pkey) (v : Z) (n : VINode (UI := UI)) (f k : Z) x (i : Z) (src : list Z)
  (Hb : base c s la li) (Hc : coherent C s) (Hv : vnodes s !! v = Some n) (Hf : v_file n = Some f)
  (Hsv : cached_file_size_valid n = true) (Hx : find_page s (v, k) = Some x)
  (Hk : 0 <= k) (Hi : 0 <= i) (Hgap : k * PAGESIZE <= Z.of_nat (length (C v)))
  (Hne : src ≠ []) (Hfit : i + Z.of_nat (length src) <= PAGESIZE)
  (Hmax : k * PAGESIZE + i + Z.of_nat (length src) <= fl_max).

Let l' : list Z := written (k * PAGESIZE + i) src (C v).

Context s'
  (Hcore : ∀ q, vcore <$> find_page s' q = if decide (q = (v, k))
     then Some (paddr x, Z.max (valid x) (i + Z.of_nat (length src)), true) else vcore <$> find_page s q)
  (Hram : ram s' = <[paddr x := TmpFs.copy_in i src (padded (slice k (C v)))]> (ram s)).

Lemma other_page q y' :
  q ≠ (v, k) → find_page s' q = Some y' →
  ∃ y, find_page s q = Some y ∧ vcore y' = vcore y ∧ ram s' !! paddr y = ram s !! paddr y.
Proof.
  intros Hq Hy'. specialize (Hcore q). rewrite Hy', decide_False in Hcore by done. symmetry in Hcore.
  apply fmap_Some in Hcore as (y & Hy & Hcy). exists y. split_and!; [done..|].
  rewrite Hram, lookup_insert_ne; [done|]. intros He. apply Hq. by eapply (b_inj _ _ _ _ Hb).
Qed.

Lemma coh_write n' B :
  cached_file_size_valid n' = true → coh s v n B (C v) → coh s' v n' B l'.
Proof.
  intros Hsv' [H1 H2 H3 H4 H5].
  destruct (write_slices k i src (C v)) as (Hpad & Hlen & Hother); [done..|]. fold l' in Hpad, Hlen, Hother.
  assert (length src ≠ 0%nat) as H0 by (by intros ?%length_zero_iff_nil).
  assert (length l' = (length (C v) `max` (Z.to_nat (k * PAGESIZE + i) + length src))%nat) as Hll
    by (apply length_written; unfold PAGESIZE; lia).
  pose proof (Hcore (v, k)) as Hhere. rewrite decide_True in Hhere by done.
  apply fmap_Some in Hhere as (x' & Hx' & Hcx).
  split; [lia|unfold PAGESIZE in *; lia| | |congruence].
  - intros j y' Hy'. destruct (decide (j = k)) as [->|Hjk].
    + assert (y' = x') as -> by congruence. injection Hcx as <- <- <-. destruct (H3 k x Hx) as (_ & Hval & _).
      rewrite Hram, lookup_insert_eq, Hpad, Hlen, Hval. split_and!; [done..|].
      intros _ Hnil. rewrite Hnil in Hlen. cbn in Hlen. lia.
    + destruct (other_page (v, j) y') as (y & Hy & Hcy & Hr); [congruence|done|].
      injection Hcy as -> -> ->. rewrite Hr.
      destruct (b_page _ _ _ _ Hb v j y Hy) as (_ & _ & _ & _ & Hj & _).
      rewrite (Hother j) by lia. by apply H3.
  - intros j Hj Hcl. destruct (decide (j = k)) as [->|Hjk].
    { specialize (Hcl x' Hx'). unfold vcore in Hcx. congruence. }
    rewrite (Hother j) by done. apply H4; [done|]. intros y Hy. specialize (Hcore (v, j)).
    rewrite decide_False, Hy in Hcore by congruence.
    apply fmap_Some in Hcore as (y' & Hy' & Hcy). injection Hcy as _ _ ->. by apply Hcl.
Qed.

Lemma coherent_write : same_nodes s s' → files s' = files s → coherent (upd v l' C) s'.
Proof.
  intros Hn Hfi. eapply coherent_step; [done..| |].
  - intros w m j Hw Hwf. pose proof (Hcore (w, j)) as Hcw. rewrite (ch_none C s Hc w m j Hw Hwf) in Hcw.
    apply (fmap_None vcore). rewrite Hcw, decide_False; [done|]. intros [= -> ->]. congruence.
  - intros w m n' g B Hw Hwf HB Hs Hcoh. cbn [upd bytes_of]. destruct (decide (w = v)) as [->|Hwv].
    + assert (m = n) as -> by congruence. apply coh_write; [congruence|done].
    + eapply coh_view; [done| | |done].
      * intros j. rewrite Hcore. by rewrite decide_False by congruence.
      * intros j y Hy. rewrite Hram, lookup_insert_ne; [done|]. intros He.
        assert ((w, j) = (v, k)) by (by eapply (b_inj _ _ _ _ Hb)). congruence.
Qed.

End one_page.

(** The page with its new length and flag, before it is moved in the lists. *)
Lemma mark_written_run {A} c s la li v k x vl (m : M vfs A) :
  base c s la li → find_page s (v, k) = Some x →
  ∃ s', (_ ← set_page (v, k) (set_valid vl);
         _ ← (if dirty x then mret tt else _ ← set_page (v, k) (set_dirty true); incr dirty_pages);
         m) s = m s' ∧
    base c s' la li ∧ same_nodes s s' ∧ files s' = files s ∧ ram s' = ram s ∧
    ∀ q, find_page s' q = if decide (q = (v, k)) then Some (set_dirty true (set_valid vl x)) else find_page s q.
Proof.
  intros Hb Hx. pose proof (b_page _ _ _ _ Hb v k x Hx) as Hok.
  destruct (find_page_vnode s (v, k) x Hx) as [n Hn].
  rewrite (bind_run _ _ _ _ _ (set_page_run s (v, k) x _ Hx)).
  pose proof (put_page_same s (v, k) (set_valid vl x)) as (Hn1 & _ & Hra1 & Hfi1).
  assert (base c (put_page (v, k) (set_valid vl x) s) la li) as Hb1 by (by eapply base_put).
  pose proof (λ q, find_put s (v, k) (set_valid vl x) q (b_tables _ _ _ _ Hb) (mk_is_Some _ _ Hn)) as Hf1.
  set (s1 := put_page _ _ s) in *. destruct (dirty x) eqn:Hd.
  - exists s1. split_and!; [done..|]. intros q. rewrite Hf1. destruct (decide _); [|done].
    destruct x. cbn in Hd. by subst.
  - assert (find_page s1 (v, k) = Some (set_valid vl x)) as Hx1 by (by rewrite Hf1, decide_True).
    destruct (find_page_vnode s1 (v, k) _ Hx1) as [n1 Hv1].
    erewrite bind_run.
    2: { rewrite (bind_run _ _ _ _ _ (set_page_run s1 (v, k) _ _ Hx1)). apply incr_run. }
    pose proof (put_page_same s1 (v, k) (set_dirty true (set_valid vl x))) as (Hn2 & _ & Hra2 & Hfi2).
    assert (base c (put_page (v, k) (set_dirty true (set_valid vl x)) s1) la li) as Hb2 by (by eapply base_put).
    eexists. split; [done|]. split_and!.
    + by apply base_counter.
    + by eapply same_nodes_trans.
    + cbn. congruence.
    + cbn. congruence.
    + intros q. set (s2 := put_page _ _ s1). change (find_page s2 q = if decide (q = (v, k)) then
        Some (set_dirty true (set_valid vl x)) else find_page s q). unfold s2.
      rewrite find_put by (eauto; apply Hb1). destruct (decide _); [done|]. by rewrite Hf1, decide_False.
Qed.

Lemma write_here_run {A} c C s la li v n f k x i src (m : M vfs A) :
  base c s la li → coherent C s → vnodes s !! v = Some n → v_file n = Some f →
  cached_file_size_valid n = true → find_page s (v, k) = Some x →
  0 <= i → k * PAGESIZE <= Z.of_nat (length (C v)) → src ≠ [] →
  i + Z.of_nat (length src) <= PAGESIZE → k * PAGESIZE + i + Z.of_nat (length src) <= fl_max →
  ∃ s' la' li',
    (_ ← modify (set_ram (insert (paddr x) (TmpFs.copy_in i src (padded (slice k (C v))))));
     _ ← set_page (v, k) (set_valid (Z.max (valid x) (i + Z.of_nat (length src))));
     _ ← (if dirty x then mret tt else _ ← set_page (v, k) (set_dirty true); incr dirty_pages);
     _ ← lru_touch (v, k);
     m) s = m s' ∧
    base c s' la' li' ∧ same_nodes s s' ∧ coherent (upd v (overwrite (k * PAGESIZE + i) src (C v)) C) s'.
Proof.
  intros Hb Hc Hv Hf Hsv Hx Hi Hgap Hne Hfit Hmax. rewrite (bind_run _ _ _ _ _ (modify_run _ _)).
  destruct (b_page _ _ _ _ Hb v k x Hx) as (_ & _ & _ & _ & Hk & _).
  set (s1 := set_ram _ s). set (vl := Z.max _ _).
  assert (base c s1 la li) as Hb1.
  { destruct Hb. split; try done. by eapply lists_other. }
  destruct (mark_written_run c s1 la li v k x vl (_ ← lru_touch (v, k); m) Hb1 Hx)
    as (s2 & Hr2 & Hb2 & Hn2 & Hfi2 & Hra2 & Hf2).
  rewrite Hr2. assert (find_page s2 (v, k) = Some (set_dirty true (set_valid vl x))) as Hx2
    by (by rewrite Hf2, decide_True).
  destruct (lru_touch_run s2 la li (v, k) _ (b_tables _ _ _ _ Hb2) (b_lists _ _ _ _ Hb2) Hx2)
    as (s3 & la3 & li3 & Hr3 & Hrl & Hl3 & Hperm & _); [by eapply in_list|].
  rewrite (bind_run _ _ _ _ _ Hr3). exists s3, la3, li3.
  split_and!; [done|by eapply base_relinked|eapply same_nodes_trans; [exact Hn2|exact (rl_node _ _ Hrl)]|].
  eapply coherent_view; [|by apply relinked_view]. unfold overwrite. rewrite bool_decide_eq_false_2 by done.
  eapply (coherent_write c C s la li v n f k x i src); try done; [lia|].
  intros q. rewrite Hf2. by destruct (decide _).
Qed.

(** What a write leaves behind: [bytes] stored at [o] when it succeeds, a part of them
    when it fails. *)
Definition stores c C s v o (bytes : list Z) (m : M vfs Z) (len : Z) : Prop :=
  ∃ r s' la' li', m s = Fin r s' ∧ base c s' la' li' ∧ same_nodes s s' ∧
    match r with
    | Ok w => w = len ∧ coherent (upd v (overwrite o bytes (C v)) C) s'
    | Err e => alloc_err e ∧ ∃ j, coherent (upd v (overwrite o (take j bytes) (C v)) C) s'
    end.

Lemma upd_upd v l l' C w : upd v l (upd v l' C) w = upd v l C w.
Proof. cbn. by destruct (decide _). Qed.

(** A chunk, and the rest of the write. *)
Lemma stores_step c C s s' v o b1 b2 m len :
  0 <= o → same_nodes s s' →
  stores c (upd v (overwrite o b1 (C v)) C) s' v (o + Z.of_nat (length b1)) b2 m len →
  ∃ r s'' la' li', m s' = Fin r s'' ∧ base c s'' la' li' ∧ same_nodes s s'' ∧
    match r with
    | Ok w => w = len ∧ coherent (upd v (overwrite o (b1 ++ b2) (C v)) C) s''
    | Err e => alloc_err e ∧ ∃ j, coherent (upd v (overwrite o (take j (b1 ++ b2)) (C v)) C) s''
    end.
Proof.
  intros Ho Hn (r & s2 & la & li & Hm & Hb & Hn2 & Hr). exists r, s2, la, li.
  split_and!; [done..|by eapply same_nodes_trans|].
  assert (upd v (overwrite o b1 (C v)) C v = overwrite o b1 (C v)) as Huv
    by (cbn; by rewrite decide_True).
  assert (∀ b w, upd v (overwrite (o + Z.of_nat (length b1)) b (upd v (overwrite o b1 (C v)) C v))
    (upd v (overwrite o b1 (C v)) C) w = upd v (overwrite o (b1 ++ b) (C v)) C w) as He.
  { intros b w. by rewrite upd_upd, Huv, overwrite_app. }
  destruct r as [w|e].
  - destruct Hr as [-> Hc]. split; [done|]. exact (coherent_ext _ _ _ (He b2) eq_refl Hc).
  - destruct Hr as [Ha [j Hc]]. split; [done|]. exists (length b1 + j)%nat.
    rewrite take_app_add. exact (coherent_ext _ _ _ (He (take j b2)) eq_refl Hc).
Qed.

(** ** The loop over the pages of a write *)

Lemma cache_write_loop_run fuel c C s la li v n f off buf w :
  base (2 * fuel + c) s la li → coherent C s → vnodes s !! v = Some n → v_file n = Some f →
  cached_file_size_valid n = true → 0 <= off → off + Z.of_nat (length buf) <= fl_max →
  0 <= w <= Z.of_nat (length buf) →
  (w < Z.of_nat (length buf) → (off + w) / PAGESIZE * PAGESIZE <= Z.of_nat (length (C v)) ∧
    (off + w) mod PAGESIZE + (Z.of_nat (length buf) - w) <= Z.of_nat fuel * PAGESIZE) →
  stores c C s v (off + w) (drop (Z.to_nat w) buf) (write_loop fuel v f off buf w) (Z.of_nat (length buf)).
Proof.
  revert C s la li n w. induction fuel as [|fuel IH]; intros C s la li n w Hb Hc Hv Hf Hsv Hoff Hmax Hw Hpre;
    cbn [write_loop]; pose proof fl_max_range;
    (destruct (Z.ltb_spec w (Z.of_nat (length buf))) as [Hlt|Hge];
     [destruct (Hpre Hlt) as [Hgap Hfuel]
     |rewrite drop_ge by lia; exists (Ok w), s, la, li;
      split_and!; [done|eapply base_le; [|done]; lia|apply same_nodes_refl|lia|];
      eapply coherent_ext; [intros q; symmetry; apply upd_same|done|done]]).
  { pose proof (Z.mod_pos_bound (off + w) PAGESIZE). unfold PAGESIZE in *. lia. }
  unfold add64. rewrite wrap64_small by (unfold is_u64, W64 in *; lia).
  rewrite (proj2 (Z.ltb_ge _ _)) by lia. destruct (page_split (off + w)) as (Ho & Hk & Hi); [lia|].
  set (o := off + w) in *. set (k := o / PAGESIZE) in *. set (i := o mod PAGESIZE) in *.
  set (chunk := Z.min _ _). set (src := take (Z.to_nat chunk) (drop (Z.to_nat w) buf)).
  assert (Z.of_nat (length src) = chunk) as Hsrc by (unfold src; rewrite length_take, length_drop; lia).
  assert (src ≠ []) as Hne by (intros Hnil; rewrite Hnil in Hsrc; cbn in Hsrc; lia).
  destruct (cached_page_run (2 * fuel + c) C s la li v n f k)
    as (r & s1 & la1 & li1 & Hr1 & Hb1 & Hc1 & Hn1 & HQ); [eapply base_le; [|done]; lia|done..|].
  destruct r as [[a vl]|e].
  2: { exists (Err e), s1, la1, li1. rewrite (bind_run_err _ _ _ _ _ Hr1).
       split_and!; [done|eapply base_le; [|done]; lia|done|done|]. exists 0%nat.
       eapply coherent_ext; [intros q; symmetry; apply upd_same|done|done]. }
  destruct HQ as (x & Hx & _ & _).
  destruct (same_nodes_lookup s s1 v n Hn1 Hv) as (n1 & Hv1 & Hf1 & _ & Hsv1). rewrite Hf in Hf1.
  destruct (coherent_page C s1 v n1 f k x Hc1 Hv1 Hf1 Hx) as [Hram Hval].
  assert (live (find_page s1 (v, k)) = Some x) as Hlive by (by rewrite (live_page _ _ _ _ _ Hb1)).
  destruct (write_here_run (2 * fuel + c) C s1 la1 li1 v n1 f k x i src
    (write_loop fuel v f off buf (w + chunk))) as (s2 & la2 & li2 & Hr2 & Hb2 & Hn2 & Hc2);
    [done|done|done|done|congruence|done|lia|lia|done|lia|lia|].
  rewrite Hsrc in Hr2. rewrite <- Ho in Hc2.
  assert (same_nodes s s2) as Hn by (by eapply same_nodes_trans).
  destruct (same_nodes_lookup s s2 v n Hn Hv) as (n2 & Hv2 & Hf2 & _ & Hsv2). rewrite Hf in Hf2.
  unfold stores. rewrite (bind_run _ _ _ _ _ Hr1), (bind_run _ _ _ _ _ (gets_run _ _)), Hlive.
  rewrite (bind_run _ _ _ _ _ (frame_run s1 _ _ Hram)). fold src. rewrite Hr2.
  replace (drop (Z.to_nat w) buf) with (src ++ drop (Z.to_nat (w + chunk)) buf).
  2: { unfold src. rewrite <- (take_drop (Z.to_nat chunk) (drop (Z.to_nat w) buf)) at 2.
       rewrite drop_drop. do 2 f_equal. lia. }
  eapply (stores_step c C s s2); [lia|done|].
  replace (o + Z.of_nat (length src)) with (off + (w + chunk)) by lia.
  eapply (IH _ s2 la2 li2 n2); [done|done|done|done|congruence|done|done|lia|].
  intros Hlt'. cbn [upd bytes_of]. rewrite decide_True, length_overwrite by (done || lia).
  assert (chunk = PAGESIZE - i) as Hch by lia.
  assert (off + (w + chunk) = (k + 1) * PAGESIZE) as -> by (unfold PAGESIZE in *; lia).
  rewrite Z.mod_mul, Z.div_mul by (unfold PAGESIZE; lia). unfold PAGESIZE in *. lia.
Qed.

End ops.
End CacheOps.
