(* ===== verification/PageCacheFile.v ===== *)
(** * The page cache is transparent: files

    Sizes, write-back, invalidation and truncation of a cached file, and opening and
    closing the node of a file; then any sequence of these operations, reads and writes
    acts on files as on plain sequences of bytes ([page_cache_refines]). *)

From S2P Require Import Prelude ErrCode Addr Buddy Gfp Memory MemFrames HashMap TmpFs PageCache.
From S2P Require Import PageCacheInv PageCacheSpec PageCacheOps.
Import Memory(PageFrames, pf_get, pf_put, pf_inv, pf_get_law, pf_put_law, pf_less, pf_ext,
  frame_ok, fo_pos, fo_align, fo_limit).
Import PageCache LruFacts Slices CacheInv CacheSpec CacheOps.

#[local] Open Scope Z_scope.

Module CacheFile.

Section ops.
Context {G F : Type} {UI : Type → Type} `{!PageFrames G} `{!IFile F} `{!FileLaws F} `{!UMap Z UI}.
Implicit Types (s : vfs (G := G) (F := F) (UI := UI)) (p q : pkey) (x : CachedFilePage)
  (C : contents).

(** ** The size of a file *)

Definition put_node (v : Z) (n : VINode (UI := UI)) s : vfs := set_vnodes (insert v n) s.

Lemma set_vnode_run s v n f :
  vnodes s !! v = Some n → set_vnode v f s = Fin (Ok tt) (put_node v (f n) s).
Proof. intros Hn. unfold set_vnode. by rewrite (bind_run _ _ _ _ _ (vnode_run s v n Hn)). Qed.

Lemma find_vnode s v n n' q :
  vnodes s !! v = Some n → file_pages n' = file_pages n → find_page (put_node v n' s) q = find_page s q.
Proof.
  intros Hn Hp. unfold find_page. cbn. destruct (decide (q.1 = v)) as [->|].
  - rewrite lookup_insert_eq, Hn. cbn. by rewrite Hp.
  - by rewrite lookup_insert_ne.
Qed.

Lemma base_node c s la li v n n' :
  base c s la li → vnodes s !! v = Some n → file_pages n' = file_pages n → base c (put_node v n' s) la li.
Proof.
  intros Hb Hn Hp. pose proof (λ q, find_vnode s v n n' q Hn Hp) as Hf.
  eapply base_core; [exact Hb| | | |done|done|done].
  - intros q. by rewrite Hf.
  - intros w m. cbn [put_node set_vnodes vnodes]. intros [[<- <-]|[_ Hw]]%lookup_insert_Some.
    + rewrite Hp. by apply (b_tables _ _ _ _ Hb v).
    + by apply (b_tables _ _ _ _ Hb w).
  - eapply lists_other; [apply Hb| |done|done]. intros q _. apply Hf.
Qed.

Lemma coherent_node C s v n n' :
  coherent C s → vnodes s !! v = Some n → file_pages n' = file_pages n → v_file n' = v_file n →
  cached_file_size_valid n' = true → coherent C (put_node v n' s).
Proof.
  intros [Hinv Hfile Hnone Hinj Hrest] Hn Hp Hvf Hsv. pose proof (λ q, find_vnode s v n n' q Hn Hp) as Hf.
  assert (∀ w m, vnodes (put_node v n' s) !! w = Some m → ∃ m0, vnodes s !! w = Some m0 ∧
    v_file m = v_file m0 ∧
    (cached_file_size_valid m = true ∨ cached_file_size_valid m = cached_file_size_valid m0)) as Hback.
  { intros w m. cbn [put_node set_vnodes vnodes]. intros [[<- <-]|[_ Hw]]%lookup_insert_Some.
    - exists n. split_and!; [done..|by left].
    - exists m. split_and!; [done..|by right]. }
  split; [done| | | |].
  - intros w m f Hw Hwf. destruct (Hback w m Hw) as (m0 & Hw0 & He & Hs).
    destruct (Hfile w m0 f) as (B & HB & [H1 H2 H3 H4 H5]); [done|congruence|].
    exists B. split; [done|]. split; [done..| | |].
    + intros k x. rewrite Hf. apply H3.
    + intros k Hk Hcl. apply H4; [done|]. intros x. rewrite <- Hf. apply Hcl.
    + intros k x Hs'. rewrite Hf. destruct Hs as [Hs|Hs]; [congruence|]. apply H5. congruence.
  - intros w m k Hw Hwf. destruct (Hback w m Hw) as (m0 & Hw0 & He & _). rewrite Hf.
    apply (Hnone w m0); congruence.
  - intros v1 v2 n1 n2 f H1 H2 Hf1 Hf2. destruct (Hback _ _ H1) as (m1 & ? & ? & _), (Hback _ _ H2) as (m2 & ? & ? & _).
    apply (Hinj v1 v2 m1 m2 f); congruence.
  - intros f Hno. apply Hrest. intros w m Hw He. destruct (decide (w = v)) as [->|Hwv].
    + apply (Hno v n'); [apply lookup_insert_eq|congruence].
    + apply (Hno w m); [|done]. cbn. by rewrite lookup_insert_ne.
Qed.

(** Which files the nodes are of. *)
Definition same_files s s' : Prop := ∀ v, v_file <$> vnodes s' !! v = v_file <$> vnodes s !! v.

Lemma same_files_trans s1 s2 s3 : same_files s1 s2 → same_files s2 s3 → same_files s1 s3.
Proof. intros H1 H2 v. by rewrite H2. Qed.

Lemma nodes_files s s' : same_nodes s s' → same_files s s'.
Proof.
  intros Hn v. specialize (Hn v). destruct (vnodes s' !! v), (vnodes s !! v); cbn in *; try done.
  unfold fields in Hn. congruence.
Qed.

Lemma node_files s v n n' : vnodes s !! v = Some n → v_file n' = v_file n → same_files s (put_node v n' s).
Proof.
  intros Hn Hf w. cbn. destruct (decide (w = v)) as [->|].
  - rewrite lookup_insert_eq, Hn. cbn. by rewrite Hf.
  - by rewrite lookup_insert_ne.
Qed.

(** A file whose pages are clean holds all its bytes. *)
Lemma clean_content C s v n f :
  coherent C s → vnodes s !! v = Some n → v_file n = Some f →
  (∀ k x, find_page s (v, k) = Some x → dirty x = false) → fl_content (files s) f = Some (C v).
Proof.
  intros Hc Hv Hf Hcl. destruct (ch_file C s Hc v n f Hv Hf) as (B & HB & Hcoh).
  rewrite HB. f_equal. apply slices_eq. intros k Hk. apply (co_clean _ _ _ _ _ Hcoh); [done|]. apply Hcl.
Qed.

Lemma ensure_size_run c C s la li v n f :
  base c s la li → coherent C s → sized C s v → vnodes s !! v = Some n → v_file n = Some f →
  ∃ n', ensure_cached_file_size v f s = Fin (Ok tt) (put_node v n' s) ∧
    file_pages n' = file_pages n ∧ v_file n' = v_file n ∧ cached_file_size_valid n' = true ∧
    cached_file_size n' = Z.of_nat (length (C v)).
Proof.
  intros Hb Hc Hz Hv Hf. unfold ensure_cached_file_size. rewrite (bind_run _ _ _ _ _ (vnode_run s v n Hv)).
  destruct (cached_file_size_valid n) eqn:Hsv.
  - exists n. split_and!; [|done..|by apply Hz]. unfold put_node. destruct s as [vn ? ? ? ? ? ?].
    cbn in *. unfold set_vnodes. cbn. by rewrite insert_id.
  - assert (fl_content (files s) f = Some (C v)) as HB.
    { apply (clean_content C s v n f); try done. intros k x Hx.
      destruct (ch_file C s Hc v n f Hv Hf) as (B & _ & Hcoh). by apply (co_size _ _ _ _ _ Hcoh k). }
    rewrite (bind_run _ _ _ _ _ (with_files_run s _ _ _ (fl_size_law _ f _ (ch_inv C s Hc) HB))), set_files_same.
    rewrite (set_vnode_run s v n) by done. eexists. by split_and!.
Qed.

(** ** The invariant between operations *)

Definition cache_inv (c : nat) C s : Prop :=
  ∃ la li, base c s la li ∧ coherent C s ∧ ∀ v, sized C s v.

Lemma sized_nodes C s s' : same_nodes s s' → (∀ v, sized C s v) → ∀ v, sized C s' v.
Proof. intros Hn Hz v. by eapply sized_same. Qed.

Lemma sized_node C s v n :
  (∀ w, sized C s w) → cached_file_size n = Z.of_nat (length (C v)) → ∀ w, sized C (put_node v n s) w.
Proof.
  intros Hz Hs w m. cbn [put_node set_vnodes vnodes]. intros [[<- <-]|[_ Hw]]%lookup_insert_Some Hsv; [done|].
  by apply (Hz w).
Qed.

Lemma ensure_size_inv c C s v n f :
  cache_inv c C s → vnodes s !! v = Some n → v_file n = Some f →
  ∃ s' n', ensure_cached_file_size v f s = Fin (Ok tt) s' ∧ cache_inv c C s' ∧ same_files s s' ∧
    vnodes s' !! v = Some n' ∧ v_file n' = Some f ∧ cached_file_size_valid n' = true ∧
    cached_file_size n' = Z.of_nat (length (C v)).
Proof.
  intros (la & li & Hb & Hc & Hz) Hv Hf.
  destruct (ensure_size_run c C s la li v n f Hb Hc (Hz v) Hv Hf) as (n' & Hr & Hp & Hvf & Hsv & Hsz).
  exists (put_node v n' s), n'. split_and!; [done| | |..|done|done].
  - exists la, li. split_and!; [by eapply base_node|by eapply coherent_node|by apply sized_node].
  - by eapply node_files.
  - apply lookup_insert_eq.
  - congruence.
Qed.

Lemma cache_size_run c C s v n f :
  cache_inv c C s → vnodes s !! v = Some n → v_file n = Some f →
  ∃ s', vfs_size v s = Fin (Ok (Z.of_nat (length (C v)))) s' ∧ cache_inv c C s' ∧ same_files s s' ∧
    files s' = files s.
Proof.
  intros Hi Hv Hf. unfold vfs_size, merged_file_size.
  rewrite (bind_run _ _ _ _ _ (as_file_run s v n f Hv Hf)).
  pose proof Hi as (la & li & Hb & Hc & Hz).
  destruct (ensure_size_run c C s la li v n f Hb Hc (Hz v) Hv Hf) as (n' & Hr & Hp & Hvf & Hsv & Hsz).
  rewrite (bind_run _ _ _ _ _ Hr).
  rewrite (bind_run _ _ _ _ _ (vnode_run (put_node v n' s) v n' (lookup_insert_eq _ _ _))), Hsz.
  eexists. split_and!; [done| |by eapply node_files|done].
  exists la, li. split_and!; [by eapply base_node|by eapply coherent_node|by apply sized_node].
Qed.

(** ** Reads and writes *)

Lemma cached_policy_run C s v n f :
  coherent C s → vnodes s !! v = Some n → v_file n = Some f → cached_policy f s = Fin (Ok true) s.
Proof.
  intros Hc Hv Hf. destruct (ch_file C s Hc v n f Hv Hf) as (B & HB & _). unfold cached_policy, gets.
  by rewrite bool_decide_eq_false_2 by (by eapply fl_cached; [apply Hc|]).
Qed.

Lemma vfs_read_run c C s v n f off len :
  cache_inv (2 * page_rounds len + c) C s → vnodes s !! v = Some n → v_file n = Some f →
  0 <= off < 2 ^ 63 → is_u64 len →
  ∃ r s', vfs_read v off true len s = Fin r s' ∧ cache_inv c C s' ∧ same_files s s' ∧
    match r with
    | Ok bytes => bytes = take (Z.to_nat len) (drop (Z.to_nat off) (C v))
    | Err e => alloc_err (G := G) e
    end.
Proof.
  intros (la & li & Hb & Hc & Hz) Hv Hf Hoff Hlen. unfold vfs_read. cbn [negb].
  rewrite andb_false_r, (proj2 (Z.ltb_ge off 0)) by lia. cbn [orb].
  rewrite (bind_run _ _ _ _ _ (as_file_run s v n f Hv Hf)).
  rewrite (bind_run _ _ _ _ _ (cached_policy_run C s v n f Hc Hv Hf)).
  destruct (cache_read_run c C s la li v n f off len) as (r & s' & la' & li' & Hr & Hb' & Hc' & Hn & HQ); [done..|].
  exists r, s'. split_and!; [done| |by apply nodes_files|done].
  exists la', li'. split_and!; [done..|by eapply sized_nodes].
Qed.

(** The page of the first byte begins within the file; an empty write is not beyond
    the end. *)
Definition no_hole (off : Z) (bytes l : list Z) : Prop :=
  if bool_decide (bytes = []) then off <= Z.of_nat (length l)
  else off / PAGESIZE * PAGESIZE <= Z.of_nat (length l).

Lemma cache_write_run c C s v n f off bytes :
  cache_inv (2 * page_rounds (Z.of_nat (length bytes)) + c) C s → vnodes s !! v = Some n → v_file n = Some f →
  0 <= off → off + Z.of_nat (length bytes) <= fl_max → no_hole off bytes (C v) →
  ∃ r s', vfs_write v off (Some bytes) (Z.of_nat (length bytes)) s = Fin r s' ∧ same_files s s' ∧
    match r with
    | Ok w => w = Z.of_nat (length bytes) ∧ cache_inv c (upd v (overwrite off bytes (C v)) C) s'
    | Err e => alloc_err (G := G) e ∧ ∃ j la li,
        base c s' la li ∧ coherent (upd v (overwrite off (take j bytes) (C v)) C) s'
    end.
Proof.
  intros Hi Hv Hf Hoff Hmax Hhole. unfold vfs_write, write_cached_file. pose proof fl_max_range as Hfl.
  rewrite (bool_decide_eq_false_2 (Some bytes = None)), andb_false_r, (proj2 (Z.ltb_ge off 0)) by (done || lia).
  cbn [orb default from_option id]. rewrite Nat2Z.id, take_ge by lia. cbv zeta.
  rewrite (bind_run _ _ _ _ _ (as_file_run s v n f Hv Hf)).
  pose proof Hi as (la & li & _ & Hc & _).
  rewrite (bind_run _ _ _ _ _ (cached_policy_run C s v n f Hc Hv Hf)).
  destruct (ensure_size_inv _ C s v n f Hi Hv Hf)
    as (s1 & n1 & Hr1 & (la1 & li1 & Hb1 & Hc1 & Hz1) & Hs1 & Hv1 & Hf1 & Hsv1 & Hsz1).
  rewrite (bind_run _ _ _ _ _ Hr1).
  destruct (cache_write_loop_run (page_rounds (Z.of_nat (length bytes))) c C s1 la1 li1 v n1 f off bytes 0)
    as (r & s2 & la2 & li2 & Hr2 & Hb2 & Hn2 & HQ); [done..|lia| |].
  { intros Hlt. rewrite Z.add_0_r. split.
    - unfold no_hole in Hhole. rewrite bool_decide_eq_false_2 in Hhole by (by intros ->). done.
    - unfold page_rounds. pose proof (Z.mod_pos_bound off PAGESIZE).
      pose proof (Z.mul_succ_div_gt (Z.of_nat (length bytes)) PAGESIZE). unfold PAGESIZE in *. lia. }
  rewrite Z.add_0_r in HQ. cbn [Z.to_nat drop] in HQ.
  assert (same_files s s2) as Hs2 by (eapply same_files_trans; [done|by apply nodes_files]).
  destruct r as [w|e].
  2: { rewrite (bind_run_err _ _ _ _ _ Hr2). exists (Err e), s2. split_and!; [done..|by destruct HQ|].
       destruct HQ as (_ & j & Hc2). by exists j, la2, li2. }
  destruct HQ as [-> Hc2]. rewrite (bind_run _ _ _ _ _ Hr2).
  destruct (same_nodes_lookup s1 s2 v n1 Hn2 Hv1) as (n2 & Hv2 & Hf2 & Hsz2 & Hsv2).
  rewrite (bind_run _ _ _ _ _ (set_vnode_run s2 v n2 _ Hv2)). set (n3 := set_size _ _ n2).
  exists (Ok (Z.of_nat (length bytes))), (put_node v n3 s2).
  split_and!; [done|eapply same_files_trans; [done|by eapply node_files]|done|].
  exists la2, li2. split_and!; [by eapply base_node|eapply coherent_node; [done..|cbn; congruence]|].
  intros w m Hw Hsv. destruct (decide (w = v)) as [->|Hwv].
  - cbn [put_node set_vnodes vnodes] in Hw. rewrite lookup_insert_eq in Hw. injection Hw as <-. cbn.
    rewrite Hsz2, Hsz1. cbn [upd bytes_of]. rewrite decide_True by done.
    unfold add64. rewrite wrap64_small by (unfold is_u64, W64; lia).
    destruct (decide (bytes = [])) as [->|Hne]; [|by rewrite length_overwrite].
    unfold no_hole in Hhole. rewrite bool_decide_eq_true_2 in Hhole by done. cbn. lia.
  - cbn [put_node set_vnodes vnodes] in Hw. rewrite lookup_insert_ne in Hw by done.
    cbn [upd bytes_of]. rewrite decide_False by done. by apply (sized_nodes C s1 s2 Hn2 Hz1 w).
Qed.

(** ** Write-back *)

Lemma coherent_clean C s v k x :
  coherent C s → tables s → find_page s (v, k) = Some x → synced C s v k →
  coherent C (put_page (v, k) (set_dirty false x) s).
Proof.
  intros Hc Ht Hx (n0 & f0 & B0 & Hv0 & Hf0 & HB0 & Hsl).
  destruct (put_page_same s (v, k) (set_dirty false x)) as (Hn & _ & Hr & Hfi).
  pose proof (λ q, find_put s (v, k) (set_dirty false x) q Ht (mk_is_Some _ _ Hv0)) as Hf.
  set (s' := put_page _ _ s) in *. eapply coherent_step; [done..| |].
  - intros w m j Hw Hwf. rewrite Hf, decide_False; [by eapply (ch_none C s Hc)|].
    intros [= -> ->]. congruence.
  - intros w m n' g B Hw Hwf HB Hs [H1 H2 H3 H4 H5]. split; [done..| | |].
    + intros j y. rewrite Hf, Hr. destruct (decide _) as [[= -> ->]|]; [|apply H3].
      intros [= <-]. destruct (H3 k x Hx) as (? & ? & _). by split_and!.
    + intros j Hj Hcl. destruct (decide ((w, j) = (v, k))) as [[= -> ->]|Hne]; [congruence|].
      apply H4; [done|]. intros y Hy. apply Hcl. by rewrite Hf, decide_False.
    + intros j y Hsv. rewrite Hf. destruct (decide _) as [[= -> ->]|]; [by intros [= <-]|].
      apply H5. congruence.
Qed.

Lemma flush_page_run c C s la li v n f k x :
  base c s la li → coherent C s → vnodes s !! v = Some n → v_file n = Some f → find_page s (v, k) = Some x →
  ∃ s', flush_page v f k s = Fin (Ok tt) s' ∧ base c s' la li ∧ coherent C s' ∧ same_nodes s s' ∧
    ∀ q, find_page s' q = if decide (q = (v, k)) then Some (set_dirty false x) else find_page s q.
Proof.
  intros Hb Hc Hv Hf Hx. unfold flush_page. rewrite (bind_run _ _ _ _ _ (page_run s (v, k) x Hx)).
  pose proof (b_page _ _ _ _ Hb v k x Hx) as (Hok & Hok2 & Hok3 & Hok4 & Hk & Hok5).
  destruct (dirty x) eqn:Hd; cbn [negb].
  2: { exists s. split_and!; [done..|apply same_nodes_refl|]. intros q. destruct (decide _) as [->|]; [|done].
       rewrite Hx. destruct x. cbn in Hd. by subst. }
  rewrite (bind_run _ _ _ _ _ (incr_run writeback_pages s)). set (s1 := set_counter _ _ s).
  destruct (write_page_run C s1 v n f k x) as (fs & Hw & Hc2 & Hsy); [by apply coherent_counter|done..|].
  rewrite (bind_run _ _ _ _ _ Hw). set (s2 := set_files fs s1) in *.
  assert (quiet s s2) as Hq by (eapply quiet_trans; [|apply quiet_files]; by apply quiet_counter).
  assert (base c s2 la li) as Hb2 by (by eapply quiet_base).
  assert (find_page s2 (v, k) = Some x) as Hx2 by done.
  rewrite (bind_run _ _ _ _ _ (set_page_run s2 (v, k) x _ Hx2)). set (s3 := put_page _ _ s2).
  do 2 rewrite (bind_run _ _ _ _ _ (decr_run _ _)). rewrite (bind_run _ _ _ _ _ (incr_run _ _)).
  eexists. split; [done|]. split_and!.
  - do 4 (apply base_counter; [done|]). by eapply base_put.
  - do 4 apply coherent_counter. by apply coherent_clean; [|apply Hb2|..].
  - eapply same_nodes_trans; [by apply quiet_nodes|]. exact (proj1 (put_page_same s2 (v, k) _)).
  - intros q. exact (find_put s2 (v, k) (set_dirty false x) q (b_tables _ _ _ _ Hb2) (mk_is_Some _ _ Hv)).
Qed.

(** The pages of a node. *)
Lemma page_list_run s v n :
  tables s → vnodes s !! v = Some n →
  ∃ l, page_list v s = Fin (Ok l) s ∧ NoDup l ∧ ∀ k, k ∈ l ↔ is_Some (find_page s (v, k)).
Proof.
  intros Ht Hn. eexists. split; [unfold page_list; by rewrite (bind_run _ _ _ _ _ (vnode_run s v n Hn))|].
  split; [apply um_nodup; by eapply Ht|]. intros k. rewrite (find_page_map s v n k Ht Hn). unfold um_map.
  rewrite <- not_eq_None_Some, <- not_elem_of_list_to_map. split; [naive_solver|]. apply dec_stable.
Qed.

Lemma flush_each_run c C s la li v n f l :
  base c s la li → coherent C s → vnodes s !! v = Some n → v_file n = Some f →
  (∀ k, k ∈ l → is_Some (find_page s (v, k))) →
  ∃ s', each (flush_page v f) l s = Fin (Ok tt) s' ∧ base c s' la li ∧ coherent C s' ∧ same_nodes s s' ∧
    ∀ k x', find_page s' (v, k) = Some x' →
      ∃ x, find_page s (v, k) = Some x ∧ (k ∈ l ∨ dirty x = false → dirty x' = false).
Proof.
  revert s n. induction l as [|k l IH]; intros s n Hb Hc Hv Hf Hl; cbn [each].
  { exists s. split_and!; [done..|apply same_nodes_refl|]. intros k x Hx. exists x. split; [done|].
    intros [Hk|Hk]; [by apply elem_of_nil in Hk|done]. }
  destruct (Hl k) as [x Hx]; [by left|].
  destruct (flush_page_run c C s la li v n f k x Hb Hc Hv Hf Hx) as (s1 & Hr1 & Hb1 & Hc1 & Hn1 & Hf1).
  destruct (same_nodes_lookup s s1 v n Hn1 Hv) as (n1 & Hv1 & Hvf1 & _).
  rewrite (bind_run _ _ _ _ _ Hr1).
  destruct (IH s1 n1) as (s2 & Hr2 & Hb2 & Hc2 & Hn2 & Hp2); [done..|congruence| |].
  { intros j Hj. rewrite Hf1. destruct (decide _); [by eexists|]. apply Hl. by right. }
  exists s2. split_and!; [done..|by eapply same_nodes_trans|]. intros j x' Hx'.
  destruct (Hp2 j x' Hx') as (y & Hy & Hd). rewrite Hf1 in Hy.
  destruct (decide ((v, j) = (v, k))) as [He|Hne].
  - injection Hy as <-. injection He as ->. exists x. split; [done|]. intros _. apply Hd. by right.
  - exists y. split; [done|]. intros [[-> |Hj]%elem_of_cons|Hj]; [done| |]; apply Hd; auto.
Qed.

(** After [flush_file_pages] the file has all its bytes. *)
Lemma flush_run c C s v n f :
  cache_inv c C s → vnodes s !! v = Some n → v_file n = Some f →
  ∃ s', flush_file_pages v s = Fin (Ok tt) s' ∧ cache_inv c C s' ∧ same_nodes s s' ∧
    fl_content (files s') f = Some (C v).
Proof.
  intros (la & li & Hb & Hc & Hz) Hv Hf. unfold flush_file_pages.
  destruct (page_list_run s v n (b_tables _ _ _ _ Hb) Hv) as (l & Hr & _ & Hl). rewrite (bind_run _ _ _ _ _ Hr).
  case_bool_decide as Hnil.
  - exists s. split_and!; [done|by exists la, li|apply same_nodes_refl|].
    apply (clean_content C s v n f Hc Hv Hf). intros k x Hx.
    assert (k ∈ l) as Hk by (apply Hl; by eexists). subst l. by apply elem_of_nil in Hk.
  - rewrite (bind_run _ _ _ _ _ (as_file_run s v n f Hv Hf)).
    destruct (flush_each_run c C s la li v n f l) as (s' & Hr' & Hb' & Hc' & Hn & Hp); [done..|by intros k; apply Hl|].
    destruct (same_nodes_lookup s s' v n Hn Hv) as (n' & Hv' & Hf' & _).
    exists s'. split_and!; [done| |done|].
    + exists la, li. split_and!; [done..|by eapply sized_nodes].
    + apply (clean_content C s' v n' f Hc' Hv'); [congruence|]. intros k x' Hx'.
      destruct (Hp k x' Hx') as (x & Hx & Hd). apply Hd. left. apply Hl. by eexists.
Qed.

(** ** Invalidation

    Between the two loops of [invalidate_file_pages] the pages [ms] are marked and off
    the lists. *)
Record marked (c : nat) s (la li ms : list pkey) : Prop := {
  m_tables : tables s;
  m_lists : lists s la li;
  m_in p x : find_page s p = Some x → p ∈ ms ++ la ++ li;
  m_mark p : p ∈ ms → ∃ x, find_page s p = Some x ∧ invalidating x = true;
  m_nodup : NoDup (ms ++ la ++ li);
  m_page v k x : find_page s (v, k) = Some x →
    ((v, k) ∉ ms → evicting x = false ∧ invalidating x = false) ∧
    owner x = Some v ∧ page_index x = k ∧ 0 <= k < 2 ^ 51 ∧ frame_ok (paddr x);
  m_count : counters s cached_pages = Z.of_nat (length (ms ++ la ++ li));
  m_max : Z.of_nat (length (ms ++ la ++ li)) <= kMaxPageCachePages;
  m_inj p q x y : find_page s p = Some x → find_page s q = Some y → paddr x = paddr y → p = q;
  m_frames : ∃ own, pf_inv own c (frames s) ∧
    ∀ p x, find_page s p = Some x → 0 < own (paddr x / PAGESIZE);
}.

Lemma base_marked c s la li : base c s la li ↔ marked c s la li [].
Proof.
  split.
  - intros Hb. pose proof Hb as [H1 H2 H3 H4 H5 H6 H7 H8]. split; try done.
    + intros p Hp. by apply elem_of_nil in Hp.
    + exact (lists_nodup _ _ _ H2).
    + intros v k x Hx. destruct (H4 v k x Hx) as (? & ? & Hrest). split; [by intros _|exact Hrest].
  - intros [H1 H2 H3 H4 H5 H6 H7 H8 H9 H10]. split; try done.
    intros v k x Hx. destruct (H6 v k x Hx) as (Hm & ? & ? & ? & ?).
    destruct Hm as [? ?]; [intros Hin; by apply elem_of_nil in Hin|]. by unfold page_ok.
Qed.

Lemma marked_perm c s la li ms ms' : ms ≡ₚ ms' → marked c s la li ms → marked c s la li ms'.
Proof.
  intros Hp [H1 H2 H3 H4 H5 H6 H7 H8 H9 H10]. split; try done; try (by rewrite <- Hp).
  - intros p x Hx. rewrite <- Hp. by eapply H3.
  - intros p. rewrite <- Hp. apply H4.
  - intros v k x Hx. rewrite <- Hp. by apply H6.
Qed.

(** A page of the first loop. *)
Lemma mark_view {A} s la li v k x (m : M vfs A) :
  tables s → lists s la li → find_page s (v, k) = Some x → (v, k) ∈ list_of (active x) la li →
  ∃ s' la' li',
    (_ ← set_page (v, k) (set_evicting true); _ ← set_page (v, k) (set_invalidating true);
     _ ← lru_remove (v, k); m) s = m s' ∧
    tables s' ∧ lists s' la' li' ∧ (v, k) :: la' ++ li' ≡ₚ la ++ li ∧ same_view s s' ∧
    frames s' = frames s ∧ counters s' cached_pages = counters s cached_pages ∧
    ∀ q, core <$> find_page s' q = if decide (q = (v, k))
      then Some (core (set_invalidating true (set_evicting true x))) else core <$> find_page s q.
Proof.
  intros Ht Hl Hx Hin. destruct (find_page_vnode s (v, k) x Hx) as [n Hn].
  rewrite (bind_run _ _ _ _ _ (set_page_run s (v, k) x _ Hx)). set (x1 := set_evicting true x).
  pose proof (λ q, find_put s (v, k) x1 q Ht (mk_is_Some _ _ Hn)) as Hf1.
  assert (tables (put_page (v, k) x1 s)) as Ht1 by by apply put_tables.
  destruct (put_page_view s (v, k) x x1 Ht Hx eq_refl) as (Hv1 & Hc1 & Hfr1).
  assert (lists (put_page (v, k) x1 s) la li) as Hl1 by by eapply lists_put.
  set (s1 := put_page _ _ s) in *.
  assert (find_page s1 (v, k) = Some x1) as Hx1 by (by rewrite Hf1, decide_True).
  destruct (find_page_vnode s1 (v, k) x1 Hx1) as [n1 Hn1].
  rewrite (bind_run _ _ _ _ _ (set_page_run s1 (v, k) x1 _ Hx1)). set (x2 := set_invalidating true x1).
  pose proof (λ q, find_put s1 (v, k) x2 q Ht1 (mk_is_Some _ _ Hn1)) as Hf2.
  assert (tables (put_page (v, k) x2 s1)) as Ht2 by by apply put_tables.
  destruct (put_page_view s1 (v, k) x1 x2 Ht1 Hx1 eq_refl) as (Hv2 & Hc2 & Hfr2).
  assert (lists (put_page (v, k) x2 s1) la li) as Hl2 by by eapply lists_put.
  set (s2 := put_page _ _ s1) in *.
  assert (find_page s2 (v, k) = Some x2) as Hx2 by (by rewrite Hf2, decide_True).
  destruct (lru_remove_run s2 la li (v, k) x2 Ht2 Hl2 Hx2 Hin)
    as (s3 & l1 & l2 & Hr3 & Hrl & Hc3 & Hsp & Hl3 & Hx3).
  rewrite (bind_run _ _ _ _ _ Hr3).
  pose proof (with_list_perm (active x2) la li (v, k) l1 l2 Hsp) as Hperm.
  destruct (with_list (active x2) (l1 ++ l2) la li) as [la3 li3]. cbn [fst snd] in *.
  exists s3, la3, li3. split_and!; [done|apply Hrl|done|done| | | |].
  - eapply same_view_trans; [exact Hv1|]. eapply same_view_trans; [exact Hv2|by apply relinked_view].
  - by rewrite (rl_frames _ _ Hrl), Hfr2.
  - by rewrite Hc3, Hc2, Hc1.
  - intros q. rewrite (rl_core _ _ Hrl), Hf2. destruct (decide _) as [|Hq]; [done|].
    by rewrite Hf1, decide_False.
Qed.

Lemma mark_run {A} c s la li ms v k x (m : M vfs A) :
  marked c s la li ms → find_page s (v, k) = Some x → ((v, k) ∉ ms) →
  ∃ s' la' li',
    (_ ← set_page (v, k) (set_evicting true); _ ← set_page (v, k) (set_invalidating true);
     _ ← lru_remove (v, k); m) s = m s' ∧
    marked c s' la' li' ((v, k) :: ms) ∧ same_view s s'.
Proof.
  intros [H1 H2 H3 H4 H5 H6 H7 H8 H9 (own & Hown & Hpos)] Hx Hms.
  assert ((v, k) ∈ list_of (active x) la li) as Hin.
  { eapply list_of_active; [done|done|]. pose proof (H3 _ _ Hx) as Hp. apply elem_of_app in Hp as [Hp|Hp]; done. }
  destruct (mark_view s la li v k x m H1 H2 Hx Hin)
    as (s' & la' & li' & Hr & Ht & Hl & Hperm & Hvw & Hfr & Hcnt & Hco).
  exists s', la', li'. split_and!; [done| |done].
  assert (ms ++ la ++ li ≡ₚ ((v, k) :: ms) ++ la' ++ li') as Hp2.
  { rewrite <- Hperm. cbn. symmetry. apply Permutation_middle. }
  assert (∀ q y', find_page s' q = Some y' → ∃ y, find_page s q = Some y ∧ core y' = core
    (if decide (q = (v, k)) then set_invalidating true (set_evicting true y) else y)) as Hback.
  { intros q y' Hy'. specialize (Hco q). rewrite Hy' in Hco. destruct (decide (q = (v, k))) as [->|].
    - exists x. split; [done|]. cbn in *. congruence.
    - symmetry in Hco. apply fmap_Some in Hco as (y & Hy & Hcy). exists y. split; [done|]. congruence. }
  assert (∀ q y', find_page s' q = Some y' → ∃ y, find_page s q = Some y ∧ paddr y' = paddr y) as Hpa.
  { intros q y' Hy'. destruct (Hback q y' Hy') as (y & Hy & Hcy). exists y. split; [done|].
    apply core_fields in Hcy as (-> & _). by destruct (decide _). }
  split; [done|done| | | | | | | |].
  - intros q y' Hy'. destruct (Hback q y' Hy') as (y & Hy & _). rewrite <- Hp2. by eapply H3.
  - intros q [-> |Hq]%elem_of_cons.
    + specialize (Hco (v, k)). rewrite decide_True in Hco by done. apply fmap_Some in Hco as (y & Hy & Hcy).
      exists y. split; [done|]. by destruct (core_fields _ _ (eq_sym Hcy)) as (_ & _ & _ & _ & -> & _).
    + destruct (H4 q Hq) as (y & Hy & Hiv). specialize (Hco q). rewrite decide_False, Hy in Hco by (by intros ->).
      apply fmap_Some in Hco as (y' & Hy' & Hcy). exists y'. split; [done|].
      by destruct (core_fields _ _ (eq_sym Hcy)) as (_ & _ & _ & _ & -> & _).
  - by rewrite <- Hp2.
  - intros w j y' Hy'. destruct (Hback _ y' Hy') as (y & Hy & Hcy). destruct (H6 w j y Hy) as (Hm & ? & ? & ? & ?).
    apply core_fields in Hcy as (E1 & _ & _ & E2 & E3 & E4 & E5). rewrite E1, E2, E3, E4, E5.
    destruct (decide ((w, j) = (v, k))) as [[= -> ->]|Hne]; [by split; [intros Hn; destruct Hn; left|]|].
    split; [|done]. intros Hn. apply Hm. set_solver.
  - by rewrite Hcnt, <- Hp2.
  - by rewrite <- Hp2.
  - intros p q y1 y2 Hy1 Hy2 He. destruct (Hpa _ _ Hy1) as (z1 & Hz1 & E1), (Hpa _ _ Hy2) as (z2 & Hz2 & E2).
    eapply H9; [done|done|congruence].
  - exists own. rewrite Hfr. split; [done|]. intros q y' Hy'. destruct (Hpa _ _ Hy') as (y & Hy & ->). by eapply Hpos.
Qed.

Lemma mark_pages_run c v l s la li ms :
  marked c s la li ms → NoDup l → (∀ k, k ∈ l → is_Some (find_page s (v, k)) ∧ (v, k) ∉ ms) →
  ∃ s' la' li' ms', mark_pages v l s = Fin (Ok l) s' ∧ marked c s' la' li' ms' ∧
    ms' ≡ₚ (pair v <$> l) ++ ms ∧ same_view s s'.
Proof.
  revert s la li ms. induction l as [|k l IH]; intros s la li ms Hm Hnd Hl; cbn [mark_pages].
  { exists s, la, li, ms. by split_and!. }
  destruct (Hl k) as [[x Hx] Hout]; [by left|]. apply NoDup_cons in Hnd as [Hkl Hnd].
  rewrite (bind_run _ _ _ _ _ (page_run s (v, k) x Hx)).
  destruct (m_page _ _ _ _ _ Hm v k x Hx) as [Hev _]. destruct (Hev Hout) as [-> _].
  destruct (mark_run c s la li ms v k x (rest ← mark_pages v l; mret (k :: rest)) Hm Hx Hout)
    as (s1 & la1 & li1 & Hr1 & Hm1 & Hv1).
  rewrite Hr1. destruct (IH s1 la1 li1 ((v, k) :: ms)) as (s2 & la2 & li2 & ms2 & Hr2 & Hm2 & Hp2 & Hv2); [done..| |].
  { intros j Hj. destruct (Hl j) as [[y Hy] Hjo]; [by right|]. split.
    - pose proof (sv_core _ _ Hv1 (v, j)) as Hc. rewrite Hy in Hc. apply fmap_Some in Hc as (y' & Hy' & _). by eexists.
    - intros [He|Hin]%elem_of_cons; [by injection He as ->|done]. }
  exists s2, la2, li2, ms2. rewrite (bind_run _ _ _ _ _ Hr2). split_and!; [done..| |by eapply same_view_trans].
  rewrite Hp2. cbn. symmetry. apply Permutation_middle.
Qed.

(** The invariant after a marked page is erased. *)
Lemma marked_drop c s s' la li p ms x :
  marked (S c) s la li (p :: ms) → find_page s p = Some x → tables s' → lists s' la li →
  (∀ q, find_page s' q = if decide (q = p) then None else find_page s q) →
  counters s' cached_pages = counters s cached_pages - 1 →
  (∀ own, pf_inv own (S c) (frames s) → 0 < own (paddr x / PAGESIZE) →
    pf_inv (Memory.bump (-1) (paddr x) 1 own) c (frames s')) →
  marked c s' la li ms.
Proof.
  intros [H1 H2 H3 H4 H5 H6 H7 H8 H9 (own & Hown & Hpos)] Hx Ht Hl Hf Hcnt Hfr.
  apply NoDup_cons in H5 as [Hp Hnd]. rewrite elem_of_app in Hp. cbn [app length] in H7, H8.
  assert (∀ q y, find_page s' q = Some y → q ≠ p ∧ find_page s q = Some y) as Hback.
  { intros q y. rewrite Hf. by destruct (decide _). }
  split; [done|done| | |done| |lia|lia| |].
  - intros q y Hy. destruct (Hback q y Hy) as [Hq Hy0]. pose proof (H3 q y Hy0) as Hin. set_solver.
  - intros q Hq. rewrite Hf, decide_False; [apply H4; by right|]. intros ->. tauto.
  - intros w j y Hy. destruct (Hback _ y Hy) as [Hq Hy0]. destruct (H6 w j y Hy0) as [Hm Hrest].
    split; [|exact Hrest]. intros Hn. apply Hm. set_solver.
  - intros q1 q2 y1 y2 Hy1%Hback Hy2%Hback He. eapply H9; [apply Hy1|apply Hy2|done].
  - eexists. split; [apply Hfr; [done|by eapply Hpos]|]. intros q y Hy. destruct (Hback q y Hy) as [Hq Hy0].
    unfold Memory.bump, Gfp.in_pages. rewrite bool_decide_eq_false_2; [by eapply Hpos|]. intros Heq. apply Hq.
    eapply H9; [done|done|]. destruct p as [vp kp], q as [vq kq].
    destruct (H6 _ _ _ Hx) as (_ & _ & _ & _ & Hfx), (H6 _ _ _ Hy0) as (_ & _ & _ & _ & Hfy).
    apply frame_pages; [done|done|lia].
Qed.

Lemma drop_page_run c s la li v k ms :
  marked (S c) s la li ((v, k) :: ms) →
  ∃ s', drop_page v k s = Fin (Ok tt) s' ∧ marked c s' la li ms ∧
    (∀ q, find_page s' q = if decide (q = (v, k)) then None else find_page s q) ∧
    same_nodes s s' ∧ ram s' = ram s ∧ files s' = files s.
Proof.
  intros Hm. destruct (m_mark _ _ _ _ _ Hm (v, k)) as (x & Hx & Hiv); [by left|].
  destruct (m_page _ _ _ _ _ Hm v k x Hx) as (_ & _ & _ & _ & Hfo).
  pose proof (m_nodup _ _ _ _ _ Hm) as Hnd. apply NoDup_cons in Hnd as [Hout _].
  unfold drop_page. rewrite (bind_run _ _ _ _ _ (gets_run _ _)), Hx, Hiv. cbn [negb].
  rewrite (bind_run _ _ _ _ _ (decr_run _ _)). set (i := if active x then _ else _).
  set (s1 := set_counter i _ s).
  assert (quiet s s1) as Hq1 by (apply quiet_counter; unfold i; by destruct (active x)).
  assert (∃ s2, (if dirty x then decr dirty_pages else mret tt) s1 = Fin (Ok tt) s2 ∧ quiet s s2 ∧ files s2 = files s)
    as (s2 & Hr2 & Hq2 & Hfi2).
  { destruct (dirty x).
    - eexists. split_and!; [done|by eapply quiet_trans; [|apply quiet_counter]|done].
    - by exists s1. }
  rewrite (bind_run _ _ _ _ _ Hr2), (bind_run _ _ _ _ _ (decr_run _ _)).
  set (s3 := set_counter page_cache_pages _ s2).
  assert (quiet s s3) as Hq3 by (by eapply quiet_trans; [|apply quiet_counter]).
  assert (find_page s3 (v, k) = Some x) as Hx3 by (by rewrite (quiet_find s s3)).
  assert (tables s3) as Ht3 by (eapply quiet_tables; [done|apply Hm]).
  rewrite (bind_run _ _ _ _ _ (erase_page_run s3 v k x Hx3)).
  destruct (erase_page_spec s3 (v, k) Ht3) as (Hf4 & Ht4 & Hn4 & _ & _ & Hc4 & Hfr4 & Hra4 & Hfi4).
  assert (lists (erase_page (v, k) s3) la li) as Hl4.
  { apply erase_lists; [done|eapply quiet_lists; [done|apply Hm]|set_solver]. }
  set (s4 := erase_page _ s3) in *. rewrite (bind_run _ _ _ _ _ (decr_run _ _)).
  set (s5 := set_counter cached_pages _ s4).
  assert (frames s5 = frames s) as Hfr5 by (cbn; rewrite Hfr4; apply Hq3).
  destruct (m_frames _ _ _ _ _ Hm) as (own & Hown & Hpos).
  destruct (pf_put_law own c (frames s) (paddr x) Hown Hfo) as (g & Hg & _); [by eapply Hpos|].
  pose proof Hg as Hg5. rewrite <- Hfr5 in Hg5. rewrite (with_frames_run s5 _ _ _ Hg5).
  exists (set_frames g s5). split; [done|].
  assert (∀ q, find_page (set_frames g s5) q = if decide (q = (v, k)) then None else find_page s q) as Hf.
  { intros q. change (find_page (set_frames g s5) q) with (find_page s4 q). rewrite Hf4.
    by rewrite (quiet_find s s3). }
  split_and!; [|done| |by cbn; rewrite Hra4; apply Hq3|by cbn; rewrite Hfi4].
  - eapply (marked_drop c s); [done|done|done| |done| |].
    + by eapply (lists_other s4).
    + pose proof (m_count _ _ _ _ _ Hm) as Hn. cbn [app length] in Hn.
      unfold s5. cbn [set_frames set_counter counters]. rewrite decide_True, Hc4, (qt_count _ _ Hq3) by done.
      by rewrite (proj2 (Z.ltb_lt _ _)) by lia.
    + intros own' Hown' Hpos'. destruct (pf_put_law own' c (frames s) (paddr x) Hown' Hfo Hpos') as (g' & Hg' & Hinv).
      rewrite Hg in Hg'. by injection Hg' as <-.
  - eapply same_nodes_trans; [by apply quiet_nodes|]. exact Hn4.
Qed.

Lemma marked_le c c' s la li ms : (c' <= c)%nat → marked c s la li ms → marked c' s la li ms.
Proof.
  induction 1 as [|c'' Hle IH]; [done|]. intros [? ? ? ? ? ? ? ? ? (own & Hown & ?)]. apply IH.
  split; try done. exists own. split; [by apply pf_less|done].
Qed.

Lemma drop_each_run c s la li v l :
  marked (length l + c) s la li (pair v <$> l) →
  ∃ s', each (drop_page v) l s = Fin (Ok tt) s' ∧ base c s' la li ∧
    (∀ q, find_page s' q = if decide (q ∈ pair v <$> l) then None else find_page s q) ∧
    same_nodes s s' ∧ ram s' = ram s ∧ files s' = files s.
Proof.
  revert s. induction l as [|k l IH]; intros s Hm; cbn [each].
  { exists s. split_and!; [done|by apply base_marked|done..]. }
  destruct (drop_page_run (length l + c) s la li v k _ Hm)
    as (s1 & Hr1 & Hm1 & Hf1 & Hn1 & Hra1 & Hfi1).
  rewrite (bind_run _ _ _ _ _ Hr1). destruct (IH s1 Hm1) as (s2 & Hr2 & Hb2 & Hf2 & Hn2 & Hra2 & Hfi2).
  exists s2. split_and!; [done..| |by eapply same_nodes_trans|congruence|congruence].
  intros q. rewrite Hf2, Hf1. cbn [fmap list_fmap].
  destruct (decide (q = (v, k))) as [->|Hq].
  - rewrite (decide_True (P := (v, k) ∈ _ :: _)) by (by left). by destruct (decide _).
  - apply decide_ext. rewrite elem_of_cons. naive_solver.
Qed.

(** No page of the node is left. *)
Lemma invalidate_run c s la li v n :
  base (1024 + c) s la li → vnodes s !! v = Some n →
  ∃ s' la' li', invalidate_file_pages v s = Fin (Ok tt) s' ∧ base c s' la' li' ∧
    same_nodes s s' ∧ ram s' = ram s ∧ files s' = files s ∧
    ∀ q, vcore <$> find_page s' q = if decide (q.1 = v) then None else vcore <$> find_page s q.
Proof.
  intros Hb Hv. unfold invalidate_file_pages.
  destruct (page_list_run s v n (b_tables _ _ _ _ Hb) Hv) as (l & Hr & Hnd & Hl).
  rewrite (bind_run _ _ _ _ _ Hr).
  assert (∃ s1, (if bool_decide (l = []) then mret tt else incr invalidations) s = Fin (Ok tt) s1 ∧
    quiet s s1 ∧ files s1 = files s) as (s1 & Hr1 & Hq1 & Hfi1).
  { case_bool_decide; [by exists s|]. eexists. split_and!; [done|by apply quiet_counter|done]. }
  rewrite (bind_run _ _ _ _ _ Hr1).
  destruct (mark_pages_run (1024 + c) v l s1 la li []) as (s2 & la2 & li2 & ms & Hr2 & Hm2 & Hp & Hv2);
    [by apply base_marked, (quiet_base _ s)|done| |].
  { intros k Hk. rewrite (quiet_find s s1) by done. split; [by apply Hl|]. by intros ?%elem_of_nil. }
  rewrite (bind_run _ _ _ _ _ Hr2). rewrite app_nil_r in Hp. apply (marked_perm _ _ _ _ _ _ Hp) in Hm2.
  pose proof (m_max _ _ _ _ _ Hm2) as Hmax. rewrite length_app, length_fmap in Hmax. unfold kMaxPageCachePages in Hmax.
  destruct (drop_each_run c s2 la2 li2 v l) as (s3 & Hr3 & Hb3 & Hf3 & Hn3 & Hra3 & Hfi3);
    [eapply marked_le; [|done]; lia|].
  destruct Hv2 as [Hco2 Hn2 Hra2 Hfi2].
  exists s3, la2, li2. split_and!; [done..| | | |].
  - eapply same_nodes_trans; [by apply quiet_nodes|]. by eapply same_nodes_trans.
  - rewrite Hra3, Hra2. apply Hq1.
  - congruence.
  - intros q. rewrite Hf3. assert (vcore <$> find_page s2 q = vcore <$> find_page s q) as Hq2.
    { by rewrite Hco2, (quiet_find s s1). }
    destruct (decide (q ∈ _)) as [(k & -> & Hk)%list_elem_of_fmap|Hout]; [by rewrite decide_True|].
    rewrite Hq2. destruct (decide (q.1 = v)) as [<-|]; [|done]. destruct (find_page s q) eqn:Hx; [|done].
    destruct Hout. apply list_elem_of_fmap. exists q.2. split; [by destruct q|]. apply Hl. destruct q. by eexists.
Qed.

(** ** Truncation, opening and closing *)

(** The file of [v] gets other bytes, and no page of it is cached. *)
Lemma coherent_reset C s s' v n n' f l :
  coherent C s → vnodes s !! v = Some n → v_file n = Some f → v_file n' = Some f →
  same_nodes (put_node v n' s) s' → ram s' = ram s → fl_inv (files s') →
  (∀ g, fl_content (files s') g = if decide (g = f) then Some l else fl_content (files s) g) →
  (∀ q, vcore <$> find_page s' q = if decide (q.1 = v) then None else vcore <$> find_page s q) →
  coherent (upd v l C) s'.
Proof.
  intros [Hinv Hfile Hnone Hinj Hrest] Hv Hf Hf' Hn Hr Hinv' Hfc Hp.
  assert (∀ w m, vnodes s' !! w = Some m → (w = v ∧ v_file m = Some f) ∨ (w ≠ v ∧ ∃ m0, vnodes s !! w = Some m0 ∧
    v_file m = v_file m0 ∧ cached_file_size_valid m = cached_file_size_valid m0)) as Hback.
  { intros w m Hw. destruct (same_nodes_lookup s' (put_node v n' s) w m) as (m0 & Hw0 & He & _ & Hs);
      [by apply same_nodes_sym|done|]. cbn [put_node set_vnodes vnodes] in Hw0.
    apply lookup_insert_Some in Hw0 as [[<- <-]|[Hne Hw0]]; [left; split; congruence|].
    right. split; [done|]. exists m0. split_and!; congruence. }
  assert (∀ w m, w ≠ v → vnodes s !! w = Some m → ∃ m', vnodes s' !! w = Some m' ∧ v_file m' = v_file m) as Hfwd.
  { intros w m Hne Hw. destruct (same_nodes_lookup (put_node v n' s) s' w m) as (m' & Hw' & He & _); [done| |by exists m'].
    cbn. by rewrite lookup_insert_ne. }
  assert (∃ m', vnodes s' !! v = Some m' ∧ v_file m' = Some f) as (mv & Hmv & Hmf).
  { destruct (same_nodes_lookup (put_node v n' s) s' v n') as (m' & Hw' & He & _); [done|by apply lookup_insert_eq|].
    exists m'. split; congruence. }
  assert (∀ k, find_page s' (v, k) = None) as Hnov.
  { intros k. specialize (Hp (v, k)). rewrite decide_True in Hp by done. by apply fmap_None in Hp. }
  split; [done| | | |].
  - intros w m g Hw Hg. cbn [upd bytes_of]. destruct (Hback w m Hw) as [[-> Hm]|(Hne & m0 & Hw0 & He & Hs)].
    + assert (g = f) as -> by congruence. exists l. rewrite Hfc, decide_True by done. split; [done|].
      rewrite decide_True by done. split; [done| |..].
      * eapply (fl_length (files s') f); [done|]. by rewrite Hfc, decide_True.
      * intros k x. by rewrite Hnov.
      * done.
      * intros k x _. by rewrite Hnov.
    + destruct (Hfile w m0 g) as (B & HB & Hcoh); [done|congruence|]. exists B. rewrite Hfc, decide_False.
      2: { intros ->. apply Hne. apply (Hinj w v m0 n f); congruence. }
      split; [done|]. rewrite decide_False by done. eapply coh_view; [done| |intros k x _; by rewrite Hr|done].
      intros k. by rewrite Hp, decide_False.
  - intros w m k Hw Hg. destruct (Hback w m Hw) as [[-> Hm]|(Hne & m0 & Hw0 & He & _)]; [congruence|].
    specialize (Hp (w, k)). rewrite decide_False, (Hnone w m0 k Hw0) in Hp by (done || congruence).
    by apply fmap_None in Hp.
  - intros v1 v2 n1 n2 g H1 H2 Hf1 Hf2.
    destruct (Hback _ _ H1) as [[-> E1]|(Hne1 & m1 & Hm1 & E1 & _)], (Hback _ _ H2) as [[-> E2]|(Hne2 & m2 & Hm2 & E2 & _)];
      [done|apply (Hinj v v2 n m2 g); congruence|apply (Hinj v1 v m1 n g); congruence|
       apply (Hinj v1 v2 m1 m2 g); congruence].
  - intros g Hno. rewrite Hfc, decide_False by (intros ->; by eapply Hno). apply Hrest. intros w m Hw He.
    destruct (decide (w = v)) as [->|Hne]; [apply (Hno v mv); congruence|].
    destruct (Hfwd w m Hne Hw) as (m' & Hw' & E'). apply (Hno w m'); congruence.
Qed.

Lemma truncate_run c C s v n f new_size :
  cache_inv (1024 + c) C s → vnodes s !! v = Some n → v_file n = Some f → 0 <= new_size <= fl_max →
  ∃ s', vfs_truncate v new_size s = Fin (Ok tt) s' ∧ same_files s s' ∧
    cache_inv c (upd v (resize (Z.to_nat new_size) 0 (C v)) C) s'.
Proof.
  intros Hi Hv Hf Hsz. unfold vfs_truncate. rewrite (bind_run _ _ _ _ _ (as_file_run s v n f Hv Hf)).
  destruct (flush_run _ C s v n f Hi Hv Hf) as (s1 & Hr1 & (la1 & li1 & Hb1 & Hc1 & Hz1) & Hn1 & HB1).
  rewrite (bind_run _ _ _ _ _ Hr1).
  destruct (same_nodes_lookup s s1 v n Hn1 Hv) as (n1 & Hv1 & Hf1 & _). rewrite Hf in Hf1.
  destruct (fl_truncate_law (files s1) f (C v) new_size (ch_inv C s1 Hc1) HB1 Hsz) as (fs & Ht & Hinv & Hfc).
  rewrite (bind_run _ _ _ _ _ (with_files_run s1 _ _ _ Ht)).
  set (s2 := set_files fs s1). set (n2 := set_size new_size true n1).
  unfold reset_cached_file_size. rewrite (bind_run _ _ _ _ _ (set_vnode_run s2 v n1 _ Hv1)). fold n2.
  destruct (invalidate_run c (put_node v n2 s2) la1 li1 v n2) as (s3 & la3 & li3 & Hr3 & Hb3 & Hn3 & Hra3 & Hfi3 & Hp3).
  { eapply base_node; [|exact Hv1|done]. eapply quiet_base; [apply quiet_files|done]. }
  { apply lookup_insert_eq. }
  exists s3. split_and!; [done| |].
  - eapply same_files_trans; [by apply nodes_files|]. eapply same_files_trans; [|by apply nodes_files].
    by eapply (node_files s2 v n1).
  - exists la3, li3. split_and!; [done| |].
    + eapply (coherent_reset C s1 s3 v n1 n2 f); [done..| | | |].
      * by rewrite Hra3.
      * by rewrite Hfi3.
      * intros g. by rewrite Hfi3, <- Hfc.
      * intros q. rewrite Hp3. by rewrite (find_vnode s2 v n1 n2).
    + intros w m Hw Hsv. destruct (same_nodes_lookup s3 (put_node v n2 s2) w m) as (m0 & Hw0 & _ & <- & Hs);
        [by apply same_nodes_sym|done|]. cbn [put_node set_vnodes vnodes] in Hw0. cbn [upd bytes_of].
      apply lookup_insert_Some in Hw0 as [[<- <-]|[Hne Hw0]].
      * rewrite decide_True by done. rewrite length_resize. cbn. lia.
      * rewrite decide_False by done. apply (Hz1 w); [done|congruence].
Qed.

(** Nodes appear and go without pages. *)
Lemma base_vnodes c s la li h :
  base c s la li → (∀ q, find_page (set_vnodes h s) q = find_page s q) → tables (set_vnodes h s) →
  base c (set_vnodes h s) la li.
Proof.
  intros Hb Hf Ht. eapply base_core; [exact Hb| |done| |done|done|done].
  - intros q. by rewrite Hf.
  - eapply lists_other; [apply Hb| |done|done]. intros q _. apply Hf.
Qed.

Definition close (v f : Z) C : contents :=
  mkContents C (λ g, if decide (g = f) then Some (C v) else closed C g).

Lemma find_delete s v q :
  (∀ k, find_page s (v, k) = None) → find_page (set_vnodes (delete v) s) q = find_page s q.
Proof.
  intros Hno. destruct q as [w k]. destruct (decide (w = v)) as [->|Hne].
  - rewrite Hno. unfold find_page. cbn. by rewrite lookup_delete_eq.
  - unfold find_page. cbn. by rewrite lookup_delete_ne.
Qed.

Lemma coherent_delete C s v n f :
  coherent C s → vnodes s !! v = Some n → v_file n = Some f → (∀ k, find_page s (v, k) = None) →
  coherent (close v f C) (set_vnodes (delete v) s).
Proof.
  intros Hc Hv Hf Hno. pose proof (λ q, find_delete s v q Hno) as Hfd.
  assert (fl_content (files s) f = Some (C v)) as HB.
  { apply (clean_content C s v n f Hc Hv Hf). intros k x. by rewrite Hno. }
  destruct Hc as [Hinv Hfile Hnone Hinj Hrest].
  assert (∀ w m, vnodes (set_vnodes (delete v) s) !! w = Some m → vnodes s !! w = Some m) as Hback.
  { intros w m. cbn. by intros [_ ?]%lookup_delete_Some. }
  split; [done| | | |].
  - intros w m g Hw Hg. destruct (Hfile w m g) as (B & HB' & Hcoh); [by apply Hback|done|].
    exists B. split; [done|]. eapply coh_view; [done|intros k; by rewrite Hfd|done|done].
  - intros w m k Hw Hg. rewrite Hfd. eapply Hnone; [by apply Hback|done].
  - intros v1 v2 n1 n2 g H1 H2. apply Hinj; by apply Hback.
  - intros g Hno'. cbn. destruct (decide (g = f)) as [->|Hgf]; [done|]. apply Hrest. intros w m Hw He.
    destruct (decide (w = v)) as [->|Hne]; [congruence|]. apply (Hno' w m); [|done]. cbn. by rewrite lookup_delete_ne.
Qed.

Lemma put_node_same s v n : vnodes s !! v = Some n → same_nodes (put_node v n s) s.
Proof. intros Hn w. cbn. by rewrite insert_id. Qed.

(** [~VINode]: the file keeps the bytes. *)
Lemma close_run c C s v n f :
  cache_inv (1024 + c) C s → vnodes s !! v = Some n → v_file n = Some f →
  ∃ s', delete_vinode v s = Fin (Ok tt) s' ∧ cache_inv c (close v f C) s' ∧
    ∀ w, v_file <$> vnodes s' !! w = if decide (w = v) then None else v_file <$> vnodes s !! w.
Proof.
  intros Hi Hv Hf. unfold delete_vinode.
  destruct (flush_run _ C s v n f Hi Hv Hf) as (s1 & Hr1 & (la1 & li1 & Hb1 & Hc1 & Hz1) & Hn1 & HB1).
  rewrite (bind_run _ _ _ _ _ (attempt_run _ _ _ _ Hr1)).
  destruct (same_nodes_lookup s s1 v n Hn1 Hv) as (n1 & Hv1 & Hf1 & _). rewrite Hf in Hf1.
  destruct (invalidate_run c s1 la1 li1 v n1 Hb1 Hv1) as (s3 & la3 & li3 & Hr3 & Hb3 & Hn3 & Hra3 & Hfi3 & Hp3).
  rewrite (bind_run _ _ _ _ _ Hr3). destruct (same_nodes_lookup s1 s3 v n1 Hn3 Hv1) as (n3 & Hv3 & Hf3 & _).
  rewrite Hf1 in Hf3.
  assert (∀ k, find_page s3 (v, k) = None) as Hno.
  { intros k. specialize (Hp3 (v, k)). rewrite decide_True in Hp3 by done. by apply fmap_None in Hp3. }
  assert (coherent C s3) as Hc3.
  { eapply (coherent_ext (upd v (C v) C)); [apply upd_same|done|].
    eapply (coherent_reset C s1 s3 v n1 n1 f (C v)); try done.
    - eapply same_nodes_trans; [by apply put_node_same|done].
    - rewrite Hfi3. apply Hc1.
    - intros g. rewrite Hfi3. by destruct (decide (g = f)) as [->|]. }
  exists (set_vnodes (delete v) s3). split_and!; [done| |].
  - exists la3, li3. split_and!.
    + apply base_vnodes; [done|intros q; by apply find_delete|]. intros w m. cbn [set_vnodes vnodes].
      intros [_ Hw]%lookup_delete_Some. by apply (b_tables _ _ _ _ Hb3 w).
    + by eapply coherent_delete.
    + intros w m. cbn [set_vnodes vnodes]. intros [_ Hw]%lookup_delete_Some.
      by apply (sized_nodes C s1 s3 Hn3 Hz1 w).
  - intros w. cbn. destruct (decide (w = v)) as [->|Hne]; [by rewrite lookup_delete_eq|].
    rewrite lookup_delete_ne by done. rewrite (nodes_files _ _ Hn3), (nodes_files _ _ Hn1). done.
Qed.

(** [VINode::VINode] on a file that no other node is of. *)
Lemma open_run c C s v f l :
  cache_inv c C s → vnodes s !! v = None → (∀ w m, vnodes s !! w = Some m → v_file m ≠ Some f) →
  closed C f = Some l →
  ∃ s', new_vinode v (Some f) s = Fin (Ok tt) s' ∧ cache_inv c (upd v l C) s' ∧
    ∀ w, v_file <$> vnodes s' !! w = if decide (w = v) then Some (Some f) else v_file <$> vnodes s !! w.
Proof.
  intros (la & li & Hb & Hc & Hz) Hv Hfresh Hl. unfold new_vinode. set (n := mkVINode _ _ _ _).
  exists (put_node v n s). split; [done|].
  assert (∀ k, find_page s (v, k) = None) as Hno by (intros k; unfold find_page; cbn; by rewrite Hv).
  assert (∀ q, find_page (put_node v n s) q = find_page s q) as Hfd.
  { intros [w k]. destruct (decide (w = v)) as [->|Hne].
    - rewrite Hno. unfold find_page. cbn. rewrite lookup_insert_eq. cbn.
      by rewrite um_find_map, um_empty_map by apply um_empty_wf.
    - unfold find_page. cbn. by rewrite lookup_insert_ne. }
  assert (∀ w m, vnodes (put_node v n s) !! w = Some m → (w = v ∧ m = n) ∨ (w ≠ v ∧ vnodes s !! w = Some m)) as Hback.
  { intros w m. cbn [put_node set_vnodes vnodes]. rewrite lookup_insert_Some. naive_solver. }
  split; [exists la, li; split_and!|].
  - apply base_vnodes; [done|done|]. intros w m [[-> ->]|[_ Hw]]%Hback; [by apply um_empty_wf|].
    by apply (b_tables _ _ _ _ Hb w).
  - destruct Hc as [Hinv Hfile Hnone Hinj Hrest].
    assert (fl_content (files s) f = Some l) as HB by (by rewrite Hrest).
    split; [done| | | |].
    + intros w m g Hw Hg. cbn [upd bytes_of]. destruct (Hback w m Hw) as [[-> ->]|[Hne Hw0]].
      * injection Hg as <-. exists l. rewrite decide_True by done. split; [done|].
        split; [done|by eapply fl_length|intros k x; by rewrite Hfd, Hno|done|intros k x _; by rewrite Hfd, Hno].
      * rewrite decide_False by done. destruct (Hfile w m g Hw0 Hg) as (B & HB' & Hcoh). exists B. split; [done|].
        eapply coh_view; [done|intros k; by rewrite Hfd|done|done].
    + intros w m k Hw Hg. rewrite Hfd. destruct (Hback w m Hw) as [[-> ->]|[_ Hw0]]; [done|by eapply Hnone].
    + intros v1 v2 n1 n2 g H1 H2 Hf1 Hf2. destruct (Hback _ _ H1) as [[-> ->]|[_ Hw1]], (Hback _ _ H2) as [[-> ->]|[_ Hw2]];
        [done|injection Hf1 as <-; by destruct (Hfresh v2 n2)|injection Hf2 as <-; by destruct (Hfresh v1 n1)|
         by apply (Hinj v1 v2 n1 n2 g)].
    + intros g Hg. apply Hrest. intros w m Hw. apply (Hg w m). cbn. rewrite lookup_insert_ne; [done|congruence].
  - intros w m Hw Hsv. destruct (Hback w m Hw) as [[-> ->]|[Hne Hw0]]; [done|].
    cbn [upd bytes_of]. rewrite decide_False by done. by apply (Hz w).
  - intros w. cbn. destruct (decide (w = v)) as [->|]; [by rewrite lookup_insert_eq|by rewrite lookup_insert_ne].
Qed.

End ops.
End CacheFile.
