(* ===== verification/PageCacheRefines.v ===== *)
(** * The page cache is transparent

    The specification of the cached files of [kernel/vfs/vfs.cpp]: files are sequences of
    bytes that opening, closing, eviction and write-back do not change.  Every sequence of
    operations gives the answers of the specification, or stops with an error of the
    page-frame allocator; when no node is left the file system below holds the bytes. *)

From S2P Require Import Prelude ErrCode Addr Buddy Gfp Memory MemFrames HashMap TmpFs PageCache.
From S2P Require Import PageCacheInv PageCacheSpec PageCacheOps PageCacheFile.
Import Memory(PageFrames, pf_get, pf_put, pf_inv, pf_get_law, pf_put_law, pf_less, pf_ext,
  frame_ok, fo_pos, fo_align, fo_limit).
Import PageCache LruFacts Slices CacheInv CacheSpec CacheOps CacheFile.

#[local] Open Scope Z_scope.

Module CacheRefines.

Inductive op :=
  | Open (v f : Z)
  | Read (v off len : Z)
  | Write (v off : Z) (bytes : list Z)
  | Size (v : Z)
  | Truncate (v n : Z)
  | Flush (v : Z)
  | Close (v : Z).

Inductive answer := Bytes (l : list Z) | Count (n : Z) | Done.

(** ** The specification *)

(** [nodes] are the open nodes with their files, [data] the bytes of every file. *)
Record fstate := mkF { nodes : gmap Z Z; data : Z → option (list Z) }.

Definition set_data (f : Z) (l : list Z) (D : fstate) : fstate :=
  mkF (nodes D) (λ g, if decide (g = f) then Some l else data D g).

#[global] Instance no_hole_dec off bytes l : Decision (no_hole off bytes l).
Proof. unfold no_hole. destruct (bool_decide (bytes = [])); apply _. Defined.

Definition file_of (v : Z) (D : fstate) : option (Z * list Z) :=
  f ← nodes D !! v; l ← data D f; Some (f, l).

(** [None] where the specification says nothing: a node that is not open, a second node
    on a file, a size beyond the largest file [max], a write that leaves a hole. *)
Definition spec_step (max : Z) (D : fstate) (o : op) : option (answer * fstate) :=
  match o with
  | Open v f =>
      _ ← data D f;
      if bool_decide (nodes D !! v = None) && bool_decide (f ∉ (map_to_list (nodes D)).*2)
      then Some (Done, mkF (<[v := f]> (nodes D)) (data D)) else None
  | Read v off len =>
      '(f, l) ← file_of v D;
      if bool_decide (0 <= off < 2 ^ 63) && bool_decide (0 <= len < W64)
      then Some (Bytes (take (Z.to_nat len) (drop (Z.to_nat off) l)), D) else None
  | Write v off bytes =>
      '(f, l) ← file_of v D;
      if bool_decide (0 <= off) && bool_decide (off + Z.of_nat (length bytes) <= max) &&
         bool_decide (no_hole off bytes l)
      then Some (Count (Z.of_nat (length bytes)), set_data f (overwrite off bytes l) D) else None
  | Size v => '(f, l) ← file_of v D; Some (Count (Z.of_nat (length l)), D)
  | Truncate v n =>
      '(f, l) ← file_of v D;
      if bool_decide (0 <= n <= max) then Some (Done, set_data f (resize (Z.to_nat n) 0 l) D) else None
  | Flush v => '(f, l) ← file_of v D; Some (Done, D)
  | Close v => '(f, l) ← file_of v D; Some (Done, mkF (delete v (nodes D)) (data D))
  end.

Fixpoint spec_run (max : Z) (D : fstate) (l : list op) : option (list answer * fstate) :=
  match l with
  | [] => Some ([], D)
  | o :: l =>
      '(a, D) ← spec_step max D o;
      '(rest, D) ← spec_run max D l;
      Some (a :: rest, D)
  end.

(** ** The code *)

Section run.
Context {G F : Type} {UI : Type → Type} `{!PageFrames G} `{!IFile F} `{!FileLaws F} `{!UMap Z UI}.
Implicit Types (s : vfs (G := G) (F := F) (UI := UI)) (D : fstate) (C : contents).

Definition exec (o : op) : M (vfs (G := G) (F := F) (UI := UI)) answer :=
  match o with
  | Open v f => _ ← new_vinode v (Some f); mret Done
  | Read v off len => l ← vfs_read v off true len; mret (Bytes l)
  | Write v off bytes => n ← vfs_write v off (Some bytes) (Z.of_nat (length bytes)); mret (Count n)
  | Size v => n ← vfs_size v; mret (Count n)
  | Truncate v n => _ ← vfs_truncate v n; mret Done
  | Flush v => _ ← flush_file_pages v; mret Done
  | Close v => _ ← delete_vinode v; mret Done
  end.

Fixpoint exec_all (l : list op) : M (vfs (G := G) (F := F) (UI := UI)) (list answer) :=
  match l with
  | [] => mret []
  | o :: l => a ← exec o; rest ← exec_all l; mret (a :: rest)
  end.

(** How often an operation may ask for or return a page frame. *)
Definition cost (o : op) : nat :=
  match o with
  | Read _ _ len => 2 * page_rounds len
  | Write _ _ bytes => 2 * page_rounds (Z.of_nat (length bytes))
  | Truncate _ _ | Close _ => 1024
  | Open _ _ | Size _ | Flush _ => 0
  end.

(** The state of the cache and the files it stands for. *)
Record shows (c : nat) C D s : Prop := {
  sh_inv : cache_inv c C s;
  sh_nodes v : v_file <$> vnodes s !! v = Some <$> nodes D !! v;
  sh_open v f : nodes D !! v = Some f → data D f = Some (C v);
  sh_closed f : (∀ v, nodes D !! v ≠ Some f) → data D f = closed C f;
}.

Definition rel (c : nat) D s : Prop := ∃ C, shows c C D s.

Lemma shows_node c C D s v f l :
  shows c C D s → file_of v D = Some (f, l) →
  C v = l ∧ nodes D !! v = Some f ∧ ∃ n, vnodes s !! v = Some n ∧ v_file n = Some f.
Proof.
  intros Hs. unfold file_of. destruct (nodes D !! v) as [f'|] eqn:Hf; [|done]. cbn.
  rewrite (sh_open _ _ _ _ Hs v f' Hf). cbn. intros [= -> <-]. split_and!; [done..|].
  pose proof (sh_nodes _ _ _ _ Hs v) as Hn. rewrite Hf in Hn. cbn in Hn.
  apply fmap_Some in Hn as (n & Hn & He). by exists n.
Qed.

Lemma shows_same c c' C D s s' : shows c C D s → same_files s s' → cache_inv c' C s' → shows c' C D s'.
Proof. intros [? Hn ? ?] Hf Hi. split; [done| |done..]. intros v. by rewrite Hf, Hn. Qed.

Lemma shows_inj c C D s v1 v2 f :
  shows c C D s → nodes D !! v1 = Some f → nodes D !! v2 = Some f → v1 = v2.
Proof.
  intros [(la & li & _ & Hc & _) Hn _ _] H1 H2. pose proof (Hn v1) as E1. pose proof (Hn v2) as E2.
  rewrite H1 in E1. rewrite H2 in E2. cbn in *.
  apply fmap_Some in E1 as (n1 & E1 & F1). apply fmap_Some in E2 as (n2 & E2 & F2).
  by apply (ch_inj C s Hc v1 v2 n1 n2 f).
Qed.

Lemma shows_data c c' C D s s' v f l :
  shows c C D s → nodes D !! v = Some f → same_files s s' → cache_inv c' (upd v l C) s' →
  shows c' (upd v l C) (set_data f l D) s'.
Proof.
  intros Hs Hf Hsf Hi. pose proof Hs as [_ Hn Ho Hcl]. split; [done| | |].
  - intros w. cbn [set_data nodes]. by rewrite Hsf, Hn.
  - intros w g Hw. cbn [set_data nodes data upd bytes_of] in *. destruct (decide (g = f)) as [->|Hgf].
    + rewrite decide_True; [done|]. by eapply shows_inj.
    + rewrite decide_False by congruence. by apply Ho.
  - intros g Hg. cbn [set_data nodes data upd closed] in *. rewrite decide_False by (intros ->; by eapply Hg). by apply Hcl.
Qed.

Definition meets c D' a (r : Result answer) s' : Prop :=
  match r with Ok a' => a' = a ∧ rel c D' s' | Err e => alloc_err (G := G) e end.

Lemma step_open c D s v f a D' :
  rel c D s → spec_step fl_max D (Open v f) = Some (a, D') →
  ∃ r s', exec (Open v f) s = Fin r s' ∧ meets c D' a r s'.
Proof.
  intros [C Hs]. cbn [spec_step]. destruct (data D f) as [l|] eqn:Hl; [|done]. cbn [mbind option_bind].
  destruct (_ && _) eqn:Hg; [|done]. intros [= <- <-].
  apply andb_true_iff in Hg as [Hv%bool_decide_eq_true Hnew%bool_decide_eq_true].
  assert (∀ w, nodes D !! w ≠ Some f) as Hfresh.
  { intros w Hw. apply Hnew. apply list_elem_of_fmap. exists (w, f). split; [done|]. by apply elem_of_map_to_list. }
  pose proof Hs as [Hi Hn Ho Hcl].
  destruct (open_run c C s v f l Hi) as (s' & Hr & Hi' & Hn').
  - specialize (Hn v). rewrite Hv in Hn. by apply fmap_None in Hn.
  - intros w m Hw He. specialize (Hn w). rewrite Hw in Hn. cbn in Hn. rewrite He in Hn. symmetry in Hn.
    apply fmap_Some in Hn as (g & Hg & [= ->]). by apply (Hfresh w).
  - by rewrite <- Hcl.
  - exists (Ok Done), s'. cbn [exec]. rewrite (bind_run _ _ _ _ _ Hr). split; [done|]. split; [done|].
    exists (upd v l C). split; [done| | |].
    + intros w. rewrite Hn'. cbn. destruct (decide (w = v)) as [->|]; [by rewrite lookup_insert_eq|].
      by rewrite lookup_insert_ne.
    + intros w g. cbn. destruct (decide (w = v)) as [->|]; [rewrite lookup_insert_eq; by intros [= <-]|].
      rewrite lookup_insert_ne by done. apply Ho.
    + intros g Hg. cbn in *. apply Hcl. intros w Hw. apply (Hg w). rewrite lookup_insert_ne; [done|congruence].
Qed.

Lemma step_close c D s v a D' :
  rel (1024 + c) D s → spec_step fl_max D (Close v) = Some (a, D') →
  ∃ r s', exec (Close v) s = Fin r s' ∧ meets c D' a r s'.
Proof.
  intros [C Hs]. cbn [spec_step]. destruct (file_of v D) as [[f l]|] eqn:Hf; [|done]. cbn. intros [= <- <-].
  destruct (shows_node _ _ _ _ _ _ _ Hs Hf) as (Hl & Hv & n & Hn & Hvf).
  destruct (close_run c C s v n f (sh_inv _ _ _ _ Hs) Hn Hvf) as (s' & Hr & Hi & Hn').
  exists (Ok Done), s'. cbn [exec]. rewrite (bind_run _ _ _ _ _ Hr). split; [done|]. split; [done|].
  exists (close v f C). pose proof Hs as [_ Hno Ho Hcl]. split; [done| | |].
  - intros w. rewrite Hn'. cbn. destruct (decide (w = v)) as [->|]; [by rewrite lookup_delete_eq|].
    by rewrite lookup_delete_ne.
  - intros w g. cbn. intros [_ Hw]%lookup_delete_Some. by apply Ho.
  - intros g Hg. cbn in *. destruct (decide (g = f)) as [->|]; [by apply Ho|]. apply Hcl. intros w Hw.
    apply (Hg w). rewrite lookup_delete_ne; [done|congruence].
Qed.

Lemma step_read c D s v off len a D' :
  rel (2 * page_rounds len + c) D s → spec_step fl_max D (Read v off len) = Some (a, D') →
  ∃ r s', exec (Read v off len) s = Fin r s' ∧ meets c D' a r s'.
Proof.
  intros [C Hs]. cbn [spec_step]. destruct (file_of v D) as [[f l]|] eqn:Hf; [|done]. cbn [mbind option_bind].
  destruct (_ && _) eqn:Hg; [|done]. intros [= <- <-].
  apply andb_true_iff in Hg as [Hoff%bool_decide_eq_true Hlen%bool_decide_eq_true].
  destruct (shows_node _ _ _ _ _ _ _ Hs Hf) as (Hl & Hv & n & Hn & Hvf).
  destruct (vfs_read_run c C s v n f off len (sh_inv _ _ _ _ Hs) Hn Hvf Hoff Hlen) as (r & s' & Hr & Hi & Hsf & HQ).
  cbn [exec]. destruct r as [bytes|e].
  - exists (Ok (Bytes bytes)), s'. rewrite (bind_run _ _ _ _ _ Hr). split; [done|]. rewrite HQ, Hl. split; [done|].
    exists C. by eapply shows_same.
  - exists (Err e), s'. by rewrite (bind_run_err _ _ _ _ _ Hr).
Qed.

Lemma step_write c D s v off bytes a D' :
  rel (2 * page_rounds (Z.of_nat (length bytes)) + c) D s →
  spec_step fl_max D (Write v off bytes) = Some (a, D') →
  ∃ r s', exec (Write v off bytes) s = Fin r s' ∧ meets c D' a r s'.
Proof.
  intros [C Hs]. cbn [spec_step]. destruct (file_of v D) as [[f l]|] eqn:Hf; [|done]. cbn [mbind option_bind].
  destruct (_ && _) eqn:Hg; [|done]. intros [= <- <-].
  apply andb_true_iff in Hg as [[Hoff%bool_decide_eq_true Hmax%bool_decide_eq_true]%andb_true_iff
    Hhole%bool_decide_eq_true].
  destruct (shows_node _ _ _ _ _ _ _ Hs Hf) as (Hl & Hv & n & Hn & Hvf). subst l.
  destruct (cache_write_run c C s v n f off bytes (sh_inv _ _ _ _ Hs) Hn Hvf Hoff Hmax Hhole) as (r & s' & Hr & Hsf & HQ).
  cbn [exec]. destruct r as [w|e].
  - destruct HQ as [-> Hi]. eexists (Ok _), s'. rewrite (bind_run _ _ _ _ _ Hr). split; [done|]. split; [done|].
    exists (upd v (overwrite off bytes (C v)) C). by eapply shows_data.
  - exists (Err e), s'. rewrite (bind_run_err _ _ _ _ _ Hr). split; [done|]. apply HQ.
Qed.

Lemma step_size c D s v a D' :
  rel c D s → spec_step fl_max D (Size v) = Some (a, D') →
  ∃ r s', exec (Size v) s = Fin r s' ∧ meets c D' a r s'.
Proof.
  intros [C Hs]. cbn [spec_step]. destruct (file_of v D) as [[f l]|] eqn:Hf; [|done]. cbn. intros [= <- <-].
  destruct (shows_node _ _ _ _ _ _ _ Hs Hf) as (Hl & Hv & n & Hn & Hvf).
  destruct (cache_size_run c C s v n f (sh_inv _ _ _ _ Hs) Hn Hvf) as (s' & Hr & Hi & Hsf & _).
  eexists (Ok _), s'. cbn [exec]. rewrite (bind_run _ _ _ _ _ Hr). split; [done|]. rewrite Hl. split; [done|].
  exists C. by eapply shows_same.
Qed.

Lemma step_truncate c D s v n a D' :
  rel (1024 + c) D s → spec_step fl_max D (Truncate v n) = Some (a, D') →
  ∃ r s', exec (Truncate v n) s = Fin r s' ∧ meets c D' a r s'.
Proof.
  intros [C Hs]. cbn [spec_step]. destruct (file_of v D) as [[f l]|] eqn:Hf; [|done]. cbn [mbind option_bind].
  case_bool_decide as Hsz; [|done]. intros [= <- <-].
  destruct (shows_node _ _ _ _ _ _ _ Hs Hf) as (Hl & Hv & m & Hn & Hvf). subst l.
  destruct (truncate_run c C s v m f n (sh_inv _ _ _ _ Hs) Hn Hvf Hsz) as (s' & Hr & Hsf & Hi).
  exists (Ok Done), s'. cbn [exec]. rewrite (bind_run _ _ _ _ _ Hr). split; [done|]. split; [done|].
  exists (upd v (resize (Z.to_nat n) 0 (C v)) C). by eapply shows_data.
Qed.

Lemma step_flush c D s v a D' :
  rel c D s → spec_step fl_max D (Flush v) = Some (a, D') →
  ∃ r s', exec (Flush v) s = Fin r s' ∧ meets c D' a r s'.
Proof.
  intros [C Hs]. cbn [spec_step]. destruct (file_of v D) as [[f l]|] eqn:Hf; [|done]. cbn. intros [= <- <-].
  destruct (shows_node _ _ _ _ _ _ _ Hs Hf) as (Hl & Hv & n & Hn & Hvf).
  destruct (flush_run c C s v n f (sh_inv _ _ _ _ Hs) Hn Hvf) as (s' & Hr & Hi & Hnd & _).
  exists (Ok Done), s'. cbn [exec]. rewrite (bind_run _ _ _ _ _ Hr). split; [done|]. split; [done|].
  exists C. eapply shows_same; [done|by apply nodes_files|done].
Qed.

Lemma step_run c D s o a D' :
  rel (cost o + c) D s → spec_step fl_max D o = Some (a, D') →
  ∃ r s', exec o s = Fin r s' ∧ meets c D' a r s'.
Proof.
  destruct o; cbn [cost];
    eauto using step_open, step_read, step_write, step_size, step_truncate, step_flush, step_close.
Qed.

(** What the file system holds of the files that are not open. *)
Lemma rel_files c D s f :
  rel c D s → (∀ v, nodes D !! v ≠ Some f) → fl_content (files s) f = data D f.
Proof.
  intros [C [(la & li & _ & Hc & _) Hn Ho Hcl]] Hf. rewrite (Hcl f Hf). apply (ch_rest C s Hc).
  intros v n Hv He. specialize (Hn v). rewrite Hv in Hn. cbn in Hn. rewrite He in Hn. symmetry in Hn.
  apply fmap_Some in Hn as (g & Hg & [= ->]). by eapply Hf.
Qed.

(** An empty cache over a file system. *)
Definition fresh (g : G) (fs : F) : vfs (G := G) (F := F) (UI := UI) :=
  mkVfs ∅ (None, None) (None, None) (λ _, 0) g ∅ fs.

Lemma fresh_rel c g fs d :
  pf_inv (λ _, 0) c g → fl_inv fs → (∀ f, d f = fl_content fs f) → rel c (mkF ∅ d) (fresh g fs).
Proof.
  intros Hg Hfs Hd. exists (mkContents (λ _, []) (fl_content fs)).
  split; [|intros v; cbn; by rewrite !lookup_empty|intros v f; cbn; by rewrite lookup_empty|done].
  exists [], []. split_and!.
  - assert (∀ q, find_page (fresh g fs) q = None) as Hno by (intros q; unfold find_page; cbn; by rewrite lookup_empty).
    split.
    + intros v n. cbn. by rewrite lookup_empty.
    + split; split; try done; constructor.
    + intros q x. by rewrite Hno.
    + intros v k x. by rewrite Hno.
    + done.
    + done.
    + intros p q x y. by rewrite Hno.
    + exists (λ _, 0). split; [done|]. intros q x. by rewrite Hno.
  - split; try done; intros v; intros; by rewrite lookup_empty in *.
  - intros v n. cbn. by rewrite lookup_empty.
Qed.

Definition costs (l : list op) : nat := sum_list (cost <$> l).

(** C10: The page cache does not show to those who use files within the limits of the
    specification: each file is open through at most one node, the nodes used are open,
    a read starts below 2^63 and asks for less than 2^64 bytes, no size or end of a
    write is above the largest file of the file system below (64 MiB for tmpfs), and the
    page a write begins in starts within the file or at its end, so that no page is left
    out (a file with such a hole reads differently, [page_cache_hole_unread]).  From any
    state in which the cache and the file system stand for the files [D], every sequence
    of opens, reads, writes, size queries, truncations, flushes and closes within these
    limits, one after the other, runs to its end with the answers of the specification,
    whatever is cached, evicted and written back in between, or stops with an error of
    the page-frame allocator; in the first case the file system itself holds afterwards
    the bytes of every file that no node is open on. *)
Theorem page_cache_refines c D s l answers D' :
  rel (costs l + c) D s → spec_run fl_max D l = Some (answers, D') →
  ∃ r s', exec_all l s = Fin r s' ∧
    match r with
    | Ok a => a = answers ∧ rel c D' s' ∧
        ∀ f, (∀ v, nodes D' !! v ≠ Some f) → fl_content (files s') f = data D' f
    | Err e => alloc_err (G := G) e
    end.
Proof.
  revert D s answers. induction l as [|o l IH]; intros D s answers Hrel; cbn [spec_run exec_all].
  { intros [= <- <-]. exists (Ok []), s. split_and!; [done..|]. intros f. by eapply rel_files. }
  destruct (spec_step fl_max D o) as [[a D1]|] eqn:Ho; [|done]. cbn [mbind option_bind].
  destruct (spec_run fl_max D1 l) as [[rest D2]|] eqn:Hl; [|done]. cbn. intros [= <- <-].
  destruct (step_run (costs l + c) D s o a D1) as (r & s1 & Hr & Hm); [|done|].
  { unfold costs in *. cbn in Hrel. by rewrite <- Nat.add_assoc in Hrel. }
  destruct r as [a'|e]; [|exists (Err e), s1; by rewrite (bind_run_err _ _ _ _ _ Hr)].
  destruct Hm as [-> Hrel1]. rewrite (bind_run _ _ _ _ _ Hr).
  destruct (IH D1 s1 rest Hrel1 Hl) as (r & s2 & Hr2 & HQ). destruct r as [as'|e].
  - destruct HQ as (-> & Hrel2 & Hfs). eexists (Ok _), s2. by rewrite (bind_run _ _ _ _ _ Hr2).
  - exists (Err e), s2. by rewrite (bind_run_err _ _ _ _ _ Hr2).
Qed.

End run.
End CacheRefines.

(** ** On the memory file system, hash tables and the growing page allocator *)

Module CacheWitness.
Import CacheRefines MemFrames.

#[local] Instance names : UMap string (HashMap.unordered_map string) := hash_umap HashMap.string_hash.
#[local] Instance inodes : UMap Z (HashMap.unordered_map Z) := hash_umap HashMap.trival_hash.
#[local] Instance file : IFile TmpFsWitness.sb := tmpfs_file (λ _, 99).
#[local] Instance laws : FileLaws TmpFsWitness.sb := tmpfs_laws (λ _, 99).

(** The file 2 holds five bytes. *)
Definition start : vfs (G := Gfp.gfp Gfp.linear) (UI := HashMap.unordered_map Z) :=
  fresh (Gfp.mkGfp (Gfp.mkLinear 0x80000000 0x80100000) ∅ 0) TmpFsWitness.final.

Definition five (d : Z → option (list Z)) : fstate :=
  mkF ∅ (λ f, if decide (f = 2) then Some [0; 0; 0; 7; 8] else d f).
Definition D0 : fstate := five (fl_content TmpFsWitness.final).

Lemma start_rel c : rel c D0 start.
Proof.
  apply fresh_rel.
  - split; [|split; [|split]].
    + split; [|split].
      * simpl. split; [by exists 0x80000|]. done.
      * intros q. change (0 <= default 0 ((∅ : gmap Z Z) !! q)). by rewrite lookup_empty.
      * intros q. unfold Gfp.ref. cbn [Gfp.refcounts]. rewrite lookup_empty. simpl. lia.
    + simpl. done.
    + intros q. unfold Gfp.ref. cbn [Gfp.refcounts]. by rewrite lookup_empty.
    + lia.
  - destruct (TmpFsSpec.exec_init 7 _ _ TmpFsWitness.trace_exec) as (_ & Hr & _); [vm_compute; reflexivity|exact Hr].
  - intros f. destruct (decide (f = 2)) as [->|]; [vm_compute; reflexivity|done].
Qed.

Definition session : list op :=
  [Open 1 2; Read 1 2 10; Write 1 4 [9; 9; 9]; Size 1; Truncate 1 6; Read 1 0 100; Close 1; Open 3 2; Size 3; Close 3].

Definition replies : list answer :=
  [Done; Bytes [0; 7; 8]; Count 3; Count 7; Done; Bytes [0; 0; 0; 7; 9; 9]; Done; Done; Count 6; Done].

Lemma session_spec d :
  ∃ D, spec_run TmpFs.MAX_TMPFS_FILE (five d) session = Some (replies, D) ∧
    data D 2 = Some [0; 0; 0; 7; 9; 9] ∧ nodes D = ∅.
Proof. eexists. split; [vm_compute; reflexivity|]. split; vm_compute; reflexivity. Qed.

Lemma page_cache_refines_witness :
  ∃ s', exec_all session start = Fin (Ok replies) s' ∧ file_content (files s') 2 = Some [0; 0; 0; 7; 9; 9].
Proof.
  destruct (session_spec (fl_content TmpFsWitness.final)) as (D & Hspec & Hd & Hn).
  destruct (page_cache_refines 0 D0 start session replies D (start_rel _) Hspec) as (r & s' & Hr & HQ).
  assert (match exec_all session start with Fin (Ok _) _ => true | _ => false end = true) as Hok
    by (vm_compute; reflexivity).
  rewrite Hr in Hok. destruct r as [a|e]; [|discriminate Hok]. destruct HQ as (-> & _ & Hf).
  exists s'. split; [exact Hr|]. rewrite <- Hd. apply Hf. intros v. rewrite Hn. discriminate.
Defined.

(** A file with a hole: the pages before the one written are not there, the size counts
    them, and a read of them sees the end of the file. *)
Definition hole : list op := [Open 1 2; Truncate 1 0; Write 1 4096 [1]; Size 1; Read 1 0 8192].

Theorem page_cache_hole_unread :
  ∃ s', exec_all hole start = Fin (Ok [Done; Done; Count 1; Count 4097; Bytes []]) s'.
Proof. eexists. vm_compute. reflexivity. Qed.

End CacheWitness.
