(* ===== verification/BlockQueue.v ===== *)
(** * Block requests

    [kernel/bio/request.h], [request.cpp] and the memory disk of [block.h], [block.cpp]:
    requests wait in the ring of a device until its worker takes them, hands them to the
    disk and settles the future that the submitter waits for.

    A future is named by its request: [futures] has what the promise was set to, [Some
    None] while it is pending, until the thread that waits takes it.  The memory that
    requests read and write is [mem], a map from pointers to arrays.  Threads that wait
    are not part of this file, the worker apart: they may run again at any time.
    A routine of a thread is one step; the worker's round has several, so that the disk may
    be slow and threads may submit between the worker's last look at the ring and its
    sleep.  In the source [submit] and [drain_and_stop] are sequences of sections under the
    lock of the queue. *)

From S2P Require Import Prelude ErrCode RingBuf TmpFs.

#[local] Open Scope Z_scope.

Module BlockQueue.

Inductive BlockOp := READ | WRITE | FLUSH.
Inductive BlockReqStatus := PENDING | SUBMITTED | PROCESSING | COMPLETED | FAILED | CANCELED.

#[global] Instance BlockReqStatus_eq_dec : EqDecision BlockReqStatus.
Proof. solve_decision. Defined.

(** [buffer] is a pointer into [mem], [None] the null pointer.  The field [result], which
    gets what the future gets, is never read. *)
Record BlockRequest := mkRequest {
  op : BlockOp;
  devno : Z;
  lba : Z;
  block_count : Z;
  buffer : option Z;
  status : BlockReqStatus;
}.

Definition set_status x (r : BlockRequest) : BlockRequest :=
  mkRequest (op r) (devno r) (lba r) (block_count r) (buffer r) x.

Record BlockRequestQueue := mkQueue {
  q_devno : Z;
  q_ring : RingBuffer Z;
  q_accepting : bool;
  q_stopped : bool;
}.

Record RamDiskDevice := mkDisk {
  D_block_size : Z;
  D_block_count : Z;
  D_base : list Z;
}.

(** Where the device's worker is: about to take a request, at the test of
    [locked_wait_event] after it found the ring empty, in the wait queue of the device,
    processing a request, or it has ended. *)
Inductive worker_state := Waiting | Checking | Asleep | Working (f : Z) | Ended.

Record io := mkIo {
  mem : gmap Z (list Z);
  reqs : gmap Z BlockRequest;
  futures : gmap Z (option (Result Z));
  next_req : Z;
  queue : BlockRequestQueue;
  disk : RamDiskDevice;
  worker : worker_state;
}.

Definition set_mem f s := mkIo (f (mem s)) (reqs s) (futures s) (next_req s) (queue s) (disk s) (worker s).
Definition set_reqs f s := mkIo (mem s) (f (reqs s)) (futures s) (next_req s) (queue s) (disk s) (worker s).
Definition set_futures f s := mkIo (mem s) (reqs s) (f (futures s)) (next_req s) (queue s) (disk s) (worker s).
Definition set_next f s := mkIo (mem s) (reqs s) (futures s) (f (next_req s)) (queue s) (disk s) (worker s).
Definition set_queue f s := mkIo (mem s) (reqs s) (futures s) (next_req s) (f (queue s)) (disk s) (worker s).
Definition set_base l s :=
  mkIo (mem s) (reqs s) (futures s) (next_req s) (queue s)
    (mkDisk (D_block_size (disk s)) (D_block_count (disk s)) l) (worker s).
Definition set_worker w s := mkIo (mem s) (reqs s) (futures s) (next_req s) (queue s) (disk s) w.

(** ** Memory and requests *)

Definition array (p : Z) : M io (list Z) :=
  a ← gets (λ s, mem s !! p); match a with Some l => mret l | None => panic end.
Definition request (r : Z) : M io BlockRequest :=
  x ← gets (λ s, reqs s !! r); match x with Some x => mret x | None => panic end.
Definition update_request (r : Z) (f : BlockRequest → BlockRequest) : M io unit :=
  x ← request r; modify (set_reqs (insert r (f x))).
(** [delete &done_req], which [on_complete] does. *)
Definition delete_request (r : Z) : M io unit := _ ← request r; modify (set_reqs (delete r)).

(** [PromiseResult<size_t>]: setting, and what the thread that waited takes. *)
Definition set_value (f : Z) (r : Result Z) : M io unit :=
  x ← gets (λ s, futures s !! f);
  match x with
  | Some None => modify (set_futures (insert f (Some r)))
  | _ => fail FUTURE_ERROR
  end.
Definition settled (s : io) (f : Z) : option (Result Z) := x ← futures s !! f; x.
Definition take_wait_result (f : Z) : M io unit := modify (set_futures (delete f)).

(** ** The queue *)

Definition new_queue (devno depth : Z) : BlockRequestQueue :=
  mkQueue devno (ring_new true (add64 depth 1)) true false.

Definition stopped (s : io) : bool := q_stopped (queue s).
Definition accepting (s : io) : bool := q_accepting (queue s).

(** [wait::locked_wake_all(_wait_wd, _lock)]: a worker in the wait queue runs again and
    repeats its test.  [_wait_wd] is a real descriptor, so that no error is returned. *)
Definition awake (w : worker_state) : worker_state := match w with Asleep => Checking | w => w end.
Definition wake_worker : M io unit := modify (λ s, set_worker (awake (worker s)) s).

Definition submit (r : Z) : M io unit :=
  q ← gets queue;
  if negb (q_accepting q) || q_stopped q then fail BUSY
  else
    _ ← massert (negb (ring_full (q_ring q)));
    let '(res, ring) := ring_push r (q_ring q) in
    match res with
    | inl _ => fail BUSY
    | inr _ =>
        _ ← modify (set_queue (λ q, mkQueue (q_devno q) ring (q_accepting q) (q_stopped q)));
        _ ← update_request r (set_status SUBMITTED);
        wake_worker
    end.

Definition try_dequeue : M io Z :=
  q ← gets queue;
  if ring_empty (q_ring q) then (if q_stopped q then fail FUTURE_CANCLED else fail ENTRY_NOT_FOUND)
  else
    match ring_front (q_ring q) with
    | None => panic
    | Some r =>
        let '(res, ring) := ring_pop (q_ring q) in
        match res with
        | inl _ => fail FAILURE
        | inr _ =>
            _ ← modify (set_queue (λ q, mkQueue (q_devno q) ring (q_accepting q) (q_stopped q)));
            mret r
        end
    end.

Definition mark_processing (r : Z) : M io unit :=
  x ← request r;
  if negb (bool_decide (status x = SUBMITTED)) then fail BUSY
  else update_request r (set_status PROCESSING).

Definition complete (r : Z) (result : Result Z) : M io unit :=
  x ← request r;
  if negb (bool_decide (status x = PROCESSING)) then fail BUSY
  else
    _ ← update_request r (set_status (if has_value result then COMPLETED else FAILED));
    _ ← set_value r result;
    delete_request r.

Definition cancel (r : Z) (error : ErrCode) : M io unit :=
  x ← request r;
  match status x with
  | PROCESSING | COMPLETED | FAILED | CANCELED => fail BUSY
  | _ =>
      _ ← update_request r (set_status CANCELED);
      _ ← set_value r (Err error);
      delete_request r
  end.

Definition stop_accepting : M io unit :=
  modify (set_queue (λ q, mkQueue (q_devno q) (q_ring q) false (q_stopped q))).

(** Each round takes a request out of the ring. *)
Fixpoint drain_loop (fuel : nat) (error : ErrCode) : M io unit :=
  r ← attempt try_dequeue;
  match r with
  | Ok r =>
      _ ← cancel r error;
      match fuel with O => no_fuel | S fuel => drain_loop fuel error end
  | Err e => if bool_decide (e = ENTRY_NOT_FOUND) || bool_decide (e = FUTURE_CANCLED) then mret tt else fail e
  end.

Definition drain_and_stop (error : ErrCode) : M io unit :=
  _ ← stop_accepting;
  n ← gets (λ s, ring_size (q_ring (queue s)));
  _ ← drain_loop (Z.to_nat n) error;
  _ ← modify (set_queue (λ q, mkQueue (q_devno q) (q_ring q) (q_accepting q) true));
  wake_worker.

(** ** The request layer *)

Definition new_future : M io Z :=
  f ← gets next_req;
  _ ← modify (set_next (λ n, n + 1));
  _ ← modify (set_futures (insert f None));
  mret f.

Definition make_error_future (e : ErrCode) : M io Z :=
  f ← new_future;
  r ← attempt (set_value f (Err e));
  _ ← massert (has_value r);
  mret f.

(** [alloc] is whether the heap had memory for the request. *)
Definition submit_async (alloc : bool) (o : BlockOp) (b : Z) (p : option Z) (cnt : Z) : M io Z :=
  if negb alloc then make_error_future OUT_OF_MEMORY
  else
    d ← gets (λ s, q_devno (queue s));
    f ← new_future;
    _ ← modify (set_reqs (insert f (mkRequest o d b cnt p PENDING)));
    r ← attempt (submit f);
    match r with
    | Ok _ => mret f
    | Err e =>
        r ← attempt (set_value f (Err e));
        _ ← massert (has_value r);
        _ ← delete_request f;
        mret f
    end.

Definition submit_read_async (alloc : bool) (b : Z) (p : option Z) (cnt : Z) : M io Z :=
  if bool_decide (p = None) && negb (cnt =? 0) then make_error_future NULLPTR
  else submit_async alloc READ b p cnt.
Definition submit_write_async (alloc : bool) (b : Z) (p : option Z) (cnt : Z) : M io Z :=
  if bool_decide (p = None) && negb (cnt =? 0) then make_error_future NULLPTR
  else submit_async alloc WRITE b p cnt.
Definition submit_flush_async (alloc : bool) : M io Z := submit_async alloc FLUSH 0 None 0.

Definition mark_request_processing (r : Z) : M io unit :=
  x ← request r;
  d ← gets (λ s, q_devno (queue s));
  if negb (devno x =? d) then fail INVALID_PARAM else mark_processing r.
Definition complete_request (r : Z) (result : Result Z) : M io unit :=
  x ← request r;
  d ← gets (λ s, q_devno (queue s));
  if negb (devno x =? d) then fail INVALID_PARAM else complete r result.

(** ** The memory disk *)

(** How many blocks of the disk the request covers, and its first byte there. *)
Definition clip (b cnt : Z) (d : RamDiskDevice) : Z :=
  if D_block_count d <? add64 b cnt then D_block_count d - b else cnt.

(** [memcpy] of [n] bytes between arrays that are long enough. *)
Definition copy_bytes (n from to : Z) (src dst : list Z) : M io (list Z) :=
  _ ← massert ((from + n <=? Z.of_nat (length src)) && (to + n <=? Z.of_nat (length dst)));
  mret (TmpFs.copy_in to (take (Z.to_nat n) (drop (Z.to_nat from) src)) dst).

Definition blocks_check (b cnt : Z) (p : option Z) (d : RamDiskDevice) : Result bool :=
  if bool_decide (p = None) && negb (cnt =? 0) then Err NULLPTR
  else if (b =? D_block_count d) && (cnt =? 0) then Ok false
  else if D_block_count d <=? b then Err OUT_OF_BOUNDARY
  else if cnt =? 0 then Ok false else Ok true.

Definition read_blocks (b : Z) (p : option Z) (cnt : Z) : M io Z :=
  d ← gets disk;
  go ← of_result (blocks_check b cnt p d);
  match p, go with
  | Some p, true =>
      let to_read := clip b cnt d in
      dst ← array p;
      l ← copy_bytes (to_read * D_block_size d) (b * D_block_size d) 0 (D_base d) dst;
      _ ← modify (set_mem (insert p l));
      mret to_read
  | _, _ => mret 0
  end.

Definition write_blocks (b : Z) (p : option Z) (cnt : Z) : M io Z :=
  d ← gets disk;
  go ← of_result (blocks_check b cnt p d);
  match p, go with
  | Some p, true =>
      let to_write := clip b cnt d in
      src ← array p;
      l ← copy_bytes (to_write * D_block_size d) 0 (b * D_block_size d) src (D_base d);
      _ ← modify (set_base l);
      mret to_write
  | _, _ => mret 0
  end.

Definition disk_sync : M io unit := mret tt.

Definition process_request (r : Z) : M io unit :=
  x ← request r;
  bs ← gets (λ s, D_block_size (disk s));
  result ← match op x with
           | READ => attempt (n ← read_blocks (lba x) (buffer x) (block_count x); mret (mul64 n bs))
           | WRITE => attempt (n ← write_blocks (lba x) (buffer x) (block_count x); mret (mul64 n bs))
           | FLUSH => attempt (_ ← disk_sync; mret 0)
           end;
  complete r result.

(** ** The loop of the worker

    [run_request_loop] in steps: [wait_and_dequeue] takes a request, or finds none, tests
    once more under the lock whether there is one, and sleeps until it is woken; then the
    request is processed. *)

Definition worker_take : M io unit :=
  r ← attempt try_dequeue;
  match r with
  | Ok r => m ← attempt (mark_processing r); modify (set_worker (if has_value m then Working r else Ended))
  | Err e =>
      if bool_decide (e = ENTRY_NOT_FOUND) then modify (set_worker Checking)
      else modify (set_worker Ended)
  end.

Definition worker_check : M io unit :=
  q ← gets queue;
  modify (set_worker (if q_stopped q || negb (ring_empty (q_ring q)) then Waiting else Asleep)).

Definition worker_process : M io unit :=
  w ← gets worker;
  match w with
  | Working r =>
      res ← attempt (process_request r);
      modify (set_worker (if has_value res then Waiting else Ended))
  | _ => mret tt
  end.

End BlockQueue.

(** ** What the queue promises to threads that wait *)

Module BlockQueueSpec.
Import BlockQueue.

(** The number of requests the ring of a device holds. *)
Definition DEPTH : Z := 128.

(** A future somebody waits for, and the request it is for. *)
Record want := mkWant { w_op : BlockOp; w_lba : Z; w_ptr : option Z }.

Definition count_of (o : BlockOp) : Z := match o with FLUSH => 0 | _ => 1 end.

Definition disk_ok (d : RamDiskDevice) : Prop :=
  0 < D_block_size d ∧ 0 <= D_block_count d ∧ D_block_size d * D_block_count d < W64 ∧
  Z.of_nat (length (D_base d)) = D_block_size d * D_block_count d.

(** [W] are the futures that are waited for, [l] the requests in the ring: every future is
    either settled, or its request is in the ring or with the worker. *)
Record io_ok (W : gmap Z want) (l : list Z) (s : io) : Prop := {
  k_ring : ring_rep (q_ring (queue s)) l;
  k_cap : D_capacity (q_ring (queue s)) = DEPTH + 1;
  k_dom f : is_Some (futures s !! f) ↔ is_Some (W !! f);
  k_req f : is_Some (reqs s !! f) ↔ futures s !! f = Some None;
  k_want f x w : reqs s !! f = Some x → W !! f = Some w →
    op x = w_op w ∧ lba x = w_lba w ∧ buffer x = w_ptr w ∧ block_count x = count_of (w_op w);
  k_status f x : reqs s !! f = Some x →
    (status x = SUBMITTED ∧ f ∈ l) ∨ (status x = PROCESSING ∧ worker s = Working f);
  k_queued f : f ∈ l → ∃ x, reqs s !! f = Some x ∧ status x = SUBMITTED;
  k_worker f : worker s = Working f → ∃ x, reqs s !! f = Some x ∧ status x = PROCESSING;
  k_nodup : NoDup l;
  k_next f : is_Some (futures s !! f) → f < next_req s;
  k_disk : disk_ok (disk s);
}.

(** Nothing a thread can see of the memory and the disk changes. *)
Definition io_same (s s' : io) : Prop := mem s' = mem s ∧ disk s' = disk s.

(** What no step of the worker touches. *)
Definition flags_same (s s' : io) : Prop :=
  q_devno (queue s') = q_devno (queue s) ∧ q_accepting (queue s') = q_accepting (queue s) ∧
  q_stopped (queue s') = q_stopped (queue s) ∧ next_req s' = next_req s.

Lemma gets_io {A} (f : io → A) s : gets f s = Fin (Ok (f s)) s.
Proof. done. Qed.
Lemma modify_io (f : io → io) s : modify f s = Fin (Ok tt) (f s).
Proof. done. Qed.
Lemma attempt_io {A} (m : M io A) s r s' : m s = Fin r s' → attempt m s = Fin (Ok r) s'.
Proof. intros Hm. unfold attempt. by rewrite Hm. Qed.

Lemma request_run s r x : reqs s !! r = Some x → request r s = Fin (Ok x) s.
Proof. intros Hx. unfold request, gets, mbind, M_bind. by rewrite Hx. Qed.

Lemma update_request_run s r x f :
  reqs s !! r = Some x → update_request r f s = Fin (Ok tt) (set_reqs (insert r (f x)) s).
Proof. intros Hx. unfold update_request. by rewrite (bind_run _ _ _ _ _ (request_run s r x Hx)). Qed.

Lemma delete_request_run s r x :
  reqs s !! r = Some x → delete_request r s = Fin (Ok tt) (set_reqs (delete r) s).
Proof. intros Hx. unfold delete_request. by rewrite (bind_run _ _ _ _ _ (request_run s r x Hx)). Qed.

Lemma promise_set_run s f r :
  futures s !! f = Some None → set_value f r s = Fin (Ok tt) (set_futures (insert f (Some r)) s).
Proof. intros Hf. unfold set_value. rewrite (bind_run _ _ _ _ _ (gets_io _ _)). by rewrite Hf. Qed.

(** A request that is in the table waits for its future. *)
Lemma pending_future W l s f x : io_ok W l s → reqs s !! f = Some x → futures s !! f = Some None.
Proof. intros Hk Hx. apply (k_req _ _ _ Hk). by eexists. Qed.


(** *** Settling *)

(** The request [f], which is in hand, is settled with [r] and deleted; [q] is the queue
    afterwards, [w] the state of the worker. *)
Lemma settle_ok W l l' s q w f r x y :
  io_ok W l s → reqs s !! f = Some x → (∀ g, g ∈ l' ↔ g ∈ l ∧ g ≠ f) → NoDup l' →
  (∀ g, w = Working g ↔ g ≠ f ∧ worker s = Working g) →
  ring_rep (q_ring q) l' → D_capacity (q_ring q) = DEPTH + 1 →
  io_ok W l' (mkIo (mem s) (delete f (<[f := y]> (reqs s))) (<[f := Some r]> (futures s)) (next_req s) q
    (disk s) w).
Proof.
  intros Hk Hx Hl Hnd Hw Hring Hcap. pose proof (pending_future W l s f x Hk Hx) as Hpf.
  rewrite delete_insert_eq. split; cbn; [done|done| | | | | | |done| |apply Hk].
  - intros g. rewrite <- (k_dom _ _ _ Hk). destruct (decide (g = f)) as [->|Hgf].
    + rewrite lookup_insert_eq, Hpf. split; by eexists.
    + by rewrite lookup_insert_ne.
  - intros g. destruct (decide (g = f)) as [->|Hgf].
    + rewrite lookup_delete_eq, lookup_insert_eq. split; [by intros []|done].
    + rewrite lookup_delete_ne, lookup_insert_ne by done. apply Hk.
  - intros g z wt. intros [Hgf Hz]%lookup_delete_Some. by apply Hk.
  - intros g z. intros [Hgf Hz]%lookup_delete_Some.
    destruct (k_status _ _ _ Hk g z Hz) as [[? ?]|[? ?]]; [left; split; [done|by apply Hl]|right].
    split; [done|]. apply Hw. by split; [apply not_eq_sym|].
  - intros g [Hg Hgf]%Hl. destruct (k_queued _ _ _ Hk g Hg) as (z & Hz & ?). exists z.
    by rewrite lookup_delete_ne by done.
  - intros g [Hgf Hg]%Hw. destruct (k_worker _ _ _ Hk g Hg) as (z & Hz & ?). exists z.
    by rewrite lookup_delete_ne by done.
  - intros g. destruct (decide (g = f)) as [->|]; [intros _; apply (k_next _ _ _ Hk); rewrite Hpf; by eexists|].
    rewrite lookup_insert_ne by done. apply Hk.
Qed.

(** The three steps that [complete] and [cancel] end with. *)
Lemma settle_request_run s f r x st :
  reqs s !! f = Some x → futures s !! f = Some None →
  (_ ← update_request f (set_status st); _ ← set_value f r; delete_request f) s =
  Fin (Ok tt) (mkIo (mem s) (delete f (<[f := set_status st x]> (reqs s))) (<[f := Some r]> (futures s)) (next_req s)
    (queue s) (disk s) (worker s)).
Proof.
  intros Hx Hf. rewrite (bind_run _ _ _ _ _ (update_request_run s f x _ Hx)). set (s1 := set_reqs _ s).
  rewrite (bind_run _ _ _ _ _ (promise_set_run s1 f r Hf)). set (s2 := set_futures _ s1).
  exact (delete_request_run s2 f _ (lookup_insert_eq _ _ _)).
Qed.

(** The worker may move as long as it has the same request. *)
Lemma io_ok_worker W l s w :
  io_ok W l s → (∀ f, w = Working f ↔ worker s = Working f) → io_ok W l (set_worker w s).
Proof.
  intros [K1 K2 K3 K4 K5 K6 K7 K8 K9 K10 K11] Hw. split; cbn; try done.
  - intros f x Hx. destruct (K6 f x Hx) as [?|[? ?]]; [by left|right]. split; [done|]. by apply Hw.
  - intros f Hf. apply K8. by apply Hw.
Qed.

Lemma awake_working w f : awake w = Working f ↔ w = Working f.
Proof. by destruct w. Qed.

Lemma complete_run W l s f x r :
  io_ok W l s → reqs s !! f = Some x → status x = PROCESSING →
  ∃ s', complete f r s = Fin (Ok tt) s' ∧ io_ok W l (set_worker Waiting s') ∧ io_same s s' ∧ flags_same s s' ∧
    futures s' = <[f := Some r]> (futures s).
Proof.
  intros Hk Hx Hst. unfold complete. rewrite (bind_run _ _ _ _ _ (request_run s f x Hx)), Hst.
  rewrite bool_decide_eq_true_2 by done. cbn [negb]. eexists.
  split; [by apply settle_request_run; [|eapply pending_future]|]. split; [|done].
  assert (worker s = Working f ∧ f ∉ l) as [Hw Hfl].
  { destruct (k_status _ _ _ Hk f x Hx) as [[? ?]|[? Hw]]; [congruence|]. split; [done|]. intros Hin.
    destruct (k_queued _ _ _ Hk f Hin) as (z & Hz & ?). congruence. }
  eapply (settle_ok W l l s); [done..| |apply Hk| |apply Hk|apply Hk].
  - intros g. split; [|by intros []]. intros Hg. split; [done|]. by intros ->.
  - intros g. rewrite Hw. naive_solver.
Qed.

(** *** Taking a request out of the ring *)

Lemma dequeue_run W f l s :
  io_ok W (f :: l) s →
  ∃ ring, try_dequeue s = Fin (Ok f) (set_queue (λ q, mkQueue (q_devno q) ring (q_accepting q) (q_stopped q)) s) ∧
    ring_rep ring l ∧ D_capacity ring = DEPTH + 1.
Proof.
  intros Hk. pose proof (k_ring _ _ _ Hk) as Hr. unfold try_dequeue.
  rewrite (bind_run _ _ _ _ _ (gets_io _ _)).
  assert (ring_empty (q_ring (queue s)) = false) as ->.
  { destruct (ring_empty _) eqn:E; [|done]. by apply (ring_empty_spec _ _ Hr) in E. }
  destruct (ring_pop_rep _ _ _ Hr) as (-> & ring & -> & Hr' & Hc). exists ring. split_and!; [done..|].
  by rewrite Hc, (k_cap _ _ _ Hk).
Qed.

Lemma dequeue_empty W s :
  io_ok W [] s → try_dequeue s = Fin (Err (if q_stopped (queue s) then FUTURE_CANCLED else ENTRY_NOT_FOUND)) s.
Proof.
  intros Hk. unfold try_dequeue. rewrite (bind_run _ _ _ _ _ (gets_io _ _)).
  rewrite (proj2 (ring_empty_spec _ _ (k_ring _ _ _ Hk))) by done. by destruct (q_stopped _).
Qed.

Lemma drain_loop_run W l s e fuel :
  io_ok W l s → (length l <= fuel)%nat →
  ∃ s', drain_loop fuel e s = Fin (Ok tt) s' ∧ io_ok W [] s' ∧ io_same s s' ∧ worker s' = worker s ∧
    q_accepting (queue s') = q_accepting (queue s) ∧ q_stopped (queue s') = q_stopped (queue s) ∧ next_req s' = next_req s ∧
    ∀ f, futures s' !! f = if decide (f ∈ l) then Some (Some (Err e)) else futures s !! f.
Proof.
  revert fuel s. induction l as [|f l IH]; intros fuel s Hk Hfuel.
  { exists s. split_and!; [|done..|]. 2: { intros f. by rewrite decide_False by apply not_elem_of_nil. }
    destruct fuel; cbn [drain_loop];
      rewrite (bind_run _ _ _ _ _ (attempt_io _ _ _ _ (dequeue_empty W s Hk))); by destruct (q_stopped _). }
  destruct fuel as [|fuel]; cbn in Hfuel; [lia|]. cbn [drain_loop].
  destruct (dequeue_run W f l s Hk) as (ring & Hd & Hring & Hcap).
  rewrite (bind_run _ _ _ _ _ (attempt_io _ _ _ _ Hd)). set (s1 := set_queue _ s).
  destruct (k_queued _ _ _ Hk f) as (x & Hx & Hst); [by left|].
  pose proof (pending_future W _ s f x Hk Hx) as Hpf.
  assert (cancel f e s1 = Fin (Ok tt) (mkIo (mem s) (delete f (<[f := set_status CANCELED x]> (reqs s)))
    (<[f := Some (Err e)]> (futures s)) (next_req s) (queue s1) (disk s) (worker s))) as Hc.
  { unfold cancel. rewrite (bind_run _ _ _ _ _ (request_run s1 f x Hx)), Hst. by apply (settle_request_run s1). }
  rewrite (bind_run _ _ _ _ _ Hc). set (s2 := mkIo _ _ _ _ _ _ _).
  pose proof (k_nodup _ _ _ Hk) as Hnd. apply NoDup_cons in Hnd as [Hfl Hnd].
  destruct (IH fuel s2) as (s3 & Hr & Hk3 & Hs3 & Hw3 & Ha3 & Hst3 & Hn3 & Hf3); [|lia|].
  { eapply (settle_ok W (f :: l) l s); [done..| |done| |done|done].
    - intros g. rewrite elem_of_cons. naive_solver.
    - intros g. split; [|by intros []]. intros Hg. split; [|done]. intros ->.
      destruct (k_worker _ _ _ Hk f Hg) as (z & Hz & ?). congruence. }
  exists s3. split_and!; [done..|]. intros g. rewrite Hf3. cbn. destruct (decide (g = f)) as [->|Hgf].
  - rewrite decide_False, lookup_insert_eq by done. by rewrite decide_True by left.
  - rewrite lookup_insert_ne by done. apply decide_ext. rewrite elem_of_cons. naive_solver.
Qed.

(** Stopping the queue settles the requests in the ring with the error. *)
Lemma drain_run W l s e :
  io_ok W l s →
  ∃ s', drain_and_stop e s = Fin (Ok tt) s' ∧ io_ok W [] s' ∧ io_same s s' ∧ worker s' = awake (worker s) ∧
    q_accepting (queue s') = false ∧ q_stopped (queue s') = true ∧ next_req s' = next_req s ∧
    ∀ f, futures s' !! f = if decide (f ∈ l) then Some (Some (Err e)) else futures s !! f.
Proof.
  intros Hk. unfold drain_and_stop, stop_accepting. rewrite (bind_run _ _ _ _ _ (modify_io _ _)).
  set (s1 := set_queue _ s). assert (io_ok W l s1) as Hk1 by (by destruct Hk).
  rewrite (bind_run _ _ _ _ _ (gets_io _ _)).
  destruct (drain_loop_run W l s1 e (Z.to_nat (ring_size (q_ring (queue s1)))) Hk1) as (s2 & Hr & Hk2 & Hs2 & Hw2 & Ha2 & Hst2 & Hn2 & Hf2).
  { rewrite (ring_size_spec _ _ (k_ring _ _ _ Hk1)). lia. }
  rewrite (bind_run _ _ _ _ _ Hr), (bind_run _ _ _ _ _ (modify_io _ _)). set (s3 := set_queue _ s2).
  assert (io_ok W [] s3) as Hk3 by (by destruct Hk2). exists (set_worker (awake (worker s3)) s3).
  split; [done|]. split; [apply io_ok_worker; [done|intros f; apply awake_working]|].
  split; [done|]. split; [by cbn; rewrite Hw2|]. by split_and!.
Qed.

(** *** The disk *)

Definition block (d : RamDiskDevice) (b : Z) : list Z :=
  take (Z.to_nat (D_block_size d)) (drop (Z.to_nat (b * D_block_size d)) (D_base d)).

Lemma block_length d b :
  disk_ok d → 0 <= b < D_block_count d → Z.of_nat (length (block d b)) = D_block_size d.
Proof.
  intros (Hs & Hc & Hm & Hl) Hb. unfold block. rewrite length_take, length_drop.
  assert (b * D_block_size d + D_block_size d <= D_block_size d * D_block_count d) by nia. lia.
Qed.

(** The disk with other bytes in block [b]. *)
Definition put_block (b : Z) (l : list Z) (d : RamDiskDevice) : RamDiskDevice :=
  mkDisk (D_block_size d) (D_block_count d) (TmpFs.copy_in (b * D_block_size d) l (D_base d)).

Lemma put_block_ok d b l :
  disk_ok d → 0 <= b < D_block_count d → Z.of_nat (length l) = D_block_size d → disk_ok (put_block b l d).
Proof.
  intros (Hs & Hc & Hm & Hl) Hb Hlen. unfold put_block. split_and!; cbn; [done..|].
  rewrite <- (Z2Nat.id (b * D_block_size d)) by nia. rewrite TmpFsSpec.length_copy_in; [done|].
  assert (b * D_block_size d + D_block_size d <= D_block_size d * D_block_count d) by nia. nia.
Qed.

Lemma put_block_get d b l c :
  disk_ok d → 0 <= b < D_block_count d → 0 <= c < D_block_count d → Z.of_nat (length l) = D_block_size d →
  block (put_block b l d) c = if decide (c = b) then l else block d c.
Proof.
  intros Hd Hb Hc Hlen. pose proof Hd as (Hs & H0 & Hm & Hl). apply list_eq. intros i. unfold block. cbn.
  set (bs := D_block_size d) in *. pose proof (put_block_ok d b l Hd Hb Hlen) as (_ & _ & _ & Hl').
  assert (∀ z, 0 <= z < D_block_count d → 0 <= z * bs ∧ z * bs + bs <= Z.of_nat (length (D_base d))) as Hbd by nia.
  destruct (Hbd b Hb) as [Hb1 Hb2]. destruct (Hbd c Hc) as [Hc1 Hc2].
  destruct (decide (i < Z.to_nat bs)%nat) as [Hi|Hi].
  2: { rewrite lookup_take_ge by lia. destruct (decide (c = b)); [by rewrite lookup_ge_None_2 by lia|].
       by rewrite lookup_take_ge by lia. }
  rewrite lookup_take_lt, lookup_drop by done.
  rewrite <- (Z2Nat.id (b * bs)), TmpFsSpec.copy_in_lookup by lia.
  destruct (decide (c = b)) as [->|Hcb].
  - rewrite decide_True by lia. f_equal. lia.
  - rewrite decide_False by nia. by rewrite lookup_take_lt, lookup_drop by done.
Qed.

(** What processing the request does: the answer, and the new memory and disk. *)
Definition effect (w : want) (m : gmap Z (list Z)) (d : RamDiskDevice)
    : Result Z * gmap Z (list Z) * RamDiskDevice :=
  match w_op w, w_ptr w with
  | READ, Some p =>
      if w_lba w <? D_block_count d then (Ok (D_block_size d), <[p := block d (w_lba w)]> m, d)
      else (Err OUT_OF_BOUNDARY, m, d)
  | WRITE, Some p =>
      if w_lba w <? D_block_count d
      then (Ok (D_block_size d), m, put_block (w_lba w) (default [] (m !! p)) d)
      else (Err OUT_OF_BOUNDARY, m, d)
  | _, _ => (Ok 0, m, d)
  end.

(** The memory of a request is there and holds a block. *)
Definition want_ok (w : want) (m : gmap Z (list Z)) (d : RamDiskDevice) : Prop :=
  is_u64 (w_lba w) ∧
  (w_op w ≠ FLUSH → ∃ p a, w_ptr w = Some p ∧ m !! p = Some a ∧ Z.of_nat (length a) = D_block_size d).

Lemma array_run s p a : mem s !! p = Some a → array p s = Fin (Ok a) s.
Proof. intros Ha. unfold array. rewrite (bind_run _ _ _ _ _ (gets_io _ _)). by rewrite Ha. Qed.

Lemma copy_bytes_run n from to src dst s :
  from + n <= Z.of_nat (length src) → to + n <= Z.of_nat (length dst) →
  copy_bytes n from to src dst s =
  Fin (Ok (TmpFs.copy_in to (take (Z.to_nat n) (drop (Z.to_nat from) src)) dst)) s.
Proof.
  intros H1 H2. unfold copy_bytes, massert. unfold mbind, M_bind.
  rewrite (proj2 (Z.leb_le _ _) H1), (proj2 (Z.leb_le _ _) H2). done.
Qed.

Lemma one_block d b p :
  disk_ok d → is_u64 b →
  blocks_check b 1 (Some p) d = (if b <? D_block_count d then Ok true else Err OUT_OF_BOUNDARY) ∧
  (b < D_block_count d → clip b 1 d = 1).
Proof.
  intros (Hs & Hc & Hm & Hl) Hb. unfold blocks_check, clip. cbn [bool_decide]. rewrite (bool_decide_eq_false_2) by done.
  cbn [andb]. rewrite andb_false_r. split.
  - by destruct (Z.ltb_spec b (D_block_count d)), (Z.leb_spec (D_block_count d) b); try lia.
  - intros Hlt. unfold add64. unfold is_u64 in Hb. rewrite wrap64_small by (unfold is_u64; nia).
    by rewrite (proj2 (Z.ltb_ge _ _)) by lia.
Qed.

Lemma read_blocks_run s b p a :
  disk_ok (disk s) → is_u64 b → mem s !! p = Some a → Z.of_nat (length a) = D_block_size (disk s) →
  read_blocks b (Some p) 1 s =
  if b <? D_block_count (disk s) then Fin (Ok 1) (set_mem (insert p (block (disk s) b)) s)
  else Fin (Err OUT_OF_BOUNDARY) s.
Proof.
  intros Hd Hb Ha Hl. destruct (one_block (disk s) b p Hd Hb) as [Hchk Hclip]. unfold read_blocks.
  rewrite (bind_run _ _ _ _ _ (gets_io _ _)), Hchk.
  destruct (Z.ltb_spec b (D_block_count (disk s))) as [Hlt|Hge]; [|done].
  rewrite (bind_run (of_result (Ok true)) _ s true s eq_refl), (Hclip Hlt).
  rewrite (bind_run _ _ _ _ _ (array_run s p a Ha)). destruct Hd as (Hs & Hc & Hm & Hlen). unfold is_u64 in Hb.
  rewrite Z.mul_1_l. set (bs := D_block_size (disk s)) in *.
  assert (b * bs + bs <= Z.of_nat (length (D_base (disk s)))) as Hend by nia.
  rewrite (bind_run _ _ _ _ _ (copy_bytes_run bs (b * bs) 0 _ a s Hend ltac:(lia))).
  rewrite (bind_run _ _ _ _ _ (modify_io _ _)). unfold block.
  assert (∀ l : list Z, length l = length a → TmpFs.copy_in 0 l a = l) as Hfull.
  { intros l Hll. unfold TmpFs.copy_in. cbn. rewrite drop_ge by lia. by rewrite app_nil_r. }
  rewrite Hfull; [done|]. rewrite length_take, length_drop. nia.
Qed.

Lemma write_blocks_run s b p a :
  disk_ok (disk s) → is_u64 b → mem s !! p = Some a → Z.of_nat (length a) = D_block_size (disk s) →
  write_blocks b (Some p) 1 s =
  if b <? D_block_count (disk s) then Fin (Ok 1) (set_base (D_base (put_block b a (disk s))) s)
  else Fin (Err OUT_OF_BOUNDARY) s.
Proof.
  intros Hd Hb Ha Hl. destruct (one_block (disk s) b p Hd Hb) as [Hchk Hclip]. unfold write_blocks.
  rewrite (bind_run _ _ _ _ _ (gets_io _ _)), Hchk.
  destruct (Z.ltb_spec b (D_block_count (disk s))) as [Hlt|Hge]; [|done].
  rewrite (bind_run (of_result (Ok true)) _ s true s eq_refl), (Hclip Hlt).
  rewrite (bind_run _ _ _ _ _ (array_run s p a Ha)). destruct Hd as (Hs & Hc & Hm & Hlen). unfold is_u64 in Hb.
  rewrite Z.mul_1_l. set (bs := D_block_size (disk s)) in *.
  assert (b * bs + bs <= Z.of_nat (length (D_base (disk s)))) as Hend by nia.
  rewrite (bind_run _ _ _ _ _ (copy_bytes_run bs 0 (b * bs) a _ s ltac:(lia) Hend)).
  rewrite (bind_run _ _ _ _ _ (modify_io _ _)). change (Z.to_nat 0) with 0%nat. rewrite drop_0, take_ge by lia. done.
Qed.

(** *** The two steps of the worker *)

Lemma worker_take_idle W s :
  io_ok W [] s → worker s = Waiting →
  worker_take s = Fin (Ok tt) (set_worker (if q_stopped (queue s) then Ended else Checking) s) ∧
  io_ok W [] (set_worker (if q_stopped (queue s) then Ended else Checking) s).
Proof.
  intros Hk Hw. split.
  - unfold worker_take. rewrite (bind_run _ _ _ _ _ (attempt_io _ _ _ _ (dequeue_empty W s Hk))).
    by destruct (q_stopped (queue s)).
  - apply io_ok_worker; [done|]. intros f. rewrite Hw. by destruct (q_stopped (queue s)).
Qed.

(** The test before the worker sleeps. *)
Lemma worker_check_run W l s :
  io_ok W l s → worker s = Checking →
  let w := if q_stopped (queue s) || negb (bool_decide (l = [])) then Waiting else Asleep in
  worker_check s = Fin (Ok tt) (set_worker w s) ∧ io_ok W l (set_worker w s).
Proof.
  intros Hk Hw w. split.
  - unfold worker_check. rewrite (bind_run _ _ _ _ _ (gets_io _ _)).
    assert (ring_empty (q_ring (queue s)) = bool_decide (l = [])) as ->; [|done].
    apply eq_bool_prop_intro. rewrite !Is_true_true, bool_decide_eq_true. apply (ring_empty_spec _ _ (k_ring _ _ _ Hk)).
  - apply io_ok_worker; [done|]. intros f. rewrite Hw. unfold w. by destruct (_ || _).
Qed.

Lemma worker_take_next W f l s :
  io_ok W (f :: l) s → worker s = Waiting →
  ∃ s', worker_take s = Fin (Ok tt) s' ∧ io_ok W l s' ∧ io_same s s' ∧ flags_same s s' ∧
    futures s' = futures s ∧ worker s' = Working f.
Proof.
  intros Hk Hw. unfold worker_take.
  destruct (dequeue_run W f l s Hk) as (ring & Hd & Hring & Hcap).
  rewrite (bind_run _ _ _ _ _ (attempt_io _ _ _ _ Hd)). set (s1 := set_queue _ s).
  destruct (k_queued _ _ _ Hk f) as (x & Hx & Hst); [by left|].
  assert (mark_processing f s1 = Fin (Ok tt) (set_reqs (insert f (set_status PROCESSING x)) s1)) as Hm.
  { unfold mark_processing. rewrite (bind_run _ _ _ _ _ (request_run s1 f x Hx)), Hst.
    rewrite bool_decide_eq_true_2 by done. exact (update_request_run s1 f x _ Hx). }
  rewrite (bind_run _ _ _ _ _ (attempt_io _ _ _ _ Hm)). pose proof (k_nodup _ _ _ Hk) as Hnd. apply NoDup_cons in Hnd as [Hfl Hnd].
  eexists. split; [done|]. split; [|done]. pose proof (pending_future W _ s f x Hk Hx) as Hpf.
  split; cbn; [done|done|apply Hk| | | | | |done|apply Hk|apply Hk].
  - intros g. destruct (decide (g = f)) as [->|]; [rewrite lookup_insert_eq, Hpf; split; by eauto|].
    rewrite lookup_insert_ne by done. apply Hk.
  - intros g z w [[<- <-]|[_ Hz]]%lookup_insert_Some Hwt; [exact (k_want _ _ _ Hk f x w Hx Hwt)|exact (k_want _ _ _ Hk g z w Hz Hwt)].
  - intros g z [[<- <-]|[Hgf Hz]]%lookup_insert_Some; [by right|].
    destruct (k_status _ _ _ Hk g z Hz) as [[? Hin]|[? ?]]; [left|congruence]. split; [done|]. set_solver.
  - intros g Hg. destruct (k_queued _ _ _ Hk g) as (z & Hz & ?); [by right|]. exists z.
    rewrite lookup_insert_ne; [done|]. by intros ->.
  - intros g [= <-]. exists (set_status PROCESSING x). by rewrite lookup_insert_eq.
Qed.

(** The answer of the disk. *)
Definition answer (x : BlockRequest) : M io (Result Z) :=
  bs ← gets (λ s, D_block_size (disk s));
  match op x with
  | READ => attempt (n ← read_blocks (lba x) (buffer x) (block_count x); mret (mul64 n bs))
  | WRITE => attempt (n ← write_blocks (lba x) (buffer x) (block_count x); mret (mul64 n bs))
  | FLUSH => attempt (_ ← disk_sync; mret 0)
  end.

Lemma answer_run s x w :
  disk_ok (disk s) → want_ok w (mem s) (disk s) →
  op x = w_op w → lba x = w_lba w → buffer x = w_ptr w → block_count x = count_of (w_op w) →
  answer x s = Fin (Ok (effect w (mem s) (disk s)).1.1)
    (mkIo (effect w (mem s) (disk s)).1.2 (reqs s) (futures s) (next_req s) (queue s)
       (effect w (mem s) (disk s)).2 (worker s)).
Proof.
  intros Hd (Hlba & Hptr) Hop Hl Hb Hcnt. unfold answer. rewrite Hop, Hl, Hb, Hcnt.
  rewrite (bind_run _ _ _ _ _ (gets_io _ _)). clear Hop Hl Hb Hcnt.
  pose proof Hd as (Hbs & Hc & Hm & Hlen).
  assert (mul64 1 (D_block_size (disk s)) = D_block_size (disk s) ∨ D_block_count (disk s) = 0) as Hmul.
  { unfold mul64. rewrite Z.mul_1_l. destruct (decide (D_block_count (disk s) = 0)); [by right|left].
    apply wrap64_small. unfold is_u64. nia. }
  assert (∀ g : gmap Z (list Z) → gmap Z (list Z), mkIo (g (mem s)) (reqs s) (futures s) (next_req s) (queue s) (disk s) (worker s)
    = set_mem g s) as Hsm by done.
  unfold effect. destruct (w_op w) eqn:Ho; cbn [count_of].
  3: { destruct s. by destruct (w_ptr w). }
  all: destruct Hptr as (p & a & -> & Ha & Hla); [done|].
  - pose proof (read_blocks_run s (w_lba w) p a Hd Hlba Ha Hla) as Hr.
    destruct (Z.ltb_spec (w_lba w) (D_block_count (disk s))) as [Hlt|Hge]; unfold is_u64 in Hlba.
    + destruct Hmul as [Hmul|]; [|lia]. rewrite (attempt_io _ _ _ _ (bind_run _ (λ n, mret (mul64 n _)) _ _ _ Hr)), Hmul. done.
    + rewrite (attempt_io _ _ _ _ (bind_run_err _ (λ n, mret (mul64 n _)) _ _ _ Hr)). by destruct s.
  - pose proof (write_blocks_run s (w_lba w) p a Hd Hlba Ha Hla) as Hr. rewrite Ha. cbn [default from_option id].
    destruct (Z.ltb_spec (w_lba w) (D_block_count (disk s))) as [Hlt|Hge]; unfold is_u64 in Hlba.
    + destruct Hmul as [Hmul|]; [|lia]. rewrite (attempt_io _ _ _ _ (bind_run _ (λ n, mret (mul64 n _)) _ _ _ Hr)), Hmul. done.
    + rewrite (attempt_io _ _ _ _ (bind_run_err _ (λ n, mret (mul64 n _)) _ _ _ Hr)). by destruct s.
Qed.

Lemma worker_process_run W l s f w :
  io_ok W l s → worker s = Working f → W !! f = Some w → want_ok w (mem s) (disk s) →
  ∃ s', worker_process s = Fin (Ok tt) s' ∧ io_ok W l s' ∧ flags_same s s' ∧ worker s' = Waiting ∧
    futures s' = <[f := Some (effect w (mem s) (disk s)).1.1]> (futures s) ∧
    mem s' = (effect w (mem s) (disk s)).1.2 ∧ disk s' = (effect w (mem s) (disk s)).2.
Proof.
  intros Hk Hwk Hw Hok. destruct (k_worker _ _ _ Hk f Hwk) as (x & Hx & Hst).
  destruct (k_want _ _ _ Hk f x w Hx Hw) as (Hop & Hl & Hbuf & Hcnt).
  pose proof (k_disk _ _ _ Hk) as Hd. pose proof Hd as (Hbs & Hc & Hm & Hlen).
  unfold worker_process. rewrite (bind_run _ _ _ _ _ (gets_io _ _)), Hwk.
  pose proof (answer_run s x w Hd Hok Hop Hl Hbuf Hcnt) as Ha.
  set (s1 := mkIo (effect w (mem s) (disk s)).1.2 _ _ _ _ _ _) in Ha.
  assert (disk_ok (effect w (mem s) (disk s)).2) as Hd1.
  { unfold effect. destruct Hok as (Hlba & Hptr). unfold is_u64 in Hlba.
    destruct (w_op w) eqn:Ho; [|destruct Hptr as (p & a & -> & Hma & Hla); [done|]|]; try (by destruct (w_ptr w)).
    - destruct (w_ptr w); [|done]. by destruct (_ <? _).
    - destruct (Z.ltb_spec (w_lba w) (D_block_count (disk s))); [|done]. apply put_block_ok; [done|lia|by rewrite Hma]. }
  assert (io_ok W l s1) as Hk1 by (destruct Hk; by split).
  destruct (complete_run W l s1 f x (effect w (mem s) (disk s)).1.1 Hk1 Hx Hst) as (s2 & Hr2 & Hk2 & [Hm2 Hd2] & Hfl2 & Hf2).
  assert (process_request f s = Fin (Ok tt) s2) as Hp.
  { unfold process_request. rewrite (bind_run _ _ _ _ _ (request_run s f x Hx)).
    unfold answer in Ha.
    rewrite (bind_run _ _ _ _ _ (gets_io _ _)). rewrite (bind_run _ _ _ _ _ (gets_io _ _)) in Ha. by rewrite (bind_run _ _ _ _ _ Ha). }
  rewrite (bind_run _ _ _ _ _ (attempt_io _ _ _ _ Hp)). cbn [has_value].
  exists (set_worker Waiting s2). by split_and!.
Qed.

(** *** Submitting and collecting *)

Lemma fresh_future W l s : io_ok W l s → futures s !! next_req s = None ∧ W !! next_req s = None.
Proof.
  intros Hk. assert (futures s !! next_req s = None) as Hf.
  { destruct (futures s !! next_req s) eqn:E; [|done]. exfalso.
    assert (next_req s < next_req s); [|lia]. apply (k_next _ _ _ Hk). by eexists. }
  split; [done|]. destruct (W !! next_req s) eqn:E; [|done].
  destruct (proj2 (k_dom _ _ _ Hk (next_req s))) as [? ?]; [by eexists|congruence].
Qed.

(** A new future that is settled at once. *)
Lemma add_settled W l s w r :
  io_ok W l s →
  io_ok (<[next_req s := w]> W) l
    (mkIo (mem s) (reqs s) (<[next_req s := Some r]> (futures s)) (next_req s + 1) (queue s) (disk s) (worker s)).
Proof.
  intros Hk. destruct (fresh_future W l s Hk) as [Hf Hw].
  assert (∀ f x, reqs s !! f = Some x → f ≠ next_req s) as Hne.
  { intros f x Hx ->. pose proof (pending_future W l s _ x Hk Hx). congruence. }
  destruct Hk as [? ? Hdom Hreq Hwant ? ? ? ? Hnext ?]. split; try done; cbn.
  - intros f. destruct (decide (f = next_req s)) as [->|]; [rewrite !lookup_insert_eq; split; by eexists|].
    by rewrite !lookup_insert_ne.
  - intros f. destruct (decide (f = next_req s)) as [->|]; [|by rewrite lookup_insert_ne].
    rewrite lookup_insert_eq. split; [intros [x Hx]; by destruct (Hne _ _ Hx)|done].
  - intros f x w'. intros Hx. rewrite lookup_insert_ne by (by eapply not_eq_sym, Hne). by apply Hwant.
  - intros f. destruct (decide (f = next_req s)) as [->|]; [lia|]. rewrite lookup_insert_ne by done.
    intros Hf'. apply Hnext in Hf'. lia.
Qed.

(** A new request at the end of the ring. *)
Lemma add_request W l s w x ring :
  io_ok W l s → op x = w_op w → lba x = w_lba w → buffer x = w_ptr w → block_count x = count_of (w_op w) →
  status x = SUBMITTED → ring_rep ring (l ++ [next_req s]) → D_capacity ring = DEPTH + 1 →
  io_ok (<[next_req s := w]> W) (l ++ [next_req s])
    (mkIo (mem s) (<[next_req s := x]> (reqs s)) (<[next_req s := None]> (futures s)) (next_req s + 1)
       (mkQueue (q_devno (queue s)) ring (q_accepting (queue s)) (q_stopped (queue s))) (disk s) (worker s)).
Proof.
  intros Hk H1 H2 H3 H4 H5 Hring Hcap. destruct (fresh_future W l s Hk) as [Hf Hw].
  assert (∀ f x, reqs s !! f = Some x → f ≠ next_req s) as Hne.
  { intros f z Hz ->. pose proof (pending_future W l s _ z Hk Hz). congruence. }
  destruct Hk as [? ? Hdom Hreq Hwant Hst Hqd Hwk Hnd Hnext ?]. split; cbn; try done.
  - intros f. destruct (decide (f = next_req s)) as [->|]; [rewrite !lookup_insert_eq; split; by eexists|].
    by rewrite !lookup_insert_ne.
  - intros f. destruct (decide (f = next_req s)) as [->|]; [rewrite !lookup_insert_eq; split; by eauto|].
    by rewrite !lookup_insert_ne.
  - intros f z w' Hz Hw'. destruct (decide (f = next_req s)) as [->|].
    + rewrite lookup_insert_eq in Hz. rewrite lookup_insert_eq in Hw'. injection Hz as <-. by injection Hw' as <-.
    + rewrite lookup_insert_ne in Hz by done. rewrite lookup_insert_ne in Hw' by done. by apply (Hwant f).
  - intros f z [[<- <-]|[_ Hz]]%lookup_insert_Some; [left; split; [done|set_solver]|].
    destruct (Hst f z Hz) as [[? ?]|?]; [left; split; [done|set_solver]|by right].
  - intros f [Hin| ->%list_elem_of_singleton]%elem_of_app; [|exists x; by rewrite lookup_insert_eq].
    destruct (Hqd f Hin) as (z & Hz & ?). exists z. rewrite lookup_insert_ne; [done|]. by eapply not_eq_sym, Hne.
  - intros f Hin. destruct (Hwk f Hin) as (z & Hz & ?). exists z. rewrite lookup_insert_ne; [done|].
    by eapply not_eq_sym, Hne.
  - apply NoDup_app. split_and!; [done| |by apply NoDup_singleton]. intros f Hin ->%list_elem_of_singleton.
    destruct (Hqd _ Hin) as (z & Hz & _). by eapply Hne.
  - intros f. destruct (decide (f = next_req s)) as [->|]; [lia|]. rewrite lookup_insert_ne by done.
    intros Hf'. apply Hnext in Hf'. lia.
Qed.

(** What submitting leaves as it is. *)
Definition queue_same (s s' : io) : Prop :=
  io_same s s' ∧ (worker s' = worker s ∨ worker s' = awake (worker s)) ∧ q_devno (queue s') = q_devno (queue s) ∧
  q_accepting (queue s') = q_accepting (queue s) ∧ q_stopped (queue s') = q_stopped (queue s).

Lemma error_future_run W l s w e :
  io_ok W l s →
  ∃ s', make_error_future e s = Fin (Ok (next_req s)) s' ∧ io_ok (<[next_req s := w]> W) l s' ∧
    futures s' = <[next_req s := Some (Err e)]> (futures s) ∧ queue_same s s'.
Proof.
  intros Hk. unfold make_error_future, new_future.
  rewrite (bind_run (f ← gets next_req; _) _ s (next_req s) (set_futures (insert (next_req s) None) (set_next (λ n, n + 1) s)) eq_refl).
  set (s1 := set_futures _ _).
  rewrite (bind_run _ _ _ _ _ (attempt_io _ _ _ _ (promise_set_run s1 (next_req s) (Err e) (lookup_insert_eq _ _ _)))).
  cbn [has_value]. eexists. split; [done|]. unfold s1, set_futures. cbn. rewrite insert_insert_eq.
  split; [by apply add_settled|]. split; [done|]. split; [done|]. split; [by left|done].
Qed.

(** Whether a submission is refused, and with which error. *)
Definition refusal (alloc : bool) (q : BlockRequestQueue) : option ErrCode :=
  if negb alloc then Some OUT_OF_MEMORY
  else if negb (q_accepting q) || q_stopped q then Some BUSY else None.

Lemma submit_refused_run W l s o b p cnt w :
  io_ok W l s → refusal true (queue s) = Some BUSY →
  ∃ s', submit_async true o b p cnt s = Fin (Ok (next_req s)) s' ∧ io_ok (<[next_req s := w]> W) l s' ∧
    futures s' = <[next_req s := Some (Err BUSY)]> (futures s) ∧ queue_same s s'.
Proof.
  intros Hk Href. unfold submit_async, new_future. cbn [negb]. rewrite (bind_run _ _ _ _ _ (gets_io _ _)).
  rewrite (bind_run (f ← gets next_req; _) _ s (next_req s) (set_futures (insert (next_req s) None) (set_next (λ n, n + 1) s)) eq_refl).
  set (s1 := set_futures _ _). rewrite (bind_run _ _ _ _ _ (modify_io _ _)). set (x := mkRequest _ _ _ _ _ PENDING).
  set (s2 := set_reqs (insert (next_req s) x) s1).
  assert (submit (next_req s) s2 = Fin (Err BUSY) s2) as Hs.
  { unfold submit. rewrite (bind_run _ _ _ _ _ (gets_io _ _)). change (queue s2) with (queue s).
    unfold refusal in Href. cbn [negb] in Href. by destruct (negb (q_accepting (queue s)) || _). }
  rewrite (bind_run _ _ _ _ _ (attempt_io _ _ _ _ Hs)).
  rewrite (bind_run _ _ _ _ _ (attempt_io _ _ _ _ (promise_set_run s2 (next_req s) (Err BUSY) (lookup_insert_eq _ _ _)))).
  cbn [has_value]. rewrite (bind_run (massert true) _ _ tt _ eq_refl). eexists.
  split; [erewrite bind_run by (eapply delete_request_run, lookup_insert_eq); done|].
  destruct (fresh_future W l s Hk) as [Hf _]. assert (reqs s !! next_req s = None) as Hnr.
  { destruct (reqs s !! next_req s) eqn:E; [|done]. pose proof (pending_future W l s _ _ Hk E). congruence. }
  unfold s2, s1, set_reqs, set_futures. cbn. rewrite insert_insert_eq, delete_insert_id by done.
  split; [by apply add_settled|]. split; [done|]. split; [done|]. split; [by left|done].
Qed.

Lemma submit_run W l s alloc w :
  io_ok W l s → Z.of_nat (length l) < DEPTH →
  ∃ s', submit_async alloc (w_op w) (w_lba w) (w_ptr w) (count_of (w_op w)) s = Fin (Ok (next_req s)) s' ∧
    queue_same s s' ∧ (refusal alloc (queue s) = None → worker s' = awake (worker s)) ∧
    futures s' = <[next_req s := Err <$> refusal alloc (queue s)]> (futures s) ∧
    io_ok (<[next_req s := w]> W) (if refusal alloc (queue s) is Some _ then l else l ++ [next_req s]) s'.
Proof.
  intros Hk Hroom. destruct (refusal alloc (queue s)) as [e|] eqn:Href.
  { unfold refusal in Href. destruct alloc; cbn [negb] in Href.
    - assert (e = BUSY) as -> by (destruct (negb _ || _); congruence).
      destruct (submit_refused_run W l s (w_op w) (w_lba w) (w_ptr w) (count_of (w_op w)) w Hk Href) as (s' & ? & ? & ? & ?).
      by exists s'.
    - injection Href as <-. destruct (error_future_run W l s w OUT_OF_MEMORY Hk) as (s' & ? & ? & ? & ?). by exists s'. }
  unfold refusal in Href. destruct alloc; [|done]. cbn [negb] in Href.
  destruct (q_accepting (queue s)) eqn:Hacc; [|done]. destruct (q_stopped (queue s)) eqn:Hst; [done|].
  pose proof (k_ring _ _ _ Hk) as Hr. pose proof (k_cap _ _ _ Hk) as Hcap.
  destruct (ring_emplace_rep _ l (next_req s) Hr) as (ring & Hpush & Hring & Hcap'); [lia|]. rewrite Hcap in Hcap'.
  assert (ring_full (q_ring (queue s)) = false) as Hfull.
  { destruct (ring_full _) eqn:E; [|done]. apply (ring_full_spec _ _ Hr) in E. lia. }
  unfold submit_async, new_future. cbn [negb]. rewrite (bind_run _ _ _ _ _ (gets_io _ _)).
  rewrite (bind_run (f ← gets next_req; _) _ s (next_req s) (set_futures (insert (next_req s) None) (set_next (λ n, n + 1) s)) eq_refl).
  set (s1 := set_futures _ _). rewrite (bind_run _ _ _ _ _ (modify_io _ _)). set (x := mkRequest _ _ _ _ _ PENDING).
  set (s2 := set_reqs (insert (next_req s) x) s1).
  set (s3 := set_reqs (insert (next_req s) (set_status SUBMITTED x)) (set_queue (λ q, mkQueue (q_devno q) ring (q_accepting q) (q_stopped q)) s2)).
  assert (submit (next_req s) s2 = Fin (Ok tt) (set_worker (awake (worker s)) s3)) as Hsub.
  { unfold submit. rewrite (bind_run _ _ _ _ _ (gets_io _ _)). change (queue s2) with (queue s).
    rewrite Hacc, Hst, Hfull. cbn [negb orb]. rewrite (bind_run (massert true) _ _ tt _ eq_refl).
    unfold ring_push. rewrite Hpush. rewrite (bind_run _ _ _ _ _ (modify_io _ _)).
    by erewrite bind_run by (apply update_request_run, lookup_insert_eq). }
  rewrite (bind_run _ _ _ _ _ (attempt_io _ _ _ _ Hsub)). exists (set_worker (awake (worker s)) s3). split; [done|].
  split; [split; [done|]; split; [by right|done]|]. split; [done|]. split; [done|].
  apply io_ok_worker; [|intros f; apply awake_working].
  unfold s3, s2, s1, set_reqs, set_queue, set_futures. cbn. rewrite insert_insert_eq. by apply add_request.
Qed.

(** The thread that waits takes the value. *)
Lemma collect_ok W l s f r :
  io_ok W l s → futures s !! f = Some (Some r) → io_ok (delete f W) l (set_futures (delete f) s).
Proof.
  intros Hk Hf.
  assert (∀ g x, reqs s !! g = Some x → g ≠ f) as Hne.
  { intros g x Hx ->. pose proof (pending_future W l s _ x Hk Hx). congruence. }
  destruct Hk as [? ? Hdom Hreq Hwant ? ? ? ? Hnext ?]. split; try done; cbn.
  - intros g. destruct (decide (g = f)) as [->|]; [by rewrite !lookup_delete_eq|]. by rewrite !lookup_delete_ne.
  - intros g. destruct (decide (g = f)) as [->|]; [|by rewrite lookup_delete_ne].
    rewrite lookup_delete_eq. split; [intros [x Hx]; by destruct (Hne _ _ Hx)|done].
  - intros g x w Hx [_ Hw]%lookup_delete_Some. by apply (Hwant g).
  - intros g [st [_ Hg]%lookup_delete_Some]. apply Hnext. by eexists.
Qed.

(** A disk without requests. *)
Lemma new_io_ok m d devno : disk_ok d → io_ok ∅ [] (mkIo m ∅ ∅ 0 (new_queue devno DEPTH) d Waiting).
Proof.
  intros Hd. split; cbn; try done.
  - by apply ring_new_rep.
  - intros f. rewrite !lookup_empty. done.
  - intros f. rewrite !lookup_empty. split; [by intros []|done].
  - intros f Hf. by apply elem_of_nil in Hf.
  - apply NoDup_nil_2.
  - intros f [? Hf]. by rewrite lookup_empty in Hf.
Qed.

End BlockQueueSpec.
