(* ===== verification/BlockService.v ===== *)
(** * The block queue is a disk server that answers in order

    Threads and the worker of a device run in any order over the state of [BlockQueue]:
    threads submit requests and take answers, store into their memory, the device is
    stopped, and the worker runs a step of its loop.  The abstract server [service] has
    a queue of outstanding requests and serves the oldest one at once. *)

From S2P Require Import Prelude ErrCode RingBuf TmpFs BlockQueue.

#[local] Open Scope Z_scope.

Module BlockService.
Import BlockQueue BlockQueueSpec.

Inductive event :=
  | ERead (alloc : bool) (b p : Z)
  | EWrite (alloc : bool) (b p : Z)
  | EFlush (alloc : bool)
  | EWorker
  | EDrain (e : ErrCode)
  | ECollect (f : Z)
  | EStore (p : Z) (l : list Z).

Inductive reply := RFuture (f : Z) | RAnswer (r : option (Result Z)) | RDone.

Definition worker_step : M io unit :=
  w ← gets worker;
  match w with
  | Waiting => worker_take
  | Checking => worker_check
  | Working _ => worker_process
  | Asleep | Ended => mret tt
  end.

(** A thread that waits for [f] goes on when it is settled. *)
Definition collect (f : Z) : M io (option (Result Z)) :=
  r ← gets (λ s, settled s f);
  match r with
  | Some r => _ ← take_wait_result f; mret (Some r)
  | None => mret None
  end.

Definition step (ev : event) : M io reply :=
  match ev with
  | ERead alloc b p => f ← submit_read_async alloc b (Some p) 1; mret (RFuture f)
  | EWrite alloc b p => f ← submit_write_async alloc b (Some p) 1; mret (RFuture f)
  | EFlush alloc => f ← submit_flush_async alloc; mret (RFuture f)
  | EWorker => _ ← worker_step; mret RDone
  | EDrain e => _ ← drain_and_stop e; mret RDone
  | ECollect f => r ← collect f; mret (RAnswer r)
  | EStore p l => _ ← modify (set_mem (insert p l)); mret RDone
  end.

(** What a thread may do: the ring has room when it submits, its memory is there and it
    holds one block. *)
Definition request_of (ev : event) : option (bool * want) :=
  match ev with
  | ERead alloc b p => Some (alloc, mkWant READ b (Some p))
  | EWrite alloc b p => Some (alloc, mkWant WRITE b (Some p))
  | EFlush alloc => Some (alloc, mkWant FLUSH 0 None)
  | _ => None
  end.

Definition has_block (m : gmap Z (list Z)) (d : RamDiskDevice) (p : Z) : Prop :=
  ∃ a, m !! p = Some a ∧ Z.of_nat (length a) = D_block_size d.

Definition allowed (ev : event) (s : io) : Prop :=
  match ev with
  | ERead _ b p | EWrite _ b p => is_u64 b ∧ has_block (mem s) (disk s) p ∧ ring_size (q_ring (queue s)) < DEPTH
  | EFlush _ => ring_size (q_ring (queue s)) < DEPTH
  | EStore p l => has_block (mem s) (disk s) p ∧ Z.of_nat (length l) = D_block_size (disk s)
  | _ => True
  end.

Inductive exec : io → list (event * reply) → io → Prop :=
  | exec_nil s : exec s [] s
  | exec_snoc s tr s1 ev r s2 :
      exec s tr s1 → allowed ev s1 → step ev s1 = Fin (Ok r) s2 → exec s (tr ++ [(ev, r)]) s2.

(** ** The server *)

Record service := mkService {
  v_mem : gmap Z (list Z);
  v_disk : RamDiskDevice;
  v_open : bool;
  v_outstanding : list Z;
  v_wants : gmap Z want;
  v_answers : gmap Z (Result Z);
}.

Definition ask (f : Z) (w : want) (v : service) : service :=
  mkService (v_mem v) (v_disk v) (v_open v) (v_outstanding v ++ [f]) (<[f := w]> (v_wants v)) (v_answers v).
Definition refuse (f : Z) (w : want) (e : ErrCode) (v : service) : service :=
  mkService (v_mem v) (v_disk v) (v_open v) (v_outstanding v) (<[f := w]> (v_wants v)) (<[f := Err e]> (v_answers v)).
Definition serve (f : Z) (l : list Z) (w : want) (v : service) : service :=
  mkService (effect w (v_mem v) (v_disk v)).1.2 (effect w (v_mem v) (v_disk v)).2 (v_open v) l (v_wants v)
    (<[f := (effect w (v_mem v) (v_disk v)).1.1]> (v_answers v)).
Definition close (keep gone : list Z) (e : ErrCode) (v : service) : service :=
  mkService (v_mem v) (v_disk v) false keep (v_wants v) (foldr (λ f, insert f (Err e)) (v_answers v) gone).
Definition give (f : Z) (v : service) : service :=
  mkService (v_mem v) (v_disk v) (v_open v) (v_outstanding v) (delete f (v_wants v)) (delete f (v_answers v)).
Definition store (p : Z) (l : list Z) (v : service) : service :=
  mkService (<[p := l]> (v_mem v)) (v_disk v) (v_open v) (v_outstanding v) (v_wants v) (v_answers v).

Inductive serves : event → reply → service → service → Prop :=
  | serves_ask ev w f v : request_of ev = Some (true, w) → v_open v = true → v_wants v !! f = None →
      serves ev (RFuture f) v (ask f w v)
  | serves_no_memory ev w f v : request_of ev = Some (false, w) → v_wants v !! f = None →
      serves ev (RFuture f) v (refuse f w OUT_OF_MEMORY v)
  | serves_closed ev w f v : request_of ev = Some (true, w) → v_open v = false → v_wants v !! f = None →
      serves ev (RFuture f) v (refuse f w BUSY v)
  | serves_pause v : serves EWorker RDone v v
  | serves_next f l w v : v_outstanding v = f :: l → v_wants v !! f = Some w →
      serves EWorker RDone v (serve f l w v)
  | serves_close e keep gone v : v_outstanding v = keep ++ gone → (length keep <= 1)%nat →
      serves (EDrain e) RDone v (close keep gone e v)
  | serves_answer f r v : v_answers v !! f = Some r → serves (ECollect f) (RAnswer (Some r)) v (give f v)
  | serves_wait f v : v_answers v !! f = None → serves (ECollect f) (RAnswer None) v v
  | serves_store p l v : serves (EStore p l) RDone v (store p l v).

Inductive behaves : service → list (event * reply) → service → Prop :=
  | behaves_nil v : behaves v [] v
  | behaves_snoc v tr v1 ev r v2 :
      behaves v tr v1 → serves ev r v1 v2 → behaves v (tr ++ [(ev, r)]) v2.

(** ** The server that a state is *)

Definition working (s : io) : list Z := match worker s with Working f => [f] | _ => [] end.

Definition server (W : gmap Z want) (l : list Z) (s : io) : service :=
  mkService (mem s) (disk s) (q_accepting (queue s)) (working s ++ l) W (omap id (futures s)).

Record rep (W : gmap Z want) (l : list Z) (s : io) : Prop := {
  r_io : io_ok W l s;
  r_want f w : W !! f = Some w → want_ok w (mem s) (disk s);
  r_stopped : q_stopped (queue s) = negb (q_accepting (queue s));
  r_closed : q_stopped (queue s) = true → l = [];
  r_ended : worker s = Ended → q_stopped (queue s) = true;
  r_asleep : worker s = Asleep → l = [];
}.

(** *** Blocks of memory stay blocks of memory *)

Definition blocks_stay (s s' : io) : Prop :=
  D_block_size (disk s') = D_block_size (disk s) ∧
  ∀ p, has_block (mem s) (disk s) p → has_block (mem s') (disk s') p.

Lemma want_stays w s s' : blocks_stay s s' → want_ok w (mem s) (disk s) → want_ok w (mem s') (disk s').
Proof.
  intros [_ Hstay] [Hb Hp]. split; [done|]. intros Hop. destruct (Hp Hop) as (p & a & Hptr & Ha).
  destruct (Hstay p) as (a' & Ha'); [by exists a|]. by exists p, a'.
Qed.

Lemma same_stays s s' : io_same s s' → blocks_stay s s'.
Proof. intros [Hm Hd]. unfold blocks_stay. rewrite Hm, Hd. by split. Qed.

Lemma effect_stays s s' w :
  disk_ok (disk s) → want_ok w (mem s) (disk s) →
  mem s' = (effect w (mem s) (disk s)).1.2 → disk s' = (effect w (mem s) (disk s)).2 → blocks_stay s s'.
Proof.
  intros Hd [Hb Hptr] Hm' Hd'. unfold blocks_stay. rewrite Hm', Hd'. clear Hm' Hd'. unfold effect.
  destruct (w_op w) eqn:Ho; try (destruct (w_ptr w); by split).
  - destruct (Hptr ltac:(done)) as (p & a & -> & Ha & Hl). unfold is_u64 in Hb.
    destruct (Z.ltb_spec (w_lba w) (D_block_count (disk s))); [|by split]. split; [done|].
    intros q (c & Hc & Hlc). unfold has_block. cbn. destruct (decide (q = p)) as [->|].
    + exists (block (disk s) (w_lba w)). rewrite lookup_insert_eq. split; [done|]. apply block_length; [done|lia].
    + exists c. by rewrite lookup_insert_ne.
  - destruct (Hptr ltac:(done)) as (p & a & -> & Ha & Hl). by destruct (_ <? _).
Qed.

Lemma store_stays s p l :
  Z.of_nat (length l) = D_block_size (disk s) → blocks_stay s (set_mem (insert p l) s).
Proof.
  intros Hl. split; [done|]. intros q (c & Hc & Hlc). unfold has_block. cbn. destruct (decide (q = p)) as [->|].
  - exists l. by rewrite lookup_insert_eq.
  - exists c. by rewrite lookup_insert_ne.
Qed.

(** *** Submitting *)

Lemma request_step ev alloc w s :
  request_of ev = Some (alloc, w) →
  step ev s = (f ← submit_async alloc (w_op w) (w_lba w) (w_ptr w) (count_of (w_op w)); mret (RFuture f)) s.
Proof. by destruct ev; intros [= <- <-]. Qed.

Lemma request_allowed ev alloc w s :
  request_of ev = Some (alloc, w) → allowed ev s →
  ring_size (q_ring (queue s)) < DEPTH ∧ want_ok w (mem s) (disk s).
Proof.
  destruct ev; intros [= <- <-]; cbn.
  1, 2: intros (Hb & (a & Ha) & Hr); split; [done|]; split; [done|]; intros _; by exists p, a.
  intros Hr. by repeat split.
Qed.

(** What a step of the queue does: it answers, and the server does the same. *)
Definition follows W l s ev : Prop :=
  ∃ r s' W' l', step ev s = Fin (Ok r) s' ∧ serves ev r (server W l s) (server W' l' s') ∧ rep W' l' s'.

(** A state with one future more. *)
Lemma rep_submitted W l s s' l' w x :
  rep W l s → want_ok w (mem s) (disk s) → io_ok (<[next_req s := w]> W) l' s' →
  queue_same s s' → l' = l ∨ (q_accepting (queue s) = true ∧ worker s' = awake (worker s)) →
  futures s' = <[next_req s := x]> (futures s) → rep (<[next_req s := w]> W) l' s'.
Proof.
  intros Hr Hw Hk' (Hsame & Hwk & _ & Hacc & Hst) Hl Hf. destruct Hr as [Hk Hwants Hstop Hclosed Hended Hsleep].
  split; [done| | | | |].
  - intros f w' [[<- <-]|[_ Hw']]%lookup_insert_Some; (eapply want_stays; [by apply same_stays|]); [done|].
    by eapply Hwants.
  - congruence.
  - rewrite Hst. intros Hs. destruct Hl as [->|[Ha _]]; [by apply Hclosed|]. rewrite Hstop, Ha in Hs. done.
  - rewrite Hst. intros Hw'. apply Hended. destruct Hwk as [Hwk|Hwk]; rewrite Hwk in Hw'; [done|]. by destruct (worker s).
  - intros Hw'. destruct Hl as [->|[_ Ha]]; [|rewrite Ha in Hw'; by destruct (worker s)].
    apply Hsleep. destruct Hwk as [Hwk|Hwk]; rewrite Hwk in Hw'; [done|]. by destruct (worker s).
Qed.

Lemma submit_follows W l s ev alloc w :
  rep W l s → request_of ev = Some (alloc, w) → allowed ev s → follows W l s ev.
Proof.
  intros Hr Hev Hal. destruct (request_allowed ev alloc w s Hev Hal) as [Hroom Hw].
  pose proof (r_io _ _ _ Hr) as Hk. rewrite (ring_size_spec _ _ (k_ring _ _ _ Hk)) in Hroom.
  destruct (submit_run _ l s alloc w Hk Hroom) as (s' & Hrun & Hq & Hwake & Hf & Hk').
  destruct (fresh_future _ _ _ Hk) as [Hnf Hnw].
  assert (omap id (futures s) !! next_req s = None) as Hna by (by rewrite lookup_omap, Hnf).
  pose proof Hq as ((Hm & Hd) & Hwk & _ & Hacc & Hst).
  assert (working s' = working s) as Hws.
  { unfold working. by destruct Hwk as [-> | ->]; [|destruct (worker s)]. }
  set (l' := if refusal alloc (queue s) is Some _ then l else l ++ [next_req s]) in *.
  exists (RFuture (next_req s)), s', (<[next_req s := w]> W), l'.
  rewrite (request_step ev alloc w s Hev), (bind_run _ _ _ _ _ Hrun). split; [done|]. split.
  2: { eapply rep_submitted; try done. unfold l'. revert Hwake. unfold refusal. rewrite (r_stopped _ _ _ Hr).
       destruct alloc, (q_accepting (queue s)); auto. }
  unfold server. rewrite Hws, Hm, Hd, Hacc, Hf. unfold l'. clear l' Hk' Hrun Hf.
  unfold refusal. rewrite (r_stopped _ _ _ Hr).
  destruct alloc; cbn [negb fmap option_fmap option_map]; [destruct (q_accepting (queue s)) eqn:Ha; cbn [negb orb]|].
  - rewrite omap_insert_None, delete_id, app_assoc by done. by apply (serves_ask ev w _ (mkService _ _ true _ _ _)).
  - erewrite omap_insert_Some by done. by apply (serves_closed ev w _ (mkService _ _ false _ _ _)).
  - erewrite omap_insert_Some by done. by apply (serves_no_memory ev w _ (mkService _ _ _ _ _ _)).
Qed.

(** *** The worker *)

(** What a step that leaves the flags and the wants alone has to show. *)
Lemma rep_step W l s l' s' :
  rep W l s → io_ok W l' s' → blocks_stay s s' → flags_same s s' → (l = [] → l' = []) →
  (worker s' = Ended → q_stopped (queue s) = true) → (worker s' = Asleep → l' = []) → rep W l' s'.
Proof.
  intros [Hk Hwants Hstop Hclosed Hended _] Hk' Hstay (_ & Hacc & Hst & _) Hl Hwk Hsl. split; [done| | | | |done].
  - intros f w Hw. eapply want_stays; [done|]. by eapply Hwants.
  - congruence.
  - rewrite Hst. auto.
  - by rewrite Hst.
Qed.

(** The worker takes the oldest request, and answers the one it has. *)
Lemma worker_takes W f l s :
  rep W (f :: l) s → worker s = Waiting →
  ∃ s', worker_step s = Fin (Ok tt) s' ∧ rep W l s' ∧ worker s' = Working f ∧ server W l s' = server W (f :: l) s.
Proof.
  intros Hr Hw. destruct (worker_take_next W f l s (r_io _ _ _ Hr) Hw) as (s' & Hrun & Hk' & [Hm Hd] & Hfl & Hf & Hw').
  exists s'. split; [unfold worker_step; by rewrite (bind_run _ _ _ _ _ (gets_io _ _)), Hw|].
  split; [apply (rep_step W (f :: l) s); try done; [by apply same_stays|by rewrite Hw'..]|]. split; [done|].
  pose proof Hfl as (_ & Hacc & _ & _). unfold server, working. by rewrite Hm, Hd, Hf, Hw, Hw', Hacc.
Qed.

Lemma worker_answers W l s f :
  rep W l s → worker s = Working f →
  ∃ s' w, worker_step s = Fin (Ok tt) s' ∧ rep W l s' ∧ worker s' = Waiting ∧ W !! f = Some w ∧
    server W l s' = serve f l w (server W l s).
Proof.
  intros Hr Hw. pose proof (r_io _ _ _ Hr) as Hk. destruct (k_worker _ _ _ Hk f Hw) as (x & Hx & _).
  destruct (proj1 (k_dom _ _ _ Hk f)) as [w HW]; [rewrite (pending_future _ _ _ _ _ Hk Hx); by eexists|].
  pose proof (r_want _ _ _ Hr f w HW) as Hok.
  destruct (worker_process_run W l s f w Hk Hw HW Hok) as (s' & Hrun & Hk' & Hfl & Hw' & Hf & Hm & Hd).
  exists s', w. split; [unfold worker_step; by rewrite (bind_run _ _ _ _ _ (gets_io _ _)), Hw|].
  split.
  { apply (rep_step W l s); try done; [|by rewrite Hw'..]. eapply effect_stays; [apply Hk|done..]. }
  split_and!; [done..|]. pose proof Hfl as (_ & Hacc & _ & _). unfold server, serve, working.
  rewrite Hw', Hacc, Hf, Hm, Hd. by erewrite omap_insert_Some by done.
Qed.

(** The worker has no request. *)
Definition resting (s : io) : Prop := ∀ f, worker s ≠ Working f.

Lemma resting_dec s : (∃ f, worker s = Working f) ∨ resting s.
Proof. unfold resting. destruct (worker s); eauto; right; done. Qed.

(** The worker moves between its places without a request. *)
Lemma rep_moved W l s w :
  rep W l s → resting s → io_ok W l (set_worker w s) → (∀ f, w ≠ Working f) →
  (w = Ended → q_stopped (queue s) = true) → (w = Asleep → l = []) →
  rep W l (set_worker w s) ∧ resting (set_worker w s) ∧ server W l (set_worker w s) = server W l s.
Proof.
  intros Hr Hrest Hk Hw Hen Hsl. split; [by apply (rep_step W l s)|]. split; [done|].
  unfold server. f_equal. f_equal. unfold working. cbn. unfold resting in Hrest.
  destruct w as [| | |f|]; [| | |by destruct (Hw f)|]; (destruct (worker s) as [| | |g|]; [done..| |done]);
    by destruct (Hrest g).
Qed.

(** A worker with nothing to do goes to sleep, and ends when the device is stopped. *)
Lemma worker_rests W s :
  rep W [] s → resting s →
  ∃ s', worker_step s = Fin (Ok tt) s' ∧ rep W [] s' ∧ resting s' ∧ server W [] s' = server W [] s.
Proof.
  intros Hr Hrest. unfold worker_step. rewrite (bind_run _ _ _ _ _ (gets_io _ _)). destruct (worker s) as [| | |f|] eqn:Hw.
  - destruct (worker_take_idle W s (r_io _ _ _ Hr) Hw) as [Hrun Hk']. eexists. split; [exact Hrun|].
    apply rep_moved; try done; by destruct (q_stopped (queue s)).
  - destruct (worker_check_run W [] s (r_io _ _ _ Hr) Hw) as [Hrun Hk']. eexists. split; [exact Hrun|].
    apply rep_moved; try done; by destruct (q_stopped (queue s)).
  - by exists s.
  - by destruct (Hrest f).
  - by exists s.
Qed.

Lemma ended_empty W l s : rep W l s → worker s = Ended → l = [].
Proof. intros Hr Hw. by apply (r_closed _ _ _ Hr), (r_ended _ _ _ Hr). Qed.

(** With a request in the ring it is about to take it, or sees it before it sleeps. *)
Lemma worker_sees W f l s :
  rep W (f :: l) s → resting s →
  worker s = Waiting ∨
  (worker s = Checking ∧ ∃ s', worker_step s = Fin (Ok tt) s' ∧ rep W (f :: l) s' ∧ worker s' = Waiting ∧
     server W (f :: l) s' = server W (f :: l) s).
Proof.
  intros Hr Hrest. destruct (worker s) as [| | |g|] eqn:Hw; [by left|right| | |].
  - split; [done|]. destruct (worker_check_run W (f :: l) s (r_io _ _ _ Hr) Hw) as [Hrun Hk'].
    rewrite bool_decide_eq_false_2, orb_true_r in Hrun, Hk' by done. eexists.
    split; [unfold worker_step; by rewrite (bind_run _ _ _ _ _ (gets_io _ _)), Hw|].
    destruct (rep_moved W (f :: l) s Waiting Hr Hrest Hk') as (? & _ & ?); done.
  - by apply (r_asleep _ _ _ Hr) in Hw.
  - by destruct (Hrest g).
  - by apply (ended_empty W _ s Hr) in Hw.
Qed.

(** Without a request the worker does nothing the server sees. *)
Lemma worker_idles W l s :
  rep W l s → resting s →
  ∃ s' l', worker_step s = Fin (Ok tt) s' ∧ rep W l' s' ∧ server W l' s' = server W l s.
Proof.
  intros Hr Hrest. destruct l as [|f l].
  - destruct (worker_rests W s Hr Hrest) as (s' & ? & ? & _ & ?). by exists s', [].
  - destruct (worker_sees W f l s Hr Hrest) as [Hw|(_ & s' & ? & ? & _ & ?)]; [|by exists s', (f :: l)].
    destruct (worker_takes W f l s Hr Hw) as (s' & ? & ? & _ & ?). by exists s', l.
Qed.

Lemma worker_follows W l s : rep W l s → follows W l s EWorker.
Proof.
  intros Hr. assert (∀ s', worker_step s = Fin (Ok tt) s' → step EWorker s = Fin (Ok RDone) s') as Hstep.
  { intros s' Hs. cbn. by rewrite (bind_run _ _ _ _ _ Hs). }
  destruct (resting_dec s) as [[f Hw]|Hw].
  - destruct (worker_answers W l s f Hr Hw) as (s' & w & Hs & Hr' & _ & HW & Hv).
    exists RDone, s', W, l. rewrite (Hstep s' Hs), Hv. split_and!; [done| |done].
    apply serves_next; [|done]. cbn. unfold working. by rewrite Hw.
  - destruct (worker_idles W l s Hr Hw) as (s' & l' & Hs & Hr' & Hv).
    exists RDone, s', W, l'. rewrite (Hstep s' Hs), Hv. split_and!; [done|apply serves_pause|done].
Qed.

(** *** Stopping, taking answers, storing *)

Lemma foldr_answers (m : gmap Z (Result Z)) e l f :
  foldr (λ f, insert f (Err e)) m l !! f = if decide (f ∈ l) then Some (Err e) else m !! f.
Proof.
  induction l as [|g l IH]; cbn; [by rewrite decide_False by apply not_elem_of_nil|].
  destruct (decide (f = g)) as [->|Hfg].
  - rewrite lookup_insert_eq. by rewrite decide_True by left.
  - rewrite lookup_insert_ne, IH by done. apply decide_ext. rewrite elem_of_cons. naive_solver.
Qed.

Lemma drain_follows W l s e : rep W l s → follows W l s (EDrain e).
Proof.
  intros Hr. pose proof (r_io _ _ _ Hr) as Hk. unfold follows. cbn [step].
  destruct (drain_run W l s e Hk) as (s' & Hrun & Hk' & Hsame & Hw & Hacc & Hst & _ & Hf).
  exists RDone, s', W, []. rewrite (bind_run _ _ _ _ _ Hrun). split; [done|]. split.
  - assert (omap id (futures s') = foldr (λ f, insert f (Err e)) (omap id (futures s)) l) as Hans.
    { apply map_eq. intros f. rewrite foldr_answers, !lookup_omap, Hf. by destruct (decide (f ∈ l)). }
    pose proof Hsame as [Hm Hd]. assert (working s' = working s) as Hws by (unfold working; rewrite Hw; by destruct (worker s)).
    unfold server. rewrite Hws, Hm, Hd, Hacc, Hans, app_nil_r.
    apply (serves_close e _ l (mkService _ _ _ (_ ++ l) _ _)); [done|]. unfold working. destruct (worker s); cbn; lia.
  - split; [done| | |done|by rewrite Hst|done].
    + intros f w HW. eapply want_stays; [by apply same_stays|]. by eapply (r_want _ _ _ Hr).
    + by rewrite Hacc, Hst.
Qed.

Lemma collect_follows W l s f : rep W l s → follows W l s (ECollect f).
Proof.
  intros Hr. pose proof (r_io _ _ _ Hr) as Hk. unfold follows. cbn [step].
  assert (omap id (futures s) !! f = settled s f) as Hset by (by rewrite lookup_omap).
  destruct (settled s f) as [r|] eqn:Hf.
  - assert (futures s !! f = Some (Some r)) as Hfr.
    { unfold settled in Hf. by destruct (futures s !! f) as [[?|]|]; cbn in Hf; simplify_eq. }
    exists (RAnswer (Some r)), (set_futures (delete f) s), (delete f W), l. split.
    { rewrite (bind_run (collect f) _ s (Some r) (set_futures (delete f) s)); [done|].
      unfold collect. by rewrite (bind_run _ _ _ _ _ (gets_io _ _)), Hf. }
    split.
    + unfold server at 2. cbn [futures set_futures]. rewrite omap_delete.
      by apply (serves_answer f r (server W l s)).
    + pose proof (collect_ok W l s f r Hk Hfr). destruct Hr as [_ Hwants ? ? ? ?]. split; try done.
      intros g w [_ Hg]%lookup_delete_Some. by eapply Hwants.
  - exists (RAnswer None), s, W, l. split; [|by split; [apply serves_wait|]].
    rewrite (bind_run (collect f) _ s None s); [done|].
    unfold collect. by rewrite (bind_run _ _ _ _ _ (gets_io _ _)), Hf.
Qed.

Lemma store_follows W l s p a : rep W l s → allowed (EStore p a) s → follows W l s (EStore p a).
Proof.
  intros Hr [_ Hlen]. exists RDone, (set_mem (insert p a) s), W, l. split; [done|]. split.
  - apply (serves_store p a (server W l s)).
  - apply (rep_step W l s); try done; [|by apply store_stays|apply Hr..]. destruct (r_io _ _ _ Hr). by split.
Qed.

Lemma step_follows W l s ev : rep W l s → allowed ev s → follows W l s ev.
Proof.
  intros Hr Hal. destruct (request_of ev) as [[alloc w]|] eqn:Hev; [by eapply submit_follows|].
  destruct ev; try done.
  - by apply worker_follows.
  - by apply drain_follows.
  - by apply collect_follows.
  - by apply store_follows.
Qed.

(** *** A device that starts *)

Definition start (m : gmap Z (list Z)) (d : RamDiskDevice) (devno : Z) : io :=
  mkIo m ∅ ∅ 0 (new_queue devno DEPTH) d Waiting.

Definition idle_server (m : gmap Z (list Z)) (d : RamDiskDevice) : service :=
  mkService m d true [] ∅ ∅.

Lemma start_rep m d devno : disk_ok d → rep ∅ [] (start m d devno).
Proof. intros Hd. split; [by apply new_io_ok|done..]. Qed.

Lemma exec_follows m d devno tr s :
  disk_ok d → exec (start m d devno) tr s →
  ∃ W l, behaves (idle_server m d) tr (server W l s) ∧ rep W l s.
Proof.
  intros Hd He. remember (start m d devno) as s0 eqn:Hs0.
  induction He as [s|s tr s1 ev r s2 He IH Hal Hst]; subst.
  - exists ∅, []. split; [apply behaves_nil|by apply start_rep].
  - destruct (IH eq_refl) as (W & l & Hb & Hr). destruct (step_follows W l s1 ev Hr Hal) as (r' & s' & W' & l' & Hst' & Hs & Hr').
    rewrite Hst in Hst'. injection Hst' as -> ->. exists W', l'. split; [by eapply behaves_snoc|done].
Qed.

(** *** The worker gets everything done *)

Fixpoint worker_rounds (n : nat) : M io unit :=
  match n with O => mret tt | S n => _ ← worker_step; worker_rounds n end.

Lemma rounds_answer W l s :
  rep W l s → worker s = Waiting →
  ∃ s', worker_rounds (2 * length l) s = Fin (Ok tt) s' ∧ rep W [] s' ∧ worker s' = Waiting.
Proof.
  revert s. induction l as [|f l IH]; intros s Hr Hw; [by exists s|].
  destruct (worker_takes W f l s Hr Hw) as (s1 & Hs1 & Hr1 & Hw1 & _).
  destruct (worker_answers W l s1 f Hr1 Hw1) as (s2 & w & Hs2 & Hr2 & Hw2 & _).
  destruct (IH s2 Hr2 Hw2) as (s3 & Hs3 & ? & ?). exists s3. split; [|done].
  replace (2 * length (f :: l))%nat with (S (S (2 * length l))) by (cbn; lia). cbn [worker_rounds].
  by rewrite (bind_run _ _ _ _ _ Hs1), (bind_run _ _ _ _ _ Hs2).
Qed.

Lemma rounds_add n k s s' :
  worker_rounds n s = Fin (Ok tt) s' → worker_rounds (n + k) s = worker_rounds k s'.
Proof.
  revert s. induction n as [|n IH]; intros s; cbn; [by intros [= ->]|].
  unfold mbind, M_bind. destruct (worker_step s) as [[[]|e] s1| |]; cbn; [apply IH|done..].
Qed.

(** No request is left when the ring is empty and the worker has none. *)
Lemma idle_settled W s f :
  rep W [] s → resting s → is_Some (W !! f) → is_Some (settled s f).
Proof.
  intros Hr Hw HW. pose proof (r_io _ _ _ Hr) as Hk. apply (k_dom _ _ _ Hk) in HW as [[r|] Hf].
  { exists r. unfold settled. by rewrite Hf. }
  destruct (proj2 (k_req _ _ _ Hk f) Hf) as [x Hx].
  destruct (k_status _ _ _ Hk f x Hx) as [[_ Hin]|[_ Hwf]]; [by apply elem_of_nil in Hin|].
  by destruct (Hw f).
Qed.

Lemma rounds_settle W l s :
  rep W l s →
  ∃ s', worker_rounds (2 * length l + 1) s = Fin (Ok tt) s' ∧ rep W [] s' ∧ resting s'.
Proof.
  intros Hr.
  assert (∀ s1, worker_step s = Fin (Ok tt) s1 → rep W l s1 → worker s1 = Waiting →
    ∃ s', worker_rounds (2 * length l + 1) s = Fin (Ok tt) s' ∧ rep W [] s' ∧ resting s') as Hfirst.
  { intros s1 Hs1 Hr1 Hw1. destruct (rounds_answer W l s1 Hr1 Hw1) as (s2 & Hs2 & ? & Hw2). exists s2.
    rewrite Nat.add_1_r. cbn [worker_rounds]. rewrite (bind_run _ _ _ _ _ Hs1). split; [done|]. split; [done|].
    intros f. by rewrite Hw2. }
  destruct (resting_dec s) as [[f Hw]|Hrest].
  - destruct (worker_answers W l s f Hr Hw) as (s1 & w & Hs1 & Hr1 & Hw1 & _). by apply (Hfirst s1).
  - assert (worker s = Waiting ∨ l = [] ∨ ∃ s1, worker_step s = Fin (Ok tt) s1 ∧ rep W l s1 ∧ worker s1 = Waiting)
      as [Hw|[->|(s1 & ? & ? & ?)]].
    { destruct l as [|f l]; [by right; left|].
      destruct (worker_sees W f l s Hr Hrest) as [?|(_ & s1 & ? & ? & ? & _)]; [by left|right; right]. by exists s1. }
    + destruct (rounds_answer W l s Hr Hw) as (s1 & Hs1 & Hr1 & Hw1).
      destruct (worker_rests W s1 Hr1) as (s2 & Hs2 & Hr2 & Hw2 & _); [intros f; by rewrite Hw1|]. exists s2. split; [|done].
      rewrite (rounds_add _ 1 s s1 Hs1). cbn. by rewrite (bind_run _ _ _ _ _ Hs2).
    + destruct (worker_rests W s Hr Hrest) as (s2 & Hs2 & Hr2 & Hw2 & _). exists s2. split; [|done].
      cbn. by rewrite (bind_run _ _ _ _ _ Hs2).
    + by apply (Hfirst s1).
Qed.

(** ** The properties *)

(** C14: take any sequence of whole calls of threads (submitting, taking an answer, storing,
    stopping the device) and steps of the worker (which sleeps when the ring is empty and
    runs again when it is woken), from an empty queue over a disk, under two conditions on
    the threads: they submit only while fewer than the 128 requests the ring holds are
    waiting (one more stops the kernel), and with memory of one block.  No step panics or
    fails; every answer and the memory and the disk are those of a server that answers the
    requests one by one in the order they were submitted, each with exactly one result: the
    effect of the request on the disk, [OUT_OF_MEMORY] without memory, [BUSY] once the device
    is stopped, or the error the device was stopped with, which only requests the worker had
    not taken get. *)
Theorem queue_serves_in_order m d devno tr s :
  disk_ok d → exec (start m d devno) tr s →
  (∃ v, behaves (idle_server m d) tr v ∧ v_mem v = mem s ∧ v_disk v = disk s ∧
    v_answers v = omap id (futures s)) ∧
  (∀ ev, allowed ev s → ∃ r s', step ev s = Fin (Ok r) s').
Proof.
  intros Hd He. destruct (exec_follows m d devno tr s Hd He) as (W & l & Hb & Hr). split.
  - by exists (server W l s).
  - intros ev Hal. destruct (step_follows W l s ev Hr Hal) as (r & s' & _ & _ & Hs & _). by exists r, s'.
Qed.

(** C24: from every state such an execution reaches the worker, run alone, settles every future
    that is waited for, in at most two steps for each request in the ring and one for the
    request it has or for its last look at the ring before it would sleep: a worker that
    sleeps was not left without the wake-up for a request. *)
Theorem worker_settles_all m d devno tr s :
  disk_ok d → exec (start m d devno) tr s →
  ∃ s', worker_rounds (2 * Z.to_nat (ring_size (q_ring (queue s))) + 1) s = Fin (Ok tt) s' ∧
    ∀ f, is_Some (futures s !! f) → is_Some (settled s' f).
Proof.
  intros Hd He. destruct (exec_follows m d devno tr s Hd He) as (W & l & _ & Hr).
  rewrite (ring_size_spec _ _ (k_ring _ _ _ (r_io _ _ _ Hr))), Nat2Z.id.
  destruct (rounds_settle W l s Hr) as (s' & Hs' & Hr' & Hw'). exists s'. split; [done|]. intros f Hf.
  eapply idle_settled; [done..|]. by apply (k_dom _ _ _ (r_io _ _ _ Hr)).
Qed.

End BlockService.

(** ** A disk of two blocks *)

Module BlockServiceWitness.
Import BlockQueue BlockQueueSpec BlockService.

Definition disk2 : RamDiskDevice := mkDisk 2 2 [1; 2; 3; 4].
Definition memory : gmap Z (list Z) := <[10 := [7; 8]]> (<[20 := [0; 0]]> ∅).

(** Two threads: one writes block 0 and one reads it, and the device is stopped. *)
Definition script : list event :=
  [EWrite true 0 10; ERead true 0 20; EWorker; EWorker; EWorker; EFlush true; EDrain IO_ERROR; EWorker;
   ECollect 0; ECollect 1; ECollect 2; EFlush true; ECollect 3].

Fixpoint run (evs : list event) (tr : list (event * reply)) (s : io) : option (list (event * reply) * io) :=
  match evs with
  | [] => Some (tr, s)
  | ev :: evs =>
      match step ev s with
      | Fin (Ok r) s' => run evs (tr ++ [(ev, r)]) s'
      | _ => None
      end
  end.

(** Every submission is allowed: the memory never shrinks and the ring has room. *)
Fixpoint run_allowed (evs : list event) (s : io) : Prop :=
  match evs with
  | [] => True
  | ev :: evs => allowed ev s ∧ match step ev s with Fin (Ok r) s' => run_allowed evs s' | _ => False end
  end.

Lemma queue_run_exec evs : ∀ tr s s0, exec s0 tr s → run_allowed evs s →
  ∃ tr' s', run evs tr s = Some (tr', s') ∧ exec s0 tr' s'.
Proof.
  induction evs as [|ev evs IH]; intros tr s s0 He; cbn; [intros _; by exists tr, s|].
  intros [Hal Hrun]. destruct (step ev s) as [[r|e] s1| |] eqn:Hs; try done.
  apply IH; [|done]. by eapply exec_snoc.
Qed.

(** What the threads see. *)
Definition replies (o : option (list (event * reply) * io)) : option (list reply * gmap Z (list Z) * list Z) :=
  '(tr, s) ← o; Some (tr.*2, mem s, D_base (disk s)).

Example queue_script_replies :
  replies (run script [] (start memory disk2 5)) =
  Some ([RFuture 0; RFuture 1; RDone; RDone; RDone; RFuture 2; RDone; RDone;
         RAnswer (Some (Ok 2)); RAnswer (Some (Ok 2)); RAnswer (Some (Err IO_ERROR)); RFuture 3;
         RAnswer (Some (Err BUSY))], <[10 := [7; 8]]> (<[20 := [7; 8]]> ∅), [7; 8; 3; 4]).
Proof. vm_compute. reflexivity. Qed.

Lemma queue_disk_ok : disk_ok disk2.
Proof. by split_and!. Qed.

Lemma queue_script_exec : ∃ tr s, run script [] (start memory disk2 5) = Some (tr, s) ∧ exec (start memory disk2 5) tr s.
Proof.
  apply (queue_run_exec script [] _ _ (exec_nil _)). vm_compute.
  repeat first [done | split | eexists].
Qed.

(** The first two events of the script, when the worker has begun with the first request. *)
Lemma three_exec :
  ∃ tr s, run (take 3 script) [] (start memory disk2 5) = Some (tr, s) ∧ exec (start memory disk2 5) tr s.
Proof.
  apply (queue_run_exec (take 3 script) [] _ _ (exec_nil _)). vm_compute.
  repeat first [done | split | eexists].
Qed.

Lemma queue_serves_in_order_witness :
  ∃ tr s, run script [] (start memory disk2 5) = Some (tr, s) ∧
    (∃ v, behaves (idle_server memory disk2) tr v ∧ v_mem v = mem s ∧ v_disk v = disk s ∧
      v_answers v = omap id (futures s)) ∧
    (∀ ev, allowed ev s → ∃ r s', step ev s = Fin (Ok r) s').
Proof.
  destruct queue_script_exec as (tr & s & Hrun & He). exists tr, s. split; [exact Hrun|].
  exact (queue_serves_in_order memory disk2 5 tr s queue_disk_ok He).
Defined.

Lemma worker_settles_all_witness :
  ∃ tr s, run (take 3 script) [] (start memory disk2 5) = Some (tr, s) ∧
    ∃ s', worker_rounds (2 * Z.to_nat (ring_size (q_ring (queue s))) + 1) s = Fin (Ok tt) s' ∧
      ∀ f, is_Some (futures s !! f) → is_Some (settled s' f).
Proof.
  destruct three_exec as (tr & s & Hrun & He). exists tr, s. split; [exact Hrun|].
  exact (worker_settles_all memory disk2 5 tr s queue_disk_ok He).
Defined.

(** The request after the ring is full stops the kernel. *)
Fixpoint submit_many (n : nat) (s : io) : outcome io Z :=
  match n with
  | O => submit_flush_async true s
  | S n => match submit_flush_async true s with Fin _ s' => submit_many n s' | o => o end
  end.

(** The 129th request while none is taken fails the assertion of [submit]. *)
Theorem submit_full_panics : submit_many 128 (start memory disk2 5) = Panic.
Proof. vm_compute. reflexivity. Qed.

End BlockServiceWitness.
