(* ===== verification/BlockCache.v ===== *)
(** * The buffer cache

    [kernel/bio/buffer.h] and [buffer.cpp]: file systems read and write blocks through
    handles to buffers; a buffer is read from the device when it is asked for, written
    back by [sync], and its slot is given to another block when nobody refers to it.

    [BlockQueue] is the device below.  A routine that waits for the device or for another
    thread's request ends in a [job], what the thread does when it runs again; [jobs]
    holds them by thread.  Buffers are named by the number their allocation got; [bufs]
    lacks a buffer that was freed, and a routine that uses one is a [Panic].  The bytes of
    a buffer are an array of [mem] in the device's state, under the same number. *)

From stdpp Require Import gmultiset.
From S2P Require Import Prelude ErrCode Addr RingBuf TmpFs BlockQueue BlockService.

#[local] Open Scope Z_scope.

Module BlockCache.
Import BlockQueue BlockService.

Record Buffer := mkBuffer {
  blkno : Z;
  data : Z;
  dirty : bool;
  valid : bool;
  inflight : bool;
  refcnt : Z;
}.

Definition set_dirty y x := mkBuffer (blkno x) (data x) y (valid x) (inflight x) (refcnt x).
Definition set_valid y x := mkBuffer (blkno x) (data x) (dirty x) y (inflight x) (refcnt x).
Definition set_inflight y x := mkBuffer (blkno x) (data x) (dirty x) (valid x) y (refcnt x).
Definition set_refcnt f x := mkBuffer (blkno x) (data x) (dirty x) (valid x) (inflight x) (f (refcnt x)).

(** Which call of the cache a [sync] belongs to: a thread's own, or the loop of [sync_all]
    with the slots that are left, called by a thread or by [tidy]. *)
Inductive caller := KOne | KAll (n : nat) | KTidy (n : nat).

(** What a thread waits for.
    - [JWait]: that the request of another thread for the buffer is done, in
      [get_buffer_async]; [true] when it has been woken;
    - [JRead]: the read that [get_buffer_async] has submitted;
    - [JWrite], [JFlush]: the two requests of [sync];
    - [JTidy]: the second loop of [tidy] is next. *)
Inductive job :=
  | JWait (woken : bool) (b a : Z)
  | JRead (b a f : Z)
  | JWrite (a f : Z) (k : caller)
  | JFlush (a f : Z) (k : caller)
  | JTidy.

Record memory_info := mkInfo { buffer_pages : Z; dirty_pages : Z; writeback_pages : Z }.

Record cache := mkCache {
  bio : io;
  blksz : Z;
  bufs : gmap Z Buffer;
  slots : list (option Z);
  mapping : gmap Z nat;
  info : memory_info;
  next_buf : Z;
  jobs : gmap Z job;
}.

Definition set_bio x s := mkCache x (blksz s) (bufs s) (slots s) (mapping s) (info s) (next_buf s) (jobs s).
Definition set_bufs f s := mkCache (bio s) (blksz s) (f (bufs s)) (slots s) (mapping s) (info s) (next_buf s) (jobs s).
Definition set_slots f s := mkCache (bio s) (blksz s) (bufs s) (f (slots s)) (mapping s) (info s) (next_buf s) (jobs s).
Definition set_mapping f s := mkCache (bio s) (blksz s) (bufs s) (slots s) (f (mapping s)) (info s) (next_buf s) (jobs s).
Definition set_info f s := mkCache (bio s) (blksz s) (bufs s) (slots s) (mapping s) (f (info s)) (next_buf s) (jobs s).
Definition set_next_buf f s := mkCache (bio s) (blksz s) (bufs s) (slots s) (mapping s) (info s) (f (next_buf s)) (jobs s).
Definition set_jobs f s := mkCache (bio s) (blksz s) (bufs s) (slots s) (mapping s) (info s) (next_buf s) (f (jobs s)).

(** A routine of a part of the state. *)
Definition zoom {S T A} (get : S → T) (put : T → S → S) (m : M T A) : M S A := λ s,
  match m (get s) with
  | Fin r x => Fin r (put x s)
  | Panic => Panic
  | OutOfFuel => OutOfFuel
  end.
Definition lift {A} (m : M io A) : M cache A := zoom bio set_bio m.

Definition buf (a : Z) : M cache Buffer :=
  x ← gets (λ s, bufs s !! a); match x with Some x => mret x | None => panic end.
Definition update_buf (a : Z) (f : Buffer → Buffer) : M cache unit :=
  x ← buf a; modify (set_bufs (insert a (f x))).

Definition keep (a : Z) : M cache unit := update_buf a (set_refcnt (λ n, n + 1)).
Definition release (a : Z) : M cache unit := update_buf a (set_refcnt (λ n, if 0 <? n then n - 1 else n)).

Definition MAX_CACHE_SIZE : nat := Z.to_nat 8192.

(** ** The counters of the system *)

Definition pages_of (sz : Z) : Z := page_align_up sz / PAGESIZE.
Definition take_pages (n pages : Z) : Z := if pages <=? n then n - pages else 0.

Definition set_buffer_pages f i := mkInfo (f (buffer_pages i)) (dirty_pages i) (writeback_pages i).
Definition set_dirty_pages f i := mkInfo (buffer_pages i) (f (dirty_pages i)) (writeback_pages i).
Definition set_writeback_pages f i := mkInfo (buffer_pages i) (dirty_pages i) (f (writeback_pages i)).

(** ** Slots *)

Definition clear_slot (i : nat) : M cache unit :=
  o ← gets (λ s, slots s !! i);
  match o with
  | None => fail OUT_OF_BOUNDARY
  | Some None => mret tt
  | Some (Some a) =>
      x ← buf a;
      if negb (refcnt x =? 0) || inflight x then fail BUSY
      else
        m ← gets mapping;
        _ ← (if bool_decide (m !! blkno x = Some i) then modify (set_mapping (delete (blkno x))) else mret tt);
        pages ← gets (λ s, pages_of (blksz s));
        _ ← modify (set_info (set_buffer_pages (λ n, take_pages n pages)));
        _ ← (if dirty x then modify (set_info (set_dirty_pages (λ n, take_pages n pages))) else mret tt);
        _ ← lift (modify (set_mem (delete (data x))));
        _ ← modify (set_bufs (delete a));
        modify (set_slots (insert i None))
  end.

(** The first slot, from [i] on, whose buffer is as [P] says. *)
Fixpoint scan (P : Buffer → bool) (i : nat) (l : list (option Z)) : M cache (option nat) :=
  match l with
  | [] => mret None
  | None :: l => scan P (S i) l
  | Some a :: l => x ← buf a; if P x then mret (Some i) else scan P (S i) l
  end.

Fixpoint free_slot (i : nat) (l : list (option Z)) : option nat :=
  match l with
  | [] => None
  | None :: _ => Some i
  | Some _ :: l => free_slot (S i) l
  end.

Definition idle (x : Buffer) : bool := (refcnt x =? 0) && negb (inflight x).

Definition find_free : M cache nat :=
  l ← gets slots;
  match free_slot 0 l with
  | Some i => mret i
  | None =>
      o ← scan (λ x, idle x && negb (dirty x)) 0 l;
      match o with
      | Some i => _ ← clear_slot i; mret i
      | None =>
          o ← scan idle 0 l;
          match o with
          | Some i => _ ← clear_slot i; mret i
          | None => fail BUSY
          end
      end
  end.

Definition find_buffer (b : Z) : M cache nat :=
  o ← gets (λ s, mapping s !! b); match o with Some i => mret i | None => fail ENTRY_NOT_FOUND end.

(** [alloc] is whether the heap had memory, [junk] what the new array holds.  Without
    memory the pointers are null, which the code tests for. *)
Definition ensure_buffer (alloc : bool) (junk : list Z) (b : Z) : M cache nat :=
  r ← attempt (find_buffer b);
  match r with
  | Ok i => mret i
  | Err e =>
      if negb (bool_decide (e = ENTRY_NOT_FOUND)) then fail e
      else
        i ← find_free;
        if negb alloc then fail OUT_OF_MEMORY
        else
          a ← gets next_buf;
          _ ← modify (set_next_buf (λ n, n + 1));
          _ ← modify (set_bufs (insert a (mkBuffer b a false false false 0)));
          _ ← lift (modify (set_mem (insert a junk)));
          _ ← modify (set_slots (insert i (Some a)));
          _ ← modify (set_mapping (insert b i));
          pages ← gets (λ s, pages_of (blksz s));
          _ ← modify (set_info (set_buffer_pages (λ n, add64 n pages)));
          mret i
  end.

(** ** Handles *)

Definition mark_dirty (a : Z) : M cache unit :=
  x ← buf a;
  _ ← (if dirty x then mret tt
       else pages ← gets (λ s, pages_of (blksz s));
            modify (set_info (set_dirty_pages (λ n, add64 n pages))));
  update_buf a (set_dirty true).

(** The bytes [write] and [read] copy; [None] when there is nothing to do. *)
Definition handle_len (off len sz : Z) : option Z :=
  if sz <=? off then None
  else Some (if sz <? add64 off len then sz - off else len).

Definition handler_write (a off : Z) (src : list Z) : M cache Z :=
  x ← buf a;
  sz ← gets blksz;
  match handle_len off (Z.of_nat (length src)) sz with
  | None => mret 0
  | Some len =>
      l ← lift (array (data x));
      l ← lift (copy_bytes len 0 off src l);
      _ ← lift (modify (set_mem (insert (data x) l)));
      _ ← mark_dirty a;
      mret len
  end.

(** [len] bytes into a buffer of [len] bytes; the answer is what is copied. *)
Definition handler_read (a off len : Z) : M cache (list Z) :=
  x ← buf a;
  sz ← gets blksz;
  match handle_len off len sz with
  | None => mret []
  | Some len =>
      l ← lift (array (data x));
      _ ← massert (off + len <=? Z.of_nat (length l));
      mret (take (Z.to_nat len) (drop (Z.to_nat off) l))
  end.

Definition writeblk (a : Z) (src : list Z) : M cache unit :=
  x ← buf a;
  sz ← gets blksz;
  _ ← massert (Z.of_nat (length src) =? sz);
  l ← lift (array (data x));
  l ← lift (copy_bytes sz 0 0 src l);
  _ ← lift (modify (set_mem (insert (data x) l)));
  mark_dirty a.

Definition readblk (a : Z) : M cache (list Z) :=
  x ← buf a;
  sz ← gets blksz;
  l ← lift (array (data x));
  _ ← massert (sz <=? Z.of_nat (length l));
  mret (take (Z.to_nat sz) l).

(** ** [get_buffer_async] *)

Inductive progress :=
  | Blocked (j : job)
  | GotHandle (r : Result Z)
  | GotVoid (r : Result unit).

(** From the wait for another thread's request on. *)
Definition get_check (room : bool) (b a : Z) : M cache progress :=
  x ← buf a;
  if inflight x then mret (Blocked (JWait false b a))
  else if valid x then _ ← keep a; mret (GotHandle (Ok a))
  else
    _ ← update_buf a (set_inflight true);
    f ← lift (submit_read_async room b (Some (data x)) 1);
    mret (Blocked (JRead b a f)).

Definition get_buffer (alloc room : bool) (junk : list Z) (b : Z) : M cache progress :=
  r ← attempt (ensure_buffer alloc junk b);
  match r with
  | Err e => mret (GotHandle (Err e))
  | Ok i =>
      o ← gets (λ s, slots s !! i);
      match o with
      | Some (Some a) => get_check room b a
      | _ => mret (GotHandle (Err UNKNOWN_ERROR))
      end
  end.

(** [wake_all] of the buffer. *)
Definition wake_job (a : Z) (j : job) : job :=
  match j with
  | JWait _ b a' => if a' =? a then JWait true b a' else j
  | _ => j
  end.

Definition get_read_done (b a : Z) (r : Result Z) : M cache progress :=
  _ ← update_buf a (set_inflight false);
  _ ← modify (set_jobs (fmap (wake_job a)));
  sz ← gets blksz;
  match r with
  | Err e => mret (GotHandle (Err e))
  | Ok n =>
      if negb (n =? sz) then mret (GotHandle (Err IO_ERROR))
      else
        _ ← update_buf a (set_valid true);
        _ ← keep a;
        mret (GotHandle (Ok a))
  end.

(** ** [sync], [sync_all], [tidy] *)

(** The future it waits for, or the result. *)
Definition sync_begin (room : bool) (a : Z) : M cache (Z + Result unit) :=
  x ← buf a;
  if negb (valid x) || negb (dirty x) then mret (inr (Ok tt))
  else if inflight x then mret (inr (Err BUSY))
  else
    _ ← update_buf a (set_inflight true);
    f ← lift (submit_write_async room (blkno x) (Some (data x)) 1);
    mret (inl f).

Definition sync_write_done (room : bool) (a : Z) (r : Result Z) : M cache (Z + Result unit) :=
  _ ← update_buf a (set_inflight false);
  sz ← gets blksz;
  match r with
  | Err e => mret (inr (Err e))
  | Ok n =>
      if negb (n =? sz) then mret (inr (Err IO_ERROR))
      else
        _ ← update_buf a (set_dirty false);
        _ ← modify (set_info (λ i, set_dirty_pages (λ n, take_pages n (pages_of sz))
                                     (set_writeback_pages (λ n, add64 n (pages_of sz)) i)));
        f ← lift (submit_flush_async room);
        mret (inl f)
  end.

Definition sync_flush_done (r : Result Z) : M cache (Result unit) :=
  pages ← gets (λ s, pages_of (blksz s));
  _ ← modify (set_info (set_writeback_pages (λ n, take_pages n pages)));
  mret (match r with Err e => Err e | Ok _ => Ok tt end).

(** The loop of [sync_all] over the last [n] slots; [k] says who called it. *)
Fixpoint sync_slots (tidy room : bool) (n : nat) : M cache progress :=
  match n with
  | O => mret (if tidy then Blocked JTidy else GotVoid (Ok tt))
  | S n =>
      l ← gets slots;
      match l !! (length l - S n)%nat with
      | Some (Some a) =>
          _ ← keep a;
          r ← sync_begin room a;
          match r with
          | inl f => mret (Blocked (JWrite a f (if tidy then KTidy n else KAll n)))
          | inr r =>
              _ ← release a;
              match r with Err e => mret (GotVoid (Err e)) | Ok _ => sync_slots tidy room n end
          end
      | _ => sync_slots tidy room n
      end
  end.

Definition sync_all (room : bool) : M cache progress :=
  n ← gets (λ s, length (slots s)); sync_slots false room n.

Fixpoint tidy_slots (n : nat) : M cache (Result unit) :=
  match n with
  | O => mret (Ok tt)
  | S n =>
      l ← gets slots;
      let i := (length l - S n)%nat in
      match l !! i with
      | Some (Some a) =>
          x ← buf a;
          if negb (refcnt x =? 0) || inflight x then tidy_slots n
          else r ← attempt (clear_slot i);
               match r with Err e => mret (Err e) | Ok _ => tidy_slots n end
      | _ => tidy_slots n
      end
  end.

Definition tidy (room : bool) : M cache progress :=
  n ← gets (λ s, length (slots s)); sync_slots true room n.

(** What follows a [sync] that is over: the caller has its result, or the loop goes on. *)
Definition sync_return (room : bool) (a : Z) (k : caller) (r : Result unit) : M cache progress :=
  match k with
  | KOne => mret (GotVoid r)
  | KAll n | KTidy n =>
      _ ← release a;
      match r with
      | Err e => mret (GotVoid (Err e))
      | Ok _ => sync_slots (match k with KTidy _ => true | _ => false end) room n
      end
  end.

Definition sync (room : bool) (a : Z) : M cache progress :=
  r ← sync_begin room a;
  match r with
  | inl f => mret (Blocked (JWrite a f KOne))
  | inr r => mret (GotVoid r)
  end.

(** ** A thread that runs again *)

Definition resume (room : bool) (j : job) : M cache progress :=
  match j with
  | JWait woken b a => if woken then get_check room b a else mret (Blocked j)
  | JRead b a f =>
      o ← lift (collect f);
      match o with None => mret (Blocked j) | Some r => get_read_done b a r end
  | JWrite a f k =>
      o ← lift (collect f);
      match o with
      | None => mret (Blocked j)
      | Some r =>
          o ← sync_write_done room a r;
          match o with
          | inl f => mret (Blocked (JFlush a f k))
          | inr r => sync_return room a k r
          end
      end
  | JFlush a f k =>
      o ← lift (collect f);
      match o with
      | None => mret (Blocked j)
      | Some r => r ← sync_flush_done r; sync_return room a k r
      end
  | JTidy => n ← gets (λ s, length (slots s)); r ← tidy_slots n; mret (GotVoid r)
  end.

(** ** The threads

    [handles] are the handles that threads have, each named by its buffer. *)

Record sys := mkSys { cst : cache; handles : gmultiset Z }.

Definition lift_cache {A} (m : M cache A) : M sys A := zoom cst (λ c s, mkSys c (handles s)) m.
Definition set_handles f s := mkSys (cst s) (f (handles s)).

Inductive event :=
  | CGet (t : Z) (alloc room : bool) (junk : list Z) (b : Z)
  | CSync (t : Z) (room : bool) (a : Z)
  | CSyncAll (t : Z) (room : bool)
  | CTidy (t : Z) (room : bool)
  | CResume (t : Z) (room : bool)
  | CWorker
  | CDrain (e : ErrCode)
  | CWrite (a off : Z) (l : list Z)
  | CRead (a off len : Z)
  | CWriteblk (a : Z) (l : list Z)
  | CReadblk (a : Z)
  | CCopy (a : Z)
  | CRelease (a : Z).

Inductive reply :=
  | RBlocked
  | RHandle (r : Result Z)
  | RVoid (r : Result unit)
  | RSize (n : Z)
  | RBytes (l : list Z)
  | RDone.

(** What becomes of thread [t]. *)
Definition settle_thread (t : Z) (p : progress) : M sys reply :=
  match p with
  | Blocked j => _ ← lift_cache (modify (set_jobs (insert t j))); mret RBlocked
  | GotHandle r =>
      _ ← (match r with Ok a => modify (set_handles (λ h, {[+ a +]} ⊎ h)) | Err _ => mret tt end);
      mret (RHandle r)
  | GotVoid r => mret (RVoid r)
  end.

(** The handle a thread syncs stays its own: it has it back afterwards. *)
Definition lent (j : job) : gmultiset Z :=
  match j with JWrite a _ KOne | JFlush a _ KOne => {[+ a +]} | _ => ∅ end.

Definition run_thread (t : Z) (had : gmultiset Z) (m : M cache progress) : M sys reply :=
  p ← lift_cache m;
  _ ← modify (set_handles (λ h, (h ⊎ had) ∖ match p with Blocked j => lent j | _ => ∅ end));
  settle_thread t p.

Definition step (ev : event) : M sys reply :=
  match ev with
  | CGet t alloc room junk b => run_thread t ∅ (get_buffer alloc room junk b)
  | CSync t room a => run_thread t ∅ (sync room a)
  | CSyncAll t room => run_thread t ∅ (sync_all room)
  | CTidy t room => run_thread t ∅ (tidy room)
  | CResume t room =>
      o ← gets (λ s, jobs (cst s) !! t);
      match o with
      | None => panic
      | Some j => _ ← lift_cache (modify (set_jobs (delete t))); run_thread t (lent j) (resume room j)
      end
  | CWorker => _ ← lift_cache (lift worker_step); mret RDone
  | CDrain e => _ ← lift_cache (lift (drain_and_stop e)); mret RDone
  | CWrite a off l => n ← lift_cache (handler_write a off l); mret (RSize n)
  | CRead a off len => l ← lift_cache (handler_read a off len); mret (RBytes l)
  | CWriteblk a l => _ ← lift_cache (writeblk a l); mret RDone
  | CReadblk a => l ← lift_cache (readblk a); mret (RBytes l)
  | CCopy a => _ ← lift_cache (keep a); _ ← modify (set_handles (λ h, {[+ a +]} ⊎ h)); mret RDone
  | CRelease a => _ ← lift_cache (release a); _ ← modify (set_handles (λ h, h ∖ {[+ a +]})); mret RDone
  end.

(** The cache of a disk. *)
Definition start_cache (d : RamDiskDevice) (devno : Z) : cache :=
  mkCache (start ∅ d devno) (D_block_size d) ∅ (replicate MAX_CACHE_SIZE None) ∅ (mkInfo 0 0 0) 0 ∅.
Definition start_sys (d : RamDiskDevice) (devno : Z) : sys := mkSys (start_cache d devno) ∅.

End BlockCache.
