(* ===== verification/BlockCacheInv.v ===== *)
(** * The invariant of the buffer cache

    What holds of the slots, the map, the buffers, the jobs and the device between the
    steps of threads, the block store that the cache shows ([view]), and what the device
    promises to a routine of the cache. *)

From stdpp Require Import gmultiset.
From S2P Require Import Prelude ErrCode Addr RingBuf TmpFs BlockQueue BlockService BlockCache.

#[local] Open Scope Z_scope.

Module BlockCacheInv.
Import BlockQueue BlockQueueSpec BlockService BlockCache.

(** ** What the device promises *)

Section zoom.
Context {S T : Type} (get : S → T) (put : T → S → S).

Lemma wp_zoom {A} (m : M T A) s (Q : Result A → S → Prop) :
  wp m (get s) (λ r x, Q r (put x s)) → wp (zoom get put m) s Q.
Proof. unfold wp, zoom. by destruct (m (get s)). Qed.

End zoom.

Lemma wp_run {S A} (m : M S A) s r s' (Q : Result A → S → Prop) : m s = Fin r s' → Q r s' → wp m s Q.
Proof. intros Hm. unfold wp. by rewrite Hm. Qed.

(** The part of the memory and the disk that requests can be about. *)
Lemma rep_mem W l s m :
  rep W l s → (∀ f w, W !! f = Some w → want_ok w m (disk s)) → rep W l (BlockQueue.set_mem (λ _, m) s).
Proof. intros [Hk _ ? ? ? ?] Hw. split; try done. by destruct Hk. Qed.

(** A request is submitted: it is outstanding, or settled with an error. *)
Definition requested (W : gmap Z want) s w f (W' : gmap Z want) s' : Prop :=
  W !! f = None ∧ W' = <[f := w]> W ∧ mem s' = mem s ∧ disk s' = disk s ∧
  (∀ r, settled s' f = Some r → ∃ e, r = Err e) ∧ (∀ g, g ≠ f → settled s' g = settled s g).

Lemma wp_submit W l s room w (Q : Result Z → io → Prop) :
  rep W l s → want_ok w (mem s) (disk s) → ring_size (q_ring (queue s)) < DEPTH →
  (∀ f W' l' s', rep W' l' s' → requested W s w f W' s' → Q (Ok f) s') →
  wp (submit_async room (w_op w) (w_lba w) (w_ptr w) (count_of (w_op w))) s Q.
Proof.
  intros Hr Hw Hroom HQ. pose proof (r_io _ _ _ Hr) as Hk.
  rewrite (ring_size_spec _ _ (k_ring _ _ _ Hk)) in Hroom.
  destruct (submit_run W l s room w Hk Hroom) as (s' & Hrun & Hq & Hwake & Hf & Hk').
  eapply wp_run; [exact Hrun|]. eapply HQ.
  - eapply rep_submitted; try done. revert Hwake. unfold refusal. rewrite (r_stopped _ _ _ Hr).
    destruct room, (q_accepting (queue s)); auto.
  - destruct (fresh_future _ _ _ Hk) as [_ Hnw]. destruct Hq as ((Hm & Hd) & _).
    unfold requested, settled. rewrite Hf. split_and!; [done..| |].
    + intros r. rewrite lookup_insert_eq. destruct (refusal room (queue s)) as [e|]; [|done]. intros [= <-]. by exists e.
    + intros g Hg. by rewrite lookup_insert_ne.
Qed.

(** A future that is settled is taken. *)
Lemma wp_collect W l s f w (Q : Result (option (Result Z)) → io → Prop) :
  rep W l s → W !! f = Some w →
  (settled s f = None → Q (Ok None) s) →
  (∀ r s', settled s f = Some r → rep (delete f W) l s' → mem s' = mem s → disk s' = disk s →
     (∀ g, g ≠ f → settled s' g = settled s g) → queue s' = queue s → Q (Ok (Some r)) s') →
  wp (collect f) s Q.
Proof.
  intros Hr Hf HN HS. unfold collect. repeat wp_step.
  destruct (settled s f) as [r|] eqn:Hset; [|by apply wp_ret, HN].
  assert (futures s !! f = Some (Some r)) as Hfr.
  { unfold settled in Hset. by destruct (futures s !! f) as [[?|]|]; cbn in Hset; simplify_eq. }
  unfold take_wait_result. repeat wp_step. apply HS; [done| |done|done| |done].
  - pose proof (collect_ok W l s f r (r_io _ _ _ Hr) Hfr). destruct Hr as [_ Hwants ? ? ? ?]. split; try done.
    intros g w' [_ Hg]%lookup_delete_Some. by eapply Hwants.
  - intros g Hg. unfold settled. cbn. by rewrite lookup_delete_ne.
Qed.

(** A step of the worker is not seen, or it is the effect of one request. *)
Definition served (W : gmap Z want) s s' : Prop :=
  (mem s' = mem s ∧ disk s' = disk s ∧ ∀ f, settled s' f = settled s f) ∨
  (∃ f w, W !! f = Some w ∧ settled s f = None ∧ want_ok w (mem s) (disk s) ∧
     mem s' = (effect w (mem s) (disk s)).1.2 ∧ disk s' = (effect w (mem s) (disk s)).2 ∧
     settled s' f = Some (effect w (mem s) (disk s)).1.1 ∧ ∀ g, g ≠ f → settled s' g = settled s g).

Lemma settled_answers W l s f : v_answers (server W l s) !! f = settled s f.
Proof. cbn. by rewrite lookup_omap. Qed.

Lemma wp_worker W l s (Q : Result unit → io → Prop) :
  rep W l s → (∀ l' s', rep W l' s' → served W s s' → Q (Ok tt) s') → wp worker_step s Q.
Proof.
  intros Hr HQ.
  assert (∀ l' s', server W l' s' = server W l s → served W s s') as Hsame.
  { intros l' s' Hv. left. split_and!.
    - exact (f_equal v_mem Hv).
    - exact (f_equal v_disk Hv).
    - intros f. by rewrite <- (settled_answers W l' s'), Hv, settled_answers. }
  destruct (resting_dec s) as [[f Hw]|Hw].
  - destruct (worker_answers W l s f Hr Hw) as (s' & w & Hs & Hr' & _ & HW & Hv).
    eapply wp_run; [exact Hs|]. apply (HQ l); [done|]. right. exists f, w. split_and!; [done| |by eapply r_want| | | |].
    + destruct (k_worker _ _ _ (r_io _ _ _ Hr) f Hw) as (x & Hx & _).
      unfold settled. by rewrite (pending_future _ _ _ _ _ (r_io _ _ _ Hr) Hx).
    + exact (f_equal v_mem Hv).
    + exact (f_equal v_disk Hv).
    + rewrite <- (settled_answers W l s'), Hv. apply lookup_insert_eq.
    + intros g Hg. rewrite <- (settled_answers W l s'), Hv. cbn [serve v_answers].
      rewrite lookup_insert_ne by done. apply settled_answers.
  - destruct (worker_idles W l s Hr Hw) as (s' & l' & Hs & Hr' & Hv). eapply wp_run; [exact Hs|]. by eapply HQ, Hsame.
Qed.

(** Stopping the device settles futures with errors. *)
Lemma wp_drain W l s e (Q : Result unit → io → Prop) :
  rep W l s →
  (∀ s', rep W [] s' → mem s' = mem s → disk s' = disk s →
     (∀ f r, settled s' f = Some r → settled s f = Some r ∨ r = Err e) → Q (Ok tt) s') →
  wp (drain_and_stop e) s Q.
Proof.
  intros Hr HQ. destruct (drain_run W l s e (r_io _ _ _ Hr)) as (s' & Hrun & Hk' & Hsame & Hw & Hacc & Hst & _ & Hf).
  eapply wp_run; [exact Hrun|]. destruct Hsame as [Hm Hd]. apply HQ; [|done|done|].
  - split; [done| | |done|by rewrite Hst|done].
    + intros f w HW. rewrite Hm, Hd. by eapply (r_want _ _ _ Hr).
    + by rewrite Hacc, Hst.
  - intros f r. unfold settled. rewrite Hf. destruct (decide (f ∈ l)); [|by left]. intros [= <-]. by right.
Qed.

(** ** Jobs *)

Definition job_future (j : job) : option Z :=
  match j with JRead _ _ f | JWrite _ f _ | JFlush _ f _ => Some f | _ => None end.
(** The buffer whose request the thread waits for. *)
Definition busy (j : job) : option Z :=
  match j with JRead _ a _ | JWrite a _ _ => Some a | _ => None end.
(** The handle the job has. *)
Definition job_ref (j : job) : gmultiset Z :=
  match j with JWrite a _ _ | JFlush a _ _ => {[+ a +]} | _ => ∅ end.

Definition job_refs (J : gmap Z job) : gmultiset Z := map_fold (λ _ j acc, job_ref j ⊎ acc) ∅ J.

Lemma job_refs_insert J t j : J !! t = None → job_refs (<[t := j]> J) = job_ref j ⊎ job_refs J.
Proof.
  intros Ht. unfold job_refs. rewrite (map_fold_insert_L _ _ _ _ _); [done| |done].
  intros. multiset_solver.
Qed.

Lemma job_refs_delete J t j : J !! t = Some j → job_refs J = job_ref j ⊎ job_refs (delete t J).
Proof. intros Ht. rewrite <- (job_refs_insert _ t) by apply lookup_delete_eq. by rewrite insert_delete_id. Qed.

Lemma job_refs_wake J a : job_refs (wake_job a <$> J) = job_refs J.
Proof.
  induction J as [|t j J Ht IH] using map_ind; [by rewrite fmap_empty|].
  rewrite fmap_insert, !job_refs_insert, IH by (try done; by rewrite lookup_fmap, Ht).
  f_equal. destruct j; cbn; try done. by destruct (_ =? _).
Qed.

(** ** The invariant *)

(** The answer of a request for one block is the size of the block. *)
Definition job_ok (W : gmap Z want) (s : cache) (j : job) : Prop :=
  match j with
  | JWait _ b a => ∃ x, bufs s !! a = Some x ∧ blkno x = b
  | JRead b a f =>
      ∃ x, bufs s !! a = Some x ∧ blkno x = b ∧ valid x = false ∧ W !! f = Some (mkWant READ b (Some a)) ∧
        ∀ n, settled (bio s) f = Some (Ok n) →
          n = blksz s ∧ b < D_block_count (disk (bio s)) ∧ mem (bio s) !! a = Some (block (disk (bio s)) b)
  | JWrite a f _ =>
      ∃ x, bufs s !! a = Some x ∧ dirty x = true ∧ W !! f = Some (mkWant WRITE (blkno x) (Some a)) ∧
        ∀ n, settled (bio s) f = Some (Ok n) →
          n = blksz s ∧ mem (bio s) !! a = Some (block (disk (bio s)) (blkno x))
  | JFlush a f _ => is_Some (bufs s !! a) ∧ W !! f = Some (mkWant FLUSH 0 None)
  | JTidy => True
  end.

Definition is_busy (s : cache) (a : Z) : Prop := ∃ t j, jobs s !! t = Some j ∧ busy j = Some a.

(** A buffer is what the block of the device is, or newer. *)
Record buf_ok (H : gmultiset Z) (s : cache) (a : Z) (x : Buffer) : Prop := {
  b_data : data x = a;
  b_u64 : is_u64 (blkno x);
  b_mem : has_block (mem (bio s)) (disk (bio s)) a;
  b_next : a < next_buf s;
  b_slot : ∃ i, slots s !! i = Some (Some a);
  b_ref : refcnt x = Z.of_nat (multiplicity a (H ⊎ job_refs (jobs s)));
  b_busy : inflight x = true ↔ is_busy s a;
  b_dirty : dirty x = true → valid x = true;
  b_bound : valid x = true → blkno x < D_block_count (disk (bio s));
  b_clean : valid x = true → dirty x = false → mem (bio s) !! a = Some (block (disk (bio s)) (blkno x));
}.

Record jobs_ok (W : gmap Z want) (s : cache) : Prop := {
  j_ok t j : jobs s !! t = Some j → job_ok W s j;
  j_alone t t' j j' a :
    jobs s !! t = Some j → jobs s !! t' = Some j' → busy j = Some a → busy j' = Some a → t = t';
  j_future t t' j j' f :
    jobs s !! t = Some j → jobs s !! t' = Some j' → job_future j = Some f → job_future j' = Some f → t = t';
  j_waited f w : W !! f = Some w → ∃ t j, jobs s !! t = Some j ∧ job_future j = Some f;
}.

(** [H] are the handles of the threads, [W] and [l] the futures and the ring of the device. *)
Record inv (H : gmultiset Z) (W : gmap Z want) (l : list Z) (s : cache) : Prop := {
  i_rep : rep W l (bio s);
  i_sz : blksz s = D_block_size (disk (bio s));
  i_slot i a : slots s !! i = Some (Some a) → ∃ x, bufs s !! a = Some x ∧ mapping s !! blkno x = Some i;
  i_map b i : mapping s !! b = Some i → ∃ a x, slots s !! i = Some (Some a) ∧ bufs s !! a = Some x ∧ blkno x = b;
  i_buf a x : bufs s !! a = Some x → buf_ok H s a x;
  i_live a : a ∈ H ⊎ job_refs (jobs s) → ∃ x, bufs s !! a = Some x ∧ valid x = true;
  i_jobs : jobs_ok W s;
}.

Lemma buf_unique H W l s a a' x x' :
  inv H W l s → bufs s !! a = Some x → bufs s !! a' = Some x' → blkno x = blkno x' → a = a'.
Proof.
  intros Hi Hx Hx' Hb. destruct (b_slot _ _ _ _ (i_buf _ _ _ _ Hi a x Hx)) as [i Hs].
  destruct (b_slot _ _ _ _ (i_buf _ _ _ _ Hi a' x' Hx')) as [i' Hs'].
  destruct (i_slot _ _ _ _ Hi i a Hs) as (y & Hy & Hm). destruct (i_slot _ _ _ _ Hi i' a' Hs') as (y' & Hy' & Hm').
  congruence.
Qed.

Lemma job_future_waited W s j f : job_ok W s j → job_future j = Some f → is_Some (W !! f).
Proof.
  destruct j; cbn; try done.
  - intros (x & _ & _ & _ & Hw & _) [= <-]. by eexists.
  - intros (x & _ & _ & Hw & _) [= <-]. by eexists.
  - intros [_ Hw] [= <-]. by eexists.
Qed.

(** What the cache shows of its shape and its disk stays the same. *)
Record frame (s s' : cache) : Prop := {
  f_sz : blksz s' = blksz s;
  f_slots : slots s' = slots s;
  f_mapping : mapping s' = mapping s;
  f_next : next_buf s' = next_buf s;
  f_bsize : D_block_size (disk (bio s')) = D_block_size (disk (bio s));
  f_bcount : D_block_count (disk (bio s')) = D_block_count (disk (bio s));
}.

(** What jobs see of the shape. *)
Definition job_frame (s s' : cache) : Prop :=
  blksz s' = blksz s ∧ D_block_count (disk (bio s')) = D_block_count (disk (bio s)).

Definition same_blocks (s s' : cache) (b : Z) : Prop :=
  0 <= b < D_block_count (disk (bio s)) → block (disk (bio s')) b = block (disk (bio s)) b.

(** A job is as good as before when its buffer and its future are. *)
Lemma job_stable W s W' s' j :
  job_ok W s j → job_frame s s' →
  (∀ a x, bufs s !! a = Some x → is_u64 (blkno x) ∧ (dirty x = true → blkno x < D_block_count (disk (bio s))) ∧
     ∃ x', bufs s' !! a = Some x' ∧ blkno x' = blkno x ∧
     (busy j = Some a → valid x' = valid x ∧ dirty x' = dirty x ∧ mem (bio s') !! a = mem (bio s) !! a ∧
        same_blocks s s' (blkno x))) →
  (∀ f, job_future j = Some f → W' !! f = W !! f ∧
     ∀ n, settled (bio s') f = Some (Ok n) → settled (bio s) f = Some (Ok n)) →
  job_ok W' s' j.
Proof.
  intros Hj [Hsz Hcnt] Hbuf Hfut. destruct j as [wk b a|b a f|a f k|a f k|]; cbn in *.
  - destruct Hj as (x & Hx & Hb). destruct (Hbuf a x Hx) as (_ & _ & x' & Hx' & Hb' & _). exists x'. by rewrite Hb'.
  - destruct Hj as (x & Hx & Hb & Hv & Hw & Hset). destruct (Hbuf a x Hx) as (Hu & _ & x' & Hx' & Hb' & Hsame).
    destruct (Hsame eq_refl) as (Hv' & _ & Hm & Hblk). destruct (Hfut f eq_refl) as [HW Hs]. exists x'.
    rewrite Hb', Hv', HW, Hsz, Hcnt, Hm. split_and!; [done..|]. intros n Hn.
    destruct (Hset n (Hs n Hn)) as (-> & Hlt & Hmem). split_and!; [done..|]. rewrite <- Hb in Hlt, Hmem |- *.
    rewrite Hblk; [done|]. unfold is_u64 in Hu. lia.
  - destruct Hj as (x & Hx & Hd & Hw & Hset). destruct (Hbuf a x Hx) as (Hu & Hbd & x' & Hx' & Hb' & Hsame).
    destruct (Hsame eq_refl) as (_ & Hd' & Hm & Hblk). destruct (Hfut f eq_refl) as [HW Hs]. exists x'.
    rewrite Hb', Hd', HW, Hsz, Hm. split_and!; [done..|]. intros n Hn.
    destruct (Hset n (Hs n Hn)) as (-> & Hmem). split; [done|]. rewrite Hblk; [done|].
    specialize (Hbd Hd). unfold is_u64 in Hu. lia.
  - destruct Hj as [[x Hx] Hw]. destruct (Hbuf a x Hx) as (_ & _ & x' & Hx' & _). destruct (Hfut f eq_refl) as [HW _].
    split; [by eexists|by rewrite HW].
  - done.
Qed.

(** One buffer and the jobs change. *)
Lemma inv_change H W l s H' W' l' s' a x x' :
  inv H W l s → bufs s !! a = Some x → bufs s' = <[a := x']> (bufs s) → blkno x' = blkno x → frame s s' →
  rep W' l' (bio s') →
  (∀ c, c ≠ a → mem (bio s') !! c = mem (bio s) !! c ∧
     multiplicity c (H' ⊎ job_refs (jobs s')) = multiplicity c (H ⊎ job_refs (jobs s)) ∧ (is_busy s' c ↔ is_busy s c)) →
  (∀ b, b ≠ blkno x → same_blocks s s' b) →
  buf_ok H' s' a x' → (a ∈ H' ⊎ job_refs (jobs s') → valid x' = true) → jobs_ok W' s' → inv H' W' l' s'.
Proof.
  intros Hi Hx Hbufs Hb Hfr Hr Hother Hblk Ha Hlive Hj. pose proof Hfr as [Hsz Hsl Hmp Hnx Hbs Hbc]. split; [done| | | | | |done].
  - rewrite Hsz, Hbs. apply Hi.
  - intros i c. rewrite Hsl, Hmp, Hbufs. intros Hs. destruct (i_slot _ _ _ _ Hi i c Hs) as (y & Hy & Hm).
    destruct (decide (c = a)) as [->|Hca]; [exists x'; rewrite lookup_insert_eq, Hb; split; [done|congruence]|].
    exists y. by rewrite lookup_insert_ne.
  - intros b i. rewrite Hsl, Hmp, Hbufs. intros Hm. destruct (i_map _ _ _ _ Hi b i Hm) as (c & y & Hs & Hy & Hyb).
    exists c. destruct (decide (c = a)) as [->|Hca]; [exists x'; rewrite lookup_insert_eq, Hb; split_and!; congruence|].
    exists y. by rewrite lookup_insert_ne.
  - intros c y. rewrite Hbufs. intros [[<- <-]|[Hca Hy]]%lookup_insert_Some; [done|].
    destruct (Hother c) as (Hm & Hmul & Hbz); [done|]. pose proof (i_buf _ _ _ _ Hi c y Hy) as Hok.
    assert (blkno y ≠ blkno x) as Hyb by (intros E; by apply Hca; symmetry; apply (buf_unique H W l s c a y x Hi Hy Hx E)).
    split; [apply Hok|apply Hok| | |rewrite Hsl; apply Hok|rewrite Hmul; apply Hok|rewrite Hbz; apply Hok|apply Hok| |].
    + unfold has_block. rewrite Hm, Hbs. apply Hok.
    + rewrite Hnx. apply Hok.
    + rewrite Hbc. apply Hok.
    + intros Hv Hd. rewrite Hm, (Hblk (blkno y) Hyb); [by apply Hok|]. pose proof (b_bound _ _ _ _ Hok Hv).
      pose proof (b_u64 _ _ _ _ Hok) as Hu. unfold is_u64 in Hu. lia.
  - intros c. rewrite Hbufs. destruct (decide (c = a)) as [->|Hca].
    + intros Hin. exists x'. rewrite lookup_insert_eq. auto.
    + rewrite lookup_insert_ne by done. destruct (Hother c) as (_ & Hmul & _); [done|].
      rewrite elem_of_multiplicity, Hmul, <- elem_of_multiplicity. apply Hi.
Qed.

(** *** Requests begin and end *)

(** The buffer [x] of a job, which it marks when its request is about the bytes. *)
Definition marked (y : bool) (j : job) (x : Buffer) : Buffer :=
  match busy j with Some _ => set_inflight y x | None => x end.

Lemma marked_same y j x :
  blkno (marked y j x) = blkno x ∧ data (marked y j x) = data x ∧ dirty (marked y j x) = dirty x ∧
  valid (marked y j x) = valid x ∧ refcnt (marked y j x) = refcnt x.
Proof. unfold marked. by destruct (busy j). Qed.

(** The job is about the buffer [a] only, and has a future. *)
Definition about (j : job) (a f : Z) : Prop :=
  job_future j = Some f ∧ (∀ c, busy j = Some c → c = a) ∧ (∀ c, c ∈ job_ref j → c = a).

Lemma frame_refl s s' :
  blksz s' = blksz s → slots s' = slots s → mapping s' = mapping s → next_buf s' = next_buf s →
  disk (bio s') = disk (bio s) → frame s s'.
Proof. intros ? ? ? ? Hd. split; by rewrite ?Hd. Qed.

Definition started (t a : Z) (j : job) (x : Buffer) (b' : io) (s : cache) : cache :=
  set_jobs (insert t j) (set_bio b' (set_bufs (insert a (marked true j x)) s)).

Lemma started_jobs W l s H w W' b' t j a f x :
  inv H W l s → bufs s !! a = Some x → jobs s !! t = None → about j a f →
  (busy j = Some a → inflight x = false) → requested W (bio s) w f W' b' →
  job_ok W' (started t a j x b' s) j → jobs_ok W' (started t a j x b' s).
Proof.
  intros Hi Hx Ht (Hjf & Hjb & _) Hfl (HWf & -> & Hm & Hd & _ & Hset) Hj. pose proof (i_jobs _ _ _ _ Hi) as Hjs.
  assert (∀ t' j', jobs s !! t' = Some j' → job_future j' ≠ Some f) as Hff.
  { intros t' j' Hj' E. destruct (job_future_waited W s j' f) as [? ?]; [by eapply j_ok|done|congruence]. }
  assert (∀ t' j', jobs s !! t' = Some j' → busy j = Some a → busy j' ≠ Some a) as Hbb.
  { intros t' j' Hj' Hbj E. pose proof (Hfl Hbj). assert (inflight x = true); [|congruence].
    apply (b_busy _ _ _ _ (i_buf _ _ _ _ Hi a x Hx)). by exists t', j'. }
  split; cbn [jobs set_jobs started].
  - intros t' j' [[<- <-]|[_ Hj']]%lookup_insert_Some; [done|].
    eapply (job_stable W s); [by eapply j_ok|split; [done|cbn; by rewrite ?Hd]| |].
    + intros c y Hy. pose proof (i_buf _ _ _ _ Hi c y Hy) as Hok. split; [apply Hok|].
      split; [intros Hdy; by apply Hok, Hok|]. cbn. unfold same_blocks. cbn. rewrite Hm, Hd.
      destruct (decide (c = a)) as [->|Hca]; [|exists y; by rewrite lookup_insert_ne].
      rewrite Hx in Hy. injection Hy as <-. exists (marked true j x). rewrite lookup_insert_eq.
      destruct (marked_same true j x) as (-> & _ & -> & -> & _). done.
    + intros g Hg. assert (g ≠ f) as Hgf by (intros ->; by eapply Hff).
      rewrite lookup_insert_ne by done. split; [done|]. cbn. by rewrite Hset.
  - intros t1 t2 j1 j2 c H1 H2 Hb1 Hb2.
    apply lookup_insert_Some in H1 as [[<- <-]|[Hn1 H1]]; apply lookup_insert_Some in H2 as [[<- <-]|[Hn2 H2]]; [done|..].
    + pose proof (Hjb c Hb1) as ->. by destruct (Hbb t2 j2 H2 Hb1).
    + pose proof (Hjb c Hb2) as ->. by destruct (Hbb t1 j1 H1 Hb2).
    + by eapply (j_alone _ _ Hjs t1 t2).
  - intros t1 t2 j1 j2 g H1 H2 Hf1 Hf2.
    apply lookup_insert_Some in H1 as [[<- <-]|[Hn1 H1]]; apply lookup_insert_Some in H2 as [[<- <-]|[Hn2 H2]]; [done|..].
    + assert (g = f) as -> by congruence. by destruct (Hff t2 j2 H2).
    + assert (g = f) as -> by congruence. by destruct (Hff t1 j1 H1).
    + by eapply (j_future _ _ Hjs t1 t2).
  - intros g w' [[<- <-]|[Hgf Hw']]%lookup_insert_Some; [exists t, j; by rewrite lookup_insert_eq|].
    destruct (j_waited _ _ Hjs g w' Hw') as (t' & j' & Hj' & Hg'). exists t', j'.
    rewrite lookup_insert_ne; [done|]. intros ->. congruence.
Qed.

Lemma inv_start H W l s w W' l' b' t j a f x :
  inv (job_ref j ⊎ H) W l s → bufs s !! a = Some x → jobs s !! t = None → about j a f →
  (busy j = Some a → inflight x = false) → rep W' l' b' → requested W (bio s) w f W' b' →
  job_ok W' (started t a j x b' s) j → inv H W' l' (started t a j x b' s).
Proof.
  intros Hi Hx Ht Hab Hfl Hr Hreq Hj. pose proof Hreq as (HWf & -> & Hm & Hd & _ & Hset).
  pose proof Hab as (Hjf & Hjb & Hjr). destruct (marked_same true j x) as (Hsb & Hsda & Hsd & Hsv & Hsr).
  assert (H ⊎ job_refs (<[t := j]> (jobs s)) = (job_ref j ⊎ H) ⊎ job_refs (jobs s)) as Hrefs.
  { rewrite job_refs_insert by done. multiset_solver. }
  assert (∀ c, is_busy (started t a j x b' s) c ↔ busy j = Some c ∨ is_busy s c) as Hbusy.
  { intros c. unfold is_busy, started. cbn. split.
    - intros (t' & j' & [[<- <-]|[_ Hj']]%lookup_insert_Some & Hb); [by left|right; by exists t', j'].
    - intros [Hb|(t' & j' & Hj' & Hb)]; [exists t, j; by rewrite lookup_insert_eq|].
      exists t', j'. rewrite lookup_insert_ne; [done|]. intros ->. congruence. }
  pose proof (i_buf _ _ _ _ Hi a x Hx) as Hok.
  eapply (inv_change _ W l s _ _ _ _ a x (marked true j x)); try done; [by apply frame_refl| | | | |].
  - intros c Hca. change (jobs (started t a j x b' s)) with (<[t := j]> (jobs s)).
    change (bio (started t a j x b' s)) with b'. rewrite Hm, Hrefs, Hbusy. split_and!; [done..|].
    split; [intros [Hb|?]; [by apply Hjb in Hb|done]|by right].
  - intros b _ _. change (bio (started t a j x b' s)) with b'. by rewrite Hd.
  - split; cbn [jobs set_jobs bio set_bio slots next_buf set_bufs started];
      rewrite ?Hsb, ?Hsda, ?Hsd, ?Hsv, ?Hsr, ?Hrefs, ?Hm, ?Hd; try apply Hok.
    rewrite Hbusy. unfold marked. destruct (busy j) as [c|] eqn:Hbj.
    + pose proof (Hjb c eq_refl) as ->. cbn. split; [by left|done].
    + rewrite (b_busy _ _ _ _ Hok). split; [by right|by intros [?|?]].
  - change (jobs (started t a j x b' s)) with (<[t := j]> (jobs s)). rewrite Hrefs, Hsv. intros Hin. destruct (i_live _ _ _ _ Hi a Hin) as (y & Hy & Hv). congruence.
  - by eapply started_jobs.
Qed.

Definition finished (t a : Z) (j : job) (x : Buffer) (b' : io) (s : cache) : cache :=
  set_bufs (insert a (marked false j x)) (set_bio b' (set_jobs (delete t) s)).

(** The future [f] has been taken. *)
Definition taken s f s' : Prop :=
  mem s' = mem s ∧ disk s' = disk s ∧ ∀ g, g ≠ f → settled s' g = settled s g.

Lemma finished_jobs W l s H b' t j a f x :
  inv H W l s → bufs s !! a = Some x → jobs s !! t = Some j → about j a f → taken (bio s) f b' →
  jobs_ok (delete f W) (finished t a j x b' s).
Proof.
  intros Hi Hx Ht (Hjf & Hjb & _) (Hm & Hd & Hset). pose proof (i_jobs _ _ _ _ Hi) as Hjs.
  split; cbn [jobs set_jobs finished set_bufs set_bio].
  - intros t' j' [Htt Hj']%lookup_delete_Some.
    eapply (job_stable W s); [by eapply j_ok|split; [done|cbn; by rewrite ?Hd]| |].
    + intros c y Hy. pose proof (i_buf _ _ _ _ Hi c y Hy) as Hok. split; [apply Hok|].
      split; [intros Hdy; by apply Hok, Hok|]. cbn. unfold same_blocks. cbn. rewrite Hm, Hd.
      destruct (decide (c = a)) as [->|Hca]; [|exists y; by rewrite lookup_insert_ne].
      rewrite Hx in Hy. injection Hy as <-. exists (marked false j x). rewrite lookup_insert_eq.
      destruct (marked_same false j x) as (-> & _ & -> & -> & _). done.
    + intros g Hg. assert (g ≠ f) as Hgf by (intros ->; by apply Htt, (j_future _ _ Hjs t t' j j' f)).
      rewrite lookup_delete_ne by done. split; [done|]. cbn. by rewrite Hset.
  - intros t1 t2 j1 j2 c [_ H1]%lookup_delete_Some [_ H2]%lookup_delete_Some. by apply (j_alone _ _ Hjs).
  - intros t1 t2 j1 j2 g [_ H1]%lookup_delete_Some [_ H2]%lookup_delete_Some. by apply (j_future _ _ Hjs).
  - intros g w' [Hgf Hw']%lookup_delete_Some. destruct (j_waited _ _ Hjs g w' Hw') as (t' & j' & Hj' & Hg').
    exists t', j'. rewrite lookup_delete_ne; [done|]. intros ->. congruence.
Qed.

Lemma inv_finish H W l s b' t j a f x :
  inv H W l s → bufs s !! a = Some x → jobs s !! t = Some j → about j a f →
  rep (delete f W) l b' → taken (bio s) f b' →
  inv (job_ref j ⊎ H) (delete f W) l (finished t a j x b' s).
Proof.
  intros Hi Hx Ht Hab Hr Htk. pose proof Htk as (Hm & Hd & Hset). pose proof Hab as (Hjf & Hjb & Hjr).
  destruct (marked_same false j x) as (Hsb & Hsda & Hsd & Hsv & Hsr).
  assert ((job_ref j ⊎ H) ⊎ job_refs (delete t (jobs s)) = H ⊎ job_refs (jobs s)) as Hrefs.
  { rewrite (job_refs_delete (jobs s) t j) by done. multiset_solver. }
  assert (∀ c, is_busy (finished t a j x b' s) c ↔ busy j ≠ Some c ∧ is_busy s c) as Hbusy.
  { intros c. unfold is_busy, finished. cbn. split.
    - intros (t' & j' & [Htt Hj']%lookup_delete_Some & Hb). split; [|by exists t', j'].
      intros Hbj. by apply Htt, (j_alone _ _ (i_jobs _ _ _ _ Hi) t t' j j' c).
    - intros [Hbj (t' & j' & Hj' & Hb)]. exists t', j'. rewrite lookup_delete_ne; [done|]. intros ->. congruence. }
  pose proof (i_buf _ _ _ _ Hi a x Hx) as Hok.
  eapply (inv_change _ W l s _ _ _ _ a x (marked false j x)); try done; [by apply frame_refl| | | | |].
  - intros c Hca. change (jobs (finished t a j x b' s)) with (delete t (jobs s)).
    change (bio (finished t a j x b' s)) with b'. rewrite Hm, Hrefs, Hbusy. split_and!; [done..|].
    split; [by intros [_ ?]|]. intros Hbz. split; [|done]. intros Hb. by apply Hjb in Hb.
  - intros b _ _. change (bio (finished t a j x b' s)) with b'. by rewrite Hd.
  - split; cbn [jobs set_jobs bio set_bio slots next_buf set_bufs finished];
      rewrite ?Hsb, ?Hsda, ?Hsd, ?Hsv, ?Hsr, ?Hrefs, ?Hm, ?Hd; try apply Hok.
    rewrite Hbusy. unfold marked. destruct (busy j) as [c|] eqn:Hbj.
    + pose proof (Hjb c eq_refl) as ->. cbn. split; [done|by intros [? _]].
    + rewrite (b_busy _ _ _ _ Hok). split; [done|by intros [_ ?]].
  - change (jobs (finished t a j x b' s)) with (delete t (jobs s)). rewrite Hrefs, Hsv.
    intros Hin. destruct (i_live _ _ _ _ Hi a Hin) as (y & Hy & Hv). congruence.
  - by eapply finished_jobs.
Qed.

(** *** Jobs without a request *)

Definition plain (j : job) : Prop := job_future j = None ∧ busy j = None ∧ job_ref j = ∅.

(** The invariant only looks at what jobs wait for. *)
Lemma inv_jobs H W l s J :
  inv H W l s → job_refs J = job_refs (jobs s) →
  (∀ c, is_busy (set_jobs (λ _, J) s) c ↔ is_busy s c) → jobs_ok W (set_jobs (λ _, J) s) →
  inv H W l (set_jobs (λ _, J) s).
Proof.
  intros [Hr Hsz Hs Hm Hb Hlive Hj] Hrefs Hbusy HJ. split; try done; cbn.
  - intros a x Hx. destruct (Hb a x Hx). split; try done; [cbn; by rewrite Hrefs|by rewrite Hbusy].
  - by rewrite Hrefs.
Qed.

Lemma inv_add_plain H W l s t j :
  inv H W l s → jobs s !! t = None → plain j → job_ok W s j → inv H W l (set_jobs (insert t j) s).
Proof.
  intros Hi Ht (Hf & Hb & Hr) Hj. pose proof (i_jobs _ _ _ _ Hi) as Hjs.
  apply (inv_jobs H W l s (<[t := j]> (jobs s)) Hi).
  - rewrite job_refs_insert, Hr by done. multiset_solver.
  - intros c. unfold is_busy. cbn. split.
    + intros (t' & j' & [[<- <-]|[_ Hj']]%lookup_insert_Some & Hb'); [congruence|]. by exists t', j'.
    + intros (t' & j' & Hj' & Hb'). exists t', j'. rewrite lookup_insert_ne; [done|]. intros ->. congruence.
  - split; cbn.
    + intros t' j' [[<- <-]|[_ Hj']]%lookup_insert_Some; [done|]. by apply (j_ok _ _ Hjs t').
    + intros t1 t2 j1 j2 c [[<- <-]|[_ H1]]%lookup_insert_Some [[<- <-]|[_ H2]]%lookup_insert_Some; try congruence.
      by apply (j_alone _ _ Hjs).
    + intros t1 t2 j1 j2 c [[<- <-]|[_ H1]]%lookup_insert_Some [[<- <-]|[_ H2]]%lookup_insert_Some; try congruence.
      by apply (j_future _ _ Hjs).
    + intros g w' Hw'. destruct (j_waited _ _ Hjs g w' Hw') as (t' & j' & Hj' & Hg'). exists t', j'.
      rewrite lookup_insert_ne; [done|]. intros ->. congruence.
Qed.

Lemma inv_del_plain H W l s t j :
  inv H W l s → jobs s !! t = Some j → plain j → inv H W l (set_jobs (delete t) s).
Proof.
  intros Hi Ht (Hf & Hb & Hr). pose proof (i_jobs _ _ _ _ Hi) as Hjs.
  apply (inv_jobs H W l s (delete t (jobs s)) Hi).
  - rewrite (job_refs_delete (jobs s) t j), Hr by done. multiset_solver.
  - intros c. unfold is_busy. cbn. split.
    + intros (t' & j' & [_ Hj']%lookup_delete_Some & Hb'). by exists t', j'.
    + intros (t' & j' & Hj' & Hb'). exists t', j'. rewrite lookup_delete_ne; [done|]. intros ->. congruence.
  - split; cbn.
    + intros t' j' [_ Hj']%lookup_delete_Some. by apply (j_ok _ _ Hjs t').
    + intros t1 t2 j1 j2 c [_ H1]%lookup_delete_Some [_ H2]%lookup_delete_Some. by apply (j_alone _ _ Hjs).
    + intros t1 t2 j1 j2 c [_ H1]%lookup_delete_Some [_ H2]%lookup_delete_Some. by apply (j_future _ _ Hjs).
    + intros g w' Hw'. destruct (j_waited _ _ Hjs g w' Hw') as (t' & j' & Hj' & Hg'). exists t', j'.
      rewrite lookup_delete_ne; [done|]. intros ->. congruence.
Qed.

Lemma wake_job_same a j :
  job_future (wake_job a j) = job_future j ∧ busy (wake_job a j) = busy j ∧
  ∀ W s, job_ok W s (wake_job a j) ↔ job_ok W s j.
Proof. destruct j; try done. cbn. by destruct (_ =? _). Qed.

Lemma inv_wake H W l s a : inv H W l s → inv H W l (set_jobs (fmap (wake_job a)) s).
Proof.
  intros Hi. pose proof (i_jobs _ _ _ _ Hi) as Hjs. apply (inv_jobs H W l s (wake_job a <$> jobs s) Hi).
  - apply job_refs_wake.
  - intros c. unfold is_busy. cbn. split.
    + intros (t & j & (j' & <- & Hj')%lookup_fmap_Some & Hb). exists t, j'. by destruct (wake_job_same a j') as (_ & Hsame & _); rewrite <- Hsame.
    + intros (t & j & Hj & Hb). exists t, (wake_job a j). rewrite lookup_fmap, Hj.
      by destruct (wake_job_same a j) as (_ & -> & _).
  - split; cbn.
    + intros t j (j' & <- & Hj')%lookup_fmap_Some. apply wake_job_same. by apply (j_ok _ _ Hjs t).
    + intros t1 t2 j1 j2 c (k1 & <- & H1)%lookup_fmap_Some (k2 & <- & H2)%lookup_fmap_Some.
      destruct (wake_job_same a k1) as (_ & -> & _). destruct (wake_job_same a k2) as (_ & -> & _). by apply (j_alone _ _ Hjs).
    + intros t1 t2 j1 j2 c (k1 & <- & H1)%lookup_fmap_Some (k2 & <- & H2)%lookup_fmap_Some.
      destruct (wake_job_same a k1) as (-> & _). destruct (wake_job_same a k2) as (-> & _). by apply (j_future _ _ Hjs).
    + intros g w' Hw'. destruct (j_waited _ _ Hjs g w' Hw') as (t & j & Hj & Hg). exists t, (wake_job a j).
      rewrite lookup_fmap, Hj. by destruct (wake_job_same a j) as (-> & _).
Qed.

(** The counters do not matter. *)
Lemma inv_info H W l s f : inv H W l s → inv H W l (set_info f s).
Proof.
  intros [Hr Hsz Hs Hm Hb Hlive [? ? ? ?]]. split; try done.
  intros a x Hx. by destruct (Hb a x Hx).
Qed.

(** *** A buffer changes *)

Lemma jobs_content H W l s a x x' b' :
  inv H W l s → bufs s !! a = Some x → blkno x' = blkno x → disk b' = disk (bio s) →
  (∀ f, settled b' f = settled (bio s) f) → (∀ c, c ≠ a → mem b' !! c = mem (bio s) !! c) →
  (is_busy s a → valid x' = valid x ∧ dirty x' = dirty x ∧ mem b' !! a = mem (bio s) !! a) →
  jobs_ok W (set_bufs (insert a x') (set_bio b' s)).
Proof.
  intros Hi Hx Hb Hd Hset Hm Hbz. pose proof (i_jobs _ _ _ _ Hi) as Hjs. destruct Hjs as [Hok ? ? ?]. split; try done.
  intros t j Hj. eapply (job_stable W s); [by eapply Hok|split; [done|cbn; by rewrite ?Hd]| |].
  - intros c y Hy. pose proof (i_buf _ _ _ _ Hi c y Hy) as Hc. split; [apply Hc|].
    split; [intros Hdy; by apply Hc, Hc|]. cbn. unfold same_blocks. cbn. rewrite Hd.
    destruct (decide (c = a)) as [->|Hca]; [|exists y; rewrite lookup_insert_ne, Hm by done; done].
    rewrite Hx in Hy. injection Hy as <-. exists x'. rewrite lookup_insert_eq. split_and!; [done..|].
    intros Hbj. destruct Hbz as (-> & -> & ->); [by exists t, j|done].
  - intros f _. cbn. by rewrite Hset.
Qed.

Lemma inv_content H H' W l s a x x' b' :
  inv H W l s → bufs s !! a = Some x → blkno x' = blkno x → disk b' = disk (bio s) →
  (∀ f, settled b' f = settled (bio s) f) → (∀ c, c ≠ a → mem b' !! c = mem (bio s) !! c) →
  (is_busy s a → valid x' = valid x ∧ dirty x' = dirty x ∧ mem b' !! a = mem (bio s) !! a) →
  rep W l b' → (∀ c, c ≠ a → multiplicity c H' = multiplicity c H) →
  buf_ok H' (set_bufs (insert a x') (set_bio b' s)) a x' → (a ∈ H' ⊎ job_refs (jobs s) → valid x' = true) →
  inv H' W l (set_bufs (insert a x') (set_bio b' s)).
Proof.
  intros Hi Hx Hb Hd Hset Hm Hbz Hr HH Hok Hlive.
  eapply (inv_change _ W l s _ _ _ _ a x x'); try done; [by apply frame_refl| | |by eapply jobs_content].
  - intros c Hca. cbn. split; [by apply Hm|]. rewrite !multiplicity_disj_union, HH by done. done.
  - intros b _ _. cbn. by rewrite Hd.
Qed.

Lemma set_bio_id s : set_bio (bio s) s = s.
Proof. by destruct s. Qed.

Lemma inv_refcnt H H' W l s a x n :
  inv H W l s → bufs s !! a = Some x → (∀ c, c ≠ a → multiplicity c H' = multiplicity c H) →
  n = Z.of_nat (multiplicity a (H' ⊎ job_refs (jobs s))) → (a ∈ H' → valid x = true) →
  inv H' W l (set_bufs (insert a (set_refcnt (λ _, n) x)) s).
Proof.
  intros Hi Hx HH Hn Hlive. pose proof (i_buf _ _ _ _ Hi a x Hx) as Hok. rewrite <- (set_bio_id s) at 1.
  eapply (inv_content H); try done; [apply Hi| |].
  - destruct Hok. by split.
  - intros [Hin|Hin]%gmultiset_elem_of_disj_union; [by apply Hlive|]. cbn.
    destruct (i_live _ _ _ _ Hi a) as (y & Hy & Hv); [multiset_solver|congruence].
Qed.

Lemma inv_keep H W l s a x :
  inv H W l s → bufs s !! a = Some x → valid x = true →
  inv ({[+ a +]} ⊎ H) W l (set_bufs (insert a (set_refcnt (λ n, n + 1) x)) s).
Proof.
  intros Hi Hx Hv. apply (inv_refcnt H _ W l s a x (refcnt x + 1) Hi Hx); [| |done].
  - intros c Hc. rewrite multiplicity_disj_union, multiplicity_singleton_ne by done. done.
  - rewrite (b_ref _ _ _ _ (i_buf _ _ _ _ Hi a x Hx)), !multiplicity_disj_union, multiplicity_singleton, decide_True by done. lia.
Qed.

Lemma inv_release H W l s a x :
  inv ({[+ a +]} ⊎ H) W l s → bufs s !! a = Some x →
  inv H W l (set_bufs (insert a (set_refcnt (λ n, if 0 <? n then n - 1 else n) x)) s).
Proof.
  intros Hi Hx. pose proof (b_ref _ _ _ _ (i_buf _ _ _ _ Hi a x Hx)) as Hn.
  rewrite !multiplicity_disj_union, multiplicity_singleton, decide_True in Hn by done.
  apply (inv_refcnt _ H W l s a x (if 0 <? refcnt x then refcnt x - 1 else refcnt x) Hi Hx).
  - intros c Hc. rewrite multiplicity_disj_union, multiplicity_singleton_ne by done. done.
  - rewrite multiplicity_disj_union. destruct (Z.ltb_spec 0 (refcnt x)); lia.
  - intros Hin. destruct (i_live _ _ _ _ Hi a) as (y & Hy & Hv); [multiset_solver|congruence].
Qed.

(** The buffer is known to hold the block. *)
Lemma inv_validate H W l s a x :
  inv H W l s → bufs s !! a = Some x → inflight x = false → blkno x < D_block_count (disk (bio s)) →
  mem (bio s) !! a = Some (block (disk (bio s)) (blkno x)) →
  inv H W l (set_bufs (insert a (set_valid true x)) s).
Proof.
  intros Hi Hx Hfl Hlt Hm. pose proof (i_buf _ _ _ _ Hi a x Hx) as Hok. rewrite <- (set_bio_id s) at 1.
  eapply (inv_content H); try done; [|apply Hi|].
  - intros Hbz. apply (b_busy _ _ _ _ Hok) in Hbz. congruence.
  - destruct Hok. by split.
Qed.

(** The block of the device is known to be what the buffer holds. *)
Lemma inv_clean H W l s a x :
  inv H W l s → bufs s !! a = Some x → inflight x = false →
  mem (bio s) !! a = Some (block (disk (bio s)) (blkno x)) →
  inv H W l (set_bufs (insert a (set_dirty false x)) s).
Proof.
  intros Hi Hx Hfl Hm. pose proof (i_buf _ _ _ _ Hi a x Hx) as Hok. rewrite <- (set_bio_id s) at 1.
  eapply (inv_content H); try done; [|apply Hi| |].
  - intros Hbz. apply (b_busy _ _ _ _ Hok) in Hbz. congruence.
  - destruct Hok. by split.
  - intros Hin. destruct (i_live _ _ _ _ Hi a Hin) as (y & Hy & Hv). cbn. congruence.
Qed.

Lemma rep_store W l s p a :
  rep W l s → Z.of_nat (length a) = D_block_size (disk s) → rep W l (BlockQueue.set_mem (insert p a) s).
Proof.
  intros Hr Hlen. apply (rep_step W l s); try done; [|by apply store_stays|apply Hr..].
  destruct (r_io _ _ _ Hr). by split.
Qed.

(** A thread writes into a buffer it has a handle to. *)
Lemma inv_write H W l s a x m :
  inv H W l s → bufs s !! a = Some x → valid x = true → inflight x = false → Z.of_nat (length m) = blksz s →
  inv H W l (set_bufs (insert a (set_dirty true x)) (set_bio (BlockQueue.set_mem (insert a m) (bio s)) s)).
Proof.
  intros Hi Hx Hv Hfl Hm. pose proof (i_buf _ _ _ _ Hi a x Hx) as Hok. rewrite (i_sz _ _ _ _ Hi) in Hm.
  eapply (inv_content H); try done.
  - intros c Hc. cbn. by rewrite lookup_insert_ne.
  - intros Hbz. apply (b_busy _ _ _ _ Hok) in Hbz. congruence.
  - apply rep_store; [apply Hi|done].
  - destruct Hok. split; try done. exists m. cbn. by rewrite lookup_insert_eq.
Qed.

(** ** The blocks that the cache shows *)

Definition cached (s : cache) (b : Z) : option (list Z) :=
  i ← mapping s !! b; o ← slots s !! i; a ← o; x ← bufs s !! a;
  if valid x then mem (bio s) !! a else None.

Definition view (s : cache) (b : Z) : list Z := default (block (disk (bio s)) b) (cached s b).

(** A block is shown from its valid buffer, or from the disk. *)
Lemma view_valid H W l s a x m :
  inv H W l s → bufs s !! a = Some x → valid x = true → mem (bio s) !! a = Some m → view s (blkno x) = m.
Proof.
  intros Hi Hx Hv Hm. destruct (b_slot _ _ _ _ (i_buf _ _ _ _ Hi a x Hx)) as [i Hs].
  destruct (i_slot _ _ _ _ Hi i a Hs) as (y & Hy & Hmap). rewrite Hx in Hy. injection Hy as <-.
  unfold view, cached. rewrite Hmap. cbn. rewrite Hs. cbn. rewrite Hx. cbn. by rewrite Hv, Hm.
Qed.

Lemma view_invalid H W l s b :
  inv H W l s → (∀ a x, bufs s !! a = Some x → blkno x = b → valid x = false) → view s b = block (disk (bio s)) b.
Proof.
  intros Hi Hb. unfold view, cached. destruct (mapping s !! b) as [i|] eqn:Hm; [cbn|done].
  destruct (i_map _ _ _ _ Hi b i Hm) as (a & x & Hs & Hx & Hxb). rewrite Hs. cbn. rewrite Hx. cbn.
  by rewrite (Hb a x Hx Hxb).
Qed.

Lemma buf_mem H W l s a x :
  inv H W l s → bufs s !! a = Some x → ∃ m, mem (bio s) !! a = Some m ∧ Z.of_nat (length m) = blksz s.
Proof.
  intros Hi Hx. destruct (b_mem _ _ _ _ (i_buf _ _ _ _ Hi a x Hx)) as (m & Hm & Hlen).
  exists m. by rewrite (i_sz _ _ _ _ Hi).
Qed.

Lemma view_cases H W l s b :
  inv H W l s →
  (∃ a x m, bufs s !! a = Some x ∧ blkno x = b ∧ valid x = true ∧ mem (bio s) !! a = Some m ∧ view s b = m) ∨
  ((∀ a x, bufs s !! a = Some x → blkno x = b → valid x = false) ∧ view s b = block (disk (bio s)) b).
Proof.
  intros Hi. destruct (mapping s !! b) as [i|] eqn:Hm.
  - destruct (i_map _ _ _ _ Hi b i Hm) as (a & x & Hs & Hx & Hb). destruct (valid x) eqn:Hv.
    + destruct (buf_mem _ _ _ _ a x Hi Hx) as (m & Hma & _). left. exists a, x, m. split_and!; [done..|].
      rewrite <- Hb. by eapply view_valid.
    + right. assert (∀ c y, bufs s !! c = Some y → blkno y = b → valid y = false) as Hall.
      { intros c y Hy Hyb. assert (c = a) as ->; [|congruence].
        apply (buf_unique H W l s c a y x Hi Hy Hx). congruence. }
      split; [done|by eapply view_invalid].
  - right. assert (∀ c y, bufs s !! c = Some y → blkno y = b → valid y = false) as Hall.
    { intros c y Hy Hyb. destruct (b_slot _ _ _ _ (i_buf _ _ _ _ Hi c y Hy)) as [i Hs].
      destruct (i_slot _ _ _ _ Hi i c Hs) as (z & Hz & Hzm). congruence. }
    split; [done|by eapply view_invalid].
Qed.

(** The same slots, bytes and disk, and buffers that are as valid as before. *)
Lemma view_ext s s' b :
  mapping s' = mapping s → slots s' = slots s → mem (bio s') = mem (bio s) → disk (bio s') = disk (bio s) →
  (∀ a, valid <$> bufs s' !! a = valid <$> bufs s !! a) → view s' b = view s b.
Proof.
  intros Hm Hs Hme Hd Hv. unfold view, cached. rewrite Hm, Hs, Hme, Hd. f_equal.
  destruct (mapping s !! b) as [i|]; [cbn|done]. destruct (slots s !! i) as [[a|]|]; [cbn|done..].
  specialize (Hv a). destruct (bufs s' !! a), (bufs s !! a); cbn in *; try done.
  by injection Hv as ->.
Qed.

Lemma valid_insert (m : gmap Z Buffer) a x x' c :
  m !! a = Some x → valid x' = valid x → valid <$> <[a := x']> m !! c = valid <$> m !! c.
Proof.
  intros Hx Hv. destruct (decide (c = a)) as [->|Hca]; [by rewrite lookup_insert_eq, Hx; cbn; rewrite Hv|].
  by rewrite lookup_insert_ne.
Qed.

(** What every step of the cache keeps, but writing: the blocks it shows, the disk's size,
    and that a buffer's name stands for one block. *)
Record evolves (s s' : cache) : Prop := {
  e_view b : 0 <= b < D_block_count (disk (bio s)) → view s' b = view s b;
  e_count : D_block_count (disk (bio s')) = D_block_count (disk (bio s));
  e_blksz : blksz s' = blksz s;
  e_next : next_buf s <= next_buf s';
  e_names a x' : bufs s' !! a = Some x' → a < next_buf s → ∃ x, bufs s !! a = Some x ∧ blkno x = blkno x';
}.

Lemma evolves_refl s : evolves s s.
Proof. split; try done. intros a x' Hx _. by exists x'. Qed.

Lemma evolves_trans s1 s2 s3 : evolves s1 s2 → evolves s2 s3 → evolves s1 s3.
Proof.
  intros [Hv1 Hc1 Hb1 Hn1 Ha1] [Hv2 Hc2 Hb2 Hn2 Ha2]. split; [|congruence|congruence|lia|].
  - intros b Hb. rewrite Hv2, Hv1; [done..|]. by rewrite Hc1.
  - intros a x Hx Ha. destruct (Ha2 a x Hx) as (y & Hy & <-); [lia|]. by apply Ha1.
Qed.

(** A buffer's flags or counts change, and jobs. *)
Lemma evolves_flags s s' a x x' :
  bufs s !! a = Some x → bufs s' = <[a := x']> (bufs s) → valid x' = valid x → blkno x' = blkno x →
  blksz s' = blksz s → slots s' = slots s → mapping s' = mapping s → next_buf s' = next_buf s →
  mem (bio s') = mem (bio s) → disk (bio s') = disk (bio s) → evolves s s'.
Proof.
  intros Hx Hbufs Hv Hb Hsz Hs Hm Hn Hme Hd. split; [| |done|lia|].
  - intros b _. apply view_ext; try done. intros c. rewrite Hbufs. by apply (valid_insert _ _ x).
  - by rewrite Hd.
  - intros c y. rewrite Hbufs. intros [[<- <-]|[_ Hy]]%lookup_insert_Some _; [by exists x|by exists y].
Qed.

(** A buffer that holds the block becomes valid. *)
Lemma evolves_validate H W l s a x :
  inv H W l s → bufs s !! a = Some x → inflight x = false → blkno x < D_block_count (disk (bio s)) →
  mem (bio s) !! a = Some (block (disk (bio s)) (blkno x)) →
  evolves s (set_bufs (insert a (set_valid true x)) s).
Proof.
  intros Hi Hx Hfl Hlt Hm. pose proof (inv_validate H W l s a x Hi Hx Hfl Hlt Hm) as Hi'.
  split; [|done|done|cbn; lia|].
  - intros b Hb. destruct (decide (blkno x = b)) as [<-|Hxb].
    + transitivity (block (disk (bio s)) (blkno x)).
      { exact (view_valid H W l _ a (set_valid true x) _ Hi' (lookup_insert_eq _ _ _) eq_refl Hm). }
      destruct (view_cases H W l s (blkno x) Hi) as [(c & y & m & Hy & Hyb & Hv & Hcm & ->)|[_ ->]]; [|done].
      assert (c = a) as -> by (by apply (buf_unique H W l s c a y x)). congruence.
    + destruct (view_cases H W l s b Hi) as [(c & y & m & Hy & Hyb & Hv & Hcm & ->)|[Hall ->]].
      * rewrite <- Hyb. apply (view_valid H W l _ c y m Hi'); [|done|exact Hcm]. cbn. rewrite lookup_insert_ne; [done|].
        intros ->. congruence.
      * apply (view_invalid H W l _ b Hi'). cbn. intros c y [[<- <-]|[_ Hy]]%lookup_insert_Some Hyb; [done|by eapply Hall].
  - cbn. intros c y [[<- <-]|[_ Hy]]%lookup_insert_Some _; [by exists x|by exists y].
Qed.

(** ** The device makes a step *)

Lemma inv_bio H W l l' s b' :
  inv H W l s → rep W l' b' → D_block_size (disk b') = D_block_size (disk (bio s)) →
  D_block_count (disk b') = D_block_count (disk (bio s)) →
  (∀ a x, bufs s !! a = Some x → has_block (mem b') (disk b') a ∧
     (valid x = true → dirty x = false → mem b' !! a = Some (block (disk b') (blkno x)))) →
  (∀ t j, jobs s !! t = Some j → job_ok W (set_bio b' s) j) → inv H W l' (set_bio b' s).
Proof.
  intros [Hr Hsz Hs Hm Hb Hlive [_ ? ? ?]] Hr' Hbs Hbc Hbuf Hj. split; try done.
  - cbn. by rewrite Hbs.
  - intros a x Hx. destruct (Hbuf a x Hx) as [Hmem Hcl]. destruct (Hb a x Hx). split; try done.
    cbn. by rewrite Hbc.
Qed.

Lemma evolves_bio s b' :
  D_block_count (disk b') = D_block_count (disk (bio s)) →
  (∀ b, 0 <= b < D_block_count (disk (bio s)) → view (set_bio b' s) b = view s b) → evolves s (set_bio b' s).
Proof. intros Hc Hv. split; [done|done|done|cbn; lia|]. intros a x Hx _. by exists x. Qed.

(** Only what futures are settled with changes. *)
Lemma inv_settled H W l l' s b' :
  inv H W l s → rep W l' b' → mem b' = mem (bio s) → disk b' = disk (bio s) →
  (∀ f n, settled b' f = Some (Ok n) → settled (bio s) f = Some (Ok n)) →
  inv H W l' (set_bio b' s) ∧ evolves s (set_bio b' s).
Proof.
  intros Hi Hr Hm Hd Hset. split.
  - apply (inv_bio H W l); [done|done|by rewrite Hd|by rewrite Hd| |].
    + intros a x Hx. rewrite Hm, Hd. pose proof (i_buf _ _ _ _ Hi a x Hx) as Hok. split; apply Hok.
    + intros t j Hj. eapply (job_stable W s); [by eapply j_ok; [apply Hi|]|split; [done|cbn; by rewrite ?Hd]| |].
      * intros c y Hy. pose proof (i_buf _ _ _ _ Hi c y Hy) as Hok. split; [apply Hok|].
        split; [intros Hdy; by apply Hok, Hok|]. exists y. cbn. unfold same_blocks. cbn. by rewrite Hm, Hd.
      * intros f _. split; [done|]. apply Hset.
  - apply evolves_bio; [by rewrite Hd|]. intros b _. by apply view_ext.
Qed.

(** The device has read block [blkno x] into the buffer [a]. *)
Lemma inv_read_done H W l l' s b' t b a f x :
  inv H W l s → jobs s !! t = Some (JRead b a f) → bufs s !! a = Some x → blkno x = b → rep W l' b' →
  0 <= b < D_block_count (disk (bio s)) →
  mem b' = <[a := block (disk (bio s)) b]> (mem (bio s)) → disk b' = disk (bio s) →
  settled b' f = Some (Ok (D_block_size (disk (bio s)))) → (∀ g, g ≠ f → settled b' g = settled (bio s) g) →
  inv H W l' (set_bio b' s) ∧ evolves s (set_bio b' s).
Proof.
  intros Hi Ht Hx Hb Hr Hlt Hm Hd Hf Hset. pose proof (i_jobs _ _ _ _ Hi) as Hjs.
  destruct (j_ok _ _ Hjs t _ Ht) as (x' & Hx' & _ & Hv & HW & _). rewrite Hx in Hx'. injection Hx' as <-.
  assert (∀ c, c ≠ a → mem b' !! c = mem (bio s) !! c) as Hother by (intros c Hc; by rewrite Hm, lookup_insert_ne).
  pose proof (k_disk _ _ _ (r_io _ _ _ (i_rep _ _ _ _ Hi))) as Hdok.
  assert (inv H W l' (set_bio b' s)) as Hi'.
  { apply (inv_bio H W l); [done|done|by rewrite Hd|by rewrite Hd| |].
    - intros c y Hy. rewrite Hd. pose proof (i_buf _ _ _ _ Hi c y Hy) as Hok. unfold has_block.
      destruct (decide (c = a)) as [->|Hca]; [|by rewrite Hother by done; split; apply Hok].
      rewrite Hm, lookup_insert_eq. split; [|congruence]. eexists. split; [done|]. by apply block_length.
    - intros t' j Hj. destruct (decide (t' = t)) as [->|Htt].
      + rewrite Ht in Hj. injection Hj as <-. exists x. cbn. rewrite Hd. split_and!; [done..|].
        intros n. rewrite Hf. intros [= <-]. rewrite (i_sz _ _ _ _ Hi), Hm, lookup_insert_eq. by split_and!; [|lia|].
      + eapply (job_stable W s); [by eapply j_ok|split; [done|cbn; by rewrite ?Hd]| |].
        * intros c y Hy. pose proof (i_buf _ _ _ _ Hi c y Hy) as Hok. split; [apply Hok|].
          split; [intros Hdy; by apply Hok, Hok|]. exists y. split_and!; [done..|]. intros Hbj.
          split_and!; [done..| |unfold same_blocks; cbn; by rewrite Hd]. apply Hother. intros ->.
          by apply Htt, (j_alone _ _ Hjs t' t j (JRead b a f) a).
        * intros g Hg. split; [done|]. cbn. rewrite Hset; [done|]. intros ->.
          by apply Htt, (j_future _ _ Hjs t' t j (JRead b a f) f). }
  split; [done|]. apply evolves_bio; [by rewrite Hd|]. intros c Hc.
  destruct (view_cases H W l s c Hi) as [(d & y & m & Hy & Hyb & Hvy & Hdm & ->)|[Hall ->]].
  - rewrite <- Hyb. apply (view_valid H W l' _ d y m Hi'); [done|done|]. cbn. rewrite Hother; [done|]. intros ->. congruence.
  - rewrite (view_invalid H W l' _ c Hi'); [|done]. cbn. by rewrite Hd.
Qed.

(** The device has written the bytes of the buffer [a] to block [blkno x]. *)
Lemma inv_write_done H W l l' s b' t a f k x m :
  inv H W l s → jobs s !! t = Some (JWrite a f k) → bufs s !! a = Some x → mem (bio s) !! a = Some m → rep W l' b' →
  mem b' = mem (bio s) → disk b' = put_block (blkno x) m (disk (bio s)) →
  settled b' f = Some (Ok (D_block_size (disk (bio s)))) → (∀ g, g ≠ f → settled b' g = settled (bio s) g) →
  inv H W l' (set_bio b' s) ∧ evolves s (set_bio b' s).
Proof.
  intros Hi Ht Hx Hma Hr Hm Hd Hf Hset. pose proof (i_jobs _ _ _ _ Hi) as Hjs.
  destruct (j_ok _ _ Hjs t _ Ht) as (x' & Hx' & Hdy & HW & _). rewrite Hx in Hx'. injection Hx' as <-.
  pose proof (i_buf _ _ _ _ Hi a x Hx) as Hok. pose proof (b_dirty _ _ _ _ Hok Hdy) as Hv.
  pose proof (b_bound _ _ _ _ Hok Hv) as Hlt. pose proof (b_u64 _ _ _ _ Hok) as Hu. unfold is_u64 in Hu.
  pose proof (k_disk _ _ _ (r_io _ _ _ (i_rep _ _ _ _ Hi))) as Hdok.
  destruct (b_mem _ _ _ _ Hok) as (m' & Hm' & Hlen). rewrite Hma in Hm'. injection Hm' as <-.
  assert (∀ c, 0 <= c < D_block_count (disk (bio s)) →
    block (disk b') c = if decide (c = blkno x) then m else block (disk (bio s)) c) as Hblk.
  { intros c Hc. rewrite Hd. apply put_block_get; [done|lia|done|done]. }
  assert (D_block_size (disk b') = D_block_size (disk (bio s)) ∧ D_block_count (disk b') = D_block_count (disk (bio s)))
    as [Hbs Hbc] by (by rewrite Hd).
  assert (∀ c y, bufs s !! c = Some y → c ≠ a → blkno y ≠ blkno x) as Hne.
  { intros c y Hy Hca E. by apply Hca, (buf_unique H W l s c a y x). }
  assert (inv H W l' (set_bio b' s)) as Hi'.
  { apply (inv_bio H W l); try done.
    - intros c y Hy. pose proof (i_buf _ _ _ _ Hi c y Hy) as Hoky. unfold has_block. rewrite Hm, Hbs. split; [apply Hoky|].
      intros Hvy Hdyy. pose proof (b_bound _ _ _ _ Hoky Hvy). pose proof (b_u64 _ _ _ _ Hoky) as Huy. unfold is_u64 in Huy.
      rewrite Hblk, decide_False by (try lia; apply (Hne c y Hy); intros ->; congruence). by apply Hoky.
    - intros t' j Hj. destruct (decide (t' = t)) as [->|Htt].
      + rewrite Ht in Hj. injection Hj as <-. exists x. split_and!; [done..|]. cbn. rewrite Hf. intros n [= <-].
        rewrite (i_sz _ _ _ _ Hi), Hm, Hma, Hblk, decide_True by (try done; lia). done.
      + eapply (job_stable W s); [by eapply j_ok|by split| |].
        * intros c y Hy. pose proof (i_buf _ _ _ _ Hi c y Hy) as Hoky. split; [apply Hoky|].
          split; [intros Hdyy; by apply Hoky, Hoky|]. exists y. split_and!; [done..|]. intros Hbj.
          split_and!; [done..|cbn; by rewrite Hm|]. unfold same_blocks. cbn. intros Hc. rewrite Hblk, decide_False; [done| |done].
          apply (Hne c y Hy). intros ->. by apply Htt, (j_alone _ _ Hjs t' t j (JWrite a f k) a).
        * intros g Hg. split; [done|]. cbn. rewrite Hset; [done|]. intros ->.
          by apply Htt, (j_future _ _ Hjs t' t j (JWrite a f k) f). }
  split; [done|]. apply evolves_bio; [done|]. intros c Hc.
  destruct (view_cases H W l s c Hi) as [(d & y & m2 & Hy & Hyb & Hvy & Hdm & ->)|[Hall ->]].
  - rewrite <- Hyb. apply (view_valid H W l' _ d y m2 Hi'); [done|done|]. cbn. by rewrite Hm.
  - rewrite (view_invalid H W l' _ c Hi') by done. cbn. rewrite Hblk, decide_False; [done| |done].
    intros ->. rewrite (Hall a x Hx eq_refl) in Hv. done.
Qed.

(** A step of the worker. *)
Lemma inv_served H W l l' s b' :
  inv H W l s → rep W l' b' → served W (bio s) b' → inv H W l' (set_bio b' s) ∧ evolves s (set_bio b' s).
Proof.
  intros Hi Hr [(Hm & Hd & Hset)|(f & w & HW & Hpend & Hok & Hm & Hd & Hf & Hset)].
  { apply (inv_settled H W l); try done. intros f n. by rewrite Hset. }
  assert ((effect w (mem (bio s)) (disk (bio s))).1.2 = mem (bio s) →
    (effect w (mem (bio s)) (disk (bio s))).2 = disk (bio s) →
    (∀ n, (effect w (mem (bio s)) (disk (bio s))).1.1 = Ok n → ∀ t j, jobs s !! t = Some j → job_future j = Some f → busy j = None) →
    inv H W l' (set_bio b' s) ∧ evolves s (set_bio b' s)) as Hquiet.
  { intros Hme Hde Hn. rewrite Hme in Hm. rewrite Hde in Hd. pose proof (i_jobs _ _ _ _ Hi) as Hjs. split.
    - apply (inv_bio H W l); [done|done|by rewrite Hd|by rewrite Hd| |].
      + intros a x Hx. rewrite Hm, Hd. pose proof (i_buf _ _ _ _ Hi a x Hx) as Hbx. split; apply Hbx.
      + intros t j Hj. destruct (decide (job_future j = Some f)) as [Hjf|Hjf].
        * pose proof (j_ok _ _ Hjs t j Hj) as Hjo. destruct j as [| b a g|a g k|a g k|]; cbn in Hjf |- *; try done; injection Hjf as ->.
          -- destruct Hjo as (x & Hx & Hb & Hv & Hw & _). exists x. split_and!; [done..|]. intros n. rewrite Hf.
             intros [= Hnn]. by specialize (Hn n Hnn t _ Hj eq_refl).
          -- destruct Hjo as (x & Hx & Hb & Hw & _). exists x. split_and!; [done..|]. intros n. rewrite Hf.
             intros [= Hnn]. by specialize (Hn n Hnn t _ Hj eq_refl).
        * eapply (job_stable W s); [by eapply j_ok|split; [done|cbn; by rewrite Hd]| |].
          -- intros c y Hy. pose proof (i_buf _ _ _ _ Hi c y Hy) as Hby. split; [apply Hby|].
             split; [intros Hdy; by apply Hby, Hby|]. exists y. cbn. unfold same_blocks. cbn. by rewrite Hm, Hd.
          -- intros g Hg. split; [done|]. cbn. rewrite Hset; [done|]. congruence.
    - apply evolves_bio; [by rewrite Hd|]. intros b _. by apply view_ext. }
  destruct (j_waited _ _ (i_jobs _ _ _ _ Hi) f w HW) as (t & j & Hj & Hjf).
  pose proof (j_ok _ _ (i_jobs _ _ _ _ Hi) t j Hj) as Hjo.
  destruct j as [|b a g|a g k|a g k|]; cbn in Hjf; try done; injection Hjf as ->; cbn in Hjo.
  - destruct Hjo as (x & Hx & Hb & Hv & Hw & _). rewrite HW in Hw. injection Hw as ->.
    cbn in Hm, Hd, Hf, Hquiet. destruct Hok as [Hu _]. cbn in Hu. unfold is_u64 in Hu.
    destruct (Z.ltb_spec b (D_block_count (disk (bio s)))); [|by apply Hquiet].
    cbn in Hm, Hd, Hf. apply (inv_read_done H W l l' s b' t b a f x); try done. lia.
  - destruct Hjo as (x & Hx & Hdy & Hw & _). rewrite HW in Hw. injection Hw as ->.
    pose proof (i_buf _ _ _ _ Hi a x Hx) as Hbx. pose proof (b_bound _ _ _ _ Hbx (b_dirty _ _ _ _ Hbx Hdy)) as Hlt.
    destruct (b_mem _ _ _ _ Hbx) as (m & Hma & _). cbn in Hm, Hd, Hf.
    rewrite (proj2 (Z.ltb_lt _ _) Hlt) in Hm, Hd, Hf. rewrite Hma in Hd.
    by apply (inv_write_done H W l l' s b' t a f k x m).
  - destruct Hjo as [_ Hw]. rewrite HW in Hw. injection Hw as ->. apply Hquiet; [done|done|]. intros n _ t' j' Hj' Hf'.
    assert (t' = t) as -> by (by apply (j_future _ _ (i_jobs _ _ _ _ Hi) t' t j' _ f Hj' Hj)).
    rewrite Hj in Hj'. by injection Hj' as <-.
Qed.

(** ** Slots are emptied and filled *)

Definition evicted (i : nat) (a : Z) (x : Buffer) (s : cache) : cache :=
  set_slots (insert i None) (set_bufs (delete a)
    (set_bio (BlockQueue.set_mem (delete (data x)) (bio s)) (set_mapping (delete (blkno x)) s))).

(** No thread waits for the buffer in [get_buffer_async]. *)
Definition awaited (s : cache) (a : Z) : Prop := ∃ t wk b, jobs s !! t = Some (JWait wk b a).

(** The buffer a job uses. *)
Definition job_buf (j : job) : option Z :=
  match j with JWait _ _ a | JRead _ a _ | JWrite a _ _ | JFlush a _ _ => Some a | JTidy => None end.

Lemma idle_unused H W l s a x t j :
  inv H W l s → bufs s !! a = Some x → idle x = true → ¬ awaited s a → jobs s !! t = Some j → job_buf j ≠ Some a.
Proof.
  intros Hi Hx [Hn Hfl]%andb_true_iff Haw Hj Hb. apply Z.eqb_eq in Hn. apply negb_true_iff in Hfl.
  pose proof (i_buf _ _ _ _ Hi a x Hx) as Hok.
  assert (busy j ≠ Some a) as Hbz.
  { intros E. assert (inflight x = true); [|congruence]. apply (b_busy _ _ _ _ Hok). by exists t, j. }
  destruct j as [wk b c|b c f|c f k|c f k|]; cbn in Hb, Hbz; simplify_eq.
  - apply Haw. by exists t, wk, b.
  - rewrite (b_ref _ _ _ _ Hok), (job_refs_delete (jobs s) t (JFlush a f k)) in Hn by done.
    change (job_ref (JFlush a f k)) with ({[+ a +]} : gmultiset Z) in Hn.
    rewrite !multiplicity_disj_union, multiplicity_singleton, decide_True in Hn by done. lia.
Qed.

(** A job that does not use a buffer that changes is as good as before. *)
Lemma job_unused W s s' j :
  job_ok W s j → job_frame s s' → disk (bio s') = disk (bio s) → (∀ f, settled (bio s') f = settled (bio s) f) →
  (∀ a, job_buf j = Some a → bufs s' !! a = bufs s !! a ∧ mem (bio s') !! a = mem (bio s) !! a) → job_ok W s' j.
Proof.
  intros Hj [Hsz _] Hd Hset Hb. destruct j as [wk b c|b c f|c f k|c f k|]; cbn in *; [..|done];
    destruct (Hb c eq_refl) as [-> Hm]; rewrite ?Hm, ?Hsz, ?Hd, ?Hset; done.
Qed.

Lemma rep_forget W l s p :
  rep W l s → (∀ f w q, W !! f = Some w → w_ptr w = Some q → q ≠ p) → rep W l (BlockQueue.set_mem (delete p) s).
Proof.
  intros Hr Hp. apply (rep_mem W l s (delete p (mem s)) Hr). intros f w HW.
  destruct (r_want _ _ _ Hr f w HW) as [Hb Hptr]. split; [done|]. intros Hop.
  destruct (Hptr Hop) as (q & m & Hq & Hm & Hlen). exists q, m. split_and!; [done| |done].
  rewrite lookup_delete_ne; [done|]. by apply not_eq_sym, (Hp f w q).
Qed.

Lemma want_of_job W s t j f w q :
  jobs_ok W s → jobs s !! t = Some j → job_future j = Some f → W !! f = Some w → w_ptr w = Some q → job_buf j = Some q.
Proof.
  intros Hjs Hj Hf Hw Hq. pose proof (j_ok _ _ Hjs t j Hj) as Hjo.
  destruct j as [wk b c|b c g|c g k|c g k|]; cbn in Hf, Hjo; try done; injection Hf as ->; cbn.
  - destruct Hjo as (x & _ & _ & _ & Hw' & _). rewrite Hw in Hw'. by injection Hw' as ->.
  - destruct Hjo as (x & _ & _ & Hw' & _). rewrite Hw in Hw'. by injection Hw' as ->.
  - destruct Hjo as [_ Hw']. rewrite Hw in Hw'. by injection Hw' as ->.
Qed.

Lemma inv_evict H W l s i a x :
  inv H W l s → slots s !! i = Some (Some a) → bufs s !! a = Some x → idle x = true → ¬ awaited s a →
  inv H W l (evicted i a x s).
Proof.
  intros Hi Hs Hx Hid Haw. pose proof (i_jobs _ _ _ _ Hi) as Hjs. pose proof (i_buf _ _ _ _ Hi a x Hx) as Hok.
  assert (∀ t j, jobs s !! t = Some j → job_buf j ≠ Some a) as Hun by (intros t j; by apply (idle_unused H W l s a x)).
  assert (data x = a) as Hda by apply Hok.
  assert (∀ j c, slots s !! j = Some (Some c) → (c = a ↔ j = i)) as Hsl.
  { intros j c Hj. split; intros ->; [|congruence]. destruct (i_slot _ _ _ _ Hi i a Hs) as (y & Hy & Hmy).
    destruct (i_slot _ _ _ _ Hi j a Hj) as (z & Hz & Hmz). congruence. }
  assert (∀ c y, bufs s !! c = Some y → c ≠ a → blkno y ≠ blkno x) as Hne.
  { intros c y Hy Hca E. by apply Hca, (buf_unique H W l s c a y x). }
  split; cbn [bio set_slots set_bufs set_bio blksz set_mapping slots mapping bufs evicted jobs].
  - rewrite Hda. apply rep_forget; [apply Hi|]. intros f w q HW Hq ->.
    destruct (j_waited _ _ Hjs f w HW) as (t & j & Hj & Hf). by apply (Hun t j Hj), (want_of_job W s t j f w a).
  - apply Hi.
  - intros j c Hj. apply list_lookup_insert_Some in Hj as [(_ & ? & _)|[Hji Hj]]; [done|].
    destruct (i_slot _ _ _ _ Hi j c Hj) as (y & Hy & Hm). exists y.
    assert (c ≠ a) as Hca by (intros E; by apply (Hsl j c Hj) in E).
    rewrite !lookup_delete_ne; [done| |done]. by apply not_eq_sym, (Hne c).
  - intros b j [Hbx Hm]%lookup_delete_Some. destruct (i_map _ _ _ _ Hi b j Hm) as (c & y & Hsj & Hy & Hyb).
    assert (c ≠ a) as Hca by (intros ->; congruence). exists c, y.
    rewrite lookup_delete_ne, list_lookup_insert_ne; [done| |done]. intros <-. by apply Hca, (Hsl i c Hsj).
  - intros c y [Hca Hy]%lookup_delete_Some. pose proof (i_buf _ _ _ _ Hi c y Hy) as Hoky.
    assert (delete (data x) (mem (bio s)) !! c = mem (bio s) !! c) as Hmc by (by rewrite Hda, lookup_delete_ne).
    destruct Hoky as [? ? Hmem ? [j Hj] ? ? ? ? Hcl]. split; try done.
    + unfold has_block. cbn. by rewrite Hmc.
    + exists j. cbn. rewrite list_lookup_insert_ne; [done|]. intros <-. apply Hca. symmetry. by apply (Hsl i c Hj).
    + cbn. by rewrite Hmc.
  - intros c Hin. destruct (i_live _ _ _ _ Hi c Hin) as (y & Hy & Hv). exists y.
    rewrite lookup_delete_ne; [done|]. intros <-. rewrite elem_of_multiplicity in Hin.
    rewrite Hx in Hy. injection Hy as <-. pose proof (b_ref _ _ _ _ Hok).
    apply andb_true_iff in Hid as [Hn%Z.eqb_eq _]. lia.
  - destruct Hjs as [Hjo ? ? ?]. split; try done. intros t j Hj. eapply (job_unused W s); try done; [by eapply Hjo|].
    intros c Hc. cbn. rewrite Hda, !lookup_delete_ne; [done|..]; intros <-; by apply (Hun t j Hj).
Qed.

Lemma evolves_evict H W l s i a x :
  inv H W l s → slots s !! i = Some (Some a) → bufs s !! a = Some x → idle x = true → ¬ awaited s a →
  dirty x = false → evolves s (evicted i a x s).
Proof.
  intros Hi Hs Hx Hid Haw Hdy. pose proof (inv_evict H W l s i a x Hi Hs Hx Hid Haw) as Hi'.
  pose proof (i_buf _ _ _ _ Hi a x Hx) as Hok. assert (data x = a) as Hda by apply Hok.
  split; [|done|done|cbn; lia|].
  - intros b Hb. destruct (view_cases H W l s b Hi) as [(c & y & m & Hy & Hyb & Hv & Hcm & ->)|[Hall ->]].
    + destruct (decide (c = a)) as [->|Hca].
      * rewrite Hx in Hy. injection Hy as <-. rewrite (view_invalid H W l _ b Hi').
        -- cbn. rewrite (b_clean _ _ _ _ Hok Hv Hdy) in Hcm. injection Hcm as <-. by rewrite Hyb.
        -- cbn. intros c z [Hca Hz]%lookup_delete_Some Hzb. exfalso. apply Hca. symmetry. apply (buf_unique H W l s c a z x); congruence.
      * rewrite <- Hyb. apply (view_valid H W l _ c y m Hi'); [|done|]; cbn; by rewrite ?Hda, lookup_delete_ne.
    + rewrite (view_invalid H W l _ b Hi'); [done|]. cbn. intros c z [_ Hz]%lookup_delete_Some. by eapply Hall.
  - cbn. intros c z [_ Hz]%lookup_delete_Some _. by exists z.
Qed.

Definition created (i : nat) (b : Z) (junk : list Z) (s : cache) : cache :=
  let a := next_buf s in
  set_mapping (insert b i) (set_slots (insert i (Some a))
    (set_bio (BlockQueue.set_mem (insert a junk) (bio s))
      (set_bufs (insert a (mkBuffer b a false false false 0)) (set_next_buf (λ n, n + 1) s)))).

Lemma next_unused H W l s :
  inv H W l s →
  bufs s !! next_buf s = None ∧ (∀ t j, jobs s !! t = Some j → job_buf j ≠ Some (next_buf s)) ∧
  multiplicity (next_buf s) (H ⊎ job_refs (jobs s)) = 0%nat.
Proof.
  intros Hi. assert (bufs s !! next_buf s = None) as Hn.
  { destruct (bufs s !! next_buf s) as [x|] eqn:Hx; [|done].
    pose proof (b_next _ _ _ _ (i_buf _ _ _ _ Hi _ x Hx)). lia. }
  split; [done|]. split.
  - intros t j Hj Hb. pose proof (j_ok _ _ (i_jobs _ _ _ _ Hi) t j Hj) as Hjo.
    destruct j as [wk b c|b c f|c f k|c f k|]; cbn in Hb, Hjo; simplify_eq.
    + destruct Hjo as (x & Hx & _). congruence.
    + destruct Hjo as (x & Hx & _). congruence.
    + destruct Hjo as (x & Hx & _). congruence.
    + destruct Hjo as [[x Hx] _]. congruence.
  - destruct (multiplicity (next_buf s) _) eqn:E; [done|]. destruct (i_live _ _ _ _ Hi (next_buf s)) as (x & Hx & _); [|congruence].
    rewrite elem_of_multiplicity, E. lia.
Qed.

Lemma inv_create H W l s i b junk :
  inv H W l s → slots s !! i = Some None → mapping s !! b = None → is_u64 b → Z.of_nat (length junk) = blksz s →
  inv H W l (created i b junk s) ∧ evolves s (created i b junk s).
Proof.
  intros Hi Hs Hmb Hu Hlen. destruct (next_unused H W l s Hi) as (Hn & Hun & Hmul).
  pose proof (i_jobs _ _ _ _ Hi) as Hjs. rewrite (i_sz _ _ _ _ Hi) in Hlen.
  pose proof (lookup_lt_Some _ _ _ Hs) as Hil.
  assert (∀ c y, bufs s !! c = Some y → c ≠ next_buf s ∧ blkno y ≠ b) as Hne.
  { intros c y Hy. split; [congruence|]. intros <-.
    destruct (b_slot _ _ _ _ (i_buf _ _ _ _ Hi c y Hy)) as [j Hj]. destruct (i_slot _ _ _ _ Hi j c Hj) as (z & Hz & Hmz). congruence. }
  assert (inv H W l (created i b junk s)) as Hi'.
  { split; cbn [bio set_slots set_bufs set_bio blksz set_mapping slots mapping bufs created jobs set_next_buf].
    - apply rep_store; [apply Hi|done].
    - apply Hi.
    - intros j c Hj. apply list_lookup_insert_Some in Hj as [(-> & [= ->] & _)|[Hji Hj]].
      + eexists. rewrite lookup_insert_eq. split; [done|]. apply lookup_insert_eq.
      + destruct (i_slot _ _ _ _ Hi j c Hj) as (y & Hy & Hm). destruct (Hne c y Hy) as [Hc Hb]. exists y.
        by rewrite !lookup_insert_ne.
    - intros b' j [[<- <-]|[Hb Hm]]%lookup_insert_Some.
      + eexists _, _. split; [by apply list_lookup_insert_eq|]. by rewrite lookup_insert_eq.
      + destruct (i_map _ _ _ _ Hi b' j Hm) as (c & y & Hsj & Hy & Hyb). destruct (Hne c y Hy) as [Hc _]. exists c, y.
        rewrite lookup_insert_ne, list_lookup_insert_ne by congruence. done.
    - intros c y [[<- <-]|[Hc Hy]]%lookup_insert_Some.
      + split; cbn; try done.
        * exists junk. cbn. by rewrite lookup_insert_eq.
        * lia.
        * exists i. by apply list_lookup_insert_eq.
        * by rewrite Hmul.
        * split; [done|]. intros (t & j & Hj & Hb). destruct (Hun t j Hj).
          by destruct j; cbn in Hb |- *; simplify_eq.
      + assert (<[next_buf s := junk]> (mem (bio s)) !! c = mem (bio s) !! c) as Hmc by (by rewrite lookup_insert_ne).
        destruct (i_buf _ _ _ _ Hi c y Hy) as [? ? Hmem ? [j Hj] ? ? ? ? Hcl]. split; try done.
        * unfold has_block. cbn. by rewrite Hmc.
        * cbn. lia.
        * exists j. cbn. rewrite list_lookup_insert_ne; [done|]. intros <-. congruence.
        * cbn. by rewrite Hmc.
    - intros c Hin. destruct (i_live _ _ _ _ Hi c Hin) as (y & Hy & Hv). destruct (Hne c y Hy) as [Hc _]. exists y.
      by rewrite lookup_insert_ne.
    - destruct Hjs as [Hjo ? ? ?]. split; try done. intros t j Hj. eapply (job_unused W s); try done; [by eapply Hjo|].
      intros c Hc. cbn. assert (c ≠ next_buf s) by (intros ->; by apply (Hun t j Hj)). by rewrite !lookup_insert_ne. }
  split; [done|]. split; [|done|done|cbn; lia|].
  - intros c Hc. destruct (view_cases H W l s c Hi) as [(d & y & m & Hy & Hyb & Hv & Hdm & ->)|[Hall ->]].
    + destruct (Hne d y Hy) as [Hd _]. rewrite <- Hyb. by apply (view_valid H W l _ d y m Hi'); [cbn; rewrite lookup_insert_ne| |cbn; rewrite lookup_insert_ne].
    + rewrite (view_invalid H W l _ c Hi'); [done|]. cbn. intros d z [[<- <-]|[_ Hz]]%lookup_insert_Some; [done|by eapply Hall].
  - cbn. intros c z [[<- <-]|[_ Hz]]%lookup_insert_Some Hlt; [lia|by exists z].
Qed.

End BlockCacheInv.
