(* ===== verification/BlockCacheRun.v ===== *)
(** * The routines of the buffer cache keep its invariant

    Each routine of [BlockCache] as a triple over the invariant of [BlockCacheInv]: it does
    not use a freed buffer, the blocks the cache shows stay what they are, and what a
    thread that waits will find is recorded in its job. *)

From stdpp Require Import gmultiset.
From S2P Require Import Prelude ErrCode Addr RingBuf TmpFs BlockQueue BlockService BlockCache BlockCacheInv.

#[local] Open Scope Z_scope.

Module BlockCacheRun.
Import BlockQueue BlockQueueSpec BlockService BlockCache BlockCacheInv.

(** ** Elementary steps *)

Lemma wp_gets {S A} (f : S → A) s (Q : Result A → S → Prop) : Q (Ok (f s)) s → wp (gets f) s Q.
Proof. done. Qed.
Lemma wp_modify {S} (f : S → S) s (Q : Result unit → S → Prop) : Q (Ok tt) (f s) → wp (modify f) s Q.
Proof. done. Qed.

Lemma wp_buf s a x (Q : Result Buffer → cache → Prop) : bufs s !! a = Some x → Q (Ok x) s → wp (buf a) s Q.
Proof. intros Hx HQ. unfold buf. apply wp_bind, wp_gets. by rewrite Hx. Qed.

Lemma wp_update_buf s a x f (Q : Result unit → cache → Prop) :
  bufs s !! a = Some x → Q (Ok tt) (set_bufs (insert a (f x)) s) → wp (update_buf a f) s Q.
Proof. intros Hx HQ. unfold update_buf. by eapply wp_bind, wp_buf. Qed.

Lemma wp_lift {A} (m : M io A) s (Q : Result A → cache → Prop) :
  wp m (bio s) (λ r b, Q r (set_bio b s)) → wp (lift m) s Q.
Proof. apply wp_zoom. Qed.

(** The part of the state that only other threads see. *)
Definition ring_room (s : cache) : Prop := ring_size (q_ring (queue (bio s))) < DEPTH.

Definition job_block (j : job) : option Z :=
  match j with JWait _ b _ | JRead b _ _ => Some b | _ => None end.

(** The other threads' jobs are still for the same blocks, and have the same handles. *)
Definition job_key (j : job) : option Z * gmultiset Z := (job_block j, lent j).
Definition jobs_kept (s s' : cache) : Prop :=
  ∀ t, job_key <$> jobs s' !! t = job_key <$> jobs s !! t.

Lemma jobs_kept_eq s s' : jobs s' = jobs s → jobs_kept s s'.
Proof. intros Hj t. by rewrite Hj. Qed.

Lemma jobs_kept_trans s1 s2 s3 : jobs_kept s1 s2 → jobs_kept s2 s3 → jobs_kept s1 s3.
Proof. intros H1 H2 t. by rewrite H2, H1. Qed.

Lemma jobs_kept_wake s a : jobs_kept s (set_jobs (fmap (wake_job a)) s).
Proof.
  intros t. cbn. rewrite lookup_fmap. destruct (jobs s !! t) as [j|]; [|done]. cbn. f_equal.
  destruct j; try done. cbn. by destruct (_ =? _).
Qed.

Lemma jobs_kept_none s s' t : jobs_kept s s' → jobs s !! t = None → jobs s' !! t = None.
Proof. intros Hk Ht. specialize (Hk t). rewrite Ht in Hk. by destruct (jobs s' !! t). Qed.

(** A step of a routine: the invariant holds before and after. *)
Record moves (s s' : cache) : Prop := {
  m_evolves : evolves s s';
  m_jobs : jobs_kept s s';
  m_queue : queue (bio s') = queue (bio s);
}.

Lemma moves_same s : moves s s.
Proof. split; [apply evolves_refl|by apply jobs_kept_eq|done]. Qed.
Lemma moves_trans s1 s2 s3 : moves s1 s2 → moves s2 s3 → moves s1 s3.
Proof.
  intros [He1 Hj1 Hq1] [He2 Hj2 Hq2].
  split; [by eapply evolves_trans|by eapply jobs_kept_trans|congruence].
Qed.

Lemma moves_info s f : moves s (set_info f s).
Proof.
  split; [|by apply jobs_kept_eq|done]. split; try done. intros a x Hx _. by exists x.
Qed.

(** ** Slots *)

Lemma wp_clear_slot H W l s i a x (Q : Result unit → cache → Prop) :
  inv H W l s → slots s !! i = Some (Some a) → bufs s !! a = Some x → idle x = true →
  (∀ n, Q (Ok tt) (set_info (λ _, n) (evicted i a x s))) → wp (clear_slot i) s Q.
Proof.
  intros Hi Hs Hx Hid HQ. apply andb_true_iff in Hid as [Hn Hfl]. apply negb_true_iff in Hfl.
  destruct (i_slot _ _ _ _ Hi i a Hs) as (y & Hy & Hm). rewrite Hx in Hy. injection Hy as <-.
  unfold clear_slot. apply wp_bind, wp_gets. rewrite Hs. eapply wp_bind, wp_buf; [done|]. rewrite Hn, Hfl. cbn [negb orb].
  apply wp_bind, wp_gets. rewrite bool_decide_eq_true_2 by done. apply wp_bind, wp_modify.
  apply wp_bind, wp_gets. apply wp_bind, wp_modify. apply wp_bind.
  destruct (dirty x); [apply wp_modify|apply wp_ret]; apply wp_bind, wp_lift, wp_modify, wp_bind, wp_modify, wp_modify, HQ.
Qed.

(** [scan] finds the first slot whose buffer is as [P] says. *)
Lemma wp_scan (P : Buffer → bool) s i L (Q : Result (option nat) → cache → Prop) :
  (∀ a, Some a ∈ L → is_Some (bufs s !! a)) →
  (∀ j a x, L !! j = Some (Some a) → bufs s !! a = Some x → P x = true → Q (Ok (Some (i + j)%nat)) s) →
  ((∀ a x, Some a ∈ L → bufs s !! a = Some x → P x = false) → Q (Ok None) s) →
  wp (scan P i L) s Q.
Proof.
  revert i. induction L as [|[a|] L IH]; intros i Hb HS HN; cbn [scan].
  - apply wp_ret, HN. intros a x Hin. by apply elem_of_nil in Hin.
  - destruct (Hb a) as [x Hx]; [by left|]. eapply wp_bind, wp_buf; [done|]. destruct (P x) eqn:HP.
    + apply wp_ret. rewrite <- (Nat.add_0_r i). by apply (HS 0%nat a x).
    + apply IH; [intros c Hc; apply Hb; by right| |].
      * intros j c y Hj Hy Hp. rewrite Nat.add_succ_comm. by apply (HS (S j) c y).
      * intros Hall. apply HN. intros c y [[= ->]|Hc]%elem_of_cons Hy; [congruence|by apply (Hall c)].
  - apply IH; [intros c Hc; apply Hb; by right| |].
    + intros j c y Hj Hy Hp. rewrite Nat.add_succ_comm. by apply (HS (S j) c y).
    + intros Hall. apply HN. intros c y [?|Hc]%elem_of_cons Hy; [done|by apply (Hall c)].
Qed.

Lemma free_slot_spec i (L : list (option Z)) :
  match free_slot i L with
  | Some j => ∃ k, j = (i + k)%nat ∧ L !! k = Some None
  | None => None ∉ L
  end.
Proof.
  revert i. induction L as [|[a|] L IH]; intros i; cbn [free_slot].
  - apply not_elem_of_nil.
  - specialize (IH (S i)). destruct (free_slot (S i) L) as [j|].
    + destruct IH as (k & -> & Hk). exists (S k). split; [lia|done].
    + intros [?|?]%elem_of_cons; done.
  - exists 0%nat. split; [lia|done].
Qed.

(** When a slot for a new buffer may be looked for: it is not a buffer with unwritten
    bytes that has to go, and no thread waits for the one that goes. *)
Definition slot_room (s : cache) : Prop :=
  None ∈ slots s ∨
  ((∃ a x, bufs s !! a = Some x ∧ idle x = true ∧ dirty x = false) ∧ ∀ a, ¬ awaited s a) ∨
  (∀ a x, bufs s !! a = Some x → idle x = false).

Lemma slot_bufs H W l s a : inv H W l s → Some a ∈ slots s → is_Some (bufs s !! a).
Proof.
  intros Hi [i Hs]%list_elem_of_lookup. destruct (i_slot _ _ _ _ Hi i a Hs) as (x & Hx & _). by exists x.
Qed.

Lemma buf_in_slots H W l s a x : inv H W l s → bufs s !! a = Some x → Some a ∈ slots s.
Proof. intros Hi Hx. apply list_elem_of_lookup. apply (b_slot _ _ _ _ (i_buf _ _ _ _ Hi a x Hx)). Qed.

Lemma wp_find_free H W l s (Q : Result nat → cache → Prop) :
  inv H W l s → slot_room s →
  (∀ i s', inv H W l s' → moves s s' → jobs s' = jobs s → slots s' !! i = Some None →
     (∀ b, mapping s !! b = None → mapping s' !! b = None) → Q (Ok i) s') →
  Q (Err BUSY) s → wp find_free s Q.
Proof.
  intros Hi Hroom HQ HB. unfold find_free. apply wp_bind, wp_gets. pose proof (free_slot_spec 0 (slots s)) as Hfree.
  destruct (free_slot 0 (slots s)) as [i|].
  { destruct Hfree as (k & -> & Hk). apply wp_ret, HQ; [done|apply moves_same|done|done|auto]. }
  assert (∀ a, Some a ∈ slots s → is_Some (bufs s !! a)) as Hsb by (intros a; by eapply slot_bufs).
  apply wp_bind, (wp_scan _ s 0 (slots s)); [done| |].
  - intros i a x Hs Hx [Hid Hdy%negb_true_iff]%andb_true_iff. apply wp_bind.
    assert (∀ c, ¬ awaited s c) as Haw.
    { destruct Hroom as [?|[[_ Haw]|Hno]]; [done|done|]. by rewrite (Hno a x Hx) in Hid. }
    eapply wp_clear_slot; [done..|]. intros n. apply wp_ret, HQ.
    + by apply inv_info, inv_evict.
    + eapply moves_trans; [|apply moves_info].
      split; [by eapply evolves_evict|by apply jobs_kept_eq|done].
    + done.
    + cbn. apply list_lookup_insert_eq. by eapply lookup_lt_Some.
    + cbn. intros b Hb. destruct (decide (b = blkno x)) as [->|]; [apply lookup_delete_eq|by rewrite lookup_delete_ne].
  - intros Hno. apply wp_bind, (wp_scan _ s 0 (slots s)); [done| |by intros _; apply wp_fail].
    intros i a x Hs Hx Hid. exfalso. destruct Hroom as [?|[[(c & y & Hy & Hidy & Hdy) _]|Hni]]; [done| |].
    + pose proof (Hno c y (buf_in_slots _ _ _ _ _ _ Hi Hy) Hy) as Hc. by rewrite Hidy, Hdy in Hc.
    + by rewrite (Hni a x Hx) in Hid.
Qed.

Lemma wp_ensure_buffer H W l s alloc junk b (Q : Result nat → cache → Prop) :
  inv H W l s → is_u64 b → Z.of_nat (length junk) = blksz s → is_Some (mapping s !! b) ∨ slot_room s →
  (∀ i a x s', inv H W l s' → moves s s' → jobs s' = jobs s → slots s' !! i = Some (Some a) →
     bufs s' !! a = Some x → blkno x = b → Q (Ok i) s') →
  (∀ e s', inv H W l s' → moves s s' → jobs s' = jobs s → Q (Err e) s') → wp (ensure_buffer alloc junk b) s Q.
Proof.
  intros Hi Hu Hlen Hroom HQ HE. unfold ensure_buffer, find_buffer. apply wp_bind, wp_attempt, wp_bind, wp_gets.
  destruct (mapping s !! b) as [i|] eqn:Hm.
  { apply wp_ret, wp_ret. destruct (i_map _ _ _ _ Hi b i Hm) as (a & x & Hs & Hx & Hb).
    by apply (HQ i a x); [..|apply moves_same| | | |]. }
  destruct Hroom as [[? ?]|Hroom]; [done|]. apply wp_fail. rewrite bool_decide_eq_true_2 by done. cbn [negb].
  apply wp_bind. apply (wp_find_free H W l s); [done|done| |by apply HE; [..|apply moves_same|]].
  intros i s1 Hi1 Hmv Hj Hs Hmap. specialize (Hmap b Hm). destruct alloc; cbn [negb]; [|by apply wp_fail, HE].
  pose proof (e_blksz _ _ (m_evolves _ _ Hmv)) as Hsz. rewrite <- Hsz in Hlen.
  destruct (inv_create H W l s1 i b junk Hi1 Hs Hmap Hu Hlen) as [Hi2 He2].
  apply wp_bind, wp_gets, wp_bind, wp_modify, wp_bind, wp_modify, wp_bind, wp_lift, wp_modify.
  apply wp_bind, wp_modify, wp_bind, wp_modify, wp_bind, wp_gets, wp_bind, wp_modify, wp_ret.
  apply (HQ i (next_buf s1) (mkBuffer b (next_buf s1) false false false 0)).
  - apply (inv_info H W l (created i b junk s1)), Hi2.
  - eapply moves_trans; [done|]. eapply moves_trans; [|apply (moves_info (created i b junk s1))].
    split; [done|by apply jobs_kept_eq|done].
  - exact Hj.
  - cbn. apply list_lookup_insert_eq. by eapply lookup_lt_Some.
  - cbn. apply lookup_insert_eq.
  - done.
Qed.

(** ** Threads that ask for a buffer *)

(** The handle a job borrows is one the thread has. *)
Definition lent_ok (j : job) (H : gmultiset Z) : Prop := ∀ a, a ∈ lent j → a ∈ H.

Lemma lent_none j H : lent j = ∅ → lent_ok j H.
Proof. intros Hl a. rewrite Hl. multiset_solver. Qed.

(** Where thread [t], that has the handles [H] and asked for block [ob], is after a routine
    that began in [s]. *)
Definition after (t : Z) (H : gmultiset Z) (ob : option Z) (s : cache) (p : progress) (s' : cache) : Prop :=
  evolves s s' ∧ jobs_kept s s' ∧
  match p with
  | Blocked j => (∃ W l, inv (H ∖ lent j) W l (set_jobs (insert t j) s')) ∧ job_block j = ob ∧ lent_ok j H
  | GotHandle (Ok a) =>
      (∃ W l, inv ({[+ a +]} ⊎ H) W l s') ∧ ∃ x, bufs s' !! a = Some x ∧ ob = Some (blkno x)
  | GotHandle (Err _) => (∃ W l, inv H W l s') ∧ is_Some ob
  | GotVoid _ => (∃ W l, inv H W l s') ∧ ob = None
  end.

Lemma after_moves t H ob s1 s2 p s3 : moves s1 s2 → after t H ob s2 p s3 → after t H ob s1 p s3.
Proof.
  intros [He Hj _] (He' & Hj' & Hp). split; [by eapply evolves_trans|].
  split; [by eapply jobs_kept_trans|done].
Qed.

Lemma difference_empty (H : gmultiset Z) : H ∖ ∅ = H.
Proof. multiset_solver. Qed.

(** A request for the bytes of the buffer [a], which is marked, is submitted. *)
Lemma wp_request H W l s a x y o room (Q : Result Z → cache → Prop) :
  inv H W l s → bufs s !! a = Some x → ring_room s → o ≠ FLUSH →
  (∀ f W' l' b', rep W' l' b' → requested W (bio s) (mkWant o (blkno x) (Some a)) f W' b' →
     Q (Ok f) (set_bio b' (set_bufs (insert a y) s))) →
  wp (lift (submit_async room o (blkno x) (Some (data x)) 1)) (set_bufs (insert a y) s) Q.
Proof.
  intros Hi Hx Hroom Ho HQ. pose proof (i_buf _ _ _ _ Hi a x Hx) as Hok. rewrite (b_data _ _ _ _ Hok).
  apply wp_lift. replace 1 with (count_of o) by (by destruct o).
  apply (wp_submit W l (bio s) room (mkWant o (blkno x) (Some a)) _ (i_rep _ _ _ _ Hi)); [|done|].
  - split; [apply Hok|]. intros _. destruct (b_mem _ _ _ _ Hok) as (m & Hm & Hl). by exists a, m.
  - intros f W' l' s' Hr Hreq. by eapply HQ.
Qed.

Lemma read_ref (H : gmultiset Z) b a f : job_ref (JRead b a f) ⊎ H = H.
Proof. change (job_ref (JRead b a f)) with (∅ : gmultiset Z). multiset_solver. Qed.

Lemma read_about b a f : about (JRead b a f) a f.
Proof.
  split; [done|]. split; [by intros c [= ->]|]. change (job_ref (JRead b a f)) with (∅ : gmultiset Z).
  multiset_solver.
Qed.

Lemma wp_get_check H W l s t room b a x (Q : Result progress → cache → Prop) :
  inv H W l s → jobs s !! t = None → bufs s !! a = Some x → blkno x = b → ring_room s →
  (∀ p s', after t H (Some b) s p s' → Q (Ok p) s') → wp (get_check room b a) s Q.
Proof.
  intros Hi Ht Hx Hb Hroom HQ. unfold get_check. eapply wp_bind, wp_buf; [done|].
  destruct (inflight x) eqn:Hfl.
  { apply wp_ret, HQ. split; [apply evolves_refl|]. split; [by apply jobs_kept_eq|]. split; [|by split; [|apply lent_none]].
    exists W, l. cbn. rewrite difference_empty. apply inv_add_plain; [done|done|done|by exists x]. }
  destruct (valid x) eqn:Hv.
  - apply wp_bind. unfold keep. eapply wp_update_buf; [done|]. apply wp_ret, HQ.
    split; [by apply (evolves_flags s _ a x (set_refcnt (λ n, n + 1) x))|]. split; [by apply jobs_kept_eq|].
    split; [exists W, l; by apply inv_keep|]. exists (set_refcnt (λ n, n + 1) x). cbn. by rewrite lookup_insert_eq, Hb.
  - apply wp_bind. eapply wp_update_buf; [done|].
    subst b. apply wp_bind, (wp_request H W l s a x _ READ); try done.
    intros f W' l' b' Hr Hreq. apply wp_ret, HQ. pose proof Hreq as (_ & -> & Hm & Hd & Herr & _).
    split; [by apply (evolves_flags s _ a x (set_inflight true x))|]. split; [by apply jobs_kept_eq|]. split; [|by split; [|apply lent_none]].
    eexists _, l'. cbn [lent]. rewrite difference_empty.
    eapply (inv_start H W l s _ _ l' b' t (JRead (blkno x) a f) a f x); try done.
    + by rewrite read_ref.
    + apply read_about.
    + exists (set_inflight true x). cbn. rewrite !lookup_insert_eq. split_and!; [done..|].
      intros n Hn. destruct (Herr _ Hn) as (e & ?). done.
Qed.

Lemma wp_get_buffer H W l s t alloc room junk b (Q : Result progress → cache → Prop) :
  inv H W l s → jobs s !! t = None → is_u64 b → Z.of_nat (length junk) = blksz s → ring_room s →
  is_Some (mapping s !! b) ∨ slot_room s →
  (∀ p s', after t H (Some b) s p s' → Q (Ok p) s') → wp (get_buffer alloc room junk b) s Q.
Proof.
  intros Hi Ht Hu Hlen Hring Hroom HQ. unfold get_buffer. apply wp_bind, wp_attempt.
  apply (wp_ensure_buffer H W l s); try done.
  - intros i a x s1 Hi1 Hmv Hj Hs Hx Hb. apply wp_bind, wp_gets. rewrite Hs.
    eapply (wp_get_check H W l s1 t); try done; [by rewrite Hj| |].
    + unfold ring_room. by rewrite (m_queue _ _ Hmv).
    + intros p s' Haf. apply HQ. by eapply after_moves.
  - intros e s1 Hi1 [He Hjk _] Hj. apply wp_ret, HQ. split; [done|]. split; [done|]. split; [by exists W, l|by eexists].
Qed.

(** *** The read is over *)

Lemma put_back s t j : jobs s !! t = Some j → set_jobs (insert t j) (set_jobs (delete t) s) = s.
Proof. intros Ht. destruct s. cbn in *. unfold set_jobs. cbn. by rewrite insert_delete_id. Qed.

(** The thread goes on waiting. *)
Lemma wait_on H W l s t j :
  inv H W l s → jobs s !! t = Some j →
  after t (H ⊎ lent j) (job_block j) (set_jobs (delete t) s) (Blocked j) (set_jobs (delete t) s).
Proof.
  intros Hi Ht. split; [apply evolves_refl|]. split; [by apply jobs_kept_eq|].
  split; [|split; [done|intros c Hc; multiset_solver]].
  exists W, l. rewrite put_back by done. replace ((H ⊎ lent j) ∖ lent j) with H by multiset_solver. done.
Qed.

Lemma settle_plain H : H ⊎ ∅ = H :> gmultiset Z.
Proof. multiset_solver. Qed.

Lemma wp_read_done H W l s t room b a f (Q : Result progress → cache → Prop) :
  inv H W l s → jobs s !! t = Some (JRead b a f) →
  (∀ p s', after t H (Some b) (set_jobs (delete t) s) p s' → Q (Ok p) s') →
  wp (resume room (JRead b a f)) (set_jobs (delete t) s) Q.
Proof.
  intros Hi Ht HQ. pose proof (j_ok _ _ (i_jobs _ _ _ _ Hi) t _ Ht) as (x & Hx & Hb & Hv & HW & Hset).
  set (s0 := set_jobs (delete t) s) in *. cbn [resume]. apply wp_bind, wp_lift.
  apply (wp_collect W l (bio s) f _ _ (i_rep _ _ _ _ Hi) HW).
  { intros _. apply wp_ret, HQ. rewrite <- (settle_plain H). by eapply wait_on. }
  intros r b' Hr Hrep Hm Hd Hother Hq. unfold get_read_done. apply wp_bind.
  eapply wp_update_buf; [done|].
  pose proof (inv_finish H W l s b' t _ a f x Hi Hx Ht (read_about b a f) Hrep (conj Hm (conj Hd Hother))) as Hi1.
  rewrite read_ref in Hi1.
  set (s1 := finished t a (JRead b a f) x b' s) in *. apply wp_bind, wp_modify.
  pose proof (inv_wake H _ l s1 a Hi1) as Hi2. set (s2 := set_jobs _ s1) in Hi2.
  assert (evolves s0 s2 ∧ jobs_kept s0 s2) as [He2 Hj2].
  { split; [by apply (evolves_flags s0 _ a x (set_inflight false x))|]. apply (jobs_kept_wake s0). }
  change (wp (sz ← gets blksz; match r with
    | Ok n => if negb (n =? sz) then mret (GotHandle (Err IO_ERROR))
              else _ ← update_buf a (set_valid true); _ ← keep a; mret (GotHandle (Ok a))
    | Err e => mret (GotHandle (Err e)) end) s2 Q).
  apply wp_bind, wp_gets.
  assert (∀ e, Q (Ok (GotHandle (Err e))) s2) as Herr.
  { intros e. apply HQ. split_and!; [done..| |by eexists]. by eexists _, l. }
  destruct r as [n|e]; [|by apply wp_ret]. destruct (Z.eqb_spec n (blksz s2)) as [->|]; cbn [negb]; [|by apply wp_ret].
  destruct (Hset _ Hr) as (_ & Hlt & Hma).
  assert (bufs s2 !! a = Some (set_inflight false x)) as Hx2 by apply lookup_insert_eq.
  assert (blkno (set_inflight false x) < D_block_count (disk (bio s2))) as Hlt2 by (cbn; rewrite Hb, Hd; lia).
  assert (mem (bio s2) !! a = Some (block (disk (bio s2)) (blkno (set_inflight false x)))) as Hma2.
  { cbn. by rewrite Hm, Hd, Hb. }
  pose proof (inv_validate _ _ _ _ _ _ Hi2 Hx2 eq_refl Hlt2 Hma2) as Hi3.
  pose proof (evolves_validate _ _ _ _ _ _ Hi2 Hx2 eq_refl Hlt2 Hma2) as He3.
  apply wp_bind. eapply wp_update_buf; [done|]. set (s3 := set_bufs _ s2) in *.
  assert (bufs s3 !! a = Some (set_valid true (set_inflight false x))) as Hx3 by apply lookup_insert_eq.
  apply wp_bind. unfold keep. eapply wp_update_buf; [done|]. apply wp_ret, HQ. split_and!.
  - eapply evolves_trans; [exact He2|]. eapply evolves_trans; [exact He3|].
    by eapply (evolves_flags s3 _ a); [exact Hx3|..].
  - exact Hj2.
  - eexists _, l. by apply inv_keep.
  - eexists. cbn. rewrite lookup_insert_eq. split; [done|]. by rewrite <- Hb.
Qed.

(** *** Threads that write back *)

Lemma wp_sync_clean s a x room (Q : Result (Z + Result unit) → cache → Prop) :
  bufs s !! a = Some x → valid x && dirty x = false → Q (Ok (inr (Ok tt))) s → wp (sync_begin room a) s Q.
Proof.
  intros Hx Hc HQ. unfold sync_begin. eapply wp_bind, wp_buf; [done|].
  rewrite <- negb_andb, Hc. by apply wp_ret.
Qed.

Lemma wp_sync_busy s a x room (Q : Result (Z + Result unit) → cache → Prop) :
  bufs s !! a = Some x → valid x && dirty x = true → inflight x = true →
  Q (Ok (inr (Err BUSY))) s → wp (sync_begin room a) s Q.
Proof.
  intros Hx Hc Hfl HQ. unfold sync_begin. eapply wp_bind, wp_buf; [done|].
  rewrite <- negb_andb, Hc, Hfl. by apply wp_ret.
Qed.

(** A write back that has begun: whichever thread it is, its job has the handle. *)
Definition written_back (a f : Z) (H : gmultiset Z) (s s' : cache) : Prop :=
  evolves s s' ∧ jobs s' = jobs s ∧
  ∀ t k, jobs s !! t = None → ∃ W l, inv H W l (set_jobs (insert t (JWrite a f k)) s').

Lemma handle_about a f j : job_future j = Some f → job_ref j = {[+ a +]} → (∀ c, busy j = Some c → c = a) → about j a f.
Proof. intros Hf Hr Hb. split; [done|]. split; [done|]. rewrite Hr. multiset_solver. Qed.

Lemma wp_sync_dirty H W l s a x room (Q : Result (Z + Result unit) → cache → Prop) :
  inv ({[+ a +]} ⊎ H) W l s → bufs s !! a = Some x → valid x && dirty x = true → inflight x = false → ring_room s →
  (∀ f s', written_back a f H s s' → Q (Ok (inl f)) s') → wp (sync_begin room a) s Q.
Proof.
  intros Hi Hx Hc Hfl Hroom HQ. unfold sync_begin. eapply wp_bind, wp_buf; [done|].
  rewrite <- negb_andb, Hc, Hfl. cbn [negb]. apply andb_true_iff in Hc as [Hv Hdy].
  apply wp_bind. eapply wp_update_buf; [done|]. apply wp_bind, (wp_request ({[+ a +]} ⊎ H) W l s a x _ WRITE); try done.
  intros f W' l' b' Hr Hreq. apply wp_ret, HQ. pose proof Hreq as (_ & -> & Hm & Hd & Herr & _).
  split; [by apply (evolves_flags s _ a x (set_inflight true x))|]. split; [done|]. intros t k Ht. eexists _, l'.
  eapply (inv_start H W l s _ _ l' b' t (JWrite a f k) a f x); try done.
  - apply handle_about; [done|done|]. by intros c [= ->].
  - exists (set_inflight true x). cbn. rewrite !lookup_insert_eq. split_and!; [done..|].
    intros n Hn. destruct (Herr _ Hn) as (e & ?). done.
Qed.

(** A handle that is taken and given back. *)
Lemma keep_release H W l s a x :
  inv H W l s → bufs s !! a = Some x →
  set_bufs (insert a (set_refcnt (λ n, if 0 <? n then n - 1 else n) (set_refcnt (λ n, n + 1) x)))
    (set_bufs (insert a (set_refcnt (λ n, n + 1) x)) s) = s.
Proof.
  intros Hi Hx. pose proof (b_ref _ _ _ _ (i_buf _ _ _ _ Hi a x Hx)) as Hn.
  assert (set_refcnt (λ n, if 0 <? n then n - 1 else n) (set_refcnt (λ n, n + 1) x) = x) as ->.
  { destruct x as [b d dy v fl n]. unfold set_refcnt. cbn in *. rewrite (proj2 (Z.ltb_lt 0 (n + 1))) by lia.
    f_equal. lia. }
  destruct s. unfold set_bufs. cbn in *. by rewrite insert_insert_eq, insert_id.
Qed.

Lemma wp_sync_slots H W l s t tidy room n (Q : Result progress → cache → Prop) :
  inv H W l s → jobs s !! t = None → ring_room s →
  (∀ p s', after t H None s p s' → Q (Ok p) s') → wp (sync_slots tidy room n) s Q.
Proof.
  intros Hi Ht Hroom HQ. assert (∀ p, (p = Blocked JTidy ∨ ∃ r, p = GotVoid r) → Q (Ok p) s) as Hend.
  { intros p [->|[r ->]]; apply HQ; (split; [apply evolves_refl|]; split; [by apply jobs_kept_eq|]).
    - split; [|by split; [|apply lent_none]]. exists W, l. cbn. rewrite difference_empty. by apply inv_add_plain.
    - split; [by exists W, l|done]. }
  induction n as [|n IH]; cbn [sync_slots]; [apply wp_ret, Hend; destruct tidy; [by left|right; by eexists]|].
  apply wp_bind, wp_gets. destruct (slots s !! _) as [[a|]|] eqn:Hs; [|exact IH..].
  destruct (slot_bufs H W l s a Hi) as [x Hx]; [by eapply list_elem_of_lookup_2|].
  apply wp_bind. unfold keep. eapply wp_update_buf; [done|]. set (x1 := set_refcnt _ x). set (s1 := set_bufs _ s).
  assert (bufs s1 !! a = Some x1) as Hx1 by apply lookup_insert_eq.
  assert (∀ r : Result unit, (∀ e, r = Err e → Q (Ok (GotVoid (Err e))) s) → wp (_ ← release a;
    match r with Err e => mret (GotVoid (Err e)) | Ok _ => sync_slots tidy room n end) s1 Q) as Hgo.
  { intros r Hr. apply wp_bind. unfold release. eapply wp_update_buf; [exact Hx1|].
    unfold s1, x1. rewrite (keep_release H W l s a x Hi Hx). destruct r as [[]|e]; [exact IH|]. by apply wp_ret, Hr. }
  apply wp_bind. destruct (valid x && dirty x) eqn:Hc.
  2: { eapply wp_sync_clean; [exact Hx1|exact Hc|]. by apply (Hgo (Ok tt)). }
  destruct (inflight x) eqn:Hfl.
  { eapply wp_sync_busy; [exact Hx1|exact Hc|exact Hfl|]. apply (Hgo (Err BUSY)). intros e _. apply Hend. right. by eexists. }
  pose proof Hc as [Hv _]%andb_true_iff. pose proof (inv_keep H W l s a x Hi Hx Hv) as Hi1.
  apply (wp_sync_dirty H W l s1 a x1); try done. intros f s' (He & Hj & Hinv). apply wp_ret, HQ.
  split; [eapply evolves_trans; [|exact He]; by apply (evolves_flags s _ a x x1)|]. split; [by apply jobs_kept_eq|].
  split; [|split; [done|apply lent_none; by destruct tidy]]. destruct (Hinv t (if tidy then KTidy n else KAll n) Ht) as (W' & l' & Hi'). exists W', l'.
  replace (lent _) with (∅ : gmultiset Z) by (by destruct tidy). by rewrite difference_empty.
Qed.

Lemma handle_split (H : gmultiset Z) a : a ∈ H → H = {[+ a +]} ⊎ (H ∖ {[+ a +]}).
Proof. intros Hin. multiset_solver. Qed.

Lemma wp_sync H W l s t room a (Q : Result progress → cache → Prop) :
  inv H W l s → jobs s !! t = None → ring_room s → a ∈ H →
  (∀ p s', after t H None s p s' → Q (Ok p) s') → wp (sync room a) s Q.
Proof.
  intros Hi Ht Hroom Ha HQ. unfold sync. apply wp_bind. destruct (i_live _ _ _ _ Hi a) as (x & Hx & Hv); [multiset_solver|].
  assert (∀ r, Q (Ok (GotVoid r)) s) as Hend.
  { intros r. apply HQ. split; [apply evolves_refl|]. split; [by apply jobs_kept_eq|]. split; [by exists W, l|done]. }
  destruct (valid x && dirty x) eqn:Hc; [|by eapply wp_sync_clean; [..|apply wp_ret, Hend]].
  destruct (inflight x) eqn:Hfl; [by eapply wp_sync_busy; [..|apply wp_ret, Hend]|].
  rewrite (handle_split H a Ha) in Hi. apply (wp_sync_dirty (H ∖ {[+ a +]}) W l s a x); try done.
  intros f s' (He & Hj & Hinv). apply wp_ret, HQ. split; [done|]. split; [by apply jobs_kept_eq|].
  split; [by apply Hinv|]. split; [done|]. intros c Hin. cbn in Hin. multiset_solver.
Qed.

(** The end of a [sync], whose job is gone: the thread has the handle. *)
Lemma wp_sync_return H W l s t room a f k r (Q : Result progress → cache → Prop) :
  inv ({[+ a +]} ⊎ H) W l s → jobs s !! t = None → ring_room s →
  (∀ p s', after t (H ⊎ lent (JFlush a f k)) None s p s' → Q (Ok p) s') → wp (sync_return room a k r) s Q.
Proof.
  intros Hi Ht Hroom HQ. destruct (i_live _ _ _ _ Hi a) as (x & Hx & Hv); [multiset_solver|].
  assert (k ≠ KOne → wp (_ ← release a; match r with
    | Err e => mret (GotVoid (Err e))
    | Ok _ => sync_slots (match k with KTidy _ => true | _ => false end) room
                (match k with KAll n | KTidy n => n | KOne => 0%nat end) end) s Q) as Hloop.
  { intros Hk. pose proof (inv_release H W l s a x Hi Hx) as Hi1. apply wp_bind. unfold release. eapply wp_update_buf; [done|].
    set (s1 := set_bufs _ s) in *. replace (H ⊎ lent (JFlush a f k)) with H in HQ by (destruct k; [done|cbn; multiset_solver..]).
    assert (∀ p s', after t H None s1 p s' → Q (Ok p) s') as HQ1.
    { intros p s' Haf. apply HQ. eapply after_moves; [|exact Haf].
      split; [by eapply (evolves_flags s _ a x)|by apply jobs_kept_eq|done]. }
    destruct r as [[]|e]; [by eapply wp_sync_slots|]. apply wp_ret, HQ1. split; [apply evolves_refl|].
    split; [by apply jobs_kept_eq|]. split; [by exists W, l|done]. }
  destruct k as [|n|n]; cbn [sync_return]; [|by apply Hloop..]. apply wp_ret, HQ. split; [apply evolves_refl|].
  split; [by apply jobs_kept_eq|]. split; [|done]. exists W, l. cbn [lent]. by rewrite (comm_L (⊎) H).
Qed.

(** *** The two requests of [sync] are over *)

Lemma set_bufs_id s a x : bufs s !! a = Some x → set_bufs (insert a x) s = s.
Proof. intros Hx. destruct s. unfold set_bufs. cbn in *. by rewrite insert_id. Qed.

(** The flush is submitted: the job has the handle. *)
Lemma wp_flush H W l s t room a x k (Q : Result Z → cache → Prop) :
  inv ({[+ a +]} ⊎ H) W l s → jobs s !! t = None → bufs s !! a = Some x → ring_room s →
  (∀ f s', evolves s s' → jobs s' = jobs s →
     (∃ W l, inv H W l (set_jobs (insert t (JFlush a f k)) s')) → Q (Ok f) s') →
  wp (lift (submit_flush_async room)) s Q.
Proof.
  intros Hi Ht Hx Hroom HQ. apply wp_lift.
  apply (wp_submit W l (bio s) room (mkWant FLUSH 0 None) _ (i_rep _ _ _ _ Hi)); [by split|done|].
  intros f W' l' b' Hr Hreq. pose proof Hreq as (_ & -> & Hm & Hd & _ & _). apply HQ; [|done|].
  - apply (evolves_flags s _ a x x); try done. cbn. by rewrite insert_id.
  - eexists _, l'. pose proof (inv_start H W l s (mkWant FLUSH 0 None) (<[f := mkWant FLUSH 0 None]> W) l' b' t (JFlush a f k) a f x Hi Hx Ht) as Hst.
    unfold started in Hst. change (marked true (JFlush a f k) x) with x in Hst. rewrite (set_bufs_id s a x Hx) in Hst.
    apply Hst; try done; [by apply handle_about|]. cbn. rewrite lookup_insert_eq. split; [by eexists|done].
Qed.

Lemma wp_write_done H W l s t room a f k (Q : Result progress → cache → Prop) :
  inv H W l s → jobs s !! t = Some (JWrite a f k) → ring_room s →
  (∀ p s', after t (H ⊎ lent (JWrite a f k)) None (set_jobs (delete t) s) p s' → Q (Ok p) s') →
  wp (resume room (JWrite a f k)) (set_jobs (delete t) s) Q.
Proof.
  intros Hi Ht Hroom HQ. pose proof (j_ok _ _ (i_jobs _ _ _ _ Hi) t _ Ht) as (x & Hx & Hdy & HW & Hset).
  set (s0 := set_jobs (delete t) s) in *. cbn [resume]. apply wp_bind, wp_lift.
  apply (wp_collect W l (bio s) f _ _ (i_rep _ _ _ _ Hi) HW).
  { intros _. apply wp_ret, HQ. by eapply (wait_on H W l s t (JWrite a f k)). }
  intros r b' Hr Hrep Hm Hd Hother Hq. apply wp_bind. unfold sync_write_done. apply wp_bind. eapply wp_update_buf; [done|].
  assert (about (JWrite a f k) a f) as Hab by (apply handle_about; [done|done|by intros c [= ->]]).
  pose proof (inv_finish H W l s b' t _ a f x Hi Hx Ht Hab Hrep (conj Hm (conj Hd Hother))) as Hi1.
  set (s1 := finished t a (JWrite a f k) x b' s) in *.
  change (inv ({[+ a +]} ⊎ H) (delete f W) l s1) in Hi1. set (x1 := set_inflight false x).
  assert (bufs s1 !! a = Some x1) as Hx1 by apply lookup_insert_eq.
  assert (jobs s1 !! t = None) as Ht1 by apply lookup_delete_eq.
  assert (ring_room s1) as Hroom1 by (unfold ring_room; cbn; by rewrite Hq).
  assert (moves s0 s1) as Hmv1.
  { split; [by apply (evolves_flags s0 _ a x x1)|by apply jobs_kept_eq|done]. }
  assert (∀ e, wp (sync_return room a k (Err e)) s1 Q) as Herr.
  { intros e. eapply (wp_sync_return H _ l s1 t room a f k); try done. intros p s' Haf. apply HQ.
    eapply after_moves; [exact Hmv1|]. by destruct k. }
  apply wp_bind, wp_gets. destruct r as [n|e]; [|apply wp_ret, Herr].
  destruct (Z.eqb_spec n (blksz (set_bufs (insert a x1) (set_bio b' s0)))) as [Hn|]; cbn [negb]; [|apply wp_ret, Herr].
  destruct (Hset _ Hr) as (_ & Hma).
  assert (mem (bio s1) !! a = Some (block (disk (bio s1)) (blkno x1))) as Hma1 by (cbn; by rewrite Hm, Hd).
  pose proof (inv_clean _ _ _ _ _ _ Hi1 Hx1 eq_refl Hma1) as Hi2.
  apply wp_bind. eapply wp_update_buf; [exact Hx1|]. apply wp_bind, wp_modify, wp_bind.
  set (g := λ i, set_dirty_pages _ (set_writeback_pages _ i)).
  eapply (wp_flush H _ l (set_info g (set_bufs (insert a (set_dirty false x1)) s1)) t room a _ k); try done.
  - by apply inv_info.
  - apply lookup_insert_eq.
  - intros f' s' He Hj (W' & l' & Hi'). apply wp_ret, wp_ret, HQ. split.
    + eapply evolves_trans; [apply Hmv1|]. eapply evolves_trans; [|exact He].
      by eapply (evolves_flags s1 _ a x1 (set_dirty false x1)).
    + split; [by apply jobs_kept_eq|]. split; [|split; [done|intros c Hc; destruct k; cbn [lent] in *; multiset_solver]]. exists W', l'.
      replace ((H ⊎ lent (JWrite a f k)) ∖ lent (JFlush a f' k)) with H by (destruct k; cbn [lent]; multiset_solver). done.
Qed.

Lemma wp_flush_done H W l s t room a f k (Q : Result progress → cache → Prop) :
  inv H W l s → jobs s !! t = Some (JFlush a f k) → ring_room s →
  (∀ p s', after t (H ⊎ lent (JFlush a f k)) None (set_jobs (delete t) s) p s' → Q (Ok p) s') →
  wp (resume room (JFlush a f k)) (set_jobs (delete t) s) Q.
Proof.
  intros Hi Ht Hroom HQ. pose proof (j_ok _ _ (i_jobs _ _ _ _ Hi) t _ Ht) as ([x Hx] & HW).
  set (s0 := set_jobs (delete t) s) in *. cbn [resume]. apply wp_bind, wp_lift.
  apply (wp_collect W l (bio s) f _ _ (i_rep _ _ _ _ Hi) HW).
  { intros _. apply wp_ret, HQ. by eapply (wait_on H W l s t (JFlush a f k)). }
  intros r b' Hr Hrep Hm Hd Hother Hq.
  assert (about (JFlush a f k) a f) as Hab by (by apply handle_about).
  pose proof (inv_finish H W l s b' t _ a f x Hi Hx Ht Hab Hrep (conj Hm (conj Hd Hother))) as Hi1.
  unfold finished in Hi1. change (marked false (JFlush a f k) x) with x in Hi1.
  change (set_jobs (delete t) s) with s0 in Hi1.
  change (bufs s !! a) with (bufs (set_bio b' s0) !! a) in Hx. rewrite (set_bufs_id _ a x Hx) in Hi1.
  unfold sync_flush_done. apply wp_bind, wp_bind, wp_gets, wp_bind, wp_modify, wp_ret.
  set (s1 := set_info _ _). assert (moves s0 s1) as Hmv1.
  { split; [|by apply jobs_kept_eq|done]. apply (evolves_flags s0 _ a x x); try done. cbn. by rewrite insert_id. }
  eapply (wp_sync_return H _ l s1 t room a f k).
  - by apply inv_info.
  - apply lookup_delete_eq.
  - unfold ring_room. cbn. by rewrite Hq.
  - intros p s' Haf. apply HQ. by eapply after_moves.
Qed.

(** *** The second loop of [tidy] *)

(** No buffer that nobody refers to has unwritten bytes, and no thread waits for one. *)
Definition tidy_room (s : cache) : Prop :=
  (∀ a, ¬ awaited s a) ∧ ∀ a x, bufs s !! a = Some x → idle x = true → dirty x = false.

Lemma wp_tidy_slots H W l s n (Q : Result (Result unit) → cache → Prop) :
  inv H W l s → tidy_room s →
  (∀ s', inv H W l s' → moves s s' → Q (Ok (Ok tt)) s') → wp (tidy_slots n) s Q.
Proof.
  revert s. induction n as [|n IH]; intros s Hi [Haw Hdy] HQ; cbn [tidy_slots].
  { apply wp_ret, HQ; [done|apply moves_same]. }
  apply wp_bind, wp_gets. set (i := (length (slots s) - S n)%nat).
  destruct (slots s !! i) as [[a|]|] eqn:Hs; [|by apply IH..].
  destruct (slot_bufs H W l s a Hi) as [x Hx]; [by eapply list_elem_of_lookup_2|].
  eapply wp_bind, wp_buf; [done|]. destruct (negb (refcnt x =? 0) || inflight x) eqn:Hb; [by apply IH|].
  assert (idle x = true) as Hid by (unfold idle; by destruct (refcnt x =? 0), (inflight x)).
  apply wp_bind, wp_attempt. eapply wp_clear_slot; [done..|]. intros m. apply IH.
  - by apply inv_info, inv_evict.
  - split; [exact Haw|]. cbn. intros c y [_ Hy]%lookup_delete_Some. by eapply Hdy.
  - intros s' Hi' Hmv. apply HQ; [done|]. eapply moves_trans; [|exact Hmv]. eapply moves_trans; [|apply moves_info].
    split; [eapply evolves_evict; try done; by eapply Hdy|by apply jobs_kept_eq|done].
Qed.

(** *** A thread that runs again *)

Lemma job_plain j : job_future j = None → plain j.
Proof. by destruct j. Qed.

Lemma wp_resume H W l s t j room (Q : Result progress → cache → Prop) :
  inv H W l s → jobs s !! t = Some j → ring_room s → (j = JTidy → tidy_room s) →
  (∀ p s', after t (H ⊎ lent j) (job_block j) (set_jobs (delete t) s) p s' → Q (Ok p) s') →
  wp (resume room j) (set_jobs (delete t) s) Q.
Proof.
  intros Hi Ht Hroom Htidy HQ. destruct j as [wk b a|b a f|a f k|a f k|].
  - cbn [resume]. rewrite settle_plain in HQ.
    assert (plain (JWait wk b a)) as Hpl by done. pose proof (inv_del_plain _ _ _ _ _ _ Hi Ht Hpl) as Hi1.
    pose proof (j_ok _ _ (i_jobs _ _ _ _ Hi) t _ Ht) as (x & Hx & Hb). destruct wk.
    + apply (wp_get_check H W l _ t room b a x); try done. cbn. by rewrite lookup_delete_eq.
    + apply wp_ret, HQ. rewrite <- (settle_plain H). by eapply (wait_on _ _ _ _ _ (JWait false b a)).
  - rewrite settle_plain in HQ. by eapply wp_read_done.
  - by eapply wp_write_done.
  - by eapply wp_flush_done.
  - cbn [resume]. rewrite settle_plain in HQ. assert (plain JTidy) as Hpl by done.
    pose proof (inv_del_plain _ _ _ _ _ _ Hi Ht Hpl) as Hi1. apply wp_bind, wp_gets, wp_bind.
    apply (wp_tidy_slots H W l); [done| |].
    + destruct (Htidy eq_refl) as [Haw Hdy]. split; [|exact Hdy]. intros a (t' & wk & b & Hj).
      cbn in Hj. apply lookup_delete_Some in Hj as [_ Hj]. apply (Haw a). by exists t', wk, b.
    + intros s' Hi' [He Hj _]. apply wp_ret, HQ. split; [done|]. split; [done|]. split; [by exists W, l|done].
Qed.

End BlockCacheRun.
