(* ===== verification/BlockCacheStore.v ===== *)
(** * The buffer cache is a block store

    Threads use the cache in any order, the worker of the device runs, and the device may
    be stopped.  As long as no thread does what the routines have no defence against
    ([allowed] below), nobody can tell the cache from a store of blocks that are written
    and read at once. *)

From stdpp Require Import gmultiset.
From S2P Require Import Prelude ErrCode Addr RingBuf TmpFs BlockQueue BlockService BlockCache BlockCacheInv BlockCacheRun.

#[local] Open Scope Z_scope.

Module BlockCacheStore.
Import BlockQueue BlockQueueSpec BlockService BlockCache BlockCacheInv BlockCacheRun.

(** ** What threads may do

    - A thread asks for one thing at a time, and only while the device's ring has room.
    - A buffer that nobody refers to has to go for a new one ([get_buffer], [tidy]) only if
      it has no unwritten bytes and no thread waits in [get_buffer_async].
    - A buffer is not written while its write back is under way.
    - A thread uses handles that it has. *)
Definition allowed (ev : event) (s : sys) : Prop :=
  let c := cst s in
  match ev with
  | CGet t _ _ junk b =>
      jobs c !! t = None ∧ is_u64 b ∧ Z.of_nat (length junk) = blksz c ∧ ring_room c ∧
      (is_Some (mapping c !! b) ∨ slot_room c)
  | CSync t _ a => jobs c !! t = None ∧ ring_room c ∧ a ∈ handles s
  | CSyncAll t _ | CTidy t _ => jobs c !! t = None ∧ ring_room c
  | CResume t _ => ring_room c ∧ ∃ j, jobs c !! t = Some j ∧ (j = JTidy → tidy_room c)
  | CWorker | CDrain _ => True
  | CWrite a off l => a ∈ handles s ∧ ¬ is_busy c a ∧ 0 <= off ∧ blksz c + Z.of_nat (length l) < W64
  | CWriteblk a l => a ∈ handles s ∧ ¬ is_busy c a ∧ Z.of_nat (length l) = blksz c
  | CRead a off len => a ∈ handles s ∧ 0 <= off ∧ 0 <= len ∧ blksz c + len < W64
  | CReadblk a | CCopy a | CRelease a => a ∈ handles s
  end.

Inductive exec : sys → list (event * reply) → sys → Prop :=
  | exec_nil s : exec s [] s
  | exec_snoc s tr s1 ev r s2 :
      exec s tr s1 → allowed ev s1 → step ev s1 = Fin (Ok r) s2 → exec s (tr ++ [(ev, r)]) s2.

(** ** The store

    [v_names] says which block a handle is for, [v_asked] which block a thread waits for. *)
Record store := mkStore {
  v_blocks : gmap Z (list Z);
  v_names : gmap Z Z;
  v_asked : gmap Z Z;
}.

Definition set_block b l v := mkStore (<[b := l]> (v_blocks v)) (v_names v) (v_asked v).
Definition give_name a b v := mkStore (v_blocks v) (<[a := b]> (v_names v)) (v_asked v).
Definition ask t b v := mkStore (v_blocks v) (v_names v) (<[t := b]> (v_asked v)).
Definition unask t v := mkStore (v_blocks v) (v_names v) (delete t (v_asked v)).

(** How many of [len] bytes from [off] on are in the block, the bytes there, and the block
    with others there. *)
Definition clamp (off len sz : Z) : Z := if sz <=? off then 0 else Z.min len (sz - off).
Definition slice (off len : Z) (l : list Z) : list Z :=
  take (Z.to_nat (clamp off len (Z.of_nat (length l)))) (drop (Z.to_nat off) l).
Definition patch (off : Z) (src l : list Z) : list Z :=
  TmpFs.copy_in off (take (Z.to_nat (clamp off (Z.of_nat (length src)) (Z.of_nat (length l)))) src) l.

(** The handle [a] can be for block [b]. *)
Definition may_name (a b : Z) (v : store) : Prop :=
  is_Some (v_blocks v !! b) ∧ (v_names v !! a = None ∨ v_names v !! a = Some b).

Definition handle_block (a : Z) (v : store) : option (Z * list Z) :=
  b ← v_names v !! a; l ← v_blocks v !! b; Some (b, l).

Inductive shows : event → reply → store → store → Prop :=
  | shows_get_wait t al rm junk b v : shows (CGet t al rm junk b) RBlocked v (ask t b v)
  | shows_get t al rm junk a b v : may_name a b v → shows (CGet t al rm junk b) (RHandle (Ok a)) v (give_name a b v)
  | shows_get_error t al rm junk b e v : shows (CGet t al rm junk b) (RHandle (Err e)) v v
  | shows_sync_wait t rm a v : shows (CSync t rm a) RBlocked v v
  | shows_sync t rm a r v : shows (CSync t rm a) (RVoid r) v v
  | shows_sync_all_wait t rm v : shows (CSyncAll t rm) RBlocked v v
  | shows_sync_all t rm r v : shows (CSyncAll t rm) (RVoid r) v v
  | shows_tidy_wait t rm v : shows (CTidy t rm) RBlocked v v
  | shows_tidy t rm r v : shows (CTidy t rm) (RVoid r) v v
  | shows_wait t rm v : shows (CResume t rm) RBlocked v v
  | shows_got t rm a b v : v_asked v !! t = Some b → may_name a b v →
      shows (CResume t rm) (RHandle (Ok a)) v (unask t (give_name a b v))
  | shows_got_error t rm b e v : v_asked v !! t = Some b → shows (CResume t rm) (RHandle (Err e)) v (unask t v)
  | shows_synced t rm r v : v_asked v !! t = None → shows (CResume t rm) (RVoid r) v v
  | shows_worker v : shows CWorker RDone v v
  | shows_drain e v : shows (CDrain e) RDone v v
  | shows_write a off src b l v : handle_block a v = Some (b, l) →
      shows (CWrite a off src) (RSize (clamp off (Z.of_nat (length src)) (Z.of_nat (length l)))) v
        (set_block b (patch off src l) v)
  | shows_read a off len b l v : handle_block a v = Some (b, l) →
      shows (CRead a off len) (RBytes (slice off len l)) v v
  | shows_writeblk a src b l v : handle_block a v = Some (b, l) → length src = length l →
      shows (CWriteblk a src) RDone v (set_block b src v)
  | shows_readblk a b l v : handle_block a v = Some (b, l) → shows (CReadblk a) (RBytes l) v v
  | shows_copy a v : shows (CCopy a) RDone v v
  | shows_release a v : shows (CRelease a) RDone v v.

Inductive behaves : store → list (event * reply) → store → Prop :=
  | behaves_nil v : behaves v [] v
  | behaves_snoc v tr v1 ev r v2 :
      behaves v tr v1 → shows ev r v1 v2 → behaves v (tr ++ [(ev, r)]) v2.

(** The store a disk is. *)
Definition disk_store (d : RamDiskDevice) : store :=
  mkStore (list_to_map ((λ b, (b, block d b)) <$> seqZ 0 (D_block_count d))) ∅ ∅.

Lemma disk_store_block d b :
  0 <= b < D_block_count d → v_blocks (disk_store d) !! b = Some (block d b).
Proof.
  intros Hb. apply elem_of_list_to_map_1.
  - rewrite <- list_fmap_compose. change (NoDup (id <$> seqZ 0 (D_block_count d))). rewrite list_fmap_id. apply NoDup_seqZ.
  - apply list_elem_of_fmap. exists b. split; [done|]. apply elem_of_seqZ. lia.
Qed.

(** ** Reading and writing through a handle *)

(** The bytes of block [b] become [l], and nothing else is seen to change. *)
Record written (s s' : cache) (b : Z) (l : list Z) : Prop := {
  w_view : view s' b = l;
  w_other c : 0 <= c < D_block_count (disk (bio s)) → c ≠ b → view s' c = view s c;
  w_count : D_block_count (disk (bio s')) = D_block_count (disk (bio s));
  w_next : next_buf s' = next_buf s;
  w_names a x' : bufs s' !! a = Some x' → ∃ x, bufs s !! a = Some x ∧ blkno x = blkno x';
  w_jobs : jobs s' = jobs s;
}.

Lemma patch_nothing off src l : Z.of_nat (length l) <= off → patch off src l = l.
Proof.
  intros Hoff. unfold patch, clamp. rewrite (proj2 (Z.leb_le _ _) Hoff). unfold TmpFs.copy_in. change (Z.to_nat 0) with 0%nat. rewrite take_0. cbn [app length].
  by rewrite Nat.add_0_r, take_drop.
Qed.

Lemma handle_len_spec off len sz :
  0 <= off → 0 <= len → sz + len < W64 →
  handle_len off len sz = if sz <=? off then None else Some (clamp off len sz).
Proof.
  intros Hoff Hlen Hw. unfold handle_len, clamp. destruct (Z.leb_spec sz off); [done|]. f_equal.
  unfold add64. rewrite wrap64_small by (unfold is_u64; lia). destruct (Z.ltb_spec sz (off + len)); lia.
Qed.

Lemma length_patch off src l : 0 <= off → length (patch off src l) = length l.
Proof.
  intros Hoff. destruct (Z.le_gt_cases (Z.of_nat (length l)) off) as [Hle|Hlt]; [by rewrite patch_nothing|].
  unfold patch. rewrite <- (Z2Nat.id off) at 1 by done. apply TmpFsSpec.length_copy_in.
  rewrite length_take. unfold clamp. rewrite (proj2 (Z.leb_gt _ _) Hlt). lia.
Qed.

(** What storing [m] in the buffer and marking it does. *)
Lemma wp_store H W l s a x m (Q : Result unit → cache → Prop) :
  inv H W l s → bufs s !! a = Some x → valid x = true → inflight x = false → Z.of_nat (length m) = blksz s →
  (∀ s', inv H W l s' → written s s' (blkno x) m → Q (Ok tt) s') →
  wp (_ ← lift (modify (BlockQueue.set_mem (insert (data x) m))); mark_dirty a) s Q.
Proof.
  intros Hi Hx Hv Hfl Hm HQ. pose proof (i_buf _ _ _ _ Hi a x Hx) as Hok. rewrite (b_data _ _ _ _ Hok).
  set (s1 := set_bufs (insert a (set_dirty true x)) (set_bio (BlockQueue.set_mem (insert a m) (bio s)) s)).
  pose proof (inv_write H W l s a x m Hi Hx Hv Hfl Hm) as Hi1. change (inv H W l s1) in Hi1.
  assert (written s s1 (blkno x) m) as Hw.
  { split; try done.
    - change (blkno x) with (blkno (set_dirty true x)). apply (view_valid H W l s1 a _ m Hi1); [apply lookup_insert_eq|done|].
      apply lookup_insert_eq.
    - intros c Hc Hcb. destruct (view_cases H W l s c Hi) as [(d & y & m' & Hy & Hyb & Hvy & Hdm & ->)|[Hall ->]].
      + assert (d ≠ a) as Hda by (intros ->; congruence). rewrite <- Hyb.
        by apply (view_valid H W l s1 d y m' Hi1); [cbn; rewrite lookup_insert_ne|..|cbn; rewrite lookup_insert_ne].
      + apply (view_invalid H W l s1 c Hi1). cbn. intros d y [[<- <-]|[_ Hy]]%lookup_insert_Some Hyb; [done|by eapply Hall].
    - cbn. intros c y [[<- <-]|[_ Hy]]%lookup_insert_Some; [by exists x|by exists y]. }
  apply wp_bind, wp_lift, wp_modify. unfold mark_dirty. eapply wp_bind, wp_buf; [done|]. apply wp_bind.
  destruct (dirty x).
  - apply wp_ret. eapply wp_update_buf; [done|]. by apply HQ.
  - apply wp_bind, wp_gets, wp_modify. eapply wp_update_buf; [done|]. apply HQ.
    + by apply (inv_info H W l s1).
    + destruct Hw. by split.
Qed.

Lemma bytes_of H W l s a x :
  inv H W l s → bufs s !! a = Some x → valid x = true →
  mem (bio s) !! a = Some (view s (blkno x)) ∧ Z.of_nat (length (view s (blkno x))) = blksz s.
Proof.
  intros Hi Hx Hv. destruct (buf_mem H W l s a x Hi Hx) as (m & Hm & Hl).
  by rewrite (view_valid H W l s a x m).
Qed.

Lemma wp_array s p m (Q : Result (list Z) → cache → Prop) :
  mem (bio s) !! p = Some m → Q (Ok m) s → wp (lift (array p)) s Q.
Proof. intros Hm HQ. apply wp_lift. eapply wp_run; [by apply array_run|]. by rewrite set_bio_id. Qed.

Lemma wp_copy_bytes s n from to src dst (Q : Result (list Z) → cache → Prop) :
  from + n <= Z.of_nat (length src) → to + n <= Z.of_nat (length dst) →
  Q (Ok (TmpFs.copy_in to (take (Z.to_nat n) (drop (Z.to_nat from) src)) dst)) s →
  wp (lift (copy_bytes n from to src dst)) s Q.
Proof. intros H1 H2 HQ. apply wp_lift. eapply wp_run; [by apply copy_bytes_run|]. by rewrite set_bio_id. Qed.

Lemma wp_handler_write H W l s a x off src (Q : Result Z → cache → Prop) :
  inv H W l s → bufs s !! a = Some x → valid x = true → inflight x = false → 0 <= off →
  blksz s + Z.of_nat (length src) < W64 →
  (∀ s', inv H W l s' → written s s' (blkno x) (patch off src (view s (blkno x))) →
     Q (Ok (clamp off (Z.of_nat (length src)) (blksz s))) s') →
  wp (handler_write a off src) s Q.
Proof.
  intros Hi Hx Hv Hfl Hoff Hlen HQ. destruct (bytes_of H W l s a x Hi Hx Hv) as [Hm Hsz].
  unfold handler_write. eapply wp_bind, wp_buf; [done|]. apply wp_bind, wp_gets.
  rewrite handle_len_spec by lia. unfold clamp in HQ at 1. destruct (Z.leb_spec (blksz s) off) as [Hle|Hlt].
  { apply wp_ret, HQ; [done|]. rewrite patch_nothing by lia. split; try done. intros c y Hy. by exists y. }
  set (n := clamp off _ _). assert (n = Z.min (Z.of_nat (length src)) (blksz s - off)) as Hn.
  { unfold n, clamp. by rewrite (proj2 (Z.leb_gt _ _) Hlt). }
  pose proof (i_buf _ _ _ _ Hi a x Hx) as Hok. apply wp_bind, (wp_array _ _ (view s (blkno x))); [by rewrite (b_data _ _ _ _ Hok)|].
  apply wp_bind, wp_copy_bytes; [lia|lia|]. set (m := TmpFs.copy_in _ _ _).
  assert (m = patch off src (view s (blkno x))) as Hmp.
  { unfold m, patch. change (Z.to_nat 0) with 0%nat. by rewrite drop_0, Hsz. }
  assert (wp (_ ← lift (modify (BlockQueue.set_mem (insert (data x) m))); mark_dirty a) s
    (λ r s', match r with Ok _ => Q (Ok n) s' | Err e => Q (Err e) s' end)) as Hst.
  { apply (wp_store H W l s a x m); try done; [rewrite Hmp, length_patch by done; done|].
    intros s' Hi' Hw. rewrite Hmp in Hw. rewrite Hn. by apply HQ. }
  revert Hst. unfold wp, mbind, M_bind. destruct (lift _ s) as [[[]|e] s1| |]; [|done..].
  by destruct (mark_dirty a s1) as [[[]|e] s2| |].
Qed.

Lemma wp_writeblk H W l s a x src (Q : Result unit → cache → Prop) :
  inv H W l s → bufs s !! a = Some x → valid x = true → inflight x = false →
  Z.of_nat (length src) = blksz s →
  (∀ s', inv H W l s' → written s s' (blkno x) src → Q (Ok tt) s') → wp (writeblk a src) s Q.
Proof.
  intros Hi Hx Hv Hfl Hlen HQ. destruct (bytes_of H W l s a x Hi Hx Hv) as [Hm Hsz].
  unfold writeblk. eapply wp_bind, wp_buf; [done|]. apply wp_bind, wp_gets, wp_bind, wp_assert; [by apply Z.eqb_eq|].
  pose proof (i_buf _ _ _ _ Hi a x Hx) as Hok. apply wp_bind, (wp_array _ _ (view s (blkno x))); [by rewrite (b_data _ _ _ _ Hok)|].
  apply wp_bind, wp_copy_bytes; [lia|lia|].
  assert (TmpFs.copy_in 0 (take (Z.to_nat (blksz s)) (drop (Z.to_nat 0) src)) (view s (blkno x)) = src) as ->.
  { change (Z.to_nat 0) with 0%nat. rewrite drop_0, take_ge by lia. unfold TmpFs.copy_in. cbn.
    rewrite drop_ge by lia. by rewrite app_nil_r. }
  by apply (wp_store H W l s a x src).
Qed.

Lemma wp_handler_read H W l s a x off len (Q : Result (list Z) → cache → Prop) :
  inv H W l s → bufs s !! a = Some x → valid x = true → 0 <= off → 0 <= len → blksz s + len < W64 →
  Q (Ok (slice off len (view s (blkno x)))) s → wp (handler_read a off len) s Q.
Proof.
  intros Hi Hx Hv Hoff Hlen Hw HQ. destruct (bytes_of H W l s a x Hi Hx Hv) as [Hm Hsz].
  unfold handler_read. eapply wp_bind, wp_buf; [done|]. apply wp_bind, wp_gets.
  rewrite handle_len_spec by done. unfold slice in HQ. rewrite Hsz in HQ. unfold clamp in HQ |- *.
  destruct (Z.leb_spec (blksz s) off) as [Hle|Hlt]; [by apply wp_ret|].
  pose proof (i_buf _ _ _ _ Hi a x Hx) as Hok. apply wp_bind, (wp_array _ _ (view s (blkno x))); [by rewrite (b_data _ _ _ _ Hok)|].
  apply wp_bind, wp_assert; [apply Z.leb_le; lia|]. by apply wp_ret.
Qed.

Lemma wp_readblk H W l s a x (Q : Result (list Z) → cache → Prop) :
  inv H W l s → bufs s !! a = Some x → valid x = true → Q (Ok (view s (blkno x))) s → wp (readblk a) s Q.
Proof.
  intros Hi Hx Hv HQ. destruct (bytes_of H W l s a x Hi Hx Hv) as [Hm Hsz].
  unfold readblk. eapply wp_bind, wp_buf; [done|]. apply wp_bind, wp_gets.
  pose proof (i_buf _ _ _ _ Hi a x Hx) as Hok. apply wp_bind, (wp_array _ _ (view s (blkno x))); [by rewrite (b_data _ _ _ _ Hok)|].
  apply wp_bind, wp_assert; [apply Z.leb_le; lia|]. apply wp_ret. by rewrite take_ge by lia.
Qed.

(** ** The store that a state shows *)

(** [h] are handles that a thread has, or that a thread that runs is about to have. *)
Record shown (v : store) (h : gmultiset Z) (c : cache) : Prop := {
  s_block b : 0 <= b < D_block_count (disk (bio c)) → v_blocks v !! b = Some (view c b);
  s_name a b : v_names v !! a = Some b → a < next_buf c ∧ ∀ x, bufs c !! a = Some x → blkno x = b;
  s_handle a : a ∈ h → is_Some (v_names v !! a);
  s_lent t j a : jobs c !! t = Some j → a ∈ lent j → is_Some (v_names v !! a);
  s_asked t : v_asked v !! t = jobs c !! t ≫= job_block;
  s_dom b : is_Some (v_blocks v !! b) → 0 <= b < D_block_count (disk (bio c));
}.

Definition sim (v : store) (s : sys) : Prop :=
  (∃ W l, inv (handles s) W l (cst s)) ∧ shown v (handles s) (cst s).

Lemma shown_kept v h c c' : shown v h c → evolves c c' → jobs_kept c c' → shown v h c'.
Proof.
  intros [Hb Hn Hh Hl Ha Hdm] [Hv Hc _ Hnx Hnm] Hj. split; [| |done| | |by rewrite Hc].
  - intros b. rewrite Hc. intros Hbr. by rewrite Hb, Hv.
  - intros a b Hab. destruct (Hn a b Hab) as [Hlt Hx]. split; [lia|]. intros x' Hx'.
    destruct (Hnm a x' Hx' Hlt) as (x & Hx0 & <-). by apply Hx.
  - intros t j a Hjt Hin. specialize (Hj t). rewrite Hjt in Hj. destruct (jobs c !! t) as [j0|] eqn:Hj0; [|done].
    cbn in Hj. injection Hj as _ Hlent. rewrite Hlent in Hin. by eapply Hl.
  - intros t. rewrite Ha. specialize (Hj t).
    destruct (jobs c !! t), (jobs c' !! t); cbn in *; try done. by injection Hj as -> _.
Qed.

Lemma shown_handles v h h' c : shown v h c → (∀ a, a ∈ h' → a ∈ h) → shown v h' c.
Proof. intros [Hb Hn Hh Hl Ha Hdm] Hsub. split; try done. auto. Qed.

(** The job of a thread that runs is gone. *)
Lemma shown_take v h c t j :
  shown v h c → jobs c !! t = Some j → shown (unask t v) (h ⊎ lent j) (set_jobs (delete t) c).
Proof.
  intros [Hb Hn Hh Hl Ha Hdm] Ht. split; try done.
  - intros a [Hin|Hin]%gmultiset_elem_of_disj_union; [by apply Hh|by eapply Hl].
  - intros t' j' a. cbn. intros [_ Hj']%lookup_delete_Some. by apply (Hl t').
  - intros t'. cbn. destruct (decide (t' = t)) as [->|]; [by rewrite !lookup_delete_eq|by rewrite !lookup_delete_ne].
Qed.

(** The thread waits. *)
Lemma shown_wait v h c t j :
  shown v h c → lent_ok j h → jobs c !! t = None →
  shown (match job_block j with Some b => ask t b v | None => v end) (h ∖ lent j) (set_jobs (insert t j) c).
Proof.
  intros [Hb Hn Hh Hl Ha Hdm] Hlent Ht.
  assert (∀ v', v_blocks v' = v_blocks v → v_names v' = v_names v →
    (∀ t', v_asked v' !! t' = <[t := j]> (jobs c) !! t' ≫= job_block) → shown v' (h ∖ lent j) (set_jobs (insert t j) c)) as Hend.
  { intros v' Hvb Hvn Hva. split; [| | | |exact Hva|by rewrite Hvb].
    - intros b. rewrite Hvb. apply Hb.
    - intros a b. rewrite Hvn. apply Hn.
    - intros a Hin. rewrite Hvn. apply Hh. multiset_solver.
    - intros t' j' a. rewrite Hvn. cbn. intros [[<- <-]|[_ Hj']]%lookup_insert_Some Hin; [by apply Hh, Hlent|by apply (Hl t' j')]. }
  destruct (job_block j) as [b|] eqn:Hjb; apply Hend; try done; intros t'.
  - cbn. destruct (decide (t' = t)) as [->|]; [by rewrite !lookup_insert_eq|]. rewrite !lookup_insert_ne by done. apply Ha.
  - destruct (decide (t' = t)) as [->|]; [|rewrite lookup_insert_ne by done; apply Ha].
    rewrite lookup_insert_eq, Ha, Ht. cbn. by rewrite Hjb.
Qed.

(** The thread has a handle. *)
Lemma shown_handle v h c a x :
  shown v h c → bufs c !! a = Some x → a < next_buf c → shown (give_name a (blkno x) v) ({[+ a +]} ⊎ h) c.
Proof.
  intros [Hb Hn Hh Hl Ha Hdm] Hx Hlt.
  assert (∀ d, is_Some (v_names v !! d) ∨ d = a → is_Some (<[a := blkno x]> (v_names v) !! d)) as Hnm.
  { intros d Hd. destruct (decide (d = a)) as [->|]; [rewrite lookup_insert_eq; by eexists|].
    rewrite lookup_insert_ne by done. by destruct Hd. }
  split; try done; cbn [v_names give_name].
  - intros d b [[<- <-]|[_ Hd]]%lookup_insert_Some; [|by apply Hn]. split; [done|]. intros y Hy. congruence.
  - intros d [->%gmultiset_elem_of_singleton|Hin]%gmultiset_elem_of_disj_union; apply Hnm; [by right|left; by apply Hh].
  - intros t j d Hj Hin. apply Hnm. left. by eapply Hl.
Qed.

(** *** A thread runs *)

(** What the store does when a thread that asked for [ob] has got [p]. *)
Definition shows_progress (t : Z) (ob : option Z) (p : progress) (v v' : store) : Prop :=
  match p, ob with
  | Blocked _, Some b => v' = ask t b v
  | Blocked _, None => v' = v
  | GotHandle (Ok a), Some b => may_name a b v ∧ v' = give_name a b v
  | GotHandle (Err _), Some b => v' = v
  | GotVoid _, None => v' = v
  | _, _ => False
  end.

Definition reply_of (p : progress) : reply :=
  match p with Blocked _ => RBlocked | GotHandle r => RHandle r | GotVoid r => RVoid r end.

Lemma may_name_live v h H W l c a x :
  shown v h c → inv H W l c → bufs c !! a = Some x → valid x = true → may_name a (blkno x) v.
Proof.
  intros Hs Hi Hx Hv. pose proof (i_buf _ _ _ _ Hi a x Hx) as Hok. pose proof (b_u64 _ _ _ _ Hok) as Hu.
  unfold is_u64 in Hu. pose proof (b_bound _ _ _ _ Hok Hv). split.
  - rewrite (s_block _ _ _ Hs (blkno x)) by lia. by eexists.
  - destruct (v_names v !! a) as [b|] eqn:Hn; [right|by left]. destruct (s_name _ _ _ Hs a b Hn) as [_ Hb].
    by rewrite (Hb x Hx).
Qed.

Lemma set_handles_none c h had : set_handles (λ h, (h ⊎ had) ∖ ∅) (mkSys c h) = mkSys c (h ⊎ had).
Proof. unfold set_handles. cbn [cst handles]. by rewrite difference_empty. Qed.

Lemma wp_run_thread v h had c t ob m (Q : Result reply → sys → Prop) :
  shown v (h ⊎ had) c → jobs c !! t = None →
  (∀ P : Result progress → cache → Prop, (∀ p c', after t (h ⊎ had) ob c p c' → P (Ok p) c') → wp m c P) →
  (∀ p v' s', shows_progress t ob p v v' → sim v' s' → Q (Ok (reply_of p)) s') →
  wp (run_thread t had m) (mkSys c h) Q.
Proof.
  intros Hs Ht Hm HQ. unfold run_thread. apply wp_bind, wp_zoom, Hm. intros p c' (He & Hj & Hp).
  pose proof (shown_kept _ _ _ _ Hs He Hj) as Hs'. pose proof (jobs_kept_none _ _ t Hj Ht) as Ht'.
  apply wp_bind, wp_modify. destruct p as [j|[a|e]|r]; unfold settle_thread.
  - destruct Hp as (Hinv & Hjb & Hlent). apply wp_bind, wp_zoom, wp_modify, wp_ret.
    apply (HQ (Blocked j) (match ob with Some b => ask t b v | None => v end)); [by destruct ob|].
    split; [exact Hinv|]. rewrite <- Hjb. by apply shown_wait.
  - destruct Hp as ((W & l & Hi) & x & Hx & ->). apply wp_bind, wp_modify, wp_ret.
    destruct (i_live _ _ _ _ Hi a) as (y & Hy & Hv); [multiset_solver|]. rewrite Hx in Hy. injection Hy as <-.
    rewrite set_handles_none. apply (HQ (GotHandle (Ok a)) (give_name a (blkno x) v)).
    + split; [by eapply may_name_live|done].
    + split; [by exists W, l|]. apply shown_handle; [done|done|]. apply (i_buf _ _ _ _ Hi a x Hx).
  - destruct Hp as (Hinv & b & ->). apply wp_bind, wp_ret, wp_ret. rewrite set_handles_none.
    by apply (HQ (GotHandle (Err e)) v).
  - destruct Hp as (Hinv & ->). apply wp_ret. rewrite set_handles_none. by apply (HQ (GotVoid r) v).
Qed.

(** ** Every step is one of the store *)

Definition step_ok (v : store) (s : sys) (ev : event) : Prop :=
  wp (step ev) s (λ r s', ∃ r' v', r = Ok r' ∧ shows ev r' v v' ∧ sim v' s').

Lemma unask_none v t : v_asked v !! t = None → unask t v = v.
Proof. intros Ht. destruct v. unfold unask. cbn in *. by rewrite delete_id. Qed.

Lemma ask_unask v t b : v_asked v !! t = Some b → ask t b (unask t v) = v.
Proof. intros Ht. destruct v. unfold ask, unask. cbn in *. by rewrite insert_delete_id. Qed.

Lemma thread_step_ok v s t ob m ev :
  sim v s → jobs (cst s) !! t = None → step ev = run_thread t ∅ m →
  (∀ P : Result progress → cache → Prop, (∀ p c', after t (handles s) ob (cst s) p c' → P (Ok p) c') → wp m (cst s) P) →
  (∀ p v', shows_progress t ob p v v' → shows ev (reply_of p) v v') → step_ok v s ev.
Proof.
  intros [_ Hs] Ht Hst Hm Hsh. unfold step_ok. rewrite Hst. destruct s as [c h]. cbn in *.
  apply (wp_run_thread v h ∅ c t ob); rewrite ?settle_plain; [done|done|done|].
  intros p v' s' Hp Hs'. eexists _, v'. split; [done|]. split; [by apply Hsh|done].
Qed.

Lemma resume_step_ok v s t room : sim v s → allowed (CResume t room) s → step_ok v s (CResume t room).
Proof.
  intros [(W & l & Hi) Hs] (Hroom & j & Ht & Htidy). unfold step_ok, step. apply wp_bind, wp_gets. rewrite Ht.
  apply wp_bind, wp_zoom, wp_modify. pose proof (s_asked _ _ _ Hs t) as Hask. rewrite Ht in Hask. cbn in Hask.
  apply (wp_run_thread (unask t v) _ _ _ t (job_block j)).
  - by apply shown_take.
  - apply lookup_delete_eq.
  - intros P HP. by apply (wp_resume (handles s) W l).
  - intros p v' s' Hp Hs'. exists (reply_of p), v'. split; [done|]. split; [|done].
    destruct p as [j'|[a|e]|r]; cbn in Hp |- *; destruct (job_block j) as [b|]; try done.
    + subst v'. rewrite ask_unask by done. apply shows_wait.
    + subst v'. rewrite unask_none by done. apply shows_wait.
    + destruct Hp as [Hn ->]. by apply (shows_got t room a b v).
    + subst v'. by eapply shows_got_error.
    + subst v'. rewrite unask_none by done. by apply shows_synced.
Qed.

(** A handle that a thread has is for a block with these bytes. *)
Lemma handle_live v s a :
  sim v s → a ∈ handles s →
  ∃ W l x, inv (handles s) W l (cst s) ∧ bufs (cst s) !! a = Some x ∧ valid x = true ∧
    0 <= blkno x < D_block_count (disk (bio (cst s))) ∧ v_names v !! a = Some (blkno x) ∧
    handle_block a v = Some (blkno x, view (cst s) (blkno x)).
Proof.
  intros [(W & l & Hi) Hs] Ha. destruct (i_live _ _ _ _ Hi a) as (x & Hx & Hv); [multiset_solver|].
  pose proof (i_buf _ _ _ _ Hi a x Hx) as Hok. pose proof (b_bound _ _ _ _ Hok Hv).
  pose proof (b_u64 _ _ _ _ Hok) as Hu. unfold is_u64 in Hu.
  destruct (s_handle _ _ _ Hs a Ha) as [b Hb]. destruct (s_name _ _ _ Hs a b Hb) as [_ Hbx].
  rewrite <- (Hbx x Hx) in Hb. exists W, l, x. split_and!; [done|done|done|lia|lia|done|].
  unfold handle_block. rewrite Hb. cbn. by rewrite (s_block _ _ _ Hs (blkno x)) by lia.
Qed.

(** The bytes of a block change, in the cache and in the store. *)
Lemma sim_written v s W l c' b m :
  sim v s → inv (handles s) W l c' → written (cst s) c' b m → 0 <= b < D_block_count (disk (bio (cst s))) →
  sim (set_block b m v) (mkSys c' (handles s)).
Proof.
  intros [_ [Hb Hn Hh Hl Ha Hdm]] Hi' [Hw Ho Hc Hnx Hnm Hj] Hbr. split; [by exists W, l|]. split; cbn; try done.
  - intros d. rewrite Hc. intros Hd. destruct (decide (d = b)) as [->|Hdb]; [by rewrite lookup_insert_eq, Hw|].
    rewrite lookup_insert_ne by done. by rewrite Hb, Ho.
  - intros d e Hde. destruct (Hn d e Hde) as [Hlt Hx]. split; [by rewrite Hnx|]. intros y' Hy'.
    destruct (Hnm d y' Hy') as (y & Hy & <-). by apply Hx.
  - intros t j d. rewrite Hj. apply Hl.
  - intros t. rewrite Hj. apply Ha.
  - intros d. rewrite Hc. destruct (decide (d = b)) as [->|]; [done|]. rewrite lookup_insert_ne by done. apply Hdm.
Qed.

Lemma write_step_ok v s a off src : sim v s → allowed (CWrite a off src) s → step_ok v s (CWrite a off src).
Proof.
  intros Hs (Ha & Hbz & Hoff & Hlen). destruct (handle_live v s a Hs Ha) as (W & l & x & Hi & Hx & Hv & Hbr & _ & Hhb).
  assert (inflight x = false) as Hfl.
  { destruct (inflight x) eqn:E; [|done]. by apply (b_busy _ _ _ _ (i_buf _ _ _ _ Hi a x Hx)) in E. }
  unfold step_ok, step. apply wp_bind, wp_zoom, (wp_handler_write (handles s) W l _ a x); try done.
  intros c' Hi' Hw. apply wp_ret. eexists _, _. split; [done|]. destruct (bytes_of _ _ _ _ a x Hi Hx Hv) as [_ Hsz].
  rewrite <- Hsz. split; [by eapply shows_write|]. by eapply sim_written.
Qed.

Lemma writeblk_step_ok v s a src : sim v s → allowed (CWriteblk a src) s → step_ok v s (CWriteblk a src).
Proof.
  intros Hs (Ha & Hbz & Hlen). destruct (handle_live v s a Hs Ha) as (W & l & x & Hi & Hx & Hv & Hbr & _ & Hhb).
  assert (inflight x = false) as Hfl.
  { destruct (inflight x) eqn:E; [|done]. by apply (b_busy _ _ _ _ (i_buf _ _ _ _ Hi a x Hx)) in E. }
  unfold step_ok, step. apply wp_bind, wp_zoom, (wp_writeblk (handles s) W l _ a x); try done.
  intros c' Hi' Hw. apply wp_ret. eexists _, _. split; [done|]. destruct (bytes_of _ _ _ _ a x Hi Hx Hv) as [_ Hsz].
  split; [eapply shows_writeblk; [done|lia]|]. by eapply sim_written.
Qed.

Lemma copy_step_ok v s a : sim v s → allowed (CCopy a) s → step_ok v s (CCopy a).
Proof.
  intros Hs Ha. destruct (handle_live v s a Hs Ha) as (W & l & x & Hi & Hx & Hv & _ & Hn & _). destruct Hs as [_ Hs].
  unfold step_ok, step. apply wp_bind, wp_zoom. unfold keep. eapply wp_update_buf; [done|].
  apply wp_bind, wp_modify, wp_ret. exists RDone, v. split; [done|]. split; [apply shows_copy|].
  split; [exists W, l; by apply inv_keep|]. apply (shown_kept _ _ (cst s)); [|by apply (evolves_flags _ _ a x (set_refcnt (λ n, n + 1) x))|by apply jobs_kept_eq].
  apply (shown_handles _ (handles s)); [done|]. intros c Hc. cbn [handles set_handles] in Hc. multiset_solver.
Qed.

Lemma release_step_ok v s a : sim v s → allowed (CRelease a) s → step_ok v s (CRelease a).
Proof.
  intros Hs Ha. destruct (handle_live v s a Hs Ha) as (W & l & x & Hi & Hx & Hv & _ & Hn & _). destruct Hs as [_ Hs].
  cbn in Ha. unfold step_ok, step. apply wp_bind, wp_zoom. unfold release. eapply wp_update_buf; [done|].
  apply wp_bind, wp_modify, wp_ret. exists RDone, v. split; [done|]. split; [apply shows_release|].
  split.
  - exists W, l. rewrite (handle_split _ a Ha) in Hi. by apply (inv_release _ W l _ a x).
  - apply (shown_kept _ _ (cst s)); [|by eapply (evolves_flags _ _ a x)|by apply jobs_kept_eq].
    apply (shown_handles _ (handles s)); [done|]. intros c Hc. cbn [handles set_handles] in Hc. multiset_solver.
Qed.

Lemma device_step_ok v s : sim v s → step_ok v s CWorker.
Proof.
  intros [(W & l & Hi) Hs]. unfold step_ok, step. apply wp_bind, wp_zoom, wp_lift.
  apply (wp_worker W l _ _ (i_rep _ _ _ _ Hi)). intros l' b' Hr Hsv. apply wp_ret. exists RDone, v.
  destruct (inv_served _ _ _ _ _ _ Hi Hr Hsv) as [Hi' He]. split; [done|]. split; [apply shows_worker|].
  split; [by exists W, l'|]. by apply (shown_kept _ _ (cst s)).
Qed.

Lemma drain_step_ok v s e : sim v s → step_ok v s (CDrain e).
Proof.
  intros [(W & l & Hi) Hs]. unfold step_ok, step. apply wp_bind, wp_zoom, wp_lift.
  apply (wp_drain W l _ e _ (i_rep _ _ _ _ Hi)). intros b' Hr Hm Hd Hset. apply wp_ret. exists RDone, v.
  destruct (inv_settled _ _ _ _ _ b' Hi Hr Hm Hd) as [Hi' He].
  { intros f n Hn. by destruct (Hset f _ Hn). }
  split; [done|]. split; [apply shows_drain|]. split; [by exists W, []|]. by apply (shown_kept _ _ (cst s)).
Qed.

Lemma sim_step v s ev : sim v s → allowed ev s → step_ok v s ev.
Proof.
  intros Hs Hal. pose proof Hs as [(W & l & Hi) Hsh]. destruct ev; cbn in Hal.
  - destruct Hal as (Ht & Hu & Hlen & Hring & Hroom). eapply (thread_step_ok v s t (Some b)); try done.
    + intros P HP. by apply (wp_get_buffer (handles s) W l _ t).
    + intros p v' Hp. destruct p as [j|[a|e]|r]; cbn in Hp |- *; try done; [subst; constructor|by destruct Hp as [? ->]; constructor|subst; constructor].
  - destruct Hal as (Ht & Hring & Ha). eapply (thread_step_ok v s t None); try done.
    + intros P HP. by apply (wp_sync (handles s) W l _ t).
    + intros p v' Hp. destruct p as [j|[?|e]|r]; cbn in Hp |- *; try done; subst; constructor.
  - destruct Hal as (Ht & Hring). eapply (thread_step_ok v s t None); try done.
    + intros P HP. by apply wp_bind, wp_gets, (wp_sync_slots (handles s) W l _ t).
    + intros p v' Hp. destruct p as [j|[?|e]|r]; cbn in Hp |- *; try done; subst; constructor.
  - destruct Hal as (Ht & Hring). eapply (thread_step_ok v s t None); try done.
    + intros P HP. by apply wp_bind, wp_gets, (wp_sync_slots (handles s) W l _ t).
    + intros p v' Hp. destruct p as [j|[?|e]|r]; cbn in Hp |- *; try done; subst; constructor.
  - by apply resume_step_ok.
  - by apply device_step_ok.
  - by apply drain_step_ok.
  - by apply write_step_ok.
  - destruct Hal as (Ha & Hoff & Hlen & Hw). destruct (handle_live v s a Hs Ha) as (W' & l' & x & Hi' & Hx & Hv & _ & _ & Hhb).
    apply wp_bind, wp_zoom, (wp_handler_read (handles s) W' l' _ a x); try done. apply wp_ret. destruct s.
    eexists _, v. split; [done|]. split; [by eapply shows_read|done].
  - by apply writeblk_step_ok.
  - destruct (handle_live v s a Hs Hal) as (W' & l' & x & Hi' & Hx & Hv & _ & _ & Hhb).
    apply wp_bind, wp_zoom, (wp_readblk (handles s) W' l' _ a x); try done. apply wp_ret. destruct s.
    eexists _, v. split; [done|]. split; [by eapply shows_readblk|done].
  - by apply copy_step_ok.
  - by apply release_step_ok.
Qed.

(** ** Executions *)

Lemma start_sim d devno : disk_ok d → sim (disk_store d) (start_sys d devno).
Proof.
  intros Hd. split.
  - exists ∅, []. split; cbn; try done.
    + by apply start_rep.
    + intros i a [Hs _]%lookup_replicate. done.
    + intros a Hin. exfalso. revert Hin. change (a ∈ (∅ ⊎ job_refs ∅ : gmultiset Z) → False).
      unfold job_refs. rewrite map_fold_empty. multiset_solver.
  - split; cbn; try done.
    + intros b Hb. by apply disk_store_block.
    + multiset_solver.
    + intros b [l Hl]. apply elem_of_list_to_map_2, list_elem_of_fmap in Hl as (c & [= -> _] & Hc).
      apply elem_of_seqZ in Hc. lia.
Qed.

Lemma exec_sim d devno tr s :
  disk_ok d → exec (start_sys d devno) tr s → ∃ v, BlockCacheStore.behaves (disk_store d) tr v ∧ sim v s.
Proof.
  intros Hd He. remember (start_sys d devno) as s0 eqn:Hs0. induction He as [s|s tr s1 ev r s2 He IH Hal Hst]; subst.
  - exists (disk_store d). split; [constructor|by apply start_sim].
  - destruct (IH eq_refl) as (v & Hb & Hs). pose proof (sim_step v s1 ev Hs Hal) as Hok.
    apply (wp_fin _ _ _ _ _ Hok) in Hst as (r' & v' & [= <-] & Hsh & Hs'). exists v'. split; [|done]. by econstructor.
Qed.

(** ** The property *)

(** The buffers of block [b] have no unwritten bytes. *)
Definition clean (c : cache) (b : Z) : Prop := ∀ a x, bufs c !! a = Some x → blkno x = b → dirty x = false.

(** C9: the cache of a disk, when its routines do not interrupt each other.  A routine of the
    cache takes no lock, so a step here is a whole stretch of a routine up to its end or to
    its next wait for the device; nothing is said of executions in which a thread is
    preempted inside such a stretch by another one that uses the cache.  In every sequence of
    such steps in which threads do what is [allowed] (a thread asks for one thing at a time
    and only while the ring of the device has room; a block that is not cached is asked for,
    or buffers are tidied, only when what is freed for it has no unwritten bytes and no
    waiting thread; a buffer is not written during its write back; a failed allocation is
    the null pointer the code tests for), with the worker and with
    the device stopped at any point between steps, no step panics (no freed buffer is used,
    no reference is lost, every copy is in bounds) or fails, and what threads are told is
    what a store of blocks tells them that begins as the disk:
    a handle stays for one block, reading gives the bytes last written through any handle to
    that block, a thread gets a handle for the block it asked for, and reading ahead, eviction,
    write back, errors of the device and its stop change nothing.  A block without unwritten
    bytes in the cache is on the disk as the store has it. *)
Theorem cache_is_a_store d devno tr s :
  disk_ok d → exec (start_sys d devno) tr s →
  (∃ v, BlockCacheStore.behaves (disk_store d) tr v ∧
    ∀ b l, v_blocks v !! b = Some l → clean (cst s) b → block (disk (bio (cst s))) b = l) ∧
  (∀ ev, allowed ev s → ∃ r s', step ev s = Fin (Ok r) s').
Proof.
  intros Hd He. destruct (exec_sim d devno tr s Hd He) as (v & Hb & Hs). split.
  - exists v. split; [done|]. intros b l Hl Hcl. destruct Hs as [(W & k & Hi) Hs].
    assert (0 <= b < D_block_count (disk (bio (cst s)))) as Hbr by (apply (s_dom _ _ _ Hs); by eexists).
    rewrite (s_block _ _ _ Hs b Hbr) in Hl. injection Hl as <-.
    destruct (view_cases _ W k _ b Hi) as [(a & x & m & Hx & Hxb & Hv & Hm & ->)|[_ ->]]; [|done].
    rewrite (b_clean _ _ _ _ (i_buf _ _ _ _ Hi a x Hx) Hv (Hcl a x Hx Hxb)) in Hm. injection Hm as <-. by rewrite Hxb.
  - intros ev Hal. pose proof (sim_step v s ev Hs Hal) as Hok.
    apply wp_fin_iff in Hok as (r & s' & Hst & r' & v' & -> & _). by exists r', s'.
Qed.

End BlockCacheStore.

(** ** A cache of a disk of two blocks, and what the conditions are for *)

Module BlockCacheWitness.
Import BlockQueue BlockQueueSpec BlockService BlockCache BlockCacheRun BlockCacheStore.

Definition disk2 : RamDiskDevice := mkDisk 2 2 [1; 2; 3; 4].

Fixpoint run (evs : list event) (tr : list (event * reply)) (s : sys) : option (list (event * reply) * sys) :=
  match evs with
  | [] => Some (tr, s)
  | ev :: evs => match step ev s with Fin (Ok r) s' => run evs (tr ++ [(ev, r)]) s' | _ => None end
  end.

(** The same disk with a cache of [n] slots. *)
Definition small_sys (n : nat) : sys :=
  mkSys (mkCache (start ∅ disk2 5) 2 ∅ (replicate n None) ∅ (mkInfo 0 0 0) 0 ∅) ∅.

Definition replies (o : option (list (event * reply) * sys)) : option (list reply * list Z) :=
  '(tr, s) ← o; Some (tr.*2, D_base (disk (bio (cst s)))).

(** Two threads read block 1, one writes it and syncs it, the other reads what is written. *)
Definition script : list event :=
  [CGet 1 true true [9; 9] 1; CGet 2 true true [9; 9] 1; CWorker; CWorker; CResume 1 true; CResume 2 true;
   CRead 0 0 2; CWrite 0 1 [7]; CSync 1 true 0; CWorker; CWorker; CResume 1 true; CWorker; CWorker; CResume 1 true;
   CRead 0 0 8; CRelease 0; CTidy 2 true; CResume 2 true].

Example script_replies :
  replies (run script [] (start_sys disk2 5)) =
  Some ([RBlocked; RBlocked; RDone; RDone; RHandle (Ok 0); RHandle (Ok 0); RBytes [3; 4]; RSize 1; RBlocked;
         RDone; RDone; RBlocked; RDone; RDone; RVoid (Ok tt); RBytes [3; 7]; RDone; RBlocked; RVoid (Ok tt)],
        [1; 2; 3; 7]).
Proof. vm_compute. reflexivity. Qed.

Fixpoint run_allowed (evs : list event) (s : sys) : Prop :=
  match evs with
  | [] => True
  | ev :: evs => allowed ev s ∧ match step ev s with Fin (Ok r) s' => run_allowed evs s' | _ => False end
  end.

Lemma run_exec evs : ∀ tr s s0, exec s0 tr s → run_allowed evs s →
  ∃ tr' s', run evs tr s = Some (tr', s') ∧ exec s0 tr' s'.
Proof.
  induction evs as [|ev evs IH]; intros tr s s0 He; cbn; [intros _; by exists tr, s|].
  intros [Hal Hrun]. destruct (step ev s) as [[r|e] s1| |] eqn:Hs; try done.
  apply IH; [|done]. by eapply exec_snoc.
Qed.

Lemma run_allowed_cons ev evs s r s' :
  allowed ev s → step ev s = Fin (Ok r) s' → run_allowed evs s' → run_allowed (ev :: evs) s.
Proof. intros Hal Hs Hr. cbn. by rewrite Hs. Qed.

Lemma disk2_ok : disk_ok disk2.
Proof. by split_and!. Qed.

(** One event of a script whose state is known. *)
Ltac next_event :=
  eapply run_allowed_cons;
  [ vm_compute; repeat first [(intros (? & ? & [=] & _)) | done | split | (left; eexists; reflexivity) | (right; left; constructor) | eexists]
  | vm_compute; reflexivity | ].

Lemma script_exec :
  ∃ tr s, run (take 17 script) [] (start_sys disk2 5) = Some (tr, s) ∧ exec (start_sys disk2 5) tr s.
Proof.
  apply (run_exec (take 17 script) [] _ _ (exec_nil _)). unfold script. cbn [take firstn].
  do 17 next_event. exact I.
Qed.

Lemma cache_is_a_store_witness :
  ∃ tr s, run (take 17 script) [] (start_sys disk2 5) = Some (tr, s) ∧
    (∃ v, BlockCacheStore.behaves (disk_store disk2) tr v ∧
      ∀ b l, v_blocks v !! b = Some l → clean (cst s) b → block (disk (bio (cst s))) b = l) ∧
    (∀ ev, allowed ev s → ∃ r s', step ev s = Fin (Ok r) s').
Proof.
  destruct script_exec as (tr & s & Hrun & He). exists tr, s. split; [exact Hrun|].
  exact (cache_is_a_store disk2 5 tr s disk2_ok He).
Defined.

(** *** Without the conditions *)

(** A thread writes a buffer while its write back is under way: the buffer is clean
    afterwards, and the bytes are gone when it is evicted. *)
Theorem write_during_sync_is_lost :
  replies (run
    [CGet 1 true true [9; 9] 1; CWorker; CWorker; CResume 1 true; CWrite 0 0 [7; 7]; CSync 1 true 0;
     CWorker; CWorker; CWrite 0 0 [8; 8]; CResume 1 true; CWorker; CWorker; CResume 1 true; CReadblk 0;
     CSync 1 true 0; CRelease 0; CTidy 1 true; CResume 1 true;
     CGet 1 true true [9; 9] 1; CWorker; CWorker; CResume 1 true; CReadblk 1] [] (small_sys 1)) =
  Some ([RBlocked; RDone; RDone; RHandle (Ok 0); RSize 2; RBlocked;
         RDone; RDone; RSize 2; RBlocked; RDone; RDone; RVoid (Ok tt); RBytes [8; 8];
         RVoid (Ok tt); RDone; RBlocked; RVoid (Ok tt);
         RBlocked; RDone; RDone; RHandle (Ok 1); RBytes [7; 7]], [1; 2; 7; 7]).
Proof. vm_compute. reflexivity. Qed.

(** A full cache gives the slot of a buffer with unwritten bytes to another block. *)
Theorem dirty_buffer_is_evicted :
  replies (run
    [CGet 1 true true [9; 9] 1; CWorker; CWorker; CResume 1 true; CWrite 0 0 [7; 7]; CRelease 0;
     CGet 1 true true [9; 9] 0; CWorker; CWorker; CResume 1 true; CRelease 1;
     CGet 1 true true [9; 9] 1; CWorker; CWorker; CResume 1 true; CReadblk 2] [] (small_sys 1)) =
  Some ([RBlocked; RDone; RDone; RHandle (Ok 0); RSize 2; RDone;
         RBlocked; RDone; RDone; RHandle (Ok 1); RDone;
         RBlocked; RDone; RDone; RHandle (Ok 2); RBytes [3; 4]], [1; 2; 3; 4]).
Proof. vm_compute. reflexivity. Qed.

(** [tidy] frees a buffer that was written while it waited for the device. *)
Theorem tidy_drops_writes :
  replies (run
    [CGet 1 true true [9; 9] 0; CWorker; CWorker; CResume 1 true; CGet 2 true true [9; 9] 1; CWorker; CWorker; CResume 2 true;
     CWrite 1 0 [7; 7]; CRelease 1; CTidy 3 true; CWrite 0 0 [8; 8]; CRelease 0;
     CWorker; CWorker; CResume 3 true; CWorker; CWorker; CResume 3 true; CResume 3 true;
     CGet 1 true true [9; 9] 0; CWorker; CWorker; CResume 1 true; CReadblk 2] [] (small_sys 2)) =
  Some ([RBlocked; RDone; RDone; RHandle (Ok 0); RBlocked; RDone; RDone; RHandle (Ok 1);
         RSize 2; RDone; RBlocked; RSize 2; RDone;
         RDone; RDone; RBlocked; RDone; RDone; RBlocked; RVoid (Ok tt);
         RBlocked; RDone; RDone; RHandle (Ok 2); RBytes [1; 2]], [1; 2; 7; 7]).
Proof. vm_compute. reflexivity. Qed.

(** The thread that waits for the read of another has no reference: when that read has
    failed, or its handle is gone, another thread may evict the buffer before it runs. *)
Theorem waiter_uses_freed_buffer :
  ∃ tr s, run
    [CGet 1 true true [9; 9] 1; CGet 2 true true [9; 9] 1; CWorker; CWorker; CResume 1 true; CRelease 0;
     CGet 3 true true [9; 9] 0] [] (small_sys 1) = Some (tr, s) ∧ step (CResume 2 true) s = Panic.
Proof. eexists _, _. split; [vm_compute; reflexivity|vm_compute; reflexivity]. Qed.

(** [sync] does not wake the threads that wait in [get_buffer_async] for the end of the
    write back: nothing is under way any more, and the thread still sleeps. *)
Theorem sync_strands_waiter :
  ∃ tr s, run
    [CGet 1 true true [9; 9] 1; CWorker; CWorker; CResume 1 true; CWrite 0 0 [7; 7]; CSync 1 true 0;
     CGet 2 true true [9; 9] 1; CWorker; CWorker; CResume 1 true; CWorker; CWorker; CResume 1 true; CWorker;
     CResume 2 true] [] (small_sys 1) = Some (tr, s) ∧
    jobs (cst s) = {[ 2 := JWait false 1 0 ]} ∧ (inflight <$> bufs (cst s) !! 0) = Some false ∧
    reqs (bio (cst s)) = ∅ ∧ worker (bio (cst s)) = Checking.
Proof. eexists _, _. split; [vm_compute; reflexivity|]. by vm_compute. Qed.

(** [offset + len] wraps: the length is not clamped and the copy leaves the block. *)
Theorem read_length_wraps :
  ∃ tr s, run [CGet 1 true true [9; 9] 1; CWorker; CWorker; CResume 1 true] [] (small_sys 1) = Some (tr, s) ∧
    step (CRead 0 1 (W64 - 1)) s = Panic.
Proof. eexists _, _. split; [vm_compute; reflexivity|vm_compute; reflexivity]. Qed.

End BlockCacheWitness.
