(* ===== verification/Notif.v ===== *)
(** * Notifications and mutexes

    kernel/object/notif.cpp: a bitmap of signals with a queue of promises per
    signal, and kernel/object/mutex.cpp.  A capability carries two permission bits
    per signal (kernel/object/perm.h). *)
From S2P Require Import Prelude ErrCode Capability Sched Wait Future.
Import Future.

#[local] Open Scope Z_scope.

Module Notif.

Definition NOTIF_SIGNAL : Z := 1.
Definition NOTIF_QUERY : Z := 2.
Definition NOTIF_BITS : Z := 2.
Definition STARTBITS : Z := 16.
Definition MASK : Z := 3.
Definition MAX_SIGNALS : Z := (64 - STARTBITS) / NOTIF_BITS.
Definition bitoffset (idx : Z) : Z := STARTBITS + idx * NOTIF_BITS.
Definition notif_perm (permbits idx : Z) : Z := Z.land (Z.shiftr permbits (bitoffset idx)) MASK.

Definition check_idx (idx : Z) : Result unit := if MAX_SIGNALS <=? idx then Err OUT_OF_BOUNDARY else Ok tt.
Definition check_signal_perm (perms idx : Z) : Result unit :=
  if Z.land (notif_perm perms idx) NOTIF_SIGNAL =? 0 then Err INSUFFICIENT_PERMISSIONS else Ok tt.
Definition check_query_perm (perms idx : Z) : Result unit :=
  if Z.land (notif_perm perms idx) NOTIF_QUERY =? 0 then Err INSUFFICIENT_PERMISSIONS else Ok tt.

Section notif.
Context {CB W : Type} `{Waker W}.

(** [waiters] holds the promises that wait for each signal. *)
Record notif := mkNotif { signalbits : Z; waiters : gmap Z (list Z); futs : fut CB W }.
Definition set_bits f s := mkNotif (f (signalbits s)) (waiters s) (futs s).
Definition set_waiters f s := mkNotif (signalbits s) (f (waiters s)) (futs s).
Definition set_futs x s := mkNotif (signalbits s) (waiters s) x.
Definition waiting s (idx : Z) : list Z := default [] (waiters s !! idx).

Definition on_futs {A} (m : M (fut CB W) A) : M notif A := λ s,
  match m (futs s) with
  | Fin r g => Fin r (set_futs g s) | Panic => Panic | OutOfFuel => OutOfFuel
  end.

(** The loop of [resolve_waiters]: the first error is kept. *)
Fixpoint resolve_loop (l : list Z) (v : Z) (err : option ErrCode) : M notif (option ErrCode) :=
  match l with
  | [] => mret err
  | p :: l =>
      r ← attempt (on_futs (set_value p (Some v)));
      resolve_loop l v (match r, err with Err e, None => Some e | _, _ => err end)
  end.
(** [waiters.clear()] destroys the promises. *)
Fixpoint destroy_promises (l : list Z) : M notif unit :=
  match l with [] => mret tt | p :: l => _ ← on_futs (release p); destroy_promises l end.
Definition resolve_waiters (idx v : Z) : M notif unit :=
  l ← gets (λ s, waiting s idx);
  err ← resolve_loop l v None;
  _ ← destroy_promises l;
  _ ← modify (set_waiters <[idx := []]>);
  match err with Some e => fail e | None => mret tt end.

(** A signal is one of the lower 24 bits of a [b32]. *)
Definition bit_on (idx : Z) (b : Z) : Z := Z.lor b (Z.shiftl 1 idx).
Definition bit_off (idx : Z) (b : Z) : Z := Z.ldiff b (Z.shiftl 1 idx).
Definition bit_test (idx : Z) (b : Z) : bool := negb (Z.land b (Z.shiftl 1 idx) =? 0).

Definition signal (perms idx : Z) : M notif bool :=
  _ ← of_result (check_idx idx);
  _ ← of_result (check_signal_perm perms idx);
  _ ← modify (set_bits (bit_on idx));
  _ ← resolve_waiters idx 1;
  mret true.
Definition unsignal (perms idx : Z) : M notif bool :=
  _ ← of_result (check_idx idx);
  _ ← of_result (check_signal_perm perms idx);
  _ ← modify (set_bits (bit_off idx));
  mret false.
Definition set (perms idx : Z) (state : bool) : M notif bool :=
  _ ← of_result (check_idx idx);
  _ ← of_result (check_signal_perm perms idx);
  if state then
    _ ← modify (set_bits (bit_on idx));
    _ ← resolve_waiters idx 1;
    mret state
  else _ ← modify (set_bits (bit_off idx)); mret state.
Definition query (perms idx : Z) : M notif bool :=
  _ ← of_result (check_idx idx);
  _ ← of_result (check_query_perm perms idx);
  b ← gets signalbits;
  mret (bit_test idx b).
(** The future returned. *)
Definition wait (perms idx : Z) : M notif Z :=
  _ ← of_result (check_idx idx);
  _ ← of_result (check_query_perm perms idx);
  b ← gets signalbits;
  if bit_test idx b then
    p ← on_futs (new_promise true);
    f ← on_futs (future_of p);
    r ← attempt (on_futs (set_value p (Some 1)));
    match r with
    | Err e => _ ← on_futs (release f); _ ← on_futs (release p); fail e
    | Ok _ => _ ← on_futs (release p); mret f
    end
  else
    p ← on_futs (new_promise true);
    f ← on_futs (future_of p);
    l ← gets (λ s, waiting s idx);
    _ ← modify (set_waiters <[idx := push_back p l]>);
    mret f.
End notif.
Arguments notif : clear implicits.
Section spec.
Context {CB W : Type} `{Waker W}.
Implicit Types (s : notif CB W) (h : gmap Z (AsyncState CB)) (g : fut CB W) (a : AsyncState CB).

(** Every future of the object that is pending waits for a signal that is off; a
    promise in a queue is pending, or its future was cancelled. *)
Record notif_inv (c : nat) s : Prop := {
  ni_fut : fut_inv c (futs s);
  ni_bits : 0 <= signalbits s;
  ni_wait : ∀ i p, p ∈ waiting s i →
    0 <= i < MAX_SIGNALS ∧ ∃ a, asyncs (futs s) !! p = Some a ∧ (fstate a = PENDING ∨ fstate a = CANCLED);
  ni_nodup : ∀ i, NoDup (waiting s i);
  ni_disj : ∀ i j p, p ∈ waiting s i → p ∈ waiting s j → i = j;
  ni_off : ∀ i, Z.testbit (signalbits s) i = true → waiting s i = [];
  ni_src : ∀ p a, asyncs (futs s) !! p = Some a → fstate a = PENDING → cancel_callback a = None ∧ ∃ i, p ∈ waiting s i
}.

Lemma notif_futs_run {A} (m : M (fut CB W) A) s r g : m (futs s) = Fin r g → on_futs m s = Fin r (set_futs g s).
Proof. unfold on_futs. by intros ->. Qed.

(** *** Bits *)

Lemma bit_test_spec i b : 0 <= i → bit_test i b = Z.testbit b i.
Proof.
  intros Hi. unfold bit_test. rewrite Z.shiftl_1_l.
  destruct (Z.testbit b i) eqn:E.
  - apply negb_true_iff, Z.eqb_neq. intros H0. apply (f_equal (λ z, Z.testbit z i)) in H0.
    rewrite Z.land_spec, E, Z.pow2_bits_true, Z.bits_0 in H0 by done. done.
  - apply negb_false_iff, Z.eqb_eq. apply Z.bits_inj'. intros n Hn. rewrite Z.land_spec, Z.bits_0, Z.pow2_bits_eqb by done.
    destruct (Z.eqb_spec i n) as [->|]; [by rewrite E|apply andb_false_r].
Qed.
Lemma bit_on_spec i b j : 0 <= i → 0 <= j → Z.testbit (bit_on i b) j = (i =? j) || Z.testbit b j.
Proof. intros Hi Hj. unfold bit_on. rewrite Z.lor_spec, Z.shiftl_1_l, Z.pow2_bits_eqb by done. apply orb_comm. Qed.
Lemma bit_off_spec i b j : 0 <= i → 0 <= j → Z.testbit (bit_off i b) j = negb (i =? j) && Z.testbit b j.
Proof. intros Hi Hj. unfold bit_off. rewrite Z.ldiff_spec, Z.shiftl_1_l, Z.pow2_bits_eqb by done. apply andb_comm. Qed.
Lemma bit_on_nonneg i b : 0 <= i → 0 <= b → 0 <= bit_on i b.
Proof. intros Hi Hb. unfold bit_on. apply Z.lor_nonneg. split; [done|]. by apply Z.shiftl_nonneg. Qed.
Lemma bit_off_nonneg i b : 0 <= b → 0 <= bit_off i b.
Proof. intros Hb. unfold bit_off. apply Z.ldiff_nonneg. by left. Qed.

(** *** Resolving a queue *)

Definition resolve1 (v : Z) a : AsyncState CB :=
  if bool_decide (fstate a = PENDING) then set_fstate COMPLETE (set_fvalue (Some v) a) else a.

(** Is the future of some promise of [l] settled already, that is, cancelled? *)
Definition some_settled h (l : list Z) : bool :=
  existsb (λ p, match h !! p with Some a => negb (bool_decide (fstate a = PENDING)) | None => false end) l.

Lemma set_value_any c g p a v :
  fut_inv c g → asyncs g !! p = Some a →
  ∃ g', set_value p (Some v) g = Fin (if bool_decide (fstate a = PENDING) then Ok tt else Err BUSY) g' ∧
    touched c g g' p (Some (resolve1 v a)).
Proof.
  intros Hi Ha. unfold resolve1. case_bool_decide as E.
  - exact (set_value_run c g p a (Some v) Hi Ha E).
  - pose proof (settle_run c g p a (λ a, set_fstate COMPLETE (set_fvalue (Some v) a)) Hi Ha eq_refl eq_refl) as Hs.
    rewrite bool_decide_eq_false_2 in Hs by done. exists g. split; [exact Hs|]. by split.
Qed.

(** Each of the futures [l] is changed by [F]. *)
Definition mapped (l : list Z) (F : AsyncState CB → option (AsyncState CB)) h (h' : gmap Z (AsyncState CB)) : Prop :=
  ∀ p, h' !! p = if bool_decide (p ∈ l) then h !! p ≫= F else h !! p.
Lemma mapped_cons p l F h h1 h2 a :
  p ∉ l → h !! p = Some a → h1 !! p = F a → (∀ x, x ≠ p → h1 !! x = h !! x) → mapped l F h1 h2 → mapped (p :: l) F h h2.
Proof.
  intros Hp Ha H1 Hoff Hm x. rewrite Hm. destruct (decide (x = p)) as [->|Hne].
  - by rewrite bool_decide_eq_false_2, bool_decide_eq_true_2, Ha by (done || left).
  - rewrite Hoff by done. case_bool_decide as E1; case_bool_decide as E2; try done; set_solver.
Qed.
Lemma mapped_compose l F G h h1 h2 : mapped l F h h1 → mapped l G h1 h2 → mapped l (λ a, F a ≫= G) h h2.
Proof. intros H1 H2 p. rewrite H2, H1. case_bool_decide; [|done]. by destruct (h !! p). Qed.

Lemma some_settled_off h h' l : (∀ p, p ∈ l → h' !! p = h !! p) → some_settled h' l = some_settled h l.
Proof.
  intros Hl. unfold some_settled. induction l as [|p l IH]; [done|]. cbn [existsb]. rewrite (Hl p) by left. f_equal.
  apply IH. intros x Hx. apply Hl. by right.
Qed.

Lemma resolve_loop_run c v l : ∀ s e,
  fut_inv c (futs s) → NoDup l → (∀ p, p ∈ l → is_Some (asyncs (futs s) !! p)) →
  ∃ g, resolve_loop l v e s = Fin (Ok (match e with Some _ => e | None => if some_settled (asyncs (futs s)) l then Some BUSY else None end)) (set_futs g s) ∧
    fut_inv c g ∧ mapped l (λ a, Some (resolve1 v a)) (asyncs (futs s)) (asyncs g).
Proof.
  induction l as [|p l IH]; intros s e Hi Hn Hl.
  { exists (futs s). split_and!; [|done|by intros p]. by destruct e, s. }
  apply NoDup_cons in Hn as [Hp Hn]. destruct (Hl p) as [a Ha]; [left|].
  destruct (set_value_any c (futs s) p a v Hi Ha) as (g1 & E1 & [I1 A1 O1 _]).
  destruct (IH (set_futs g1 s) (match (if bool_decide (fstate a = PENDING) then Ok tt else Err BUSY), e with Err e, None => Some e | _, _ => e end) I1 Hn)
    as (g & E & I & Hm).
  { intros x Hx. cbn [set_futs futs]. rewrite O1 by congruence. apply Hl. by right. }
  exists g. split; [|split; [done|by apply (mapped_cons p l _ _ (asyncs g1) _ a)]].
  cbn [resolve_loop]. erewrite bind_run by (unfold attempt; erewrite notif_futs_run by exact E1; reflexivity).
  etrans; [exact E|]. cbn [set_futs futs]. rewrite (some_settled_off (asyncs (futs s))) by (intros x Hx; apply O1; congruence).
  unfold some_settled. cbn [existsb]. rewrite Ha. by destruct e; case_bool_decide.
Qed.
Lemma destroy_promises_run c l : ∀ s,
  fut_inv c (futs s) → NoDup l → (∀ p, p ∈ l → is_Some (asyncs (futs s) !! p)) →
  ∃ g, destroy_promises l s = Fin (Ok tt) (set_futs g s) ∧ fut_inv c g ∧ mapped l left_over (asyncs (futs s)) (asyncs g).
Proof.
  induction l as [|p l IH]; intros s Hi Hn Hl.
  { exists (futs s). split_and!; [by destruct s|done|by intros p]. }
  apply NoDup_cons in Hn as [Hp Hn]. destruct (Hl p) as [a Ha]; [left|].
  destruct (release_touched c (futs s) p a Hi Ha) as (g1 & E1 & [I1 A1 O1 _]).
  destruct (IH (set_futs g1 s) I1 Hn) as (g & E & I & Hm).
  { intros x Hx. cbn [set_futs futs]. rewrite O1 by congruence. apply Hl. by right. }
  exists g. split; [|split; [done|by apply (mapped_cons p l _ _ (asyncs g1) _ a)]].
  cbn [destroy_promises]. by erewrite bind_run by (apply notif_futs_run; exact E1).
Qed.

Definition resolved l h h' : Prop := mapped l (λ a, left_over (resolve1 1 a)) h h'.

Lemma resolve_waiters_run c s idx :
  fut_inv c (futs s) → NoDup (waiting s idx) → (∀ p, p ∈ waiting s idx → is_Some (asyncs (futs s) !! p)) →
  ∃ g, resolve_waiters idx 1 s =
      Fin (if some_settled (asyncs (futs s)) (waiting s idx) then Err BUSY else Ok tt) (mkNotif (signalbits s) (<[idx := []]> (waiters s)) g) ∧
    fut_inv c g ∧ resolved (waiting s idx) (asyncs (futs s)) (asyncs g).
Proof.
  intros Hi Hn Hl. destruct (resolve_loop_run c 1 _ s None Hi Hn Hl) as (g1 & E1 & I1 & M1).
  destruct (destroy_promises_run c (waiting s idx) (set_futs g1 s) I1 Hn) as (g2 & E2 & I2 & M2).
  { intros p Hp. cbn [set_futs futs]. rewrite M1, bool_decide_eq_true_2 by done. destruct (Hl p Hp) as [a ->]. by eexists. }
  exists g2. split.
  - unfold resolve_waiters. erewrite bind_run by reflexivity. erewrite bind_run by exact E1.
    erewrite bind_run by exact E2. erewrite bind_run by reflexivity. by destruct (some_settled _ _).
  - split; [done|]. exact (mapped_compose _ (λ a, Some (resolve1 1 a)) left_over _ (asyncs g1) _ M1 M2).
Qed.

(** *** [signal] *)

Lemma waiting_insert s i j l : default [] (<[i := l]> (waiters s) !! j) = if decide (i = j) then l else waiting s j.
Proof. rewrite lookup_insert. by case_decide. Qed.

Lemma resolve1_state v a : fstate (resolve1 v a) ≠ PENDING.
Proof. unfold resolve1. by case_bool_decide. Qed.

Lemma signal_inv c s i g :
  notif_inv c s → 0 <= i < MAX_SIGNALS → fut_inv c g → resolved (waiting s i) (asyncs (futs s)) (asyncs g) →
  notif_inv c (mkNotif (bit_on i (signalbits s)) (<[i := []]> (waiters s)) g).
Proof.
  intros [N1 N2 N3 N4 N5 N6 N7] Hi Hg Hm.
  assert (Hw : ∀ j, waiting (mkNotif (bit_on i (signalbits s)) (<[i := []]> (waiters s)) g) j = if decide (i = j) then [] else waiting s j).
  { intros j. unfold waiting at 1. simpl. apply waiting_insert. }
  split; cbn [futs signalbits]; try done.
  - apply bit_on_nonneg; [lia|done].
  - intros j p. rewrite Hw. case_decide as E; [by intros ?%elem_of_nil|]. intros Hp. destruct (N3 j p Hp) as (Hj & a & Ha & Hs).
    split; [done|]. exists a. split; [|done]. rewrite Hm, bool_decide_eq_false_2; [done|]. intros Hp'. by destruct (N5 i j p Hp' Hp).
  - intros j. rewrite Hw. case_decide; [constructor|apply N4].
  - intros j k p. rewrite !Hw. case_decide; [by intros ?%elem_of_nil|]. case_decide; [by intros _ ?%elem_of_nil|]. apply N5.
  - intros j Hj. rewrite Hw. case_decide as E; [done|]. destruct (Z.ltb_spec j 0) as [Hneg|Hpos]; [by rewrite Z.testbit_neg_r in Hj|].
    rewrite bit_on_spec in Hj by lia. rewrite (proj2 (Z.eqb_neq i j)) in Hj by done. by apply N6.
  - intros p a Ha Hs. rewrite Hm in Ha. case_bool_decide as E.
    + destruct (asyncs (futs s) !! p) as [b|]; [|done]. simpl in Ha. apply left_over_state in Ha as [Hf _].
      by destruct (resolve1_state 1 b); rewrite <- Hf.
    + destruct (N7 p a Ha Hs) as [Hcb (j & Hj)]. split; [done|]. exists j. rewrite Hw. case_decide as E'; [by subst j|done].
Qed.

Lemma signal_run c s perms i :
  notif_inv c s → 0 <= i → check_idx i = Ok tt → check_signal_perm perms i = Ok tt →
  ∃ g, let s' := mkNotif (bit_on i (signalbits s)) (<[i := []]> (waiters s)) g in
    signal perms i s = Fin (if some_settled (asyncs (futs s)) (waiting s i) then Err BUSY else Ok true) s' ∧
    set perms i true s = signal perms i s ∧
    notif_inv c s' ∧ resolved (waiting s i) (asyncs (futs s)) (asyncs g).
Proof.
  intros Hn Hi Hc Hp.
  assert (Hlt : 0 <= i < MAX_SIGNALS) by (unfold check_idx in Hc; destruct (Z.leb_spec MAX_SIGNALS i); [done|lia]).
  destruct (resolve_waiters_run c (set_bits (bit_on i) s) i (ni_fut _ _ Hn) (ni_nodup _ _ Hn i)) as (g & E & Hg & Hm).
  { intros p Hin. destruct (ni_wait _ _ Hn i p Hin) as (_ & a & Ha & _). by exists a. }
  exists g. cbv zeta. split; [|split; [|split; [by apply signal_inv|done]]].
  - unfold signal. rewrite Hc, Hp. do 3 erewrite bind_run by reflexivity.
    change (waiting (set_bits (bit_on i) s) i) with (waiting s i) in E. unfold mbind, M_bind. rewrite E. by destruct (some_settled _ _).
  - unfold signal, set. by rewrite Hc, Hp.
Qed.

(** Signalling wakes everyone who waits.  [signal] sets its bit, completes every
    pending future of the signal with [true], and changes no other future; it answers
    [true], except when a waiter had cancelled its future before: then it has the
    same effect and reports [BUSY]. *)
Theorem notif_signal_wakes c s perms i :
  notif_inv c s → 0 <= i < MAX_SIGNALS → check_signal_perm perms i = Ok tt →
  ∃ s', signal perms i s = Fin (if some_settled (asyncs (futs s)) (waiting s i) then Err BUSY else Ok true) s' ∧
    notif_inv c s' ∧ Z.testbit (signalbits s') i = true ∧ waiting s' i = [] ∧
    (∀ p a, p ∈ waiting s i → asyncs (futs s) !! p = Some a → fstate a = PENDING → 1 < ref_count a →
       ∃ a', asyncs (futs s') !! p = Some a' ∧ fstate a' = COMPLETE ∧ fvalue a' = Some 1) ∧
    (∀ p, p ∉ waiting s i → asyncs (futs s') !! p = asyncs (futs s) !! p).
Proof.
  intros Hn Hi Hp. destruct (signal_run c s perms i Hn) as (g & E & _ & Hn' & Hm); [lia| |done|].
  { unfold check_idx. by rewrite (proj2 (Z.leb_gt _ _)) by lia. }
  eexists. split; [exact E|]. split; [exact Hn'|]. cbn [signalbits futs]. split_and!.
  - by rewrite bit_on_spec, Z.eqb_refl by lia.
  - unfold waiting. simpl. by rewrite lookup_insert_eq.
  - intros p a Hin Ha Hs Hr. rewrite Hm, bool_decide_eq_true_2, Ha by done. simpl. unfold left_over, resolve1.
    rewrite bool_decide_eq_true_2 by done. simpl. rewrite (proj2 (Z.eqb_neq (ref_count a) 1)) by lia. by eexists.
  - intros p Hin. by rewrite Hm, bool_decide_eq_false_2 by done.
Qed.

(** *** All operations *)

Inductive notif_op :=
  | NSignal (perms i : Z) | NUnsignal (perms i : Z) | NSet (perms i : Z) (b : bool) | NQuery (perms i : Z)
  | NWait (perms i : Z) | NCancel (f : Z) | NValue (f : Z) | NCopy (f : Z) | NDrop (f : Z).

(** The promises of [wait] have no cancel callback. *)
Definition notif_cancle (f : Z) : M (notif CB W) unit := cancle (λ A m, @on_futs CB W A m) (λ _, mret tt) f.

Definition run_notif_op (op : notif_op) : M (notif CB W) Z :=
  match op with
  | NSignal perms i => b ← signal perms i; mret (Z.b2z b)
  | NUnsignal perms i => b ← unsignal perms i; mret (Z.b2z b)
  | NSet perms i v => b ← set perms i v; mret (Z.b2z b)
  | NQuery perms i => b ← query perms i; mret (Z.b2z b)
  | NWait perms i => wait perms i
  | NCancel f => _ ← notif_cancle f; mret 0
  | NValue f => on_futs (value false f)
  | NCopy f => on_futs (future_of f)
  | NDrop f => _ ← on_futs (release f); mret 0
  end.

(** The caller holds a reference of its own, apart from the one of a queued promise. *)
Definition held s (f : Z) : Prop :=
  ∃ a, asyncs (futs s) !! f = Some a ∧ ref_count a + 1 < W64 ∧ ((∃ i, f ∈ waiting s i) → 1 < ref_count a).
Definition notif_op_ok s (op : notif_op) : Prop :=
  match op with
  | NSignal _ i | NUnsignal _ i | NSet _ i _ | NQuery _ i | NWait _ i => 0 <= i
  | NCancel f | NValue f | NCopy f | NDrop f => held s f
  end.

(** Changing one future, in a way its users can. *)
Lemma inv_touch c c' s g f a x :
  notif_inv c s → touched c' (futs s) g f x → asyncs (futs s) !! f = Some a →
  (∀ b, x = Some b → cancel_callback b = cancel_callback a ∧
     (fstate b = fstate a ∨ fstate b = CANCLED ∨ (fstate a = COMPLETE ∧ fstate b = CONSUMED))) →
  (x = None → ∀ i, f ∉ waiting s i) → notif_inv c' (set_futs g s).
Proof.
  intros [N1 N2 N3 N4 N5 N6 N7] [T1 T2 T3 _] Ha Hb Hgone. split; cbn [futs signalbits set_futs]; try done.
  - intros i p Hp. destruct (N3 i p Hp) as (Hi & b & Hpb & Hs). split; [done|].
    destruct (decide (p = f)) as [->|Hne]; [|exists b; by rewrite T3].
    rewrite Ha in Hpb. injection Hpb as <-. rewrite T2. destruct x as [b|]; [|by destruct (Hgone eq_refl i)].
    exists b. split; [done|]. destruct (Hb b eq_refl) as [_ [->|[->|[? ?]]]]; [done|by right|]. by destruct Hs; congruence.
  - intros p b Hpb Hs. destruct (decide (p = f)) as [->|Hne]; [|rewrite T3 in Hpb by done; by apply (N7 p b)].
    rewrite T2 in Hpb. destruct (Hb b Hpb) as [Hcb Hst]. rewrite Hcb. apply (N7 f a Ha).
    destruct Hst as [E|[E|[_ E]]]; congruence.
Qed.

Lemma inv_less c s : notif_inv (S c) s → notif_inv c s.
Proof. intros []. split; try done. by apply fut_inv_less. Qed.

Lemma inv_bit_off c s i : notif_inv c s → 0 <= i → notif_inv c (set_bits (bit_off i) s).
Proof.
  intros [N1 N2 N3 N4 N5 N6 N7] Hi. split; cbn [futs signalbits set_bits]; try done; [by apply bit_off_nonneg|].
  intros j Hj. apply N6. destruct (Z.ltb_spec j 0) as [Hneg|Hpos]; [by rewrite Z.testbit_neg_r in Hj|].
  rewrite bit_off_spec in Hj by lia. by apply andb_true_iff in Hj as [_ ?].
Qed.

(** [wait] on a signal that is on answers with a future that is complete. *)
Lemma wait_on_inv c s g f wd a' :
  notif_inv (S c) s → fut_inv c g → a' = mkAsync COMPLETE wd 1 FUTURE_ERROR (Some 1) None → asyncs g !! f = Some a' →
  (∀ y, y ≠ f → asyncs g !! y = asyncs (futs s) !! y) → asyncs (futs s) !! f = None → notif_inv c (set_futs g s).
Proof.
  intros [N1 N2 N3 N4 N5 N6 N7] Hg -> Hf Hoff Hnone. split; cbn [futs signalbits set_futs]; try done.
  - intros i p Hp. destruct (N3 i p Hp) as (Hi & b & Hb & Hs). split; [done|]. exists b. rewrite Hoff by congruence. done.
  - intros p b Hb Hs. destruct (decide (p = f)) as [->|Hne]; [by simplify_eq|]. rewrite Hoff in Hb by done. by apply (N7 p b).
Qed.
(** [wait] on a signal that is off queues its promise. *)
Lemma wait_off_inv c s g f wd i :
  notif_inv (S c) s → 0 <= i < MAX_SIGNALS → Z.testbit (signalbits s) i = false →
  fut_inv c g → asyncs g !! f = Some (fresh_async wd) →
  (∀ y, y ≠ f → asyncs g !! y = asyncs (futs s) !! y) → asyncs (futs s) !! f = None →
  notif_inv c (mkNotif (signalbits s) (<[i := waiting s i ++ [f]]> (waiters s)) g).
Proof.
  intros [N1 N2 N3 N4 N5 N6 N7] Hi Hbit Hg Hf Hoff Hnone.
  assert (Hnew : ∀ j, f ∉ waiting s j) by (intros j Hj; destruct (N3 j f Hj) as (_ & b & ? & _); congruence).
  assert (Hw : ∀ j p, p ∈ waiting (mkNotif (signalbits s) (<[i := waiting s i ++ [f]]> (waiters s)) g) j ↔
    p ∈ waiting s j ∨ (j = i ∧ p = f)).
  { intros j p. unfold waiting at 1. simpl. rewrite waiting_insert. case_decide as E; [subst j|].
    - rewrite elem_of_app, list_elem_of_singleton. naive_solver.
    - naive_solver. }
  split; cbn [futs signalbits]; try done.
  - intros j p [Hp|[-> ->]]%Hw; [|split; [done|]; exists (fresh_async wd); split; [done|by left]].
    destruct (N3 j p Hp) as (Hj & b & Hb & Hs). split; [done|]. exists b. rewrite Hoff by congruence. done.
  - intros j. unfold waiting at 1. simpl. rewrite waiting_insert. case_decide; [|apply N4].
    apply NoDup_app. split_and!; [apply N4|set_solver|apply NoDup_singleton].
  - intros j k p [Hp|[-> ->]]%Hw [Hp'|[-> Hf']]%Hw; [by apply (N5 j k p)|subst; by destruct (Hnew j)|by destruct (Hnew k)|done].
  - intros j Hj. assert (j ≠ i) by congruence. unfold waiting. simpl. rewrite lookup_insert_ne by done. by apply N6.
  - intros p b Hb Hs. destruct (decide (p = f)) as [->|Hne].
    + simplify_eq. split; [done|]. exists i. apply Hw. by right.
    + rewrite Hoff in Hb by done. destruct (N7 p b Hb Hs) as [? [j Hj]]. split; [done|]. exists j. apply Hw. by left.
Qed.

Definition returns c (s : notif CB W) (op : notif_op) : Prop :=
  ∃ r s', run_notif_op op s = Fin r s' ∧ notif_inv c s'.

Lemma wait_returns c s perms i : notif_inv (S c) s → 0 <= i → returns c s (NWait perms i).
Proof.
  intros Hn Hi. unfold returns. cbn [run_notif_op]. unfold wait.
  destruct (check_idx i) as [[]|e] eqn:Ec; [|exists (Err e), s; split; [done|by apply inv_less]].
  destruct (check_query_perm perms i) as [[]|e] eqn:Ep; [|exists (Err e), s; split; [done|by apply inv_less]].
  assert (Hlt : 0 <= i < MAX_SIGNALS) by (unfold check_idx in Ec; destruct (Z.leb_spec MAX_SIGNALS i); [done|lia]).
  do 3 erewrite bind_run by reflexivity. rewrite bit_test_spec by done.
  destruct (promise_future_run c (futs s) (ni_fut _ _ Hn)) as (g1 & g2 & wd & E1 & E2 & I2 & A2 & O2 & Hnone).
  destruct (Z.testbit (signalbits s) i) eqn:Eb.
  - destruct (set_value_run c g2 _ _ (Some 1) I2 A2 eq_refl) as (g3 & E3 & [I3 A3 O3 _]).
    destruct (release_touched c g3 _ _ I3 A3) as (g4 & E4 & [I4 A4 O4 _]).
    eexists (Ok (next_async (futs s))), (set_futs g4 s). split.
    + erewrite bind_run by (apply notif_futs_run; exact E1). erewrite bind_run by (apply notif_futs_run; exact E2).
      erewrite bind_run by (unfold attempt; erewrite notif_futs_run by exact E3; reflexivity). cbv beta iota.
      by erewrite bind_run by (apply notif_futs_run; exact E4).
    + apply (wait_on_inv c s g4 (next_async (futs s)) wd _ Hn I4 eq_refl A4); [|done].
      intros y Hy. by rewrite O4, O3, O2.
  - eexists (Ok (next_async (futs s))), _. split.
    + erewrite bind_run by (apply notif_futs_run; exact E1). erewrite bind_run by (apply notif_futs_run; exact E2).
      erewrite bind_run by reflexivity. reflexivity.
    + by apply (wait_off_inv c s g2 (next_async (futs s)) wd i).
Qed.

Lemma signal_returns c s perms i : notif_inv c s → 0 <= i →
  ∃ r s', signal perms i s = Fin r s' ∧ set perms i true s = Fin r s' ∧ notif_inv c s'.
Proof.
  intros Hn Hi. destruct (check_idx i) as [[]|e] eqn:Ec.
  2: { exists (Err e), s. unfold signal, set. by rewrite Ec. }
  destruct (check_signal_perm perms i) as [[]|e] eqn:Ep.
  2: { exists (Err e), s. unfold signal, set. by rewrite Ec, Ep. }
  destruct (signal_run c s perms i Hn Hi Ec Ep) as (g & E & Es & Hn' & _). eexists _, _. by rewrite Es.
Qed.
Lemma unsignal_returns c s perms i : notif_inv c s → 0 <= i →
  ∃ r s', unsignal perms i s = Fin r s' ∧ set perms i false s = Fin r s' ∧ notif_inv c s'.
Proof.
  intros Hn Hi. unfold unsignal, set. destruct (check_idx i) as [[]|e]; [|by exists (Err e), s].
  destruct (check_signal_perm perms i) as [[]|e]; [|by exists (Err e), s].
  eexists _, _. do 2 (split; [reflexivity|]). by apply inv_bit_off.
Qed.

Lemma cancel_returns c s f : notif_inv c s → held s f → returns c s (NCancel f).
Proof.
  intros Hn (a & Ha & _ & Hr). destruct (fi_async _ _ (ni_fut _ _ Hn) f a Ha) as (Hf & Hwd & Hrc).
  unfold returns. cbn [run_notif_op]. unfold notif_cancle, cancle. rewrite (proj2 (Z.eqb_neq f 0)) by lia.
  unfold mbind, M_bind. rewrite (notif_futs_run _ _ _ _ (get_async_run _ f a Ha)).
  replace (set_futs (futs s) s) with s by (by destruct s).
  destruct (decide (fstate a = PENDING)) as [Es|Es].
  2: { destruct (fstate a); try done; by eexists (Err _), s. }
  rewrite Es. destruct (ni_src _ _ Hn f a Ha Es) as [Hcb _]. rewrite Hcb.
  destruct (wk_wake_ok c (waker (futs s)) (wait_wd a)) as (n & w & Ew & Hiw); [apply Hn|done|].
  unfold mret, M_ret. rewrite (notif_futs_run _ _ _ _ (get_async_run _ f a Ha)). unfold on_futs, with_waker. simpl. rewrite Ew.
  eexists _, _. split; [reflexivity|].
  apply (inv_touch c c s _ f a (Some (set_fstate CANCLED a)) Hn); [|done|intros b [= <-]; by auto|done].
  pose proof (put_inv c (futs s) f a (set_fstate CANCLED a) (ni_fut _ _ Hn) Ha eq_refl Hrc) as [_ H2 H3].
  split; [by split| | |done]; simpl; [apply lookup_insert_eq|intros y Hy; by rewrite lookup_insert_ne].
Qed.

Lemma notif_run c s op : notif_inv (S c) s → notif_op_ok s op → returns c s op.
Proof.
  intros Hn Hok. unfold returns. pose proof (inv_less _ _ Hn) as Hn0. destruct op as [perms i|perms i|perms i b|perms i|perms i|f|f|f|f]; simpl in Hok.
  - destruct (signal_returns c s perms i Hn0 Hok) as (r & s' & E & _ & Hn'). cbn [run_notif_op]. unfold mbind, M_bind. rewrite E.
    destruct r; by eexists _, s'.
  - destruct (unsignal_returns c s perms i Hn0 Hok) as (r & s' & E & _ & Hn'). cbn [run_notif_op]. unfold mbind, M_bind. rewrite E.
    destruct r; by eexists _, s'.
  - destruct (signal_returns c s perms i Hn0 Hok) as (r & s' & _ & E & Hn'), (unsignal_returns c s perms i Hn0 Hok) as (r2 & s2 & _ & E2 & Hn2).
    cbn [run_notif_op]. unfold mbind, M_bind. destruct b; [rewrite E; destruct r; by eexists _, s'|rewrite E2; destruct r2; by eexists _, s2].
  - cbn [run_notif_op]. unfold query. destruct (check_idx i) as [[]|e]; [|by eexists _, s].
    destruct (check_query_perm perms i) as [[]|e]; by eexists _, s.
  - by apply wait_returns.
  - by apply cancel_returns.
  - destruct Hok as (a & Ha & _ & _). destruct (value_touched c (futs s) false f a (ni_fut _ _ Hn0) Ha) as (r & g & b & E & Ht & Hcb & Hst).
    eexists r, _. split; [apply notif_futs_run; exact E|]. apply (inv_touch c c s g f a _ Hn0 Ht Ha); [|done].
    intros b' [= <-]. split; [done|]. destruct Hst as [?|?]; auto.
  - destruct Hok as (a & Ha & Hr & _). destruct (acquire_run c (futs s) f a (ni_fut _ _ Hn0) Ha Hr) as [E Hi].
    eexists (Ok f), _. split; [apply notif_futs_run; unfold future_of; by rewrite (bind_run _ _ _ _ _ E)|].
    apply (inv_touch c c s _ f a (Some (set_refs (ref_count a + 1) a)) Hn0); [|done|intros b [= <-]; by auto|done].
    split; [done|apply lookup_insert_eq| |done]. intros y Hy. by apply lookup_insert_ne.
  - destruct Hok as (a & Ha & _ & Hr). destruct (release_touched c (futs s) f a (ni_fut _ _ Hn0) Ha) as (g & E & Ht).
    eexists (Ok 0), _. split; [cbn [run_notif_op]; by erewrite bind_run by (apply notif_futs_run; exact E)|].
    apply (inv_touch c c s g f a _ Hn0 Ht Ha).
    + unfold left_over. case_match; [done|]. intros b [= <-]. by auto.
    + unfold left_over. destruct (Z.eqb_spec (ref_count a) 1) as [E1|]; [|done]. intros _ i Hi.
      pose proof (Hr (ex_intro _ i Hi)). lia.
Qed.

(** C29: no wake-up of a notification is lost.  Every operation on a notification and
    on the futures of its waiters returns and keeps the invariant; after it, every
    future that is pending waits for a signal that is off. *)
Theorem notif_no_lost_wakeup c s op :
  notif_inv (S c) s → notif_op_ok s op →
  ∃ r s', run_notif_op op s = Fin r s' ∧ notif_inv c s' ∧
    ∀ p a, asyncs (futs s') !! p = Some a → fstate a = PENDING →
      ∃ i, p ∈ waiting s' i ∧ Z.testbit (signalbits s') i = false.
Proof.
  intros Hn Hok. destruct (notif_run c s op Hn Hok) as (r & s' & E & Hn'). exists r, s'. split_and!; [done|done|].
  intros p a Ha Hs. destruct (ni_src _ _ Hn' p a Ha Hs) as [_ [i Hi]]. exists i. split; [done|].
  destruct (Z.testbit (signalbits s') i) eqn:Eb; [|done]. rewrite (ni_off _ _ Hn' i Eb) in Hi. by apply elem_of_nil in Hi.
Qed.
End spec.
End Notif.

(** ** Mutexes *)
Module Mutex.
Definition MUTEX_USE : Z := 0x010000.
(** [locked] is the state of the payload. *)
Definition lock (perms : Z) (locked : bool) : Result bool * bool :=
  if negb (perm_imply perms MUTEX_USE) then (Err INSUFFICIENT_PERMISSIONS, locked)
  else if locked then (Ok false, locked) else (Ok true, true).
Definition unlock (perms : Z) (locked : bool) : Result bool * bool :=
  if negb (perm_imply perms MUTEX_USE) then (Err INSUFFICIENT_PERMISSIONS, locked)
  else if negb locked then (Ok false, locked) else (Ok true, false).
End Mutex.

Module NotifWitness.
Import Notif Future FutureSched FutureWitness WaitWitness.

Definition ex_notif : notif unit sched := mkNotif 0 ∅ ex_fut.
Definition ex_perms : Z := 0x030000.

Lemma ex_notif_inv c : Z.of_nat c + 9 < W64 → notif_inv c ex_notif.
Proof.
  intros Hc. assert (Hw : ∀ i, waiting ex_notif i = []) by (intros i; unfold waiting; simpl; by rewrite lookup_empty).
  split; try done.
  - by apply ex_fut_inv.
  - intros i p. rewrite Hw. by intros ?%elem_of_nil.
  - intros i. rewrite Hw. constructor.
  - intros i j p. rewrite Hw. by intros ?%elem_of_nil.
Qed.

Definition after (op : notif_op) (s : notif unit sched) : notif unit sched :=
  match run_notif_op op s with Fin _ s' => s' | _ => s end.
Lemma after_inv c s op : notif_inv (S c) s → notif_op_ok s op → notif_inv c (after op s).
Proof. intros Hn Hok. destruct (notif_run c s op Hn Hok) as (r & s' & E & Hn'). unfold after. by rewrite E. Qed.

(** Two threads wait for signal 0, the second one cancels. *)
Definition ex_waiting : notif unit sched := after (NWait ex_perms 0) (after (NWait ex_perms 0) ex_notif).
Definition ex_cancelled : notif unit sched := after (NCancel 2) ex_waiting.
Lemma ex_waiting_inv c : Z.of_nat (S (S c)) + 9 < W64 → notif_inv c ex_waiting.
Proof. intros Hc. apply after_inv; [|done]. apply after_inv; [|done]. by apply ex_notif_inv. Qed.
Lemma ex_held : held ex_waiting 2.
Proof. eexists. split; [vm_compute; reflexivity|]. split; [done|]. intros _. done. Qed.
Lemma ex_cancelled_inv c : Z.of_nat (S (S (S c))) + 9 < W64 → notif_inv c ex_cancelled.
Proof. intros Hc. apply after_inv; [by apply ex_waiting_inv|exact ex_held]. Qed.
Lemma ex_first : ∃ a, asyncs (futs ex_cancelled) !! 1 = Some a ∧ fstate a = PENDING ∧ 1 < ref_count a.
Proof. eexists. split; [vm_compute; reflexivity|done]. Qed.
Lemma ex_queue : waiting ex_cancelled 0 = [1; 2].
Proof. vm_compute. reflexivity. Qed.
Lemma ex_settled : some_settled (asyncs (futs ex_cancelled)) (waiting ex_cancelled 0) = true.
Proof. vm_compute. reflexivity. Qed.

Lemma notif_signal_wakes_witness :
  ∃ s' a', signal ex_perms 0 ex_cancelled = Fin (Err BUSY) s' ∧ Z.testbit (signalbits s') 0 = true ∧
    asyncs (futs s') !! 1 = Some a' ∧ fstate a' = COMPLETE.
Proof.
  destruct (notif_signal_wakes 0 ex_cancelled ex_perms 0) as (s' & E & _ & Hb & _ & Hw & _);
    [by apply ex_cancelled_inv|done|done|].
  rewrite ex_settled in E. destruct ex_first as (a & Ha & Hs & Hr).
  destruct (Hw 1 a) as (a' & Ha' & Hs' & _); [rewrite ex_queue; left|done|done|done|]. by exists s', a'.
Defined.

Lemma notif_no_lost_wakeup_witness :
  ∃ r s', run_notif_op (NCancel 2) ex_waiting = Fin r s' ∧ notif_inv 0 s'.
Proof.
  destruct (notif_no_lost_wakeup 0 ex_waiting (NCancel 2)) as (r & s' & E & Hn & _); [by apply ex_waiting_inv|exact ex_held|].
  by exists r, s'.
Defined.
End NotifWitness.
