(* ===== verification/Path.v ===== *)
(** * Paths

    [util::Path] of include/sus/path.h and libs/basecpp/path.cpp: joining and
    splitting paths, the iterator over their entries, [normalize], [relative_to]
    and the prefix and suffix tests.

    A path is a list of characters; an index past its end reads no character.  The
    iterator keeps its two indices and its current entry; the path it belongs to is
    an argument.  Loops over entries have fuel for one more round than the path has
    characters; that this is enough is part of what is proved. *)
From Stdlib Require Import Ascii.
From S2P Require Import Prelude.

#[local] Open Scope nat_scope.

Abbreviation str := (list ascii) (only parsing).
Definition slash : ascii := "/"%char.
Definition dot : ascii := "."%char.
Definition nul : ascii := "000"%char.
(** Literals of the source. *)
Definition ROOT : str := [slash].
Definition DOT : str := [dot].
Definition DOTDOT : str := [dot; dot].

Module Path.

(** ** Joining *)

(** [operator/]; the overload for a temporary has the same result. *)
Definition join (lhs rhs : str) : str :=
  (if negb (length lhs =? 0) then lhs ++ [slash] else []) ++ rhs.
Definition concat (path other : str) : str := path ++ other.

Definition is_absolute (path : str) : bool :=
  negb (length path =? 0) && bool_decide (path !! 0 = Some slash).
Definition is_relative (path : str) : bool := negb (is_absolute path).

(** ** Names *)

(** [while (n && path[--n] != c);] *)
Fixpoint find_last (c : ascii) (path : str) (n : nat) : nat :=
  match n with
  | O => O
  | S n => if bool_decide (path !! n = Some c) then n else find_last c path n
  end.

Definition parent_path (path : str) : str :=
  let last_slash := find_last slash path (length path) in
  if bool_decide (path !! last_slash = Some slash)
  then if last_slash =? 0 then ROOT else take last_slash path
  else [].
Definition filename (path : str) : str :=
  let last_slash := find_last slash path (length path) in
  if bool_decide (path !! last_slash = Some slash) then drop (last_slash + 1) path else path.
Definition stem (path : str) : str :=
  let fname := filename path in
  if bool_decide (fname = DOT) || bool_decide (fname = DOTDOT) then fname
  else
    let last_dot := find_last dot fname (length fname) in
    if bool_decide (fname !! last_dot = Some dot)
    then if last_dot =? 0 then fname else take last_dot fname
    else fname.
Definition extension (path : str) : str :=
  let fname := filename path in
  if bool_decide (fname = DOT) || bool_decide (fname = DOTDOT) then []
  else
    let last_dot := find_last dot fname (length fname) in
    if bool_decide (fname !! last_dot = Some dot)
    then if last_dot =? 0 then [] else drop last_dot fname
    else [].

(** ** The iterator over entries *)

(** [begin_] is [None] for [npos]. *)
Record const_iterator := mkIt { begin_ : option nat; end_ : nat; current_entry : str }.

(** [while (i < len && P(path[i])) ++i;] *)
Fixpoint scan (fuel : nat) (P : ascii → bool) (path : str) (i : nat) : nat :=
  match fuel with
  | O => i
  | S fuel => match path !! i with
              | Some c => if P c then scan fuel P path (i + 1) else i
              | None => i
              end
  end.

Definition locate_next (path : str) (it : const_iterator) : const_iterator :=
  let len := length path in
  let b := scan len (λ c, bool_decide (c = slash)) path (end_ it) in
  let e := scan len (λ c, negb (bool_decide (c = slash))) path b in
  mkIt (Some b) e (if negb (b =? e) then take (e - b) (drop b path) else []).

(** [operator==] of two iterators over one path. *)
Definition it_eq (x y : const_iterator) : bool := bool_decide (begin_ x = begin_ y) && (end_ x =? end_ y).

Definition path_begin (path : str) : const_iterator :=
  if is_relative path then locate_next path (mkIt None 0 []) else mkIt None 0 (take 1 path).
Definition path_end (path : str) : const_iterator := mkIt (Some (length path)) (length path) [].

(** [for (auto it = begin(); it != end(); ++it)]: the entries met. *)
Fixpoint entries_from (fuel : nat) (path : str) (it : const_iterator) : option (list str) :=
  match fuel with
  | O => None
  | S fuel =>
      if it_eq it (path_end path) then Some []
      else cons (current_entry it) <$> entries_from fuel path (locate_next path it)
  end.
Definition entries (path : str) : option (list str) := entries_from (length path + 2) path (path_begin path).

(** ** [normalize] *)

Definition back (st : list str) : option str := last st.
(** One round of the loop over the entries. *)
Definition normalize_step (st : list str) (e : str) : list str :=
  if bool_decide (e = DOT) then st
  else if bool_decide (e = DOTDOT) then
    match back st with
    | None => st ++ [e]
    | Some b =>
        if bool_decide (b = DOTDOT) then st ++ [e]
        else if bool_decide (b = ROOT) then st
        else removelast st
    end
  else st ++ [e].

(** The loop that builds the result. *)
Fixpoint build (st : list str) : str :=
  match st with
  | [] => []
  | e :: st => e ++ (if bool_decide (e = ROOT) then [] else [slash]) ++ build st
  end.

Definition normalize (path : str) : option str :=
  if length path =? 0 then Some []
  else
    es ← entries path;
    let path_builder := build (foldl normalize_step [] es) in
    Some (if length path_builder =? 0 then DOT
          else if 1 <? length path_builder then removelast path_builder
          else path_builder).

(** ** [relative_to] *)

(** Skip the entries that agree. *)
Fixpoint skip_common (fuel : nat) (p1 : str) (it1 : const_iterator) (p2 : str) (it2 : const_iterator)
    : option (const_iterator * const_iterator) :=
  match fuel with
  | O => None
  | S fuel =>
      if negb (it_eq it1 (path_end p1)) && negb (it_eq it2 (path_end p2))
         && bool_decide (current_entry it1 = current_entry it2)
      then skip_common fuel p1 (locate_next p1 it1) p2 (locate_next p2 it2)
      else Some (it1, it2)
  end.
(** One [../] for every entry left. *)
Fixpoint ups (fuel : nat) (p : str) (it : const_iterator) : option str :=
  match fuel with
  | O => None
  | S fuel =>
      if it_eq it (path_end p) then Some []
      else app (DOTDOT ++ [slash]) <$> ups fuel p (locate_next p it)
  end.
(** [append] of a C string stops at the terminating zero. *)
Fixpoint c_str (l : str) : str :=
  match l with [] => [] | c :: l => if bool_decide (c = nul) then [] else c :: c_str l end.

Definition relative_to (path base : str) : option str :=
  norm ← normalize path;
  norm_base ← normalize base;
  let it1 := path_begin norm in
  let it2 := path_begin norm_base in
  if negb (bool_decide (current_entry it1 = current_entry it2)) then Some []
  else
    '(it1, it2) ← skip_common (length norm + 2) norm it1 norm_base it2;
    u ← ups (length norm_base + 2) norm_base it2;
    (* [it1] has advanced at least once, or stands at the end: [begin_] is not [npos] *)
    b ← begin_ it1;
    let relative_path := u ++ c_str (drop b norm) in
    Some (if length relative_path =? 0 then DOT else relative_path).

(** ** Prefixes and suffixes *)

Definition starts_with (path prefix : str) : bool :=
  let prefix_len := length prefix in
  let self_len := length path in
  if prefix_len =? 0 then true
  else if self_len <? prefix_len then false
  else if negb (bool_decide (take prefix_len path = prefix)) then false
  else if self_len =? prefix_len then true
  else bool_decide (prefix !! (prefix_len - 1) = Some slash) || bool_decide (path !! prefix_len = Some slash).

Definition ends_with (path suffix : str) : bool :=
  let suffix_len := length suffix in
  let self_len := length path in
  if suffix_len =? 0 then true
  else if self_len <? suffix_len then false
  else
    let start := self_len - suffix_len in
    if negb (bool_decide (take suffix_len (drop start path) = suffix)) then false
    else if start =? 0 then true
    else if negb (bool_decide (path !! (start - 1) = Some slash)) then false
    else if bool_decide (suffix !! 0 = Some slash) then false
    else true.

(** ** Entries against a reference

    The segments between slashes, without the empty ones. *)

Fixpoint split_slash (l : str) : list str :=
  match l with
  | [] => [[]]
  | c :: l =>
      if bool_decide (c = slash) then [] :: split_slash l
      else match split_slash l with [] => [[c]] | w :: ws => (c :: w) :: ws end
  end.
Definition segments (l : str) : list str := filter (λ w, w ≠ []) (split_slash l).
Definition components (path : str) : list str :=
  (if is_absolute path then [ROOT] else []) ++ segments path.

(** A name: not empty, without a slash. *)
Definition word (w : str) : Prop := w ≠ [] ∧ (slash ∉ w).

Lemma split_nonempty l : split_slash l ≠ [].
Proof. destruct l as [|c l]; simpl; [done|]. case_bool_decide; [done|]. by destruct (split_slash l). Qed.
Lemma split_word w : slash ∉ w → split_slash w = [w].
Proof.
  induction w as [|c w IH]; [done|]. intros [Hc Hw]%not_elem_of_cons. simpl. rewrite bool_decide_eq_false_2 by congruence.
  by rewrite IH.
Qed.
Lemma split_word_slash w l : slash ∉ w → split_slash (w ++ slash :: l) = w :: split_slash l.
Proof.
  induction w as [|c w IH]; intros Hw; simpl.
  - done.
  - apply not_elem_of_cons in Hw as [Hc Hw]. rewrite bool_decide_eq_false_2 by congruence. by rewrite IH.
Qed.

Lemma seg_nil : segments [] = [].
Proof. done. Qed.
Lemma seg_slash l : segments (slash :: l) = segments l.
Proof. done. Qed.
Lemma seg_word w l : word w → segments (w ++ slash :: l) = w :: segments l.
Proof. intros [Hw Hs]. unfold segments. rewrite split_word_slash by done. by rewrite filter_cons_True. Qed.
Lemma seg_word_end w : word w → segments w = [w].
Proof. intros [Hw Hs]. unfold segments. rewrite split_word by done. by rewrite filter_cons_True. Qed.
Lemma seg_slashes s l : (∀ c, c ∈ s → c = slash) → segments (s ++ l) = segments l.
Proof.
  induction s as [|c s IH]; intros Hs; [done|]. rewrite (Hs c) by left. simpl. rewrite seg_slash. apply IH.
  intros d Hd. apply Hs. by right.
Qed.
Lemma seg_snoc_slash l : segments (l ++ [slash]) = segments l.
Proof.
  unfold segments.
  assert (E : split_slash (l ++ [slash]) = split_slash l ++ [[]]).
  { induction l as [|c l IH]; [done|]. simpl. rewrite IH. case_bool_decide; [done|].
    pose proof (split_nonempty l). by destruct (split_slash l). }
  rewrite E, filter_app. cbn. by rewrite app_nil_r.
Qed.
Lemma seg_words l w : w ∈ segments l → word w.
Proof.
  unfold segments. rewrite list_elem_of_filter. intros [Hne Hin]. split; [done|]. clear Hne.
  revert w Hin. induction l as [|c l IH]; simpl.
  - intros w ->%list_elem_of_singleton. apply not_elem_of_nil.
  - case_bool_decide as E.
    + intros w [->|Hin]%elem_of_cons; [apply not_elem_of_nil|by apply IH].
    + intros w. destruct (split_slash l) as [|x xs]; [intros ->%list_elem_of_singleton; set_solver|].
      intros [->|Hin]%elem_of_cons; [|apply IH; by right].
      apply not_elem_of_cons. split; [congruence|]. apply IH. left.
Qed.

(** *** Scanning *)

Fixpoint takew (P : ascii → bool) (l : str) : str :=
  match l with [] => [] | c :: l => if P c then c :: takew P l else [] end.

Lemma takew_all P l c : c ∈ takew P l → P c = true.
Proof.
  induction l as [|d l IH]; simpl; [by intros ?%elem_of_nil|]. destruct (P d) eqn:E; [|by intros ?%elem_of_nil].
  intros [->|Hc]%elem_of_cons; auto.
Qed.
Lemma takew_prefix P l : take (length (takew P l)) l = takew P l.
Proof. induction l as [|d l IH]; [done|]. simpl. destruct (P d); [|done]. simpl. by rewrite IH. Qed.
Lemma takew_rest P l c r : drop (length (takew P l)) l = c :: r → P c = false.
Proof. induction l as [|d l IH]; simpl; [done|]. destruct (P d) eqn:E; simpl; [done|]. by intros [= -> _]. Qed.
Lemma takew_length P l : length (takew P l) <= length l.
Proof. induction l as [|d l IH]; simpl; [lia|]. destruct (P d); simpl; lia. Qed.

Lemma scan_spec fuel P p i : length p - i <= fuel → scan fuel P p i = i + length (takew P (drop i p)).
Proof.
  revert i. induction fuel as [|fuel IH]; intros i Hf; cbn [scan].
  - rewrite drop_ge by lia. simpl. lia.
  - destruct (p !! i) as [c|] eqn:E.
    + rewrite (drop_S _ _ _ E). cbn [takew]. destruct (P c); [|simpl; lia]. rewrite IH by lia.
      replace (i + 1) with (S i) by lia. simpl. lia.
    + apply lookup_ge_None in E. rewrite drop_ge by lia. simpl. lia.
Qed.

Definition is_sl (c : ascii) : bool := bool_decide (c = slash).
Definition not_sl (c : ascii) : bool := negb (bool_decide (c = slash)).

(** Where [locate_next] goes from index [e]: over slashes [s] and a name [w]. *)
Lemma locate_next_spec p it :
  end_ it <= length p →
  ∃ s w r, drop (end_ it) p = s ++ w ++ r ∧ (∀ c, c ∈ s → c = slash) ∧ (slash ∉ w) ∧ (r = [] ∨ ∃ r', r = slash :: r') ∧
    (w = [] → r = []) ∧
    locate_next p it = mkIt (Some (end_ it + length s)) (end_ it + length s + length w) w ∧
    drop (end_ it + length s) p = w ++ r ∧ drop (end_ it + length s + length w) p = r.
Proof.
  intros He. set (e := end_ it). set (l := drop e p). set (s := takew is_sl l). set (l' := drop (length s) l).
  set (w := takew not_sl l'). set (r := drop (length w) l'). exists s, w, r.
  assert (Hl : l = s ++ l') by (unfold l', s; by rewrite <- (take_drop (length (takew is_sl l)) l), takew_prefix at 1).
  assert (Hl' : l' = w ++ r) by (unfold r, w; by rewrite <- (take_drop (length (takew not_sl l')) l'), takew_prefix at 1).
  assert (Hd : drop (e + length s) p = l') by (unfold l', l; by rewrite drop_drop).
  assert (Hd2 : drop (e + length s + length w) p = r) by (rewrite <- drop_drop, Hd; done).
  split_and!.
  - by rewrite Hl, Hl'.
  - intros c Hc. apply takew_all in Hc. by apply bool_decide_eq_true in Hc.
  - intros Hc. apply takew_all in Hc. unfold not_sl in Hc. by rewrite bool_decide_eq_true_2 in Hc.
  - destruct r as [|c r'] eqn:Er; [by left|]. right. exists r'. f_equal.
    apply takew_rest in Er. unfold not_sl in Er. by apply negb_false_iff, bool_decide_eq_true in Er.
  - intros Hw. destruct r as [|c r'] eqn:Er; [done|]. exfalso.
    assert (El' : l' = c :: r') by (by rewrite Hl', Hw). unfold l' in El'. apply takew_rest in El' as Ec.
    fold l' in El'. unfold w in Hw. rewrite El' in Hw. cbn [takew] in Hw. unfold is_sl, not_sl in *. by rewrite Ec in Hw.
  - unfold locate_next. fold e.
    assert (E1 : scan (length p) (λ c, bool_decide (c = slash)) p e = e + length s) by (rewrite scan_spec by lia; done).
    rewrite E1. assert (E2 : scan (length p) (λ c, negb (bool_decide (c = slash))) p (e + length s) = e + length s + length w).
    { rewrite scan_spec by lia. rewrite Hd. done. }
    rewrite E2. f_equal. destruct (Nat.eqb_spec (e + length s) (e + length s + length w)) as [Eq|Eq]; simpl.
    + destruct w; [done|simpl in Eq; lia].
    + rewrite Hd, Hl'. replace (e + length s + length w - (e + length s)) with (length w) by lia. by rewrite take_app_length.
  - by rewrite Hd.
  - done.
Qed.

Lemma it_eq_end p b e x : it_eq (mkIt (Some b) e x) (path_end p) = (b =? length p) && (e =? length p).
Proof.
  unfold it_eq, path_end. simpl. f_equal. destruct (Nat.eqb_spec b (length p)) as [->|Hne]; [by apply bool_decide_eq_true_2|].
  apply bool_decide_eq_false_2. congruence.
Qed.

Lemma it_eq_npos p e x : it_eq (mkIt None e x) (path_end p) = false.
Proof. done. Qed.

(** Either the iterator stands at the end, or at a name with more to come. *)
Lemma located p it :
  end_ it <= length p →
  let it' := locate_next p it in
  (segments (drop (end_ it) p) = [] ∧ it_eq it' (path_end p) = true ∧ begin_ it' = Some (length p) ∧ current_entry it' = []) ∨
  (∃ b, begin_ it' = Some b ∧ it_eq it' (path_end p) = false ∧ end_ it < end_ it' <= length p ∧
     word (current_entry it') ∧ segments (drop b p) = segments (drop (end_ it) p) ∧
     (∃ c r, drop b p = c :: r ∧ c ≠ slash) ∧
     segments (drop (end_ it) p) = current_entry it' :: segments (drop (end_ it') p)).
Proof.
  intros He it'. destruct (locate_next_spec p it He) as (s & w & r & E & Hs & Hw & Hr & Hwr & El & Ed & Ed2).
  assert (Hlen : length p = end_ it + length s + length w + length r).
  { assert (Hlen : length (drop (end_ it) p) = length (s ++ w ++ r)) by by rewrite E.
    rewrite length_drop, !length_app in Hlen. lia. }
  unfold it'. rewrite El. cbn [begin_ end_ current_entry]. rewrite it_eq_end. destruct w as [|c w].
  - left. rewrite (Hwr eq_refl) in *. rewrite E, !app_nil_r. split_and!.
    + rewrite <- (app_nil_r s), seg_slashes by done. done.
    + simpl in Hlen. apply andb_true_iff. split; apply Nat.eqb_eq; simpl; lia.
    + simpl in Hlen. f_equal. lia.
    + done.
  - right. exists (end_ it + length s). assert (Hword : word (c :: w)) by by split.
    split_and!; try done.
    + apply andb_false_iff. left. apply Nat.eqb_neq. simpl in *. lia.
    + simpl. lia.
    + lia.
    + by rewrite Ed, E, (seg_slashes s).
    + rewrite Ed. exists c, (w ++ r). split; [done|]. apply not_elem_of_cons in Hw as [? _]. congruence.
    + rewrite E, Ed2, (seg_slashes s) by done. destruct Hr as [Hr|[r' Hr]]; subst r; [by rewrite app_nil_r, seg_word_end|].
      by rewrite seg_word, seg_slash.
Qed.

Lemma entries_located fuel p it :
  end_ it <= length p → length p - end_ it < fuel → entries_from fuel p (locate_next p it) = Some (segments (drop (end_ it) p)).
Proof.
  revert it. induction fuel as [|fuel IH]; intros it He Hf; [lia|]. cbn [entries_from].
  destruct (located p it He) as [(E & Eq & _)|(b & _ & Eq & Hlt & _ & _ & _ & E)]; rewrite Eq.
  - by rewrite E.
  - rewrite IH by lia. by rewrite E.
Qed.

Lemma absolute_cons p : is_absolute p = true → ∃ r, p = slash :: r.
Proof. unfold is_absolute. destruct p as [|c r]; [done|]. simpl. case_bool_decide as E; [|done]. exists r. congruence. Qed.

Lemma entries_run p : entries p = Some (components p).
Proof.
  unfold entries, components, path_begin, is_relative. destruct (is_absolute p) eqn:E; cbn [negb].
  - apply absolute_cons in E as [r ->]. replace (length (slash :: r) + 2) with (S (S (length (slash :: r)))) by lia.
    assert (Hn : length (slash :: r) < S (length (slash :: r))) by lia. revert Hn. generalize (S (length (slash :: r))) as n.
    intros n Hn. cbn [entries_from]. rewrite it_eq_npos. cbn [current_entry take]. by rewrite entries_located by (cbn [end_]; lia).
  - rewrite entries_located by (simpl; lia). done.
Qed.

(** Walking over a path ends after one round per entry, and meets the root when
    the path is absolute and then the non-empty segments between its slashes. *)
Theorem path_entries_spec p : entries p = Some (components p).
Proof. apply entries_run. Qed.

(** ** What a path means

    Without symbolic links a directory is the list of names on the way from the
    root, innermost first; a path is walked entry by entry. *)

Definition walk1 (cwd : list str) (e : str) : list str :=
  if bool_decide (e = ROOT) then []
  else if bool_decide (e = DOT) then cwd
  else if bool_decide (e = DOTDOT) then tail cwd
  else e :: cwd.
Definition walk (cwd : list str) (es : list str) : list str := foldl walk1 cwd es.
Definition resolve (cwd : list str) (path : str) : list str := walk cwd (components path).

(** A name that is neither [.] nor [..]. *)
Definition name (w : str) : Prop := word w ∧ w ≠ DOT ∧ w ≠ DOTDOT.
(** Normal forms: the root and names, or [..]s and names. *)
Definition normal (st : list str) : Prop :=
  ∃ k ws, (∀ w, w ∈ ws → name w) ∧ (st = ROOT :: ws ∨ st = replicate k DOTDOT ++ ws).

Lemma word_not_root w : word w → w ≠ ROOT.
Proof. intros [_ Hs] ->. apply Hs. left. Qed.
Lemma back_snoc st e : back (st ++ [e]) = Some e.
Proof. apply last_snoc. Qed.
Lemma removelast_snoc {A} (l : list A) x : removelast (l ++ [x]) = l.
Proof. by rewrite removelast_app, app_nil_r. Qed.

Lemma step_snoc_name st e d :
  e ≠ DOTDOT → e ≠ ROOT → d = DOTDOT → normalize_step (st ++ [e]) d = st.
Proof.
  intros H1 H2 ->. unfold normalize_step. rewrite back_snoc, removelast_snoc.
  rewrite (bool_decide_eq_false_2 (DOTDOT = DOT)), (bool_decide_eq_true_2 (DOTDOT = DOTDOT)) by done.
  by rewrite !bool_decide_eq_false_2.
Qed.
Lemma step_name st e : name e → normalize_step st e = st ++ [e].
Proof. intros (_ & H1 & H2). unfold normalize_step. by rewrite !bool_decide_eq_false_2. Qed.
Lemma step_dot st : normalize_step st DOT = st.
Proof. unfold normalize_step. by rewrite bool_decide_eq_true_2. Qed.
Lemma step_root ws : normalize_step [ROOT] DOTDOT = [ROOT] ∧ (ws = [] → normalize_step ws ROOT = [ROOT]).
Proof. split; [done|]. by intros ->. Qed.
Lemma step_up k : normalize_step (replicate k DOTDOT) DOTDOT = replicate (S k) DOTDOT.
Proof.
  rewrite replicate_S_end. unfold normalize_step.
  destruct k as [|k]; [done|]. by rewrite (replicate_S_end k), back_snoc.
Qed.

Lemma word_cases w : word w → w = DOT ∨ w = DOTDOT ∨ name w.
Proof. intros Hw. destruct (decide (w = DOT)); [by left|]. destruct (decide (w = DOTDOT)); [right; by left|]. by right; right. Qed.

Lemma names_snoc ws w : (∀ x, x ∈ ws ++ [w] → name x) ↔ (∀ x, x ∈ ws → name x) ∧ name w.
Proof. set_solver. Qed.

Lemma normal_step st e : normal st → word e → normal (normalize_step st e).
Proof.
  intros (k & ws & Hws & Hst) [->|[->|He]]%word_cases.
  - rewrite step_dot. by exists k, ws.
  - destruct ws as [|w ws _] using rev_ind.
    + destruct Hst as [Hst|Hst]; subst st; [exists 0, []; split; [done|by left]|]. rewrite app_nil_r, step_up.
      exists (S k), []. split; [done|]. right. by rewrite app_nil_r.
    + apply names_snoc in Hws as [Hws (Hw & ? & ?)]. exists k, ws. split; [done|].
      destruct Hst as [Hst|Hst]; subst st; rewrite ?app_comm_cons, ?app_assoc, step_snoc_name by (by auto using word_not_root); auto.
  - rewrite step_name by done. exists k, (ws ++ [e]). split; [by apply names_snoc|].
    destruct Hst as [Hst|Hst]; subst st; [left|right]; [done|by rewrite app_assoc].
Qed.

Lemma normal_fold es st : normal st → (∀ e, e ∈ es → word e) → normal (foldl normalize_step st es).
Proof.
  revert st. induction es as [|e es IH]; intros st Hst Hes; [done|]. cbn [foldl]. apply IH.
  - apply normal_step; [done|]. apply Hes. left.
  - intros x Hx. apply Hes. by right.
Qed.

(** The entries left after reduction. *)
Definition reduce (path : str) : list str := foldl normalize_step [] (components path).
Lemma normal_nil : normal [].
Proof. exists 0, []. split; [by intros w ?%elem_of_nil|by right]. Qed.
Lemma normal_reduce p : normal (reduce p).
Proof.
  unfold reduce, components. destruct (is_absolute p).
  - cbn [app foldl]. apply normal_fold; [|intros e; apply seg_words].
    exists 0, []. split; [by intros w ?%elem_of_nil|by left].
  - apply normal_fold; [apply normal_nil|intros e; apply seg_words].
Qed.

(** *** Reduction keeps the meaning *)

Lemma walk_snoc cwd es e : walk cwd (es ++ [e]) = walk1 (walk cwd es) e.
Proof. unfold walk. by rewrite foldl_app. Qed.
Lemma walk1_name cwd w : name w → walk1 cwd w = w :: cwd.
Proof. intros (Hw & ? & ?). unfold walk1. rewrite !bool_decide_eq_false_2; [done|done|done|by apply word_not_root]. Qed.

Lemma walk1_up cwd : walk1 cwd DOTDOT = tail cwd.
Proof. done. Qed.

Lemma walk_step cwd st e : normal st → word e → walk cwd (normalize_step st e) = walk1 (walk cwd st) e.
Proof.
  intros (k & ws & Hws & Hst) [->|[->|He]]%word_cases.
  - by rewrite step_dot.
  - destruct ws as [|w ws _] using rev_ind.
    + destruct Hst as [Hst|Hst]; subst st; [done|]. rewrite app_nil_r, step_up, replicate_S_end. by rewrite walk_snoc.
    + apply names_snoc in Hws as [Hws Hw]. pose proof Hw as (Hword & ? & ?).
      destruct Hst as [Hst|Hst]; subst st; rewrite ?app_comm_cons, ?app_assoc, step_snoc_name by (by auto using word_not_root);
        rewrite walk_snoc, (walk1_name _ w), walk1_up by done; done.
  - rewrite step_name by done. by rewrite walk_snoc.
Qed.
Lemma walk_fold cwd es st :
  normal st → (∀ e, e ∈ es → word e) → walk cwd (foldl normalize_step st es) = walk (walk cwd st) es.
Proof.
  revert st. induction es as [|e es IH]; intros st Hst Hes; [done|]. cbn [foldl].
  assert (He : word e) by (apply Hes; left). rewrite IH; [|by apply normal_step|intros x Hx; apply Hes; by right].
  by rewrite walk_step.
Qed.
Lemma walk_reduce cwd p : walk cwd (reduce p) = resolve cwd p.
Proof.
  unfold reduce, resolve, components. destruct (is_absolute p).
  - cbn [app foldl]. rewrite (proj2 (step_root [])) by done. rewrite walk_fold; [done| |intros e; apply seg_words].
    exists 0, []. split; [by intros w ?%elem_of_nil|by left].
  - apply walk_fold; [apply normal_nil|intros e; apply seg_words].
Qed.

Lemma reduce_normal st : normal st → foldl normalize_step [] st = st.
Proof.
  intros (k & ws & Hws & Hst).
  assert (Hfold : ∀ ws st0, (∀ w, w ∈ ws → name w) → foldl normalize_step st0 ws = st0 ++ ws).
  { clear. induction ws as [|w ws IH]; intros st0 Hws; [by rewrite app_nil_r|]. cbn [foldl]. rewrite step_name by (apply Hws; left).
    rewrite IH by (intros x Hx; apply Hws; by right). by rewrite <- app_assoc. }
  destruct Hst as [Hst|Hst]; subst st; [cbn [foldl]; rewrite (proj2 (step_root [])) by done; by apply Hfold|].
  rewrite foldl_app. replace (foldl normalize_step [] (replicate k DOTDOT)) with (replicate k DOTDOT); [by apply Hfold|].
  induction k as [|k IH]; [done|]. rewrite replicate_S_end, foldl_app, <- IH. cbn [foldl]. by rewrite step_up, <- replicate_S_end.
Qed.

(** *** The result, and reading it back *)

Definition render (st : list str) : str :=
  if length (build st) =? 0 then DOT else if 1 <? length (build st) then removelast (build st) else build st.

Lemma normalize_run p : normalize p = Some (if length p =? 0 then [] else render (reduce p)).
Proof. unfold normalize. rewrite entries_run. by destruct (length p =? 0). Qed.

Lemma build_cons w ws : word w → build (w :: ws) = w ++ slash :: build ws.
Proof. intros Hw. cbn [build]. rewrite bool_decide_eq_false_2 by (by apply word_not_root). done. Qed.
Lemma build_segments ws : (∀ w, w ∈ ws → word w) → segments (build ws) = ws.
Proof.
  induction ws as [|w ws IH]; intros Hws; [done|]. assert (Hw : word w) by (apply Hws; left).
  rewrite build_cons, seg_word by done. f_equal. apply IH. intros x Hx. apply Hws. by right.
Qed.
Lemma build_last ws : (∀ w, w ∈ ws → word w) → ws ≠ [] →
  ∃ c l, build ws = (c :: l) ++ [slash] ∧ c ≠ slash ∧ segments (c :: l) = ws.
Proof.
  intros Hws Hne.
  assert (Hl : ∃ l, build ws = l ++ [slash]).
  { clear Hws. destruct ws as [|w ws _] using rev_ind; [done|]. clear Hne.
    induction ws as [|x ws [l Hl]]; cbn [app build].
    - destruct (decide (w = ROOT)) as [->|Hw]; [by exists []|]. rewrite bool_decide_eq_false_2 by done. by exists w.
    - rewrite Hl. exists (x ++ (if bool_decide (x = ROOT) then [] else [slash]) ++ l). by rewrite <- !app_assoc. }
  destruct Hl as [l Hl]. pose proof (build_segments ws Hws) as Hs.
  destruct ws as [|w ws]; [done|]. assert (Hw : word w) by (apply Hws; left).
  rewrite Hl, seg_snoc_slash in Hs. destruct l as [|c l]; [by rewrite seg_nil in Hs|]. exists c, l. split_and!; [done| |done].
  rewrite build_cons in Hl by done. destruct Hw as [Hw1 Hw2]. destruct w as [|d w]; [done|]. simpl in Hl.
  injection Hl as -> _. apply not_elem_of_cons in Hw2 as [? _]. congruence.
Qed.

Lemma dotdot_word : word DOTDOT.
Proof. split; [done|]. by repeat (apply not_elem_of_cons; split; [done|]); apply not_elem_of_nil. Qed.
Lemma normal_cases st : normal st → st ≠ [] →
  (∃ ws, st = ROOT :: ws ∧ ∀ w, w ∈ ws → word w) ∨ (∀ w, w ∈ st → word w).
Proof.
  intros (k & ws & Hws & [->|Hst]) Hne; [left; exists ws; split; [done|]; intros w Hw; by apply Hws|].
  right. rewrite Hst. intros w [Hw|Hw]%elem_of_app; [|by apply Hws].
  apply elem_of_replicate_inv in Hw as ->. apply dotdot_word.
Qed.

(** The text of a normal form has it as its entries. *)
Lemma render_components st : normal st → st ≠ [] → components (render st) = st.
Proof.
  intros Hn Hne. destruct (normal_cases st Hn Hne) as [(ws & -> & Hws)|Hws].
  - destruct (decide (ws = [])) as [->|Hw]; [done|]. destruct (build_last ws Hws Hw) as (c & l & E & Hc & Hs).
    unfold render. cbn [build]. rewrite bool_decide_eq_true_2 by done. rewrite E.
    change (ROOT ++ [] ++ (c :: l) ++ [slash]) with ((slash :: c :: l) ++ [slash]).
    rewrite length_app, removelast_snoc. cbn [length Nat.add Nat.eqb]. rewrite (proj2 (Nat.ltb_lt 1 _)) by lia.
    unfold components. cbn [is_absolute length Nat.eqb negb andb]. rewrite seg_slash, Hs. done.
  - destruct (build_last st Hws Hne) as (c & l & E & Hc & Hs). unfold render. rewrite E.
    rewrite length_app, removelast_snoc. cbn [length Nat.add Nat.eqb]. rewrite (proj2 (Nat.ltb_lt 1 _)) by lia.
    unfold components, is_absolute. simpl. rewrite bool_decide_eq_false_2 by congruence. done.
Qed.
Lemma render_nonempty st : (length (render st) =? 0) = false.
Proof.
  unfold render. destruct (build st) as [|c [|d l]]; [done|done|]. simpl. by destruct (removelast (d :: l)).
Qed.
Lemma reduce_render st : normal st → reduce (render st) = st.
Proof.
  intros Hn. destruct (decide (st = [])) as [->|Hne]; [done|]. unfold reduce. rewrite render_components by done. by apply reduce_normal.
Qed.

(** C34: [normalize] returns, and the path it returns leads from every directory to
    where the given one leads; it is its own normal form, and has no [.] and no [..]
    but leading ones of a relative path, or is [.] itself. *)
Theorem path_normalize_spec p :
  ∃ n, normalize p = Some n ∧ (∀ cwd, resolve cwd n = resolve cwd p) ∧ normalize n = Some n ∧
    (n = [] ∨ n = DOT ∨ normal (components n)).
Proof.
  rewrite normalize_run. destruct (length p =? 0) eqn:E.
  { exists []. apply Nat.eqb_eq, length_zero_iff_nil in E as ->. split_and!; [done|done|done|by left]. }
  pose proof (normal_reduce p) as Hn. exists (render (reduce p)). split; [done|]. split_and!.
  - intros cwd. rewrite <- !walk_reduce. by rewrite reduce_render.
  - rewrite normalize_run, render_nonempty. by rewrite reduce_render.
  - right. destruct (decide (reduce p = [])) as [->|Hne]; [by left|]. right. by rewrite render_components.
Qed.

(** ** [relative_to] of absolute paths *)

Lemma step_abs ws e : (∀ w, w ∈ ws → name w) → word e →
  ∃ ws', normalize_step (ROOT :: ws) e = ROOT :: ws' ∧ ∀ w, w ∈ ws' → name w.
Proof.
  intros Hws [->|[->|He]]%word_cases.
  - exists ws. by rewrite step_dot.
  - destruct ws as [|w ws _] using rev_ind; [by exists []|]. apply names_snoc in Hws as [Hws (Hw & ? & ?)].
    exists ws. rewrite app_comm_cons, step_snoc_name by (by auto using word_not_root). done.
  - exists (ws ++ [e]). rewrite step_name by done. split; [done|]. by apply names_snoc.
Qed.
Lemma reduce_absolute p : is_absolute p = true → ∃ ws, reduce p = ROOT :: ws ∧ ∀ w, w ∈ ws → name w.
Proof.
  intros Ha. unfold reduce, components. rewrite Ha. cbn [app foldl]. rewrite (proj2 (step_root [])) by done.
  assert (Hn : ∀ w : str, w ∈ [] → name w) by (by intros w ?%elem_of_nil). revert Hn. generalize (@nil str) as ws.
  assert (Hes : ∀ e, e ∈ segments p → word e) by (intros e; apply seg_words). revert Hes. generalize (segments p) as es.
  induction es as [|e es IH]; intros Hes ws Hws; [by exists ws|]. cbn [foldl].
  destruct (step_abs ws e Hws) as (ws' & -> & Hws'); [apply Hes; left|]. apply IH; [|done]. intros x Hx. apply Hes. by right.
Qed.

Lemma walk_names ws cwd : (∀ w, w ∈ ws → name w) → walk cwd ws = rev ws ++ cwd.
Proof.
  revert cwd. induction ws as [|w ws IH]; intros cwd Hws; [done|]. unfold walk in *. cbn [foldl rev].
  rewrite walk1_name by (apply Hws; left). rewrite IH by (intros x Hx; apply Hws; by right). by rewrite <- app_assoc.
Qed.
Lemma walk_ups n cwd : walk cwd (replicate n DOTDOT) = drop n cwd.
Proof.
  revert cwd. induction n as [|n IH]; intros cwd; [done|]. unfold walk in *. cbn [replicate foldl]. rewrite walk1_up, IH.
  destruct cwd; [simpl; by rewrite drop_nil|done].
Qed.

(** *** The two loops *)

Lemma skip_common_run fuel p1 p2 j1 j2 :
  end_ j1 <= length p1 → end_ j2 <= length p2 → length p1 - end_ j1 < fuel →
  ∃ c k1 k2, skip_common fuel p1 (locate_next p1 j1) p2 (locate_next p2 j2) = Some (locate_next p1 k1, locate_next p2 k2) ∧
    end_ k1 <= length p1 ∧ end_ k2 <= length p2 ∧
    segments (drop (end_ j1) p1) = c ++ segments (drop (end_ k1) p1) ∧
    segments (drop (end_ j2) p2) = c ++ segments (drop (end_ k2) p2).
Proof.
  revert j1 j2. induction fuel as [|fuel IH]; intros j1 j2 H1 H2 Hf; [lia|]. cbn [skip_common].
  destruct (located p1 j1 H1) as [(_ & E1 & _)|(b1 & _ & E1 & Hlt1 & _ & _ & _ & S1)]; rewrite E1; cbn [negb andb].
  { by exists [], j1, j2. }
  destruct (located p2 j2 H2) as [(_ & E2 & _)|(b2 & _ & E2 & Hlt2 & _ & _ & _ & S2)]; rewrite E2; cbn [negb andb].
  { by exists [], j1, j2. }
  case_bool_decide as Ec; [|by exists [], j1, j2].
  destruct (IH (locate_next p1 j1) (locate_next p2 j2)) as (c & k1 & k2 & E & K1 & K2 & C1 & C2); [lia|lia|lia|].
  exists (current_entry (locate_next p1 j1) :: c), k1, k2. rewrite E, S1, S2, C1, C2, Ec. done.
Qed.

Definition up_text (n : nat) : str := mjoin (replicate n (DOTDOT ++ [slash])).
Lemma ups_run fuel p j :
  end_ j <= length p → length p - end_ j < fuel →
  ups fuel p (locate_next p j) = Some (up_text (length (segments (drop (end_ j) p)))).
Proof.
  revert j. induction fuel as [|fuel IH]; intros j Hj Hf; [lia|]. cbn [ups].
  destruct (located p j Hj) as [(S & E & _)|(b & _ & E & Hlt & _ & _ & _ & S)]; rewrite E, S; [done|].
  rewrite IH by lia. done.
Qed.
Lemma up_text_segments n l : segments (up_text n ++ l) = replicate n DOTDOT ++ segments l.
Proof.
  induction n as [|n IH]; [done|]. unfold up_text in *. cbn [replicate mjoin list_join]. rewrite <- !app_assoc.
  change ([slash] ++ mjoin (replicate n (DOTDOT ++ [slash])) ++ l) with (slash :: (mjoin (replicate n (DOTDOT ++ [slash])) ++ l)).
  rewrite seg_word by apply dotdot_word. cbn [app]. f_equal. exact IH.
Qed.
Lemma up_text_relative n l : (n = 0 → is_absolute l = false) → is_absolute (up_text n ++ l) = false.
Proof. intros Hn. destruct n as [|n]; [by apply Hn|done]. Qed.

(** *** No zero byte appears *)

Lemma c_str_id l : nul ∉ l → c_str l = l.
Proof.
  induction l as [|c l IH]; [done|]. intros [Hc Hl]%not_elem_of_cons. cbn [c_str]. rewrite bool_decide_eq_false_2 by congruence.
  by rewrite IH.
Qed.
Lemma seg_chars l w c : w ∈ segments l → c ∈ w → c ∈ l.
Proof.
  unfold segments. rewrite list_elem_of_filter. intros [_ Hin]. revert w Hin. induction l as [|d l IH]; simpl.
  - by intros w ->%list_elem_of_singleton.
  - case_bool_decide as E.
    + intros w [->|Hin]%elem_of_cons Hc; [by apply elem_of_nil in Hc|]. right. by apply (IH w).
    + intros w. destruct (split_slash l) as [|x xs]; [by intros ->%list_elem_of_singleton; rewrite list_elem_of_singleton; intros ->; left|].
      intros [->|Hin]%elem_of_cons Hc; [|right; apply (IH w); [by right|done]].
      apply elem_of_cons in Hc as [->|Hc]; [left|]. right. apply (IH x); [left|done].
Qed.
Lemma step_subset st e x : x ∈ normalize_step st e → x ∈ st ∨ x = e.
Proof.
  unfold normalize_step. repeat case_bool_decide; try (by left); [|set_solver].
  destruct (back st) as [y|]; [|set_solver]. repeat case_bool_decide; [set_solver|by left|]. left.
  destruct st as [|z st _] using rev_ind; [done|]. rewrite removelast_snoc in *. set_solver.
Qed.
Lemma reduce_subset p x : x ∈ reduce p → x = ROOT ∨ x ∈ segments p.
Proof.
  unfold reduce. assert (Hf : ∀ es st, x ∈ foldl normalize_step st es → x ∈ st ∨ x ∈ es).
  { induction es as [|e es IH]; intros st Hx; [by left|]. cbn [foldl] in Hx. apply IH in Hx as [Hx|Hx]; [|right; by right].
    apply step_subset in Hx as [Hx| ->]; [by left|right; left]. }
  intros [Hx|Hx]%Hf; [by apply elem_of_nil in Hx|]. unfold components in Hx. destruct (is_absolute p); set_solver.
Qed.
Lemma build_chars st c : c ∈ build st → c = slash ∨ ∃ e, e ∈ st ∧ c ∈ e.
Proof.
  induction st as [|e st IH]; cbn [build]; [by intros ?%elem_of_nil|]. rewrite !elem_of_app. intros [Hc|[Hc|Hc]].
  - right. exists e. split; [left|done].
  - left. destruct (bool_decide (e = ROOT)); set_solver.
  - destruct (IH Hc) as [?|(x & ? & ?)]; [by left|right]. exists x. split; [by right|done].
Qed.
Lemma removelast_subset {A} (l : list A) x : x ∈ removelast l → x ∈ l.
Proof. destruct l as [|y l _] using rev_ind; [done|]. rewrite removelast_snoc. set_solver. Qed.
Lemma norm_no_nul p : nul ∉ p → nul ∉ render (reduce p).
Proof.
  intros Hp. assert (Hb : nul ∉ build (reduce p)).
  { intros [?|(e & He & Hc)]%build_chars; [done|]. apply reduce_subset in He as [->|He]; [by apply list_elem_of_singleton in Hc|].
    apply Hp. by apply (seg_chars p e). }
  unfold render. repeat case_match; [|by intros ?%removelast_subset|done]. by intros ?%list_elem_of_singleton.
Qed.

(** The normal form of an absolute path. *)
Lemma norm_absolute p : is_absolute p = true →
  ∃ n ws, normalize p = Some n ∧ n = render (reduce p) ∧ is_absolute n = true ∧ segments n = ws ∧ (∀ w, w ∈ ws → name w) ∧
    ∀ cwd, resolve cwd p = rev ws.
Proof.
  intros Ha. destruct (reduce_absolute p Ha) as (ws & Er & Hws). exists (render (reduce p)), ws.
  assert (Hn : normalize p = Some (render (reduce p))) by (rewrite normalize_run; by destruct (absolute_cons p Ha) as [r ->]).
  assert (Hc : components (render (reduce p)) = ROOT :: ws).
  { rewrite render_components; [done|apply normal_reduce|by rewrite Er]. }
  split; [done|]. split; [done|]. unfold components in Hc. destruct (is_absolute (render (reduce p))) eqn:Ea.
  - split; [done|]. injection Hc as Hc. split_and!; [done|done|]. intros cwd. rewrite <- walk_reduce, Er. unfold walk. cbn [foldl].
    change (walk1 cwd ROOT) with (@nil str). etrans; [by apply (walk_names ws [])|]. apply app_nil_r.
  - exfalso. cbn [app] in Hc. assert (Hr : word ROOT) by (apply (seg_words (render (reduce p))); rewrite Hc; left). by apply word_not_root in Hr.
Qed.

Lemma located_begin p j : end_ j <= length p →
  ∃ b, begin_ (locate_next p j) = Some b ∧ segments (drop b p) = segments (drop (end_ j) p) ∧ is_absolute (drop b p) = false.
Proof.
  intros Hj. destruct (located p j Hj) as [(S & _ & E & _)|(b & E & _ & _ & _ & S & (c & r & Ed & Hc) & _)].
  - exists (length p). rewrite drop_all. by rewrite S.
  - exists b. split_and!; [done|done|]. rewrite Ed. unfold is_absolute. simpl. by apply bool_decide_eq_false_2; congruence.
Qed.

(** For absolute paths [relative_to] returns a path that leads from the base to
    the path it was asked for. *)
Theorem path_relative_to_spec p base :
  is_absolute p = true → is_absolute base = true → nul ∉ p →
  ∃ r, relative_to p base = Some r ∧ ∀ cwd, resolve (resolve cwd base) r = resolve cwd p.
Proof.
  intros Hp Hb Hnul. destruct (norm_absolute p Hp) as (n1 & ws1 & E1 & En1 & A1 & S1 & N1 & R1).
  destruct (norm_absolute base Hb) as (n2 & ws2 & E2 & _ & A2 & S2 & N2 & R2).
  assert (Hn : nul ∉ n1) by (rewrite En1; by apply norm_no_nul). clear En1.
  pose proof (absolute_cons n1 A1) as [t1 Et1]. pose proof (absolute_cons n2 A2) as [t2 Et2].
  set (j1 := mkIt None 0 (take 1 n1)). set (j2 := mkIt None 0 (take 1 n2)).
  assert (B1 : path_begin n1 = j1) by (unfold path_begin, is_relative; by rewrite A1).
  assert (B2 : path_begin n2 = j2) by (unfold path_begin, is_relative; by rewrite A2).
  assert (Eq : current_entry j1 = current_entry j2) by (unfold j1, j2; by rewrite Et1, Et2).
  destruct (skip_common_run (length n1 + 1) n1 n2 j1 j2) as (c & k1 & k2 & E & K1 & K2 & C1 & C2); [simpl; lia..|].
  cbn [j1 j2 end_] in C1, C2. rewrite drop_0, S1 in C1. rewrite drop_0, S2 in C2.
  destruct (located_begin n1 k1 K1) as (b & Eb & Sb & Ab).
  set (u := length (segments (drop (end_ k2) n2))) in *.
  assert (Erel : relative_to p base = Some (if length (up_text u ++ drop b n1) =? 0 then DOT else up_text u ++ drop b n1)).
  { unfold relative_to. rewrite E1, E2. cbn [mbind option_bind]. rewrite B1, B2.
    rewrite bool_decide_eq_true_2 by exact Eq. cbn [negb]. replace (length n1 + 2) with (S (length n1 + 1)) by lia.
    cbn [skip_common]. unfold j1 at 1, j2 at 1. rewrite !it_eq_npos. rewrite bool_decide_eq_true_2 by exact Eq. cbn [negb andb].
    rewrite E. cbn [mbind option_bind]. rewrite ups_run by lia. cbn [mbind option_bind]. rewrite Eb. cbn [mbind option_bind].
    rewrite c_str_id; [done|]. intros Hin. apply Hn. rewrite <- (take_drop b n1). apply elem_of_app. by right. }
  eexists. split; [exact Erel|]. intros cwd. rewrite R1, R2.
  assert (Hw : walk (rev ws2) (replicate u DOTDOT ++ segments (drop b n1)) = rev ws1).
  { unfold walk. rewrite foldl_app. fold (walk (rev ws2) (replicate u DOTDOT)). rewrite walk_ups, C2, rev_app_distr.
    rewrite drop_app_length' by (by rewrite length_rev). rewrite Sb. etrans; [apply walk_names|].
    - intros w Hw. apply N1. rewrite C1. apply elem_of_app. by right.
    - by rewrite C1, rev_app_distr. }
  destruct (length (up_text u ++ drop b n1) =? 0) eqn:El.
  - apply Nat.eqb_eq, length_zero_iff_nil, app_nil in El as [Eu Ed]. rewrite Ed in Hw.
    rewrite <- Hw. by destruct u.
  - unfold resolve at 1, components. rewrite up_text_relative by done. by rewrite up_text_segments.
Qed.

(** For relative paths it can be wrong: an entry [..] left over in the base is
    counted as a directory to leave. *)
Theorem path_relative_to_parent_wrong :
  let p := DOTDOT in let base := DOTDOT ++ [slash] ++ DOTDOT in
  relative_to p base = Some (DOTDOT ++ [slash]) ∧
  ∃ cwd, resolve (resolve cwd base) (DOTDOT ++ [slash]) ≠ resolve cwd p.
Proof.
  split; [vm_compute; reflexivity|]. exists [[dot; slash]; [slash; dot]; ROOT]. vm_compute. discriminate.
Qed.

(** ** Names *)

Lemma find_last_bound c p n : find_last c p n <= n.
Proof. induction n as [|n IH]; simpl; [done|]. case_bool_decide; lia. Qed.

(** [stem] and [extension] split the file name. *)
Lemma stem_extension p : stem p ++ extension p = filename p.
Proof.
  unfold stem, extension. destruct (bool_decide (filename p = DOT) || bool_decide (filename p = DOTDOT)); [apply app_nil_r|].
  case_bool_decide; [|apply app_nil_r]. destruct (_ =? 0); [apply app_nil_r|apply take_drop].
Qed.
(** The parent joined with the file name is the path, when a slash is not its first
    character only. *)
Lemma parent_filename p :
  p !! find_last slash p (length p) = Some slash → find_last slash p (length p) ≠ 0 →
  join (parent_path p) (filename p) = p.
Proof.
  intros Hs Hz. unfold parent_path, filename. set (i := find_last slash p (length p)) in *.
  rewrite bool_decide_eq_true_2 by done. rewrite (proj2 (Nat.eqb_neq i 0)) by done.
  assert (Hlt : i < length p) by by apply lookup_lt_Some in Hs. unfold join.
  rewrite length_take, Nat.min_l by lia. rewrite (proj2 (Nat.eqb_neq i 0)) by done. cbn [negb]. rewrite Nat.add_1_r, <- app_assoc.
  cbn [app]. rewrite <- (drop_S p slash i Hs). apply take_drop.
Qed.

(** [starts_with] accepts a prefix that ends where a name ends. *)
Lemma starts_with_spec p q :
  starts_with p q = true ↔ q = [] ∨ ∃ r, p = q ++ r ∧ (r = [] ∨ q !! (length q - 1) = Some slash ∨ r !! 0 = Some slash).
Proof.
  unfold starts_with. destruct (Nat.eqb_spec (length q) 0) as [E|E].
  { apply length_zero_iff_nil in E as ->. naive_solver. }
  assert (Hq : q ≠ []) by (by intros ->).
  destruct (Nat.ltb_spec (length p) (length q)) as [Hl|Hl].
  { split; [done|]. intros [?|(r & -> & _)]; [done|]. rewrite length_app in Hl. lia. }
  case_bool_decide as Et; cbn [negb].
  2: { split; [done|]. intros [?|(r & -> & _)]; [done|]. by rewrite take_app_length in Et. }
  assert (Hp : p = q ++ drop (length q) p) by (rewrite <- Et at 1; by rewrite take_drop).
  destruct (Nat.eqb_spec (length p) (length q)) as [El|El].
  { split; [|done]. intros _. right. exists []. split; [|by left]. rewrite drop_ge in Hp by lia. done. }
  rewrite orb_true_iff, !bool_decide_eq_true. split.
  - intros Hs. right. exists (drop (length q) p). split; [done|]. right. destruct Hs as [?|Hs]; [by left|right].
    by rewrite lookup_drop, Nat.add_0_r.
  - intros [?|(r & Er & Hs)]; [done|]. rewrite Er in El |- *. destruct Hs as [->|[?|Hs]]; [by rewrite app_nil_r in El|by left|right].
    by rewrite lookup_app_r, Nat.sub_diag by done.
Qed.
End Path.

Module PathWitness.
Import Path.
Definition lit (s : string) : str := String.list_ascii_of_string s.
Example norm_ex : normalize (lit "/a//./b/../../c/") = Some (lit "/c").
Proof. vm_compute. reflexivity. Qed.
Lemma path_relative_to_spec_witness :
  ∃ r, relative_to (lit "/a/b/c") (lit "/a/x") = Some r ∧
    resolve (resolve [] (lit "/a/x")) r = resolve [] (lit "/a/b/c").
Proof.
  destruct (path_relative_to_spec (lit "/a/b/c") (lit "/a/x")) as (r & E & Hr);
    [reflexivity|reflexivity|apply (bool_decide_unpack _); vm_compute; exact I|].
  exists r. split; [exact E|exact (Hr [])].
Defined.
End PathWitness.
