(* ===== verification/PathBelow.v ===== *)
(** * Paths below a directory

    [starts_with] and [relative_to] of [util::Path] on a relative directory made of
    names only and a path below it, as file systems use them to list a directory: the
    two agree on what is left, and it is a single name when it is its own file name. *)

From Stdlib Require Import Ascii.
From S2P Require Import Prelude ErrCode Path.

#[local] Open Scope nat_scope.

Module PathBelow.
Import Path.

(** The loops of paths always return ([Path.normalize_run] and others), so that a
    computation never gets to the second case. *)
Definition returned {S A} (x : option A) : M S A :=
  match x with Some a => mret a | None => no_fuel end.

(** ** Segments, file names and texts *)

Lemma seg_slash_app a b : segments (a ++ slash :: b) = segments a ++ segments b.
Proof.
  unfold segments. rewrite <- filter_app. f_equal. induction a as [|c a IH]; [done|]. cbn [app split_slash]. rewrite IH.
  case_bool_decide; [done|]. pose proof (split_nonempty a). by destruct (split_slash a).
Qed.
Lemma seg_empty l : segments l = [] → ∀ c, c ∈ l → c = slash.
Proof.
  unfold segments. induction l as [|d l IH]; intros E c; [by intros ?%elem_of_nil|]. cbn [split_slash] in E.
  case_bool_decide as Ed; [rewrite filter_cons_False in E by (intros H; by apply H); intros [->|Hc]%elem_of_cons; auto|].
  pose proof (split_nonempty l). destruct (split_slash l) as [|w ws]; [done|]. by rewrite filter_cons_True in E.
Qed.

Lemma find_last_spec c p n : n <= length p → c ∈ take n p → p !! find_last c p n = Some c.
Proof.
  induction n as [|n IH]; intros Hn; [by intros ?%elem_of_nil|]. cbn [find_last]. intros Hc. case_bool_decide as E; [done|].
  destruct (p !! n) as [d|] eqn:Ed; [|apply lookup_ge_None in Ed; lia]. rewrite (take_S_r _ _ _ Ed) in Hc.
  apply elem_of_app in Hc as [Hc| ->%list_elem_of_singleton]; [|done]. apply IH; [lia|done].
Qed.
Lemma filename_id t : t ≠ [] → filename t = t ↔ slash ∉ t.
Proof.
  intros Ht. unfold filename. case_bool_decide as E.
  - split; [|intros Hs; exfalso; apply Hs; by eapply list_elem_of_lookup_2].
    intros Hd. assert (Hl : length (drop (find_last slash t (length t) + 1) t) = length t) by by rewrite Hd.
    rewrite length_drop in Hl. destruct t; [done|simpl in *; lia].
  - split; [|done]. intros _ Hs. apply E. apply find_last_spec; [done|by rewrite firstn_all].
Qed.
Lemma seg_single t w : segments t = [w] → is_absolute t = false → last t ≠ Some slash → t = w ∧ slash ∉ t.
Proof.
  intros Hs Ha Hl. destruct (decide (slash ∈ t)) as [Hin|Hin].
  - exfalso. apply list_elem_of_split_l in Hin as (a & b & -> & Hna). rewrite seg_slash_app in Hs.
    assert (Hne : a ≠ []) by (intros ->; done). rewrite (seg_word_end a) in Hs by by split. injection Hs as _ Hb.
    apply Hl. rewrite last_app_cons. destruct b as [|c b _] using rev_ind; [done|].
    rewrite app_comm_cons, last_snoc. f_equal. apply (seg_empty _ Hb). set_solver.
  - assert (Ht : t ≠ []) by (by intros ->). rewrite seg_word_end in Hs by by split. by injection Hs.
Qed.

(** The text of a list of names. *)
Fixpoint text (ws : list str) : str :=
  match ws with [] => [] | w :: ws => match ws with [] => w | _ => w ++ slash :: text ws end end.
Lemma text_cons w ws : ws ≠ [] → text (w :: ws) = w ++ slash :: text ws.
Proof. by destruct ws. Qed.
Lemma build_text ws : (∀ w, w ∈ ws → word w) → ws ≠ [] → build ws = text ws ++ [slash].
Proof.
  induction ws as [|w ws IH]; intros Hws Hne; [done|]. rewrite build_cons by (apply Hws; left).
  destruct ws as [|x ws]; [done|]. rewrite IH; [|intros y Hy; apply Hws; by right|done]. rewrite (text_cons w) by done. by rewrite <- app_assoc.
Qed.
Lemma text_nonempty ws : (∀ w, w ∈ ws → word w) → ws ≠ [] → ∃ c l, text ws = c :: l ∧ c ≠ slash.
Proof.
  intros Hws Hne. destruct ws as [|w ws]; [done|]. destruct (Hws w) as [Hw Hs]; [left|]. destruct w as [|c w]; [done|].
  apply not_elem_of_cons in Hs as [Hs _]. destruct ws as [|x ws]; cbn [text app]; [by exists c, w|by eexists c, _].
Qed.
Lemma render_text ws : (∀ w, w ∈ ws → word w) → ws ≠ [] → render ws = text ws.
Proof.
  intros Hws Hne. unfold render. rewrite build_text by done. destruct (text_nonempty ws Hws Hne) as (c & l & E & _).
  rewrite length_app, removelast_snoc, E. cbn [length Nat.add Nat.eqb]. by rewrite (proj2 (Nat.ltb_lt 1 _)) by lia.
Qed.
Lemma text_segments ws : (∀ w, w ∈ ws → word w) → ws ≠ [] → segments (text ws) = ws.
Proof. intros Hws Hne. rewrite <- seg_snoc_slash, <- build_text by done. by apply build_segments. Qed.
Lemma text_app ws rest : ws ≠ [] → rest ≠ [] → text (ws ++ rest) = text ws ++ slash :: text rest.
Proof.
  induction ws as [|w ws IH]; intros Hne Hr; [done|]. destruct ws as [|x ws]; cbn [app].
  - by rewrite text_cons.
  - rewrite !(text_cons w) by done. rewrite app_comm_cons, IH by done. by rewrite <- app_assoc.
Qed.
Lemma text_last ws : (∀ w, w ∈ ws → word w) → last (text ws) ≠ Some slash.
Proof.
  induction ws as [|w ws IH]; intros Hws; [done|]. destruct ws as [|x ws].
  - destruct (Hws w) as [_ Hs]; [left|]. cbn [text]. intros Hl. apply Hs. by apply last_Some_elem_of.
  - rewrite text_cons by done. destruct (text_nonempty (x :: ws)) as (c & l & E & _); [intros y Hy; apply Hws; by right|done|].
    rewrite last_app_cons, E, last_cons_cons, <- E. apply IH. intros y Hy. apply Hws. by right.
Qed.

(** *** A directory of names *)

Section below.
Context (base : str) (ws : list str) (Hws : ∀ w, w ∈ ws → name w) (Hne : ws ≠ []) (Hbase : reduce base = ws).

Lemma below_words w : w ∈ ws → word w.
Proof using Hws. intros Hw. by apply Hws. Qed.
Lemma below_all p rest : reduce p = ws ++ rest → ∀ w, w ∈ ws ++ rest → word w.
Proof using All.
  intros Hr. assert (Hnn : reduce p ≠ []) by (rewrite Hr; by destruct ws).
  destruct (normal_cases (reduce p) (normal_reduce p) Hnn) as [(ys & E & _)|H]; [|by rewrite Hr in H].
  exfalso. rewrite Hr in E. apply (word_not_root ROOT); [|done]. apply below_words. destruct ws as [|w ws']; [done|].
  injection E as -> _. left.
Qed.
Lemma base_nonempty : (length base =? 0) = false.
Proof using Hne Hbase. destruct base as [|c l]; [|done]. by rewrite <- Hbase in Hne. Qed.
Lemma normalize_base : normalize base = Some (text ws).
Proof using All. rewrite normalize_run, base_nonempty, Hbase. by rewrite render_text by auto using below_words. Qed.

(** The normal form of [p] starts with that of [base] when its names start with its. *)
Lemma starts_with_below p n : normalize p = Some n →
  (starts_with n (text ws) = true ↔ ∃ rest, reduce p = ws ++ rest).
Proof using All.
  rewrite normalize_run. intros [= <-]. destruct (text_nonempty ws) as (c & l & Et & Hc); [auto using below_words|done|].
  assert (Hseg := text_segments ws below_words Hne). rewrite starts_with_spec. split.
  - intros [E|(r & E & Hr)]; [by rewrite E in Et|].
    assert (Hr' : r = [] ∨ ∃ r', r = slash :: r').
    { destruct Hr as [->|[Hr|Hr]]; [by left| |right; destruct r as [|d r]; [done|]; injection Hr as ->; by exists r].
      exfalso. apply (text_last ws below_words). by rewrite last_lookup, <- Nat.sub_1_r. }
    assert (Hs : ∃ rest, segments (text ws ++ r) = ws ++ rest).
    { destruct Hr' as [->|[r' ->]]; [exists []; by rewrite !app_nil_r|]. exists (segments r'). by rewrite seg_slash_app, Hseg. }
    destruct Hs as [rest Hs]. destruct (length p =? 0) eqn:Ep; [by rewrite Et in E|].
    destruct (decide (reduce p = [])) as [Er|Er].
    { exfalso. rewrite <- E, Er in Hs. change (segments (render [])) with [DOT] in Hs.
      destruct ws as [|w ws']; [done|]. injection Hs as Hw _. destruct (Hws DOT) as (_ & ? & _); [rewrite <- Hw; left|done]. }
    exists rest. pose proof (render_components _ (normal_reduce p) Er) as Hcomp. rewrite E in Hcomp. unfold components in Hcomp.
    rewrite Hs in Hcomp. unfold is_absolute in Hcomp. rewrite Et in Hcomp. cbn in Hcomp.
    rewrite bool_decide_eq_false_2 in Hcomp by congruence. done.
  - intros [rest Hr]. right. destruct (length p =? 0) eqn:Ep.
    { apply Nat.eqb_eq, length_zero_iff_nil in Ep as ->. destruct ws; [done|]. by cbn in Hr. }
    rewrite Hr. pose proof (below_all p rest Hr) as Hall.
    rewrite render_text; [|done|by destruct ws]. destruct rest as [|x rest]; [exists []; rewrite !app_nil_r; by split; [|left]|].
    exists (slash :: text (x :: rest)). split; [by apply text_app|]. by right; right.
Qed.

(** The loop over what both have in common stops where the base ends. *)
Lemma skip_common_prefix fuel p1 p2 j1 j2 rest :
  end_ j1 <= length p1 → end_ j2 <= length p2 → length p1 - end_ j1 < fuel →
  segments (drop (end_ j1) p1) = segments (drop (end_ j2) p2) ++ rest →
  ∃ k1 k2, skip_common fuel p1 (locate_next p1 j1) p2 (locate_next p2 j2) = Some (locate_next p1 k1, locate_next p2 k2) ∧
    end_ k1 <= length p1 ∧ end_ k2 <= length p2 ∧
    segments (drop (end_ k1) p1) = rest ∧ segments (drop (end_ k2) p2) = [].
Proof using.
  clear. revert j1 j2. induction fuel as [|fuel IH]; intros j1 j2 H1 H2 Hf Hs; [lia|]. cbn [skip_common].
  destruct (located p2 j2 H2) as [(S2 & E2 & _)|(b2 & _ & E2 & Hlt2 & _ & _ & _ & S2)]; rewrite E2, S2 in *; cbn [negb andb].
  { rewrite andb_false_r. exists j1, j2. by rewrite Hs. }
  destruct (located p1 j1 H1) as [(S1 & E1 & _)|(b1 & _ & E1 & Hlt1 & _ & _ & _ & S1)]; rewrite E1, S1 in *; cbn [negb andb].
  { done. }
  cbn [app] in Hs. injection Hs as Hc Hs. rewrite bool_decide_eq_true_2 by done.
  apply IH; [lia|lia|lia|done].
Qed.

(** What [relative_to] leaves: [.], or a path with the remaining names. *)
Lemma relative_to_below p rest : reduce p = ws ++ rest → nul ∉ p →
  ∃ n r, normalize p = Some n ∧ relative_to n (text ws) = Some r ∧
    (rest = [] → r = DOT) ∧
    (rest ≠ [] → segments r = rest ∧ is_absolute r = false ∧ last r ≠ Some slash).
Proof using All.
  intros Hr Hnul. assert (Hp : (length p =? 0) = false).
  { destruct p; [|done]. destruct ws; [done|]. by cbn in Hr. }
  pose proof (below_all p rest Hr) as Hall.
  assert (Hnn : ws ++ rest ≠ []) by by destruct ws.
  set (n := text (ws ++ rest)). assert (Hn : render (reduce p) = n) by (rewrite Hr; by apply render_text).
  assert (En : normalize p = Some n) by (by rewrite normalize_run, Hp, Hn).
  assert (Enn : normalize n = Some n) by (rewrite normalize_run, <- Hn, render_nonempty; by rewrite reduce_render by apply normal_reduce).
  assert (Enb : normalize (text ws) = Some (text ws)).
  { pose proof (reduce_render _ (normal_reduce base)) as Hb. rewrite Hbase, render_text in Hb by auto using below_words.
    rewrite normalize_run, Hb, render_text by auto using below_words. destruct (text_nonempty ws below_words Hne) as (c & l & -> & _). done. }
  assert (Hnn0 : nul ∉ n) by (rewrite <- Hn; by apply norm_no_nul).
  destruct (text_nonempty _ Hall Hnn) as (c1 & l1 & E1 & Hc1). destruct (text_nonempty _ below_words Hne) as (c2 & l2 & E2 & Hc2).
  assert (A1 : is_absolute n = false) by (unfold n; rewrite E1; unfold is_absolute; cbn; by rewrite bool_decide_eq_false_2 by congruence).
  assert (A2 : is_absolute (text ws) = false) by (rewrite E2; unfold is_absolute; cbn; by rewrite bool_decide_eq_false_2 by congruence).
  assert (S1 : segments n = ws ++ rest) by by apply text_segments.
  assert (S2 : segments (text ws) = ws) by (apply text_segments; auto using below_words).
  set (j := mkIt None 0 []).
  destruct (skip_common_prefix (length n + 2) n (text ws) j j rest) as (k1 & k2 & Esk & K1 & K2 & C1 & C2);
    [simpl; lia..|cbn [j end_]; by rewrite !drop_0, S1, S2|].
  destruct (located_begin n k1 K1) as (b & Eb & Sb & Ab). rewrite C1 in Sb.
  exists n, (if length (drop b n) =? 0 then DOT else drop b n). split; [done|]. split.
  { unfold relative_to. rewrite Enn, Enb. cbn [mbind option_bind]. unfold path_begin, is_relative. rewrite A1, A2. cbn [negb]. fold j.
    rewrite bool_decide_eq_true_2.
    2: { destruct (located n j) as [(X & _)|(? & _ & _ & _ & _ & _ & _ & X1)]; [simpl; lia|cbn [j end_] in X; rewrite drop_0, S1 in X; by destruct ws|].
      destruct (located (text ws) j) as [(X & _)|(? & _ & _ & _ & _ & _ & _ & X2)]; [simpl; lia|cbn [j end_] in X; rewrite drop_0, S2 in X; by destruct ws|].
      change (end_ j) with 0 in X1, X2. rewrite drop_0 in X1, X2. rewrite S1 in X1. rewrite S2 in X2. rewrite X2 in X1. by injection X1. }
    cbn [negb]. rewrite Esk. cbn [mbind option_bind]. rewrite ups_run by lia. rewrite C2. cbn [mbind option_bind length]. rewrite Eb. cbn [mbind option_bind].
    change (up_text 0) with (@nil ascii). cbn [app]. rewrite c_str_id; [done|].
    intros Hin. apply Hnn0. rewrite <- (take_drop b n). apply elem_of_app. by right. }
  split.
  - intros ->. destruct (located n k1 K1) as [(_ & _ & Eb' & _)|(? & _ & _ & _ & _ & _ & _ & X)]; [|by rewrite C1 in X].
    rewrite Eb in Eb'. injection Eb' as ->. by rewrite drop_all.
  - intros Hrest. destruct (length (drop b n) =? 0) eqn:Ed; [apply Nat.eqb_eq, length_zero_iff_nil in Ed; by rewrite Ed in Sb|].
    split_and!; [done|done|]. intros Hl. apply (text_last _ Hall). fold n. rewrite <- (take_drop b n).
    rewrite last_app. by rewrite Hl.
Qed.
End below.

(** ** Paths from the root

    Absolute paths in normal form are [render (ROOT :: ws)] with names [ws]. *)

Lemma reduce_join p q : p ≠ [] → reduce (join p q) = foldl normalize_step (reduce p) (segments q).
Proof.
  intros Hp. unfold reduce. rewrite <- foldl_app. f_equal. destruct p as [|c p]; [done|].
  assert (E : join (c :: p) q = (c :: p) ++ slash :: q) by (unfold join; simpl; by rewrite <- app_assoc).
  rewrite E. unfold components. rewrite seg_slash_app, app_assoc. done.
Qed.
Lemma fold_names (ws st : list str) : (∀ w, w ∈ ws → name w) → foldl normalize_step st ws = st ++ ws.
Proof.
  revert st. induction ws as [|w ws IH]; intros st Hws; [by rewrite app_nil_r|]. cbn [foldl].
  rewrite step_name by (apply Hws; left). rewrite IH by (intros x Hx; apply Hws; by right). by rewrite <- app_assoc.
Qed.
Lemma render_not_nil st : render st ≠ [].
Proof. intros E. pose proof (render_nonempty st) as H. by rewrite E in H. Qed.
Lemma normalize_reduce p : p ≠ [] → normalize p = Some (render (reduce p)).
Proof. intros Hp. rewrite normalize_run. by destruct p. Qed.
Lemma root_normal (ws : list str) : (∀ w, w ∈ ws → name w) → normal (ROOT :: ws).
Proof. intros Hws. exists 0, ws. split; [done|by left]. Qed.
Lemma names_normal (ws : list str) : (∀ w, w ∈ ws → name w) → normal ws.
Proof. intros Hws. exists 0, ws. split; [done|by right]. Qed.
Lemma name_segments (w : str) : name w → segments w = [w].
Proof. intros [Hw _]. by apply seg_word_end. Qed.
Lemma names_words (ws : list str) : (∀ w, w ∈ ws → name w) → ∀ w, w ∈ ws → word w.
Proof. intros H w Hw. by apply H. Qed.

(** Going to an entry: [(current_path / entry).normalize()]. *)
Lemma normalize_join (st : list str) (w : str) : normal st → name w → normalize (join (render st) w) = Some (render (st ++ [w])).
Proof.
  intros Hst Hw. rewrite normalize_reduce.
  - rewrite reduce_join by apply render_not_nil. rewrite reduce_render, name_segments by done. cbn [foldl]. by rewrite step_name.
  - unfold join. rewrite render_nonempty. cbn [negb]. by destruct (render st).
Qed.
(** A normal form is its own normal form. *)
Lemma normalize_render st : normal st → normalize (render st) = Some (render st).
Proof. intros Hst. rewrite normalize_reduce by apply render_not_nil. by rewrite reduce_render. Qed.

Lemma text_snoc ws w : ws ≠ [] → text (ws ++ [w]) = text ws ++ slash :: w.
Proof. intros Hne. by rewrite text_app. Qed.
Lemma render_root (ws : list str) : (∀ w, w ∈ ws → name w) → render (ROOT :: ws) = slash :: text ws.
Proof.
  intros Hws. destruct (decide (ws = [])) as [->|Hne]; [done|]. unfold render. cbn [build].
  rewrite bool_decide_eq_true_2 by done. rewrite build_text by (try apply names_words; done).
  change (ROOT ++ [] ++ text ws ++ [slash]) with ((slash :: text ws) ++ [slash]). rewrite length_app, removelast_snoc.
  cbn [length Nat.add Nat.eqb]. by rewrite (proj2 (Nat.ltb_lt 1 _)) by lia.
Qed.
Lemma find_last_app x w : slash ∉ w → find_last slash (x ++ slash :: w) (length (x ++ slash :: w)) = length x.
Proof.
  intros Hw. rewrite length_app. cbn [length].
  assert (H : ∀ n, n <= length w → find_last slash (x ++ slash :: w) (length x + S n) = length x).
  { induction n as [|n IH]; intros Hn.
    - rewrite Nat.add_1_r. cbn [find_last]. rewrite bool_decide_eq_true_2; [done|]. by rewrite list_lookup_middle.
    - replace (length x + S (S n)) with (S (length x + S n)) by lia. cbn [find_last]. rewrite bool_decide_eq_false_2; [apply IH; lia|].
      rewrite lookup_app_r by lia. replace (length x + S n - length x) with (S n) by lia. cbn [lookup list_lookup].
      intros E. apply Hw. by apply list_elem_of_lookup_2 in E. }
  by apply H.
Qed.
(** [parent_path] and [filename] of an absolute path in normal form. *)
Lemma parent_render (ws : list str) (w : str) : (∀ x, x ∈ ws ++ [w] → name x) → parent_path (render (ROOT :: ws ++ [w])) = render (ROOT :: ws).
Proof.
  intros Hws. assert (Hw : name w) by (apply Hws; set_solver). destruct Hw as ([_ Hs] & _).
  assert (Hws' : ∀ x, x ∈ ws → name x) by (intros x Hx; apply Hws; set_solver). rewrite !render_root by done.
  unfold parent_path. destruct (decide (ws = [])) as [->|Hne].
  - pose proof (find_last_app [] w Hs) as E. cbn [app] in E. cbn [app text]. by rewrite E.
  - rewrite text_snoc by done. change (slash :: text ws ++ slash :: w) with ((slash :: text ws) ++ slash :: w).
    rewrite find_last_app by done. rewrite bool_decide_eq_true_2 by by apply list_lookup_middle.
    cbn [length Nat.eqb]. change (S (length (text ws))) with (length (slash :: text ws)). by rewrite take_app_length.
Qed.
Lemma filename_render (ws : list str) (w : str) : (∀ x, x ∈ ws ++ [w] → name x) → filename (render (ROOT :: ws ++ [w])) = w.
Proof.
  intros Hws. assert (Hw : name w) by (apply Hws; set_solver). destruct Hw as ([_ Hs] & _).
  rewrite render_root by done. unfold filename.
  assert (E : ∃ x, slash :: text (ws ++ [w]) = x ++ slash :: w).
  { destruct (decide (ws = [])) as [->|Hne]; [by exists []|]. exists (slash :: text ws). by rewrite text_snoc. }
  destruct E as [x ->]. rewrite find_last_app by done. rewrite bool_decide_eq_true_2 by by apply list_lookup_middle.
  rewrite Nat.add_1_r. change (x ++ slash :: w) with (x ++ [slash] ++ w). rewrite app_assoc.
  rewrite drop_app_length'; [done|]. rewrite length_app. simpl. lia.
Qed.

(** What [relative_to("/")] leaves of it. *)
Lemma relative_to_root (ws : list str) : (∀ w, w ∈ ws → name w) → ws ≠ [] → nul ∉ text ws →
  ∃ r, relative_to (render (ROOT :: ws)) ROOT = Some r ∧ r ≠ [] ∧ reduce r = ws ∧ nul ∉ r.
Proof.
  intros Hws Hne Hnul. set (n := render (ROOT :: ws)).
  assert (En : normalize n = Some n) by by apply normalize_render, root_normal.
  assert (Eb : normalize ROOT = Some ROOT) by done.
  assert (Hn : n = slash :: text ws) by by apply render_root.
  assert (Hnn : nul ∉ n) by (rewrite Hn; apply not_elem_of_cons; by split).
  assert (Hsn : segments n = ws) by (rewrite Hn, seg_slash; apply text_segments; [by apply names_words|done]).
  set (j1 := mkIt None 0 (take 1 n)). set (j2 := mkIt None 0 (take 1 ROOT)).
  assert (A1 : is_absolute n = true) by by rewrite Hn.
  assert (B1 : path_begin n = j1) by (unfold path_begin, is_relative; by rewrite A1).
  assert (Eq : current_entry j1 = current_entry j2) by (unfold j1; rewrite Hn; done).
  destruct (skip_common_prefix (length n + 1) n ROOT j1 j2 ws) as (k1 & k2 & E & K1 & K2 & C1 & C2);
    [simpl; lia..|cbn [j1 j2 end_]; by rewrite !drop_0, Hsn|].
  destruct (located_begin n k1 K1) as (b & Ebg & Sb & Ab). rewrite C1 in Sb.
  exists (drop b n). assert (Hd : drop b n ≠ []) by (intros Hd; by rewrite Hd in Sb).
  assert (Hdn : nul ∉ drop b n) by (intros Hin; apply Hnn; rewrite <- (take_drop b n); apply elem_of_app; by right).
  split; [|split; [done|split; [|done]]].
  - unfold relative_to. rewrite En, Eb. cbn [mbind option_bind]. rewrite B1. change (path_begin ROOT) with j2.
    rewrite bool_decide_eq_true_2 by exact Eq. cbn [negb]. replace (length n + 2) with (S (length n + 1)) by lia.
    cbn [skip_common]. unfold j1 at 1, j2 at 1. rewrite !it_eq_npos. rewrite bool_decide_eq_true_2 by exact Eq.
    cbn [negb andb]. rewrite E. cbn [mbind option_bind]. rewrite ups_run by (simpl in *; lia). rewrite C2. cbn [mbind option_bind length].
    rewrite Ebg. cbn [mbind option_bind]. change (up_text 0) with (@nil ascii). cbn [app]. rewrite c_str_id by done.
    destruct (length (drop b n) =? 0) eqn:El; [|done]. by apply Nat.eqb_eq, length_zero_iff_nil in El.
  - unfold reduce, components. rewrite Ab, Sb. cbn [app]. by apply (fold_names ws []).
Qed.

(** A path without zeros has none in its reduced form. *)
Lemma text_nul (ws : list str) : nul ∉ text ws ↔ ∀ w, w ∈ ws → nul ∉ w.
Proof.
  induction ws as [|w ws IH]; [split; [by intros _ w ?%elem_of_nil|by intros _ ?%elem_of_nil]|].
  destruct (decide (ws = [])) as [->|Hne]; [cbn [text]; set_solver|]. rewrite text_cons by done.
  rewrite not_elem_of_app, not_elem_of_cons, IH. split; [intros (H1 & _ & H2) x [->|Hx]%elem_of_cons; auto|].
  intros H. split_and!; [apply H; left|done|intros x Hx; apply H; by right].
Qed.
Lemma reduce_nul (p w : str) : nul ∉ p → w ∈ reduce p → nul ∉ w.
Proof.
  intros Hp [->|Hw]%reduce_subset; [by intros ?%list_elem_of_singleton|]. intros Hn. apply Hp. by apply (seg_chars p w).
Qed.
End PathBelow.
