(* ===== verification/TarFs.v ===== *)
(** * The tar file system

    [kernel/vfs/tarfs.h] and [tarfs.cpp]: a read-only file system whose state is the
    bytes of an archive in memory.  A [TarBlock *] is an address; reading a byte
    outside of the image is a [Panic] (the code would read whatever is there).  The
    inode number of a member is the number of its header block.

    [encode] is a reference encoder; the main theorem says that what it makes is
    accepted and read back: each member with its data, names looked up, directories
    listed.  The last part shows what the checks of [is_valid] do not cover. *)

From Stdlib Require Import Ascii.
From S2P Require Import Prelude ErrCode Path PathBelow TmpFs.

#[local] Open Scope Z_scope.

Module TarFs.
Import Path PathBelow.

(** ** Blocks *)

Definition BLOCK_SIZE : Z := 512.

(** [data_] and the [size_] bytes behind it. *)
Record Image := mkImage { data_ : Z; raw : list ascii }.
Definition size_ (s : Image) : Z := Z.of_nat (length (raw s)).

Definition char_val (c : ascii) : Z := Z.of_N (N_of_ascii c).

(** [n] bytes at an address. *)
Definition bytes_at (p n : Z) : M Image (list ascii) := λ s,
  let o := p - data_ s in
  if (0 <=? o) && (o + n <=? size_ s)
  then Fin (Ok (take (Z.to_nat n) (drop (Z.to_nat o) (raw s)))) s
  else Panic.
(** A [char] array taken as a C string: the bytes before the first zero, wherever
    that is. *)
Definition c_string_at (p : Z) : M Image (list ascii) := λ s,
  let o := p - data_ s in
  let l := drop (Z.to_nat o) (raw s) in
  if (0 <=? o) && bool_decide (nul ∈ l) then Fin (Ok (c_str l)) s else Panic.

Fixpoint parse_octal_from (result : Z) (field : list ascii) : Z :=
  match field with
  | [] => result
  | c :: field =>
      if bool_decide (c = nul) then result
      else if (char_val c <? 48) || (55 <? char_val c) then result
      else parse_octal_from (add64 (shl64 result 3) (char_val c - 48)) field
  end.
Definition parse_octal (field : list ascii) : Z := parse_octal_from 0 field.

(** The members of [ustar_header]: offset and size. *)
Definition f_name (p : Z) : Z := p.
Definition f_linkname (p : Z) : Z := p + 157.
Definition f_mode (p : Z) : M Image (list ascii) := bytes_at (p + 100) 8.
Definition f_uid (p : Z) : M Image (list ascii) := bytes_at (p + 108) 8.
Definition f_gid (p : Z) : M Image (list ascii) := bytes_at (p + 116) 8.
Definition f_size (p : Z) : M Image (list ascii) := bytes_at (p + 124) 12.
Definition f_mtime (p : Z) : M Image (list ascii) := bytes_at (p + 136) 12.
Definition f_checksum (p : Z) : M Image (list ascii) := bytes_at (p + 148) 8.
Definition f_typeflag (p : Z) : M Image (list ascii) := bytes_at (p + 156) 1.
Definition f_magic (p : Z) : M Image (list ascii) := bytes_at (p + 257) 6.

(** [header.typeflag[0] == c] *)
Definition typeflag_is (c : ascii) (p : Z) : M Image bool :=
  t ← f_typeflag p; mret (bool_decide (t !! 0%nat = Some c)).

Definition ustar : list ascii := ["u"; "s"; "t"; "a"; "r"]%char.
Definition is_header (p : Z) : M Image bool :=
  magic ← f_magic p; mret (bool_decide (take 5 magic = ustar)).
Definition is_empty (p : Z) : M Image bool :=
  raw ← bytes_at p BLOCK_SIZE; mret (forallb (λ c, char_val c =? 0) raw).

(** The sum of the bytes of a block with the checksum field read as spaces. *)
Definition blank_checksum (b : list ascii) : list ascii :=
  take 148 b ++ replicate 8 " "%char ++ drop 156 b.
Definition sum_bytes (b : list ascii) : Z := foldl (λ sum c, wrap32 (sum + char_val c)) 0 b.
Definition calc_checksum (p : Z) : M Image Z :=
  temp ← bytes_at p BLOCK_SIZE; mret (sum_bytes (blank_checksum temp)).

Definition to_inode_id (offset : Z) : Z := offset / BLOCK_SIZE.
Definition to_offset (id : Z) : Z := mul64 id BLOCK_SIZE.

(** [(file_size + BLOCK_SIZE - 1) / BLOCK_SIZE] of the member at [p]. *)
Definition file_block (p : Z) : M Image Z :=
  size ← f_size p; mret (sub64 (add64 (parse_octal size) BLOCK_SIZE) 1 / BLOCK_SIZE).
(** [p += file_block + 1] *)
Definition next_header (p : Z) : M Image Z :=
  file_block ← file_block p; mret (wrap64 (p + BLOCK_SIZE * add64 file_block 1)).
(** [p + BLOCK_SIZE <= end] *)
Definition in_image (p : Z) : M Image bool :=
  gets (λ s, add64 p BLOCK_SIZE <=? wrap64 (data_ s + size_ s)).

(** Rounds for a loop over the blocks of an image. *)
Definition rounds (s : Image) : nat := S (length (raw s) / 512)%nat.

(** ** [fill_tar_attr] *)

Definition tar_mode_bits (p : Z) : M Image Z :=
  mode ← f_mode p; mret (Z.land (parse_octal mode) 511).
Definition TAR_S_IFREG : Z := 0x8000.
Definition TAR_S_IFDIR : Z := 0x4000.
Definition TAR_S_IFLNK : Z := 0xA000.

Definition fill_tar_attr (p inode_id size : Z) : M Image TmpFs.AttrSet :=
  is_dir ← typeflag_is "5" p;
  is_link ← typeflag_is "2" p;
  let mode_type := if is_dir : bool then TAR_S_IFDIR else if is_link : bool then TAR_S_IFLNK else TAR_S_IFREG in
  bits ← tar_mode_bits p;
  uid ← f_uid p;
  gid ← f_gid p;
  mtime ← f_mtime p;
  mret (TmpFs.mkAttr (Z.lor mode_type bits) (wrap32 (parse_octal uid)) (wrap32 (parse_octal gid))
          size inode_id (if is_dir then 2 else 1)
          0 (parse_octal mtime) (parse_octal mtime) 512 (add64 size 511 / 512)).

(** ** Files *)

Record TarFile := mkFile { tf_header : Z; tf_data : Z; tf_end : Z; tf_inode_id : Z }.
Definition new_TarFile (header id : Z) : M Image TarFile :=
  size ← f_size header;
  let data := header + BLOCK_SIZE in
  mret (mkFile header data (wrap64 (data + parse_octal size)) id).

(** The bytes put into the buffer; their number is the result. *)
Definition file_read (f : TarFile) (offset len : Z) : M Image (list ascii) :=
  if offset <? 0 then fail INVALID_PARAM
  else
    let ptr := wrap64 (tf_data f + offset) in
    if (ptr <? tf_data f) || (tf_end f <? ptr) then fail INVALID_PARAM
    else
      let to_read := Z.min len (sub64 (tf_end f) ptr) in
      bytes_at ptr to_read.
Definition file_size (f : TarFile) : Z := sub64 (tf_end f) (tf_data f).
Definition file_getattr (f : TarFile) : M Image TmpFs.AttrSet :=
  fill_tar_attr (tf_header f) (tf_inode_id f) (sub64 (tf_end f) (tf_data f)).
Definition file_setattr : M Image unit := mret tt.
Definition file_write : M Image Z := fail NOT_SUPPORTED.
Definition file_sync : M Image unit := fail NOT_SUPPORTED.
Definition file_truncate : M Image unit := fail NOT_SUPPORTED.
Definition file_ioctl : M Image unit := fail NOT_SUPPORTED.

(** ** Directories *)

Record TarDirectory := mkDir { td_header : Z; td_inode_id : Z }.

Fixpoint lookup_from (fuel : nat) (path : list ascii) (p : Z) : M Image Z :=
  match fuel with
  | O => no_fuel
  | S fuel =>
      inside ← in_image p;
      if negb inside then fail ENTRY_NOT_FOUND
      else
        header ← is_header p;
        if negb header then fail ENTRY_NOT_FOUND
        else
          name ← c_string_at (f_name p);
          p_path ← returned (normalize name);
          if bool_decide (path = p_path) then
            base ← gets data_; mret (to_inode_id (p - base))
          else
            p ← next_header p;
            lookup_from fuel path p
  end.
Definition dir_lookup (d : TarDirectory) (name : list ascii) : M Image Z :=
  if bool_decide (name = []) then mret (td_inode_id d)
  else
    dir ← c_string_at (f_name (td_header d));
    path ← returned (normalize (join dir name));
    fuel ← gets rounds;
    lookup_from fuel path (wrap64 (td_header d + BLOCK_SIZE)).

(** The name under which the directory [parent_path] lists the member [entry_path]. *)
Definition direct_entry (parent_path entry_path : list ascii) : M Image (list (list ascii)) :=
  if starts_with entry_path parent_path then
    rel ← returned (relative_to entry_path parent_path);
    mret (if negb (bool_decide (rel = DOT)) && negb (bool_decide (rel = []))
             && bool_decide (filename rel = rel)
          then [rel] else [])
  else mret [].
Fixpoint collect_from (fuel : nat) (parent_path : list ascii) (p : Z) : M Image (list (list ascii)) :=
  match fuel with
  | O => no_fuel
  | S fuel =>
      inside ← in_image p;
      if negb inside then mret []
      else
        header ← is_header p;
        if negb header then mret []
        else
          name ← c_string_at (f_name p);
          entry_path ← returned (normalize name);
          e ← direct_entry parent_path entry_path;
          p ← next_header p;
          rest ← collect_from fuel parent_path p;
          mret (e ++ rest)
  end.
Definition collect_direct_entries (d : TarDirectory) : M Image (list (list ascii)) :=
  dir ← c_string_at (f_name (td_header d));
  parent_path ← returned (normalize dir);
  fuel ← gets rounds;
  collect_from fuel parent_path (wrap64 (td_header d + BLOCK_SIZE)).
Definition entry_count (d : TarDirectory) : M Image Z :=
  entries ← collect_direct_entries d; mret (Z.of_nat (length entries)).
Definition entry_at (d : TarDirectory) (index : Z) : M Image (list ascii) :=
  entries ← collect_direct_entries d;
  if Z.of_nat (length entries) <=? index then fail OUT_OF_BOUNDARY
  else match entries !! Z.to_nat index with Some e => mret e | None => panic end.
Definition dir_getattr (d : TarDirectory) : M Image TmpFs.AttrSet :=
  fill_tar_attr (td_header d) (td_inode_id d) 0.
Definition dir_setattr : M Image unit := mret tt.
Definition dir_mkfile : M Image Z := fail NOT_SUPPORTED.
Definition dir_mkdir : M Image Z := fail NOT_SUPPORTED.
Definition dir_unlink : M Image unit := fail NOT_SUPPORTED.
Definition dir_rmdir : M Image unit := fail NOT_SUPPORTED.
Definition dir_link : M Image unit := fail NOT_SUPPORTED.
Definition dir_rename : M Image unit := fail NOT_SUPPORTED.
Definition dir_symlink : M Image Z := fail NOT_SUPPORTED.
Definition dir_sync : M Image unit := fail NOT_SUPPORTED.

(** ** The superblock *)

Inductive IINode := AFile (f : TarFile) | ADirectory (d : TarDirectory).

(** [None] for the null pointer. *)
Definition get_block (id : Z) : M Image (option Z) :=
  s ← get_st;
  let offset := to_offset id in
  if size_ s <? add64 offset BLOCK_SIZE then mret None
  else
    let blk := wrap64 (data_ s + offset) in
    header ← is_header blk;
    if negb header then mret None else mret (Some blk).
(** [mem]: whether [new] of the handle succeeds. *)
Definition get_inode (mem : bool) (inode_id : Z) : M Image IINode :=
  blk ← get_block inode_id;
  match blk with
  | None => fail INVALID_PARAM
  | Some blk =>
      is_dir ← typeflag_is "5" blk;
      if is_dir : bool then
        if negb mem then fail OUT_OF_MEMORY else mret (ADirectory (mkDir blk inode_id))
      else if negb mem then fail OUT_OF_MEMORY
      else f ← new_TarFile blk inode_id; mret (AFile f)
  end.
Definition sb_root : Z := 0.
Definition is_symlink (inode_id : Z) : M Image bool :=
  blk ← get_block inode_id;
  match blk with
  | None => fail INVALID_PARAM
  | Some blk => typeflag_is "2" blk
  end.
Definition readlink (inode_id : Z) : M Image (list ascii) :=
  blk ← get_block inode_id;
  match blk with
  | None => fail INVALID_PARAM
  | Some blk =>
      link ← typeflag_is "2" blk;
      if negb link then fail NOT_SUPPORTED else c_string_at (f_linkname blk)
  end.
Definition sb_sync : M Image unit := fail NOT_SUPPORTED.
Definition alloc_inode : M Image Z := fail NOT_SUPPORTED.
Definition free_inode : M Image unit := fail NOT_SUPPORTED.
Definition inode_mode : M Image Z := fail NOT_SUPPORTED.

(** ** The driver *)

(** [data_ + offset] for an offset in the image. *)
Fixpoint is_valid_from (fuel : nat) (offset : Z) : M Image bool :=
  match fuel with
  | O => no_fuel
  | S fuel =>
      s ← get_st;
      if negb (offset <? size_ s) then mret true
      else
        let block := data_ s + offset in
        field ← f_checksum block;
        sum ← calc_checksum block;
        if parse_octal field =? sum then
          blocks ← file_block block;
          is_valid_from fuel (add64 offset (mul64 BLOCK_SIZE (add64 blocks 1)))
        else
          empty ← is_empty block;
          if empty : bool then is_valid_from fuel (add64 offset BLOCK_SIZE) else mret false
  end.
Definition is_valid : M Image bool :=
  s ← get_st;
  if negb (size_ s mod BLOCK_SIZE =? 0) then mret false else is_valid_from (rounds s) 0.

(** *** Devices *)

(** A registered device: its geometry, its memory when it is a [RamDiskDevice], and
    its cache, which gives the bytes of a block or an error. *)
Record Device := mkDevice { block_sz : Result Z; block_cnt : Result Z; ramdisk : option Image }.
Definition Cache : Type := Z → Result (list ascii).
Record BlkManager := mkBlk { lookup_dev : Z → Result (option Device); lookup_cache : Z → Result (option Cache) }.

(** The blocks from [blkno] on, one after the other. *)
Fixpoint read_all (cache : Cache) (blkno : Z) (n : nat) : Result (list ascii) :=
  match n with
  | O => Ok []
  | S n => b ← cache blkno; rest ← read_all cache (blkno + 1) n; Ok (b ++ rest)
  end.

(** The checks both operations start with. *)
Definition open_device (B : BlkManager) (devno : Z) : Result (Device * Cache * Z * Z) :=
  device ← lookup_dev B devno;
  cache ← lookup_cache B devno;
  match device, cache with
  | None, _ => Err NULLPTR
  | _, None => Err NULLPTR
  | Some device, Some cache =>
      block_sz ← block_sz device;
      block_cnt ← block_cnt device;
      Ok (device, cache, block_sz, block_cnt)
  end.
(** [mem]: the address [new uint8_t[size]] gives, [None] for the null pointer. *)
Definition probe (B : BlkManager) (mem : option Z) (devno : Z) : M unit unit :=
  '(_, cache, block_sz, block_cnt) ← of_result (open_device B devno);
  match mem with
  | None => fail OUT_OF_MEMORY
  | Some addr =>
      data ← of_result (read_all cache 0 (Z.to_nat block_cnt));
      match is_valid (mkImage addr data) with
      | Fin (Ok ok) _ => if negb ok then fail INVALID_PARAM else mret tt
      | Fin (Err e) _ => fail e
      | Panic => panic
      | OutOfFuel => no_fuel
      end
  end.
(** [mem_sb]: whether [new] of the superblock succeeds. *)
Definition mount (B : BlkManager) (mem : option Z) (mem_sb : bool) (devno : Z) : Result Image :=
  '(device, cache, block_sz, block_cnt) ← open_device B devno;
  image ←
    match ramdisk device with
    | Some base => Ok base
    | None =>
        match mem with
        | None => Err OUT_OF_MEMORY
        | Some addr => data ← read_all cache 0 (Z.to_nat block_cnt); Ok (mkImage addr data)
        end
    end;
  if negb mem_sb then Err OUT_OF_MEMORY else Ok image.
Definition unmount : Result unit := Ok tt.

(** ** Archives

    A reference encoder for the ustar format. *)

Record member := mkMember {
  m_name : list ascii; m_mode : Z; m_uid : Z; m_gid : Z; m_mtime : Z;
  m_type : ascii; m_link : list ascii; m_data : list ascii;
}.

Definition zeros (n : nat) : list ascii := replicate n nul.
Definition padded (n : nat) (l : list ascii) : list ascii := l ++ zeros (n - length l).
(** [n] octal digits and a zero. *)
Fixpoint digits (n : nat) (v : Z) : list ascii :=
  match n with O => [] | S n => digits n (v / 8) ++ [ascii_of_N (Z.to_N (48 + v mod 8))] end.
Definition octal (n : nat) (v : Z) : list ascii := digits n v ++ [nul].

(** The header with the text [cs] as its checksum. *)
Definition header_with (cs : list ascii) (m : member) : list ascii :=
  padded 100 (m_name m) ++ octal 7 (m_mode m) ++ octal 7 (m_uid m) ++ octal 7 (m_gid m) ++
  octal 11 (Z.of_nat (length (m_data m))) ++ octal 11 (m_mtime m) ++ cs ++ [m_type m] ++
  padded 100 (m_link m) ++ (ustar ++ [nul]) ++ replicate 2 "0"%char ++ zeros 247.
Definition spaces : list ascii := replicate 8 " "%char.
Definition header (m : member) : list ascii :=
  header_with (octal 6 (sum_bytes (header_with spaces m)) ++ [" "%char]) m.

(** The blocks the data takes. *)
Definition data_blocks (m : member) : nat := ((length (m_data m) + 511) / 512)%nat.
Definition content (m : member) : list ascii := padded (512 * data_blocks m) (m_data m).
(** The members one after the other, and [k] empty blocks. *)
Fixpoint encode (ms : list member) (k : nat) : list ascii :=
  match ms with
  | [] => zeros (512 * k)
  | m :: ms => header m ++ content m ++ encode ms k
  end.
(** The block of the [i]th member's header. *)
Fixpoint member_block (ms : list member) (i : nat) : Z :=
  match i, ms with
  | S i, m :: ms => 1 + Z.of_nat (data_blocks m) + member_block ms i
  | _, _ => 0
  end.

Record member_ok (m : member) : Prop := {
  ok_name : (length (m_name m) < 100)%nat ∧ nul ∉ m_name m;
  ok_link : (length (m_link m) < 100)%nat ∧ nul ∉ m_link m;
  ok_mode : 0 <= m_mode m < 8 ^ 7;
  ok_uid : 0 <= m_uid m < 8 ^ 7;
  ok_gid : 0 <= m_gid m < 8 ^ 7;
  ok_mtime : 0 <= m_mtime m < 8 ^ 11;
  ok_size : Z.of_nat (length (m_data m)) < 8 ^ 11;
  ok_dir : m_type m = "5"%char → m_data m = [];
}.

(** ** Octal numbers *)

Lemma digit_val d : 0 <= d < 8 → char_val (ascii_of_N (Z.to_N (48 + d))) = 48 + d.
Proof.
  intros Hd. unfold char_val. rewrite N_ascii_embedding by (change 256%N with (Z.to_N 256); lia). lia.
Qed.
Lemma char_val_nul c : char_val c <> 0 → c ≠ nul.
Proof. intros Hc ->. done. Qed.

Lemma digits_length n v : length (digits n v) = n.
Proof. revert v. induction n as [|n IH]; intros v; [done|]. simpl. rewrite length_app, IH. simpl. lia. Qed.
Lemma octal_length n v : length (octal n v) = S n.
Proof. unfold octal. rewrite length_app, digits_length. simpl. lia. Qed.

Lemma parse_digits n v r l :
  0 <= v → 0 <= r → (r + 1) * 8 ^ Z.of_nat n <= 2 ^ 60 → v < 8 ^ Z.of_nat n →
  parse_octal_from r (digits n v ++ l) = parse_octal_from (r * 8 ^ Z.of_nat n + v) l.
Proof.
  revert v r l. induction n as [|n IH]; intros v r l Hv Hr Hb Hlt.
  - simpl in *. f_equal. lia.
  - rewrite Nat2Z.inj_succ, Z.pow_succ_r in * by lia. simpl digits. rewrite <- app_assoc.
    assert (Hp : 0 < 8 ^ Z.of_nat n) by (apply Z.pow_pos_nonneg; lia).
    pose proof (Z.div_mod v 8) as Hdm. pose proof (Z.mod_pos_bound v 8) as Hmb.
    assert (Hd : 0 <= v / 8 < 8 ^ Z.of_nat n) by (split; [apply Z.div_pos; lia|apply Z.div_lt_upper_bound; lia]).
    rewrite IH by nia. cbn [app parse_octal_from].
    rewrite bool_decide_eq_false_2 by (apply char_val_nul; rewrite digit_val by lia; lia).
    rewrite digit_val by lia. destruct (Z.ltb_spec (48 + v mod 8) 48); [lia|]. destruct (Z.ltb_spec 55 (48 + v mod 8)); [lia|].
    cbn [orb]. f_equal. unfold add64, shl64, wrap64. rewrite Z.shiftl_mul_pow2 by lia.
    change (2 ^ 3) with 8. assert (Hx : (r * 8 ^ Z.of_nat n + v / 8) * 8 < W64) by (unfold W64; nia).
    rewrite (Z.mod_small (_ * 8)) by nia. rewrite Z.mod_small; [lia|]. unfold W64. nia.
Qed.
Lemma parse_octal_zero l r : parse_octal_from r (nul :: l) = r.
Proof. done. Qed.
(** What [octal] writes, [parse_octal] reads. *)
Lemma parse_octal_octal n v l : (n <= 19)%nat → 0 <= v < 8 ^ Z.of_nat n → parse_octal (octal n v ++ l) = v.
Proof.
  intros Hn Hv. unfold parse_octal, octal. rewrite <- app_assoc.
  assert (H8 : 8 ^ Z.of_nat n <= 8 ^ 19) by (apply Z.pow_le_mono_r; lia). change (8 ^ 19) with (2 ^ 57) in H8.
  rewrite parse_digits by lia. cbn [app]. rewrite parse_octal_zero. lia.
Qed.

(** ** Checksums *)

Lemma char_val_bound c : 0 <= char_val c < 256.
Proof.
  unfold char_val. assert (H : (N_of_ascii c < 256)%N) by apply N_ascii_bounded. lia.
Qed.
Definition total (b : list ascii) : Z := foldr (λ c sum, char_val c + sum) 0 b.
Lemma total_bound b : 0 <= total b <= 255 * Z.of_nat (length b).
Proof. induction b as [|c b IH]; cbn [total foldr length]; [lia|]. fold (total b). pose proof (char_val_bound c). lia. Qed.
Lemma sum_bytes_total b : (length b <= 4096)%nat → sum_bytes b = total b.
Proof.
  intros Hb. unfold sum_bytes.
  assert (H : ∀ acc, 0 <= acc → acc + 255 * Z.of_nat (length b) < W32 → foldl (λ sum c, wrap32 (sum + char_val c)) acc b = acc + total b).
  { clear Hb. induction b as [|c b IH]; intros acc Ha Hl; cbn [total foldr foldl length] in *; [lia|]. fold (total b).
    pose proof (char_val_bound c). unfold wrap32 at 2. rewrite Z.mod_small by lia. rewrite IH by lia. lia. }
  rewrite H; [lia|lia|]. unfold W32. lia.
Qed.

(** ** Reading an image *)

(** [l] is in memory at the address [p]. *)
Definition placed (s : Image) (p : Z) (l : list ascii) : Prop :=
  ∃ pre post, raw s = pre ++ l ++ post ∧ p = data_ s + Z.of_nat (length pre).
(** [l] is the rest of the image. *)
Definition tail_at (s : Image) (p : Z) (l : list ascii) : Prop :=
  ∃ pre, raw s = pre ++ l ∧ p = data_ s + Z.of_nat (length pre).

Lemma placed_app s p a b : placed s p (a ++ b) → placed s p a ∧ placed s (p + Z.of_nat (length a)) b.
Proof.
  intros (pre & post & E & ->). split.
  - exists pre, (b ++ post). by rewrite E, <- app_assoc.
  - exists (pre ++ a), post. rewrite E, length_app, <- !app_assoc. split; [done|lia].
Qed.
Lemma tail_app s p a b : tail_at s p (a ++ b) → placed s p a ∧ tail_at s (p + Z.of_nat (length a)) b.
Proof.
  intros (pre & E & ->). split; [by exists pre, b|]. exists (pre ++ a). rewrite E, length_app, <- app_assoc. split; [done|lia].
Qed.
Lemma tail_placed s p a : tail_at s p a → placed s p a.
Proof. intros (pre & E & ->). exists pre, []. by rewrite app_nil_r. Qed.

Lemma bytes_run s p n l : placed s p l → n = Z.of_nat (length l) → bytes_at p n s = Fin (Ok l) s.
Proof.
  intros (pre & post & E & ->) ->. unfold bytes_at, size_. rewrite E, !length_app.
  replace (data_ s + Z.of_nat (length pre) - data_ s) with (Z.of_nat (length pre)) by lia.
  rewrite (proj2 (Z.leb_le _ _)) by lia. rewrite (proj2 (Z.leb_le _ _)) by lia. cbn [andb].
  by rewrite !Nat2Z.id, drop_app_length, take_app_length.
Qed.
Lemma c_str_app l r : nul ∉ l → c_str (l ++ nul :: r) = l.
Proof.
  induction l as [|c l IH]; intros Hl; [done|]. apply not_elem_of_cons in Hl as [Hc Hl]. cbn [app c_str].
  rewrite bool_decide_eq_false_2 by congruence. by rewrite IH.
Qed.
Lemma c_string_run s p l n : placed s p (padded n l) → nul ∉ l → (length l < n)%nat → c_string_at p s = Fin (Ok l) s.
Proof.
  intros (pre & post & E & ->) Hl Hn. unfold c_string_at.
  replace (data_ s + Z.of_nat (length pre) - data_ s) with (Z.of_nat (length pre)) by lia.
  rewrite (proj2 (Z.leb_le _ _)) by lia. rewrite Nat2Z.id, E, drop_app_length. unfold padded, zeros.
  destruct (n - length l)%nat as [|k] eqn:Ek; [lia|]. cbn [replicate]. rewrite <- app_assoc. cbn [app].
  rewrite c_str_app by done. rewrite bool_decide_eq_true_2 by set_solver. done.
Qed.

(** ** Headers *)

Lemma padded_length n l : (length l <= n)%nat → length (padded n l) = n.
Proof. intros Hl. unfold padded, zeros. rewrite length_app, length_replicate. lia. Qed.

(** Everything before the checksum, and everything after it. *)
Definition before_checksum (m : member) : list ascii :=
  padded 100 (m_name m) ++ octal 7 (m_mode m) ++ octal 7 (m_uid m) ++ octal 7 (m_gid m) ++
  octal 11 (Z.of_nat (length (m_data m))) ++ octal 11 (m_mtime m).
Definition after_checksum (m : member) : list ascii :=
  [m_type m] ++ padded 100 (m_link m) ++ (ustar ++ [nul]) ++ replicate 2 "0"%char ++ zeros 247.
Lemma header_split cs m : header_with cs m = before_checksum m ++ cs ++ after_checksum m.
Proof. unfold header_with, before_checksum, after_checksum. by rewrite <- !app_assoc. Qed.

Section member.
Context (m : member) (Hm : member_ok m).

Lemma before_length : length (before_checksum m) = 148%nat.
Proof.
  unfold before_checksum. rewrite !length_app, !octal_length, padded_length by (destruct (ok_name _ Hm); lia). done.
Qed.
Lemma after_length : length (after_checksum m) = 356%nat.
Proof.
  unfold after_checksum. rewrite !length_app, padded_length by (destruct (ok_link _ Hm); lia). done.
Qed.
Lemma header_with_length cs : length cs = 8%nat → length (header_with cs m) = 512%nat.
Proof. intros Hc. rewrite header_split, !length_app, before_length, after_length. lia. Qed.
Lemma checksum_length v : length (octal 6 v ++ [" "%char]) = 8%nat.
Proof. by rewrite length_app, octal_length. Qed.
Lemma tar_header_length : length (header m) = 512%nat.
Proof. unfold header. rewrite header_with_length; [done|]. by rewrite checksum_length. Qed.

Lemma blank_header cs : length cs = 8%nat → blank_checksum (header_with cs m) = header_with spaces m.
Proof.
  intros Hc. unfold blank_checksum. rewrite !header_split.
  rewrite take_app_length' by (by rewrite before_length). rewrite drop_app_ge by (rewrite before_length; lia).
  rewrite before_length, drop_app_length' by (rewrite Hc; done). done.
Qed.
Lemma checksum_bound : 0 <= sum_bytes (header_with spaces m) < 8 ^ 6.
Proof.
  assert (Hl : length (header_with spaces m) = 512%nat) by by apply header_with_length.
  rewrite sum_bytes_total by lia. pose proof (total_bound (header_with spaces m)) as Ht. rewrite Hl in Ht. lia.
Qed.

Context (s : Image) (p : Z) (Hp : placed s p (header m)).

(** Where each field is. *)
Lemma fields_placed :
  placed s (f_name p) (padded 100 (m_name m)) ∧ placed s (p + 100) (octal 7 (m_mode m)) ∧
  placed s (p + 108) (octal 7 (m_uid m)) ∧ placed s (p + 116) (octal 7 (m_gid m)) ∧
  placed s (p + 124) (octal 11 (Z.of_nat (length (m_data m)))) ∧ placed s (p + 136) (octal 11 (m_mtime m)) ∧
  placed s (p + 148) (octal 6 (sum_bytes (header_with spaces m)) ++ [" "%char]) ∧ placed s (p + 156) [m_type m] ∧
  placed s (f_linkname p) (padded 100 (m_link m)) ∧ placed s (p + 257) (ustar ++ [nul]).
Proof.
  pose proof Hp as H. unfold header, header_with in H.
  apply placed_app in H as [H1 H]. rewrite padded_length in H by (destruct (ok_name _ Hm); lia).
  apply placed_app in H as [H2 H]. rewrite octal_length in H.
  apply placed_app in H as [H3 H]. rewrite octal_length in H.
  apply placed_app in H as [H4 H]. rewrite octal_length in H.
  apply placed_app in H as [H5 H]. rewrite octal_length in H.
  apply placed_app in H as [H6 H]. rewrite octal_length in H.
  apply placed_app in H as [H7 H]. rewrite checksum_length in H.
  apply placed_app in H as [H8 H]. change (length [m_type m]) with 1%nat in H.
  apply placed_app in H as [H9 H]. rewrite padded_length in H by (destruct (ok_link _ Hm); lia).
  apply placed_app in H as [H10 H]. unfold f_name, f_linkname.
  rewrite <- !Z.add_assoc in *. by split_and!.
Qed.

Lemma is_header_run : is_header p s = Fin (Ok true) s.
Proof.
  destruct fields_placed as (_ & _ & _ & _ & _ & _ & _ & _ & _ & H). unfold is_header, f_magic.
  erewrite bind_run by (apply (bytes_run _ _ _ _ H); done). done.
Qed.
Lemma typeflag_run c : typeflag_is c p s = Fin (Ok (bool_decide (m_type m = c))) s.
Proof.
  destruct fields_placed as (_ & _ & _ & _ & _ & _ & _ & H & _). unfold typeflag_is, f_typeflag.
  erewrite bind_run by (apply (bytes_run _ _ _ _ H); done). cbn [lookup list_lookup]. unfold mret, M_ret.
  do 2 f_equal. apply bool_decide_ext. naive_solver.
Qed.
Lemma name_run : c_string_at (f_name p) s = Fin (Ok (m_name m)) s.
Proof. destruct fields_placed as (H & _), (ok_name _ Hm). by apply (c_string_run _ _ _ 100). Qed.
Lemma linkname_run : c_string_at (f_linkname p) s = Fin (Ok (m_link m)) s.
Proof. destruct fields_placed as (_ & _ & _ & _ & _ & _ & _ & _ & H & _), (ok_link _ Hm). by apply (c_string_run _ _ _ 100). Qed.

(** Every number of the header is read as it was written. *)
Definition reads (field : M Image (list ascii)) (v : Z) : Prop :=
  ∃ l, field s = Fin (Ok l) s ∧ parse_octal l = v.
Lemma octal_reads q n v l len :
  placed s q (octal n v ++ l) → 0 <= v < 8 ^ Z.of_nat n → (n <= 19)%nat → len = Z.of_nat (S n + length l) →
  reads (bytes_at q len) v.
Proof.
  intros Hq Hv Hn ->. exists (octal n v ++ l). split; [|by apply parse_octal_octal].
  apply bytes_run; [done|]. by rewrite length_app, octal_length.
Qed.
Lemma octal_reads_end q n v len :
  placed s q (octal n v) → 0 <= v < 8 ^ Z.of_nat n → (n <= 19)%nat → len = Z.of_nat (S n) → reads (bytes_at q len) v.
Proof. intros Hq Hv Hn ->. apply (octal_reads q n v []); [by rewrite app_nil_r|done|done|]. simpl. lia. Qed.
Lemma numbers_read :
  reads (f_mode p) (m_mode m) ∧ reads (f_uid p) (m_uid m) ∧ reads (f_gid p) (m_gid m) ∧
  reads (f_size p) (Z.of_nat (length (m_data m))) ∧ reads (f_mtime p) (m_mtime m) ∧
  reads (f_checksum p) (sum_bytes (header_with spaces m)).
Proof.
  destruct fields_placed as (_ & H1 & H2 & H3 & H4 & H5 & H6 & _), Hm. split_and!.
  - apply (octal_reads_end _ 7); [done|done|lia|done].
  - apply (octal_reads_end _ 7); [done|done|lia|done].
  - apply (octal_reads_end _ 7); [done|done|lia|done].
  - apply (octal_reads_end _ 11); [done| |lia|done]. change (Z.of_nat 11) with 11. lia.
  - apply (octal_reads_end _ 11); [done| |lia|done]. change (Z.of_nat 11) with 11. lia.
  - apply (octal_reads _ 6 _ [" "%char]); [done|apply checksum_bound|lia|done].
Qed.
Lemma calc_checksum_run : calc_checksum p s = Fin (Ok (sum_bytes (header_with spaces m))) s.
Proof.
  unfold calc_checksum. erewrite bind_run.
  2: { apply (bytes_run _ _ _ _ Hp). rewrite tar_header_length. done. }
  unfold header. rewrite blank_header by apply checksum_length. done.
Qed.
Lemma file_block_run : file_block p s = Fin (Ok (Z.of_nat (data_blocks m))) s.
Proof.
  destruct numbers_read as (_ & _ & _ & (l & E & Hl) & _). unfold file_block. erewrite bind_run by exact E. rewrite Hl.
  unfold mret, M_ret. do 2 f_equal. pose proof (ok_size _ Hm) as Hs. change (8 ^ 11) with (2 ^ 33) in Hs.
  unfold data_blocks, add64, sub64, BLOCK_SIZE. change (2 ^ 33) with 8589934592 in Hs.
  rewrite (wrap64_small (_ + _)) by (unfold is_u64, W64; lia). rewrite wrap64_small by (unfold is_u64, W64; lia).
  rewrite Nat2Z.inj_div. f_equal. lia.
Qed.
End member.

(** The pieces of the header of a member at the front of the rest of an image. *)
Lemma content_length m : length (content m) = (512 * data_blocks m)%nat.
Proof. apply padded_length. unfold data_blocks. pose proof (Nat.div_mod_eq (length (m_data m) + 511) 512). pose proof (Nat.mod_upper_bound (length (m_data m) + 511) 512). lia. Qed.
Lemma tail_member s p m ms k : member_ok m → tail_at s p (encode (m :: ms) k) →
  placed s p (header m) ∧ placed s (p + 512) (m_data m) ∧
  tail_at s (p + 512 * (Z.of_nat (data_blocks m) + 1)) (encode ms k).
Proof.
  intros Hm H. cbn [encode] in H. apply tail_app in H as [H1 H]. rewrite tar_header_length in H by done.
  apply tail_app in H as [H2 H]. rewrite content_length in H. split_and!; [done| |].
  - unfold content, padded in H2. by apply placed_app in H2 as [? _].
  - replace (p + 512 * (Z.of_nat (data_blocks m) + 1)) with (p + Z.of_nat 512 + Z.of_nat (512 * data_blocks m)) by lia. done.
Qed.

(** ** Scanning *)

(** The image does not reach into the last 128 GiB of the address space, so that the
    pointers of a scan do not wrap. *)
Definition fits (s : Image) : Prop := 0 <= data_ s ∧ data_ s + size_ s + 2 ^ 37 <= W64.

Lemma tail_bounds s p l : tail_at s p l → data_ s <= p ∧ p + Z.of_nat (length l) = data_ s + size_ s.
Proof. intros (pre & E & ->). unfold size_. rewrite E, length_app. lia. Qed.
Lemma in_image_run s p l : fits s → tail_at s p l → in_image p s = Fin (Ok (512 <=? Z.of_nat (length l))) s.
Proof.
  intros [H0 Hf] Hl%tail_bounds. unfold in_image, gets. do 2 f_equal. unfold add64, BLOCK_SIZE.
  rewrite !wrap64_small by (unfold is_u64, W64 in *; lia).
  destruct (Z.leb_spec 512 (Z.of_nat (length l))); [apply Z.leb_le|apply Z.leb_gt]; lia.
Qed.
Lemma encode_length m ms k : member_ok m →
  length (encode (m :: ms) k) = (512 * (data_blocks m + 1) + length (encode ms k))%nat.
Proof. intros Hm. cbn [encode]. rewrite !length_app, tar_header_length, content_length by done. lia. Qed.
Lemma encode_rounds ms k : Forall member_ok ms → (512 * length ms <= length (encode ms k))%nat.
Proof. induction 1 as [|m ms Hm Hms IH]; [simpl; lia|]. rewrite encode_length by done. cbn [length]. lia. Qed.

(** At a member the scan goes on behind its data; behind the last one it ends. *)
Lemma scan_member s p m ms k : fits s → member_ok m → tail_at s p (encode (m :: ms) k) →
  in_image p s = Fin (Ok true) s ∧ is_header p s = Fin (Ok true) s ∧
  c_string_at (f_name p) s = Fin (Ok (m_name m)) s ∧
  next_header p s = Fin (Ok (p + 512 * (Z.of_nat (data_blocks m) + 1))) s.
Proof.
  intros Hf Hm Ht. destruct (tail_member _ _ _ _ _ Hm Ht) as (Hh & _ & Hr). split_and!.
  - rewrite (in_image_run _ _ _ Hf Ht), encode_length by done. do 2 f_equal. apply Z.leb_le. lia.
  - by apply (is_header_run m).
  - by apply (name_run m).
  - unfold next_header. erewrite bind_run by (by apply (file_block_run m)). unfold mret, M_ret. do 2 f_equal.
    apply tail_bounds in Ht, Hr. destruct Hf as [H0 Hf]. unfold add64, BLOCK_SIZE.
    rewrite (wrap64_small (_ + 1)) by (unfold is_u64; lia). apply wrap64_small. unfold is_u64. lia.
Qed.
Lemma zeros_app a b : zeros (a + b) = zeros a ++ zeros b.
Proof. apply replicate_add. Qed.
Lemma scan_end s p k : fits s → tail_at s p (zeros (512 * k)) →
  in_image p s = Fin (Ok (negb (k =? 0)%nat)) s ∧ (k ≠ 0%nat → is_header p s = Fin (Ok false) s).
Proof.
  intros Hf Ht. split.
  - rewrite (in_image_run _ _ _ Hf Ht). do 2 f_equal. unfold zeros. rewrite length_replicate.
    destruct k as [|k]; [done|]. cbn [Nat.eqb negb]. apply Z.leb_le. lia.
  - intros Hk. destruct k as [|k]; [done|]. apply tail_placed in Ht.
    replace (512 * S k)%nat with (257 + (6 + (249 + 512 * k)))%nat in Ht by lia. rewrite !zeros_app in Ht.
    apply placed_app in Ht as [_ Ht]. apply placed_app in Ht as [Ht _]. unfold is_header, f_magic.
    erewrite bind_run by (apply (bytes_run _ _ _ _ Ht); done). done.
Qed.

(** Looking a path up finds the first member with that name. *)
Lemma lookup_from_run s path ms k p fuel :
  fits s → Forall member_ok ms → tail_at s p (encode ms k) → (length ms < fuel)%nat → (p - data_ s) mod 512 = 0 →
  lookup_from fuel path p s =
    Fin (match list_find (λ m, normalize (m_name m) = Some path) ms with
         | Some (j, _) => Ok ((p - data_ s) / 512 + member_block ms j)
         | None => Err ENTRY_NOT_FOUND
         end) s.
Proof.
  intros Hf Hms. revert p fuel. induction Hms as [|m ms Hm Hms IH]; intros p fuel Ht Hfuel Hal;
    (destruct fuel as [|fuel]; [simpl in Hfuel; lia|]); cbn [lookup_from].
  - destruct (scan_end _ _ _ Hf Ht) as [E1 E2]. erewrite bind_run by exact E1. destruct (k =? 0)%nat eqn:Ek; cbn [negb]; [done|].
    erewrite bind_run by (apply E2; by apply Nat.eqb_neq). done.
  - destruct (scan_member _ _ _ _ _ Hf Hm Ht) as (E1 & E2 & E3 & E4). erewrite bind_run by exact E1. cbn [negb].
    erewrite bind_run by exact E2. cbn [negb]. erewrite bind_run by exact E3. cbn [list_find]. rewrite normalize_run.
    set (n := if (length (m_name m) =? 0)%nat then [] else render (reduce (m_name m))).
    unfold returned at 1. erewrite bind_run by reflexivity. case_bool_decide as Ep.
    + rewrite decide_True by congruence. erewrite bind_run by reflexivity. cbn [member_block]. unfold mret, M_ret, to_inode_id, BLOCK_SIZE.
      do 2 f_equal. lia.
    + rewrite decide_False by congruence. erewrite bind_run by exact E4.
      destruct (tail_member _ _ _ _ _ Hm Ht) as (_ & _ & Hr). set (q := p + 512 * (Z.of_nat (data_blocks m) + 1)) in *.
      assert (Hq : q - data_ s = (p - data_ s) + (Z.of_nat (data_blocks m) + 1) * 512) by lia.
      rewrite IH; [|done|simpl in Hfuel; lia|by rewrite Hq, Z.mod_add by lia]. rewrite Hq, Z.div_add by lia.
      destruct (list_find _ ms) as [[j m']|]; cbn; [|done]. do 2 f_equal. lia.
Qed.

(** ** Archives are read back *)

(** What reading a file with this data returns. *)
Definition read_of (data : list ascii) (off len : Z) : Result (list ascii) :=
  if (off <? 0) || (Z.of_nat (length data) <? off) then Err INVALID_PARAM
  else Ok (take (Z.to_nat len) (drop (Z.to_nat off) data)).
(** The attributes of a member. *)
Definition attr_of (m : member) (id : Z) : TmpFs.AttrSet :=
  let size := if bool_decide (m_type m = "5"%char) then 0 else Z.of_nat (length (m_data m)) in
  TmpFs.mkAttr
    (Z.lor (if bool_decide (m_type m = "5"%char) then TAR_S_IFDIR
            else if bool_decide (m_type m = "2"%char) then TAR_S_IFLNK else TAR_S_IFREG)
       (m_mode m mod 512))
    (m_uid m) (m_gid m) size id (if bool_decide (m_type m = "5"%char) then 2 else 1)
    0 (m_mtime m) (m_mtime m) 512 ((size + 511) / 512).
(** The handle of a member shows the member. *)
Definition serves (s : Image) (m : member) (id : Z) (i : IINode) : Prop :=
  match i with
  | ADirectory d => m_type m = "5"%char ∧ td_inode_id d = id ∧ dir_getattr d s = Fin (Ok (attr_of m id)) s
  | AFile f =>
      m_type m ≠ "5"%char ∧ tf_inode_id f = id ∧ file_size f = Z.of_nat (length (m_data m)) ∧
      file_getattr f s = Fin (Ok (attr_of m id)) s ∧
      ∀ off len, off < 2 ^ 63 → 0 <= len → file_read f off len s = Fin (read_of (m_data m) off len) s
  end.

Lemma fill_tar_attr_run s p m id size :
  member_ok m → placed s p (header m) → 0 <= size < 2 ^ 40 →
  size = (if bool_decide (m_type m = "5"%char) then 0 else Z.of_nat (length (m_data m))) →
  fill_tar_attr p id size s = Fin (Ok (attr_of m id)) s.
Proof.
  intros Hm Hp Hs Es. destruct (numbers_read m Hm s p Hp) as ((l1 & E1 & V1) & (l2 & E2 & V2) & (l3 & E3 & V3) & _ & (l5 & E5 & V5) & _).
  unfold fill_tar_attr, tar_mode_bits. erewrite bind_run by (by apply (typeflag_run m)).
  erewrite bind_run by (by apply (typeflag_run m)). erewrite bind_run by (erewrite bind_run by exact E1; reflexivity).
  erewrite bind_run by exact E2. erewrite bind_run by exact E3. erewrite bind_run by exact E5. rewrite V1, V2, V3, V5.
  unfold mret, M_ret, attr_of. rewrite <- Es. destruct Hm as [_ _ _ Hu Hg _ _ _]. change (8 ^ 7) with 2097152 in Hu, Hg.
  change 511 with (Z.ones 9). rewrite Z.land_ones by done. change (2 ^ 9) with 512. change (Z.ones 9) with 511.
  unfold wrap32. rewrite (Z.mod_small (m_uid m)), (Z.mod_small (m_gid m)) by (unfold W32; lia).
  unfold add64. rewrite wrap64_small by (unfold is_u64, W64; lia). done.
Qed.

(** ** Names in a directory *)

(** The name under which a directory lists a path: the last name, when the directory
    is what comes before it. *)
Definition child_of (dir path : list ascii) : option (list ascii) :=
  match last (reduce path) with
  | Some w => if decide (reduce path = reduce dir ++ [w]) then Some w else None
  | None => None
  end.

(** A directory path made of names. *)
Definition plain (dir : list ascii) : Prop := (∀ w, w ∈ reduce dir → name w) ∧ reduce dir ≠ [].

Lemma child_below dir path rest : reduce path = reduce dir ++ rest →
  child_of dir path = match rest with [w] => Some w | _ => None end.
Proof.
  intros E. unfold child_of. rewrite E. destruct rest as [|x rest _] using rev_ind.
  - rewrite app_nil_r. destruct (last (reduce dir)) as [w|]; [|done]. rewrite decide_False; [done|].
    intros Hl. apply (f_equal length) in Hl. rewrite length_app in Hl. simpl in Hl. lia.
  - rewrite app_assoc, last_snoc. destruct rest as [|y rest].
    + rewrite app_nil_r. by rewrite decide_True.
    + rewrite decide_False; [by destruct rest|]. intros Hl. apply (f_equal length) in Hl. rewrite !length_app in Hl. simpl in Hl. lia.
Qed.
Lemma direct_entry_run dir path n st : plain dir → nul ∉ path → normalize path = Some n →
  direct_entry (text (reduce dir)) n st = Fin (Ok (option_list (child_of dir path))) st.
Proof.
  intros [Hd Hne] Hnul En. unfold direct_entry. pose proof (starts_with_below dir (reduce dir) Hd Hne eq_refl path n En) as Hsw.
  destruct (starts_with n (text (reduce dir))) eqn:Es.
  - destruct (proj1 Hsw eq_refl) as [rest Hr]. destruct (relative_to_below dir _ Hd Hne eq_refl path rest Hr Hnul) as (n' & r & En' & Er & H0 & H1).
    assert (n' = n) as -> by congruence. rewrite Er. erewrite bind_run by reflexivity. rewrite (child_below _ _ rest Hr). unfold mret, M_ret.
    do 2 f_equal. destruct rest as [|w rest]; [rewrite (H0 eq_refl); done|]. destruct H1 as (Sr & Ar & Lr); [done|].
    pose proof (below_all dir _ Hd Hne eq_refl path _ Hr) as Hall.
    assert (Hr0 : r ≠ []) by (intros ->; by rewrite seg_nil in Sr). rewrite (bool_decide_eq_false_2 (r = [])) by done.
    pose proof (filename_id r Hr0) as Hfn. destruct rest as [|x rest].
    + destruct (seg_single r w Sr Ar Lr) as [-> Hns]. rewrite (bool_decide_eq_true_2 (filename w = w)) by by apply Hfn.
      rewrite bool_decide_eq_false_2; [done|]. intros ->. assert (Hw : name DOT); [|by destruct Hw as (_ & ? & _)].
      pose proof (normal_reduce path) as (m & ws & Hws & Hcase). rewrite Hr in Hcase.
      destruct Hcase as [Hcase|Hcase].
      * assert (Hx : DOT ∈ ROOT :: ws) by (rewrite <- Hcase; set_solver). apply elem_of_cons in Hx as [|Hx]; [done|by apply Hws].
      * assert (Hx : DOT ∈ replicate m DOTDOT ++ ws) by (rewrite <- Hcase; set_solver).
        apply elem_of_app in Hx as [Hx|Hx]; [by apply elem_of_replicate_inv in Hx|by apply Hws].
    + rewrite (bool_decide_eq_false_2 (filename r = r)); [by rewrite andb_false_r|].
      intros Hx%Hfn. rewrite seg_word_end in Sr by by split. done.
  - unfold mret, M_ret. do 2 f_equal. unfold child_of. destruct (last (reduce path)) as [w|]; [|done]. case_decide as Hc; [|done].
    exfalso. assert (Ht : false = true); [|done]. apply Hsw. by exists [w].
Qed.

Section archive.
Context (s : Image) (ms : list member) (k : nat) (Hms : Forall member_ok ms) (Hf : fits s) (Hs : raw s = encode ms k).

Lemma start_at : tail_at s (data_ s) (encode ms k).
Proof using Hs. exists []. split; [done|]. simpl. lia. Qed.
Lemma member_at i m : ms !! i = Some m →
  tail_at s (data_ s + 512 * member_block ms i) (encode (drop i ms) k) ∧ 0 <= member_block ms i.
Proof using All.
  pose proof start_at as Ht. revert Ht. generalize (data_ s) as p. clear Hs Hf. revert i.
  induction Hms as [|x xs Hx Hxs IH]; intros i p Ht Hi; [done|]. destruct i as [|i]; cbn [member_block drop] in *.
  - rewrite Z.mul_0_r, Z.add_0_r. split; [done|lia].
  - destruct (tail_member _ _ _ _ _ Hx Ht) as (_ & _ & Hr). destruct (IH Hxs _ _ Hr Hi) as [H1 H2]. split; [|lia].
    by replace (p + 512 * (1 + Z.of_nat (data_blocks x) + member_block xs i)) with
      (p + 512 * (Z.of_nat (data_blocks x) + 1) + 512 * member_block xs i) by lia.
Qed.
Lemma member_placed i m : ms !! i = Some m →
  member_ok m ∧ placed s (data_ s + 512 * member_block ms i) (header m) ∧
  placed s (data_ s + 512 * member_block ms i + 512) (m_data m) ∧
  tail_at s (data_ s + 512 * member_block ms i) (encode (m :: drop (S i) ms) k).
Proof using All.
  intros Hi. destruct (member_at i m Hi) as [Ht _]. assert (Hm : member_ok m) by (by eapply Forall_lookup_1).
  rewrite (drop_S _ _ _ Hi) in Ht. destruct (tail_member _ _ _ _ _ Hm Ht) as (? & ? & _). done.
Qed.
Lemma get_block_run i m : ms !! i = Some m → get_block (member_block ms i) s = Fin (Ok (Some (data_ s + 512 * member_block ms i))) s.
Proof using All.
  intros Hi. destruct (member_placed i m Hi) as (Hm & Hp & _ & Ht). destruct (member_at i m Hi) as [_ H0].
  apply tail_bounds in Ht as Hb. rewrite encode_length in Hb by done. destruct Hf as [Hd Hfit]. unfold W64 in Hfit.
  unfold get_block. erewrite bind_run by reflexivity. unfold to_offset, mul64, BLOCK_SIZE.
  rewrite (wrap64_small (_ * _)) by (unfold is_u64, W64; lia). unfold add64. rewrite (wrap64_small (_ + 512)) by (unfold is_u64, W64; lia).
  destruct (Z.ltb_spec (size_ s) (member_block ms i * 512 + 512)); [lia|].
  rewrite wrap64_small by (unfold is_u64, W64; lia). rewrite (Z.mul_comm _ 512).
  erewrite bind_run by (by apply (is_header_run m)). done.
Qed.
Lemma tar_read_run i m off len : ms !! i = Some m → off < 2 ^ 63 → 0 <= len →
  let data := data_ s + 512 * member_block ms i + 512 in
  let f := mkFile (data_ s + 512 * member_block ms i) data (data + Z.of_nat (length (m_data m))) (member_block ms i) in
  file_read f off len s = Fin (read_of (m_data m) off len) s.
Proof using All.
  intros Hi Hoff Hlen data f. destruct (member_placed i m Hi) as (Hm & _ & Hd & Ht). fold data in Hd.
  apply tail_bounds in Ht as Hb. rewrite encode_length in Hb by done. destruct Hf as [H0 Hfit]. unfold W64 in Hfit.
  pose proof (content_length m) as Hc. unfold content, padded in Hc. rewrite length_app in Hc.
  unfold file_read, read_of, f. cbn [tf_data tf_end]. destruct (Z.ltb_spec off 0); [done|]. cbn [orb].
  assert (Hw : wrap64 (data + off) = data + off ∨ wrap64 (data + off) < data ∧ Z.of_nat (length (m_data m)) < off).
  { destruct (Z.lt_ge_cases (data + off) W64); [left; apply wrap64_small; unfold is_u64, data; lia|right]. unfold wrap64.
    rewrite <- (Z_mod_plus_full (data + off) (-1)). rewrite Z.mod_small by (unfold W64 in *; unfold data; lia). unfold W64 in *. unfold data in *. lia. }
  destruct Hw as [Hw|[Hw Hl]].
  - rewrite Hw. destruct (Z.ltb_spec (data + off) data); [lia|]. cbn [orb].
    destruct (Z.ltb_spec (data + Z.of_nat (length (m_data m))) (data + off)), (Z.ltb_spec (Z.of_nat (length (m_data m))) off); try lia; [done|].
    unfold sub64. rewrite wrap64_small by (unfold is_u64, W64; lia).
    destruct (placed_app s data (take (Z.to_nat off) (m_data m)) (drop (Z.to_nat off) (m_data m))) as [_ Hd1]; [by rewrite take_drop|].
    rewrite length_take, Nat.min_l, Z2Nat.id in Hd1 by lia.
    rewrite <- (take_drop (Z.to_nat len) (drop (Z.to_nat off) (m_data m))) in Hd1. apply placed_app in Hd1 as [Hd2 _].
    apply bytes_run; [done|]. rewrite length_take, length_drop. lia.
  - destruct (Z.ltb_spec (wrap64 (data + off)) data); [|lia]. cbn [orb]. destruct (Z.ltb_spec (Z.of_nat (length (m_data m))) off); [done|lia].
Qed.

(** [is_valid] walks from header to header, and then over the empty blocks. *)
Lemma valid_zeros n : ∀ o fuel, tail_at s (data_ s + o) (zeros (512 * n)) → 0 <= o → (n < fuel)%nat →
  is_valid_from fuel o s = Fin (Ok true) s.
Proof using Hf.
  induction n as [|n IH]; intros o fuel Ht Ho Hfuel; (destruct fuel as [|fuel]; [lia|]); cbn [is_valid_from];
    erewrite bind_run by reflexivity; pose proof (tail_bounds _ _ _ Ht) as Hb; unfold zeros in Hb; rewrite length_replicate in Hb.
  - destruct (Z.ltb_spec o (size_ s)); [lia|done].
  - destruct (Z.ltb_spec o (size_ s)); [|lia]. cbn [negb].
    replace (512 * S n)%nat with (512 + 512 * n)%nat in Ht by lia. rewrite zeros_app in Ht.
    apply tail_app in Ht as [Hz Ht]. pose proof Hz as Hz2. change 512%nat with (148 + (8 + 356))%nat in Hz2. rewrite !zeros_app in Hz2.
    apply placed_app in Hz2 as [_ Hz2]. apply placed_app in Hz2 as [Hz2 _]. unfold f_checksum.
    erewrite bind_run by (apply (bytes_run _ _ _ _ Hz2); done). unfold calc_checksum.
    erewrite bind_run by (erewrite bind_run by (apply (bytes_run _ _ _ _ Hz); done); reflexivity).
    change (parse_octal (zeros 8)) with 0. change (sum_bytes (blank_checksum (zeros 512))) with 256. cbn [Z.eqb]. unfold is_empty.
    erewrite bind_run by (erewrite bind_run by (apply (bytes_run _ _ _ _ Hz); done); reflexivity).
    change (forallb (λ c, char_val c =? 0) (zeros 512)) with true.
    assert (E : add64 o BLOCK_SIZE = o + 512).
    { destruct Hf. apply wrap64_small. unfold is_u64, BLOCK_SIZE, W64 in *. lia. }
    rewrite E. apply IH; [|lia|lia]. rewrite Z.add_assoc. unfold zeros in Ht. by rewrite length_replicate in Ht.
Qed.
Lemma valid_members l : ∀ o fuel, Forall member_ok l → tail_at s (data_ s + o) (encode l k) → 0 <= o →
  (length (encode l k) < 512 * fuel)%nat → is_valid_from fuel o s = Fin (Ok true) s.
Proof using Hf.
  induction l as [|m l IH]; intros o fuel Hl Ht Ho Hfuel.
  { apply (valid_zeros k); [done|done|]. cbn [encode] in Hfuel. unfold zeros in Hfuel. rewrite length_replicate in Hfuel. lia. }
  apply Forall_cons in Hl as [Hm Hl]. rewrite encode_length in Hfuel by done. destruct fuel as [|fuel]; [lia|].
  cbn [is_valid_from]. erewrite bind_run by reflexivity. pose proof (tail_bounds _ _ _ Ht) as Hb. rewrite encode_length in Hb by done.
  destruct (Z.ltb_spec o (size_ s)); [|lia]. cbn [negb].
  destruct (tail_member _ _ _ _ _ Hm Ht) as (Hh & _ & Hr). destruct (numbers_read m Hm s _ Hh) as (_ & _ & _ & _ & _ & (cs & E & Hcs)).
  erewrite bind_run by exact E. erewrite bind_run by (by apply (calc_checksum_run m)). rewrite Hcs, Z.eqb_refl.
  erewrite bind_run by (by apply (file_block_run m)).
  assert (Eo : add64 o (mul64 BLOCK_SIZE (add64 (Z.of_nat (data_blocks m)) 1)) = o + 512 * (Z.of_nat (data_blocks m) + 1)).
  { destruct Hf. unfold add64, mul64, BLOCK_SIZE. unfold W64 in *. rewrite (wrap64_small (_ + 1)) by (unfold is_u64, W64; lia).
    rewrite (wrap64_small (512 * _)) by (unfold is_u64, W64; lia). apply wrap64_small. unfold is_u64, W64. lia. }
  rewrite Eo. apply IH; [done| |lia|lia]. by rewrite Z.add_assoc.
Qed.
Lemma encode_blocks l : Forall member_ok l → ∃ n, length (encode l k) = (512 * n)%nat.
Proof using.
  clear. induction 1 as [|m l Hm Hl [n IH]]; [exists k; cbn [encode]; unfold zeros; by rewrite length_replicate|].
  exists (data_blocks m + 1 + n)%nat. rewrite encode_length by done. lia.
Qed.
Lemma is_valid_run : is_valid s = Fin (Ok true) s.
Proof using All.
  unfold is_valid. erewrite bind_run by reflexivity. destruct (encode_blocks ms Hms) as [n Hn].
  assert (Es : size_ s = Z.of_nat n * 512) by (unfold size_; rewrite Hs, Hn; lia).
  unfold BLOCK_SIZE. rewrite Es, Z.mod_mul by done. cbn [Z.eqb negb].
  apply (valid_members ms); [done|rewrite Z.add_0_r; apply start_at|done|]. unfold rounds. rewrite Hs.
  pose proof (Nat.div_mod_eq (length (encode ms k)) 512). pose proof (Nat.mod_upper_bound (length (encode ms k)) 512). lia.
Qed.

(** The handle of a member. *)
Lemma get_inode_run i m : ms !! i = Some m → let id := member_block ms i in
  ∃ n, get_inode true id s = Fin (Ok n) s ∧ serves s m id n.
Proof using All.
  intros Hi id. destruct (member_placed i m Hi) as (Hm & Hp & _ & Ht). set (p := data_ s + 512 * member_block ms i) in *.
  pose proof (ok_size _ Hm) as Hsz. change (8 ^ 11) with 8589934592 in Hsz.
  unfold get_inode, id. erewrite bind_run by (by apply (get_block_run i m)). cbn beta match.
  erewrite bind_run by (by apply (typeflag_run m)). case_bool_decide as Ety; cbn [negb].
  - eexists. split; [reflexivity|]. cbn [serves td_inode_id]. split_and!; [done|done|]. unfold dir_getattr. cbn [td_header td_inode_id].
    apply (fill_tar_attr_run _ _ m); [done|done|lia|]. by rewrite bool_decide_eq_true_2.
  - unfold new_TarFile. destruct (numbers_read m Hm s p Hp) as (_ & _ & _ & (l & E & Hl) & _).
    erewrite bind_run by (erewrite bind_run by exact E; reflexivity). rewrite Hl.
    apply tail_bounds in Ht. rewrite encode_length in Ht by done. destruct Hf as [H0 Hfit]. unfold W64 in Hfit.
    pose proof (content_length m) as Hc. unfold content, padded in Hc. rewrite length_app in Hc. unfold BLOCK_SIZE.
    destruct (member_at i m Hi) as [_ Hb0].
    rewrite wrap64_small by (unfold is_u64, W64, p; lia). eexists. split; [reflexivity|].
    assert (Hsize : sub64 (p + 512 + Z.of_nat (length (m_data m))) (p + 512) = Z.of_nat (length (m_data m))).
    { unfold sub64. rewrite wrap64_small by (unfold is_u64, W64; lia). lia. }
    cbn [serves tf_inode_id]. unfold file_size, file_getattr. cbn [tf_data tf_end tf_header tf_inode_id]. fold p.
    rewrite Hsize. split_and!; [done|done|done| |].
    + apply (fill_tar_attr_run _ _ m); [done|done|lia|]. by rewrite bool_decide_eq_false_2.
    + intros off len Hoff Hlen. by apply tar_read_run.
Qed.

(** ** Looking names up and listing directories *)

(** A directory has no data, so the scan from behind its header starts at the next
    member. *)
Lemma after_directory i d : ms !! i = Some d → m_type d = "5"%char →
  tail_at s (data_ s + 512 * member_block ms i + 512) (encode (drop (S i) ms) k) ∧
  wrap64 (data_ s + 512 * member_block ms i + BLOCK_SIZE) = data_ s + 512 * member_block ms i + 512 ∧
  member_block ms (S i) = member_block ms i + 1.
Proof using All.
  intros Hi Hd. destruct (member_placed i d Hi) as (Hm & _ & _ & Ht). destruct (tail_member _ _ _ _ _ Hm Ht) as (_ & _ & Hr).
  destruct (member_at i d Hi) as [_ H0].
  assert (Hb : data_blocks d = 0%nat) by (unfold data_blocks; rewrite (ok_dir _ Hm Hd); done). rewrite Hb in Hr.
  split_and!; [done| |].
  - apply tail_bounds in Hr. destruct Hf. unfold BLOCK_SIZE, W64 in *. apply wrap64_small. unfold is_u64, W64. lia.
  - clear -Hi Hb. revert i Hi. induction ms as [|x xs IH]; intros i Hi; [done|]. destruct i as [|i]; cbn [member_block].
    + injection Hi as ->. rewrite Hb. destruct xs; simpl; lia.
    + cbn [lookup list_lookup] in Hi. specialize (IH _ Hi). cbn [member_block] in IH. lia.
Qed.
Lemma member_block_drop i j : (i < length ms)%nat → member_block ms (i + j) = member_block ms i + member_block (drop i ms) j.
Proof using.
  clear. revert i. induction ms as [|x xs IH]; intros i Hi; [simpl in Hi; lia|]. destruct i as [|i]; [done|].
  cbn [Nat.add member_block drop]. rewrite IH by (simpl in Hi; lia). lia.
Qed.
Lemma enough_rounds i : (length (drop i ms) < rounds s)%nat.
Proof using Hms Hs.
  pose proof (encode_rounds ms k Hms) as He. unfold rounds. rewrite Hs, length_drop.
  pose proof (Nat.div_mod_eq (length (encode ms k)) 512). pose proof (Nat.mod_upper_bound (length (encode ms k)) 512). lia.
Qed.
Lemma dir_name_run i d : ms !! i = Some d → c_string_at (f_name (data_ s + 512 * member_block ms i)) s = Fin (Ok (m_name d)) s.
Proof using All. intros Hi. destruct (member_placed i d Hi) as (Hm & Hp & _). by apply (name_run d). Qed.

(** The first member behind a directory whose path is that of the name in it. *)
Definition first_named (i : nat) (path : list ascii) : option nat :=
  (λ x, (S i + x.1)%nat) <$> list_find (λ m, normalize (m_name m) = normalize path) (drop (S i) ms).

Lemma lookup_run i d name : ms !! i = Some d → m_type d = "5"%char → name ≠ [] →
  let id := member_block ms i in
  dir_lookup (mkDir (data_ s + 512 * id) id) name s =
    Fin (match first_named i (join (m_name d) name) with
         | Some j => Ok (member_block ms j)
         | None => Err ENTRY_NOT_FOUND
         end) s.
Proof using All.
  intros Hi Hd Hname id. destruct (after_directory i d Hi Hd) as (Ht & Hw & Hb). unfold dir_lookup, id. cbn [td_header td_inode_id].
  rewrite bool_decide_eq_false_2 by done. erewrite bind_run by (by apply (dir_name_run i d)). unfold first_named.
  destruct (normalize (join (m_name d) name)) as [path|] eqn:Ep; [|by rewrite normalize_run in Ep].
  unfold returned at 1. erewrite bind_run by reflexivity. erewrite bind_run by reflexivity. rewrite Hw.
  assert (Hlt : (i < length ms)%nat) by (by apply lookup_lt_Some in Hi).
  assert (Hq : data_ s + 512 * member_block ms i + 512 - data_ s = member_block ms (S i) * 512) by lia.
  rewrite (lookup_from_run s path (drop (S i) ms) k); [|done|by apply Forall_drop|done|apply enough_rounds|by rewrite Hq, Z.mod_mul].
  rewrite Hq, Z.div_mul by done. destruct (list_find _ (drop (S i) ms)) as [[j m]|] eqn:El; cbn; [|done]. do 2 f_equal.
  apply list_find_Some in El as (El & _). apply lookup_lt_Some in El. rewrite length_drop in El.
  replace (S (i + j)) with (S i + j)%nat by lia. rewrite (member_block_drop (S i)) by lia. cbn [member_block]. done.
Qed.

Lemma collect_run dir l p fuel :
  plain dir → Forall member_ok l → tail_at s p (encode l k) → (length l < fuel)%nat →
  collect_from fuel (text (reduce dir)) p s = Fin (Ok (omap (λ m, child_of dir (m_name m)) l)) s.
Proof using Hf.
  intros Hd Hl. revert p fuel. induction Hl as [|m l Hm Hl IH]; intros p fuel Ht Hfuel;
    (destruct fuel as [|fuel]; [simpl in Hfuel; lia|]); cbn [collect_from].
  - destruct (scan_end _ _ _ Hf Ht) as [E1 E2]. erewrite bind_run by exact E1. destruct (k =? 0)%nat eqn:Ek; cbn [negb]; [done|].
    erewrite bind_run by (apply E2; by apply Nat.eqb_neq). done.
  - destruct (scan_member _ _ _ _ _ Hf Hm Ht) as (E1 & E2 & E3 & E4). erewrite bind_run by exact E1. cbn [negb].
    erewrite bind_run by exact E2. cbn [negb]. erewrite bind_run by exact E3.
    destruct (normalize (m_name m)) as [n|] eqn:En; [|by rewrite normalize_run in En].
    unfold returned at 1. erewrite bind_run by reflexivity. destruct (ok_name _ Hm) as [_ Hnul].
    erewrite bind_run by (by apply (direct_entry_run dir (m_name m))). erewrite bind_run by exact E4.
    destruct (tail_member _ _ _ _ _ Hm Ht) as (_ & _ & Hr). erewrite bind_run by (apply IH; [done|simpl in Hfuel; lia]).
    cbn [omap list_omap]. by destruct (child_of dir (m_name m)).
Qed.
Lemma listing_run i d : ms !! i = Some d → m_type d = "5"%char → plain (m_name d) →
  let id := member_block ms i in
  collect_direct_entries (mkDir (data_ s + 512 * id) id) s =
    Fin (Ok (omap (λ m, child_of (m_name d) (m_name m)) (drop (S i) ms))) s.
Proof using All.
  intros Hi Hd Hp id. destruct (after_directory i d Hi Hd) as (Ht & Hw & _). unfold collect_direct_entries, id. cbn [td_header].
  erewrite bind_run by (by apply (dir_name_run i d)). destruct Hp as [Hp Hp0].
  rewrite (normalize_base (m_name d) (reduce (m_name d))) by done. unfold returned at 1.
  erewrite bind_run by reflexivity. erewrite bind_run by reflexivity. rewrite Hw.
  apply collect_run; [done|by apply Forall_drop|done|apply enough_rounds].
Qed.
End archive.

(** ** Any image *)

Lemma parse_octal_bound l r : 0 <= r → (r + 1) * 8 ^ Z.of_nat (length l) <= 2 ^ 60 →
  0 <= parse_octal_from r l < (r + 1) * 8 ^ Z.of_nat (length l).
Proof.
  revert r. induction l as [|c l IH]; intros r Hr Hb; [simpl in *; lia|]. cbn [parse_octal_from length] in *.
  rewrite Nat2Z.inj_succ, Z.pow_succ_r in * by lia. assert (Hp : 0 < 8 ^ Z.of_nat (length l)) by (apply Z.pow_pos_nonneg; lia).
  case_bool_decide; [nia|]. destruct (Z.ltb_spec (char_val c) 48); cbn [orb]; [nia|]. destruct (Z.ltb_spec 55 (char_val c)); [nia|].
  assert (E : add64 (shl64 r 3) (char_val c - 48) = r * 8 + (char_val c - 48)).
  { unfold add64, shl64, wrap64. rewrite Z.shiftl_mul_pow2 by lia. change (2 ^ 3) with 8. unfold W64.
    rewrite (Z.mod_small (r * 8)) by nia. apply Z.mod_small. nia. }
  rewrite E. specialize (IH (r * 8 + (char_val c - 48))). nia.
Qed.
Lemma bytes_inside s o n : 0 <= o → 0 <= n → o + n <= size_ s →
  ∃ l, bytes_at (data_ s + o) n s = Fin (Ok l) s ∧ Z.of_nat (length l) = n.
Proof.
  intros Ho Hn Hle. unfold bytes_at. replace (data_ s + o - data_ s) with o by lia. rewrite (proj2 (Z.leb_le 0 o)) by done.
  rewrite (proj2 (Z.leb_le _ _)) by done. eexists. split; [reflexivity|]. rewrite length_take, length_drop. unfold size_ in Hle. lia.
Qed.
Lemma valid_from_returns s fuel o n : fits s → size_ s = 512 * n → 0 <= o → o mod 512 = 0 →
  (0 < fuel)%nat → size_ s <= o + 512 * (Z.of_nat fuel - 1) → ∃ b, is_valid_from fuel o s = Fin (Ok b) s.
Proof.
  intros [H0 Hf] Hn. revert o. induction fuel as [|fuel IH]; intros o Ho Hal Hpos Hfuel; [lia|]. cbn [is_valid_from].
  pose proof (Z.div_mod o 512 ltac:(lia)) as Hdm. rewrite Hal in Hdm.
  erewrite bind_run by reflexivity. destruct (Z.ltb_spec o (size_ s)) as [Hlt|Hge]; cbn [negb]; [|by exists true].
  destruct (bytes_inside s (o + 148) 8) as (cs & Ecs & _); [lia..|]. destruct (bytes_inside s o 512) as (b & Eb & _); [lia..|].
  destruct (bytes_inside s (o + 124) 12) as (sz & Esz & Lsz); [lia..|]. rewrite Z.add_assoc in Ecs, Esz.
  unfold f_checksum. erewrite bind_run by exact Ecs. unfold calc_checksum.
  erewrite bind_run by (erewrite bind_run by exact Eb; reflexivity). destruct (_ =? _).
  - unfold file_block, f_size. erewrite bind_run by (erewrite bind_run by exact Esz; reflexivity).
    pose proof (parse_octal_bound sz 0 ltac:(done)) as Hb. rewrite Lsz in Hb. change (8 ^ 12) with 68719476736 in Hb.
    fold (parse_octal sz) in Hb. specialize (Hb ltac:(lia)). set (v := parse_octal sz) in *.
    unfold W64, add64, sub64, mul64, BLOCK_SIZE in *. rewrite (wrap64_small (v + 512)) by (unfold is_u64, W64; lia).
    rewrite (wrap64_small (v + 512 - 1)) by (unfold is_u64, W64; lia).
    pose proof (Z.div_mod (v + 512 - 1) 512 ltac:(lia)). pose proof (Z.mod_pos_bound (v + 512 - 1) 512 ltac:(lia)).
    set (q := (v + 512 - 1) / 512) in *. rewrite (wrap64_small (q + 1)) by (unfold is_u64, W64; lia).
    rewrite (wrap64_small (512 * (q + 1))) by (unfold is_u64, W64; lia). rewrite wrap64_small by (unfold is_u64, W64; lia).
    apply IH; [lia| |lia|lia]. rewrite (Z.mul_comm 512), Z.mod_add by done. done.
  - unfold is_empty. erewrite bind_run by (erewrite bind_run by exact Eb; reflexivity). destruct (forallb _ b); [|by exists false].
    unfold add64, BLOCK_SIZE, W64 in *. rewrite wrap64_small by (unfold is_u64, W64; lia).
    apply IH; [lia| |lia|lia]. rewrite <- (Z.mul_1_l 512) at 1. by rewrite Z.mod_add.
Qed.

(** The check of an archive returns on every image, valid or not, and reads nothing
    outside of it. *)
Theorem is_valid_returns s : fits s → ∃ b, is_valid s = Fin (Ok b) s.
Proof.
  intros Hf. unfold is_valid. erewrite bind_run by reflexivity. destruct (Z.eqb_spec (size_ s mod BLOCK_SIZE) 0) as [E|E]; cbn [negb]; [|by exists false].
  unfold BLOCK_SIZE in E. pose proof (Z.div_mod (size_ s) 512 ltac:(lia)) as Hdm. rewrite E in Hdm.
  apply (valid_from_returns _ _ _ (size_ s / 512)); [done|lia|done|done|unfold rounds; lia|].
  unfold rounds. rewrite Nat2Z.inj_succ, Nat2Z.inj_div. fold (size_ s). lia.
Qed.

(** C13: an archive that a device holds is accepted and mounted, and every member is read
    back: the inode number of its header gives a handle that shows its type, size and
    attributes and that reads its data, in every range, and a link gives its target. *)
Theorem archive_read_back B devno dev cache bs n addr ms k :
  lookup_dev B devno = Ok (Some dev) → lookup_cache B devno = Ok (Some cache) →
  block_sz dev = Ok bs → block_cnt dev = Ok (Z.of_nat n) →
  read_all cache 0 n = Ok (encode ms k) → Forall member_ok ms → fits (mkImage addr (encode ms k)) →
  (∀ s, ramdisk dev = Some s → raw s = encode ms k ∧ fits s) →
  ∃ s, probe B (Some addr) devno tt = Fin (Ok tt) tt ∧ mount B (Some addr) true devno = Ok s ∧
    ∀ i m, ms !! i = Some m → let id := member_block ms i in
      (∃ h, get_inode true id s = Fin (Ok h) s ∧ serves s m id h) ∧
      is_symlink id s = Fin (Ok (bool_decide (m_type m = "2"%char))) s ∧
      readlink id s = Fin (if bool_decide (m_type m = "2"%char) then Ok (m_link m) else Err NOT_SUPPORTED) s.
Proof.
  intros Hl Hc Hbs Hcnt Hall Hms Hf0 Hr. set (s0 := mkImage addr (encode ms k)) in *.
  set (s := default s0 (ramdisk dev)). exists s.
  assert (Hs : raw s = encode ms k ∧ fits s) by (unfold s; destruct (ramdisk dev) as [r|]; [by apply Hr|done]).
  destruct Hs as [Hs Hf].
  assert (Ho : open_device B devno = Ok (dev, cache, bs, Z.of_nat n)).
  { unfold open_device. rewrite Hl. cbn. rewrite Hc. cbn. rewrite Hbs. cbn. by rewrite Hcnt. }
  split_and!.
  - unfold probe. rewrite Ho. erewrite bind_run by reflexivity. cbn beta match. rewrite Nat2Z.id, Hall.
    erewrite bind_run by reflexivity. fold s0. by rewrite (is_valid_run s0 ms k).
  - unfold mount. rewrite Ho. cbn. unfold s. destruct (ramdisk dev); [done|]. by rewrite Nat2Z.id, Hall.
  - intros i m Hi id. split; [by apply (get_inode_run s ms k)|].
    destruct (member_placed s ms k Hms Hf Hs i m Hi) as (Hm & Hp & _). split.
    + unfold is_symlink. erewrite bind_run by (by apply (get_block_run s ms k Hms Hf Hs i m)). by apply (typeflag_run m).
    + unfold readlink. erewrite bind_run by (by apply (get_block_run s ms k Hms Hf Hs i m)). cbn beta match.
      erewrite bind_run by (by apply (typeflag_run m)). case_bool_decide; cbn [negb]; [|done]. by apply (linkname_run m).
Qed.

(** C30: directories of an archive, as the reference encoder makes it from members whose
    paths and links are below 100 characters (longer ones run on, [long_name_runs_on]).
    In a directory a name leads to the first later member whose path is that of the
    directory joined with the name, and to ENTRY_NOT_FOUND when there is none.  A
    directory whose path is relative and made of names, none of them '.' or '..', lists
    the last names of exactly the later members that are one name longer (in an archive
    of './' the top directory lists nothing, [dot_directory_lists_nothing]). *)
Theorem directory_lookup_and_listing s ms k i d :
  Forall member_ok ms → fits s → raw s = encode ms k → ms !! i = Some d → m_type d = "5"%char →
  let dir := mkDir (data_ s + 512 * member_block ms i) (member_block ms i) in
  get_inode true (member_block ms i) s = Fin (Ok (ADirectory dir)) s ∧
  (∀ name, dir_lookup dir name s =
     Fin (if bool_decide (name = []) then Ok (member_block ms i)
          else match first_named ms i (join (m_name d) name) with
               | Some j => Ok (member_block ms j)
               | None => Err ENTRY_NOT_FOUND
               end) s) ∧
  (plain (m_name d) →
   let names := omap (λ m, child_of (m_name d) (m_name m)) (drop (S i) ms) in
   entry_count dir s = Fin (Ok (Z.of_nat (length names))) s ∧
   ∀ j, entry_at dir (Z.of_nat j) s =
     Fin (match names !! j with Some w => Ok w | None => Err OUT_OF_BOUNDARY end) s).
Proof.
  intros Hms Hf Hs Hi Hd dir. destruct (member_placed s ms k Hms Hf Hs i d Hi) as (Hm & Hp & _). split_and!.
  - unfold get_inode. erewrite bind_run by (by apply (get_block_run s ms k Hms Hf Hs i d)). cbn beta match.
    erewrite bind_run by (by apply (typeflag_run d)). by rewrite bool_decide_eq_true_2.
  - intros name. case_bool_decide as E; [rewrite E; done|]. by apply (lookup_run s ms k).
  - intros Hpl names. pose proof (listing_run s ms k Hms Hf Hs i d Hi Hd Hpl) as E. split.
    + unfold entry_count. by erewrite bind_run by exact E.
    + intros j. unfold entry_at. erewrite bind_run by exact E. fold names. rewrite Nat2Z.id.
      destruct (names !! j) eqn:Ej.
      * apply lookup_lt_Some in Ej as Hj. by rewrite (proj2 (Z.leb_gt _ _)) by lia.
      * apply lookup_ge_None in Ej. by rewrite (proj2 (Z.leb_le _ _)) by lia.
Qed.

End TarFs.

Module TarFsWitness.
Import Path TarFs.
Definition lit (s : string) : list ascii := String.list_ascii_of_string s.
Definition dir_member (name : string) : member := mkMember (lit name) 493 0 0 1000 "5" [] [].
Definition file_member (name data : string) : member := mkMember (lit name) 420 1 2 1000 "0" [] (lit data).
Definition link_member (name target : string) : member := mkMember (lit name) 511 0 0 1000 "2" (lit target) [].

Definition tree : list member :=
  [dir_member "initrd/"; file_member "initrd/a.txt" "hello"; dir_member "initrd/bin/"; link_member "initrd/bin/sh" "../a.txt"].
(** A disk with blocks of 1024 bytes. *)
Definition disk : Cache := λ i, Ok (take 1024 (drop (Z.to_nat (i * 1024)) (encode tree 1))).
Definition devices : BlkManager :=
  mkBlk (λ n, if n =? 0 then Ok (Some (mkDevice (Ok 1024) (Ok 3) None)) else Err ENTRY_NOT_FOUND)
        (λ n, if n =? 0 then Ok (Some disk) else Err ENTRY_NOT_FOUND).

#[local] Instance member_ok_dec m : Decision (member_ok m).
Proof.
  refine (cast_if (decide
    (((length (m_name m) < 100)%nat ∧ nul ∉ m_name m) ∧ ((length (m_link m) < 100)%nat ∧ nul ∉ m_link m) ∧
     (0 <= m_mode m < 8 ^ 7) ∧ (0 <= m_uid m < 8 ^ 7) ∧ (0 <= m_gid m < 8 ^ 7) ∧ (0 <= m_mtime m < 8 ^ 11) ∧
     (Z.of_nat (length (m_data m)) < 8 ^ 11) ∧ (m_type m = "5"%char → m_data m = []))));
  [abstract (constructor; tauto)|abstract (intros []; tauto)].
Defined.

Lemma tree_ok : Forall member_ok tree.
Proof. apply (bool_decide_unpack _). vm_compute. exact I. Qed.

Lemma archive_read_back_witness :
  ∃ s, probe devices (Some 4096) 0 tt = Fin (Ok tt) tt ∧ mount devices (Some 4096) true 0 = Ok s ∧
    readlink (member_block tree 3) s = Fin (Ok (lit "../a.txt")) s.
Proof.
  destruct (archive_read_back devices 0 (mkDevice (Ok 1024) (Ok 3) None) disk 1024 3 4096 tree 1)
    as (s & H1 & H2 & H3); [reflexivity..|vm_compute; reflexivity|exact tree_ok|vm_compute; split; discriminate|discriminate|].
  exists s. split; [exact H1|]. split; [exact H2|]. exact (proj2 (proj2 (H3 3%nat (link_member "initrd/bin/sh" "../a.txt") eq_refl))).
Defined.

Lemma is_valid_returns_witness : ∃ b, is_valid (mkImage 4096 (lit "not an archive")) = Fin (Ok b) (mkImage 4096 (lit "not an archive")).
Proof. apply is_valid_returns. vm_compute. split; discriminate. Defined.

Lemma directory_lookup_and_listing_witness :
  let s := mkImage 4096 (encode tree 1) in
  let dir := mkDir 4096 0 in
  dir_lookup dir (lit "bin/sh") s = Fin (Ok 4) s ∧ entry_count dir s = Fin (Ok 2) s.
Proof.
  destruct (directory_lookup_and_listing (mkImage 4096 (encode tree 1)) tree 1 0 (dir_member "initrd/")) as (_ & Hl & Hc);
    [exact tree_ok|vm_compute; split; discriminate|reflexivity|reflexivity|reflexivity|].
  split; [etrans; [exact (Hl (lit "bin/sh"))|vm_compute; reflexivity]|].
  destruct Hc as [Hc _]; [|etrans; [exact Hc|vm_compute; reflexivity]].
  split; [|by vm_compute]. intros w Hw. assert (E : w = lit "initrd"); [by apply list_elem_of_singleton|]. subst w.
  split; [split; [done|apply (bool_decide_unpack _); vm_compute; exact I]|done].
Defined.

(** ** What the checks do not cover *)

(** A header that claims more data than the image has is accepted; reading the file
    then leaves the image. *)
Lemma truncated_archive_accepted :
  let m := mkMember (lit "f") 420 0 0 0 "0" [] (replicate 600 nul) in
  let s := mkImage 4096 (take 1024 (encode [m] 0)) in
  is_valid s = Fin (Ok true) s ∧
  ∃ f, get_inode true 0 s = Fin (Ok (AFile f)) s ∧ file_size f = 600 ∧ file_read f 0 600 s = Panic.
Proof.
  split; [vm_compute; reflexivity|]. exists (mkFile 4096 4608 5208 0). split; [vm_compute; reflexivity|].
  split; [reflexivity|vm_compute; reflexivity].
Qed.

(** An archive of the directory [.]: its members are found, but not listed. *)
Lemma dot_directory_lists_nothing :
  let s := mkImage 4096 (encode [dir_member "./"; file_member "./a" "x"] 0) in
  dir_lookup (mkDir 4096 0) (lit "a") s = Fin (Ok 1) s ∧ entry_count (mkDir 4096 0) s = Fin (Ok 0) s.
Proof. split; vm_compute; reflexivity. Qed.

(** [is_valid] allows empty blocks between members, [lookup] stops at the first. *)
Lemma empty_block_hides_members :
  let s := mkImage 4096 (encode [dir_member "d/"] 1 ++ encode [file_member "d/a" "x"] 0) in
  is_valid s = Fin (Ok true) s ∧ dir_lookup (mkDir 4096 0) (lit "a") s = Fin (Err ENTRY_NOT_FOUND) s.
Proof. split; vm_compute; reflexivity. Qed.

(** A name of 100 characters, which ustar allows, has no zero behind it: the mode is
    read as part of the name. *)
Lemma long_name_runs_on :
  let name := lit "d/" ++ replicate 98 "x"%char in
  let m := mkMember name 420 0 0 0 "0" [] [] in
  let s := mkImage 4096 (encode [dir_member "d/"; m] 0) in
  is_valid s = Fin (Ok true) s ∧ c_string_at (f_name (4096 + 512)) s = Fin (Ok (name ++ lit "0000644")) s ∧
  dir_lookup (mkDir 4096 0) (replicate 98 "x"%char) s = Fin (Err ENTRY_NOT_FOUND) s.
Proof. split; [|split]; vm_compute; reflexivity. Qed.

(** The multiplication of an inode number by the block size wraps: a number that is
    far too large names the first member, and the one before it a block in front of
    the image. *)
Lemma inode_number_wraps :
  let s := mkImage 4096 (encode tree 1) in
  get_block (2 ^ 55) s = get_block 0 s ∧ get_block (2 ^ 55 - 1) s = Panic.
Proof. split; vm_compute; reflexivity. Qed.
End TarFsWitness.
