(* ===== verification/Vfs.v ===== *)
(** * The virtual file system

    [kernel/vfs/vfs.h] and [vfs.cpp] without the page cache ([PageCache]): registered
    file systems, mounts, the cache of inodes of each superblock, the resolution of
    paths over mounts and symbolic links, and the operations on files and directories.

    The objects of the system are in maps from pointers; using one that is gone is a
    [Panic].  A [VINode] counts its lasting references (its superblock's cache, open
    handles, mounts); a routine's own references end with it, and [reap] then deletes
    the nodes that have none.  The hash tables are finite maps (theorem
    [unordered_map_refines] of [HashMap]); their nodes do not move, so a pointer to a
    [MountRecord] is the key of the record.

    File systems, the page cache and block devices are the interface [FileSystems].
    Resolution is recursive in the kernel; [fuel] bounds its depth, and
    [VfsResolve] says when it is enough. *)

From Stdlib Require Import Ascii.
From S2P Require Import Prelude ErrCode Capability Path PathBelow TmpFs.
Import TmpFs(INodeType, FILE, DIRECTORY, SYMLINK, INodeType_eq_dec).

#[local] Open Scope Z_scope.

Module Vfs.
Import Path PathBelow.

Abbreviation str := (list ascii) (only parsing).
Definition lit (s : string) : str := String.list_ascii_of_string s.

(** ** What the virtual file system uses

    [fs_new]: whether the next [new] gives memory.  A superblock [sb] and an inode
    number are the object behind [ISuperblock *] and [IINode *]; [fs_get_inode] tells the
    class of the object.  The last three are operations of a [VINode]. *)
Class FileSystems (F : Type) := {
  fs_new : M F bool;
  fs_root : Z → M F Z;
  fs_get_inode : Z → Z → M F INodeType;
  fs_cached : F → Z → Z → bool;
  fs_is_symlink : Z → Z → M F bool;
  fs_readlink : Z → Z → M F str;
  fs_sync : Z → M F unit;
  fs_lookup : Z → Z → str → M F Z;
  fs_mkfile : Z → Z → str → M F Z;
  fs_mkdir : Z → Z → str → M F Z;
  fs_symlink : Z → Z → str → str → M F Z;
  fs_unlink : Z → Z → str → M F unit;
  fs_rmdir : Z → Z → str → M F unit;
  fs_link : Z → Z → str → Z → M F unit;
  fs_rename : Z → Z → str → Z → Z → str → M F unit;
  fs_entry_count : Z → Z → M F Z;
  fs_entry_at : Z → Z → Z → M F str;
  fs_dir_sync : Z → Z → M F unit;
  fs_getattr : Z → Z → M F TmpFs.AttrSet;
  fs_setattr : Z → Z → Z → TmpFs.AttrSet → M F unit;
  fs_mount : str → option Z → str → M F Z;
  fs_unmount : str → Z → M F unit;
  blk_lookup : Z → M F unit;
  blk_sync : Z → M F unit;
  pc_flush : Z → M F unit;
  pc_invalidate : Z → M F unit;
  pc_size : Z → M F Z;
}.

(** ** Data *)

Inductive MountStatus := MOUNTED | UMOUNTED | INVALID.
#[global] Instance MountStatus_eq_dec : EqDecision MountStatus.
Proof. solve_decision. Defined.

(** [v_refs] counts the lasting references. *)
Record VINode := mkVINode { v_vsb : Z; v_fsd : str; v_inode : Z; v_kind : INodeType; v_refs : Z }.
Record VSuperblock := mkVsb { vs_sb : Z; vs_fsd : str; vs_cache : gmap Z Z }.
(** [MountKey]: the pointer to the parent, 0 for the root, and the name. *)
Abbreviation MountKey := (Z * list ascii)%type.
Record MountRecord := mkRecord {
  r_parent_vinode : Z;
  r_entry_name : str;
  r_mount_path : str;
  r_superblock : Z;
  r_devno : Z;
  r_is_block_mount : bool;
  r_active_files : Z;
  r_mount_cap : option Z;
}.
Record VFile := mkVFile { f_vind : Z; f_mount_record : MountKey }.
Record VDirectory := mkVDir { d_vind : Z; d_mount_record : MountKey; d_global_path : str }.
Record VMount := mkVMount {
  m_fs_name : str;
  m_superflags : Z;
  m_options : str;
  m_has_device : bool;
  m_devno : Z;
  m_status : MountStatus;
  m_active_vsb : Z;
  m_parent_vinode : Z;
  m_entry_name : str;
  m_mount_path : str;
  m_is_block_mount : bool;
  m_active_files : Z;
}.

Section vfs.
Context {F : Type} `{!FileSystems F}.

(** [fs_table] says of each driver whether it [is_pseudo]. *)
Record vfs := mkVfs {
  fs_table : gmap str bool;
  mount_table : gmap MountKey MountRecord;
  pseudo_mounts : gmap str Z;
  vsbs : gmap Z VSuperblock;
  vnodes : gmap Z VINode;
  files : gmap Z VFile;
  dirs : gmap Z VDirectory;
  vmounts : gmap Z VMount;
  next_ptr : Z;
  fs : F;
}.

Definition set_fs_table f s := mkVfs (f (fs_table s)) (mount_table s) (pseudo_mounts s) (vsbs s)
  (vnodes s) (files s) (dirs s) (vmounts s) (next_ptr s) (fs s).
Definition set_mount_table f s := mkVfs (fs_table s) (f (mount_table s)) (pseudo_mounts s) (vsbs s)
  (vnodes s) (files s) (dirs s) (vmounts s) (next_ptr s) (fs s).
Definition set_pseudo_mounts f s := mkVfs (fs_table s) (mount_table s) (f (pseudo_mounts s)) (vsbs s)
  (vnodes s) (files s) (dirs s) (vmounts s) (next_ptr s) (fs s).
Definition set_vsbs f s := mkVfs (fs_table s) (mount_table s) (pseudo_mounts s) (f (vsbs s))
  (vnodes s) (files s) (dirs s) (vmounts s) (next_ptr s) (fs s).
Definition set_vnodes f s := mkVfs (fs_table s) (mount_table s) (pseudo_mounts s) (vsbs s)
  (f (vnodes s)) (files s) (dirs s) (vmounts s) (next_ptr s) (fs s).
Definition set_files f s := mkVfs (fs_table s) (mount_table s) (pseudo_mounts s) (vsbs s)
  (vnodes s) (f (files s)) (dirs s) (vmounts s) (next_ptr s) (fs s).
Definition set_dirs f s := mkVfs (fs_table s) (mount_table s) (pseudo_mounts s) (vsbs s)
  (vnodes s) (files s) (f (dirs s)) (vmounts s) (next_ptr s) (fs s).
Definition set_vmounts f s := mkVfs (fs_table s) (mount_table s) (pseudo_mounts s) (vsbs s)
  (vnodes s) (files s) (dirs s) (f (vmounts s)) (next_ptr s) (fs s).
Definition set_next n s := mkVfs (fs_table s) (mount_table s) (pseudo_mounts s) (vsbs s)
  (vnodes s) (files s) (dirs s) (vmounts s) n (fs s).

Definition with_fs {A} (m : M F A) : M vfs A := λ s,
  match m (fs s) with
  | Fin r f => Fin r (mkVfs (fs_table s) (mount_table s) (pseudo_mounts s) (vsbs s)
                        (vnodes s) (files s) (dirs s) (vmounts s) (next_ptr s) f)
  | Panic => Panic
  | OutOfFuel => OutOfFuel
  end.

Definition at_ptr {A} (x : option A) : M vfs A := match x with Some a => mret a | None => panic end.
Definition vnode (p : Z) : M vfs VINode := x ← gets (λ s, vnodes s !! p); at_ptr x.
Definition vsb (p : Z) : M vfs VSuperblock := x ← gets (λ s, vsbs s !! p); at_ptr x.
Definition record_at (k : MountKey) : M vfs MountRecord := x ← gets (λ s, mount_table s !! k); at_ptr x.
Definition vmount (p : Z) : M vfs VMount := x ← gets (λ s, vmounts s !! p); at_ptr x.
(** A new address. *)
Definition fresh : M vfs Z := p ← gets next_ptr; _ ← modify (set_next (p + 1)); mret p.

Definition set_refs (n : Z) (v : VINode) : VINode := mkVINode (v_vsb v) (v_fsd v) (v_inode v) (v_kind v) n.
Definition keep (p : Z) : M vfs unit :=
  v ← vnode p; modify (set_vnodes (insert p (set_refs (add64 (v_refs v) 1) v))).
(** The node lives on until [reap]. *)
Definition release (p : Z) : M vfs unit :=
  v ← vnode p;
  if v_refs v =? 0 then mret tt
  else modify (set_vnodes (insert p (set_refs (v_refs v - 1) v))).

(** [VINode::~VINode] *)
Definition delete_vnode (p : Z) : M vfs unit :=
  v ← vnode p;
  _ ← attempt (with_fs (pc_flush p));
  _ ← with_fs (pc_invalidate p);
  _ ← vsb (v_vsb v);
  modify (set_vnodes (delete p)).
Definition bury (p : Z) : M vfs unit :=
  v ← vnode p; if v_refs v =? 0 then delete_vnode p else mret tt.
Fixpoint each {A} (f : A → M vfs unit) (l : list A) : M vfs unit :=
  match l with [] => mret tt | a :: l => _ ← f a; each f l end.
Definition reap : M vfs unit :=
  dead ← gets (λ s, filter (λ p, default 1 (v_refs <$> vnodes s !! p) = 0) (map_to_list (vnodes s)).*1);
  each delete_vnode dead.
(** A public operation: the references of its own end with it. *)
Definition public {A} (m : M vfs A) : M vfs A :=
  r ← attempt m; _ ← reap; of_result r.

(** *** Handles *)

Definition as_kind (k : INodeType) (p : Z) : M vfs unit :=
  v ← vnode p; if bool_decide (v_kind v = k) then mret tt else fail INVALID_PARAM.
Definition as_directory : Z → M vfs unit := as_kind DIRECTORY.
Definition as_file : Z → M vfs unit := as_kind FILE.
(** The superblock and the number of the inode of a node. *)
Definition inode_of (p : Z) : M vfs (Z * Z) :=
  v ← vnode p; b ← vsb (v_vsb v); mret (vs_sb b, v_inode v).
(** An operation of the [IDirectory] of a node. *)
Definition in_dir {A} (p : Z) (op : Z → Z → M F A) : M vfs A :=
  '(sb, i) ← inode_of p; with_fs (op sb i).

(** [set_active_files]: also in the [VMount] the record belongs to. *)
Definition set_active (n : Z) (r : MountRecord) : MountRecord :=
  mkRecord (r_parent_vinode r) (r_entry_name r) (r_mount_path r) (r_superblock r) (r_devno r)
    (r_is_block_mount r) n (r_mount_cap r).
Definition mount_set_active (n : Z) (m : VMount) : VMount :=
  mkVMount (m_fs_name m) (m_superflags m) (m_options m) (m_has_device m) (m_devno m) (m_status m)
    (m_active_vsb m) (m_parent_vinode m) (m_entry_name m) (m_mount_path m) (m_is_block_mount m) n.
Definition set_active_files (k : MountKey) (n : Z) : M vfs unit :=
  r ← record_at k;
  _ ← modify (set_mount_table (insert k (set_active n r)));
  match r_mount_cap r with
  | None => mret tt
  | Some m => x ← vmount m; modify (set_vmounts (insert m (mount_set_active n x)))
  end.
Definition on_vfile_destroy (k : MountKey) : M vfs unit :=
  r ← record_at k;
  if r_active_files r =? 0 then mret tt else set_active_files k (r_active_files r - 1).

(** [VFile::destruct], [VDirectory::destruct]: the node's reference goes as well. *)
Definition file_destruct (h : Z) : M vfs unit :=
  f ← gets (λ s, files s !! h);
  f ← at_ptr f;
  _ ← on_vfile_destroy (f_mount_record f);
  _ ← modify (set_files (delete h));
  _ ← release (f_vind f);
  bury (f_vind f).
Definition dir_destruct (h : Z) : M vfs unit :=
  d ← gets (λ s, dirs s !! h);
  d ← at_ptr d;
  _ ← on_vfile_destroy (d_mount_record d);
  _ ← modify (set_dirs (delete h));
  _ ← release (d_vind d);
  bury (d_vind d).

(** ** The cache of inodes *)

Definition set_cache f (b : VSuperblock) : VSuperblock := mkVsb (vs_sb b) (vs_fsd b) (f (vs_cache b)).
Definition get_vnode (b inode_id : Z) : M vfs Z :=
  x ← vsb b;
  match vs_cache x !! inode_id with
  | Some cached => mret cached
  | None =>
      kind ← with_fs (fs_get_inode (vs_sb x) inode_id);
      ok ← with_fs fs_new;
      if negb ok then fail OUT_OF_MEMORY
      else
        p ← fresh;
        cache ← gets (λ s, fs_cached (fs s) (vs_sb x) inode_id);
        _ ← modify (set_vnodes (insert p (mkVINode b (vs_fsd x) inode_id kind (if cache : bool then 1 else 0))));
        _ ← (if cache : bool then modify (set_vsbs (insert b (set_cache (insert inode_id p) x))) else mret tt);
        mret p
  end.
(** [VINode::invalidate] *)
Definition vnode_invalidate (p : Z) : M vfs unit :=
  v ← vnode p;
  _ ← with_fs (pc_flush p);
  _ ← with_fs (pc_invalidate p);
  b ← vsb (v_vsb v);
  kind ← with_fs (fs_get_inode (vs_sb b) (v_inode v));
  v ← vnode p;
  modify (set_vnodes (insert p (mkVINode (v_vsb v) (v_fsd v) (v_inode v) kind (v_refs v)))).
Definition invalidate_inode (b inode_id : Z) : M vfs unit :=
  x ← vsb b;
  match vs_cache x !! inode_id with Some cached => vnode_invalidate cached | None => mret tt end.
Definition evict_inode (b inode_id : Z) : M vfs unit :=
  x ← vsb b;
  _ ← match vs_cache x !! inode_id with
      | Some cached =>
          _ ← with_fs (pc_flush cached);
          _ ← with_fs (pc_invalidate cached);
          release cached
      | None => mret tt
      end;
  modify (set_vsbs (insert b (set_cache (delete inode_id) x))).
Definition cached_vnodes (b : Z) : M vfs (list Z) := x ← vsb b; mret (map_to_list (vs_cache x)).*2.
Definition flush_file_pages (b : Z) : M vfs unit :=
  l ← cached_vnodes b; each (λ p, with_fs (pc_flush p)) l.
(** [VSuperblock::~VSuperblock] *)
Definition delete_vsb (b : Z) : M vfs unit :=
  _ ← attempt (flush_file_pages b);
  l ← cached_vnodes b;
  _ ← each (λ p, _ ← release p; bury p) l;
  modify (set_vsbs (delete b)).

(** ** Paths *)

Definition norm (p : str) : M vfs str := returned (normalize p).

Definition kMaxSymlinkDepth : nat := 16.
Definition root_key : MountKey := (0, ROOT).
Definition lookup_mount_record (k : MountKey) : M vfs MountRecord :=
  r ← gets (λ s, mount_table s !! k);
  match r with Some r => mret r | None => fail ENTRY_NOT_FOUND end.
(** The root directory of a superblock. *)
Definition root_vnode (b : Z) : M vfs Z :=
  x ← vsb b; root ← with_fs (fs_root (vs_sb x)); get_vnode b root.

(** [_resolve_path]: the node, and the mount path, which is passed by reference and
    keeps what was stored in it when a link is followed. *)
Definition resolver : Type :=
  Z → str → str → str → Z → nat → bool → M vfs (Z * str).

Section resolve.
Context (resolve_path : resolver).

Definition resolve_inode_with (follow : bool) (path : str) : M vfs (Z * str) :=
  normalized ← norm path;
  r ← lookup_mount_record root_key;
  current ← root_vnode (r_superblock r);
  if bool_decide (normalized = ROOT) then mret (current, r_mount_path r)
  else
    rel ← returned (relative_to normalized ROOT);
    resolve_path current (r_mount_path r) ROOT rel (r_superblock r) kMaxSymlinkDepth follow.

Definition follow_symlink_with (symlink_vnode : Z) (symlink_path remaining_path : str)
    (symlink_budget : nat) (follow : bool) : M vfs Z :=
  match symlink_budget with
  | O => fail OUT_OF_BOUNDARY
  | S budget =>
      '(sb, i) ← inode_of symlink_vnode;
      target ← with_fs (fs_readlink sb i);
      target_path ← norm target;
      combined ← (if bool_decide (remaining_path = []) then mret target_path
                  else norm (join target_path remaining_path));
      if is_absolute target_path then
        '(v, _) ← resolve_inode_with follow combined; mret v
      else
        parent_path ← norm (parent_path symlink_path);
        '(parent, parent_mount_path) ← resolve_inode_with true parent_path;
        v ← vnode parent;
        '(v, _) ← resolve_path parent parent_mount_path parent_path combined (v_vsb v) budget follow;
        mret v
  end.

(** The entries behind a link, as a path. *)
Fixpoint remaining_from (remaining : str) (es : list str) : M vfs str :=
  match es with
  | [] => mret remaining
  | e :: es => remaining ← norm (join remaining e); remaining_from remaining es
  end.

Fixpoint walk_entries (es : list str) (current : Z) (mount_path current_path : str) (b : Z)
    (symlink_budget : nat) (follow : bool) : M vfs (Z * str) :=
  match es with
  | [] => mret (current, mount_path)
  | entry :: es =>
      next_path ← norm (join current_path entry);
      mount ← gets (λ s, mount_table s !! (current, entry));
      match mount with
      | Some r =>
          mounted ← root_vnode (r_superblock r);
          walk_entries es mounted (r_mount_path r) next_path (r_superblock r) symlink_budget follow
      | None =>
          _ ← as_directory current;
          i ← in_dir current (λ sb d, fs_lookup sb d entry);
          next ← get_vnode b i;
          '(sb, _) ← inode_of next;
          symlink ← with_fs (fs_is_symlink sb i);
          if symlink && (follow || negb (bool_decide (es = []))) then
            remaining ← match es with [] => mret DOT | e :: es => remaining_from e es end;
            v ← follow_symlink_with next next_path remaining symlink_budget follow;
            mret (v, mount_path)
          else walk_entries es next mount_path next_path b symlink_budget follow
      end
  end.

Definition resolve_path_with (base : Z) (mount_path base_path path : str) (b : Z)
    (symlink_budget : nat) (follow : bool) : M vfs (Z * str) :=
  if (base =? 0) || (b =? 0) then fail NULLPTR
  else
    relpath ← norm path;
    if bool_decide (relpath = DOT) then mret (base, mount_path)
    else
      current_path ← norm base_path;
      es ← returned (entries relpath);
      walk_entries es base mount_path current_path b symlink_budget follow.
End resolve.

(** [fuel] bounds the depth of the recursion. *)
Fixpoint resolve_path (fuel : nat) : resolver :=
  match fuel with
  | O => λ _ _ _ _ _ _ _, no_fuel
  | S fuel => resolve_path_with (resolve_path fuel)
  end.
Definition resolve_inode (fuel : nat) (path : str) : M vfs (Z * str) := resolve_inode_with (resolve_path fuel) true path.
Definition resolve_inode_no_follow (fuel : nat) (path : str) : M vfs (Z * str) :=
  resolve_inode_with (resolve_path fuel) false path.
Definition follow_symlink (fuel : nat) := follow_symlink_with (resolve_path fuel).
Definition resolve_from (fuel : nat) (base : Z) (base_path path : str) (b : Z) : M vfs Z :=
  '(v, _) ← resolve_path fuel base base_path base_path path b kMaxSymlinkDepth true; mret v.

(** [_build_mount_key] *)
Definition build_mount_key (fuel : nat) (mount_path : str) : M vfs (MountKey * str) :=
  normalized ← norm mount_path;
  if bool_decide (normalized = ROOT) then mret (root_key, normalized)
  else
    parent ← norm (parent_path normalized);
    let entry := filename normalized in
    '(v, _) ← resolve_inode fuel parent;
    mret ((v, entry), normalized).

(** [_resolve_parent_directory] *)
Fixpoint parent_entries (fuel : nat) (es : list str) (current : Z) (current_path : str) (b : Z)
    (follow create : bool) : M vfs Z :=
  match es with
  | [] => mret current
  | entry :: es =>
      next_path ← norm (join current_path entry);
      mount ← gets (λ s, mount_table s !! (current, entry));
      match mount with
      | Some r =>
          mounted ← root_vnode (r_superblock r);
          parent_entries fuel es mounted next_path (r_superblock r) follow create
      | None =>
          _ ← as_directory current;
          found ← attempt (in_dir current (λ sb d, fs_lookup sb d entry));
          i ← match found with
              | Err ENTRY_NOT_FOUND =>
                  if negb create then fail ENTRY_NOT_FOUND
                  else in_dir current (λ sb d, fs_mkdir sb d entry)
              | r => of_result r
              end;
          next ← get_vnode b i;
          '(sb, _) ← inode_of next;
          symlink ← with_fs (fs_is_symlink sb i);
          '(current, b) ←
            (if symlink : bool then
               if negb follow then fail TYPE_NOT_MATCHED
               else
                 v ← follow_symlink fuel next next_path DOT kMaxSymlinkDepth true;
                 x ← vnode v;
                 mret (v, v_vsb x)
             else mret (next, b));
          is_dir ← attempt (as_directory current);
          match is_dir with
          | Err _ => fail TYPE_NOT_MATCHED
          | Ok _ => parent_entries fuel es current next_path b follow create
          end
      end
  end.
Definition resolve_parent_directory (fuel : nat) (base : Z) (base_path dir_path : str) (b : Z)
    (follow create : bool) : M vfs Z :=
  if (base =? 0) || (b =? 0) then fail NULLPTR
  else
    normalized ← norm dir_path;
    if bool_decide (normalized = DOT) || bool_decide (normalized = []) then mret base
    else
      current_path ← norm base_path;
      es ← returned (entries normalized);
      parent_entries fuel es base current_path b follow create.

Definition ensure_mountpoint_path (fuel : nat) (mount_path : str) : M vfs unit :=
  normalized ← norm mount_path;
  if bool_decide (normalized = ROOT) then mret tt
  else
    r ← lookup_mount_record root_key;
    root ← root_vnode (r_superblock r);
    rel ← returned (relative_to normalized ROOT);
    _ ← resolve_parent_directory fuel root ROOT rel (r_superblock r) true true;
    mret tt.

(** [_global_target_path] *)
Definition validate_relpath (relpath : option str) : Result str :=
  match relpath with
  | None => Err NULLPTR
  | Some relpath =>
      if bool_decide (relpath = []) then Err INVALID_PARAM
      else if is_absolute relpath then Err INVALID_PARAM
      else Ok relpath
  end.
Definition global_target_path (base : VDirectory) (relpath : option str) : M vfs (str * str) :=
  relpath ← of_result (validate_relpath relpath);
  normalized_base ← norm (d_global_path base);
  let base_path :=
    if bool_decide (normalized_base = []) || negb (is_absolute normalized_base) then ROOT
    else normalized_base in
  normalized ← norm (join base_path relpath);
  mret (base_path, normalized).

(** ** Drivers and mounts *)

Definition register_fs (fs_name : str) (pseudo : bool) : M vfs unit :=
  known ← gets (λ s, fs_table s !! fs_name);
  if bool_decide (is_Some known) then fail INVALID_PARAM
  else modify (set_fs_table (insert fs_name pseudo)).
(** A [VFsDriver] is alive while a superblock or a node refers to it. *)
Definition driver_alive (fs_name : str) (s : vfs) : bool :=
  existsb (λ x, bool_decide (vs_fsd x.2 = fs_name)) (map_to_list (vsbs s)) ||
  existsb (λ x, bool_decide (v_fsd x.2 = fs_name)) (map_to_list (vnodes s)).
Definition unregister_fs (fs_name : str) : M vfs unit :=
  known ← gets (λ s, fs_table s !! fs_name);
  if negb (bool_decide (is_Some known)) then fail INVALID_PARAM
  else
    alive ← gets (driver_alive fs_name);
    if alive : bool then fail BUSY else modify (set_fs_table (delete fs_name)).

Definition contains (k : MountKey) : M vfs bool := r ← gets (λ s, mount_table s !! k); mret (bool_decide (is_Some r)).
(** The driver of a name; [is_pseudo] of it. *)
Definition find_driver (fs_name : str) : M vfs bool :=
  d ← gets (λ s, fs_table s !! fs_name); match d with Some b => mret b | None => fail INVALID_PARAM end.
Definition new_vsb (sb : Z) (fs_name : str) : M vfs Z :=
  p ← fresh; _ ← modify (set_vsbs (insert p (mkVsb sb fs_name ∅))); mret p.
Definition keep_parent (p : Z) : M vfs unit := if p =? 0 then mret tt else keep p.
Definition release_parent (p : Z) : M vfs unit := if p =? 0 then mret tt else release p.

(** Where a mount point goes: its key and its path. *)
Definition mount_point (fuel : nat) (mnt_path : str) : M vfs (MountKey * str) :=
  _ ← ensure_mountpoint_path fuel mnt_path;
  '(mount_key, mount_path) ← build_mount_key fuel mnt_path;
  used ← contains mount_key;
  if used : bool then fail INVALID_PARAM else mret (mount_key, mount_path).

(** The overload for block devices and the one for pseudo file systems. *)
Definition mount_block (fuel : nat) (fs_name : str) (devno : Z) (mountpoint options : str) : M vfs unit :=
  _ ← with_fs (blk_lookup devno);
  mnt_path ← norm mountpoint;
  '(mount_key, mount_path) ← mount_point fuel mnt_path;
  pseudo ← find_driver fs_name;
  if pseudo : bool then fail NOT_SUPPORTED
  else
    isb ← with_fs (fs_mount fs_name (Some devno) options);
    p ← new_vsb isb fs_name;
    _ ← keep_parent mount_key.1;
    modify (set_mount_table (insert mount_key
      (mkRecord mount_key.1 mount_key.2 mount_path p devno true 0 None))).
Definition mount_pseudo (fuel : nat) (fs_name mountpoint options : str) : M vfs unit :=
  mnt_path ← norm mountpoint;
  '(mount_key, mount_path) ← mount_point fuel mnt_path;
  pseudo ← find_driver fs_name;
  if negb pseudo then fail NOT_SUPPORTED
  else
    isb ← with_fs (fs_mount fs_name None options);
    p ← new_vsb isb fs_name;
    _ ← keep_parent mount_key.1;
    _ ← modify (set_mount_table (insert mount_key
          (mkRecord mount_key.1 mount_key.2 mount_path p 0 false 0 None)));
    modify (set_pseudo_mounts (insert fs_name p)).

(** What [umount] and [mount_detach] share: everything is written back, the record goes,
    the file system is unmounted and its superblock deleted. *)
Definition sync_record (r : MountRecord) : M vfs unit :=
  _ ← flush_file_pages (r_superblock r);
  b ← vsb (r_superblock r);
  super_sync ← attempt (with_fs (fs_sync (vs_sb b)));
  _ ← match super_sync with Err e => if bool_decide (e = NOT_SUPPORTED) then mret tt else fail e | Ok _ => mret tt end;
  if r_is_block_mount r then with_fs (blk_sync (r_devno r)) else mret tt.
Definition drop_record (k : MountKey) (r : MountRecord) : M vfs (Result unit) :=
  b ← vsb (r_superblock r);
  _ ← (if negb (r_is_block_mount r) then modify (set_pseudo_mounts (delete (vs_fsd b))) else mret tt);
  _ ← modify (set_mount_table (delete k));
  _ ← release_parent (r_parent_vinode r);
  ret ← attempt (with_fs (fs_unmount (vs_fsd b) (vs_sb b)));
  _ ← delete_vsb (r_superblock r);
  mret ret.
Definition umount (fuel : nat) (mountpoint : str) : M vfs unit :=
  mnt_path ← norm mountpoint;
  '(key, _) ← build_mount_key fuel mnt_path;
  r ← gets (λ s, mount_table s !! key);
  match r with
  | None => fail INVALID_PARAM
  | Some r =>
      if negb (r_active_files r =? 0) then fail BUSY
      else _ ← sync_record r; ret ← drop_record key r; of_result ret
  end.

(** *** Mount capabilities *)

Definition create_mount (fs_name : option str) (has_device : bool) (devno superflags : Z)
    (options : option str) : M vfs Z :=
  match fs_name with
  | None | Some [] => fail INVALID_PARAM
  | Some fs_name =>
      pseudo ← find_driver fs_name;
      _ ← (if pseudo : bool then if has_device then fail INVALID_PARAM else mret tt
           else if negb has_device then fail INVALID_PARAM else with_fs (blk_lookup devno));
      p ← fresh;
      _ ← modify (set_vmounts (insert p
            (mkVMount fs_name superflags (default [] options) has_device devno UMOUNTED 0 0 [] [] false 0)));
      mret p
  end.

Definition mounted_at (m : VMount) (p parent : Z) (entry mount_path : str) (block : bool) : VMount :=
  mkVMount (m_fs_name m) (m_superflags m) (m_options m) (m_has_device m) (m_devno m) MOUNTED
    p parent entry mount_path block 0.
Definition unmounted (m : VMount) : VMount :=
  mkVMount (m_fs_name m) (m_superflags m) (m_options m) (m_has_device m) (m_devno m) UMOUNTED
    0 0 [] [] false 0.

Definition mount_attach (fuel : nat) (mount : Z) (parent : VDirectory) (mntpath : option str)
    (attachflags : Z) : M vfs unit :=
  if negb (attachflags =? 0) then fail NOT_SUPPORTED
  else
    m ← vmount mount;
    if negb (bool_decide (m_status m = UMOUNTED)) then fail BUSY
    else
      match mntpath with
      | None | Some [] => fail INVALID_PARAM
      | Some mntpath =>
          rel_path ← norm mntpath;
          if is_absolute rel_path then fail INVALID_PARAM
          else
            '(mount_key, mount_path) ← mount_point fuel (join (d_global_path parent) rel_path);
            pseudo ← find_driver (m_fs_name m);
            isb ← with_fs (fs_mount (m_fs_name m) (if pseudo : bool then None else Some (m_devno m)) (m_options m));
            p ← new_vsb isb (m_fs_name m);
            _ ← keep_parent (d_vind parent);
            _ ← (if pseudo : bool then modify (set_pseudo_mounts (insert (m_fs_name m) p)) else mret tt);
            _ ← modify (set_mount_table (insert mount_key
                  (mkRecord (d_vind parent) mount_key.2 mount_path p (m_devno m) (negb pseudo) 0 (Some mount))));
            _ ← keep_parent (d_vind parent);
            m ← vmount mount;
            modify (set_vmounts (insert mount
              (mounted_at m p (d_vind parent) mount_key.2 mount_path (negb pseudo))))
      end.

Definition mount_detach (fuel : nat) (mount : Z) (flags : Z) : M vfs unit :=
  if negb (flags =? 0) then fail NOT_SUPPORTED
  else
    m ← vmount mount;
    if negb (bool_decide (m_status m = MOUNTED)) then fail INVALID_PARAM
    else if negb (m_active_files m =? 0) then fail BUSY
    else
      '(key, _) ← build_mount_key fuel (m_mount_path m);
      r ← gets (λ s, mount_table s !! key);
      match r with
      | None => fail INVALID_PARAM
      | Some r =>
          _ ← sync_record r;
          ret ← drop_record key r;
          _ ← of_result ret;
          _ ← release_parent (m_parent_vinode m);
          m ← vmount mount;
          modify (set_vmounts (insert mount (unmounted m)))
      end.

(** ** Handles *)

(** [new VFile], [new VDirectory]: the node is kept. *)
Definition new_file (v : Z) (k : MountKey) : M vfs Z :=
  h ← fresh; _ ← keep v; _ ← modify (set_files (insert h (mkVFile v k))); mret h.
Definition new_dir (v : Z) (k : MountKey) (global_path : str) : M vfs Z :=
  h ← fresh; _ ← keep v; _ ← modify (set_dirs (insert h (mkVDir v k global_path))); mret h.
(** One more open file in a record. *)
Definition opened (k : MountKey) : M vfs unit := r ← record_at k; set_active_files k (add64 (r_active_files r) 1).

(** [holder.insert_to_free]: the slot, or its error; what is inserted is the object
    and the permissions, which are part of the answer. *)
Definition mount_root (fuel : nat) (mount : Z) (slot : Result Z) : M vfs (Z * Z) :=
  m ← vmount mount;
  if negb (bool_decide (m_status m = MOUNTED)) || (m_active_vsb m =? 0) then fail INVALID_PARAM
  else
    v ← root_vnode (m_active_vsb m);
    '(key, _) ← build_mount_key fuel (m_mount_path m);
    _ ← lookup_mount_record key;
    h ← new_dir v key (m_mount_path m);
    match slot with
    | Err e => _ ← modify (set_dirs (delete h)); _ ← release v; fail e
    | Ok idx => _ ← opened key; mret (idx, h)
    end.

(** The payload of a capability that is passed in. *)
Inductive payload := PFile (h : Z) | PDir (h : Z) | PMount (m : Z) | POther.
Definition parent_dir (p : payload) : M vfs VDirectory :=
  match p with
  | PDir h => d ← gets (λ s, dirs s !! h); at_ptr d
  | _ => fail TYPE_NOT_MATCHED
  end.

(** [flags::O_READ] and the like. *)
Definition O_READ : Z := 1.
Definition O_WRITE : Z := 2.
Definition O_EXECUTE : Z := 4.
Definition O_CREAT : Z := 8.
Definition has (flag oflags : Z) : bool := negb (Z.land oflags flag =? 0).
Definition validate_file_oflags (oflags : Z) : Result unit :=
  let valid_mask := Z.lor O_READ (Z.lor O_WRITE (Z.lor O_EXECUTE O_CREAT)) in
  if negb (Z.land oflags (not64 valid_mask) =? 0) || (oflags =? 0) then Err INVALID_PARAM
  else if has O_EXECUTE oflags && has (Z.lor O_WRITE O_CREAT) oflags then Err INVALID_PARAM
  else Ok tt.
Definition validate_dir_oflags (oflags : Z) : Result unit :=
  let valid_mask := Z.lor O_READ (Z.lor O_WRITE O_EXECUTE) in
  if negb (Z.land oflags (not64 valid_mask) =? 0) || (oflags =? 0) then Err INVALID_PARAM
  else Ok tt.
(** The permissions READ, WRITE and EXEC of files are those of directories. *)
Definition perm_READ : Z := 0x10000.
Definition perm_WRITE : Z := 0x20000.
Definition perm_EXEC : Z := 0x40000.
Definition perm_from_oflags (oflags : Z) : Z :=
  let perm := perm.CLONE in
  let perm := if has O_READ oflags then Z.lor perm perm_READ else perm in
  let perm := if has O_WRITE oflags then Z.lor perm perm_WRITE else perm in
  if has O_EXECUTE oflags then Z.lor perm perm_EXEC else perm.

(** [parse_create_target]: the path of the parent and the name. *)
Definition parse_create_target (relpath : option str) : M vfs (str * str) :=
  relpath ← of_result (validate_relpath relpath);
  norm_path ← norm relpath;
  if bool_decide (norm_path = DOT) || bool_decide (norm_path = DOTDOT) then fail INVALID_PARAM
  else
    let name := filename norm_path in
    if bool_decide (name = []) || bool_decide (name = DOT) || bool_decide (name = DOTDOT)
    then fail INVALID_PARAM
    else
      let parent := parent_path norm_path in
      parent_path ← norm (if bool_decide (parent = []) then DOT else parent);
      mret (parent_path, name).

(** The path of the mount a superblock belongs to. *)
Definition mount_path_of (b : Z) : M vfs str :=
  l ← gets (λ s, map_to_list (mount_table s));
  match list_find (λ x, r_superblock x.2 = b) l with
  | Some (_, (_, r)) => if bool_decide (r_mount_path r = []) then fail FS_ERROR else mret (r_mount_path r)
  | None => fail FS_ERROR
  end.
(** The record of a mount path. *)
Definition mount_record_of (fuel : nat) (mount_path : str) : M vfs MountKey :=
  '(key, _) ← build_mount_key fuel mount_path;
  r ← attempt (lookup_mount_record key);
  match r with Ok _ => mret key | Err _ => fail FS_ERROR end.
Definition open_vfile (v : Z) (key : MountKey) : M vfs Z :=
  ok ← with_fs fs_new;
  if negb ok then fail ALLOCATION_FAILED else h ← new_file v key; _ ← opened key; mret h.
Definition open_vdir (v : Z) (key : MountKey) (global_path : str) : M vfs Z :=
  ok ← with_fs fs_new;
  if negb ok then fail ALLOCATION_FAILED else h ← new_dir v key global_path; _ ← opened key; mret h.

(** [_open_file_at] *)
Definition open_file_at (fuel : nat) (parent : Z) (base_path : str) (relpath : option str)
    (oflags : Z) : M vfs Z :=
  _ ← of_result (validate_file_oflags oflags);
  _ ← as_directory parent;
  '(parent_path, name) ← parse_create_target relpath;
  pv ← vnode parent;
  dir ← resolve_parent_directory fuel parent base_path parent_path (v_vsb pv) true false;
  _ ← as_directory dir;
  found ← attempt (in_dir dir (λ sb d, fs_lookup sb d name));
  i ← match found with
      | Ok i => mret i
      | Err e =>
          if negb (bool_decide (e = ENTRY_NOT_FOUND)) || negb (has O_CREAT oflags) then fail e
          else
            _ ← in_dir dir (λ sb d, fs_mkfile sb d name);
            dv ← vnode dir;
            b ← vsb (v_vsb dv);
            _ ← invalidate_inode (v_vsb dv) (v_inode dv);
            if bool_decide (vs_cache b !! v_inode dv = Some dir)
            then panic (* [lookup] of the old [IDirectory], which [invalidate] has deleted *)
            else in_dir dir (λ sb d, fs_lookup sb d name)
      end;
  dv ← vnode dir;
  target ← get_vnode (v_vsb dv) i;
  tv ← vnode target;
  target_mount_path ← mount_path_of (v_vsb tv);
  '(sb, _) ← inode_of target;
  symlink ← with_fs (fs_is_symlink sb i);
  '(target, target_mount_path) ←
    (if symlink : bool then
       base ← norm base_path;
       target_global_path ← norm (join base (default [] relpath));
       target ← follow_symlink fuel target target_global_path DOT kMaxSymlinkDepth true;
       tv ← vnode target;
       p ← mount_path_of (v_vsb tv);
       mret (target, p)
     else mret (target, target_mount_path));
  _ ← as_file target;
  key ← mount_record_of fuel target_mount_path;
  open_vfile target key.

(** [_open_dir_at] *)
Definition open_dir_at (fuel : nat) (base_path : str) (relpath : option str) : M vfs Z :=
  relpath ← of_result (validate_relpath relpath);
  normalized_base ← norm base_path;
  let absolute_base :=
    if bool_decide (normalized_base = []) || negb (is_absolute normalized_base) then ROOT
    else normalized_base in
  global_path ← norm (join absolute_base relpath);
  '(target, target_mount_path) ← resolve_inode fuel global_path;
  _ ← as_directory target;
  key ← mount_record_of fuel target_mount_path;
  open_vdir target key global_path.

(** [_open_file], [_open_dir] *)
Definition valid_filepath (filepath : option str) : Result str :=
  match filepath with None => Err NULLPTR | Some [] => Err INVALID_PARAM | Some p => Ok p end.
Definition open_file_path (fuel : nat) (filepath : option str) : M vfs Z :=
  filepath ← of_result (valid_filepath filepath);
  path ← norm filepath;
  '(v, mount_path) ← resolve_inode fuel path;
  key ← mount_record_of fuel mount_path;
  open_vfile v key.
Definition open_dir_path (fuel : nat) (filepath : option str) : M vfs Z :=
  filepath ← of_result (valid_filepath filepath);
  path ← norm filepath;
  '(v, mount_path) ← resolve_inode fuel path;
  is_dir ← attempt (as_directory v);
  '(v, mount_path) ←
    match is_dir with
    | Ok _ => mret (v, mount_path)
    | Err _ =>
        x ← vnode v;
        _ ← invalidate_inode (v_vsb x) (v_inode x);
        '(v, mount_path) ← resolve_inode fuel path;
        _ ← as_directory v;
        mret (v, mount_path)
    end;
  key ← mount_record_of fuel mount_path;
  open_vdir v key path.

(** ** Operations of users *)

(** A handle goes to the holder, with permissions, or is destroyed. *)
Definition give_file (h perm : Z) (slot : Result Z) : M vfs (Z * Z * Z) :=
  match slot with Ok idx => mret (idx, h, perm) | Err e => _ ← file_destruct h; fail e end.
Definition give_dir (h perm : Z) (slot : Result Z) : M vfs (Z * Z * Z) :=
  match slot with Ok idx => mret (idx, h, perm) | Err e => _ ← dir_destruct h; fail e end.

Definition open_abs (fuel : nat) (filepath : option str) (slot : Result Z) : M vfs (Z * Z * Z) :=
  h ← open_file_path fuel filepath; give_file h allperm slot.
Definition force_open_abs (fuel : nat) (filepath : option str) (perm : Z) (slot : Result Z) : M vfs (Z * Z * Z) :=
  h ← open_file_path fuel filepath; give_file h perm slot.
Definition force_open (fuel : nat) (parent_cap : payload) (relpath : option str) (oflags perm : Z)
    (slot : Result Z) : M vfs (Z * Z * Z) :=
  _ ← of_result (validate_file_oflags oflags);
  parent ← parent_dir parent_cap;
  h ← open_file_at fuel (d_vind parent) (d_global_path parent) relpath oflags;
  give_file h perm slot.
Definition open_at (fuel : nat) (parent_cap : payload) (relpath : option str) (oflags : Z)
    (slot : Result Z) : M vfs (Z * Z * Z) :=
  force_open fuel parent_cap relpath oflags (perm_from_oflags oflags) slot.
Definition opendir (fuel : nat) (parent_cap : payload) (relpath : option str) (oflags : Z)
    (slot : Result Z) : M vfs (Z * Z * Z) :=
  _ ← of_result (validate_dir_oflags oflags);
  parent ← parent_dir parent_cap;
  h ← open_dir_at fuel (d_global_path parent) relpath;
  give_dir h (perm_from_oflags oflags) slot.
Definition open_dir (fuel : nat) (filepath : option str) (perm : Z) (slot : Result Z) : M vfs (Z * Z * Z) :=
  h ← open_dir_path fuel filepath; give_dir h perm slot.

(** The directory an operation works in, created on the way, and the last name. *)
Definition create_parent (fuel : nat) (parent : VDirectory) (relpath : option str) : M vfs (Z * str) :=
  '(parent_path, name) ← parse_create_target relpath;
  pv ← vnode (d_vind parent);
  dir ← resolve_parent_directory fuel (d_vind parent) (d_global_path parent) parent_path (v_vsb pv) true true;
  _ ← as_directory dir;
  mret (dir, name).

Definition mkfile (fuel : nat) (parent_cap : payload) (relpath : option str) (oflags : Z)
    (slot : Result Z) : M vfs (Z * Z * Z) :=
  _ ← of_result (validate_file_oflags oflags);
  parent ← parent_dir parent_cap;
  '(dir, name) ← create_parent fuel parent relpath;
  _ ← in_dir dir (λ sb d, fs_mkfile sb d name);
  dv ← vnode dir;
  _ ← invalidate_inode (v_vsb dv) (v_inode dv);
  '(_, global) ← global_target_path parent relpath;
  h ← open_file_path fuel (Some (c_str global));
  give_file h (perm_from_oflags oflags) slot.
Definition mkdir (fuel : nat) (parent_cap : payload) (relpath : option str) (oflags : Z)
    (slot : Result Z) : M vfs (Z * Z * Z) :=
  _ ← of_result (validate_dir_oflags oflags);
  parent ← parent_dir parent_cap;
  '(dir, name) ← create_parent fuel parent relpath;
  _ ← in_dir dir (λ sb d, fs_mkdir sb d name);
  '(_, global) ← global_target_path parent relpath;
  h ← open_dir_path fuel (Some (c_str global));
  give_dir h (perm_from_oflags oflags) slot.

Definition unlink (fuel : nat) (parent_cap : payload) (relpath : option str) : M vfs unit :=
  parent ← parent_dir parent_cap;
  '(dir, name) ← create_parent fuel parent relpath;
  i ← in_dir dir (λ sb d, fs_lookup sb d name);
  dv ← vnode dir;
  v ← get_vnode (v_vsb dv) i;
  _ ← with_fs (pc_flush v);
  _ ← in_dir dir (λ sb d, fs_unlink sb d name);
  evict_inode (v_vsb dv) i.
Definition rmdir (fuel : nat) (parent_cap : payload) (relpath : option str) : M vfs unit :=
  parent ← parent_dir parent_cap;
  '(dir, name) ← create_parent fuel parent relpath;
  i ← in_dir dir (λ sb d, fs_lookup sb d name);
  _ ← in_dir dir (λ sb d, fs_rmdir sb d name);
  dv ← vnode dir;
  evict_inode (v_vsb dv) i.

(** The inode behind a capability for a file or a directory. *)
Definition node_of (cap : payload) : M vfs Z :=
  match cap with
  | PFile h => f ← gets (λ s, files s !! h); f ← at_ptr f; mret (f_vind f)
  | PDir h => d ← gets (λ s, dirs s !! h); d ← at_ptr d; mret (d_vind d)
  | _ => fail TYPE_NOT_MATCHED
  end.
Definition link (fuel : nat) (parent_cap : payload) (relpath : option str) (target_cap : payload) : M vfs unit :=
  parent ← parent_dir parent_cap;
  target ← node_of target_cap;
  tv ← vnode target;
  '(dir, name) ← create_parent fuel parent relpath;
  in_dir dir (λ sb d, fs_link sb d name (v_inode tv)).
Definition rename (fuel : nat) (old_cap : payload) (old_name : option str) (new_cap : payload)
    (new_name : option str) : M vfs unit :=
  old_parent ← parent_dir old_cap;
  new_parent ← parent_dir new_cap;
  '(old_path, old_last) ← parse_create_target old_name;
  '(new_path, new_last) ← parse_create_target new_name;
  ov ← vnode (d_vind old_parent);
  old_dir ← resolve_parent_directory fuel (d_vind old_parent) (d_global_path old_parent) old_path (v_vsb ov) true true;
  nv ← vnode (d_vind new_parent);
  new_dir ← resolve_parent_directory fuel (d_vind new_parent) (d_global_path new_parent) new_path (v_vsb nv) true true;
  _ ← as_directory old_dir;
  _ ← as_directory new_dir;
  '(nsb, ni) ← inode_of new_dir;
  in_dir old_dir (λ sb d, fs_rename sb d old_last nsb ni new_last).
Definition symlink (fuel : nat) (parent_cap : payload) (relpath target : option str) : M vfs unit :=
  parent ← parent_dir parent_cap;
  match target with
  | None | Some [] => fail INVALID_PARAM
  | Some target =>
      '(dir, name) ← create_parent fuel parent relpath;
      _ ← in_dir dir (λ sb d, fs_symlink sb d name target);
      dv ← vnode dir;
      invalidate_inode (v_vsb dv) (v_inode dv)
  end.

(** The node of a path below a directory. *)
Definition resolve_at (fuel : nat) (parent_cap : payload) (relpath : option str) (follow : bool) : M vfs Z :=
  parent ← parent_dir parent_cap;
  '(_, global) ← global_target_path parent relpath;
  '(v, _) ← (if follow then resolve_inode fuel global else resolve_inode_no_follow fuel global);
  mret v.
(** [buf] is the null pointer or not; the bytes copied are the answer. *)
Definition readlink (fuel : nat) (parent_cap : payload) (relpath : option str) (buf : bool) (bufsiz : Z) : M vfs str :=
  parent ← parent_dir parent_cap;
  if negb buf && negb (bufsiz =? 0) then fail NULLPTR
  else
    '(_, global) ← global_target_path parent relpath;
    '(v, _) ← resolve_inode_no_follow fuel global;
    '(sb, i) ← inode_of v;
    symlink ← with_fs (fs_is_symlink sb i);
    if negb symlink then fail TYPE_NOT_MATCHED
    else target ← with_fs (fs_readlink sb i); mret (take (Z.to_nat bufsiz) target).

(** *** Directories *)

Fixpoint entries_at (n : nat) (i : Z) (d : Z) : M vfs (list str) :=
  match n with
  | O => mret []
  | S n => e ← in_dir d (λ sb ino, fs_entry_at sb ino i); rest ← entries_at n (i + 1) d; mret (e :: rest)
  end.
(** The names of mounts come after the entries, without those that are there. *)
Definition append_mount_entry (parent : Z) (entries : list str) (k : MountKey) : list str :=
  if negb (k.1 =? parent) then entries
  else if bool_decide (k.2 ∈ entries) then entries else entries ++ [k.2].
Definition append_mount_entries (parent : Z) (entries : list str) : M vfs (list str) :=
  keys ← gets (λ s, (map_to_list (mount_table s)).*1);
  mret (foldl (append_mount_entry parent) entries keys).
Definition getdents (d : VDirectory) : M vfs (list str) :=
  _ ← as_directory (d_vind d);
  count ← in_dir (d_vind d) fs_entry_count;
  entries ← entries_at (Z.to_nat count) 0 (d_vind d);
  append_mount_entries (d_vind d) entries.
Definition sync_dir (d : VDirectory) : M vfs unit :=
  _ ← as_directory (d_vind d); in_dir (d_vind d) fs_dir_sync.

(** *** Attributes *)

Inductive EntryType := E_FILE | E_DIR | E_SYMLINK.
Record NodeMeta := mkMeta { n_type : EntryType; n_size : Z; n_inode : Z; n_links : Z; n_devno : Z }.

Definition is_kind (k : INodeType) (p : Z) : M vfs bool := r ← attempt (as_kind k p); mret (has_value r).
(** The device of a superblock: that of its mount, 0 for a pseudo file system. *)
Definition devno_of (b : Z) : M vfs Z :=
  x ← vsb b;
  d ← gets (λ s, fs_table s !! vs_fsd x);
  pseudo ← at_ptr d;
  if pseudo : bool then mret 0
  else
    l ← gets (λ s, map_to_list (mount_table s));
    mret match list_find (λ x, r_superblock x.2 = b) l with Some (_, (_, r)) => r_devno r | None => 0 end.
Definition stat_from_vinode (p : Z) : M vfs NodeMeta :=
  v ← vnode p;
  devno ← devno_of (v_vsb v);
  '(sb, i) ← inode_of p;
  attr ← attempt (with_fs (fs_getattr sb i));
  match attr with
  | Ok attr =>
      let mode_type := Z.land (TmpFs.a_mode attr) 0xF000 in
      '(type, size) ←
        (if mode_type =? 0x8000 then mret (E_FILE, TmpFs.a_size attr)
         else if mode_type =? 0x4000 then mret (E_DIR, TmpFs.a_size attr)
         else if mode_type =? 0xA000 then mret (E_SYMLINK, TmpFs.a_size attr)
         else
           file ← is_kind FILE p;
           if file : bool then size ← with_fs (pc_size p); mret (E_FILE, size)
           else
             dir ← is_kind DIRECTORY p;
             if dir : bool then mret (E_DIR, TmpFs.a_size attr) else fail TYPE_NOT_MATCHED);
      mret (mkMeta type size i (TmpFs.a_nlink attr) devno)
  | Err _ =>
      symlink ← with_fs (fs_is_symlink sb i);
      if symlink : bool then
        target ← with_fs (fs_readlink sb i);
        mret (mkMeta E_SYMLINK (Z.of_nat (length target)) i 1 devno)
      else
        file ← is_kind FILE p;
        if file : bool then size ← with_fs (pc_size p); mret (mkMeta E_FILE size i 1 devno)
        else
          dir ← is_kind DIRECTORY p;
          if dir : bool then mret (mkMeta E_DIR 0 i 1 devno) else fail TYPE_NOT_MATCHED
  end.
Definition stat (fuel : nat) (parent_cap : payload) (relpath : option str) : M vfs NodeMeta :=
  v ← resolve_at fuel parent_cap relpath true; stat_from_vinode v.
Definition lstat (fuel : nat) (parent_cap : payload) (relpath : option str) : M vfs NodeMeta :=
  v ← resolve_at fuel parent_cap relpath false; stat_from_vinode v.
Definition fstat (cap : payload) : M vfs NodeMeta := v ← node_of cap; stat_from_vinode v.

(** [f_type] and [f_blocks]. *)
Definition statfs_magic_from_name (name : str) : Z :=
  if bool_decide (name = lit "ext4") then 0xEF53
  else if bool_decide (name = lit "tmpfs") then 0x01021994
  else if bool_decide (name = lit "procfs") then 0x9fa0
  else if bool_decide (name = lit "devfs") then 0x1373
  else if bool_decide (name = lit "tarfs") then 0x74617266
  else 0.
Definition statfs_is_pseudo_name (name : str) : bool :=
  bool_decide (name = lit "tmpfs") || bool_decide (name = lit "procfs") || bool_decide (name = lit "devfs").
Definition fill_statfs_from_vinode (p : Z) : M vfs (Z * Z) :=
  v ← vnode p;
  b ← vsb (v_vsb v);
  mret (statfs_magic_from_name (vs_fsd b), if statfs_is_pseudo_name (vs_fsd b) then 1 else 0).
Definition statfs (cap : payload) : M vfs (Z * Z) := v ← node_of cap; fill_statfs_from_vinode v.
Definition statfs_at (fuel : nat) (parent_cap : payload) (relpath : option str) : M vfs (Z * Z) :=
  v ← resolve_at fuel parent_cap relpath true; fill_statfs_from_vinode v.

Definition fill_attr_from_vnode (p : Z) : M vfs TmpFs.AttrSet :=
  '(sb, i) ← inode_of p;
  out ← with_fs (fs_getattr sb i);
  file ← is_kind FILE p;
  if file : bool then
    size ← with_fs (pc_size p);
    mret (TmpFs.mkAttr (TmpFs.a_mode out) (TmpFs.a_uid out) (TmpFs.a_gid out) size (TmpFs.a_inode out)
            (TmpFs.a_nlink out) (TmpFs.a_atime out) (TmpFs.a_mtime out) (TmpFs.a_ctime out)
            (TmpFs.a_blksize out) (Z.max (TmpFs.a_blocks out) (add64 size 511 / 512)))
  else mret out.
Definition getattr (cap : payload) : M vfs TmpFs.AttrSet :=
  match cap with
  | PFile _ => v ← node_of cap; fill_attr_from_vnode v
  | _ => v ← node_of cap; '(sb, i) ← inode_of v; with_fs (fs_getattr sb i)
  end.
Definition AT_SYMLINK_NOFOLLOW : Z := 0x100.
Definition getattr_at (fuel : nat) (parent_cap : payload) (relpath : option str) (flags : Z) : M vfs TmpFs.AttrSet :=
  v ← resolve_at fuel parent_cap relpath (negb (has AT_SYMLINK_NOFOLLOW flags)); fill_attr_from_vnode v.
Definition setattr (cap : payload) (mask : Z) (attrs : TmpFs.AttrSet) : M vfs unit :=
  v ← node_of cap; '(sb, i) ← inode_of v; with_fs (fs_setattr sb i mask attrs).
Definition setattr_at (fuel : nat) (parent_cap : payload) (relpath : option str) (mask : Z)
    (attrs : TmpFs.AttrSet) (flags : Z) : M vfs unit :=
  v ← resolve_at fuel parent_cap relpath (negb (has AT_SYMLINK_NOFOLLOW flags));
  '(sb, i) ← inode_of v; with_fs (fs_setattr sb i mask attrs).

(** [AttrMask::UID | AttrMask::GID] *)
Definition OWNER : Z := 6.
Definition owner_attrs (uid gid : Z) : TmpFs.AttrSet := TmpFs.mkAttr 0 uid gid 0 0 0 0 0 0 0 0.
Definition chown (cap : payload) (uid gid : Z) : M vfs unit := setattr cap OWNER (owner_attrs uid gid).
Definition chown_at (fuel : nat) (parent_cap : payload) (relpath : option str) (uid gid flags : Z) : M vfs unit :=
  setattr_at fuel parent_cap relpath OWNER (owner_attrs uid gid) flags.

Definition get_pseudo (pseudo_fs_id : option str) : M vfs Z :=
  match pseudo_fs_id with
  | None => fail NULLPTR
  | Some name =>
      p ← gets (λ s, pseudo_mounts s !! name);
      match p with None => fail ENTRY_NOT_FOUND | Some p => b ← vsb p; mret (vs_sb b) end
  end.

(** ** The capability objects *)

Definition checked {A} (perms required : Z) (m : M vfs A) : M vfs A :=
  if negb (perm_imply perms required) then fail INSUFFICIENT_PERMISSIONS else m.
(** [VMountObject]: the permissions MOUNT, QUERY and ROOT. *)
Definition perm_MOUNT : Z := 0x10000.
Definition perm_QUERY : Z := 0x20000.
Definition perm_ROOT : Z := 0x40000.
Definition obj_mount (fuel : nat) (perms m : Z) (parent : VDirectory) (mntpath : option str) (attachflags : Z) : M vfs bool :=
  checked perms perm_MOUNT (_ ← mount_attach fuel m parent mntpath attachflags; mret true).
Definition obj_umount (fuel : nat) (perms m flags : Z) : M vfs bool :=
  checked perms perm_MOUNT (_ ← mount_detach fuel m flags; mret true).
Definition obj_root (fuel : nat) (perms m : Z) (slot : Result Z) : M vfs (Z * Z) :=
  checked perms perm_ROOT (mount_root fuel m slot).
Definition obj_state (perms m : Z) : M vfs MountStatus :=
  checked perms perm_QUERY (x ← vmount m; mret (m_status x)).
(** [VDirectoryObject] *)
Definition obj_sync (perms : Z) (d : VDirectory) : M vfs unit := checked perms perm_WRITE (sync_dir d).
Definition obj_getdents (perms : Z) (d : VDirectory) : M vfs (list str) := checked perms perm_READ (getdents d).
Definition obj_mkfile (fuel : nat) (perms : Z) (cap : payload) (relpath : option str) (oflags : Z) (slot : Result Z)
    : M vfs (Z * Z * Z) := checked perms perm_WRITE (mkfile fuel cap relpath oflags slot).
Definition obj_mkdir (fuel : nat) (perms : Z) (cap : payload) (relpath : option str) (oflags : Z) (slot : Result Z)
    : M vfs (Z * Z * Z) := checked perms perm_WRITE (mkdir fuel cap relpath oflags slot).

End vfs.
End Vfs.
