(* ===== verification/VfsResolve.v ===== *)
(** * Path resolution

    What [Vfs.resolve_inode] returns, against a reference that walks a world of mounts,
    directories and links: [walk] goes entry by entry, continues in a mounted root, and
    at a link goes on with the entries of its target.  The code instead builds the text
    of the paths, resolves the directory of a link again from its text and passes
    through the caches of inodes. *)

From Stdlib Require Import Ascii.
From S2P Require Import Prelude ErrCode Capability Path PathBelow TmpFs Vfs.
Import TmpFs(INodeType, FILE, DIRECTORY, SYMLINK, INodeType_eq_dec).

#[local] Open Scope Z_scope.

Module VfsResolve.
Import Path PathBelow Vfs.

(** ** File systems as they are seen

    The views of a file system that resolution depends on.  An operation that reads may
    change the state of the file system (caches, buffers), but no view.  A directory has
    no entry [..]. *)

Class FsLaws (F : Type) `{!FileSystems F} := {
  fl_inv : F → Prop;
  fl_live : F → Z → Prop;
  fl_root : F → Z → Z;
  fl_kind : F → Z → Z → option INodeType;
  fl_entry : F → Z → Z → list ascii → option Z;
  fl_target : F → Z → Z → option (list ascii);
  fl_same (f g : F) : Prop := fl_inv f → fl_inv g ∧ ∀ sb, fl_live f sb →
    fl_live g sb ∧ fl_root g sb = fl_root f sb ∧ ∀ i, fl_kind g sb i = fl_kind f sb i ∧
      fl_target g sb i = fl_target f sb i ∧ ∀ e, fl_entry g sb i e = fl_entry f sb i e;
  fl_new_law f : ∃ b g, fs_new f = Fin (Ok b) g ∧ fl_same f g;
  fl_root_law f sb : fl_inv f → fl_live f sb → ∃ g, fs_root sb f = Fin (Ok (fl_root f sb)) g ∧ fl_same f g;
  fl_get_law f sb i k : fl_inv f → fl_live f sb → fl_kind f sb i = Some k →
    ∃ g, fs_get_inode sb i f = Fin (Ok k) g ∧ fl_same f g;
  fl_lookup_law f sb i e : fl_inv f → fl_live f sb → fl_kind f sb i = Some DIRECTORY →
    ∃ g, fs_lookup sb i e f =
      Fin (match fl_entry f sb i e with Some j => Ok j | None => Err ENTRY_NOT_FOUND end) g ∧ fl_same f g;
  fl_link_law f sb i k : fl_inv f → fl_live f sb → fl_kind f sb i = Some k →
    ∃ g, fs_is_symlink sb i f = Fin (Ok (bool_decide (is_Some (fl_target f sb i)))) g ∧ fl_same f g;
  fl_readlink_law f sb i t : fl_inv f → fl_live f sb → fl_target f sb i = Some t →
    ∃ g, fs_readlink sb i f = Fin (Ok t) g ∧ fl_same f g;
  fl_root_exists f sb : fl_inv f → fl_live f sb → is_Some (fl_kind f sb (fl_root f sb));
  fl_entry_exists f sb i e j : fl_inv f → fl_live f sb → fl_entry f sb i e = Some j → is_Some (fl_kind f sb j);
  fl_no_parent f sb i : fl_inv f → fl_live f sb → fl_entry f sb i DOTDOT = None;
  fl_target_nul f sb i t : fl_inv f → fl_live f sb → fl_target f sb i = Some t → nul ∉ t;
}.

(** ** The world *)

(** A node is a superblock and an inode number. *)
Abbreviation node := (Z * Z)%type.
Record world := mkWorld {
  w_root : option MountRecord;
  w_mount : node → list ascii → option MountRecord;
  w_vroot : Z → Z;
  w_kind : node → option INodeType;
  w_entry : node → list ascii → option Z;
  w_target : node → option (list ascii);
}.
Definition rooted (W : world) (r : MountRecord) : node := (r_superblock r, w_vroot W (r_superblock r)).

(** The entries of a path behind the root, when it is absolute. *)
Definition split_root (st : list (list ascii)) : option (list (list ascii)) :=
  match st with e :: ws => if bool_decide (e = ROOT) then Some ws else None | [] => None end.

(** The walk of the entries [es] from [cur], with at most [budget] relative links in a
    row; it comes with a mount path, as the code returns it: the path of the mount the
    walk ends in, but after a link that of the mount the link is in, because
    [_follow_symlink] keeps the new one to itself (vfs.cpp 1405). *)
Fixpoint walk (W : world) (fuel budget : nat) (cur : node) (mp : list ascii) (es : list (list ascii))
    (follow : bool) : option (Result (node * list ascii)) :=
  match fuel with
  | O => None
  | S fuel =>
      match es with
      | [] => Some (Ok (cur, mp))
      | e :: es =>
          match w_mount W cur e with
          | Some r => walk W fuel budget (rooted W r) (r_mount_path r) es follow
          | None =>
              if negb (bool_decide (w_kind W cur = Some DIRECTORY)) then Some (Err INVALID_PARAM)
              else
                match w_entry W cur e with
                | None => Some (Err ENTRY_NOT_FOUND)
                | Some j =>
                    match (if follow || negb (bool_decide (es = [])) then w_target W (cur.1, j) else None) with
                    | None => walk W fuel budget (cur.1, j) mp es follow
                    | Some t =>
                        match budget with
                        | O => Some (Err OUT_OF_BOUNDARY)
                        | S budget =>
                            r ← match split_root (reduce t) with
                                | Some ws =>
                                    match w_root W with
                                    | Some r => walk W fuel kMaxSymlinkDepth (rooted W r) (r_mount_path r) (ws ++ es) follow
                                    | None => Some (Err ENTRY_NOT_FOUND)
                                    end
                                | None => walk W fuel budget cur mp (reduce t ++ es) follow
                                end;
                            Some (match r with Ok (n, _) => Ok (n, mp) | Err e => Err e end)
                        end
                    end
                end
          end
      end
  end.

(** A walk without links. *)
Definition plain1 (W : world) (cur : node) (e : list ascii) : option node :=
  match w_mount W cur e with
  | Some r => Some (rooted W r)
  | None =>
      if bool_decide (w_kind W cur = Some DIRECTORY) then
        j ← w_entry W cur e;
        match w_target W (cur.1, j) with None => Some (cur.1, j) | Some _ => None end
      else None
  end.
Fixpoint plain (W : world) (cur : node) (es : list (list ascii)) : option node :=
  match es with [] => Some cur | e :: es => cur ← plain1 W cur e; plain W cur es end.
Lemma plain_snoc W cur es e : plain W cur (es ++ [e]) = plain W cur es ≫= λ c, plain1 W c e.
Proof.
  revert cur. induction es as [|x es IH]; intros cur; cbn; [by destruct (plain1 W cur e)|].
  destruct (plain1 W cur x) as [c|]; [apply IH|done].
Qed.

(** Entries of a relative path: names behind steps up. *)
Definition good (es : list (list ascii)) : Prop :=
  ∃ k ws, es = replicate k DOTDOT ++ ws ∧ ∀ w, w ∈ ws → name w.
Lemma good_cons e es : good (e :: es) → e = DOTDOT ∨ ∀ w, w ∈ e :: es → name w.
Proof.
  intros ([|k] & ws & E & Hw); cbn [replicate app] in E; [right; by rewrite E|left; by injection E].
Qed.
Lemma good_names es : (∀ w, w ∈ es → name w) → good es.
Proof. intros H. by exists O, es. Qed.
Lemma good_app st es : good st → (∀ w, w ∈ es → name w) → good (st ++ es).
Proof.
  intros (k & ws & -> & Hw) Hes. exists k, (ws ++ es). split; [by rewrite app_assoc|]. intros w [?|?]%elem_of_app; auto.
Qed.

(** ** Texts *)

Lemma render_dot st : normal st → render st = DOT → st = [].
Proof.
  intros Hn E. destruct (decide (st = [])) as [|Hne]; [done|]. pose proof (render_components st Hn Hne) as Hc. rewrite E in Hc.
  destruct Hn as (k & ws & Hw & [->| ->]); [done|]. change (components DOT) with [DOT] in Hc. destruct k as [|k]; [|done].
  cbn [replicate app] in Hc. destruct (Hw DOT) as (_ & ? & _); [rewrite <- Hc; left|done].
Qed.
(** A path is absolute, and starts with the root, or is relative and has good entries. *)
Lemma split_normal st : normal st →
  match split_root st with
  | Some ws => st = ROOT :: ws ∧ (∀ w, w ∈ ws → name w) ∧ is_absolute (render st) = true
  | None => good st ∧ is_absolute (render st) = false
  end.
Proof.
  intros Hst. pose proof Hst as (k & ws & Hw & [->| ->]).
  - assert (Hs : split_root (ROOT :: ws) = Some ws) by (unfold split_root; by rewrite bool_decide_eq_true_2).
    rewrite Hs. by rewrite render_root.
  - assert (Hr : ∀ w, w ∈ replicate k DOTDOT ++ ws → word w).
    { intros w [->%elem_of_replicate_inv|Hin]%elem_of_app; [apply dotdot_word|by apply Hw]. }
    set (st := replicate k DOTDOT ++ ws) in *. assert (Hs : split_root st = None).
    { unfold split_root. destruct st as [|e es]; [done|]. rewrite bool_decide_eq_false_2; [done|]. apply word_not_root, Hr. left. }
    rewrite Hs. split; [by exists k, ws|]. destruct (decide (st = [])) as [->|Hne]; [done|].
    rewrite render_text by done. destruct (text_nonempty st Hr Hne) as (c & l & -> & Hc). unfold is_absolute. cbn.
    by rewrite bool_decide_eq_false_2 by congruence.
Qed.
(** The text of a link's target, and it with the entries [es] behind the link. *)
Definition rest_text (es : list (list ascii)) : list ascii := match es with [] => DOT | _ => text es end.
Lemma rest_text_not_nil es : (∀ w, w ∈ es → name w) → rest_text es ≠ [].
Proof.
  intros Hes. destruct es as [|e es]; [done|]. unfold rest_text.
  destruct (text_nonempty (e :: es)) as (c & l & -> & _); [by apply names_words|done|done].
Qed.
Lemma combined_text t q es : normalize t = Some q → (∀ w, w ∈ es → name w) →
  normalize (join q (rest_text es)) = Some (render (reduce t ++ es)).
Proof.
  intros Ht Hes.
  assert (Hf : ∀ st, foldl normalize_step st (segments (rest_text es)) = st ++ es).
  { intros st. destruct es as [|e es]; [by rewrite app_nil_r|]. unfold rest_text. rewrite text_segments; [by apply fold_names|by apply names_words|done]. }
  rewrite normalize_run in Ht. pose proof (rest_text_not_nil es Hes) as Hne. destruct t as [|c t].
  - injection Ht as <-. change (reduce []) with (@nil (list ascii)). change (join [] (rest_text es)) with (rest_text es).
    rewrite normalize_reduce by done. unfold reduce, components.
    assert (Ha : is_absolute (rest_text es) = false).
    { destruct es as [|e es]; [done|]. unfold rest_text. destruct (text_nonempty (e :: es)) as (d & l & -> & Hd); [by apply names_words|done|].
      unfold is_absolute. cbn. by rewrite bool_decide_eq_false_2 by congruence. }
    rewrite Ha. cbn [app]. by rewrite Hf.
  - cbn [length Nat.eqb] in Ht. injection Ht as <-. set (st := reduce (c :: t)). rewrite normalize_reduce.
    + rewrite reduce_join by apply render_not_nil. by rewrite reduce_render, Hf by apply normal_reduce.
    + unfold join. rewrite render_nonempty. cbn [negb]. by destruct (render st).
Qed.

(** ** States that show a world *)

Section resolve.
Context {F : Type} `{!FileSystems F} `{!FsLaws F}.

#[local] Abbreviation state := (@vfs F).
Record shows (W : world) (s : state) : Prop := {
  sh_inv : fl_inv (fs s);
  sh_vsb b x : vsbs s !! b = Some x → 0 < b ∧ fl_live (fs s) (vs_sb x) ∧ w_vroot W b = fl_root (fs s) (vs_sb x) ∧
    ∀ i, w_kind W (b, i) = fl_kind (fs s) (vs_sb x) i ∧ w_target W (b, i) = fl_target (fs s) (vs_sb x) i ∧
      ∀ e, w_entry W (b, i) e = fl_entry (fs s) (vs_sb x) i e;
  sh_cache b x i p : vsbs s !! b = Some x → vs_cache x !! i = Some p →
    ∃ v, vnodes s !! p = Some v ∧ v_vsb v = b ∧ v_inode v = i ∧ ∀ e, mount_table s !! (p, e) = w_mount W (b, i) e;
  sh_uncached b x i e : vsbs s !! b = Some x → vs_cache x !! i = None → w_mount W (b, i) e = None;
  sh_vnode p v : vnodes s !! p = Some v → 0 < p < next_ptr s ∧ is_Some (vsbs s !! v_vsb v) ∧
    w_kind W (v_vsb v, v_inode v) = Some (v_kind v);
  sh_next : 0 < next_ptr s;
  sh_key p e r : mount_table s !! (p, e) = Some r → p < next_ptr s ∧ is_Some (vsbs s !! r_superblock r) ∧
    (p ≠ 0 → e ≠ DOTDOT);
  sh_root : mount_table s !! root_key = w_root W;
}.

(** The pointer [p] is that of the node [n]. *)
Definition at_node (W : world) (s : state) (p : Z) (n : node) : Prop :=
  ∃ v, vnodes s !! p = Some v ∧ (v_vsb v, v_inode v) = n ∧ ∀ e, mount_table s !! (p, e) = w_mount W n e.

(** What resolution may change: new nodes, which the caches may keep. *)
Record extends (s t : state) : Prop := {
  ex_mounts : mount_table t = mount_table s;
  ex_vnodes p v : vnodes s !! p = Some v → vnodes t !! p = Some v;
  ex_vsb b x : vsbs s !! b = Some x → ∃ y, vsbs t !! b = Some y ∧ vs_sb y = vs_sb x ∧ vs_fsd y = vs_fsd x;
  ex_tables : fs_table t = fs_table s ∧ pseudo_mounts t = pseudo_mounts s ∧ files t = files s ∧
    dirs t = dirs s ∧ vmounts t = vmounts s;
}.
#[global] Instance extends_preorder : PreOrder extends.
Proof.
  split.
  - intros s. split; [done|done|intros b x E; by exists x|done].
  - intros s t u [H1 H2 H3 (H4&H5&H6&H7&H8)] [K1 K2 K3 (K4&K5&K6&K7&K8)]. split; [congruence|eauto| |].
    + intros b x E. destruct (H3 b x E) as (y & E1 & ? & ?). destruct (K3 b y E1) as (z & E2 & ? & ?). exists z. split_and!; congruence.
    + split_and!; congruence.
Qed.
Lemma at_node_extends W s t p n : extends s t → at_node W s p n → at_node W t p n.
Proof. intros H (v & E & En & Hm). exists v. split; [by apply (ex_vnodes _ _ H)|]. split; [done|]. by rewrite (ex_mounts _ _ H). Qed.

(** The state after an operation of a file system that changes no view. *)
Definition put_fs (g : F) (s : state) : state := mkVfs (fs_table s) (mount_table s) (pseudo_mounts s) (vsbs s)
  (vnodes s) (files s) (dirs s) (vmounts s) (next_ptr s) g.
Lemma with_fs_run {A} (m : M F A) s r g : m (fs s) = Fin r g → with_fs m s = Fin r (put_fs g s).
Proof. unfold with_fs. by intros ->. Qed.
Lemma put_fs_extends g s : extends s (put_fs g s).
Proof. split; [done|done|intros b x E; by exists x|done]. Qed.
Lemma put_fs_shows W g s : shows W s → fl_same (fs s) g → shows W (put_fs g s).
Proof.
  intros [H1 H2 H3 H4 H5 H6 H7 H8] Hs. destruct (Hs H1) as [Hi Hv]. split; try done.
  intros b x E. destruct (H2 b x E) as (? & Hl & Hr & Hk). destruct (Hv _ Hl) as (Hl' & Hr' & Hk'). split_and!; [done|done|cbn; congruence|].
  intros i. destruct (Hk i) as (? & ? & ?), (Hk' i) as (? & ? & ?). cbn. split_and!; [congruence|congruence|]. intros e. congruence.
Qed.

(** *** The cache of inodes *)

(** A routine comes to the node [n], unless there is no memory. *)
Definition comes_to (W : world) (s : state) (n : node) (r : Result Z) (t : state) : Prop :=
  shows W t ∧ extends s t ∧ match r with Ok p => at_node W t p n | Err e => e = OUT_OF_MEMORY end.

Lemma shows_add_node W s b x i k refs : shows W s → vsbs s !! b = Some x → vs_cache x !! i = None → w_kind W (b, i) = Some k →
  let t := set_vnodes (insert (next_ptr s) (mkVINode b (vs_fsd x) i k refs)) (set_next (next_ptr s + 1) s) in
  shows W t ∧ extends s t ∧ at_node W t (next_ptr s) (b, i).
Proof.
  intros Hs Hx Hc Hk t. pose proof (sh_next _ _ Hs) as Hn.
  assert (Hold : ∀ p v, vnodes s !! p = Some v → p ≠ next_ptr s) by (intros p v E; destruct (sh_vnode _ _ Hs p v E); lia).
  assert (Hm : ∀ e, mount_table s !! (next_ptr s, e) = w_mount W (b, i) e).
  { intros e. rewrite (sh_uncached _ _ Hs b x) by done. destruct (mount_table s !! _) as [r|] eqn:E; [|done].
    destruct (sh_key _ _ Hs _ _ _ E). lia. }
  split; [|split].
  - split.
    + apply (sh_inv _ _ Hs).
    + apply (sh_vsb _ _ Hs).
    + intros b' x' i' p E1 E2. destruct (sh_cache _ _ Hs b' x' i' p E1 E2) as (v & E & Hv). exists v. split; [|done].
      cbn. rewrite lookup_insert_ne; [done|]. apply not_eq_sym. by apply (Hold _ v).
    + apply (sh_uncached _ _ Hs).
    + intros p v. cbn. intros [[<- <-]|[_ E]]%lookup_insert_Some; [cbn; split_and!; [lia|lia|by exists x|done]|].
      destruct (sh_vnode _ _ Hs p v E) as (? & ? & ?). split_and!; [lia|lia|done|done].
    + cbn. lia.
    + intros p e r E. destruct (sh_key _ _ Hs p e r E) as (? & ?). cbn. split; [lia|done].
    + apply (sh_root _ _ Hs).
  - split; [done| |intros b' x' E; by exists x'|done]. intros p v E. cbn. rewrite lookup_insert_ne; [done|]. apply not_eq_sym. by apply (Hold _ v).
  - exists (mkVINode b (vs_fsd x) i k refs). cbn. by rewrite lookup_insert_eq.
Qed.
Lemma shows_cache W s b x i p : shows W s → vsbs s !! b = Some x → at_node W s p (b, i) →
  let t := set_vsbs (insert b (set_cache (insert i p) x)) s in shows W t ∧ extends s t ∧ at_node W t p (b, i).
Proof.
  intros Hs Hx (v & Ev & Hn & Hm) t. assert (Hv : v_vsb v = b ∧ v_inode v = i) by (by injection Hn).
  assert (Hat : at_node W t p (b, i)) by (by exists v). split; [|split; [|done]].
  - split; [apply (sh_inv _ _ Hs)| | | | |apply (sh_next _ _ Hs)| |apply (sh_root _ _ Hs)].
    + intros b' x'. cbn. intros [[<- <-]|[_ E]]%lookup_insert_Some; [exact (sh_vsb _ _ Hs b x Hx)|exact (sh_vsb _ _ Hs b' x' E)].
    + intros b' x' i' q. cbn. intros [[<- <-]|[_ E]]%lookup_insert_Some; [|exact (sh_cache _ _ Hs b' x' i' q E)]. cbn.
      intros [[<- <-]|[_ E]]%lookup_insert_Some; [destruct Hv; by exists v|exact (sh_cache _ _ Hs b x i' q Hx E)].
    + intros b' x' i' e. cbn. intros [[<- <-]|[_ E]]%lookup_insert_Some; [|exact (sh_uncached _ _ Hs b' x' i' e E)]. cbn.
      intros [E _]%lookup_insert_None. exact (sh_uncached _ _ Hs b x i' e Hx E).
    + intros q u E. destruct (sh_vnode _ _ Hs q u E) as (? & H & ?). split; [done|split; [|done]]. cbn. rewrite lookup_insert_is_Some'. by right.
    + intros q e r E. destruct (sh_key _ _ Hs q e r E) as (? & H & ?). split_and!; [done| |done]. cbn. rewrite lookup_insert_is_Some'. by right.
  - split; [done|done| |done]. intros b' y E. cbn. destruct (decide (b' = b)) as [->|Hne].
    + rewrite lookup_insert_eq. rewrite Hx in E. injection E as <-. by eexists.
    + rewrite lookup_insert_ne by done. by exists y.
Qed.

Lemma vsb_run (s : state) b x : vsbs s !! b = Some x → vsb b s = Fin (Ok x) s.
Proof. intros E. unfold vsb, gets, mbind, M_bind. by rewrite E. Qed.
Lemma vnode_there (s : state) p v : vnodes s !! p = Some v → vnode p s = Fin (Ok v) s.
Proof. intros E. unfold vnode, gets, mbind, M_bind. by rewrite E. Qed.

Lemma get_vnode_run W s b x i k : shows W s → vsbs s !! b = Some x → w_kind W (b, i) = Some k →
  wp (get_vnode b i) s (comes_to W s (b, i)).
Proof.
  intros Hs Hx Hk. destruct (sh_vsb _ _ Hs b x Hx) as (Hb & Hl & _ & Hv). destruct (Hv i) as (Hki & _).
  unfold get_vnode, wp. rewrite (bind_run _ _ _ _ _ (vsb_run s b x Hx)). destruct (vs_cache x !! i) as [p|] eqn:Ec.
  { destruct (sh_cache _ _ Hs b x i p Hx Ec) as (v & Ev & Hvb & Hvi & Hm). split_and!; [done|done|]. exists v. by rewrite Hvb, Hvi. }
  destruct (fl_get_law (fs s) (vs_sb x) i k (sh_inv _ _ Hs) Hl ltac:(congruence)) as (g & Eg & Hg).
  rewrite (bind_run _ _ _ _ _ (with_fs_run _ _ _ _ Eg)). set (s1 := put_fs g s).
  destruct (fl_new_law (fs s1)) as (ok & g2 & En & Hg2). rewrite (bind_run _ _ _ _ _ (with_fs_run _ _ _ _ En)). set (s2 := put_fs g2 s1).
  assert (Hs2 : shows W s2) by (apply put_fs_shows; [|done]; by apply put_fs_shows).
  assert (Hx2 : extends s s2) by (etrans; apply put_fs_extends).
  destruct ok; cbn [negb]; [|by split_and!].
  destruct (shows_add_node W s2 b x i k (if fs_cached (fs s2) (vs_sb x) i then 1 else 0) Hs2 Hx Ec Hk) as (H3 & H4 & H5).
  unfold fresh, gets, modify, mret, M_ret, mbind, M_bind. cbn -[fs_cached].
  change (fs s2) with g2 in *. destruct (fs_cached g2 (vs_sb x) i).
  - destruct (shows_cache W _ b x i (next_ptr s2) H3 Hx H5) as (H6 & H7 & H8). split_and!; [done| |done].
    etrans; [done|]. by etrans.
  - split_and!; [done|by etrans|done].
Qed.
Lemma root_vnode_run W s r : shows W s → is_Some (vsbs s !! r_superblock r) →
  wp (root_vnode (r_superblock r)) s (comes_to W s (rooted W r)).
Proof.
  intros Hs [x Hx]. destruct (sh_vsb _ _ Hs _ x Hx) as (Hb & Hl & Hr & Hv).
  destruct (fl_root_law (fs s) (vs_sb x) (sh_inv _ _ Hs) Hl) as (g & Eg & Hg).
  unfold root_vnode, wp. rewrite (bind_run _ _ _ _ _ (vsb_run s _ x Hx)), (bind_run _ _ _ _ _ (with_fs_run _ _ _ _ Eg)).
  destruct (fl_root_exists (fs s) (vs_sb x) (sh_inv _ _ Hs) Hl) as [k Hk].
  unfold rooted. rewrite Hr. eapply wp_mono; [eapply get_vnode_run; [by apply put_fs_shows|done|]|].
  - destruct (Hv (fl_root (fs s) (vs_sb x))) as (Hk' & _). by rewrite Hk'.
  - intros res t (H1 & H2 & H3). split_and!; [done| |done]. etrans; [apply put_fs_extends|done].
Qed.

(** *** One entry *)

Lemma at_vsb W s p n : shows W s → at_node W s p n → ∃ v x, vnodes s !! p = Some v ∧ v_vsb v = n.1 ∧ v_inode v = n.2 ∧
  w_kind W n = Some (v_kind v) ∧ vsbs s !! n.1 = Some x.
Proof.
  intros Hs (v & Ev & <- & _). destruct (sh_vnode _ _ Hs p v Ev) as (_ & [x Hx] & Hk). by exists v, x.
Qed.
Lemma with_fs_step {A B} (op : M F A) (k : A → M state B) r g s Q : op (fs s) = Fin r g →
  match r with Ok a => wp (k a) (put_fs g s) Q | Err e => Q (Err e) (put_fs g s) end → wp (with_fs op ≫= k) s Q.
Proof. intros E H. apply wp_bind. unfold wp. by rewrite (with_fs_run _ _ _ _ E). Qed.
Lemma inode_of_run W s p n x : shows W s → at_node W s p n → vsbs s !! n.1 = Some x → inode_of p s = Fin (Ok (vs_sb x, n.2)) s.
Proof.
  intros Hs Hn Hx. destruct (at_vsb W s p n Hs Hn) as (v & x' & Ev & Hb & Hi & _ & _). unfold inode_of.
  rewrite (bind_run _ _ _ _ _ (vnode_there s p v Ev)), Hb, (bind_run _ _ _ _ _ (vsb_run s n.1 x Hx)). by rewrite Hi.
Qed.
Lemma as_directory_run W s p n : shows W s → at_node W s p n →
  as_directory p s = Fin (if bool_decide (w_kind W n = Some DIRECTORY) then Ok tt else Err INVALID_PARAM) s.
Proof.
  intros Hs Hn. destruct (at_vsb W s p n Hs Hn) as (v & x & Ev & _ & _ & -> & _). unfold as_directory, as_kind.
  rewrite (bind_run _ _ _ _ _ (vnode_there s p v Ev)). case_bool_decide as E; [by rewrite E, bool_decide_eq_true_2|].
  rewrite bool_decide_eq_false_2; [done|congruence].
Qed.
Lemma norm_step {B} q q' (k : list ascii → M state B) s Q : normalize q = Some q' → wp (k q') s Q → wp (norm q ≫= k) s Q.
Proof. intros E H. apply wp_bind. unfold norm, returned, wp. by rewrite E. Qed.
Lemma remaining_run (ds es : list (list ascii)) (s : state) : ds ≠ [] → (∀ w, w ∈ ds ++ es → name w) →
  remaining_from (text ds) es s = Fin (Ok (text (ds ++ es))) s.
Proof.
  revert ds. induction es as [|e es IH]; intros ds Hne Hw; [by rewrite app_nil_r|]. cbn [remaining_from].
  assert (Hd : ∀ w, w ∈ ds → name w) by (intros w Hin; apply Hw; set_solver). assert (He : name e) by (apply Hw; set_solver).
  assert (Hde : ∀ w, w ∈ ds ++ [e] → name w) by (intros w Hin; apply Hw; set_solver).
  pose proof (normalize_join ds e (names_normal ds Hd) He) as E.
  rewrite !render_text in E; [|by apply names_words|by destruct ds|by apply names_words|done].
  rewrite (bind_run _ _ s (text (ds ++ [e])) s) by (unfold norm, returned; by rewrite E). rewrite (IH (ds ++ [e])); [by rewrite <- app_assoc|by destruct ds|].
  intros w Hin. apply Hw. set_solver.
Qed.

(** What [walk_entries] does with one entry. *)
Lemma entry_run W rp es e current mp cpath next b budget follow s (cur : node) Q :
  shows W s → at_node W s current cur → b = cur.1 → normalize (join cpath e) = Some next →
  (∀ t, shows W t → extends s t → Q (Err OUT_OF_MEMORY) t) →
  match w_mount W cur e with
  | Some r => ∀ p t, shows W t → extends s t → at_node W t p (rooted W r) →
      wp (walk_entries rp es p (r_mount_path r) next (r_superblock r) budget follow) t Q
  | None =>
      if bool_decide (w_kind W cur = Some DIRECTORY) then
        match w_entry W cur e with
        | None => ∀ t, shows W t → extends s t → Q (Err ENTRY_NOT_FOUND) t
        | Some j => ∀ p t, shows W t → extends s t → at_node W t p (cur.1, j) →
            wp (if bool_decide (is_Some (w_target W (cur.1, j))) && (follow || negb (bool_decide (es = []))) then
                  remaining ← match es with [] => mret DOT | e :: es => remaining_from e es end;
                  v ← follow_symlink_with rp p next remaining budget follow; mret (v, mp)
                else walk_entries rp es p mp next b budget follow) t Q
        end
      else Q (Err INVALID_PARAM) s
  end → wp (walk_entries rp (e :: es) current mp cpath b budget follow) s Q.
Proof.
  intros Hs Hn -> Enext Hoom H. destruct (at_vsb W s current cur Hs Hn) as (v & x & Ev & Hvb & Hvi & Hk & Hx).
  assert (Hm : mount_table s !! (current, e) = w_mount W cur e) by (by destruct Hn as (? & _ & _ & Hm)).
  cbn [walk_entries]. apply (norm_step _ next); [done|]. apply wp_bind. unfold gets at 1, wp at 1. rewrite Hm.
  destruct (w_mount W cur e) as [r|] eqn:Em.
  { destruct (sh_key _ _ Hs _ _ _ Hm) as (_ & Hr & _). apply wp_bind. eapply wp_mono; [by apply (root_vnode_run W)|].
    intros res t (H1 & H2 & H3). destruct res as [p|er]; [by apply H|]. subst er. by apply Hoom. }
  apply wp_bind. unfold wp at 1. rewrite (as_directory_run W s current cur Hs Hn).
  case_bool_decide as Ed; [|done]. destruct (sh_vsb _ _ Hs _ x Hx) as (_ & Hl & _ & Hv). destruct cur as [b c]. cbn [fst snd] in *.
  destruct (Hv c) as (Hkc & _ & Hec). destruct (fl_lookup_law (fs s) (vs_sb x) c e (sh_inv _ _ Hs) Hl ltac:(congruence)) as (g & Eg & Hg).
  apply wp_bind. unfold wp at 1, in_dir. rewrite (bind_run _ _ _ _ _ (inode_of_run W s current (b, c) x Hs Hn Hx)). cbn [fst snd].
  rewrite (with_fs_run _ _ _ _ Eg). rewrite <- Hec. set (s1 := put_fs g s). assert (Hs1 : shows W s1) by by apply put_fs_shows.
  assert (X1 : extends s s1) by apply put_fs_extends. destruct (w_entry W (b, c) e) as [j|] eqn:Ej; [|by apply H].
  destruct (fl_entry_exists (fs s) (vs_sb x) c e j (sh_inv _ _ Hs) Hl ltac:(by rewrite <- Hec)) as [k Hkj].
  destruct (Hv j) as (Hkj' & Htj & _). apply wp_bind. eapply wp_mono; [apply (get_vnode_run W s1 b x j k Hs1 Hx); congruence|].
  intros res t (H1 & H2 & H3). assert (X : extends s t) by by etrans. destruct res as [p|er]; [|subst er; by apply Hoom].
  destruct (ex_vsb _ _ X b x Hx) as (y & Hy & Hsb & _).
  apply wp_bind. unfold wp at 1. rewrite (inode_of_run W t p (b, j) y H1 H3 Hy). cbn [fst snd].
  destruct (sh_vsb _ _ H1 b y Hy) as (_ & Hl' & _ & Hv'). destruct (Hv' j) as (Hkt & Htt & _).
  destruct (fl_link_law (fs t) (vs_sb y) j k (sh_inv _ _ H1) Hl' ltac:(congruence)) as (g' & Eg' & Hg').
  apply (with_fs_step _ _ _ _ _ _ Eg'). rewrite <- Htt. apply H; [by apply put_fs_shows|etrans; [done|apply put_fs_extends]|].
  by apply (at_node_extends W t); [apply put_fs_extends|].
Qed.

(** *** Walks *)

(** The entries before the current node: it is where they lead, without links. *)
Definition came_by (W : world) (pes : list (list ascii)) (cur : node) : Prop :=
  (∀ w, w ∈ pes → name w ∧ nul ∉ w) ∧ ∃ r, w_root W = Some r ∧ plain W (rooted W r) pes = Some cur.
Lemma came_by_snoc W pes cur e n : came_by W pes cur → name e → nul ∉ e → plain1 W cur e = Some n → came_by W (pes ++ [e]) n.
Proof.
  intros (Hp & r & Hr & Hc) He Hn H1. split; [intros w [?| ->%list_elem_of_singleton]%elem_of_app; auto|].
  exists r. split; [done|]. by rewrite plain_snoc, Hc.
Qed.
Lemma came_next W pes cur e : came_by W pes cur → name e → normalize (join (render (ROOT :: pes)) e) = Some (render (ROOT :: pes ++ [e])).
Proof. intros (Hp & _) He. rewrite normalize_join; [done| |done]. apply root_normal. intros w Hw. by apply Hp. Qed.

Lemma plain_run W rp es : ∀ pes current cur mp b budget n s, shows W s → at_node W s current cur → b = cur.1 →
  (∀ w, w ∈ pes ++ es → name w) → plain W cur es = Some n →
  wp (walk_entries rp es current mp (render (ROOT :: pes)) b budget true) s (λ r t, comes_to W s n (fst <$> r) t).
Proof.
  induction es as [|e es IH]; intros pes current cur mp b budget n s Hs Hn Hb Hw Hp.
  { injection Hp as <-. by split. }
  cbn [plain] in Hp. destruct (plain1 W cur e) as [c|] eqn:E1; [|done]. cbn [mbind option_bind] in Hp.
  assert (Hpes : ∀ w, w ∈ pes → name w) by (intros w Hin; apply Hw; set_solver). assert (He : name e) by (apply Hw; set_solver).
  assert (Hall : ∀ w, w ∈ (pes ++ [e]) ++ es → name w) by (intros w Hin; apply Hw; set_solver).
  eapply (entry_run W rp es e current mp _ (render (ROOT :: pes ++ [e])) b budget true s cur); try done.
  { apply (normalize_join (ROOT :: pes)); [by apply root_normal|done]. }
  assert (Hgo : ∀ (t : state) r u, extends s t → comes_to W t n r u → comes_to W s n r u).
  { intros t r u X (H1 & H2 & H3). split_and!; [done|by etrans|done]. }
  unfold plain1 in E1. destruct (w_mount W cur e) as [r|]; [injection E1 as <-|].
  { intros p t Ht X Hat. eapply wp_mono; [by eapply IH|]. intros. by eapply Hgo. }
  case_bool_decide; [|done]. destruct (w_entry W cur e) as [j|]; [|done]. cbn [mbind option_bind] in E1.
  destruct (w_target W (cur.1, j)) as [?|] eqn:Et; [done|]. injection E1 as <-.
  intros p t Ht X Hat. rewrite bool_decide_eq_false_2 by (by intros []). cbn [andb].
  eapply wp_mono; [by eapply IH|]. intros. by eapply Hgo.
Qed.

(** *** The routines around a walk *)

Lemma node_pos W s p n : shows W s → at_node W s p n → (p =? 0) || (n.1 =? 0) = false.
Proof.
  intros Hs Hn. destruct (at_vsb W s p n Hs Hn) as (v & x & Ev & _ & _ & _ & Hx).
  destruct (sh_vnode _ _ Hs p v Ev) as (? & _). destruct (sh_vsb _ _ Hs _ x Hx) as (? & _).
  by rewrite !(proj2 (Z.eqb_neq _ _)) by lia.
Qed.
Lemma resolve_path_run W rp base cur mp pes rel b budget follow s Q : shows W s → at_node W s base cur → b = cur.1 →
  (∀ w, w ∈ pes → name w) → rel ≠ [] →
  wp (walk_entries rp (reduce rel) base mp (render (ROOT :: pes)) b budget follow) s Q →
  wp (resolve_path_with rp base mp (render (ROOT :: pes)) rel b budget follow) s Q.
Proof.
  intros Hs Hn -> Hpes Hrel H. unfold resolve_path_with. rewrite (node_pos W s base cur Hs Hn).
  apply (norm_step _ _ _ _ _ (normalize_reduce rel Hrel)). pose proof (normal_reduce rel) as Hr.
  case_bool_decide as Ed; [by rewrite (render_dot _ Hr Ed) in H|].
  apply (norm_step _ _ _ _ _ (normalize_render _ (root_normal pes Hpes))).
  assert (Hne : reduce rel ≠ []) by (intros E; by rewrite E in Ed).
  apply wp_bind. unfold returned, wp at 1. by rewrite entries_run, (render_components _ Hr Hne).
Qed.
Lemma resolve_inode_run W rp follow path ws s Q : shows W s → (∀ w, w ∈ ws → name w ∧ nul ∉ w) →
  normalize path = Some (render (ROOT :: ws)) →
  (∀ t, shows W t → extends s t → Q (Err OUT_OF_MEMORY) t) →
  (w_root W = None → Q (Err ENTRY_NOT_FOUND) s) →
  (∀ r p t, w_root W = Some r → shows W t → extends s t → at_node W t p (rooted W r) →
    wp (walk_entries rp ws p (r_mount_path r) ROOT (r_superblock r) kMaxSymlinkDepth follow) t Q) →
  wp (resolve_inode_with (resolve_path_with rp) follow path) s Q.
Proof.
  intros Hs Hws Hp Hoom Hnone Hgo. assert (Hnames : ∀ w, w ∈ ws → name w) by (intros w Hw; by apply Hws).
  unfold resolve_inode_with. apply (norm_step _ _ _ _ _ Hp).
  apply wp_bind. unfold wp at 1, lookup_mount_record, gets, mbind at 1, M_bind at 1. rewrite (sh_root _ _ Hs).
  destruct (w_root W) as [r|] eqn:Er; [|by apply Hnone].
  pose proof (sh_root _ _ Hs) as Hk. rewrite Er in Hk. destruct (sh_key _ _ Hs _ _ _ Hk) as (_ & Hr & _).
  apply wp_bind. eapply wp_mono; [by apply (root_vnode_run W)|]. intros res t (H1 & H2 & H3).
  destruct res as [p|e]; [|subst e; by apply Hoom]. specialize (Hgo r p t eq_refl H1 H2 H3).
  destruct (decide (ws = [])) as [->|Hne]; [by rewrite bool_decide_eq_true_2|].
  rewrite bool_decide_eq_false_2.
  2: { rewrite render_root by done. intros E. injection E as E. destruct (text_nonempty ws (names_words ws Hnames) Hne) as (c & l & E' & _).
    by rewrite E in E'. }
  destruct (relative_to_root ws Hnames Hne) as (rel & Erel & Hrel & Hred & _); [apply text_nul; intros w Hw; by apply Hws|].
  apply wp_bind. unfold returned, wp at 1. rewrite Erel.
  change ROOT with (render (ROOT :: [])) at 1. apply (resolve_path_run W rp p (rooted W r)); try done; [by intros w ?%elem_of_nil|].
  by rewrite Hred.
Qed.

(** *** Links *)

Lemma wp_fst {A B} (m : M state (A * B)) s (Q : Result A → state → Prop) :
  wp m s (λ r t, Q (fst <$> r) t) → wp ('(v, _) ← m; mret v) s Q.
Proof. intros H. apply wp_bind. eapply wp_mono; [exact H|]. by intros [[a b]|e] t. Qed.

(** Where a link leads: an absolute one from the root, a relative one from the
    directory that holds it. *)
Lemma follow_run W rp pes (cur : node) e es j target link budget follow s Q :
  shows W s → came_by W pes cur → name e → nul ∉ e → (∀ w, w ∈ es → name w ∧ nul ∉ w) →
  w_target W (cur.1, j) = Some target → at_node W s link (cur.1, j) →
  (∀ t, shows W t → extends s t → Q (Err OUT_OF_MEMORY) t) →
  match budget with
  | O => Q (Err OUT_OF_BOUNDARY) s
  | S budget =>
      match split_root (reduce target) with
      | Some ws => ∀ r p t, (∀ w, w ∈ ws ++ es → name w ∧ nul ∉ w) → w_root W = Some r →
          shows W t → extends s t → at_node W t p (rooted W r) →
          wp (walk_entries rp (ws ++ es) p (r_mount_path r) ROOT (r_superblock r) kMaxSymlinkDepth follow) t (λ r t, Q (fst <$> r) t)
      | None => ∀ p mp t, good (reduce target ++ es) → (∀ w, w ∈ reduce target ++ es → nul ∉ w) →
          shows W t → extends s t → at_node W t p cur →
          wp (walk_entries rp (reduce target ++ es) p mp (render (ROOT :: pes)) cur.1 budget follow) t (λ r t, Q (fst <$> r) t)
      end
  end → wp (follow_symlink_with (resolve_path_with rp) link (render (ROOT :: pes ++ [e])) (rest_text es) budget follow) s Q.
Proof.
  intros Hs Hc He Hne Hes Ht Hlink Hoom H. unfold follow_symlink_with. destruct budget as [|budget]; [exact H|].
  destruct (at_vsb W s link _ Hs Hlink) as (v & x & Ev & _ & _ & Hk & Hx). cbn [fst] in Hx.
  apply wp_bind. unfold wp at 1. rewrite (inode_of_run W s link _ x Hs Hlink Hx). cbn [snd].
  destruct (sh_vsb _ _ Hs _ x Hx) as (_ & Hl & _ & Hv). destruct (Hv j) as (_ & Htj & _). rewrite Ht in Htj. symmetry in Htj.
  destruct (fl_readlink_law (fs s) (vs_sb x) j target (sh_inv _ _ Hs) Hl Htj) as (g & Eg & Hg).
  apply (with_fs_step _ _ _ _ _ _ Eg). set (s1 := put_fs g s). assert (Hs1 : shows W s1) by by apply put_fs_shows.
  assert (X1 : extends s s1) by apply put_fs_extends.
  assert (Hnames : ∀ w, w ∈ es → name w) by (intros w Hw; by apply Hes).
  pose proof (fl_target_nul (fs s) (vs_sb x) j target (sh_inv _ _ Hs) Hl Htj) as Hnul.
  assert (Hrn : ∀ w, w ∈ reduce target ++ es → nul ∉ w).
  { intros w [Hw|Hw]%elem_of_app; [by eapply reduce_nul|by apply Hes]. }
  destruct (normalize target) as [q|] eqn:Eq; [|by rewrite normalize_run in Eq].
  apply (norm_step _ q); [done|]. rewrite bool_decide_eq_false_2 by by apply rest_text_not_nil.
  apply (norm_step _ _ _ _ _ (combined_text target q es Eq Hnames)).
  assert (Ha : is_absolute q = is_absolute (render (reduce target))).
  { rewrite normalize_run in Eq. destruct target; injection Eq as <-; done. }
  rewrite Ha. pose proof (split_normal _ (normal_reduce target)) as Hsp. destruct (split_root (reduce target)) as [ws|].
  - destruct Hsp as (Ews & Hws & ->). rewrite Ews in *. apply wp_fst.
    assert (Hall : ∀ w, w ∈ ws ++ es → name w ∧ nul ∉ w).
    { intros w Hw. split; [apply elem_of_app in Hw as [?|?]; auto|]. apply Hrn. by right. }
    apply (resolve_inode_run W _ _ _ (ws ++ es)); try done.
    + apply normalize_render, root_normal. intros w Hw. by apply Hall.
    + intros t Hu X. apply Hoom; [done|by etrans].
    + intros Hnone. destruct Hc as (_ & r & Hr & _). by rewrite Hr in Hnone.
    + intros r p t Hr Hu X Hat. apply H; [done..|by etrans|done].
  - destruct Hsp as (Hgood & ->). destruct Hc as (Hpes & r0 & Hr0 & Hplain).
    assert (Hpn : ∀ w, w ∈ pes → name w) by (intros w Hw; by apply Hpes).
    rewrite parent_render by (intros w [?| ->%list_elem_of_singleton]%elem_of_app; auto).
    pose proof (normalize_render _ (root_normal pes Hpn)) as Enp. apply (norm_step _ _ _ _ _ Enp).
    apply wp_bind. apply (resolve_inode_run W _ _ _ pes); try done.
    { intros t Hu X. apply Hoom; [done|by etrans]. }
    { intros Hnone. by rewrite Hr0 in Hnone. }
    intros r p t Hr Hu X Hat. rewrite Hr0 in Hr. injection Hr as <-.
    change ROOT with (render (ROOT :: [])) at 1. eapply wp_mono; [by eapply (plain_run W _ pes [])|].
    intros [[parent pm]|er] u (H1 & H2 & H3); cbn [fmap Result_fmap fst] in H3; [|subst er; apply Hoom; [done|etrans; [done|by etrans]]].
    destruct (at_vsb W u parent cur H1 H3) as (w & y & Ew & Hwb & _ & _ & _).
    apply wp_bind. unfold wp at 1. rewrite (vnode_there u parent w Ew). apply wp_fst.
    apply (resolve_path_run W _ _ cur); [done|done|done|done|apply render_not_nil|].
    assert (Hg2 : good (reduce target ++ es)) by by apply good_app.
    rewrite reduce_render by (destruct Hg2 as (k & ws & -> & Hw); exists k, ws; split; [done|by right]).
    rewrite Hwb. apply H; [done|done|done|etrans; [done|by etrans]|done].
Qed.

(** *** The walk *)

(** The answer [ans] of the reference, or no memory. *)
Definition answers (W : world) (s : state) (ans : Result (node * list ascii)) (r : Result (Z * list ascii)) (t : state) : Prop :=
  shows W t ∧ extends s t ∧
  (r = Err OUT_OF_MEMORY ∨
   match ans with Ok (n, mp) => ∃ p, r = Ok (p, mp) ∧ at_node W t p n | Err e => r = Err e end).
Lemma answers_later W s t ans r u : extends s t → answers W t ans r u → answers W s ans r u.
Proof. intros X (H1 & H2 & H3). split_and!; [done|by etrans|done]. Qed.
Lemma answers_oom W s ans t : shows W t → extends s t → answers W s ans (Err OUT_OF_MEMORY) t.
Proof. intros. split_and!; [done..|by left]. Qed.
Lemma answers_err W s e t : shows W t → extends s t → answers W s (Err e) (Err e) t.
Proof. intros. split_and!; [done..|by right]. Qed.
(** The answer behind a link, in the mount of the link. *)
Definition in_mount (mp : list ascii) (r : Result (node * list ascii)) : Result (node * list ascii) :=
  match r with Ok (n, _) => Ok (n, mp) | Err e => Err e end.
Lemma wp_in_mount W (m : M state Z) mp s ans :
  wp m s (λ r t, ∃ a r', r = fst <$> r' ∧ in_mount mp a = in_mount mp ans ∧ answers W s a r' t) →
  wp (v ← m; mret (v, mp)) s (answers W s (in_mount mp ans)).
Proof.
  intros H. apply wp_bind. eapply wp_mono; [exact H|]. intros r t (a & r' & -> & <- & H1 & H2 & H3).
  destruct H3 as [->|H3]; [by apply answers_oom|]. destruct a as [[n mp']|e]; [|subst r'; by apply answers_err].
  destruct H3 as (p & -> & Hat). split_and!; [done|done|]. right. by exists p.
Qed.
(** The path of the mount a walk starts in is only passed on. *)
Lemma walk_mount W n budget cur mp m es follow a : walk W n budget cur mp es follow = Some a →
  ∃ a', walk W n budget cur m es follow = Some a' ∧ ∀ x, in_mount x a' = in_mount x a.
Proof.
  revert budget cur es a. induction n as [|n IH]; intros budget cur es a; [done|]. destruct es as [|e es]; cbn [walk].
  { intros [= <-]. by eexists. }
  destruct (w_mount W cur e); [intros H; by exists a|]. destruct (negb _); [intros H; by exists a|].
  destruct (w_entry W cur e) as [j|]; [|intros H; by exists a].
  destruct (if follow || _ then _ else None) as [t|]; [|apply IH]. destruct budget as [|budget]; [intros H; by exists a|].
  destruct (split_root (reduce t)) as [ws|].
  - destruct (match w_root W with Some _ => _ | None => _ end) as [r|]; [|done]. intros [= <-]. eexists. split; [done|]. by destruct r as [[]|].
  - destruct (walk W n budget cur mp _ follow) as [r|] eqn:E; [|done]. intros [= <-]. destruct (IH _ _ _ _ E) as (r' & -> & Hr).
    eexists. split; [done|]. intros x. specialize (Hr x). by destruct r as [[]|], r' as [[]|].
Qed.

Lemma no_parent W s p n : shows W s → at_node W s p n → w_mount W n DOTDOT = None ∧ w_entry W n DOTDOT = None.
Proof.
  intros Hs Hn. pose proof (node_pos W s p n Hs Hn) as [Hp%Z.eqb_neq _]%orb_false_iff.
  destruct (at_vsb W s p n Hs Hn) as (v & x & Ev & _ & _ & _ & Hx). destruct Hn as (_ & _ & _ & Hm). rewrite <- Hm. split.
  - destruct (mount_table s !! (p, DOTDOT)) as [r|] eqn:E; [|done]. destruct (sh_key _ _ Hs _ _ _ E) as (_ & _ & Hd). by destruct (Hd Hp).
  - destruct (sh_vsb _ _ Hs _ x Hx) as (_ & Hl & _ & Hv). destruct n as [b i]. destruct (Hv i) as (_ & _ & ->).
    apply fl_no_parent; [apply (sh_inv _ _ Hs)|done].
Qed.

(** The code answers what the reference does, with that much fuel. *)
Definition walk_right (W : world) (n : nat) : Prop := ∀ f budget cur mp es follow ans pes current s, (n <= f)%nat →
  walk W n budget cur mp es follow = Some ans → shows W s → at_node W s current cur →
  (es ≠ [] → came_by W pes cur) → good es → (∀ w, w ∈ es → nul ∉ w) → (∀ w, w ∈ pes → name w) →
  wp (walk_entries (resolve_path f) es current mp (render (ROOT :: pes)) cur.1 budget follow) s (answers W s ans).

(** The reference behind a link. *)
Definition behind_link (W : world) (n budget : nat) (cur : node) (mp : list ascii) (es : list (list ascii))
    (follow : bool) (target : list ascii) : option (Result (node * list ascii)) :=
  match budget with
  | O => Some (Err OUT_OF_BOUNDARY)
  | S budget =>
      match split_root (reduce target) with
      | Some ws =>
          match w_root W with
          | Some r => walk W n kMaxSymlinkDepth (rooted W r) (r_mount_path r) (ws ++ es) follow
          | None => Some (Err ENTRY_NOT_FOUND)
          end
      | None => walk W n budget cur mp (reduce target ++ es) follow
      end
  end.
Lemma behind_link_run W n f budget (cur : node) e mp es follow a pes link j target s : walk_right W n → (n <= f)%nat →
  behind_link W n budget cur mp es follow target = Some a → shows W s → came_by W pes cur → name e → nul ∉ e →
  (∀ w, w ∈ es → name w ∧ nul ∉ w) → w_target W (cur.1, j) = Some target → at_node W s link (cur.1, j) →
  wp (remaining ← match es with [] => mret DOT | e :: es => remaining_from e es end;
      v ← follow_symlink_with (resolve_path (S f)) link (render (ROOT :: pes ++ [e])) remaining budget follow;
      mret (v, mp)) s (answers W s (in_mount mp a)).
Proof.
  intros IH Hf Hw Hs Hc He Hne Hes Ht Hlink. apply wp_bind. unfold wp at 1.
  assert (Er : (match es with [] => mret DOT | e :: es => remaining_from e es end : M state (list ascii)) s = Fin (Ok (rest_text es)) s).
  { destruct es as [|x es]; [done|]. change x with (text [x]) at 1. apply remaining_run; [done|]. intros w Hin. by apply Hes. }
  rewrite Er. apply wp_in_mount. assert (Hpn : ∀ w, w ∈ pes → name w) by (intros w Hin; by apply Hc).
  change (resolve_path (S f)) with (resolve_path_with (resolve_path f)).
  refine (follow_run W (resolve_path f) pes cur e es j target link budget follow s _ Hs Hc He Hne Hes Ht Hlink _ _).
  { intros t Hu X. exists a, (Err OUT_OF_MEMORY). split; [done|split; [done|]]. by apply answers_oom. }
  destruct budget as [|budget]; cbn [behind_link] in Hw; [injection Hw as <-; exists (Err OUT_OF_BOUNDARY), (Err OUT_OF_BOUNDARY); split; [done|split; [done|]]; by apply answers_err|].
  destruct (split_root (reduce target)) as [ws|].
  - intros r p t Hall Hr Hu X Hat. rewrite Hr in Hw.
    eapply wp_mono; [apply (IH f _ (rooted W r) _ (ws ++ es) follow a [] p t Hf Hw Hu Hat)|].
    + intros _. split; [by intros w ?%elem_of_nil|]. by exists r.
    + apply good_names. intros w Hin. by apply Hall.
    + intros w Hin. by apply Hall.
    + by intros w ?%elem_of_nil.
    + intros res u Hres. exists a, res. split; [done|split; [done|]]. by eapply answers_later.
  - intros p m t Hg Hnul Hu X Hat. destruct (walk_mount W n budget cur mp m _ follow a Hw) as (a' & Ea & Hin).
    eapply wp_mono; [by apply (IH f budget cur m _ follow a' pes p t Hf Ea Hu Hat)|].
    intros res u Hres. exists a', res. split; [done|split; [done|]]. by eapply answers_later.
Qed.

Lemma walk_run W n : walk_right W n.
Proof.
  induction n as [|n IH]; intros f budget cur mp es follow ans pes current s Hf Hw Hs Hn Hc Hg Hnul Hpes; [done|].
  destruct es as [|e es]; cbn [walk] in Hw.
  { injection Hw as <-. split_and!; [done|done|]. right. by exists current. }
  specialize (Hc ltac:(done)). assert (Hne : nul ∉ e) by (apply Hnul; left).
  destruct (good_cons e es Hg) as [->|Hnames].
  { destruct (no_parent W s current cur Hs Hn) as [Hm Hl]. rewrite Hm, Hl in Hw.
    destruct (normalize (join (render (ROOT :: pes)) DOTDOT)) as [q|] eqn:Eq; [|by rewrite normalize_run in Eq].
    eapply (entry_run W _ es DOTDOT current mp _ q _ budget follow s cur); try done; [by apply answers_oom|].
    rewrite Hm, Hl. case_bool_decide; cbn [negb] in Hw; injection Hw as <-; intros; by apply answers_err. }
  assert (He : name e) by (apply Hnames; left). assert (Hen : ∀ w, w ∈ es → name w) by (intros w Hin; apply Hnames; by right).
  assert (Hes : ∀ w, w ∈ es → name w ∧ nul ∉ w) by (intros w Hin; split; [by apply Hen|apply Hnul; by right]).
  assert (Hpe : ∀ w, w ∈ pes ++ [e] → name w) by (intros w [?| ->%list_elem_of_singleton]%elem_of_app; auto).
  eapply (entry_run W _ es e current mp _ (render (ROOT :: pes ++ [e])) _ budget follow s cur); try done;
    [by eapply came_next|by apply answers_oom|].
  assert (Hgo : ∀ c mp' p t, plain1 W cur e = Some c ∨ es = [] → walk W n budget c mp' es follow = Some ans → shows W t → extends s t →
      at_node W t p c → wp (walk_entries (resolve_path f) es p mp' (render (ROOT :: pes ++ [e])) c.1 budget follow) t (answers W s ans)).
  { intros c mp' p t E1 Ha Ht X Hat. eapply wp_mono; [refine (IH f budget c mp' es follow ans (pes ++ [e]) p t _ Ha Ht Hat _ (good_names es Hen) _ Hpe); [lia| |by intros w [_ ?]%Hes]|].
    - intros Hnil. destruct E1 as [E1|]; [|done]. by apply (came_by_snoc W pes cur).
    - intros. by eapply answers_later. }
  unfold plain1 in Hgo. destruct (w_mount W cur e) as [r|] eqn:Em; [intros p t; apply (Hgo (rooted W r)); [by left|done]|].
  case_bool_decide as Ed; cbn [negb] in Hw; [|injection Hw as <-; by apply answers_err].
  destruct (w_entry W cur e) as [j|] eqn:Ej; [|injection Hw as <-; intros; by apply answers_err].
  intros p t Ht X Hat. cbn [mbind option_bind] in Hgo. destruct (w_target W (cur.1, j)) as [target|] eqn:Et.
  2: { rewrite bool_decide_eq_false_2 by (by intros []). cbn [andb]. apply (Hgo (cur.1, j)); try done; [by left|by destruct (follow || _)]. }
  rewrite bool_decide_eq_true_2 by done. cbn [andb]. destruct (follow || negb (bool_decide (es = []))) eqn:Ef.
  2: { apply orb_false_iff in Ef as [_ Ef]. apply negb_false_iff, bool_decide_eq_true in Ef. apply (Hgo (cur.1, j)); try done. by right. }
  destruct f as [|f]; [lia|]. assert (Hb : ∃ a, behind_link W n budget cur mp es follow target = Some a ∧ ans = in_mount mp a).
  { destruct budget as [|b]; [injection Hw as <-; by eexists|]. cbn [behind_link].
    destruct (split_root (reduce target)) as [ws|]; [destruct (w_root W)|]; (destruct (walk W n _ _ _ _ _); [|done]) || idtac;
    injection Hw as <-; by eexists. }
  destruct Hb as (a & Ea & ->). eapply wp_mono; [by apply (behind_link_run W n f budget cur e mp es follow a pes p j target t IH); try done; lia|].
  intros res u Hres. by eapply answers_later.
Qed.

(** ** Resolution *)

(** [resolve_inode] and [resolve_inode_no_follow] on the names of an absolute path. *)
Definition locate (W : world) (n : nat) (follow : bool) (ws : list (list ascii)) : option (Result (node * list ascii)) :=
  match w_root W with
  | Some r => walk W n kMaxSymlinkDepth (rooted W r) (r_mount_path r) ws follow
  | None => Some (Err ENTRY_NOT_FOUND)
  end.
Definition resolve_any (follow : bool) (fuel : nat) (path : list ascii) : M state (Z * list ascii) :=
  if follow then resolve_inode fuel path else resolve_inode_no_follow fuel path.

Lemma resolve_run W n follow fuel path ws ans s : shows W s → (n < fuel)%nat → reduce path = ROOT :: ws → nul ∉ path →
  locate W n follow ws = Some ans → wp (resolve_any follow fuel path) s (answers W s ans).
Proof.
  intros Hs Hf Hr Hnul Hl. destruct fuel as [|fuel]; [lia|].
  assert (Hws : ∀ w, w ∈ ws → name w ∧ nul ∉ w).
  { intros w Hw. split; [|apply (reduce_nul path); [done|rewrite Hr; by right]].
    pose proof (split_normal _ (normal_reduce path)) as H. rewrite Hr in H. unfold split_root in H.
    rewrite bool_decide_eq_true_2 in H by done. by apply H. }
  assert (Hp : normalize path = Some (render (ROOT :: ws))).
  { rewrite <- Hr. apply normalize_reduce. intros ->. by cbn in Hr. }
  assert (Hgoal : wp (resolve_inode_with (resolve_path_with (resolve_path fuel)) follow path) s (answers W s ans)); [|by destruct follow].
  apply (resolve_inode_run W _ _ _ ws); try done; [by apply answers_oom| |].
  - intros Hnone. unfold locate in Hl. rewrite Hnone in Hl. injection Hl as <-. by apply answers_err.
  - intros r p t Hroot Ht X Hat. unfold locate in Hl. rewrite Hroot in Hl.
    eapply wp_mono; [|intros; by eapply answers_later].
    refine (walk_run W n fuel _ (rooted W r) _ ws follow ans [] p t _ Hl Ht Hat _ _ _ _); [lia| | | |by intros w ?%elem_of_nil].
    + intros _. split; [by intros w ?%elem_of_nil|]. by exists r.
    + apply good_names. intros w Hw. by apply Hws.
    + intros w Hw. by apply Hws.
Qed.

(** *** Relative links *)

(** No link is absolute, and none is longer than [L] entries. *)
Definition relative_links (W : world) (L : nat) : Prop :=
  ∀ n t, w_target W n = Some t → split_root (reduce t) = None ∧ (length (reduce t) <= L)%nat.
Lemma walk_ends W L follow : relative_links W L → ∀ n budget cur mp es, (length es + budget * S L < n)%nat →
  is_Some (walk W n budget cur mp es follow).
Proof.
  intros HL. induction n as [|n IH]; intros budget cur mp es Hn; [lia|]. destruct es as [|e es]; cbn [walk]; [done|]. cbn [length] in Hn.
  destruct (w_mount W cur e) as [r|]; [apply IH; lia|]. destruct (negb _); [done|]. destruct (w_entry W cur e) as [j|]; [|done].
  destruct (follow || _); [|apply IH; lia]. destruct (w_target W (cur.1, j)) as [t|] eqn:Et; [|apply IH; lia].
  destruct budget as [|budget]; [done|]. destruct (HL _ _ Et) as [-> Hlen].
  destruct (IH budget cur mp (reduce t ++ es)) as [r ->]; [rewrite length_app; lia|]. done.
Qed.


(** C38: Where no link is absolute every resolution returns, whatever loops the links make:
    with links of at most [L] entries a recursion of that depth is enough. *)
Theorem resolve_inode_returns W L follow fuel path ws (s : state) :
  shows W s → relative_links W L → reduce path = ROOT :: ws → nul ∉ path →
  (S (length ws + kMaxSymlinkDepth * S L) < fuel)%nat →
  wp (resolve_any follow fuel path) s (λ _ t, shows W t ∧ extends s t).
Proof.
  intros Hs HL Hr Hnul Hf. set (n := S (length ws + kMaxSymlinkDepth * S L)) in *.
  assert (Ha : is_Some (locate W n follow ws)).
  { unfold locate. destruct (w_root W) as [r|]; [|done]. apply (walk_ends W L); [done|lia]. }
  destruct Ha as [ans Ha]. eapply wp_mono; [by apply (resolve_run W n follow fuel path ws ans)|]. by intros r t (? & ? & _).
Qed.

End resolve.
End VfsResolve.

(** ** An example

    A file system with a directory [d], a file [d/f], the links [l] to [d/f], [a] and [s]
    to [m/g], and a second one with a file [g] that is mounted at [/m].  The link [a]
    leads to [d], or to itself by an absolute path. *)
Module VfsToy.
Import Path PathBelow Vfs VfsResolve.

Definition kind (sb i : Z) : option INodeType :=
  if sb =? 1 then
    if (i =? 1) || (i =? 2) || (i =? 7) then Some DIRECTORY
    else if i =? 3 then Some FILE
    else if (4 <=? i) && (i <=? 6) then Some SYMLINK else None
  else if sb =? 2 then if i =? 1 then Some DIRECTORY else if i =? 2 then Some FILE else None
  else None.
Definition names (sb i : Z) : list (list ascii * Z) :=
  if sb =? 1 then
    if i =? 1 then [(lit "d", 2); (lit "l", 4); (lit "a", 5); (lit "s", 6); (lit "m", 7)]
    else if i =? 2 then [(lit "f", 3)] else []
  else if sb =? 2 then if i =? 1 then [(lit "g", 2)] else [] else [].
Definition entry (sb i : Z) (e : list ascii) : option Z := (λ x, x.2.2) <$> list_find (λ x, x.1 = e) (names sb i).
Definition target (absolute : bool) (sb i : Z) : option (list ascii) :=
  if negb (sb =? 1) then None
  else if i =? 4 then Some (lit "d/f")
  else if i =? 5 then Some (if absolute then lit "/a" else lit "d")
  else if i =? 6 then Some (lit "m/g") else None.

Definition known {A} (x : option A) : M bool A := match x with Some a => mret a | None => fail ENTRY_NOT_FOUND end.
#[global] Instance toy_fs : FileSystems bool := {
  fs_new := mret true;
  fs_root _ := mret 1;
  fs_get_inode sb i := known (kind sb i);
  fs_cached _ _ _ := true;
  fs_is_symlink sb i := gets (λ a, bool_decide (is_Some (target a sb i)));
  fs_readlink sb i := λ a, known (target a sb i) a;
  fs_sync _ := mret tt;
  fs_lookup sb i e := known (entry sb i e);
  fs_mkfile _ _ _ := mret 3;
  fs_mkdir _ _ _ := fail NOT_SUPPORTED;
  fs_symlink _ _ _ _ := fail NOT_SUPPORTED;
  fs_unlink _ _ _ := fail NOT_SUPPORTED;
  fs_rmdir _ _ _ := fail NOT_SUPPORTED;
  fs_link _ _ _ _ := fail NOT_SUPPORTED;
  fs_rename _ _ _ _ _ _ := fail NOT_SUPPORTED;
  fs_entry_count sb i := mret (Z.of_nat (length (names sb i)));
  fs_entry_at sb i n := known (fst <$> names sb i !! Z.to_nat n);
  fs_dir_sync _ _ := mret tt;
  fs_getattr _ _ := fail NOT_SUPPORTED;
  fs_setattr _ _ _ _ := fail NOT_SUPPORTED;
  fs_mount _ _ _ := mret 2;
  fs_unmount _ _ := mret tt;
  blk_lookup _ := mret tt;
  blk_sync _ := mret tt;
  pc_flush _ := mret tt;
  pc_invalidate _ := mret tt;
  pc_size _ := mret 0;
}.

Lemma entry_listed sb i e j : entry sb i e = Some j → (e, j) ∈ names sb i.
Proof.
  unfold entry. destruct (list_find _ _) as [[k [e' j']]|] eqn:E; [|done]. cbn. intros [= <-].
  apply list_find_Some in E as (E & <- & _). by eapply list_elem_of_lookup_2.
Qed.
Lemma names_fine sb i e j : (e, j) ∈ names sb i → is_Some (kind sb j) ∧ e ≠ DOTDOT.
Proof.
  unfold names. repeat case_match; zify_bools; subst; rewrite ?elem_of_cons, elem_of_nil; intros Hin;
    destruct_or?; simplify_eq; split; (by eexists) || done.
Qed.
#[global, program] Instance toy_laws : FsLaws bool := {
  fl_inv _ := True;
  fl_live _ sb := sb = 1 ∨ sb = 2;
  fl_root _ _ := 1;
  fl_kind _ := kind;
  fl_entry _ := entry;
  fl_target := target;
}.
Next Obligation. intros f. exists true, f. done. Qed.
Next Obligation. intros f sb _ _. by exists f. Qed.
Next Obligation. intros f sb i k _ _ E. exists f. cbn. by rewrite E. Qed.
Next Obligation. intros f sb i e _ _ _. exists f. cbn. by destruct (entry sb i e). Qed.
Next Obligation. intros f sb i k _ _ _. by exists f. Qed.
Next Obligation. intros f sb i t _ _ E. exists f. cbn in *. by rewrite E. Qed.
Next Obligation. intros f sb _ [->| ->]; by eexists. Qed.
Next Obligation. intros f sb i e j _ _ E. by apply (names_fine sb i e), entry_listed. Qed.
Next Obligation.
  intros f sb i _ _. destruct (entry sb i DOTDOT) as [j|] eqn:E; [|done]. by apply entry_listed, names_fine in E as [_ ?].
Qed.
Next Obligation.
  intros f sb i t _ _. cbn. unfold target. repeat case_match; intros [= <-]; by apply (bool_decide_unpack _).
Qed.

Definition root_record : MountRecord := mkRecord 0 ROOT ROOT 1 0 false 0 None.
Definition m_record : MountRecord := mkRecord 11 (lit "m") (lit "/m") 2 7 true 0 None.
Definition toy (absolute : bool) : @vfs bool := mkVfs {[lit "toy" := false]}
  {[root_key := root_record; (11, lit "m") := m_record]} ∅
  {[1 := mkVsb 1 (lit "toy") {[1 := 11]}; 2 := mkVsb 2 (lit "toy") ∅]}
  {[11 := mkVINode 1 (lit "toy") 1 DIRECTORY 2]} ∅ ∅ ∅ 20 absolute.
Definition toy_world (absolute : bool) : world := mkWorld (Some root_record)
  (λ n e, if bool_decide (n = (1, 1)) && bool_decide (e = lit "m") then Some m_record else None)
  (λ _, 1) (λ n, kind n.1 n.2) (λ n, entry n.1 n.2) (λ n, target absolute n.1 n.2).
Lemma toy_shows absolute : shows (toy_world absolute) (toy absolute).
Proof.
  assert (Hvsb : ∀ b x, vsbs (toy absolute) !! b = Some x →
    b = 1 ∧ x = mkVsb 1 (lit "toy") {[1 := 11]} ∨ b = 2 ∧ x = mkVsb 2 (lit "toy") ∅).
  { intros b x. cbn. intros [[<- <-]|[_ [<- <-]%lookup_singleton_Some]]%lookup_insert_Some; auto. }
  split.
  - done.
  - intros b x [[-> ->]|[-> ->]]%Hvsb; (split; [lia|split; [by (left + right)|done]]).
  - intros b x i p [[-> ->]|[-> ->]]%Hvsb; [|done]. cbn. intros [<- <-]%lookup_singleton_Some.
    eexists. split; [done|]. split_and!; [done|done|]. intros e.
    cbn. rewrite (bool_decide_eq_true_2 ((1, 1) = (1, 1))) by done. cbn [andb]. case_bool_decide as Ee; [by subst|]. rewrite lookup_insert_ne, lookup_singleton_ne; [done| |done]. congruence.
  - intros b x i e [[-> ->]|[-> ->]]%Hvsb; cbn; [|done]. intros Hi%lookup_singleton_None.
    rewrite bool_decide_eq_false_2 by congruence. done.
  - intros p v. cbn. intros [<- <-]%lookup_singleton_Some. split; [lia|split; [by eexists|done]].
  - done.
  - intros p e r. cbn. intros [[[= <- <-] <-]|[_ [[= <- <-] <-]%lookup_singleton_Some]]%lookup_insert_Some;
      (split; [lia|split; [by eexists|done]]).
  - done.
Qed.


Lemma toy_relative : relative_links (toy_world false) 2.
Proof.
  intros [b i] t. cbn. unfold target. repeat case_match; intros [= <-]; (split; [done|]); vm_compute; lia.
Qed.
Lemma resolve_inode_returns_witness :
  wp (resolve_any false 100 (lit "/a")) (toy false) (λ _ t, shows (toy_world false) t ∧ extends (toy false) t).
Proof.
  apply (resolve_inode_returns (toy_world false) 2 false 100 (lit "/a") [lit "a"] (toy false)).
  - apply toy_shows.
  - apply toy_relative.
  - done.
  - by apply (bool_decide_unpack _).
  - vm_compute. lia.
Defined.

(** A link that leads to itself by an absolute path is followed for ever: every round
    starts with a fresh budget of links. *)
Lemma absolute_loop_never_ends fuel : resolve_inode fuel (lit "/a") (toy true) = OutOfFuel.
Proof.
  set (looping := mkVfs (fs_table (toy true)) (mount_table (toy true)) ∅
    (<[1 := mkVsb 1 (lit "toy") {[5 := 20; 1 := 11]}]> (vsbs (toy true)))
    (<[20 := mkVINode 1 (lit "toy") 5 SYMLINK 1]> (vnodes (toy true))) ∅ ∅ ∅ 21 true).
  assert (Hround : ∀ s (rp : @resolver bool), s = toy true ∨ s = looping →
    resolve_inode_with rp true (lit "/a") looping = OutOfFuel → resolve_inode_with (resolve_path_with rp) true (lit "/a") s = OutOfFuel).
  { intros s rp [->| ->] H; revert H; vm_compute; match goal with |- ?o = _ → _ => generalize o end; by intros ? ->. }
  assert (Hloop : ∀ n, resolve_inode_with (resolve_path n) true (lit "/a") looping = OutOfFuel).
  { induction n as [|n IH]; [by vm_compute|]. cbn [resolve_path]. apply Hround; [by right|exact IH]. }
  unfold resolve_inode. destruct fuel as [|fuel]; [by vm_compute|]. cbn [resolve_path].
  apply Hround; [by left|apply Hloop].
Qed.

(** A file that is opened over a link into another mount counts as open in the mount of
    the link: its own can be unmounted, and closing the file then uses the superblock
    that is gone. *)
Lemma open_over_link_dangles :
  match public (open_abs 9 (Some (lit "/s")) (Ok 0)) (toy false) with
  | Fin (Ok (_, h, _)) s =>
      r_active_files <$> mount_table s !! (11, lit "m") = Some 0 ∧
      match public (umount 9 (lit "/m")) s with
      | Fin (Ok _) t => is_Some (files t !! h) ∧ public (file_destruct h) t = Panic
      | _ => False
      end
  | _ => False
  end.
Proof. vm_compute. by split_and!; [|eexists|]. Qed.

(** Opening with [O_CREAT] goes on with the directory object that refreshing the
    directory has deleted. *)
Lemma create_uses_deleted_directory :
  open_file_at 9 11 ROOT (Some (lit "x")) (Z.lor O_WRITE O_CREAT) (toy false) = Panic.
Proof. by vm_compute. Qed.

(** [umount] by path forgets the mount capability: it stays mounted, and its root is read
    from the superblock that is gone. *)
Lemma umount_dangles_capability :
  match (m ← create_mount (Some (lit "toy")) true 1 0 None;
         _ ← mount_attach 9 m (mkVDir 11 root_key ROOT) (Some (lit "d")) 0;
         _ ← umount 9 (lit "/d"); mret m) (toy false) with
  | Fin (Ok m) s => m_status <$> vmounts s !! m = Some MOUNTED ∧ mount_root 9 m (Ok 0) s = Panic
  | _ => False
  end.
Proof. vm_compute. by split. Qed.

End VfsToy.
