(* ===== verification/VfsMounts.v ===== *)
(** * Open files and mounts

    Each mount counts the files and directories that are open in it, and each mount
    capability repeats the count of its mount; unmounting goes by them.  This file runs the
    calls of users in any order and shows that the counts are exact, so that no handle
    outlives its mount.

    Most routines change none of handles, mounts and mount capabilities ([quiet]). *)

From Stdlib Require Import Ascii.
From S2P Require Import Prelude ErrCode Capability Path PathBelow TmpFs Vfs VfsResolve.
Import TmpFs(INodeType, FILE, DIRECTORY, SYMLINK, INodeType_eq_dec).

#[local] Open Scope Z_scope.

Create HintDb quiet discriminated.

Module VfsMounts.
Import Path PathBelow Vfs.

(** The values of a map with a given key. *)
Definition count {A} (key : A → MountKey) (k : MountKey) (m : gmap Z A) : nat := size (filter (λ x, key x.2 = k) m).
Definition one_if (P : Prop) `{Decision P} : nat := if decide P then 1%nat else 0%nat.
Lemma count_insert {A} key k (m : gmap Z A) h a : m !! h = None →
  count key k (<[h := a]> m) = (one_if (key a = k) + count key k m)%nat.
Proof.
  intros E. unfold count, one_if. destruct (decide (key a = k)) as [Hk|Hk].
  - rewrite map_filter_insert_True by done. rewrite map_size_insert_None; [done|]. apply map_lookup_filter_None. by left.
  - rewrite map_filter_insert_False by done. by rewrite delete_id.
Qed.
Lemma count_delete {A} key k (m : gmap Z A) h a : m !! h = Some a →
  count key k m = (one_if (key a = k) + count key k (delete h m))%nat.
Proof. intros E. rewrite <- (insert_delete_id m h a) at 1 by done. by rewrite count_insert by apply lookup_delete_eq. Qed.
Lemma count_none {A} key k (m : gmap Z A) : (∀ h a, m !! h = Some a → key a ≠ k) → count key k m = 0%nat.
Proof.
  intros H. unfold count. rewrite map_empty_filter_2; [done|]. intros h a E. by apply (H h).
Qed.
Lemma count_size {A} key k (m : gmap Z A) : (count key k m <= size m)%nat.
Proof. unfold count. apply map_subseteq_size, map_filter_subseteq. Qed.

Section mounts.
Context {F : Type} `{!FileSystems F}.

#[local] Abbreviation state := (@vfs F).

(** ** Quiet routines *)

Record same (s t : state) : Prop := {
  sm_mounts : mount_table t = mount_table s;
  sm_files : files t = files s;
  sm_dirs : dirs t = dirs s;
  sm_vmounts : vmounts t = vmounts s;
  sm_next : next_ptr s <= next_ptr t;
}.
#[global] Instance same_preorder : PreOrder same.
Proof. split; [intros s; split; done || lia|]. intros s t u [] []. split; congruence || lia. Qed.

Definition quiet {A} (m : M state A) : Prop := ∀ s r t, m s = Fin r t → same s t.

Lemma bind_inv {A B} (m : M state A) (k : A → M state B) s r t : (m ≫= k) s = Fin r t →
  (∃ a u, m s = Fin (Ok a) u ∧ k a u = Fin r t) ∨ ∃ e, m s = Fin (Err e) t ∧ r = Err e.
Proof.
  unfold mbind, M_bind. destruct (m s) as [[a|e] u| |]; [left; by exists a, u| |done|done]. intros [= <- ->]. right. by exists e.
Qed.
Lemma quiet_bind {A B} (m : M state A) (k : A → M state B) : quiet m → (∀ a, quiet (k a)) → quiet (m ≫= k).
Proof. intros Hm Hk s r t [(a & u & E1 & E2)|(e & E & _)]%bind_inv; [|by eapply Hm]. etrans; [by eapply Hm|by eapply Hk]. Qed.
Lemma quiet_ret {A} (a : A) : quiet (mret a : M state A).
Proof. by intros s r t [= _ <-]. Qed.
Lemma quiet_fail {A} e : quiet (fail e : M state A).
Proof. by intros s r t [= _ <-]. Qed.
Lemma quiet_panic {A} : quiet (panic : M state A).
Proof. by intros s r t. Qed.
Lemma quiet_no_fuel {A} : quiet (no_fuel : M state A).
Proof. by intros s r t. Qed.
Lemma quiet_gets {A} (f : state → A) : quiet (gets f).
Proof. by intros s r t [= _ <-]. Qed.
Lemma quiet_of_result {A} (x : Result A) : quiet (of_result x : M state A).
Proof. by intros s r t [= _ <-]. Qed.
Lemma quiet_attempt {A} (m : M state A) : quiet m → quiet (attempt m).
Proof. intros Hm s r t. unfold attempt. destruct (m s) as [x u| |] eqn:E; [|done|done]. intros [= _ <-]. by eapply Hm. Qed.
Lemma quiet_with_fs {A} (m : M F A) : quiet (with_fs m).
Proof. intros s r t. unfold with_fs. destruct (m (fs s)); [|done|done]. by intros [= _ <-]. Qed.
Lemma quiet_modify f : (∀ s : state, same s (f s)) → quiet (modify f).
Proof. by intros H s r t [= _ <-]. Qed.
Lemma quiet_vnodes f : quiet (modify (set_vnodes f)).
Proof. apply quiet_modify. by intros s. Qed.
Lemma quiet_vsbs f : quiet (modify (set_vsbs f)).
Proof. apply quiet_modify. by intros s. Qed.
Lemma quiet_pseudo f : quiet (modify (set_pseudo_mounts f)).
Proof. apply quiet_modify. by intros s. Qed.
Lemma quiet_fs_table f : quiet (modify (set_fs_table f)).
Proof. apply quiet_modify. by intros s. Qed.
Lemma quiet_fresh : quiet fresh.
Proof. intros s r t. unfold fresh, gets, modify, mbind, M_bind. intros [= _ <-]. split; [done..|cbn; lia]. Qed.
Lemma quiet_returned {A} (x : option A) : quiet (returned x : M state A).
Proof. destruct x; [apply quiet_ret|apply quiet_no_fuel]. Qed.
Lemma quiet_at_ptr {A} (x : option A) : quiet (at_ptr x : M state A).
Proof. destruct x; [apply quiet_ret|apply quiet_panic]. Qed.
End mounts.

#[export] Hint Resolve quiet_ret quiet_fail quiet_panic quiet_no_fuel quiet_gets quiet_of_result quiet_with_fs quiet_vnodes
  quiet_vsbs quiet_pseudo quiet_fs_table quiet_fresh quiet_returned quiet_at_ptr : quiet.

(** Runs through the routine, with the lemmas of those it calls. *)
Ltac quiet :=
  intros; repeat (cbn beta iota zeta; match goal with
  | |- quiet (_ ≫= _) => apply quiet_bind; [|intro]
  | |- quiet (attempt _) => apply quiet_attempt
  | |- quiet (match ?x with _ => _ end) => destruct x
  | |- quiet _ => solve [auto with quiet]
  end).

Section quiet.
Context {F : Type} `{!FileSystems F}.
#[local] Abbreviation state := (@vfs F).

Lemma quiet_vnode p : quiet (vnode p : M state _).
Proof. unfold vnode. quiet. Qed.
Lemma quiet_vsb p : quiet (vsb p : M state _).
Proof. unfold vsb. quiet. Qed.
Lemma quiet_record_at k : quiet (record_at k : M state _).
Proof. unfold record_at. quiet. Qed.
Lemma quiet_vmount p : quiet (vmount p : M state _).
Proof. unfold vmount. quiet. Qed.
Hint Resolve quiet_vnode quiet_vsb quiet_record_at quiet_vmount : quiet.
Lemma quiet_each {A} (f : A → M state unit) l : (∀ a, quiet (f a)) → quiet (each f l).
Proof. intros Hf. induction l; cbn [each]; quiet. Qed.
Lemma quiet_keep p : quiet (keep p : M state _).
Proof. unfold keep. quiet. Qed.
Lemma quiet_release p : quiet (release p : M state _).
Proof. unfold release. quiet. Qed.
Lemma quiet_delete_vnode p : quiet (delete_vnode p : M state _).
Proof. unfold delete_vnode. quiet. Qed.
Hint Resolve quiet_keep quiet_release quiet_delete_vnode : quiet.
Lemma quiet_bury p : quiet (bury p : M state _).
Proof. unfold bury. quiet. Qed.
Lemma quiet_reap : quiet (reap : M state _).
Proof. unfold reap. quiet. apply quiet_each. quiet. Qed.
Lemma quiet_inode_of p : quiet (inode_of p : M state _).
Proof. unfold inode_of. quiet. Qed.
Hint Resolve quiet_bury quiet_reap quiet_inode_of : quiet.
Lemma quiet_in_dir {A} p (op : Z → Z → M F A) : quiet (in_dir p op).
Proof. unfold in_dir. quiet. Qed.
Lemma quiet_as_kind k p : quiet (as_kind k p : M state _).
Proof. unfold as_kind. quiet. Qed.
Hint Resolve quiet_in_dir quiet_as_kind : quiet.
Lemma quiet_as_directory p : quiet (as_directory p : M state _).
Proof. unfold as_directory. quiet. Qed.
Lemma quiet_as_file p : quiet (as_file p : M state _).
Proof. unfold as_file. quiet. Qed.
Lemma quiet_get_vnode b i : quiet (get_vnode b i : M state _).
Proof. unfold get_vnode. quiet. Qed.
Lemma quiet_vnode_invalidate p : quiet (vnode_invalidate p : M state _).
Proof. unfold vnode_invalidate. quiet. Qed.
Hint Resolve quiet_as_directory quiet_as_file quiet_get_vnode quiet_vnode_invalidate : quiet.
Lemma quiet_invalidate_inode b i : quiet (invalidate_inode b i : M state _).
Proof. unfold invalidate_inode. quiet. Qed.
Lemma quiet_evict_inode b i : quiet (evict_inode b i : M state _).
Proof. unfold evict_inode. quiet. Qed.
Lemma quiet_cached b : quiet (cached_vnodes b : M state _).
Proof. unfold cached_vnodes. quiet. Qed.
Hint Resolve quiet_invalidate_inode quiet_evict_inode quiet_cached : quiet.
Lemma quiet_flush b : quiet (flush_file_pages b : M state _).
Proof. unfold flush_file_pages. quiet. apply quiet_each. quiet. Qed.
Hint Resolve quiet_flush : quiet.
Lemma quiet_delete_vsb b : quiet (delete_vsb b : M state _).
Proof. unfold delete_vsb. quiet. apply quiet_each. quiet. Qed.
Lemma quiet_norm p : quiet (norm p : M state _).
Proof. unfold norm. quiet. Qed.
Lemma quiet_lookup_record k : quiet (lookup_mount_record k : M state _).
Proof. unfold lookup_mount_record. quiet. Qed.
Lemma quiet_root_vnode b : quiet (root_vnode b : M state _).
Proof. unfold root_vnode. quiet. Qed.
Hint Resolve quiet_delete_vsb quiet_norm quiet_lookup_record quiet_root_vnode : quiet.

(** *** Resolution *)

Section with_resolver.
Context (rp : @resolver F) (Hrp : ∀ base mp bp p b n follow, quiet (rp base mp bp p b n follow)).
Lemma quiet_resolve_inode_with follow p : quiet (resolve_inode_with rp follow p).
Proof using Hrp. unfold resolve_inode_with. quiet. Qed.
Hint Resolve quiet_resolve_inode_with : quiet.
Lemma quiet_follow_with v p q n follow : quiet (follow_symlink_with rp v p q n follow).
Proof using Hrp. unfold follow_symlink_with. quiet. Qed.
Hint Resolve quiet_follow_with : quiet.
Lemma quiet_remaining p es : quiet (remaining_from p es : M state _).
Proof using. revert p. induction es; cbn [remaining_from]; quiet. Qed.
Hint Resolve quiet_remaining : quiet.
Lemma quiet_walk_entries es : ∀ cur mp cp b n follow, quiet (walk_entries rp es cur mp cp b n follow).
Proof using Hrp. induction es; cbn [walk_entries]; quiet. Qed.
Hint Resolve quiet_walk_entries : quiet.
Lemma quiet_resolve_path_with base mp bp p b n follow : quiet (resolve_path_with rp base mp bp p b n follow).
Proof using Hrp. unfold resolve_path_with. quiet. Qed.
End with_resolver.
Lemma quiet_resolve_path fuel base mp bp p b n follow : quiet (resolve_path fuel base mp bp p b n follow : M state _).
Proof. revert base mp bp p b n follow. induction fuel; cbn [resolve_path]; [quiet|]. by apply quiet_resolve_path_with. Qed.
Hint Resolve quiet_resolve_path : quiet.
Lemma quiet_resolve_inode fuel p : quiet (resolve_inode fuel p : M state _).
Proof. apply quiet_resolve_inode_with. quiet. Qed.
Lemma quiet_resolve_no_follow fuel p : quiet (resolve_inode_no_follow fuel p : M state _).
Proof. apply quiet_resolve_inode_with. quiet. Qed.
Lemma quiet_follow fuel v p q n follow : quiet (follow_symlink fuel v p q n follow : M state _).
Proof. apply quiet_follow_with. quiet. Qed.
Hint Resolve quiet_resolve_inode quiet_resolve_no_follow quiet_follow : quiet.

Lemma quiet_build_key fuel p : quiet (build_mount_key fuel p : M state _).
Proof. unfold build_mount_key. quiet. Qed.
Hint Resolve quiet_build_key : quiet.
Lemma quiet_parent_entries fuel es : ∀ cur cp b follow create, quiet (parent_entries fuel es cur cp b follow create : M state _).
Proof. induction es; cbn [parent_entries]; quiet. Qed.
Hint Resolve quiet_parent_entries : quiet.
Lemma quiet_resolve_parent fuel base bp p b follow create : quiet (resolve_parent_directory fuel base bp p b follow create : M state _).
Proof. unfold resolve_parent_directory. quiet. Qed.
Hint Resolve quiet_resolve_parent : quiet.
Lemma quiet_ensure fuel p : quiet (ensure_mountpoint_path fuel p : M state _).
Proof. unfold ensure_mountpoint_path. quiet. Qed.
Lemma quiet_global_target d p : quiet (global_target_path d p : M state _).
Proof. unfold global_target_path. quiet. Qed.
Lemma quiet_contains k : quiet (contains k : M state _).
Proof. unfold contains. quiet. Qed.
Lemma quiet_find_driver n : quiet (find_driver n : M state _).
Proof. unfold find_driver. quiet. Qed.
Lemma quiet_new_vsb sb n : quiet (new_vsb sb n : M state _).
Proof. unfold new_vsb. quiet. Qed.
Lemma quiet_keep_parent p : quiet (keep_parent p : M state _).
Proof. unfold keep_parent. quiet. Qed.
Lemma quiet_release_parent p : quiet (release_parent p : M state _).
Proof. unfold release_parent. quiet. Qed.
Lemma quiet_sync_record r : quiet (sync_record r : M state _).
Proof. unfold sync_record. quiet. Qed.
Hint Resolve quiet_ensure quiet_global_target quiet_contains quiet_find_driver quiet_new_vsb quiet_keep_parent
  quiet_release_parent quiet_sync_record : quiet.
Lemma quiet_mount_point fuel p : quiet (mount_point fuel p : M state _).
Proof. unfold mount_point. quiet. Qed.
Lemma quiet_parent_dir c : quiet (parent_dir c : M state _).
Proof. unfold parent_dir. quiet. Qed.
Lemma quiet_parse p : quiet (parse_create_target p : M state _).
Proof. unfold parse_create_target. quiet. Qed.
Lemma quiet_mount_path_of b : quiet (mount_path_of b : M state _).
Proof. unfold mount_path_of. quiet. Qed.
Lemma quiet_record_of fuel p : quiet (mount_record_of fuel p : M state _).
Proof. unfold mount_record_of. quiet. Qed.
Hint Resolve quiet_mount_point quiet_parent_dir quiet_parse quiet_mount_path_of quiet_record_of : quiet.
Lemma quiet_create_parent fuel d p : quiet (create_parent fuel d p : M state _).
Proof. unfold create_parent. quiet. Qed.
Lemma quiet_node_of c : quiet (node_of c : M state _).
Proof. unfold node_of. quiet. Qed.
Lemma quiet_resolve_at fuel c p follow : quiet (resolve_at fuel c p follow : M state _).
Proof. unfold resolve_at. quiet. Qed.
Hint Resolve quiet_create_parent quiet_node_of quiet_resolve_at : quiet.

(** *** Calls that only work in file systems *)

Lemma quiet_unlink fuel c p : quiet (unlink fuel c p : M state _).
Proof. unfold unlink. quiet. Qed.
Lemma quiet_rmdir fuel c p : quiet (rmdir fuel c p : M state _).
Proof. unfold rmdir. quiet. Qed.
Lemma quiet_link fuel c p d : quiet (link fuel c p d : M state _).
Proof. unfold link. quiet. Qed.
Lemma quiet_rename fuel c p d q : quiet (rename fuel c p d q : M state _).
Proof. unfold rename. quiet. Qed.
Lemma quiet_symlink fuel c p q : quiet (symlink fuel c p q : M state _).
Proof. unfold symlink. quiet. Qed.
Lemma quiet_readlink fuel c p b n : quiet (readlink fuel c p b n : M state _).
Proof. unfold readlink. quiet. Qed.
Lemma quiet_entries_at n : ∀ i d, quiet (entries_at n i d : M state _).
Proof. induction n; cbn [entries_at]; quiet. Qed.
Hint Resolve quiet_entries_at : quiet.
Lemma quiet_getdents d : quiet (getdents d : M state _).
Proof. unfold getdents, append_mount_entries. quiet. Qed.
Lemma quiet_is_kind k p : quiet (is_kind k p : M state _).
Proof. unfold is_kind. quiet. Qed.
Lemma quiet_devno_of b : quiet (devno_of b : M state _).
Proof. unfold devno_of. quiet. Qed.
Hint Resolve quiet_is_kind quiet_devno_of : quiet.
Lemma quiet_stat p : quiet (stat_from_vinode p : M state _).
Proof. unfold stat_from_vinode. quiet. Qed.
Lemma quiet_setattr c mask a : quiet (setattr c mask a : M state _).
Proof. unfold setattr. quiet. Qed.
Hint Resolve quiet_stat quiet_setattr : quiet.
Lemma quiet_register n b : quiet (register_fs n b : M state _).
Proof. unfold register_fs. quiet. Qed.
Lemma quiet_unregister n : quiet (unregister_fs n : M state _).
Proof. unfold unregister_fs. quiet. Qed.

(** ** Exact counts *)

(** The handles that are open in a mount. *)
Definition handles (s : state) (k : MountKey) : Z :=
  Z.of_nat (count f_mount_record k (files s) + count d_mount_record k (dirs s)).

Record counted (s : state) : Prop := {
  ct_count k r : mount_table s !! k = Some r → r_active_files r = handles s k;
  ct_file h f : files s !! h = Some f → h < next_ptr s ∧ is_Some (mount_table s !! f_mount_record f);
  ct_dir h d : dirs s !! h = Some d → h < next_ptr s ∧ is_Some (mount_table s !! d_mount_record d);
  ct_cap k r m : mount_table s !! k = Some r → r_mount_cap r = Some m →
    ∃ x, vmounts s !! m = Some x ∧ m_status x = MOUNTED ∧ m_active_files x = r_active_files r;
  ct_own k k' r r' m : mount_table s !! k = Some r → mount_table s !! k' = Some r' →
    r_mount_cap r = Some m → r_mount_cap r' = Some m → k = k';
  ct_mount m x : vmounts s !! m = Some x → m < next_ptr s;
}.
Lemma same_counted s t : same s t → counted s → counted t.
Proof.
  intros [Em Ef Ed Ev Hn] [H1 H2 H3 H4 H5 H6]. split; rewrite ?Em, ?Ef, ?Ed, ?Ev; try done.
  - intros k r E. unfold handles. rewrite Ef, Ed. by apply H1.
  - intros h f E. destruct (H2 h f E). split; [lia|done].
  - intros h d E. destruct (H3 h d E). split; [lia|done].
  - intros m x E. specialize (H6 m x E). lia.
Qed.
(** A handle more or less in the mount [k], which then counts [n]. *)
Lemma counted_put s t k n r : counted s → mount_table s !! k = Some r →
  mount_table t = <[k := set_active n r]> (mount_table s) →
  vmounts t = match r_mount_cap r with None => vmounts s | Some m => alter (mount_set_active n) m (vmounts s) end →
  next_ptr s <= next_ptr t → (∀ k', handles t k' = if decide (k' = k) then n else handles s k') →
  (∀ h f, files t !! h = Some f → h < next_ptr t ∧ is_Some (mount_table s !! f_mount_record f)) →
  (∀ h d, dirs t !! h = Some d → h < next_ptr t ∧ is_Some (mount_table s !! d_mount_record d)) → counted t.
Proof.
  intros Hs Ek Em Ev Hn Hh Hf Hd. assert (Hk : ∀ k' r', mount_table t !! k' = Some r' →
    (k' = k ∧ r' = set_active n r ∨ k' ≠ k ∧ mount_table s !! k' = Some r') ∧ r_active_files r' = handles t k').
  { intros k' r'. rewrite Em, Hh. intros [[<- <-]|[Hne E]]%lookup_insert_Some; [by rewrite decide_True; auto|].
    rewrite decide_False by done. split; [by right|]. by apply (ct_count _ Hs). }
  assert (Hold : ∀ k' r', mount_table t !! k' = Some r' → ∃ r0, mount_table s !! k' = Some r0 ∧ r_mount_cap r' = r_mount_cap r0).
  { intros k' r' E. destruct (Hk k' r' E) as [[[-> ->]|[_ E']] _]; [by exists r|by exists r']. }
  split.
  - intros k' r' E. by apply Hk.
  - intros h f E. destruct (Hf h f E). split; [done|]. rewrite Em. rewrite lookup_insert_is_Some'. by right.
  - intros h d E. destruct (Hd h d E). split; [done|]. rewrite Em. rewrite lookup_insert_is_Some'. by right.
  - intros k' r' m E Hm. rewrite Ev. destruct (Hk k' r' E) as [[[-> ->]|[Hne E']] _].
    + change (r_mount_cap (set_active n r)) with (r_mount_cap r) in Hm. rewrite Hm. destruct (ct_cap _ Hs k r m Ek Hm) as (x & Ex & Hx & _).
      exists (mount_set_active n x). rewrite lookup_alter_eq, Ex. done.
    + destruct (ct_cap _ Hs k' r' m E' Hm) as (x & Ex & Hx). exists x. split; [|done].
      destruct (r_mount_cap r) as [m'|] eqn:Em'; [|done]. rewrite lookup_alter_ne; [done|]. intros ->. apply Hne. by apply (ct_own _ Hs k' k r' r m).
  - intros k1 k2 r1 r2 m E1 E2 Hm1 Hm2. destruct (Hold _ _ E1) as (q1 & F1 & G1), (Hold _ _ E2) as (q2 & F2 & G2).
    apply (ct_own _ Hs k1 k2 q1 q2 m); congruence.
  - intros m x E. rewrite Ev in E. assert (is_Some (vmounts s !! m)) as [y Ey].
    { destruct (r_mount_cap r) as [m'|]; [|by eexists]. by apply lookup_alter_is_Some with (f := mount_set_active n) (i := m'). }
    pose proof (ct_mount _ Hs m y Ey). lia.
Qed.
(** A new mount. *)
Lemma counted_mount s t k r : counted s → mount_table s !! k = None → r_active_files r = 0 →
  mount_table t = <[k := r]> (mount_table s) → files t = files s → dirs t = dirs s → next_ptr s <= next_ptr t →
  (∀ m x, vmounts t !! m = Some x → m < next_ptr t) →
  (∀ m x, r_mount_cap r ≠ Some m → vmounts s !! m = Some x → vmounts t !! m = Some x) →
  (∀ m, r_mount_cap r = Some m → (∃ x, vmounts t !! m = Some x ∧ m_status x = MOUNTED ∧ m_active_files x = 0) ∧
    ∀ k' r', mount_table s !! k' = Some r' → r_mount_cap r' ≠ Some m) → counted t.
Proof.
  intros Hs Ek Hr Em Ef Ed Hn Hv Hold Hcap. split.
  - intros k' r'. rewrite Em. unfold handles. rewrite Ef, Ed. intros [[<- <-]|[_ E]]%lookup_insert_Some; [|by apply (ct_count _ Hs)].
    rewrite !count_none; [done|..].
    + intros h d E <-. destruct (ct_dir _ Hs h d E) as [_ [? E']]. by rewrite E' in Ek.
    + intros h f E <-. destruct (ct_file _ Hs h f E) as [_ [? E']]. by rewrite E' in Ek.
  - intros h f. rewrite Ef, Em. intros E. destruct (ct_file _ Hs h f E). split; [lia|]. rewrite lookup_insert_is_Some'. by right.
  - intros h d. rewrite Ed, Em. intros E. destruct (ct_dir _ Hs h d E). split; [lia|]. rewrite lookup_insert_is_Some'. by right.
  - intros k' r' m. rewrite Em. intros [[<- <-]|[_ E]]%lookup_insert_Some Hm.
    + destruct (Hcap m Hm) as [(x & ?) _]. exists x. by rewrite Hr.
    + destruct (ct_cap _ Hs k' r' m E Hm) as (x & Ex & ?). exists x. split; [|done]. apply Hold; [|done].
      intros Hm'. destruct (Hcap m Hm') as [_ Hno]. by apply (Hno k' r' E).
  - intros k1 k2 r1 r2 m. rewrite Em. intros [[<- <-]|[_ E1]]%lookup_insert_Some [[<- <-]|[_ E2]]%lookup_insert_Some Hm1 Hm2; [done|..].
    + destruct (Hcap m Hm1) as [_ Hno]. by destruct (Hno k2 r2 E2).
    + destruct (Hcap m Hm2) as [_ Hno]. by destruct (Hno k1 r1 E1).
    + by apply (ct_own _ Hs k1 k2 r1 r2 m).
  - done.
Qed.
(** One mount less, in which nothing is open. *)
Lemma counted_unmount s t k : counted s → handles s k = 0 → same (set_mount_table (delete k) s) t → counted t.
Proof.
  intros Hs Hk H. apply (same_counted _ _ H). clear t H. unfold handles in Hk. split; cbn.
  - intros k' r' [_ E]%lookup_delete_Some. exact (ct_count _ Hs k' r' E).
  - intros h f E. destruct (ct_file _ Hs h f E) as [? Hr]. split; [done|]. rewrite lookup_delete_ne; [done|]. intros ->.
    rewrite (count_delete f_mount_record _ (files s) h f E) in Hk. unfold one_if in Hk. rewrite decide_True in Hk by done. lia.
  - intros h d E. destruct (ct_dir _ Hs h d E) as [? Hr]. split; [done|]. rewrite lookup_delete_ne; [done|]. intros ->.
    rewrite (count_delete d_mount_record _ (dirs s) h d E) in Hk. unfold one_if in Hk. rewrite decide_True in Hk by done. lia.
  - intros k' r' m [_ E]%lookup_delete_Some. exact (ct_cap _ Hs k' r' m E).
  - intros k1 k2 r1 r2 m [_ E1]%lookup_delete_Some [_ E2]%lookup_delete_Some. exact (ct_own _ Hs k1 k2 r1 r2 m E1 E2).
  - by apply (ct_mount _ Hs).
Qed.
(** The capability of no mount. *)
Lemma counted_vmount s m x : counted s → m < next_ptr s → (∀ k r, mount_table s !! k = Some r → r_mount_cap r ≠ Some m) →
  counted (set_vmounts (insert m x) s).
Proof.
  intros Hs Hm Hno. split; cbn; [apply (ct_count _ Hs)|apply (ct_file _ Hs)|apply (ct_dir _ Hs)| |apply (ct_own _ Hs)|].
  - intros k r m' E Hc. destruct (ct_cap _ Hs k r m' E Hc) as (y & Ey & ?). exists y. split; [|done].
    rewrite lookup_insert_ne; [done|]. intros ->. by apply (Hno k r).
  - intros m' y [[<- _]|[_ E]]%lookup_insert_Some; [done|]. by apply (ct_mount _ Hs m' y).
Qed.
(** ** The calls that open and close *)

(** What the routine leaves is counted. *)
Definition leaves {A} (m : M state A) (s : state) : Prop := ∀ r t, m s = Fin r t → counted t.
Lemma leaves_quiet {A} (m : M state A) s : quiet m → counted s → leaves m s.
Proof. intros Hm Hs r t E. eapply same_counted; [by eapply Hm|done]. Qed.
Lemma leaves_bind {A B} (m : M state A) (k : A → M state B) s : leaves m s →
  (∀ a t, m s = Fin (Ok a) t → leaves (k a) t) → leaves (m ≫= k) s.
Proof. intros Hm Hk r t [(a & u & E1 & E2)|(e & E & _)]%bind_inv; [by eapply Hk|by eapply Hm]. Qed.
(** A quiet step of a routine. *)
Lemma leaves_step {A B} (m : M state A) (k : A → M state B) s : counted s → quiet m →
  (∀ a t, m s = Fin (Ok a) t → same s t → counted t → leaves (k a) t) → leaves (m ≫= k) s.
Proof.
  intros Hs Hm Hk. apply leaves_bind; [by apply leaves_quiet|]. intros a t E. apply Hk; [done|by eapply Hm|].
  eapply same_counted; [by eapply Hm|done].
Qed.
Lemma leaves_same {A B} (m : M state A) (k : A → M state B) s : counted s → quiet m →
  (∀ a t, same s t → counted t → leaves (k a) t) → leaves (m ≫= k) s.
Proof. intros Hs Hm Hk. apply leaves_step; auto. Qed.

Lemma set_active_effect k n (s : state) x t : set_active_files k n s = Fin x t → ∃ r, mount_table s !! k = Some r ∧
  mount_table t = <[k := set_active n r]> (mount_table s) ∧
  vmounts t = match r_mount_cap r with None => vmounts s | Some m => alter (mount_set_active n) m (vmounts s) end ∧
  next_ptr t = next_ptr s ∧ files t = files s ∧ dirs t = dirs s ∧ x = Ok tt.
Proof.
  unfold set_active_files, record_at, vmount, gets, at_ptr, modify, mbind, M_bind.
  destruct (mount_table s !! k) as [r|] eqn:E; [|done]. cbn. destruct (r_mount_cap r) as [m|] eqn:Em.
  - cbn. destruct (vmounts s !! m) as [y|] eqn:Ey; [|done]. cbn. intros [= <- <-]. exists r. rewrite Em. split_and!; try done.
    cbn. rewrite <- (insert_id (vmounts s) m y Ey) at 2. by rewrite alter_insert_eq.
  - intros [= <- <-]. exists r. by rewrite Em.
Qed.

Definition room (s : state) : Prop := Z.of_nat (size (files s) + size (dirs s)) + 1 < W64.
Lemma same_room s t : same s t → room s → room t.
Proof. intros [_ Ef Ed _ _]. unfold room. by rewrite Ef, Ed. Qed.
Lemma handles_room s k : room s → add64 (handles s k) 1 = handles s k + 1.
Proof.
  unfold room, handles. intros H. pose proof (count_size f_mount_record k (files s)). pose proof (count_size d_mount_record k (dirs s)).
  apply wrap64_small. unfold is_u64. lia.
Qed.

Lemma open_file_counted s h f x t : counted s → room s → files s !! h = None → h < next_ptr s →
  is_Some (mount_table s !! f_mount_record f) →
  opened (f_mount_record f) (set_files (insert h f) s) = Fin x t → counted t.
Proof.
  intros Hs Hroom Hh Hlt [r Er]. set (s1 := set_files _ s). unfold opened, record_at, gets, at_ptr, mbind, M_bind. cbn. rewrite Er. cbn.
  rewrite (ct_count _ Hs _ _ Er), (handles_room s _ Hroom). intros (r' & Er' & Em & Ev & En & Ef & Ed & _)%set_active_effect.
  assert (r' = r) as -> by (cbn in Er'; congruence).
  apply (counted_put s t (f_mount_record f) (handles s (f_mount_record f) + 1) r); try done; [rewrite En; cbn; lia|..].
  - intros k'. unfold handles. rewrite Ef, Ed. cbn. rewrite count_insert by done. unfold one_if.
    destruct (decide (f_mount_record f = k')) as [<-|]; [rewrite decide_True by done; lia|rewrite decide_False by done; lia].
  - intros h' f'. rewrite Ef, En. cbn. intros [[<- <-]|[_ E]]%lookup_insert_Some; [by split; [|eexists]|by apply (ct_file _ Hs h')].
  - intros h' d. rewrite Ed, En. cbn. by apply (ct_dir _ Hs h').
Qed.
Lemma open_dir_counted s h d x t : counted s → room s → dirs s !! h = None → h < next_ptr s →
  is_Some (mount_table s !! d_mount_record d) →
  opened (d_mount_record d) (set_dirs (insert h d) s) = Fin x t → counted t.
Proof.
  intros Hs Hroom Hh Hlt [r Er]. set (s1 := set_dirs _ s). unfold opened, record_at, gets, at_ptr, mbind, M_bind. cbn. rewrite Er. cbn.
  rewrite (ct_count _ Hs _ _ Er), (handles_room s _ Hroom). intros (r' & Er' & Em & Ev & En & Ef & Ed & _)%set_active_effect.
  assert (r' = r) as -> by (cbn in Er'; congruence).
  apply (counted_put s t (d_mount_record d) (handles s (d_mount_record d) + 1) r); try done; [rewrite En; cbn; lia|..].
  - intros k'. unfold handles. rewrite Ef, Ed. cbn. rewrite count_insert by done. unfold one_if.
    destruct (decide (d_mount_record d = k')) as [<-|]; [rewrite decide_True by done; lia|rewrite decide_False by done; lia].
  - intros h' f. rewrite Ef, En. cbn. by apply (ct_file _ Hs h').
  - intros h' d'. rewrite Ed, En. cbn. intros [[<- <-]|[_ E]]%lookup_insert_Some; [by split; [|eexists]|by apply (ct_dir _ Hs h')].
Qed.

(** A new handle. *)
Lemma keep_ok p (s : state) r t : keep p s = Fin r t → r = Ok tt.
Proof.
  unfold keep, vnode, gets, at_ptr, modify, mbind, M_bind. destruct (vnodes s !! p); cbn; [|done]. by intros [= <- _].
Qed.
Lemma fresh_kept (s : state) v (k : Z → M state Z) r t : counted s →
  (h ← fresh; _ ← keep v; k h) s = Fin r t →
  ∃ u, same s u ∧ counted u ∧ next_ptr s < next_ptr u ∧ files u !! next_ptr s = None ∧ dirs u !! next_ptr s = None ∧
    k (next_ptr s) u = Fin r t.
Proof.
  intros Hs [(h & u & Ef & E)|(e & Ef & _)]%bind_inv; [|done]. pose proof (quiet_fresh _ _ _ Ef) as X1.
  apply bind_inv in E as [([] & w & Ek & E)|(e & Ek & _)]; [|by apply keep_ok in Ek].
  pose proof (quiet_keep _ _ _ _ Ek) as X2. assert (X : same s w) by by etrans. exists w.
  unfold fresh, gets, modify, mbind, M_bind in Ef. cbn in Ef. injection Ef as <- <-.
  split; [done|]. split; [by eapply same_counted|]. split; [pose proof (sm_next _ _ X2) as H; cbn in H; lia|].
  rewrite (sm_files _ _ X), (sm_dirs _ _ X). split_and!; [..|done].
  - destruct (files s !! next_ptr s) as [f|] eqn:E'; [|done]. destruct (ct_file _ Hs _ _ E'). lia.
  - destruct (dirs s !! next_ptr s) as [d|] eqn:E'; [|done]. destruct (ct_dir _ Hs _ _ E'). lia.
Qed.
Lemma new_file_run (s : state) v k r t : counted s → new_file v k s = Fin r t → ∃ h u, r = Ok h ∧
  t = set_files (insert h (mkVFile v k)) u ∧ same s u ∧ counted u ∧ files u !! h = None ∧ h < next_ptr u.
Proof.
  intros Hs (u & X & Hu & Hn & Hf & _ & E)%(fresh_kept s v); [|done].
  unfold modify, mbind, M_bind in E. cbn in E. injection E as <- <-. by exists (next_ptr s), u.
Qed.
Lemma new_dir_run (s : state) v k p r t : counted s → new_dir v k p s = Fin r t → ∃ h u, r = Ok h ∧
  t = set_dirs (insert h (mkVDir v k p)) u ∧ same s u ∧ counted u ∧ dirs u !! h = None ∧ h < next_ptr u.
Proof.
  intros Hs (u & X & Hu & Hn & _ & Hd & E)%(fresh_kept s v); [|done].
  unfold modify, mbind, M_bind in E. cbn in E. injection E as <- <-. by exists (next_ptr s), u.
Qed.
Lemma open_vfile_leaves s v k : counted s → room s → is_Some (mount_table s !! k) → leaves (open_vfile v k) s.
Proof.
  intros Hs Hroom Hk. unfold open_vfile. apply leaves_same; [done|quiet|]. intros ok t X Ht. destruct ok; [|apply leaves_quiet; [cbn [negb]; quiet|done]].
  assert (Hk' : is_Some (mount_table t !! k)) by (by rewrite (sm_mounts _ _ X)).
  cbn [negb]. intros r u [(h & w & E1 & E2)|(e & E1 & _)]%bind_inv; [|by apply new_file_run in E1 as (? & ? & [=] & _)].
  apply new_file_run in E1 as (h' & w' & [= <-] & -> & X' & Hw & Hno & Hlt); [|done].
  assert (Hopen : ∀ x z, opened k (set_files (insert h (mkVFile v k)) w') = Fin x z → counted z).
  { intros x z. apply (open_file_counted w' h (mkVFile v k)); try done; [by apply (same_room t), (same_room s)|].
    cbn. by rewrite (sm_mounts _ _ X'). }
  apply bind_inv in E2 as [([] & z & Eo & E2)|(e' & Eo & _)]; [|by eapply Hopen]. injection E2 as _ <-. by eapply Hopen.
Qed.
Lemma open_vdir_leaves s v k p : counted s → room s → is_Some (mount_table s !! k) → leaves (open_vdir v k p) s.
Proof.
  intros Hs Hroom Hk. unfold open_vdir. apply leaves_same; [done|quiet|]. intros ok t X Ht. destruct ok; [|apply leaves_quiet; [cbn [negb]; quiet|done]].
  assert (Hk' : is_Some (mount_table t !! k)) by (by rewrite (sm_mounts _ _ X)).
  cbn [negb]. intros r u [(h & w & E1 & E2)|(e & E1 & _)]%bind_inv; [|by apply new_dir_run in E1 as (? & ? & [=] & _)].
  apply new_dir_run in E1 as (h' & w' & [= <-] & -> & X' & Hw & Hno & Hlt); [|done].
  assert (Hopen : ∀ x z, opened k (set_dirs (insert h (mkVDir v k p)) w') = Fin x z → counted z).
  { intros x z. apply (open_dir_counted w' h (mkVDir v k p)); try done; [by apply (same_room t), (same_room s)|].
    cbn. by rewrite (sm_mounts _ _ X'). }
  apply bind_inv in E2 as [([] & z & Eo & E2)|(e' & Eo & _)]; [|by eapply Hopen]. injection E2 as _ <-. by eapply Hopen.
Qed.
(** Routines that open one handle at their end, and those that need no room. *)
Definition opens {A} (m : M state A) : Prop := ∀ s, counted s → room s → leaves m s.
Definition keeps {A} (m : M state A) : Prop := ∀ s, counted s → leaves m s.
Lemma keeps_quiet {A} (m : M state A) : quiet m → keeps m.
Proof. intros Hm s Hs. by apply leaves_quiet. Qed.
Lemma keeps_then {A B} (m : M state A) (k : A → M state B) : keeps m → (∀ a, keeps (k a)) → keeps (m ≫= k).
Proof. intros Hm Hk s Hs. apply leaves_bind; [by apply Hm|]. intros a t E. apply Hk. by eapply Hm. Qed.
Lemma opens_keeps {A} (m : M state A) : keeps m → opens m.
Proof. intros Hm s Hs _. by apply Hm. Qed.
Lemma opens_bind {A B} (m : M state A) (k : A → M state B) : quiet m → (∀ a, opens (k a)) → opens (m ≫= k).
Proof. intros Hm Hk s Hs Hroom. apply leaves_same; [done|done|]. intros a t X Ht. apply Hk; [done|by eapply same_room]. Qed.
Lemma opens_then {A B} (m : M state A) (k : A → M state B) : opens m → (∀ a, keeps (k a)) → opens (m ≫= k).
Proof. intros Hm Hk s Hs Hroom. apply leaves_bind; [by apply Hm|]. intros a t E. apply Hk. by eapply Hm. Qed.

Lemma record_of_ok fuel p (s : state) k t : mount_record_of fuel p s = Fin (Ok k) t → is_Some (mount_table t !! k).
Proof.
  unfold mount_record_of. intros [([k' p'] & u & _ & E)|(e & _ & ?)]%bind_inv; [|done].
  apply bind_inv in E as [(r & w & E1 & E2)|(e & E1 & ?)]; [|done].
  unfold attempt, lookup_mount_record, gets, mbind, M_bind in E1. cbn in E1. destruct (mount_table u !! k') eqn:Ek.
  - cbn in E1. injection E1 as <- <-. injection E2 as <- <-. by eexists.
  - cbn in E1. injection E1 as <- <-. done.
Qed.
Lemma opens_file fuel v p : opens (key ← mount_record_of fuel p; open_vfile v key : M state Z).
Proof.
  intros s Hs Hroom. apply leaves_step; [done|quiet|]. intros k t E X Ht.
  apply open_vfile_leaves; [done|by eapply same_room|by eapply record_of_ok].
Qed.
Lemma opens_dir fuel v p q : opens (key ← mount_record_of fuel p; open_vdir v key q : M state Z).
Proof.
  intros s Hs Hroom. apply leaves_step; [done|quiet|]. intros k t E X Ht.
  apply open_vdir_leaves; [done|by eapply same_room|by eapply record_of_ok].
Qed.

(** Closing. *)
Lemma destroy_effect k n (s : state) x t : counted s → handles s k = n + 1 → 0 <= n → on_vfile_destroy k s = Fin x t →
  ∃ r, mount_table s !! k = Some r ∧ x = Ok tt ∧ mount_table t = <[k := set_active n r]> (mount_table s) ∧
  vmounts t = match r_mount_cap r with None => vmounts s | Some m => alter (mount_set_active n) m (vmounts s) end ∧
  next_ptr t = next_ptr s ∧ files t = files s ∧ dirs t = dirs s.
Proof.
  intros Hs Hn Hpos. unfold on_vfile_destroy, record_at, gets, at_ptr, mbind at 1 2, M_bind at 1 2. cbn.
  destruct (mount_table s !! k) as [r|] eqn:Er; [|done]. cbn. pose proof (ct_count _ Hs k r Er) as Hc.
  rewrite (proj2 (Z.eqb_neq _ _)) by lia. replace (r_active_files r - 1) with n by lia.
  intros (r' & Er' & ? & ? & ? & ? & ? & ?)%set_active_effect. exists r. assert (r' = r) as -> by congruence. done.
Qed.
Lemma closed_counted s t k n r h : counted s → mount_table s !! k = Some r → mount_table t = <[k := set_active n r]> (mount_table s) →
  vmounts t = match r_mount_cap r with None => vmounts s | Some m => alter (mount_set_active n) m (vmounts s) end →
  next_ptr t = next_ptr s → handles s k = n + 1 →
  (files t = delete h (files s) ∧ dirs t = dirs s ∧ f_mount_record <$> files s !! h = Some k ∨
   files t = files s ∧ dirs t = delete h (dirs s) ∧ d_mount_record <$> dirs s !! h = Some k) → counted t.
Proof.
  intros Hs Er Em Ev En Hn Hcl. apply (counted_put s t k n r); try done; [lia|..].
  - intros k'. destruct Hcl as [(Ef & Ed & Eh)|(Ef & Ed & Eh)]; unfold handles in *; rewrite Ef, Ed.
    + apply fmap_Some in Eh as (f & Eh & ->). rewrite (count_delete f_mount_record k' (files s) h f Eh).
      rewrite (count_delete f_mount_record _ (files s) h f Eh) in Hn. unfold one_if in *. rewrite decide_True in Hn by done.
      destruct (decide (k' = _)) as [->|]; [lia|]. rewrite decide_False by done. lia.
    + apply fmap_Some in Eh as (d & Eh & ->). rewrite (count_delete d_mount_record k' (dirs s) h d Eh).
      rewrite (count_delete d_mount_record _ (dirs s) h d Eh) in Hn. unfold one_if in *. rewrite decide_True in Hn by done.
      destruct (decide (k' = _)) as [->|]; [lia|]. rewrite decide_False by done. lia.
  - intros h' f E. rewrite En. apply (ct_file _ Hs h'). destruct Hcl as [(Ef & _)|(Ef & _)]; rewrite Ef in E; [by apply lookup_delete_Some in E as []|done].
  - intros h' d E. rewrite En. apply (ct_dir _ Hs h'). destruct Hcl as [(_ & Ed & _)|(_ & Ed & _)]; rewrite Ed in E; [done|by apply lookup_delete_Some in E as []].
Qed.
Lemma handles_file s h f : files s !! h = Some f → 1 <= handles s (f_mount_record f).
Proof. intros E. unfold handles. rewrite (count_delete _ _ _ _ _ E). unfold one_if. rewrite decide_True by done. lia. Qed.
Lemma handles_dir s h d : dirs s !! h = Some d → 1 <= handles s (d_mount_record d).
Proof. intros E. unfold handles. rewrite (count_delete d_mount_record _ _ _ _ E). unfold one_if. rewrite decide_True by done. lia. Qed.
Lemma keeps_close_file h : keeps (file_destruct h : M state _).
Proof.
  intros s Hs r t. unfold file_destruct, gets, at_ptr, mbind at 1 2, M_bind at 1 2. cbn.
  destruct (files s !! h) as [f|] eqn:Ef; [|done]. cbn. pose proof (handles_file s h f Ef) as H1.
  assert (Hclose : ∀ x u, on_vfile_destroy (f_mount_record f) s = Fin x u → x = Ok tt ∧ counted (set_files (delete h) u)).
  { intros x u (y & Er & -> & Em & Ev & En & Efs & Ed)%(destroy_effect _ (handles s (f_mount_record f) - 1)); [|done|lia..].
    split; [done|]. apply (closed_counted s _ (f_mount_record f) (handles s (f_mount_record f) - 1) y h); try done; [lia|].
    left. cbn. by rewrite Efs, Ed, Ef. }
  intros [([] & u & E1 & E2)|(e & E1 & _)]%bind_inv; [|by apply Hclose in E1 as [? _]].
  apply Hclose in E1 as [_ Hu]. apply (leaves_quiet (_ ← release (f_vind f); bury (f_vind f)) (set_files (delete h) u)) in E2; [done|quiet|done].
Qed.
Lemma keeps_close_dir h : keeps (dir_destruct h : M state _).
Proof.
  intros s Hs r t. unfold dir_destruct, gets, at_ptr, mbind at 1 2, M_bind at 1 2. cbn.
  destruct (dirs s !! h) as [d|] eqn:Ed; [|done]. cbn. pose proof (handles_dir s h d Ed) as H1.
  assert (Hclose : ∀ x u, on_vfile_destroy (d_mount_record d) s = Fin x u → x = Ok tt ∧ counted (set_dirs (delete h) u)).
  { intros x u (y & Er & -> & Em & Ev & En & Efs & Eds)%(destroy_effect _ (handles s (d_mount_record d) - 1)); [|done|lia..].
    split; [done|]. apply (closed_counted s _ (d_mount_record d) (handles s (d_mount_record d) - 1) y h); try done; [lia|].
    right. cbn. by rewrite Efs, Eds, Ed. }
  intros [([] & u & E1 & E2)|(e & E1 & _)]%bind_inv; [|by apply Hclose in E1 as [? _]].
  apply Hclose in E1 as [_ Hu]. apply (leaves_quiet (_ ← release (d_vind d); bury (d_vind d)) (set_dirs (delete h) u)) in E2; [done|quiet|done].
Qed.
Hint Resolve opens_file opens_dir keeps_close_file keeps_close_dir : quiet.
(** Through quiet steps to the opening, or to the closing. *)
Ltac opens :=
  intros; repeat (cbn beta iota zeta; match goal with
  | |- opens (match ?x with _ => _ end) => destruct x
  | |- opens _ => solve [auto with quiet]
  | |- opens _ => apply opens_keeps, keeps_quiet; solve [quiet]
  | |- opens (_ ≫= _) => apply opens_bind; [solve [quiet]|intro]
  | |- opens (_ ≫= _) => apply opens_then; [solve [auto with quiet]|intro]
  | |- keeps (match ?x with _ => _ end) => destruct x
  | |- keeps _ => solve [auto with quiet]
  | |- keeps _ => apply keeps_quiet; solve [quiet]
  | |- keeps (_ ≫= _) => apply keeps_then; [solve [auto with quiet]|intro]
  end).
Lemma opens_file_path fuel p : opens (open_file_path fuel p : M state _).
Proof. unfold open_file_path. opens. Qed.
Lemma opens_dir_path fuel p : opens (open_dir_path fuel p : M state _).
Proof. unfold open_dir_path. opens. Qed.
Lemma opens_file_at fuel v bp p fl : opens (open_file_at fuel v bp p fl : M state _).
Proof. unfold open_file_at. opens. Qed.
Lemma opens_dir_at fuel bp p : opens (open_dir_at fuel bp p : M state _).
Proof. unfold open_dir_at. opens. Qed.
Lemma keeps_give_file h perm slot : keeps (give_file h perm slot : M state _).
Proof. unfold give_file. opens. Qed.
Lemma keeps_give_dir h perm slot : keeps (give_dir h perm slot : M state _).
Proof. unfold give_dir. opens. Qed.
Hint Resolve opens_file_path opens_dir_path opens_file_at opens_dir_at keeps_give_file keeps_give_dir : quiet.
Lemma opens_open_abs fuel p slot : opens (open_abs fuel p slot : M state _).
Proof. unfold open_abs. opens. Qed.
Lemma opens_force_open_abs fuel p perm slot : opens (force_open_abs fuel p perm slot : M state _).
Proof. unfold force_open_abs. opens. Qed.
Lemma opens_force_open fuel c p fl perm slot : opens (force_open fuel c p fl perm slot : M state _).
Proof. unfold force_open. opens. Qed.
Lemma opens_opendir fuel c p fl slot : opens (opendir fuel c p fl slot : M state _).
Proof. unfold opendir. opens. Qed.
Lemma opens_open_dir fuel p perm slot : opens (open_dir fuel p perm slot : M state _).
Proof. unfold open_dir. opens. Qed.
Lemma opens_mkfile fuel c p fl slot : opens (mkfile fuel c p fl slot : M state _).
Proof. unfold mkfile. opens. Qed.
Lemma opens_mkdir fuel c p fl slot : opens (mkdir fuel c p fl slot : M state _).
Proof. unfold mkdir. opens. Qed.

(** ** The calls that mount *)

Lemma mount_point_ok fuel p (s : state) k q t : mount_point fuel p s = Fin (Ok (k, q)) t → mount_table t !! k = None.
Proof.
  unfold mount_point. intros [(? & u & _ & E)|(e & _ & ?)]%bind_inv; [|done].
  apply bind_inv in E as [([k' q'] & w & _ & E)|(e & _ & ?)]; [|done].
  unfold contains, gets, mbind, M_bind in E. cbn in E. destruct (mount_table w !! k') eqn:Ek.
  - by rewrite bool_decide_eq_true_2 in E by by eexists.
  - rewrite bool_decide_eq_false_2 in E by by intros []. by injection E as <- <- <-.
Qed.
(** The last steps of the two overloads of [mount]. *)
Lemma leaves_record k r s : counted s → mount_table s !! k = None → r_active_files r = 0 → r_mount_cap r = None →
  counted (set_mount_table (insert k r) s).
Proof.
  intros Hs Hk Hr Hc. apply (counted_mount s _ k r); try done.
  - apply (ct_mount _ Hs).
  - intros m. by rewrite Hc.
Qed.
Ltac quiet_step X := apply leaves_same; [done|quiet|]; intros ? ? X ?.
Lemma keeps_mount_block fuel n d p o : keeps (mount_block fuel n d p o : M state _).
Proof.
  intros s Hs. unfold mount_block. apply leaves_same; [done|quiet|]. intros _ s1 _ H1. apply leaves_same; [done|quiet|].
  intros q s2 _ H2. apply leaves_step; [done|quiet|]. intros [k q'] s3 E _ H3. apply mount_point_ok in E.
  apply leaves_same; [done|quiet|]. intros pseudo s4 X4 H4. destruct pseudo; [apply leaves_quiet; [quiet|done]|].
  apply leaves_same; [done|quiet|]. intros isb s5 X5 H5. apply leaves_same; [done|quiet|]. intros b s6 X6 H6.
  apply leaves_same; [done|quiet|]. intros _ s7 X7 H7. intros r t [= _ <-]. apply leaves_record; try done.
  by rewrite (sm_mounts _ _ X7), (sm_mounts _ _ X6), (sm_mounts _ _ X5), (sm_mounts _ _ X4).
Qed.
Lemma keeps_mount_pseudo fuel n p o : keeps (mount_pseudo fuel n p o : M state _).
Proof.
  intros s Hs. unfold mount_pseudo. apply leaves_same; [done|quiet|].
  intros q s2 _ H2. apply leaves_step; [done|quiet|]. intros [k q'] s3 E _ H3. apply mount_point_ok in E.
  apply leaves_same; [done|quiet|]. intros pseudo s4 X4 H4. destruct pseudo; cbn [negb]; [|apply leaves_quiet; [quiet|done]].
  apply leaves_same; [done|quiet|]. intros isb s5 X5 H5. apply leaves_same; [done|quiet|]. intros b s6 X6 H6.
  apply leaves_same; [done|quiet|]. intros _ s7 X7 H7. intros r t [= _ <-].
  apply (same_counted (set_mount_table (insert k (mkRecord k.1 k.2 q' b 0 false 0 None)) s7)); [done|].
  apply leaves_record; try done. by rewrite (sm_mounts _ _ X7), (sm_mounts _ _ X6), (sm_mounts _ _ X5), (sm_mounts _ _ X4).
Qed.

(** Unmounting takes the record out, or stops before. *)
Lemma drop_effect k r (s : state) x t : drop_record k r s = Fin x t →
  same s t ∧ (∃ e, x = Err e) ∨ same (set_mount_table (delete k) s) t.
Proof.
  unfold drop_record. intros [(b & s1 & E1 & E)|(e & E1 & ->)]%bind_inv; [|left; split; [by apply (quiet_vsb _ _ _ _ E1)|by eexists]].
  apply quiet_vsb in E1 as X1. apply bind_inv in E as [(? & s2 & E2 & E)|(e & E2 & ->)].
  2: { left. split; [|by eexists]. etrans; [done|]. destruct (negb _); [by eapply quiet_pseudo|by eapply quiet_ret]. }
  assert (X2 : same s s2) by (etrans; [done|]; destruct (negb _); [by eapply quiet_pseudo|by eapply quiet_ret]).
  unfold modify at 1, mbind at 1, M_bind at 1 in E. right. transitivity (set_mount_table (delete k) s2).
  { destruct X2 as [Em Ef Ed Ev En]. split; cbn; [by rewrite Em|done..]. }
  revert E. assert (Hq : quiet (_ ← release_parent (r_parent_vinode r); ret ← attempt (with_fs (fs_unmount (vs_fsd b) (vs_sb b)));
    _ ← delete_vsb (r_superblock r); mret ret : M state _)) by quiet. apply Hq.
Qed.
Lemma leaves_drop k r s : counted s → handles s k = 0 → leaves (drop_record k r) s.
Proof.
  intros Hs Hk x t [[X _]|X]%drop_effect; [by eapply same_counted|]. by eapply counted_unmount.
Qed.
Lemma keeps_umount fuel p : keeps (umount fuel p : M state _).
Proof.
  intros s Hs. unfold umount. apply leaves_same; [done|quiet|]. intros q s1 _ H1. apply leaves_same; [done|quiet|].
  intros [k q'] s2 _ H2. apply leaves_step; [done|quiet|]. intros rec s3 [= <- <-] _ H3.
  destruct (mount_table s2 !! k) as [r|] eqn:Ek; [|apply leaves_quiet; [quiet|done]].
  destruct (r_active_files r =? 0) eqn:E0; cbn [negb]; [|apply leaves_quiet; [quiet|done]]. apply Z.eqb_eq in E0.
  apply leaves_same; [done|quiet|]. intros _ s4 X4 H4. apply leaves_bind; [|intros a t E; apply leaves_quiet; [quiet|]].
  - apply leaves_drop; [done|]. rewrite <- E0. symmetry. apply (ct_count _ H4). by rewrite (sm_mounts _ _ X4).
  - eapply leaves_drop; [exact H4| |exact E]. rewrite <- E0. symmetry. apply (ct_count _ H4). by rewrite (sm_mounts _ _ X4).
Qed.

(** *** Mount capabilities *)

Lemma keeps_create_mount n hd d fl o : keeps (create_mount n hd d fl o : M state _).
Proof.
  intros s Hs. unfold create_mount. destruct n as [[|c n]|]; try (apply leaves_quiet; [solve [quiet]|done]).
  apply leaves_same; [done|quiet|]. intros pseudo s1 _ H1. apply leaves_same; [done|quiet|]. intros _ s2 _ H2.
  apply leaves_step; [done|quiet|]. intros p s3 E X3 H3. intros r t [= _ <-].
  unfold fresh, gets, modify, mbind, M_bind in E. cbn in E. injection E as <- <-. apply counted_vmount; [done|cbn; lia|].
  intros k r' Ek Hc. destruct (ct_cap _ H2 k r' _ Ek Hc) as (x & Ex & _). pose proof (ct_mount _ H2 _ _ Ex). lia.
Qed.
Lemma keep_parent_ok p (s : state) r t : keep_parent p s = Fin r t → r = Ok tt.
Proof. unfold keep_parent. destruct (p =? 0); [by intros [= <- _]|apply keep_ok]. Qed.
Lemma vmount_inv m (s : state) x t : vmount m s = Fin (Ok x) t → vmounts s !! m = Some x ∧ t = s.
Proof. unfold vmount, gets, at_ptr, mbind, M_bind. cbn. destruct (vmounts s !! m); [|done]. by intros [= -> ->]. Qed.
Lemma vmount_ok m (s : state) e t : vmount m s ≠ Fin (Err e) t.
Proof. unfold vmount, gets, at_ptr, mbind, M_bind. cbn. by destruct (vmounts s !! m). Qed.
(** The mount and its capability. *)
Lemma leaves_attached m k rec v (f : VMount → VMount) (s : state) x : counted s → mount_table s !! k = None → r_active_files rec = 0 →
  r_mount_cap rec = Some m → vmounts s !! m = Some x → m_status x = UMOUNTED →
  (∀ y, m_status (f y) = MOUNTED ∧ m_active_files (f y) = 0) →
  leaves (_ ← modify (set_mount_table (insert k rec)); _ ← keep_parent v; y ← vmount m; modify (set_vmounts (insert m (f y)))) s.
Proof.
  intros Hs Hk Hr Hc Hx Hst Hf r t. unfold modify at 1, mbind at 1, M_bind at 1.
  intros [([] & u & E1 & E)|(e & E1 & _)]%bind_inv; [|by apply keep_parent_ok in E1]. apply quiet_keep_parent in E1 as [Em Ef Ed Ev En].
  apply bind_inv in E as [(y & w & E2 & E)|(e & E2 & _)]; [|by apply vmount_ok in E2]. apply vmount_inv in E2 as [Ey ->].
  injection E as _ <-. apply (counted_mount s _ k rec); try done; cbn in *.
  - intros m' z. rewrite Ev. intros [[<- _]|[_ E']]%lookup_insert_Some; [pose proof (ct_mount _ Hs m x Hx); lia|]. pose proof (ct_mount _ Hs m' z E'). lia.
  - intros m' z Hne E'. rewrite lookup_insert_ne by congruence. by rewrite Ev.
  - intros m' Hm'. assert (m' = m) as -> by congruence. split; [exists (f y); by rewrite lookup_insert_eq|].
    intros k' r' E' Hc'. destruct (ct_cap _ Hs k' r' m E' Hc') as (z & Ez & Hz & _). congruence.
Qed.
Lemma keeps_attach fuel m d p fl : keeps (mount_attach fuel m d p fl : M state _).
Proof.
  intros s Hs. unfold mount_attach. destruct (negb (fl =? 0)); [apply leaves_quiet; [quiet|done]|].
  apply leaves_step; [done|quiet|]. intros x s1 [Ex _]%vmount_inv X1 H1. rewrite <- (sm_vmounts _ _ X1) in Ex.
  destruct (bool_decide (m_status x = UMOUNTED)) eqn:Est; cbn [negb]; [|apply leaves_quiet; [quiet|done]].
  apply bool_decide_eq_true in Est.
  destruct p as [[|c p]|]; try (apply leaves_quiet; [solve [quiet]|done]). apply leaves_same; [done|quiet|]. intros q s2 X2 H2.
  destruct (is_absolute q); [apply leaves_quiet; [quiet|done]|].
  apply leaves_step; [done|quiet|]. intros [k q'] s3 E3 X3 H3. apply mount_point_ok in E3.
  apply leaves_same; [done|quiet|]. intros pseudo s4 X4 H4. apply leaves_same; [done|quiet|]. intros isb s5 X5 H5.
  apply leaves_same; [done|quiet|]. intros b s6 X6 H6. apply leaves_same; [done|quiet|]. intros _ s7 X7 H7.
  apply leaves_same; [done|quiet|]. intros _ s8 X8 H8. assert (X : same s3 s8) by (do 4 (etrans; [done|]); done).
  assert (Y : same s1 s8) by (do 2 (etrans; [done|]); done).
  apply (leaves_attached m _ _ _ (λ y, mounted_at y b (d_vind d) k.2 q' (negb pseudo)) _ x); try done.
  - by rewrite (sm_mounts _ _ X).
  - by rewrite (sm_vmounts _ _ Y).
Qed.
(** [mount_detach], when the mount that is at the path is its own. *)
Definition own_mount (fuel : nat) (m : Z) (s : state) : Prop := ∀ x k q t r, vmounts s !! m = Some x →
  build_mount_key fuel (m_mount_path x) s = Fin (Ok (k, q)) t → mount_table s !! k = Some r → r_mount_cap r = Some m.
Lemma leaves_detach fuel m fl s : counted s → own_mount fuel m s → leaves (mount_detach fuel m fl) s.
Proof.
  intros Hs Hown. unfold mount_detach. destruct (negb (fl =? 0)); [apply leaves_quiet; [quiet|done]|].
  apply leaves_step; [done|quiet|]. intros x s1 [Ex ->]%vmount_inv _ _.
  destruct (negb (bool_decide (m_status x = MOUNTED))); [apply leaves_quiet; [quiet|done]|].
  destruct (m_active_files x =? 0) eqn:E0; cbn [negb]; [|apply leaves_quiet; [quiet|done]]. apply Z.eqb_eq in E0.
  apply leaves_step; [done|quiet|]. intros [k q] s2 E2 X2 H2. apply leaves_step; [done|quiet|]. intros rec s3 [= <- <-] _ _.
  destruct (mount_table s2 !! k) as [r|] eqn:Ek; [|apply leaves_quiet; [quiet|done]].
  rewrite (sm_mounts _ _ X2) in Ek. pose proof (Hown x k q s2 r Ex E2 Ek) as Hcap.
  destruct (ct_cap _ Hs k r m Ek Hcap) as (x' & Ex' & _ & Hx). assert (x' = x) as -> by congruence.
  apply leaves_same; [done|quiet|]. intros _ s4 X4 H4. assert (X : same s s4) by by etrans.
  assert (Ek4 : mount_table s4 !! k = Some r) by by rewrite (sm_mounts _ _ X). pose proof (ct_count _ H4 k r Ek4) as Hh.
  assert (Hdrop : leaves (drop_record k r) s4) by (apply leaves_drop; [done|lia]).
  intros res t [(ret & u & Ed & E)|(e & Ed & _)]%bind_inv; [|by eapply Hdrop].
  assert (Hu : counted u) by by eapply Hdrop. apply drop_effect in Ed as [[_ [? ?]]|[Em Ef Edr Ev En]]; [done|]. cbn in *.
  revert E. apply leaves_same; [done|quiet|]. intros _ s5 X5 H5. apply leaves_same; [done|quiet|]. intros _ s6 X6 H6.
  assert (X' : same u s6) by by etrans. intros r' w [(y & z & [Ey ->]%vmount_inv & E)|(e & E & _)]%bind_inv; [|by apply vmount_ok in E].
  injection E as _ <-. apply counted_vmount; [done|by apply (ct_mount _ H6 m y)|].
  intros k' q' Eq Hq. rewrite (sm_mounts _ _ X'), Em in Eq. apply lookup_delete_Some in Eq as [Hne Eq].
  apply Hne. by apply (ct_own _ H4 k k' r q' m).
Qed.
Lemma opens_mount_root fuel m slot : opens (mount_root fuel m slot : M state _).
Proof.
  intros s Hs Hroom. unfold mount_root. apply leaves_same; [done|quiet|]. intros x s1 X1 H1.
  destruct (negb _ || _); [apply leaves_quiet; [quiet|done]|]. apply leaves_same; [done|quiet|]. intros v s2 X2 H2.
  apply leaves_same; [done|quiet|]. intros [k q] s3 X3 H3. apply leaves_step; [done|quiet|]. intros r s4 E4 X4 H4.
  assert (Hk : is_Some (mount_table s4 !! k)).
  { unfold lookup_mount_record, gets, mbind, M_bind in E4. cbn in E4. destruct (mount_table s3 !! k) eqn:E; [|done]. injection E4 as _ <-. by eexists. }
  intros res t [(h & w & E1 & E2)|(e & E1 & _)]%bind_inv; [|by apply new_dir_run in E1 as (? & ? & [=] & _)].
  apply new_dir_run in E1 as (h' & u & [= <-] & -> & X & Hu & Hno & Hlt); [|done]. destruct slot as [idx|e].
  - assert (Hopen : ∀ y z, opened k (set_dirs (insert h (mkVDir v k (m_mount_path x))) u) = Fin y z → counted z).
    { intros y z. apply (open_dir_counted u h (mkVDir v k (m_mount_path x))); try done.
      - by apply (same_room s4), (same_room s3), (same_room s2), (same_room s1), (same_room s).
      - cbn. by rewrite (sm_mounts _ _ X). }
    apply bind_inv in E2 as [([] & z & Eo & E2)|(e' & Eo & _)]; [|by eapply Hopen]. injection E2 as _ <-. by eapply Hopen.
  - unfold modify at 1, mbind at 1, M_bind at 1 in E2. revert E2. apply (leaves_quiet (_ ← release v; fail e)); [quiet|].
    apply (same_counted u); [|done]. split; cbn; [done|done| |done|done]. by rewrite delete_insert_id.
Qed.
Lemma keeps_public {A} (m : M state A) s : leaves m s → leaves (public m) s.
Proof.
  intros Hm r t. unfold public. intros [(x & u & E1 & E2)|(e & E1 & _)]%bind_inv.
  - assert (Hu : counted u).
    { unfold attempt in E1. destruct (m s) as [y w| |] eqn:Em; [|done|done]. injection E1 as _ <-. by eapply Hm. }
    revert E2. apply (leaves_quiet (_ ← reap; of_result x)); [quiet|done].
  - unfold attempt in E1. by destruct (m s).
Qed.

(** ** Calls in any order *)

Inductive call :=
| COpen (p : option str) (slot : Result Z)
| CForceOpenAbs (p : option str) (perm : Z) (slot : Result Z)
| CForceOpen (c : payload) (p : option str) (oflags perm : Z) (slot : Result Z)
| COpenAt (c : payload) (p : option str) (oflags : Z) (slot : Result Z)
| COpendir (c : payload) (p : option str) (oflags : Z) (slot : Result Z)
| COpenDir (p : option str) (perm : Z) (slot : Result Z)
| CMkfile (c : payload) (p : option str) (oflags : Z) (slot : Result Z)
| CMkdir (c : payload) (p : option str) (oflags : Z) (slot : Result Z)
| CCloseFile (h : Z)
| CCloseDir (h : Z)
| CUnlink (c : payload) (p : option str)
| CRmdir (c : payload) (p : option str)
| CLink (c : payload) (p : option str) (target : payload)
| CRename (c : payload) (p : option str) (d : payload) (q : option str)
| CSymlink (c : payload) (p target : option str)
| CReadlink (c : payload) (p : option str) (buf : bool) (bufsiz : Z)
| CGetdents (c : payload)
| CStat (c : payload) (p : option str) (follow : bool)
| CSetattr (c : payload) (mask : Z) (attrs : TmpFs.AttrSet)
| CRegister (name : str) (pseudo : bool)
| CUnregister (name : str)
| CMountBlock (name : str) (devno : Z) (p options : str)
| CMountPseudo (name p options : str)
| CUmount (p : str)
| CCreateMount (name : option str) (has_device : bool) (devno superflags : Z) (options : option str)
| CAttach (m : Z) (c : payload) (p : option str) (flags : Z)
| CDetach (m flags : Z)
| CMountRoot (m : Z) (slot : Result Z).

Definition drop_answer {A} (m : M state A) : M state unit := _ ← m; mret tt.
Definition serve (fuel : nat) (c : call) : M state unit :=
  match c with
  | COpen p slot => drop_answer (open_abs fuel p slot)
  | CForceOpenAbs p perm slot => drop_answer (force_open_abs fuel p perm slot)
  | CForceOpen c p oflags perm slot => drop_answer (force_open fuel c p oflags perm slot)
  | COpenAt c p oflags slot => drop_answer (open_at fuel c p oflags slot)
  | COpendir c p oflags slot => drop_answer (opendir fuel c p oflags slot)
  | COpenDir p perm slot => drop_answer (open_dir fuel p perm slot)
  | CMkfile c p oflags slot => drop_answer (mkfile fuel c p oflags slot)
  | CMkdir c p oflags slot => drop_answer (mkdir fuel c p oflags slot)
  | CCloseFile h => file_destruct h
  | CCloseDir h => dir_destruct h
  | CUnlink c p => unlink fuel c p
  | CRmdir c p => rmdir fuel c p
  | CLink c p d => link fuel c p d
  | CRename c p d q => rename fuel c p d q
  | CSymlink c p q => symlink fuel c p q
  | CReadlink c p b n => drop_answer (readlink fuel c p b n)
  | CGetdents c => d ← parent_dir c; drop_answer (getdents d)
  | CStat c p follow => v ← resolve_at fuel c p follow; drop_answer (stat_from_vinode v)
  | CSetattr c mask a => setattr c mask a
  | CRegister n b => register_fs n b
  | CUnregister n => unregister_fs n
  | CMountBlock n d p o => mount_block fuel n d p o
  | CMountPseudo n p o => mount_pseudo fuel n p o
  | CUmount p => umount fuel p
  | CCreateMount n b d fl o => drop_answer (create_mount n b d fl o)
  | CAttach m c p fl => d ← parent_dir c; mount_attach fuel m d p fl
  | CDetach m fl => mount_detach fuel m fl
  | CMountRoot m slot => drop_answer (mount_root fuel m slot)
  end.
Hint Resolve quiet_unlink quiet_rmdir quiet_link quiet_rename quiet_symlink quiet_readlink quiet_getdents quiet_register
  quiet_unregister opens_open_abs opens_force_open_abs opens_force_open opens_opendir opens_open_dir opens_mkfile opens_mkdir
  keeps_mount_block keeps_mount_pseudo keeps_umount keeps_create_mount keeps_attach opens_mount_root : quiet.
Lemma opens_drop {A} (m : M state A) : opens m → opens (drop_answer m).
Proof. intros Hm. apply opens_then; [done|]. intros a. apply keeps_quiet. quiet. Qed.
Lemma opens_serve fuel c s : counted s → room s → (∀ m fl, c = CDetach m fl → own_mount fuel m s) → leaves (serve fuel c) s.
Proof.
  intros Hs Hroom Hown. destruct c as [| | | | | | | | | | | | | | | | | | | | | | | | | |m fl|]; cbn [serve].
  27: by apply leaves_detach; [|eapply Hown].
  all: match goal with |- leaves ?m _ => cut (opens m); [by intros H; apply H|] end; clear.
  all: try (apply opens_drop; solve [unfold open_at; auto with quiet]).
  all: try (apply opens_drop, opens_keeps; solve [auto with quiet]).
  all: try (apply opens_keeps; solve [auto with quiet]).
  all: try (apply opens_keeps, keeps_quiet; unfold drop_answer; solve [quiet]).
  apply opens_keeps, keeps_then; [apply keeps_quiet; quiet|]. intros d. apply keeps_attach.
Qed.

(** A call of a user.  Fewer than 2^64 handles are open; a mount capability is detached
    while the mount at its path is its own. *)
Inductive step (s t : state) : Prop :=
| step_call fuel c r : room s → (∀ m fl, c = CDetach m fl → own_mount fuel m s) →
    public (serve fuel c) s = Fin r t → step s t.
(** At the start nothing is mounted and nothing is open. *)
Definition empty (s : state) : Prop := mount_table s = ∅ ∧ files s = ∅ ∧ dirs s = ∅ ∧ vmounts s = ∅.
Lemma empty_counted s : empty s → counted s.
Proof. intros (Em & Ef & Ed & Ev). split; rewrite ?Em, ?Ef, ?Ed, ?Ev; intros; by rewrite lookup_empty in *. Qed.
Lemma steps_counted s t : rtc step s t → counted s → counted t.
Proof.
  induction 1 as [|s t u [fuel c r Hroom Hown E] _ IH]; [done|]. intros Hs. apply IH. eapply keeps_public; [|exact E]. by apply opens_serve.
Qed.
(** [on_vfile_destroy], the part of closing a handle that concerns its mount [k],
    succeeds: one less is open in it. *)
Definition closes (k : MountKey) (s : state) : Prop :=
  wp (on_vfile_destroy k) s (λ r t, r = Ok tt ∧ r_active_files <$> mount_table t !! k = Some (handles s k - 1)).
Lemma counted_closes s k : counted s → is_Some (mount_table s !! k) → 1 <= handles s k → closes k s.
Proof.
  intros Hs [r Er] H1. pose proof (ct_count _ Hs k r Er) as Hc. unfold closes, wp.
  assert (Hfin : ∃ x t, on_vfile_destroy k s = Fin x t).
  { unfold on_vfile_destroy, set_active_files, record_at, vmount, gets, at_ptr, modify, mbind, M_bind. cbn. rewrite Er. cbn.
    rewrite (proj2 (Z.eqb_neq _ _)) by lia. cbn. rewrite Er. cbn. destruct (r_mount_cap r) as [m|] eqn:Em; [|by do 2 eexists].
    destruct (ct_cap _ Hs k r m Er Em) as (x & Ex & _). cbn. rewrite Ex. by do 2 eexists. }
  destruct Hfin as (x & t & E). rewrite E. destruct (destroy_effect k (handles s k - 1) s x t Hs ltac:(lia) ltac:(lia) E) as (r' & _ & -> & -> & _).
  split; [done|]. by rewrite lookup_insert_eq.
Qed.

End quiet.

(** *** An example *)

Import VfsToy.
Definition after (c : call) (s : @vfs bool) : @vfs bool := match public (serve 9 c) s with Fin _ t => t | _ => s end.
Definition returns (c : call) (s : @vfs bool) : bool := match public (serve 9 c) s with Fin _ _ => true | _ => false end.
Lemma step_after c s : room s → (∀ m fl, c ≠ CDetach m fl) → returns c s = true → step s (after c s).
Proof.
  intros Hroom Hc. unfold returns, after. destruct (public (serve 9 c) s) as [r t| |] eqn:E; [|done|done]. intros _.
  apply (step_call s t 9 c r Hroom); [|done]. intros m fl ->. by destruct (Hc m fl).
Qed.
Definition nothing : @vfs bool := mkVfs ∅ ∅ ∅ ∅ ∅ ∅ ∅ ∅ 1 false.
Definition mounted : @vfs bool := after (CMountBlock (lit "toy") 1 ROOT []) (after (CRegister (lit "toy") false) nothing).
Definition opened_twice : @vfs bool := after (COpenDir (Some ROOT) allperm (Ok 1)) (after (COpen (Some (lit "/g")) (Ok 0)) mounted).
(** Without the condition on [CDetach] this fails: a mount capability whose mount was
    unmounted by path detaches the next mount at that path, files open or not. *)
Lemma detach_takes_another_mount :
  match (m ← create_mount (Some (lit "toy")) true 1 0 None;
         _ ← mount_attach 9 m (mkVDir 11 root_key ROOT) (Some (lit "d")) 0;
         _ ← umount 9 (lit "/d");
         _ ← mount_block 9 (lit "toy") 1 (lit "/d") [];
         h ← open_file_path 9 (Some (lit "/d/g"));
         _ ← mount_detach 9 m 0; mret h) (toy false) with
  | Fin (Ok h) s => is_Some (files s !! h) ∧ file_destruct h s = Panic
  | _ => False
  end.
Proof. vm_compute. by split; [eexists|]. Qed.

End VfsMounts.
