(* ===== verification/Rpc.v ===== *)
(** * RPC packets

    libs/rpc/packet.cpp with the [ByteBuffer] of include/rpc/buffer.h: the seven
    packets of the RPC protocol, written to and read from the 128 bytes of a
    [MsgPacket].  A buffer is its written bytes; the bytes between size and capacity
    are never read.  [alloc] is whether an allocation to grow a buffer succeeds.

    A number is written with its least significant byte first, as the targets
    (riscv64, loongarch64) store it. *)
From S2P Require Import Prelude ErrCode.

#[local] Open Scope Z_scope.

Module Rpc.

Definition MAX_MSG_SIZE : Z := 128.
Definition MAX_MSG_CAPS : Z := 4.

Record MsgPacket := mkPacket { msgbuf : list Z; msgsz : Z; caplist : list Z; capsz : Z }.

(** ** [ByteBuffer] *)

Inductive direction := READ | WRITE.
#[export] Instance direction_eq_dec : EqDecision direction.
Proof. solve_decision. Defined.

Record ByteBuffer := mkBuf { data : list Z; read_pos : Z; capacity : Z; dir : direction }.
Definition size (b : ByteBuffer) : Z := Z.of_nat (length (data b)).

(** The two constructors. *)
Definition new_writer (cap : Z) : ByteBuffer := mkBuf [] 0 cap WRITE.
Definition new_reader (bytes : list Z) : ByteBuffer := mkBuf bytes 0 (Z.of_nat (length bytes)) READ.

Definition M_resize (alloc : bool) (new_capacity : Z) : M ByteBuffer unit :=
  d ← gets dir;
  if negb (bool_decide (d = WRITE)) then fail NOT_SUPPORTED
  else
    _ ← modify (λ b, mkBuf (data b) (read_pos b) new_capacity (dir b));
    if negb alloc then fail ALLOCATION_FAILED else mret tt.

Definition M_check_size (alloc : bool) (inc_sz : Z) : M ByteBuffer unit :=
  b ← get_st;
  if negb (bool_decide (dir b = WRITE)) then fail NOT_SUPPORTED
  else if capacity b <? size b + inc_sz then M_resize alloc ((size b + inc_sz) * 2)
  else mret tt.

Definition writes (alloc : bool) (bytes : list Z) : M ByteBuffer unit :=
  d ← gets dir;
  if negb (bool_decide (d = WRITE)) then fail NOT_SUPPORTED
  else
    _ ← M_check_size alloc (Z.of_nat (length bytes));
    modify (λ b, mkBuf (data b ++ bytes) (read_pos b) (capacity b) (dir b)).

Definition reads (sz : Z) : M ByteBuffer (list Z) :=
  b ← get_st;
  if negb (bool_decide (dir b = READ)) then fail NOT_SUPPORTED
  else if size b <? read_pos b + sz then fail OUT_OF_BOUNDARY
  else
    _ ← modify (λ b, mkBuf (data b) (read_pos b + sz) (capacity b) (dir b));
    mret (take (Z.to_nat sz) (drop (Z.to_nat (read_pos b)) (data b))).

(** The four bytes of a [sus_u32]. *)
Definition u32_bytes (v : Z) : list Z := [v mod 256; v / 256 mod 256; v / 65536 mod 256; v / 16777216 mod 256].
Definition bytes_u32 (l : list Z) : Z :=
  match l with
  | [a; b; c; d] => a + 256 * b + 65536 * c + 16777216 * d
  | _ => 0
  end.

(** [write] and [read] of a [sus_u32], or of an enumeration over it. *)
Definition write32 (alloc : bool) (v : Z) : M ByteBuffer unit := writes alloc (u32_bytes v).
Definition read32 : M ByteBuffer Z := l ← reads 4; mret (bytes_u32 l).

(** ** Packets *)

Definition RPC_REQUEST_MAGIC : Z := Z.lor (Z.lor (Z.lor 82 (Z.shiftl 80 8)) (Z.shiftl 67 16)) (Z.shiftl 67 24).
Definition RPC_RESPONSE_MAGIC : Z := Z.lor (Z.lor (Z.lor 82 (Z.shiftl 80 8)) (Z.shiftl 67 16)) (Z.shiftl 82 24).

Inductive PacketType := CALL | RESPONSE | SESSION | SESSION_RESPONSE | CLOSE | CLOSE_RESPONSE | ERROR.
Definition packet_type_val (t : PacketType) : Z :=
  match t with CALL => 1 | RESPONSE => 2 | SESSION => 3 | SESSION_RESPONSE => 4 | CLOSE => 5 | CLOSE_RESPONSE => 6 | ERROR => 7 end.

Record SessionPacket := mkSession { s_magic : Z }.
Record SessionResponsePacket := mkSessionResponse { sr_magic : Z; sr_session : Z }.
Record ClosePacket := mkClose { c_magic : Z; c_session : Z }.
Record CloseResponsePacket := mkCloseResponse { cr_magic : Z; cr_session : Z }.
Record ErrorPacket := mkError { e_magic : Z; e_session : Z; e_function : Z; e_code : Z }.
Record CallPacket := mkCall { call_magic : Z; call_session : Z; call_function : Z; call_types : list Z; call_argbuf : ByteBuffer }.
Record ResponsePacket := mkResponse { r_magic : Z; r_session : Z; r_function : Z; r_type : Z; r_retbuf : ByteBuffer }.

(** ** Encoding *)

Definition finish_packet (b : ByteBuffer) : Result MsgPacket :=
  if MAX_MSG_SIZE <? size b then Err OUT_OF_BOUNDARY
  else Ok (mkPacket (data b ++ replicate (Z.to_nat (MAX_MSG_SIZE - size b)) 0) (size b) (replicate (Z.to_nat MAX_MSG_CAPS) 0) 0).

Fixpoint write_types (alloc : bool) (types : list Z) : M ByteBuffer unit :=
  match types with
  | [] => mret tt
  | t :: types => _ ← write32 alloc t; write_types alloc types
  end.
Definition encode_types (alloc : bool) (types : list Z) : M ByteBuffer unit :=
  _ ← write32 alloc (wrap32 (Z.of_nat (length types)));
  write_types alloc types.
Definition encode_data (alloc : bool) (d : ByteBuffer) : M ByteBuffer unit :=
  _ ← write32 alloc (wrap32 (size d));
  writes alloc (data d).
Definition encode_header (alloc : bool) (rpc_magic service_magic : Z) (t : PacketType) : M ByteBuffer unit :=
  _ ← write32 alloc rpc_magic;
  _ ← write32 alloc service_magic;
  write32 alloc (packet_type_val t).

(** Run the writer over a new buffer of the given capacity and finish the packet. *)
Definition with_buffer (cap : Z) (w : M ByteBuffer unit) : Result MsgPacket :=
  match w (new_writer cap) with
  | Fin (Ok _) b => finish_packet b
  | Fin (Err e) _ => Err e
  | _ => Err UNKNOWN_ERROR
  end.

Definition encode_session (alloc : bool) (p : SessionPacket) : Result MsgPacket :=
  with_buffer (4 + 4 + 4) (encode_header alloc RPC_REQUEST_MAGIC (s_magic p) SESSION).
Definition encode_session_response (alloc : bool) (p : SessionResponsePacket) : Result MsgPacket :=
  with_buffer (4 + 8 + 4)
    (_ ← encode_header alloc RPC_RESPONSE_MAGIC (sr_magic p) SESSION_RESPONSE; write32 alloc (sr_session p)).
Definition encode_close (alloc : bool) (p : ClosePacket) : Result MsgPacket :=
  with_buffer (4 + 8 + 4)
    (_ ← encode_header alloc RPC_REQUEST_MAGIC (c_magic p) CLOSE; write32 alloc (c_session p)).
Definition encode_close_response (alloc : bool) (p : CloseResponsePacket) : Result MsgPacket :=
  with_buffer (4 + 8 + 4)
    (_ ← encode_header alloc RPC_RESPONSE_MAGIC (cr_magic p) CLOSE_RESPONSE; write32 alloc (cr_session p)).
Definition encode_call (alloc : bool) (p : CallPacket) : Result MsgPacket :=
  with_buffer (4 + 4 + 4 + 4 + 4 + 4 + 4 * Z.of_nat (length (call_types p)) + 4 + size (call_argbuf p))
    (_ ← encode_header alloc RPC_REQUEST_MAGIC (call_magic p) CALL;
     _ ← write32 alloc (call_session p);
     _ ← write32 alloc (call_function p);
     _ ← encode_types alloc (call_types p);
     encode_data alloc (call_argbuf p)).
Definition encode_response (alloc : bool) (p : ResponsePacket) : Result MsgPacket :=
  with_buffer (4 + 4 + 4 + 4 + 4 + 4 + 4 + size (r_retbuf p))
    (_ ← encode_header alloc RPC_RESPONSE_MAGIC (r_magic p) RESPONSE;
     _ ← write32 alloc (r_session p);
     _ ← write32 alloc (r_function p);
     _ ← write32 alloc (r_type p);
     encode_data alloc (r_retbuf p)).
Definition encode_error (alloc : bool) (p : ErrorPacket) : Result MsgPacket :=
  with_buffer (4 + 4 + 4 + 4 + 4 + 4)
    (_ ← encode_header alloc RPC_RESPONSE_MAGIC (e_magic p) ERROR;
     _ ← write32 alloc (e_session p);
     _ ← write32 alloc (e_function p);
     write32 alloc (e_code p)).

(** ** Recognising packets *)

Definition is_rpc_message (m : MsgPacket) : bool :=
  if msgsz m <? 4 * 2 + 4 then false
  else
    let magic := bytes_u32 (take 4 (msgbuf m)) in
    (magic =? RPC_REQUEST_MAGIC) || (magic =? RPC_RESPONSE_MAGIC).
(** The number of the type, 0 when the message is too short. *)
Definition peek_type (m : MsgPacket) : Z :=
  if msgsz m <? 4 * 2 + 4 then 0 else bytes_u32 (take 4 (drop 8 (msgbuf m))).

(** ** Decoding *)

(** [make_reader]; [alloc] is whether the copy of the message can be allocated. *)
Definition make_reader (alloc : bool) (m : MsgPacket) : Result ByteBuffer :=
  if (MAX_MSG_SIZE <? msgsz m) || (MAX_MSG_CAPS <? capsz m) then Err OUT_OF_BOUNDARY
  else if negb alloc then Err ALLOCATION_FAILED
  else Ok (new_reader (take (Z.to_nat (msgsz m)) (msgbuf m))).

Definition decode_header (expected_magic : Z) (expected_type : PacketType) : M ByteBuffer Z :=
  rpc_magic ← read32;
  if negb (rpc_magic =? expected_magic) then fail TYPE_NOT_MATCHED
  else
    service_magic ← read32;
    t ← read32;
    if negb (t =? packet_type_val expected_type) then fail TYPE_NOT_MATCHED
    else mret service_magic.

Fixpoint read_types (n : nat) : M ByteBuffer (list Z) :=
  match n with
  | O => mret []
  | S n => t ← read32; ts ← read_types n; mret (t :: ts)
  end.
Definition decode_types : M ByteBuffer (list Z) :=
  type_count ← read32;
  read_types (Z.to_nat type_count).
Definition decode_data (alloc : bool) : M ByteBuffer ByteBuffer :=
  data_size ← read32;
  if negb alloc then fail ALLOCATION_FAILED
  else
    bytes ← reads data_size;
    mret (new_reader bytes).

(** Read a message with [r]. *)
Definition with_reader {A} (alloc : bool) (m : MsgPacket) (r : M ByteBuffer A) : Result A :=
  match make_reader alloc m with
  | Err e => Err e
  | Ok b => match r b with Fin x _ => x | _ => Err UNKNOWN_ERROR end
  end.

Definition decode_session (alloc : bool) (m : MsgPacket) : Result SessionPacket :=
  with_reader alloc m (magic ← decode_header RPC_REQUEST_MAGIC SESSION; mret (mkSession magic)).
Definition decode_session_response (alloc : bool) (m : MsgPacket) : Result SessionResponsePacket :=
  with_reader alloc m
    (magic ← decode_header RPC_RESPONSE_MAGIC SESSION_RESPONSE; session ← read32; mret (mkSessionResponse magic session)).
Definition decode_close (alloc : bool) (m : MsgPacket) : Result ClosePacket :=
  with_reader alloc m
    (magic ← decode_header RPC_REQUEST_MAGIC CLOSE; session ← read32; mret (mkClose magic session)).
Definition decode_close_response (alloc : bool) (m : MsgPacket) : Result CloseResponsePacket :=
  with_reader alloc m
    (magic ← decode_header RPC_RESPONSE_MAGIC CLOSE_RESPONSE; session ← read32; mret (mkCloseResponse magic session)).
Definition decode_call (alloc : bool) (m : MsgPacket) : Result CallPacket :=
  with_reader alloc m
    (magic ← decode_header RPC_REQUEST_MAGIC CALL;
     session ← read32;
     function ← read32;
     types ← decode_types;
     args ← decode_data alloc;
     mret (mkCall magic session function types args)).
Definition decode_response (alloc : bool) (m : MsgPacket) : Result ResponsePacket :=
  with_reader alloc m
    (magic ← decode_header RPC_RESPONSE_MAGIC RESPONSE;
     session ← read32;
     function ← read32;
     return_type ← read32;
     value ← decode_data alloc;
     mret (mkResponse magic session function return_type value)).
Definition decode_error (alloc : bool) (m : MsgPacket) : Result ErrorPacket :=
  with_reader alloc m
    (magic ← decode_header RPC_RESPONSE_MAGIC ERROR;
     session ← read32;
     function ← read32;
     code ← read32;
     mret (mkError magic session function code)).

(** ** The wire format *)

(** Any packet, and its bytes. *)
Inductive packet :=
  | PSession (p : SessionPacket) | PSessionResponse (p : SessionResponsePacket)
  | PClose (p : ClosePacket) | PCloseResponse (p : CloseResponsePacket)
  | PCall (p : CallPacket) | PResponse (p : ResponsePacket) | PError (p : ErrorPacket).

Definition type_of (p : packet) : PacketType :=
  match p with
  | PSession _ => SESSION | PSessionResponse _ => SESSION_RESPONSE | PClose _ => CLOSE | PCloseResponse _ => CLOSE_RESPONSE
  | PCall _ => CALL | PResponse _ => RESPONSE | PError _ => ERROR
  end.
Definition encode (alloc : bool) (p : packet) : Result MsgPacket :=
  match p with
  | PSession p => encode_session alloc p | PSessionResponse p => encode_session_response alloc p
  | PClose p => encode_close alloc p | PCloseResponse p => encode_close_response alloc p
  | PCall p => encode_call alloc p | PResponse p => encode_response alloc p | PError p => encode_error alloc p
  end.
Definition decode (t : PacketType) (alloc : bool) (m : MsgPacket) : Result packet :=
  match t with
  | SESSION => PSession <$> decode_session alloc m | SESSION_RESPONSE => PSessionResponse <$> decode_session_response alloc m
  | CLOSE => PClose <$> decode_close alloc m | CLOSE_RESPONSE => PCloseResponse <$> decode_close_response alloc m
  | CALL => PCall <$> decode_call alloc m | RESPONSE => PResponse <$> decode_response alloc m
  | ERROR => PError <$> decode_error alloc m
  end.

Fixpoint words_bytes (l : list Z) : list Z := match l with [] => [] | w :: l => u32_bytes w ++ words_bytes l end.
Definition counted (l : list Z) (d : list Z) : list Z := u32_bytes (wrap32 (Z.of_nat (length l))) ++ d.
Definition header (magic service : Z) (t : PacketType) : list Z :=
  u32_bytes magic ++ u32_bytes service ++ u32_bytes (packet_type_val t).
Definition magic_of (t : PacketType) : Z :=
  match t with CALL | SESSION | CLOSE => RPC_REQUEST_MAGIC | _ => RPC_RESPONSE_MAGIC end.
Definition service_of (p : packet) : Z :=
  match p with
  | PSession p => s_magic p | PSessionResponse p => sr_magic p | PClose p => c_magic p | PCloseResponse p => cr_magic p
  | PCall p => call_magic p | PResponse p => r_magic p | PError p => e_magic p
  end.
Definition body (p : packet) : list Z :=
  match p with
  | PSession _ => []
  | PSessionResponse p => u32_bytes (sr_session p)
  | PClose p => u32_bytes (c_session p)
  | PCloseResponse p => u32_bytes (cr_session p)
  | PCall p => u32_bytes (call_session p) ++ u32_bytes (call_function p) ++
      counted (call_types p) (words_bytes (call_types p)) ++ counted (data (call_argbuf p)) (data (call_argbuf p))
  | PResponse p => u32_bytes (r_session p) ++ u32_bytes (r_function p) ++ u32_bytes (r_type p) ++
      counted (data (r_retbuf p)) (data (r_retbuf p))
  | PError p => u32_bytes (e_session p) ++ u32_bytes (e_function p) ++ u32_bytes (e_code p)
  end.
Definition wire (p : packet) : list Z := header (magic_of (type_of p)) (service_of p) (type_of p) ++ body p.

Definition words (p : packet) : list Z :=
  match p with
  | PSession p => [s_magic p] | PSessionResponse p => [sr_magic p; sr_session p] | PClose p => [c_magic p; c_session p]
  | PCloseResponse p => [cr_magic p; cr_session p]
  | PCall p => [call_magic p; call_session p; call_function p] ++ call_types p
  | PResponse p => [r_magic p; r_session p; r_function p; r_type p]
  | PError p => [e_magic p; e_session p; e_function p; e_code p]
  end.
(** The numbers of a packet fit their type. *)
Definition valid (p : packet) : Prop := Forall is_u32 (words p).

(** A decoded packet holds its data in a buffer for reading. *)
Definition reading (b : ByteBuffer) : ByteBuffer := new_reader (data b).
Definition decoded (p : packet) : packet :=
  match p with
  | PCall p => PCall (mkCall (call_magic p) (call_session p) (call_function p) (call_types p) (reading (call_argbuf p)))
  | PResponse p => PResponse (mkResponse (r_magic p) (r_session p) (r_function p) (r_type p) (reading (r_retbuf p)))
  | p => p
  end.

(** *** Numbers *)

Lemma u32_bytes_inv v : is_u32 v → bytes_u32 (u32_bytes v) = v.
Proof. intros Hv. unfold is_u32, W32 in Hv. cbn. Z.to_euclidean_division_equations. lia. Qed.
Definition is_byte (z : Z) : Prop := 0 <= z < 256.
Lemma bytes_u32_inv l : length l = 4%nat → Forall is_byte l → u32_bytes (bytes_u32 l) = l.
Proof.
  destruct l as [|a [|b [|c [|d [|]]]]]; try done. intros _. rewrite !Forall_cons. unfold is_byte. intros (Ha & Hb & Hc & Hd & _).
  unfold u32_bytes, bytes_u32. repeat f_equal; Z.to_euclidean_division_equations; lia.
Qed.
Lemma bytes_u32_range l : Forall is_byte l → is_u32 (bytes_u32 l).
Proof.
  unfold is_u32, W32. destruct l as [|a [|b [|c [|d [|]]]]]; try (simpl; lia). rewrite !Forall_cons. unfold is_byte. simpl. lia.
Qed.

(** *** Writers: [emits w l] appends [l] when it fits *)

Definition append (b : ByteBuffer) (l : list Z) : ByteBuffer := mkBuf (data b ++ l) (read_pos b) (capacity b) (dir b).
Definition emits (w : M ByteBuffer unit) (l : list Z) : Prop :=
  ∀ b, dir b = WRITE → size b + Z.of_nat (length l) <= capacity b → w b = Fin (Ok tt) (append b l).

Lemma append_size b l : size (append b l) = size b + Z.of_nat (length l).
Proof. unfold size. simpl. rewrite length_app. lia. Qed.
Lemma emits_seq w1 w2 l1 l2 : emits w1 l1 → emits w2 l2 → emits (_ ← w1; w2) (l1 ++ l2).
Proof.
  intros H1 H2 b Hd Hs. rewrite length_app in Hs. rewrite (bind_run _ _ _ _ _ (H1 b Hd ltac:(lia))).
  rewrite H2; [|done|rewrite append_size; simpl; lia]. unfold append. simpl. by rewrite app_assoc.
Qed.
Lemma emits_writes alloc l : emits (writes alloc l) l.
Proof.
  intros b Hd Hs. destruct b as [d r c dr]. simpl in Hd, Hs. subst dr. unfold writes.
  rewrite (bind_run (gets dir) _ (mkBuf d r c WRITE) WRITE (mkBuf d r c WRITE) eq_refl).
  rewrite bool_decide_eq_true_2 by done. cbn [negb].
  rewrite (bind_run (M_check_size alloc _) _ (mkBuf d r c WRITE) tt (mkBuf d r c WRITE)); [done|].
  unfold M_check_size, mbind, M_bind, get_st. simpl. by rewrite (proj2 (Z.ltb_ge _ _)) by lia.
Qed.
Lemma emits_write32 alloc v : emits (write32 alloc v) (u32_bytes v).
Proof. apply emits_writes. Qed.
Lemma emits_nil : emits (mret tt) [].
Proof. intros b _ _. unfold append. rewrite app_nil_r. by destruct b. Qed.
Lemma emits_write_types alloc l : emits (write_types alloc l) (words_bytes l).
Proof. induction l as [|t l IH]; [apply emits_nil|]. cbn [write_types]. apply emits_seq; [apply emits_write32|done]. Qed.
Lemma emits_header alloc magic service t : emits (encode_header alloc magic service t) (header magic service t).
Proof. unfold encode_header, header. repeat apply emits_seq; apply emits_write32. Qed.
Lemma emits_types alloc l : emits (encode_types alloc l) (counted l (words_bytes l)).
Proof. apply emits_seq; [apply emits_write32|apply emits_write_types]. Qed.
Lemma emits_data alloc d : emits (encode_data alloc d) (counted (data d) (data d)).
Proof. apply emits_seq; [apply emits_write32|apply emits_writes]. Qed.
Ltac emit_step :=
  lazymatch goal with
  | |- emits (encode_header _ _ _ _) _ => apply emits_header
  | |- emits (encode_types _ _) _ => apply emits_types
  | |- emits (encode_data _ _) _ => apply emits_data
  | |- emits (write32 _ _) _ => apply emits_write32
  | |- emits _ _ => apply emits_seq
  end.

(** A packet with the given bytes. *)
Definition pack (l : list Z) : MsgPacket :=
  mkPacket (l ++ replicate (Z.to_nat (MAX_MSG_SIZE - Z.of_nat (length l))) 0) (Z.of_nat (length l)) (replicate (Z.to_nat MAX_MSG_CAPS) 0) 0.
Lemma with_buffer_run cap w l :
  emits w l → Z.of_nat (length l) <= cap →
  with_buffer cap w = if MAX_MSG_SIZE <? Z.of_nat (length l) then Err OUT_OF_BOUNDARY else Ok (pack l).
Proof. intros Hw Hl. unfold with_buffer. by rewrite Hw by done. Qed.
Lemma u32_length v : length (u32_bytes v) = 4%nat.
Proof. done. Qed.
Lemma header_length magic service t : length (header magic service t) = 12%nat.
Proof. done. Qed.
Lemma counted_length l d : length (counted l d) = (4 + length d)%nat.
Proof. done. Qed.
Lemma words_bytes_length l : length (words_bytes l) = (4 * length l)%nat.
Proof. induction l as [|x l IH]; [done|]. cbn [words_bytes]. rewrite length_app, IH, u32_length. cbn [length]. lia. Qed.

(** Every encoder produces the wire format, or reports that it does not fit; the
    buffers have the right capacity from the start. *)
Lemma encode_run alloc p :
  encode alloc p = if MAX_MSG_SIZE <? Z.of_nat (length (wire p)) then Err OUT_OF_BOUNDARY else Ok (pack (wire p)).
Proof.
  destruct p as [p|p|p|p|p|p|p]; cbn [encode]; unfold wire; cbn [type_of magic_of service_of body];
    (apply with_buffer_run;
      [|rewrite ?length_app, ?header_length, ?counted_length, ?words_bytes_length, ?u32_length; unfold size; cbn [length]; lia]).
  1: rewrite app_nil_r; apply emits_header.
  all: repeat emit_step.
Qed.

(** *** Readers: [accepts r l v] reads [l] as [v] *)

Definition advance (b : ByteBuffer) (n : nat) : ByteBuffer := mkBuf (data b) (read_pos b + Z.of_nat n) (capacity b) (dir b).
Definition rest (b : ByteBuffer) : list Z := drop (Z.to_nat (read_pos b)) (data b).
Definition reader_ok (b : ByteBuffer) : Prop := dir b = READ ∧ 0 <= read_pos b <= size b.

Definition accepts {A} (r : M ByteBuffer A) (l : list Z) (v : A) : Prop :=
  ∀ b t, reader_ok b → rest b = l ++ t → r b = Fin (Ok v) (advance b (length l)).

Lemma advance_rest b l t : reader_ok b → rest b = l ++ t → rest (advance b (length l)) = t ∧ reader_ok (advance b (length l)).
Proof.
  intros [Hd Hp] E. unfold rest, reader_ok, size in *. cbn [advance data read_pos dir]. rewrite Z2Nat.inj_add, Nat2Z.id by lia.
  rewrite <- drop_drop, E, drop_app_length. split; [done|]. split; [done|].
  assert (Hl : length (drop (Z.to_nat (read_pos b)) (data b)) = length (l ++ t)) by by rewrite E.
  rewrite length_drop, length_app in Hl. lia.
Qed.
Lemma accepts_bind {A B} (r : M ByteBuffer A) (k : A → M ByteBuffer B) l1 l2 v1 v2 :
  accepts r l1 v1 → accepts (k v1) l2 v2 → accepts (x ← r; k x) (l1 ++ l2) v2.
Proof.
  intros H1 H2 b t Hb E. rewrite <- app_assoc in E. rewrite (bind_run _ _ _ _ _ (H1 b _ Hb E)).
  destruct (advance_rest b l1 _ Hb E) as [E' Hb']. rewrite (H2 _ t Hb' E'). unfold advance. cbn [data read_pos capacity dir].
  rewrite length_app. do 2 f_equal. lia.
Qed.
Lemma accepts_ret {A} (v : A) : accepts (mret v) [] v.
Proof. intros b t _ _. unfold advance. simpl. rewrite Z.add_0_r. by destruct b. Qed.
Lemma accepts_reads l : accepts (reads (Z.of_nat (length l))) l l.
Proof.
  intros b t [Hd Hp] E. unfold rest, size in *.
  assert (Hl : length (drop (Z.to_nat (read_pos b)) (data b)) = length (l ++ t)) by by rewrite E.
  rewrite length_drop, length_app in Hl.
  unfold reads. erewrite bind_run by reflexivity. rewrite Hd, bool_decide_eq_true_2 by done. cbn [negb].
  rewrite (proj2 (Z.ltb_ge _ _)) by (unfold size; lia). erewrite bind_run by reflexivity.
  rewrite E, Nat2Z.id, take_app_length. unfold advance. by rewrite Hd.
Qed.
Lemma accepts_read32 v : is_u32 v → accepts read32 (u32_bytes v) v.
Proof.
  intros Hv. unfold read32. rewrite <- (app_nil_r (u32_bytes v)). eapply accepts_bind; [apply (accepts_reads (u32_bytes v))|].
  rewrite u32_bytes_inv by done. apply accepts_ret.
Qed.
Lemma accepts_types l : Forall is_u32 l → accepts (read_types (length l)) (words_bytes l) l.
Proof.
  induction 1 as [|v l Hv Hl IH]; [apply accepts_ret|]. cbn [length read_types words_bytes].
  eapply accepts_bind; [by apply accepts_read32|]. rewrite <- (app_nil_r (words_bytes l)). eapply accepts_bind; [done|apply accepts_ret].
Qed.
Lemma u32_small n : Z.of_nat n < W32 → is_u32 (wrap32 (Z.of_nat n)) ∧ wrap32 (Z.of_nat n) = Z.of_nat n.
Proof. intros Hn. unfold wrap32, is_u32. rewrite Z.mod_small by lia. lia. Qed.
Lemma accepts_decode_types l :
  Forall is_u32 l → Z.of_nat (length l) < W32 → accepts decode_types (counted l (words_bytes l)) l.
Proof.
  intros Hl Hn. destruct (u32_small _ Hn) as [H1 H2]. unfold decode_types, counted.
  eapply accepts_bind; [by apply accepts_read32|]. rewrite H2, Nat2Z.id. by apply accepts_types.
Qed.
Lemma accepts_decode_data l : Z.of_nat (length l) < W32 → accepts (decode_data true) (counted l l) (new_reader l).
Proof.
  intros Hn. destruct (u32_small _ Hn) as [H1 H2]. unfold decode_data, counted.
  eapply accepts_bind; [by apply accepts_read32|]. cbn [negb]. rewrite H2. rewrite <- (app_nil_r l) at 2.
  eapply accepts_bind; [apply accepts_reads|apply accepts_ret].
Qed.
Lemma type_u32 t : is_u32 (packet_type_val t).
Proof. unfold is_u32, W32. destruct t; simpl; lia. Qed.
Lemma magic_u32 t : is_u32 (magic_of t).
Proof. destruct t; split; by vm_compute. Qed.
Lemma accepts_header t service : is_u32 service → accepts (decode_header (magic_of t) t) (header (magic_of t) service t) service.
Proof.
  intros Hs. unfold decode_header, header. eapply accepts_bind; [apply accepts_read32, magic_u32|]. rewrite Z.eqb_refl. cbn [negb].
  eapply accepts_bind; [by apply accepts_read32|]. rewrite <- (app_nil_r (u32_bytes (packet_type_val t))).
  eapply accepts_bind; [apply accepts_read32, type_u32|]. rewrite Z.eqb_refl. apply accepts_ret.
Qed.

Lemma with_reader_run {A} (r : M ByteBuffer A) l v :
  accepts r l v → Z.of_nat (length l) <= MAX_MSG_SIZE → with_reader true (pack l) r = Ok v.
Proof.
  intros Hr Hl. unfold with_reader, make_reader. cbn [pack msgsz capsz msgbuf]. rewrite (proj2 (Z.ltb_ge _ _)) by done. cbn [orb].
  rewrite (proj2 (Z.ltb_ge _ _)) by done. cbn [negb]. rewrite Nat2Z.id, take_app_length.
  rewrite (Hr _ []); [done| |unfold rest; simpl; by rewrite app_nil_r].
  split; [done|]. unfold size. simpl. lia.
Qed.

Lemma accepts_end {A B} (r : M ByteBuffer A) (F : A → B) l v : accepts r l v → accepts (x ← r; mret (F x)) l (F v).
Proof. intros Hr. rewrite <- (app_nil_r l). eapply accepts_bind; [exact Hr|apply accepts_ret]. Qed.

Lemma words_valid p : valid p → is_u32 (service_of p).
Proof. unfold valid. destruct p; cbn [words service_of app]; by rewrite Forall_cons; intros [? _]. Qed.

(** Lengths below 128 are below 2^32. *)
Ltac small := rewrite ?length_app, ?header_length, ?counted_length, ?words_bytes_length, ?u32_length in *;
  unfold MAX_MSG_SIZE, W32 in *; lia.

Lemma decode_run p :
  valid p → Z.of_nat (length (wire p)) <= MAX_MSG_SIZE → decode (type_of p) true (pack (wire p)) = Ok (decoded p).
Proof.
  intros Hv Hl. pose proof (accepts_header (type_of p) (service_of p) (words_valid p Hv)) as Hh. unfold valid in Hv. unfold wire in *.
  destruct p as [[m]|[m i]|[m i]|[m i]|[m i f ts a]|[m i f rt a]|[m i f e]]; cbn in Hv; rewrite ?Forall_cons in Hv;
    cbn [decode type_of decoded service_of body] in *.
  - unfold decode_session. rewrite app_nil_r in *. erewrite with_reader_run; [|apply (accepts_end _ mkSession); exact Hh|done]. done.
  - unfold decode_session_response. erewrite with_reader_run; [|eapply accepts_bind; [exact Hh|]; apply (accepts_end _ (mkSessionResponse m)), accepts_read32, Hv|done]. done.
  - unfold decode_close. erewrite with_reader_run; [|eapply accepts_bind; [exact Hh|]; apply (accepts_end _ (mkClose m)), accepts_read32, Hv|done]. done.
  - unfold decode_close_response. erewrite with_reader_run; [|eapply accepts_bind; [exact Hh|]; apply (accepts_end _ (mkCloseResponse m)), accepts_read32, Hv|done]. done.
  - destruct Hv as (? & ? & ? & Hts). unfold decode_call. erewrite with_reader_run; [|eapply accepts_bind; [exact Hh|]|done].
    2: { eapply accepts_bind; [by apply accepts_read32|]. eapply accepts_bind; [by apply accepts_read32|]. eapply accepts_bind.
         - apply accepts_decode_types; [exact Hts|]. cbn [call_types call_argbuf] in *. small.
         - apply (accepts_end _ (mkCall m i f ts)), accepts_decode_data. cbn [call_types call_argbuf] in *. small. }
    done.
  - destruct Hv as (? & ? & ? & ? & _). unfold decode_response. erewrite with_reader_run; [|eapply accepts_bind; [exact Hh|]|done].
    2: { do 3 (eapply accepts_bind; [by apply accepts_read32|]).
         apply (accepts_end _ (mkResponse m i f rt)), accepts_decode_data. cbn [r_retbuf] in *. small. }
    done.
  - destruct Hv as (? & ? & ? & ? & _). unfold decode_error. erewrite with_reader_run; [|eapply accepts_bind; [exact Hh|]|done].
    2: { do 2 (eapply accepts_bind; [by apply accepts_read32|]). by apply (accepts_end _ (mkError m i f)), accepts_read32. }
    done.
Qed.

Lemma pack_recognised p :
  is_rpc_message (pack (wire p)) = true ∧ peek_type (pack (wire p)) = packet_type_val (type_of p).
Proof.
  assert (Hl : (12 <= length (wire p))%nat) by (unfold wire; rewrite length_app, header_length; lia).
  unfold is_rpc_message, peek_type. cbn [pack msgsz msgbuf]. rewrite (proj2 (Z.ltb_ge _ _)) by lia. unfold wire, header. rewrite <- !app_assoc.
  rewrite (take_app_length' (u32_bytes _)) by done. rewrite u32_bytes_inv by apply magic_u32. split; [by destruct p|].
  rewrite (app_assoc (u32_bytes _) (u32_bytes _)), drop_app_length' by done. rewrite (take_app_length' (u32_bytes _)) by done.
  by rewrite u32_bytes_inv by apply type_u32.
Qed.

(** C35: what is encoded is decoded again.  A packet whose bytes fit a message is
    encoded, without growing the buffer it is written to; the message is recognised
    as an RPC message of its type, and decoding it as that type gives the packet,
    with its data in a buffer for reading.  A packet that does not fit is refused. *)
Theorem rpc_roundtrip alloc p :
  valid p →
  match encode alloc p with
  | Ok m => decode (type_of p) true m = Ok (decoded p) ∧ is_rpc_message m = true ∧ peek_type m = packet_type_val (type_of p)
  | Err e => e = OUT_OF_BOUNDARY ∧ MAX_MSG_SIZE < Z.of_nat (length (wire p))
  end.
Proof.
  intros Hv. rewrite encode_run. destruct (Z.ltb_spec MAX_MSG_SIZE (Z.of_nat (length (wire p)))) as [Hl|Hl]; [done|].
  split; [by apply decode_run|]. apply pack_recognised.
Qed.

(** ** Decoding what was not encoded *)

(** [r] returns a value that stands for the bytes it consumes. *)
Definition consumes {A} (r : M ByteBuffer A) (R : A → list Z → Prop) : Prop :=
  ∀ b v b', reader_ok b → Forall is_byte (data b) → r b = Fin (Ok v) b' →
    ∃ l t, rest b = l ++ t ∧ b' = advance b (length l) ∧ R v l.

Lemma consumes_bind {A B} (r : M ByteBuffer A) (k : A → M ByteBuffer B) R1 R2 :
  consumes r R1 → (∀ v, consumes (k v) (R2 v)) →
  consumes (x ← r; k x) (λ w l, ∃ v l1 l2, l = l1 ++ l2 ∧ R1 v l1 ∧ R2 v w l2).
Proof.
  intros H1 H2 b w b' Hb Hd. unfold mbind, M_bind. destruct (r b) as [[v|] b1| |] eqn:E; try done. intros E2.
  destruct (H1 b v b1 Hb Hd E) as (l1 & t1 & Er & -> & HR1).
  destruct (advance_rest b l1 t1 Hb Er) as [Er' Hb'].
  destruct (H2 v _ w b' Hb' Hd E2) as (l2 & t2 & Er2 & -> & HR2).
  exists (l1 ++ l2), t2. split_and!; [by rewrite Er, <- Er', Er2, app_assoc| |by exists v, l1, l2].
  unfold advance. cbn [data read_pos capacity dir]. rewrite length_app. f_equal. lia.
Qed.
Lemma consumes_mono {A} (r : M ByteBuffer A) (R1 R2 : A → list Z → Prop) :
  consumes r R1 → (∀ v l, R1 v l → R2 v l) → consumes r R2.
Proof. intros H1 HR b v b' Hb Hd E. destruct (H1 b v b' Hb Hd E) as (l & t & ? & ? & ?). exists l, t. auto. Qed.
Lemma consumes_ret {A} (v : A) : consumes (mret v) (λ w l, w = v ∧ l = []).
Proof.
  intros b w b' _ _ [= <- <-]. exists [], (rest b). split_and!; try done. unfold advance. simpl. rewrite Z.add_0_r. by destruct b.
Qed.
Lemma consumes_fail {A} e R : consumes (fail e : M ByteBuffer A) R.
Proof. by intros b w b' _ _ [=]. Qed.
Lemma consumes_reads sz : 0 <= sz → consumes (reads sz) (λ v l, v = l ∧ Z.of_nat (length l) = sz ∧ Forall is_byte l).
Proof.
  intros Hsz b v b' [Hd Hp] Hb. unfold reads. erewrite bind_run by reflexivity. rewrite Hd, bool_decide_eq_true_2 by done. cbn [negb].
  destruct (Z.ltb_spec (size b) (read_pos b + sz)) as [|Hle]; [done|]. erewrite bind_run by reflexivity. intros [= <- <-].
  set (l := drop (Z.to_nat (read_pos b)) (data b)). unfold size in *.
  assert (Hll : (Z.to_nat sz <= length l)%nat) by (unfold l; rewrite length_drop; lia).
  exists (take (Z.to_nat sz) l), (drop (Z.to_nat sz) l). rewrite length_take, Nat.min_l by done. split_and!.
  - unfold rest. fold l. by rewrite take_drop.
  - unfold advance. rewrite Hd, Z2Nat.id by done. done.
  - done.
  - rewrite Z2Nat.id; done.
  - apply Forall_take. by apply Forall_drop.
Qed.
Lemma consumes_read32 : consumes read32 (λ v l, l = u32_bytes v ∧ is_u32 v).
Proof.
  eapply consumes_mono; [eapply consumes_bind; [by apply consumes_reads|intros; apply consumes_ret]|].
  intros v l (w & l1 & l2 & -> & (-> & Hl & Hb) & -> & ->). rewrite app_nil_r. split; [|by apply bytes_u32_range].
  symmetry. apply bytes_u32_inv; [lia|done].
Qed.
Lemma consumes_types n : consumes (read_types n) (λ v l, l = words_bytes v ∧ Forall is_u32 v ∧ length v = n).
Proof.
  induction n as [|n IH]; cbn [read_types].
  - eapply consumes_mono; [apply consumes_ret|]. by intros v l [-> ->].
  - eapply consumes_mono; [eapply consumes_bind; [apply consumes_read32|]; intros; eapply consumes_bind; [exact IH|]; intros; apply consumes_ret|].
    intros v l (w & l1 & l2 & -> & [-> Hw] & (ws & l3 & l4 & -> & (-> & Hws & Hn) & -> & ->)). rewrite app_nil_r.
    split_and!; [done|by constructor|simpl; lia].
Qed.
Lemma counted_nat (l d : list Z) z : is_u32 z → Z.of_nat (length l) = z → u32_bytes z ++ d = counted l d.
Proof. intros Hz <-. unfold counted, wrap32. by rewrite Z.mod_small. Qed.
Lemma consumes_decode_types : consumes decode_types (λ v l, l = counted v (words_bytes v) ∧ Forall is_u32 v).
Proof.
  eapply consumes_mono; [eapply consumes_bind; [apply consumes_read32|]; intros; apply consumes_types|].
  intros v l (z & l1 & l2 & -> & [-> Hz] & -> & Hv & Hn). split; [|done]. apply counted_nat; [done|]. destruct Hz. lia.
Qed.
Lemma consumes_decode_data alloc : consumes (decode_data alloc) (λ v l, l = counted (data v) (data v) ∧ v = reading v).
Proof.
  unfold decode_data. destruct alloc; cbn [negb].
  - intros b v b' Hb Hd E. 
    assert (Hc : consumes (data_size ← read32; (bytes ← reads data_size; mret (new_reader bytes)))
      (λ v l, l = counted (data v) (data v) ∧ v = reading v)).
    { clear. intros b v b' Hb Hd. unfold mbind at 1, M_bind at 1. destruct (read32 b) as [[z|] b1| |] eqn:E; try done. intros E2.
      destruct (consumes_read32 b z b1 Hb Hd E) as (l1 & t1 & Er & -> & -> & Hz). destruct (advance_rest b _ t1 Hb Er) as [Er' Hb'].
      destruct (consumes_bind _ _ _ _ (consumes_reads z ltac:(destruct Hz; lia)) (λ w, consumes_ret (new_reader w)) _ v b' Hb' Hd E2)
        as (l2 & t2 & Er2 & -> & (w & l3 & l4 & -> & (-> & Hl & _) & -> & ->)).
      exists (u32_bytes z ++ l3), t2. rewrite app_nil_r in *. split_and!.
      - by rewrite Er, <- Er', Er2, app_assoc.
      - unfold advance. cbn [data read_pos capacity dir]. rewrite length_app. f_equal. lia.
      - cbn [new_reader data]. by apply counted_nat.
      - done. }
    by apply (Hc b v b').
  - eapply consumes_mono; [eapply consumes_bind; [apply consumes_read32|]; intros; apply (consumes_fail _ (λ _ _, False))|].
    by intros v l (z & l1 & l2 & _ & _ & []).
Qed.
Lemma consumes_header t : consumes (decode_header (magic_of t) t) (λ v l, l = header (magic_of t) v t ∧ is_u32 v).
Proof.
  unfold decode_header.
  eapply (consumes_mono _ (λ v l, ∃ x l1 l2, l = l1 ++ l2 ∧ (l1 = u32_bytes x ∧ is_u32 x) ∧ x = magic_of t ∧
    ∃ l3 y, l2 = u32_bytes v ++ l3 ∧ is_u32 v ∧ l3 = u32_bytes y ∧ y = packet_type_val t)).
  - apply consumes_bind; [apply consumes_read32|]. intros x. destruct (Z.eqb_spec x (magic_of t)) as [->|]; cbn [negb]; [|apply consumes_fail].
    eapply consumes_mono; [eapply consumes_bind; [apply consumes_read32|]; intros v; eapply consumes_bind; [apply consumes_read32|]; intros y;
      apply (λ H, H : consumes (if negb (y =? packet_type_val t) then fail TYPE_NOT_MATCHED else mret v) (λ w l, w = v ∧ l = [] ∧ y = packet_type_val t))|].
    + destruct (Z.eqb_spec y (packet_type_val t)); cbn [negb]; [|apply consumes_fail].
      eapply consumes_mono; [apply consumes_ret|]. by intros w l [-> ->].
    + intros v l (v' & l1 & l2 & -> & [-> Hv] & (y & l3 & l4 & -> & [-> Hy] & -> & -> & ->)). rewrite app_nil_r.
      split; [done|]. by exists (u32_bytes (packet_type_val t)), (packet_type_val t).
  - intros v l (x & l1 & l2 & -> & [-> Hx] & -> & (l3 & y & -> & Hv & -> & ->)). done.
Qed.

Lemma with_reader_sound {A} alloc m (r : M ByteBuffer A) R v :
  consumes r R → Forall is_byte (msgbuf m) → with_reader alloc m r = Ok v →
  ∃ l t, take (Z.to_nat (msgsz m)) (msgbuf m) = l ++ t ∧ R v l.
Proof.
  intros Hr Hb. unfold with_reader, make_reader. destruct (_ || _); [done|]. destruct alloc; [|done]. cbn [negb].
  set (b := new_reader _). destruct (r b) as [x b'| |] eqn:E; try done. intros ->.
  destruct (Hr b v b') as (l & t & Er & _ & HR); [|by apply Forall_take|done|].
  - split; [done|]. unfold size. simpl. lia.
  - exists l, t. split; [|done]. rewrite <- Er. unfold rest, b. simpl. done.
Qed.

Lemma fmap_ok {A B} (F : A → B) (r : Result A) y : F <$> r = Ok y → ∃ x, r = Ok x ∧ y = F x.
Proof. destruct r as [x|]; [|done]. intros [= <-]. by exists x. Qed.

(** Take a decoder apart, part by part. *)
Ltac consume :=
  lazymatch goal with
  | |- consumes (mret _) _ => apply consumes_ret
  | |- consumes _ _ => eapply consumes_bind;
      [first [eassumption|apply consumes_read32|apply consumes_decode_types|apply consumes_decode_data]|intros; consume]
  end.
(** The parts of what it consumed. *)
Ltac parts HR :=
  cbv beta in HR;
  lazymatch type of HR with
  | ∃ _ _ _, _ => let E := fresh "E" in let H1 := fresh "H" in let H2 := fresh "H" in
      destruct HR as (? & ? & ? & E & H1 & H2); destruct H1 as [-> H1]; subst; parts H2
  | _ ∧ _ => let Ev := fresh "E" in destruct HR as [Ev ->]; rewrite Ev; clear Ev
  end.
Ltac words_ok := cbn [words app]; repeat (apply Forall_cons; split; [done|]); first [done|constructor].

(** C36: whatever bytes arrive, a decoder accepts nothing but its own format.  When a
    message is decoded as a type, the packet is of that type, its numbers are in
    range, and the message starts with the bytes the packet is encoded to; bytes
    that follow them are ignored. *)
Theorem rpc_decode_sound t alloc m p :
  Forall is_byte (msgbuf m) → decode t alloc m = Ok p →
  type_of p = t ∧ valid p ∧ ∃ rest, take (Z.to_nat (msgsz m)) (msgbuf m) = wire p ++ rest.
Proof.
  intros Hb Hd. unfold valid, wire. pose proof (consumes_header t) as Hh.
  destruct t; cbn [decode] in Hd; apply fmap_ok in Hd as (x & Hd & ->); cbn [type_of] in *; (split; [done|]);
    (eapply with_reader_sound in Hd as (l & r & E & HR); [|consume|exact Hb]); parts HR;
    (split; [words_ok|]); exists r; rewrite E; cbn [body service_of]; by rewrite ?app_nil_r, <- ?app_assoc.
Qed.
End Rpc.

Module RpcWitness.
Import Rpc.
Definition ex_call : packet := PCall (mkCall 7 1 2 [2; 3] (new_reader [10; 20; 30])).
Lemma ex_valid : valid ex_call.
Proof. repeat constructor; vm_compute; by intros. Qed.
Lemma rpc_roundtrip_witness :
  ∃ m, encode false ex_call = Ok m ∧ decode CALL true m = Ok ex_call.
Proof.
  pose proof (rpc_roundtrip false ex_call ex_valid) as H.
  destruct (encode false ex_call) as [m|e] eqn:E; [exists m; split; [reflexivity|exact (proj1 H)]|].
  exfalso. vm_compute in E. discriminate E.
Defined.
Definition ex_msg : MsgPacket := pack (wire ex_call ++ [1; 2]).
Lemma rpc_decode_sound_witness :
  Forall is_byte (msgbuf ex_msg) ∧ decode CALL true ex_msg = Ok ex_call ∧
  ∃ rest, take (Z.to_nat (msgsz ex_msg)) (msgbuf ex_msg) = wire ex_call ++ rest.
Proof.
  assert (Hb : Forall is_byte (msgbuf ex_msg)) by (apply (bool_decide_unpack _); vm_compute; exact I).
  assert (Hd : decode CALL true ex_msg = Ok ex_call) by (vm_compute; reflexivity).
  split; [exact Hb|]. split; [exact Hd|]. exact (proj2 (proj2 (rpc_decode_sound CALL true ex_msg ex_call Hb Hd))).
Defined.
End RpcWitness.
